(* ===== verification/_CoqProject ===== *)
-Q . S2P
Prelude.v
Bytes.v
Crates.v
Errors.v
Length.v
Headers.v
MemRead.v
Decode.v
DecodeSpec.v
ChunkedGrammar.v
DecodeRefine.v
BodyTheorems.v
BufList.v
WriteBuf.v
Transport.v
Buffered.v
BufferedLaws.v
Encode.v
EncodeLaws.v
Message.v
Role.v
RoleLaws.v
RoleParse.v
Conn.v
ConnInv.v
ConnRead.v
ConnWrite.v
ConnWire.v
ConnTheorems.v
ConnPhase.v
DispatchChan.v
BodyChan.v
Client.v
Dispatcher.v
DispatcherLaws.v
DispatcherTheorems.v
Wire.v
Capsule.v
Datagram.v
DatagramLaws.v
DatagramOps.v
DatagramTheorems.v
MasqueTunnel.v
MasqueLaws.v
MasqueTheorems.v
Net.v
Async.v
SocksUdp.v
SocksLaws.v
SocksTheorems.v
Proxy.v
HttpTunnel.v
HttpTunnelTheorems.v
Ping.v
PingLaws.v
PingTheorems.v
Http2Opts.v
Http2Pipe.v
Http2PipeLaws.v
Http2Peer.v
Http2Client.v
Http2ClientLaws.v
Http2ClientTheorems.v
Http2Conn.v
Http2ConnTheorems.v
Http2Recv.v
Http2Upgrade.v
Http2UpgradeTheorems.v
MasqueTemplate.v
MasqueTemplateTheorems.v
Upgrade.v
MasqueRequest.v
Http3Shared.v
Http3SharedTheorems.v
Http3Exchange.v
Http3ExchangeTheorems.v
Http3Body.v
Http3Request.v
Http3Upgrade.v
SocksTcp.v
