(* ===== verification/Prelude.v ===== *)
(** * netty: a verification development

    netty is an HTTP client library. A request goes through a dispatch channel
    to the task of a connection, which writes it to the transport and reads
    the response; the response's body comes back through a body channel. The
    task of an HTTP/1 connection is the crate's own code from the sockets up:

    - [proto/http1/dispatch.rs], the task: polls the connection, takes requests
      and gives responses ([Client]), passes bodies on;
    - [proto/http1/conn.rs], the connection: a state machine for each direction
      and keep-alive;
    - [proto/http1/role.rs], heads; [decode.rs] and [encode.rs], bodies;
      [io.rs] and [buf.rs], buffers over the transport;
    - [proto/headers.rs], [body/length.rs], [error.rs]: shared rules and values;
    - [dispatch.rs] and [body/chan.rs]: the two channels to the user.

    An HTTP/2 connection is two tasks over the [http2] crate
    ([proto/http2/client.rs]): one drives the connection, with its windows,
    keep-alive and pings ([proto/http2/ping.rs]); the other takes requests, opens
    streams and spawns a task for each body ([proto/http2.rs]) and each response.
    They share the server's SETTINGS.

    An HTTP/3 connection is a task over the [http3] and QUIC crates and state that
    it shares with the handles and the requests ([proto/http3/shared.rs]). A request
    is a future of its caller ([proto/http3/client.rs]); what is left of it after the
    response's head is the response's body ([proto/http3/body.rs]), a task for a
    request body that is still sent, or a tunnel with its task
    ([proto/http3/upgrade.rs]). Beside them are the HTTP Datagrams
    ([proto/http3/datagram.rs]).

    Above the connections are the proxies: CONNECT-UDP tunnels ([proxy/masque/]),
    CONNECT tunnels ([proxy/tunnel.rs]), SOCKS connectors ([proxy/socks.rs]) and
    SOCKS UDP associations ([proxy/socks/udp.rs]).

    ** How the code is modelled

    A function that polls or changes state is a value of the monad [M S E A] of
    this file: it takes a state and returns an [outcome] and the new state. The
    outcomes are a value, an error, [Pending], a panic and, for definitions by
    fuel, an exhausted bound; [?], [ready!], [expect] and slicing out of range
    are therefore visible in the definitions, and "does not panic, comes to an
    end" is a statement about outcomes. Machine integers are [Z] with their
    bounds and overflow checks written out; bytes are [list Z]. Code of other
    crates is a type class of operations with a class of laws (the behaviour the
    crate documents), and each theorem is proved over every instance of the
    laws; the witnesses instantiate them with concrete functions. Wakers are
    counters of the wake-ups delivered.

    ** The files

    - [Prelude]: the monad, its program logic [wp] and tactics, lists, integers.
      [Bytes]: ASCII functions. [Crates]: the http and bytes crates and
      httparse. [Transport]: [BytesMut] and the asynchronous transport.
    - [Errors] is [error.rs]; [Length] is [body/length.rs]; [Headers] is
      [proto/headers.rs] and [proto/headers/multiplexed.rs]; [Message] is
      [proto.rs] and [proto/http1.rs].
    - [MemRead] is the interface between the body decoder and what it reads
      from. [Decode] is [proto/http1/decode.rs]. [DecodeSpec] (a byte automaton),
      [ChunkedGrammar] (a grammar) and [DecodeRefine] prove what [BodyTheorems]
      claims.
    - [BufList] is [proto/http1/buf.rs]; [WriteBuf] and [Buffered] are
      [proto/http1/io.rs], with [BufferedLaws], which discharges [MemRead].
    - [Encode] is [proto/http1/encode.rs], with [EncodeLaws]. [Role] is
      [proto/http1/role.rs], with [RoleLaws] and [RoleParse].
    - [Conn] is [proto/http1/conn.rs]. [ConnInv], [ConnRead], [ConnWrite] and
      [ConnPhase] hold its invariant and the contract of each operation;
      [ConnWire] is the transition system of its guarded calls and the exchange as
      the peer sees it, [ConnTheorems] the claims.
    - [DispatchChan] is [dispatch.rs]; [BodyChan] is [body/chan.rs] and the
      HTTP/1 kind of [body/incoming.rs].
    - [Client] is the [Dispatch] trait and its client; [Dispatcher] is the task of
      [proto/http1/dispatch.rs]. [DispatcherLaws] states what the task needs of a
      [Dispatch]; it and [DispatcherTheorems] prove the task against that
      interface, which the latter discharges for [Client].
    - [Wire] and [Capsule] are [proxy/masque/capsule.rs]; [MasqueTunnel] is
      [proxy/masque/tunnel.rs], with [MasqueLaws] and [MasqueTheorems].
      [MasqueTemplate] is [proxy/masque/template.rs] over the address parser of
      [Net], with [MasqueTemplateTheorems]; [MasqueRequest] is
      [proxy/masque.rs]. [Upgrade] is [upgrade.rs].
      [Datagram] is [proto/http3/datagram.rs] with the handles of
      [conn/http3/datagram.rs], with [DatagramLaws] (the invariant and an
      abstract machine), [DatagramOps] (each operation refines a step of it) and
      [DatagramTheorems].
    - [Net] is addresses of the standard library with their parser, and [Async]
      asynchronous functions over a transport with their program logic; they serve
      [SocksUdp], which is [proxy/socks/udp.rs] (with [SocksLaws] and
      [SocksTheorems]), [SocksTcp], which is [proxy/socks.rs], and [HttpTunnel], which is [proxy/tunnel.rs] (with [HttpTunnelTheorems]).
      [Proxy] is [proxy.rs].
    - [Ping] is [proto/http2/ping.rs] with its binary64 arithmetic and the
      optional timer of [rt/timer.rs], with [PingLaws] and [PingTheorems].
      [Http2Opts] is the options of [proto/http2.rs] and the handshake of
      [conn/http2.rs]. [Http2Pipe] is [PipeToSendStream] and [PipeMap], with
      [Http2PipeLaws]. [Http2Peer] is [PeerSettings] with its atomic steps.
      [Http2Client] is the dispatching task and the tasks it spawns, with
      [Http2ClientLaws] (the account of every caller) and [Http2ClientTheorems].
      [Http2Conn] is the connection's task, with [Http2ConnTheorems]. [Http2Recv]
      is the HTTP/2 kind of [body/incoming.rs], and [Http2Upgrade] is
      [proto/http2/upgrade.rs], with [Http2UpgradeTheorems].
    - [Http3Shared] is [proto/http3/shared.rs], the connection's task of
      [proto/http3/client.rs] and the handles of [conn/http3.rs], as programs of
      atomic steps that other threads may come between; [Http3SharedTheorems] proves
      them against every interleaving. [Http3Exchange] is the checks of a request,
      the pipe of its body and the head of its response
      ([proto/http3/client.rs]), with [Http3ExchangeTheorems]; [Http3Request] is the
      future that puts these in order once the request is admitted. [Http3Body] is
      [proto/http3/body.rs] and [Http3Upgrade] is [proto/http3/upgrade.rs].

    ** What the theorems show

    - Bodies: every lawful chunked body is decoded to its data however it is cut
      into reads, nothing else is accepted, and what the encoder writes the
      decoder reads back, trailers included; no input panics.
    - Heads: parsing is safe on any input; the length of a response body follows
      RFC 9112, section 6.3; a request's framing headers say what its encoder
      does.
    - Buffers: flushing and reading neither lose, repeat nor reorder bytes.
    - Connection: no sequence of guarded calls panics or loops; bytes accepted
      are kept; a connection that must close is not used again; it becomes idle
      only after a complete exchange; the end of the stream is never silent.
    - Task: every poll of it ends without a panic and keeps its invariant, over request
      bodies that are finite and do not panic; it calls the connection
      under the connection's guards only; a body is closed without an error only once
      the connection said it is over, and a cut one is reported to its reader;
      a request is answered exactly once, and one that is handed back was never
      sent.
    - Channels: the body channel is a queue, with the trailers after the data, and
      nobody waits in vain.
    - Datagrams: budgets hold, order is kept in both directions and exactly what
      finds no room is dropped, sessions are served in turn, every
      wait is woken; one poll of the driver is bounded.
    - Tunnels: payloads arrive whole and in order; a capsule stream is read to
      exactly its UDP payloads; a cut or oversized one is reported. A CONNECT
      tunnel opens exactly on a 2xx answer, and no byte after it is lost. URI
      templates are those the documented rules allow, their expansion is that of RFC 6570, and no
      target can change the shape of the URI; requests announce the Capsule
      Protocol once and frame no content.
    - Upgrades: what was read too far is given back first, and a connection is
      handed over at most once.
    - SOCKS: headers are read back as they were made, and the handshake of an
      association succeeds exactly on a granted exchange. A connector refuses what a
      request cannot carry before it uses the network, asks for exactly the
      destination it was given, and is done in the end, with an error that names what
      failed.
    - HTTP/2: every caller is answered exactly once, requests handed back were never
      submitted, and extended CONNECT waits for the SETTINGS; bodies reach their
      streams whole; no poll of a task panics or loops, whatever the peer and the
      clock do; SETTINGS are published and no wake-up is lost, however the tasks
      interleave; keep-alive gives up only when it may, and then does; windows grow
      within their bound; what a connection is started with is what its builder was
      asked for. Bodies
      of responses are read in order with all flow-control capacity returned; an
      upgraded stream carries its writes in order, ends after all of them, and is
      reset when that was asked for.
    - HTTP/3: however the threads interleave, the counters of a connection are those
      of what there is; a graceful close comes when nothing is left or, once admission
      is shut, after a moment with no exchange counted (requests that had a permit but were
      not counted yet can still be there); and the task is woken for it. A request is checked before it is admitted; its body reaches the
      stream whole or the stream is reset; wherever its future is dropped or fails, both
      halves of the stream are settled once with the right code and its place is given
      back once. A response's body is the stream's data within its declared length.
      A tunnel carries its writes and reads in order, and its flush and shutdown say
      what was done.

    ** Bounds

    Loops of the code that are bounded stay so (16 rounds of the task's poll, 32
    of the datagram driver, of the tunnels and of HTTP/3's pipe and heads). The others are by fuel with a
    bound computed from the state, and the theorems show that the bound is not
    reached: a round of the body decoder's loop consumes a byte or changes the
    state; flushing writes at least a byte per round; the read loop of the task
    takes at most 5 rounds, since each but the last moves the reading direction
    forward, and its write loop is bounded by the room of the write buffer and
    the frames of the body ([write_rounds]); the capsule decoder takes at most a
    round per buffered byte. The dispatching task of HTTP/2 takes a round for each
    request in the channel and one more if it was held back; the pipe of a body two
    for each frame; the timeout of keep-alive at most two; a read
    of an HTTP/3 tunnel at most four, as its channel holds two items. The transport of the laws
    answers any single call, and may say [Pending] at any time.

    ** Not modelled

    Formatting ([Debug], [Display]), logging, [chunks_vectored] (called by
    tokio_util only), and the values of [http::Extensions] ([ext.rs]), which carry
    markers and callbacks of the user. The http2, http3, QUIC, tokio, httparse and
    tokio-socks crates are parameters with laws, never definitions. The handles of
    [conn/http1.rs] and [conn/http2.rs] and the builders pass calls and options on; so
    does the future that wraps the tasks of HTTP/3. The asynchronous part of
    [ConnectUdp::call] ([proxy/masque.rs]) sends a request over an HTTP/3 connection.
    Runtime traits, the lock wrapper and re-exports ([rt.rs], [lock.rs], [lib.rs]) have
    no behaviour of their own. Interleavings are those of sequentially consistent
    memory: weaker orderings of the atomics are not distinguished. *)

From stdpp Require Import prelude strings.
From Stdlib Require Import ZArith Lia.
Local Open Scope Z_scope.

(** ** Outcomes of a poll *)

(** What one call of a polling function yields: a value, an error, "not yet",
    a panic, or (only for definitions by fuel) an exhausted bound. *)
Inductive outcome (E A : Type) : Type :=
| Ready (a : A)
| Failed (e : E)
| Pending
| Panicked
| NoFuel.
Arguments Ready {E A} a.
Arguments Failed {E A} e.
Arguments Pending {E A}.
Arguments Panicked {E A}.
Arguments NoFuel {E A}.

(** A computation over a mutable state [S]. The state keeps the effects made
    before an error, as [&mut] arguments do in the source. *)
Definition M (S E A : Type) : Type := S -> S * outcome E A.

#[export] Instance M_ret {S E} : MRet (M S E) := fun A a s => (s, Ready a).

#[export] Instance M_bind {S E} : MBind (M S E) := fun A B k m s =>
  match m s with
  | (s', Ready a) => k a s'
  | (s', Failed e) => (s', Failed e)
  | (s', Pending) => (s', Pending)
  | (s', Panicked) => (s', Panicked)
  | (s', NoFuel) => (s', NoFuel)
  end.

Section monad_ops.
Context {S E : Type}.

Definition fail {A} (e : E) : M S E A := fun s => (s, Failed e).
Definition pend {A} : M S E A := fun s => (s, Pending).
Definition panic {A} : M S E A := fun s => (s, Panicked).
Definition get : M S E S := fun s => (s, Ready s).
Definition modify (f : S -> S) : M S E unit := fun s => (f s, Ready tt).

(** [x.expect("...")]: the value, or a panic. *)
Definition expect {A} (o : option A) : M S E A :=
  match o with Some a => mret a | None => panic end.
End monad_ops.

(** Running a computation on a component of the state: [get1]/[set1] are the
    projection and the update of that component. *)
Definition zoom {S T E A} (get1 : S -> T) (set1 : T -> S -> S) (m : M T E A) : M S E A :=
  fun s => match m (get1 s) with (t', o) => (set1 t' s, o) end.

(** [match ready!(m) { Ok(a) => ok(a), Err(e) => err(e) }]. *)
Definition match_ready {S E E' A B} (m : M S E A) (ok : A -> M S E' B) (err : E -> M S E' B) : M S E' B := fun s =>
  match m s with
  | (s', Ready a) => ok a s'
  | (s', Failed e) => err e s'
  | (s', Pending) => (s', Pending)
  | (s', Panicked) => (s', Panicked)
  | (s', NoFuel) => (s', NoFuel)
  end.

(** [r.map_err(f)] for a poll. *)
Definition map_err {S E E' A} (f : E -> E') (m : M S E A) : M S E' A := match_ready m mret (fun e => fail (f e)).

(** ** A weakest precondition for computations *)

(** [wp m Q s]: running [m] from [s] ends in an outcome and a state that satisfy [Q]. *)
Definition wp {S E A} (m : M S E A) (Q : outcome E A -> S -> Prop) (s : S) : Prop :=
  match m s with (s', o) => Q o s' end.

(** The outcomes that are not a failure of the program itself. *)
Definition sound {E A} (o : outcome E A) : Prop :=
  match o with Panicked | NoFuel => False | _ => True end.

Section wp.
Context {S E : Type}.

Lemma wp_intro {A} (m : M S E A) Q s : (forall s' o, m s = (s', o) -> Q o s') -> wp m Q s.
Proof. unfold wp. intros Hq. destruct (m s) eqn:Em. by apply Hq. Qed.

Lemma wp_elim {A} (m : M S E A) Q s s' o : wp m Q s -> m s = (s', o) -> Q o s'.
Proof. unfold wp. intros Hq Hm. by rewrite Hm in Hq. Qed.

Lemma wp_mono {A} (m : M S E A) (Q Q' : outcome E A -> S -> Prop) s :
  wp m Q s -> (forall o s', Q o s' -> Q' o s') -> wp m Q' s.
Proof. unfold wp. destruct (m s). auto. Qed.

Lemma wp_match_ready {E' A B} (m : M S E A) (ok : A -> M S E' B) err Q s :
  wp m (fun o s' => match o with
    | Ready a => wp (ok a) Q s' | Failed e => wp (err e) Q s'
    | Pending => Q Pending s' | Panicked => Q Panicked s' | NoFuel => Q NoFuel s' end) s ->
  wp (match_ready m ok err) Q s.
Proof. unfold wp, match_ready. by destruct (m s) as [s' []]. Qed.

Lemma wp_map_err {E' A} (f : E -> E') (m : M S E A) Q s :
  wp m (fun o s' => match o with
    | Ready a => Q (Ready a) s' | Failed e => Q (Failed (f e)) s'
    | Pending => Q Pending s' | Panicked => Q Panicked s' | NoFuel => Q NoFuel s' end) s ->
  wp (map_err f m) Q s.
Proof. unfold wp, map_err, match_ready. by destruct (m s) as [s' []]. Qed.

Lemma wp_bind {A B} (m : M S E A) (k : A -> M S E B) Q s :
  wp m (fun o s' => match o with
    | Ready a => wp (k a) Q s' | Failed e => Q (Failed e) s'
    | Pending => Q Pending s' | Panicked => Q Panicked s' | NoFuel => Q NoFuel s' end) s ->
  wp (m ≫= k) Q s.
Proof. unfold wp, mbind, M_bind. by destruct (m s) as [s' []]. Qed.

Lemma wp_expect {A} (o : option A) a (Q : outcome E A -> S -> Prop) s : o = Some a -> Q (Ready a) s -> wp (expect o) Q s.
Proof. intros -> ?. done. Qed.

Lemma wp_zoom {T A} (get1 : S -> T) (set1 : T -> S -> S) (m : M T E A) Q s :
  wp m (fun o t => Q o (set1 t s)) (get1 s) -> wp (zoom get1 set1 m) Q s.
Proof. unfold wp, zoom. by destruct (m (get1 s)). Qed.
End wp.

(** Runs the steps at the front of a computation that only inspect or update
    the state. *)
Ltac wp_step :=
  lazymatch goal with
  | |- wp (mbind _ _) _ _ => apply wp_bind
  | |- wp (match_ready _ _ _) _ _ => apply wp_match_ready
  | |- wp (map_err _ _) _ _ => apply wp_map_err
  | |- wp get ?Q ?s => change (Q (Ready s) s)
  | |- wp (mret ?a) ?Q ?s => change (Q (Ready a) s)
  | |- wp (modify ?f) ?Q ?s => change (Q (Ready tt) (f s))
  | |- wp (fail ?e) ?Q ?s => change (Q (Failed e) s)
  | |- wp pend ?Q ?s => change (Q Pending s)
  end; cbv beta iota.

(** Passes an [expect] whose value is known. *)
Ltac wp_expect H := eapply wp_expect; [exact H|]; cbv beta iota.

(** A total (non-polling) result. *)
Inductive result (E A : Type) : Type :=
| Ok (a : A)
| Err (e : E).
Arguments Ok {E A} a.
Arguments Err {E A} e.

(** [r?] for a [Result] inside a poll. *)
Definition lift_result {S E A} (r : result E A) : M S E A :=
  match r with Ok a => mret a | Err e => fail e end.

#[export] Instance result_ret {E} : MRet (result E) := fun A a => Ok a.
#[export] Instance result_bind {E} : MBind (result E) := fun A B k m =>
  match m with Ok a => k a | Err e => Err e end.

(** ** I/O errors *)

(** [std::io::ErrorKind], the kinds the sources name. *)
Inductive ErrorKind : Type :=
| UnexpectedEof
| InvalidData
| InvalidInput
| WriteZero
| OtherKind.

#[export] Instance ErrorKind_eq_dec : EqDecision ErrorKind.
Proof. solve_decision. Defined.

(** [httparse::Error]. *)
Inductive HttparseError : Type :=
| HpHeaderName | HpHeaderValue | HpNewLine | HpStatus | HpToken | HpTooManyHeaders | HpVersion.

#[export] Instance HttparseError_eq_dec : EqDecision HttparseError.
Proof. solve_decision. Defined.

(** What an [io::Error] carries: a text, one of the error types the sources
    wrap, or nothing. *)
Inductive Payload : Type :=
| Msg (s : string)
| IncompleteBody
| HttparsePayload (e : HttparseError)
| BadHeader (what : string) (name value : list Z)
| NoPayload.

#[export] Instance Payload_eq_dec : EqDecision Payload.
Proof. solve_decision. Defined.

(** [std::io::Error]. *)
Record io_error : Type := IoError { io_kind : ErrorKind; io_payload : Payload }.

#[export] Instance io_error_eq_dec : EqDecision io_error.
Proof. solve_decision. Defined.

(** ** Machine integers (a 64-bit target) *)

Definition U8_MAX : Z := 255.
Definition U16_MAX : Z := 65535.
Definition U32_MAX : Z := 4294967295.
Definition U64_MAX : Z := 18446744073709551615.
Definition USIZE_MAX : Z := U64_MAX.

Definition is_u8 (z : Z) : Prop := 0 <= z <= U8_MAX.
Definition is_u16 (z : Z) : Prop := 0 <= z <= U16_MAX.
Definition is_u32 (z : Z) : Prop := 0 <= z <= U32_MAX.
Definition is_u64 (z : Z) : Prop := 0 <= z <= U64_MAX.

(** [u64::checked_mul], [u64::checked_add], [u64::checked_sub]. *)
Definition checked_mul (a b : Z) : option Z :=
  if a * b <=? U64_MAX then Some (a * b) else None.
Definition checked_add (a b : Z) : option Z :=
  if a + b <=? U64_MAX then Some (a + b) else None.
Definition checked_sub (a b : Z) : option Z :=
  if b <=? a then Some (a - b) else None.

Definition saturating_sub (a b : Z) : Z := Z.max 0 (a - b).
Definition saturating_add (a b : Z) : Z := Z.min USIZE_MAX (a + b).
Definition saturating_mul (a b : Z) : Z := Z.min USIZE_MAX (a * b).

(** [usize::try_from(x).unwrap_or(usize::MAX)] for a [u64]. *)
Definition usize_or_max (x : Z) : Z := if x <=? USIZE_MAX then x else USIZE_MAX.

(** ** Byte strings *)

(** A byte is a [Z] below 256; [Bytes], [BytesMut], [Vec<u8>] and [&[u8]] are
    lists of them. *)
Abbreviation bytes := (list Z).

Definition len {A} (l : list A) : Z := Z.of_nat (length l).
Definition ztake {A} (n : Z) (l : list A) : list A := take (Z.to_nat n) l.
Definition zdrop {A} (n : Z) (l : list A) : list A := drop (Z.to_nat n) l.

(** ** Tactics *)

Create HintDb netty.
Create Rewrite HintDb netty.

(** Splits [if]s and [match]es of the goal and the hypotheses. *)
Ltac split_cases :=
  repeat (case_match || case_decide || case_bool_decide); simplify_eq/=; try done.

(** Reflects the boolean integer tests of the hypotheses. *)
Ltac zbool :=
  repeat match goal with
  | H : (_ && _)%bool = true |- _ => apply andb_true_iff in H as [? ?]
  | H : (_ && _)%bool = false |- _ => apply andb_false_iff in H
  | H : (_ || _)%bool = true |- _ => apply orb_true_iff in H
  | H : (_ || _)%bool = false |- _ => apply orb_false_iff in H as [? ?]
  | H : negb _ = true |- _ => apply negb_true_iff in H
  | H : negb _ = false |- _ => apply negb_false_iff in H
  | H : (_ =? _)%Z = true |- _ => apply Z.eqb_eq in H
  | H : (_ =? _)%Z = false |- _ => apply Z.eqb_neq in H
  | H : (_ <=? _)%Z = true |- _ => apply Z.leb_le in H
  | H : (_ <=? _)%Z = false |- _ => apply Z.leb_gt in H
  | H : (_ <? _)%Z = true |- _ => apply Z.ltb_lt in H
  | H : (_ <? _)%Z = false |- _ => apply Z.ltb_ge in H
  | H : (_ >=? _)%Z = _ |- _ => rewrite Z.geb_leb in H
  | H : (_ >? _)%Z = _ |- _ => rewrite Z.gtb_ltb in H
  end.

Ltac unfold_u := unfold is_u8, is_u16, is_u32, is_u64, USIZE_MAX, U8_MAX, U16_MAX,
  U32_MAX, U64_MAX in *.

(** Arithmetic on machine integers. *)
Ltac ulia := zbool; unfold_u; lia.

(** ** Integers and lists *)

Lemma checked_sub_le a b : b <= a -> checked_sub a b = Some (a - b).
Proof. intros ?. unfold checked_sub. by rewrite (proj2 (Z.leb_le _ _)). Qed.

Section list_lemmas.
Context {A : Type}.
Implicit Types l k : list A.

Lemma len_nonneg l : 0 <= len l.
Proof. unfold len. lia. Qed.

Lemma len_nil : len (@nil A) = 0.
Proof. done. Qed.

Lemma len_cons x l : len (x :: l) = 1 + len l.
Proof. unfold len. rewrite length_cons. lia. Qed.

Lemma len_app l k : len (l ++ k) = len l + len k.
Proof. unfold len. rewrite length_app. lia. Qed.

Lemma len_zero l : len l = 0 -> l = [].
Proof. destruct l; [done|]. unfold len. simpl. lia. Qed.

Lemma len_pos l : l ≠ [] -> 0 < len l.
Proof. destruct l; [done|]. unfold len. simpl. lia. Qed.

Lemma len_ztake n l : 0 <= n -> len (ztake n l) = Z.min n (len l).
Proof. intros. unfold len, ztake. rewrite length_take. lia. Qed.

Lemma len_zdrop n l : 0 <= n -> len (zdrop n l) = Z.max 0 (len l - n).
Proof. intros. unfold len, zdrop. rewrite length_drop. lia. Qed.

Lemma ztake_zdrop n l : ztake n l ++ zdrop n l = l.
Proof. apply take_drop. Qed.

Lemma zdrop_0 l : zdrop 0 l = l.
Proof. done. Qed.

Lemma zdrop_all n l : len l <= n -> zdrop n l = [].
Proof. intros. unfold zdrop. apply drop_ge. unfold len in *. lia. Qed.

Lemma ztake_all n l : len l <= n -> ztake n l = l.
Proof. intros. unfold ztake. apply take_ge. unfold len in *. lia. Qed.

Lemma zdrop_zdrop n m l : 0 <= n -> 0 <= m -> zdrop n (zdrop m l) = zdrop (m + n) l.
Proof. intros. unfold zdrop. rewrite drop_drop. f_equal. lia. Qed.

Lemma zdrop_app n l k :
  0 <= n -> zdrop n (l ++ k) = zdrop n l ++ zdrop (n - len l) k.
Proof.
  intros. unfold zdrop, len. rewrite drop_app. f_equal. f_equal. lia.
Qed.

Lemma ztake_app n l k :
  0 <= n -> ztake n (l ++ k) = ztake n l ++ ztake (n - len l) k.
Proof.
  intros. unfold ztake, len. rewrite take_app. f_equal. f_equal. lia.
Qed.

Lemma ztake_len_app l k : ztake (len l) (l ++ k) = l.
Proof. unfold ztake, len. rewrite Nat2Z.id. apply take_app_length. Qed.

Lemma zdrop_len_app l k : zdrop (len l) (l ++ k) = k.
Proof. unfold zdrop, len. rewrite Nat2Z.id. apply drop_app_length. Qed.

Lemma ztake_nonnil n l : 0 < n -> l ≠ [] -> ztake n l ≠ [].
Proof.
  intros Hn Hl. destruct l as [|x l]; [done|]. unfold ztake.
  destruct (Z.to_nat n) eqn:E; [lia|]. done.
Qed.
End list_lemmas.

#[export] Hint Rewrite @len_nil @len_cons @len_app : netty.
#[export] Hint Resolve len_nonneg len_pos : netty.
