(* ===== verification/Bytes.v ===== *)
(** * Bytes

    The functions of the Rust standard library on ASCII byte strings that the
    HTTP/1 sources call: literals, [str::trim], [str::split], case-insensitive
    comparison, number formatting in base 10 and 16. *)

From stdpp Require Import prelude strings.
From Stdlib Require Import ZArith Lia Ascii.
From S2P Require Import Prelude.
Local Open Scope Z_scope.

(** A byte-string literal [b"..."]. *)
Definition bs (s : string) : bytes :=
  map (fun c => Z.of_N (Ascii.N_of_ascii c)) (String.list_ascii_of_string s).

Definition CR : Z := 13.
Definition LF : Z := 10.
Definition SP : Z := 32.
Definition HTAB : Z := 9.
Definition SEMI : Z := 59.
Definition COMMA : Z := 44.
Definition CRLF : bytes := [CR; LF].

Definition in_range (lo hi b : Z) : bool := (lo <=? b) && (b <=? hi).

(** [u8::is_ascii_digit], [u8::is_ascii_alphanumeric]. *)
Definition is_ascii_digit (b : Z) : bool := in_range 48 57 b.
Definition is_ascii_upper (b : Z) : bool := in_range 65 90 b.
Definition is_ascii_lower (b : Z) : bool := in_range 97 122 b.
Definition is_ascii_alphanumeric (b : Z) : bool :=
  is_ascii_digit b || is_ascii_upper b || is_ascii_lower b.

(** [u8::is_ascii_whitespace]: space, tab, LF, form feed and CR. *)
Definition is_ascii_whitespace (b : Z) : bool :=
  (b =? 32) || (b =? 9) || (b =? 10) || (b =? 12) || (b =? 13).

(** [char::is_whitespace] restricted to ASCII, which is what [str::trim] uses. *)
Definition char_is_whitespace (b : Z) : bool := in_range 9 13 b || (b =? 32).

(** Dropping leading and trailing bytes that satisfy [p]. *)
Fixpoint trim_start_with (p : Z -> bool) (s : bytes) : bytes :=
  match s with
  | [] => []
  | b :: s' => if p b then trim_start_with p s' else s
  end.

Definition trim_end_with (p : Z -> bool) (s : bytes) : bytes :=
  reverse (trim_start_with p (reverse s)).

(** [str::trim] on an ASCII string. *)
Definition str_trim (s : bytes) : bytes :=
  trim_start_with char_is_whitespace (trim_end_with char_is_whitespace s).

(** [str::split(sep)] / [slice::split(|b| *b == sep)]: never empty. *)
Fixpoint split_on (sep : Z) (s : bytes) : list bytes :=
  match s with
  | [] => [[]]
  | b :: s' =>
      if b =? sep then [] :: split_on sep s'
      else match split_on sep s' with
           | [] => [[b]]
           | w :: ws => (b :: w) :: ws
           end
  end.

Definition to_ascii_lowercase (b : Z) : Z := if is_ascii_upper b then b + 32 else b.

(** [eq_ignore_ascii_case]. *)
Definition eq_ignore_ascii_case (a b : bytes) : bool :=
  bool_decide (map to_ascii_lowercase a = map to_ascii_lowercase b).

(** ** Number formatting *)

(** An upper-case hexadecimal digit. *)
Definition hex_digit (d : Z) : Z := if d <? 10 then 48 + d else 55 + d.

(** The digits of [n] in base [radix], most significant first. *)
Fixpoint digits_fuel (fuel : nat) (radix n : Z) (acc : bytes) : bytes :=
  match fuel with
  | O => acc
  | S k =>
      let acc' := hex_digit (n mod radix) :: acc in
      if n / radix =? 0 then acc' else digits_fuel k radix (n / radix) acc'
  end.

(** [format!("{n:X}")] and [n.to_string()] for a [u64]: 64 digits are enough
    in every base above 1. *)
Definition to_hex (n : Z) : bytes := digits_fuel 64 16 n [].
Definition to_dec (n : Z) : bytes := digits_fuel 64 10 n [].

(** ** Splitting and joining *)

(** [split_on] is inverted by joining the pieces with the separator. *)
Definition join_with (sep : Z) (ws : list bytes) : bytes :=
  match ws with
  | [] => []
  | w :: ws' => w ++ concat (map (cons sep) ws')
  end.

Lemma split_on_nonnil sep s : split_on sep s ≠ [].
Proof. destruct s as [|b s]; simpl; [done|]. split_cases. Qed.

Lemma join_split_on sep s : join_with sep (split_on sep s) = s.
Proof.
  induction s as [|b s IH]; [done|]. simpl.
  destruct (b =? sep) eqn:E.
  - zbool. subst b. simpl.
    destruct (split_on sep s) as [|w ws] eqn:Es; [by destruct (split_on_nonnil sep s)|].
    simpl in *. by rewrite IH.
  - destruct (split_on sep s) as [|w ws] eqn:Es; [by destruct (split_on_nonnil sep s)|].
    simpl in *. by rewrite IH.
Qed.

Lemma split_on_no_sep sep s : sep ∉ s -> split_on sep s = [s].
Proof.
  induction s as [|b s IH]; [done|]. intros Hin. simpl.
  destruct (b =? sep) eqn:E; [zbool; set_solver|].
  rewrite IH; [done|]. set_solver.
Qed.

Lemma split_on_app_sep sep s t :
  sep ∉ s -> split_on sep (s ++ sep :: t) = s :: split_on sep t.
Proof.
  induction s as [|b s IH]; intros Hin; simpl.
  - by rewrite Z.eqb_refl.
  - destruct (b =? sep) eqn:E; [zbool; set_solver|].
    rewrite IH; [done|]. set_solver.
Qed.

(** ** Digits *)

(** The number a list of digits denotes in base [r]. *)
Definition of_digits (r : Z) (ds : list Z) : Z := fold_left (fun v d => v * r + d) ds 0.

Lemma of_digits_snoc r ds d : of_digits r (ds ++ [d]) = of_digits r ds * r + d.
Proof. unfold of_digits. by rewrite fold_left_app. Qed.

(** The formatting loop writes the digits of [n], at least one of them. *)
Lemma digits_fuel_spec k r n acc :
  2 <= r -> 0 <= n < r ^ Z.of_nat k -> (0 < k)%nat ->
  exists ds, digits_fuel k r n acc = map hex_digit ds ++ acc /\
    Forall (fun d => 0 <= d < r) ds /\ of_digits r ds = n /\ ds ≠ [].
Proof.
  intros Hr. revert n acc. induction k as [|k IH]; intros n acc Hn Hk; [lia|].
  cbn [digits_fuel]. pose proof (Z.mod_pos_bound n r ltac:(lia)) as Hm.
  pose proof (Z.div_mod n r ltac:(lia)) as Hdm.
  destruct (n / r =? 0) eqn:E.
  - zbool. exists [n mod r]. split_and!; [done|by constructor| |done].
    unfold of_digits. simpl. lia.
  - zbool.
    assert (Hdiv : 0 <= n / r < r ^ Z.of_nat k).
    { split; [apply Z.div_pos; lia|]. apply Z.div_lt_upper_bound; [lia|].
      rewrite Nat2Z.inj_succ, Z.pow_succ_r in Hn by lia. lia. }
    destruct k as [|k']; [simpl in Hdiv; lia|].
    destruct (IH (n / r) (hex_digit (n mod r) :: acc) Hdiv ltac:(lia))
      as (ds & Heq & Hall & Hval & _).
    exists (ds ++ [n mod r]). rewrite Heq, map_app, <- app_assoc.
    split_and!; [done| | |by destruct ds].
    + apply Forall_app. split; [done|]. by constructor.
    + rewrite of_digits_snoc, Hval. lia.
Qed.

(** 64 digits hold any [u64] in every base from 2 on. *)
Lemma u64_fits_digits r n : 2 <= r -> is_u64 n -> 0 <= n < r ^ Z.of_nat 64.
Proof.
  intros Hr Hn. unfold_u. split; [lia|].
  apply Z.lt_le_trans with (2 ^ Z.of_nat 64); [|apply Z.pow_le_mono_l; lia].
  apply Z.le_lt_trans with 18446744073709551615; [lia|]. by apply Z.ltb_lt.
Qed.

Lemma to_hex_spec n :
  is_u64 n -> exists ds, to_hex n = map hex_digit ds /\
    Forall (fun d => 0 <= d < 16) ds /\ of_digits 16 ds = n /\ ds ≠ [].
Proof.
  intros Hn. unfold to_hex.
  destruct (digits_fuel_spec 64 16 n [] ltac:(lia) (u64_fits_digits 16 n ltac:(lia) Hn)
              ltac:(lia)) as (ds & H & ?).
  exists ds. rewrite app_nil_r in H. rewrite H. done.
Qed.

Lemma to_dec_spec n :
  is_u64 n -> exists ds, to_dec n = map hex_digit ds /\
    Forall (fun d => 0 <= d < 10) ds /\ of_digits 10 ds = n /\ ds ≠ [].
Proof.
  intros Hn. unfold to_dec.
  destruct (digits_fuel_spec 64 10 n [] ltac:(lia) (u64_fits_digits 10 n ltac:(lia) Hn)
              ltac:(lia)) as (ds & H & ?).
  exists ds. rewrite app_nil_r in H. rewrite H. done.
Qed.

(** A prefix of a digit string denotes at most the whole number. *)
Lemma of_digits_acc_mono r ds v :
  1 <= r -> 0 <= v -> Forall (fun d => 0 <= d) ds ->
  v <= fold_left (fun v d => v * r + d) ds v.
Proof.
  intros Hr. revert v. induction ds as [|d ds IH]; intros v Hv Hall; [simpl; lia|].
  inversion_clear Hall. simpl. transitivity (v * r + d); [nia|]. apply IH; [nia|done].
Qed.

(** A number below [r ^ m] is written with at most [m] digits. *)
Lemma digits_fuel_length k r n acc m :
  2 <= r -> 0 <= n < r ^ Z.of_nat m -> (0 < m)%nat ->
  (length (digits_fuel k r n acc) <= m + length acc)%nat.
Proof.
  intros Hr. revert n acc m. induction k as [|k IH]; intros n acc m Hn Hm; cbn [digits_fuel]; [lia|].
  destruct (n / r =? 0) eqn:E; zbool; [simpl; lia|].
  destruct m as [|m]; [lia|].
  assert (Hdiv : 0 <= n / r < r ^ Z.of_nat m).
  { split; [apply Z.div_pos; lia|]. apply Z.div_lt_upper_bound; [lia|].
    rewrite Nat2Z.inj_succ, Z.pow_succ_r in Hn by lia. lia. }
  destruct m as [|m]; [simpl in Hdiv; lia|].
  specialize (IH (n / r) (hex_digit (n mod r) :: acc) (S m) Hdiv ltac:(lia)). simpl in *. lia.
Qed.

Lemma to_hex_length n : is_u64 n -> len (to_hex n) <= 16.
Proof.
  intros Hn. unfold to_hex, len.
  pose proof (digits_fuel_length 64 16 n [] 16 ltac:(lia)) as Hl.
  specialize (Hl ltac:(change (16 ^ Z.of_nat 16) with (U64_MAX + 1); ulia) ltac:(lia)). change (length (@nil Z)) with 0%nat in Hl. lia.
Qed.

(** ** Trimming *)

Lemma trim_start_with_id p s : Forall (fun b => p b = false) s -> trim_start_with p s = s.
Proof. intros Hs. destruct Hs as [|b s Hb _]; [done|]. simpl. by rewrite Hb. Qed.

Lemma trim_end_with_id p s : Forall (fun b => p b = false) s -> trim_end_with p s = s.
Proof.
  intros Hs. unfold trim_end_with. rewrite trim_start_with_id; [apply reverse_involutive|].
  by apply Forall_reverse.
Qed.

Lemma str_trim_id s : Forall (fun b => char_is_whitespace b = false) s -> str_trim s = s.
Proof. intros Hs. unfold str_trim. by rewrite trim_end_with_id, trim_start_with_id. Qed.

(** Trimming gives an infix. *)
Lemma trim_start_with_suffix p s : exists k, s = k ++ trim_start_with p s.
Proof.
  induction s as [|b s [k IH]]; [by exists []|]. simpl. destruct (p b); [|by exists []].
  exists (b :: k). simpl. by rewrite <- IH.
Qed.

Lemma trim_end_with_prefix p s : exists k, s = trim_end_with p s ++ k.
Proof.
  unfold trim_end_with. destruct (trim_start_with_suffix p (reverse s)) as [k Hk].
  exists (reverse k). rewrite <- reverse_app, <- Hk. by rewrite reverse_involutive.
Qed.

(** The pieces of a split hold no separator, and one fewer separator than
    pieces makes up the length. *)
Lemma split_on_pieces sep s : Forall (fun w => sep ∉ w) (split_on sep s).
Proof.
  induction s as [|b s IH]; simpl.
  - constructor; [apply not_elem_of_nil|constructor].
  - destruct (b =? sep) eqn:E; zbool.
    + constructor; [apply not_elem_of_nil|done].
    + destruct IH as [|w ws Hw Hws]; [constructor; [set_solver|constructor]|].
      constructor; [set_solver|done].
Qed.

Lemma split_on_length sep s : (length (concat (split_on sep s)) + length (split_on sep s) = length s + 1)%nat.
Proof.
  induction s as [|b s IH]; [done|]. simpl. destruct (b =? sep); simpl; [lia|].
  destruct (split_on sep s) as [|w ws] eqn:E; [by destruct (split_on_nonnil sep s)|].
  simpl in *. lia.
Qed.
