(* ===== verification/Crates.v ===== *)
(** * Crates

    The third-party interfaces the HTTP/1 sources rely on, as type classes: the
    operations are parameters of the development and the laws are the behaviour
    their documentation states. The [http] crate gives header maps, names and
    values; the [bytes] crate gives [Buf] and its combinators [Chain] and
    [Take]. Concrete instances, used only by the witnesses, show that the laws
    can hold together. *)

From stdpp Require Import prelude strings.
From Stdlib Require Import ZArith Lia.
From S2P Require Import Prelude Bytes.
Local Open Scope Z_scope.

(** ** [http]: header names and values *)

(** Names are byte strings in their normalised (lower-case) form; values are
    byte strings. *)
Class HeaderSyntax : Type := {
  (** [HeaderName::from_bytes]: the normalised name, or an error. *)
  hn_from_bytes : bytes -> option bytes;
  (** [HeaderValue::from_bytes]. *)
  hv_from_bytes : bytes -> option bytes;
  (** [HeaderValue::to_str]: the text of a value made of visible ASCII. *)
  hv_to_str : bytes -> option bytes;
}.

(** What [HeaderValue::to_str] accepts. *)
Definition visible_ascii (b : Z) : bool := in_range 32 126 b || (b =? 9).

Class HeaderSyntaxLaws `{HeaderSyntax} : Prop := {
  (** [to_str] does not change the bytes. *)
  hv_to_str_id : forall v s, hv_to_str v = Some s -> s = v;
  (** It accepts a value of visible ASCII. *)
  hv_to_str_visible : forall v, forallb visible_ascii v = true -> hv_to_str v = Some v;
  (** Values keep their bytes. *)
  hv_from_bytes_id : forall v w, hv_from_bytes v = Some w -> w = v;
  (** Validity is a condition on each byte: visible ASCII is valid, and valid
      values concatenate. *)
  hv_from_bytes_visible : forall v,
    forallb visible_ascii v = true -> hv_from_bytes v = Some v;
  hv_from_bytes_app : forall v w,
    hv_from_bytes v = Some v -> hv_from_bytes w = Some w ->
    hv_from_bytes (v ++ w) = Some (v ++ w);
}.

(** [http::Method]. *)
Inductive Method : Type :=
| GET | HEAD | POST | PUT | DELETE | CONNECT | OPTIONS | TRACE | PATCH
| ExtensionMethod (name : bytes).

#[export] Instance Method_eq_dec : EqDecision Method.
Proof. solve_decision. Defined.

(** [http::Version]; ordered by age. *)
Inductive Version : Type := HTTP_09 | HTTP_10 | HTTP_11 | HTTP_2 | HTTP_3.

#[export] Instance Version_eq_dec : EqDecision Version.
Proof. solve_decision. Defined.

(** ** [http]: header maps *)

(** A multimap from names to values. *)
Class HeaderMap (H : Type) : Type := {
  hm_new : H;
  (** [iter]: the pairs in iteration order. *)
  hm_iter : H -> list (bytes * bytes);
  (** [into_iter]: the name is given with the first of its values only. *)
  hm_into_iter : H -> list (option bytes * bytes);
  (** [get_all]: the values of a name, in the order they were added. *)
  hm_get_all : H -> bytes -> list bytes;
  hm_append : bytes -> bytes -> H -> H;
  (** [insert]: replaces all the values of a name. *)
  hm_insert : bytes -> bytes -> H -> H;
  hm_remove : bytes -> H -> H;
  (** Assignment through [entry.iter_mut().next_back()]. *)
  hm_set_last : bytes -> bytes -> H -> H;
}.

(** The pairs [into_iter] stands for: a missing name is the previous one. *)
Fixpoint resolve_names (cur : option bytes) (l : list (option bytes * bytes)) : list (bytes * bytes) :=
  match l with
  | [] => []
  | (o, v) :: l' =>
      match o, cur with
      | Some n, _ => (n, v) :: resolve_names (Some n) l'
      | None, Some n => (n, v) :: resolve_names cur l'
      | None, None => resolve_names cur l'
      end
  end.

Class HeaderMapLaws (H : Type) `{HeaderMap H} : Prop := {
  hm_iter_new : hm_iter hm_new = [];
  hm_into_iter_iter : forall h, resolve_names None (hm_into_iter h) = hm_iter h;
  hm_into_iter_named : forall h, match hm_into_iter h with (None, _) :: _ => False | _ => True end;
  hm_get_all_iter : forall h n,
    hm_get_all h n = (filter (fun kv => kv.1 = n) (hm_iter h)).*2;
  hm_get_all_append : forall h n m v,
    hm_get_all (hm_append m v h) n =
      if decide (n = m) then hm_get_all h n ++ [v] else hm_get_all h n;
  hm_get_all_insert : forall h n m v,
    hm_get_all (hm_insert m v h) n = if decide (n = m) then [v] else hm_get_all h n;
  hm_get_all_remove : forall h n m,
    hm_get_all (hm_remove m h) n = if decide (n = m) then [] else hm_get_all h n;
  hm_get_all_set_last : forall h n m v,
    hm_get_all (hm_set_last m v h) n =
      if decide (n = m) then
        match hm_get_all h n with
        | [] => []
        | vs => removelast vs ++ [v]
        end
      else hm_get_all h n;
}.

Section header_map_derived.
Context `{HeaderMap H}.

(** [get]: the first value. *)
Definition hm_get (h : H) (n : bytes) : option bytes := head (hm_get_all h n).

(** [contains_key]. *)
Definition hm_contains_key (h : H) (n : bytes) : bool :=
  match hm_get_all h n with [] => false | _ => true end.

(** [is_empty]. *)
Definition hm_is_empty (h : H) : bool :=
  match hm_iter h with [] => true | _ => false end.
End header_map_derived.

Lemma hm_contains_key_get_all `{HeaderMap H} (h : H) n :
  hm_contains_key h n = true <-> hm_get_all h n ≠ [].
Proof. unfold hm_contains_key. destruct (hm_get_all h n); naive_solver. Qed.

Lemma hm_contains_key_absent `{HeaderMap H} (h : H) n :
  hm_contains_key h n = false <-> hm_get_all h n = [].
Proof. unfold hm_contains_key. by destruct (hm_get_all h n). Qed.

Lemma hm_get_all_new `{HeaderMapLaws H} n : hm_get_all hm_new n = [].
Proof. by rewrite hm_get_all_iter, hm_iter_new. Qed.

(** ** [httparse] *)

(** [httparse::Status]. *)
Inductive HpStatusOf (A : Type) : Type := Complete (a : A) | Partial.
Arguments Complete {A} a.
Arguments Partial {A}.

(** [httparse::parse_headers(src, headers)] with room for [count] headers: the
    length of the header block and its (name, value) pairs. *)
Class HttparseHeaders : Type :=
  hp_parse_headers : bytes -> Z -> result HttparseError (HpStatusOf (Z * list (bytes * bytes))).

(** A token character (RFC 9110, 5.6.2) and a field-value character. *)
Definition is_token (b : Z) : bool :=
  is_ascii_alphanumeric b || bool_decide (b ∈ bs "!#$%&'*+-.^_`|~").
Definition is_value_char (b : Z) : bool := visible_ascii b || in_range 128 255 b.
Definition is_ows (b : Z) : bool := (b =? SP) || (b =? HTAB).

(** A field line [name: value] that needs no repair: the name is a token, the
    value has no white space around it. *)
Definition field_ok (f : bytes * bytes) : Prop :=
  f.1 ≠ [] /\ forallb is_token f.1 = true /\ forallb is_value_char f.2 = true /\
  trim_start_with is_ows f.2 = f.2 /\ trim_end_with is_ows f.2 = f.2.

Definition field_line (f : bytes * bytes) : bytes := f.1 ++ bs ": " ++ f.2.

(** Well-formed lines are parsed to their fields. *)
Class HttparseHeadersLaws `{HttparseHeaders} : Prop :=
  hp_parse_headers_lines : forall fs count,
    Forall field_ok fs -> len fs <= count ->
    hp_parse_headers (concat (map (fun f => field_line f ++ CRLF) fs) ++ CRLF) count =
      Ok (Complete (len (concat (map (fun f => field_line f ++ CRLF) fs) ++ CRLF), fs)).

(** ** [bytes]: the [Buf] trait *)

(** [advance] is [None] where it panics. *)
Class Buf (B : Type) : Type := {
  remaining : B -> Z;
  chunk : B -> bytes;
  advance : Z -> B -> option B;
}.

(** [content b] is the bytes [b] still has to give. [chunk] is a prefix of
    them, empty only at the end, and [advance] drops a prefix. The laws are
    promised for the values that are [buf_ok], the ones the operations build. *)
Class BufLaws (B : Type) `{Buf B} : Type := {
  buf_ok : B -> Prop;
  content : B -> bytes;
  buf_remaining : forall b, buf_ok b -> remaining b = len (content b);
  buf_chunk_prefix : forall b, buf_ok b -> exists rest, content b = chunk b ++ rest;
  buf_chunk_nonempty : forall b, buf_ok b -> content b ≠ [] -> chunk b ≠ [];
  buf_advance : forall b n, buf_ok b -> 0 <= n <= remaining b ->
    exists b', advance n b = Some b' /\ buf_ok b' /\ content b' = zdrop n (content b);
}.

(** [Buf::chain] and [Buf::take]. *)
Class BufCombinators : Type := {
  Chain : Type -> Type -> Type;
  chain : forall {A B}, A -> B -> Chain A B;
  chain_Buf :: forall {A B} `{Buf A, Buf B}, Buf (Chain A B);
  Take : Type -> Type;
  take_buf : forall {A}, A -> Z -> Take A;
  take_Buf :: forall {A} `{Buf A}, Buf (Take A);
}.

Class BufCombinatorsLaws `{BufCombinators} : Type := {
  chain_BufLaws :: forall {A B} `{BufLaws A, BufLaws B}, BufLaws (Chain A B);
  take_BufLaws :: forall {A} `{BufLaws A}, BufLaws (Take A);
  chain_ok : forall {A B} `{BufLaws A, BufLaws B} (a : A) (b : B),
    buf_ok a -> buf_ok b -> buf_ok (chain a b);
  take_ok : forall {A} `{BufLaws A} (a : A) n, 0 <= n -> buf_ok a -> buf_ok (take_buf a n);
  chain_content : forall {A B} `{BufLaws A, BufLaws B} (a : A) (b : B),
    content (chain a b) = content a ++ content b;
  take_content : forall {A} `{BufLaws A} (a : A) n,
    0 <= n -> content (take_buf a n) = ztake n (content a);
}.

(** [&[u8]] and [Bytes] are buffers that give their bytes in one chunk. *)
#[export] Instance bytes_Buf : Buf bytes := {
  remaining b := len b;
  chunk b := b;
  advance n b := if n <=? len b then Some (zdrop n b) else None;
}.

#[export] Instance bytes_BufLaws : BufLaws bytes.
Proof.
  refine {| buf_ok := fun _ => True; content := id |};
    [done|intros b _; exists []; by rewrite app_nil_r|done|].
  intros b n _ Hn. exists (zdrop n b). simpl in *. split; [|done].
  destruct (n <=? len b) eqn:E; [done|ulia].
Defined.

(** ** Concrete instances

    A header map as an association list, and chains and limits as pairs: the
    laws above are satisfiable, and witnesses can evaluate. *)
Module Concrete.

Record hmap : Type := HMap { hm_pairs : list (bytes * bytes) }.

Fixpoint assoc_set_last (m v : bytes) (l : list (bytes * bytes)) : list (bytes * bytes) :=
  match l with
  | [] => []
  | kw :: l' =>
      if decide (kw.1 = m /\ filter (fun kv => kv.1 = m) l' = []) then (m, v) :: l'
      else kw :: assoc_set_last m v l'
  end.

#[export] Instance hmap_HeaderMap : HeaderMap hmap := {
  hm_new := HMap [];
  hm_iter := hm_pairs;
  hm_into_iter h := map (fun '(n, v) => (Some n, v)) (hm_pairs h);
  hm_get_all h n := (filter (fun kv => kv.1 = n) (hm_pairs h)).*2;
  hm_append n v h := HMap (hm_pairs h ++ [(n, v)]);
  hm_insert n v h := HMap (filter (fun kv => kv.1 ≠ n) (hm_pairs h) ++ [(n, v)]);
  hm_remove n h := HMap (filter (fun kv => kv.1 ≠ n) (hm_pairs h));
  hm_set_last n v h := HMap (assoc_set_last n v (hm_pairs h));
}.

Lemma assoc_filter_out (n m : bytes) (l : list (bytes * bytes)) :
  filter (fun kv => kv.1 = n) (filter (fun kv => kv.1 ≠ m) l) =
    if decide (n = m) then [] else filter (fun kv => kv.1 = n) l.
Proof.
  induction l as [|[k w] l IH]; [by case_decide|].
  rewrite (filter_cons (fun kv => kv.1 ≠ m)). simpl.
  destruct (decide (k ≠ m)) as [Hk|Hk]; rewrite ?filter_cons; simpl;
    destruct (decide (k = n)), (decide (n = m)); simplify_eq; try done;
    rewrite IH; repeat case_decide; by simplify_eq.
Qed.

Lemma assoc_set_last_spec (n m v : bytes) (l : list (bytes * bytes)) :
  (filter (fun kv => kv.1 = n) (assoc_set_last m v l)).*2 =
    if decide (n = m) then
      match (filter (fun kv => kv.1 = n) l).*2 with
      | [] => [] | vs => removelast vs ++ [v]
      end
    else (filter (fun kv => kv.1 = n) l).*2.
Proof.
  induction l as [|[k w] l IH]; [by case_decide|]. cbn [assoc_set_last fst].
  destruct (decide (k = m /\ _)) as [[-> Hl]|Hl]; rewrite !filter_cons; simpl.
  - destruct (decide (n = m)) as [->|Hn].
    + rewrite !decide_True by done. simpl. by rewrite Hl.
    + by rewrite !decide_False by congruence.
  - destruct (decide (k = n)) as [->|Hk]; [|exact IH].
    rewrite !fmap_cons, IH.
    destruct (decide (n = m)) as [->|Hn]; [|done].
    destruct (filter _ l) as [|[k' w'] l'] eqn:E; [by destruct Hl|]. done.
Qed.

#[export] Instance hmap_HeaderMapLaws : HeaderMapLaws hmap.
Proof.
  constructor; intros; simpl; try done.
  - destruct h as [l]. simpl. generalize (@None bytes).
    induction l as [|[n v] l IH]; intros o; [done|]. simpl. by rewrite IH.
  - by destruct h as [[|[]]].
  - rewrite filter_app, fmap_app, filter_cons, filter_nil. simpl.
    destruct (decide (n = m)) as [->|]; [by rewrite decide_True by done|].
    rewrite decide_False by congruence. by rewrite app_nil_r.
  - rewrite filter_app, assoc_filter_out, fmap_app, filter_cons, filter_nil. simpl.
    destruct (decide (n = m)) as [->|]; [by rewrite decide_True by done|].
    rewrite decide_False by congruence. by rewrite app_nil_r.
  - rewrite assoc_filter_out. by destruct (decide (n = m)).
  - apply assoc_set_last_spec.
Qed.

(** A header-block parser on lines. *)
Fixpoint split_line (s : bytes) : option (bytes * bytes) :=
  match s with
  | [] => None
  | b :: s' =>
      match s' with
      | c :: s'' =>
          if (b =? CR) && (c =? LF) then Some ([], s'')
          else '(l, rest) ← split_line s'; Some (b :: l, rest)
      | [] => None
      end
  end.

(** [name: value], with the white space around the value dropped. *)
Fixpoint split_field (l : bytes) : option (bytes * bytes) :=
  match l with
  | [] => None
  | b :: l' =>
      if b =? 58 then Some ([], trim_end_with is_ows (trim_start_with is_ows l'))
      else '(n, v) ← split_field l'; Some (b :: n, v)
  end.

Fixpoint parse_lines (fuel : nat) (s : bytes) (count : Z)
  : result HttparseError (HpStatusOf (bytes * list (bytes * bytes))) :=
  match fuel with
  | O => Ok Partial
  | S k =>
      match split_line s with
      | None => Ok Partial
      | Some ([], rest) => Ok (Complete (rest, []))
      | Some (l, rest) =>
          match split_field l with
          | None => Err HpHeaderName
          | Some f =>
              if count <=? 0 then Err HpTooManyHeaders
              else
                match parse_lines k rest (count - 1) with
                | Ok (Complete (rest', fs)) => Ok (Complete (rest', f :: fs))
                | r => r
                end
          end
      end
  end.

#[export] Instance lines_HttparseHeaders : HttparseHeaders := fun src count =>
  match parse_lines (S (length src)) src count with
  | Ok (Complete (rest, fs)) => Ok (Complete (len src - len rest, fs))
  | Ok Partial => Ok Partial
  | Err e => Err e
  end.

Lemma split_line_app l rest : CR ∉ l -> split_line (l ++ CRLF ++ rest) = Some (l, rest).
Proof.
  induction l as [|b l IH]; intros Hl; [done|].
  assert (b ≠ CR) as Hb by set_solver. specialize (IH ltac:(set_solver)).
  cbn [split_line app]. destruct (l ++ CRLF ++ rest) as [|c s] eqn:E; [by destruct l|].
  rewrite (proj2 (Z.eqb_neq b CR)) by done. cbn [andb]. by rewrite IH.
Qed.

Lemma split_field_app n v :
  58 ∉ n -> split_field (n ++ 58 :: v) = Some (n, trim_end_with is_ows (trim_start_with is_ows v)).
Proof.
  induction n as [|b n IH]; intros Hn; [done|]. cbn [split_field app].
  rewrite (proj2 (Z.eqb_neq b 58)) by set_solver. by rewrite IH by set_solver.
Qed.

Lemma token_not b c : is_token b = true -> is_token c = false -> b ≠ c.
Proof. intros Hb Hc ->. congruence. Qed.

Lemma field_ok_no_CR f : field_ok f -> CR ∉ field_line f.
Proof.
  intros (_ & Hn & Hv & _). unfold field_line. rewrite !not_elem_of_app. rewrite forallb_forall in Hn, Hv.
  split_and!.
  - intros Hin. apply list_elem_of_In, Hn in Hin. done.
  - vm_compute. set_solver.
  - intros Hin. apply list_elem_of_In, Hv in Hin. done.
Qed.

Lemma parse_lines_fields fs count fuel :
  Forall field_ok fs -> len fs <= count -> (length fs < fuel)%nat ->
  parse_lines fuel (concat (map (fun f => field_line f ++ CRLF) fs) ++ CRLF) count = Ok (Complete ([], fs)).
Proof.
  intros Hfs. revert count fuel. induction Hfs as [|f fs Hf _ IH]; intros count fuel Hc Hfuel;
    (destruct fuel as [|k]; [simpl in Hfuel; lia|]); [done|].
  cbn [map concat parse_lines]. rewrite <- !app_assoc, split_line_app by (by apply field_ok_no_CR).
  destruct f as [n v]. pose proof Hf as (Hne & Hn & Hv & Hts & Hte). simpl in Hne, Hn, Hv, Hts, Hte.
  unfold field_line. simpl fst. simpl snd. destruct n as [|b n]; [done|].
  change ((b :: n) ++ bs ": " ++ v) with ((b :: n) ++ 58 :: SP :: v).
  rewrite split_field_app.
  2: { rewrite forallb_forall in Hn. intros Hin. by apply list_elem_of_In, Hn in Hin. }
  cbn [trim_start_with]. change (is_ows SP) with true. cbn match. rewrite Hts, Hte.
  rewrite len_cons in Hc. pose proof (len_nonneg fs).
  rewrite (proj2 (Z.leb_gt count 0)) by lia. rewrite IH by (simpl in Hfuel; lia). done.
Qed.

#[export] Instance lines_HttparseHeadersLaws : HttparseHeadersLaws.
Proof.
  intros fs count Hfs Hc. unfold hp_parse_headers, lines_HttparseHeaders.
  rewrite parse_lines_fields by first [done|
    rewrite length_app; apply Nat.lt_succ_r, Nat.le_trans with (length (concat (map (fun f => field_line f ++ CRLF) fs))); [|lia];
    clear Hc; induction fs as [|f fs IH]; [done|]; inversion_clear Hfs; simpl; rewrite !length_app; specialize (IH ltac:(done)); simpl; lia].
  change (len []) with 0. by rewrite Z.sub_0_r.
Qed.

(** Names are tokens, normalised to lower case. *)
#[export] Instance ascii_HeaderSyntax : HeaderSyntax := {
  hn_from_bytes s :=
    if negb (bool_decide (s = [])) && forallb is_token s
    then Some (map to_ascii_lowercase s) else None;
  hv_from_bytes v :=
    if forallb (fun b => visible_ascii b || (128 <=? b)) v then Some v else None;
  hv_to_str v := if forallb visible_ascii v then Some v else None;
}.

#[export] Instance ascii_HeaderSyntaxLaws : HeaderSyntaxLaws.
Proof.
  split; simpl.
  - intros v s H. by destruct (forallb visible_ascii v); simplify_eq.
  - intros v ->. done.
  - intros v w H. by destruct (forallb _ v); simplify_eq.
  - intros v Hv. rewrite (proj2 (forallb_forall _ _)); [done|].
    intros b Hb. by rewrite (proj1 (forallb_forall _ _) Hv b Hb).
  - intros v w Hv Hw. rewrite forallb_app.
    destruct (forallb _ v); [|done]. by destruct (forallb _ w).
Qed.

(** A pair of buffers read one after the other; a buffer and a limit. *)
Definition pair_Buf {A B} `{Buf A, Buf B} : Buf (A * B) := {|
  remaining ab := remaining ab.1 + remaining ab.2;
  chunk ab := if 0 <? remaining ab.1 then chunk ab.1 else chunk ab.2;
  advance n ab :=
    if n <=? remaining ab.1 then a ← advance n ab.1; Some (a, ab.2)
    else a ← advance (remaining ab.1) ab.1;
         b ← advance (n - remaining ab.1) ab.2; Some (a, b);
|}.

Definition limit_Buf {A} `{Buf A} : Buf (A * Z) := {|
  remaining an := Z.min (remaining an.1) (Z.max 0 an.2);
  chunk an := ztake an.2 (chunk an.1);
  advance n an := if n <=? Z.max 0 an.2 then a ← advance n an.1; Some (a, an.2 - n) else None;
|}.

#[export] Instance pair_BufCombinators : BufCombinators := {
  Chain A B := (A * B)%type;
  chain A B a b := (a, b);
  chain_Buf A B _ _ := pair_Buf;
  Take A := (A * Z)%type;
  take_buf A a n := (a, n);
  take_Buf A _ := limit_Buf;
}.

Definition pair_BufLaws {A B} `{BufLaws A, BufLaws B} : @BufLaws (A * B) pair_Buf.
Proof.
  refine (Build_BufLaws _ pair_Buf (fun ab => buf_ok ab.1 /\ buf_ok ab.2)
    (fun ab => content ab.1 ++ content ab.2) _ _ _ _); intros [a b]; simpl.
  - intros [Ha Hb]. by rewrite len_app, !buf_remaining.
  - intros [Ha Hb]. rewrite buf_remaining by done. destruct (0 <? len (content a)) eqn:E; zbool.
    + destruct (buf_chunk_prefix a Ha) as [r Hr]. exists (r ++ content b).
      by rewrite Hr, app_assoc at 1.
    + rewrite (len_zero (content a)) by (pose proof (len_nonneg (content a)); lia).
      by apply buf_chunk_prefix.
  - intros [Ha Hb] Hne. rewrite buf_remaining by done. destruct (0 <? len (content a)) eqn:E; zbool.
    + apply buf_chunk_nonempty; [done|]. intros Hc. by rewrite Hc in E.
    + apply buf_chunk_nonempty; [done|]. intros Hc. apply Hne. rewrite Hc, app_nil_r.
      apply len_zero. pose proof (len_nonneg (content a)). lia.
  - intros n [Ha Hb] Hn. destruct (n <=? remaining a) eqn:E; zbool.
    + destruct (buf_advance a n Ha) as (a' & -> & Hok & Hc); [lia|]. simpl. eexists. split; [done|].
      simpl. split; [done|]. rewrite zdrop_app, Hc by lia. f_equal.
      unfold zdrop. rewrite buf_remaining in E by done. by replace (Z.to_nat _) with 0%nat by lia.
    + rewrite buf_remaining in E |- * by done.
      destruct (buf_advance a (len (content a)) Ha) as (a' & -> & Hoka & Hca).
      { rewrite buf_remaining by done. pose proof (len_nonneg (content a)). lia. }
      destruct (buf_advance b (n - len (content a)) Hb) as (b' & -> & Hokb & Hcb).
      { rewrite (buf_remaining a) in Hn by done. lia. }
      simpl. eexists. split; [done|]. simpl. split; [done|].
      by rewrite zdrop_app, Hca, Hcb, (zdrop_all n), (zdrop_all (len (content a))) by lia.
Defined.

Definition limit_BufLaws {A} `{BufLaws A} : @BufLaws (A * Z) limit_Buf.
Proof.
  refine (Build_BufLaws _ limit_Buf (fun an => buf_ok an.1)
    (fun an => ztake an.2 (content an.1)) _ _ _ _); intros [a m]; simpl.
  - intros Ha. rewrite buf_remaining by done. unfold len, ztake. rewrite length_take. lia.
  - intros Ha. destruct (buf_chunk_prefix a Ha) as [r Hr]. rewrite Hr. unfold ztake.
    rewrite take_app. eauto.
  - intros Ha Hne Hc. destruct (decide (content a = [])) as [E|E].
    { apply Hne. rewrite E. by unfold ztake; rewrite take_nil. }
    pose proof (buf_chunk_nonempty a Ha E) as Hch.
    destruct (decide (0 < m)) as [Hm|Hm]; [by apply (ztake_nonnil m) in Hch|].
    apply Hne. unfold ztake. by replace (Z.to_nat m) with 0%nat by lia.
  - intros n Ha Hn. destruct (n <=? Z.max 0 m) eqn:E; zbool; [|lia].
    destruct (buf_advance a n Ha) as (a' & -> & Hok & Hc); [lia|]. simpl. eexists. split; [done|].
    simpl. split; [done|]. rewrite Hc. unfold ztake, zdrop. rewrite skipn_firstn_comm. f_equal. lia.
Defined.

#[export] Instance pair_BufCombinatorsLaws : BufCombinatorsLaws := {
  chain_BufLaws A B _ _ _ _ := pair_BufLaws;
  take_BufLaws A _ _ := limit_BufLaws;
  chain_ok _ _ _ _ _ _ _ _ Ha Hb := conj Ha Hb;
  take_ok _ _ _ _ _ _ Ha := Ha;
  chain_content _ _ _ _ _ _ _ _ := eq_refl;
  take_content _ _ _ _ _ _ := eq_refl;
}.

End Concrete.
