(* ===== verification/Errors.v ===== *)
(** * Errors

    [error.rs]: the crate's error type, its kinds, the constructors the
    modelled components call and the classification methods. A cause is kept
    as a value of [Cause], one constructor per error type the modelled code
    attaches. *)

From stdpp Require Import prelude strings.
From Stdlib Require Import ZArith Lia.
From S2P Require Import Prelude.
Local Open Scope Z_scope.

(** [enum Header]. *)
Inductive HeaderErr : Type := Token | ContentLengthInvalid | TransferEncodingUnexpected.

(** [enum Parse]. *)
Inductive Parse : Type :=
| PMethod
| PVersion
| PVersionH2
| PUri
| PHeader (h : HeaderErr)
| PTooLarge
| PStatus
| PInternal.

(** [enum User]. *)
Inductive User : Type :=
| InvalidRequest
| UBody
| BodyWriteAborted
| InvalidConnectWithBody
| Service
| NoUpgrade
| ManualUpgrade
| DispatchGone
| KeepAliveWithoutTimer.

(** [enum Kind]. *)
Inductive ErrKind : Type :=
| KParse (p : Parse)
| KUser (u : User)
| IncompleteMessage
| UnexpectedMessage
| Canceled
| ChannelClosed
| Io
| KBody
| BodyWrite
| Shutdown
| Http2
| Http3.

#[export] Instance HeaderErr_eq_dec : EqDecision HeaderErr.
Proof. solve_decision. Defined.
#[export] Instance Parse_eq_dec : EqDecision Parse.
Proof. solve_decision. Defined.
#[export] Instance User_eq_dec : EqDecision User.
Proof. solve_decision. Defined.
#[export] Instance ErrKind_eq_dec : EqDecision ErrKind.
Proof. solve_decision. Defined.

(** [http2::Error], as far as the sources look into it: a protocol reason, an
    I/O error or neither. *)
Inductive H2Error : Type := H2Reason (r : Z) | H2Io (e : io_error) | H2Other (s : string).

#[export] Instance H2Error_eq_dec : EqDecision H2Error.
Proof. solve_decision. Defined.

(** [http2::Error::reason] and [http2::Error::get_io]. *)
Definition h2_error_reason (e : H2Error) : option Z := match e with H2Reason r => Some r | _ => None end.
Definition h2_error_io (e : H2Error) : option io_error := match e with H2Io e => Some e | _ => None end.

(** [http2::Reason]. *)
Definition R_NO_ERROR : Z := 0.
Definition R_PROTOCOL_ERROR : Z := 1.
Definition R_INTERNAL_ERROR : Z := 2.
Definition R_CANCEL : Z := 8.

(** [http3::quic::ConnectionErrorIncoming], which [rt/quic.rs] calls
    [ConnectionError]. *)
Inductive QuicError : Type := QApplicationClose (code : Z) | QTimeout | QInternalError (reason : string) | QUndefined (text : string).

(** [http3::error::ConnectionError]. *)
Inductive H3ConnError : Type := H3Local (code : Z) (reason : string) | H3Remote (e : QuicError) | H3Timeout.

(** [http3::error::StreamError], as far as the sources look into it. *)
Inductive H3StreamError : Type :=
| H3StreamFault (code : Z) (reason : string)
| H3RemoteTerminate (code : Z)
| H3StreamConn (e : H3ConnError)
| H3GoawayRejected
| H3HeaderTooBig
| H3StreamOther (text : string).

#[export] Instance QuicError_eq_dec : EqDecision QuicError.
Proof. solve_decision. Defined.
#[export] Instance H3ConnError_eq_dec : EqDecision H3ConnError.
Proof. solve_decision. Defined.
#[export] Instance H3StreamError_eq_dec : EqDecision H3StreamError.
Proof. solve_decision. Defined.

(** [http3::error::Code] by value (RFC 9114, section 8.1; RFC 9297, section 5.2). *)
Definition Code : Type := Z.
Definition H3_DATAGRAM_ERROR : Code := 0x33.
Definition H3_NO_ERROR : Code := 0x100.
Definition H3_INTERNAL_ERROR : Code := 0x102.
Definition H3_FRAME_UNEXPECTED : Code := 0x105.
Definition H3_REQUEST_REJECTED : Code := 0x10b.
Definition H3_REQUEST_CANCELLED : Code := 0x10c.
Definition H3_MESSAGE_ERROR : Code := 0x10e.

(** What an error wraps. *)
Inductive Cause : Type :=
| CauseIo (e : io_error)
| CauseNotEof (n : Z)
| CauseH2 (e : H2Error)
| CauseH3Conn (e : H3ConnError)
| CauseH3Stream (e : H3StreamError)
| CauseQuic (e : QuicError)
| CauseKeepAliveTimedOut
| CauseText (s : string)
(** another [Error], with or without a cause of its own *)
| CauseError (k : ErrKind)
| CauseErrorBy (k : ErrKind) (c : Cause).

#[export] Instance Cause_eq_dec : EqDecision Cause.
Proof. solve_decision. Defined.

(** [struct Error] / [struct ErrorImpl]. *)
Record Error : Type := MkError { err_kind : ErrKind; err_cause : option Cause }.

#[export] Instance Error_eq_dec : EqDecision Error.
Proof. solve_decision. Defined.

Definition err_new (k : ErrKind) : Error := MkError k None.
Definition err_with (c : Cause) (e : Error) : Error := MkError (err_kind e) (Some c).

(** An error as the cause of another. *)
Definition error_cause (e : Error) : Cause :=
  match err_cause e with None => CauseError (err_kind e) | Some c => CauseErrorBy (err_kind e) c end.

Definition new_canceled : Error := err_new Canceled.
Definition new_incomplete : Error := err_new IncompleteMessage.
Definition new_too_large : Error := err_new (KParse PTooLarge).
Definition new_version_h2 : Error := err_new (KParse PVersionH2).
Definition new_unexpected_message : Error := err_new UnexpectedMessage.
Definition new_io (e : io_error) : Error := err_with (CauseIo e) (err_new Io).
Definition new_closed : Error := err_new ChannelClosed.
Definition new_body_write_aborted : Error := err_new (KUser BodyWriteAborted).
Definition new_body (c : Cause) : Error := err_with c (err_new KBody).
Definition new_body_write (c : Cause) : Error := err_with c (err_new BodyWrite).
Definition new_user_service (c : Cause) : Error := err_with c (err_new (KUser Service)).
Definition new_user_body (c : Cause) : Error := err_with c (err_new (KUser UBody)).
Definition new_shutdown (e : io_error) : Error := err_with (CauseIo e) (err_new Shutdown).
Definition new_user_dispatch_gone : Error := err_new (KUser DispatchGone).
Definition new_user_invalid_request (c : Cause) : Error := err_with c (err_new (KUser InvalidRequest)).
Definition new_user_invalid_connect : Error := err_new (KUser InvalidConnectWithBody).
Definition new_user_keep_alive_without_timer : Error := err_new (KUser KeepAliveWithoutTimer).
Definition new_user_no_upgrade : Error := err_new (KUser NoUpgrade).
Definition new_user_manual_upgrade : Error := err_new (KUser ManualUpgrade).

(** [new_h2]: an I/O error of the connection stays one. *)
Definition new_h2 (c : H2Error) : Error :=
  match c with H2Io e => new_io e | _ => err_with (CauseH2 c) (err_new Http2) end.

(** [find_source::<http2::Error>] along the causes, and [h2_reason]. *)
Fixpoint find_h2 (c : Cause) : option H2Error :=
  match c with CauseH2 e => Some e | CauseErrorBy _ c => find_h2 c | _ => None end.
Definition h2_reason (e : Error) : Z := default R_INTERNAL_ERROR (c ← err_cause e; h ← find_h2 c; h2_error_reason h).

(** [new_h3], and an error that others share as the cause of each one's. *)
Definition new_h3 (c : Cause) : Error := err_with c (err_new Http3).
Definition from_shared (e : Error) : Error := err_with (error_cause e) (err_new (err_kind e)).

(** [find_source] for the errors of [http3] and for [TimedOut], along the causes:
    [KeepAliveTimedOut]'s source is one. *)
Fixpoint find_h3_conn (c : Cause) : option H3ConnError :=
  match c with CauseH3Conn e => Some e | CauseErrorBy _ c => find_h3_conn c | _ => None end.
Fixpoint find_h3_stream (c : Cause) : option H3StreamError :=
  match c with CauseH3Stream e => Some e | CauseErrorBy _ c => find_h3_stream c | _ => None end.
Fixpoint find_quic (c : Cause) : option QuicError :=
  match c with CauseQuic e => Some e | CauseErrorBy _ c => find_quic c | _ => None end.
Fixpoint find_timed_out (c : Cause) : bool :=
  match c with CauseKeepAliveTimedOut => true | CauseErrorBy _ c => find_timed_out c | _ => false end.

(** [is_timeout]: a connection of HTTP/3 that timed out, or the keep-alive. *)
Definition is_timeout (e : Error) : bool :=
  match err_cause e with
  | None => false
  | Some c =>
      match (match find_h3_conn c with
             | Some e => Some e
             | None => match find_h3_stream c with Some (H3StreamConn e) => Some e | _ => None end
             end) with
      | Some H3Timeout | Some (H3Remote QTimeout) => true
      | _ => match find_quic c with Some QTimeout => true | _ => find_timed_out c end
      end
  end.

(** [is_h3_request_rejected]. *)
Definition is_h3_request_rejected (e : Error) : bool :=
  match err_kind e, err_cause e with
  | Http3, Some c =>
      match find_h3_stream c with
      | Some H3GoawayRejected => true
      | Some (H3RemoteTerminate code) => code =? H3_REQUEST_REJECTED
      | _ => false
      end
  | _, _ => false
  end.

Definition from_parse (p : Parse) : Error := err_new (KParse p).

Definition content_length_invalid : Parse := PHeader ContentLengthInvalid.
Definition transfer_encoding_unexpected : Parse := PHeader TransferEncodingUnexpected.

Definition is_parse (e : Error) : bool :=
  match err_kind e with KParse _ => true | _ => false end.
Definition is_parse_status (e : Error) : bool :=
  match err_kind e with KParse PStatus => true | _ => false end.
Definition is_user (e : Error) : bool :=
  match err_kind e with KUser _ => true | _ => false end.
Definition is_canceled (e : Error) : bool :=
  match err_kind e with Canceled => true | _ => false end.
Definition is_closed (e : Error) : bool :=
  match err_kind e with ChannelClosed => true | _ => false end.
Definition is_incomplete_message (e : Error) : bool :=
  match err_kind e with IncompleteMessage => true | _ => false end.
Definition is_body_write_aborted (e : Error) : bool :=
  match err_kind e with KUser BodyWriteAborted => true | _ => false end.
Definition is_shutdown (e : Error) : bool :=
  match err_kind e with Shutdown => true | _ => false end.

(** [impl From<httparse::Error> for Parse]. *)
Definition parse_from_httparse (e : HttparseError) : Parse :=
  match e with
  | HpHeaderName | HpHeaderValue | HpNewLine | HpToken => PHeader Token
  | HpStatus => PStatus
  | HpTooManyHeaders => PTooLarge
  | HpVersion => PVersion
  end.

(** [description]. *)
Definition description (e : Error) : string :=
  match err_kind e with
  | KParse PMethod => "invalid HTTP method parsed"
  | KParse PVersion => "invalid HTTP version parsed"
  | KParse PVersionH2 => "invalid HTTP version parsed (found HTTP2 preface)"
  | KParse PUri => "invalid URI"
  | KParse (PHeader Token) => "invalid HTTP header parsed"
  | KParse (PHeader ContentLengthInvalid) => "invalid content-length parsed"
  | KParse (PHeader TransferEncodingUnexpected) => "unexpected transfer-encoding parsed"
  | KParse PTooLarge => "message head is too large"
  | KParse PStatus => "invalid HTTP status-code parsed"
  | KParse PInternal => "internal error inside netty and/or its dependencies, please report"
  | IncompleteMessage => "connection closed before message completed"
  | UnexpectedMessage => "received unexpected message from connection"
  | ChannelClosed => "channel closed"
  | Canceled => "operation was canceled"
  | KBody => "error reading a body from connection"
  | BodyWrite => "error writing a body to connection"
  | Shutdown => "error shutting down connection"
  | Http2 => "http2 error"
  | Http3 => "http3 error"
  | Io => "connection error"
  | KUser InvalidRequest => "invalid request"
  | KUser UBody => "error from user's Body stream"
  | KUser BodyWriteAborted => "user body write aborted"
  | KUser InvalidConnectWithBody => "user sent CONNECT request with non-zero body"
  | KUser Service => "error from user's Service"
  | KUser NoUpgrade => "no upgrade available"
  | KUser ManualUpgrade => "upgrade expected but low level API in use"
  | KUser DispatchGone => "dispatch task is gone"
  | KUser KeepAliveWithoutTimer => "HTTP/2 keep-alive requires a timer"
  end.

(** The message names the kind: two errors with the same text have the same kind. *)
Lemma description_kind (e1 e2 : Error) : description e1 = description e2 -> err_kind e1 = err_kind e2.
Proof.
  destruct e1 as [k1 c1], e2 as [k2 c2]. unfold description; simpl.
  destruct k1 as [[| | | |[]| | |]|[]| | | | | | | | | |];
  destruct k2 as [[| | | |[]| | |]|[]| | | | | | | | | |]; intros H; first [reflexivity|discriminate H].
Qed.

(** Sharing a connection's error keeps what callers ask of it. *)
Lemma from_shared_classified e : err_kind (from_shared e) = err_kind e /\ is_timeout (from_shared e) = is_timeout e /\
  is_h3_request_rejected (from_shared e) = is_h3_request_rejected e /\ h2_reason (from_shared e) = h2_reason e.
Proof. destruct e as [k [c|]]; by split_and!; [|..|destruct k]. Qed.
