(* ===== verification/Length.v ===== *)
(** * Length

    [body/length.rs]: the length of an incoming message body, packed in one
    [u64] with two sentinel values. *)

From stdpp Require Import prelude strings.
From Stdlib Require Import ZArith Lia.
From S2P Require Import Prelude Errors.
Local Open Scope Z_scope.

(** [struct DecodedLength(u64)]. *)
Record DecodedLength : Type := DL { dl_raw : Z }.

#[export] Instance DecodedLength_eq_dec : EqDecision DecodedLength.
Proof. solve_decision. Defined.

Definition MAX_LEN : Z := U64_MAX - 2.
Definition CLOSE_DELIMITED : DecodedLength := DL U64_MAX.
Definition CHUNKED : DecodedLength := DL (U64_MAX - 1).
Definition ZERO : DecodedLength := DL 0.

(** [danger_len]: the raw value, [None] where its [debug_assert!] fires. *)
Definition danger_len (l : DecodedLength) : option Z :=
  if dl_raw l <? dl_raw CHUNKED then Some (dl_raw l) else None.

Definition into_opt (l : DecodedLength) : option Z :=
  if decide (l = CHUNKED \/ l = CLOSE_DELIMITED) then None else Some (dl_raw l).

Definition checked_new (n : Z) : result Parse DecodedLength :=
  if n <=? MAX_LEN then Ok (DL n) else Err PTooLarge.

(** [sub_if]: [None] where the subtraction underflows. *)
Definition sub_if (amt : Z) (l : DecodedLength) : option DecodedLength :=
  if decide (l = CHUNKED \/ l = CLOSE_DELIMITED) then Some l
  else DL <$> checked_sub (dl_raw l) amt.

Definition is_exact (l : DecodedLength) : bool := dl_raw l <=? MAX_LEN.

(** [From<Option<u64>>]. *)
Definition from_opt (o : option Z) : DecodedLength :=
  match o with
  | Some n => match checked_new n with Ok l => l | Err _ => CHUNKED end
  | None => CHUNKED
  end.

(** ** Properties *)

(** The values a [DecodedLength] takes: a [u64]. *)
Definition dl_wf (l : DecodedLength) : Prop := is_u64 (dl_raw l).

Lemma is_exact_iff l :
  dl_wf l -> is_exact l = true <-> l ≠ CHUNKED /\ l ≠ CLOSE_DELIMITED.
Proof.
  unfold dl_wf, is_exact, CHUNKED, CLOSE_DELIMITED, MAX_LEN. destruct l as [r]; simpl.
  intros Hr. rewrite Z.leb_le. split.
  - intros ?. split; intros [= ->]; unfold_u; lia.
  - intros [H1 H2]. assert (r ≠ U64_MAX - 1 /\ r ≠ U64_MAX) by (split; congruence).
    unfold_u; lia.
Qed.

Lemma is_exact_spec l :
  dl_wf l -> is_exact l = true <-> into_opt l = Some (dl_raw l) /\ danger_len l = Some (dl_raw l).
Proof.
  intros Hwf. rewrite is_exact_iff by done. unfold into_opt, danger_len. split.
  - intros [H1 H2]. rewrite decide_False by naive_solver. split; [done|].
    destruct (_ <? _) eqn:E; [done|]. exfalso.
    destruct l as [r]. unfold dl_wf, CHUNKED, CLOSE_DELIMITED in *. simpl in *.
    assert (r ≠ U64_MAX - 1 /\ r ≠ U64_MAX) by (split; congruence). ulia.
  - case_decide; naive_solver.
Qed.

(** A content length and the two sentinels are told apart exactly:
    [checked_new] accepts the lengths up to [MAX_LEN], what it accepts is an
    exact length with that value, and the rest is [TooLarge]. *)
Lemma checked_new_ok n l :
  is_u64 n -> checked_new n = Ok l -> l = DL n /\ is_exact l = true /\ into_opt l = Some n.
Proof.
  unfold checked_new. intros Hn H. destruct (n <=? MAX_LEN) eqn:E; [|done].
  injection H as <-. split; [done|].
  assert (is_exact (DL n) = true) as He by done. split; [done|].
  by apply is_exact_spec in He as [? _].
Qed.

(** The three meanings a [DecodedLength] packs into one [u64] never
    overlap: every value is the chunked sentinel, the close-delimited sentinel
    or an exact length, [checked_new] produces exactly the exact ones, and
    [into_opt], [is_exact] and [danger_len] agree on which is which. *)
Theorem decoded_length_classes l :
  dl_wf l ->
  (l = CHUNKED /\ is_exact l = false /\ into_opt l = None /\ danger_len l = None /\
     forall n, checked_new n ≠ Ok l) \/
  (l = CLOSE_DELIMITED /\ is_exact l = false /\ into_opt l = None /\ danger_len l = None /\
     forall n, checked_new n ≠ Ok l) \/
  (exists n, checked_new n = Ok l /\ is_exact l = true /\ into_opt l = Some n /\ danger_len l = Some n /\
     from_opt (into_opt l) = l).
Proof.
  intros Hwf. destruct (is_exact l) eqn:E.
  - right; right. exists (dl_raw l). apply is_exact_spec in E as Hs; [|done]. destruct Hs as [-> ->].
    assert (checked_new (dl_raw l) = Ok l) as Hc.
    { unfold checked_new, is_exact in *. rewrite E. by destruct l. }
    split_and!; try done. unfold from_opt. by rewrite Hc.
  - assert (Hn : forall n, checked_new n ≠ Ok l).
    { unfold checked_new, is_exact in *. intros n. case_match; [|done]. intros [= <-]. simpl in E. congruence. }
    destruct (decide (l = CHUNKED)) as [->|H1]; [by left|].
    destruct (decide (l = CLOSE_DELIMITED)) as [->|H2]; [by right; left|].
    assert (is_exact l = true) by (by apply is_exact_iff). congruence.
Qed.

Lemma decoded_length_classes_witness :
  (DL 5 = CHUNKED /\ is_exact (DL 5) = false /\ into_opt (DL 5) = None /\ danger_len (DL 5) = None /\
     forall n, checked_new n ≠ Ok (DL 5)) \/
  (DL 5 = CLOSE_DELIMITED /\ is_exact (DL 5) = false /\ into_opt (DL 5) = None /\
     danger_len (DL 5) = None /\ forall n, checked_new n ≠ Ok (DL 5)) \/
  (exists n, checked_new n = Ok (DL 5) /\ is_exact (DL 5) = true /\ into_opt (DL 5) = Some n /\
     danger_len (DL 5) = Some n /\ from_opt (into_opt (DL 5)) = DL 5).
Proof. apply (decoded_length_classes (DL 5)). split; vm_compute; done. Defined.
