(* ===== verification/Headers.v ===== *)
(** * Headers

    [proto/headers.rs] and [proto/headers/multiplexed.rs]: reading
    [Connection], [Content-Length] and [Transfer-Encoding], and the field rules
    of HTTP/2 and HTTP/3. *)

From stdpp Require Import prelude strings.
From Stdlib Require Import ZArith Lia.
From S2P Require Import Prelude Bytes Crates.
Local Open Scope Z_scope.

(** The header names of the [http] crate the sources use. *)
Definition H_CONNECTION : bytes := Eval vm_compute in bs "connection".
Definition H_CONTENT_LENGTH : bytes := Eval vm_compute in bs "content-length".
Definition H_CONTENT_TYPE : bytes := Eval vm_compute in bs "content-type".
Definition H_TRANSFER_ENCODING : bytes := Eval vm_compute in bs "transfer-encoding".
Definition H_TE : bytes := Eval vm_compute in bs "te".
Definition H_TRAILER : bytes := Eval vm_compute in bs "trailer".
Definition H_UPGRADE : bytes := Eval vm_compute in bs "upgrade".

(** [from_digits]: a non-empty string of decimal digits below 2^64. *)
Fixpoint from_digits_loop (s : bytes) (r : Z) : option Z :=
  match s with
  | [] => Some r
  | b :: s' =>
      if is_ascii_digit b then
        r1 ← checked_mul r 10;
        r2 ← checked_add r1 (b - 48);
        from_digits_loop s' r2
      else None
  end.

Definition from_digits (s : bytes) : option Z :=
  match s with [] => None | _ => from_digits_loop s 0 end.

Section headers.
Context `{HeaderSyntax} `{HeaderMap Hm}.

Definition connection_has (value needle : bytes) : bool :=
  match hv_to_str value with
  | Some s => existsb (fun val => eq_ignore_ascii_case (str_trim val) needle) (split_on COMMA s)
  | None => false
  end.

Definition connection_keep_alive (value : bytes) : bool := connection_has value (bs "keep-alive").
Definition connection_close (value : bytes) : bool := connection_has value (bs "close").

Definition connection_any_close (headers : Hm) : bool :=
  existsb connection_close (hm_get_all headers H_CONNECTION).

(** The inner loop over one line: [None] is the early [return None]. *)
Fixpoint content_length_line (vs : list bytes) (cl : option Z) : option (option Z) :=
  match vs with
  | [] => Some cl
  | v :: vs' =>
      n ← from_digits (str_trim v);
      match cl with
      | None => content_length_line vs' (Some n)
      | Some m => if m =? n then content_length_line vs' cl else None
      end
  end.

Fixpoint content_length_lines (lines : list bytes) (cl : option Z) : option Z :=
  match lines with
  | [] => cl
  | h :: lines' =>
      match hv_to_str h with
      | Some line =>
          cl' ← content_length_line (split_on COMMA line) cl;
          content_length_lines lines' cl'
      | None => None
      end
  end.

Definition content_length_parse_all_values (values : list bytes) : option Z :=
  content_length_lines values None.

Definition content_length_parse_all (headers : Hm) : option Z :=
  content_length_parse_all_values (hm_get_all headers H_CONTENT_LENGTH).

(** [is_chunked]: the last coding of the last line is [chunked]. *)
Definition is_chunked (encodings : list bytes) : bool :=
  match last encodings with
  | Some line =>
      match hv_to_str line with
      | Some s =>
          match last (split_on COMMA s) with
          | Some encoding => eq_ignore_ascii_case (str_trim encoding) (bs "chunked")
          | None => false
          end
      | None => false
      end
  | None => false
  end.

Definition transfer_encoding_is_chunked (headers : Hm) : bool :=
  is_chunked (hm_get_all headers H_TRANSFER_ENCODING).

(** [add_chunked] on the entry of [name]; [None] where its [expect] panics. *)
Definition add_chunked (name : bytes) (headers : Hm) : option Hm :=
  match last (hm_get_all headers name) with
  | Some line =>
      v ← hv_from_bytes (line ++ bs ", " ++ bs "chunked");
      Some (hm_set_last name v headers)
  | None => Some (hm_insert name (bs "chunked") headers)
  end.

(** ** [multiplexed.rs] *)

Definition CONNECTION_HEADERS : list bytes :=
  [bs "keep-alive"; bs "proxy-connection"; H_TRANSFER_ENCODING; H_UPGRADE].

(** [headers.remove(name)] for a [&str]: the name is parsed first. *)
Definition hm_remove_str (s : bytes) (h : Hm) : Hm :=
  match hn_from_bytes s with Some n => hm_remove n h | None => h end.

Definition strip_connection_headers (headers : Hm) (is_request : bool) : Hm :=
  let headers := fold_left (fun h n => hm_remove n h) CONNECTION_HEADERS headers in
  let headers :=
    if is_request then
      match hm_get headers H_TE with
      | Some te_header =>
          if decide (te_header ≠ bs "trailers") then hm_remove H_TE headers else headers
      | None => headers
      end
    else hm_remove H_TE headers in
  match hm_get headers H_CONNECTION with
  | Some header =>
      let headers := hm_remove H_CONNECTION headers in
      match hv_to_str header with
      | Some header_contents =>
          fold_left (fun h name => hm_remove_str (str_trim name) h)
            (split_on COMMA header_contents) headers
      | None => headers
      end
  | None => headers
  end.

Definition breaks_capsule_protocol (status : Z) (headers : Hm) : bool :=
  in_range 204 206 status ||
  existsb (fun name => hm_contains_key headers name)
    [H_CONTENT_LENGTH; H_CONTENT_TYPE; H_TRANSFER_ENCODING].

Definition method_has_defined_payload_semantics (method : Method) : bool :=
  match method with GET | HEAD | DELETE | CONNECT | OPTIONS => false | _ => true end.

(** [headers.entry(CONTENT_LENGTH).or_insert_with(|| HeaderValue::from(len))]. *)
Definition set_content_length_if_missing (headers : Hm) (len : Z) : Hm :=
  if hm_contains_key headers H_CONTENT_LENGTH then headers
  else hm_insert H_CONTENT_LENGTH (to_dec len) headers.
End headers.

(** ** Decimal digits *)

Definition all_digits (s : bytes) : Prop := Forall (fun b => is_ascii_digit b = true) s.

(** The number a string of decimal digits denotes. *)
Definition dec_value (s : bytes) : Z := of_digits 10 (map (fun b => b - 48) s).

Lemma is_ascii_digit_range b : is_ascii_digit b = true <-> 48 <= b <= 57.
Proof. unfold is_ascii_digit, in_range. rewrite andb_true_iff, !Z.leb_le. lia. Qed.

Lemma from_digits_loop_spec s r n :
  0 <= r <= U64_MAX ->
  from_digits_loop s r = Some n <->
    all_digits s /\ n = fold_left (fun v d => v * 10 + d) (map (fun b => b - 48) s) r /\ n <= U64_MAX.
Proof.
  revert r. induction s as [|b s IH]; intros r Hr; simpl.
  { split; [intros [= <-]; split_and!; [constructor|done|lia]|].
    by intros (_ & -> & _). }
  unfold all_digits. rewrite Forall_cons. fold (all_digits s).
  destruct (is_ascii_digit b) eqn:Hb; [|naive_solver].
  pose proof (proj1 (is_ascii_digit_range b) Hb) as Hbr.
  unfold checked_mul, checked_add.
  assert (Hmono : all_digits s -> r * 10 + (b - 48) <=
    fold_left (fun v d => v * 10 + d) (map (fun b => b - 48) s) (r * 10 + (b - 48))).
  { intros Hs. apply of_digits_acc_mono; [lia|lia|]. apply Forall_map.
    eapply Forall_impl; [exact Hs|]. intros x Hx%is_ascii_digit_range. simpl. lia. }
  destruct (r * 10 <=? U64_MAX) eqn:E1; simpl; zbool.
  2: { split; [done|]. intros ([_ Hs] & -> & Hle). specialize (Hmono Hs). lia. }
  destruct (r * 10 + (b - 48) <=? U64_MAX) eqn:E2; simpl; zbool.
  2: { split; [done|]. intros ([_ Hs] & -> & Hle). specialize (Hmono Hs). lia. }
  rewrite IH by lia. naive_solver.
Qed.

Lemma from_digits_spec s n :
  from_digits s = Some n <-> s ≠ [] /\ all_digits s /\ n = dec_value s /\ n <= U64_MAX.
Proof.
  unfold from_digits, dec_value, of_digits. destruct s as [|b s]; [naive_solver|].
  rewrite from_digits_loop_spec by (unfold_u; lia). naive_solver.
Qed.

(** Formatting a number and reading it back. *)
Lemma from_digits_to_dec n : is_u64 n -> from_digits (to_dec n) = Some n.
Proof.
  intros Hn. destruct (to_dec_spec n Hn) as (ds & -> & Hds & Hval & Hne).
  assert (Hmap : map (fun b => b - 48) (map hex_digit ds) = ds).
  { rewrite map_map. clear Hval Hne. induction Hds as [|d ds Hd _ IH]; [done|].
    simpl. f_equal; [|done]. unfold hex_digit. destruct (d <? 10) eqn:E; ulia. }
  apply from_digits_spec. unfold dec_value. rewrite Hmap. split_and!.
  - by destruct ds.
  - apply Forall_map. eapply Forall_impl; [exact Hds|]. intros d Hd. simpl.
    apply is_ascii_digit_range. unfold hex_digit. destruct (d <? 10) eqn:E; ulia.
  - done.
  - unfold_u; lia.
Qed.

(** ** Content-Length *)

Section content_length.
Context `{HeaderSyntaxLaws}.

(** Token [tok] of a line reads as the length [n]. *)
Definition token_is (n : Z) (tok : bytes) : Prop := from_digits (str_trim tok) = Some n.

Lemma content_length_line_some vs m cl :
  content_length_line vs (Some m) = Some cl <-> cl = Some m /\ Forall (token_is m) vs.
Proof.
  induction vs as [|v vs IH]; simpl; [naive_solver|].
  rewrite Forall_cons. unfold token_is at 1.
  destruct (from_digits (str_trim v)) as [n|]; simpl; [|naive_solver].
  destruct (m =? n) eqn:E; zbool; [subst; rewrite IH; naive_solver|naive_solver].
Qed.

Lemma content_length_line_none v vs cl :
  content_length_line (v :: vs) None = Some cl <->
    exists n, cl = Some n /\ Forall (token_is n) (v :: vs).
Proof.
  cbn [content_length_line].
  destruct (from_digits (str_trim v)) as [n|] eqn:E; simpl.
  - rewrite content_length_line_some. split.
    + intros [-> Hf]. exists n. split; [done|]. by constructor.
    + intros (n' & -> & Hf). inversion_clear Hf as [|? ? Hn Hrest].
      unfold token_is in Hn. rewrite E in Hn. by simplify_eq.
  - split; [done|]. intros (n & _ & Hf). inversion_clear Hf as [|? ? Hn].
    unfold token_is in Hn. congruence.
Qed.

(** The comma-separated tokens of all the lines. *)
Definition field_tokens (values : list bytes) : list bytes :=
  concat (map (split_on COMMA) values).

Definition is_text (v : bytes) : Prop := hv_to_str v = Some v.

Lemma to_str_text v s : hv_to_str v = Some s -> s = v /\ is_text v.
Proof. intros Hs. pose proof (hv_to_str_id _ _ Hs) as ->. done. Qed.

Lemma content_length_lines_some values m n :
  content_length_lines values (Some m) = Some n <->
    n = m /\ Forall is_text values /\ Forall (token_is m) (field_tokens values).
Proof.
  induction values as [|v values IH]; simpl.
  { split; [intros [= ->]; done|naive_solver]. }
  unfold field_tokens. simpl. rewrite Forall_cons, Forall_app.
  destruct (hv_to_str v) as [s|] eqn:E.
  - destruct (to_str_text v s E) as [-> Ht].
    destruct (content_length_line (split_on COMMA v) (Some m)) as [cl|] eqn:El; simpl.
    + apply content_length_line_some in El as [-> Hl]. rewrite IH. naive_solver.
    + split; [done|]. intros (_ & _ & Hl & _).
      enough (content_length_line (split_on COMMA v) (Some m) = Some (Some m)) by congruence.
      by apply content_length_line_some.
  - split; [done|]. intros (_ & [Ht _] & _). unfold is_text in Ht. congruence.
Qed.

Lemma content_length_parse_all_values_some values n :
  content_length_parse_all_values values = Some n <->
    values ≠ [] /\ Forall is_text values /\ Forall (token_is n) (field_tokens values).
Proof.
  unfold content_length_parse_all_values.
  destruct values as [|v values]; simpl; [naive_solver|].
  unfold field_tokens. simpl. rewrite Forall_cons, Forall_app.
  destruct (hv_to_str v) as [s|] eqn:E.
  2: { split; [done|]. intros (_ & [Ht _] & _). unfold is_text in Ht. congruence. }
  destruct (to_str_text v s E) as [-> Ht].
  pose proof (split_on_nonnil COMMA v) as Hne.
  destruct (split_on COMMA v) as [|w ws] eqn:Es; [done|]. clear Hne.
  destruct (content_length_line (w :: ws) None) as [cl|] eqn:El; cbn [mbind option_bind].
  - apply content_length_line_none in El as (m & -> & Hl).
    rewrite content_length_lines_some. split; [naive_solver|].
    intros (_ & [_ Htx] & Hl' & Htok). inversion_clear Hl as [|? ? Hm].
    inversion_clear Hl' as [|? ? Hn]. unfold token_is in Hm, Hn.
    rewrite Hm in Hn. simplify_eq. done.
  - split; [done|]. intros (_ & _ & Hl & _).
    enough (content_length_line (w :: ws) None = Some (Some n)) by congruence.
    apply content_length_line_none. eauto.
Qed.

Lemma from_digits_loop_nonneg s r n : 0 <= r -> from_digits_loop s r = Some n -> 0 <= n.
Proof.
  revert r. induction s as [|b s IH]; intros r Hr; cbn [from_digits_loop]; [by intros [= <-]|].
  destruct (is_ascii_digit b) eqn:Eb; [|done]. apply is_ascii_digit_range in Eb.
  unfold checked_mul, checked_add. destruct (r * 10 <=? _); [|done]. cbn [mbind option_bind].
  destruct (_ <=? _); [|done]. cbn [mbind option_bind]. apply IH. lia.
Qed.

(** A content length is a [u64]. *)
Lemma content_length_u64 `{HeaderMap Hm} (h : Hm) n : content_length_parse_all h = Some n -> is_u64 n.
Proof.
  intros (Hne & _ & Ht)%content_length_parse_all_values_some.
  destruct (hm_get_all h H_CONTENT_LENGTH) as [|v vs]; [done|]. unfold field_tokens in Ht. simpl in Ht.
  apply Forall_app in Ht as [Ht _]. destruct (split_on COMMA v) as [|t ts] eqn:Es.
  { by apply split_on_nonnil in Es. }
  apply Forall_cons in Ht as [Ht _]. unfold token_is, from_digits in Ht.
  apply from_digits_spec in Ht as Hs. destruct Hs as (_ & _ & _ & Hle). split; [|done].
  destruct (str_trim t); [done|]. by apply from_digits_loop_nonneg in Ht.
Qed.
End content_length.

(** ** Transfer-Encoding *)

Lemma last_split_on sep s t :
  sep ∉ t -> last (split_on sep (s ++ sep :: t)) = Some t.
Proof.
  intros Ht. induction s as [|b s IH]; simpl.
  - rewrite Z.eqb_refl, split_on_no_sep by done. done.
  - destruct (b =? sep).
    + destruct (split_on sep (s ++ sep :: t)) eqn:E; [done|]. by rewrite last_cons_cons.
    + destruct (split_on sep (s ++ sep :: t)) as [|w ws] eqn:E; [done|].
      destruct ws as [|w' ws]; [|by rewrite !last_cons_cons in *].
      exfalso. clear IH. assert (length (split_on sep (s ++ sep :: t)) ≠ 1%nat) as Hl.
      { clear E. induction s as [|c s IH]; simpl.
        - rewrite Z.eqb_refl. simpl. pose proof (split_on_nonnil sep t).
          by destruct (split_on sep t).
        - destruct (c =? sep).
          + simpl. pose proof (split_on_nonnil sep (s ++ sep :: t)).
            by destruct (split_on sep (s ++ sep :: t)).
          + destruct (split_on sep (s ++ sep :: t)) eqn:E'; [|done].
            by apply split_on_nonnil in E'. }
      by rewrite E in Hl.
Qed.

Section transfer_encoding.
Context `{HeaderSyntaxLaws} `{HeaderMapLaws Hm}.

(** A line to which [", chunked"] was appended ends in [chunked]. *)
Lemma is_chunked_appended vs line :
  is_text (line ++ bs ", " ++ bs "chunked") ->
  is_chunked (vs ++ [line ++ bs ", " ++ bs "chunked"]) = true.
Proof.
  intros Ht. unfold is_chunked, is_text in *. rewrite last_snoc, Ht.
  change (bs ", " ++ bs "chunked") with (COMMA :: bs " chunked").
  rewrite last_split_on by (vm_compute; set_solver). reflexivity.
Qed.
End transfer_encoding.

(** ** Connection-specific fields *)

Section strip.
Context `{HeaderSyntax} `{HeaderMapLaws Hm}.

Lemma get_all_remove_all (ns : list bytes) (h : Hm) n :
  hm_get_all (fold_left (fun h n => hm_remove n h) ns h) n =
    if decide (n ∈ ns) then [] else hm_get_all h n.
Proof.
  revert h. induction ns as [|m ns IH]; intros h.
  { destruct (decide _) as [Hin|]; [by apply not_elem_of_nil in Hin|done]. }
  simpl.
  rewrite IH, hm_get_all_remove.
  destruct (decide (n ∈ ns)), (decide (n = m)), (decide (n ∈ m :: ns)); set_solver.
Qed.

(** The names a [Connection] line nominates. *)
Definition nominated (line : bytes) : list bytes :=
  omap (fun name => hn_from_bytes (str_trim name)) (split_on COMMA line).

Lemma get_all_remove_str (ss : list bytes) (h : Hm) n :
  hm_get_all (fold_left (fun h name => hm_remove_str (str_trim name) h) ss h) n =
    if decide (n ∈ omap (fun name => hn_from_bytes (str_trim name)) ss) then []
    else hm_get_all h n.
Proof.
  revert h. induction ss as [|s ss IH]; intros h.
  { destruct (decide _) as [Hin|]; [by apply not_elem_of_nil in Hin|done]. }
  simpl.
  rewrite IH. unfold hm_remove_str.
  destruct (hn_from_bytes (str_trim s)) as [m|]; [|done].
  rewrite hm_get_all_remove. clear IH.
  repeat destruct (decide _); try done; exfalso; set_solver.
Qed.

(** A [Connection] line nominates [n]. *)
Definition nominates (line n : bytes) : Prop := exists s, hv_to_str line = Some s /\ n ∈ nominated s.

(** The connection-specific fields of RFC 9114, section 4.2. *)
Definition connection_specific : list bytes :=
  [bs "connection"; bs "keep-alive"; bs "proxy-connection"; bs "transfer-encoding"; bs "upgrade"].

(** The fields [strip_connection_headers] drops: the connection-specific ones,
    a [TE] the message may not carry, and what the first [Connection] line
    nominates. *)
Definition stripped (headers : Hm) (is_request : bool) (n : bytes) : Prop :=
  n ∈ connection_specific \/
  (n = H_TE /\ (is_request = true -> hm_get headers H_TE ≠ Some (bs "trailers"))) \/
  (exists line, hm_get headers H_CONNECTION = Some line /\ nominates line n).

Lemma elem_of_connection_specific n : n ∈ connection_specific <-> n ∈ CONNECTION_HEADERS \/ n = H_CONNECTION.
Proof. unfold connection_specific, CONNECTION_HEADERS. rewrite !elem_of_cons. change (bs "connection") with H_CONNECTION. change (bs "transfer-encoding") with H_TRANSFER_ENCODING. change (bs "upgrade") with H_UPGRADE. tauto. Qed.

(** [headers] after the [TE] rule. *)
Lemma get_all_te (h : Hm) (r : bool) n :
  hm_get_all
    (if r then
       match hm_get h H_TE with
       | Some te_header =>
           if decide (te_header ≠ bs "trailers") then hm_remove H_TE h else h
       | None => h
       end
     else hm_remove H_TE h) n =
  if decide (n = H_TE /\ (r = true -> hm_get h H_TE ≠ Some (bs "trailers"))) then []
  else hm_get_all h n.
Proof.
  destruct (decide (n = H_TE)) as [->|Hn].
  - destruct r; [|rewrite hm_get_all_remove, !decide_True by naive_solver; done].
    destruct (hm_get h H_TE) as [te|] eqn:E.
    + destruct (decide (te ≠ bs "trailers")).
      * rewrite hm_get_all_remove, !decide_True by (split; congruence || done). done.
      * rewrite decide_False by naive_solver. done.
    + unfold hm_get in E. destruct (hm_get_all h H_TE) eqn:Eh; [|done].
      by case_decide.
  - rewrite (decide_False (P := _ /\ _)) by naive_solver.
    repeat case_match; rewrite ?hm_get_all_remove, ?decide_False by done; done.
Qed.

Lemma get_all_strip_connection_headers (h : Hm) (r : bool) n :
  (stripped h r n -> hm_get_all (strip_connection_headers h r) n = []) /\
  (~ stripped h r n -> hm_get_all (strip_connection_headers h r) n = hm_get_all h n).
Proof.
  unfold strip_connection_headers.
  set (h1 := fold_left _ CONNECTION_HEADERS h).
  assert (Hte : hm_get h1 H_TE = hm_get h H_TE).
  { unfold hm_get, h1. by rewrite get_all_remove_all, decide_False by (vm_compute; set_solver). }
  match goal with |- context [hm_get ?x H_CONNECTION] => set (h2 := x) end.
  assert (H2 : forall m, hm_get_all h2 m =
    if decide (m ∈ CONNECTION_HEADERS \/
               (m = H_TE /\ (r = true -> hm_get h H_TE ≠ Some (bs "trailers"))))
    then [] else hm_get_all h m).
  { intros m. unfold h2. rewrite get_all_te, Hte. unfold h1. rewrite get_all_remove_all.
    repeat destruct (decide _); done || (exfalso; naive_solver). }
  assert (Hc : hm_get h2 H_CONNECTION = hm_get h H_CONNECTION).
  { unfold hm_get. rewrite H2, decide_False; [done|]. vm_compute. set_solver. }
  clearbody h2. clear Hte h1. rewrite Hc. unfold stripped, nominates. rewrite elem_of_connection_specific.
  destruct (hm_get h H_CONNECTION) as [line|] eqn:El.
  - destruct (hv_to_str line) as [s|] eqn:Es.
    + rewrite get_all_remove_str, hm_get_all_remove, H2. fold (nominated s).
      split; intros Hs; repeat destruct (decide _); done || (exfalso; naive_solver).
    + rewrite hm_get_all_remove, H2.
      split; intros Hs; repeat destruct (decide _); done || (exfalso; naive_solver).
  - rewrite H2. unfold hm_get in El.
    assert (hm_get_all h H_CONNECTION = []) as Hnil by (by destruct (hm_get_all h H_CONNECTION)).
    split; intros Hs; destruct (decide _); try done; [|exfalso; naive_solver].
    destruct (decide (n = H_CONNECTION)) as [->|]; [done|exfalso; naive_solver].
Qed.
End strip.

(** [add_chunked] succeeds on text and leaves the other fields alone. *)
Lemma add_chunked_chunked `{HeaderSyntaxLaws} `{HeaderMapLaws Hm} (h : Hm) :
  Forall (fun v => forallb visible_ascii v = true) (hm_get_all h H_TRANSFER_ENCODING) ->
  exists h', add_chunked H_TRANSFER_ENCODING h = Some h' /\
    transfer_encoding_is_chunked h' = true /\
    (forall n, n ≠ H_TRANSFER_ENCODING -> hm_get_all h' n = hm_get_all h n).
Proof.
  intros Hv. unfold add_chunked, transfer_encoding_is_chunked.
  destruct (last (hm_get_all h H_TRANSFER_ENCODING)) as [line|] eqn:El.
  - assert (forallb visible_ascii (line ++ bs ", " ++ bs "chunked") = true) as Hvis.
    { rewrite forallb_app. rewrite Forall_forall in Hv. rewrite Hv; [done|].
      by apply last_Some_elem_of. }
    rewrite (hv_from_bytes_visible _ Hvis). cbn [mbind option_bind]. eexists. split; [done|]. split.
    + rewrite hm_get_all_set_last, decide_True by done.
      destruct (hm_get_all h H_TRANSFER_ENCODING); [done|].
      apply is_chunked_appended, hv_to_str_visible, Hvis.
    + intros n Hn. by rewrite hm_get_all_set_last, decide_False.
  - eexists. split; [done|]. split.
    + rewrite hm_get_all_insert, decide_True by done. unfold is_chunked. simpl.
      by rewrite hv_to_str_visible.
    + intros n Hn. by rewrite hm_get_all_insert, decide_False.
Qed.

(** ** What the header rules guarantee *)

(** A decimal length is accepted exactly when it is a non-empty string of
    ASCII digits whose value fits in 64 bits (no sign, no white space, no
    wrap-around), and it is read as that value. *)
Theorem from_digits_iff s n :
  from_digits s = Some n <-> s ≠ [] /\ all_digits s /\ n = dec_value s /\ n <= U64_MAX.
Proof. apply from_digits_spec. Qed.

(** [Content-Length] is believed only when it is unanimous: there is at
    least one field line, every line is text, and every comma-separated item of
    every line reads as the same number. Anything else yields no length. *)
Theorem content_length_unanimous `{HeaderSyntaxLaws} `{HeaderMap Hm} (h : Hm) n :
  content_length_parse_all h = Some n <->
    hm_get_all h H_CONTENT_LENGTH ≠ [] /\
    Forall is_text (hm_get_all h H_CONTENT_LENGTH) /\
    Forall (fun tok => from_digits (str_trim tok) = Some n)
      (concat (map (split_on COMMA) (hm_get_all h H_CONTENT_LENGTH))).
Proof. apply content_length_parse_all_values_some. Qed.

(** After [add_chunked] the message is chunked: the call does not panic on
    header values that are text, the last transfer coding is [chunked], and no
    other field is touched. *)
Theorem add_chunked_is_chunked `{HeaderSyntaxLaws} `{HeaderMapLaws Hm} (h : Hm) :
  Forall (fun v => forallb visible_ascii v = true) (hm_get_all h H_TRANSFER_ENCODING) ->
  exists h', add_chunked H_TRANSFER_ENCODING h = Some h' /\
    transfer_encoding_is_chunked h' = true /\
    (forall n, n ≠ H_TRANSFER_ENCODING -> hm_get_all h' n = hm_get_all h n).
Proof. apply add_chunked_chunked. Qed.

(** C40. [strip_connection_headers] drops exactly the connection-specific fields
    ([Connection], [Keep-Alive], [Proxy-Connection], [Transfer-Encoding],
    [Upgrade]), a [TE] whose first value is not [trailers] on a request (any [TE]
    on a response) and the fields the first [Connection] line nominates; every
    other field keeps all its values. So only the first line counts: whatever the
    later [Connection] lines nominate, and later [TE] values, are passed on. *)
Theorem strip_connection_headers_later_lines `{HeaderSyntax} `{HeaderMapLaws Hm} (h : Hm) (is_request : bool) n :
  let h' := strip_connection_headers h is_request in
  (stripped h is_request n -> hm_get_all h' n = []) /\
  (~ stripped h is_request n -> hm_get_all h' n = hm_get_all h n) /\
  (forall first later, hm_get_all h H_CONNECTION = first :: later -> Exists (fun line => nominates line n) later -> ~ nominates first n ->
     n ∉ connection_specific -> n ≠ H_TE -> hm_get_all h' n = hm_get_all h n) /\
  (forall later, is_request = true -> hm_get_all h H_TE = bs "trailers" :: later -> (forall first, hm_get h H_CONNECTION = Some first -> ~ nominates first H_TE) ->
     hm_get_all h' H_TE = bs "trailers" :: later).
Proof.
  pose proof (get_all_strip_connection_headers h is_request) as Hg. split; [apply Hg|]. split; [apply Hg|]. split.
  - intros first later Hl _ Hf Hn Ht. apply Hg. intros [?|[[? _]|(line & Hline & Hnom)]]; [done|done|]. unfold hm_get in Hline. rewrite Hl in Hline. by injection Hline as <-.
  - intros later -> Hl Hf. rewrite <-Hl. apply Hg. intros [Hc|[[_ Ht]|(line & Hline & Hnom)]]; [|apply Ht; [done|unfold hm_get; by rewrite Hl]|by eapply Hf].
    revert Hc. vm_compute. set_solver.
Qed.

Section witnesses.
Import Concrete.

Lemma content_length_unanimous_witness :
  content_length_parse_all (HMap [(H_CONTENT_LENGTH, bs "5, 5"); (H_CONTENT_LENGTH, bs " 5")]) = Some 5 <->
    [bs "5, 5"; bs " 5"] ≠ [] /\ Forall is_text [bs "5, 5"; bs " 5"] /\
    Forall (fun tok => from_digits (str_trim tok) = Some 5) [bs "5"; bs " 5"; bs " 5"].
Proof.
  exact (content_length_unanimous (HMap [(H_CONTENT_LENGTH, bs "5, 5"); (H_CONTENT_LENGTH, bs " 5")]) 5).
Defined.

Lemma add_chunked_is_chunked_witness :
  exists h', add_chunked H_TRANSFER_ENCODING (HMap [(H_TRANSFER_ENCODING, bs "gzip")]) = Some h' /\
    transfer_encoding_is_chunked h' = true /\
    (forall n, n ≠ H_TRANSFER_ENCODING ->
       hm_get_all h' n = hm_get_all (HMap [(H_TRANSFER_ENCODING, bs "gzip")]) n).
Proof.
  apply (add_chunked_is_chunked (HMap [(H_TRANSFER_ENCODING, bs "gzip")])).
  repeat constructor.
Defined.

Definition demo_headers : hmap :=
  HMap [(H_CONNECTION, bs "close"); (H_CONNECTION, bs "x-secret"); (bs "x-secret", bs "1");
        (H_TE, bs "trailers"); (H_TE, bs "gzip")].

Lemma strip_connection_headers_later_lines_witness :
  hm_get_all (strip_connection_headers demo_headers true) (bs "x-secret") = [bs "1"] /\
  hm_get_all (strip_connection_headers demo_headers true) H_TE = [bs "trailers"; bs "gzip"].
Proof.
  destruct (strip_connection_headers_later_lines demo_headers true (bs "x-secret")) as (_ & _ & Hl & Ht).
  assert (forall n, nominates (bs "close") n -> n = bs "close") as Hf by (intros n (s & [= <-] & Hn); revert Hn; vm_compute; set_solver).
  split.
  - refine (Hl (bs "close") [bs "x-secret"] eq_refl _ _ _ _); [|by intros ?%Hf|vm_compute; set_solver|done].
    constructor. exists (bs "x-secret"). split; [done|]. vm_compute. set_solver.
  - refine (Ht [bs "gzip"] eq_refl eq_refl _). intros first [= <-] ?%Hf. done.
Defined.
End witnesses.
