(* ===== verification/MemRead.v ===== *)
(** * MemRead

    The interface between the body decoder and what it reads from
    ([proto/http1/io.rs], [trait MemRead]), with the promises the decoder needs,
    and its instance for byte slices. *)

From stdpp Require Import prelude strings.
From Stdlib Require Import ZArith Lia.
From S2P Require Import Prelude.
Local Open Scope Z_scope.

(** [read_mem(len)] polls for at most [len] bytes; no bytes mean end of file. *)
Class MemRead (R : Type) : Type := read_mem : Z -> M R io_error bytes.

(** A reader delivers a fixed byte stream, in pieces of its choice, and may ask
    to be polled again a bounded number of times ([patience]). It reports the
    end of the stream only at its end. [reader_ok] is the reader's own
    invariant, kept by every read. *)
Class MemReadLaws (R : Type) `{MemRead R} : Type := {
  stream : R -> bytes;
  patience : R -> nat;
  reader_ok : R -> Prop;
  read_mem_ok : forall r n r' o, reader_ok r -> 0 < n -> read_mem n r = (r', o) -> reader_ok r';
  read_mem_ready : forall r n r' b,
    reader_ok r -> 0 < n -> read_mem n r = (r', Ready b) ->
    stream r = b ++ stream r' /\ len b <= n /\ (b = [] -> stream r = []) /\
    (patience r' <= patience r)%nat;
  read_mem_pending : forall r n r',
    reader_ok r -> 0 < n -> read_mem n r = (r', Pending) -> stream r' = stream r /\ (patience r' < patience r)%nat;
  read_mem_failed : forall r n r' e,
    reader_ok r -> 0 < n -> read_mem n r = (r', Failed e) -> stream r' = stream r;
  read_mem_no_panic : forall r n r', reader_ok r -> 0 < n -> read_mem n r ≠ (r', Panicked);
  read_mem_no_fuel : forall r n r', reader_ok r -> 0 < n -> read_mem n r ≠ (r', NoFuel);
}.

(** Readers that do not fail on their own. *)
Class MemReadInfallible (R : Type) `{MemRead R} : Prop :=
  read_mem_infallible : forall (r : R) n r' e, read_mem n r ≠ (r', Failed e).

(** [impl MemRead for &[u8]]. *)
#[export] Instance slice_MemRead : MemRead bytes := fun n s =>
  let k := Z.min n (len s) in
  if 0 <? k then (zdrop k s, Ready (ztake k s)) else (s, Ready []).

#[export] Instance slice_MemReadLaws : MemReadLaws bytes.
Proof.
  refine {| stream := id; patience := fun _ => 0%nat; reader_ok := fun _ => True |};
    unfold read_mem, slice_MemRead; simpl; try (intros; by destruct (0 <? _)).
  intros r n r' b _ Hn. pose proof (len_nonneg r). destruct (0 <? _) eqn:E; zbool.
  - intros [= <- <-]. split_and!; [by rewrite ztake_zdrop| |  |lia].
    + rewrite len_ztake by lia. lia.
    + intros Hnil. apply (f_equal len) in Hnil. rewrite len_ztake in Hnil by lia.
      rewrite len_nil in Hnil. lia.
  - intros [= <- <-]. split_and!; [done|rewrite len_nil; lia| |lia].
    intros _. apply len_zero. lia.
Defined.

#[export] Instance slice_MemReadInfallible : MemReadInfallible bytes.
Proof. intros r n r' e. unfold read_mem, slice_MemRead. by destruct (0 <? _). Qed.
