(* ===== verification/Decode.v ===== *)
(** * Decode

    [proto/http1/decode.rs]: the body decoders. The state machine of the
    chunked coding is modelled state by state, over any reader that satisfies
    [MemRead]. *)

From stdpp Require Import prelude strings.
From Stdlib Require Import ZArith Lia.
From S2P Require Import Prelude Bytes Crates Errors Length MemRead.
Local Open Scope Z_scope.

Definition CHUNKED_EXTENSIONS_LIMIT : Z := 1024 * 16.
Definition TRAILER_LIMIT : Z := 1024 * 16.
(** [role::DEFAULT_MAX_HEADERS]. *)
Definition DEFAULT_MAX_HEADERS : Z := 100.

(** [enum ChunkedState]. *)
Module ChunkedState.
Inductive t : Type :=
| Start | Size | SizeLws | Extension | SizeLf | Body | BodyCr | BodyLf
| Trailer | TrailerLf | EndCr | EndLf | End.
End ChunkedState.
Import ChunkedState (Start, Size, SizeLws, Extension, SizeLf, Body, BodyCr, BodyLf,
  Trailer, TrailerLf, EndCr, EndLf, End).

#[export] Instance ChunkedState_eq_dec : EqDecision ChunkedState.t.
Proof. solve_decision. Defined.

(** The fields of [Kind::Chunked]. *)
Record ChunkedFields : Type := MkChunked {
  state : ChunkedState.t;
  chunk_len : Z;
  extensions_cnt : Z;
  trailers_buf : option bytes;
  trailers_cnt : Z;
  h1_max_headers : option Z;
  h1_max_header_size : option Z;
}.

(** [enum Kind]; a [Decoder] is its kind. *)
Inductive Kind : Type :=
| Length (remaining : Z)
| Chunked (c : ChunkedFields)
| Eof (is_eof : bool).

Abbreviation Decoder := Kind.

(** [http_body::Frame<Bytes>]. *)
Inductive Frame (Hm : Type) : Type :=
| Data (d : bytes)
| Trailers (t : Hm).
Arguments Data {Hm} d.
Arguments Trailers {Hm} t.

Definition decoder_chunked (max_headers max_header_size : option Z) : Decoder :=
  Chunked (MkChunked Start 0 0 None 0 max_headers max_header_size).

(** [Decoder::new]; [None] where [danger_len] panics. *)
Definition decoder_new (l : DecodedLength) (max_headers max_header_size : option Z)
  : option Decoder :=
  if decide (l = CHUNKED) then Some (decoder_chunked max_headers max_header_size)
  else if decide (l = CLOSE_DELIMITED) then Some (Eof false)
  else Length <$> danger_len l.

Definition decoder_is_eof (d : Decoder) : bool :=
  match d with
  | Length n => n =? 0
  | Chunked c => bool_decide (state c = End)
  | Eof b => b
  end.

(** [struct StepArgs]. *)
Record StepArgs : Type := MkStepArgs {
  chunk_size : Z;
  chunk_buf : option bytes;
  sa_extensions_cnt : Z;
  sa_trailers_buf : option bytes;
  sa_trailers_cnt : Z;
  max_headers_cnt : Z;
  max_headers_bytes : Z;
}.

Definition set_chunk_size (v : Z) (a : StepArgs) : StepArgs :=
  MkStepArgs v (chunk_buf a) (sa_extensions_cnt a) (sa_trailers_buf a) (sa_trailers_cnt a)
    (max_headers_cnt a) (max_headers_bytes a).
Definition set_chunk_buf (v : option bytes) (a : StepArgs) : StepArgs :=
  MkStepArgs (chunk_size a) v (sa_extensions_cnt a) (sa_trailers_buf a) (sa_trailers_cnt a)
    (max_headers_cnt a) (max_headers_bytes a).
Definition set_extensions_cnt (v : Z) (a : StepArgs) : StepArgs :=
  MkStepArgs (chunk_size a) (chunk_buf a) v (sa_trailers_buf a) (sa_trailers_cnt a)
    (max_headers_cnt a) (max_headers_bytes a).
Definition set_trailers_buf (v : option bytes) (a : StepArgs) : StepArgs :=
  MkStepArgs (chunk_size a) (chunk_buf a) (sa_extensions_cnt a) v (sa_trailers_cnt a)
    (max_headers_cnt a) (max_headers_bytes a).
Definition set_trailers_cnt (v : Z) (a : StepArgs) : StepArgs :=
  MkStepArgs (chunk_size a) (chunk_buf a) (sa_extensions_cnt a) (sa_trailers_buf a) v
    (max_headers_cnt a) (max_headers_bytes a).

(** The arms of each [match byte!(rdr, cx)]: they work on the arguments only,
    for a reader of any type. *)
Section arms.
Context {R : Type}.
Abbreviation Step := (M (R * StepArgs) io_error).

Definition args : Step StepArgs := fun s => (s, Ready s.2).
Definition set_args (f : StepArgs -> StepArgs) : Step unit := modify (fun s => (s.1, f s.2)).

Definition io_fail {A} (k : ErrorKind) (msg : string) : Step A := fail (IoError k (Msg msg)).

(** [or_overflow!]. *)
Definition or_overflow (o : option Z) : Step Z :=
  match o with
  | Some v => mret v
  | None => io_fail InvalidData "invalid chunk size: overflow"
  end.

(** [put_u8!] on a present buffer. *)
Definition put_u8 (buf : bytes) (b limit : Z) : Step unit :=
  set_args (set_trailers_buf (Some (buf ++ [b])));;
  if limit <=? len (buf ++ [b])
  then io_fail InvalidData "chunk trailers bytes over limit"
  else mret tt.

(** The two assignments [size = size * 16; size = size + digit]. *)
Definition push_digit (d : Z) : Step unit :=
  a ← args;
  n ← or_overflow (checked_mul (chunk_size a) 16);
  set_args (set_chunk_size n);;
  n' ← or_overflow (checked_add n d);
  set_args (set_chunk_size n').

Definition start_arms (b : Z) : Step ChunkedState.t :=
  if in_range 48 57 b then push_digit (b - 48);; mret Size
  else if in_range 97 102 b then push_digit (b + 10 - 97);; mret Size
  else if in_range 65 70 b then push_digit (b + 10 - 65);; mret Size
  else io_fail InvalidInput "Invalid chunk size line: missing size digit".

Definition size_arms (b : Z) : Step ChunkedState.t :=
  if in_range 48 57 b then push_digit (b - 48);; mret Size
  else if in_range 97 102 b then push_digit (b + 10 - 97);; mret Size
  else if in_range 65 70 b then push_digit (b + 10 - 65);; mret Size
  else if (b =? HTAB) || (b =? SP) then mret SizeLws
  else if b =? SEMI then mret Extension
  else if b =? CR then mret SizeLf
  else io_fail InvalidInput "Invalid chunk size line: Invalid Size".

Definition size_lws_arms (b : Z) : Step ChunkedState.t :=
  if (b =? HTAB) || (b =? SP) then mret SizeLws
  else if b =? SEMI then mret Extension
  else if b =? CR then mret SizeLf
  else io_fail InvalidInput "Invalid chunk size linear white space".

Definition extension_arms (b : Z) : Step ChunkedState.t :=
  if b =? CR then mret SizeLf
  else if b =? LF then io_fail InvalidData "invalid chunk extension contains newline"
  else
    a ← args;
    let n := sa_extensions_cnt a + 1 in
    set_args (set_extensions_cnt n);;
    if CHUNKED_EXTENSIONS_LIMIT <=? n then io_fail InvalidData "chunk extensions over limit"
    else mret Extension.

Definition size_lf_arms (b : Z) : Step ChunkedState.t :=
  if b =? LF then
    a ← args;
    if chunk_size a =? 0 then mret EndCr else mret Body
  else io_fail InvalidInput "Invalid chunk size LF".

Definition body_cr_arms (b : Z) : Step ChunkedState.t :=
  if b =? CR then mret BodyLf else io_fail InvalidInput "Invalid chunk body CR".

Definition body_lf_arms (b : Z) : Step ChunkedState.t :=
  if b =? LF then mret Start else io_fail InvalidInput "Invalid chunk body LF".

Definition trailer_arms (b : Z) : Step ChunkedState.t :=
  a ← args;
  buf ← expect (sa_trailers_buf a);
  put_u8 buf b (max_headers_bytes a);;
  if b =? CR then mret TrailerLf else mret Trailer.

Definition trailer_lf_arms (b : Z) : Step ChunkedState.t :=
  if b =? LF then
    a ← args;
    if max_headers_cnt a <=? sa_trailers_cnt a then
      io_fail InvalidData "chunk trailers count overflow"
    else
      set_args (set_trailers_cnt (sa_trailers_cnt a + 1));;
      buf ← expect (sa_trailers_buf a);
      put_u8 buf b (max_headers_bytes a);;
      mret EndCr
  else io_fail InvalidInput "Invalid trailer end LF".

Definition end_cr_arms (b : Z) : Step ChunkedState.t :=
  a ← args;
  if b =? CR then
    match sa_trailers_buf a with
    | Some buf => put_u8 buf b (max_headers_bytes a)
    | None => mret tt
    end;;
    mret EndLf
  else
    match sa_trailers_buf a with
    | None => set_args (set_trailers_buf (Some [b]))
    | Some buf => put_u8 buf b (max_headers_bytes a)
    end;;
    mret Trailer.

Definition end_lf_arms (b : Z) : Step ChunkedState.t :=
  if b =? LF then
    a ← args;
    match sa_trailers_buf a with
    | Some buf => put_u8 buf b (max_headers_bytes a)
    | None => mret tt
    end;;
    mret End
  else io_fail InvalidInput "Invalid chunk end LF".
End arms.

Section steps.
Context `{MemRead R}.
Abbreviation Step := (M (R * StepArgs) io_error).

Definition rdr {A} (m : M R io_error A) : Step A := zoom fst (fun r s => (r, s.2)) m.

(** [byte!]. *)
Definition byte : Step Z :=
  buf ← rdr (read_mem 1);
  match buf with
  | b :: _ => mret b
  | [] => io_fail UnexpectedEof "unexpected EOF during chunk size line"
  end.

Definition read_start : Step ChunkedState.t := b ← byte; start_arms b.
Definition read_size : Step ChunkedState.t := b ← byte; size_arms b.
Definition read_size_lws : Step ChunkedState.t := b ← byte; size_lws_arms b.
Definition read_extension : Step ChunkedState.t := b ← byte; extension_arms b.
Definition read_size_lf : Step ChunkedState.t := b ← byte; size_lf_arms b.
Definition read_body_cr : Step ChunkedState.t := b ← byte; body_cr_arms b.
Definition read_body_lf : Step ChunkedState.t := b ← byte; body_lf_arms b.
Definition read_trailer : Step ChunkedState.t := b ← byte; trailer_arms b.
Definition read_trailer_lf : Step ChunkedState.t := b ← byte; trailer_lf_arms b.
Definition read_end_cr : Step ChunkedState.t := b ← byte; end_cr_arms b.
Definition read_end_lf : Step ChunkedState.t := b ← byte; end_lf_arms b.

Definition read_body : Step ChunkedState.t :=
  a ← args;
  slice ← rdr (read_mem (usize_or_max (chunk_size a)));
  let count := len slice in
  if count =? 0 then
    set_args (set_chunk_size 0);;
    fail (IoError UnexpectedEof IncompleteBody)
  else
    set_args (set_chunk_buf (Some slice));;
    rem ← expect (checked_sub (chunk_size a) count);
    set_args (set_chunk_size rem);;
    if 0 <? rem then mret Body else mret BodyCr.

(** [ChunkedState::step]. *)
Definition step (s : ChunkedState.t) : Step ChunkedState.t :=
  match s with
  | Start => read_start
  | Size => read_size
  | SizeLws => read_size_lws
  | Extension => read_extension
  | SizeLf => read_size_lf
  | Body => read_body
  | BodyCr => read_body_cr
  | BodyLf => read_body_lf
  | Trailer => read_trailer
  | TrailerLf => read_trailer_lf
  | EndCr => read_end_cr
  | EndLf => read_end_lf
  | End => mret End
  end.
End steps.

Section decode.
Context `{HeaderSyntax} `{HeaderMap Hm} `{HttparseHeaders} `{MemReadLaws R}.
Abbreviation Dec := (M (Decoder * R) io_error).

(** The loop of [decode_trailers] over the parsed headers. *)
Fixpoint append_trailers (headers : list (bytes * bytes)) (trailers : Hm) : result io_error Hm :=
  match headers with
  | [] => Ok trailers
  | (n, v) :: headers' =>
      match hn_from_bytes n with
      | None => Err (IoError InvalidInput (BadHeader "Invalid header name" n v))
      | Some name =>
          match hv_from_bytes v with
          | None => Err (IoError InvalidInput (BadHeader "Invalid header value" n v))
          | Some value => append_trailers headers' (hm_append name value trailers)
          end
      end
  end.

Definition decode_trailers (buf : bytes) (count : Z) : result io_error Hm :=
  match hp_parse_headers buf count with
  | Ok (Complete (_, headers)) => append_trailers headers hm_new
  | Ok Partial => Err (IoError InvalidInput (Msg "Partial header"))
  | Err e => Err (IoError InvalidInput (HttparsePayload e))
  end.

(** The [StepArgs] borrowed from the fields of the decoder, and the fields
    after a step has written through them. *)
Definition step_args (c : ChunkedFields) : StepArgs :=
  MkStepArgs (chunk_len c) None (extensions_cnt c) (trailers_buf c) (trailers_cnt c)
    (default DEFAULT_MAX_HEADERS (h1_max_headers c))
    (default TRAILER_LIMIT (h1_max_header_size c)).

Definition write_back (s : ChunkedState.t) (a : StepArgs) (c : ChunkedFields) : ChunkedFields :=
  MkChunked s (chunk_size a) (sa_extensions_cnt a) (sa_trailers_buf a) (sa_trailers_cnt a)
    (h1_max_headers c) (h1_max_header_size c).

Definition clear_trailers (c : ChunkedFields) : ChunkedFields :=
  MkChunked (state c) (chunk_len c) (extensions_cnt c) None (trailers_cnt c)
    (h1_max_headers c) (h1_max_header_size c).

(** The [loop] of the chunked decoder. *)
Fixpoint decode_chunked (fuel : nat) (c : ChunkedFields) (r : R)
  : (Decoder * R) * outcome io_error (Frame Hm) :=
  match fuel with
  | O => ((Chunked c, r), NoFuel)
  | S k =>
      match step (state c) (r, step_args c) with
      | ((r', a), Ready s) =>
          let c' := write_back s a c in
          if decide (s = End) then
            match trailers_buf c' with
            | Some buf =>
                match decode_trailers buf (trailers_cnt c') with
                | Ok headers => ((Chunked (clear_trailers c'), r'), Ready (Trailers headers))
                | Err e => ((Chunked (clear_trailers c'), r'), Failed e)
                end
            | None => ((Chunked c', r'), Ready (Data []))
            end
          else
            match chunk_buf a with
            | Some buf => ((Chunked c', r'), Ready (Data buf))
            | None => decode_chunked k c' r'
            end
      | ((r', a), Failed e) => ((Chunked (write_back (state c) a c), r'), Failed e)
      | ((r', a), Pending) => ((Chunked (write_back (state c) a c), r'), Pending)
      | ((r', a), Panicked) => ((Chunked (write_back (state c) a c), r'), Panicked)
      | ((r', a), NoFuel) => ((Chunked (write_back (state c) a c), r'), NoFuel)
      end
  end.

(** [Decoder::decode]. Every iteration of the chunked loop that goes on has
    consumed a byte, so the bound is never reached ([DecodeRefine.decode_chunked_call]). *)
Definition decode : Dec (Frame Hm) := fun '(d, r) =>
  match d with
  | Length remaining =>
      if remaining =? 0 then ((d, r), Ready (Data []))
      else
        match read_mem (usize_or_max remaining) r with
        | (r', Ready buf) =>
            let num := len buf in
            if remaining <? num then ((Length 0, r'), Ready (Data buf))
            else if num =? 0 then ((d, r'), Failed (IoError UnexpectedEof IncompleteBody))
            else ((Length (remaining - num), r'), Ready (Data buf))
        | (r', Failed e) => ((d, r'), Failed e)
        | (r', Pending) => ((d, r'), Pending)
        | (r', Panicked) => ((d, r'), Panicked)
        | (r', NoFuel) => ((d, r'), NoFuel)
        end
  | Chunked c => decode_chunked (S (length (stream r))) c r
  | Eof is_eof =>
      if is_eof then ((d, r), Ready (Data []))
      else
        match read_mem 8192 r with
        | (r', Ready slice) => ((Eof (bool_decide (slice = [])), r'), Ready (Data slice))
        | (r', Failed e) => ((d, r'), Failed e)
        | (r', Pending) => ((d, r'), Pending)
        | (r', Panicked) => ((d, r'), Panicked)
        | (r', NoFuel) => ((d, r'), NoFuel)
        end
  end.
End decode.
