(* ===== verification/DecodeSpec.v ===== *)
(** * DecodeSpec

    What the chunked decoder accepts. A byte-at-a-time automaton [feed] is read
    off the code, every lawful reader is shown to drive the decoder through it
    whatever the sizes of its reads, and the words the automaton accepts are
    shown to be exactly those of a grammar of chunked bodies with the decoder's
    limits. *)

From stdpp Require Import prelude strings.
From Stdlib Require Import ZArith Lia.
From S2P Require Import Prelude Bytes Crates Errors Length MemRead Decode.
Import ChunkedState.
Local Open Scope Z_scope.

(** ** The byte automaton *)

(** The effect of one more byte on the decoder: its next state and the body
    bytes it yields. At [End] no byte is taken. *)
Definition feed (c : ChunkedFields) (b : Z) : result (option io_error) (ChunkedFields * bytes) :=
  if decide (state c = End) then Err None
  else
    match step (state c) ([b], step_args c) with
    | ((_, a), Ready s) => Ok (write_back s a c, default [] (chunk_buf a))
    | (_, Failed e) => Err (Some e)
    | _ => Err None
    end.

Fixpoint feed_all (c : ChunkedFields) (w : bytes) : result (option io_error) (ChunkedFields * bytes) :=
  match w with
  | [] => Ok (c, [])
  | b :: w' =>
      match feed c b with
      | Ok (c1, o1) =>
          match feed_all c1 w' with
          | Ok (c2, o2) => Ok (c2, o1 ++ o2)
          | Err e => Err e
          end
      | Err e => Err e
      end
  end.

Lemma feed_all_app c w1 w2 :
  feed_all c (w1 ++ w2) =
    match feed_all c w1 with
    | Ok (c1, o1) =>
        match feed_all c1 w2 with Ok (c2, o2) => Ok (c2, o1 ++ o2) | Err e => Err e end
    | Err e => Err e
    end.
Proof.
  revert c. induction w1 as [|b w1 IH]; intros c; simpl.
  - by destruct (feed_all c w2) as [[]|].
  - destruct (feed c b) as [[c1 o1]|]; [|done]. rewrite IH.
    destruct (feed_all c1 w1) as [[c2 o2]|]; [|done].
    destruct (feed_all c2 w2) as [[]|]; [|done]. by rewrite app_assoc.
Qed.

(** ** Hexadecimal digits *)

Definition hexval (b : Z) : option Z :=
  if in_range 48 57 b then Some (b - 48)
  else if in_range 97 102 b then Some (b + 10 - 97)
  else if in_range 65 70 b then Some (b + 10 - 65)
  else None.

Lemma hexval_range b d : hexval b = Some d -> 0 <= d < 16.
Proof. unfold hexval, in_range. intros. repeat case_match; simplify_eq; ulia. Qed.

Lemma hexval_hex_digit d : 0 <= d < 16 -> hexval (hex_digit d) = Some d.
Proof.
  intros Hd. unfold hexval, hex_digit, in_range.
  destruct (d <? 10) eqn:E; zbool.
  - rewrite (proj2 (Z.leb_le 48 (48 + d))), (proj2 (Z.leb_le (48 + d) 57)) by lia. simpl. f_equal. lia.
  - rewrite (proj2 (Z.leb_gt (55 + d) 57)) by lia. rewrite andb_false_r.
    rewrite (proj2 (Z.leb_gt 97 (55 + d))) by lia. simpl.
    rewrite (proj2 (Z.leb_le 65 (55 + d))), (proj2 (Z.leb_le (55 + d) 70)) by lia. simpl. f_equal. lia.
Qed.

(** ** The automaton, state by state *)

Section automaton.
Context (mh ms : option Z).

(** A configuration of the decoder with the limits [mh] and [ms]. *)
Definition cfg (s : ChunkedState.t) (n e : Z) (tb : option bytes) (tc : Z) : ChunkedFields :=
  MkChunked s n e tb tc mh ms.

Definition max_cnt : Z := default DEFAULT_MAX_HEADERS mh.
Definition max_bytes : Z := default TRAILER_LIMIT ms.

Definition push (n e : Z) tb tc (d : Z) : result (option io_error) (ChunkedFields * bytes) :=
  if n * 16 + d <=? U64_MAX then Ok (cfg Size (n * 16 + d) e tb tc, [])
  else Err (Some (IoError InvalidData (Msg "invalid chunk size: overflow"))).

(** Appending a byte to the trailer buffer and moving on to state [s]. *)
Definition put (s : ChunkedState.t) (n e : Z) (buf : bytes) (tc b : Z)
  : result (option io_error) (ChunkedFields * bytes) :=
  if max_bytes <=? len (buf ++ [b])
  then Err (Some (IoError InvalidData (Msg "chunk trailers bytes over limit")))
  else Ok (cfg s n e (Some (buf ++ [b])) tc, []).

Definition bad (k : ErrorKind) (msg : string) : result (option io_error) (ChunkedFields * bytes) :=
  Err (Some (IoError k (Msg msg))).

Lemma byte_slice b (a : StepArgs) : byte ([b], a) = (([], a), Ready b).
Proof. reflexivity. Qed.

Lemma push_digit_run {R} (r : R) a d :
  0 <= chunk_size a -> 0 <= d ->
  if chunk_size a * 16 + d <=? U64_MAX
  then push_digit d (r, a) = ((r, set_chunk_size (chunk_size a * 16 + d) a), Ready tt)
  else exists a', push_digit d (r, a) =
    ((r, a'), Failed (IoError InvalidData (Msg "invalid chunk size: overflow"))).
Proof.
  intros Ha Hd. unfold push_digit, mbind, M_bind, args, or_overflow, checked_mul, checked_add.
  cbn beta iota. destruct (chunk_size a * 16 <=? U64_MAX) eqn:E1; simpl; rewrite ?E1; simpl.
  - destruct (_ + d <=? U64_MAX); simpl; eauto.
  - destruct (_ + d <=? U64_MAX) eqn:E2; [ulia|eauto].
Qed.

Ltac feed_run :=
  unfold feed, cfg; cbn [state]; rewrite decide_False by done; cbn [step step_args chunk_len
    extensions_cnt trailers_buf trailers_cnt h1_max_headers h1_max_header_size];
  cbv delta [read_start read_size read_size_lws read_extension read_size_lf read_body_cr
    read_body_lf read_trailer read_trailer_lf read_end_cr read_end_lf]; cbv beta;
  unfold mbind at 1, M_bind at 1; rewrite byte_slice;
  cbv delta [start_arms size_arms size_lws_arms extension_arms size_lf_arms body_cr_arms
    body_lf_arms trailer_arms trailer_lf_arms end_cr_arms end_lf_arms]; cbv beta.

Ltac run_all := unfold mbind, M_bind, put_u8, set_args, modify, args, expect;
  cbn -[CHUNKED_EXTENSIONS_LIMIT Z.leb Z.ltb Z.add len app checked_sub].

Lemma feed_digit n e tb tc d :
  0 <= n -> 0 <= d ->
  match (push_digit d;; mret Size) (@nil Z, step_args (cfg Start n e tb tc)) with
  | ((_, a), Ready s) => Ok (write_back s a (cfg Start n e tb tc), default [] (chunk_buf a))
  | (_, Failed e) => Err (Some e)
  | _ => Err None
  end = push n e tb tc d.
Proof.
  intros Hn Hd. pose proof (push_digit_run (@nil Z) (step_args (cfg Start n e tb tc)) d) as Hp.
  simpl in Hp. specialize (Hp Hn Hd). unfold push, mbind, M_bind.
  destruct (n * 16 + d <=? U64_MAX).
  - by rewrite Hp.
  - destruct Hp as [a' ->]. done.
Qed.

Lemma feed_Start n e tb tc b :
  0 <= n ->
  feed (cfg Start n e tb tc) b =
    match hexval b with
    | Some d => push n e tb tc d
    | None => bad InvalidInput "Invalid chunk size line: missing size digit"
    end.
Proof.
  intros Hn. feed_run. unfold hexval.
  destruct (in_range 48 57 b) eqn:E1; [|destruct (in_range 97 102 b) eqn:E2;
    [|destruct (in_range 65 70 b) eqn:E3; [|done]]].
  all: unfold in_range in *; apply (feed_digit n e tb tc _ Hn); ulia.
Qed.

Lemma feed_Size n e tb tc b :
  0 <= n ->
  feed (cfg Size n e tb tc) b =
    match hexval b with
    | Some d => push n e tb tc d
    | None =>
        if (b =? HTAB) || (b =? SP) then Ok (cfg SizeLws n e tb tc, [])
        else if b =? SEMI then Ok (cfg Extension n e tb tc, [])
        else if b =? CR then Ok (cfg SizeLf n e tb tc, [])
        else bad InvalidInput "Invalid chunk size line: Invalid Size"
    end.
Proof.
  intros Hn. feed_run. unfold hexval.
  destruct (in_range 48 57 b) eqn:E1; [|destruct (in_range 97 102 b) eqn:E2;
    [|destruct (in_range 65 70 b) eqn:E3]].
  1-3: unfold in_range in *; apply (feed_digit n e tb tc _ Hn); ulia.
  destruct (_ || _); [done|]. destruct (b =? SEMI); [done|]. by destruct (b =? CR).
Qed.

Lemma feed_SizeLws n e tb tc b :
  feed (cfg SizeLws n e tb tc) b =
    if (b =? HTAB) || (b =? SP) then Ok (cfg SizeLws n e tb tc, [])
    else if b =? SEMI then Ok (cfg Extension n e tb tc, [])
    else if b =? CR then Ok (cfg SizeLf n e tb tc, [])
    else bad InvalidInput "Invalid chunk size linear white space".
Proof.
  feed_run. destruct (_ || _); [done|]. destruct (b =? SEMI); [done|]. by destruct (b =? CR).
Qed.

Lemma feed_Extension n e tb tc b :
  feed (cfg Extension n e tb tc) b =
    if b =? CR then Ok (cfg SizeLf n e tb tc, [])
    else if b =? LF then bad InvalidData "invalid chunk extension contains newline"
    else if CHUNKED_EXTENSIONS_LIMIT <=? e + 1 then bad InvalidData "chunk extensions over limit"
    else Ok (cfg Extension n (e + 1) tb tc, []).
Proof.
  feed_run. destruct (b =? CR); [done|]. destruct (b =? LF); [done|].
  run_all. by destruct (CHUNKED_EXTENSIONS_LIMIT <=? e + 1).
Qed.

Lemma feed_SizeLf n e tb tc b :
  feed (cfg SizeLf n e tb tc) b =
    if b =? LF then
      if n =? 0 then Ok (cfg EndCr n e tb tc, []) else Ok (cfg Body n e tb tc, [])
    else bad InvalidInput "Invalid chunk size LF".
Proof. feed_run. destruct (b =? LF); [|done]. run_all. by destruct (n =? 0). Qed.

Lemma feed_Body n e tb tc b :
  0 < n ->
  feed (cfg Body n e tb tc) b =
    Ok (cfg (if 0 <? n - 1 then Body else BodyCr) (n - 1) e tb tc, [b]).
Proof.
  intros Hn. unfold feed, cfg; cbn [state]; rewrite decide_False by done.
  cbn [step]. unfold read_body, mbind, M_bind, args, rdr, zoom, read_mem, slice_MemRead.
  cbn [fst snd step_args chunk_size chunk_len].
  assert (0 < usize_or_max n) as Hu by (unfold usize_or_max; case_match; ulia).
  change (len [b]) with 1. replace (Z.min (usize_or_max n) 1) with 1 by lia.
  change (0 <? 1) with true. change (ztake 1 [b]) with [b]. run_all.
  assert (Hs : checked_sub n 1 = Some (n - 1)).
  { unfold checked_sub. by rewrite (proj2 (Z.leb_le 1 n)) by lia. }
  change (len [b]) with 1. rewrite Hs. run_all. by destruct (0 <? n - 1).
Qed.

Lemma feed_BodyCr n e tb tc b :
  feed (cfg BodyCr n e tb tc) b =
    if b =? CR then Ok (cfg BodyLf n e tb tc, []) else bad InvalidInput "Invalid chunk body CR".
Proof. feed_run. by destruct (b =? CR). Qed.

Lemma feed_BodyLf n e tb tc b :
  feed (cfg BodyLf n e tb tc) b =
    if b =? LF then Ok (cfg Start n e tb tc, []) else bad InvalidInput "Invalid chunk body LF".
Proof. feed_run. by destruct (b =? LF). Qed.

Ltac put_run := run_all; unfold put, max_bytes;
  match goal with |- context [?l <=? len ?x] => by destruct (l <=? len x) end.

Lemma feed_Trailer n e buf tc b :
  feed (cfg Trailer n e (Some buf) tc) b =
    put (if b =? CR then TrailerLf else Trailer) n e buf tc b.
Proof. feed_run. destruct (b =? CR); put_run. Qed.

Lemma feed_TrailerLf n e buf tc b :
  feed (cfg TrailerLf n e (Some buf) tc) b =
    if b =? LF then
      if max_cnt <=? tc then bad InvalidData "chunk trailers count overflow"
      else put EndCr n e buf (tc + 1) b
    else bad InvalidInput "Invalid trailer end LF".
Proof.
  feed_run. destruct (b =? LF); [|done]. run_all. unfold max_cnt.
  destruct (_ <=? tc); [done|]. put_run.
Qed.

Lemma feed_EndCr n e tb tc b :
  feed (cfg EndCr n e tb tc) b =
    match tb with
    | Some buf => put (if b =? CR then EndLf else Trailer) n e buf tc b
    | None =>
        if b =? CR then Ok (cfg EndLf n e None tc, []) else Ok (cfg Trailer n e (Some [b]) tc, [])
    end.
Proof. feed_run. run_all. destruct (b =? CR), tb as [buf|]; first [done|put_run]. Qed.

Lemma feed_EndLf n e tb tc b :
  feed (cfg EndLf n e tb tc) b =
    if b =? LF then
      match tb with Some buf => put End n e buf tc b | None => Ok (cfg End n e None tc, []) end
    else bad InvalidInput "Invalid chunk end LF".
Proof.
  feed_run. destruct (b =? LF); [|done]. run_all. destruct tb as [buf|]; [put_run|done].
Qed.

Lemma feed_End n e tb tc b : feed (cfg End n e tb tc) b = Err None.
Proof. done. Qed.
End automaton.
