(* ===== verification/ChunkedGrammar.v ===== *)
(** * ChunkedGrammar

    A grammar of chunked bodies (RFC 9112, section 7.1, with the decoder's
    limits) and the proof that the byte automaton of the decoder accepts
    exactly its words, with the body and the trailer section the grammar
    assigns to them. *)

From stdpp Require Import prelude strings.
From Stdlib Require Import ZArith Lia.
From S2P Require Import Prelude Bytes Crates Errors Length MemRead Decode DecodeSpec.
Import ChunkedState.
Local Open Scope Z_scope.

(** ** The grammar *)

Definition is_hex (s : bytes) : Prop := Forall (fun b => is_Some (hexval b)) s.

(** The number a string of hexadecimal digits denotes, after a prefix worth [n]. *)
Definition hex_value (n : Z) (ds : bytes) : Z :=
  fold_left (fun v b => v * 16 + default 0 (hexval b)) ds n.

Definition is_ws (b : Z) : Prop := b = HTAB \/ b = SP.

Definition ext_bytes (ext : option bytes) : bytes :=
  match ext with Some x => SEMI :: x | None => [] end.
Definition ext_len (ext : option bytes) : Z :=
  match ext with Some x => len x | None => 0 end.
Definition ext_ok (ext : option bytes) : Prop :=
  match ext with Some x => (CR ∉ x) /\ (LF ∉ x) | None => True end.

(** [chunk-size [ chunk-ext ] CRLF]. *)
Definition size_line (ds ws : bytes) (ext : option bytes) : bytes :=
  ds ++ ws ++ ext_bytes ext ++ CRLF.

Definition size_line_ok (ds ws : bytes) (ext : option bytes) (v : Z) : Prop :=
  ds ≠ [] /\ is_hex ds /\ hex_value 0 ds = v /\ v <= U64_MAX /\ Forall is_ws ws /\ ext_ok ext.

(** [chunks e w d e']: [w] is a sequence of chunks with body [d]; the extension
    bytes seen grow from [e] to [e']. *)
Inductive chunks : Z -> bytes -> bytes -> Z -> Prop :=
| chunks_nil e : chunks e [] [] e
| chunks_cons e ds ws ext data w d e' :
    size_line_ok ds ws ext (len data) -> data ≠ [] ->
    e + ext_len ext < CHUNKED_EXTENSIONS_LIMIT ->
    chunks (e + ext_len ext) w d e' ->
    chunks e (size_line ds ws ext ++ data ++ CRLF ++ w) (data ++ d) e'.

(** A trailer line is not empty and holds no CR. *)
Definition trailer_lines_ok (ls : list bytes) : Prop := Forall (fun l => l ≠ [] /\ (CR ∉ l)) ls.

Definition trailer_lines (ls : list bytes) : bytes := concat (map (fun l => l ++ CRLF) ls).
Definition trailer_section (ls : list bytes) : bytes := trailer_lines ls ++ CRLF.

(** What the decoder keeps of the trailer section. *)
Definition trailer_part (ls : list bytes) : option bytes :=
  match ls with [] => None | _ => Some (trailer_section ls) end.

(** [*chunk last-chunk trailer-section CRLF], within the limits. *)
Inductive chunked_body (max_cnt max_bytes : Z) : bytes -> bytes -> option bytes -> Z -> Prop :=
| chunked_body_intro w d e ds ws ext ls :
    chunks 0 w d e ->
    size_line_ok ds ws ext 0 -> e + ext_len ext < CHUNKED_EXTENSIONS_LIMIT ->
    trailer_lines_ok ls -> len ls <= max_cnt ->
    (ls ≠ [] -> len (trailer_section ls) < max_bytes) ->
    chunked_body max_cnt max_bytes (w ++ size_line ds ws ext ++ trailer_section ls) d
      (trailer_part ls) (len ls).

(** ** Bytes that are told apart *)

Lemma hexval_not_sep b d : hexval b = Some d -> b ≠ HTAB /\ b ≠ SP /\ b ≠ SEMI /\ b ≠ CR /\ b ≠ LF.
Proof.
  unfold hexval, in_range, HTAB, SP, SEMI, CR, LF. intros Hb.
  repeat case_match; simplify_eq; zbool; lia.
Qed.

Lemma hex_value_mono n ds : 0 <= n -> is_hex ds -> n <= hex_value n ds.
Proof.
  revert n. induction ds as [|b ds IH]; intros n Hn Hds; unfold hex_value; simpl; [lia|].
  inversion_clear Hds as [|? ? [v Hv] Hds']. pose proof (hexval_range b v Hv).
  rewrite Hv. simpl. fold (hex_value (n * 16 + v) ds).
  specialize (IH (n * 16 + v) ltac:(lia) Hds'). lia.
Qed.

Lemma hex_value_cons n b ds v :
  hexval b = Some v -> hex_value n (b :: ds) = hex_value (n * 16 + v) ds.
Proof. intros Hb. unfold hex_value. simpl. by rewrite Hb. Qed.

Section grammar.
Context (mh ms : option Z).
Abbreviation cfg := (cfg mh ms).

(** ** Words of the grammar are accepted *)

Lemma push_ok n e tb tc d :
  n * 16 + d <= U64_MAX -> push mh ms n e tb tc d = Ok (cfg Size (n * 16 + d) e tb tc, []).
Proof. intros Hd. unfold push. by rewrite (proj2 (Z.leb_le _ _)) by done. Qed.

Lemma feed_all_digits ds n e tb tc :
  0 <= n -> is_hex ds -> hex_value n ds <= U64_MAX ->
  feed_all (cfg Size n e tb tc) ds = Ok (cfg Size (hex_value n ds) e tb tc, []).
Proof.
  revert n. induction ds as [|b ds IH]; intros n Hn Hds Hle; [done|].
  inversion_clear Hds as [|? ? [v Hv] Hds']. cbn [feed_all].
  rewrite feed_Size, Hv by done. rewrite (hex_value_cons _ _ _ v Hv) in *.
  pose proof (hexval_range b v Hv).
  pose proof (hex_value_mono (n * 16 + v) ds ltac:(lia) Hds').
  rewrite push_ok by lia. rewrite IH by (done || lia). done.
Qed.

Lemma feed_all_ws ws n e tb tc :
  Forall is_ws ws -> feed_all (cfg SizeLws n e tb tc) ws = Ok (cfg SizeLws n e tb tc, []).
Proof.
  induction 1 as [|b ws Hb _ IH]; [done|]. cbn [feed_all]. rewrite feed_SizeLws.
  replace ((b =? HTAB) || (b =? SP)) with true by (destruct Hb as [-> | ->]; done).
  by rewrite IH.
Qed.

Lemma feed_all_ext x n e tb tc :
  CR ∉ x -> LF ∉ x -> e + len x < CHUNKED_EXTENSIONS_LIMIT ->
  feed_all (cfg Extension n e tb tc) (x ++ [CR]) = Ok (cfg SizeLf n (e + len x) tb tc, []).
Proof.
  revert e. induction x as [|b x IH]; intros e HCR HLF Hlt; cbn [app feed_all];
    rewrite feed_Extension.
  - simpl. by rewrite len_nil, Z.add_0_r.
  - apply not_elem_of_cons in HCR as [Hb HCR], HLF as [Hb' HLF]. rewrite len_cons in *.
    pose proof (len_nonneg x).
    rewrite (proj2 (Z.eqb_neq b CR)), (proj2 (Z.eqb_neq b LF)),
      (proj2 (Z.leb_gt CHUNKED_EXTENSIONS_LIMIT (e + 1))) by (done || lia).
    rewrite IH by (done || lia). by rewrite <- Z.add_assoc.
Qed.

(** The end of a size line, from the state that white space leads to. *)
Lemma feed_all_ext_cr ext n e tb tc s :
  s = Size \/ s = SizeLws -> 0 <= n ->
  ext_ok ext -> e + ext_len ext < CHUNKED_EXTENSIONS_LIMIT ->
  feed_all (cfg s n e tb tc) (ext_bytes ext ++ [CR]) = Ok (cfg SizeLf n (e + ext_len ext) tb tc, []).
Proof.
  intros Hs Hn Hok Hlt. destruct ext as [x|]; simpl in *.
  - destruct Hok as [H1 H2].
    assert (feed (cfg s n e tb tc) SEMI = Ok (cfg Extension n e tb tc, [])) as ->.
    { destruct Hs as [-> | ->]; [by rewrite feed_Size|by rewrite feed_SizeLws]. }
    by rewrite feed_all_ext.
  - rewrite Z.add_0_r.
    assert (feed (cfg s n e tb tc) CR = Ok (cfg SizeLf n e tb tc, [])) as ->; [|done].
    destruct Hs as [-> | ->]; [by rewrite feed_Size|by rewrite feed_SizeLws].
Qed.

Lemma feed_all_size_line ds ws ext v e tb tc :
  size_line_ok ds ws ext v -> e + ext_len ext < CHUNKED_EXTENSIONS_LIMIT ->
  feed_all (cfg Start 0 e tb tc) (size_line ds ws ext) =
    Ok (cfg (if v =? 0 then EndCr else Body) v (e + ext_len ext) tb tc, []).
Proof.
  intros (Hne & Hhex & Hv & Hle & Hws & Hext) Hlt. unfold size_line.
  destruct ds as [|b ds]; [done|]. inversion_clear Hhex as [|? ? [d Hd] Hhex'].
  pose proof (hexval_range b d Hd). rewrite (hex_value_cons _ _ _ d Hd) in Hv.
  change (0 * 16 + d) with d in Hv. pose proof (hex_value_mono d ds ltac:(lia) Hhex').
  cbn [app feed_all]. rewrite feed_Start, Hd by lia. rewrite push_ok by (simpl; lia).
  change (0 * 16 + d) with d. rewrite feed_all_app, feed_all_digits, Hv by (done || lia).
  assert (Hlf : forall n e', feed_all (cfg SizeLf n e' tb tc) [LF] =
    Ok (cfg (if n =? 0 then EndCr else Body) n e' tb tc, [])).
  { intros n e'. simpl. rewrite feed_SizeLf. simpl. by destruct (n =? 0). }
  unfold CRLF. change [CR; LF] with ([CR] ++ [LF]). rewrite !(app_assoc (ext_bytes ext)).
  destruct ws as [|s ws].
  - cbn [app]. rewrite feed_all_app, feed_all_ext_cr by (naive_solver || lia).
    by rewrite Hlf.
  - inversion_clear Hws as [|? ? Hs Hws']. cbn [app feed_all].
    assert (feed (cfg Size v e tb tc) s = Ok (cfg SizeLws v e tb tc, [])) as ->.
    { rewrite feed_Size by lia. by destruct Hs as [-> | ->]. }
    rewrite feed_all_app, feed_all_ws, feed_all_app, feed_all_ext_cr by (naive_solver || lia).
    by rewrite Hlf.
Qed.

Lemma feed_all_data data n e tb tc :
  data ≠ [] -> n = len data ->
  feed_all (cfg Body n e tb tc) (data ++ CRLF) = Ok (cfg Start 0 e tb tc, data).
Proof.
  revert n. induction data as [|b data IH]; intros n Hne ->; [done|]. cbn [app feed_all].
  pose proof (len_nonneg data). rewrite len_cons, feed_Body by lia.
  replace (1 + len data - 1) with (len data) by lia.
  destruct data as [|b' data'].
  - change (0 <? len []) with false. cbn [app CRLF feed_all].
    rewrite feed_BodyCr. change (CR =? CR) with true. cbn match. by rewrite feed_BodyLf.
  - rewrite (proj2 (Z.ltb_lt 0 (len (b' :: data')))) by (rewrite len_cons; pose proof (len_nonneg data'); lia).
    by rewrite IH.
Qed.

Lemma feed_all_chunks e w d e' tb tc :
  chunks e w d e' ->
  feed_all (cfg Start 0 e tb tc) w = Ok (cfg Start 0 e' tb tc, d).
Proof.
  induction 1 as [|e ds ws ext data w d e' Hl Hne Hlt _ IH]; [done|].
  rewrite feed_all_app, (feed_all_size_line _ _ _ (len data)) by done.
  rewrite (proj2 (Z.eqb_neq (len data) 0)) by (pose proof (len_pos data Hne); lia).
  rewrite (app_assoc data), feed_all_app, feed_all_data by done. by rewrite IH.
Qed.

Abbreviation max_cnt := (max_cnt mh).
Abbreviation max_bytes := (max_bytes ms).

Lemma put_ok s n e buf tc b :
  len (buf ++ [b]) < max_bytes -> put mh ms s n e buf tc b = Ok (cfg s n e (Some (buf ++ [b])) tc, []).
Proof. intros Hlt. unfold put. by rewrite (proj2 (Z.leb_gt _ _)) by done. Qed.

Lemma feed_all_trailer l n e buf tc :
  CR ∉ l -> len (buf ++ l ++ [CR]) < max_bytes ->
  feed_all (cfg Trailer n e (Some buf) tc) (l ++ [CR]) =
    Ok (cfg TrailerLf n e (Some (buf ++ l ++ [CR])) tc, []).
Proof.
  revert buf. induction l as [|b l IH]; intros buf HCR Hlt; cbn [app feed_all]; rewrite feed_Trailer.
  - by rewrite put_ok.
  - apply not_elem_of_cons in HCR as [Hb HCR].
    rewrite (proj2 (Z.eqb_neq b CR)) by done.
    assert (Hbuf : buf ++ b :: l ++ [CR] = (buf ++ [b]) ++ l ++ [CR]) by (by rewrite <- app_assoc).
    cbn [app] in Hlt. rewrite Hbuf in *.
    assert (len (buf ++ [b]) < max_bytes) as Hb1.
    { rewrite len_app in Hlt. pose proof (len_nonneg (l ++ [CR])). lia. }
    rewrite put_ok by done. by rewrite IH.
Qed.

(** The trailer buffer after [t] more bytes. *)
Definition grow (tb : option bytes) (t : bytes) : bytes := default [] tb ++ t.

Lemma feed_all_trailer_line l n e tb tc :
  l ≠ [] -> CR ∉ l -> tc < max_cnt -> len (grow tb (l ++ CRLF)) < max_bytes ->
  feed_all (cfg EndCr n e tb tc) (l ++ CRLF) =
    Ok (cfg EndCr n e (Some (grow tb (l ++ CRLF))) (tc + 1), []).
Proof.
  intros Hne HCR Htc Hlt. destruct l as [|b l]; [done|]. clear Hne.
  apply not_elem_of_cons in HCR as [Hb HCR]. cbn [app feed_all].
  assert (Hb1 : feed (cfg EndCr n e tb tc) b = Ok (cfg Trailer n e (Some (grow tb [b])) tc, [])).
  { rewrite feed_EndCr, (proj2 (Z.eqb_neq b CR)) by done.
    destruct tb as [buf|]; [|done]. apply put_ok. unfold grow in *. simpl in *.
    rewrite !len_app, ?len_cons in *. pose proof (len_nonneg (l ++ CRLF)). rewrite len_nil. lia. }
  rewrite Hb1. unfold CRLF. change [CR; LF] with ([CR] ++ [LF]). rewrite app_assoc, feed_all_app.
  assert (Hg : grow tb (b :: l ++ CRLF) = ((grow tb [b] ++ l ++ [CR]) ++ [LF])).
  { unfold grow, CRLF. rewrite <- !app_assoc. by simpl. }
  change ((b :: l) ++ CRLF) with (b :: l ++ CRLF) in Hlt. rewrite Hg in Hlt.
  rewrite feed_all_trailer; [|done|].
  2: { rewrite len_app in Hlt. pose proof (len_nonneg [LF]). lia. }
  cbn [feed_all]. rewrite feed_TrailerLf, (proj2 (Z.leb_gt max_cnt tc)) by done.
  change (LF =? LF) with true. cbn match. rewrite put_ok by done.
  simpl app. repeat f_equal. rewrite <- Hg. unfold CRLF. by rewrite <- app_assoc.
Qed.

Lemma feed_all_trailer_lines ls n e tb tc :
  trailer_lines_ok ls -> tc + len ls <= max_cnt ->
  len (grow tb (trailer_lines ls)) < max_bytes ->
  feed_all (cfg EndCr n e tb tc) (trailer_lines ls) =
    Ok (cfg EndCr n e (match ls with [] => tb | _ => Some (grow tb (trailer_lines ls)) end)
          (tc + len ls), []).
Proof.
  revert tb tc. induction ls as [|l ls IH]; intros tb tc Hok Hcnt Hlt.
  { simpl. by rewrite len_nil, Z.add_0_r. }
  inversion_clear Hok as [|? ? [Hne HCR] Hok']. rewrite len_cons in Hcnt.
  pose proof (len_nonneg ls) as Hls.
  assert (Hg : grow tb (trailer_lines (l :: ls)) = grow (Some (grow tb (l ++ CRLF))) (trailer_lines ls)).
  { unfold grow, trailer_lines. simpl. by rewrite <- !app_assoc. }
  assert (len (grow tb (l ++ CRLF)) < max_bytes) as Hlt1.
  { rewrite Hg in Hlt. unfold grow at 1 in Hlt. simpl in Hlt. rewrite len_app in Hlt.
    pose proof (len_nonneg (trailer_lines ls)). lia. }
  unfold trailer_lines at 1. cbn [map concat]. fold (trailer_lines ls).
  rewrite feed_all_app, feed_all_trailer_line by (done || lia).
  rewrite Hg in *. rewrite IH by (done || lia).
  rewrite len_cons. replace (tc + 1 + len ls) with (tc + (1 + len ls)) by lia.
  destruct ls as [|l' ls']; [|done].
  unfold grow, trailer_lines. simpl. by rewrite !app_nil_r.
Qed.

Lemma feed_all_trailer_section ls n e :
  trailer_lines_ok ls -> len ls <= max_cnt ->
  (ls ≠ [] -> len (trailer_section ls) < max_bytes) ->
  feed_all (cfg EndCr n e None 0) (trailer_section ls) =
    Ok (cfg End n e (trailer_part ls) (len ls), []).
Proof.
  intros Hok Hcnt Hlt. unfold trailer_section. rewrite feed_all_app.
  destruct ls as [|l ls].
  - reflexivity.
  - specialize (Hlt ltac:(done)). unfold trailer_section in Hlt.
    rewrite feed_all_trailer_lines; [|done|lia|].
    2: { unfold grow. simpl default. rewrite len_app in Hlt. pose proof (len_nonneg CRLF). simpl. lia. }
    unfold CRLF in *. cbn [feed_all]. unfold grow. cbn [default]. rewrite app_nil_l.
    change [CR; LF] with ([CR] ++ [LF]) in Hlt. rewrite app_assoc in Hlt.
    rewrite feed_EndCr. change (CR =? CR) with true. cbn match.
    rewrite put_ok; [|rewrite len_app in Hlt; pose proof (len_nonneg [LF]); lia].
    rewrite feed_EndLf. change (LF =? LF) with true. cbn match. rewrite put_ok by done.
    simpl app. rewrite Z.add_0_l. unfold trailer_part, trailer_section, CRLF.
    by rewrite <- app_assoc.
Qed.

Lemma chunked_body_accepted w d tb tc :
  chunked_body max_cnt max_bytes w d tb tc ->
  exists e, feed_all (cfg Start 0 0 None 0) w = Ok (cfg End 0 e tb tc, d).
Proof.
  intros [w' d' e ds ws ext ls Hch Hsl Hext Hok Hcnt Hlt].
  exists (e + ext_len ext).
  rewrite feed_all_app, (feed_all_chunks _ _ d' e) by done.
  rewrite feed_all_app, (feed_all_size_line _ _ _ 0) by done.
  change (0 =? 0) with true. cbn match.
  rewrite feed_all_trailer_section by done. by rewrite !app_nil_r.
Qed.

(** ** Accepted words are in the grammar *)

Definition accepts (c : ChunkedFields) (w d : bytes) (c' : ChunkedFields) : Prop :=
  feed_all c w = Ok (c', d) /\ state c' = End.

Lemma accepts_nil s n e tb tc d c' :
  accepts (cfg s n e tb tc) [] d c' -> s = End /\ d = [] /\ c' = cfg s n e tb tc.
Proof. intros [[= <- <-] Hend]. done. Qed.

Lemma accepts_cons c b w d c' :
  accepts c (b :: w) d c' ->
  exists c1 o d', feed c b = Ok (c1, o) /\ accepts c1 w d' c' /\ d = o ++ d'.
Proof.
  intros [Hf Hend]. cbn [feed_all] in Hf.
  destruct (feed c b) as [[c1 o]|]; [|done].
  destruct (feed_all c1 w) as [[c2 o2]|] eqn:Hw; [|done]. simplify_eq.
  exists c1, o, o2. done.
Qed.

Lemma push_inv n e tb tc v c1 o :
  push mh ms n e tb tc v = Ok (c1, o) ->
  n * 16 + v <= U64_MAX /\ c1 = cfg Size (n * 16 + v) e tb tc /\ o = [].
Proof. unfold push. destruct (_ <=? _) eqn:E; [|done]. intros [= <- <-]. zbool. done. Qed.

Lemma put_inv s n e buf tc b c1 o :
  put mh ms s n e buf tc b = Ok (c1, o) ->
  len (buf ++ [b]) < max_bytes /\ c1 = cfg s n e (Some (buf ++ [b])) tc /\ o = [].
Proof. unfold put. destruct (_ <=? _) eqn:E; [done|]. intros [= <- <-]. zbool. done. Qed.

Ltac acc_step H :=
  let c1 := fresh "c1" in let o := fresh "o" in let d' := fresh "d'" in
  let Hfd := fresh "Hfd" in
  apply accepts_cons in H as (c1 & o & d' & Hfd & H & ->).

Lemma accepts_Extension w n e tb tc d c' :
  e < CHUNKED_EXTENSIONS_LIMIT ->
  accepts (cfg Extension n e tb tc) w d c' ->
  exists x w', w = x ++ CR :: w' /\ (CR ∉ x) /\ (LF ∉ x) /\ e + len x < CHUNKED_EXTENSIONS_LIMIT /\
    accepts (cfg SizeLf n (e + len x) tb tc) w' d c'.
Proof.
  revert e d. induction w as [|b w IH]; intros e d He H.
  { by apply accepts_nil in H as [? _]. }
  acc_step H. rewrite feed_Extension in Hfd.
  destruct (b =? CR) eqn:E1; [|destruct (b =? LF) eqn:E2; [done|];
    destruct (_ <=? _) eqn:E3; [done|]]; injection Hfd as <- <-; zbool.
  - subst b. exists [], w. rewrite len_nil, Z.add_0_r.
    split_and!; [done|set_solver|set_solver|done|done].
  - destruct (IH (e + 1) d' E3 H) as (x & w' & -> & HCR & HLF & Hlt & H').
    exists (b :: x), w'. rewrite len_cons.
    replace (e + (1 + len x)) with (e + 1 + len x) by lia.
    split_and!; [done|set_solver|set_solver|done|done].
Qed.

(** White space, then an extension or the CR. *)
Lemma accepts_SizeLws w n e tb tc d c' :
  e < CHUNKED_EXTENSIONS_LIMIT ->
  accepts (cfg SizeLws n e tb tc) w d c' ->
  exists ws ext w', w = ws ++ ext_bytes ext ++ CR :: w' /\ Forall is_ws ws /\ ext_ok ext /\
    e + ext_len ext < CHUNKED_EXTENSIONS_LIMIT /\
    accepts (cfg SizeLf n (e + ext_len ext) tb tc) w' d c'.
Proof.
  intros He. revert d. induction w as [|b w IH]; intros d H.
  { by apply accepts_nil in H as [? _]. }
  acc_step H. rewrite feed_SizeLws in Hfd.
  destruct (_ || _) eqn:E1; [|destruct (b =? SEMI) eqn:E2; [|destruct (b =? CR) eqn:E3; [|done]]];
    injection Hfd as <- <-; zbool.
  - destruct (IH d' H) as (ws & ext & w' & -> & Hws & Hrest).
    exists (b :: ws), ext, w'. split; [done|]. split; [|done].
    constructor; [|done]. unfold is_ws. destruct E1; zbool; auto.
  - apply accepts_Extension in H as (x & w' & -> & HCR & HLF & Hlt & H'); [|done].
    exists [], (Some x), w'. subst b. by split_and!.
  - exists [], None, w. simpl. subst b. rewrite Z.add_0_r. split_and!; done || lia.
Qed.

Lemma accepts_Size w n e tb tc d c' :
  0 <= n <= U64_MAX -> e < CHUNKED_EXTENSIONS_LIMIT ->
  accepts (cfg Size n e tb tc) w d c' ->
  exists ds ws ext w', w = ds ++ ws ++ ext_bytes ext ++ CR :: w' /\ is_hex ds /\
    hex_value n ds <= U64_MAX /\ Forall is_ws ws /\ ext_ok ext /\
    e + ext_len ext < CHUNKED_EXTENSIONS_LIMIT /\
    accepts (cfg SizeLf (hex_value n ds) (e + ext_len ext) tb tc) w' d c'.
Proof.
  revert n d. induction w as [|b w IH]; intros n d Hn He H.
  { by apply accepts_nil in H as [? _]. }
  acc_step H. rewrite feed_Size in Hfd by lia.
  destruct (hexval b) as [v|] eqn:Ev.
  { apply push_inv in Hfd as (Hle & -> & ->). pose proof (hexval_range b v Ev).
    destruct (IH (n * 16 + v) d' ltac:(lia) He H) as (ds & ws & ext & w' & -> & Hds & Hrest).
    exists (b :: ds), ws, ext, w'. rewrite (hex_value_cons _ _ _ v Ev).
    split; [done|]. split; [constructor; eauto|done]. }
  destruct (_ || _) eqn:E1; [|destruct (b =? SEMI) eqn:E2; [|destruct (b =? CR) eqn:E3; [|done]]];
    injection Hfd as <- <-; zbool.
  - apply accepts_SizeLws in H as (ws & ext & w' & -> & Hws & Hrest); [|done].
    exists [], (b :: ws), ext, w'. split; [done|]. split; [constructor|]. split; [unfold hex_value; simpl; lia|].
    split; [|done]. constructor; [|done]. unfold is_ws. destruct E1; zbool; auto.
  - apply accepts_Extension in H as (x & w' & -> & HCR & HLF & Hlt & H'); [|done].
    exists [], [], (Some x), w'. subst b.
    split_and!; first [done|by constructor|unfold hex_value; simpl; lia].
  - exists [], [], None, w. simpl. subst b. rewrite Z.add_0_r.
    split_and!; first [done|by constructor|unfold hex_value; simpl; lia].
Qed.

Lemma accepts_Start w e tb tc d c' :
  e < CHUNKED_EXTENSIONS_LIMIT ->
  accepts (cfg Start 0 e tb tc) w d c' ->
  exists ds ws ext v w', w = size_line ds ws ext ++ w' /\ size_line_ok ds ws ext v /\ 0 <= v /\
    e + ext_len ext < CHUNKED_EXTENSIONS_LIMIT /\
    accepts (cfg (if v =? 0 then EndCr else Body) v (e + ext_len ext) tb tc) w' d c'.
Proof.
  intros He H. destruct w as [|b w]; [by apply accepts_nil in H as [? _]|].
  acc_step H. rewrite feed_Start in Hfd by lia. destruct (hexval b) as [v|] eqn:Ev; [|done].
  apply push_inv in Hfd as (Hle & -> & ->). pose proof (hexval_range b v Ev).
  change (0 * 16 + v) with v in *.
  apply accepts_Size in H as (ds & ws & ext & w' & -> & Hds & Hv & Hws & Hext & Hlt & H); [|lia|done].
  pose proof (hex_value_mono v ds ltac:(lia) Hds).
  destruct w' as [|b' w']; [by apply accepts_nil in H as [? _]|].
  acc_step H. rewrite feed_SizeLf in Hfd. destruct (b' =? LF) eqn:E; [|done]. zbool. subst b'.
  exists (b :: ds), ws, ext, (hex_value v ds), w'. split; [|split; [|split; [lia|split; [done|]]]].
  - unfold size_line, CRLF. by rewrite <- !app_assoc.
  - split; [done|]. split; [constructor; eauto|]. by rewrite (hex_value_cons _ _ _ v Ev).
  - destruct (hex_value v ds =? 0); by injection Hfd as <- <-.
Qed.

Lemma accepts_Body w n e tb tc d c' :
  0 < n -> accepts (cfg Body n e tb tc) w d c' ->
  exists data w' d', w = data ++ CRLF ++ w' /\ d = data ++ d' /\ len data = n /\
    accepts (cfg Start 0 e tb tc) w' d' c'.
Proof.
  revert n d. induction w as [|b w IH]; intros n d Hn H.
  { by apply accepts_nil in H as [? _]. }
  acc_step H. rewrite feed_Body in Hfd by done. injection Hfd as <- <-.
  destruct (0 <? n - 1) eqn:E; zbool.
  - destruct (IH (n - 1) d' ltac:(lia) H) as (data & w' & d'' & -> & -> & Hlen & H').
    exists (b :: data), w', d''. rewrite len_cons. split_and!; [done|done|lia|done].
  - assert (n = 1) as -> by lia. change (1 - 1) with 0 in H.
    destruct w as [|b1 w]; [by apply accepts_nil in H as [? _]|].
    acc_step H. rewrite feed_BodyCr in Hfd. destruct (b1 =? CR) eqn:E1; [|done].
    injection Hfd as <- <-. zbool. subst b1.
    destruct w as [|b2 w]; [by apply accepts_nil in H as [? _]|].
    acc_step H. rewrite feed_BodyLf in Hfd. destruct (b2 =? LF) eqn:E2; [|done].
    injection Hfd as <- <-. zbool. subst b2.
    exists [b], w, d'. by split_and!.
Qed.

Lemma accepts_Trailer w n e buf tc d c' :
  accepts (cfg Trailer n e (Some buf) tc) w d c' ->
  exists l w', w = l ++ CRLF ++ w' /\ (CR ∉ l) /\ tc < max_cnt /\
    len (buf ++ l ++ CRLF) < max_bytes /\
    accepts (cfg EndCr n e (Some (buf ++ l ++ CRLF)) (tc + 1)) w' d c'.
Proof.
  revert buf d. induction w as [|b w IH]; intros buf d H.
  { by apply accepts_nil in H as [? _]. }
  acc_step H. rewrite feed_Trailer in Hfd. apply put_inv in Hfd as (Hlt & -> & ->).
  destruct (b =? CR) eqn:E; zbool.
  - subst b. destruct w as [|b w]; [by apply accepts_nil in H as [? _]|].
    acc_step H. rewrite feed_TrailerLf in Hfd. destruct (b =? LF) eqn:E1; [|done].
    destruct (_ <=? tc) eqn:E2; [done|]. apply put_inv in Hfd as (Hlt' & -> & ->). zbool. subst b.
    rewrite <- app_assoc in Hlt', H.
    exists [], w. split_and!; [done|set_solver|done|done|done].
  - destruct (IH (buf ++ [b]) d' H) as (l & w' & -> & HCR & Htc & Hlt' & H').
    rewrite <- app_assoc in Hlt', H'.
    exists (b :: l), w'. split_and!; [done|set_solver|done|done|done].
Qed.

(** The buffer at [End]: what was buffered before and the trailer section,
    unless there is neither. *)
Definition final_buf (tb : option bytes) (ls : list bytes) : option bytes :=
  match tb, ls with
  | None, [] => None
  | _, _ => Some (grow tb (trailer_section ls))
  end.

Lemma accepts_EndCr_nil w n e tb tc d c' :
  accepts (cfg EndCr n e tb tc) (CR :: w) d c' ->
  w = [LF] /\ d = [] /\ c' = cfg End n e (final_buf tb []) tc /\
  (forall t, final_buf tb [] = Some t -> len t < max_bytes).
Proof.
  intros H. acc_step H. rewrite feed_EndCr in Hfd. change (CR =? CR) with true in Hfd.
  cbn match in Hfd.
  assert (exists tb1, c1 = cfg EndLf n e tb1 tc /\ o = [] /\ tb1 = (fun b => b ++ [CR]) <$> tb)
    as (tb1 & -> & -> & ->).
  { destruct tb as [buf|]; [apply put_inv in Hfd as (_ & -> & ->)|injection Hfd as <- <-]; eauto. }
  clear Hfd. destruct w as [|b w]; [by apply accepts_nil in H as [? _]|].
  acc_step H. rewrite feed_EndLf in Hfd. destruct (b =? LF) eqn:E; [|done]. zbool. subst b.
  assert (c1 = cfg End n e (final_buf tb []) tc /\ o = [] /\
    (forall t, final_buf tb [] = Some t -> len t < max_bytes)) as (-> & -> & Hlt).
  { destruct tb as [buf|]; simpl in Hfd.
    - apply put_inv in Hfd as (Hlt & -> & ->). rewrite <- app_assoc in *.
      split_and!; [done|done|]. by intros t [= <-].
    - injection Hfd as <- <-. done. }
  clear Hfd. destruct w as [|b w].
  - apply accepts_nil in H as (_ & -> & ->). done.
  - acc_step H. by rewrite feed_End in Hfd.
Qed.

Lemma accepts_EndCr w n e tb tc d c' :
  accepts (cfg EndCr n e tb tc) w d c' ->
  exists ls, w = trailer_section ls /\ trailer_lines_ok ls /\ d = [] /\
    (ls ≠ [] -> tc + len ls <= max_cnt) /\
    c' = cfg End n e (final_buf tb ls) (tc + len ls) /\
    (forall t, final_buf tb ls = Some t -> len t < max_bytes).
Proof.
  remember (length w) as k eqn:Hk. revert w Hk tb tc d.
  induction (lt_wf k) as [k _ IH]; intros w -> tb tc d H.
  destruct w as [|b w]; [by apply accepts_nil in H as [? _]|].
  destruct (decide (b = CR)) as [->|Hb].
  { apply accepts_EndCr_nil in H as (-> & -> & -> & Hlt). exists [].
    rewrite len_nil, Z.add_0_r. split_and!; [done|constructor|done|done|done|done]. }
  acc_step H.
  assert (c1 = cfg Trailer n e (Some (grow tb [b])) tc /\ o = []) as [-> ->].
  { rewrite feed_EndCr, (proj2 (Z.eqb_neq b CR)) in Hfd by done.
    destruct tb as [buf|]; [by apply put_inv in Hfd as (_ & -> & ->)|by injection Hfd as <- <-]. }
  clear Hfd. apply accepts_Trailer in H as (l & w' & -> & HCR & Htc & Hlt & H).
  assert (length w' < length (b :: l ++ CRLF ++ w'))%nat as Hw
    by (simpl; rewrite !length_app; simpl; lia).
  destruct (IH (length w') Hw w' eq_refl _ _ _ H) as (ls & -> & Hok & -> & Hcnt & -> & Hlt').
  exists ((b :: l) :: ls).
  assert (Hg : forall t, grow (Some (grow tb [b] ++ l ++ CRLF)) t = grow tb ((b :: l) ++ CRLF ++ t)).
  { intros t. unfold grow. simpl. rewrite <- !app_assoc. done. }
  assert (Hsec : trailer_section ((b :: l) :: ls) = (b :: l) ++ CRLF ++ trailer_section ls).
  { unfold trailer_section, trailer_lines. simpl. by rewrite <- !app_assoc. }
  assert (Hfin : final_buf (Some (grow tb [b] ++ l ++ CRLF)) ls = final_buf tb ((b :: l) :: ls)).
  { unfold final_buf. rewrite Hg, Hsec. by destruct tb. }
  rewrite Hfin in *. rewrite len_cons. replace (tc + (1 + len ls)) with (tc + 1 + len ls) by lia.
  split_and!; [by rewrite Hsec| |done| |done|done].
  - constructor; [|done]. split; [done|]. set_solver.
  - intros _. destruct ls as [|l' ls]; [rewrite len_nil; lia|]. by apply Hcnt.
Qed.

Lemma accepts_chunks w e d c' :
  e < CHUNKED_EXTENSIONS_LIMIT ->
  accepts (cfg Start 0 e None 0) w d c' ->
  exists w1 w2 e' ds ws ext, w = w1 ++ size_line ds ws ext ++ w2 /\ chunks e w1 d e' /\
    size_line_ok ds ws ext 0 /\ e' + ext_len ext < CHUNKED_EXTENSIONS_LIMIT /\
    accepts (cfg EndCr 0 (e' + ext_len ext) None 0) w2 [] c'.
Proof.
  remember (length w) as k eqn:Hk. revert w Hk e d.
  induction (lt_wf k) as [k _ IH]; intros w -> e d He H.
  apply accepts_Start in H as (ds & ws & ext & v & w' & -> & Hsl & Hv & Hlt & H); [|done].
  destruct (v =? 0) eqn:E; zbool.
  - subst v. pose proof H as H'. apply accepts_EndCr in H' as (_ & _ & _ & -> & _).
    exists [], w', e, ds, ws, ext. split_and!; [done|constructor|done|done|done].
  - apply accepts_Body in H as (data & w2 & d' & -> & -> & Hlen & H); [|lia].
    assert (length w2 < length (size_line ds ws ext ++ data ++ CRLF ++ w2))%nat as Hw
      by (rewrite !length_app; simpl; lia).
    destruct (IH (length w2) Hw w2 eq_refl _ _ Hlt H)
      as (w1 & w3 & e' & ds' & ws' & ext' & -> & Hch & Hrest).
    exists (size_line ds ws ext ++ data ++ CRLF ++ w1), w3, e', ds', ws', ext'.
    split; [by rewrite <- !app_assoc|]. split; [|done].
    constructor; [by rewrite Hlen| |done|done].
    intros ->. rewrite len_nil in Hlen. lia.
Qed.

Lemma accepted_chunked_body w d c' :
  0 <= max_cnt -> accepts (cfg Start 0 0 None 0) w d c' ->
  exists e tb tc, c' = cfg End 0 e tb tc /\ chunked_body max_cnt max_bytes w d tb tc.
Proof.
  intros Hmax H.
  apply accepts_chunks in H as (w1 & w2 & e & ds & ws & ext & -> & Hch & Hsl & Hlt & H); [|done].
  apply accepts_EndCr in H as (ls & -> & Hok & _ & Hcnt & -> & Hbytes).
  exists (e + ext_len ext), (final_buf None ls), (0 + len ls). split; [done|].
  assert (final_buf None ls = trailer_part ls) as -> by (by destruct ls).
  rewrite Z.add_0_l in *. constructor 1 with e; try done.
  - destruct ls; [by rewrite len_nil|]. by apply Hcnt.
  - intros Hne. apply Hbytes. by destruct ls.
Qed.
End grammar.
