(* ===== verification/DecodeRefine.v ===== *)
(** * DecodeRefine

    The chunked decoder, driven by any lawful reader, refines the byte
    automaton of [DecodeSpec]: however the reader cuts its stream, one call of
    [decode] takes a prefix of it and moves as the automaton does on that
    prefix. *)

From stdpp Require Import prelude strings.
From Stdlib Require Import ZArith Lia.
From S2P Require Import Prelude Bytes Crates Errors Length MemRead Decode DecodeSpec ChunkedGrammar.
Import ChunkedState.
Local Open Scope Z_scope.

(** ** The invariant of the chunked decoder *)

(** States in which no chunk is under way. *)
Definition between_chunks (s : ChunkedState.t) : bool :=
  match s with Start | BodyCr | BodyLf => true | _ => false end.

Definition in_trailer (s : ChunkedState.t) : bool :=
  match s with Trailer | TrailerLf => true | _ => false end.

Record chunked_inv (c : ChunkedFields) : Prop := {
  inv_len : is_u64 (chunk_len c);
  inv_body : state c = Body -> 0 < chunk_len c;
  inv_start : between_chunks (state c) = true -> chunk_len c = 0;
  inv_trailer : in_trailer (state c) = true -> trailers_buf c ≠ None;
  inv_ext : 0 <= extensions_cnt c < CHUNKED_EXTENSIONS_LIMIT;
  inv_cnt : 0 <= trailers_cnt c;
}.

Ltac inv_solve := constructor; simpl; first [done | by auto | unfold CHUNKED_EXTENSIONS_LIMIT in *; ulia | idtac].

Lemma chunked_inv_new mh ms : chunked_inv (MkChunked Start 0 0 None 0 mh ms).
Proof. inv_solve. Qed.

(** The automaton preserves it. *)
Lemma feed_inv c b c1 o : chunked_inv c -> feed c b = Ok (c1, o) -> chunked_inv c1.
Proof.
  destruct c as [s n e tb tc mh ms]. intros [Hlen Hbody Hstart Htr Hext Hcnt] Hf. simpl in *.
  change (MkChunked s n e tb tc mh ms) with (cfg mh ms s n e tb tc) in Hf.
  assert (Hpush : forall v, hexval b = Some v -> push mh ms n e tb tc v = Ok (c1, o) -> chunked_inv c1).
  { intros v Hv%hexval_range Hp. apply push_inv in Hp as (Hle & -> & _). inv_solve. }
  assert (Hput : forall s' buf tc', s' ≠ Body -> between_chunks s' = false -> 0 <= tc' ->
    put mh ms s' n e buf tc' b = Ok (c1, o) -> chunked_inv c1).
  { intros s' buf tc' Hs1 Hs2 Htc Hp. apply put_inv in Hp as (_ & -> & _).
    inv_solve. congruence. }
  destruct s; simpl in *.
  - rewrite feed_Start in Hf by ulia. destruct (hexval b) eqn:E; [|done]. by eapply Hpush.
  - rewrite feed_Size in Hf by ulia. destruct (hexval b) eqn:E; [by eapply Hpush|].
    repeat case_match; simplify_eq; inv_solve.
  - rewrite feed_SizeLws in Hf. repeat case_match; simplify_eq; inv_solve.
  - rewrite feed_Extension in Hf. repeat case_match; simplify_eq; inv_solve.
  - rewrite feed_SizeLf in Hf. repeat case_match; simplify_eq; inv_solve; intros _; ulia.
  - specialize (Hbody eq_refl). rewrite feed_Body in Hf by done.
    injection Hf as <- <-. destruct (0 <? n - 1) eqn:E; inv_solve; intros _; ulia.
  - rewrite feed_BodyCr in Hf. repeat case_match; simplify_eq; inv_solve.
  - rewrite feed_BodyLf in Hf. repeat case_match; simplify_eq; inv_solve.
  - destruct tb as [buf|]; [|by destruct Htr]. rewrite feed_Trailer in Hf.
    by destruct (b =? CR); eapply Hput in Hf.
  - destruct tb as [buf|]; [|by destruct Htr]. rewrite feed_TrailerLf in Hf.
    repeat case_match; try done. eapply Hput in Hf; done || lia.
  - rewrite feed_EndCr in Hf. destruct tb as [buf|]; [by destruct (b =? CR); eapply Hput in Hf|].
    repeat case_match; simplify_eq; inv_solve.
  - rewrite feed_EndLf in Hf. destruct (b =? LF); [|done].
    destruct tb as [buf|]; [by eapply Hput in Hf|]. simplify_eq. inv_solve.
  - done.
Qed.

Lemma feed_all_inv w c c1 o : chunked_inv c -> feed_all c w = Ok (c1, o) -> chunked_inv c1.
Proof.
  revert c o. induction w as [|b w IH]; intros c o Hc Hf; simpl in Hf; [by simplify_eq|].
  destruct (feed c b) as [[c' o1]|] eqn:E; [|done].
  destruct (feed_all c' w) as [[c2 o2]|] eqn:E2; [|done]. simplify_eq.
  eapply IH; [by eapply feed_inv|done].
Qed.

(** ** One step *)

(** A run of body bytes inside a chunk. *)
Lemma feed_all_body_slice mh ms sl n e tb tc :
  sl ≠ [] -> len sl <= n ->
  feed_all (cfg mh ms Body n e tb tc) sl =
    Ok (cfg mh ms (if 0 <? n - len sl then Body else BodyCr) (n - len sl) e tb tc, sl).
Proof.
  revert n. induction sl as [|b sl IH]; intros n Hne Hle; [done|]. rewrite len_cons in *.
  pose proof (len_nonneg sl). cbn [feed_all]. rewrite feed_Body by lia.
  destruct sl as [|b' sl'].
  - done.
  - assert (0 < n - 1) as Hn by (rewrite len_cons in *; pose proof (len_nonneg sl'); lia).
    rewrite (proj2 (Z.ltb_lt 0 (n - 1))) by done. rewrite IH by (done || lia).
    by replace (n - (1 + len (b' :: sl'))) with (n - 1 - len (b' :: sl')) by lia.
Qed.

(** *** Computations that do not look at the reader *)

Definition uniform {A} (k : forall Q : Type, M (Q * StepArgs) io_error A) : Prop :=
  (forall Q (q : Q) a, k Q (q, a) = match k unit (tt, a) with ((_, a'), o) => ((q, a'), o) end) /\
  (forall a a' o, k unit (tt, a) = ((tt, a'), o) ->
     chunk_buf a' = chunk_buf a /\ o ≠ Pending /\ o ≠ NoFuel).

Create HintDb uniform.

Lemma uniform_ret {A} (x : A) : uniform (fun Q => mret x).
Proof. split; [done|]. by intros a a' o [= <- <-]. Qed.

Lemma uniform_io_fail {A} k msg : uniform (fun Q => @io_fail Q A k msg).
Proof. split; [done|]. by intros a a' o [= <- <-]. Qed.

Lemma uniform_args : uniform (fun Q => @args Q).
Proof. split; [done|]. by intros a a' o [= <- <-]. Qed.

Lemma uniform_set_args f :
  (forall a, chunk_buf (f a) = chunk_buf a) -> uniform (fun Q => @set_args Q f).
Proof. intros Hf. split; [done|]. intros a a' o [= <- <-]. by rewrite Hf. Qed.

Lemma uniform_expect {A} (o : option A) : uniform (fun Q => expect o).
Proof. destruct o; (split; [done|]); by intros ? ? ? [= <- <-]. Qed.

Lemma uniform_bind {A B} (m : forall Q, M (Q * StepArgs) io_error A)
    (k : A -> forall Q, M (Q * StepArgs) io_error B) :
  uniform m -> (forall x, uniform (k x)) -> uniform (fun Q => m Q ≫= fun x => k x Q).
Proof.
  intros [Hm1 Hm2] Hk. unfold mbind, M_bind. split.
  - intros Q q a. rewrite Hm1. destruct (m unit (tt, a)) as [[[] a'] [x| | | |]]; try done. apply Hk.
  - intros a a' o. destruct (m unit (tt, a)) as [[[] a1] o1] eqn:E.
    destruct (Hm2 _ _ _ E) as (Hb & Hp & Hf).
    destruct o1 as [x| | | |]; try done; [|by intros [= <- <-]..].
    intros Hx. apply (Hk x) in Hx as (Hb' & ?). split; [congruence|done].
Qed.

Lemma uniform_if {A} (t : bool) (m1 m2 : forall Q, M (Q * StepArgs) io_error A) :
  uniform m1 -> uniform m2 -> uniform (fun Q => if t then m1 Q else m2 Q).
Proof. by destruct t. Qed.

#[local] Hint Resolve uniform_ret uniform_io_fail uniform_args uniform_expect : uniform.
#[local] Hint Extern 1 (uniform (fun Q => set_args _)) => by apply uniform_set_args : uniform.

Ltac uniform_tac :=
  repeat (intros; first
    [ solve [auto with uniform]
    | apply (uniform_bind (fun Q => _) (fun x Q => _))
    | apply (uniform_if _ (fun Q => _) (fun Q => _)) ]).

Lemma uniform_or_overflow o : uniform (fun Q => @or_overflow Q o).
Proof. destruct o; unfold or_overflow; uniform_tac. Qed.
#[local] Hint Resolve uniform_or_overflow : uniform.

Lemma uniform_put_u8 buf b l : uniform (fun Q => @put_u8 Q buf b l).
Proof. unfold put_u8. uniform_tac. Qed.

Lemma uniform_push_digit d : uniform (fun Q => @push_digit Q d).
Proof. unfold push_digit. uniform_tac. Qed.
#[local] Hint Resolve uniform_put_u8 uniform_push_digit : uniform.

(** The arms of a state. *)
Definition arms (s : ChunkedState.t) (b : Z) (Q : Type) : M (Q * StepArgs) io_error ChunkedState.t :=
  match s with
  | Start => start_arms b
  | Size => size_arms b
  | SizeLws => size_lws_arms b
  | Extension => extension_arms b
  | SizeLf => size_lf_arms b
  | BodyCr => body_cr_arms b
  | BodyLf => body_lf_arms b
  | Trailer => trailer_arms b
  | TrailerLf => trailer_lf_arms b
  | EndCr => end_cr_arms b
  | EndLf => end_lf_arms b
  | Body | End => mret End
  end.

Lemma uniform_arms s b : uniform (arms s b).
Proof.
  unfold arms. destruct s;
    unfold start_arms, size_arms, size_lws_arms, extension_arms, size_lf_arms, body_cr_arms,
      body_lf_arms, trailer_arms, trailer_lf_arms; try (uniform_tac; fail).
  - unfold end_cr_arms. uniform_tac; destruct (sa_trailers_buf x); uniform_tac.
  - unfold end_lf_arms. uniform_tac; destruct (sa_trailers_buf x); uniform_tac.
Qed.

Section refine.
Context `{MemReadLaws R}.

(** In every state but [Body] and [End] a step reads one byte and then acts as
    the automaton does on it; the rest of the reader is not touched. *)
Lemma step_reader s (r : R) a :
  s ≠ Body -> s ≠ End ->
  step s (r, a) =
    match read_mem 1 r with
    | (r', Ready (b :: _)) =>
        match step s ([b], a) with ((_, a'), o) => ((r', a'), o) end
    | (r', Ready []) =>
        ((r', a), Failed (IoError UnexpectedEof (Msg "unexpected EOF during chunk size line")))
    | (r', Failed e) => ((r', a), Failed e)
    | (r', Pending) => ((r', a), Pending)
    | (r', Panicked) => ((r', a), Panicked)
    | (r', NoFuel) => ((r', a), NoFuel)
    end.
Proof.
  intros Hs1 Hs2.
  assert (Hstep : forall Q `{MemRead Q}, step (R := Q) s = (byte ≫= fun b => arms s b Q))
    by (intros; by destruct s).
  rewrite !Hstep. unfold mbind, M_bind. unfold byte at 1, rdr, zoom, mbind, M_bind. cbn [fst snd].
  destruct (read_mem 1 r) as [r' [[|b l]| | | |]]; try done. cbn match.
  rewrite byte_slice. unfold mret, M_ret. rewrite (proj1 (uniform_arms s b) R r' a), (proj1 (uniform_arms s b) bytes [] a).
  by destruct (arms s b unit (tt, a)) as [[_ a'] o].
Qed.

Lemma step_slice s b a q a' o :
  s ≠ Body -> s ≠ End -> step s ([b], a) = ((q, a'), o) ->
  chunk_buf a' = chunk_buf a /\ o ≠ Pending /\ o ≠ NoFuel.
Proof.
  intros Hs1 Hs2.
  assert (Hstep : step s = (byte ≫= fun b => arms s b bytes)) by (by destruct s).
  rewrite Hstep. unfold mbind, M_bind. rewrite byte_slice, (proj1 (uniform_arms s b) bytes [] a).
  destruct (arms s b unit (tt, a)) as [[[] a1] o1] eqn:E. intros [= <- <- <-].
  by apply (proj2 (uniform_arms s b)) in E.
Qed.

(** The automaton never gets stuck before [End]. *)
Lemma feed_not_stuck c b : chunked_inv c -> state c ≠ End -> feed c b ≠ Err None.
Proof.
  destruct c as [s n e tb tc mh ms]. intros [Hlen Hbody _ Htr _ _] Hs. simpl in *.
  change (MkChunked s n e tb tc mh ms) with (cfg mh ms s n e tb tc).
  destruct s; simpl in *;
    rewrite ?feed_Start, ?feed_Size, ?feed_SizeLws, ?feed_Extension, ?feed_SizeLf, ?feed_Body,
      ?feed_BodyCr, ?feed_BodyLf, ?feed_EndCr, ?feed_EndLf by first [ulia|auto];
    unfold push, bad, put; try (repeat case_match; done).
  - destruct tb; [|by destruct Htr]. rewrite feed_Trailer. unfold put. by repeat case_match.
  - destruct tb; [|by destruct Htr]. rewrite feed_TrailerLf. unfold put, bad. by repeat case_match.
Qed.

(** Why a call fails: the reader failed, the stream ended inside the body, or
    the automaton rejects the bytes taken. *)
Inductive fails (c : ChunkedFields) (w : bytes) (r' : R) (e : io_error) : Prop :=
| fails_reader r1 n : read_mem n r1 = (r', Failed e) -> fails c w r' e
| fails_eof c1 :
    stream r' = [] -> io_kind e = UnexpectedEof ->
    feed_all c w = Ok (c1, []) -> state c1 ≠ End -> fails c w r' e
| fails_feed : feed_all c w = Err (Some e) -> fails c w r' e.

(** What one step does, in terms of the automaton. *)
Definition step_post (c : ChunkedFields) (r r' : R) (a : StepArgs)
  (o : outcome io_error ChunkedState.t) : Prop :=
  match o with
  | Ready s => reader_ok r' /\
      exists w, w ≠ [] /\ stream r = w ++ stream r' /\
        feed_all c w = Ok (write_back s a c, default [] (chunk_buf a)) /\
        chunk_buf a ≠ Some [] /\ (s = End -> chunk_buf a = None) /\ (patience r' <= patience r)%nat
  | Pending => reader_ok r' /\ write_back (state c) a c = c /\ stream r' = stream r /\ (patience r' < patience r)%nat
  | Failed e =>
      (stream r' = stream r /\ exists n, read_mem n r = (r', Failed e)) \/
      (stream r = [] /\ stream r' = [] /\ io_kind e = UnexpectedEof) \/
      (exists b, stream r = b :: stream r' /\ feed c b = Err (Some e))
  | Panicked | NoFuel => False
  end.

Lemma write_back_step_args c : write_back (state c) (step_args c) c = c.
Proof. by destruct c. Qed.

Lemma step_feed_byte c (r : R) r' a o :
  chunked_inv c -> reader_ok r -> state c ≠ Body -> state c ≠ End ->
  step (state c) (r, step_args c) = ((r', a), o) -> step_post c r r' a o.
Proof.
  intros Hc Hr Hs1 Hs2. rewrite step_reader by done.
  destruct (read_mem 1 r) as [r1 [l|e| | |]] eqn:Er;
    pose proof (read_mem_ok _ _ _ _ Hr Z.lt_0_1 Er) as Hr1.
  - apply read_mem_ready in Er as (Hst & Hlen & Hnil & Hpat); [|done|lia].
    destruct l as [|b l].
    + intros [= <- <- <-]. simpl. right; left. specialize (Hnil eq_refl).
      rewrite Hnil in Hst. simpl in Hst. done.
    + assert (l = []) as -> by (destruct l; [done|rewrite !len_cons in Hlen; pose proof (len_nonneg l); lia]).
      simpl in Hst. destruct (step (state c) ([b], step_args c)) as [[q a1] o1] eqn:Est.
      intros [= <- <- <-]. pose proof (step_slice _ _ _ _ _ _ Hs1 Hs2 Est) as (Hbuf & Hp & Hf).
      pose proof (feed_not_stuck c b Hc Hs2) as Hns.
      unfold feed in Hns. rewrite decide_False, Est in Hns by done.
      destruct o1 as [s|e| | |]; simpl; try done.
      * split; [done|]. exists [b]. rewrite Hst. split_and!; try done; [|by rewrite Hbuf..].
        cbn [feed_all]. unfold feed. rewrite decide_False, Est by done. by rewrite app_nil_r.
      * right; right. exists b. split; [done|]. unfold feed. by rewrite decide_False, Est by done.
  - apply read_mem_failed in Er as Hst; [|done|lia]. intros [= <- <- <-]. simpl. eauto.
  - apply read_mem_pending in Er as [Hst Hp]; [|done|lia]. intros [= <- <- <-]. simpl.
    by rewrite write_back_step_args.
  - by apply read_mem_no_panic in Er; [|done|lia].
  - by apply read_mem_no_fuel in Er; [|done|lia].
Qed.

Lemma step_feed_body c (r : R) r' a o :
  chunked_inv c -> reader_ok r -> state c = Body ->
  step (state c) (r, step_args c) = ((r', a), o) -> step_post c r r' a o.
Proof.
  intros Hc Hr Hs. destruct c as [s n e tb tc mh ms]. simpl in Hs. subst s.
  pose proof (inv_len _ Hc) as Hlen. pose proof (inv_body _ Hc eq_refl) as Hpos. simpl in Hlen, Hpos.
  assert (usize_or_max n = n) as Hu by (unfold usize_or_max; case_match; ulia).
  cbn [step state]. unfold read_body, mbind, M_bind, args, rdr, zoom.
  cbn [fst snd step_args chunk_size chunk_len]. rewrite Hu.
  destruct (read_mem n r) as [r1 [sl|er| | |]] eqn:Er;
    pose proof (read_mem_ok _ _ _ _ Hr Hpos Er) as Hr1.
  - apply read_mem_ready in Er as (Hst & Hle & Hnil & Hpat); [|done|done].
    destruct (len sl =? 0) eqn:E0; zbool.
    + apply len_zero in E0 as ->. rewrite (Hnil eq_refl) in Hst. simpl in Hst.
      intros [= <- <- <-]. simpl. right; left. by rewrite (Hnil eq_refl).
    + assert (checked_sub n (len sl) = Some (n - len sl)) as Hsub.
      { unfold checked_sub. by rewrite (proj2 (Z.leb_le _ _)) by done. }
      assert (sl ≠ []) as Hne by (by intros ->).
      unfold set_args, modify. cbn [fst snd]. rewrite Hsub. cbn [expect mret M_ret].
      unfold mret, M_ret.
      pose proof (feed_all_body_slice mh ms sl n e tb tc Hne Hle) as Hfa. unfold cfg in Hfa.
      destruct (0 <? n - len sl); intros [= <- <- <-]; simpl; (split; [done|]); exists sl;
        (split_and!; [done|done| |congruence|done|done]); by rewrite Hfa.
  - apply read_mem_failed in Er as Hst; [|done|lia]. intros [= <- <- <-]. simpl. eauto.
  - apply read_mem_pending in Er as [Hst Hp]; [|done|lia]. intros [= <- <- <-]. simpl. done.
  - by apply read_mem_no_panic in Er; [|done|lia].
  - by apply read_mem_no_fuel in Er; [|done|lia].
Qed.

Lemma step_feed c (r : R) r' a o :
  chunked_inv c -> reader_ok r -> state c ≠ End ->
  step (state c) (r, step_args c) = ((r', a), o) -> step_post c r r' a o.
Proof.
  intros Hc Hr Hs. destruct (decide (state c = Body)) as [Hb|Hb];
    [by apply step_feed_body|by apply step_feed_byte].
Qed.
End refine.

(** ** One call of [decode] *)

Section decode_call.
Context `{HeaderSyntax} `{HeaderMap Hm} `{HttparseHeaders} `{MemReadLaws R}.

(** A call takes the prefix [w] of the stream. It yields body bytes, the end of
    the body, the trailers, an error or nothing yet, as the automaton says. *)
Inductive call_post (c : ChunkedFields) (r : R) (w : bytes) (c' : ChunkedFields) (r' : R)
  : outcome io_error (Frame Hm) -> Prop :=
| call_data d :
    feed_all c w = Ok (c', d) -> (d = [] <-> state c' = End) ->
    (state c' = End -> trailers_buf c' = None) ->
    (patience r' <= patience r)%nat -> (w = [] -> state c = End) -> reader_ok r' ->
    call_post c r w c' r' (Ready (Data d))
| call_trailers c1 buf h :
    feed_all c w = Ok (c1, []) -> state c1 = End -> trailers_buf c1 = Some buf ->
    decode_trailers buf (trailers_cnt c1) = Ok h -> c' = clear_trailers c1 -> reader_ok r' ->
    call_post c r w c' r' (Ready (Trailers h))
| call_pending :
    feed_all c w = Ok (c', []) -> state c' ≠ End -> (patience r' < patience r)%nat -> reader_ok r' ->
    call_post c r w c' r' Pending
| call_failed e : fails c w r' e -> call_post c r w c' r' (Failed e)
| call_bad_trailers c1 buf e :
    feed_all c w = Ok (c1, []) -> state c1 = End -> trailers_buf c1 = Some buf ->
    decode_trailers (Hm := Hm) buf (trailers_cnt c1) = Err e -> c' = clear_trailers c1 ->
    call_post c r w c' r' (Failed e).

(** What a call does after the bytes [w1] that lead to [c1] without output. *)
Lemma call_post_after c r w1 c1 r1 w c' r' o :
  feed_all c w1 = Ok (c1, []) -> w1 ≠ [] -> (patience r1 <= patience r)%nat ->
  call_post c1 r1 w c' r' o -> call_post c r (w1 ++ w) c' r' o.
Proof.
  intros Hf Hne Hp Hpost.
  assert (Happ : forall c2 d, feed_all c1 w = Ok (c2, d) -> feed_all c (w1 ++ w) = Ok (c2, d)).
  { intros c2 d Hd. by rewrite feed_all_app, Hf, Hd. }
  destruct Hpost as [d Hd Hiff Hnone Hpat Hw Hr|c2 buf h Hd Hend Hbuf Hdt -> Hr|Hd Hend Hpat Hr|e Hfail
    |c2 buf e Hd Hend Hbuf Hdt ->].
  - constructor; [by apply Happ|done|done|lia| |done]. by destruct w1.
  - econstructor; eauto.
  - constructor; [by apply Happ|done|lia|done].
  - constructor. destruct Hfail as [r2 n Hr|c2 Hs Hk Hd Hne2|Hd].
    + by econstructor.
    + eapply fails_eof; eauto.
    + apply fails_feed. by rewrite feed_all_app, Hf, Hd.
  - econstructor 5; eauto.
Qed.

(** At [End] the loop hands out the trailers, or an empty frame. *)
Lemma call_post_end c (r : R) w c1 r' :
  feed_all c w = Ok (c1, []) -> state c1 = End -> (patience r' <= patience r)%nat ->
  (w = [] -> state c = End) -> reader_ok r' ->
  match trailers_buf c1 with
  | Some buf =>
      match decode_trailers (Hm := Hm) buf (trailers_cnt c1) with
      | Ok h => call_post c r w (clear_trailers c1) r' (Ready (Trailers h))
      | Err e => call_post c r w (clear_trailers c1) r' (Failed e)
      end
  | None => call_post c r w c1 r' (Ready (Data []))
  end.
Proof.
  intros Hf Hend Hpat Hw Hr. destruct (trailers_buf c1) as [buf|] eqn:Eb.
  - destruct (decode_trailers buf (trailers_cnt c1)) eqn:Et; [by eapply call_trailers|by eapply call_bad_trailers].
  - by constructor.
Qed.

Lemma decode_chunked_refines fuel c (r : R) d' r' o :
  chunked_inv c -> reader_ok r -> (length (stream r) < fuel)%nat ->
  decode_chunked fuel c r = ((d', r'), o) ->
  exists c' w, d' = Chunked c' /\ stream r = w ++ stream r' /\ call_post c r w c' r' o.
Proof.
  revert c r. induction fuel as [|k IH]; intros c r Hc Hr Hfuel; [lia|].
  cbn [decode_chunked].
  destruct (decide (state c = End)) as [Hend|Hend].
  { rewrite Hend. cbn [step]. unfold mret, M_ret. rewrite decide_True by done.
    rewrite <- Hend, write_back_step_args.
    pose proof (call_post_end c r [] c r eq_refl Hend ltac:(lia) ltac:(done) Hr) as Hp.
    destruct (trailers_buf c) as [buf|]; [destruct (decode_trailers _ _)|];
      intros [= <- <- <-]; eexists _, []; (split; [reflexivity|done]). }
  destruct (step (state c) (r, step_args c)) as [[r1 a] o1] eqn:Est.
  pose proof (step_feed c r r1 a o1 Hc Hr Hend Est) as Hpost.
  destruct o1 as [s|e| | |]; simpl in Hpost; try done.
  - destruct Hpost as (Hr1 & w & Hne & Hst & Hf & Hbuf & Hnone & Hpat).
    destruct (decide (s = End)) as [->|Hs].
    + rewrite (Hnone eq_refl) in Hf.
      pose proof (call_post_end c r w (write_back End a c) r1 Hf eq_refl Hpat ltac:(done) Hr1) as Hp.
      destruct (trailers_buf (write_back End a c)) as [buf|]; [destruct (decode_trailers _ _)|];
        intros [= <- <- <-]; eexists _, w; (split; [reflexivity|done]).
    + destruct (chunk_buf a) as [buf|] eqn:Eb; simpl in Hf.
      * intros [= <- <- <-]. exists (write_back s a c), w. split_and!; [done|done|].
        constructor; [done| |done|done|done|done]. split; [by intros ->|done].
      * intros Hd. apply IH in Hd as (c' & w' & -> & Hst' & Hpost).
        -- exists c', (w ++ w'). split_and!; [done|by rewrite Hst, Hst', app_assoc|].
           by eapply call_post_after.
        -- by eapply feed_all_inv.
        -- done.
        -- rewrite Hst in Hfuel. destruct w; [done|]. simpl in Hfuel. rewrite length_app in Hfuel. lia.
  - intros [= <- <- <-]. destruct Hpost as [[Hst (n & Hrd)]|[(Hst & Hst' & Hk)|(b & Hst & Hf)]].
    + exists (write_back (state c) a c), []. split_and!; [done| |].
      * done.
      * constructor. by eapply fails_reader.
    + exists (write_back (state c) a c), []. split_and!; [done|by rewrite Hst, Hst'|].
      constructor. by eapply fails_eof.
    + exists (write_back (state c) a c), [b]. split_and!; [done|done|].
      constructor. apply fails_feed. simpl. by rewrite Hf.
  - destruct Hpost as (Hr1 & Hwb & Hst & Hp). intros [= <- <- <-].
    exists (write_back (state c) a c), []. split_and!; [done|done|].
    rewrite Hwb. by constructor.
Qed.

(** Every result of [decode] on a chunked body, for any reader: it is one the
    automaton allows, and neither a panic nor an exhausted bound. *)
Lemma decode_chunked_call c (r : R) d' r' o :
  chunked_inv c -> reader_ok r -> decode (Chunked c, r) = ((d', r'), o) ->
  exists c' w, d' = Chunked c' /\ stream r = w ++ stream r' /\ call_post c r w c' r' o.
Proof. intros Hc Hr Hd. unfold decode in Hd. eapply decode_chunked_refines; [done|done| |done]. lia. Qed.

Lemma call_post_inv c (r : R) w c' r' o :
  chunked_inv c -> call_post c r w c' r' o -> (forall e, o ≠ Failed e) -> chunked_inv c'.
Proof.
  intros Hc Hp Hnf. destruct Hp as [d Hd _ _ _ _ _|c1 buf h Hd Hend _ _ -> _|Hd _ _ _|e _|? ? e _ _ _ _ _].
  - by eapply feed_all_inv.
  - apply feed_all_inv in Hd as [Hlen Hbody Hstart Htr Hext Hcnt]; [|done].
    constructor; simpl; rewrite ?Hend; done.
  - by eapply feed_all_inv.
  - by destruct (Hnf e).
  - by destruct (Hnf e).
Qed.
End decode_call.
