(* ===== verification/BodyTheorems.v ===== *)
(** * BodyTheorems

    Reading a whole body: [drain] polls a decoder until it is done. Its results
    are computed for the three kinds of decoder over every lawful reader. *)

From stdpp Require Import prelude strings.
From Stdlib Require Import ZArith Lia.
From S2P Require Import Prelude Bytes Crates Errors Length MemRead Decode DecodeSpec ChunkedGrammar DecodeRefine.
Import ChunkedState.
Local Open Scope Z_scope.

Section drain.
Context `{HeaderSyntax} `{HeaderMap Hm} `{HttparseHeaders} `{MemReadLaws R}.

(** Polls until the decoder is at its end, an error or the trailers, and
    collects the data frames. *)
Fixpoint drain (fuel : nat) (d : Decoder) (r : R) (acc : bytes)
  : (Decoder * R) * outcome io_error (bytes * option Hm) :=
  match fuel with
  | O => ((d, r), NoFuel)
  | S k =>
      if decoder_is_eof d then ((d, r), Ready (acc, None))
      else
        match decode (d, r) with
        | ((d', r'), Ready (Data b)) => drain k d' r' (acc ++ b)
        | ((d', r'), Ready (Trailers h)) => ((d', r'), Ready (acc, Some h))
        | ((d', r'), Pending) => drain k d' r' acc
        | ((d', r'), Failed e) => ((d', r'), Failed e)
        | ((d', r'), Panicked) => ((d', r'), Panicked)
        | ((d', r'), NoFuel) => ((d', r'), NoFuel)
        end
  end.

(** Enough polls: one per byte, one per refusal, one for the end. *)
Definition drain_fuel (r : R) : nat := S (S (length (stream r) + patience r)).

Lemma feed_all_at_end c w : state c = End -> w ≠ [] -> feed_all c w = Err None.
Proof. intros Hend Hne. destruct w; [done|]. cbn [feed_all]. unfold feed. by rewrite decide_True. Qed.

(** Two prefixes of one stream, the first of them accepted: the automaton
    stops at the accepted one. *)
Lemma accepted_prefix c w d cE rest w1 s1 c1 o1 :
  feed_all c w = Ok (cE, d) -> state cE = End -> w ++ rest = w1 ++ s1 ->
  feed_all c w1 = Ok (c1, o1) ->
  exists k d2, w = w1 ++ k /\ s1 = k ++ rest /\ feed_all c1 k = Ok (cE, d2) /\ d = o1 ++ d2.
Proof.
  intros Hf Hend Heq Hf1. apply app_eq_inv in Heq as [(k & -> & Hs)|(k & -> & Hs)].
  - rewrite feed_all_app, Hf1 in Hf. destruct (feed_all c1 k) as [[c2 d2]|] eqn:E; [|done].
    simplify_eq. by exists k, d2.
  - rewrite feed_all_app, Hf in Hf1. destruct (decide (k = [])) as [->|Hk].
    + simpl in Hf1. simplify_eq. exists [], []. rewrite !app_nil_r. done.
    + by rewrite feed_all_at_end in Hf1.
Qed.

Lemma accepted_no_reject c w d cE rest w1 s1 e :
  feed_all c w = Ok (cE, d) -> state cE = End -> w ++ rest = w1 ++ s1 ->
  feed_all c w1 ≠ Err (Some e).
Proof.
  intros Hf Hend Heq Hf1. apply app_eq_inv in Heq as [(k & -> & Hs)|(k & -> & Hs)].
  - by rewrite feed_all_app, Hf1 in Hf.
  - rewrite feed_all_app, Hf in Hf1. destruct (decide (k = [])) as [->|Hk]; [done|].
    by rewrite feed_all_at_end in Hf1.
Qed.

(** The outcome at the end of a chunked body with trailer buffer [tb]. *)
Definition body_result (acc : bytes) (tb : option bytes) (tc : Z) : outcome io_error (bytes * option Hm) :=
  match tb with
  | None => Ready (acc, None)
  | Some buf =>
      match decode_trailers buf tc with Ok h => Ready (acc, Some h) | Err e => Failed e end
  end.

Lemma drain_chunked `{!MemReadInfallible R} fuel c (r : R) acc w d cE rest :
  chunked_inv c -> reader_ok r -> state c ≠ End -> feed_all c w = Ok (cE, d) -> state cE = End ->
  stream r = w ++ rest -> (length (stream r) + patience r + 1 < fuel)%nat ->
  exists d' r', drain fuel (Chunked c) r acc = ((d', r'), body_result (acc ++ d) (trailers_buf cE) (trailers_cnt cE)) /\
    stream r' = rest.
Proof.
  revert c r acc w d. induction fuel as [|k IH]; intros c r acc w d Hc Hr0 Hnend Hf Hend Hst Hfuel; [lia|].
  cbn [drain decoder_is_eof]. rewrite bool_decide_false by done.
  destruct (decode (Chunked c, r)) as [[d1 r1] o1] eqn:Ed.
  pose proof (decode_chunked_call c r d1 r1 o1 Hc Hr0 Ed) as (c1 & w1 & -> & Hst1 & Hpost).
  assert (Heq : w ++ rest = w1 ++ stream r1) by congruence.
  assert (Hat_end : forall c2, feed_all c w1 = Ok (c2, []) -> state c2 = End ->
    c2 = cE /\ d = [] /\ stream r1 = rest).
  { intros c2 Ho He.
    destruct (accepted_prefix _ _ _ _ _ _ _ _ _ Hf Hend Heq Ho) as (k1 & d2 & -> & Hs1 & Hf2 & ->).
    destruct (decide (k1 = [])) as [->|Hk1]; [|by rewrite feed_all_at_end in Hf2].
    simpl in Hf2. by simplify_eq. }
  destruct Hpost as [o Ho Hiff Hnone Hpat Hw Hr1|c2 buf h Ho Hend1 Hbuf Hdt Hc1 Hr1|Ho Hend1 Hpat Hr1|e Hfail
    |c2 buf e Ho Hend1 Hbuf Hdt Hc1].
  - destruct (decide (state c1 = End)) as [He|He].
    + apply Hiff in He as Ho'. subst o. destruct (Hat_end c1 Ho He) as (-> & -> & Hs1).
      destruct k as [|k]; [lia|]. cbn [drain decoder_is_eof]. rewrite bool_decide_true by done.
      exists (Chunked cE), r1. split; [|done]. unfold body_result. by rewrite (Hnone He), !app_nil_r.
    + destruct (accepted_prefix _ _ _ _ _ _ _ _ _ Hf Hend Heq Ho) as (k1 & d2 & -> & Hs1 & Hf2 & ->).
      rewrite app_assoc.
      apply (IH c1 r1 (acc ++ o) k1 d2); try done.
      * by eapply feed_all_inv.
      * assert (w1 ≠ []) as Hw1 by (intros ->; by apply Hnend, Hw).
        rewrite Hst1, length_app in Hfuel. destruct w1; [done|]. simpl in Hfuel. lia.
  - destruct (Hat_end c2 Ho Hend1) as (-> & -> & Hs1). rewrite app_nil_r.
    exists (Chunked c1), r1. split; [|done]. unfold body_result. by rewrite Hbuf, Hdt.
  - destruct (accepted_prefix _ _ _ _ _ _ _ _ _ Hf Hend Heq Ho) as (k1 & d2 & -> & Hs1 & Hf2 & ->).
    apply (IH c1 r1 acc k1 d2); try done.
    + by eapply feed_all_inv.
    + rewrite Hst1, length_app in Hfuel. lia.
  - exfalso. destruct Hfail as [r2 n Hr|c2 Hs Hk Ho He|Ho].
    + by apply read_mem_infallible in Hr.
    + destruct (accepted_prefix _ _ _ _ _ _ _ _ _ Hf Hend Heq Ho) as (k1 & d2 & -> & Hs1 & Hf2 & ->).
      rewrite Hs in Hs1. destruct k1; [|done]. simpl in Hf2. by simplify_eq.
    + by eapply accepted_no_reject in Ho.
  - destruct (Hat_end c2 Ho Hend1) as (-> & -> & Hs1). rewrite app_nil_r.
    exists (Chunked c1), r1. split; [|done]. unfold body_result. by rewrite Hbuf, Hdt.
Qed.

(** The words of the grammar are read to their data and trailers. *)
Lemma drain_decodes `{!MemReadInfallible R} mh ms (r : R) w d tb tc rest :
  reader_ok r -> chunked_body (max_cnt mh) (max_bytes ms) w d tb tc -> stream r = w ++ rest ->
  exists d' r', drain (drain_fuel r) (decoder_chunked mh ms) r [] = ((d', r'), body_result d tb tc) /\
    stream r' = rest.
Proof.
  intros Hr Hbody Hst. apply chunked_body_accepted in Hbody as [e Hf].
  apply (drain_chunked (drain_fuel r) (cfg mh ms Start 0 0 None 0) r [] w d _ rest
    (chunked_inv_new mh ms) Hr ltac:(done) Hf eq_refl Hst).
  unfold drain_fuel. lia.
Qed.

(** A successful run has taken an accepted word. *)
Lemma drain_chunked_inv fuel c (r : R) acc d' r' body tr :
  chunked_inv c -> reader_ok r -> (state c = End -> trailers_buf c = None) ->
  drain fuel (Chunked c) r acc = ((d', r'), Ready (body, tr)) ->
  exists w d cE, stream r = w ++ stream r' /\ feed_all c w = Ok (cE, d) /\ state cE = End /\
    body = acc ++ d /\
    match tr with
    | None => trailers_buf cE = None
    | Some h => exists buf, trailers_buf cE = Some buf /\ decode_trailers buf (trailers_cnt cE) = Ok h
    end.
Proof.
  revert c r acc. induction fuel as [|k IH]; intros c r acc Hc Hr0 Htb; [done|].
  cbn [drain decoder_is_eof]. destruct (bool_decide (state c = End)) eqn:Eb.
  { apply bool_decide_eq_true in Eb. intros [= <- <- <- <-]. exists [], [], c.
    rewrite app_nil_r. split_and!; auto. }
  apply bool_decide_eq_false in Eb.
  destruct (decode (Chunked c, r)) as [[d1 r1] o1] eqn:Ed.
  pose proof (decode_chunked_call c r d1 r1 o1 Hc Hr0 Ed) as (c1 & w1 & -> & Hst1 & Hpost).
  destruct Hpost as [o Ho Hiff Hnone Hpat Hw Hr1|c2 buf h Ho Hend1 Hbuf Hdt Hc1 Hr1|Ho Hend1 Hpat Hr1|e Hfail
    |c2 buf e Ho Hend1 Hbuf Hdt Hc1]; try done.
  - intros Hd. apply IH in Hd as (w & d & cE & Hst & Hf & Hend & -> & Htr);
      [|by eapply feed_all_inv|done|done].
    exists (w1 ++ w), (o ++ d), cE. rewrite Hst1, Hst, !app_assoc. split_and!; try done.
    by rewrite feed_all_app, Ho, Hf.
  - intros [= <- <- <- <-]. exists w1, [], c2. rewrite app_nil_r. split_and!; try done. eauto.
  - intros Hd. apply IH in Hd as (w & d & cE & Hst & Hf & Hend & -> & Htr);
      [|by eapply feed_all_inv|done|done].
    exists (w1 ++ w), d, cE. rewrite Hst1, Hst, !app_assoc. split_and!; try done.
    by rewrite feed_all_app, Ho, Hf.
Qed.

(** ** Bodies of known length, and bodies that end with the connection *)

Definition incomplete_body : io_error := IoError UnexpectedEof IncompleteBody.

(** The result of one [Length] read of a lawful reader. *)
Lemma decode_length_call n (r : R) d' r' o :
  reader_ok r -> 0 < n <= U64_MAX -> decode (Length n, r) = ((d', r'), o) ->
  (exists e, o = Failed e /\ read_mem n r = (r', Failed e)) \/
  (o = Pending /\ reader_ok r' /\ d' = Length n /\ stream r' = stream r /\ (patience r' < patience r)%nat) \/
  (o = Failed incomplete_body /\ stream r = [] /\ stream r' = []) \/
  (exists b, o = Ready (Data b) /\ reader_ok r' /\ d' = Length (n - len b) /\ b ≠ [] /\ len b <= n /\
     stream r = b ++ stream r' /\ (patience r' <= patience r)%nat).
Proof.
  intros Hr Hn. unfold decode. rewrite (proj2 (Z.eqb_neq n 0)) by lia.
  assert (usize_or_max n = n) as -> by (unfold usize_or_max; case_match; ulia).
  destruct (read_mem n r) as [r1 [b|e| | |]] eqn:Er;
    pose proof (read_mem_ok _ _ _ _ Hr (proj1 Hn) Er) as Hr1.
  - apply read_mem_ready in Er as (Hst & Hle & Hnil & Hpat); [|done|lia].
    rewrite (proj2 (Z.ltb_ge n (len b))) by done.
    destruct (len b =? 0) eqn:E0; zbool; intros [= <- <- <-].
    + apply len_zero in E0 as ->. rewrite (Hnil eq_refl) in Hst. simpl in Hst.
      right; right; left. by rewrite (Hnil eq_refl).
    + right; right; right. exists b. split_and!; try done. by intros ->.
  - intros [= <- <- <-]. left. eauto.
  - apply read_mem_pending in Er as [? ?]; [|done|lia]. intros [= <- <- <-]. right; left. done.
  - by apply read_mem_no_panic in Er; [|done|lia].
  - by apply read_mem_no_fuel in Er; [|done|lia].
Qed.

Lemma drain_length `{!MemReadInfallible R} fuel n (r : R) acc :
  reader_ok r -> 0 <= n <= U64_MAX -> (length (stream r) + patience r + 1 < fuel)%nat ->
  exists d' r', drain fuel (Length n) r acc =
    ((d', r'), if n <=? len (stream r) then Ready (acc ++ ztake n (stream r), None)
               else Failed incomplete_body) /\
    stream r' = zdrop n (stream r).
Proof.
  revert n r acc. induction fuel as [|k IH]; intros n r acc Hr0 Hn Hfuel; [lia|].
  cbn [drain decoder_is_eof]. destruct (n =? 0) eqn:E0; zbool.
  { subst n. exists (Length 0), r.
    rewrite (proj2 (Z.leb_le 0 _)) by apply len_nonneg. by rewrite app_nil_r. }
  destruct (decode (Length n, r)) as [[d1 r1] o1] eqn:Ed.
  apply decode_length_call in Ed as [(e & -> & Hr)|[(-> & Hr1 & -> & Hst & Hp)|[(-> & Hst & Hst')|
    (b & -> & Hr1 & -> & Hne & Hle & Hst & Hp)]]]; [| | | |done|lia].
  - by apply read_mem_infallible in Hr.
  - rewrite <- Hst. apply IH; [done|done|]. rewrite Hst. lia.
  - exists d1, r1. rewrite Hst, Hst', len_nil, (proj2 (Z.leb_gt n 0)) by lia.
    split; [done|]. unfold zdrop. by rewrite drop_nil.
  - pose proof (len_pos b Hne). rewrite Hst, ztake_app, zdrop_app, len_app by lia.
    rewrite (ztake_all n b), (zdrop_all n b), app_nil_l, (app_assoc acc) by done.
    replace (n <=? len b + len (stream r1)) with (n - len b <=? len (stream r1))
      by (apply eq_true_iff_eq; rewrite !Z.leb_le; lia).
    apply IH; [done|lia|]. rewrite Hst, length_app in Hfuel. destruct b; [done|]. simpl in Hfuel. lia.
Qed.

Lemma drain_eof `{!MemReadInfallible R} fuel (r : R) acc :
  reader_ok r -> (length (stream r) + patience r + 1 < fuel)%nat ->
  exists r', drain fuel (Eof false) r acc = ((Eof true, r'), Ready (acc ++ stream r, None)) /\
    stream r' = [].
Proof.
  revert r acc. induction fuel as [|k IH]; intros r acc Hr0 Hfuel; [lia|].
  cbn [drain decoder_is_eof decode]. destruct (read_mem 8192 r) as [r1 [b|e| | |]] eqn:Er;
    pose proof (read_mem_ok _ 8192 _ _ Hr0 eq_refl Er) as Hr1.
  - apply read_mem_ready in Er as (Hst & Hle & Hnil & Hpat); [|done|lia].
    destruct (decide (b = [])) as [->|Hb].
    + rewrite bool_decide_true by done. destruct k as [|k]; [lia|]. cbn [drain decoder_is_eof].
      exists r1. rewrite (Hnil eq_refl) in *. simpl in Hst. by rewrite !app_nil_r.
    + rewrite bool_decide_false by done. rewrite Hst, app_assoc. apply IH; [done|].
      rewrite Hst, length_app in Hfuel. destruct b; [done|]. simpl in Hfuel. lia.
  - by apply read_mem_infallible in Er.
  - apply read_mem_pending in Er as [Hst Hp]; [|done|lia]. rewrite <- Hst. apply IH; [done|]. rewrite Hst. lia.
  - by apply read_mem_no_panic in Er; [|done|lia].
  - by apply read_mem_no_fuel in Er; [|done|lia].
Qed.
End drain.

(** ** Theorems

    What the body decoder of [proto/http1/decode.rs] guarantees to the
    connection that polls it, over every reader that keeps the promises of
    [MemRead]: chunked bodies are read exactly as their grammar says, bodies of
    known length are read to their last byte and no further, and no input makes
    the decoder panic or spin. *)

(** What a decoder keeps between two polls. *)
Definition decoder_inv (d : Decoder) : Prop :=
  match d with
  | Length n => is_u64 n
  | Chunked c => chunked_inv c
  | Eof _ => True
  end.

Lemma decoder_new_exact n mh ms : 0 <= n <= MAX_LEN -> decoder_new (DL n) mh ms = Some (Length n).
Proof.
  intros Hn. unfold decoder_new, danger_len, CHUNKED, CLOSE_DELIMITED, MAX_LEN in *.
  rewrite !decide_False by (intros [= ->]; ulia). simpl. by rewrite (proj2 (Z.ltb_lt _ _)) by ulia.
Qed.

Section theorems.
Context `{HeaderSyntax} `{HeaderMap Hm} `{HttparseHeaders} `{MemReadLaws R}.

Lemma decode_post d (r : R) d' r' o :
  decoder_inv d -> reader_ok r -> decode (d, r) = ((d', r'), o) ->
  o ≠ Panicked /\ o ≠ NoFuel /\
  ((forall e, o ≠ Failed e) ->
     decoder_inv d' /\ reader_ok r' /\ exists w, stream r = w ++ stream r').
Proof.
  intros Hd Hr Hdec. destruct d as [n|c|[]]; simpl in Hd.
  - destruct (decide (n = 0)) as [->|Hn].
    { cbn in Hdec. simplify_eq. split_and!; try done. intros _. split_and!; try done. by exists []. }
    apply decode_length_call in Hdec as [(e & -> & _)|[(-> & Hr1 & -> & Hst & _)|[(-> & _)|
      (b & -> & Hr1 & -> & _ & Hle & Hst & _)]]]; [| | | |done|ulia];
      (split_and!; [done|done|]); intros Hne; try by destruct (Hne _ eq_refl).
    + split_and!; [done|done|by exists []].
    + pose proof (len_nonneg b). split_and!; [simpl; ulia|done|by exists b].
  - pose proof (decode_chunked_call _ _ _ _ _ Hd Hr Hdec) as (c' & w & -> & Hst & Hpost).
    split_and!; [by inversion Hpost|by inversion Hpost|]. intros Hne. split_and!; [|by destruct Hpost; try done; destruct (Hne _ eq_refl)|eauto].
    by eapply call_post_inv.
  - cbn in Hdec. simplify_eq. split_and!; try done. intros _. split_and!; try done. by exists [].
  - cbn [decode] in Hdec. destruct (read_mem 8192 r) as [r1 [b|e| | |]] eqn:Er;
      pose proof (read_mem_ok _ 8192 _ _ Hr eq_refl Er) as Hr1; simplify_eq.
    + apply read_mem_ready in Er as (Hst & _); [|done|lia]. split_and!; try done. intros _. eauto.
    + split_and!; try done. intros Hne. by destruct (Hne _ eq_refl).
    + apply read_mem_pending in Er as [Hst _]; [|done|lia]. split_and!; try done.
      intros _. split_and!; try done. by exists [].
    + by apply read_mem_no_panic in Er; [|done|lia].
    + by apply read_mem_no_fuel in Er; [|done|lia].
Qed.

(** C37. A well-formed chunked body is decoded completely. Whatever pieces the
    reader delivers it in, however often it is not ready, polling the decoder
    yields exactly the data of the chunks and the parsed trailer section, and
    leaves every byte after the body in the reader. *)
Theorem chunked_decode_complete `{!MemReadInfallible R} mh ms (r : R) w d tb tc rest :
  reader_ok r -> chunked_body (max_cnt mh) (max_bytes ms) w d tb tc -> stream r = w ++ rest ->
  exists d' r', drain (drain_fuel r) (decoder_chunked mh ms) r [] = ((d', r'), body_result d tb tc) /\
    stream r' = rest.
Proof.
  intros Hr Hbody Hst. by apply (drain_decodes mh ms r w).
Qed.

(** C38. Nothing else is taken for a chunked body. When polling succeeds, the
    bytes consumed are a chunked body in the sense of the grammar, within the
    configured limits, whose data is the body that was returned; trailers are
    returned exactly when the body has a trailer section, and are its parse. *)
Theorem chunked_decode_sound mh ms fuel (r : R) d' r' body tr :
  reader_ok r -> 0 <= max_cnt mh ->
  drain fuel (decoder_chunked mh ms) r [] = ((d', r'), Ready (body, tr)) ->
  exists w tb tc, stream r = w ++ stream r' /\
    chunked_body (max_cnt mh) (max_bytes ms) w body tb tc /\
    match tr with
    | None => tb = None
    | Some h => exists buf, tb = Some buf /\ decode_trailers buf tc = Ok h
    end.
Proof.
  intros Hr Hmax Hd.
  apply drain_chunked_inv in Hd as (w & d & cE & Hst & Hf & Hend & -> & Htr);
    [|apply chunked_inv_new|done|done].
  destruct (accepted_chunked_body mh ms w d cE Hmax (conj Hf Hend)) as (e & tb & tc & -> & Hbody).
  by exists w, tb, tc.
Qed.

(** The decoder is safe on every input: one poll from any state it can be
    in neither panics nor loops, consumes a prefix of the stream, and unless it
    reports an error leaves the decoder and the reader fit for the next poll. *)
Theorem decode_safe d (r : R) d' r' o :
  decoder_inv d -> reader_ok r -> decode (d, r) = ((d', r'), o) ->
  o ≠ Panicked /\ o ≠ NoFuel /\
  ((forall e, o ≠ Failed e) ->
     decoder_inv d' /\ reader_ok r' /\ exists w, stream r = w ++ stream r').
Proof. apply decode_post. Qed.

(** A body of known length is read exactly: the first [n] bytes of the
    stream, leaving the rest; when the stream ends before them the result is
    the incomplete-body error, never a short body. *)
Theorem length_decode_exact `{!MemReadInfallible R} n (r : R) mh ms :
  reader_ok r -> 0 <= n <= MAX_LEN ->
  exists d d' r', decoder_new (DL n) mh ms = Some d /\
    drain (drain_fuel r) d r [] =
    ((d', r'), if n <=? len (stream r) then Ready (ztake n (stream r), None)
               else Failed (IoError UnexpectedEof IncompleteBody)) /\
    stream r' = zdrop n (stream r).
Proof.
  intros Hr Hn.
  destruct (drain_length (drain_fuel r) n r []) as (d' & r' & Hd & Hst);
    [done|unfold MAX_LEN in Hn; ulia|unfold drain_fuel; lia|].
  exists (Length n), d', r'. split; [by apply decoder_new_exact|done].
Qed.

(** A close-delimited body is everything up to the end of the stream. *)
Theorem eof_decode_all `{!MemReadInfallible R} (r : R) mh ms :
  reader_ok r ->
  exists d r', decoder_new CLOSE_DELIMITED mh ms = Some d /\
    drain (drain_fuel r) d r [] = ((Eof true, r'), Ready (stream r, None)) /\ stream r' = [].
Proof.
  intros Hr. destruct (drain_eof (drain_fuel r) r []) as (r' & Hd & Hst); [done|unfold drain_fuel; lia|].
  by exists (Eof false), r'.
Qed.
End theorems.

(** ** The theorems at work

    [4;a=b / Wiki / 0 / X: y /] and the first bytes of the next message. *)

Definition demo_ext : bytes := bs "a=b".
Definition demo_body : bytes :=
  size_line (bs "4") [] (Some demo_ext) ++ bs "Wiki" ++ CRLF ++ [] ++
  size_line (bs "0") [] None ++ trailer_section [bs "X: y"].
Definition demo_stream : bytes := demo_body ++ bs "HTTP".

Lemma demo_size_line ds ext v :
  ds ≠ [] -> is_hex ds -> hex_value 0 ds = v -> v <= U64_MAX -> ext_ok ext ->
  size_line_ok ds [] ext v.
Proof. repeat split; auto. Qed.

Lemma demo_grammar :
  chunked_body 100 16384 demo_body (bs "Wiki") (Some (trailer_section [bs "X: y"])) 1.
Proof.
  refine (chunked_body_intro 100 16384 (size_line (bs "4") [] (Some demo_ext) ++ bs "Wiki" ++ CRLF ++ [])
    (bs "Wiki" ++ []) 3 (bs "0") [] None [bs "X: y"] _ _ _ _ _ _).
  - apply (chunks_cons 0 (bs "4") [] (Some demo_ext) (bs "Wiki") [] [] 3); try done; [|constructor].
    apply demo_size_line; try done; [by repeat econstructor|]. split; vm_compute; set_solver.
  - apply demo_size_line; try done. by repeat econstructor.
  - done.
  - repeat constructor; [done|]. vm_compute. set_solver.
  - done.
  - done.
Qed.

Section witnesses.
Import Concrete.

Lemma chunked_decode_complete_witness :
  exists d' r', drain (Hm := hmap) (drain_fuel demo_stream) (decoder_chunked None None) demo_stream [] =
    ((d', r'), Ready (bs "Wiki", Some (HMap [(bs "x", bs "y")]))) /\ stream r' = bs "HTTP".
Proof.
  exact (chunked_decode_complete (Hm := hmap) None None demo_stream demo_body (bs "Wiki") _ _
    (bs "HTTP") I demo_grammar eq_refl).
Defined.

Lemma chunked_decode_sound_witness :
  exists w tb tc, demo_stream = w ++ bs "HTTP" /\ chunked_body 100 16384 w (bs "Wiki") tb tc /\
    exists buf, tb = Some buf /\ decode_trailers buf tc = Ok (HMap [(bs "x", bs "y")]).
Proof.
  refine (chunked_decode_sound (Hm := hmap) None None (drain_fuel demo_stream) demo_stream _ (bs "HTTP")
    (bs "Wiki") (Some (HMap [(bs "x", bs "y")])) I _ _); [vm_compute; done|].
  vm_compute. reflexivity.
Defined.

Lemma decode_safe_witness :
  (Ready (Data (bs "Wi")) : outcome io_error (Frame hmap)) ≠ Panicked /\
  (Ready (Data (bs "Wi")) : outcome io_error (Frame hmap)) ≠ NoFuel /\
  ((forall e, (Ready (Data (bs "Wi")) : outcome io_error (Frame hmap)) ≠ Failed e) ->
     decoder_inv (Length 0) /\ True /\ exists w, bs "Wiki" = w ++ bs "ki").
Proof.
  refine (decode_safe (Hm := hmap) (Length 2) (bs "Wiki") (Length 0) (bs "ki") _ _ I _).
  - split; done.
  - vm_compute. reflexivity.
Defined.

Lemma length_decode_exact_witness :
  exists d d' r', decoder_new (DL 2) None None = Some d /\
    drain (Hm := hmap) (drain_fuel (bs "Wiki")) d (bs "Wiki") [] = ((d', r'), Ready (bs "Wi", None)) /\
    stream r' = bs "ki".
Proof.
  refine (length_decode_exact (Hm := hmap) 2 (bs "Wiki") None None I _). split; vm_compute; done.
Defined.

Lemma eof_decode_all_witness :
  exists d r', decoder_new CLOSE_DELIMITED None None = Some d /\
    drain (Hm := hmap) (drain_fuel (bs "Wiki")) d (bs "Wiki") [] = ((Eof true, r'), Ready (bs "Wiki", None)) /\
    stream r' = [].
Proof. exact (eof_decode_all (Hm := hmap) (bs "Wiki") None None I). Defined.
End witnesses.
