(* ===== verification/BufList.v ===== *)
(** * BufList

    [proto/http1/buf.rs]: a queue of buffers that is itself a buffer, the
    concatenation of its parts. *)

From stdpp Require Import prelude strings.
From Stdlib Require Import ZArith Lia.
From S2P Require Import Prelude Crates.
Local Open Scope Z_scope.

(** [struct BufList<T>]. *)
Record BufList (T : Type) : Type := MkBufList { bufs : list T; bl_remaining : Z }.
Arguments MkBufList {T} bufs bl_remaining.
Arguments bufs {T} b.
Arguments bl_remaining {T} b.

Section buf_list.
Context `{Buf T}.

Definition bl_new : BufList T := MkBufList [] 0.

(** [push]: [None] where its [debug_assert!] fires. *)
Definition bl_push (buf : T) (l : BufList T) : option (BufList T) :=
  if 0 <? remaining buf
  then Some (MkBufList (bufs l ++ [buf]) (bl_remaining l + remaining buf)) else None.

Definition bufs_cnt (l : BufList T) : Z := len (bufs l).

Definition bl_chunk (l : BufList T) : bytes :=
  match bufs l with [] => [] | front :: _ => chunk front end.

(** The [while cnt > 0] loop of [advance]; [None] where [bufs[0]] or an inner
    [advance] panics. *)
Fixpoint advance_loop (bs : list T) (cnt : Z) : option (list T) :=
  if 0 <? cnt then
    match bs with
    | [] => None
    | front :: rest =>
        let rem := remaining front in
        if cnt <? rem then
          front' ← advance cnt front; Some (front' :: rest)
        else
          _ ← advance rem front; advance_loop rest (cnt - rem)
    end
  else Some bs.

Definition bl_advance (cnt : Z) (l : BufList T) : option (BufList T) :=
  if cnt <=? bl_remaining l then
    bs ← advance_loop (bufs l) cnt; Some (MkBufList bs (bl_remaining l - cnt))
  else None.

#[export] Instance BufList_Buf : Buf (BufList T) := {
  remaining := bl_remaining;
  chunk := bl_chunk;
  advance := bl_advance;
}.

(** [Buf::copy_to_bytes(len)] of a buffer: reading chunks until [len] bytes
    are taken. It is the default method of the trait, which the front buffer
    and [self.take(len)] fall back to. *)
Fixpoint copy_loop {B} `{Buf B} (fuel : nat) (n : Z) (b : B) : option (bytes * B) :=
  match fuel with
  | O => None
  | S k =>
      if 0 <? n then
        let c := ztake n (chunk b) in
        b' ← advance (len c) b;
        '(rest, b'') ← copy_loop k (n - len c) b';
        Some (c ++ rest, b'')
      else Some ([], b)
  end.

(** [copy_to_bytes]: from the front buffer where it holds enough. *)
Definition bl_copy_to_bytes (n : Z) (l : BufList T) : option (bytes * BufList T) :=
  let slow :=
    if n <=? bl_remaining l then copy_loop (S (Z.to_nat n)) n l else None in
  match bufs l with
  | front :: rest =>
      if remaining front =? n then
        '(b, _) ← copy_loop (S (Z.to_nat n)) n front;
        Some (b, MkBufList rest (bl_remaining l - n))
      else if n <? remaining front then
        '(b, front') ← copy_loop (S (Z.to_nat n)) n front;
        Some (b, MkBufList (front' :: rest) (bl_remaining l - n))
      else slow
  | [] => slow
  end.
End buf_list.

(** ** The queue is the concatenation of its buffers *)

Section buf_list_laws.
Context `{BufLaws T}.

Definition bl_content (l : BufList T) : bytes := concat (map content (bufs l)).

(** Every buffer holds something, and the count is exact. *)
Record bl_ok (l : BufList T) : Prop := {
  bl_bufs_ok : Forall (fun b => buf_ok b /\ content b ≠ []) (bufs l);
  bl_count : bl_remaining l = len (bl_content l);
}.

Lemma bl_new_ok : bl_ok bl_new.
Proof. split; [constructor|done]. Qed.

Lemma bl_push_spec b l :
  bl_ok l -> buf_ok b -> content b ≠ [] ->
  exists l', bl_push b l = Some l' /\ bl_ok l' /\ bl_content l' = bl_content l ++ content b.
Proof.
  intros [Hl Hr] Hb Hne. unfold bl_push.
  rewrite (proj2 (Z.ltb_lt _ _)) by (rewrite buf_remaining by done; by apply len_pos).
  assert (Hc : bl_content (MkBufList (bufs l ++ [b]) (bl_remaining l + remaining b)) =
    bl_content l ++ content b).
  { unfold bl_content. simpl. rewrite map_app, concat_app. simpl. by rewrite app_nil_r. }
  eexists. split; [done|]. split; [|done]. split.
  - apply Forall_app. split; [done|]. by constructor.
  - rewrite Hc, len_app. simpl. by rewrite Hr, buf_remaining.
Qed.

Lemma advance_loop_spec bs n :
  Forall (fun b => buf_ok b /\ content b ≠ []) bs -> 0 <= n <= len (concat (map content bs)) ->
  exists bs', advance_loop bs n = Some bs' /\
    Forall (fun b => buf_ok b /\ content b ≠ []) bs' /\
    concat (map content bs') = zdrop n (concat (map content bs)).
Proof.
  intros Hbs. revert n. induction Hbs as [|front rest [Hok Hne] Hrest IH]; intros n Hn.
  { change (len (concat (map content []))) with 0 in Hn. assert (n = 0) as -> by lia. by exists []. }
  cbn [advance_loop map concat] in *. rewrite len_app in Hn.
  destruct (0 <? n) eqn:E0; zbool.
  2: { assert (n = 0) as -> by lia. exists (front :: rest). split; [done|]. split; [by constructor|done]. }
  pose proof (buf_remaining front Hok) as Hr. rewrite Hr.
  pose proof (len_nonneg (content front)).
  destruct (n <? len (content front)) eqn:E; zbool.
  - destruct (buf_advance front n Hok) as (f' & -> & Hf & Hc); [lia|]. simpl.
    exists (f' :: rest). split; [done|]. split.
    + constructor; [|done]. split; [done|]. rewrite Hc. intros Hnil.
      assert (len (zdrop n (content front)) = 0) as Hz by (by rewrite Hnil).
      rewrite len_zdrop in Hz by lia. lia.
    + simpl. rewrite zdrop_app, Hc by lia. f_equal.
      unfold zdrop. by replace (Z.to_nat _) with 0%nat by lia.
  - destruct (buf_advance front (len (content front)) Hok) as (f' & -> & _); [lia|]. simpl.
    destruct (IH (n - len (content front))) as (bs' & -> & Hbs' & Hc); [lia|].
    exists bs'. split_and!; [done|done|]. by rewrite zdrop_app, (zdrop_all n), Hc by lia.
Qed.

#[export] Instance BufList_BufLaws : BufLaws (BufList T).
Proof.
  refine {| buf_ok := bl_ok; content := bl_content |}.
  - intros l [_ Hr]. exact Hr.
  - intros [bs r] [Hbs _]. unfold bl_content. simpl in *. unfold bl_chunk.
    destruct Hbs as [|b bs [Hb _] _]; simpl; [by exists []|].
    destruct (buf_chunk_prefix b Hb) as [rest Hrest]. rewrite Hrest, <- app_assoc. eauto.
  - intros [bs r] [Hbs _] Hne. simpl in *. unfold bl_chunk.
    destruct Hbs as [|b bs [Hb Hb'] _]; [done|]. simpl. by apply buf_chunk_nonempty.
  - intros l n [Hbs Hr] Hn. simpl in *. unfold bl_advance.
    rewrite (proj2 (Z.leb_le n (bl_remaining l))) by lia.
    destruct (advance_loop_spec (bufs l) n Hbs) as (bs' & -> & Hbs' & Hc).
    { unfold bl_content in Hr. lia. }
    simpl. eexists. split; [done|]. split; [|done]. split; simpl; [done|].
    unfold bl_content. simpl. rewrite Hc, len_zdrop by lia. unfold bl_content in Hr. lia.
Defined.
End buf_list_laws.

(** Reading [n] bytes off a lawful buffer. *)
Lemma copy_loop_spec `{BufLaws B} fuel n (b : B) :
  buf_ok b -> 0 <= n <= remaining b -> (Z.to_nat n < fuel)%nat ->
  exists b', copy_loop fuel n b = Some (ztake n (content b), b') /\ buf_ok b' /\
    content b' = zdrop n (content b).
Proof.
  revert n b. induction fuel as [|k IH]; intros n b Hb Hn Hfuel; [lia|]. cbn [copy_loop].
  destruct (0 <? n) eqn:E; zbool.
  2: { assert (n = 0) as -> by lia. exists b. done. }
  rewrite buf_remaining in Hn by done.
  destruct (buf_chunk_prefix b Hb) as [rest Hrest].
  assert (chunk b ≠ []) as Hne.
  { apply buf_chunk_nonempty; [done|]. intros Hc. rewrite Hc in Hn.
    change (len []) with 0 in Hn. lia. }
  pose proof (len_pos (chunk b) Hne).
  set (c := ztake n (chunk b)). assert (len c = Z.min n (len (chunk b))) as Hc
    by (unfold c; by rewrite len_ztake by lia).
  destruct (buf_advance b (len c) Hb) as (b' & -> & Hb' & Hcb); [rewrite buf_remaining by done; lia|].
  simpl. destruct (IH (n - len c) b') as (b'' & -> & Hb'' & Hcb''); [done| |lia|].
  { rewrite buf_remaining, Hcb, len_zdrop by (done || lia). lia. }
  simpl. exists b''. rewrite Hcb'', Hcb, zdrop_zdrop by lia.
  replace (len c + (n - len c)) with n by lia. split_and!; [|done|done].
  assert (Hsplit : content b = c ++ zdrop n (chunk b) ++ rest).
  { unfold c. by rewrite app_assoc, ztake_zdrop. }
  do 2 f_equal. by rewrite Hsplit, zdrop_len_app, (ztake_app n c), (ztake_all n c) by lia.
Qed.

(** [copy_to_bytes] takes the next [n] bytes on each of its three paths. *)
Lemma bl_copy_to_bytes_spec `{BufLaws T} n (l : BufList T) :
  bl_ok l -> 0 <= n <= bl_remaining l ->
  exists l', bl_copy_to_bytes n l = Some (ztake n (bl_content l), l') /\
    bl_content l' = zdrop n (bl_content l) /\ bl_ok l'.
Proof.
  intros Hl Hn. unfold bl_copy_to_bytes. rewrite (proj2 (Z.leb_le n (bl_remaining l))) by lia.
  assert (Hslow : exists l', copy_loop (S (Z.to_nat n)) n l = Some (ztake n (bl_content l), l') /\
    bl_content l' = zdrop n (bl_content l) /\ bl_ok l').
  { pose proof (copy_loop_spec (B := BufList T) (S (Z.to_nat n)) n l) as Hs.
    destruct (Hs Hl Hn ltac:(lia)) as (l' & Hl' & Hok & Hc). by exists l'. }
  destruct l as [[|front rest] r]; cbn [bufs bl_remaining] in *; [done|].
  destruct Hl as [Hbs Hr]. inversion_clear Hbs as [|? ? [Hf Hne] Hrest]. cbn [bl_remaining] in Hr.
  unfold bl_content in *. cbn [bufs map concat] in *. rewrite len_app in Hr.
  pose proof (buf_remaining front Hf) as Hrem.
  assert (Hz : forall k : bytes, n <= len (content front) ->
    ztake (n - len (content front)) k = [] /\ zdrop (n - len (content front)) k = k)
    by (intros; unfold ztake, zdrop; by replace (Z.to_nat _) with 0%nat by lia).
  destruct (remaining front =? n) eqn:E1; [|destruct (n <? remaining front) eqn:E2; [|exact Hslow]]; zbool.
  all: destruct (copy_loop_spec (S (Z.to_nat n)) n front Hf ltac:(lia) ltac:(lia))
    as (f' & -> & Hf' & Hc); cbn [mbind option_bind]; eexists; (split; [f_equal; f_equal|]); try reflexivity;
    rewrite ?(ztake_app n), ?(zdrop_app n) by lia; cbn [bufs map concat bl_remaining].
  1, 3: by rewrite (proj1 (Hz _ ltac:(lia))), app_nil_r.
  - rewrite (proj2 (Hz _ ltac:(lia))), zdrop_all by lia. split; [done|]. split; [done|].
    unfold bl_content. simpl. lia.
  - rewrite (proj2 (Hz _ ltac:(lia))), Hc. split; [done|].
    assert (len (zdrop n (content front)) = len (content front) - n) as Hl
      by (rewrite len_zdrop by lia; lia).
    split; unfold bl_content; simpl.
    + constructor; [|done]. split; [done|]. rewrite Hc. intros Hnil. rewrite Hnil in Hl.
      change (len []) with 0 in Hl. lia.
    + rewrite len_app, Hc. lia.
Qed.

(** ** Refinement of a byte queue *)

Section refinement.
Context `{BufLaws T}.

Inductive bl_op : Type := OpPush (b : T) | OpAdvance (n : Z) | OpCopy (n : Z).

(** Callers push buffers with something left and pass [usize] counts. *)
Definition op_ok (op : bl_op) : Prop :=
  match op with
  | OpPush b => buf_ok b /\ content b ≠ []
  | OpAdvance n | OpCopy n => 0 <= n
  end.

(** One operation, and what it returns to the caller. *)
Definition bl_step (op : bl_op) (l : BufList T) : option (bytes * BufList T) :=
  match op with
  | OpPush b => l' ← bl_push b l; Some ([], l')
  | OpAdvance n => l' ← bl_advance n l; Some ([], l')
  | OpCopy n => bl_copy_to_bytes n l
  end.

(** The same operation on the bytes in the queue. *)
Definition queue_step (op : bl_op) (q : bytes) : option (bytes * bytes) :=
  match op with
  | OpPush b => Some ([], q ++ content b)
  | OpAdvance n => if n <=? len q then Some ([], zdrop n q) else None
  | OpCopy n => if n <=? len q then Some (ztake n q, zdrop n q) else None
  end.

Fixpoint run {S} (step : bl_op -> S -> option (bytes * S)) (ops : list bl_op) (s : S)
  : option (bytes * S) :=
  match ops with
  | [] => Some ([], s)
  | op :: ops' =>
      '(o, s') ← step op s;
      '(o', s'') ← run step ops' s';
      Some (o ++ o', s'')
  end.

Definition same_run (a : option (bytes * BufList T)) (b : option (bytes * bytes)) : Prop :=
  match a, b with
  | Some (o, l), Some (o', q) => o = o' /\ bl_ok l /\ bl_content l = q
  | None, None => True
  | _, _ => False
  end.

Lemma bl_step_refines op l :
  bl_ok l -> op_ok op -> same_run (bl_step op l) (queue_step op (bl_content l)).
Proof.
  intros Hl Hop. pose proof (bl_count l Hl) as Hcnt. destruct op as [b|n|n]; simpl in *.
  - destruct Hop as [Hb Hne]. by destruct (bl_push_spec b l Hl Hb Hne) as (l' & -> & Hl' & Hc).
  - destruct (n <=? len (bl_content l)) eqn:E; zbool.
    + pose proof (buf_advance (B := BufList T) l n) as Ha. simpl in Ha.
      by destruct (Ha Hl ltac:(lia)) as (l' & -> & Hl' & Hc).
    + unfold bl_advance. by rewrite (proj2 (Z.leb_gt _ _)) by lia.
  - destruct (n <=? len (bl_content l)) eqn:E; zbool.
    + by destruct (bl_copy_to_bytes_spec n l Hl ltac:(lia)) as (l' & -> & Hc & Hl').
    + unfold bl_copy_to_bytes. rewrite (proj2 (Z.leb_gt n (bl_remaining l))) by lia.
      destruct (bufs l) as [|front rest] eqn:Eb; [done|].
      pose proof (bl_bufs_ok l Hl) as Hbs. rewrite Eb in Hbs.
      inversion_clear Hbs as [|? ? [Hf _] _]. rewrite (buf_remaining front Hf).
      unfold bl_content in E. rewrite Eb in E. simpl in E. rewrite len_app in E.
      pose proof (len_nonneg (concat (map content rest))).
      by rewrite (proj2 (Z.eqb_neq _ _)), (proj2 (Z.ltb_ge _ _)) by lia.
Qed.

Lemma bl_run_refines ops l :
  bl_ok l -> Forall op_ok ops -> same_run (run bl_step ops l) (run queue_step ops (bl_content l)).
Proof.
  revert l. induction ops as [|op ops IH]; intros l Hl Hops; [done|].
  inversion_clear Hops as [|? ? Hop Hops']. cbn [run].
  pose proof (bl_step_refines op l Hl Hop) as Hs.
  destruct (bl_step op l) as [[o l']|], (queue_step op (bl_content l)) as [[o' q]|]; try done.
  destruct Hs as (-> & Hl' & <-). cbn [mbind option_bind].
  specialize (IH l' Hl' Hops').
  destruct (run bl_step ops l') as [[o2 l2]|], (run queue_step ops (bl_content l')) as [[o2' q2]|]; try done.
  destruct IH as (-> & ? & ?). done.
Qed.

(** The buffer list is a byte queue: for every sequence of [push],
    [advance] and [copy_to_bytes] calls it returns the same bytes as a plain
    byte string used as a queue, panics exactly when a call asks for more than
    is queued, and its [remaining] counter is the number of bytes queued. *)
Theorem buf_list_refines_queue ops :
  Forall op_ok ops ->
  match run bl_step ops bl_new, run queue_step ops [] with
  | Some (o, l), Some (o', q) => o = o' /\ bl_content l = q /\ bl_remaining l = len q
  | None, None => True
  | _, _ => False
  end.
Proof.
  intros Hops. pose proof (bl_run_refines ops bl_new bl_new_ok Hops) as Hr.
  change (bl_content bl_new) with (@nil Z) in Hr.
  destruct (run bl_step ops bl_new) as [[o l]|], (run queue_step ops []) as [[o' q]|]; try done.
  destruct Hr as (-> & Hl & <-). by rewrite (bl_count l Hl).
Qed.
End refinement.

Lemma buf_list_refines_queue_witness :
  match run bl_step [OpPush [1; 2; 3]; OpPush [4; 5]; OpCopy 4; OpAdvance 1] bl_new,
        run queue_step [OpPush [1; 2; 3]; OpPush [4; 5]; OpCopy 4; OpAdvance 1] [] with
  | Some (o, l), Some (o', q) => o = o' /\ bl_content l = q /\ bl_remaining l = len q
  | None, None => True
  | _, _ => False
  end.
Proof. apply buf_list_refines_queue. repeat constructor; done. Defined.
