(* ===== verification/WriteBuf.v ===== *)
(** * WriteBuf

    [proto/http1/io.rs]: the cursor over buffered head bytes, and the write
    buffer that collects messages before a flush, flattened into one vector or
    queued. *)

From stdpp Require Import prelude strings.
From Stdlib Require Import ZArith Lia.
From S2P Require Import Prelude Crates BufList.
Local Open Scope Z_scope.

Definition INIT_BUFFER_SIZE : Z := 8192.
Definition MINIMUM_MAX_BUFFER_SIZE : Z := INIT_BUFFER_SIZE.
Definition DEFAULT_MAX_BUFFER_SIZE : Z := 8192 + 4096 * 100.
Definition MAX_BUF_LIST_BUFFERS : Z := 16.

(** ** [struct Cursor<Vec<u8>>] *)

Record Cursor : Type := MkCursor { cur_bytes : bytes; cur_pos : Z }.

Definition cursor_new (b : bytes) : Cursor := MkCursor b 0.

(** [maybe_unshift]: [cap] is the capacity of the vector. *)
Definition maybe_unshift (cap additional : Z) (c : Cursor) : Cursor :=
  if cur_pos c =? 0 then c
  else if additional <=? cap - len (cur_bytes c) then c
  else MkCursor (zdrop (cur_pos c) (cur_bytes c)) 0.

Definition cursor_reset (c : Cursor) : Cursor := MkCursor [] 0.

Definition cursor_extend (data : bytes) (c : Cursor) : Cursor :=
  MkCursor (cur_bytes c ++ data) (cur_pos c).

#[export] Instance Cursor_Buf : Buf Cursor := {
  remaining c := len (cur_bytes c) - cur_pos c;
  chunk c := zdrop (cur_pos c) (cur_bytes c);
  advance cnt c :=
    if cur_pos c + cnt <=? len (cur_bytes c)
    then Some (MkCursor (cur_bytes c) (cur_pos c + cnt)) else None;
}.

Definition cursor_ok (c : Cursor) : Prop := 0 <= cur_pos c <= len (cur_bytes c).
Definition cursor_content (c : Cursor) : bytes := zdrop (cur_pos c) (cur_bytes c).

#[export] Instance Cursor_BufLaws : BufLaws Cursor.
Proof.
  refine {| buf_ok := cursor_ok; content := cursor_content |}; unfold cursor_ok, cursor_content.
  - intros c Hc. simpl. rewrite len_zdrop by lia. lia.
  - intros c _. exists []. by rewrite app_nil_r.
  - done.
  - intros c n Hc Hn. simpl in *. rewrite (proj2 (Z.leb_le _ _)) by lia.
    eexists. split; [done|]. simpl. split; [lia|]. by rewrite zdrop_zdrop by lia.
Defined.

Lemma maybe_unshift_ok cap n c : cursor_ok c -> cursor_ok (maybe_unshift cap n c).
Proof.
  unfold maybe_unshift, cursor_ok. intros Hc. repeat case_match; simpl; try lia.
  pose proof (len_nonneg (zdrop (cur_pos c) (cur_bytes c))). lia.
Qed.

Lemma maybe_unshift_content cap n c : cursor_content (maybe_unshift cap n c) = cursor_content c.
Proof. unfold maybe_unshift, cursor_content. by repeat case_match. Qed.

Lemma cursor_extend_ok data c : cursor_ok c -> cursor_ok (cursor_extend data c).
Proof. unfold cursor_ok. simpl. rewrite len_app. pose proof (len_nonneg data). lia. Qed.

Lemma cursor_extend_content data c :
  cursor_ok c -> cursor_content (cursor_extend data c) = cursor_content c ++ data.
Proof.
  unfold cursor_ok, cursor_content. simpl. intros Hc. rewrite zdrop_app by lia. f_equal.
  unfold zdrop. by replace (Z.to_nat (_ - _)) with 0%nat by lia.
Qed.

(** ** [struct WriteBuf<B>] *)

Inductive WriteStrategy : Type := Flatten | Queue.

#[export] Instance WriteStrategy_eq_dec : EqDecision WriteStrategy.
Proof. solve_decision. Defined.

Record WriteBuf (B : Type) : Type := MkWriteBuf {
  headers : Cursor;
  max_buf_size : Z;
  queue : BufList B;
  strategy : WriteStrategy;
}.
Arguments MkWriteBuf {B} headers max_buf_size queue strategy.
Arguments headers {B} w.
Arguments max_buf_size {B} w.
Arguments queue {B} w.
Arguments strategy {B} w.

Definition set_headers {B} (c : Cursor) (w : WriteBuf B) : WriteBuf B :=
  MkWriteBuf c (max_buf_size w) (queue w) (strategy w).
Definition set_queue {B} (q : BufList B) (w : WriteBuf B) : WriteBuf B :=
  MkWriteBuf (headers w) (max_buf_size w) q (strategy w).

Section write_buf.
Context `{Buf B}.

Definition wb_new (s : WriteStrategy) : WriteBuf B :=
  MkWriteBuf (cursor_new []) DEFAULT_MAX_BUFFER_SIZE bl_new s.

Definition set_strategy (s : WriteStrategy) (w : WriteBuf B) : WriteBuf B :=
  MkWriteBuf (headers w) (max_buf_size w) (queue w) s.

Definition wb_remaining (w : WriteBuf B) : Z := remaining (headers w) + remaining (queue w).

(** [headers_mut]: [None] where its [debug_assert!] fires. *)
Definition headers_mut (w : WriteBuf B) : option Cursor :=
  if 0 <? remaining (queue w) then None else Some (headers w).

(** The copying loop of [buffer]. *)
Fixpoint flatten_loop {BB} `{Buf BB} (fuel : nat) (buf : BB) (head : Cursor) : option Cursor :=
  match fuel with
  | O => None
  | S k =>
      match chunk buf with
      | [] => Some head
      | slice =>
          buf' ← advance (len slice) buf;
          flatten_loop k buf' (cursor_extend slice head)
      end
  end.

(** [buffer(buf)], with the capacity of the head vector; [into] is the
    conversion [BB: Into<B>]. [None] where a [debug_assert!] fires. *)
Definition wb_buffer {BB} `{Buf BB} (into : BB -> B) (cap : Z) (buf : BB) (w : WriteBuf B)
  : option (WriteBuf B) :=
  if negb (0 <? remaining buf) then None else
  match strategy w with
  | Flatten =>
      head ← headers_mut w;
      head' ← flatten_loop (S (Z.to_nat (remaining buf))) buf
                (maybe_unshift cap (remaining buf) head);
      Some (set_headers head' w)
  | Queue => q ← bl_push (into buf) (queue w); Some (set_queue q w)
  end.

Definition wb_can_buffer (w : WriteBuf B) : bool :=
  match strategy w with
  | Flatten => wb_remaining w <? max_buf_size w
  | Queue => (bufs_cnt (queue w) <? MAX_BUF_LIST_BUFFERS) && (wb_remaining w <? max_buf_size w)
  end.

Definition wb_chunk (w : WriteBuf B) : bytes :=
  match chunk (headers w) with [] => chunk (queue w) | h => h end.

Definition wb_advance (cnt : Z) (w : WriteBuf B) : option (WriteBuf B) :=
  let hrem := remaining (headers w) in
  match hrem ?= cnt with
  | Eq => Some (set_headers (cursor_reset (headers w)) w)
  | Gt => h ← advance cnt (headers w); Some (set_headers h w)
  | Lt =>
      q ← advance (cnt - hrem) (queue w);
      Some (set_queue q (set_headers (cursor_reset (headers w)) w))
  end.

#[export] Instance WriteBuf_Buf : Buf (WriteBuf B) := {
  remaining := wb_remaining;
  chunk := wb_chunk;
  advance := wb_advance;
}.
End write_buf.

(** ** The buffer holds the bytes it was given, in order *)

Section write_buf_laws.
Context `{BufLaws B}.

Definition wb_content (w : WriteBuf B) : bytes := content (headers w) ++ content (queue w).

(** Flattened buffers go to the head vector, so the queue stays empty; and there
    is room for something when nothing is buffered. *)
Record wb_ok (w : WriteBuf B) : Prop := {
  wb_headers_ok : cursor_ok (headers w);
  wb_queue_ok : bl_ok (queue w);
  wb_flat : strategy w = Flatten -> bufs (queue w) = [];
  wb_room : 0 < max_buf_size w;
}.

Lemma wb_new_ok s : wb_ok (wb_new s).
Proof. split; [done|apply bl_new_ok|done|done]. Qed.

#[export] Instance WriteBuf_BufLaws : BufLaws (WriteBuf B).
Proof.
  refine {| buf_ok := wb_ok; content := wb_content |}; unfold wb_content.
  - intros w [Hh Hq _ _]. cbn [remaining WriteBuf_Buf]. unfold wb_remaining.
    by rewrite !buf_remaining, len_app.
  - intros w [Hh Hq _ _]. cbn [chunk WriteBuf_Buf]. unfold wb_chunk.
    change (chunk (headers w)) with (content (headers w)).
    destruct (content (headers w)) as [|b l] eqn:E.
    + by apply buf_chunk_prefix.
    + eauto.
  - intros w [Hh Hq _ _] Hne. cbn [chunk WriteBuf_Buf]. unfold wb_chunk.
    change (chunk (headers w)) with (content (headers w)).
    destruct (content (headers w)) as [|b l] eqn:E; [|done].
    by apply buf_chunk_nonempty.
  - intros w n [Hh Hq Hflat Hroom] Hn. cbn [remaining advance WriteBuf_Buf] in *.
    unfold wb_remaining in Hn. unfold wb_advance.
    pose proof (buf_remaining (headers w) Hh) as Hrem.
    assert (cursor_ok (cursor_reset (headers w))) as Hreset by done.
    destruct (Z.compare_spec (remaining (headers w)) n) as [E|E|E].
    + eexists. split; [done|]. split; [by split|]. simpl headers. simpl queue.
      rewrite zdrop_app, (zdrop_all n) by lia.
      by replace (n - len (content (headers w))) with 0 by lia.
    + pose proof (buf_advance (B := BufList B) (queue w) (n - remaining (headers w))) as Hadv.
      destruct (Hadv Hq) as (q & Hq' & Hqok & Hqc); [lia|].
      rewrite Hq'. cbn [mbind option_bind]. eexists. split; [done|]. split.
      * split; [done|done| |done]. simpl. intros Hs. specialize (Hflat Hs).
        change (bl_advance (n - (len (cur_bytes (headers w)) - cur_pos (headers w))) (queue w) = Some q) in Hq'.
        unfold bl_advance in Hq'. destruct (_ <=? _); [|done]. rewrite Hflat in Hq'.
        cbn [advance_loop] in Hq'. destruct (0 <? _); [done|]. simpl in Hq'. by simplify_eq.
      * simpl headers. simpl queue. rewrite zdrop_app, (zdrop_all n), Hqc, Hrem by lia. done.
    + pose proof (buf_advance (B := Cursor) (headers w) n) as Hadv.
      destruct (Hadv Hh) as (h & -> & Hhok & Hhc); [lia|].
      cbn [mbind option_bind]. eexists. split; [done|]. split; [by split|].
      simpl headers. simpl queue. rewrite zdrop_app, Hhc by lia. f_equal.
      unfold zdrop. by replace (Z.to_nat (n - _)) with 0%nat by lia.
Defined.

Lemma flatten_loop_spec `{BufLaws BB} fuel (buf : BB) head :
  buf_ok buf -> cursor_ok head -> (length (content buf) < fuel)%nat ->
  exists head', flatten_loop fuel buf head = Some head' /\ cursor_ok head' /\
    cursor_content head' = cursor_content head ++ content buf.
Proof.
  revert buf head. induction fuel as [|k IH]; intros buf head Hb Hh Hfuel; [lia|].
  cbn [flatten_loop]. destruct (buf_chunk_prefix buf Hb) as [rest Hrest].
  destruct (chunk buf) as [|b l] eqn:Ec.
  - exists head. split_and!; [done|done|].
    destruct (content buf) as [|c l'] eqn:Eb; [by rewrite app_nil_r|].
    exfalso. by apply (buf_chunk_nonempty buf Hb); rewrite ?Eb.
  - destruct (buf_advance buf (len (b :: l)) Hb) as (buf' & -> & Hb' & Hc').
    { rewrite buf_remaining, Hrest, len_app by done.
      pose proof (len_nonneg rest). pose proof (len_nonneg (b :: l)). lia. }
    cbn [mbind option_bind]. rewrite Hrest, zdrop_len_app in Hc'.
    destruct (IH buf' (cursor_extend (b :: l) head)) as (head' & -> & Hok & Hcont);
      [done|by apply cursor_extend_ok| |].
    { rewrite Hrest, length_app in Hfuel. rewrite Hc'. simpl in Hfuel. lia. }
    exists head'. split_and!; [done|done|].
    by rewrite Hcont, cursor_extend_content, Hc', Hrest, app_assoc by done.
Qed.

Lemma wb_buffer_spec `{BufLaws BB} (into : BB -> B) cap (buf : BB) (w : WriteBuf B) :
  wb_ok w -> buf_ok buf -> content buf ≠ [] ->
  buf_ok (into buf) -> content (into buf) = content buf ->
  exists w', wb_buffer into cap buf w = Some w' /\ wb_ok w' /\
    wb_content w' = wb_content w ++ content buf.
Proof.
  intros [Hh Hq Hflat Hroom] Hb Hne Hi Hic. unfold wb_buffer.
  rewrite (proj2 (Z.ltb_lt 0 (remaining buf))) by (rewrite buf_remaining by done; by apply len_pos).
  cbn [negb]. destruct (strategy w) eqn:Es.
  - specialize (Hflat eq_refl). assert (content (queue w) = []) as Hqc.
    { change (bl_content (queue w) = []). unfold bl_content. by rewrite Hflat. }
    unfold headers_mut. rewrite (buf_remaining (B := BufList B)), Hqc by done. cbn [mbind option_bind].
    change (0 <? len []) with false. cbn match.
    destruct (flatten_loop_spec (S (Z.to_nat (remaining buf))) buf
      (maybe_unshift cap (remaining buf) (headers w))) as (h & Hf & Hhok & Hhc);
      [done|by apply maybe_unshift_ok| |].
    { rewrite buf_remaining by done. unfold len. lia. }
    cbn [mbind option_bind]. rewrite Hf. eexists. split; [done|]. split; [by split|].
    unfold wb_content. simpl headers. simpl queue. rewrite Hqc, !app_nil_r.
    change (content h) with (cursor_content h). by rewrite Hhc, maybe_unshift_content.
  - destruct (bl_push_spec (into buf) (queue w)) as (q & Hq' & Hqok & Hqc); [done|done|by rewrite Hic|].
    rewrite Hq'. cbn [mbind option_bind]. eexists. split; [done|]. split.
    + split; [done|done| |done]. simpl. congruence.
    + unfold wb_content. simpl headers. simpl queue.
      change (content q) with (bl_content q). by rewrite Hqc, Hic, app_assoc.
Qed.
End write_buf_laws.

(** Buffering a message appends exactly its bytes to what is waiting to be
    written, under both strategies and whatever room the head vector has, and
    never panics on a non-empty buffer. *)
Theorem write_buf_buffer_appends `{BufLaws B} `{BufLaws BB} (into : BB -> B) cap (buf : BB) (w : WriteBuf B) :
  wb_ok w -> buf_ok buf -> content buf ≠ [] ->
  buf_ok (into buf) -> content (into buf) = content buf ->
  exists w', wb_buffer into cap buf w = Some w' /\ wb_ok w' /\
    content w' = content w ++ content buf /\ remaining w' = remaining w + remaining buf.
Proof.
  intros Hw Hb Hne Hi Hic.
  destruct (wb_buffer_spec into cap buf w Hw Hb Hne Hi Hic) as (w' & Hw' & Hok & Hc).
  exists w'. split_and!; try done.
  pose proof (buf_remaining (B := WriteBuf B) w' Hok) as ->.
  pose proof (buf_remaining (B := WriteBuf B) w Hw) as ->.
  rewrite buf_remaining, <- len_app by done. f_equal. exact Hc.
Qed.

Lemma write_buf_buffer_appends_witness :
  exists w', wb_buffer id 8192 [1; 2] (wb_new (B := bytes) Flatten) = Some w' /\ wb_ok w' /\
    content w' = content (wb_new (B := bytes) Flatten) ++ [1; 2] /\
    remaining w' = remaining (wb_new (B := bytes) Flatten) + 2.
Proof.
  exact (write_buf_buffer_appends (B := bytes) (BB := bytes) id 8192 [1; 2] (wb_new Flatten)
    (wb_new_ok Flatten) I ltac:(done) I eq_refl).
Defined.
