(* ===== verification/Transport.v ===== *)
(** * Transport

    What the HTTP/1 connection uses of [bytes::BytesMut] and of the asynchronous
    transport ([tokio::io::AsyncRead], [AsyncWrite] and the [tokio_util::io]
    helpers), as classes of operations and classes of laws. The instances at the
    end, a growable buffer and a scripted transport, serve the witnesses. *)

From stdpp Require Import prelude strings.
From Stdlib Require Import ZArith Lia.
From S2P Require Import Prelude Crates.
Local Open Scope Z_scope.

(** ** [BytesMut] *)

(** [split_to] and [advance] are [None] where they panic. *)
Class BytesMut (V : Type) : Type := {
  bm_new : V;
  bm_bytes : V -> bytes;
  bm_capacity : V -> Z;
  bm_reserve : Z -> V -> V;
  bm_split_to : Z -> V -> option (bytes * V);
  bm_advance : Z -> V -> option V;
}.

Class BytesMutLaws (V : Type) `{BytesMut V} : Prop := {
  bm_bytes_new : bm_bytes bm_new = [];
  bm_capacity_len : forall v, len (bm_bytes v) <= bm_capacity v;
  (** [reserve(additional)] keeps the contents and makes room for at least
      [additional] more bytes. *)
  bm_bytes_reserve : forall n v, bm_bytes (bm_reserve n v) = bm_bytes v;
  bm_capacity_reserve : forall n v, len (bm_bytes v) + n <= bm_capacity (bm_reserve n v);
  bm_split_to_spec : forall n v, 0 <= n <= len (bm_bytes v) ->
    exists v', bm_split_to n v = Some (ztake n (bm_bytes v), v') /\ bm_bytes v' = zdrop n (bm_bytes v);
  bm_advance_spec : forall n v, 0 <= n <= len (bm_bytes v) ->
    exists v', bm_advance n v = Some v' /\ bm_bytes v' = zdrop n (bm_bytes v);
}.

(** ** The transport *)

Class Transport (T V : Type) `{BytesMut V} : Type := {
  (** [tokio_util::io::poll_read_buf]: reads into the spare capacity of the
      buffer and yields the number of bytes read; zero is the end of the file. *)
  poll_read_buf : M (T * V) io_error Z;
  (** [AsyncWrite::poll_write]. *)
  poll_write : bytes -> M T io_error Z;
  (** [tokio_util::io::poll_write_buf]: writes a part of a [Buf] and advances it. *)
  poll_write_buf : forall {W} `{Buf W}, M (T * W) io_error Z;
  io_flush : M T io_error unit;
  io_shutdown : M T io_error unit;
  is_write_vectored : T -> bool;
}.

(** [incoming] is what the peer still has to send before it closes, [written]
    what the transport has accepted so far, [read_patience] how often it will
    answer "not ready" before it delivers. *)
Class TransportLaws (T V : Type) `{Transport T V} : Type := {
  incoming : T -> bytes;
  written : T -> bytes;
  read_patience : T -> nat;
  poll_read_buf_ready : forall t v t' v' n,
    poll_read_buf (t, v) = ((t', v'), Ready n) ->
    exists b, n = len b /\ bm_bytes v' = bm_bytes v ++ b /\ incoming t = b ++ incoming t' /\
      (b = [] -> incoming t = []) /\ written t' = written t /\ (read_patience t' <= read_patience t)%nat;
  poll_read_buf_pending : forall t v t' v',
    poll_read_buf (t, v) = ((t', v'), Pending) ->
    bm_bytes v' = bm_bytes v /\ incoming t' = incoming t /\ written t' = written t /\
    (read_patience t' < read_patience t)%nat;
  poll_read_buf_failed : forall t v t' v' e,
    poll_read_buf (t, v) = ((t', v'), Failed e) ->
    bm_bytes v' = bm_bytes v /\ incoming t' = incoming t /\ written t' = written t;
  poll_read_buf_total : forall t v s, poll_read_buf (t, v) ≠ (s, Panicked) /\ poll_read_buf (t, v) ≠ (s, NoFuel);
  (** A write accepts a prefix, or nothing when it does not succeed. *)
  poll_write_ready : forall b t t' n,
    poll_write b t = (t', Ready n) -> 0 <= n <= len b /\ written t' = written t ++ ztake n b;
  poll_write_unready : forall b t t' o,
    poll_write b t = (t', o) -> (forall n, o ≠ Ready n) -> written t' = written t;
  poll_write_total : forall b t t', poll_write b t ≠ (t', Panicked) /\ poll_write b t ≠ (t', NoFuel);
  poll_write_buf_ready : forall W `{BufLaws W} (w w' : W) t t' n,
    buf_ok w -> poll_write_buf (t, w) = ((t', w'), Ready n) ->
    0 <= n <= remaining w /\ advance n w = Some w' /\ written t' = written t ++ ztake n (content w);
  poll_write_buf_unready : forall W `{BufLaws W} (w w' : W) t t' o,
    poll_write_buf (t, w) = ((t', w'), o) -> (forall n, o ≠ Ready n) -> w' = w /\ written t' = written t;
  poll_write_buf_total : forall W `{BufLaws W} (w : W) t s,
    buf_ok w -> poll_write_buf (t, w) ≠ (s, Panicked) /\ poll_write_buf (t, w) ≠ (s, NoFuel);
  (** Writing does not touch what is to be read; flushing and shutting down
      do not touch the byte streams. *)
  poll_write_incoming : forall b t, incoming (fst (poll_write b t)) = incoming t /\
    read_patience (fst (poll_write b t)) = read_patience t;
  poll_write_buf_incoming : forall W `{Buf W} (w : W) t,
    incoming (fst (fst (poll_write_buf (t, w)))) = incoming t /\
    read_patience (fst (fst (poll_write_buf (t, w)))) = read_patience t;
  io_flush_streams : forall t, incoming (fst (io_flush t)) = incoming t /\
    written (fst (io_flush t)) = written t /\ read_patience (fst (io_flush t)) = read_patience t;
  io_flush_total : forall t t', io_flush t ≠ (t', Panicked) /\ io_flush t ≠ (t', NoFuel);
  io_shutdown_written : forall t, written (fst (io_shutdown t)) = written t;
  io_shutdown_total : forall t t', io_shutdown t ≠ (t', Panicked) /\ io_shutdown t ≠ (t', NoFuel);
}.

(** Transports on which reading does not fail. *)
Class TransportInfallible (T V : Type) `{Transport T V} : Prop :=
  poll_read_buf_infallible : forall t v s e, poll_read_buf (t, v) ≠ (s, Failed e).

(** ** Concrete instances *)

Module ConcreteIo.

(** A buffer that reserves exactly what it is asked for. *)
Record vec : Type := Vec { vec_bytes : bytes; vec_spare : nat }.

#[export] Instance vec_BytesMut : BytesMut vec := {
  bm_new := Vec [] 0;
  bm_bytes := vec_bytes;
  bm_capacity v := len (vec_bytes v) + Z.of_nat (vec_spare v);
  bm_reserve n v := Vec (vec_bytes v) (vec_spare v + Z.to_nat n);
  bm_split_to n v :=
    if n <=? len (vec_bytes v)
    then Some (ztake n (vec_bytes v), Vec (zdrop n (vec_bytes v)) (vec_spare v)) else None;
  bm_advance n v :=
    if n <=? len (vec_bytes v) then Some (Vec (zdrop n (vec_bytes v)) (vec_spare v)) else None;
}.

#[export] Instance vec_BytesMutLaws : BytesMutLaws vec.
Proof.
  split; simpl; intros; try done; try lia.
  all: rewrite (proj2 (Z.leb_le _ _)) by lia; eauto.
Qed.

(** A scripted transport: the pieces it delivers ([None] is "not ready"; a piece
    is a first byte and the rest), and the most it accepts in one write. *)
Record mock : Type := Mock {
  mock_in : list (option (Z * bytes));
  mock_out : bytes;
  mock_room : nat;
}.

Definition piece (p : option (Z * bytes)) : bytes :=
  match p with Some (b, rest) => b :: rest | None => [] end.

#[export] Instance mock_Transport : Transport mock vec := {
  poll_read_buf := fun '(t, v) =>
    match mock_in t with
    | [] => ((t, v), Ready 0)
    | None :: ps => ((Mock ps (mock_out t) (mock_room t), v), Pending)
    | p :: ps =>
        ((Mock ps (mock_out t) (mock_room t), Vec (vec_bytes v ++ piece p) (vec_spare v - length (piece p))),
         Ready (len (piece p)))
    end;
  poll_write b t :=
    let n := Z.min (Z.of_nat (mock_room t)) (len b) in
    (Mock (mock_in t) (mock_out t ++ ztake n b) (mock_room t), Ready n);
  poll_write_buf W _ := fun '(t, w) =>
    let n := Z.min (Z.of_nat (mock_room t)) (len (chunk w)) in
    match advance n w with
    | Some w' => ((Mock (mock_in t) (mock_out t ++ ztake n (chunk w)) (mock_room t), w'), Ready n)
    | None => ((t, w), Panicked)
    end;
  io_flush t := (t, Ready tt);
  io_shutdown t := (t, Ready tt);
  is_write_vectored t := true;
}.

Lemma mock_write_buf `{BufLaws W} (w : W) (t : mock) :
  buf_ok w ->
  exists w' n, poll_write_buf (t, w) = ((Mock (mock_in t) (mock_out t ++ ztake n (content w)) (mock_room t), w'), Ready n) /\
    0 <= n <= remaining w /\ advance n w = Some w'.
Proof.
  intros Hw. destruct (buf_chunk_prefix w Hw) as [rest Hrest].
  pose proof (len_nonneg (chunk w)). pose proof (len_nonneg rest).
  set (n := Z.min (Z.of_nat (mock_room t)) (len (chunk w))).
  assert (0 <= n <= len (chunk w)) as Hn by (unfold n; lia).
  assert (0 <= n <= remaining w) as Hnr by (rewrite buf_remaining, Hrest, len_app by done; lia).
  destruct (buf_advance w n Hw Hnr) as (w' & Hw' & _).
  assert (ztake n (content w) = ztake n (chunk w)) as Hc.
  { rewrite Hrest, ztake_app by lia. unfold ztake at 2.
    replace (Z.to_nat (n - len (chunk w))) with 0%nat by lia. by rewrite app_nil_r. }
  exists w', n. split; [|done]. simpl. fold n. by rewrite Hw', Hc.
Qed.

#[export] Instance mock_TransportLaws : TransportLaws mock vec.
Proof.
  refine {| incoming t := concat (map piece (mock_in t)); written := mock_out;
            read_patience t := length (mock_in t) |}.
  - intros [ps out room] v t' v' n. simpl. destruct ps as [|[[b rest]|] ps]; intros [= <- <- <-].
    + exists []. simpl. rewrite app_nil_r. split_and!; done || lia.
    + exists (b :: rest). simpl. split_and!; done || lia.
  - intros [ps out room] v t' v'. simpl. destruct ps as [|[[b rest]|] ps]; intros [= <- <-]; simpl.
    split_and!; done || lia.
  - intros [ps out room] v t' v' e. simpl. by destruct ps as [|[[b rest]|] ps].
  - intros [ps out room] v s. simpl. by destruct ps as [|[[b rest]|] ps].
  - intros b t t' n. simpl. intros [= <- <-]. pose proof (len_nonneg b). split; [lia|done].
  - intros b t t' o [= <- <-] Hn. by destruct (Hn _ eq_refl).
  - done.
  - intros W ? ? w w' t t' n Hw. destruct (mock_write_buf w t Hw) as (w1 & n1 & -> & Hn & Ha).
    intros [= <- <- <-]. done.
  - intros W ? ? w w' t t' o. simpl. destruct (advance _ w); intros [= <- <- <-] Hn; [by destruct (Hn _ eq_refl)|done].
  - intros W ? ? w t s Hw. by destruct (mock_write_buf w t Hw) as (w1 & n1 & -> & _).
  - done.
  - intros W ? w t. simpl. by destruct (advance _ w).
  - done.
  - done.
  - done.
  - done.
Defined.

#[export] Instance mock_TransportInfallible : TransportInfallible mock vec.
Proof. intros [ps out room] v s e. simpl. by destruct ps as [|[[b rest]|] ps]. Qed.

End ConcreteIo.
