(* ===== verification/Buffered.v ===== *)
(** * Buffered

    [proto/http1/io.rs]: the transport with its read and write buffers. The
    adaptive read size, reading (as an instance of the [MemRead] interface the
    body decoder is verified against), and flushing. *)

From stdpp Require Import prelude strings.
From Stdlib Require Import ZArith Lia.
From S2P Require Import Prelude Bytes Crates MemRead BufList WriteBuf Transport.
Local Open Scope Z_scope.

(** ** [enum ReadStrategy] *)

Inductive ReadStrategy : Type :=
| Adaptive (decrease_now : bool) (next max : Z)
| Exact (exact : Z).

Definition rs_with_max (max : Z) : ReadStrategy := Adaptive false INIT_BUFFER_SIZE max.
Definition rs_default : ReadStrategy := rs_with_max DEFAULT_MAX_BUFFER_SIZE.

Definition rs_next (s : ReadStrategy) : Z :=
  match s with Adaptive _ next _ => next | Exact exact => exact end.

Definition rs_max (s : ReadStrategy) : Z :=
  match s with Adaptive _ _ max => max | Exact exact => exact end.

Definition incr_power_of_two (n : Z) : Z := saturating_mul n 2.

(** [usize::leading_zeros]. *)
Definition leading_zeros (n : Z) : Z := if n =? 0 then 64 else 63 - Z.log2 n.

(** [None] where the [debug_assert!] fires. *)
Definition prev_power_of_two (n : Z) : option Z :=
  if 4 <=? n then Some (Z.shiftr USIZE_MAX (leading_zeros n + 2) + 1) else None.

Definition rs_record (bytes_read : Z) (s : ReadStrategy) : option ReadStrategy :=
  match s with
  | Adaptive decrease_now next max =>
      if next <=? bytes_read then Some (Adaptive false (Z.min (incr_power_of_two next) max) max)
      else
        decr_to ← prev_power_of_two next;
        if bytes_read <? decr_to then
          if decrease_now then Some (Adaptive false (Z.max decr_to INIT_BUFFER_SIZE) max)
          else Some (Adaptive true next max)
        else Some (Adaptive false next max)
  | Exact _ => Some s
  end.

(** The next read size stays between the initial and the maximal one. *)
Definition rs_ok (s : ReadStrategy) : Prop :=
  match s with
  | Adaptive _ next max => INIT_BUFFER_SIZE <= next <= max /\ max <= USIZE_MAX
  | Exact exact => 0 <= exact <= USIZE_MAX
  end.

Lemma prev_power_of_two_spec n :
  4 <= n <= USIZE_MAX -> prev_power_of_two n = Some (2 ^ (Z.log2 n - 1)).
Proof.
  intros Hn. unfold prev_power_of_two, leading_zeros.
  rewrite (proj2 (Z.leb_le _ _)), (proj2 (Z.eqb_neq _ _)) by lia. f_equal.
  assert (Z.log2 4 <= Z.log2 n) as H4 by (apply Z.log2_le_mono; lia). change (Z.log2 4) with 2 in H4.
  assert (Z.log2 n <= Z.log2 USIZE_MAX) as H64 by (apply Z.log2_le_mono; lia).
  change (Z.log2 USIZE_MAX) with 63 in H64.
  rewrite Z.shiftr_div_pow2 by lia.
  change USIZE_MAX with (2 ^ 64 - 1). set (k := 63 - Z.log2 n + 2).
  assert (2 ^ 64 = 2 ^ (Z.log2 n - 1) * 2 ^ k) as ->.
  { rewrite <- Z.pow_add_r by (unfold k; lia). f_equal. unfold k. lia. }
  assert (0 < 2 ^ k) by (apply Z.pow_pos_nonneg; unfold k; lia).
  replace (2 ^ (Z.log2 n - 1) * 2 ^ k - 1) with ((2 ^ (Z.log2 n - 1) - 1) * 2 ^ k + (2 ^ k - 1)) by ring.
  rewrite Z.div_add_l, (Z.div_small (2 ^ k - 1)) by lia. lia.
Qed.

(** It is a power of two between a quarter and a half of its argument. *)
Lemma prev_power_of_two_range n d :
  4 <= n <= USIZE_MAX -> prev_power_of_two n = Some d -> 2 * d <= n < 4 * d.
Proof.
  intros Hn. rewrite prev_power_of_two_spec by done. intros [= <-].
  destruct (Z.log2_spec n) as [Hlo Hhi]; [lia|].
  assert (Z.log2 4 <= Z.log2 n) as H4 by (apply Z.log2_le_mono; lia). change (Z.log2 4) with 2 in H4.
  replace (Z.log2 n) with (Z.log2 n - 1 + 1) in Hlo by lia.
  replace (Z.succ (Z.log2 n)) with (Z.log2 n - 1 + 2) in Hhi by lia.
  rewrite Z.pow_add_r in Hlo, Hhi by lia. change (2 ^ 1) with 2 in Hlo. change (2 ^ 2) with 4 in Hhi. lia.
Qed.

Lemma rs_record_ok n s :
  rs_ok s -> 0 <= n -> exists s', rs_record n s = Some s' /\ rs_ok s' /\ rs_max s' = rs_max s.
Proof.
  destruct s as [dn next max|e]; simpl; [|by eauto]. intros [[Hlo Hhi] Hmax] Hn.
  unfold INIT_BUFFER_SIZE in *. destruct (next <=? n) eqn:E; zbool.
  - eexists. split; [done|]. simpl. split; [|done]. unfold incr_power_of_two, saturating_mul, INIT_BUFFER_SIZE. ulia.
  - destruct (prev_power_of_two next) as [d|] eqn:Ed.
    + apply prev_power_of_two_range in Ed; [|ulia]. simpl.
      destruct (n <? d); [destruct dn|]; eexists; (split; [done|]); simpl; unfold INIT_BUFFER_SIZE; (split; [|done]); lia.
    + rewrite prev_power_of_two_spec in Ed by ulia. done.
Qed.

Lemma rs_with_max_ok max : MINIMUM_MAX_BUFFER_SIZE <= max <= USIZE_MAX -> rs_ok (rs_with_max max).
Proof. unfold MINIMUM_MAX_BUFFER_SIZE, rs_ok, rs_with_max. unfold INIT_BUFFER_SIZE. lia. Qed.

(** ** [struct Buffered<T, B>] *)

Record Buffered (T V B : Type) : Type := MkBuffered {
  flush_pipeline : bool;
  io : T;
  partial_len : option Z;
  read_blocked : bool;
  read_buf : V;
  read_buf_strategy : ReadStrategy;
  write_buf : WriteBuf B;
}.
Arguments MkBuffered {T V B} flush_pipeline io partial_len read_blocked read_buf read_buf_strategy write_buf.
Arguments flush_pipeline {T V B} b.
Arguments io {T V B} b.
Arguments partial_len {T V B} b.
Arguments read_blocked {T V B} b.
Arguments read_buf {T V B} b.
Arguments read_buf_strategy {T V B} b.
Arguments write_buf {T V B} b.

Section setters.
Context {T V B : Type}.
Implicit Type b : Buffered T V B.

Definition set_io (x : T) b : Buffered T V B :=
  MkBuffered (flush_pipeline b) x (partial_len b) (read_blocked b) (read_buf b) (read_buf_strategy b) (write_buf b).
Definition set_partial_len (x : option Z) b : Buffered T V B :=
  MkBuffered (flush_pipeline b) (io b) x (read_blocked b) (read_buf b) (read_buf_strategy b) (write_buf b).
Definition set_read_blocked (x : bool) b : Buffered T V B :=
  MkBuffered (flush_pipeline b) (io b) (partial_len b) x (read_buf b) (read_buf_strategy b) (write_buf b).
Definition set_read_buf (x : V) b : Buffered T V B :=
  MkBuffered (flush_pipeline b) (io b) (partial_len b) (read_blocked b) x (read_buf_strategy b) (write_buf b).
Definition set_read_buf_strategy (x : ReadStrategy) b : Buffered T V B :=
  MkBuffered (flush_pipeline b) (io b) (partial_len b) (read_blocked b) (read_buf b) x (write_buf b).
Definition set_write_buf (x : WriteBuf B) b : Buffered T V B :=
  MkBuffered (flush_pipeline b) (io b) (partial_len b) (read_blocked b) (read_buf b) (read_buf_strategy b) x.
End setters.

Section buffered.
Context `{Transport T V} `{Buf B}.
Implicit Type b : Buffered T V B.

Definition buffered_new (t : T) : Buffered T V B :=
  MkBuffered false t None false bm_new rs_default
    (wb_new (if is_write_vectored t then Queue else Flatten)).

(** [None] where the [assert!] or [debug_assert!] of a setter fires. *)
Definition set_max_buf_size (max : Z) b : option (Buffered T V B) :=
  if MINIMUM_MAX_BUFFER_SIZE <=? max then
    Some (set_write_buf
      (MkWriteBuf (headers (write_buf b)) max (queue (write_buf b)) (strategy (write_buf b)))
      (set_read_buf_strategy (rs_with_max max) b))
  else None.

Definition set_read_buf_exact_size (sz : Z) b : Buffered T V B := set_read_buf_strategy (Exact sz) b.

Definition set_write_strategy_flatten b : option (Buffered T V B) :=
  if bufs_cnt (queue (write_buf b)) =? 0
  then Some (set_write_buf (set_strategy Flatten (write_buf b)) b) else None.

Definition set_write_strategy_queue b : option (Buffered T V B) :=
  if bufs_cnt (queue (write_buf b)) =? 0
  then Some (set_write_buf (set_strategy Queue (write_buf b)) b) else None.

Definition read_buf_remaining_mut b : Z := bm_capacity (read_buf b) - len (bm_bytes (read_buf b)).

Definition can_headers_buf b : bool := negb (0 <? remaining (queue (write_buf b))).

(** [headers_buf()]: a mutable borrow of the head vector, here the function
    that runs [f] on it. [None] where [headers_mut] panics. *)
Definition with_headers_buf (f : bytes -> bytes) b : option (Buffered T V B) :=
  c ← headers_mut (write_buf b);
  Some (set_write_buf (set_headers (MkCursor (f (cur_bytes c)) (cur_pos c)) (write_buf b)) b).

Definition buffer {BB} `{Buf BB} (into : BB -> B) (cap : Z) (buf : BB) b : option (Buffered T V B) :=
  w ← wb_buffer into cap buf (write_buf b); Some (set_write_buf w b).

Definition has_buffered_write b : bool := 0 <? wb_remaining (write_buf b).

Definition can_buffer b : bool := flush_pipeline b || wb_can_buffer (write_buf b).

(** The counting loop of [consume_leading_lines]. *)
Fixpoint leading_lines (s : bytes) : Z :=
  match s with
  | c :: s' => if (c =? CR) || (c =? LF) then 1 + leading_lines s' else 0
  | [] => 0
  end.

Definition consume_leading_lines b : option (Buffered T V B) :=
  if decide (bm_bytes (read_buf b) = []) then Some b
  else v ← bm_advance (leading_lines (bm_bytes (read_buf b))) (read_buf b); Some (set_read_buf v b).

Definition poll_read_from_io : M (Buffered T V B) io_error Z := fun b =>
  let b := set_read_blocked false b in
  let next := Z.min (rs_next (read_buf_strategy b))
                (saturating_sub (rs_max (read_buf_strategy b)) (len (bm_bytes (read_buf b)))) in
  let b := if read_buf_remaining_mut b <? next then set_read_buf (bm_reserve next (read_buf b)) b else b in
  match poll_read_buf (io b, read_buf b) with
  | ((t, v), Ready n) =>
      let b := set_read_buf v (set_io t b) in
      match rs_record n (read_buf_strategy b) with
      | Some s => (set_read_buf_strategy s b, Ready n)
      | None => (b, Panicked)
      end
  | ((t, v), Pending) => (set_read_blocked true (set_read_buf v (set_io t b)), Pending)
  | ((t, v), Failed e) => (set_read_buf v (set_io t b), Failed e)
  | ((t, v), Panicked) => (set_read_buf v (set_io t b), Panicked)
  | ((t, v), NoFuel) => (set_read_buf v (set_io t b), NoFuel)
  end.

Definition into_inner b : T * bytes := (io b, bm_bytes (read_buf b)).

Definition is_read_blocked b : bool := read_blocked b.

(** [impl MemRead for Buffered]. *)
#[export] Instance Buffered_MemRead : MemRead (Buffered T V B) := fun n b =>
  if decide (bm_bytes (read_buf b) = []) then
    match poll_read_from_io b with
    | (b', Ready k) =>
        match bm_split_to (Z.min n k) (read_buf b') with
        | Some (out, v) => (set_read_buf v b', Ready out)
        | None => (b', Panicked)
        end
    | (b', Failed e) => (b', Failed e)
    | (b', Pending) => (b', Pending)
    | (b', Panicked) => (b', Panicked)
    | (b', NoFuel) => (b', NoFuel)
    end
  else
    match bm_split_to (Z.min n (len (bm_bytes (read_buf b)))) (read_buf b) with
    | Some (out, v) => (set_read_buf v b, Ready out)
    | None => (b, Panicked)
    end.

(** [Pin::new(&mut self.io).poll_flush(cx)]. *)
Definition flush_io : M (Buffered T V B) io_error unit := zoom io set_io io_flush.

(** The loop of [poll_flush_flattened]. *)
Fixpoint flush_flattened_loop (fuel : nat) : M (Buffered T V B) io_error unit :=
  match fuel with
  | O => fun b => (b, NoFuel)
  | S k =>
      n ← (fun b => zoom io set_io (poll_write (chunk (headers (write_buf b)))) b);
      b ← get;
      h ← expect (advance n (headers (write_buf b)));
      modify (fun b => set_write_buf (set_headers h (write_buf b)) b);;
      if remaining h =? 0 then
        modify (fun b => set_write_buf (set_headers (cursor_reset h) (write_buf b)) b);;
        flush_io
      else if n =? 0 then fail (IoError WriteZero NoPayload)
      else flush_flattened_loop k
  end.

Definition poll_flush_flattened : M (Buffered T V B) io_error unit := fun b =>
  flush_flattened_loop (S (Z.to_nat (remaining (headers (write_buf b))))) b.

(** The loop of [poll_flush] over queued buffers. *)
Fixpoint flush_loop (fuel : nat) : M (Buffered T V B) io_error unit :=
  match fuel with
  | O => fun b => (b, NoFuel)
  | S k =>
      n ← zoom (fun b => (io b, write_buf b)) (fun tw b => set_write_buf tw.2 (set_io tw.1 b)) poll_write_buf;
      b ← get;
      if wb_remaining (write_buf b) =? 0 then flush_io
      else if n =? 0 then fail (IoError WriteZero NoPayload)
      else flush_loop k
  end.

(** [poll_flush]. A round that does not end the loop has written a byte, so the
    bound is never reached. *)
Definition poll_flush : M (Buffered T V B) io_error unit := fun b =>
  if flush_pipeline b && negb (bool_decide (bm_bytes (read_buf b) = [])) then (b, Ready tt)
  else if wb_remaining (write_buf b) =? 0 then flush_io b
  else
    match strategy (write_buf b) with
    | Flatten => poll_flush_flattened b
    | Queue => flush_loop (S (Z.to_nat (wb_remaining (write_buf b)))) b
    end.

Definition poll_shutdown : M (Buffered T V B) io_error unit :=
  poll_flush;; zoom io set_io io_shutdown.
End buffered.
