(* ===== verification/BufferedLaws.v ===== *)
(** * BufferedLaws

    The buffered transport keeps the promises of [MemRead], so everything proved
    of the body decoder holds over it, and its flush neither loses nor repeats a
    byte. *)

From stdpp Require Import prelude strings.
From Stdlib Require Import ZArith Lia.
From S2P Require Import Prelude Bytes Crates MemRead BufList WriteBuf Transport Buffered.
Local Open Scope Z_scope.

Section reading.
Context `{TransportLaws T V} `{!BytesMutLaws V} {B : Type} `{Buf B}.
Implicit Type b : Buffered T V B.

(** What the peer has sent and will send: the unread buffer, then the transport. *)
Definition in_stream b : bytes := bm_bytes (read_buf b) ++ incoming (io b).

(** What reading leaves alone. *)
Definition same_write b b' : Prop :=
  write_buf b' = write_buf b /\ written (io b') = written (io b) /\
  flush_pipeline b' = flush_pipeline b /\ partial_len b' = partial_len b.

(** One read of the transport appends what it delivers to the buffer. *)
Definition read_post b b' (o : outcome io_error Z) : Prop :=
  rs_ok (read_buf_strategy b') /\ same_write b b' /\
  match o with
  | Ready n => exists d, n = len d /\ bm_bytes (read_buf b') = bm_bytes (read_buf b) ++ d /\
      incoming (io b) = d ++ incoming (io b') /\ (d = [] -> incoming (io b) = []) /\
      (read_patience (io b') <= read_patience (io b))%nat /\ read_blocked b' = false
  | Pending => bm_bytes (read_buf b') = bm_bytes (read_buf b) /\ incoming (io b') = incoming (io b) /\
      (read_patience (io b') < read_patience (io b))%nat /\ read_blocked b' = true
  | Failed e => bm_bytes (read_buf b') = bm_bytes (read_buf b) /\ incoming (io b') = incoming (io b)
  | Panicked | NoFuel => False
  end.

Lemma poll_read_from_io_spec b b' o :
  rs_ok (read_buf_strategy b) -> poll_read_from_io b = (b', o) -> read_post b b' o.
Proof.
  intros Hrs. unfold poll_read_from_io.
  set (next := Z.min _ _). set (b1 := if _ <? next then _ else _).
  assert (Hb1 : bm_bytes (read_buf b1) = bm_bytes (read_buf b) /\ io b1 = io b /\ write_buf b1 = write_buf b /\
    read_buf_strategy b1 = read_buf_strategy b /\ flush_pipeline b1 = flush_pipeline b /\
    partial_len b1 = partial_len b /\ read_blocked b1 = false).
  { unfold b1. case_match; simpl; rewrite ?bm_bytes_reserve; done. }
  clearbody b1. destruct Hb1 as (Hb & Hio & Hw & Hs & Hf & Hp & Hrb). rewrite Hio.
  unfold read_post, same_write.
  destruct (poll_read_buf (io b, read_buf b1)) as [[t v] [n|e| | |]] eqn:Er.
  - apply poll_read_buf_ready in Er as (d & -> & Hv & Hin & Hnil & Hwr & Hpat). rewrite Hb in Hv.
    destruct (rs_record_ok (len d) (read_buf_strategy b) Hrs (len_nonneg d)) as (s & Hrec & Hok & _).
    cbn [set_io set_read_buf read_buf_strategy]. rewrite Hs, Hrec.
    intros [= <- <-]. simpl. split_and!; try done. exists d. done.
  - apply poll_read_buf_failed in Er as (Hv & Hin & Hwr). rewrite Hb in Hv.
    intros [= <- <-]. simpl. rewrite Hs. split_and!; done.
  - apply poll_read_buf_pending in Er as (Hv & Hin & Hwr & Hpat). rewrite Hb in Hv.
    intros [= <- <-]. simpl. rewrite Hs. split_and!; done.
  - by apply poll_read_buf_total in Er.
  - by apply poll_read_buf_total in Er.
Qed.

(** What [read_mem] does, by its outcome. *)
Definition read_mem_post (n : Z) b b' (o : outcome io_error bytes) : Prop :=
  rs_ok (read_buf_strategy b') /\ same_write b b' /\
  match o with
  | Ready d => in_stream b = d ++ in_stream b' /\ len d <= n /\ (d = [] -> in_stream b = []) /\
      (read_patience (io b') <= read_patience (io b))%nat
  | Pending => in_stream b' = in_stream b /\ (read_patience (io b') < read_patience (io b))%nat
  | Failed e => in_stream b' = in_stream b
  | Panicked | NoFuel => False
  end.

Lemma read_mem_spec n b b' o :
  rs_ok (read_buf_strategy b) -> 0 < n -> read_mem n b = (b', o) -> read_mem_post n b b' o.
Proof.
  intros Hrs Hn. unfold read_mem, Buffered_MemRead, read_mem_post, in_stream.
  destruct (decide (bm_bytes (read_buf b) = [])) as [Hnil|Hne].
  - rewrite Hnil. destruct (poll_read_from_io b) as [b1 o1] eqn:Er.
    apply poll_read_from_io_spec in Er as (Hok & Hsame & Hpost); [|done].
    destruct o1 as [k|e| | |]; try done.
    + destruct Hpost as (d & -> & Hv & Hin & Heof & Hpat & _). rewrite Hnil in Hv. simpl in Hv.
      pose proof (len_nonneg d).
      destruct (bm_split_to_spec (Z.min n (len d)) (read_buf b1)) as (v & -> & Hv'); [rewrite Hv; lia|].
      intros [= <- <-]. simpl. rewrite Hv', Hv. split_and!; try done.
      * by rewrite app_assoc, ztake_zdrop.
      * rewrite len_ztake by lia. lia.
      * intros Hd. apply Heof. destruct d as [|x d]; [done|]. exfalso.
        apply (f_equal len) in Hd. rewrite len_ztake in Hd by lia. rewrite len_cons in Hd.
        pose proof (len_nonneg d). change (len []) with 0 in Hd. lia.
    + destruct Hpost as (Hv & Hin). intros [= <- <-]. rewrite Hv, Hnil, Hin. done.
    + destruct Hpost as (Hv & Hin & Hpat & _). intros [= <- <-]. rewrite Hv, Hnil, Hin. done.
  - pose proof (len_pos _ Hne). pose proof (len_nonneg (bm_bytes (read_buf b))).
    destruct (bm_split_to_spec (Z.min n (len (bm_bytes (read_buf b)))) (read_buf b)) as (v & -> & Hv'); [lia|].
    intros [= <- <-]. simpl. rewrite Hv'. split_and!; try done.
    + by rewrite app_assoc, ztake_zdrop.
    + rewrite len_ztake by lia. lia.
    + intros Hd. by apply ztake_nonnil in Hd; [|lia|done].
Qed.

(** The promises of [MemRead]: a reader whose stream is [in_stream]. *)
#[export] Instance Buffered_MemReadLaws : MemReadLaws (Buffered T V B).
Proof.
  refine {| stream := in_stream; patience b := read_patience (io b);
            reader_ok b := rs_ok (read_buf_strategy b) |};
    intros r n r'; intros; first
      [ match goal with Hr : read_mem _ _ = _ |- _ => by apply read_mem_spec in Hr as (? & ? & ?) end
      | intros Hr; by apply read_mem_spec in Hr as (? & ? & ?) ].
Defined.

#[export] Instance Buffered_MemReadInfallible `{!TransportInfallible T V} :
  MemReadInfallible (Buffered T V B).
Proof.
  intros b n b' e. unfold read_mem, Buffered_MemRead. destruct (decide _).
  - destruct (poll_read_from_io b) as [b1 o1] eqn:Er. destruct o1 as [k|e'| | |]; try done.
    { by destruct (bm_split_to _ _) as [[]|]. }
    exfalso. unfold poll_read_from_io in Er.
    destruct (poll_read_buf _) as [[t v] [n'|e''| | |]] eqn:Ep in Er; try done.
    + by destruct (rs_record _ _) in Er.
    + by apply poll_read_buf_infallible in Ep.
  - by destruct (bm_split_to _ _) as [[]|].
Qed.
End reading.

Section flushing.
Context `{TransportLaws T V} `{!BytesMutLaws V} `{BufLaws B}.
Implicit Type b : Buffered T V B.

(** Everything accepted for writing so far: what the transport took, then what
    is still buffered. *)
Definition out_stream b : bytes := written (io b) ++ wb_content (write_buf b).

(** What a flush leaves alone: the bytes to write as a whole, and reading. *)
Definition flush_frame b b' : Prop :=
  out_stream b' = out_stream b /\ wb_ok (write_buf b') /\
  strategy (write_buf b') = strategy (write_buf b) /\
  max_buf_size (write_buf b') = max_buf_size (write_buf b) /\
  in_stream b' = in_stream b /\ read_patience (io b') = read_patience (io b) /\
  read_buf b' = read_buf b /\ read_buf_strategy b' = read_buf_strategy b /\
  flush_pipeline b' = flush_pipeline b /\ partial_len b' = partial_len b.

Definition flush_post b b' (o : outcome io_error unit) : Prop :=
  flush_frame b b' /\
  match o with
  | Ready _ => wb_content (write_buf b') = []
  | Panicked | NoFuel => False
  | _ => True
  end.

Lemma flush_frame_refl b : wb_ok (write_buf b) -> flush_frame b b.
Proof. intros Hw. repeat split; try done; apply Hw. Qed.

Lemma flush_frame_trans b1 b2 b3 : flush_frame b1 b2 -> flush_frame b2 b3 -> flush_frame b1 b3.
Proof. unfold flush_frame. intuition congruence. Qed.

Lemma flush_io_spec b b' o :
  wb_ok (write_buf b) -> wb_content (write_buf b) = [] -> flush_io b = (b', o) -> flush_post b b' o.
Proof.
  intros Hw Hc. unfold flush_io, zoom. destruct (io_flush (io b)) as [t o'] eqn:Ef. intros [= <- <-].
  pose proof (io_flush_streams (io b)) as (Hin & Hwr & Hpat). rewrite Ef in *. simpl in *.
  split.
  - repeat split; simpl; unfold out_stream, in_stream; simpl; try congruence; apply Hw.
  - pose proof (io_flush_total (io b) t) as [Hp Hf]. rewrite Ef in *. destruct o'; done.
Qed.

(** One accepted write of [n] bytes of the buffered ones. *)
Lemma flush_frame_write b t w n :
  wb_ok (write_buf b) -> wb_ok w -> 0 <= n ->
  wb_content w = zdrop n (wb_content (write_buf b)) ->
  strategy w = strategy (write_buf b) -> max_buf_size w = max_buf_size (write_buf b) ->
  written t = written (io b) ++ ztake n (wb_content (write_buf b)) ->
  incoming t = incoming (io b) -> read_patience t = read_patience (io b) ->
  flush_frame b (set_write_buf w (set_io t b)).
Proof.
  intros Hb Hw Hn Hc Hs Hm Hwr Hin Hpat. repeat split; try done; try apply Hw.
  - unfold out_stream. simpl. by rewrite Hwr, Hc, <- app_assoc, ztake_zdrop.
  - unfold in_stream. simpl. by rewrite Hin.
Qed.

(** A write that was not accepted. *)
Lemma flush_frame_unready b t :
  wb_ok (write_buf b) -> written t = written (io b) ->
  incoming t = incoming (io b) -> read_patience t = read_patience (io b) ->
  flush_frame b (set_io t b).
Proof.
  intros Hb Hwr Hin Hpat. repeat split; try done; try apply Hb.
  - unfold out_stream. simpl. by rewrite Hwr.
  - unfold in_stream. simpl. by rewrite Hin.
Qed.

(** Under [Flatten] the content is that of the head cursor alone. *)
Lemma wb_flat_set (w : WriteBuf B) h :
  wb_ok w -> strategy w = Flatten -> cursor_ok h ->
  wb_ok (set_headers h w) /\ wb_content (set_headers h w) = cursor_content h.
Proof.
  intros Hw Hs Hh. split; [split; [done|apply Hw..]|].
  unfold wb_content. change (content (queue ?x)) with (bl_content (queue x)).
  unfold bl_content. simpl. rewrite (wb_flat _ Hw Hs). apply app_nil_r.
Qed.

Lemma flush_flattened_loop_spec fuel b b' o :
  wb_ok (write_buf b) -> strategy (write_buf b) = Flatten -> wb_content (write_buf b) ≠ [] ->
  (length (wb_content (write_buf b)) < fuel)%nat ->
  flush_flattened_loop fuel b = (b', o) -> flush_post b b' o.
Proof.
  revert b. induction fuel as [|k IH]; intros b Hw Hs Hne Hfuel; [lia|].
  cbn [flush_flattened_loop]. unfold mbind, M_bind, zoom, get, modify.
  pose proof (wb_headers_ok _ Hw) as Hh0.
  assert (wb_content (write_buf b) = cursor_content (headers (write_buf b))) as Hflat.
  { pose proof (wb_flat_set (write_buf b) (headers (write_buf b)) Hw Hs Hh0) as [_ <-].
    by destruct (write_buf b). }
  change (chunk (headers (write_buf b))) with (cursor_content (headers (write_buf b))). rewrite <- Hflat.
  pose proof (poll_write_incoming (wb_content (write_buf b)) (io b)) as [Hin Hpat].
  pose proof (poll_write_total (wb_content (write_buf b)) (io b)) as Htot.
  destruct (poll_write (wb_content (write_buf b)) (io b)) as [t [n|e| | |]] eqn:Ew;
    simpl in Hin, Hpat; try by destruct (Htot t).
  - apply poll_write_ready in Ew as [Hn Hwr].
    pose proof (buf_advance (B := Cursor) (headers (write_buf b)) n) as Hadv.
    destruct (Hadv Hh0) as (h & Hh & Hhok & Hhc).
    { rewrite (buf_remaining (B := Cursor)) by apply Hw.
      change (content (headers (write_buf b))) with (cursor_content (headers (write_buf b))).
      by rewrite <- Hflat. }
    cbn [set_io write_buf]. rewrite Hh. cbn [expect]. unfold mret, M_ret.
    change (content h = zdrop n (cursor_content (headers (write_buf b)))) in Hhc. rewrite <- Hflat in Hhc.
    destruct (wb_flat_set (write_buf b) h Hw Hs Hhok) as [Hw1 Hc1].
    set (w1 := set_headers h (write_buf b)) in *. change (cursor_content h) with (content h) in Hc1.
    rewrite Hhc in Hc1.
    pose proof (flush_frame_write b t w1 n Hw Hw1 ltac:(lia) Hc1 eq_refl eq_refl Hwr Hin Hpat) as Hfr.
    pose proof (buf_remaining (B := Cursor) h Hhok) as ->. rewrite Hhc.
    destruct (len (zdrop n (wb_content (write_buf b))) =? 0) eqn:E0; zbool.
    + apply len_zero in E0. rewrite E0 in Hc1.
      destruct (wb_flat_set w1 (cursor_reset h) Hw1 Hs ltac:(done)) as [Hw2 Hc2].
      intros Hfl. apply flush_io_spec in Hfl as [Hfr2 Ho]; [|done|done].
      split; [|done]. eapply flush_frame_trans; [exact Hfr|]. eapply flush_frame_trans; [|exact Hfr2].
      repeat split; try done; try apply Hw2.
      unfold out_stream. simpl. f_equal. etransitivity; [exact Hc2|symmetry; exact Hc1].
    + destruct (n =? 0) eqn:En; zbool.
      * intros [= <- <-]. split; [exact Hfr|done].
      * intros Hl. apply IH in Hl as [Hfr2 Ho]; [|done|done| |].
        -- split; [|done]. by eapply flush_frame_trans.
        -- change (wb_content w1 ≠ []). rewrite Hc1. by intros Hz; rewrite Hz in E0.
        -- change (length (wb_content w1) < k)%nat. rewrite Hc1. unfold zdrop. rewrite length_drop.
           unfold len in Hn. lia.
  - apply poll_write_unready in Ew as Hwr; [|done]. intros [= <- <-]. split; [|done].
    by apply flush_frame_unready.
  - apply poll_write_unready in Ew as Hwr; [|done]. intros [= <- <-]. split; [|done].
    by apply flush_frame_unready.
Qed.

Lemma wb_advance_strategy n (w w' : WriteBuf B) :
  wb_advance n w = Some w' -> strategy w' = strategy w /\ max_buf_size w' = max_buf_size w.
Proof.
  unfold wb_advance. destruct (_ ?= n).
  - intros [= <-]. done.
  - destruct (advance (n - _) (queue w)); [|done]. intros [= <-]. done.
  - destruct (advance n (headers w)); [|done]. intros [= <-]. done.
Qed.

Lemma flush_loop_spec fuel b b' o :
  wb_ok (write_buf b) -> wb_content (write_buf b) ≠ [] ->
  (length (wb_content (write_buf b)) < fuel)%nat ->
  flush_loop fuel b = (b', o) -> flush_post b b' o.
Proof.
  revert b. induction fuel as [|k IH]; intros b Hw Hne Hfuel; [lia|].
  cbn [flush_loop]. unfold mbind, M_bind, zoom, get.
  pose proof (poll_write_buf_incoming (WriteBuf B) (write_buf b) (io b)) as [Hin Hpat].
  pose proof (poll_write_buf_total (WriteBuf B) (write_buf b) (io b)) as Htot.
  destruct (poll_write_buf (io b, write_buf b)) as [[t w] [n|e| | |]] eqn:Ew;
    simpl in Hin, Hpat; try by destruct (Htot (t, w) Hw).
  - apply (poll_write_buf_ready (WriteBuf B)) in Ew as (Hn & Hadv & Hwr); [|done].
    pose proof (buf_advance (B := WriteBuf B) (write_buf b) n) as Ha.
    destruct (Ha Hw Hn) as (w1 & Hw1 & Hok & Hc). rewrite Hadv in Hw1. injection Hw1 as <-.
    apply wb_advance_strategy in Hadv as [Hs Hm].
    pose proof (flush_frame_write b t w n Hw Hok ltac:(lia) Hc Hs Hm Hwr Hin Hpat) as Hfr.
    cbn [fst snd]. change (wb_remaining (write_buf (set_write_buf w (set_io t b)))) with (remaining w).
    pose proof (buf_remaining (B := WriteBuf B) w Hok) as ->.
    pose proof (buf_remaining (B := WriteBuf B) (write_buf b) Hw) as Hrem.
    change (content w) with (wb_content w) in *. change (content (write_buf b)) with (wb_content (write_buf b)) in *.
    destruct (len (wb_content w) =? 0) eqn:E0; zbool.
    + apply len_zero in E0. intros Hfl. apply flush_io_spec in Hfl as [Hfr2 Ho]; [|done|done].
      split; [|done]. by eapply flush_frame_trans.
    + destruct (n =? 0) eqn:En; zbool.
      * intros [= <- <-]. split; [exact Hfr|done].
      * intros Hl. apply IH in Hl as [Hfr2 Ho]; [|done| |].
        -- split; [|done]. by eapply flush_frame_trans.
        -- change (wb_content w ≠ []). by intros Hz; rewrite Hz in E0.
        -- change (length (wb_content w) < k)%nat. rewrite Hc. unfold zdrop. rewrite length_drop.
           unfold len in Hrem. lia.
  - apply (poll_write_buf_unready (WriteBuf B)) in Ew as [-> Hwr]; [|done]. intros [= <- <-].
    split; [|done]. exact (flush_frame_unready b t Hw Hwr Hin Hpat).
  - apply (poll_write_buf_unready (WriteBuf B)) in Ew as [-> Hwr]; [|done]. intros [= <- <-].
    split; [|done]. exact (flush_frame_unready b t Hw Hwr Hin Hpat).
Qed.

Lemma poll_flush_spec b b' o :
  wb_ok (write_buf b) -> poll_flush b = (b', o) ->
  (o = Ready tt /\ b' = b /\ flush_pipeline b = true /\ bm_bytes (read_buf b) ≠ []) \/
  flush_post b b' o.
Proof.
  intros Hw. unfold poll_flush.
  destruct (flush_pipeline b && negb (bool_decide (bm_bytes (read_buf b) = []))) eqn:Ep.
  { zbool. intros [= <- <-]. left. split_and!; try done. by eapply bool_decide_eq_false. }
  change (wb_remaining (write_buf b)) with (remaining (write_buf b)).
  pose proof (buf_remaining (B := WriteBuf B) (write_buf b) Hw) as Hrem. rewrite Hrem.
  change (content (write_buf b)) with (wb_content (write_buf b)) in *.
  destruct (len (wb_content (write_buf b)) =? 0) eqn:E0; zbool; intros Hfl; right.
  { apply len_zero in E0. by apply flush_io_spec in Hfl. }
  assert (wb_content (write_buf b) ≠ []) as Hne by (by intros Hz; rewrite Hz in E0).
  destruct (strategy (write_buf b)) eqn:Es.
  - unfold poll_flush_flattened in Hfl. eapply flush_flattened_loop_spec; [done|done|done| |exact Hfl].
    rewrite (buf_remaining (B := Cursor)) by apply Hw.
    destruct (wb_flat_set (write_buf b) (headers (write_buf b)) Hw Es (wb_headers_ok _ Hw)) as [_ Hc].
    assert (wb_content (write_buf b) = cursor_content (headers (write_buf b))) as ->
      by (rewrite <- Hc; by destruct (write_buf b)).
    change (content (headers (write_buf b))) with (cursor_content (headers (write_buf b))). unfold len. lia.
  - eapply flush_loop_spec; [done|done| |exact Hfl]. unfold len. lia.
Qed.
End flushing.

(** ** What the buffered transport guarantees *)

(** Flushing neither loses, repeats nor reorders a byte. Whatever the
    transport accepts of each write, and whether the flush completes, fails or
    has to be polled again, the bytes the transport has taken followed by those
    still buffered are the same before and after, the read side is untouched,
    and a completed flush leaves nothing buffered (unless pipelining defers it
    to the pending input). The flush loop always ends and never panics. *)
Theorem flush_no_loss `{TransportLaws T V} `{!BytesMutLaws V} `{BufLaws B} (b b' : Buffered T V B) o :
  wb_ok (write_buf b) -> poll_flush b = (b', o) ->
  written (io b') ++ wb_content (write_buf b') = written (io b) ++ wb_content (write_buf b) /\
  wb_ok (write_buf b') /\ in_stream b' = in_stream b /\ o ≠ Panicked /\ o ≠ NoFuel /\
  (o = Ready tt -> wb_content (write_buf b') = [] \/
     (flush_pipeline b = true /\ bm_bytes (read_buf b) ≠ [])).
Proof.
  intros Hw Hfl. destruct (poll_flush_spec b b' o Hw Hfl) as [(-> & -> & Hp & Hne)|[Hfr Ho]].
  - split_and!; try done. auto.
  - destruct Hfr as (Hout & Hok & _ & _ & Hin & _).
    split_and!; try done; try by destruct o. intros ->. by left.
Qed.

(** Reading through the buffer gives the peer's bytes in order: [read_mem]
    yields a non-empty prefix of the unread stream (empty only at its end) of at
    most the length asked for, keeps the rest, and does not touch the write
    side; when it yields nothing the stream is unchanged. *)
Theorem read_mem_in_order `{TransportLaws T V} `{!BytesMutLaws V} `{Buf B} (b b' : Buffered T V B) n o :
  rs_ok (read_buf_strategy b) -> 0 < n -> read_mem n b = (b', o) ->
  rs_ok (read_buf_strategy b') /\ write_buf b' = write_buf b /\ written (io b') = written (io b) /\
  match o with
  | Ready d => in_stream b = d ++ in_stream b' /\ len d <= n /\ (d = [] -> in_stream b = [])
  | Pending | Failed _ => in_stream b' = in_stream b
  | Panicked | NoFuel => False
  end.
Proof.
  intros Hrs Hn Hr. apply read_mem_spec in Hr as (Hok & (Hw & Hwr & _) & Hpost); [|done|done].
  split_and!; try done. destruct o; try done; [by destruct Hpost as (? & ? & ? & ?)|apply Hpost].
Qed.

(** [record] over a sequence of read sizes. *)
Fixpoint rs_record_all (ns : list Z) (s : ReadStrategy) : option ReadStrategy :=
  match ns with [] => Some s | n :: ns' => s' ← rs_record n s; rs_record_all ns' s' end.

(** The adaptive read size never leaves its bounds: from the initial
    strategy with any admissible maximum, no sequence of reads makes [record]
    panic or overflow, and the next allocation stays between the initial buffer
    size and the configured maximum. *)
Theorem read_strategy_bounded max ns :
  MINIMUM_MAX_BUFFER_SIZE <= max <= USIZE_MAX -> Forall (fun n => 0 <= n) ns ->
  exists s, rs_record_all ns (rs_with_max max) = Some s /\ rs_max s = max /\
    INIT_BUFFER_SIZE <= rs_next s <= max.
Proof.
  intros Hmax Hns.
  assert (Hgen : forall s, rs_ok s -> exists s', rs_record_all ns s = Some s' /\ rs_ok s' /\ rs_max s' = rs_max s).
  { induction Hns as [|n ns Hn _ IH]; intros s Hs; simpl; [by eauto|].
    destruct (rs_record_ok n s Hs Hn) as (s1 & -> & Hs1 & Hm1). simpl.
    destruct (IH s1 Hs1) as (s2 & -> & Hs2 & Hm2). exists s2. split_and!; congruence || done. }
  destruct (Hgen _ (rs_with_max_ok max Hmax)) as (s & Hr & Hok & Hm). exists s. simpl in Hm.
  destruct s as [dn next mx|e]; simpl in *.
  - subst mx. split_and!; try done; lia.
  - exfalso. clear -Hr. assert (Hk : forall s, (exists dn n m, s = Adaptive dn n m) ->
      rs_record_all ns s ≠ Some (Exact e)).
    { clear. induction ns as [|n ns IH]; intros s (dn & nx & m & ->); simpl; [done|].
      destruct (nx <=? n); [simpl; apply IH; eauto|].
      destruct (prev_power_of_two nx); simpl; [|done].
      repeat case_match; simpl; apply IH; eauto. }
    eapply Hk; [|exact Hr]. unfold rs_with_max. eauto.
Qed.

Section witnesses.
Import ConcreteIo.

Definition demo_io (s : WriteStrategy) : Buffered mock vec bytes :=
  MkBuffered false (Mock [None; Some (80, [79])] [] 2) None false (Vec [] 0) rs_default
    (MkWriteBuf (MkCursor [0; 1; 2; 3] 1) 8192 (if decide (s = Queue) then MkBufList [[4; 5]] 2 else bl_new) s).

Lemma demo_io_ok s : wb_ok (write_buf (demo_io s)).
Proof.
  destruct s; split; simpl; try done; try apply bl_new_ok.
  all: split; [repeat constructor; done|done].
Qed.

Lemma flush_no_loss_witness :
  written (io (poll_flush (demo_io Queue)).1) ++ wb_content (write_buf (poll_flush (demo_io Queue)).1) =
    [1; 2; 3; 4; 5] /\
  ((poll_flush (demo_io Queue)).2 = Ready tt -> wb_content (write_buf (poll_flush (demo_io Queue)).1) = [] \/
     (false = true /\ bm_bytes (Vec [] 0) ≠ [])).
Proof.
  destruct (flush_no_loss (demo_io Queue) _ _ (demo_io_ok Queue) (surjective_pairing _))
    as (Hout & _ & _ & _ & _ & Hready). split; [exact Hout|exact Hready].
Defined.

Lemma read_mem_in_order_witness :
  match read_mem 1 (demo_io Flatten) with
  | (b', Ready d) => in_stream (demo_io Flatten) = d ++ in_stream b'
  | (b', Pending) => in_stream b' = in_stream (demo_io Flatten)
  | _ => False
  end.
Proof.
  pose proof (read_mem_in_order (demo_io Flatten) _ 1 _ (rs_with_max_ok DEFAULT_MAX_BUFFER_SIZE ltac:(split; done)) eq_refl
    (surjective_pairing _)) as H. exact (proj2 (proj2 (proj2 H))).
Defined.

Lemma read_strategy_bounded_witness :
  exists s, rs_record_all [8192; 100; 100] (rs_with_max 65536) = Some s /\ rs_max s = 65536 /\
    8192 <= rs_next s <= 65536.
Proof. apply (read_strategy_bounded 65536); [split; done|]. repeat constructor; done. Defined.
End witnesses.
