(* ===== verification/Encode.v ===== *)
(** * Encode

    [proto/http1/encode.rs]: the body encoder, the buffers it produces and the
    fixed array a chunk-size line is formatted into, with [write_headers] of
    [proto/http1/role.rs]. *)

From stdpp Require Import prelude strings.
From Stdlib Require Import ZArith Lia.
From S2P Require Import Prelude Bytes Crates Headers BufList WriteBuf.
Local Open Scope Z_scope.

(** ** [struct ChunkSize] *)

Definition USIZE_BYTES : Z := 8.
Definition CHUNK_SIZE_MAX_BYTES : Z := USIZE_BYTES * 2.

Record ChunkSize : Type := MkChunkSize { cs_bytes : bytes; cs_pos : Z; cs_len : Z }.

(** [write_str]: into the array from [len] on; [None] where [write_all] runs out
    of room and [expect] panics. *)
Definition cs_write_str (num : bytes) (c : ChunkSize) : option ChunkSize :=
  if cs_len c + len num <=? len (cs_bytes c) then
    Some (MkChunkSize
      (ztake (cs_len c) (cs_bytes c) ++ num ++ zdrop (cs_len c + len num) (cs_bytes c))
      (cs_pos c) ((cs_len c + len num) mod 256))
  else None.

(** [ChunkSize::new]: [write!(size, "{len:X}\r\n")]. *)
Definition cs_new (n : Z) : option ChunkSize :=
  c ← cs_write_str (to_hex n) (MkChunkSize (replicate (Z.to_nat (CHUNK_SIZE_MAX_BYTES + 2)) 0) 0 0);
  cs_write_str CRLF c.

#[export] Instance ChunkSize_Buf : Buf ChunkSize := {
  remaining c := cs_len c - cs_pos c;
  chunk c := zdrop (cs_pos c) (ztake (cs_len c) (cs_bytes c));
  advance cnt c :=
    if cnt <=? cs_len c - cs_pos c then Some (MkChunkSize (cs_bytes c) (cs_pos c + cnt) (cs_len c)) else None;
}.

Definition cs_ok (c : ChunkSize) : Prop := 0 <= cs_pos c <= cs_len c /\ cs_len c <= len (cs_bytes c).

#[export] Instance ChunkSize_BufLaws : BufLaws ChunkSize.
Proof.
  refine {| buf_ok := cs_ok; content c := zdrop (cs_pos c) (ztake (cs_len c) (cs_bytes c)) |}; unfold cs_ok.
  - intros c Hc. simpl. rewrite len_zdrop, len_ztake by lia. lia.
  - intros c _. exists []. by rewrite app_nil_r.
  - done.
  - intros c n Hc Hn. simpl in *. rewrite (proj2 (Z.leb_le _ _)) by lia.
    eexists. split; [done|]. simpl. split; [lia|]. by rewrite zdrop_zdrop by lia.
Defined.

(** The array has room for every [usize], and then holds its size line. *)
Lemma cs_new_spec n :
  is_u64 n -> exists c, cs_new n = Some c /\ cs_ok c /\ content c = to_hex n ++ CRLF.
Proof.
  intros Hn. pose proof (to_hex_length n Hn) as Hlen. pose proof (len_nonneg (to_hex n)).
  unfold cs_new, cs_write_str. cbn [cs_len cs_bytes cs_pos].
  set (z := replicate _ 0). assert (Hz : len z = 18) by done.
  rewrite (proj2 (Z.leb_le _ _)) by lia. cbn [mbind option_bind cs_len cs_bytes cs_pos].
  rewrite (Z.mod_small (0 + len (to_hex n))) by lia. rewrite !Z.add_0_l.
  change (ztake 0 z) with (@nil Z). rewrite app_nil_l, len_app, len_zdrop by lia.
  change (len CRLF) with 2. rewrite (proj2 (Z.leb_le _ _)) by lia.
  rewrite (Z.mod_small (len (to_hex n) + 2)), ztake_len_app by lia.
  eexists. split; [done|]. split.
  - unfold cs_ok. cbn [cs_pos cs_len cs_bytes].
    rewrite !len_app. change (len CRLF) with 2. pose proof (len_nonneg (zdrop (len (to_hex n) + 2) (to_hex n ++ zdrop (len (to_hex n)) z))). lia.
  - cbn [content ChunkSize_BufLaws cs_pos cs_len cs_bytes]. rewrite zdrop_0, (app_assoc (to_hex n) CRLF).
    replace (len (to_hex n) + 2) with (len (to_hex n ++ CRLF)) by (by rewrite len_app).
    by rewrite ztake_len_app.
Qed.

(** ** [struct EncodedBuf<B>] *)

Section encode.
Context `{BufCombinators}.

Inductive BufKind (B : Type) : Type :=
| KExact (b : B)
| KLimited (b : Take B)
| KChunked (b : Chain (Chain ChunkSize B) bytes)
| KChunkedEnd (b : bytes)
| KTrailers (b : Chain (Chain bytes bytes) bytes).

Record EncodedBuf (B : Type) : Type := MkEncodedBuf { eb_kind : BufKind B }.
End encode.
Arguments KExact {_ B} b.
Arguments KLimited {_ B} b.
Arguments KChunked {_ B} b.
Arguments KChunkedEnd {_ B} b.
Arguments KTrailers {_ B} b.
Arguments MkEncodedBuf {_ B} eb_kind.
Arguments eb_kind {_ B} e.

Section encoded_buf.
Context `{BufCombinators} `{Buf B}.

#[export] Instance EncodedBuf_Buf : Buf (EncodedBuf B) := {
  remaining e :=
    match eb_kind e with
    | KExact b => remaining b
    | KLimited b => remaining b
    | KChunked b => remaining b
    | KChunkedEnd b => remaining b
    | KTrailers b => remaining b
    end;
  chunk e :=
    match eb_kind e with
    | KExact b => chunk b
    | KLimited b => chunk b
    | KChunked b => chunk b
    | KChunkedEnd b => chunk b
    | KTrailers b => chunk b
    end;
  advance cnt e :=
    match eb_kind e with
    | KExact b => b' ← advance cnt b; Some (MkEncodedBuf (KExact b'))
    | KLimited b => b' ← advance cnt b; Some (MkEncodedBuf (KLimited b'))
    | KChunked b => b' ← advance cnt b; Some (MkEncodedBuf (KChunked b'))
    | KChunkedEnd b => b' ← advance cnt b; Some (MkEncodedBuf (KChunkedEnd b'))
    | KTrailers b => b' ← advance cnt b; Some (MkEncodedBuf (KTrailers b'))
    end;
}.

(** The conversions [From<B>], [From<Take<B>>] and [From<Chain<..>>]. *)
Definition from_exact (b : B) : EncodedBuf B := MkEncodedBuf (KExact b).
Definition from_take (b : Take B) : EncodedBuf B := MkEncodedBuf (KLimited b).
Definition from_chain (b : Chain (Chain ChunkSize B) bytes) : EncodedBuf B := MkEncodedBuf (KChunked b).
End encoded_buf.

(** ** [struct Encoder] *)

Inductive EncKind : Type :=
| EncChunked (trailers : option (list bytes))
| EncLength (remaining : Z).

Record Encoder : Type := MkEncoder { enc_kind : EncKind; is_last : bool }.

Definition encoder_new (k : EncKind) : Encoder := MkEncoder k false.
Definition encoder_chunked : Encoder := encoder_new (EncChunked None).
Definition encoder_length (n : Z) : Encoder := encoder_new (EncLength n).

Definition into_chunked_with_trailing_fields (trailers : list bytes) (e : Encoder) : Encoder :=
  match enc_kind e with
  | EncChunked _ => MkEncoder (EncChunked (Some trailers)) (is_last e)
  | _ => e
  end.

Definition encoder_is_eof (e : Encoder) : bool :=
  match enc_kind e with EncLength n => n =? 0 | _ => false end.

Definition encoder_is_chunked (e : Encoder) : bool :=
  match enc_kind e with EncChunked _ => true | _ => false end.

Definition is_close_delimited (e : Encoder) : bool := false.

(** [struct NotEof(u64)]. *)
Record NotEof : Type := MkNotEof { missing : Z }.

(** [is_valid_trailer_field]. *)
Definition INVALID_TRAILERS : list bytes := Eval vm_compute in
  map bs ["authorization"; "cache-control"; "content-encoding"; "content-length"; "content-range";
          "content-type"; "host"; "max-forwards"; "set-cookie"; "trailer"; "transfer-encoding"; "te"].

Definition is_valid_trailer_field (name : bytes) : bool := negb (bool_decide (name ∈ INVALID_TRAILERS)).

Section encoder.
Context `{BufCombinators} `{Buf B} `{HeaderMap Hm}.

(** [write_headers] of [role.rs]. *)
Definition write_headers (headers : Hm) (dst : bytes) : bytes :=
  fold_left (fun dst '(name, value) => dst ++ name ++ bs ": " ++ value ++ CRLF) (hm_iter headers) dst.

Definition encoder_end (e : Encoder) : result NotEof (option (EncodedBuf B)) :=
  match enc_kind e with
  | EncLength n => if n =? 0 then Ok None else Err (MkNotEof n)
  | EncChunked _ => Ok (Some (MkEncodedBuf (KChunkedEnd (bs "0" ++ CRLF ++ CRLF))))
  end.

(** [encode]: [None] where an assertion fails. *)
Definition encode (msg : B) (e : Encoder) : option (EncodedBuf B * Encoder) :=
  let n := remaining msg in
  if negb (0 <? n) then None
  else
    match enc_kind e with
    | EncChunked _ =>
        size ← cs_new n;
        Some (MkEncodedBuf (KChunked (chain (chain size msg) CRLF)), e)
    | EncLength rem =>
        if rem <? n then
          Some (MkEncodedBuf (KLimited (take_buf msg rem)), MkEncoder (EncLength 0) (is_last e))
        else Some (MkEncodedBuf (KExact msg), MkEncoder (EncLength (rem - n)) (is_last e))
    end.

(** The loop of [encode_trailers] over [into_iter]; [None] where it starts
    without a name and [expect] panics. *)
Fixpoint allowed_trailers (allowed : list bytes) (cur_name : option bytes)
    (trailers : list (option bytes * bytes)) (acc : Hm) : option Hm :=
  match trailers with
  | [] => Some acc
  | (opt_name, value) :: rest =>
      let cur_name := match opt_name with Some n => Some n | None => cur_name end in
      name ← cur_name;
      allowed_trailers allowed cur_name rest
        (if bool_decide (name ∈ allowed) && is_valid_trailer_field name then hm_append name value acc else acc)
  end.

(** [encode_trailers]: the outer option is the panic, the inner one the result. *)
Definition encode_trailers (trailers : Hm) (e : Encoder) : option (option (EncodedBuf B)) :=
  match enc_kind e with
  | EncChunked (Some allowed) =>
      h ← allowed_trailers allowed None (hm_into_iter trailers) hm_new;
      let buf := write_headers h [] in
      if decide (buf = []) then Some None
      else Some (Some (MkEncodedBuf (KTrailers (chain (chain (bs "0" ++ CRLF) buf) CRLF))))
  | EncChunked None => Some None
  | _ => Some None
  end.

(** [encode_and_end], into the write buffer whose head vector has capacity
    [cap]: whether the connection can be reused, and the new write buffer. *)
Definition encode_and_end (cap : Z) (msg : B) (e : Encoder) (dst : WriteBuf (EncodedBuf B))
  : option (bool * WriteBuf (EncodedBuf B)) :=
  let n := remaining msg in
  if negb (0 <? n) then None
  else
    match enc_kind e with
    | EncChunked _ =>
        size ← cs_new n;
        dst' ← wb_buffer from_chain cap (chain (chain size msg) (CRLF ++ bs "0" ++ CRLF ++ CRLF)) dst;
        Some (negb (is_last e), dst')
    | EncLength rem =>
        match n ?= rem with
        | Eq => dst' ← wb_buffer from_exact cap msg dst; Some (negb (is_last e), dst')
        | Gt => dst' ← wb_buffer from_take cap (take_buf msg rem) dst; Some (negb (is_last e), dst')
        | Lt => dst' ← wb_buffer from_exact cap msg dst; Some (false, dst')
        end
    end.
End encoder.
