(* ===== verification/EncodeLaws.v ===== *)
(** * EncodeLaws

    What the encoder writes: chunked framing that the decoder of this crate
    reads back, at most the declared number of bytes, and trailers restricted to
    the announced fields. *)

From stdpp Require Import prelude strings.
From Stdlib Require Import ZArith Lia.
From S2P Require Import Prelude Bytes Crates Errors Length Headers MemRead Decode DecodeSpec ChunkedGrammar DecodeRefine BodyTheorems BufList WriteBuf Encode.
Local Open Scope Z_scope.

Section encoded_buf_laws.
Context `{BufCombinatorsLaws} `{BufLaws B}.

Definition eb_ok (e : EncodedBuf B) : Prop :=
  match eb_kind e with
  | KExact b => buf_ok b
  | KLimited b => buf_ok b
  | KChunked b => buf_ok b
  | KChunkedEnd b => buf_ok b
  | KTrailers b => buf_ok b
  end.

Definition eb_content (e : EncodedBuf B) : bytes :=
  match eb_kind e with
  | KExact b => content b
  | KLimited b => content b
  | KChunked b => content b
  | KChunkedEnd b => content b
  | KTrailers b => content b
  end.

#[export] Instance EncodedBuf_BufLaws : BufLaws (EncodedBuf B).
Proof.
  refine {| buf_ok := eb_ok; content := eb_content |}; unfold eb_ok, eb_content.
  - intros [[]]; cbn [eb_kind remaining EncodedBuf_Buf]; intros; by apply buf_remaining.
  - intros [[]]; cbn [eb_kind chunk EncodedBuf_Buf]; intros; by apply buf_chunk_prefix.
  - intros [[]]; cbn [eb_kind chunk EncodedBuf_Buf]; intros; by apply buf_chunk_nonempty.
  - intros [[b|b|b|b|b]] n Hb Hn; cbn [eb_kind advance remaining EncodedBuf_Buf] in *;
      destruct (buf_advance b n Hb Hn) as (b' & -> & Hok & Hc);
      cbn [mbind option_bind]; eexists; (split; [reflexivity|]); done.
Defined.

(** What one message becomes, in bytes. *)
Lemma encode_chunked_spec (msg : B) tr last :
  buf_ok msg -> content msg ≠ [] -> len (content msg) <= USIZE_MAX ->
  exists eb, encode msg (MkEncoder (EncChunked tr) last) = Some (eb, MkEncoder (EncChunked tr) last) /\
    eb_ok eb /\ eb_content eb = to_hex (len (content msg)) ++ CRLF ++ content msg ++ CRLF.
Proof.
  intros Hok Hne Hle. pose proof (len_pos _ Hne). unfold encode. rewrite buf_remaining by done.
  rewrite (proj2 (Z.ltb_lt _ _)) by done. cbn [negb enc_kind].
  destruct (cs_new_spec (len (content msg))) as (c & -> & Hc & Hcc); [ulia|].
  cbn [mbind option_bind]. eexists. split; [done|]. split.
  - simpl. apply chain_ok; [by apply chain_ok|done].
  - cbn [eb_content eb_kind]. rewrite !chain_content, Hcc. by rewrite <- !app_assoc.
Qed.

Lemma encode_length_spec (msg : B) n last :
  buf_ok msg -> content msg ≠ [] -> 0 <= n ->
  exists eb, encode msg (MkEncoder (EncLength n) last) =
      Some (eb, MkEncoder (EncLength (Z.max 0 (n - len (content msg)))) last) /\
    eb_ok eb /\ eb_content eb = ztake n (content msg).
Proof.
  intros Hok Hne Hn. pose proof (len_pos _ Hne). unfold encode. rewrite buf_remaining by done.
  rewrite (proj2 (Z.ltb_lt _ _)) by done. cbn [negb enc_kind is_last].
  destruct (n <? len (content msg)) eqn:E; zbool; eexists; (split; [repeat f_equal; lia|]).
  - split; [by apply take_ok|]. unfold eb_content. simpl. by rewrite take_content.
  - split; [done|]. unfold eb_content. simpl. by rewrite ztake_all.
Qed.

(** A whole body: every message through [encode], with the encoder that
    remains. *)
Fixpoint encode_all (msgs : list B) (e : Encoder) : option (list (EncodedBuf B) * Encoder) :=
  match msgs with
  | [] => Some ([], e)
  | msg :: msgs' =>
      '(eb, e') ← encode msg e;
      '(ebs, e'') ← encode_all msgs' e';
      Some (eb :: ebs, e'')
  end.

Definition msg_ok (msg : B) : Prop :=
  buf_ok msg /\ content msg ≠ [] /\ len (content msg) <= USIZE_MAX.

(** The bytes of one chunk. *)
Definition chunk_bytes (d : bytes) : bytes := to_hex (len d) ++ CRLF ++ d ++ CRLF.

Lemma encode_all_chunked msgs tr last :
  Forall msg_ok msgs ->
  exists ebs, encode_all msgs (MkEncoder (EncChunked tr) last) = Some (ebs, MkEncoder (EncChunked tr) last) /\
    Forall eb_ok ebs /\
    concat (map eb_content ebs) = concat (map (fun m => chunk_bytes (content m)) msgs).
Proof.
  induction 1 as [|msg msgs (Hok & Hne & Hle) _ (ebs & Hall & Hoks & Hc)]; [by exists []|].
  cbn [encode_all]. destruct (encode_chunked_spec msg tr last Hok Hne Hle) as (eb & -> & Heb & Hebc).
  cbn [mbind option_bind]. rewrite Hall. cbn [mbind option_bind]. exists (eb :: ebs).
  split; [done|]. split; [by constructor|]. simpl. by rewrite Hebc, Hc.
Qed.

Lemma encode_all_length msgs n last :
  Forall msg_ok msgs -> 0 <= n ->
  exists ebs, encode_all msgs (MkEncoder (EncLength n) last) =
      Some (ebs, MkEncoder (EncLength (Z.max 0 (n - len (concat (map content msgs))))) last) /\
    Forall eb_ok ebs /\ concat (map eb_content ebs) = ztake n (concat (map content msgs)).
Proof.
  intros Hm. revert n. induction Hm as [|msg msgs (Hok & Hne & Hle) _ IH]; intros n Hn.
  { exists []. cbn [map concat encode_all]. change (len (@nil Z)) with 0.
    replace (Z.max 0 (n - 0)) with n by lia. unfold ztake. by rewrite take_nil. }
  cbn [encode_all]. destruct (encode_length_spec msg n last Hok Hne Hn) as (eb & -> & Heb & Hebc).
  cbn [mbind option_bind]. destruct (IH (Z.max 0 (n - len (content msg))) ltac:(lia)) as (ebs & -> & Hoks & Hc).
  cbn [mbind option_bind]. exists (eb :: ebs). cbn [map concat]. rewrite len_app.
  pose proof (len_nonneg (concat (map content msgs))).
  replace (Z.max 0 (n - (len (content msg) + len (concat (map content msgs)))))
    with (Z.max 0 (Z.max 0 (n - len (content msg)) - len (concat (map content msgs)))) by lia.
  split; [done|].
  split; [by constructor|]. rewrite Hebc, Hc, ztake_app by lia. f_equal.
  unfold ztake. f_equal. lia.
Qed.
End encoded_buf_laws.

(** ** The chunks are those of the grammar *)

Lemma to_hex_is_hex n : is_u64 n -> to_hex n ≠ [] /\ is_hex (to_hex n) /\ hex_value 0 (to_hex n) = n.
Proof.
  intros Hn. destruct (to_hex_spec n Hn) as (ds & -> & Hds & Hval & Hne). split_and!.
  - by destruct ds.
  - unfold is_hex. apply Forall_map. eapply Forall_impl; [exact Hds|]. intros d Hd. simpl.
    rewrite hexval_hex_digit by done. eauto.
  - rewrite <- Hval. clear Hne Hval. enough (Hgen : forall v,
      hex_value v (map hex_digit ds) = fold_left (fun v d => v * 16 + d) ds v) by apply Hgen.
    unfold hex_value. induction Hds as [|d ds Hd _ IH]; intros v; [done|]. simpl.
    rewrite hexval_hex_digit by done. apply IH.
Qed.

Lemma chunks_encoded datas :
  Forall (fun d => d ≠ [] /\ len d <= USIZE_MAX) datas ->
  chunks 0 (concat (map chunk_bytes datas)) (concat datas) 0.
Proof.
  induction 1 as [|d datas [Hne Hle] _ IH]; [constructor|]. cbn [map concat].
  pose proof (len_nonneg d). destruct (to_hex_is_hex (len d)) as (Hhne & Hhex & Hval); [ulia|].
  assert (chunk_bytes d ++ concat (map chunk_bytes datas) =
    size_line (to_hex (len d)) [] None ++ d ++ CRLF ++ concat (map chunk_bytes datas)) as ->.
  { unfold chunk_bytes, size_line. simpl ext_bytes. by rewrite <- !app_assoc. }
  apply (chunks_cons 0); [|done|done|exact IH]. by repeat split.
Qed.

Lemma last_chunk_line : size_line_ok (bs "0") [] None 0.
Proof. repeat split; try done. by repeat econstructor. Qed.

Lemma encoded_chunked_body datas mc mb :
  Forall (fun d => d ≠ [] /\ len d <= USIZE_MAX) datas -> 0 <= mc ->
  chunked_body mc mb (concat (map chunk_bytes datas) ++ bs "0" ++ CRLF ++ CRLF) (concat datas) None 0.
Proof.
  intros Hd Hmc.
  refine (chunked_body_intro mc mb (concat (map chunk_bytes datas)) (concat datas) 0 (bs "0") [] None []
    _ last_chunk_line _ _ _ _); [by apply chunks_encoded|done|constructor|done|done].
Qed.

(** ** Trailers *)

Section trailers.
Context `{HeaderMapLaws Hm}.

Definition kept (allowed : list bytes) (n : bytes) : bool :=
  bool_decide (n ∈ allowed) && is_valid_trailer_field n.

Definition keep (allowed : list bytes) (h : Hm) (f : bytes * bytes) : Hm :=
  if kept allowed f.1 then hm_append f.1 f.2 h else h.

Lemma allowed_trailers_fold allowed cur l acc :
  (cur = None -> match l with (None, _) :: _ => False | _ => True end) ->
  allowed_trailers allowed cur l acc = Some (fold_left (keep allowed) (resolve_names cur l) acc).
Proof.
  revert cur acc. induction l as [|[o v] l IH]; intros cur acc Hn; [done|].
  cbn [allowed_trailers resolve_names]. destruct o as [n|].
  - cbn [mbind option_bind fold_left]. by rewrite IH.
  - destruct cur as [n|]; [|by destruct (Hn eq_refl)]. cbn [mbind option_bind fold_left].
    by rewrite IH.
Qed.

Lemma get_all_keep allowed fs (h : Hm) n :
  hm_get_all (fold_left (keep allowed) fs h) n =
    hm_get_all h n ++ (if kept allowed n then (filter (fun kv => kv.1 = n) fs).*2 else []).
Proof.
  revert h. induction fs as [|[m v] fs IH]; intros h; simpl.
  { case_match; by rewrite app_nil_r. }
  rewrite IH. unfold keep. simpl. rewrite filter_cons. simpl.
  destruct (decide (m = n)) as [->|Hm'].
  - destruct (kept allowed n) eqn:Ek; [|done]. rewrite hm_get_all_append, decide_True by done.
    by rewrite <- app_assoc.
  - destruct (kept allowed m); [|done]. by rewrite hm_get_all_append, decide_False by congruence.
Qed.

(** The fields that are written: those announced in [Trailer] that may be
    trailers, with all their values. *)
Lemma allowed_trailers_spec allowed (trailers : Hm) :
  exists h, allowed_trailers allowed None (hm_into_iter trailers) hm_new = Some h /\
    forall n, hm_get_all h n = if kept allowed n then hm_get_all trailers n else [].
Proof.
  eexists. split.
  - apply allowed_trailers_fold. intros _. apply hm_into_iter_named.
  - intros n. by rewrite get_all_keep, hm_get_all_new, hm_into_iter_iter, <- hm_get_all_iter.
Qed.

Lemma iter_get_all (h : Hm) n v : (n, v) ∈ hm_iter h <-> v ∈ hm_get_all h n.
Proof.
  rewrite hm_get_all_iter, list_elem_of_fmap. split.
  - intros Hin. exists (n, v). split; [done|]. by apply list_elem_of_filter.
  - intros ([m w] & -> & Hin). apply list_elem_of_filter in Hin as [Heq Hin]. simpl in *. by subst.
Qed.

Lemma write_headers_lines (h : Hm) dst :
  write_headers h dst = dst ++ concat (map (fun f => field_line f ++ CRLF) (hm_iter h)).
Proof.
  unfold write_headers. generalize (hm_iter h) as fs. intros fs. revert dst.
  induction fs as [|[n v] fs IH]; intros dst; cbn [fold_left map concat]; [by rewrite app_nil_r|].
  rewrite IH. unfold field_line. cbn [fst snd]. by rewrite <- !app_assoc.
Qed.

Lemma append_trailers_ok `{HeaderSyntax} fs (h : Hm) :
  Forall (fun f => hn_from_bytes f.1 = Some f.1 /\ hv_from_bytes f.2 = Some f.2) fs ->
  append_trailers fs h = Ok (fold_left (fun h f => hm_append f.1 f.2 h) fs h).
Proof.
  intros Hfs. revert h. induction Hfs as [|[n v] fs [Hn Hv] _ IH]; intros h; [done|].
  simpl in *. by rewrite Hn, Hv, IH.
Qed.

Lemma get_all_append_all fs (h : Hm) n :
  hm_get_all (fold_left (fun h f => hm_append f.1 f.2 h) fs h) n =
    hm_get_all h n ++ (filter (fun kv => kv.1 = n) fs).*2.
Proof.
  revert h. induction fs as [|[m v] fs IH]; intros h; simpl; [by rewrite app_nil_r|].
  rewrite IH, hm_get_all_append, filter_cons. simpl.
  destruct (decide (m = n)) as [->|Hm']; [rewrite decide_True by done; by rewrite <- app_assoc|].
  by rewrite decide_False by congruence.
Qed.

(** Reading back the fields of [h] as a trailer section. *)
Lemma decode_written_trailers `{HeaderSyntax} `{HttparseHeadersLaws} (h : Hm) :
  Forall field_ok (hm_iter h) ->
  Forall (fun f => hn_from_bytes f.1 = Some f.1 /\ hv_from_bytes f.2 = Some f.2) (hm_iter h) ->
  exists h', decode_trailers (trailer_section (map field_line (hm_iter h))) (len (hm_iter h)) = Ok h' /\
    forall n, hm_get_all h' n = hm_get_all h n.
Proof.
  intros Hok Hval. unfold decode_trailers, trailer_section, trailer_lines. rewrite map_map.
  rewrite (hp_parse_headers_lines (hm_iter h) _ Hok (Z.le_refl _)). rewrite append_trailers_ok by done.
  eexists. split; [done|]. intros n. by rewrite get_all_append_all, hm_get_all_new, <- hm_get_all_iter.
Qed.
End trailers.

Lemma encoded_trailers_body datas ls mc mb :
  Forall (fun d => d ≠ [] /\ len d <= USIZE_MAX) datas ->
  ls ≠ [] -> trailer_lines_ok ls -> len ls <= mc -> len (trailer_section ls) < mb ->
  chunked_body mc mb (concat (map chunk_bytes datas) ++ (bs "0" ++ CRLF) ++ trailer_section ls) (concat datas)
    (Some (trailer_section ls)) (len ls).
Proof.
  intros Hd Hne Hls Hcnt Hlen.
  assert (trailer_part ls = Some (trailer_section ls)) as <- by (by destruct ls).
  exact (chunked_body_intro mc mb (concat (map chunk_bytes datas)) (concat datas) 0 (bs "0") [] None ls
    (chunks_encoded datas Hd) last_chunk_line ltac:(done) Hls Hcnt (fun _ => Hlen)).
Qed.

(** ** What the encoder guarantees *)

Definition LAST_CHUNK : bytes := bs "0" ++ CRLF ++ CRLF.

(** C39. Chunked encoding and decoding are inverse: whatever messages a body is
    written in, the bytes the encoder puts on the wire, followed by its end
    marker, are decoded by this crate's decoder to the concatenation of the
    messages, without trailers, over any reader and however they are split on
    the way; bytes of a following message are left alone. *)
Theorem chunked_roundtrip `{BufCombinatorsLaws} `{BufLaws B} (msgs : list B)
    `{HeaderSyntax} `{HeaderMap Hm} `{HttparseHeaders} `{MemReadLaws R} `{!MemReadInfallible R}
    mh ms (r : R) rest :
  Forall msg_ok msgs -> reader_ok r -> 0 <= max_cnt mh ->
  exists ebs eb_end,
    encode_all msgs encoder_chunked = Some (ebs, encoder_chunked) /\
    encoder_end encoder_chunked = Ok (Some eb_end) /\
    (stream r = concat (map content (ebs ++ [eb_end])) ++ rest ->
     exists d' r', drain (Hm := Hm) (drain_fuel r) (decoder_chunked mh ms) r [] =
       ((d', r'), Ready (concat (map content msgs), None)) /\ stream r' = rest).
Proof.
  intros Hmsgs Hr Hmax. destruct (encode_all_chunked msgs None false Hmsgs) as (ebs & Hall & Hoks & Hc).
  eexists ebs, _. split; [exact Hall|]. split; [reflexivity|]. intros Hst.
  eapply (drain_decodes mh ms r _ _ None 0 rest Hr); [|rewrite Hst, map_app, concat_app; done].
  change (concat (map content ebs)) with (concat (map eb_content ebs)). rewrite Hc, <- map_map.
  apply encoded_chunked_body; [|done]. apply Forall_map. eapply Forall_impl; [exact Hmsgs|].
  intros m (_ & Hne & Hle). done.
Qed.

(** A body of declared length never exceeds it: the bytes written are the
    first [n] of the messages together, and [end] succeeds exactly when all [n]
    were supplied, otherwise it reports how many are missing. *)
Theorem length_encoder_exact `{BufCombinatorsLaws} `{BufLaws B} (msgs : list B) n :
  Forall msg_ok msgs -> 0 <= n ->
  exists ebs e, encode_all msgs (encoder_length n) = Some (ebs, e) /\
    concat (map content ebs) = ztake n (concat (map content msgs)) /\
    encoder_end (B := B) e =
      if n <=? len (concat (map content msgs)) then Ok None
      else Err (MkNotEof (n - len (concat (map content msgs)))).
Proof.
  intros Hm Hn. destruct (encode_all_length msgs n false Hm Hn) as (ebs & Hall & _ & Hc).
  eexists ebs, _. split; [exact Hall|]. split; [exact Hc|]. unfold encoder_end. cbn [enc_kind].
  destruct (n <=? len (concat (map content msgs))) eqn:E; zbool.
  - by rewrite (proj2 (Z.eqb_eq _ _)) by lia.
  - rewrite (proj2 (Z.eqb_neq _ _)) by lia. do 2 f_equal. lia.
Qed.

Lemma encode_and_end_post `{BufCombinatorsLaws} `{BufLaws B} cap (msg : B) e dst :
  wb_ok dst -> msg_ok msg -> (forall n, enc_kind e = EncLength n -> 0 < n) ->
  exists dst', encode_and_end cap msg e dst =
      Some (match enc_kind e with
            | EncChunked _ => negb (is_last e)
            | EncLength n => (n <=? len (content msg)) && negb (is_last e)
            end, dst') /\ wb_ok dst' /\
    wb_content dst' = wb_content dst ++
      match enc_kind e with
      | EncChunked _ => chunk_bytes (content msg) ++ LAST_CHUNK
      | EncLength n => ztake n (content msg)
      end.
Proof.
  intros Hw (Hok & Hne & Hle) Hpos. unfold encode_and_end. rewrite (buf_remaining msg Hok).
  pose proof (len_pos _ Hne). rewrite (proj2 (Z.ltb_lt 0 _)) by done. cbn [negb].
  destruct (enc_kind e) as [tr|n] eqn:Ek.
  - destruct (cs_new_spec (len (content msg))) as (c & -> & Hc & Hcc); [ulia|]. cbn [mbind option_bind].
    set (buf := chain (chain c msg) _).
    assert (buf_ok buf) as Hb by (apply chain_ok; [by apply chain_ok|done]).
    assert (content buf = chunk_bytes (content msg) ++ LAST_CHUNK) as Hbc.
    { unfold buf, chunk_bytes, LAST_CHUNK. rewrite !chain_content, Hcc.
      cbn [content bytes_BufLaws id]. by rewrite <- !app_assoc. }
    destruct (wb_buffer_spec from_chain cap buf dst Hw Hb) as (dst' & -> & Hok' & Hc'); try done.
    { rewrite Hbc. unfold chunk_bytes. intros Hnil. by apply app_nil in Hnil as [_ ?]. }
    cbn [mbind option_bind]. exists dst'. by rewrite Hc', Hbc.
  - specialize (Hpos n eq_refl). destruct (Z.compare_spec (len (content msg)) n) as [E|E|E].
    + destruct (wb_buffer_spec from_exact cap msg dst Hw Hok Hne) as (dst' & -> & Hok' & Hc'); try done.
      cbn [mbind option_bind]. exists dst'. rewrite (proj2 (Z.leb_le _ _)) by lia.
      by rewrite Hc', ztake_all by lia.
    + destruct (wb_buffer_spec from_exact cap msg dst Hw Hok Hne) as (dst' & -> & Hok' & Hc'); try done.
      cbn [mbind option_bind]. exists dst'. rewrite (proj2 (Z.leb_gt _ _)) by lia.
      by rewrite Hc', ztake_all by lia.
    + destruct (wb_buffer_spec from_take cap (take_buf msg n) dst Hw) as (dst' & -> & Hok' & Hc'); try done.
      { apply take_ok; [lia|done]. }
      { rewrite take_content by lia. by apply ztake_nonnil. }
      { apply (take_ok msg n); [lia|done]. }
      cbn [mbind option_bind]. exists dst'. rewrite (proj2 (Z.leb_le _ _)) by lia.
      by rewrite Hc', take_content by lia.
Qed.

(** Writing the last piece and the end of a body in one step puts the same
    bytes in the write buffer as [encode] followed by [end], and tells the
    connection it may be reused only when the body is complete. *)
Theorem encode_and_end_spec `{BufCombinatorsLaws} `{BufLaws B} cap (msg : B) e dst :
  wb_ok dst -> msg_ok msg -> (forall n, enc_kind e = EncLength n -> 0 < n) ->
  exists dst', encode_and_end cap msg e dst =
      Some (match enc_kind e with
            | EncChunked _ => negb (is_last e)
            | EncLength n => (n <=? len (content msg)) && negb (is_last e)
            end, dst') /\ wb_ok dst' /\
    wb_content dst' = wb_content dst ++
      match enc_kind e with
      | EncChunked _ => chunk_bytes (content msg) ++ LAST_CHUNK
      | EncLength n => ztake n (content msg)
      end.
Proof. apply encode_and_end_post. Qed.

(** Trailers survive the round trip, and only the permitted ones are sent:
    when [encode_trailers] yields a trailer section for a chunked body, the
    peer's decoder returns the body and a header map that holds, for every
    field announced in [Trailer] and allowed as a trailer, all its values in
    order, and no other field. *)
Theorem trailers_roundtrip `{BufCombinatorsLaws} `{BufLaws B} (datas : list bytes)
    `{HeaderSyntax} `{HeaderMapLaws Hm} `{HttparseHeadersLaws} `{MemReadLaws R} `{!MemReadInfallible R}
    (allowed : list bytes) (trailers h : Hm) mh ms (r : R) rest :
  Forall (fun d => d ≠ [] /\ len d <= USIZE_MAX) datas -> reader_ok r ->
  Forall field_ok (hm_iter trailers) ->
  Forall (fun f => hn_from_bytes f.1 = Some f.1 /\ hv_from_bytes f.2 = Some f.2) (hm_iter trailers) ->
  allowed_trailers allowed None (hm_into_iter trailers) hm_new = Some h -> hm_iter h ≠ [] ->
  len (hm_iter h) <= max_cnt mh -> len (trailer_section (map field_line (hm_iter h))) < max_bytes ms ->
  exists eb h', encode_trailers (B := B) trailers (MkEncoder (EncChunked (Some allowed)) false) = Some (Some eb) /\
    (forall n, hm_get_all h' n =
       if bool_decide (n ∈ allowed) && is_valid_trailer_field n then hm_get_all trailers n else []) /\
    (stream r = concat (map chunk_bytes datas) ++ content eb ++ rest ->
     exists d' r', drain (Hm := Hm) (drain_fuel r) (decoder_chunked mh ms) r [] =
       ((d', r'), Ready (concat datas, Some h')) /\ stream r' = rest).
Proof.
  intros Hd Hr Hok Hval Hall Hne Hcnt Hlen.
  destruct (allowed_trailers_spec allowed trailers) as (h0 & Hall' & Hget). rewrite Hall in Hall'. injection Hall' as <-.
  assert (Hsub : forall f, f ∈ hm_iter h -> f ∈ hm_iter trailers).
  { intros [n v] Hf. apply iter_get_all in Hf. rewrite Hget in Hf. destruct (kept allowed n); [|by apply not_elem_of_nil in Hf].
    by apply iter_get_all. }
  rewrite Forall_forall in Hok, Hval.
  assert (Hokh : Forall field_ok (hm_iter h)) by (apply Forall_forall; auto).
  destruct (decode_written_trailers h Hokh) as (h' & Hdec & Hget').
  { apply Forall_forall. auto. }
  unfold encode_trailers. cbn [enc_kind]. rewrite Hall. cbn [mbind option_bind].
  rewrite write_headers_lines, app_nil_l. rewrite decide_False.
  2: { destruct (hm_iter h) as [|f fs]; [done|]. cbn [map concat]. intros Hnil.
       apply app_nil in Hnil as [Hnil _]. by apply app_nil in Hnil as [_ ?]. }
  eexists _, h'. split; [reflexivity|]. split; [intros n; by rewrite Hget', Hget|].
  cbn [content EncodedBuf_BufLaws eb_content eb_kind]. rewrite !chain_content. cbn [content bytes_BufLaws id].
  intros Hst.
  destruct (drain_decodes (Hm := Hm) mh ms r
    (concat (map chunk_bytes datas) ++ (bs "0" ++ CRLF) ++ trailer_section (map field_line (hm_iter h)))
    (concat datas) (Some (trailer_section (map field_line (hm_iter h)))) (len (map field_line (hm_iter h))) rest Hr)
    as (d' & r' & Hdr & Hst').
  - apply encoded_trailers_body; try done.
    + by destruct (hm_iter h).
    + apply Forall_map. eapply Forall_impl; [exact Hokh|]. intros f Hf. split; [|by apply Concrete.field_ok_no_CR].
      unfold field_line. destruct Hf as [Hf _]. simpl. by destruct f.1.
    + unfold len. by rewrite length_map.
  - rewrite Hst. unfold trailer_section, trailer_lines. rewrite map_map. by rewrite <- !app_assoc.
  - exists d', r'. split; [|done]. rewrite Hdr. unfold body_result, len. rewrite length_map.
    fold (len (hm_iter h)). by rewrite Hdec.
Qed.

Section witnesses.
Import Concrete.

Definition demo_msgs : list bytes := [bs "Wiki"; bs "pedia"].

Lemma demo_msgs_ok : Forall msg_ok demo_msgs.
Proof. repeat constructor; done. Qed.

Definition demo_wire : bytes :=
  bs "4" ++ CRLF ++ bs "Wiki" ++ CRLF ++ bs "5" ++ CRLF ++ bs "pedia" ++ CRLF ++ bs "0" ++ CRLF ++ CRLF.

Lemma chunked_roundtrip_witness :
  exists ebs eb_end, encode_all demo_msgs encoder_chunked = Some (ebs, encoder_chunked) /\
    encoder_end (B := bytes) encoder_chunked = Ok (Some eb_end) /\
    (demo_wire ++ bs "HTTP" = concat (map content (ebs ++ [eb_end])) ++ bs "HTTP" ->
     exists d' r', drain (Hm := hmap) (drain_fuel (demo_wire ++ bs "HTTP")) (decoder_chunked None None)
         (demo_wire ++ bs "HTTP") [] =
       ((d', r'), Ready (bs "Wikipedia", None)) /\ stream r' = bs "HTTP").
Proof.
  exact (chunked_roundtrip (Hm := hmap) demo_msgs None None (demo_wire ++ bs "HTTP") (bs "HTTP")
    demo_msgs_ok I ltac:(done)).
Defined.

Lemma length_encoder_exact_witness :
  exists ebs e, encode_all demo_msgs (encoder_length 6) = Some (ebs, e) /\
    concat (map content ebs) = bs "Wikipe" /\ encoder_end (B := bytes) e = Ok None.
Proof. exact (length_encoder_exact demo_msgs 6 demo_msgs_ok ltac:(done)). Defined.

Lemma encode_and_end_spec_witness :
  exists dst', encode_and_end 8192 (bs "Wiki") encoder_chunked (wb_new Queue) = Some (true, dst') /\
    wb_ok dst' /\ wb_content dst' = wb_content (wb_new (B := EncodedBuf bytes) Queue) ++
      chunk_bytes (bs "Wiki") ++ LAST_CHUNK.
Proof.
  refine (encode_and_end_spec 8192 (bs "Wiki") encoder_chunked (wb_new Queue) (wb_new_ok Queue) _ _);
    [repeat constructor; done|done].
Defined.

Definition demo_trailers : hmap := HMap [(bs "x-sum", bs "9"); (bs "host", bs "h"); (bs "x-other", bs "1")].
Definition demo_trailer_wire : bytes :=
  bs "4" ++ CRLF ++ bs "Wiki" ++ CRLF ++ bs "0" ++ CRLF ++ bs "x-sum: 9" ++ CRLF ++ CRLF.
Definition demo_allowed : list bytes := [bs "x-sum"; bs "host"].

Lemma trailers_roundtrip_witness :
  exists eb h', encode_trailers (B := bytes) demo_trailers (MkEncoder (EncChunked (Some demo_allowed)) false) =
      Some (Some eb) /\
    (forall n, hm_get_all h' n =
       if bool_decide (n ∈ demo_allowed) && is_valid_trailer_field n then hm_get_all demo_trailers n else []) /\
    (stream demo_trailer_wire = concat (map chunk_bytes [bs "Wiki"]) ++ content eb ++ [] ->
     exists d' r', drain (Hm := hmap) (drain_fuel demo_trailer_wire) (decoder_chunked None None) demo_trailer_wire [] =
       ((d', r'), Ready (concat [bs "Wiki"], Some h')) /\ stream r' = []).
Proof.
  apply (trailers_roundtrip (B := bytes) (Hm := hmap) [bs "Wiki"] demo_allowed demo_trailers
    (HMap [(bs "x-sum", bs "9")]) None None demo_trailer_wire []).
  - repeat constructor; done.
  - done.
  - repeat apply Forall_cons_2; [| | |constructor]; vm_compute; done.
  - repeat apply Forall_cons_2; [| | |constructor]; vm_compute; done.
  - vm_compute. reflexivity.
  - done.
  - vm_compute. done.
  - vm_compute. done.
Defined.
End witnesses.
