(* ===== verification/Message.v ===== *)
(** * Message

    [proto.rs] and [proto/http1.rs]: message heads, what a parsed message
    carries, the [Wants] flags and the HTTP/1 options with their builder. *)

From stdpp Require Import prelude strings.
From Stdlib Require Import ZArith Lia.
From S2P Require Import Prelude Bytes Crates Errors Length WriteBuf.
Local Open Scope Z_scope.

(** ** Message heads *)

(** [struct RequestLine(http::Method, http::Uri)]; the URI by its printed form. *)
Record RequestLine : Type := MkRequestLine { rl_method : Method; rl_uri : bytes }.

Section heads.
Context {Hm : Type}.

(** The user's [OnPreserveHeaderCallback::call_visit]: the header map it leaves
    and the (name, value) pairs it emits. *)
Definition PreserveHeader : Type := Hm -> Hm * list (bytes * bytes).

(** [http::Extensions], the entries the HTTP/1 code stores or looks up; of the
    informational callback, whether there is one. *)
Record Extensions : Type := MkExtensions {
  reason_phrase : option bytes;
  on_preserve_header : option PreserveHeader;
  ext_on_informational : bool;
}.

Definition extensions_default : Extensions := MkExtensions None None false.

(** [struct MessageHead<S>]. *)
Record MessageHead (S : Type) : Type := MkHead {
  version : Version;
  subject : S;
  head_headers : Hm;
  extensions : Extensions;
}.

(** [enum BodyLength]. *)
Inductive BodyLength : Type := Known (n : Z) | Unknown.

(** [struct ParsedMessage<T>]. *)
Record ParsedMessage (S : Type) : Type := MkParsed {
  pm_head : MessageHead S;
  pm_decode : DecodedLength;
  pm_expect_continue : bool;
  pm_keep_alive : bool;
  pm_wants_upgrade : bool;
}.
End heads.
Arguments PreserveHeader Hm : clear implicits.
Arguments Extensions Hm : clear implicits.
Arguments MessageHead Hm S : clear implicits.
Arguments ParsedMessage Hm S : clear implicits.
Arguments MkHead {Hm S} version subject head_headers extensions.
Arguments version {Hm S} m.
Arguments subject {Hm S} m.
Arguments head_headers {Hm S} m.
Arguments extensions {Hm S} m.
Arguments MkParsed {Hm S} pm_head pm_decode pm_expect_continue pm_keep_alive pm_wants_upgrade.
Arguments pm_head {Hm S} p.
Arguments pm_decode {Hm S} p.
Arguments pm_expect_continue {Hm S} p.
Arguments pm_keep_alive {Hm S} p.
Arguments pm_wants_upgrade {Hm S} p.

(** A status code is a [u16]. *)
Definition StatusCode : Type := Z.

(** [StatusCode::from_u16]. *)
Definition status_from_u16 (code : Z) : result Parse StatusCode :=
  if in_range 100 999 code then Ok code else Err PStatus.

(** [StatusCode::is_informational]. *)
Definition is_informational (s : StatusCode) : bool := in_range 100 199 s.

Definition set_head_headers {Hm S} (h : Hm) (m : MessageHead Hm S) : MessageHead Hm S :=
  MkHead (version m) (subject m) h (extensions m).
Definition set_version {Hm S} (v : Version) (m : MessageHead Hm S) : MessageHead Hm S :=
  MkHead v (subject m) (head_headers m) (extensions m).

(** ** [struct Wants(u8)] *)

Record Wants : Type := MkWants { wants_bits : Z }.

Definition WANTS_EMPTY : Wants := MkWants 0.
Definition WANTS_EXPECT : Wants := MkWants 1.
Definition WANTS_UPGRADE : Wants := MkWants 2.

Definition wants_add (self other : Wants) : Wants := MkWants (Z.lor (wants_bits self) (wants_bits other)).
Definition wants_contains (self other : Wants) : bool :=
  Z.land (wants_bits self) (wants_bits other) =? wants_bits other.

(** ** [struct Http1Options] *)

Record Http1Options : Type := MkOptions {
  h09_responses : bool;
  h1_writev : option bool;
  opt_max_headers : option Z;
  opt_max_header_size : option Z;
  h1_read_buf_exact_size : option Z;
  h1_max_buf_size : option Z;
  ignore_invalid_headers : bool;
  allow_spaces_after_header_name : bool;
  allow_obsolete_multiline_headers : bool;
}.

(** [Http1Options::builder()] starts from the defaults. *)
Definition options_default : Http1Options := MkOptions false None None None None None false false false.

Definition opts_http09_responses (enabled : bool) (o : Http1Options) : Http1Options :=
  MkOptions enabled (h1_writev o) (opt_max_headers o) (opt_max_header_size o) (h1_read_buf_exact_size o)
    (h1_max_buf_size o) (ignore_invalid_headers o) (allow_spaces_after_header_name o) (allow_obsolete_multiline_headers o).
Definition opts_writev (writev : option bool) (o : Http1Options) : Http1Options :=
  MkOptions (h09_responses o) writev (opt_max_headers o) (opt_max_header_size o) (h1_read_buf_exact_size o)
    (h1_max_buf_size o) (ignore_invalid_headers o) (allow_spaces_after_header_name o) (allow_obsolete_multiline_headers o).
Definition opts_max_headers (max_headers : Z) (o : Http1Options) : Http1Options :=
  MkOptions (h09_responses o) (h1_writev o) (Some max_headers) (opt_max_header_size o) (h1_read_buf_exact_size o)
    (h1_max_buf_size o) (ignore_invalid_headers o) (allow_spaces_after_header_name o) (allow_obsolete_multiline_headers o).
Definition opts_max_header_size (val : Z) (o : Http1Options) : Http1Options :=
  MkOptions (h09_responses o) (h1_writev o) (opt_max_headers o) (Some val) (h1_read_buf_exact_size o)
    (h1_max_buf_size o) (ignore_invalid_headers o) (allow_spaces_after_header_name o) (allow_obsolete_multiline_headers o).
Definition opts_read_buf_exact_size (sz : option Z) (o : Http1Options) : Http1Options :=
  MkOptions (h09_responses o) (h1_writev o) (opt_max_headers o) (opt_max_header_size o) sz
    None (ignore_invalid_headers o) (allow_spaces_after_header_name o) (allow_obsolete_multiline_headers o).

(** [None] where the [assert!] fires. *)
Definition opts_max_buf_size (max : Z) (o : Http1Options) : option Http1Options :=
  if MINIMUM_MAX_BUFFER_SIZE <=? max then
    Some (MkOptions (h09_responses o) (h1_writev o) (opt_max_headers o) (opt_max_header_size o) None
      (Some max) (ignore_invalid_headers o) (allow_spaces_after_header_name o) (allow_obsolete_multiline_headers o))
  else None.
Definition opts_allow_spaces_after_header_name (enabled : bool) (o : Http1Options) : Http1Options :=
  MkOptions (h09_responses o) (h1_writev o) (opt_max_headers o) (opt_max_header_size o) (h1_read_buf_exact_size o)
    (h1_max_buf_size o) (ignore_invalid_headers o) enabled (allow_obsolete_multiline_headers o).
Definition opts_ignore_invalid_headers (enabled : bool) (o : Http1Options) : Http1Options :=
  MkOptions (h09_responses o) (h1_writev o) (opt_max_headers o) (opt_max_header_size o) (h1_read_buf_exact_size o)
    (h1_max_buf_size o) enabled (allow_spaces_after_header_name o) (allow_obsolete_multiline_headers o).
Definition opts_allow_obsolete_multiline_headers (value : bool) (o : Http1Options) : Http1Options :=
  MkOptions (h09_responses o) (h1_writev o) (opt_max_headers o) (opt_max_header_size o) (h1_read_buf_exact_size o)
    (h1_max_buf_size o) (ignore_invalid_headers o) (allow_spaces_after_header_name o) value.

(** The options a sequence of builder calls can produce. *)
Inductive built : Http1Options -> Prop :=
| built_default : built options_default
| built_h09 b o : built o -> built (opts_http09_responses b o)
| built_writev b o : built o -> built (opts_writev b o)
| built_max_headers n o : built o -> built (opts_max_headers n o)
| built_max_header_size n o : built o -> built (opts_max_header_size n o)
| built_exact sz o : built o -> built (opts_read_buf_exact_size sz o)
| built_max_buf n o o' : built o -> opts_max_buf_size n o = Some o' -> built o'
| built_spaces b o : built o -> built (opts_allow_spaces_after_header_name b o)
| built_ignore b o : built o -> built (opts_ignore_invalid_headers b o)
| built_multiline b o : built o -> built (opts_allow_obsolete_multiline_headers b o).

(** However the HTTP/1 options are built, the exact read-buffer size and the
    maximal buffer size are never both set, and a maximal size is at least the
    minimum the connection requires, so configuring a connection with them does
    not panic. *)
Theorem options_buffer_exclusive o :
  built o ->
  (h1_read_buf_exact_size o = None \/ h1_max_buf_size o = None) /\
  (forall n, h1_max_buf_size o = Some n -> MINIMUM_MAX_BUFFER_SIZE <= n).
Proof.
  induction 1 as [| | | | | |n o o' _ _ Ho'| | |]; simpl in *; try (by auto); try done.
  all: try (split; [by right|done]).
  unfold opts_max_buf_size in Ho'. destruct (_ <=? n) eqn:E; [|done]. injection Ho' as <-. simpl.
  split; [by left|]. intros m [= <-]. by zbool.
Qed.

Lemma options_buffer_exclusive_witness :
  (Some 4096 = None \/ @None Z = None) /\ (forall n, None = Some n -> MINIMUM_MAX_BUFFER_SIZE <= n).
Proof.
  exact (options_buffer_exclusive (opts_read_buf_exact_size (Some 4096) (opts_max_headers 10 options_default))
    (built_exact _ _ (built_max_headers _ _ built_default))).
Defined.
