(* ===== verification/Role.v ===== *)
(** * Role

    [proto/http1/role.rs]: the client side of an HTTP/1 transaction. Parsing a
    response head (over [httparse] as a parameter), deciding how long its body
    is, and writing a request head with its framing headers. *)

From stdpp Require Import prelude strings.
From Stdlib Require Import ZArith Lia.
From S2P Require Import Prelude Bytes Crates Errors Length Headers Decode BufList WriteBuf Transport Encode Message.
Local Open Scope Z_scope.

(** [&s[a..b]]: [None] where the indexing panics. *)
Definition slice (a b : Z) (s : bytes) : option bytes :=
  if (0 <=? a) && (a <=? b) && (b <=? len s) then Some (ztake (b - a) (zdrop a s)) else None.

(** ** The fast scan *)

(** The loop of [is_complete_fast]. *)
Fixpoint scan_complete (s : bytes) : bool :=
  match s with
  | [] => false
  | b :: rest =>
      if b =? CR then
        if bool_decide (take 3 rest = [LF; CR; LF]) then true else scan_complete rest
      else if (b =? LF) &&
              (bool_decide (head rest = Some LF) || bool_decide (take 2 rest = [CR; LF])) then true
      else scan_complete rest
  end.

Definition is_complete_fast (bytes : bytes) (prev_len : Z) : option bool :=
  let start := saturating_sub prev_len 3 in
  scan_complete <$> slice start (len bytes) bytes.

(** ** Header positions *)

(** [struct HeaderIndices]. *)
Record HeaderIndices : Type := MkIndices { ix_name : Z * Z; ix_value : Z * Z }.

(** [httparse::Header]: two slices of the parsed bytes, with where they start. *)
Record HpHeader : Type := MkHpHeader {
  hp_name_at : Z; hp_name : bytes; hp_value_at : Z; hp_value : bytes;
}.

(** A completed [httparse::Response]. *)
Record HpResponse : Type := MkHpResponse {
  hp_len : Z; hp_code : Z; hp_reason : bytes; hp_minor_version : Z; hp_headers : list HpHeader;
}.

(** [ParserConfig::parse_response_with_uninit_headers] with room for a number of
    headers, the configuration query the code makes, and
    [StatusCode::canonical_reason]. *)
Class HttparseResponse (PC : Type) : Type := {
  hp_parse_response : PC -> bytes -> Z -> result HttparseError (HpStatusOf HpResponse);
  hp_obs_fold_allowed : PC -> bool;
  canonical_reason : StatusCode -> option bytes;
}.

Fixpoint record_header_indices (headers : list HpHeader) : result Parse (list HeaderIndices) :=
  match headers with
  | [] => Ok []
  | h :: hs =>
      if 65536 <=? len (hp_name h) then Err PTooLarge
      else
        ixs ← record_header_indices hs;
        Ok (MkIndices (hp_name_at h, hp_name_at h + len (hp_name h))
                      (hp_value_at h, hp_value_at h + len (hp_value h)) :: ixs)
  end.

(** ** Obsolete line folding *)

(** The local [trim_start], [trim_end] and [trim]. *)
Definition fold_trim_end (s : bytes) : bytes := trim_end_with is_ascii_whitespace s.
Definition fold_trim (s : bytes) : bytes := trim_start_with is_ascii_whitespace (fold_trim_end s).

(** [buf.iter().position(|b| *b == b'\n')]. *)
Fixpoint position_lf (s : bytes) : option Z :=
  match s with
  | [] => None
  | b :: s' => if b =? LF then Some 0 else Z.succ <$> position_lf s'
  end.

(** [obs_fold_line]: the new message and the new end of the value; [None] where
    a slice is out of range. *)
Definition obs_fold_line (all : bytes) (idx : HeaderIndices) : option (bytes * HeaderIndices) :=
  let '(v0, v1) := ix_value idx in
  buf ← slice v0 v1 all;
  match position_lf buf with
  | None => Some (all, idx)
  | Some first_nl =>
      let unfolded :=
        fold_left (fun acc line => acc ++ [SP] ++ fold_trim line)
          (split_on LF (zdrop (first_nl + 1) buf)) (fold_trim_end (ztake first_nl buf)) in
      if len unfolded <=? len buf then
        Some (ztake v0 all ++ unfolded ++ zdrop (v0 + len unfolded) all,
              MkIndices (ix_name idx) (v0, v0 + len unfolded))
      else None
  end.

Fixpoint obs_fold_lines (all : bytes) (ixs : list HeaderIndices) : option (bytes * list HeaderIndices) :=
  match ixs with
  | [] => Some (all, [])
  | ix :: ixs' =>
      '(all', ix') ← obs_fold_line all ix;
      '(all'', ixs'') ← obs_fold_lines all' ixs';
      Some (all'', ix' :: ixs'')
  end.

Section role.
Context `{HeaderSyntax} `{HeaderMap Hm}.

(** ** How long the body of a response is *)

(** [Client::decoder]: the length and whether the connection is upgraded;
    [None] for a response to skip. *)
Definition client_decoder (inc : MessageHead Hm StatusCode) (method : option Method)
  : result Parse (option (DecodedLength * bool)) :=
  let code := subject inc in
  if code =? 101 then Ok (Some (ZERO, true))
  else if (code =? 100) || in_range 102 199 code then Ok None
  else if in_range 200 299 code && bool_decide (method = Some CONNECT) then Ok (Some (ZERO, true))
  else if (code =? 204) || (code =? 304) then Ok (Some (ZERO, false))
  else if bool_decide (method = Some HEAD) then Ok (Some (ZERO, false))
  else if hm_contains_key (head_headers inc) H_TRANSFER_ENCODING then
    if decide (version inc = HTTP_10) then Err transfer_encoding_unexpected
    else if transfer_encoding_is_chunked (head_headers inc) then Ok (Some (CHUNKED, false))
    else Ok (Some (CLOSE_DELIMITED, false))
  else
    match content_length_parse_all (head_headers inc) with
    | Some n => l ← checked_new n; Ok (Some (l, false))
    | None =>
        if hm_contains_key (head_headers inc) H_CONTENT_LENGTH then Err content_length_invalid
        else Ok (Some (CLOSE_DELIMITED, false))
    end.

(** ** Parsing a response head *)

(** The loop that fills the header map and settles keep-alive; [None] where a
    slice or a header name panics. *)
Fixpoint append_headers (slice_ : bytes) (ixs : list HeaderIndices) (headers : Hm)
    (keep_alive saw_connection_close : bool) : option (Hm * bool) :=
  match ixs with
  | [] => Some (headers, keep_alive)
  | ix :: ixs' =>
      raw ← slice (ix_name ix).1 (ix_name ix).2 slice_;
      name ← hn_from_bytes raw;
      value ← slice (ix_value ix).1 (ix_value ix).2 slice_;
      let '(keep_alive, saw) :=
        if decide (name = H_CONNECTION) then
          if saw_connection_close || connection_close value then (false, true)
          else if negb keep_alive then (connection_keep_alive value, saw_connection_close)
          else (keep_alive, saw_connection_close)
        else (keep_alive, saw_connection_close) in
      append_headers slice_ ixs' (hm_append name value headers) keep_alive saw
  end.

Context `{BytesMut V} `{HttparseResponse PC}.

(** [struct ParseContext], the part that does not change. *)
Record ParseContext : Type := MkContext {
  req_method : option Method;
  h1_parser_config : PC;
  ctx_max_headers : option Z;
  ctx_max_header_size : option Z;
  ctx_h09_responses : bool;
  on_informational : bool;
}.

(** What parsing changes: the read buffer, the cached header map, and the
    informational responses handed to the callback. *)
Record ParseState : Type := MkParseState {
  ps_buf : V;
  ps_cached : option Hm;
  ps_informed : list (MessageHead Hm StatusCode);
}.

(** What one round learns from [httparse]. *)
Record HeadInfo : Type := MkHeadInfo {
  hi_len : Z; hi_status : StatusCode; hi_reason : option bytes; hi_version : Version;
  hi_indices : list HeaderIndices;
}.

Definition parse_head (ctx : ParseContext) (bytes : bytes) : result Parse (option HeadInfo) :=
  match hp_parse_response (h1_parser_config ctx) bytes (default DEFAULT_MAX_HEADERS (ctx_max_headers ctx)) with
  | Ok (Complete res) =>
      if match ctx_max_header_size ctx with Some m => m <? hp_len res | None => false end then Err PTooLarge
      else
        status ← status_from_u16 (hp_code res);
        let reason :=
          if decide (Some (hp_reason res) ≠ canonical_reason status) then Some (hp_reason res) else None in
        let version := if hp_minor_version res =? 1 then HTTP_11 else HTTP_10 in
        ixs ← record_header_indices (hp_headers res);
        Ok (Some (MkHeadInfo (hp_len res) status reason version ixs))
  | Ok Partial => Ok None
  | Err e =>
      if decide (e = HpVersion /\ ctx_h09_responses ctx = true)
      then Ok (Some (MkHeadInfo 0 200 None HTTP_09 []))
      else Err (parse_from_httparse e)
  end.

(** [Client::parse]. A round that goes on has consumed an informational
    response, so the length of the buffer bounds the loop. *)
Fixpoint client_parse_loop (fuel : nat) (ctx : ParseContext)
  : M ParseState Parse (option (ParsedMessage Hm StatusCode)) :=
  match fuel with
  | O => fun s => (s, NoFuel)
  | S k =>
      s ← get;
      info ← lift_result (parse_head ctx (bm_bytes (ps_buf s)));
      match info with
      | None => mret None
      | Some i =>
          '(raw, buf) ← expect (bm_split_to (hi_len i) (ps_buf s));
          modify (fun s => MkParseState buf (ps_cached s) (ps_informed s));;
          '(slice_, ixs) ← expect (if hp_obs_fold_allowed (h1_parser_config ctx)
                                   then obs_fold_lines raw (hi_indices i) else Some (raw, hi_indices i));
          let headers := default hm_new (ps_cached s) in
          modify (fun s => MkParseState (ps_buf s) None (ps_informed s));;
          '(headers, keep_alive) ← expect (append_headers slice_ ixs headers
                                             (bool_decide (hi_version i = HTTP_11)) false);
          let head := MkHead (hi_version i) (hi_status i) headers (MkExtensions (hi_reason i) None false) in
          dec ← lift_result (client_decoder head (req_method ctx));
          match dec with
          | Some (decode, is_upgrade) =>
              mret (Some (MkParsed head decode false (keep_alive && negb is_upgrade) is_upgrade))
          | None =>
              (if is_informational (subject head) && on_informational ctx
               then modify (fun s => MkParseState (ps_buf s) (ps_cached s) (ps_informed s ++ [head]))
               else mret tt);;
              s ← get;
              if bool_decide (bm_bytes (ps_buf s) = []) then mret None else client_parse_loop k ctx
          end
      end
  end.

Definition client_parse (ctx : ParseContext) : M ParseState Parse (option (ParsedMessage Hm StatusCode)) :=
  fun s =>
    if bool_decide (bm_bytes (ps_buf s) = []) then (s, Panicked)
    else client_parse_loop (S (length (bm_bytes (ps_buf s)))) ctx s.

(** [parse_headers::<Client>]. *)
Definition parse_headers (prev_len : option Z) (ctx : ParseContext)
  : M ParseState Parse (option (ParsedMessage Hm StatusCode)) :=
  fun s =>
    if bool_decide (bm_bytes (ps_buf s) = []) then (s, Ready None)
    else
      match prev_len with
      | Some prev_len =>
          match is_complete_fast (bm_bytes (ps_buf s)) prev_len with
          | Some true => client_parse ctx s
          | Some false => (s, Ready None)
          | None => (s, Panicked)
          end
      | None => client_parse ctx s
      end.
End role.

(** ** Writing a request head *)

Section encode_head.
Context `{HeaderSyntax} `{HeaderMap Hm}.

(** [set_content_length]: [None] where its [debug_assert!] fires. *)
Definition set_content_length (headers : Hm) (n : Z) : option (Encoder * Hm) :=
  match hm_get_all headers H_CONTENT_LENGTH with
  | [] => Some (encoder_length n, hm_insert H_CONTENT_LENGTH (to_dec n) headers)
  | cl =>
      match content_length_parse_all_values cl with
      | Some _ => None
      | None => Some (encoder_length n, hm_insert H_CONTENT_LENGTH (to_dec n) headers)
      end
  end.

(** The fields named by the [Trailer] lines. *)
Definition allowed_trailer_fields (headers : Hm) : list bytes :=
  omap (fun s => hn_from_bytes (str_trim s))
    (concat (map (split_on COMMA) (omap hv_to_str (hm_get_all headers H_TRAILER)))).

Definition with_trailers (headers : Hm) (enc : Encoder) : Encoder :=
  if encoder_is_chunked enc then
    match allowed_trailer_fields headers with
    | [] => enc
    | fields => into_chunked_with_trailing_fields fields enc
    end
  else enc.

(** [Client::set_length]: the encoder and the headers; [None] on a panic. *)
Definition set_length (head : MessageHead Hm RequestLine) (body : option BodyLength) : option (Encoder * Hm) :=
  let headers := head_headers head in
  match body with
  | None => Some (encoder_length 0, hm_remove H_TRANSFER_ENCODING headers)
  | Some body =>
      let can_chunked := bool_decide (version head = HTTP_11) in
      let existing_con_len := content_length_parse_all headers in
      if negb can_chunked then
        let headers := hm_remove H_TRANSFER_ENCODING headers in
        match existing_con_len, body with
        | Some n, _ => Some (encoder_length n, headers)
        | None, Known n => set_content_length headers n
        | None, Unknown => Some (encoder_length 0, headers)
        end
      else if hm_contains_key headers H_TRANSFER_ENCODING then
        headers ← (if is_chunked (hm_get_all headers H_TRANSFER_ENCODING) then Some headers
                   else add_chunked H_TRANSFER_ENCODING headers);
        Some (with_trailers headers encoder_chunked, hm_remove H_CONTENT_LENGTH headers)
      else
        match existing_con_len, body with
        | Some n, _ => Some (encoder_length n, headers)
        | None, Known n => set_content_length headers n
        | None, Unknown =>
            match rl_method (subject head) with
            | GET | HEAD | CONNECT => Some (encoder_length 0, headers)
            | _ =>
                let headers := hm_insert H_TRANSFER_ENCODING (bs "chunked") headers in
                Some (with_trailers headers encoder_chunked, hm_remove H_CONTENT_LENGTH headers)
            end
        end
  end.

(** [Method::as_str]. *)
Definition method_as_str (m : Method) : bytes :=
  match m with
  | GET => bs "GET" | HEAD => bs "HEAD" | POST => bs "POST" | PUT => bs "PUT" | DELETE => bs "DELETE"
  | CONNECT => bs "CONNECT" | OPTIONS => bs "OPTIONS" | TRACE => bs "TRACE" | PATCH => bs "PATCH"
  | ExtensionMethod name => name
  end.

(** What [encode] writes through the callback of [OnPreserveHeader]. *)
Definition write_visited (fs : list (bytes * bytes)) (dst : bytes) : bytes :=
  fold_left (fun dst '(name, value) =>
    dst ++ name ++ (if decide (value = []) then bs ":" ++ CRLF else bs ": " ++ value ++ CRLF)) fs dst.

(** [struct Encode] after the call: the head, the remembered method, the bytes
    and the encoder of the body. *)
Record Encoded : Type := MkEncoded {
  enc_head : MessageHead Hm RequestLine;
  enc_req_method : option Method;
  enc_dst : bytes;
  enc_encoder : Encoder;
}.

(** [Client::encode]. *)
Definition client_encode (head : MessageHead Hm RequestLine) (body : option BodyLength) (dst : bytes)
  : option Encoded :=
  '(encoder, headers) ← set_length head body;
  let dst := dst ++ method_as_str (rl_method (subject head)) ++ [SP] ++ rl_uri (subject head) ++ [SP] in
  let dst := dst ++ match version head with HTTP_10 => bs "HTTP/1.0" | _ => bs "HTTP/1.1" end ++ CRLF in
  let dst :=
    match on_preserve_header (extensions head) with
    | Some visit => write_visited (visit headers).2 dst
    | None => write_headers headers dst
    end in
  Some (MkEncoded (set_head_headers hm_new head) (Some (rl_method (subject head))) (dst ++ CRLF) encoder).
End encode_head.
