(* ===== verification/RoleLaws.v ===== *)
(** * RoleLaws

    The decisions of [proto/http1/role.rs] against their specification: the end
    of a head, the framing of a response body, keep-alive, line unfolding and
    the framing of a request. *)

From stdpp Require Import prelude strings.
From Stdlib Require Import ZArith Lia.
From S2P Require Import Prelude Bytes Crates Errors Length Headers Decode BufList WriteBuf Transport Encode Message Role.
Local Open Scope Z_scope.

(** ** The fast scan *)

(** An empty line ends the head: LF LF, or LF CR LF (which CR LF CR LF holds). *)
Definition head_end (t : bytes) : Prop := t = [LF; LF] \/ t = [LF; CR; LF].
Definition has_head_end (s : bytes) : Prop := exists pre t suf, s = pre ++ t ++ suf /\ head_end t.

Lemma scan_complete_spec s : scan_complete s = true <-> has_head_end s.
Proof.
  split.
  - induction s as [|b s IH]; [done|]. cbn [scan_complete]. intros Hs.
    assert (Hlift : has_head_end s -> has_head_end (b :: s)).
    { intros (pre & t & suf & -> & Ht). by exists (b :: pre), t, suf. }
    destruct (b =? CR) eqn:Eb.
    + destruct (bool_decide (take 3 s = [LF; CR; LF])) eqn:Et; [|auto].
      apply bool_decide_eq_true in Et. apply Hlift. exists [], [LF; CR; LF], (drop 3 s).
      split; [|by right]. by rewrite app_nil_l, <- Et, take_drop.
    + destruct (b =? LF) eqn:El; cbn [andb] in Hs; [|auto]. zbool. subst b.
      destruct (bool_decide (head s = Some LF)) eqn:Eh; cbn [orb] in Hs.
      * apply bool_decide_eq_true in Eh. destruct s as [|c s]; [done|]. simplify_eq/=.
        exists [], [LF; LF], s. split; [done|by left].
      * destruct (bool_decide (take 2 s = [CR; LF])) eqn:Et; [|auto]. apply bool_decide_eq_true in Et.
        exists [], [LF; CR; LF], (drop 2 s). split; [|by right].
        change (LF :: s = LF :: [CR; LF] ++ drop 2 s). f_equal. by rewrite <- Et, take_drop.
  - intros (pre & t & suf & -> & Ht). induction pre as [|b pre IH].
    + by destruct Ht as [-> | ->].
    + cbn [app scan_complete]. repeat case_match; done.
Qed.

Lemma slice_ok a b s : 0 <= a -> a <= b -> b <= len s -> slice a b s = Some (ztake (b - a) (zdrop a s)).
Proof. intros. unfold slice. by rewrite !(proj2 (Z.leb_le _ _)) by done. Qed.

Lemma slice_some a b s v : slice a b s = Some v -> 0 <= a <= b /\ b <= len s /\ v = ztake (b - a) (zdrop a s).
Proof. unfold slice. destruct (_ && _) eqn:E; [|done]. zbool. intros [= <-]. done. Qed.

(** The incremental scan for the end of a head is exact: when the first
    [prev_len] bytes were already known to hold no empty line, looking only at
    the last three of them and what follows finds one exactly when the whole
    buffer has one, so no complete head is overlooked and none is invented. *)
Theorem is_complete_fast_exact s prev_len :
  0 <= prev_len <= len s -> ~ has_head_end (ztake prev_len s) ->
  exists r, is_complete_fast s prev_len = Some r /\ (r = true <-> has_head_end s).
Proof.
  intros Hp Hno. unfold is_complete_fast, saturating_sub.
  rewrite slice_ok by lia. rewrite ztake_all by (rewrite len_zdrop by lia; lia).
  eexists. split; [done|]. rewrite scan_complete_spec. set (start := Z.max 0 (prev_len - 3)). split.
  - intros (pre & t & suf & Hs & Ht). exists (ztake start s ++ pre), t, suf.
    rewrite <- app_assoc, <- Hs, ztake_zdrop. done.
  - intros (pre & t & suf & Hs & Ht).
    assert (Hlt : len t <= 3) by (by destruct Ht as [-> | ->]).
    destruct (decide (start <= len pre)) as [Hle|Hgt].
    + exists (zdrop start pre), t, suf. split; [|done]. rewrite Hs, zdrop_app by lia. f_equal.
      unfold zdrop. by replace (Z.to_nat (start - len pre)) with 0%nat by lia.
    + exfalso. unfold start in Hgt. pose proof (len_nonneg pre). apply Hno. exists pre, t, (ztake (prev_len - len pre - len t) suf). split; [|done].
      rewrite Hs, ztake_app, ztake_app by lia.
      rewrite (ztake_all prev_len pre), (ztake_all (prev_len - len pre) t) by lia. done.
Qed.

Lemma is_complete_fast_exact_witness :
  exists r, is_complete_fast (bs "A: b" ++ CRLF ++ CRLF) 7 = Some r /\
    (r = true <-> has_head_end (bs "A: b" ++ CRLF ++ CRLF)).
Proof.
  apply is_complete_fast_exact; [done|]. rewrite <- scan_complete_spec. vm_compute. done.
Defined.

(** ** Response framing *)

Section framing.
Context `{HeaderSyntax} `{HeaderMap Hm}.
Implicit Type inc : MessageHead Hm StatusCode.

(** Responses that carry a body (RFC 9112, 6.3, rules 1 and 2 do not apply). *)
Definition may_have_body inc (m : option Method) : Prop :=
  ~ 100 <= subject inc <= 199 /\ ~ (200 <= subject inc <= 299 /\ m = Some CONNECT) /\
  subject inc ≠ 204 /\ subject inc ≠ 304 /\ m ≠ Some HEAD.

(** RFC 9112, section 6.3, as a set of rules. *)
Inductive response_framing inc (m : option Method) : result Parse (option (DecodedLength * bool)) -> Prop :=
| framing_switching : subject inc = 101 -> response_framing inc m (Ok (Some (ZERO, true)))
| framing_skipped : 100 <= subject inc <= 199 -> subject inc ≠ 101 -> response_framing inc m (Ok None)
| framing_tunnel : 200 <= subject inc <= 299 -> m = Some CONNECT -> response_framing inc m (Ok (Some (ZERO, true)))
| framing_no_body :
    ~ 100 <= subject inc <= 199 -> ~ (200 <= subject inc <= 299 /\ m = Some CONNECT) ->
    subject inc = 204 \/ subject inc = 304 \/ m = Some HEAD ->
    response_framing inc m (Ok (Some (ZERO, false)))
| framing_te_http10 :
    may_have_body inc m -> hm_get_all (head_headers inc) H_TRANSFER_ENCODING ≠ [] -> version inc = HTTP_10 ->
    response_framing inc m (Err transfer_encoding_unexpected)
| framing_chunked :
    may_have_body inc m -> hm_get_all (head_headers inc) H_TRANSFER_ENCODING ≠ [] -> version inc ≠ HTTP_10 ->
    transfer_encoding_is_chunked (head_headers inc) = true ->
    response_framing inc m (Ok (Some (CHUNKED, false)))
| framing_te_close :
    may_have_body inc m -> hm_get_all (head_headers inc) H_TRANSFER_ENCODING ≠ [] -> version inc ≠ HTTP_10 ->
    transfer_encoding_is_chunked (head_headers inc) = false ->
    response_framing inc m (Ok (Some (CLOSE_DELIMITED, false)))
| framing_length n :
    may_have_body inc m -> hm_get_all (head_headers inc) H_TRANSFER_ENCODING = [] ->
    content_length_parse_all (head_headers inc) = Some n -> n <= MAX_LEN ->
    response_framing inc m (Ok (Some (DL n, false)))
| framing_too_large n :
    may_have_body inc m -> hm_get_all (head_headers inc) H_TRANSFER_ENCODING = [] ->
    content_length_parse_all (head_headers inc) = Some n -> MAX_LEN < n ->
    response_framing inc m (Err PTooLarge)
| framing_bad_length :
    may_have_body inc m -> hm_get_all (head_headers inc) H_TRANSFER_ENCODING = [] ->
    content_length_parse_all (head_headers inc) = None ->
    hm_get_all (head_headers inc) H_CONTENT_LENGTH ≠ [] ->
    response_framing inc m (Err content_length_invalid)
| framing_close :
    may_have_body inc m -> hm_get_all (head_headers inc) H_TRANSFER_ENCODING = [] ->
    hm_get_all (head_headers inc) H_CONTENT_LENGTH = [] ->
    response_framing inc m (Ok (Some (CLOSE_DELIMITED, false))).

(** A head is framed by one rule only. *)
Lemma parse_all_absent (h : Hm) :
  hm_get_all h H_CONTENT_LENGTH = [] -> content_length_parse_all h = None.
Proof. unfold content_length_parse_all. intros ->. done. Qed.

Lemma client_decoder_framing inc m : response_framing inc m (client_decoder inc m).
Proof.
  unfold client_decoder, in_range.
  destruct (subject inc =? 101) eqn:E101; zbool; [by constructor|].
  destruct ((subject inc =? 100) || _) eqn:E1.
  { apply framing_skipped; [|done]. apply orb_true_iff in E1 as [E1|E1]; zbool; lia. }
  apply orb_false_iff in E1 as [E1 E1']. apply andb_false_iff in E1'.
  assert (H1xx : ~ 100 <= subject inc <= 199) by (destruct E1'; zbool; lia).
  destruct (((200 <=? subject inc) && (subject inc <=? 299)) && bool_decide (m = Some CONNECT)) eqn:E2.
  { zbool. apply framing_tunnel; [lia|]. by eapply bool_decide_eq_true. }
  assert (H2xx : ~ (200 <= subject inc <= 299 /\ m = Some CONNECT)).
  { intros [? ->]. rewrite bool_decide_true in E2 by done.
    rewrite !(proj2 (Z.leb_le _ _)) in E2 by lia. done. }
  destruct ((subject inc =? 204) || (subject inc =? 304)) eqn:E3.
  { apply framing_no_body; try done. apply orb_true_iff in E3 as [E3|E3]; zbool; auto. }
  destruct (bool_decide (m = Some HEAD)) eqn:E4.
  { apply bool_decide_eq_true in E4. apply framing_no_body; auto. }
  apply bool_decide_eq_false in E4. apply orb_false_iff in E3 as [E3 E3']. zbool.
  assert (Hbody : may_have_body inc m) by (by split_and!).
  destruct (hm_contains_key (head_headers inc) H_TRANSFER_ENCODING) eqn:Ete.
  - apply hm_contains_key_get_all in Ete.
    destruct (decide (version inc = HTTP_10)); [by apply framing_te_http10|].
    destruct (transfer_encoding_is_chunked _) eqn:Ec; [by apply framing_chunked|by apply framing_te_close].
  - apply hm_contains_key_absent in Ete as Hte.
    destruct (content_length_parse_all (head_headers inc)) as [n|] eqn:Ecl.
    + unfold checked_new. destruct (n <=? MAX_LEN) eqn:En; zbool; cbn [mbind result_bind].
      * by apply framing_length.
      * by apply (framing_too_large _ _ n).
    + destruct (hm_contains_key (head_headers inc) H_CONTENT_LENGTH) eqn:Ek.
      * apply hm_contains_key_get_all in Ek. by apply framing_bad_length.
      * apply framing_close; try done. by apply hm_contains_key_absent.
Qed.

Lemma response_framing_functional inc m r1 r2 :
  response_framing inc m r1 -> response_framing inc m r2 -> r1 = r2.
Proof.
  intros [] []; try done; unfold may_have_body in *; try lia; try congruence;
    try match goal with H : hm_get_all _ H_CONTENT_LENGTH = [] |- _ => pose proof (parse_all_absent _ H) end;
    try congruence; exfalso; simplify_eq; try lia; intuition (lia || congruence).
Qed.
End framing.

(** How long a response body is follows RFC 9112, section 6.3, exactly: the
    decision of [Client::decoder] is the one of the rules for status codes,
    methods, [Transfer-Encoding] and [Content-Length], and no other. In
    particular a length is never read from a message with a
    [Transfer-Encoding], and conflicting lengths are an error. *)
Theorem client_decoder_rfc `{HeaderSyntax} `{HeaderMap Hm} (inc : MessageHead Hm StatusCode) m r :
  client_decoder inc m = r <-> response_framing inc m r.
Proof.
  split; [intros <-; apply client_decoder_framing|].
  intros Hr. eapply response_framing_functional; [apply client_decoder_framing|exact Hr].
Qed.

(** ** Keep-alive *)

Section keep_alive.
Context `{HeaderSyntax} `{HeaderMapLaws Hm}.

(** The fields of a head, as [append_headers] reads them. *)
Fixpoint read_fields (s : bytes) (ixs : list HeaderIndices) : option (list (bytes * bytes)) :=
  match ixs with
  | [] => Some []
  | ix :: ixs' =>
      raw ← slice (ix_name ix).1 (ix_name ix).2 s;
      name ← hn_from_bytes raw;
      value ← slice (ix_value ix).1 (ix_value ix).2 s;
      fs ← read_fields s ixs';
      Some ((name, value) :: fs)
  end.

Definition connection_values (fs : list (bytes * bytes)) : list bytes :=
  (filter (fun f => f.1 = H_CONNECTION) fs).*2.

(** Closing wins; otherwise the default of the version, or [keep-alive]. *)
Definition keep_alive_of (default : bool) (vs : list bytes) : bool :=
  negb (existsb connection_close vs) && (default || existsb connection_keep_alive vs).

Lemma append_headers_fields s ixs h ka saw :
  (saw = true -> ka = false) ->
  append_headers s ixs h ka saw =
    (fs ← read_fields s ixs;
     Some (fold_left (fun h f => hm_append f.1 f.2 h) fs h,
           negb saw && keep_alive_of ka (connection_values fs))).
Proof.
  revert h ka saw. induction ixs as [|ix ixs IH]; intros h ka saw Hsaw.
  { unfold keep_alive_of. cbn. destruct saw; [rewrite Hsaw by done; done|]. by rewrite orb_false_r. }
  cbn [append_headers read_fields].
  destruct (slice (ix_name ix).1 (ix_name ix).2 s) as [raw|]; [|done]. cbn [mbind option_bind].
  destruct (hn_from_bytes raw) as [name|]; [|done]. cbn [mbind option_bind].
  destruct (slice (ix_value ix).1 (ix_value ix).2 s) as [value|]; [|done]. cbn [mbind option_bind].
  destruct (decide (name = H_CONNECTION)) as [->|Hn].
  - destruct (saw || connection_close value) eqn:Eclose; [|destruct ka eqn:Eka; cbn [negb]].
    all: rewrite IH by (try done; intros ->; done || (specialize (Hsaw eq_refl); congruence)).
    all: destruct (read_fields s ixs) as [fs|]; cbn [mbind option_bind]; [|done].
    all: do 2 f_equal; unfold keep_alive_of, connection_values; rewrite filter_cons_True by done; cbn.
    + apply orb_true_iff in Eclose as [-> | ->]; [done|]. cbn. by rewrite andb_false_r.
    + apply orb_false_iff in Eclose as [-> ->]. done.
    + apply orb_false_iff in Eclose as [-> ->]. done.
  - rewrite IH by done. destruct (read_fields s ixs) as [fs|]; cbn [mbind option_bind]; [|done].
    unfold connection_values. by rewrite filter_cons_False.
Qed.
End keep_alive.

(** Whether a response allows the connection to be reused depends only on
    the version and the [Connection] values, not on their order: any [close]
    forbids it, otherwise HTTP/1.1 allows it and older versions need a
    [keep-alive]. Every field of the head ends up in the header map. *)
Theorem keep_alive_close_wins `{HeaderSyntax} `{HeaderMapLaws Hm} s ixs (h h' : Hm) default ka :
  append_headers s ixs h default false = Some (h', ka) ->
  exists fs, read_fields s ixs = Some fs /\
    ka = negb (existsb connection_close (connection_values fs)) &&
         (default || existsb connection_keep_alive (connection_values fs)) /\
    h' = fold_left (fun h f => hm_append f.1 f.2 h) fs h.
Proof.
  rewrite append_headers_fields by done. destruct (read_fields s ixs) as [fs|]; [|done].
  intros [= <- <-]. by exists fs.
Qed.

(** ** Framing a request *)

Section set_length.
Context `{HeaderSyntaxLaws} `{HeaderMapLaws Hm}.

(** The framing headers say what the encoder will do. *)
Definition framed (v : Version) (e : Encoder) (h : Hm) : Prop :=
  match enc_kind e with
  | EncChunked _ =>
      v = HTTP_11 /\ transfer_encoding_is_chunked h = true /\ hm_get_all h H_CONTENT_LENGTH = []
  | EncLength n =>
      hm_get_all h H_TRANSFER_ENCODING = [] /\ (n = 0 \/ content_length_parse_all h = Some n)
  end.

Lemma to_dec_visible n : is_u64 n -> forallb visible_ascii (to_dec n) = true.
Proof.
  intros Hn. destruct (to_dec_spec n Hn) as (ds & -> & Hds & _ & _).
  induction Hds as [|d ds Hd _ IH]; [done|]. simpl. rewrite IH, andb_true_r.
  unfold visible_ascii, in_range, hex_digit. destruct (d <? 10) eqn:E; zbool; [|lia].
  by rewrite !(proj2 (Z.leb_le _ _)) by lia.
Qed.

Lemma to_dec_no_comma n : is_u64 n -> split_on COMMA (to_dec n) = [to_dec n].
Proof.
  intros Hn. apply split_on_no_sep. destruct (to_dec_spec n Hn) as (ds & -> & Hds & _ & _).
  intros Hin. apply list_elem_of_fmap in Hin as (d & Hd & Hin). rewrite Forall_forall in Hds.
  specialize (Hds d Hin). unfold hex_digit, COMMA in Hd. destruct (d <? 10) eqn:E; zbool; lia.
Qed.

Lemma content_length_inserted (h : Hm) n :
  is_u64 n -> content_length_parse_all (hm_insert H_CONTENT_LENGTH (to_dec n) h) = Some n.
Proof.
  intros Hn. unfold content_length_parse_all. rewrite hm_get_all_insert, decide_True by done.
  apply content_length_parse_all_values_some. split; [done|]. split.
  - constructor; [|constructor]. apply hv_to_str_visible, to_dec_visible, Hn.
  - unfold field_tokens. simpl. rewrite to_dec_no_comma, app_nil_r by done. constructor; [|constructor].
    unfold token_is. rewrite str_trim_id; [by apply from_digits_to_dec|].
    destruct (to_dec_spec n Hn) as (ds & -> & Hds & _ & _). apply Forall_map.
    eapply Forall_impl; [exact Hds|]. intros d Hd. cbn beta in Hd. unfold compose, hex_digit, char_is_whitespace, in_range.
    destruct (d <? 10) eqn:E; zbool; [|lia].
    rewrite (proj2 (Z.eqb_neq (48 + d) 32)), (proj2 (Z.leb_gt (48 + d) 13)) by lia. by rewrite andb_false_r.
Qed.

Lemma set_content_length_framed (h : Hm) n v :
  is_u64 n -> hm_get_all h H_TRANSFER_ENCODING = [] -> content_length_parse_all h = None ->
  exists e h', set_content_length h n = Some (e, h') /\ framed v e h'.
Proof.
  intros Hn Hte Hcl. unfold set_content_length, content_length_parse_all in *.
  assert (Hf : framed v (encoder_length n) (hm_insert H_CONTENT_LENGTH (to_dec n) h)).
  { split; [by rewrite hm_get_all_insert, decide_False|]. right. by apply content_length_inserted. }
  destruct (hm_get_all h H_CONTENT_LENGTH); [eauto|]. rewrite Hcl. eauto.
Qed.

Lemma with_trailers_chunked (h : Hm) :
  exists tr, enc_kind (with_trailers h encoder_chunked) = EncChunked tr /\
    is_last (with_trailers h encoder_chunked) = false.
Proof. unfold with_trailers. cbn. destruct (allowed_trailer_fields h); eauto. Qed.

Lemma chunked_framed (h : Hm) :
  transfer_encoding_is_chunked h = true ->
  framed HTTP_11 (with_trailers h encoder_chunked) (hm_remove H_CONTENT_LENGTH h).
Proof.
  intros Hc. unfold framed. destruct (with_trailers_chunked h) as (tr & -> & _).
  unfold transfer_encoding_is_chunked in *. by rewrite !hm_get_all_remove, decide_False, decide_True.
Qed.
End set_length.

Definition body_ok (body : BodyLength) : Prop :=
  match body with Known n => is_u64 n | Unknown => True end.

Lemma set_length_post `{HeaderSyntaxLaws} `{HeaderMapLaws Hm} (head : MessageHead Hm RequestLine) body :
  body_ok body ->
  Forall (fun v => forallb visible_ascii v = true) (hm_get_all (head_headers head) H_TRANSFER_ENCODING) ->
  exists e h', set_length head (Some body) = Some (e, h') /\ framed (version head) e h'.
Proof.
  intros Hb Hv. unfold set_length. set (h := head_headers head) in *.
  assert (Hnc : forall n, hm_get_all (hm_remove H_TRANSFER_ENCODING h) n =
    if decide (n = H_TRANSFER_ENCODING) then [] else hm_get_all h n) by (intros; apply hm_get_all_remove).
  destruct (decide (version head = HTTP_11)) as [Hver|Hver].
  - rewrite (bool_decide_true _ Hver), Hver. cbn [negb].
    destruct (hm_contains_key h H_TRANSFER_ENCODING) eqn:Ek.
    + destruct (is_chunked (hm_get_all h H_TRANSFER_ENCODING)) eqn:Ec; cbn [mbind option_bind].
      * eexists _, _. split; [done|]. by apply chunked_framed.
      * destruct (add_chunked_chunked h Hv) as (h' & -> & Hc & _). cbn [mbind option_bind].
        eexists _, _. split; [done|]. by apply chunked_framed.
    + apply hm_contains_key_absent in Ek as Hte. destruct (content_length_parse_all h) as [n|] eqn:Ecl.
      * eexists _, _. split; [done|]. split; auto.
      * destruct body as [n|]; [by apply set_content_length_framed|].
        assert (Hlen0 : exists e h', Some (encoder_length 0, h) = Some (e, h') /\ framed HTTP_11 e h').
        { eexists _, _. split; [done|]. split; auto. }
        assert (Hins : exists e h', Some (with_trailers (hm_insert H_TRANSFER_ENCODING (bs "chunked") h) encoder_chunked,
            hm_remove H_CONTENT_LENGTH (hm_insert H_TRANSFER_ENCODING (bs "chunked") h)) = Some (e, h') /\ framed HTTP_11 e h').
        { eexists _, _. split; [done|]. apply chunked_framed. unfold transfer_encoding_is_chunked.
          rewrite hm_get_all_insert, decide_True by done. unfold is_chunked. simpl.
          by rewrite hv_to_str_visible. }
        destruct (rl_method (subject head)); done.
  - rewrite (bool_decide_false _ Hver). cbn [negb].
    destruct (content_length_parse_all h) as [n|] eqn:Ecl.
    + eexists _, _. split; [done|]. split; [by rewrite Hnc, decide_True|]. right. unfold content_length_parse_all in *.
      by rewrite Hnc, decide_False.
    + destruct body as [n|].
      * apply set_content_length_framed; [done|by rewrite Hnc, decide_True|].
        unfold content_length_parse_all in *. by rewrite Hnc, decide_False.
      * eexists _, _. split; [done|]. split; [by rewrite Hnc, decide_True|by left].
Qed.

(** The encoder of a request is fresh and its length, if any, a [u64]. *)
Lemma set_length_encoder `{HeaderSyntaxLaws} `{HeaderMap Hm} (head : MessageHead Hm RequestLine) body e h' :
  match body with Some b => body_ok b | None => True end ->
  set_length head body = Some (e, h') -> is_last e = false /\ forall n, enc_kind e = EncLength n -> is_u64 n.
Proof.
  intros Hb. assert (Hlen : forall n, is_u64 n -> is_last (encoder_length n) = false /\
    forall m, enc_kind (encoder_length n) = EncLength m -> is_u64 m) by (intros n Hn; split; [done|by intros m [= <-]]).
  assert (Hzero : is_u64 0) by (split; vm_compute; done).
  assert (Hset : forall h n e h', is_u64 n -> set_content_length h n = Some (e, h') ->
    is_last e = false /\ forall m, enc_kind e = EncLength m -> is_u64 m).
  { intros h n e0 h0 Hn. unfold set_content_length. repeat case_match; intros [= <- <-]; by apply Hlen. }
  assert (Hch : forall h, is_last (with_trailers h encoder_chunked) = false /\
    forall m, enc_kind (with_trailers h encoder_chunked) = EncLength m -> is_u64 m).
  { intros h. destruct (with_trailers_chunked h) as (tr & -> & ->). done. }
  destruct body as [body|]; cbn [set_length]; [|intros [= <- <-]; by apply Hlen].
  destruct (content_length_parse_all (head_headers head)) as [n|] eqn:Ecl.
  - apply content_length_u64 in Ecl. destruct (negb _); [intros [= <- <-]; by apply Hlen|].
    destruct (hm_contains_key _ _); [|intros [= <- <-]; by apply Hlen].
    destruct (if is_chunked _ then _ else _); [|done]. cbn [mbind option_bind]. intros [= <- <-]. apply Hch.
  - destruct (negb _); [destruct body; [by apply Hset|intros [= <- <-]; by apply Hlen]|].
    destruct (hm_contains_key _ _).
    + destruct (if is_chunked _ then _ else _); [|done]. cbn [mbind option_bind]. intros [= <- <-]. apply Hch.
    + destruct body; [by apply Hset|].
      destruct (rl_method _); intros [= <- <-]; first [by apply Hlen|apply Hch].
Qed.

(** A request is framed unambiguously: the headers written announce exactly
    what the body encoder does. A chunked body goes out only on HTTP/1.1, with
    [chunked] as the last transfer coding and no [Content-Length]; any other
    body goes out without [Transfer-Encoding] and with a [Content-Length] equal
    to the encoder's limit (or is empty). Preparing the headers never panics. *)
Theorem set_length_framed `{HeaderSyntaxLaws} `{HeaderMapLaws Hm} (head : MessageHead Hm RequestLine) body :
  body_ok body ->
  Forall (fun v => forallb visible_ascii v = true) (hm_get_all (head_headers head) H_TRANSFER_ENCODING) ->
  exists e h', set_length head (Some body) = Some (e, h') /\ framed (version head) e h'.
Proof. apply set_length_post. Qed.

(** ** Unfolding *)

Lemma position_lf_spec s :
  match position_lf s with
  | None => LF ∉ s
  | Some i => 0 <= i < len s /\ (LF ∉ ztake i s) /\ s = ztake i s ++ LF :: zdrop (i + 1) s
  end.
Proof.
  induction s as [|b s IH]; [apply not_elem_of_nil|]. cbn [position_lf].
  rewrite len_cons. pose proof (len_nonneg s).
  destruct (b =? LF) eqn:E; zbool.
  { subst b. split_and!; [lia|lia|apply not_elem_of_nil|done]. }
  destruct (position_lf s) as [i|]; cbn [fmap option_fmap option_map]; [|set_solver].
  destruct IH as (Hi & Hin & Hs). unfold ztake, zdrop in *.
  replace (Z.to_nat (Z.succ i)) with (S (Z.to_nat i)) by lia.
  replace (Z.to_nat (Z.succ i + 1)) with (S (Z.to_nat (i + 1))) by lia.
  split_and!; [lia|lia|set_solver|]. cbn [take drop app]. by f_equal.
Qed.

Lemma infix_length (k1 k2 s t : bytes) : s = k1 ++ t ++ k2 -> (length t <= length s)%nat.
Proof. intros ->. rewrite !length_app. lia. Qed.

Lemma fold_trim_infix s : exists k1 k2, s = k1 ++ fold_trim s ++ k2.
Proof.
  unfold fold_trim, fold_trim_end. destruct (trim_end_with_prefix is_ascii_whitespace s) as [k2 H2].
  destruct (trim_start_with_suffix is_ascii_whitespace (trim_end_with is_ascii_whitespace s)) as [k1 H1].
  exists k1, k2. by rewrite app_assoc, <- H1.
Qed.

Lemma fold_unfolded (f : bytes -> bytes) ls acc :
  fold_left (fun acc line => acc ++ [SP] ++ f line) ls acc = acc ++ concat (map (fun l => SP :: f l) ls).
Proof.
  revert acc. induction ls as [|l ls IH]; intros acc; simpl; [by rewrite app_nil_r|].
  by rewrite IH, <- app_assoc.
Qed.

Lemma unfolded_lines ls :
  Forall (fun l => LF ∉ l) ls ->
  (length (concat (map (fun l => SP :: fold_trim l) ls)) <= length (concat ls) + length ls)%nat /\
  (LF ∉ concat (map (fun l => SP :: fold_trim l) ls)).
Proof.
  induction 1 as [|l ls Hl _ [IHl IHn]]; [split; [done|apply not_elem_of_nil]|].
  destruct (fold_trim_infix l) as (k1 & k2 & Hk). pose proof (infix_length _ _ _ _ Hk).
  cbn [map concat]. rewrite !length_app. simpl length. split; [lia|].
  rewrite Hk in Hl. rewrite !not_elem_of_app in Hl. simpl. rewrite not_elem_of_cons, not_elem_of_app.
  split; [done|]. split; [apply Hl|done].
Qed.

Lemma obs_fold_line_spec all idx :
  0 <= (ix_value idx).1 <= (ix_value idx).2 -> (ix_value idx).2 <= len all ->
  exists all' v1, obs_fold_line all idx = Some (all', MkIndices (ix_name idx) ((ix_value idx).1, v1)) /\
    (ix_value idx).1 <= v1 <= (ix_value idx).2 /\ len all' = len all /\
    ztake (ix_value idx).1 all' = ztake (ix_value idx).1 all /\
    zdrop (ix_value idx).2 all' = zdrop (ix_value idx).2 all /\
    (LF ∉ ztake (v1 - (ix_value idx).1) (zdrop (ix_value idx).1 all')).
Proof.
  destruct idx as [nm [v0 v1]]. cbn [ix_value ix_name fst snd]. intros Hv Hlen.
  unfold obs_fold_line. cbn [ix_value ix_name]. rewrite slice_ok by lia. cbn [mbind option_bind].
  set (buf := ztake (v1 - v0) (zdrop v0 all)).
  assert (Hbuf : len buf = v1 - v0) by (unfold buf; rewrite len_ztake, len_zdrop by lia; lia).
  pose proof (position_lf_spec buf) as Hpos. destruct (position_lf buf) as [i|].
  2: { exists all, v1. split_and!; done || lia. }
  destruct Hpos as (Hi & Hnolf & Hsplit). rewrite fold_unfolded.
  set (U := _ ++ concat _).
  destruct (unfolded_lines (split_on LF (zdrop (i + 1) buf)) (split_on_pieces LF _)) as [Hl2 Hn2].
  rewrite split_on_length in Hl2.
  destruct (trim_end_with_prefix is_ascii_whitespace (ztake i buf)) as [k Hk].
  fold (fold_trim_end (ztake i buf)) in Hk.
  assert (HU : len U <= len buf).
  { unfold U, len. rewrite length_app. apply (f_equal length) in Hk. rewrite length_app in Hk.
    unfold ztake in Hk at 1. rewrite length_take in Hk. unfold zdrop in Hl2. rewrite length_drop in Hl2.
    unfold zdrop, len in *. lia. }
  assert (HnU : LF ∉ U).
  { unfold U. rewrite not_elem_of_app. split; [|done]. rewrite Hk, not_elem_of_app in Hnolf. apply Hnolf. }
  rewrite (proj2 (Z.leb_le _ _)) by done. pose proof (len_nonneg U).
  eexists _, (v0 + len U). split; [reflexivity|].
  assert (Ht : len (ztake v0 all) = v0) by (rewrite len_ztake by lia; lia).
  split_and!; [lia|lia| | | |].
  - rewrite !len_app, Ht, len_zdrop by lia. lia.
  - rewrite <- Ht at 1. apply ztake_len_app.
  - rewrite (app_assoc _ U), zdrop_app, zdrop_all, app_nil_l by (rewrite ?len_app; lia).
    rewrite len_app, Ht, zdrop_zdrop by lia. f_equal. lia.
  - replace (v0 + len U - v0) with (len U) by lia.
    rewrite <- Ht at 1. rewrite zdrop_len_app, ztake_len_app. done.
Qed.

Lemma obs_fold_line_total all idx :
  0 <= (ix_value idx).1 <= (ix_value idx).2 -> (ix_value idx).2 <= len all ->
  exists all' v1, obs_fold_line all idx = Some (all', MkIndices (ix_name idx) ((ix_value idx).1, v1)) /\
    (ix_value idx).1 <= v1 <= (ix_value idx).2 /\ len all' = len all /\
    ztake (ix_value idx).1 all' = ztake (ix_value idx).1 all /\
    zdrop (ix_value idx).2 all' = zdrop (ix_value idx).2 all.
Proof.
  intros Hv Hl. destruct (obs_fold_line_spec all idx Hv Hl) as (all' & v1 & ? & ? & ? & ? & ? & _).
  by exists all', v1.
Qed.

(** Unfolding an obsolete multi-line value is safe and complete: it never
    runs past the value, leaves every byte outside the value in place and the
    message at its length, can only shorten the value, and the value it leaves
    holds no line feed. *)
Theorem obs_fold_line_safe all idx :
  0 <= (ix_value idx).1 <= (ix_value idx).2 -> (ix_value idx).2 <= len all ->
  exists all' v1, obs_fold_line all idx = Some (all', MkIndices (ix_name idx) ((ix_value idx).1, v1)) /\
    (ix_value idx).1 <= v1 <= (ix_value idx).2 /\ len all' = len all /\
    ztake (ix_value idx).1 all' = ztake (ix_value idx).1 all /\
    zdrop (ix_value idx).2 all' = zdrop (ix_value idx).2 all /\
    (LF ∉ ztake (v1 - (ix_value idx).1) (zdrop (ix_value idx).1 all')).
Proof. apply obs_fold_line_spec. Qed.

Section witnesses.
Import Concrete.

Lemma keep_alive_close_wins_witness :
  exists fs, read_fields (bs "connectionkeep-aliveconnectionclose")
      [MkIndices (0, 10) (10, 20); MkIndices (20, 30) (30, 35)] = Some fs /\
    false = negb (existsb connection_close (connection_values fs)) &&
         (true || existsb connection_keep_alive (connection_values fs)) /\
    HMap [(bs "connection", bs "keep-alive"); (bs "connection", bs "close")] =
      fold_left (fun h f => hm_append f.1 f.2 h) fs (HMap []).
Proof.
  refine (keep_alive_close_wins (Hm := hmap) _ _ (HMap []) _ true false _). vm_compute. reflexivity.
Defined.

Definition demo_request : MessageHead hmap RequestLine :=
  MkHead HTTP_11 (MkRequestLine POST (bs "/")) (HMap [(H_TRANSFER_ENCODING, bs "gzip"); (H_CONTENT_LENGTH, bs "3")])
    extensions_default.

Lemma set_length_framed_witness :
  exists e h', set_length demo_request (Some Unknown) = Some (e, h') /\ framed HTTP_11 e h'.
Proof. apply (set_length_framed demo_request Unknown); [done|]. repeat constructor. Defined.

Lemma obs_fold_line_safe_witness :
  exists all' v1, obs_fold_line (bs "A: b" ++ CRLF ++ bs " c" ++ CRLF) (MkIndices (0, 1) (3, 8)) =
      Some (all', MkIndices (0, 1) (3, v1)) /\
    3 <= v1 <= 8 /\ len all' = 10 /\ ztake 3 all' = bs "A: " /\ zdrop 8 all' = CRLF /\
    (LF ∉ ztake (v1 - 3) (zdrop 3 all')).
Proof.
  refine (obs_fold_line_safe (bs "A: b" ++ CRLF ++ bs " c" ++ CRLF) (MkIndices (0, 1) (3, 8)) _ _).
  - split; done.
  - done.
Defined.
End witnesses.
