(* ===== verification/RoleParse.v ===== *)
(** * RoleParse

    Parsing a response head is safe: over any [httparse] that keeps its
    documented promises, [Client::parse] neither panics nor loops, whatever the
    peer sends, and consumes whole heads from the front of the buffer. *)

From stdpp Require Import prelude strings.
From Stdlib Require Import ZArith Lia.
From S2P Require Import Prelude Bytes Crates Errors Length Headers Decode BufList WriteBuf Transport Encode Message Role RoleLaws.
Local Open Scope Z_scope.

(** ** Where the fields of a head are *)

Section layout.
Context `{HeaderSyntax}.

(** The fields lie one after the other, names before values, from [from] on,
    and every name is valid. *)
Fixpoint layout (s : bytes) (from : Z) (ixs : list HeaderIndices) : Prop :=
  match ixs with
  | [] => True
  | ix :: ixs' =>
      from <= (ix_name ix).1 <= (ix_name ix).2 /\ (ix_name ix).2 <= (ix_value ix).1 <= (ix_value ix).2 /\
      (ix_value ix).2 <= len s /\
      is_Some (hn_from_bytes (ztake ((ix_name ix).2 - (ix_name ix).1) (zdrop (ix_name ix).1 s))) /\
      layout s (ix_value ix).2 ixs'
  end.

(** Bytes before [from] do not matter. *)
Lemma layout_suffix s s' from ixs :
  0 <= from -> len s' = len s -> zdrop from s' = zdrop from s -> layout s from ixs -> layout s' from ixs.
Proof.
  revert from. induction ixs as [|ix ixs IH]; intros from Hf Hl Hd; [done|]. simpl.
  intros (Hn & Hv & Hend & Hname & Hrest).
  assert (Hz : forall k, from <= k -> zdrop k s' = zdrop k s).
  { intros k Hk. replace k with (from + (k - from)) by lia. rewrite <- !zdrop_zdrop by lia. by rewrite Hd. }
  split_and!; try lia; [by rewrite Hz by lia|]. apply IH; [lia|done|apply Hz; lia|done].
Qed.

Lemma layout_weaken s from from' ixs : from' <= from -> layout s from ixs -> layout s from' ixs.
Proof. destruct ixs as [|ix ixs]; [done|]. simpl. intros Hf (Hn & ?). split_and!; try lia; intuition. Qed.

Lemma ztake_zdrop_prefix (a b v : Z) (s s' : bytes) :
  0 <= a -> a <= b -> b <= v -> ztake v s' = ztake v s -> ztake (b - a) (zdrop a s') = ztake (b - a) (zdrop a s).
Proof.
  intros Ha Hab Hbv Heq.
  assert (Hgen : forall t : bytes, ztake (b - a) (zdrop a t) = zdrop a (ztake b (ztake v t))).
  { intros t. unfold ztake, zdrop. rewrite take_take. replace (Nat.min _ _) with (Z.to_nat b) by lia.
    rewrite skipn_firstn_comm. f_equal. lia. }
  by rewrite !Hgen, Heq.
Qed.

Lemma obs_fold_lines_layout s from ixs :
  0 <= from -> layout s from ixs ->
  exists s' ixs', obs_fold_lines s ixs = Some (s', ixs') /\ len s' = len s /\
    ztake from s' = ztake from s /\ layout s' from ixs'.
Proof.
  revert s from. induction ixs as [|ix ixs IH]; intros s from Hf Hlay; [by exists s, []|].
  destruct Hlay as (Hn & Hv & Hend & Hname & Hrest). cbn [obs_fold_lines].
  destruct (obs_fold_line_total s ix) as (s1 & v1 & -> & Hv1 & Hl1 & Ht1 & Hd1); [lia|lia|].
  cbn [mbind option_bind].
  destruct (IH s1 (ix_value ix).2) as (s2 & ixs2 & -> & Hl2 & Ht2 & Hlay2); [lia| |].
  { by eapply layout_suffix; [lia|exact Hl1|exact Hd1|]. }
  cbn [mbind option_bind]. eexists s2, _. split; [done|]. split; [congruence|].
  assert (Ht : forall k, 0 <= k <= (ix_value ix).1 -> ztake k s2 = ztake k s).
  { intros k Hk. assert (Hz : forall t : bytes, ztake k t = ztake k (ztake (ix_value ix).2 t) /\
      ztake k t = ztake k (ztake (ix_value ix).1 t)).
    { intros t. unfold ztake. rewrite !take_take. split; f_equal; lia. }
    rewrite (proj1 (Hz s2)), Ht2, <- (proj1 (Hz s1)), (proj2 (Hz s1)), Ht1. by rewrite <- (proj2 (Hz s)). }
  split; [apply Ht; lia|]. cbn [layout ix_name ix_value fst snd].
  split_and!; try lia.
  - by rewrite (ztake_zdrop_prefix _ _ (ix_value ix).1 s s2) by (done || lia || (apply Ht; lia)).
  - eapply layout_weaken; [|exact Hlay2]. lia.
Qed.

Lemma layout_read s from ixs : 0 <= from -> layout s from ixs -> exists fs, read_fields s ixs = Some fs.
Proof.
  revert from. induction ixs as [|ix ixs IH]; intros from Hf; [by exists []|].
  intros (Hn & Hv & Hend & (name & Hname) & Hrest). cbn [read_fields].
  rewrite !slice_ok by lia. cbn [mbind option_bind]. rewrite Hname. cbn [mbind option_bind].
  destruct (IH (ix_value ix).2) as [fs ->]; [lia|done|]. by eexists.
Qed.
End layout.

(** ** The promises of [httparse] *)

(** A header's slices lie in the head, in order, and its name is valid. *)
Fixpoint headers_in `{HeaderSyntax} (b : bytes) (limit from : Z) (hs : list HpHeader) : Prop :=
  match hs with
  | [] => True
  | h :: hs' =>
      from <= hp_name_at h /\ hp_name_at h + len (hp_name h) <= hp_value_at h /\
      hp_value_at h + len (hp_value h) <= limit /\
      hp_name h = ztake (len (hp_name h)) (zdrop (hp_name_at h) b) /\
      is_Some (hn_from_bytes (hp_name h)) /\
      headers_in b limit (hp_value_at h + len (hp_value h)) hs'
  end.

(** A completed parse took a non-empty prefix of the input, and its headers are
    slices of that prefix. *)
Class HttparseResponseLaws (PC : Type) `{HttparseResponse PC} `{HeaderSyntax} : Prop :=
  hp_response_complete : forall cfg b room r,
    hp_parse_response cfg b room = Ok (Complete r) ->
    0 < hp_len r <= len b /\ headers_in b (hp_len r) 0 (hp_headers r).

Section parse.
Context `{HeaderSyntax} `{HeaderMapLaws Hm} `{BytesMut V} `{!BytesMutLaws V} `{HttparseResponse PC}
  `{!HttparseResponseLaws PC}.

Lemma record_header_indices_layout b limit from hs ixs :
  0 <= from -> 0 <= limit <= len b -> headers_in b limit from hs -> record_header_indices hs = Ok ixs ->
  layout (ztake limit b) from ixs.
Proof.
  intros Hf Hlim. revert from Hf ixs. induction hs as [|h hs IH]; intros from Hf ixs Hin; cbn [record_header_indices].
  { intros [= <-]. done. }
  destruct Hin as (Hn & Hv & Hend & Hname & Hsome & Hrest).
  destruct (65536 <=? len (hp_name h)); [done|].
  destruct (record_header_indices hs) as [ixs0|e] eqn:E; [|done]. cbn [mbind result_bind]. intros [= <-].
  pose proof (len_nonneg (hp_name h)). pose proof (len_nonneg (hp_value h)).
  cbn [layout ix_name ix_value fst snd]. split_and!; try lia.
  - rewrite len_ztake by lia. lia.
  - replace (hp_name_at h + len (hp_name h) - hp_name_at h) with (len (hp_name h)) by lia.
    pose proof (ztake_zdrop_prefix (hp_name_at h) (hp_name_at h + len (hp_name h)) limit b (ztake limit b)
      ltac:(lia) ltac:(lia) ltac:(lia)) as Hz.
    replace (hp_name_at h + len (hp_name h) - hp_name_at h) with (len (hp_name h)) in Hz by lia.
    rewrite Hz; [by rewrite <- Hname|]. unfold ztake. rewrite take_take. f_equal. lia.
  - apply IH; [lia|done|done].
Qed.

(** What one round of the parser may conclude from the bytes in the buffer. *)
Lemma parse_head_layout (ctx : ParseContext (PC := PC)) b i :
  parse_head ctx b = Ok (Some i) ->
  0 <= hi_len i <= len b /\ layout (ztake (hi_len i) b) 0 (hi_indices i) /\
  (hi_len i = 0 -> hi_status i = 200).
Proof.
  unfold parse_head.
  destruct (hp_parse_response _ _ _) as [[res|]|e] eqn:Er; [|done|].
  - apply hp_response_complete in Er as [Hlen Hin].
    destruct (match ctx_max_header_size ctx with Some m => m <? hp_len res | None => false end); [done|].
    destruct (status_from_u16 (hp_code res)) as [st|]; [|done]. cbn [mbind result_bind].
    destruct (record_header_indices (hp_headers res)) as [ixs|] eqn:Ei; [|done]. cbn [mbind result_bind].
    intros [= <-]. cbn [hi_len hi_indices hi_status]. split_and!; [lia|lia| |lia].
    eapply record_header_indices_layout; [lia| |exact Hin|exact Ei]. lia.
  - destruct (decide _); [|done]. intros [= <-]. cbn. pose proof (len_nonneg b). split_and!; done || lia.
Qed.

(** The states of the parser between two rounds: the buffer has lost a prefix,
    and the callback saw informational responses only. *)
Definition parse_frame (s s' : ParseState (Hm := Hm) (V := V)) : Prop :=
  (ps_cached s' = ps_cached s \/ ps_cached s' = None) /\
  (exists w, bm_bytes (ps_buf s) = w ++ bm_bytes (ps_buf s')) /\
  (exists hs, ps_informed s' = ps_informed s ++ hs /\ Forall (fun h => 100 <= subject h <= 199 /\ subject h ≠ 101) hs).

Definition parse_post (s s' : ParseState (Hm := Hm) (V := V))
    (o : outcome Parse (option (ParsedMessage Hm StatusCode))) : Prop :=
  parse_frame s s' /\
  match o with
  | Ready (Some m) =>
      ps_cached s' = None /\ pm_expect_continue m = false /\
      exists method, client_decoder (pm_head m) method = Ok (Some (pm_decode m, pm_wants_upgrade m)) /\
        (pm_keep_alive m = true -> pm_wants_upgrade m = false)
  | Pending | Panicked | NoFuel => False
  | _ => True
  end.

Lemma client_decoder_skip (inc : MessageHead Hm StatusCode) m :
  client_decoder inc m = Ok None -> 100 <= subject inc <= 199 /\ subject inc ≠ 101.
Proof. intros Hd. pose proof (client_decoder_framing inc m) as Hf. rewrite Hd in Hf. by inversion Hf. Qed.

Lemma parse_frame_trans s1 s2 s3 : parse_frame s1 s2 -> parse_frame s2 s3 -> parse_frame s1 s3.
Proof.
  intros (Hc1 & (w1 & Hw1) & (h1 & Hi1 & Hf1)) (Hc2 & (w2 & Hw2) & (h2 & Hi2 & Hf2)). split_and!.
  - destruct Hc2 as [-> | ->]; auto.
  - exists (w1 ++ w2). by rewrite Hw1, Hw2, app_assoc.
  - exists (h1 ++ h2). rewrite Hi2, Hi1, app_assoc. split; [done|]. by apply Forall_app.
Qed.

Lemma client_parse_loop_spec fuel ctx s s' o :
  (length (bm_bytes (ps_buf s)) < fuel)%nat ->
  client_parse_loop fuel ctx s = (s', o) -> parse_post s s' o.
Proof.
  revert s. induction fuel as [|k IH]; intros s Hfuel; [lia|]. cbn [client_parse_loop].
  unfold mbind at 1, M_bind at 1, get. unfold mbind at 1, M_bind at 1.
  assert (Hrefl : parse_frame s s).
  { split_and!; [by left|by exists []|]. exists []. by rewrite app_nil_r. }
  destruct (parse_head ctx (bm_bytes (ps_buf s))) as [[i|]|e] eqn:Eh; cbn [lift_result mret M_ret fail];
    [|intros [= <- <-]; by split..].
  apply parse_head_layout in Eh as (Hlen & Hlay & Hzero).
  destruct (bm_split_to_spec (hi_len i) (ps_buf s) Hlen) as (buf & Hsplit & Hbuf).
  rewrite Hsplit. unfold mbind, M_bind, expect, mret, M_ret, modify, fail, get.
  assert (Hfold : exists raw ixs fs, (if hp_obs_fold_allowed (h1_parser_config ctx)
      then obs_fold_lines (ztake (hi_len i) (bm_bytes (ps_buf s))) (hi_indices i)
      else Some (ztake (hi_len i) (bm_bytes (ps_buf s)), hi_indices i)) = Some (raw, ixs) /\
      read_fields raw ixs = Some fs).
  { destruct (hp_obs_fold_allowed _).
    - destruct (obs_fold_lines_layout _ 0 _ ltac:(lia) Hlay) as (raw & ixs & -> & _ & _ & Hlay').
      destruct (layout_read raw 0 ixs ltac:(lia) Hlay') as [fs Hfs]. eauto.
    - destruct (layout_read _ 0 _ ltac:(lia) Hlay) as [fs Hfs]. eauto. }
  destruct Hfold as (raw & ixs & fs & -> & Hfs).
  rewrite append_headers_fields by done. rewrite Hfs. cbn [mbind option_bind].
  set (head := MkHead _ _ _ _). set (ka := negb false && _).
  assert (Hfr : forall hs, (Forall (fun h => 100 <= subject h <= 199 /\ subject h ≠ 101) hs) ->
    parse_frame s (MkParseState buf None (ps_informed s ++ hs))).
  { intros hs Hhs. split_and!; [by right| |eauto]. exists (ztake (hi_len i) (bm_bytes (ps_buf s))). simpl.
    by rewrite Hbuf, ztake_zdrop. }
  pose proof (Hfr [] (Forall_nil_2 _)) as Hfr0. rewrite app_nil_r in Hfr0.
  destruct (client_decoder head (req_method ctx)) as [[[dec up]|]|e] eqn:Ed; cbn [lift_result mret M_ret fail].
  - intros [= <- <-]. split; [exact Hfr0|]. split_and!; [done..|]. exists (req_method ctx). split; [done|].
    cbn [pm_keep_alive pm_wants_upgrade]. by destruct up; rewrite ?andb_false_r.
  - apply client_decoder_skip in Ed as Hskip. simpl subject in Hskip.
    assert (hi_len i ≠ 0) as Hne by (intros Hz; specialize (Hzero Hz); lia).
    assert (Hsmall : (length (bm_bytes buf) < k)%nat).
    { rewrite Hbuf. unfold zdrop, len in *. rewrite length_drop. lia. }
    assert (Hgo : forall hs, Forall (fun h => 100 <= subject h <= 199 /\ subject h ≠ 101) hs ->
      (if bool_decide (bm_bytes buf = []) then (MkParseState buf None (ps_informed s ++ hs), Ready None)
       else client_parse_loop k ctx (MkParseState buf None (ps_informed s ++ hs))) = (s', o) -> parse_post s s' o).
    { intros hs Hhs. case_bool_decide; [intros [= <- <-]; split; auto|].
      intros Hl. apply IH in Hl as [Hf Ho]; [|done]. split; [|done].
      eapply parse_frame_trans; [by apply Hfr|exact Hf]. }
    destruct (is_informational (subject head) && on_informational ctx).
    + intros Hx. apply (Hgo [head]); [by constructor|]. rewrite <- Hx. cbn [ps_buf ps_cached ps_informed].
      by destruct (bool_decide (bm_bytes buf = [])).
    + specialize (Hgo [] (Forall_nil_2 _)). rewrite app_nil_r in Hgo. intros Hx. apply Hgo. rewrite <- Hx.
      cbn [ps_buf ps_cached ps_informed]. by destruct (bool_decide (bm_bytes buf = [])).
  - intros [= <- <-]. by split.
Qed.
Lemma parse_headers_post prev_len ctx s s' o :
  (forall n, prev_len = Some n -> 0 <= n <= len (bm_bytes (ps_buf s))) ->
  parse_headers prev_len ctx s = (s', o) -> parse_post s s' o.
Proof.
  intros Hprev Hp.
  assert (Hrefl : parse_frame s s) by (split_and!; [by left|by exists []|]; exists []; by rewrite app_nil_r).
  assert (Hparse : bm_bytes (ps_buf s) ≠ [] -> client_parse ctx s = (s', o) -> parse_post s s' o).
  { intros Hne. unfold client_parse. rewrite bool_decide_false by done.
    apply client_parse_loop_spec. lia. }
  unfold parse_headers in Hp. case_bool_decide as Hnil; [simplify_eq; by split|].
  destruct prev_len as [n|]; [|by apply Hparse].
  destruct (is_complete_fast (bm_bytes (ps_buf s)) n) as [[]|] eqn:Ef; [by apply Hparse|simplify_eq; by split|].
  exfalso. specialize (Hprev n eq_refl). unfold is_complete_fast, saturating_sub in Ef.
  by rewrite slice_ok in Ef by lia.
Qed.
End parse.

(** Parsing response heads is safe on any input: whatever bytes the peer
    sends, [parse_headers] neither panics nor loops; it consumes only a prefix
    of the buffer; the responses handed to the informational callback are 1xx
    responses other than 101; and a message it returns is framed by
    [Client::decoder], not informational (except 101), and not kept alive when
    it upgrades the connection. *)
Theorem parse_headers_safe `{HeaderSyntax} `{HeaderMapLaws Hm} `{BytesMut V} `{!BytesMutLaws V}
    `{HttparseResponse PC} `{!HttparseResponseLaws PC}
    prev_len (ctx : ParseContext (PC := PC)) (s s' : ParseState (Hm := Hm) (V := V)) o :
  (forall n, prev_len = Some n -> 0 <= n <= len (bm_bytes (ps_buf s))) ->
  parse_headers prev_len ctx s = (s', o) ->
  o ≠ Panicked /\ o ≠ NoFuel /\
  (exists w, bm_bytes (ps_buf s) = w ++ bm_bytes (ps_buf s')) /\
  (exists hs, ps_informed s' = ps_informed s ++ hs /\
     Forall (fun h => 100 <= subject h <= 199 /\ subject h ≠ 101) hs) /\
  (forall m, o = Ready (Some m) ->
     (~ 100 <= subject (pm_head m) <= 199 \/ subject (pm_head m) = 101) /\
     (pm_keep_alive m = true -> pm_wants_upgrade m = false)).
Proof.
  intros Hprev Hp. destruct (parse_headers_post _ _ _ _ _ Hprev Hp) as [(_ & Hw & Hi) Ho].
  split_and!; try done; try by destruct o.
  intros m ->. destruct Ho as (_ & _ & method & Hd & Hka). split; [|done].
  pose proof (client_decoder_framing (pm_head m) method) as Hf. rewrite Hd in Hf.
  inversion Hf; unfold may_have_body in *; try (by right); left; intuition lia.
Qed.

Module ConcreteParse.
Import Concrete.

(** A parser of heads without fields. *)
#[export] Instance bare_HttparseResponse : HttparseResponse unit := {
  hp_parse_response cfg b room :=
    match split_line b with
    | None => Ok Partial
    | Some (l, rest) =>
        match split_line rest with
        | None => Ok Partial
        | Some ([], rest') =>
            Ok (Complete (MkHpResponse (len b - len rest')
              (default 0 (from_digits (ztake 3 (zdrop 9 l)))) (zdrop 13 l) (default 0 (l !! 7%nat) - 48) []))
        | Some _ => Err HpHeaderName
        end
    end;
  hp_obs_fold_allowed _ := true;
  canonical_reason _ := None;
}.

Lemma split_line_len s l rest : split_line s = Some (l, rest) -> len s = len l + 2 + len rest.
Proof.
  revert l. induction s as [|b s IH]; intros l; [done|]. cbn [split_line].
  destruct s as [|c s]; [done|]. destruct ((b =? CR) && (c =? LF)).
  - intros [= <- <-]. rewrite !len_cons. change (len []) with 0. lia.
  - destruct (split_line (c :: s)) as [[l0 r0]|] eqn:E; [|done]. cbn [mbind option_bind].
    intros [= <- <-]. rewrite (len_cons b), (IH l0 eq_refl), len_cons. lia.
Qed.

#[export] Instance bare_HttparseResponseLaws : HttparseResponseLaws unit.
Proof.
  intros cfg b room r. simpl. destruct (split_line b) as [[l rest]|] eqn:E1; [|done].
  destruct (split_line rest) as [[[|]  rest']|] eqn:E2; [|done..]. intros [= <-]. simpl. split; [|done].
  apply split_line_len in E1, E2. pose proof (len_nonneg l). pose proof (len_nonneg rest').
  change (len []) with 0 in E2. lia.
Qed.

End ConcreteParse.

Section witnesses.
Import Concrete ConcreteIo ConcreteParse.

Definition demo_ctx : ParseContext (PC := unit) := MkContext (Some GET) tt None None false true.
Definition demo_state : ParseState (Hm := hmap) (V := vec) :=
  MkParseState (Vec (bs "HTTP/1.1 100 Wait" ++ CRLF ++ CRLF ++ bs "HTTP/1.1 204 Gone" ++ CRLF ++ CRLF ++ bs "x") 0) None [].

Lemma parse_headers_safe_witness :
  exists s' m, parse_headers (Some 4) demo_ctx demo_state = (s', Ready (Some m)) /\
    (exists w, bm_bytes (ps_buf demo_state) = w ++ bm_bytes (ps_buf s')) /\
    (~ 100 <= subject (pm_head m) <= 199 \/ subject (pm_head m) = 101).
Proof.
  destruct (parse_headers (Some 4) demo_ctx demo_state) as [s' o] eqn:E.
  destruct (parse_headers_safe (Some 4) demo_ctx demo_state s' o) as (_ & _ & Hw & _ & Hm); [|exact E|].
  - intros n [= <-]. split; vm_compute; done.
  - vm_compute in E. injection E as Es Eo. eexists s', _. split; [rewrite <- Eo; reflexivity|].
    split; [exact Hw|]. exact (proj1 (Hm _ (eq_sym Eo))).
Defined.
End witnesses.
