(* ===== verification/Conn.v ===== *)
(** * Conn

    [proto/http1/conn.rs]: the HTTP/1 connection. Its state machine (what may be
    read and written, whether the connection can be kept alive) and every
    operation the dispatcher calls, over the buffered transport, the body decoder
    and encoder and the client role. *)

From stdpp Require Import prelude strings.
From Stdlib Require Import ZArith Lia.
From S2P Require Import Prelude Bytes Crates Errors Length Headers MemRead Decode BufList WriteBuf Transport Buffered BufferedLaws Encode Message Role.
Local Open Scope Z_scope.

(** ** [struct State] *)

Inductive Reading : Type := RInit | RContinue (d : Decoder) | RBody (d : Decoder) | RKeepAlive | RClosed.

Inductive Writing : Type := WInit | WBody (e : Encoder) | WKeepAlive | WClosed.

Inductive KA : Type := Idle | Busy | Disabled.

#[export] Instance KA_eq_dec : EqDecision KA.
Proof. solve_decision. Defined.

Record State (Hm PC : Type) : Type := MkState {
  allow_half_close : bool;
  cached_headers : option Hm;
  st_error : option Error;
  keep_alive : KA;
  method : option Method;
  st_parser_config : PC;
  st_max_headers : option Z;
  st_max_header_size : option Z;
  st_h09_responses : bool;
  st_on_informational : bool;
  notify_read : bool;
  reading : Reading;
  writing : Writing;
  upgrade : bool;
  st_version : Version;
  allow_trailer_fields : bool;
}.
Arguments MkState {Hm PC}.
Arguments allow_half_close {Hm PC} s.
Arguments cached_headers {Hm PC} s.
Arguments st_error {Hm PC} s.
Arguments keep_alive {Hm PC} s.
Arguments method {Hm PC} s.
Arguments st_parser_config {Hm PC} s.
Arguments st_max_headers {Hm PC} s.
Arguments st_max_header_size {Hm PC} s.
Arguments st_h09_responses {Hm PC} s.
Arguments st_on_informational {Hm PC} s.
Arguments notify_read {Hm PC} s.
Arguments reading {Hm PC} s.
Arguments writing {Hm PC} s.
Arguments upgrade {Hm PC} s.
Arguments st_version {Hm PC} s.
Arguments allow_trailer_fields {Hm PC} s.

Section state.
Context {Hm PC : Type}.
Implicit Type s : State Hm PC.

Definition set_cached_headers x (s : State Hm PC) : State Hm PC := MkState (allow_half_close s) x (st_error s) (keep_alive s) (method s)
  (st_parser_config s) (st_max_headers s) (st_max_header_size s) (st_h09_responses s) (st_on_informational s)
  (notify_read s) (reading s) (writing s) (upgrade s) (st_version s) (allow_trailer_fields s).
Definition set_error x (s : State Hm PC) : State Hm PC := MkState (allow_half_close s) (cached_headers s) x (keep_alive s) (method s)
  (st_parser_config s) (st_max_headers s) (st_max_header_size s) (st_h09_responses s) (st_on_informational s)
  (notify_read s) (reading s) (writing s) (upgrade s) (st_version s) (allow_trailer_fields s).
Definition set_keep_alive x (s : State Hm PC) : State Hm PC := MkState (allow_half_close s) (cached_headers s) (st_error s) x (method s)
  (st_parser_config s) (st_max_headers s) (st_max_header_size s) (st_h09_responses s) (st_on_informational s)
  (notify_read s) (reading s) (writing s) (upgrade s) (st_version s) (allow_trailer_fields s).
Definition set_method x (s : State Hm PC) : State Hm PC := MkState (allow_half_close s) (cached_headers s) (st_error s) (keep_alive s) x
  (st_parser_config s) (st_max_headers s) (st_max_header_size s) (st_h09_responses s) (st_on_informational s)
  (notify_read s) (reading s) (writing s) (upgrade s) (st_version s) (allow_trailer_fields s).
Definition set_parser_config x (s : State Hm PC) : State Hm PC := MkState (allow_half_close s) (cached_headers s) (st_error s) (keep_alive s) (method s)
  x (st_max_headers s) (st_max_header_size s) (st_h09_responses s) (st_on_informational s)
  (notify_read s) (reading s) (writing s) (upgrade s) (st_version s) (allow_trailer_fields s).
Definition set_max_headers x (s : State Hm PC) : State Hm PC := MkState (allow_half_close s) (cached_headers s) (st_error s) (keep_alive s) (method s)
  (st_parser_config s) x (st_max_header_size s) (st_h09_responses s) (st_on_informational s)
  (notify_read s) (reading s) (writing s) (upgrade s) (st_version s) (allow_trailer_fields s).
Definition set_max_header_size x (s : State Hm PC) : State Hm PC := MkState (allow_half_close s) (cached_headers s) (st_error s) (keep_alive s) (method s)
  (st_parser_config s) (st_max_headers s) x (st_h09_responses s) (st_on_informational s)
  (notify_read s) (reading s) (writing s) (upgrade s) (st_version s) (allow_trailer_fields s).
Definition set_h09 x (s : State Hm PC) : State Hm PC := MkState (allow_half_close s) (cached_headers s) (st_error s) (keep_alive s) (method s)
  (st_parser_config s) (st_max_headers s) (st_max_header_size s) x (st_on_informational s)
  (notify_read s) (reading s) (writing s) (upgrade s) (st_version s) (allow_trailer_fields s).
Definition set_on_informational x (s : State Hm PC) : State Hm PC := MkState (allow_half_close s) (cached_headers s) (st_error s) (keep_alive s) (method s)
  (st_parser_config s) (st_max_headers s) (st_max_header_size s) (st_h09_responses s) x
  (notify_read s) (reading s) (writing s) (upgrade s) (st_version s) (allow_trailer_fields s).
Definition set_notify_read x (s : State Hm PC) : State Hm PC := MkState (allow_half_close s) (cached_headers s) (st_error s) (keep_alive s) (method s)
  (st_parser_config s) (st_max_headers s) (st_max_header_size s) (st_h09_responses s) (st_on_informational s)
  x (reading s) (writing s) (upgrade s) (st_version s) (allow_trailer_fields s).
Definition set_reading x (s : State Hm PC) : State Hm PC := MkState (allow_half_close s) (cached_headers s) (st_error s) (keep_alive s) (method s)
  (st_parser_config s) (st_max_headers s) (st_max_header_size s) (st_h09_responses s) (st_on_informational s)
  (notify_read s) x (writing s) (upgrade s) (st_version s) (allow_trailer_fields s).
Definition set_writing x (s : State Hm PC) : State Hm PC := MkState (allow_half_close s) (cached_headers s) (st_error s) (keep_alive s) (method s)
  (st_parser_config s) (st_max_headers s) (st_max_header_size s) (st_h09_responses s) (st_on_informational s)
  (notify_read s) (reading s) x (upgrade s) (st_version s) (allow_trailer_fields s).
Definition set_upgrade x (s : State Hm PC) : State Hm PC := MkState (allow_half_close s) (cached_headers s) (st_error s) (keep_alive s) (method s)
  (st_parser_config s) (st_max_headers s) (st_max_header_size s) (st_h09_responses s) (st_on_informational s)
  (notify_read s) (reading s) (writing s) x (st_version s) (allow_trailer_fields s).
Definition set_st_version x (s : State Hm PC) : State Hm PC := MkState (allow_half_close s) (cached_headers s) (st_error s) (keep_alive s) (method s)
  (st_parser_config s) (st_max_headers s) (st_max_header_size s) (st_h09_responses s) (st_on_informational s)
  (notify_read s) (reading s) (writing s) (upgrade s) x (allow_trailer_fields s).
Definition set_allow_trailer_fields x (s : State Hm PC) : State Hm PC := MkState (allow_half_close s) (cached_headers s) (st_error s) (keep_alive s) (method s)
  (st_parser_config s) (st_max_headers s) (st_max_header_size s) (st_h09_responses s) (st_on_informational s)
  (notify_read s) (reading s) (writing s) (upgrade s) (st_version s) x.

(** [KA &= enabled]. *)
Definition ka_and (k : KA) (enabled : bool) : KA := if enabled then k else Disabled.

Definition st_close s : State Hm PC := set_keep_alive Disabled (set_writing WClosed (set_reading RClosed s)).
Definition st_close_read s : State Hm PC := set_keep_alive Disabled (set_reading RClosed s).
Definition st_close_write s : State Hm PC := set_keep_alive Disabled (set_writing WClosed s).

Definition wants_keep_alive s : bool := negb (bool_decide (keep_alive s = Disabled)).
Definition disable_keep_alive s : State Hm PC := set_keep_alive Disabled s.
Definition st_busy s : State Hm PC := if decide (keep_alive s = Disabled) then s else set_keep_alive Busy s.
Definition is_idle s : bool := bool_decide (keep_alive s = Idle).
Definition st_is_read_closed s : bool := match reading s with RClosed => true | _ => false end.
Definition st_is_write_closed s : bool := match writing s with WClosed => true | _ => false end.

(** [State::idle]: [None] where its [debug_assert!] fires. *)
Definition st_idle s : option (State Hm PC) :=
  if is_idle s then None
  else
    let s := set_keep_alive Idle (set_method None s) in
    if negb (is_idle s) then Some (st_close s)
    else Some (set_notify_read true (set_writing WInit (set_reading RInit s))).

(** [State::try_keep_alive]. *)
Definition st_try_keep_alive s : option (State Hm PC) :=
  match reading s, writing s with
  | RKeepAlive, WKeepAlive => if decide (keep_alive s = Busy) then st_idle s else Some (st_close s)
  | RClosed, WKeepAlive | RKeepAlive, WClosed => Some (st_close s)
  | _, _ => Some s
  end.

(** [prepare_upgrade]: the sender half is kept, the receiver half returned. *)
Definition prepare_upgrade s : State Hm PC := set_upgrade true s.
End state.

(** ** [Buffered::parse] *)

Section conn.
Context `{HeaderSyntax} `{HeaderMap Hm} `{HttparseHeaders} `{HttparseResponse PC}
  `{TransportLaws T V} `{!BytesMutLaws V} `{BufCombinators} `{Buf B}.
Abbreviation Io := (Buffered T V (EncodedBuf B)).

(** What the loop of [parse] works on: the transport, the cached header map and
    the log of the informational callback. *)
Record ParseIo : Type := MkParseIo {
  pi_io : Io;
  pi_cached : option Hm;
  pi_informed : list (MessageHead Hm StatusCode);
}.

Definition pi_state (p : ParseIo) : ParseState (Hm := Hm) (V := V) :=
  MkParseState (read_buf (pi_io p)) (pi_cached p) (pi_informed p).
Definition set_pi_state (s : ParseState) (p : ParseIo) : ParseIo :=
  MkParseIo (set_read_buf (ps_buf s) (pi_io p)) (ps_cached s) (ps_informed s).
Definition set_pi_io (b : Io) (p : ParseIo) : ParseIo := MkParseIo b (pi_cached p) (pi_informed p).

Fixpoint parse_loop (fuel : nat) (ctx : ParseContext (PC := PC)) : M ParseIo Error (ParsedMessage Hm StatusCode) :=
  match fuel with
  | O => fun p => (p, NoFuel)
  | S k =>
      p ← get;
      r ← map_err from_parse (zoom pi_state set_pi_state (parse_headers (partial_len (pi_io p)) ctx));
      match r with
      | Some msg =>
          modify (fun p => set_pi_io (set_partial_len None (pi_io p)) p);;
          mret msg
      | None =>
          p ← get;
          let curr_len := len (bm_bytes (read_buf (pi_io p))) in
          if match ctx_max_header_size ctx with Some m => m <=? curr_len | None => false end then fail new_too_large
          else if rs_max (read_buf_strategy (pi_io p)) <=? curr_len then fail new_too_large
          else
            modify (fun p => set_pi_io (set_partial_len (if 0 <? curr_len then Some curr_len else None) (pi_io p)) p);;
            n ← map_err new_io (zoom pi_io set_pi_io poll_read_from_io);
            if n =? 0 then fail new_incomplete else parse_loop k ctx
      end
  end.

(** [parse]: a round that goes on has received a byte. *)
Definition parse (ctx : ParseContext (PC := PC)) : M ParseIo Error (ParsedMessage Hm StatusCode) := fun p =>
  parse_loop (S (length (incoming (io (pi_io p))))) ctx p.

(** ** [struct Conn] *)

Record Conn : Type := MkConn {
  c_io : Io;
  c_state : State Hm PC;
  (** the responses the informational callback has seen *)
  c_informed : list (MessageHead Hm StatusCode);
}.

Definition set_c_io (x : Io) (c : Conn) : Conn := MkConn x (c_state c) (c_informed c).
Definition set_c_state (x : State Hm PC) (c : Conn) : Conn := MkConn (c_io c) x (c_informed c).
Definition upd (f : State Hm PC -> State Hm PC) (c : Conn) : Conn := set_c_state (f (c_state c)) c.

Definition on_state {E} (f : State Hm PC -> State Hm PC) : M Conn E unit := modify (upd f).
Definition on_io {E A} (m : M Io E A) : M Conn E A := zoom c_io set_c_io m.

(** [ParserConfig::default()] is a parameter. *)
Definition conn_new (cfg : PC) (t : T) : Conn :=
  MkConn (buffered_new t)
    (MkState false None None Busy None cfg None None false false false RInit WInit false HTTP_11 false) [].

Definition conn_set_write_strategy_queue (c : Conn) : option Conn :=
  b ← set_write_strategy_queue (c_io c); Some (set_c_io b c).
Definition conn_set_write_strategy_flatten (c : Conn) : option Conn :=
  b ← set_write_strategy_flatten (c_io c); Some (set_c_io b c).
Definition conn_set_max_buf_size (max : Z) (c : Conn) : option Conn :=
  b ← set_max_buf_size max (c_io c); Some (set_c_io b c).
Definition conn_set_read_buf_exact_size (sz : Z) (c : Conn) : Conn :=
  set_c_io (set_read_buf_exact_size sz (c_io c)) c.
Definition set_h1_parser_config (cfg : PC) (c : Conn) : Conn := upd (set_parser_config cfg) c.
Definition set_h09_responses (c : Conn) : Conn := upd (set_h09 true) c.
Definition set_http1_max_headers (val : Z) (c : Conn) : Conn := upd (set_max_headers (Some val)) c.
Definition set_http1_max_header_size (val : Z) (c : Conn) : Conn := upd (set_max_header_size (Some val)) c.
Definition conn_into_inner (c : Conn) : T * bytes := into_inner (c_io c).
Definition pending_upgrade (c : Conn) : bool * Conn := (upgrade (c_state c), upd (set_upgrade false) c).

Definition is_read_closed (c : Conn) : bool := st_is_read_closed (c_state c).
Definition is_write_closed (c : Conn) : bool := st_is_write_closed (c_state c).

Definition can_read_head (c : Conn) : bool :=
  match reading (c_state c) with
  | RInit => match writing (c_state c) with WInit => false | _ => true end
  | _ => false
  end.
Definition can_read_body (c : Conn) : bool :=
  match reading (c_state c) with RBody _ | RContinue _ => true | _ => false end.
Definition should_error_on_eof (c : Conn) : bool := negb (is_idle (c_state c)).

Definition H2_PREFACE : bytes := bs "PRI * HTTP/2.0" ++ CRLF ++ CRLF ++ bs "SM" ++ CRLF ++ CRLF.
Definition has_h2_prefix (c : Conn) : bool :=
  bool_decide (take (length H2_PREFACE) (bm_bytes (read_buf (c_io c))) = H2_PREFACE).

Definition can_write_head (c : Conn) : bool :=
  match reading (c_state c) with
  | RClosed => false
  | _ => match writing (c_state c) with WInit => can_headers_buf (c_io c) | _ => false end
  end.
Definition can_write_body (c : Conn) : bool :=
  match writing (c_state c) with WBody _ => true | _ => false end.
Definition can_buffer_body (c : Conn) : bool := can_buffer (c_io c).
Definition conn_has_buffered_write (c : Conn) : bool := has_buffered_write (c_io c).
Definition is_mid_message (c : Conn) : bool :=
  match reading (c_state c), writing (c_state c) with RInit, WInit => false | _, _ => true end.

(** [debug_assert!(b)]. *)
Definition assert_ {E} (b : Conn -> bool) : M Conn E unit := fun c => if b c then (c, Ready tt) else (c, Panicked).

Definition close_read {E} : M Conn E unit := on_state st_close_read.
Definition close_write {E} : M Conn E unit := on_state st_close_write.

(** What [maybe_notify] does once neither direction forbids it. *)
Definition notify_io {E} : M Conn E unit := fun c =>
  if is_read_blocked (c_io c) then (c, Ready tt)
  else if decide (bm_bytes (read_buf (c_io c)) = []) then
    match poll_read_from_io (c_io c) with
    | (b, Ready n) =>
        let c := set_c_io b c in
        if n =? 0 then
          (upd (if is_idle (c_state c) then st_close else st_close_read) c, Ready tt)
        else (upd (set_notify_read true) c, Ready tt)
    | (b, Pending) => (set_c_io b c, Ready tt)
    | (b, Failed e) =>
        (upd (fun s => set_notify_read true (set_error (Some (new_io e)) (st_close s))) (set_c_io b c), Ready tt)
    | (b, Panicked) => (set_c_io b c, Panicked)
    | (b, NoFuel) => (set_c_io b c, NoFuel)
    end
  else (upd (set_notify_read true) c, Ready tt).

(** [maybe_notify]. *)
Definition maybe_notify {E} : M Conn E unit := fun c =>
  match reading (c_state c), writing (c_state c) with
  | RInit, (WInit | WKeepAlive | WClosed) => notify_io c
  | _, _ => (c, Ready tt)
  end.

Definition try_keep_alive {E} : M Conn E unit :=
  c ← get;
  s ← expect (st_try_keep_alive (c_state c));
  modify (set_c_state s);;
  maybe_notify.

(** ** Writing *)

(** [fix_keep_alive]: what it changes of the outgoing head and of the state. *)
Definition fix_keep_alive (head : MessageHead Hm RequestLine) (s : State Hm PC)
  : MessageHead Hm RequestLine * State Hm PC :=
  let outgoing_is_keep_alive := existsb connection_keep_alive (hm_get_all (head_headers head) H_CONNECTION) in
  if outgoing_is_keep_alive then (head, s)
  else
    match version head with
    | HTTP_10 => (head, disable_keep_alive s)
    | HTTP_11 =>
        if wants_keep_alive s then
          (set_head_headers (hm_append H_CONNECTION (bs "keep-alive") (head_headers head)) head, s)
        else (head, s)
    | _ => (head, s)
    end.

(** [enforce_version]. *)
Definition enforce_version (head : MessageHead Hm RequestLine) (s : State Hm PC)
  : MessageHead Hm RequestLine * State Hm PC :=
  match st_version s with
  | HTTP_10 => let '(head, s) := fix_keep_alive head s in (set_version HTTP_10 head, s)
  | HTTP_11 =>
      if decide (keep_alive s = Disabled) then
        if existsb connection_close (hm_get_all (head_headers head) H_CONNECTION) then (head, s)
        else (set_head_headers (hm_append H_CONNECTION (bs "close") (head_headers head)) head, s)
      else (head, s)
  | _ => (head, s)
  end.

(** What [encode_head] does before encoding: [busy], a [Connection: close] of
    the request disables keep-alive, [enforce_version]. *)
Definition prepare_head (head : MessageHead Hm RequestLine) (s : State Hm PC)
  : MessageHead Hm RequestLine * State Hm PC :=
  let s := st_busy s in
  enforce_version head (if connection_any_close (head_headers head) then disable_keep_alive s else s).

(** [encode_head]; [Client::encode] does not fail. *)
Definition encode_head {E} (head : MessageHead Hm RequestLine) (body : option BodyLength) : M Conn E Encoder :=
  assert_ can_write_head;;
  c ← get;
  let '(head, s) := prepare_head head (c_state c) in
  modify (set_c_state s);;
  cur ← expect (headers_mut (write_buf (c_io c)));
  enc ← expect (client_encode head body (cur_bytes cur));
  b ← expect (with_headers_buf (fun _ => enc_dst enc) (c_io c));
  modify (set_c_io b);;
  on_state (set_method (enc_req_method enc));;
  assert_ (fun c => bool_decide (cached_headers (c_state c) = None));;
  assert_ (fun _ => hm_is_empty (head_headers (enc_head enc)));;
  on_state (set_cached_headers (Some (head_headers (enc_head enc))));;
  on_state (set_on_informational (ext_on_informational (extensions head)));;
  mret (enc_encoder enc).

(** [Writing] after a body whose encoder is [e]. *)
Definition after_body (closes : bool) : Writing := if closes then WClosed else WKeepAlive.

Definition write_head {E} (head : MessageHead Hm RequestLine) (body : option BodyLength) : M Conn E unit :=
  e ← encode_head head body;
  on_state (set_writing (if negb (encoder_is_eof e) then WBody e else after_body (is_last e))).

(** A write of the buffered transport; [None] is a panic. *)
Definition io_write {E} (f : Io -> option Io) : M Conn E unit :=
  c ← get;
  b ← expect (f (c_io c));
  modify (set_c_io b).

(** [write_body]; [cap] is the capacity of the head vector (see [wb_buffer]). *)
Definition write_body {E} (cap : Z) (chunk : B) : M Conn E unit :=
  assert_ (fun c => can_write_body c && can_buffer_body c);;
  assert_ (fun _ => negb (remaining chunk =? 0));;
  c ← get;
  match writing (c_state c) with
  | WBody encoder =>
      '(encoded, encoder) ← expect (encode chunk encoder);
      on_state (set_writing (WBody encoder));;
      io_write (buffer id cap encoded);;
      if negb (encoder_is_eof encoder) then mret tt
      else on_state (set_writing (after_body (is_last encoder)))
  | _ => panic
  end.

Definition write_trailers {E} (cap : Z) (trailers : Hm) : M Conn E unit :=
  assert_ (fun c => can_write_body c && can_buffer_body c);;
  c ← get;
  match writing (c_state c) with
  | WBody encoder =>
      enc_buf ← expect (encode_trailers trailers encoder);
      match enc_buf with
      | Some enc_buf =>
          io_write (buffer id cap enc_buf);;
          on_state (set_writing (after_body (is_last encoder || is_close_delimited encoder)))
      | None => mret tt
      end
  | _ => panic
  end.

Definition write_body_and_end {E} (cap : Z) (chunk : B) : M Conn E unit :=
  assert_ (fun c => can_write_body c && can_buffer_body c);;
  assert_ (fun _ => negb (remaining chunk =? 0));;
  c ← get;
  match writing (c_state c) with
  | WBody encoder =>
      '(can_keep_alive, w) ← expect (encode_and_end cap chunk encoder (write_buf (c_io c)));
      modify (set_c_io (set_write_buf w (c_io c)));;
      on_state (set_writing (if can_keep_alive : bool then WKeepAlive else WClosed))
  | _ => panic
  end.

Definition end_body (cap : Z) : M Conn Error unit :=
  assert_ can_write_body;;
  c ← get;
  match writing (c_state c) with
  | WBody encoder =>
      match encoder_end encoder with
      | Ok end_ =>
          match end_ with
          | Some end_ => io_write (buffer id cap end_)
          | None => mret tt
          end;;
          on_state (set_writing (after_body (is_last encoder || is_close_delimited encoder)))
      | Err not_eof =>
          on_state (set_writing WClosed);;
          fail (err_with (CauseNotEof (missing not_eof)) new_body_write_aborted)
      end
  | _ => mret tt
  end.

(** ** Reading *)

(** [Client::on_error]. *)
Definition client_on_error (err : Error) : option (MessageHead Hm RequestLine) := None.

Definition on_parse_error (err : Error) : M Conn Error unit := fun c =>
  match writing (c_state c) with
  | WInit =>
      if has_h2_prefix c then (c, Failed new_version_h2)
      else
        match client_on_error err with
        | Some msg =>
            (on_state (set_cached_headers None);; write_head msg None;; on_state (set_error (Some err))) c
        | None => (c, Failed err)
        end
  | _ => (c, Failed err)
  end.

(** [Ready None] is a graceful end. *)
Definition on_read_head_error {Z} (e : Error) : M Conn Error (option Z) :=
  c ← get;
  let must_error := should_error_on_eof c in
  close_read;;
  io_write consume_leading_lines;;
  c ← get;
  let was_mid_parse := is_parse e || negb (bool_decide (bm_bytes (read_buf (c_io c)) = [])) in
  if was_mid_parse || must_error then on_parse_error e;; pend
  else close_write;; mret None.

(** [self.io.parse(cx, ParseContext { .. })], with the borrows of the state. *)
Definition parse_context (s : State Hm PC) : ParseContext (PC := PC) :=
  MkContext (method s) (st_parser_config s) (st_max_headers s) (st_max_header_size s)
    (st_h09_responses s) (st_on_informational s).

Definition conn_parse : M Conn Error (ParsedMessage Hm StatusCode) := fun c =>
  match parse (parse_context (c_state c)) (MkParseIo (c_io c) (cached_headers (c_state c)) (c_informed c)) with
  | (p, o) => (MkConn (pi_io p) (set_cached_headers (pi_cached p) (c_state c)) (pi_informed p), o)
  end.

(** The order of [http::Version]. *)
Definition version_rank (v : Version) : Z :=
  match v with HTTP_09 => 0 | HTTP_10 => 1 | HTTP_11 => 2 | HTTP_2 => 3 | HTTP_3 => 4 end.

(** What [poll_read_head] does with a parsed message. *)
Definition read_head_msg (msg : ParsedMessage Hm StatusCode)
  : M Conn Error (option (MessageHead Hm StatusCode * DecodedLength * Wants)) :=
  let head := pm_head msg in
  on_state (set_h09 false);;
  on_state (set_on_informational false);;
  on_state st_busy;;
  on_state (fun s => set_keep_alive (ka_and (keep_alive s) (pm_keep_alive msg)) s);;
  on_state (set_st_version (version head));;
  let wants := if pm_wants_upgrade msg then WANTS_UPGRADE else WANTS_EMPTY in
  wants ← (
    if decide (pm_decode msg = ZERO) then
      on_state (set_reading RKeepAlive);; try_keep_alive;; mret wants
    else
      c ← get;
      d ← expect (decoder_new (pm_decode msg) (st_max_headers (c_state c)) (st_max_header_size (c_state c)));
      if pm_expect_continue msg && (version_rank HTTP_10 <? version_rank (version head)) then
        on_state (set_reading (RContinue d));; mret (wants_add wants WANTS_EXPECT)
      else
        on_state (set_reading (RBody d));; mret wants);
  on_state (set_allow_trailer_fields
    match hm_get (head_headers head) H_TE with
    | Some te => bool_decide (te = bs "trailers")
    | None => false
    end);;
  mret (Some (head, pm_decode msg, wants)).

Definition poll_read_head : M Conn Error (option (MessageHead Hm StatusCode * DecodedLength * Wants)) :=
  assert_ can_read_head;; match_ready conn_parse read_head_msg on_read_head_error.

(** What follows a call of the decoder: the new [reading] and the result. *)
Definition body_frame (d : Decoder) (frame : Frame Hm) : option (Reading * option (Frame Hm)) :=
  match frame with
  | Data slice =>
      if decoder_is_eof d then
        Some (RKeepAlive, if decide (slice = []) then None else Some frame)
      else if decide (slice = []) then Some (RClosed, None)
      else None
  | Trailers _ => Some (RKeepAlive, Some frame)
  end.

(** [decoder.decode(cx, &mut self.io)], the decoder borrowed from the state. *)
Definition conn_decode (d : Decoder) : M Conn io_error (Frame Hm * Decoder) := fun c =>
  match decode (d, c_io c) with
  | ((d', b), o) =>
      (upd (set_reading (RBody d')) (set_c_io b c),
       match o with
       | Ready frame => Ready (frame, d')
       | Failed e => Failed e
       | Pending => Pending
       | Panicked => Panicked
       | NoFuel => NoFuel
       end)
  end.

(** The [Reading::Body] arm of [poll_read_body]; [Ready None] is the end. *)
Definition poll_read_body_in (d : Decoder) : M Conn io_error (option (Frame Hm)) :=
  match_ready (conn_decode d)
    (fun '(frame, d') =>
      match body_frame d' frame with
      | None => mret (Some frame)
      | Some (r, ret) => on_state (set_reading r);; try_keep_alive;; mret ret
      end)
    (fun e => on_state (set_reading RClosed);; try_keep_alive;; fail e).

Definition CONTINUE_100 : bytes := bs "HTTP/1.1 100 Continue" ++ CRLF ++ CRLF.

Definition poll_read_body : M Conn io_error (option (Frame Hm)) :=
  assert_ can_read_body;;
  c ← get;
  match reading (c_state c) with
  | RBody d => poll_read_body_in d
  | RContinue d =>
      match writing (c_state c) with
      | WInit => io_write (with_headers_buf (fun buf => buf ++ CONTINUE_100))
      | _ => mret tt
      end;;
      on_state (set_reading (RBody d));;
      poll_read_body_in d
  | _ => panic
  end.

Definition wants_read_again {E} : M Conn E bool :=
  c ← get; on_state (set_notify_read false);; mret (notify_read (c_state c)).

(** [force_io_read]. *)
Definition force_io_read : M Conn io_error Z :=
  assert_ (fun c => negb (is_read_closed c));;
  match_ready (on_io poll_read_from_io) mret (fun e => on_state st_close;; fail e).

Definition not_reading (c : Conn) : bool := negb (can_read_head c) && negb (can_read_body c).

Definition require_empty_read : M Conn Error unit :=
  assert_ (fun c => not_reading c && negb (is_read_closed c));;
  assert_ (fun c => negb (is_mid_message c));;
  c ← get;
  if negb (bool_decide (bm_bytes (read_buf (c_io c)) = [])) then fail new_unexpected_message
  else
    num_read ← map_err new_io force_io_read;
    if num_read =? 0 then
      c ← get;
      let ret := if should_error_on_eof c then fail new_incomplete else mret tt in
      on_state st_close_read;; ret
    else fail new_unexpected_message.

Definition mid_message_detect_eof : M Conn Error unit :=
  assert_ (fun c => not_reading c && negb (is_read_closed c));;
  assert_ is_mid_message;;
  c ← get;
  if allow_half_close (c_state c) || negb (bool_decide (bm_bytes (read_buf (c_io c)) = [])) then pend
  else
    num_read ← map_err new_io force_io_read;
    if num_read =? 0 then on_state st_close_read;; fail new_incomplete else mret tt.

Definition poll_read_keep_alive : M Conn Error unit :=
  assert_ not_reading;;
  c ← get;
  if is_read_closed c then pend
  else if is_mid_message c then mid_message_detect_eof
  else require_empty_read.

(** ** Flushing and closing *)

Definition conn_poll_flush : M Conn io_error unit := on_io poll_flush;; try_keep_alive.

Definition conn_poll_shutdown : M Conn io_error unit := on_io poll_shutdown.

(** [poll_drain_or_close_read]: the result of the read is dropped. *)
Definition poll_drain_or_close_read {E} : M Conn E unit := fun c =>
  let c := match reading (c_state c) with RContinue d => upd (set_reading (RBody d)) c | _ => c end in
  match poll_read_body c with
  | (c', Panicked) => (c', Panicked)
  | (c', NoFuel) => (c', NoFuel)
  | (c', _) =>
      match reading (c_state c') with
      | RInit | RKeepAlive => (c', Ready tt)
      | _ => close_read c'
      end
  end.

Definition take_error : M Conn Error unit :=
  c ← get;
  on_state (set_error None);;
  match st_error (c_state c) with Some err => fail err | None => mret tt end.

Definition on_upgrade {E} : M Conn E unit := on_state prepare_upgrade.
End conn.
