(* ===== verification/ConnInv.v ===== *)
(** * ConnInv

    What the HTTP/1 connection keeps true between two calls of its operations,
    and the contracts of the pieces they are made of: one lemma per step of
    [proto/http1/conn.rs] that reads, parses or moves the state machine. *)

From stdpp Require Import prelude strings.
From Stdlib Require Import ZArith Lia.
From S2P Require Import Prelude Bytes Crates Errors Length Headers MemRead Decode DecodeSpec ChunkedGrammar DecodeRefine BodyTheorems BufList WriteBuf Transport Buffered BufferedLaws Encode EncodeLaws Message Role RoleLaws RoleParse Conn.
Local Open Scope Z_scope.

(** ** What decoding does to the reader *)

Section decode_frame.
Context `{HeaderSyntax} `{HeaderMap Hm} `{HttparseHeaders} `{MemReadLaws R}.

(** A property of the reader that every read keeps is kept by [decode], on
    every path, errors included. *)
Context (P : R -> Prop) (Hread : forall n r r' o, P r -> read_mem n r = (r', o) -> P r').

Lemma step_keeps s (r r' : R) a a' o : P r -> step s (r, a) = ((r', a'), o) -> P r'.
Proof.
  intros Hr. destruct (decide (s = ChunkedState.Body)) as [->|Hb].
  - cbn [step]. unfold read_body, rdr, zoom, args, mbind, M_bind. simpl.
    destruct (read_mem _ r) as [r1 o1] eqn:Er. apply Hread in Er as Hr1; [|done].
    destruct o1 as [sl|e| | |]; simpl; [|by intros [= <- <- <-]..].
    destruct (len sl =? 0); simpl; [by intros [= <- <- <-]|].
    destruct (checked_sub _ _) as [rem|]; simpl; [|by intros [= <- <- <-]].
    by destruct (0 <? rem); intros [= <- <- <-].
  - destruct (decide (s = ChunkedState.End)) as [->|He]; [by intros [= <- <- <-]|].
    rewrite step_reader by done. destruct (read_mem 1 r) as [r1 o1] eqn:Er. apply Hread in Er as Hr1; [|done].
    destruct o1 as [[|b l]|e| | |]; try by intros [= <- <- <-].
    destruct (step s ([b], a)) as [[? ?] ?]. by intros [= <- <- <-].
Qed.

Lemma decode_chunked_keeps fuel c (r r' : R) d' (o : outcome io_error (Frame Hm)) :
  P r -> decode_chunked fuel c r = ((d', r'), o) -> P r'.
Proof.
  revert c r. induction fuel as [|k IH]; intros c r Hr; cbn [decode_chunked]; [by intros [= <- <- <-]|].
  destruct (step (state c) (r, step_args c)) as [[r1 a1] o1] eqn:Es. apply step_keeps in Es; [|done].
  destruct o1 as [s|e| | |]; try by intros [= <- <- <-].
  destruct (decide (s = ChunkedState.End)).
  - destruct (trailers_buf _); [|by intros [= <- <- <-]].
    by destruct (decode_trailers _ _); intros [= <- <- <-].
  - destruct (chunk_buf a1); [by intros [= <- <- <-]|]. by apply IH.
Qed.

Lemma decode_keeps d (r r' : R) d' (o : outcome io_error (Frame Hm)) :
  P r -> decode (d, r) = ((d', r'), o) -> P r'.
Proof.
  intros Hr. destruct d as [n|c|[]]; cbn [decode].
  - destruct (n =? 0); [by intros [= <- <- <-]|].
    destruct (read_mem _ r) as [r1 o1] eqn:Er. apply Hread in Er; [|done].
    destruct o1; try by intros [= <- <- <-]. repeat case_match; by intros [= <- <- <-].
  - by apply decode_chunked_keeps.
  - by intros [= <- <- <-].
  - destruct (read_mem _ r) as [r1 o1] eqn:Er. apply Hread in Er; [|done].
    destruct o1; by intros [= <- <- <-].
Qed.
End decode_frame.

(** ** The invariant *)

Section inv.
Context `{HeaderSyntaxLaws} `{HeaderMapLaws Hm} `{HttparseHeaders} `{HttparseResponse PC}
  `{!HttparseResponseLaws PC} `{TransportLaws T V} `{!BytesMutLaws V} `{BufCombinatorsLaws} `{BufLaws B}.
Abbreviation Io := (Buffered T V (EncodedBuf B)).
Abbreviation St := (State Hm PC).
Abbreviation C := (Conn (Hm := Hm) (PC := PC) (T := T) (V := V) (B := B)).

(** An encoder that is still wanted has something to write. *)
Definition encoder_ok (e : Encoder) : Prop :=
  is_last e = false /\ forall n, enc_kind e = EncLength n -> 0 < n.

(** The state machine: a body is read only after a request was written, the
    header map is cached only while a response is awaited, the "100-continue"
    state of the shared code is never entered by a client, and an idle
    connection is at the start of both directions. *)
Record st_inv (s : St) : Prop := {
  inv_reading :
    match reading s with
    | RInit | RClosed => True
    | RContinue _ => False
    | RBody d => decoder_inv d /\ writing s ≠ WInit /\ cached_headers s = None
    | RKeepAlive => writing s ≠ WInit /\ cached_headers s = None
    end;
  inv_writing :
    match writing s with
    | WInit => cached_headers s = None
    | WBody e => encoder_ok e
    | WKeepAlive | WClosed => True
    end;
  inv_idle : keep_alive s = Idle -> reading s = RInit /\ writing s = WInit;
}.

(** How much of the read buffer the fast completeness test may skip. *)
Definition partial_inv (b : Io) (s : St) : Prop :=
  match reading s with
  | RInit =>
      match partial_len b with
      | None => True
      | Some n => writing s ≠ WInit /\ 0 <= n <= len (bm_bytes (read_buf b))
      end
  | RBody _ | RKeepAlive => partial_len b = None
  | RContinue _ | RClosed => True
  end.

Record conn_inv (c : C) : Prop := {
  inv_st : st_inv (c_state c);
  inv_partial : partial_inv (c_io c) (c_state c);
  inv_wb : wb_ok (write_buf (c_io c));
  inv_rs : rs_ok (read_buf_strategy (c_io c));
}.

(** What no operation undoes: a disabled keep-alive and a closed direction; and
    a connection that is not to be kept alive does not come back to the start. *)
Record st_le (s s' : St) : Prop := {
  le_disabled : keep_alive s = Disabled -> keep_alive s' = Disabled;
  le_read_closed : reading s = RClosed -> reading s' = RClosed;
  le_write_closed : writing s = WClosed -> writing s' = WClosed;
  le_used : keep_alive s = Disabled -> writing s' = WInit -> writing s = WInit;
}.

(** What no operation but a write changes: the bytes accepted for writing, and
    how far writing has come. The connection becomes idle only after that. *)
Record conn_le (c c' : C) : Prop := {
  le_st : st_le (c_state c) (c_state c');
  le_out : out_stream (c_io c') = out_stream (c_io c);
  le_written : writing (c_state c') = WKeepAlive -> writing (c_state c) = WKeepAlive;
  le_idle : keep_alive (c_state c') = Idle ->
    keep_alive (c_state c) = Idle \/ (writing (c_state c) = WKeepAlive /\ keep_alive (c_state c) = Busy);
}.

#[export] Instance st_le_preorder : PreOrder st_le.
Proof. split; [by split|]. intros s1 s2 s3 [] []. split; auto. Qed.

#[export] Instance conn_le_preorder : PreOrder conn_le.
Proof.
  split; [by split; auto|]. intros c1 c2 c3 [Hs1 Ho1 Hw1 Hi1] [Hs2 Ho2 Hw2 Hi2].
  split; [by etrans|congruence|auto|]. intros Hid. destruct (Hi2 Hid) as [?|[Hw Hb]]; [auto|].
  pose proof (le_disabled _ _ Hs1) as Hd. destruct (keep_alive (c_state c1)); [auto|auto|].
  rewrite Hd in Hb by done. congruence.
Qed.

(** The contract of an operation that may end in any way but a panic. *)
Definition keeps (c : C) {E A} (o : outcome E A) (c' : C) : Prop :=
  sound o /\ conn_inv c' /\ conn_le c c'.

(** ** The pieces *)

Lemma conn_new_inv cfg (t : T) : conn_inv (conn_new cfg t).
Proof.
  split; [by split|done| |].
  - simpl. apply wb_new_ok.
  - apply rs_with_max_ok. split; vm_compute; done.
Qed.

(** Reading leaves the write side alone. *)
Lemma read_out (b b' : Io) : same_write b b' -> out_stream b' = out_stream b.
Proof. intros (Hw & Hwr & _). unfold out_stream. by rewrite Hw, Hwr. Qed.

(** An operation that only closes, disables or reads is below everything. *)
Lemma conn_le_intro (c c' : C) :
  keep_alive (c_state c') = keep_alive (c_state c) \/ keep_alive (c_state c') = Disabled ->
  (reading (c_state c) = RClosed -> reading (c_state c') = RClosed) ->
  writing (c_state c') = writing (c_state c) \/ writing (c_state c') = WClosed ->
  out_stream (c_io c') = out_stream (c_io c) -> conn_le c c'.
Proof.
  intros Hk Hr Hw Ho. split; [|done| |].
  - split; [intros ?; destruct Hk; congruence|done|intros ?; destruct Hw; congruence|].
    intros _ Hi. destruct Hw; congruence.
  - intros Hi. destruct Hw; congruence.
  - intros Hi. left. destruct Hk; congruence.
Qed.

(** A pure update of the state machine. *)
Lemma upd_le (c : C) f :
  keep_alive (f (c_state c)) = keep_alive (c_state c) \/ keep_alive (f (c_state c)) = Disabled ->
  (reading (c_state c) = RClosed -> reading (f (c_state c)) = RClosed) ->
  writing (f (c_state c)) = writing (c_state c) \/ writing (f (c_state c)) = WClosed -> conn_le c (upd f c).
Proof. intros. by apply conn_le_intro. Qed.

Lemma st_close_inv (c : C) : conn_inv c -> conn_inv (upd st_close c) /\ conn_le c (upd st_close c).
Proof. intros [Hs Hp Hw Hr]. split; [split; [by split|done..]|by apply upd_le; auto]. Qed.

Lemma st_close_read_inv (c : C) : conn_inv c -> conn_inv (upd st_close_read c) /\ conn_le c (upd st_close_read c).
Proof.
  intros [[Hrd Hwr Hidle] Hp Hw Hr]. split; [|by apply upd_le; auto].
  split; [|done..]. by split.
Qed.

Lemma st_close_write_inv (c : C) : conn_inv c -> conn_inv (upd st_close_write c) /\ conn_le c (upd st_close_write c).
Proof.
  intros [[Hrd Hwr Hidle] Hp Hw Hr]. split; [|by apply upd_le; auto].
  split; [| |done..].
  - split; [|done..]. simpl. destruct (reading (c_state c)); try done; naive_solver.
  - unfold partial_inv in *. simpl. destruct (reading (c_state c)); try done.
    destruct (partial_len (c_io c)); [|done]. naive_solver.
Qed.

(** A read of the transport keeps the invariant. *)
Lemma io_read_keeps (c : C) b o :
  conn_inv c -> poll_read_from_io (c_io c) = (b, o) -> keeps c o (set_c_io b c).
Proof.
  intros [Hs Hp Hw Hr] Er. apply poll_read_from_io_spec in Er as (Hrs & Hsame & Hpost); [|done].
  pose proof (read_out _ _ Hsame) as Hout. destruct Hsame as (Hwb & _ & _ & Hpl).
  assert (len (bm_bytes (read_buf (c_io c))) <= len (bm_bytes (read_buf b))) as Hlen.
  { destruct o; try done.
    - destruct Hpost as (d & _ & -> & _). rewrite len_app. pose proof (len_nonneg d). lia.
    - destruct Hpost as [-> _]. lia.
    - destruct Hpost as [-> _]. lia. }
  split; [by destruct o|]. split.
  - split; [done| |simpl; by rewrite Hwb|done]. unfold partial_inv in *. simpl. rewrite Hpl.
    destruct (reading (c_state c)); try done. destruct (partial_len (c_io c)); [|done]. split; [naive_solver|lia].
  - apply conn_le_intro; auto.
Qed.

Lemma keeps_le (c1 c2 c3 : C) {E A} (o : outcome E A) : conn_le c1 c2 -> keeps c2 o c3 -> keeps c1 o c3.
Proof. intros Hle (Ho & Hi & Hle'). split_and!; [done|done|by etrans]. Qed.

Lemma notify_io_keeps {E} (c : C) : conn_inv c -> wp (E := E) notify_io (keeps c) c.
Proof.
  intros Hi. unfold wp, notify_io.
  assert (Hnote : forall c0, conn_inv c0 -> keeps c0 (E := E) (Ready ()) (upd (set_notify_read true) c0)).
  { intros c0 [[] ? ? ?]. split_and!; [done|split; [by split|done..]|by apply upd_le; auto]. }
  destruct (is_read_blocked _); [done|]. destruct (decide _) as [_|_]; [|by apply Hnote].
  destruct (poll_read_from_io (c_io c)) as [b o] eqn:Er.
  destruct (io_read_keeps c b o Hi Er) as (Ho & Hi' & Hle).
  destruct o as [n|e| | |]; try done.
  - cbn zeta. destruct (n =? 0); [|by eapply keeps_le, Hnote].
    destruct (is_idle _); split_and!; try done; first [by apply st_close_inv|by apply st_close_read_inv|idtac];
      (etrans; [exact Hle|]); first [by apply st_close_inv|by apply st_close_read_inv].
  - split_and!; [done| |].
    + destruct Hi' as [_ _ Hw Hr]. split; [by split|done..].
    + etrans; [exact Hle|]. by apply upd_le; auto.
Qed.

Lemma maybe_notify_keeps {E} (c : C) : conn_inv c -> wp (E := E) maybe_notify (keeps c) c.
Proof.
  intros Hi. pose proof (notify_io_keeps (E := E) c Hi) as Hio. unfold wp, maybe_notify in *.
  destruct (reading (c_state c)); try done. by destruct (writing (c_state c)).
Qed.

(** Looking for more input takes nothing from the stream, and at most closes. *)
Lemma notify_io_stream {E} (c c' : C) (o : outcome E unit) :
  rs_ok (read_buf_strategy (c_io c)) -> notify_io c = (c', o) ->
  in_stream (c_io c') = in_stream (c_io c) /\
  (reading (c_state c') = reading (c_state c) \/ reading (c_state c') = RClosed).
Proof.
  intros Hr. unfold notify_io. destruct (is_read_blocked _); [intros [= <- <-]; auto|].
  destruct (decide _) as [_|_]; [|intros [= <- <-]; auto].
  destruct (poll_read_from_io (c_io c)) as [b o1] eqn:Er.
  apply poll_read_from_io_spec in Er as (_ & _ & Hpost); [|done].
  assert (Hin : sound o1 -> in_stream b = in_stream (c_io c)).
  { intros _. unfold in_stream. destruct o1; try done.
    - destruct Hpost as (d & _ & -> & -> & _). by rewrite <- app_assoc.
    - by destruct Hpost as (-> & ->).
    - by destruct Hpost as (-> & -> & _). }
  destruct o1 as [n| | | |]; try done; specialize (Hin I); cbn zeta; [destruct (n =? 0)| |];
    intros [= <- <-]; (split; [done|]); simpl; auto. destruct (is_idle _); auto.
Qed.

Lemma maybe_notify_stream {E} (c c' : C) (o : outcome E unit) :
  rs_ok (read_buf_strategy (c_io c)) -> maybe_notify c = (c', o) ->
  in_stream (c_io c') = in_stream (c_io c) /\
  (reading (c_state c') = reading (c_state c) \/ reading (c_state c') = RClosed).
Proof.
  intros Hr. unfold maybe_notify.
  destruct (reading (c_state c)) eqn:Er; try (intros [= <- <-]; rewrite Er; by auto).
  destruct (writing (c_state c)); try (intros [= <- <-]; rewrite Er; by auto); intros Hn;
    apply notify_io_stream in Hn; try done; by rewrite Er in Hn.
Qed.

Lemma st_try_keep_alive_inv (c : C) :
  conn_inv c ->
  exists s', st_try_keep_alive (c_state c) = Some s' /\ conn_inv (set_c_state s' c) /\ conn_le c (set_c_state s' c).
Proof.
  intros Hi. destruct (st_close_inv c Hi) as [Hci Hcl]. unfold st_try_keep_alive.
  destruct (reading (c_state c)) eqn:Er, (writing (c_state c)) eqn:Ew;
    try (eexists; split_and!; [done|by destruct c|by destruct c]).
  destruct (decide (keep_alive (c_state c) = Busy)) as [Hb|Hb]; [|eexists; split_and!; done].
  unfold st_idle, is_idle. rewrite Hb. simpl. eexists. split; [done|].
  destruct Hi as [[Hrd Hwr Hidle] Hp Hw Hr]. rewrite Er, Ew in *. split.
  - split; [|simpl|done..].
    + split; simpl; try done. naive_solver.
    + unfold partial_inv in *. simpl. rewrite Er in Hp. by rewrite Hp.
  - split; simpl; try congruence; [|auto]. split; simpl; congruence.
Qed.

Lemma try_keep_alive_keeps {E} (c : C) : conn_inv c -> wp (E := E) try_keep_alive (keeps c) c.
Proof.
  intros Hi. unfold try_keep_alive. do 3 wp_step.
  destruct (st_try_keep_alive_inv c Hi) as (s' & Hs & Hi' & Hle).
  eapply wp_expect; [done|]. do 2 wp_step. eapply wp_mono; [by apply maybe_notify_keeps|].
  intros o c'. by apply keeps_le.
Qed.

(** It answers at once. *)
Lemma try_keep_alive_ready {E} (c : C) :
  conn_inv c -> wp (E := E) try_keep_alive (fun o c' => o = Ready tt /\ conn_inv c' /\ conn_le c c') c.
Proof.
  intros Hi. pose proof (try_keep_alive_keeps (E := E) c Hi) as Hk. unfold wp in *.
  destruct (try_keep_alive c) as [c' o] eqn:Et. destruct Hk as (Ho & Hi' & Hle). split; [|done].
  clear -Ho Et. unfold try_keep_alive, mbind, M_bind, get, expect, modify, maybe_notify, notify_io in Et.
  repeat case_match; simplify_eq; done.
Qed.

(** ** Parsing from the transport *)

Abbreviation PIo := (ParseIo (Hm := Hm) (T := T) (V := V) (B := B)).

Definition partial_ok (b : Io) : Prop := forall n, partial_len b = Some n -> 0 <= n <= len (bm_bytes (read_buf b)).

(** What parsing leaves alone: the write side; and that it only takes a prefix
    of the stream. *)
Record parse_le (p p' : PIo) : Prop := {
  ple_rs : rs_ok (read_buf_strategy (pi_io p'));
  ple_wb : write_buf (pi_io p') = write_buf (pi_io p);
  ple_written : written (io (pi_io p')) = written (io (pi_io p));
  ple_stream : exists w, in_stream (pi_io p) = w ++ in_stream (pi_io p');
  ple_cached : pi_cached p' = pi_cached p \/ pi_cached p' = None;
  ple_informed : exists hs, pi_informed p' = pi_informed p ++ hs /\
    Forall (fun h => 100 <= subject h <= 199 /\ subject h ≠ 101) hs;
}.

Lemma parse_le_refl p : rs_ok (read_buf_strategy (pi_io p)) -> parse_le p p.
Proof. intros Hr. split; eauto; [by exists []|]. exists []. by rewrite app_nil_r. Qed.

Lemma parse_le_trans p1 p2 p3 : parse_le p1 p2 -> parse_le p2 p3 -> parse_le p1 p3.
Proof.
  intros [_ ? ? (w1 & Hw1) Hc1 (h1 & Hi1 & Hf1)] [? ? ? (w2 & Hw2) Hc2 (h2 & Hi2 & Hf2)]. split; try congruence.
  - exists (w1 ++ w2). by rewrite Hw1, Hw2, app_assoc.
  - destruct Hc2 as [-> | ->]; auto.
  - exists (h1 ++ h2). rewrite Hi2, Hi1, app_assoc. split; [done|]. by apply Forall_app.
Qed.

Definition parsed_post (p p' : PIo) (o : outcome Error (ParsedMessage Hm StatusCode)) : Prop :=
  sound o /\ parse_le p p' /\
  match o with
  | Ready m => partial_len (pi_io p') = None /\ pi_cached p' = None /\ pm_expect_continue m = false /\
      exists method, client_decoder (pm_head m) method = Ok (Some (pm_decode m, pm_wants_upgrade m)) /\
        (pm_keep_alive m = true -> pm_wants_upgrade m = false)
  | Pending => partial_ok (pi_io p')
  | _ => True
  end.

(** One round of the role's parser on the buffer. *)
Lemma parse_round (p : PIo) ctx :
  rs_ok (read_buf_strategy (pi_io p)) -> partial_ok (pi_io p) ->
  wp (zoom pi_state set_pi_state (parse_headers (partial_len (pi_io p)) ctx)) (fun o p' =>
    sound o /\ parse_le p p' /\ io (pi_io p') = io (pi_io p) /\
    match o with
    | Ready (Some m) => pi_cached p' = None /\ pm_expect_continue m = false /\
        exists method, client_decoder (pm_head m) method = Ok (Some (pm_decode m, pm_wants_upgrade m)) /\
          (pm_keep_alive m = true -> pm_wants_upgrade m = false)
    | Pending => False
    | _ => True
    end) p.
Proof.
  intros Hr Hp. apply wp_zoom, wp_intro. intros s' o Ho.
  apply parse_headers_post in Ho as [(Hc & (w & Hw) & Hi) Hpost]; [|exact Hp].
  split; [by destruct o|]. split; [|split; [done|by destruct o]].
  split; try done. exists w. unfold in_stream. simpl in *. by rewrite Hw, app_assoc.
Qed.

Lemma parse_loop_spec fuel ctx (p : PIo) :
  rs_ok (read_buf_strategy (pi_io p)) -> partial_ok (pi_io p) ->
  (length (incoming (io (pi_io p))) < fuel)%nat ->
  wp (parse_loop fuel ctx) (fun o p' => parsed_post p p' o) p.
Proof.
  revert p. induction fuel as [|k IH]; intros p Hr Hp Hfuel; [lia|]. cbn [parse_loop].
  do 4 wp_step. eapply wp_mono; [by apply parse_round|]. intros o p1 (Ho & Hle & Hio & Hmsg).
  destruct o as [[m|]|e| | |]; try done.
  { destruct Hmsg as (Hc & He & Hd). do 3 wp_step. split_and!; try done.
    destruct Hle. by split. }
  do 2 wp_step. pose proof (ple_rs _ _ Hle) as Hr1.
  destruct (match ctx_max_header_size ctx with Some m => _ | None => false end); [by wp_step|].
  destruct (rs_max _ <=? _); [by wp_step|]. do 4 wp_step.
  set (n := len (bm_bytes (read_buf (pi_io p1)))). set (p2 := set_pi_io _ p1).
  assert (Hp2 : partial_ok (pi_io p2)).
  { intros m. simpl. destruct (0 <? n); intros [= <-]. unfold n. split; [apply len_nonneg|done]. }
  assert (Hle2 : parse_le p p2) by (destruct Hle; by split).
  apply wp_zoom, wp_intro. intros b o Er.
  apply poll_read_from_io_spec in Er as (Hrs & (Hwb & Hwr & _ & Hpl) & Hpost); [|done].
  set (p3 := set_pi_io b p2).
  assert (Hle3 : (exists w, in_stream (pi_io p2) = w ++ in_stream b) -> parse_le p p3).
  { intros Hw. apply (parse_le_trans _ p2); [done|]. split; try done; [by left|].
    exists []. by rewrite app_nil_r. }
  destruct o as [i|e| | |]; cbv beta iota; try done.
  - destruct Hpost as (d & -> & Hb & Hin & Hnil & _ & _).
    assert (parse_le p p3) as Hle3'.
    { apply Hle3. exists []. unfold in_stream. by rewrite Hb, Hin, <- app_assoc. }
    destruct (len d =? 0) eqn:Ed; [by wp_step|]. zbool.
    eapply wp_mono; [apply IH|].
    + done.
    + intros m Hm'. simpl in Hm'. rewrite Hpl in Hm'. specialize (Hp2 m Hm'). simpl in *.
      rewrite Hb, len_app. pose proof (len_nonneg d). simpl. lia.
    + simpl. simpl in Hin. rewrite Hio in Hin. rewrite Hin, length_app in Hfuel. unfold len in Ed. lia.
    + intros o' p' (Ho' & Hle' & Hpost'). split_and!; [done|by eapply parse_le_trans|done].
  - destruct Hpost as (Hb & Hin). split_and!; [done| |done]. apply Hle3. exists []. unfold in_stream. by rewrite Hb, Hin.
  - destruct Hpost as (Hb & Hin & _). split_and!; [done| |].
    + apply Hle3. exists []. unfold in_stream. by rewrite Hb, Hin.
    + intros m Hm'. simpl in Hm'. rewrite Hpl in Hm'. specialize (Hp2 m Hm'). simpl in *. by rewrite Hb.
Qed.

(** The decoder for a length the role announces. *)
Lemma client_decoder_new (inc : MessageHead Hm StatusCode) m l up mh ms :
  client_decoder inc m = Ok (Some (l, up)) ->
  exists d, decoder_new l mh ms = Some d /\ decoder_inv d /\ (l ≠ ZERO -> decoder_is_eof d = false).
Proof.
  intros Hd. pose proof (client_decoder_framing inc m) as Hf. rewrite Hd in Hf.
  inversion Hf; subst.
  1,2,3: by eexists; split_and!; [done|split; vm_compute; done|].
  - eexists. split_and!; [done|apply chunked_inv_new|done].
  - eexists. by split_and!.
  - match goal with
    | Hc : content_length_parse_all _ = Some n, Hle : n <= MAX_LEN |- _ =>
        pose proof (content_length_u64 _ _ Hc) as Hu; pose proof (conj (proj1 Hu) Hle) as Hn
    end.
    exists (Length n). split; [exact (decoder_new_exact n mh ms Hn)|]. split; [exact Hu|].
    intros Hz. cbn [decoder_is_eof]. apply Z.eqb_neq. intros ->. by apply Hz.
  - eexists. by split_and!.
Qed.
End inv.
