(* ===== verification/ConnRead.v ===== *)
(** * ConnRead

    The reading operations of the HTTP/1 connection keep its invariant and never
    panic: [poll_read_head], [poll_read_body], [poll_read_keep_alive] and
    [poll_drain_or_close_read] of [proto/http1/conn.rs]. *)

From stdpp Require Import prelude strings.
From Stdlib Require Import ZArith Lia.
From S2P Require Import Prelude Bytes Crates Errors Length Headers MemRead Decode BodyTheorems BufList WriteBuf Transport Buffered BufferedLaws Encode EncodeLaws Message Role RoleLaws RoleParse Conn ConnInv.
Local Open Scope Z_scope.

(** Steps of a computation over a connection. *)
Ltac conn_step :=
  lazymatch goal with
  | |- wp (on_state _) _ _ => unfold on_state; wp_step
  | |- wp close_read _ _ => unfold close_read
  | |- wp close_write _ _ => unfold close_write
  | _ => wp_step
  end.

Section read.
Context `{HeaderSyntaxLaws} `{HeaderMapLaws Hm} `{HttparseHeaders} `{HttparseResponse PC}
  `{!HttparseResponseLaws PC} `{TransportLaws T V} `{!BytesMutLaws V} `{BufCombinatorsLaws} `{BufLaws B}.
Abbreviation Io := (Buffered T V (EncodedBuf B)).
Abbreviation C := (Conn (Hm := Hm) (PC := PC) (T := T) (V := V) (B := B)).

Lemma wp_assert {E} (b : C -> bool) (Q : outcome E unit -> C -> Prop) c : b c = true -> Q (Ready tt) c -> wp (assert_ b) Q c.
Proof. unfold wp, assert_. by intros ->. Qed.

Lemma wp_mono_le {E A} (m : M C E A) (c0 c : C) : conn_le c0 c -> wp m (keeps c) c -> wp m (keeps c0) c.
Proof. intros Hle Hm'. eapply wp_mono; [exact Hm'|]. intros o c'. by apply keeps_le. Qed.

(** Two steps that keep the invariant, then an answer. *)
Lemma wp_then_ret {E A} (m1 m2 : M C E unit) (a : unit -> A) (c : C) :
  wp (m1;; m2) (keeps c) c -> wp (m1;; m2;; mret (a tt)) (keeps c) c.
Proof.
  unfold wp, mbind, M_bind. destruct (m1 c) as [c1 [[]| | | |]]; try done.
  by destruct (m2 c1) as [c2 [[]| | | |]].
Qed.

Lemma wp_then_fail {E A} (m1 m2 : M C E unit) (e : E) (c : C) :
  wp (m1;; m2) (keeps c) c -> wp (m1;; m2;; fail (A := A) e) (keeps c) c.
Proof.
  unfold wp, mbind, M_bind. destruct (m1 c) as [c1 [[]| | | |]]; try done.
  by destruct (m2 c1) as [c2 [[]| | | |]].
Qed.

(** ** The end of a head *)

Lemma leading_lines_range s : 0 <= leading_lines s <= len s.
Proof.
  induction s as [|b s IH]; cbn [leading_lines]; [done|]. rewrite len_cons.
  destruct (_ || _); [lia|]. pose proof (len_nonneg s). lia.
Qed.

Lemma consume_leading_lines_spec (b : Io) :
  exists v, consume_leading_lines b = Some (set_read_buf v b) /\
    bm_bytes v = zdrop (leading_lines (bm_bytes (read_buf b))) (bm_bytes (read_buf b)).
Proof.
  unfold consume_leading_lines. destruct (decide (bm_bytes (read_buf b) = [])) as [E|_].
  - exists (read_buf b). split; [by destruct b|]. by rewrite E.
  - destruct (bm_advance_spec (leading_lines (bm_bytes (read_buf b))) (read_buf b)) as (v & -> & Hv);
      [apply leading_lines_range|]. eauto.
Qed.

(** All of the invariant but what the fast test may skip. *)
Definition conn_weak (c : C) : Prop :=
  st_inv (c_state c) /\ wb_ok (write_buf (c_io c)) /\ rs_ok (read_buf_strategy (c_io c)).

Lemma close_read_weak (c : C) : conn_weak c -> conn_inv (upd st_close_read c) /\ conn_le c (upd st_close_read c).
Proof.
  intros ([Hrd Hwr Hidle] & Hw & Hr). split; [|by apply upd_le; auto].
  split; [|done..]. by split.
Qed.

Lemma set_read_buf_inv (c : C) v :
  reading (c_state c) = RClosed -> conn_inv c ->
  conn_inv (set_c_io (set_read_buf v (c_io c)) c) /\ conn_le c (set_c_io (set_read_buf v (c_io c)) c).
Proof.
  intros Hc [Hs Hp Hw Hr]. split.
  - split; [done| |done..]. unfold partial_inv. simpl. by rewrite Hc.
  - apply conn_le_intro; auto.
Qed.

(** Failing to read a head closes the read side. The failure is reported,
    unless the connection was idle. *)
Definition head_failed {Z'} (c : C) (e : Error) (o : outcome Error (option Z')) (c' : C) : Prop :=
  keeps c o c' /\ reading (c_state c') = RClosed /\ keep_alive (c_state c') = Disabled /\
  (keep_alive (c_state c) ≠ Idle -> writing (c_state c) ≠ WInit -> o = Failed e).

Lemma on_read_head_error_keeps {Z'} (c : C) e :
  conn_weak c -> wp (on_read_head_error (Z := Z') e) (head_failed c e) c.
Proof.
  intros Hw. unfold on_read_head_error. do 4 conn_step. conn_step.
  destruct (close_read_weak c Hw) as [Hi Hle]. set (c1 := upd st_close_read c) in *.
  unfold io_write. do 3 conn_step.
  destruct (consume_leading_lines_spec (c_io c1)) as (v & Hv & _). conn_step. wp_expect Hv.
  conn_step.
  destruct (set_read_buf_inv c1 v eq_refl Hi) as [Hi2 Hle2]. set (c2 := set_c_io _ c1) in *.
  assert (Hle' : conn_le c c2) by (by etrans).
  assert (Hw2 : writing (c_state c2) = writing (c_state c)) by done.
  do 2 conn_step.
  destruct (_ || should_error_on_eof c) eqn:Eor.
  - conn_step. apply wp_intro. intros c' o. unfold on_parse_error.
    destruct (writing (c_state c2)) eqn:E2; [destruct (has_h2_prefix c2)| | |]; intros [= <- <-];
      (split; [by split_and!|]); (split; [done|]); (split; [done|]); congruence.
  - do 3 conn_step. destruct (st_close_write_inv c2 Hi2) as [Hi3 Hle3].
    split; [split_and!; [done|done|by etrans]|]. split; [done|]. split; [done|].
    intros Hid. apply orb_false_iff in Eor as [_ Eor]. unfold should_error_on_eof, is_idle in Eor.
    rewrite (bool_decide_false _ Hid) in Eor. done.
Qed.

(** ** A head *)

(** What a parsed head does to the state before the body is looked at. *)
Definition head_state (msg : ParsedMessage Hm StatusCode) (s : State Hm PC) : State Hm PC :=
  set_st_version (version (pm_head msg))
    (let s := st_busy (set_on_informational false (set_h09 false s)) in
     set_keep_alive (ka_and (keep_alive s) (pm_keep_alive msg)) s).

Lemma head_state_keep_alive msg s :
  keep_alive (head_state msg s) = if pm_keep_alive msg && negb (bool_decide (keep_alive s = Disabled)) then Busy else Disabled.
Proof.
  unfold head_state, st_busy, ka_and. simpl. destruct (decide (keep_alive s = Disabled)) as [E|E]; simpl.
  - rewrite E. by destruct (pm_keep_alive msg).
  - rewrite (bool_decide_false _ E). by destruct (pm_keep_alive msg).
Qed.

Lemma head_state_frame msg s :
  reading (head_state msg s) = reading s /\ writing (head_state msg s) = writing s /\
  cached_headers (head_state msg s) = cached_headers s.
Proof. unfold head_state, st_busy. simpl. by destruct (decide _). Qed.

(** A head that was read: what is returned, and that a message without
    keep-alive disables it for good. *)
Definition head_read (c : C) (msg : ParsedMessage Hm StatusCode)
    (o : outcome Error (option (MessageHead Hm StatusCode * DecodedLength * Wants))) (c' : C) : Prop :=
  o = Ready (Some (pm_head msg, pm_decode msg, if pm_wants_upgrade msg then WANTS_UPGRADE else WANTS_EMPTY)) /\
  (pm_keep_alive msg = false -> keep_alive (c_state c') = Disabled) /\ conn_inv c' /\ conn_le c c'.

Lemma read_head_msg_keeps (c : C) msg :
  conn_inv c -> reading (c_state c) = RInit -> writing (c_state c) ≠ WInit -> cached_headers (c_state c) = None ->
  partial_len (c_io c) = None -> pm_expect_continue msg = false ->
  (exists m, client_decoder (pm_head msg) m = Ok (Some (pm_decode msg, pm_wants_upgrade msg))) ->
  wp (read_head_msg msg) (head_read c msg) c.
Proof.
  intros [[_ Hwr Hidle] Hp Hwb Hrs] Hrd Hww Hcached Hpl Hexp (m & Hdec). unfold read_head_msg.
  do 10 conn_step. change (upd _ (upd _ (upd _ (upd _ (upd _ c))))) with (upd (head_state msg) c).
  destruct (head_state_frame msg (c_state c)) as (Hr1 & Hw1 & Hc1).
  pose proof (head_state_keep_alive msg (c_state c)) as Hka1.
  set (c1 := upd (head_state msg) c). change (head_state msg (c_state c)) with (c_state c1) in *.
  assert (Hio : c_io c1 = c_io c) by done. clearbody c1. cbv zeta.
  assert (Hkeep : forall r, (r = RKeepAlive \/ exists d, r = RBody d /\ decoder_inv d) ->
    conn_inv (upd (set_reading r) c1) /\ conn_le c (upd (set_reading r) c1)).
  { intros r Hr. split.
    - split; simpl; rewrite ?Hio; [|unfold partial_inv; simpl; by destruct Hr as [->|(d & -> & _)]|done..].
      split; simpl; rewrite ?Hw1, ?Hc1, ?Hka1; [|done|by destruct (_ && _)].
      by destruct Hr as [->|(d & -> & Hd)].
    - assert (keep_alive (c_state c1) = Busy \/ keep_alive (c_state c1) = Disabled) as Hbd.
      { rewrite Hka1. destruct (_ && _); auto. }
      split; simpl; rewrite ?Hw1, ?Hio; try done; [|intros Hid; rewrite Hid in Hbd; naive_solver].
      split; simpl; rewrite ?Hw1; try done; [|congruence]. rewrite Hka1. intros ->. by rewrite andb_false_r. }
  assert (Hdis : pm_keep_alive msg = false -> keep_alive (c_state c1) = Disabled) by (rewrite Hka1; by intros ->).
  assert (Hfin : forall c' b0, conn_inv c' -> conn_le c c' ->
    (pm_keep_alive msg = false -> keep_alive (c_state c') = Disabled) ->
    head_read c msg (Ready (Some (pm_head msg, pm_decode msg, if pm_wants_upgrade msg then WANTS_UPGRADE else WANTS_EMPTY)))
      (upd (set_allow_trailer_fields b0) c')).
  { intros c' b0 [[? ? ?] ? ? ?] Hle Hk. split_and!; [done|done|split; [by split|done..]|].
    etrans; [exact Hle|]. by apply upd_le; auto. }
  conn_step. destruct (decide (pm_decode msg = ZERO)) as [Hz|Hz].
  - do 3 conn_step. destruct (Hkeep RKeepAlive (or_introl eq_refl)) as [Hi2 Hle2].
    eapply wp_mono; [by apply try_keep_alive_ready|]. intros o c' (-> & Hi3 & Hle3).
    do 4 conn_step. apply Hfin; [done|by etrans|]. intros Hk. apply (le_disabled _ _ (le_st _ _ Hle3)). by apply Hdis.
  - destruct (client_decoder_new _ _ _ _ (st_max_headers (c_state c1)) (st_max_header_size (c_state c1)) Hdec)
      as (d & Hd & Hdi & _).
    do 3 conn_step. wp_expect Hd. rewrite Hexp. cbn [andb]. do 6 conn_step.
    destruct (Hkeep (RBody d)) as [Hi2 Hle2]; [eauto|]. by apply Hfin.
Qed.

(** ** [poll_read_head] *)

(** The results of [poll_read_head]. *)
Definition head_post (c : C) (o : outcome Error (option (MessageHead Hm StatusCode * DecodedLength * Wants))) (c' : C) : Prop :=
  keeps c o c' /\
  match o with
  | Ready None => False
  | Ready (Some (head, l, wants)) =>
      (~ 100 <= subject head <= 199 \/ subject head = 101) /\
      (wants_contains wants WANTS_UPGRADE = true -> keep_alive (c_state c') = Disabled)
  | Failed e => reading (c_state c') = RClosed /\ keep_alive (c_state c') = Disabled
  | Pending => reading (c_state c') = RInit
  | _ => False
  end.

Lemma poll_read_head_spec (c : C) :
  conn_inv c -> can_read_head c = true -> wp poll_read_head (head_post c) c.
Proof.
  intros [[Hrd Hwr Hidle] Hp Hwb Hrs] Hcan. unfold poll_read_head. conn_step. apply wp_assert; [done|].
  conn_step. unfold can_read_head in Hcan.
  destruct (reading (c_state c)) eqn:Er; try done.
  assert (Hww : writing (c_state c) ≠ WInit) by (intros E; by rewrite E in Hcan).
  apply wp_intro. intros c' o. unfold conn_parse. set (p := MkParseIo _ _ _).
  assert (Hpo : partial_ok (pi_io p)).
  { intros n Hn. unfold partial_inv in Hp. rewrite Er in Hp. simpl in Hn. rewrite Hn in Hp. apply Hp. }
  pose proof (parse_loop_spec (S (length (incoming (io (pi_io p))))) (parse_context (c_state c)) p Hrs Hpo ltac:(lia)) as Hpost.
  unfold wp in Hpost. change (parse_loop _ _ p) with (parse (parse_context (c_state c)) p) in Hpost.
  destruct (parse (parse_context (c_state c)) p) as [p' o'].
  destruct Hpost as (Ho & [Hrs' Hwb' Hwr' _ Hc' _] & Hpost).
  intros [= <- <-]. simpl in Hc'. set (c1 := MkConn _ _ _).
  assert (Hle : conn_le c c1).
  { apply conn_le_intro; auto. unfold c1, out_stream. simpl. by rewrite Hwb', Hwr'. }
  assert (Hst : st_inv (c_state c1)).
  { split; simpl; rewrite ?Er; try done. by destruct (writing (c_state c)). }
  assert (Hwk : conn_weak c1) by (split_and!; [done|simpl; by rewrite Hwb'|done]).
  destruct o' as [msg|e| | |]; try done.
  - destruct Hpost as (Hpl & Hcn & Hexp & m & Hd & Hup).
    eapply wp_mono; [apply read_head_msg_keeps; try done; [|by eauto]|].
    + destruct Hwk as (? & ? & ?). split; try done. unfold partial_inv. simpl. by rewrite Er, Hpl.
    + intros o c' (-> & Hka & Hi' & Hle'). split; [split_and!; [done|done|by etrans]|]. split.
      * pose proof (client_decoder_framing (pm_head msg) m) as Hf. rewrite Hd in Hf.
        inversion Hf; unfold may_have_body in *; try (by right); left; intuition lia.
      * intros Hwants. apply Hka. destruct (pm_wants_upgrade msg) eqn:Eu; [|done].
        destruct (pm_keep_alive msg); [|done]. by apply Hup.
  - eapply wp_mono; [by apply on_read_head_error_keeps|]. intros o c' (Hk & Hrc & Hdis & Hf).
    rewrite Hf in * by (simpl; try done; intros Hid; by destruct (Hidle Hid)).
    split; [by eapply keeps_le|done].
  - split; [split_and!; [done| |done]|done]. destruct Hwk as (? & ? & ?). split; try done.
    unfold partial_inv. simpl. rewrite Er. destruct (partial_len (pi_io p')) eqn:En; [|done]. split; [done|].
    by apply Hpost.
Qed.

Lemma poll_read_head_keeps (c : C) :
  conn_inv c -> can_read_head c = true -> wp poll_read_head (keeps c) c.
Proof. intros Hi Hcan. eapply wp_mono; [by apply poll_read_head_spec|]. by intros o c' [? _]. Qed.

(** ** [poll_read_body] *)

(** A read for the decoder leaves the write side alone, whatever it asks for. *)
Lemma read_mem_same n (b b' : Io) o :
  rs_ok (read_buf_strategy b) -> read_mem n b = (b', o) -> rs_ok (read_buf_strategy b') /\ same_write b b'.
Proof.
  intros Hrs. unfold read_mem, Buffered_MemRead.
  destruct (decide _).
  - destruct (poll_read_from_io b) as [b1 o1] eqn:Er. apply poll_read_from_io_spec in Er as (Hr1 & Hs1 & _); [|done].
    destruct o1; try by intros [= <- <-]. destruct (bm_split_to _ _) as [[]|]; by intros [= <- <-].
  - destruct (bm_split_to _ _) as [[]|]; by intros [= <- <-].
Qed.

Lemma decode_same d (b b' : Io) d' (o : outcome io_error (Frame Hm)) :
  rs_ok (read_buf_strategy b) -> decode (d, b) = ((d', b'), o) -> rs_ok (read_buf_strategy b') /\ same_write b b'.
Proof.
  intros Hrs. apply (decode_keeps (fun b0 => rs_ok (read_buf_strategy b0) /\ same_write b b0)); [|done].
  intros n r r' o' [Hr1 (Hs1 & Hs2 & Hs3 & Hs4)] Hm'. apply read_mem_same in Hm' as [Hr2 (Hs1' & Hs2' & Hs3' & Hs4')]; [|done].
  split; [done|]. repeat split; congruence.
Qed.

(** Ending a body, for whatever reason, and settling keep-alive. *)
Lemma set_reading_keeps {E} (c : C) r :
  r = RKeepAlive \/ r = RClosed -> st_inv (set_reading r (c_state c)) ->
  wb_ok (write_buf (c_io c)) -> rs_ok (read_buf_strategy (c_io c)) -> partial_len (c_io c) = None ->
  reading (c_state c) ≠ RClosed ->
  wp (E := E) (on_state (set_reading r);; try_keep_alive) (keeps c) c.
Proof.
  intros Hr Hst Hwb Hrs Hp Hne. do 2 conn_step. apply (wp_mono_le _ c (upd (set_reading r) c)); [by apply upd_le; auto|].
  apply try_keep_alive_keeps. split; [done| |done..]. unfold partial_inv. simpl. by destruct Hr as [-> | ->].
Qed.

Lemma poll_read_body_in_keeps (c : C) d :
  conn_inv c -> reading (c_state c) = RBody d -> wp (poll_read_body_in d) (keeps c) c.
Proof.
  intros [[Hrd Hwr Hidle] Hp Hwb Hrs] Er. unfold partial_inv in Hp. rewrite Er in *. destruct Hrd as (Hd & Hww & Hcn).
  unfold poll_read_body_in. conn_step. apply wp_intro. intros c' o. unfold conn_decode.
  destruct (decode (d, c_io c)) as [[d' b] o1] eqn:Ed. intros [= <- <-].
  destruct (decode_same _ _ _ _ _ Hrs Ed) as (Hrs' & Hsame). pose proof (read_out _ _ Hsame) as Hout.
  destruct Hsame as (Hwb' & _ & _ & Hpl).
  apply decode_post in Ed as (Hnp & Hnf & Hok); [|done|exact Hrs].
  set (c1 := upd (set_reading (RBody d')) (set_c_io b c)).
  assert (Hle : conn_le c c1).
  { apply conn_le_intro; simpl; auto. congruence. }
  assert (Hst : forall r, match r with RBody d => decoder_inv d | RKeepAlive | RClosed => True | _ => False end ->
    st_inv (set_reading r (c_state c1))).
  { intros r Hr. split; simpl; [by destruct r|done|]. intros Hid. by destruct (Hidle Hid). }
  assert (Hw1 : wb_ok (write_buf (c_io c1))) by (simpl; by rewrite Hwb').
  assert (Hin : (forall e, o1 ≠ Failed e) -> conn_inv c1).
  { intros Hne. destruct (Hok Hne) as (Hd' & _). split; [exact (Hst (RBody d') Hd')| |done..].
    unfold partial_inv. simpl. by rewrite Hpl. }
  destruct o1 as [frame|e| | |]; try done.
  - destruct (body_frame d' frame) as [[r ret]|] eqn:Eb.
    + assert (Hr : r = RKeepAlive \/ r = RClosed).
      { unfold body_frame in Eb. repeat case_match; naive_solver. }
      apply (wp_mono_le _ c c1 Hle). apply (wp_then_ret _ _ (fun _ => ret)). apply set_reading_keeps; try done.
      * apply Hst. by destruct Hr as [-> | ->].
      * simpl. by rewrite Hpl.
    + conn_step. split_and!; [done|by apply Hin|done].
  - apply (wp_mono_le _ c c1 Hle). apply wp_then_fail. apply set_reading_keeps; try done; [auto|by apply Hst|].
    simpl. by rewrite Hpl.
  - split_and!; [done|by apply Hin|done].
Qed.

Lemma poll_read_body_keeps (c : C) :
  conn_inv c -> can_read_body c = true -> wp poll_read_body (keeps c) c.
Proof.
  intros Hi Hcan. unfold poll_read_body. conn_step. apply wp_assert; [done|]. do 2 conn_step.
  unfold can_read_body in Hcan. pose proof (inv_reading _ (inv_st _ Hi)) as Hrd.
  destruct (reading (c_state c)) eqn:Er; try done. by apply poll_read_body_in_keeps.
Qed.

(** ** Watching for the end of the stream *)

Lemma force_io_read_keeps (c : C) :
  conn_inv c -> reading (c_state c) ≠ RClosed -> wp force_io_read (keeps c) c.
Proof.
  intros Hi Hne. unfold force_io_read. conn_step. apply wp_assert.
  { unfold is_read_closed, st_is_read_closed. by destruct (reading (c_state c)). }
  conn_step. unfold on_io. apply wp_zoom, wp_intro. intros b o Er.
  destruct (io_read_keeps c b o Hi Er) as (Ho & Hi1 & Hle).
  destruct o as [n|e| | |]; try done; cbv beta iota.
  destruct (st_close_inv _ Hi1) as [Hi2 Hle2]. do 3 conn_step. split_and!; [done..|by etrans].
Qed.

Lemma require_empty_read_keeps (c : C) :
  conn_inv c -> not_reading c = true -> is_read_closed c = false -> is_mid_message c = false ->
  wp require_empty_read (keeps c) c.
Proof.
  intros Hi Hnr Hnc Hmid. unfold require_empty_read.
  conn_step. apply wp_assert; [by rewrite Hnr, Hnc|]. conn_step. apply wp_assert; [by rewrite Hmid|].
  do 2 conn_step. destruct (negb _); [by conn_step|]. conn_step. conn_step.
  eapply wp_mono; [apply force_io_read_keeps; [done|]|].
  { unfold is_read_closed, st_is_read_closed in Hnc. by destruct (reading (c_state c)). }
  intros o c1 (Ho & Hi1 & Hle). destruct o as [n|e| | |]; try done; cbv beta iota.
  destruct (n =? 0); [|conn_step; by split_and!]. do 4 conn_step.
  destruct (st_close_read_inv _ Hi1) as [Hi2 Hle2].
  destruct (should_error_on_eof c1); conn_step; (split_and!; [done|done|by etrans]).
Qed.

Lemma mid_message_detect_eof_keeps (c : C) :
  conn_inv c -> not_reading c = true -> is_read_closed c = false -> is_mid_message c = true ->
  wp mid_message_detect_eof (keeps c) c.
Proof.
  intros Hi Hnr Hnc Hmid. unfold mid_message_detect_eof.
  conn_step. apply wp_assert; [by rewrite Hnr, Hnc|]. conn_step. apply wp_assert; [done|].
  do 2 conn_step. destruct (_ || negb _); [by conn_step|]. conn_step. conn_step.
  eapply wp_mono; [apply force_io_read_keeps; [done|]|].
  { unfold is_read_closed, st_is_read_closed in Hnc. by destruct (reading (c_state c)). }
  intros o c1 (Ho & Hi1 & Hle). destruct o as [n|e| | |]; try done; cbv beta iota.
  destruct (n =? 0); [|conn_step; by split_and!]. do 3 conn_step.
  destruct (st_close_read_inv _ Hi1) as [Hi2 Hle2]. split_and!; [done|done|by etrans].
Qed.

Lemma poll_read_keep_alive_keeps (c : C) :
  conn_inv c -> not_reading c = true -> wp poll_read_keep_alive (keeps c) c.
Proof.
  intros Hi Hnr. unfold poll_read_keep_alive. conn_step. apply wp_assert; [done|]. do 2 conn_step.
  destruct (is_read_closed c) eqn:Ec; [by conn_step|].
  destruct (is_mid_message c) eqn:Em; [by apply mid_message_detect_eof_keeps|by apply require_empty_read_keeps].
Qed.

Lemma poll_drain_or_close_read_keeps {E} (c : C) :
  conn_inv c -> can_read_body c = true -> wp (E := E) poll_drain_or_close_read (keeps c) c.
Proof.
  intros Hi Hcan. apply wp_intro. intros c' o. unfold poll_drain_or_close_read.
  pose proof (inv_reading _ (inv_st _ Hi)) as Hrd.
  assert ((match reading (c_state c) with RContinue d => upd (set_reading (RBody d)) c | _ => c end) = c) as ->.
  { by destruct (reading (c_state c)). }
  pose proof (poll_read_body_keeps c Hi Hcan) as Hb. unfold wp in Hb.
  destruct (poll_read_body c) as [c1 o1]. destruct Hb as (Ho & Hi1 & Hle).
  destruct (st_close_read_inv _ Hi1) as [Hi2 Hle2].
  assert (Hdone : forall (c2 : C) o2,
    match reading (c_state c1) with RInit | RKeepAlive => (c1, Ready tt) | _ => close_read c1 end = (c2, o2) ->
    keeps c (E := E) o2 c2).
  { intros c2 o2. destruct (reading (c_state c1)); intros [= <- <-]; split_and!; try done; by etrans. }
  by destruct o1; try apply Hdone.
Qed.
End read.
