(* ===== verification/ConnWrite.v ===== *)
(** * ConnWrite

    The writing operations of the HTTP/1 connection: what each appends to the
    bytes accepted for writing, where it leaves the state machine, and that it
    keeps the invariant. *)

From stdpp Require Import prelude strings.
From Stdlib Require Import ZArith Lia.
From S2P Require Import Prelude Bytes Crates Errors Length Headers MemRead Decode BodyTheorems BufList WriteBuf Transport Buffered BufferedLaws Encode EncodeLaws Message Role RoleLaws RoleParse Conn ConnInv ConnRead.
Local Open Scope Z_scope.

Section write.
Context `{HeaderSyntaxLaws} `{HeaderMapLaws Hm} `{HttparseHeaders} `{HttparseResponse PC}
  `{!HttparseResponseLaws PC} `{TransportLaws T V} `{!BytesMutLaws V} `{BufCombinatorsLaws} `{BufLaws B}.
Abbreviation Io := (Buffered T V (EncodedBuf B)).
Abbreviation C := (Conn (Hm := Hm) (PC := PC) (T := T) (V := V) (B := B)).

(** ** What a write does *)

(** [wrote c w c']: the bytes [w] were appended to the write side, and nothing
    but the write side, the state of writing and the bookkeeping of the request
    changed. *)
Record wrote (c : C) (w : bytes) (c' : C) : Prop := {
  wrote_out : out_stream (c_io c') = out_stream (c_io c) ++ w;
  wrote_wb : wb_ok (write_buf (c_io c'));
  wrote_io : io (c_io c') = io (c_io c);
  wrote_read_buf : read_buf (c_io c') = read_buf (c_io c);
  wrote_rs : read_buf_strategy (c_io c') = read_buf_strategy (c_io c);
  wrote_partial : partial_len (c_io c') = partial_len (c_io c);
  wrote_reading : reading (c_state c') = reading (c_state c);
}.

Lemma wrote_trans c1 w1 c2 w2 c3 : wrote c1 w1 c2 -> wrote c2 w2 c3 -> wrote c1 (w1 ++ w2) c3.
Proof. intros [] []. split; try congruence. rewrite app_assoc. congruence. Qed.

Lemma wrote_state c f :
  wb_ok (write_buf (c_io c)) -> reading (f (c_state c)) = reading (c_state c) -> wrote c [] (upd f c).
Proof. intros Hw Hr. split; try done. by rewrite app_nil_r. Qed.

(** Appending an encoded buffer to the write side. *)
Lemma buffer_wrote {BB} `{BufLaws BB} (into : BB -> EncodedBuf B) cap (buf : BB) (c : C) :
  wb_ok (write_buf (c_io c)) -> buf_ok buf -> content buf ≠ [] ->
  buf_ok (into buf) -> content (into buf) = content buf ->
  exists b, buffer into cap buf (c_io c) = Some b /\ wrote c (content buf) (set_c_io b c).
Proof.
  intros Hw Hb Hne Hi Hc. unfold buffer.
  destruct (wb_buffer_spec into cap buf _ Hw Hb Hne Hi Hc) as (w' & -> & Hw' & Hc').
  cbn [mbind option_bind]. eexists. split; [done|]. split; try done.
  unfold out_stream. simpl. by rewrite Hc', app_assoc.
Qed.

(** The invariant after a write that leaves [writing] in state [wr]. *)
Lemma wrote_inv (c : C) w c' :
  conn_inv c -> writing (c_state c) ≠ WInit -> writing (c_state c) ≠ WClosed -> wrote c w c' ->
  cached_headers (c_state c') = cached_headers (c_state c) -> keep_alive (c_state c') = keep_alive (c_state c) ->
  match writing (c_state c') with WInit => False | WBody e => encoder_ok e | _ => True end ->
  conn_inv c' /\ st_le (c_state c) (c_state c').
Proof.
  intros [[Hrd Hwr Hidle] Hp Hwb Hrs] Hw0 Hwc [Ho Hwb' Hio Hrb Hrs' Hpl Hr] Hc Hk Hw1. split.
  - split; [| |done|by rewrite Hrs'].
    + split.
      * rewrite Hr, Hc. destruct (reading (c_state c)); try done; destruct (writing (c_state c')); naive_solver.
      * by destruct (writing (c_state c')).
      * rewrite Hk. intros Hid. by destruct (Hidle Hid).
    + unfold partial_inv in *. rewrite Hr, Hpl. destruct (reading (c_state c)); try done.
      destruct (partial_len (c_io c)); [|done]. rewrite Hrb. split; [|naive_solver].
      by destruct (writing (c_state c')).
  - split; rewrite ?Hk, ?Hr; try done. intros _ Hi. by rewrite Hi in Hw1.
Qed.

(** ** Bodies *)

(** The bytes one message of a body becomes, and the encoder that remains. *)
Definition body_bytes (e : Encoder) (d : bytes) : bytes :=
  match enc_kind e with EncChunked _ => chunk_bytes d | EncLength n => ztake n d end.

Definition encoder_after (e : Encoder) (d : bytes) : Encoder :=
  match enc_kind e with
  | EncChunked _ => e
  | EncLength n => MkEncoder (EncLength (Z.max 0 (n - len d))) (is_last e)
  end.

(** [Writing] while an encoder is at work. *)
Definition writing_of (e : Encoder) : Writing :=
  if negb (encoder_is_eof e) then WBody e else after_body (is_last e).

Lemma chunk_bytes_nonnil d : chunk_bytes d ≠ [].
Proof. unfold chunk_bytes. intros Hnil. by apply app_nil in Hnil as [_ ?]. Qed.

Lemma encode_spec (msg : B) e :
  msg_ok msg -> encoder_ok e ->
  exists eb, encode msg e = Some (eb, encoder_after e (content msg)) /\ buf_ok eb /\
    content eb = body_bytes e (content msg) /\ content eb ≠ [].
Proof.
  intros (Hok & Hne & Hle) [Hl Hpos]. destruct e as [[tr|n] last]; unfold encoder_after, body_bytes; cbn [enc_kind is_last].
  - destruct (encode_chunked_spec msg tr last Hok Hne Hle) as (eb & -> & Hb & Hc).
    exists eb. split_and!; [done..|]. change (content eb) with (eb_content eb). rewrite Hc. apply chunk_bytes_nonnil.
  - specialize (Hpos n eq_refl). destruct (encode_length_spec msg n last Hok Hne ltac:(lia)) as (eb & -> & Hb & Hc).
    exists eb. split_and!; [done..|]. change (content eb) with (eb_content eb). rewrite Hc. by apply ztake_nonnil.
Qed.

Lemma writing_of_started e : writing_of e ≠ WInit.
Proof. unfold writing_of, after_body. by repeat case_match. Qed.

Lemma encoder_after_ok e d : encoder_ok e ->
  match writing_of (encoder_after e d) with WInit => False | WBody e' => encoder_ok e' | _ => True end.
Proof.
  intros [Hl Hpos]. unfold writing_of, encoder_after, encoder_is_eof, after_body.
  destruct e as [[tr|n] last]; cbn [enc_kind is_last] in *; [done|].
  destruct (Z.max 0 (n - len d) =? 0) eqn:E; zbool; cbn [negb]; [by destruct last|].
  split; [done|]. intros m [= <-]. lia.
Qed.

Lemma write_body_wrote {E} cap (msg : B) (c : C) e :
  conn_inv c -> writing (c_state c) = WBody e -> can_buffer_body c = true -> msg_ok msg ->
  wp (E := E) (write_body cap msg) (fun o c' => o = Ready tt /\ wrote c (body_bytes e (content msg)) c' /\
    c_state c' = set_writing (writing_of (encoder_after e (content msg))) (c_state c) /\
    conn_inv c' /\ st_le (c_state c) (c_state c')) c.
Proof.
  intros Hi Hw Hcan Hm'. pose proof (inv_writing _ (inv_st _ Hi)) as He. rewrite Hw in He.
  unfold write_body. conn_step. apply wp_assert; [unfold can_write_body; by rewrite Hw, Hcan|].
  conn_step. apply wp_assert.
  { destruct Hm' as (Hok & Hne & _). rewrite buf_remaining by done. pose proof (len_pos _ Hne).
    by rewrite (proj2 (Z.eqb_neq _ _)) by lia. }
  do 2 conn_step. rewrite Hw. destruct (encode_spec msg e Hm' He) as (eb & Heb & Hok & Hc & Hne).
  conn_step. wp_expect Heb. do 3 conn_step. set (e' := encoder_after e (content msg)) in *.
  set (c1 := upd (set_writing (WBody e')) c). unfold io_write. do 3 conn_step.
  destruct (buffer_wrote id cap eb c1) as (b & Hb & Hwrote); [apply Hi|done..|].
  wp_expect Hb. conn_step.
  assert (Hwr1 : wrote c (body_bytes e (content msg)) (set_c_io b c1)).
  { rewrite <- Hc. apply (wrote_trans c [] c1); [|done]. apply wrote_state; [apply Hi|done]. }
  assert (Hfin : forall c2, wrote (set_c_io b c1) [] c2 ->
    c_state c2 = set_writing (writing_of e') (c_state c) ->
    wrote c (body_bytes e (content msg)) c2 /\ c_state c2 = set_writing (writing_of e') (c_state c) /\
    conn_inv c2 /\ st_le (c_state c) (c_state c2)).
  { intros c2 Hw2 Hs2. assert (Hw3 : wrote c (body_bytes e (content msg)) c2).
    { rewrite <- (app_nil_r (body_bytes e (content msg))). by eapply wrote_trans. }
    split_and!; try done; (eapply wrote_inv; [done|by rewrite Hw|by rewrite Hw|exact Hw3|by rewrite Hs2..|]);
      rewrite Hs2; by apply encoder_after_ok. }
  unfold writing_of in Hfin. destruct (negb (encoder_is_eof e')) eqn:Ee; conn_step; (split; [done|]).
  - unfold writing_of. rewrite Ee. apply Hfin; [|done]. split; try done; [by rewrite app_nil_r|apply Hwrote].
  - unfold writing_of. rewrite Ee. apply Hfin; [|done]. apply wrote_state; [apply Hwrote|done].
Qed.

(** What ends a body, by its encoder. *)
Definition end_bytes (e : Encoder) : bytes :=
  match enc_kind e with EncChunked _ => LAST_CHUNK | EncLength _ => [] end.

(** [write_body_and_end]: the connection stays usable only when the body is
    complete. *)
Lemma write_body_and_end_wrote {E} cap (msg : B) (c : C) e :
  conn_inv c -> writing (c_state c) = WBody e -> can_buffer_body c = true -> msg_ok msg ->
  wp (E := E) (write_body_and_end cap msg) (fun o c' => o = Ready tt /\
    wrote c (body_bytes e (content msg) ++ end_bytes e) c' /\
    c_state c' = set_writing (match enc_kind e with
      | EncLength n => if n <=? len (content msg) then WKeepAlive else WClosed
      | _ => WKeepAlive end) (c_state c) /\
    conn_inv c' /\ st_le (c_state c) (c_state c')) c.
Proof.
  intros Hi Hw Hcan Hm'. pose proof (inv_writing _ (inv_st _ Hi)) as He. rewrite Hw in He. destruct He as [Hl Hpos].
  unfold write_body_and_end. conn_step. apply wp_assert; [unfold can_write_body; by rewrite Hw, Hcan|].
  conn_step. apply wp_assert.
  { destruct Hm' as (Hok & Hne & _). rewrite buf_remaining by done. pose proof (len_pos _ Hne).
    by rewrite (proj2 (Z.eqb_neq _ _)) by lia. }
  do 2 conn_step. rewrite Hw.
  destruct (encode_and_end_post cap msg e (write_buf (c_io c)) (inv_wb _ Hi) Hm' Hpos) as (w & Hend & Hwok & Hwc).
  conn_step. wp_expect Hend. do 3 conn_step. split; [done|].
  set (c' := upd _ _).
  assert (Hwrote : wrote c (body_bytes e (content msg) ++ end_bytes e) c').
  { split; try done. unfold out_stream. simpl. rewrite Hwc, app_assoc. unfold body_bytes, end_bytes.
    destruct (enc_kind e); by rewrite ?app_nil_r. }
  assert (Hst : c_state c' = set_writing (match enc_kind e with
      | EncLength n => if n <=? len (content msg) then WKeepAlive else WClosed
      | _ => WKeepAlive end) (c_state c)).
  { unfold c'. simpl. rewrite Hl. destruct (enc_kind e) as [|n]; [done|]. by destruct (n <=? _). }
  split_and!; try done; (eapply wrote_inv; [done|by rewrite Hw|by rewrite Hw|exact Hwrote|by rewrite Hst..|]);
    rewrite Hst; simpl; destruct (enc_kind e) as [|n]; try done; by destruct (n <=? _).
Qed.

(** [end_body]: a body short of its declared length closes the connection and
    reports what is missing. *)
Lemma end_body_wrote cap (c : C) e :
  conn_inv c -> writing (c_state c) = WBody e ->
  wp (end_body cap) (fun o c' =>
    o = match enc_kind e with
        | EncChunked _ => Ready tt
        | EncLength n => Failed (err_with (CauseNotEof n) new_body_write_aborted)
        end /\
    wrote c (end_bytes e) c' /\
    c_state c' = set_writing (match enc_kind e with EncChunked _ => WKeepAlive | _ => WClosed end) (c_state c) /\
    conn_inv c' /\ st_le (c_state c) (c_state c')) c.
Proof.
  intros Hi Hw. pose proof (inv_writing _ (inv_st _ Hi)) as He. rewrite Hw in He. destruct He as [Hl Hpos].
  unfold end_body. conn_step. apply wp_assert; [unfold can_write_body; by rewrite Hw|].
  do 2 conn_step. rewrite Hw.
  assert (Hfin : forall c', wrote c (end_bytes e) c' ->
    c_state c' = set_writing (match enc_kind e with EncChunked _ => WKeepAlive | _ => WClosed end) (c_state c) ->
    conn_inv c' /\ st_le (c_state c) (c_state c')).
  { intros c' Hwr Hst. eapply wrote_inv; [done|by rewrite Hw|by rewrite Hw|exact Hwr|by rewrite Hst..|].
    rewrite Hst. simpl. by destruct (enc_kind e). }
  unfold encoder_end, end_bytes in *. destruct (enc_kind e) as [tr|n] eqn:Ek.
  - conn_step. unfold io_write. do 3 conn_step.
    destruct (buffer_wrote id cap (MkEncodedBuf (B := B) (KChunkedEnd LAST_CHUNK)) c) as (b & Hb & Hwrote); [apply Hi|done..|].
    wp_expect Hb. do 2 conn_step. split; [done|].
    set (c' := upd _ _). assert (wrote c LAST_CHUNK c').
    { rewrite <- (app_nil_r LAST_CHUNK). eapply wrote_trans; [exact Hwrote|]. apply wrote_state; [apply Hwrote|done]. }
    assert (c_state c' = set_writing WKeepAlive (c_state c)) by (unfold c'; simpl; by rewrite Hl).
    split_and!; try done; by apply Hfin.
  - specialize (Hpos n eq_refl). rewrite (proj2 (Z.eqb_neq n 0)) by lia. do 3 conn_step. split; [done|].
    assert (wrote c [] (upd (set_writing WClosed) c)) by (apply wrote_state; [apply Hi|done]).
    split_and!; try done; by apply Hfin.
Qed.

(** [write_trailers]: the trailer section, when a field may be sent. *)
Lemma write_trailers_wrote {E} cap (trailers : Hm) (c : C) :
  conn_inv c -> can_write_body c = true -> can_buffer_body c = true ->
  wp (E := E) (write_trailers cap trailers) (fun o c' => sound o /\
    conn_inv c' /\ st_le (c_state c) (c_state c') /\ (exists w, out_stream (c_io c') = out_stream (c_io c) ++ w) /\
    writing (c_state c') ≠ WInit) c.
Proof.
  intros Hi Hcw Hcan. unfold can_write_body in Hcw. destruct (writing (c_state c)) as [|e| |] eqn:Hw; try done.
  pose proof (inv_writing _ (inv_st _ Hi)) as He. rewrite Hw in He. destruct He as [Hl Hpos].
  unfold write_trailers. conn_step. apply wp_assert; [unfold can_write_body; by rewrite Hw, Hcan|].
  do 2 conn_step. rewrite Hw.
  assert (Henc : exists r, encode_trailers (B := B) trailers e = Some r /\
    match r with Some eb => buf_ok eb /\ content eb ≠ [] | None => True end).
  { unfold encode_trailers. destruct (enc_kind e) as [[allowed|]|]; [|by exists None..].
    destruct (allowed_trailers_spec allowed trailers) as (h & -> & _). cbn [mbind option_bind].
    destruct (decide _); [by exists None|]. eexists. split; [done|]. split.
    - simpl. apply chain_ok; [by apply chain_ok|done].
    - cbn [content EncodedBuf_BufLaws eb_content eb_kind]. rewrite !chain_content. intros Hnil.
      by apply app_nil in Hnil as [_ ?]. }
  destruct Henc as (r & Hr & Hok). conn_step. wp_expect Hr.
  destruct r as [eb|]; [|conn_step; split_and!; try done; [exists []; by rewrite app_nil_r|congruence]]. conn_step. unfold io_write. do 3 conn_step.
  destruct Hok as [Hok Hne].
  destruct (buffer_wrote id cap eb c) as (b & Hb & Hwrote); [apply Hi|done..|].
  wp_expect Hb. do 2 conn_step. set (c' := upd _ _). split; [done|].
  assert (Hwr : wrote c (content eb ++ []) c').
  { eapply wrote_trans; [exact Hwrote|]. apply wrote_state; [apply Hwrote|done]. }
  destruct (wrote_inv c (content eb ++ []) c') as [Hi' Hle]; try done; try by rewrite Hw.
  { unfold c'. simpl. by rewrite Hl. }
  split_and!; try done; [eexists; apply Hwr|]. unfold c'. simpl. by rewrite Hl.
Qed.

(** ** Flushing *)

Lemma flush_keeps (c : C) b (o : outcome io_error unit) :
  conn_inv c -> poll_flush (c_io c) = (b, o) -> keeps c o (set_c_io b c).
Proof.
  intros Hi Hf. pose proof Hi as [Hs Hp Hw Hr].
  apply poll_flush_spec in Hf as [(-> & -> & _)|[(Hout & Hw' & _ & _ & _ & _ & Hrb & Hrs & _ & Hpl) Ho]]; [| |done].
  - split; [done|]. split; [by destruct c|]. by destruct c.
  - split; [by destruct o|]. split; [|apply conn_le_intro; auto].
    split; [done| |done|simpl; by rewrite Hrs]. unfold partial_inv in *. simpl. by rewrite Hrb, Hpl.
Qed.

Lemma conn_poll_flush_keeps (c : C) : conn_inv c -> wp conn_poll_flush (keeps c) c.
Proof.
  intros Hi. unfold conn_poll_flush, on_io. conn_step. apply wp_zoom, wp_intro. intros b o Hf.
  pose proof (flush_keeps c b o Hi Hf) as (Ho & Hi' & Hle). destruct o as [[]|e| | |]; try done; cbv beta iota.
  apply (wp_mono_le _ c _ Hle). by apply try_keep_alive_keeps.
Qed.

Lemma conn_poll_shutdown_keeps (c : C) : conn_inv c -> wp conn_poll_shutdown (keeps c) c.
Proof.
  intros Hi. unfold conn_poll_shutdown, on_io. apply wp_zoom. unfold poll_shutdown. conn_step. apply wp_intro.
  intros b o Hf. pose proof (flush_keeps c b o Hi Hf) as (Ho & Hi' & Hle). destruct o as [[]|e| | |]; try done; cbv beta iota.
  apply wp_zoom, wp_intro. intros t o Hs. pose proof (io_shutdown_written (io b)) as Hwr.
  pose proof (io_shutdown_total (io b) t) as [Hnp Hnf]. rewrite Hs in *. simpl in Hwr.
  split; [by destruct o|]. split.
  - destruct Hi' as [? Hp ? ?]. split; try done.
  - etrans; [exact Hle|]. apply conn_le_intro; auto. unfold out_stream. simpl. by rewrite Hwr.
Qed.

(** ** Heads *)

(** A request that may be written: its Transfer-Encoding values, if it brings any,
    are visible ASCII, and a declared length is a [u64]. The first is asked of the
    user's requests; the code does not check it. *)
Definition request_ok (head : MessageHead Hm RequestLine) (body : option BodyLength) : Prop :=
  Forall (fun v => forallb visible_ascii v = true) (hm_get_all (head_headers head) H_TRANSFER_ENCODING) /\
  match body with Some b => body_ok b | None => True end.

Lemma enforce_version_spec (head head' : MessageHead Hm RequestLine) (s s' : State Hm PC) :
  enforce_version head s = (head', s') ->
  (s' = s \/ s' = disable_keep_alive s) /\
  (forall n, n ≠ H_CONNECTION -> hm_get_all (head_headers head') n = hm_get_all (head_headers head) n) /\
  subject head' = subject head /\ extensions head' = extensions head.
Proof.
  assert (Happ : forall (h : Hm) v n, n ≠ H_CONNECTION -> hm_get_all (hm_append H_CONNECTION v h) n = hm_get_all h n).
  { intros h v n Hn. by rewrite hm_get_all_append, decide_False. }
  unfold enforce_version, fix_keep_alive. repeat case_match; intros; simplify_eq/=; auto.
Qed.

Lemma prepare_head_spec (head head' : MessageHead Hm RequestLine) (s s' : State Hm PC) :
  prepare_head head s = (head', s') ->
  (exists k, k ≠ Idle /\ (keep_alive s = Disabled -> k = Disabled) /\
    (connection_any_close (head_headers head) = true -> k = Disabled) /\ s' = set_keep_alive k s) /\
  (forall n, n ≠ H_CONNECTION -> hm_get_all (head_headers head') n = hm_get_all (head_headers head) n) /\
  subject head' = subject head /\ extensions head' = extensions head.
Proof.
  unfold prepare_head. intros Hp. apply enforce_version_spec in Hp as (Hs & Hrest). split; [|done].
  assert (Hbusy : exists k, k ≠ Idle /\ (keep_alive s = Disabled -> k = Disabled) /\ st_busy s = set_keep_alive k s).
  { unfold st_busy. destruct (decide (keep_alive s = Disabled)) as [E|E].
    - exists Disabled. split_and!; try done. rewrite <- E. by destruct s.
    - by exists Busy. }
  destruct Hbusy as (k & Hk & Hd & Hb). rewrite Hb in Hs.
  destruct (connection_any_close (head_headers head)).
  - exists Disabled. split_and!; try done. by destruct Hs as [-> | ->].
  - destruct Hs as [-> | ->]; [by exists k|by exists Disabled].
Qed.

Lemma write_visited_app fs dst : write_visited fs dst = dst ++ write_visited fs [].
Proof.
  unfold write_visited. revert dst. induction fs as [|[n v] fs IH]; intros dst; cbn [fold_left]; [by rewrite app_nil_r|].
  rewrite IH, (IH ([] ++ _)), app_nil_l. by rewrite <- !app_assoc.
Qed.

Lemma write_headers_app (h : Hm) dst : write_headers h dst = dst ++ write_headers h [].
Proof. by rewrite (write_headers_lines h dst), (write_headers_lines h []). Qed.

(** The bytes of a head do not depend on what is already in the vector. *)
Lemma client_encode_app (head : MessageHead Hm RequestLine) body dst :
  client_encode head body dst =
    (fun enc => MkEncoded (enc_head enc) (enc_req_method enc) (dst ++ enc_dst enc) (enc_encoder enc)) <$> client_encode head body [].
Proof.
  unfold client_encode. destruct (set_length head body) as [[e h]|]; [|done]. cbn [mbind option_bind].
  cbn [fmap option_fmap option_map enc_head enc_req_method enc_dst enc_encoder]. do 2 f_equal.
  destruct (on_preserve_header (extensions head)) as [visit|].
  - rewrite (write_visited_app _ ((dst ++ _) ++ _)), (write_visited_app _ (([] ++ _) ++ _)), app_nil_l. by rewrite <- !app_assoc.
  - rewrite (write_headers_app _ ((dst ++ _) ++ _)), (write_headers_app _ (([] ++ _) ++ _)), app_nil_l. by rewrite <- !app_assoc.
Qed.

(** A request that may be written is encoded. *)
Lemma client_encode_ok (head : MessageHead Hm RequestLine) body :
  request_ok head body ->
  exists enc, client_encode head body [] = Some enc /\ head_headers (enc_head enc) = hm_new /\
    is_last (enc_encoder enc) = false /\ (forall n, enc_kind (enc_encoder enc) = EncLength n -> is_u64 n).
Proof.
  intros [Hv Hb]. unfold client_encode.
  assert (exists e h, set_length head body = Some (e, h)) as (e & h & Hs).
  { destruct body as [b|]; [|cbn; eauto]. destruct (set_length_post head b Hb Hv) as (e & h & ? & _). eauto. }
  rewrite Hs. cbn [mbind option_bind]. eexists. split; [done|]. split; [done|]. by eapply set_length_encoder.
Qed.

(** Writing into the head vector when nothing is queued. *)
Lemma with_headers_buf_wrote (c : C) cur w :
  wb_ok (write_buf (c_io c)) -> headers_mut (write_buf (c_io c)) = Some cur ->
  exists b, with_headers_buf (fun _ => cur_bytes cur ++ w) (c_io c) = Some b /\ wrote c w (set_c_io b c).
Proof.
  intros [Hh Hq Hf Hroom] Hm'. unfold with_headers_buf. rewrite Hm'. cbn [mbind option_bind]. eexists. split; [done|].
  unfold headers_mut in Hm'. destruct (0 <? remaining (queue (write_buf (c_io c)))) eqn:E; [done|].
  injection Hm' as <-. rewrite (buf_remaining (B := BufList (EncodedBuf B))) in E by done. zbool.
  assert (content (queue (write_buf (c_io c))) = []) as Hnil.
  { apply len_zero. pose proof (len_nonneg (content (queue (write_buf (c_io c))))). lia. }
  unfold cursor_ok in Hh. split; try done.
  - unfold out_stream, wb_content. cbn [c_io set_c_io write_buf set_write_buf headers set_headers queue io].
    rewrite !Hnil, !app_nil_r. change (content ?x) with (cursor_content x). unfold cursor_content. cbn [cur_bytes cur_pos].
    rewrite <- app_assoc. f_equal. rewrite zdrop_app by lia. f_equal. unfold zdrop.
    by replace (Z.to_nat (_ - _)) with 0%nat by lia.
  - split; simpl; [|done|done|done]. unfold cursor_ok. simpl. rewrite len_app. pose proof (len_nonneg w). lia.
Qed.

(** [write_head]: a request that may be written is, whole, in one piece. *)
Lemma write_head_wrote {E} head body (c : C) :
  conn_inv c -> can_write_head c = true -> request_ok head body ->
  wp (E := E) (write_head head body) (fun o c' => o = Ready tt /\
    exists enc, client_encode (prepare_head head (c_state c)).1 body [] = Some enc /\
      wrote c (enc_dst enc) c' /\
      writing (c_state c') = writing_of (enc_encoder enc) /\
      keep_alive (c_state c') = keep_alive (prepare_head head (c_state c)).2 /\
      method (c_state c') = enc_req_method enc /\
      conn_inv c' /\ st_le (c_state c) (c_state c')) c.
Proof.
  intros Hi Hcan Hreq. pose proof Hi as [[Hrd Hwr Hidle] Hp Hwb Hrs].
  assert (Hw : writing (c_state c) = WInit /\ reading (c_state c) = RInit /\ can_headers_buf (c_io c) = true).
  { unfold can_write_head in Hcan. destruct (reading (c_state c)), (writing (c_state c)); naive_solver. }
  destruct Hw as (Hw & Hr & Hbuf). rewrite Hw in Hwr. unfold partial_inv in Hp. rewrite Hr in Hp.
  assert (Hpl : partial_len (c_io c) = None) by (destruct (partial_len (c_io c)); naive_solver).
  destruct (prepare_head head (c_state c)) as [head' s'] eqn:Eh.
  pose proof (prepare_head_spec _ _ _ _ Eh) as ((k & Hk & Hkd & _ & ->) & Hget & _ & _).
  assert (Hreq' : request_ok head' body) by (destruct Hreq; split; [by rewrite Hget|done]).
  destruct (client_encode_ok head' body Hreq') as (enc & Henc & Hnew & Hlast & Hlen).
  unfold write_head, encode_head. do 2 conn_step. apply wp_assert; [done|]. do 2 conn_step. rewrite Eh. do 2 conn_step.
  assert (exists cur, headers_mut (write_buf (c_io c)) = Some cur) as (cur & Hcur).
  { unfold headers_mut, can_headers_buf in *. destruct (0 <? _); [done|eauto]. }
  conn_step. wp_expect Hcur. conn_step.
  assert (Henc' : client_encode head' body (cur_bytes cur) =
    Some (MkEncoded (enc_head enc) (enc_req_method enc) (cur_bytes cur ++ enc_dst enc) (enc_encoder enc))).
  { by rewrite client_encode_app, Henc. }
  wp_expect Henc'. cbn [enc_head enc_req_method enc_dst enc_encoder].
  destruct (with_headers_buf_wrote c cur (enc_dst enc) Hwb Hcur) as (b & Hb & Hwrote).
  conn_step. wp_expect Hb. do 5 conn_step. apply wp_assert.
  { simpl. by rewrite Hwr. }
  conn_step. apply wp_assert.
  { unfold hm_is_empty. by rewrite Hnew, hm_iter_new. }
  do 6 conn_step. split; [done|]. exists enc. split; [done|]. set (c' := upd _ _).
  change (if negb (encoder_is_eof (enc_encoder enc)) then WBody (enc_encoder enc) else after_body (is_last (enc_encoder enc)))
    with (writing_of (enc_encoder enc)) in *.
  assert (Hwr' : wrote c (enc_dst enc) c') by (destruct Hwrote; by split).
  split_and!; try done.
  - split; [|unfold partial_inv; simpl|apply Hwr'|].
    + split; simpl; [by rewrite Hr| |by intros ->].
      unfold writing_of, encoder_is_eof, after_body. destruct (enc_encoder enc) as [[tr|n] last]; cbn [enc_kind is_last] in *.
      * cbn. by split.
      * specialize (Hlen n eq_refl). destruct (n =? 0) eqn:En; cbn [negb]; [by destruct last|]. zbool.
        split; [done|]. intros m [= <-]. ulia.
    + rewrite Hr. destruct Hwrote as [_ _ _ _ _ Hpl' _]. simpl in Hpl'. by rewrite Hpl', Hpl.
    + destruct Hwrote as [_ _ _ _ Hrs' _ _]. simpl in *. by rewrite Hrs'.
  - split; simpl; [done|by rewrite Hr|by rewrite Hw|done].
Qed.
End write.
