(* ===== verification/ConnWire.v ===== *)
(** * ConnWire

    What the HTTP/1 connection guarantees whatever the dispatcher does with it:
    its operations as the steps of a transition system, under the guards the
    dispatcher checks, and the properties of every reachable connection. *)

From stdpp Require Import prelude strings relations.
From Stdlib Require Import ZArith Lia.
From S2P Require Import Prelude Bytes Crates Errors Length Headers MemRead Decode DecodeSpec ChunkedGrammar DecodeRefine BodyTheorems BufList WriteBuf Transport Buffered BufferedLaws Encode EncodeLaws Message Role RoleLaws RoleParse Conn ConnInv ConnRead ConnWrite.
Local Open Scope Z_scope.

Section system.
Context `{HeaderSyntax} `{HeaderMap Hm} `{HttparseHeaders} `{HttparseResponse PC}
  `{TransportLaws T V} `{!BytesMutLaws V} `{BufCombinators} `{BufLaws B}.
Abbreviation C := (Conn (Hm := Hm) (PC := PC) (T := T) (V := V) (B := B)).

(** The calls of the dispatcher and of the connection builder. *)
Inductive op : Type :=
| OReadHead
| OReadBody
| OReadKeepAlive
| ODrain
| OWriteHead (head : MessageHead Hm RequestLine) (body : option BodyLength)
| OWriteBody (cap : Z) (chunk : B)
| OWriteTrailers (cap : Z) (trailers : Hm)
| OWriteBodyAndEnd (cap : Z) (chunk : B)
| OEndBody (cap : Z)
| OFlush
| OShutdown
| OCloseRead
| OCloseWrite
| OTakeError
| OWantsReadAgain
| OPendingUpgrade
| OOnUpgrade
| OSetMaxBufSize (max : Z)
| OSetReadBufExactSize (sz : Z)
| OSetWriteStrategy (s : WriteStrategy)
| OSetParserConfig (cfg : PC)
| OSetH09Responses
| OSetMaxHeaders (val : Z)
| OSetMaxHeaderSize (val : Z).

(** The guard the caller has checked. *)
Definition guard (o : op) (c : C) : Prop :=
  match o with
  | OReadHead => can_read_head c = true
  | OReadBody | ODrain => can_read_body c = true
  | OReadKeepAlive => not_reading c = true
  | OWriteHead head body => can_write_head c = true /\ request_ok head body
  | OWriteBody _ chunk | OWriteBodyAndEnd _ chunk =>
      can_write_body c = true /\ can_buffer_body c = true /\ msg_ok chunk
  | OWriteTrailers _ _ => can_write_body c = true /\ can_buffer_body c = true
  | OEndBody _ => can_write_body c = true
  | OSetMaxBufSize max => MINIMUM_MAX_BUFFER_SIZE <= max <= USIZE_MAX
  | OSetReadBufExactSize sz => 0 <= sz <= USIZE_MAX
  | OSetWriteStrategy _ => bufs_cnt (queue (write_buf (c_io c))) = 0
  | OSetMaxHeaders val | OSetMaxHeaderSize val => 0 <= val <= USIZE_MAX
  | _ => True
  end.

(** An outcome without its values. *)
Definition erase {E A} (r : C * outcome E A) : C * outcome unit unit :=
  (r.1, match r.2 with
        | Ready _ => Ready tt | Failed _ => Failed tt | Pending => Pending | Panicked => Panicked | NoFuel => NoFuel
        end).

Definition or_panic (c : C) (o : option C) : C * outcome unit unit :=
  match o with Some c' => (c', Ready tt) | None => (c, Panicked) end.

Definition exec (o : op) (c : C) : C * outcome unit unit :=
  match o with
  | OReadHead => erase (poll_read_head c)
  | OReadBody => erase (poll_read_body c)
  | OReadKeepAlive => erase (poll_read_keep_alive c)
  | ODrain => erase (E := unit) (poll_drain_or_close_read c)
  | OWriteHead head body => erase (E := unit) (write_head head body c)
  | OWriteBody cap chunk => erase (E := unit) (write_body cap chunk c)
  | OWriteTrailers cap trailers => erase (E := unit) (write_trailers cap trailers c)
  | OWriteBodyAndEnd cap chunk => erase (E := unit) (write_body_and_end cap chunk c)
  | OEndBody cap => erase (end_body cap c)
  | OFlush => erase (conn_poll_flush c)
  | OShutdown => erase (conn_poll_shutdown c)
  | OCloseRead => erase (E := unit) (close_read c)
  | OCloseWrite => erase (E := unit) (close_write c)
  | OTakeError => erase (take_error c)
  | OWantsReadAgain => erase (E := unit) (wants_read_again c)
  | OPendingUpgrade => ((pending_upgrade c).2, Ready tt)
  | OOnUpgrade => erase (E := unit) (on_upgrade c)
  | OSetMaxBufSize max => or_panic c (conn_set_max_buf_size max c)
  | OSetReadBufExactSize sz => (conn_set_read_buf_exact_size sz c, Ready tt)
  | OSetWriteStrategy Flatten => or_panic c (conn_set_write_strategy_flatten c)
  | OSetWriteStrategy Queue => or_panic c (conn_set_write_strategy_queue c)
  | OSetParserConfig cfg => (set_h1_parser_config cfg c, Ready tt)
  | OSetH09Responses => (set_h09_responses c, Ready tt)
  | OSetMaxHeaders val => (set_http1_max_headers val c, Ready tt)
  | OSetMaxHeaderSize val => (set_http1_max_header_size val c, Ready tt)
  end.

(** The operations that write. *)
Definition is_write (o : op) : bool :=
  match o with
  | OWriteHead _ _ | OWriteBody _ _ | OWriteTrailers _ _ | OWriteBodyAndEnd _ _ | OEndBody _ => true
  | _ => false
  end.

Inductive transition (c : C) (o : op) : C -> Prop :=
| transition_intro c' r : guard o c -> exec o c = (c', r) -> transition c o c'.

Definition transitions : relation C := rtc (fun c c' => exists o, transition c o c').

Inductive reachable (cfg : PC) : C -> Prop :=
| reachable_new t : reachable cfg (conn_new cfg t)
| reachable_step c o c' : reachable cfg c -> transition c o c' -> reachable cfg c'.
End system.

Section laws.
Context `{HeaderSyntaxLaws} `{HeaderMapLaws Hm} `{HttparseHeaders} `{HttparseResponse PC}
  `{!HttparseResponseLaws PC} `{TransportLaws T V} `{!BytesMutLaws V} `{BufCombinatorsLaws} `{BufLaws B}.
Abbreviation C := (Conn (Hm := Hm) (PC := PC) (T := T) (V := V) (B := B)).

(** The contract of a step. *)
Definition step_ok (c : C) (o : op (Hm := Hm) (PC := PC) (B := B)) (c' : C) (r : outcome unit unit) : Prop :=
  sound r /\ conn_inv c' /\ st_le (c_state c) (c_state c') /\
  (exists w, out_stream (c_io c') = out_stream (c_io c) ++ w) /\
  (if is_write o then writing (c_state c') ≠ WInit else conn_le c c').

Lemma keeps_step_ok {E A} (c : C) o (m : M C E A) c' r :
  is_write o = false -> wp m (keeps c) c -> erase (m c) = (c', r) -> step_ok c o c' r.
Proof.
  unfold wp, erase. intros Hw. destruct (m c) as [c1 o1]. intros (Ho & Hi & Hle) [= <- <-].
  split; [by destruct o1|]. split; [done|]. split; [apply Hle|]. rewrite Hw. split; [|done].
  exists []. by rewrite (le_out _ _ Hle), app_nil_r.
Qed.

Lemma wrote_step_ok {E A} (c : C) o (m : M C E A) c' r :
  is_write o = true ->
  wp m (fun o c' => sound o /\ conn_inv c' /\ st_le (c_state c) (c_state c') /\
    (exists w, out_stream (c_io c') = out_stream (c_io c) ++ w) /\ writing (c_state c') ≠ WInit) c ->
  erase (m c) = (c', r) -> step_ok c o c' r.
Proof.
  unfold wp, erase. intros Hw. destruct (m c) as [c1 o1]. intros (Ho & Hi & Hle & Hout & Hwi) [= <- <-].
  split; [by destruct o1|]. split_and!; try done. by rewrite Hw.
Qed.

(** An update of the bookkeeping. *)
Lemma upd_step_ok (c : C) o f :
  is_write o = false -> conn_inv c -> st_inv (f (c_state c)) -> partial_inv (c_io c) (f (c_state c)) -> conn_le c (upd f c) ->
  step_ok c o (upd f c) (Ready tt).
Proof.
  intros Ho [_ _ Hw Hr] Hs Hp Hle. split; [done|]. split; [by split|]. split; [apply Hle|]. rewrite Ho. split; [|done].
  exists []. by rewrite app_nil_r.
Qed.

(** A change of the buffer settings. *)
Lemma config_step_ok (c : C) o b :
  is_write o = false -> conn_inv c -> wb_ok (write_buf b) -> rs_ok (read_buf_strategy b) ->
  wb_content (write_buf b) = wb_content (write_buf (c_io c)) -> io b = io (c_io c) ->
  read_buf b = read_buf (c_io c) -> partial_len b = partial_len (c_io c) -> step_ok c o (set_c_io b c) (Ready tt).
Proof.
  intros Ho [Hs Hp _ _] Hw Hr Hc Hio Hrb Hpl.
  assert (Hout : out_stream b = out_stream (c_io c)) by (unfold out_stream; by rewrite Hc, Hio).
  split; [done|]. split; [split; try done; unfold partial_inv in *; simpl; by rewrite Hrb, Hpl|].
  split; [done|]. split; [exists []; by rewrite app_nil_r|]. rewrite Ho. apply conn_le_intro; auto.
Qed.

Lemma set_strategy_step_ok (c : C) o s :
  is_write o = false -> conn_inv c -> bufs_cnt (queue (write_buf (c_io c))) = 0 ->
  step_ok c o (set_c_io (set_write_buf (set_strategy s (write_buf (c_io c))) (c_io c)) c) (Ready tt).
Proof.
  intros Ho Hi Hz. pose proof (inv_wb _ Hi) as [Hh Hq _ Hroom]. apply config_step_ok; try done.
  - split; try done. intros _. simpl. by apply len_zero.
  - apply Hi.
Qed.

(** Every operation meets its contract. *)
Lemma exec_ok (c : C) o c' r : conn_inv c -> guard o c -> exec o c = (c', r) -> step_ok c o c' r.
Proof.
  intros Hi Hg. pose proof Hi as [[Hrd Hwr Hidle] Hp Hw Hr].
  assert (Hbook : forall f, is_write o = false -> (reading (f (c_state c)) = reading (c_state c) /\ writing (f (c_state c)) = writing (c_state c) /\
      keep_alive (f (c_state c)) = keep_alive (c_state c) /\ cached_headers (f (c_state c)) = cached_headers (c_state c)) ->
    step_ok c o (upd f c) (Ready tt)).
  { intros f Hnw (H1' & H2' & H3' & H4'). apply upd_step_ok; [done|done| | |].
    - split; by rewrite ?H1', ?H2', ?H3', ?H4'.
    - unfold partial_inv in *. by rewrite H1', H2'.
    - apply upd_le; rewrite ?H1'; auto. }
  destruct o; cbn [exec guard] in *.
  - by apply keeps_step_ok; [|apply poll_read_head_keeps].
  - by apply keeps_step_ok; [|apply poll_read_body_keeps].
  - by apply keeps_step_ok; [|apply poll_read_keep_alive_keeps].
  - by apply keeps_step_ok; [|apply poll_drain_or_close_read_keeps].
  - apply wrote_step_ok; [done|]. eapply wp_mono; [apply write_head_wrote; [done|apply Hg..]|].
    intros o1 c1 (-> & enc & _ & Hwrote & Hw1 & _ & _ & Hi1 & Hle1). split_and!; try done; [eexists; apply Hwrote|].
    rewrite Hw1. apply writing_of_started.
  - destruct Hg as (Hcw & Hcb & Hmsg). unfold can_write_body in Hcw. destruct (writing (c_state c)) eqn:Ew; try done.
    apply wrote_step_ok; [done|]. eapply wp_mono; [by apply write_body_wrote|].
    intros o1 c1 (-> & Hwrote & Hst1 & Hi1 & Hle1). split_and!; try done; [eexists; apply Hwrote|].
    rewrite Hst1. apply writing_of_started.
  - apply wrote_step_ok; [done|]. destruct Hg. by apply write_trailers_wrote.
  - destruct Hg as (Hcw & Hcb & Hmsg). unfold can_write_body in Hcw. destruct (writing (c_state c)) eqn:Ew; try done.
    apply wrote_step_ok; [done|]. eapply wp_mono; [by apply write_body_and_end_wrote|].
    intros o1 c1 (-> & Hwrote & Hst1 & Hi1 & Hle1). split_and!; try done; [eexists; apply Hwrote|].
    rewrite Hst1. simpl. by repeat case_match.
  - unfold can_write_body in Hg. destruct (writing (c_state c)) eqn:Ew; try done.
    apply wrote_step_ok; [done|]. eapply wp_mono; [by apply end_body_wrote|].
    intros o1 c1 (-> & Hwrote & Hst1 & Hi1 & Hle1). split_and!; try done; [by destruct (enc_kind _)|eexists; apply Hwrote|]. rewrite Hst1. simpl. by destruct (enc_kind _).
  - by apply keeps_step_ok; [|apply conn_poll_flush_keeps].
  - by apply keeps_step_ok; [|apply conn_poll_shutdown_keeps].
  - intros [= <- <-]. destruct (st_close_read_inv c Hi) as [[] ?]. by apply upd_step_ok.
  - intros [= <- <-]. destruct (st_close_write_inv c Hi) as [[] ?]. by apply upd_step_ok.
  - apply keeps_step_ok; [done|]. apply wp_intro. intros c1 o1. unfold take_error, mbind, M_bind, get, on_state, modify, fail, mret, M_ret.
    assert (Hk : conn_inv (upd (set_error None) c) /\ conn_le c (upd (set_error None) c)).
    { destruct (Hbook (set_error None)) as (_ & ? & _ & _ & ?); done. }
    destruct (st_error (c_state c)); intros [= <- <-]; split_and!; try done; apply Hk.
  - intros [= <- <-]. by apply (Hbook (set_notify_read false)).
  - intros [= <- <-]. by apply (Hbook (set_upgrade false)).
  - intros [= <- <-]. by apply (Hbook prepare_upgrade).
  - unfold conn_set_max_buf_size, set_max_buf_size. rewrite (proj2 (Z.leb_le _ _)) by lia. cbn [mbind option_bind or_panic].
    intros [= <- <-]. apply config_step_ok; try done; [destruct Hw; split; simpl; try done; unfold MINIMUM_MAX_BUFFER_SIZE, INIT_BUFFER_SIZE in *; lia|by apply rs_with_max_ok].
  - intros [= <- <-]. by apply config_step_ok.
  - destruct s; cbn [or_panic]; unfold conn_set_write_strategy_flatten, conn_set_write_strategy_queue,
      set_write_strategy_flatten, set_write_strategy_queue; rewrite (proj2 (Z.eqb_eq _ _)) by done;
      cbn [mbind option_bind or_panic]; intros [= <- <-]; by apply set_strategy_step_ok.
  - intros [= <- <-]. by apply (Hbook (set_parser_config cfg)).
  - intros [= <- <-]. by apply (Hbook (set_h09 true)).
  - intros [= <- <-]. by apply (Hbook (set_max_headers (Some val))).
  - intros [= <- <-]. by apply (Hbook (set_max_header_size (Some val))).
Qed.

Lemma reachable_inv cfg (c : C) : reachable cfg c -> conn_inv c.
Proof.
  induction 1 as [t|c o c' _ IH [c1 r Hg He]]; [apply conn_new_inv|]. by apply (exec_ok c o c1 r IH Hg He).
Qed.

Lemma transitions_inv (c c' : C) :
  conn_inv c -> transitions c c' -> conn_inv c' /\ st_le (c_state c) (c_state c') /\
    exists w, out_stream (c_io c') = out_stream (c_io c) ++ w.
Proof.
  intros Hi Hs. induction Hs as [c|c1 c2 c3 (o & [c2' r Hg He]) _ IH].
  - split_and!; try done. exists []. by rewrite app_nil_r.
  - destruct (exec_ok c1 o c2' r Hi Hg He) as (_ & Hi2 & Hle2 & (w & Hw) & _).
    destruct (IH Hi2) as (Hi3 & Hle3 & w' & Hw'). split_and!; [done|by etrans|].
    exists (w ++ w'). by rewrite Hw', Hw, app_assoc.
Qed.
End laws.

(** ** The exchange on the wire

    The exchange as the peer sees it: the bytes a request puts on the wire when
    it is written through the connection, and the body a response delivers
    through it. *)

Section wire.
Context `{HeaderSyntaxLaws} `{HeaderMapLaws Hm} `{HttparseHeaders} `{HttparseResponse PC}
  `{!HttparseResponseLaws PC} `{TransportLaws T V} `{!BytesMutLaws V} `{BufCombinatorsLaws} `{BufLaws B}.
Abbreviation C := (Conn (Hm := Hm) (PC := PC) (T := T) (V := V) (B := B)).

(** ** Writing a body *)

(** Flushing while a body is being written leaves the state machine alone. *)
Lemma flush_in_body (c c' : C) e r :
  conn_inv c -> writing (c_state c) = WBody e -> conn_poll_flush c = (c', r) ->
  conn_inv c' /\ c_state c' = c_state c /\ out_stream (c_io c') = out_stream (c_io c).
Proof.
  intros Hi Hw Hf. pose proof (conn_poll_flush_keeps c Hi) as Hk. unfold wp in Hk. rewrite Hf in Hk.
  destruct Hk as (_ & Hi' & Hle). split_and!; [done| |apply Hle].
  unfold conn_poll_flush, on_io, zoom, mbind, M_bind in Hf.
  destruct (poll_flush (c_io c)) as [b [[]|e'| | |]]; try by injection Hf as <- <-.
  unfold try_keep_alive, st_try_keep_alive, maybe_notify, notify_io, mbind, M_bind, get, expect, modify, mret, M_ret in Hf.
  simpl in Hf. rewrite Hw in Hf. simpl in Hf. destruct (reading (c_state c)) eqn:Er; simpl in Hf;
    rewrite ?Er, ?Hw in Hf; simpl in Hf; by injection Hf as <- <-.
Qed.

(** The messages of a body through [write_body], with flushes in between. *)
Inductive sends : C -> list B -> C -> Prop :=
| sends_done c : sends c [] c
| sends_write c cap msg c1 msgs c2 :
    can_buffer_body c = true -> msg_ok msg -> write_body (E := unit) cap msg c = (c1, Ready tt) ->
    sends c1 msgs c2 -> sends c (msg :: msgs) c2
| sends_flush c c1 r msgs c2 :
    can_write_body c = true -> conn_poll_flush c = (c1, r) -> sends c1 msgs c2 -> sends c msgs c2.

(** What they become, and the encoder that remains. *)
Fixpoint body_wire (e : Encoder) (msgs : list B) : bytes :=
  match msgs with
  | [] => []
  | msg :: msgs => body_bytes e (content msg) ++ body_wire (encoder_after e (content msg)) msgs
  end.

Definition encoder_end_of (e : Encoder) (msgs : list B) : Encoder :=
  fold_left (fun e msg => encoder_after e (content msg)) msgs e.

Lemma sends_wire (c c' : C) msgs e :
  sends c msgs c' -> conn_inv c -> writing (c_state c) = writing_of e ->
  conn_inv c' /\ out_stream (c_io c') = out_stream (c_io c) ++ body_wire e msgs /\
  writing (c_state c') = writing_of (encoder_end_of e msgs).
Proof.
  intros Hs. revert e. induction Hs as [c|c cap msg c1 msgs c2 Hcan Hmsg Hwr _ IH|c c1 r msgs c2 Hcw Hf _ IH]; intros e Hi Hw.
  - cbn [body_wire]. by rewrite app_nil_r.
  - assert (Hbody : writing_of e = WBody e).
    { unfold write_body, mbind, M_bind, assert_, can_write_body in Hwr. rewrite Hw in Hwr. unfold writing_of in *.
      destruct (negb (encoder_is_eof e)); [done|]. unfold after_body in *. by destruct (is_last e). }
    rewrite Hbody in Hw. pose proof (write_body_wrote (E := unit) cap msg c e Hi Hw Hcan Hmsg) as Hp. unfold wp in Hp.
    rewrite Hwr in Hp. destruct Hp as (_ & Hwrote & Hst & Hi1 & _).
    destruct (IH (encoder_after e (content msg)) Hi1) as (Hi2 & Hout & Hw2); [by rewrite Hst|].
    split_and!; [done| |done]. by rewrite Hout, (wrote_out _ _ _ Hwrote), <- app_assoc.
  - unfold can_write_body in Hcw. destruct (writing (c_state c)) as [|e0| |] eqn:Ew; try done.
    destruct (flush_in_body c c1 e0 r Hi Ew Hf) as (Hi1 & Hst & Hout).
    destruct (IH e Hi1) as (Hi2 & Hout2 & Hw2); [by rewrite Hst, Ew|]. split_and!; [done|by rewrite Hout2, Hout|done].
Qed.

Lemma body_wire_chunked tr last msgs :
  body_wire (MkEncoder (EncChunked tr) last) msgs = concat (map chunk_bytes (map content msgs)).
Proof. induction msgs as [|m ms IH]; [done|]. cbn [body_wire map concat]. unfold encoder_after. cbn [enc_kind]. by rewrite IH. Qed.

Lemma encoder_end_chunked tr last msgs :
  encoder_end_of (MkEncoder (EncChunked tr) last) msgs = MkEncoder (EncChunked tr) last.
Proof. by induction msgs as [|m ms IH]. Qed.

Lemma body_wire_length n last msgs :
  0 <= n -> body_wire (MkEncoder (EncLength n) last) msgs = ztake n (concat (map content msgs)) /\
  encoder_end_of (MkEncoder (EncLength n) last) msgs =
    MkEncoder (EncLength (Z.max 0 (n - len (concat (map content msgs))))) last.
Proof.
  revert n. induction msgs as [|m ms IH]; intros n Hn.
  { unfold encoder_end_of. simpl. change (len []) with 0. split; [unfold ztake; by rewrite take_nil|]. do 2 f_equal. lia. }
  pose proof (len_nonneg (content m)). cbn [body_wire map concat].
  change (encoder_end_of (MkEncoder (EncLength n) last) (m :: ms))
    with (encoder_end_of (MkEncoder (EncLength (Z.max 0 (n - len (content m)))) last) ms).
  unfold body_bytes, encoder_after. cbn [enc_kind is_last].
  destruct (IH (Z.max 0 (n - len (content m))) ltac:(lia)) as [-> ->].
  rewrite ztake_app, len_app by lia. split.
  - f_equal. unfold ztake. f_equal. lia.
  - do 2 f_equal. pose proof (len_nonneg (concat (map content ms))). lia.
Qed.

(** ** Reading a body *)

(** Polls the body of a response to its end and collects its frames. *)
Fixpoint conn_drain (fuel : nat) (acc : bytes) (c : C) : C * outcome io_error (bytes * option Hm) :=
  match fuel with
  | O => (c, NoFuel)
  | S k =>
      match poll_read_body c with
      | (c', Ready (Some (Data d))) =>
          if can_read_body c' then conn_drain k (acc ++ d) c' else (c', Ready (acc ++ d, None))
      | (c', Ready (Some (Trailers h))) => (c', Ready (acc, Some h))
      | (c', Ready None) => (c', Ready (acc, None))
      | (c', Pending) => conn_drain k acc c'
      | (c', Failed e) => (c', Failed e)
      | (c', Panicked) => (c', Panicked)
      | (c', NoFuel) => (c', NoFuel)
      end
  end.

(** The empty frame comes at the end only. *)
Lemma decode_empty_at_end `{MemReadLaws R} d (r : R) d' r' :
  decoder_inv d -> reader_ok r -> decode (Hm := Hm) (d, r) = ((d', r'), Ready (Data [])) -> decoder_is_eof d' = true.
Proof.
  intros Hd Hr. destruct d as [n|c|[]].
  - cbn [decode]. destruct (n =? 0) eqn:E; [by intros [= <- <-]|].
    destruct (read_mem _ r) as [r1 [b| | | |]]; try done. pose proof (len_nonneg b).
    destruct (n <? len b); [by intros [= <- <- ->]|]. destruct (len b =? 0) eqn:Eb; [done|].
    intros [= <- <- ->]. done.
  - intros Hdec. apply decode_chunked_call in Hdec as (c' & w & -> & _ & Hp); [|done|done].
    inversion Hp as [d0 _ Hiff| | | |]; subst. cbn [decoder_is_eof]. apply bool_decide_true. by apply Hiff.
  - by intros [= <- <-].
  - cbn [decode]. destruct (read_mem _ r) as [r1 [b| | | |]]; try done. by intros [= <- <- ->].
Qed.

(** Nor does the end come with "not yet". *)
Lemma decode_pending_not_end `{MemReadLaws R} d (r : R) d' r' :
  decoder_inv d -> reader_ok r -> decoder_is_eof d = false -> decode (Hm := Hm) (d, r) = ((d', r'), Pending) ->
  decoder_is_eof d' = false.
Proof.
  intros Hd Hr Hne. destruct d as [n|c|[]].
  - cbn [decode]. destruct (n =? 0) eqn:E; [done|].
    destruct (read_mem _ r) as [r1 [b| | | |]]; try done; [by repeat case_match|]. by intros [= <- <-].
  - intros Hdec. apply decode_chunked_call in Hdec as (c' & w & -> & _ & Hp); [|done|done].
    inversion Hp. cbn [decoder_is_eof]. by apply bool_decide_false.
  - by intros [= <- <-].
  - cbn [decode]. destruct (read_mem _ r) as [r1 [b| | | |]]; try done. by intros [= <- <-].
Qed.

(** Settling keep-alive at the end of a body reads nothing away. *)
Lemma try_keep_alive_end {E} (c c' : C) (o : outcome E unit) :
  conn_inv c -> reading (c_state c) = RKeepAlive \/ reading (c_state c) = RClosed ->
  try_keep_alive c = (c', o) ->
  o = Ready tt /\ in_stream (c_io c') = in_stream (c_io c) /\ can_read_body c' = false.
Proof.
  intros Hi Hr Ht. pose proof (try_keep_alive_keeps (E := E) c Hi) as Hk. unfold wp in Hk. rewrite Ht in Hk.
  destruct Hk as (Ho & _). unfold try_keep_alive, mbind, M_bind, get, expect, modify, mret, M_ret in Ht.
  destruct (st_try_keep_alive_inv c Hi) as (s' & Hs & Hi' & _). rewrite Hs in Ht.
  assert (Hnb : reading s' = RInit \/ reading s' = RClosed \/ reading s' = RKeepAlive).
  { unfold st_try_keep_alive, st_idle in Hs. destruct Hr as [Hr|Hr]; rewrite Hr in Hs;
      destruct (writing (c_state c)); simplify_eq; rewrite ?Hr; auto.
    destruct (decide _); [|simplify_eq; auto]. destruct (is_idle _); [done|]. simpl in Hs. injection Hs as <-. auto. }
  assert (o = Ready tt) as ->.
  { clear -Ho Ht. unfold maybe_notify, notify_io in Ht. repeat case_match; simplify_eq; done. }
  apply maybe_notify_stream in Ht as [Hin Hrd]; [|apply Hi]. split_and!; [done|done|].
  unfold can_read_body. simpl in Hrd. destruct Hrd as [-> | ->]; [|done]. by destruct Hnb as [-> |[-> | ->]].
Qed.

(** One poll of the body, by what the decoder does. *)
Lemma poll_read_body_decode (c : C) d d' b (o : outcome io_error (Frame Hm)) :
  conn_inv c -> reading (c_state c) = RBody d -> decode (d, c_io c) = ((d', b), o) ->
  exists c', in_stream (c_io c') = in_stream b /\ conn_inv c' /\
    match o with
    | Ready frame =>
        match body_frame d' frame with
        | None => poll_read_body c = (c', Ready (Some frame)) /\ reading (c_state c') = RBody d' /\ c_io c' = b
        | Some (_, ret) => poll_read_body c = (c', Ready ret) /\ can_read_body c' = false
        end
    | Failed e => poll_read_body c = (c', Failed e) /\ can_read_body c' = false
    | Pending => poll_read_body c = (c', Pending) /\ reading (c_state c') = RBody d' /\ c_io c' = b
    | Panicked | NoFuel => False
    end.
Proof.
  intros Hi Hr Hd.
  pose proof (poll_read_body_in_keeps c d Hi Hr) as Hk. unfold wp in Hk.
  assert (Hp : poll_read_body c = poll_read_body_in d c).
  { unfold poll_read_body, mbind, M_bind, assert_, get, can_read_body. rewrite Hr. cbv beta iota. by rewrite Hr. }
  rewrite Hp. unfold poll_read_body_in, match_ready, conn_decode in *. rewrite Hd in *.
  set (c1 := upd (set_reading (RBody d')) (set_c_io b c)) in *.
  assert (Hend : forall r, conn_inv (upd (set_reading r) c1) -> r = RKeepAlive \/ r = RClosed ->
    exists c2, try_keep_alive (E := io_error) (upd (set_reading r) c1) = (c2, Ready tt) /\
      in_stream (c_io c2) = in_stream b /\ can_read_body c2 = false).
  { intros r Hir Hrr. destruct (try_keep_alive (upd (set_reading r) c1)) as [c2 o2] eqn:Et.
    apply try_keep_alive_end in Et as (-> & Hin & Hcb); [|done|done]. by exists c2. }
  assert (Hfin : forall r, r = RKeepAlive \/ r = RClosed -> conn_inv (upd (set_reading r) c1)).
  { intros r Hrr. pose proof Hi as [[Hrd Hwr Hidle] Hpi Hwb Hrs]. unfold partial_inv in Hpi. rewrite Hr in *.
    destruct (decode_same _ _ _ _ _ Hrs Hd) as (Hrs' & Hwb' & _ & _ & Hpl). destruct Hrd as (_ & Hww & Hcn).
    split; [|unfold partial_inv; simpl; destruct Hrr as [-> | ->]; [congruence|done]|simpl; by rewrite Hwb'|done].
    split; simpl; [by destruct Hrr as [-> | ->]|done|]. intros Hid. by destruct (Hidle Hid). }
  destruct o as [frame|e| | |].
  - destruct (body_frame d' frame) as [[r ret]|] eqn:Eb.
    + assert (Hrr : r = RKeepAlive \/ r = RClosed) by (unfold body_frame in Eb; repeat case_match; simplify_eq; auto).
      unfold mbind, M_bind, on_state, modify, mret, M_ret in *.
      destruct (Hend r (Hfin r Hrr) Hrr) as (c2 & Ht & Hin & Hcb). rewrite Ht in *. exists c2. destruct Hk as (_ & ? & _). done.
    + exists c1. destruct Hk as (_ & ? & _). done.
  - unfold mbind, M_bind, on_state, modify, fail in *.
    destruct (Hend RClosed (Hfin RClosed (or_intror eq_refl)) (or_intror eq_refl)) as (c2 & Ht & Hin & Hcb).
    rewrite Ht in *. exists c2. destruct Hk as (_ & ? & _). done.
  - exists c1. destruct Hk as (_ & ? & _). done.
  - by destruct Hk.
  - by destruct Hk.
Qed.

Lemma conn_drain_drain fuel acc (c : C) d d' b res :
  conn_inv c -> reading (c_state c) = RBody d -> decoder_is_eof d = false ->
  drain fuel d (c_io c) acc = ((d', b), res) -> res ≠ NoFuel ->
  exists c', conn_drain fuel acc c = (c', res) /\ in_stream (c_io c') = in_stream b /\ can_read_body c' = false.
Proof.
  revert acc c d. induction fuel as [|k IH]; intros acc c d Hi Hr Hne; [by intros [= <- <- <-]|].
  cbn [drain conn_drain]. rewrite Hne.
  destruct (decode (d, c_io c)) as [[d1 b1] o1] eqn:Ed.
  destruct (poll_read_body_decode c d d1 b1 o1 Hi Hr Ed) as (c1 & Hin & Hi1 & Hpoll).
  assert (Hd : decoder_inv d) by (pose proof (inv_reading _ (inv_st _ Hi)) as Hrd; rewrite Hr in Hrd; apply Hrd).
  destruct o1 as [[data|h]|e| | |]; try done.
  - unfold body_frame in Hpoll. destruct (decoder_is_eof d1) eqn:Ee.
    + destruct Hpoll as [-> Hcb]. destruct k as [|k]; [by intros [= <- <- <-]|]. cbn [drain]. rewrite Ee.
      intros [= <- <- <-] _. exists c1. destruct (decide (data = [])) as [->|_].
      * by rewrite app_nil_r.
      * by rewrite Hcb.
    + destruct (decide (data = [])) as [->|Hdata].
      { exfalso. apply decode_empty_at_end in Ed; [|done|apply Hi]. congruence. }
      destruct Hpoll as (-> & Hr1 & Hb1). unfold can_read_body at 1. rewrite Hr1.
      intros Hdr Hnf. rewrite <- Hb1 in Hdr. by apply (IH (acc ++ data) c1 d1).
  - unfold body_frame in Hpoll. destruct Hpoll as [-> Hcb]. intros [= <- <- <-] _. by exists c1.
  - destruct Hpoll as [-> Hcb]. intros [= <- <- <-] _. by exists c1.
  - destruct Hpoll as (-> & Hr1 & Hb1). intros Hdr Hnf. rewrite <- Hb1 in Hdr.
    destruct (decoder_is_eof d1) eqn:Ee; [|by apply (IH acc c1 d1)].
    exfalso. apply decode_pending_not_end in Ed; [congruence|done|apply Hi|done].
Qed.
End wire.
