(* ===== verification/ConnTheorems.v ===== *)
(** * ConnTheorems

    The guarantees of the HTTP/1 connection of [proto/http1/conn.rs], over every
    transport, buffer type and [httparse] that keep their documented promises:
    no sequence of calls panics, a connection that must close is never used for
    another request, it becomes idle only after a complete exchange, and the
    bytes of a request reach the wire exactly as encoded. *)

From stdpp Require Import prelude strings relations.
From Stdlib Require Import ZArith Lia.
From S2P Require Import Prelude Bytes Crates Errors Length Headers MemRead Decode BodyTheorems BufList WriteBuf Transport Buffered BufferedLaws Encode EncodeLaws Message Role RoleLaws RoleParse Conn ConnInv ConnRead ConnWrite ConnWire.
Local Open Scope Z_scope.

Section theorems.
Context `{HeaderSyntaxLaws} `{HeaderMapLaws Hm} `{HttparseHeaders} `{HttparseResponse PC}
  `{!HttparseResponseLaws PC} `{TransportLaws T V} `{!BytesMutLaws V} `{BufCombinatorsLaws} `{BufLaws B}.
Abbreviation C := (Conn (Hm := Hm) (PC := PC) (T := T) (V := V) (B := B)).

(** C28. The connection never panics. From a new connection, whatever calls the
    dispatcher makes under the guards it checks, whatever the peer sends and
    however the transport behaves, no assertion, index, [expect] or
    [unreachable!] of the connection or of the code below it is hit and no loop
    runs on; the "100-continue" state of the shared code is never entered; and
    an idle connection is at the start of both directions. *)
Theorem conn_safe cfg (c : C) o c' r :
  reachable cfg c -> guard o c -> exec o c = (c', r) ->
  r ≠ Panicked /\ r ≠ NoFuel /\
  (forall d, reading (c_state c') ≠ RContinue d) /\
  (keep_alive (c_state c') = Idle -> reading (c_state c') = RInit /\ writing (c_state c') = WInit).
Proof.
  intros Hc Hg He. destruct (exec_ok c o c' r (reachable_inv _ _ Hc) Hg He) as (Hs & [[Hrd _ Hidle] _ _ _] & _).
  split_and!; [by intros ->|by intros ->| |done]. intros d Hd. by rewrite Hd in Hrd.
Qed.

(** A connection that is not to be kept alive is never reused. Once
    keep-alive is disabled while an exchange is under way (the request or the
    response said close, or an error occurred), it stays disabled and no later
    call, in any order, makes the connection accept another request. *)
Theorem disabled_never_reused cfg (c c' : C) :
  reachable cfg c -> keep_alive (c_state c) = Disabled -> writing (c_state c) ≠ WInit ->
  transitions c c' ->
  keep_alive (c_state c') = Disabled /\ can_write_head c' = false.
Proof.
  intros Hc Hd Hw Hs. destruct (transitions_inv c c' (reachable_inv _ _ Hc) Hs) as (_ & [Hd' _ _ Hu] & _).
  split; [auto|]. unfold can_write_head. destruct (reading (c_state c')); try done;
    destruct (writing (c_state c')); try done; by destruct Hw; apply Hu.
Qed.

(** A request that says [Connection: close] is the last one: after it is
    written, whatever the response says and whatever the dispatcher calls, the
    connection accepts no other request. *)
Theorem request_close_is_last cfg (c c1 c2 : C) head body r :
  reachable cfg c -> guard (OWriteHead head body) c -> connection_any_close (head_headers head) = true ->
  exec (OWriteHead head body) c = (c1, r) -> transitions c1 c2 ->
  r = Ready tt /\ keep_alive (c_state c2) = Disabled /\ can_write_head c2 = false.
Proof.
  intros Hc [Hcan Hreq] Hclose He Hs. pose proof (reachable_inv _ _ Hc) as Hi.
  pose proof (write_head_wrote (E := unit) head body c Hi Hcan Hreq) as Hwp. unfold wp in Hwp.
  cbn [exec] in He. unfold erase in He. destruct (write_head head body c) as [c0 o0]. simpl in He.
  destruct Hwp as (-> & enc & _ & _ & Hw & Hk & _ & Hi1 & _). injection He as <- <-. split; [done|].
  destruct (prepare_head head (c_state c)) as [head' s'] eqn:Eh.
  apply prepare_head_spec in Eh as ((k & _ & _ & Hd & ->) & _). simpl in Hk. rewrite (Hd Hclose) in Hk.
  destruct (transitions_inv c0 c2 Hi1 Hs) as (_ & [Hd' _ _ Hu] & _). split; [auto|].
  unfold can_write_head. destruct (reading (c_state c2)); try done;
    destruct (writing (c_state c2)) eqn:E; try done; specialize (Hu Hk eq_refl); rewrite Hw in Hu;
    by apply writing_of_started in Hu.
Qed.

(** The connection becomes idle, and so available for the next request,
    only by a call that does not write, when the request was completely
    written and keep-alive was not refused; it is then at the start of both
    directions. *)
Theorem idle_only_when_complete cfg (c c' : C) o :
  reachable cfg c -> transition c o c' ->
  keep_alive (c_state c) ≠ Idle -> keep_alive (c_state c') = Idle ->
  is_write o = false /\ writing (c_state c) = WKeepAlive /\ keep_alive (c_state c) = Busy /\
  reading (c_state c') = RInit /\ writing (c_state c') = WInit.
Proof.
  intros Hc [c1 r Hg He] Hn Hid.
  destruct (exec_ok c o c1 r (reachable_inv _ _ Hc) Hg He) as (_ & Hi1 & _ & _ & Hle).
  pose proof (inv_idle _ (inv_st _ Hi1) Hid) as [Hr1 Hw1].
  destruct (is_write o) eqn:Ew; [by destruct Hle|]. destruct (le_idle _ _ Hle Hid) as [?|[? ?]]; done.
Qed.

(** Bytes accepted for writing are never lost, changed or reordered: along
    any sequence of calls, what the transport has taken followed by what is
    buffered only grows at the end, and only the five writing operations make
    it grow. *)
Theorem accepted_bytes_kept cfg (c c' : C) :
  reachable cfg c -> transitions c c' ->
  (exists w, out_stream (c_io c') = out_stream (c_io c) ++ w) /\
  (forall o c'', transition c' o c'' -> is_write o = false -> out_stream (c_io c'') = out_stream (c_io c')).
Proof.
  intros Hc Hs. destruct (transitions_inv c c' (reachable_inv _ _ Hc) Hs) as (Hi' & _ & Hw). split; [done|].
  intros o c'' [c2 r Hg He] Hnw. destruct (exec_ok c' o c2 r Hi' Hg He) as (_ & _ & _ & _ & Hle).
  rewrite Hnw in Hle. apply Hle.
Qed.

(** A request that was written gets a response head or an error, never a
    silent end. Reading the head of a response yields a final response (1xx
    are skipped, 101 excepted), asks to be polled again, or fails; the end of
    the stream is a failure, and a failure closes the read side for good. A
    response that upgrades the connection also takes it out of keep-alive. *)
Theorem response_or_error cfg (c c' : C) o :
  reachable cfg c -> can_read_head c = true -> poll_read_head c = (c', o) ->
  match o with
  | Ready None => False
  | Ready (Some (head, l, wants)) =>
      (~ 100 <= subject head <= 199 \/ subject head = 101) /\
      (wants_contains wants WANTS_UPGRADE = true -> keep_alive (c_state c') = Disabled)
  | Failed e => reading (c_state c') = RClosed /\ keep_alive (c_state c') = Disabled
  | Pending => reading (c_state c') = RInit
  | _ => False
  end.
Proof.
  intros Hc Hcan Hp. pose proof (poll_read_head_spec c (reachable_inv _ _ Hc) Hcan) as Hs.
  by destruct (wp_elim _ _ _ _ _ Hs Hp) as [_ ?].
Qed.

(** C30. The body of a response is what the body decoder makes of the stream.
    Polling it through the connection gives the same frames, trailers and
    errors as draining the decoder over the transport, leaves the same bytes
    unread, and ends with the connection no longer in a body; in particular a
    body is never cut short without an error. *)
Theorem response_body_refines cfg fuel (c : C) d d' b res :
  reachable cfg c -> reading (c_state c) = RBody d -> decoder_is_eof d = false ->
  drain fuel d (c_io c) [] = ((d', b), res) -> res ≠ NoFuel ->
  exists c', conn_drain fuel [] c = (c', res) /\ in_stream (c_io c') = in_stream b /\ can_read_body c' = false.
Proof. intros Hc. apply conn_drain_drain. by eapply reachable_inv. Qed.


(** The results of watching an idle connection. *)
Definition watched (c : C) (o : outcome Error unit) (c' : C) : Prop :=
  match o with
  | Ready _ => in_stream (c_io c) = [] /\ reading (c_state c') = RClosed /\ keep_alive (c_state c') = Disabled
  | Failed e =>
      (e = new_unexpected_message /\ in_stream (c_io c') = in_stream (c_io c) /\ bm_bytes (read_buf (c_io c')) ≠ []) \/
      (exists ioe, e = new_io ioe /\ reading (c_state c') = RClosed /\ writing (c_state c') = WClosed)
  | Pending => c_state c' = c_state c /\ in_stream (c_io c') = in_stream (c_io c)
  | _ => False
  end.

(** An idle connection is watched correctly: the end of the stream closes it
    without an error, bytes nobody asked for are reported as an unexpected
    message and are not consumed, and otherwise nothing changes. *)
Theorem idle_watch cfg (c c' : C) o :
  reachable cfg c -> keep_alive (c_state c) = Idle -> poll_read_keep_alive c = (c', o) -> watched c o c'.
Proof.
  intros Hc Hid. pose proof (reachable_inv _ _ Hc) as Hi. destruct (inv_idle _ (inv_st _ Hi) Hid) as [Hr Hw].
  assert (Hnr : not_reading c = true) by (unfold not_reading, can_read_head, can_read_body; by rewrite Hr, Hw).
  assert (Hrc : is_read_closed c = false) by (unfold is_read_closed, st_is_read_closed; by rewrite Hr).
  assert (Hmm : is_mid_message c = false) by (unfold is_mid_message; by rewrite Hr, Hw).
  apply wp_elim. unfold poll_read_keep_alive. conn_step. apply wp_assert; [done|]. do 2 conn_step.
  rewrite Hrc, Hmm. unfold require_empty_read. conn_step. apply wp_assert; [by rewrite Hnr, Hrc|].
  conn_step. apply wp_assert; [by rewrite Hmm|]. do 2 conn_step.
  case_bool_decide as Hnil; cbn [negb]; [|conn_step; by left].
  do 2 conn_step. unfold force_io_read. conn_step. apply wp_assert; [by rewrite Hrc|]. conn_step.
  unfold on_io. apply wp_zoom, wp_intro. intros b o1 Er.
  apply poll_read_from_io_spec in Er as (_ & _ & Hpost); [|apply Hi].
  destruct o1 as [n|e| | |]; try done; cbv beta iota.
  - destruct Hpost as (d & -> & Hb & Hin & Hd & _). rewrite Hnil in Hb. simpl in Hb. conn_step.
    destruct (len d =? 0) eqn:Ed; zbool.
    + apply len_zero in Ed. subst d. do 4 conn_step. unfold should_error_on_eof, is_idle. cbn [c_state set_c_io].
      rewrite Hid. change (negb (bool_decide (Idle = Idle))) with false. cbv iota. conn_step. unfold watched, in_stream. rewrite Hnil, Hd by done. done.
    + conn_step. left. split; [done|]. unfold in_stream. simpl. rewrite Hb, Hnil, Hin. split; [done|]. by intros ->.
  - do 3 conn_step. right. by exists e.
  - destruct Hpost as (Hb & Hin & _). split; [done|]. unfold in_stream. simpl. by rewrite Hb, Hin.
Qed.
End theorems.

(** ** The theorems at work

    One exchange over a scripted transport: a [GET], a [204] response, and the
    next thing the peer does. *)

Section witnesses.
Import Concrete ConcreteIo ConcreteParse.
Abbreviation DemoConn := (Conn (Hm := hmap) (PC := unit) (T := mock) (V := vec) (B := bytes)).

(** An empty piece stands for a moment without input. *)
Definition piece_of (s : bytes) : option (Z * bytes) :=
  match s with b :: rest => Some (b, rest) | [] => None end.
Definition demo_204 : bytes := bs "HTTP/1.1 204 None" ++ CRLF ++ CRLF.
Definition demo_200 : bytes := bs "HTTP/1.1 200 Fine" ++ CRLF ++ CRLF.

Definition demo_get (hs : list (bytes * bytes)) : MessageHead hmap RequestLine :=
  MkHead HTTP_11 (MkRequestLine GET (bs "/")) (HMap hs) extensions_default.
Definition demo_post : MessageHead hmap RequestLine :=
  MkHead HTTP_11 (MkRequestLine POST (bs "/")) (HMap []) extensions_default.

Definition demo_conn (input : list bytes) : DemoConn := conn_new tt (Mock (map piece_of input) [] 1000).
Definition after (o : op) (c : DemoConn) : DemoConn := (exec o c).1.

Lemma after_transition o (c : DemoConn) : guard o c -> transition c o (after o c).
Proof. intros Hg. apply (transition_intro c o _ (exec o c).2 Hg). unfold after. by destruct (exec o c). Qed.

Lemma after_reachable o (c : DemoConn) : reachable tt c -> guard o c -> reachable tt (after o c).
Proof. intros Hc Hg. by apply (reachable_step tt c o), after_transition. Qed.

(** The connection after a request was written and flushed. *)
Definition demo_sent (hs : list (bytes * bytes)) (input : list bytes) : DemoConn :=
  after OFlush (after (OWriteHead (demo_get hs) None) (demo_conn input)).

Definition demo_close : list (bytes * bytes) := [(H_CONNECTION, bs "close")].

Lemma demo_get_guard hs input :
  Forall (fun f => f.1 ≠ H_TRANSFER_ENCODING) hs -> guard (OWriteHead (demo_get hs) None) (demo_conn input).
Proof.
  intros Hhs. split; [done|]. split; [|done]. unfold demo_get. cbn [head_headers].
  rewrite hm_get_all_iter. change (hm_iter (HMap hs)) with hs.
  induction Hhs as [|f fs Hf _ IH]; [constructor|]. rewrite filter_cons, decide_False by done. exact IH.
Qed.

Lemma demo_sent_reachable hs input :
  Forall (fun f => f.1 ≠ H_TRANSFER_ENCODING) hs -> reachable tt (demo_sent hs input).
Proof.
  intros Hhs. apply after_reachable; [|done]. apply after_reachable; [apply reachable_new|by apply demo_get_guard].
Qed.

Lemma demo_close_fields : Forall (fun f => f.1 ≠ H_TRANSFER_ENCODING) demo_close.
Proof. by repeat constructor. Qed.

Lemma conn_safe_witness :
  exists c' r, exec OReadHead (demo_sent [] [demo_204; []]) = (c', r) /\ r = Ready tt /\ r ≠ Panicked /\ r ≠ NoFuel /\
    keep_alive (c_state c') = Idle /\ reading (c_state c') = RInit /\ writing (c_state c') = WInit.
Proof.
  destruct (exec OReadHead (demo_sent [] [demo_204; []])) as [c' r] eqn:E.
  destruct (conn_safe tt (demo_sent [] [demo_204; []]) OReadHead c' r) as (H1 & H2 & _ & H4);
    [apply demo_sent_reachable; constructor|vm_compute; reflexivity|exact E|].
  assert (Hid : keep_alive (c_state c') = Idle) by (etransitivity; [symmetry; exact (f_equal (fun x => keep_alive (c_state x.1)) E)|vm_compute; reflexivity]).
  exists c', r. split; [reflexivity|]. split; [etransitivity; [symmetry; exact (f_equal snd E)|vm_compute; reflexivity]|].
  split; [exact H1|]. split; [exact H2|]. split; [exact Hid|]. exact (H4 Hid).
Defined.

Lemma disabled_never_reused_witness :
  keep_alive (c_state (after OReadHead (demo_sent demo_close [demo_204]))) = Disabled /\
  can_write_head (after OReadHead (demo_sent demo_close [demo_204])) = false.
Proof.
  apply (disabled_never_reused tt (demo_sent demo_close [demo_204])).
  - apply demo_sent_reachable, demo_close_fields.
  - vm_compute. reflexivity.
  - vm_compute. discriminate.
  - apply rtc_once. exists OReadHead. apply after_transition. vm_compute. reflexivity.
Defined.

Lemma request_close_is_last_witness :
  Ready tt = @Ready unit unit tt /\
  keep_alive (c_state (demo_sent demo_close [demo_204])) = Disabled /\
  can_write_head (demo_sent demo_close [demo_204]) = false.
Proof.
  apply (request_close_is_last tt (demo_conn [demo_204]) (after (OWriteHead (demo_get demo_close) None) (demo_conn [demo_204]))
    (demo_sent demo_close [demo_204]) (demo_get demo_close) None (Ready tt)).
  - apply reachable_new.
  - apply demo_get_guard, demo_close_fields.
  - vm_compute. reflexivity.
  - vm_compute. reflexivity.
  - apply rtc_once. exists OFlush. by apply after_transition.
Defined.

Lemma idle_only_when_complete_witness :
  is_write (OReadHead (Hm := hmap) (PC := unit) (B := bytes)) = false /\
  writing (c_state (demo_sent [] [demo_204; []])) = WKeepAlive /\
  keep_alive (c_state (demo_sent [] [demo_204; []])) = Busy /\
  reading (c_state (after OReadHead (demo_sent [] [demo_204; []]))) = RInit /\
  writing (c_state (after OReadHead (demo_sent [] [demo_204; []]))) = WInit.
Proof.
  apply (idle_only_when_complete tt (demo_sent [] [demo_204; []])).
  - apply demo_sent_reachable. constructor.
  - apply after_transition. vm_compute. reflexivity.
  - vm_compute. discriminate.
  - vm_compute. reflexivity.
Defined.

Lemma accepted_bytes_kept_witness :
  exists w, out_stream (c_io (demo_sent [] [])) = out_stream (c_io (demo_conn [])) ++ w /\
    w = bs "GET / HTTP/1.1" ++ CRLF ++ CRLF.
Proof.
  destruct (accepted_bytes_kept tt (demo_conn []) (demo_sent [] [])) as [[w Hw] _].
  - apply reachable_new.
  - eapply rtc_l; [exists (OWriteHead (demo_get []) None); apply after_transition, demo_get_guard; constructor|].
    apply rtc_once. exists OFlush. by apply after_transition.
  - exists w. split; [exact Hw|]. vm_compute in Hw. by rewrite <- Hw.
Defined.

Lemma response_or_error_witness :
  exists c' e, poll_read_head (demo_sent [] [bs "HTTP/1.1 2"]) = (c', Failed e) /\ e = new_incomplete /\
    reading (c_state c') = RClosed /\ keep_alive (c_state c') = Disabled.
Proof.
  destruct (poll_read_head (demo_sent [] [bs "HTTP/1.1 2"])) as [c' o] eqn:E.
  pose proof (response_or_error tt (demo_sent [] [bs "HTTP/1.1 2"]) c' o) as Hr.
  specialize (Hr (demo_sent_reachable _ _ (Forall_nil_2 _)) ltac:(vm_compute; reflexivity) E).
  assert (Ho : o = Failed new_incomplete) by (etransitivity; [symmetry; exact (f_equal snd E)|vm_compute; reflexivity]).
  subst o. exists c', new_incomplete. split; [reflexivity|]. split; [reflexivity|exact Hr].
Defined.

(** A close-delimited body in two pieces. *)
Definition demo_in_body : DemoConn := after OReadHead (demo_sent [] [demo_200 ++ bs "Wi"; bs "ki"]).

Lemma response_body_refines_witness :
  exists c', conn_drain 4 [] demo_in_body = (c', Ready (bs "Wiki", None)) /\ in_stream (c_io c') = [] /\ can_read_body c' = false.
Proof.
  destruct (drain (Hm := hmap) 4 (Eof false) (c_io demo_in_body) []) as [[d' b] res] eqn:E.
  destruct (response_body_refines tt 4 demo_in_body (Eof false) d' b res) as (c' & Hd & Hin & Hcb).
  - apply after_reachable; [apply demo_sent_reachable; constructor|vm_compute; reflexivity].
  - vm_compute. reflexivity.
  - reflexivity.
  - exact E.
  - intros Hn. pose proof (f_equal snd E) as Es. rewrite Hn in Es. vm_compute in Es. discriminate Es.
  - vm_compute in E. injection E as _ Eb Er. exists c'. rewrite Hd, Hin, <- Eb, <- Er. split_and!; [reflexivity..|exact Hcb].
Defined.


Lemma idle_watch_witness :
  exists c', poll_read_keep_alive (after OReadHead (demo_sent [] [demo_204; []])) = (c', Ready tt) /\
    watched (after OReadHead (demo_sent [] [demo_204; []])) (Ready tt) c'.
Proof.
  destruct (poll_read_keep_alive (after OReadHead (demo_sent [] [demo_204; []]))) as [c' o] eqn:E.
  pose proof (idle_watch tt (after OReadHead (demo_sent [] [demo_204; []])) c' o) as Hw.
  assert (Hr : reachable tt (after OReadHead (demo_sent [] [demo_204; []]))).
  { apply after_reachable; [apply demo_sent_reachable; constructor|vm_compute; reflexivity]. }
  specialize (Hw Hr ltac:(vm_compute; reflexivity) E).
  assert (Ho : o = Ready tt) by (etransitivity; [symmetry; exact (f_equal snd E)|vm_compute; reflexivity]). subst o.
  exists c'. split; [reflexivity|exact Hw].
Defined.
End witnesses.
