(* ===== verification/ConnPhase.v ===== *)
(** * ConnPhase

    Where the operations of a connection can leave its two directions: what the
    dispatcher relies on to come to the end of its loops, and never to call an
    operation out of turn. *)

From stdpp Require Import prelude strings relations.
From Stdlib Require Import ZArith Lia.
From S2P Require Import Prelude Bytes Crates Errors Length Headers MemRead Decode BodyTheorems BufList WriteBuf Transport Buffered BufferedLaws Encode EncodeLaws Message Role RoleLaws RoleParse Conn ConnInv ConnRead ConnWrite.
Local Open Scope Z_scope.

Section phase.
Context `{HeaderSyntaxLaws} `{HeaderMapLaws Hm} `{HttparseHeaders} `{HttparseResponse PC}
  `{!HttparseResponseLaws PC} `{TransportLaws T V} `{!BytesMutLaws V} `{BufCombinatorsLaws} `{BufLaws B}.
Abbreviation C := (Conn (Hm := Hm) (PC := PC) (T := T) (V := V) (B := B)).

(** Nothing new to read or to write a body for, and the same write buffer room. *)
Record calm (c c' : C) : Prop := {
  calm_read_head : can_read_head c' = true -> can_read_head c = true;
  calm_read_body : can_read_body c' = true -> can_read_body c = true;
  calm_write_body : can_write_body c' = true -> can_write_body c = true;
  calm_buffer : can_buffer_body c' = can_buffer_body c;
}.

#[export] Instance calm_preorder : PreOrder calm.
Proof. split; [by split|]. intros c1 c2 c3 [] []. split; auto. congruence. Qed.

(** A change of the state that starts nothing. *)
Lemma calm_upd (c : C) s' :
  reading s' = reading (c_state c) /\ writing s' = writing (c_state c) \/
  reading s' = RInit /\ writing s' = WInit \/
  reading s' = RClosed /\ (writing s' = writing (c_state c) \/ writing s' = WClosed) \/
  reading s' = reading (c_state c) /\ writing s' = WClosed /\ writing (c_state c) ≠ WInit ->
  calm c (set_c_state s' c).
Proof.
  intros Hs. split; [| | |done]; unfold can_read_head, can_read_body, can_write_body; cbn;
    destruct Hs as [[Hr Hw]|[[Hr Hw]|[[Hr [Hw|Hw]]|(Hr & Hw & Hne)]]]; rewrite ?Hr, ?Hw; try done.
  all: by destruct (reading (c_state c)), (writing (c_state c)).
Qed.

Lemma calm_io (c : C) b : same_write (c_io c) b -> calm c (set_c_io b c).
Proof.
  intros (Hw & _ & Hf & _). split; [done..|]. unfold can_buffer_body, can_buffer. cbn. by rewrite Hw, Hf.
Qed.

Lemma notify_io_calm {E} (c c' : C) (o : outcome E unit) :
  rs_ok (read_buf_strategy (c_io c)) -> notify_io c = (c', o) -> calm c c'.
Proof.
  intros Hr. unfold notify_io. destruct (is_read_blocked _); [by intros [= <- <-]|].
  destruct (decide _) as [_|_]; [|intros [= <- <-]; apply calm_upd; by left].
  destruct (poll_read_from_io (c_io c)) as [b o1] eqn:Er. apply poll_read_from_io_spec in Er as (_ & Hs & Hpost); [|done].
  pose proof (calm_io c b Hs) as Hc. destruct o1 as [n|e| | |]; try done; cbn zeta; [destruct (n =? 0)| |];
    intros [= <- <-]; try done; (etrans; [exact Hc|]); apply calm_upd; cbn; auto 6.
  destruct (is_idle _); cbn; auto 6.
Qed.

Lemma maybe_notify_calm {E} (c c' : C) (o : outcome E unit) :
  rs_ok (read_buf_strategy (c_io c)) -> maybe_notify c = (c', o) -> calm c c'.
Proof.
  intros Hr. unfold maybe_notify. destruct (reading (c_state c)); try by intros [= <- <-].
  destruct (writing (c_state c)); try by intros [= <- <-]. all: by apply notify_io_calm.
Qed.

Lemma try_keep_alive_calm {E} (c c' : C) (o : outcome E unit) :
  rs_ok (read_buf_strategy (c_io c)) -> try_keep_alive c = (c', o) -> calm c c'.
Proof.
  intros Hr. unfold try_keep_alive, mbind, M_bind, get, expect, modify.
  destruct (st_try_keep_alive (c_state c)) as [s|] eqn:Es; [|by intros [= <- <-]].
  cbn [mret M_ret]. intros Hn. unfold mret, M_ret in Hn. apply maybe_notify_calm in Hn; [|done]. etrans; [|exact Hn]. apply calm_upd.
  unfold st_try_keep_alive, st_idle, is_idle in Es. repeat case_match; simplify_eq; cbn; auto 8.
Qed.

(** A body that is being read goes on being read. *)
Lemma try_keep_alive_body {E} (c c' : C) (o : outcome E unit) :
  can_read_body c = true -> try_keep_alive c = (c', o) -> can_read_body c' = true.
Proof.
  unfold can_read_body, try_keep_alive, mbind, M_bind, get, expect, modify, st_try_keep_alive, maybe_notify. intros Hb.
  destruct (reading (c_state c)) eqn:Er; try done; destruct (writing (c_state c)); cbn; rewrite ?Er; intros [= <- _]; cbn; by rewrite Er.
Qed.

Lemma try_keep_alive_now {E} (c c' : C) (o : outcome E unit) : try_keep_alive c = (c', o) -> o ≠ Pending.
Proof.
  unfold try_keep_alive, mbind, M_bind, get, expect, modify, maybe_notify, notify_io, mret, M_ret, panic. intros Hr ->. revert Hr. repeat case_match; by intros [=].
Qed.

(** ** Flushing *)

(** An empty write buffer has room. *)
Lemma empty_can_buffer (b : Buffered T V (EncodedBuf B)) :
  wb_ok (write_buf b) -> wb_content (write_buf b) = [] -> can_buffer b = true.
Proof.
  intros Hw Hc. unfold can_buffer. apply orb_true_iff. right. unfold wb_can_buffer, wb_remaining.
  pose proof (wb_headers_ok _ Hw) as Hh. pose proof (wb_queue_ok _ Hw) as Hq. pose proof (wb_room _ Hw) as Hr.
  unfold wb_content in Hc. apply app_nil in Hc as [Hc1 Hc2].
  rewrite (buf_remaining (headers (write_buf b))), (buf_remaining (queue (write_buf b))), Hc1, Hc2 by done.
  change (len (@nil Z)) with 0. assert (Hlt : (0 + 0 <? max_buf_size (write_buf b)) = true) by (apply Z.ltb_lt; lia).
  destruct (strategy (write_buf b)); rewrite Hlt; [done|]. rewrite andb_true_r. apply Z.ltb_lt.
  assert (Hn : bufs (queue (write_buf b)) = []).
  { destruct (bufs (queue (write_buf b))) as [|e l] eqn:E; [done|]. pose proof (bl_bufs_ok _ Hq) as Hall. rewrite E in Hall.
    apply Forall_cons in Hall as [[_ Hne] _]. change (bl_content (queue (write_buf b)) = []) in Hc2. unfold bl_content in Hc2.
    rewrite E in Hc2. cbn in Hc2. by apply app_nil in Hc2 as [? _]. }
  unfold bufs_cnt. rewrite Hn. done.
Qed.

(** A flush starts nothing, and one that is done leaves room. *)
Lemma flush_phase (c c' : C) o :
  conn_inv c -> conn_poll_flush c = (c', o) ->
  (can_read_head c' = true -> can_read_head c = true) /\ can_read_body c' = can_read_body c /\
  (can_write_body c' = true -> can_write_body c = true) /\ (o = Ready tt -> can_buffer_body c' = true).
Proof.
  intros Hi. unfold conn_poll_flush, on_io, mbind, M_bind, zoom. destruct (poll_flush (c_io c)) as [b o1] eqn:Ef.
  pose proof (flush_keeps c b o1 Hi Ef) as (Ho & Hi' & _). apply poll_flush_spec in Ef; [|apply Hi].
  destruct o1 as [[]|e| | |]; try (intros [= <- <-]; by split_and!). intros Ht.
  pose proof (fun Hb => try_keep_alive_body _ _ _ Hb Ht) as Hkeep. apply try_keep_alive_calm in Ht; [|apply Hi']. destruct Ht as [Hp1 Hp2 Hp3 Hp4].
  split_and!; [by intros ?%Hp1| |by intros ?%Hp3|].
  { change (can_read_body (set_c_io b c)) with (can_read_body c) in *. by destruct (can_read_body c); [apply Hkeep|apply not_true_iff_false; intros ?%Hp2]. }
  intros _. rewrite Hp4. destruct Ef as [(_ & -> & Hp & _)|[(_ & Hw & _) Hc]].
  - unfold can_buffer_body, can_buffer. cbn. by rewrite Hp.
  - by apply empty_can_buffer.
Qed.

(** ** Reading *)

(** Changing [reading] to the end of a body and settling keep-alive. *)
Lemma end_reading_phase {E} (c c' : C) r (o : outcome E unit) :
  rs_ok (read_buf_strategy (c_io c)) -> r = RKeepAlive \/ r = RClosed ->
  (on_state (set_reading r);; try_keep_alive) c = (c', o) ->
  can_read_head c' = false /\ can_read_body c' = false /\ o ≠ Pending.
Proof.
  intros Hr Hrd. unfold mbind, M_bind, on_state, modify. intros Ht. pose proof (try_keep_alive_now _ _ _ Ht) as Hn. apply try_keep_alive_calm in Ht as [Hp1 Hp2 _ _]; [|done].
  split_and!; [apply not_true_iff_false; intros Hx%Hp1|apply not_true_iff_false; intros Hx%Hp2|done]; by destruct Hrd as [-> | ->].
Qed.

Lemma ends_then {E A} (m1 m2 : M C E unit) (k : M C E A) (c c' : C) o :
  (m1;; m2;; k) c = (c', o) ->
  exists c1 o1, (m1;; m2) c = (c1, o1) /\ (o1 = Ready tt /\ k c1 = (c', o) \/ c' = c1 /\ (forall a, o ≠ Ready a) /\ (o = Pending -> o1 = Pending)).
Proof.
  unfold mbind, M_bind. destruct (m1 c) as [c1 [[]|e| | |]]; try (intros [= <- <-]; eexists _, _; split; [done|]; right; by split_and!).
  destruct (m2 c1) as [c2 [[]|e| | |]]; try (intros [= <- <-]; eexists _, _; split; [done|]; right; by split_and!). eauto 6.
Qed.

(** After a frame of a body no head is to be read; after the last no body. *)
Definition body_phase (c' : C) (o : outcome io_error (option (Frame Hm))) : Prop :=
  can_read_head c' = false /\
  match o with
  | Ready (Some (Data _)) => True
  | Pending => can_read_body c' = true
  | _ => can_read_body c' = false
  end.

Lemma poll_read_body_phase (c c' : C) o :
  conn_inv c -> can_read_body c = true -> poll_read_body c = (c', o) -> body_phase c' o.
Proof.
  intros Hi Hcan Hp. pose proof (poll_read_body_keeps c Hi Hcan) as Hk. unfold wp in Hk. rewrite Hp in Hk. destruct Hk as (Hs & _ & _).
  revert Hp. unfold poll_read_body, assert_, mbind, M_bind, get. rewrite Hcan. unfold can_read_body in Hcan.
  pose proof (inv_reading _ (inv_st _ Hi)) as Hrd. destruct (reading (c_state c)) as [|?|d| |] eqn:Er; try done.
  unfold poll_read_body_in, match_ready, conn_decode. destruct (decode (d, c_io c)) as [[d' b] o1] eqn:Ed.
  destruct (decode_same _ _ _ _ _ (inv_rs _ Hi) Ed) as (Hrs' & _).
  destruct o1 as [frame|e| | |]; try (intros [= <- <-]; by split).
  - destruct (body_frame d' frame) as [[r ret]|] eqn:Eb.
    + assert (Hr : r = RKeepAlive \/ r = RClosed) by (unfold body_frame in Eb; repeat case_match; naive_solver).
      intros (c1 & o1 & Hrun & Hend)%ends_then. apply end_reading_phase in Hrun as (Hp1 & Hp2 & Hnp); [|done|done].
      destruct Hend as [[_ Hk]|(-> & _ & Hw)]; [|split; [done|destruct o as [[[]|]| | | |]; try done; by destruct Hnp; apply Hw]].
      unfold mret, M_ret in Hk. injection Hk as <- <-. split; [done|]. by destruct ret as [[]|].
    + intros [= <- <-]. unfold body_frame in Eb. split; [done|]. destruct frame; [done|]. discriminate Eb.
  - intros (c1 & o1 & Hrun & Hend)%ends_then. apply end_reading_phase in Hrun as (Hp1 & Hp2 & Hnp); [|done|auto].
    destruct Hend as [[_ Hk]|(-> & _ & Hw)]; [unfold fail in Hk; injection Hk as <- <-; by split|].
    split; [done|destruct o as [[[]|]| | | |]; try done; by destruct Hnp; apply Hw].
Qed.

Lemma drain_phase {E} (c c' : C) (o : outcome E unit) :
  conn_inv c -> can_read_body c = true -> poll_drain_or_close_read c = (c', o) ->
  o = Ready tt /\ can_read_head c' = false /\ can_read_body c' = false.
Proof.
  intros Hi Hcan. unfold poll_drain_or_close_read. pose proof (inv_reading _ (inv_st _ Hi)) as Hrd.
  assert ((match reading (c_state c) with RContinue d => upd (set_reading (RBody d)) c | _ => c end) = c) as ->.
  { by destruct (reading (c_state c)). }
  destruct (poll_read_body c) as [c1 o1] eqn:Eb. pose proof (poll_read_body_phase c c1 o1 Hi Hcan Eb) as [Hh _].
  pose proof (poll_read_body_keeps c Hi Hcan) as Hk. unfold wp in Hk. rewrite Eb in Hk. destruct Hk as (Ho & _).
  assert (Hclose : forall (c2 : C) o2,
    match reading (c_state c1) with RInit | RKeepAlive => (c1, Ready tt) | _ => close_read (E := E) c1 end = (c2, o2) ->
    o2 = Ready tt /\ can_read_head c2 = false /\ can_read_body c2 = false).
  { intros c2 o2. unfold can_read_body. destruct (reading (c_state c1)) eqn:Er; intros [= <- <-]; split_and!; try done; by rewrite Er. }
  destruct o1; try done; apply Hclose.
Qed.

Lemma force_io_read_calm (c c' : C) o :
  rs_ok (read_buf_strategy (c_io c)) -> force_io_read c = (c', o) -> calm c c'.
Proof.
  intros Hr. unfold force_io_read, assert_, mbind, M_bind, match_ready, on_io, zoom. destruct (negb _); [|by intros [= <- <-]].
  destruct (poll_read_from_io (c_io c)) as [b o1] eqn:Er. apply poll_read_from_io_spec in Er as (_ & Hs & _); [|done].
  pose proof (calm_io c b Hs) as Hc. destruct o1 as [n|e| | |]; intros [= <- <-]; try done.
  etrans; [exact Hc|]. apply calm_upd. cbn. auto 6.
Qed.

(** An assertion, whichever way it goes. *)
Lemma wp_assert_any {E} (b : C -> bool) (Q : outcome E unit -> C -> Prop) c :
  Q (Ready tt) c -> Q Panicked c -> wp (assert_ b) Q c.
Proof. unfold wp, assert_. by destruct (b c). Qed.

Lemma keep_alive_calm (c : C) : conn_inv c -> wp poll_read_keep_alive (fun _ c' => calm c c') c.
Proof.
  intros Hi. assert (Hread : wp force_io_read (fun _ c' => calm c c') c).
  { apply wp_intro. intros c' o. apply force_io_read_calm, Hi. }
  assert (Hclose : forall c1 : C, calm c c1 -> calm c (upd st_close_read c1)).
  { intros c1 Hc. etrans; [exact Hc|]. apply calm_upd. cbn. auto 6. }
  unfold poll_read_keep_alive. conn_step. apply wp_assert_any; [|done]. do 2 conn_step.
  destruct (is_read_closed c); [by conn_step|]. destruct (is_mid_message c).
  - unfold mid_message_detect_eof. conn_step. apply wp_assert_any; [|done]. conn_step. apply wp_assert_any; [|done]. do 2 conn_step.
    destruct (_ || negb _); [by conn_step|]. do 2 conn_step. eapply wp_mono; [exact Hread|]. intros o c1 Hc.
    destruct o as [n|e| | |]; try done. destruct (n =? 0); [|by conn_step]. do 3 conn_step. auto.
  - unfold require_empty_read. conn_step. apply wp_assert_any; [|done]. conn_step. apply wp_assert_any; [|done]. do 2 conn_step.
    destruct (negb _); [by conn_step|]. do 2 conn_step. eapply wp_mono; [exact Hread|]. intros o c1 Hc.
    destruct o as [n|e| | |]; try done. destruct (n =? 0); [|by conn_step]. do 4 conn_step.
    destruct (should_error_on_eof c1); conn_step; auto.
Qed.

(** After a head was read, what follows is its body, if it has one. *)
Definition head_phase (c' : C) (o : outcome Error (option (MessageHead Hm StatusCode * DecodedLength * Wants))) : Prop :=
  match o with
  | Ready (Some (head, l, wants)) => can_read_head c' = false /\ (l = ZERO -> can_read_body c' = false)
  | _ => can_read_body c' = false
  end.

Lemma read_head_msg_phase (c c' : C) msg o :
  rs_ok (read_buf_strategy (c_io c)) -> can_read_body c = false ->
  read_head_msg msg c = (c', o) -> (exists m, o = Ready (Some m)) -> head_phase c' o.
Proof.
  intros Hr Hb Hrun [m ->]. revert Hrun. unfold read_head_msg, on_state, modify, mbind, M_bind, get, mret, M_ret. cbn.
  destruct (decide (pm_decode msg = ZERO)) as [Hz|Hz].
  - match goal with |- context [try_keep_alive ?x] => destruct (try_keep_alive x) as [c1 o1] eqn:Et end.
    apply try_keep_alive_calm in Et as [Hp1 Hp2 _ _]; [|done]. destruct o1 as [[]|e| | |]; try done.
    intros [= <- <-]. split; [|intros _]; apply not_true_iff_false; [intros Hx%Hp1|intros Hx%Hp2]; done.
  - destruct (decoder_new _ _ _) as [d|]; cbn; [|done]. destruct (_ && _); intros [= <- <-]; by split.
Qed.

Lemma on_read_head_error_none (c : C) e :
  wp (on_read_head_error (Z := MessageHead Hm StatusCode * DecodedLength * Wants) e) (fun o _ => forall m, o ≠ Ready (Some m)) c.
Proof.
  unfold on_read_head_error. do 4 conn_step. conn_step. unfold io_write. do 3 conn_step. conn_step.
  destruct (consume_leading_lines_spec (c_io (upd st_close_read c))) as (v & Hv & _). wp_expect Hv. do 3 conn_step.
  destruct (_ || should_error_on_eof c); [|do 3 conn_step; conn_step; done].
  conn_step. apply wp_intro. intros c' o _. by destruct o as [[]| | | |].
Qed.

Lemma poll_read_head_phase (c c' : C) o :
  conn_inv c -> can_read_head c = true -> poll_read_head c = (c', o) -> head_phase c' o.
Proof.
  intros Hi Hcan Hp. pose proof (wp_elim _ _ _ _ _ (poll_read_head_spec c Hi Hcan) Hp) as [_ Hpost].
  destruct o as [[[[head l] wants]|]|e| | |]; try done; unfold head_phase, can_read_body;
    [|destruct Hpost as [-> _]; done|rewrite Hpost; done].
  revert Hp. unfold poll_read_head, assert_, mbind, M_bind, match_ready. rewrite Hcan.
  unfold can_read_head in Hcan. destruct (reading (c_state c)) eqn:Er; try done. destruct Hi as [[_ Hwr _] Hpi Hwb Hrs].
  unfold conn_parse. set (p := MkParseIo _ _ _).
  assert (Hpo : partial_ok (pi_io p)).
  { intros n Hn. unfold partial_inv in Hpi. rewrite Er in Hpi. simpl in Hn. rewrite Hn in Hpi. apply Hpi. }
  pose proof (parse_loop_spec (S (length (incoming (io (pi_io p))))) (parse_context (c_state c)) p Hrs Hpo ltac:(lia)) as Hpost'.
  unfold wp in Hpost'. change (parse_loop _ _ p) with (parse (parse_context (c_state c)) p) in Hpost'.
  destruct (parse (parse_context (c_state c)) p) as [p' o']. destruct Hpost' as (_ & [Hrs' _ _ _ _ _] & _).
  destruct o' as [msg|e| | |]; try done; intros Hrun.
  - refine (read_head_msg_phase _ _ _ _ _ _ Hrun _); [done| |by eauto]. unfold can_read_body. cbn. by rewrite Er.
  - by destruct (wp_elim _ _ _ _ _ (on_read_head_error_none _ e) Hrun (head, l, wants)).
Qed.

(** ** Writing *)

Lemma wp_expect_any {E A} (x : option A) (Q : outcome E A -> C -> Prop) c :
  (forall a, Q (Ready a) c) -> Q Panicked c -> wp (expect x) Q c.
Proof. intros Ha Hp. by destruct x; [apply Ha|]. Qed.

(** Trailers leave reading alone. *)
Lemma write_trailers_reading {E} cap (trailers : Hm) (c : C) :
  wp (E := E) (write_trailers cap trailers) (fun _ c' => reading (c_state c') = reading (c_state c)) c.
Proof.
  unfold write_trailers. conn_step. apply wp_assert_any; [|done]. do 2 conn_step.
  destruct (writing (c_state c)); try done. conn_step. apply wp_expect_any; [|done]. intros r.
  destruct r; [|by conn_step]. conn_step. unfold io_write. do 3 conn_step. apply wp_expect_any; [|done]. intros b.
  do 2 conn_step. done.
Qed.
End phase.
