(* ===== verification/DispatchChan.v ===== *)
(** * DispatchChan

    [dispatch.rs]: the channel requests travel through, from the handle that
    sends them to the connection, and the callbacks their responses come back
    by.

    The queue ([tokio::sync::mpsc], unbounded) and the demand signal ([want])
    are code of other crates: [Mpsc] and [Want] are their interfaces. Of a
    callback ([tokio::sync::oneshot]) the model keeps what this code does with
    it: the answers sent on it, and whether the caller has given up. *)

From stdpp Require Import prelude strings.
From Stdlib Require Import ZArith Lia.
From S2P Require Import Prelude Errors.
Local Open Scope Z_scope.

(** ** Interfaces of other crates *)

(** An unbounded queue, seen from both ends. *)
Class Mpsc (Q : Type -> Type) : Type := {
  mpsc_new {A} : Q A;
  (** [UnboundedSender::send]; [None]: the receiver is gone or has closed it *)
  mpsc_send {A} : A -> Q A -> option (Q A);
  (** [poll_recv]: [None] is "not yet", [Some None] the end *)
  mpsc_poll_recv {A} : Q A -> Q A * option (option A);
  (** [UnboundedReceiver::close] *)
  mpsc_close {A} : Q A -> Q A;
  (** dropping the receiver drops what is queued *)
  mpsc_drop {A} : Q A -> Q A * list A;
}.

(** What tokio documents of it. *)
Class MpscLaws (Q : Type -> Type) `{Mpsc Q} : Type := {
  mpsc_items {A} : Q A -> list A;
  mpsc_closed {A} : Q A -> bool;
  (** all senders are gone *)
  mpsc_abandoned {A} : Q A -> bool;
  mpsc_new_spec {A} : mpsc_items (mpsc_new (A := A)) = [] /\ mpsc_closed (mpsc_new (A := A)) = false;
  mpsc_send_spec {A} (a : A) q :
    match mpsc_send a q with
    | Some q' => mpsc_closed q = false /\ mpsc_closed q' = false /\ mpsc_items q' = mpsc_items q ++ [a]
    | None => mpsc_closed q = true
    end;
  mpsc_poll_recv_spec {A} (q q' : Q A) r :
    mpsc_poll_recv q = (q', r) ->
    mpsc_closed q' = mpsc_closed q /\
    match r with
    | Some (Some a) => mpsc_items q = a :: mpsc_items q'
    | Some None => mpsc_items q = [] /\ mpsc_items q' = [] /\ (mpsc_closed q = true \/ mpsc_abandoned q = true)
    | None => mpsc_items q = [] /\ mpsc_items q' = [] /\ mpsc_closed q = false /\ mpsc_abandoned q = false
    end;
  mpsc_close_spec {A} (q : Q A) : mpsc_closed (mpsc_close q) = true /\ mpsc_items (mpsc_close q) = mpsc_items q;
  mpsc_drop_spec {A} (q q' : Q A) l :
    mpsc_drop q = (q', l) -> l = mpsc_items q /\ mpsc_items q' = [] /\ mpsc_closed q' = true;
}.

(** The demand signal between a giver and a taker. *)
Class Want (W : Type) : Type := {
  want_new : W;
  taker_want : W -> W;
  taker_cancel : W -> W;
  (** [Giver::give]: whether the taker was wanting; it is not any more *)
  giver_give : W -> W * bool;
  giver_poll_want : W -> W * outcome unit unit;
  giver_is_wanting : W -> bool;
  giver_is_canceled : W -> bool;
}.

(** What [want] documents of it. *)
Class WantLaws (W : Type) `{Want W} : Prop := {
  want_new_spec : giver_is_wanting want_new = false /\ giver_is_canceled want_new = false;
  taker_want_spec w : giver_is_canceled (taker_want w) = giver_is_canceled w /\
    giver_is_wanting (taker_want w) = negb (giver_is_canceled w);
  taker_cancel_spec w : giver_is_canceled (taker_cancel w) = true /\ giver_is_wanting (taker_cancel w) = false;
  giver_give_spec w : (giver_give w).2 = giver_is_wanting w /\ giver_is_wanting (giver_give w).1 = false /\
    giver_is_canceled (giver_give w).1 = giver_is_canceled w;
  giver_poll_want_spec w :
    giver_is_wanting (giver_poll_want w).1 = giver_is_wanting w /\
    giver_is_canceled (giver_poll_want w).1 = giver_is_canceled w /\
    (giver_poll_want w).2 = (if giver_is_wanting w then Ready tt else if giver_is_canceled w then Failed tt else Pending);
}.

Section dispatch.
Context {Q : Type -> Type} `{Mpsc Q} {W : Type} `{Want W} {T U : Type}.

(** [struct TrySendError]. *)
Record TrySendError : Type := MkTrySendError { tse_error : Error; tse_message : option T }.

Abbreviation answer := (result TrySendError U).

(** A callback's other end: the answers sent so far, and whether the caller has
    dropped its receiver. *)
Record Promise : Type := MkPromise { answers : list answer; canceled : bool }.

(** A request and its callback, by the callback's number: [Envelope]. *)
Abbreviation Envelope := (T * nat)%type.

(** Both halves of the channel, and the callbacks made on it. *)
Record Channel : Type := MkChannel {
  inner : Q Envelope;
  demand : W;
  buffered_once : bool;
  promises : list Promise;
}.

Definition set_inner x (d : Channel) : Channel := MkChannel x (demand d) (buffered_once d) (promises d).
Definition set_demand x (d : Channel) : Channel := MkChannel (inner d) x (buffered_once d) (promises d).
Definition set_buffered_once x (d : Channel) : Channel := MkChannel (inner d) (demand d) x (promises d).
Definition set_promises x (d : Channel) : Channel := MkChannel (inner d) (demand d) (buffered_once d) x.

(** [channel]. *)
Definition dispatch_channel : Channel := MkChannel mpsc_new want_new false [].

(** ** [Callback] *)

(** [Callback::send]. *)
Definition cb_send (cb : nat) (val : answer) (d : Channel) : Channel :=
  set_promises (alter (fun p => MkPromise (answers p ++ [val]) (canceled p)) cb (promises d)) d.

(** [Callback::poll_canceled], [Callback::is_canceled]. *)
Definition cb_canceled (cb : nat) (d : Channel) : bool :=
  match promises d !! cb with Some p => canceled p | None => false end.

(** [dispatch_gone]. *)
Definition dispatch_gone (panicking : bool) : Error :=
  err_with (CauseText (if panicking then "user code panicked" else "runtime dropped the dispatch task")) new_user_dispatch_gone.

(** [Drop for Callback], of one that has not been sent on. *)
Definition cb_drop (panicking : bool) (cb : nat) (d : Channel) : Channel :=
  cb_send cb (Err (MkTrySendError (dispatch_gone panicking) None)) d.

(** [Drop for Envelope], of one that has not been taken. *)
Definition envelope_drop (e : Envelope) (d : Channel) : Channel :=
  cb_send e.2 (Err (MkTrySendError (err_with (CauseText "connection closed") new_canceled) (Some e.1))) d.

(** ** [Sender] *)

(** [poll_ready]. *)
Definition ds_poll_ready : M Channel Error unit := fun d =>
  match giver_poll_want (demand d) with
  | (w, o) => map_err (fun _ => new_closed) (fun d => (d, o)) (set_demand w d)
  end.

(** [is_ready]. *)
Definition ds_is_ready (d : Channel) : bool := giver_is_wanting (demand d).

(** The end both versions of [try_send] share: a callback for the request. *)
Definition send_envelope (val : T) : M Channel T nat := fun d =>
  let cb := length (promises d) in
  match mpsc_send (val, cb) (inner d) with
  | Some q => (set_promises (promises d ++ [MkPromise [] false]) (set_inner q d), Ready cb)
  | None => (d, Failed val)
  end.

(** [try_send]. *)
Definition ds_try_send (val : T) : M Channel T nat := fun d =>
  let '(w, wanted) := giver_give (demand d) in
  let d := set_demand w d in
  if wanted || negb (buffered_once d) then send_envelope val (set_buffered_once true d)
  else (d, Failed val).

(** [UnboundedSender]: [is_ready], [is_closed], [try_send]. *)
Definition unbounded_is_ready (d : Channel) : bool := negb (giver_is_canceled (demand d)).
Definition unbounded_is_closed (d : Channel) : bool := giver_is_canceled (demand d).
Definition unbounded_try_send (val : T) : M Channel T nat := send_envelope val.

(** ** [Receiver] *)

(** [poll_recv]. *)
Definition ds_poll_recv {E} : M Channel E (option Envelope) := fun d =>
  match mpsc_poll_recv (inner d) with
  | (q, Some item) => (set_inner q d, Ready item)
  | (q, None) => (set_demand (taker_want (demand d)) (set_inner q d), Pending)
  end.

(** [close]. *)
Definition ds_close (d : Channel) : Channel := set_inner (mpsc_close (inner d)) (set_demand (taker_cancel (demand d)) d).

(** [try_recv]. *)
Definition ds_try_recv (d : Channel) : Channel * option Envelope :=
  match mpsc_poll_recv (inner d) with
  | (q, Some (Some e)) => (set_inner q d, Some e)
  | (q, _) => (set_inner q d, None)
  end.

(** [Drop for Receiver], and then the queue with what it holds. *)
Definition ds_receiver_drop (d : Channel) : Channel :=
  let d := set_demand (taker_cancel (demand d)) d in
  match mpsc_drop (inner d) with
  | (q, es) => foldl (fun d e => envelope_drop e d) (set_inner q d) es
  end.

(** The caller drops its end of a callback. *)
Definition ds_give_up (cb : nat) (d : Channel) : Channel :=
  set_promises (alter (fun p => MkPromise (answers p) true) cb (promises d)) d.

(** ** [TrySendError] *)

(** [take_message], [message], [into_error], [error]. *)
Definition take_message (e : TrySendError) : TrySendError * option T := (MkTrySendError (tse_error e) None, tse_message e).
End dispatch.
Arguments TrySendError : clear implicits.
Arguments Promise : clear implicits.
Arguments Channel Q W T U : clear implicits.
