(* ===== verification/BodyChan.v ===== *)
(** * BodyChan

    [body/chan.rs] and the HTTP/1 side of [body/incoming.rs]: the channel a
    response body travels through, from the connection that reads it to the
    user that polls it.

    A channel is one state that the operations of both halves act on; the
    flags a half keeps to itself ([trailers_sent], [terminated]) are fields of
    it. A call of [wake] on one of the two wakers is counted. *)

From stdpp Require Import prelude strings relations.
From Stdlib Require Import ZArith Lia.
From S2P Require Import Prelude Bytes Errors Length Decode.
Local Open Scope Z_scope.

Section chan.
Context {Hm : Type}.

(** [struct State] behind the mutex, the halves' own flags and the wake-ups. *)
Record Chan : Type := MkChan {
  item : option (result Error bytes);
  pending_error : option Error;
  trailers : option Hm;
  sender_open : bool;
  receiver_open : bool;
  want : bool;
  trailers_sent : bool;
  terminated : bool;
  sender_wakes : nat;
  receiver_wakes : nat;
}.

Definition set_item x (s : Chan) : Chan := MkChan x (pending_error s) (trailers s) (sender_open s) (receiver_open s) (want s) (trailers_sent s) (terminated s) (sender_wakes s) (receiver_wakes s).
Definition set_pending_error x (s : Chan) : Chan := MkChan (item s) x (trailers s) (sender_open s) (receiver_open s) (want s) (trailers_sent s) (terminated s) (sender_wakes s) (receiver_wakes s).
Definition set_trailers x (s : Chan) : Chan := MkChan (item s) (pending_error s) x (sender_open s) (receiver_open s) (want s) (trailers_sent s) (terminated s) (sender_wakes s) (receiver_wakes s).
Definition set_sender_open x (s : Chan) : Chan := MkChan (item s) (pending_error s) (trailers s) x (receiver_open s) (want s) (trailers_sent s) (terminated s) (sender_wakes s) (receiver_wakes s).
Definition set_receiver_open x (s : Chan) : Chan := MkChan (item s) (pending_error s) (trailers s) (sender_open s) x (want s) (trailers_sent s) (terminated s) (sender_wakes s) (receiver_wakes s).
Definition set_want x (s : Chan) : Chan := MkChan (item s) (pending_error s) (trailers s) (sender_open s) (receiver_open s) x (trailers_sent s) (terminated s) (sender_wakes s) (receiver_wakes s).
Definition set_trailers_sent x (s : Chan) : Chan := MkChan (item s) (pending_error s) (trailers s) (sender_open s) (receiver_open s) (want s) x (terminated s) (sender_wakes s) (receiver_wakes s).
Definition set_terminated x (s : Chan) : Chan := MkChan (item s) (pending_error s) (trailers s) (sender_open s) (receiver_open s) (want s) (trailers_sent s) x (sender_wakes s) (receiver_wakes s).
Definition wake_sender (s : Chan) : Chan := MkChan (item s) (pending_error s) (trailers s) (sender_open s) (receiver_open s) (want s) (trailers_sent s) (terminated s) (S (sender_wakes s)) (receiver_wakes s).
Definition wake_receiver (s : Chan) : Chan := MkChan (item s) (pending_error s) (trailers s) (sender_open s) (receiver_open s) (want s) (trailers_sent s) (terminated s) (sender_wakes s) (S (receiver_wakes s)).

(** [channel]. *)
Definition channel (wanter : bool) : Chan := MkChan None None None true true (negb wanter) false false 0 0.

(** ** [Sender] *)

(** [poll_ready]. *)
Definition chan_poll_ready : M Chan Error unit :=
  state ← get;
  if negb (receiver_open state) then fail new_closed
  else if want state && bool_decide (item state = None) && bool_decide (pending_error state = None) then mret tt
  else pend.

(** [send_data]: the chunk comes back when there is no room for it. *)
Definition send_data (chunk : bytes) : M Chan bytes unit :=
  state ← get;
  if negb (receiver_open state) || negb (want state) || negb (bool_decide (item state = None))
     || negb (bool_decide (pending_error state = None))
  then fail chunk
  else modify (fun s => wake_receiver (set_item (Some (Ok chunk)) s)).

(** [send_trailers]. *)
Definition send_trailers (ts : Hm) : M Chan (option Hm) unit :=
  state ← get;
  if trailers_sent state then fail None
  else
    modify (set_trailers_sent true);;
    if negb (receiver_open state) then fail (Some ts)
    else modify (fun s => wake_receiver (set_trailers (Some ts) s)).

(** [send_error]. *)
Definition send_error {E} (err : Error) : M Chan E unit :=
  state ← get;
  if negb (receiver_open state) then mret tt
  else modify (fun s =>
    wake_receiver
      match item s, pending_error s with
      | None, _ => set_item (Some (Err err)) s
      | Some _, None => set_pending_error (Some err) s
      | Some _, Some _ => s
      end).

(** [Drop for Sender]. *)
Definition sender_drop {E} : M Chan E unit :=
  modify (fun s => (if receiver_open s then wake_receiver else id) (set_sender_open false s)).

(** ** [Receiver] *)

(** [poll_next]; [Ready None] is the end of the data. *)
Definition poll_next : M Chan Error (option bytes) :=
  r ← get;
  if terminated r then mret None
  else
    let wake := negb (want r) in
    modify (set_want true);;
    match item r with
    | Some it =>
        modify (fun s => (if sender_open s then wake_sender else id) (set_item None s));;
        match it with Ok chunk => mret (Some chunk) | Err e => fail e end
    | None =>
        match pending_error r with
        | Some err =>
            modify (fun s => (if wake then wake_sender else id) (set_pending_error None s));;
            fail err
        | None =>
            modify (if wake then wake_sender else id);;
            if sender_open r then pend else modify (set_terminated true);; mret None
        end
    end.

(** [take_trailers], with its [debug_assert!]. *)
Definition take_trailers {E} : M Chan E (option Hm) :=
  r ← get;
  if negb (terminated r) then panic
  else modify (set_trailers None);; mret (trailers r).

(** [Drop for Receiver]. *)
Definition receiver_drop {E} : M Chan E unit :=
  modify (fun s => (if sender_open s then wake_sender else id) (set_receiver_open false s)).

(** ** [Incoming] *)

(** [Kind::H1] and [Kind::Empty]; a channel is named by its place among the
    channels of its connection. *)
Inductive Incoming : Type := InH1 (rx : nat) (content_length : DecodedLength) | InEmpty.

(** [poll_frame] of [Kind::H1], over its channel and its [content_length]. *)
Definition h1_poll_frame : M (Chan * DecodedLength) Error (option (Frame Hm)) :=
  chunk ← zoom fst (fun c s => (c, s.2)) poll_next;
  match chunk with
  | Some chunk =>
      s ← get;
      l ← expect (sub_if (len chunk) s.2);
      modify (fun s => (s.1, l));;
      mret (Some (Data chunk))
  | None =>
      ts ← zoom fst (fun c s => (c, s.2)) take_trailers;
      mret (Trailers <$> ts)
  end.

(** [is_end_stream] and the exact size of [size_hint]. *)
Definition incoming_is_end_stream (i : Incoming) : bool :=
  match i with InH1 _ l => bool_decide (l = ZERO) | InEmpty => true end.
Definition incoming_size_hint (i : Incoming) : option Z :=
  match i with InH1 _ l => into_opt l | InEmpty => Some 0 end.
End chan.
Arguments Chan : clear implicits.

(** ** Laws

    The body channel is a queue: what its sender was allowed to put in comes
    out once, in order, errors after the data accepted before them and trailers
    after the data; and neither half waits for the other in vain. *)

Section laws.
Context {Hm : Type}.
Implicit Type s : Chan Hm.

Abbreviation event := (result Error bytes).

(** What the channel holds for the receiver, in order. *)
Definition in_flight s : list event := option_list (item s) ++ option_list (Err <$> pending_error s).

(** What one call adds to what was sent, or to what was received. *)
Definition sent_data (b : bytes) (o : outcome bytes unit) : list event :=
  match o with Ready _ => [Ok b] | _ => [] end.
Definition sent_error s (e : Error) : list event :=
  if receiver_open s then [Err e] else [].
Definition sent_trailers (t : Hm) (o : outcome (option Hm) unit) : list Hm :=
  match o with Ready _ => [t] | _ => [] end.
Definition received (o : outcome Error (option bytes)) : list event :=
  match o with Ready (Some b) => [Ok b] | Failed e => [Err e] | _ => [] end.
Definition received_trailers (o : outcome Error (option Hm)) : list Hm :=
  match o with Ready (Some t) => [t] | _ => [] end.

(** The steps of the receiver, with what each receives: of the data, and of the
    trailers. *)
Inductive receiver_step s : list event -> list Hm -> Chan Hm -> Prop :=
| step_next s' o : receiver_open s = true -> poll_next s = (s', o) -> receiver_step s (received o) [] s'
| step_take s' o : receiver_open s = true -> terminated s = true -> take_trailers s = (s', o) -> receiver_step s [] (received_trailers o) s'
| step_receiver_drop s' o : receiver_open s = true -> receiver_drop (E := Error) s = (s', o) -> receiver_step s [] [] s'.

(** The steps of the sender, with what each adds. A sender does not report an
    error while another one is queued: its owners drop it after an error. *)
Inductive sender_step s : list event -> list Hm -> Chan Hm -> Prop :=
| step_ready s' o : sender_open s = true -> chan_poll_ready s = (s', o) -> sender_step s [] [] s'
| step_data b s' o : sender_open s = true -> send_data b s = (s', o) -> sender_step s (sent_data b o) [] s'
| step_trailers t s' o : sender_open s = true -> send_trailers t s = (s', o) -> sender_step s [] (sent_trailers t o) s'
| step_error e s' o : sender_open s = true -> pending_error s = None -> send_error (E := Error) e s = (s', o) -> sender_step s (sent_error s e) [] s'
| step_sender_drop s' o : sender_open s = true -> sender_drop (E := Error) s = (s', o) -> sender_step s [] [] s'.

(** A log of what one side did: the data and errors, and the trailers. *)
Record log : Type := Log { log_data : list event; log_trailers : list Hm }.
Definition log_more (l : log) (es : list event) (ts : list Hm) : log := Log (log_data l ++ es) (log_trailers l ++ ts).

(** The two halves run in any order: what was sent and what was received. *)
Inductive chan_run s0 : log -> log -> Chan Hm -> Prop :=
| run_start : chan_run s0 (Log [] []) (Log [] []) s0
| run_sender sent rcvd s es ts s' : chan_run s0 sent rcvd s -> sender_step s es ts s' -> chan_run s0 (log_more sent es ts) rcvd s'
| run_receiver sent rcvd s es ts s' : chan_run s0 sent rcvd s -> receiver_step s es ts s' -> chan_run s0 sent (log_more rcvd es ts) s'.

(** Runs one call of the channel in the hypotheses. *)
Ltac run H :=
  unfold chan_poll_ready, send_data, send_trailers, send_error, sender_drop, poll_next, take_trailers, receiver_drop in H;
  unfold mbind, M_bind, get, modify, mret, M_ret, fail, pend, panic in H; cbn in H.

(** Closes the facts about a channel whose fields are known. *)
Ltac fin := split_and!; intros; rewrite ?app_nil_r; first [done|congruence].

(** A terminated receiver has nothing left, and its sender is gone. *)
Definition chan_inv s : Prop := terminated s = true -> sender_open s = false /\ item s = None /\ pending_error s = None.

Lemma sender_step_spec s es ts s' :
  chan_inv s -> sender_step s es ts s' ->
  chan_inv s' /\ in_flight s' = in_flight s ++ es /\ (sender_open s' = false -> es = []) /\ terminated s' = terminated s.
Proof.
  intros Hi Hst. assert (Ht : sender_open s = true -> terminated s = false).
  { intros Hs. destruct (terminated s) eqn:E; [|done]. destruct (Hi E). congruence. }
  destruct s as [it pe tr so ro w sent te sw rw]. destruct Hst as [s' o Hs H|b s' o Hs H|t s' o Hs H|e s' o Hs Hpe H|s' o Hs H];
    cbn in *; specialize (Ht Hs); subst; unfold chan_inv, in_flight; cbn; unfold sent_error; cbn; run H.
  - destruct ro, w, it, pe; cbn in H; injection H as <- <-; cbn; fin.
  - destruct ro, w, it, pe; cbn in H; injection H as <- <-; cbn; fin.
  - destruct sent, ro; cbn in H; injection H as <- <-; cbn; fin.
  - destruct ro, it; cbn in H; injection H as <- <-; cbn; fin.
  - destruct ro; cbn in H; injection H as <- <-; cbn; fin.
Qed.

Lemma receiver_step_spec s es ts s' :
  chan_inv s -> receiver_step s es ts s' -> chan_inv s' /\ in_flight s = es ++ in_flight s'.
Proof.
  intros Hi Hst. destruct s as [it pe tr so ro w sent te sw rw].
  destruct Hst as [s' o Hr H|s' o Hr Ht H|s' o Hr H]; unfold chan_inv, in_flight in *; cbn in *; subst; run H.
  - destruct te; cbn in H; [injection H as <- <-; by split|].
    destruct it as [[]|], pe, so, w; cbn in H; injection H as <- <-; cbn; by split.
  - injection H as <- <-. by split.
  - destruct so; injection H as <- <-; by split.
Qed.

(** The trailers are put in once, and taken once. *)
Lemma sender_step_trailers s es ts s' : (trailers_sent s = false -> trailers s = None) -> sender_step s es ts s' ->
  option_list (trailers s') = option_list (trailers s) ++ ts /\ (ts ≠ [] -> trailers_sent s = false) /\ (length ts <= 1)%nat /\
  (trailers_sent s' = false -> trailers_sent s = false /\ ts = []).
Proof.
  destruct s as [it pe tr so ro w sent te sw rw]. intros Hi Hst.
  destruct Hst as [s' o Hs H|b s' o Hs H|t s' o Hs H|e s' o Hs Hpe H|s' o Hs H]; cbn in *; run H.
  - destruct ro, w, it, pe; cbn in H; injection H as <- <-; cbn; rewrite ?app_nil_r; split_and!; try done; lia.
  - destruct ro, w, it, pe; cbn in H; injection H as <- <-; cbn; rewrite ?app_nil_r; split_and!; try done; lia.
  - destruct sent; [|specialize (Hi eq_refl); subst tr; destruct ro]; cbn in H; injection H as <- <-; cbn; rewrite ?app_nil_r; split_and!; try done; lia.
  - destruct ro, it, pe; cbn in H; injection H as <- <-; cbn; rewrite ?app_nil_r; split_and!; try done; lia.
  - destruct ro; cbn in H; injection H as <- <-; cbn; rewrite ?app_nil_r; split_and!; try done; lia.
Qed.

Lemma receiver_step_trailers s es ts s' : receiver_step s es ts s' ->
  option_list (trailers s) = ts ++ option_list (trailers s') /\ trailers_sent s' = trailers_sent s.
Proof.
  destruct s as [it pe tr so ro w sent te sw rw]. intros Hst. destruct Hst as [s' o Hr H|s' o Hr Ht H|s' o Hr H]; cbn in *; subst; run H.
  - destruct te, it as [[]|], pe, so, w; cbn in H; injection H as <- <-; by split.
  - injection H as <- <-. by destruct tr.
  - destruct so; injection H as <- <-; by split.
Qed.

Lemma chan_run_spec w sent rcvd s : chan_run (channel w) sent rcvd s -> chan_inv s /\ log_data sent = log_data rcvd ++ in_flight s.
Proof.
  induction 1 as [|sent rcvd s es ts s' _ [Hi IH] Hst|sent rcvd s es ts s' _ [Hi IH] Hst]; [by split| |]; cbn [log_more log_data].
  - destruct (sender_step_spec _ _ _ _ Hi Hst) as (Hi' & Hf & _). split; [done|]. by rewrite IH, Hf, app_assoc.
  - destruct (receiver_step_spec _ _ _ _ Hi Hst) as (Hi' & Hf). split; [done|]. by rewrite <-app_assoc, IH, Hf.
Qed.

Lemma chan_run_trailers w sent rcvd s : chan_run (channel w) sent rcvd s ->
  log_trailers sent = log_trailers rcvd ++ option_list (trailers s) /\ (length (log_trailers sent) <= 1)%nat /\
  (trailers_sent s = false -> log_trailers sent = []).
Proof.
  induction 1 as [|sent rcvd s es ts s' _ (IH & Hl & Hn) Hst|sent rcvd s es ts s' _ (IH & Hl & Hn) Hst]; [by split_and!; cbn; [|lia|]| |]; cbn [log_more log_trailers].
  - assert (Hin : trailers_sent s = false -> trailers s = None).
    { intros Hs. rewrite (Hn Hs) in IH. symmetry in IH. apply app_nil in IH as [_ IH]. by destruct (trailers s). }
    destruct (sender_step_trailers _ _ _ _ Hin Hst) as (Hf & Hs & Hle & Hs'). rewrite Hf, app_assoc, IH. split; [done|].
    rewrite <-IH, length_app. destruct ts as [|t ts]; [rewrite app_nil_r; cbn; split; [lia|naive_solver]|]. rewrite (Hn (Hs ltac:(done))). split; [cbn in *; lia|].
    intros Hf'. by destruct (Hs' Hf').
  - destruct (receiver_step_trailers _ _ _ _ Hst) as (Hf & ->). by rewrite <-app_assoc, <-Hf.
Qed.

(** ** Claims *)

(** C35. The body channel is a queue. However the calls of its two halves
    interleave, the chunks and errors the sender put in are those the receiver
    got, in order, followed by the at most two it has not asked for yet;
    nothing is lost, repeated or reordered, and an error never displaces data.
    The receiver sees the end of the data exactly when the sender is gone and
    everything was received. Trailers are accepted at most once, and those the
    sender put in are those the receiver took or still finds: at the end of the
    data, the next frame of the body is the trailers, if they were sent and not
    yet taken, and the end of the body otherwise. *)
Theorem body_channel_fifo w sent rcvd s l :
  chan_run (channel w) sent rcvd s ->
  log_data sent = log_data rcvd ++ in_flight s /\ (length (in_flight s) <= 2)%nat /\
  ((poll_next s).2 = Ready None <-> sender_open s = false /\ log_data sent = log_data rcvd) /\
  (length (log_trailers sent) <= 1)%nat /\ (exists left, log_trailers sent = log_trailers rcvd ++ left /\
    ((poll_next s).2 = Ready None -> (h1_poll_frame (s, l)).2 = Ready (Trailers <$> head left))).
Proof.
  intros Hr. destruct (chan_run_spec _ _ _ _ Hr) as [Hi Hd]. destruct (chan_run_trailers _ _ _ _ Hr) as (Ht & Hl & _). rewrite Hd. clear Hr Hd.
  split; [done|]. split; [destruct s as [it pe tr so ro wt ts te sw rw]; unfold in_flight; by destruct it, pe; cbn; lia|].
  split; [|split; [done|exists (option_list (trailers s)); split; [done|]]].
  - destruct s as [it pe tr so ro wt ts te sw rw]. unfold chan_inv, in_flight in *. cbn in *.
    unfold poll_next, mbind, M_bind, get, modify, mret, M_ret, fail, pend. cbn.
    assert (Hnil : forall l : list event, (log_data rcvd ++ l = log_data rcvd) <-> l = []).
    { intros l'. split; [|intros ->; by rewrite app_nil_r]. intros E. apply (f_equal length) in E. rewrite length_app in E. by destruct l'; [|cbn in E; lia]. }
    rewrite Hnil. destruct te; cbn; [destruct Hi as (-> & -> & ->); done|].
    destruct it as [[]|], pe, so, wt; cbn; naive_solver.
  - destruct s as [it pe tr so ro wt ts te sw rw]. cbn [trailers]. unfold h1_poll_frame, poll_next, take_trailers, zoom, mbind, M_bind, get, modify, mret, M_ret, fail, pend, panic. cbn.
    destruct te, it as [[]|], pe, so, wt; cbn; try done; by destruct tr.
Qed.

(** Neither half of a body channel waits for ever on the other. A receiver
    that has to wait leaves the sender ready to send; a step of the sender
    after which the receiver need not wait any more wakes it; and a step of the
    receiver after which the sender need not wait any more wakes the sender,
    while no error is queued behind a chunk. *)
Theorem body_channel_live s s' es ts :
  (receiver_open s = true -> poll_next s = (s', Pending) -> chan_poll_ready s' = (s', Ready tt)) /\
  (sender_step s es ts s' -> (poll_next s).2 = Pending -> (poll_next s').2 ≠ Pending ->
    receiver_open s = true -> (receiver_wakes s < receiver_wakes s')%nat) /\
  (receiver_step s es ts s' -> chan_poll_ready s = (s, Pending) -> (chan_poll_ready s').2 ≠ Pending ->
    sender_open s = true -> pending_error s = None -> (sender_wakes s < sender_wakes s')%nat).
Proof.
  destruct s as [it pe tr so ro wt sent te sw rw]. cbn [receiver_open sender_open pending_error receiver_wakes sender_wakes]. split_and!.
  - intros -> H. run H. destruct te, it as [[]|], pe, so, wt; cbn in H; try discriminate H; injection H as <-; done.
  - intros Hst Hp Hn ->. run Hp. destruct te, it as [[]|], pe, so; cbn in Hp; try discriminate Hp.
    destruct Hst as [s' o Hs H|b s' o Hs H|t s' o Hs H|e s' o Hs Hpe H|s' o Hs H]; run H;
      [destruct wt|destruct wt|destruct sent|idtac|idtac]; cbn in H; injection H as <- <-; cbn; try lia; by destruct Hn.
  - intros Hst Hp Hn -> ->. run Hp. destruct ro, wt, it; cbn in Hp; try discriminate Hp;
    destruct Hst as [s' o Hs H|s' o Hs Ht H|s' o Hs H]; run H; try done; cbn in Hs;
      try destruct te; cbn in H; try destruct r; cbn in H; injection H as <- <-; cbn; try lia; by destruct Hn.
Qed.
End laws.

(** ** Examples *)

Section examples.

(** A chunk and trailers are sent, and received. *)
Definition chan_1 : Chan bytes := (poll_next (channel false)).1.
Definition chan_2 : Chan bytes := (send_data [1; 2] chan_1).1.
Definition chan_3 : Chan bytes := (send_trailers [9] chan_2).1.
Definition chan_4 : Chan bytes := (sender_drop (E := Error) chan_3).1.
Definition chan_5 : Chan bytes := (poll_next chan_4).1.

Lemma chan_5_run : chan_run (channel false) (Log [Ok [1; 2]] [[9]]) (Log [Ok [1; 2]] []) chan_5.
Proof.
  apply (run_receiver _ (Log [Ok [1; 2]] [[9]]) (Log [] []) chan_4 [Ok [1; 2]] []); [|by apply (step_next chan_4 chan_5 (Ready (Some [1; 2])))].
  apply (run_sender _ (Log [Ok [1; 2]] [[9]]) (Log [] []) chan_3 [] []); [|by apply (step_sender_drop chan_3 chan_4 (Ready tt))].
  apply (run_sender _ (Log [Ok [1; 2]] []) (Log [] []) chan_2 [] [[9]]); [|by apply (step_trailers chan_2 [9] chan_3 (Ready tt))].
  apply (run_sender _ (Log [] []) (Log [] []) chan_1 [Ok [1; 2]] []); [|by apply (step_data chan_1 [1; 2] chan_2 (Ready tt))].
  apply (run_receiver _ (Log [] []) (Log [] []) (channel false) [] []); [apply run_start|by apply (step_next (channel false) chan_1 Pending)].
Qed.

Lemma body_channel_fifo_witness : (poll_next chan_5).2 = Ready None /\ (h1_poll_frame (chan_5, CHUNKED)).2 = Ready (Some (Trailers [9])).
Proof.
  split; [vm_compute; reflexivity|].
  destruct (body_channel_fifo false (Log [Ok [1; 2]] [[9]]) (Log [Ok [1; 2]] []) chan_5 CHUNKED chan_5_run) as (_ & _ & _ & _ & left & Hl & Hf).
  cbn in Hl. subst left. apply Hf. vm_compute. reflexivity.
Defined.

Lemma body_channel_live_witness : (receiver_wakes chan_1 < receiver_wakes chan_2)%nat.
Proof.
  destruct (body_channel_live chan_1 chan_2 [Ok [1; 2]] []) as (_ & Hsend & _).
  apply Hsend; [by apply (step_data chan_1 [1; 2] chan_2 (Ready tt))|reflexivity|discriminate|reflexivity].
Defined.
End examples.
