(* ===== verification/Client.v ===== *)
(** * Client

    The client's side of the dispatcher of [proto/http1/dispatch.rs]: the trait
    [Dispatch] a connection asks for messages and gives messages to, and
    [Client], which takes requests from the channel of [DispatchChan] and
    answers their callbacks. *)

From stdpp Require Import prelude strings sorting.
From Stdlib Require Import ZArith Lia Sorted.
From S2P Require Import Prelude Bytes Crates Errors Length Message BodyChan DispatchChan.
Local Open Scope Z_scope.

(** ** [trait Dispatch] *)

(** [poll_msg]'s error has gone through [Error::new_user_service]. [recv_msg]
    says whether it dropped the message it was given. *)
Class Dispatch (D Bs Hm : Type) : Type := {
  d_poll_msg : M D Error (option (MessageHead Hm RequestLine * Bs));
  d_recv_msg : result Error (MessageHead Hm StatusCode * Incoming) -> M D Error bool;
  d_poll_ready : M D unit unit;
  d_should_poll : D -> bool;
}.

(** ** [struct Client] *)

Section client.
Context {Q : Type -> Type} `{Mpsc Q} {W : Type} `{Want W} {Bs Hm : Type}.

(** A request as the connection takes it: its head and its body. *)
Abbreviation Request := (MessageHead Hm RequestLine * Bs)%type.
Abbreviation Response := (MessageHead Hm StatusCode * Incoming)%type.
Abbreviation Rx := (Channel Q W Request Response).

Record Client : Type := MkClient { callback : option nat; rx : Rx; rx_closed : bool }.

Definition set_rx x (c : Client) : Client := MkClient (callback c) x (rx_closed c).
Definition set_callback x (c : Client) : Client := MkClient x (rx c) (rx_closed c).
Definition set_rx_closed x (c : Client) : Client := MkClient (callback c) (rx c) x.
Definition on_rx (f : Rx -> Rx) (c : Client) : Client := set_rx (f (rx c)) c.

(** [Client::new]. *)
Definition client_new (r : Rx) : Client := MkClient None r false.

(** [self.callback = Some(cb)]: what was there is dropped. *)
Definition replace_callback (cb : nat) (c : Client) : Client :=
  set_callback (Some cb) match callback c with Some old => on_rx (cb_drop false old) c | None => c end.

(** [poll_msg]. *)
Definition client_poll_msg : M Client Error (option Request) :=
  this ← get;
  if rx_closed this then panic
  else
    item ← zoom rx set_rx ds_poll_recv;
    match item with
    | Some (req, cb) =>
        this ← get;
        if cb_canceled cb (rx this) then modify (on_rx (cb_drop false cb));; mret None
        else modify (replace_callback cb);; mret (Some req)
    | None => modify (set_rx_closed true);; mret None
    end.

(** [recv_msg]. An answer to a caller that gave up is dropped. *)
Definition client_recv_msg (msg : result Error Response) : M Client Error bool :=
  this ← get;
  match msg with
  | Ok res =>
      match callback this with
      | Some cb =>
          modify (fun c => on_rx (cb_send cb (Ok res)) (set_callback None c));;
          mret (cb_canceled cb (rx this))
      | None => fail new_unexpected_message
      end
  | Err err =>
      match callback this with
      | Some cb =>
          modify (fun c => on_rx (cb_send cb (Err (MkTrySendError err None))) (set_callback None c));;
          mret false
      | None =>
          if negb (rx_closed this) then
            modify (on_rx ds_close);;
            this ← get;
            match ds_try_recv (rx this) with
            | (r, Some (req, cb)) =>
                modify (set_rx (cb_send cb (Err (MkTrySendError (err_with (error_cause err) new_canceled) (Some req))) r));;
                mret false
            | (r, None) => modify (set_rx r);; fail err
            end
          else fail err
      end
  end.

(** [poll_ready]. *)
Definition client_poll_ready : M Client unit unit :=
  this ← get;
  match callback this with
  | Some cb => if cb_canceled cb (rx this) then fail tt else mret tt
  | None => fail tt
  end.

(** [should_poll]. *)
Definition client_should_poll (c : Client) : bool := match callback c with Some _ => false | None => true end.

#[export] Instance client_Dispatch : Dispatch Client Bs Hm := {
  d_poll_msg := client_poll_msg;
  d_recv_msg := client_recv_msg;
  d_poll_ready := client_poll_ready;
  d_should_poll := client_should_poll;
}.

(** Dropping the client: its callback, then the receiver. *)
Definition client_drop (panicking : bool) (c : Client) : Client :=
  let c := match callback c with Some cb => set_callback None (on_rx (cb_drop panicking cb) c) | None => c end in
  on_rx ds_receiver_drop c.
End client.
Arguments Client : clear implicits.

(** ** Laws

    The life of a request between the handle that sends it and the connection:
    it is taken in its turn or not at all, and its caller is answered exactly
    once, whatever happens to the connection. *)

Section laws.
Context {Q : Type -> Type} `{MpscLaws Q} {W : Type} `{WantLaws W} {Bs Hm : Type}.
Abbreviation Cl := (Client Q W Bs Hm).
Abbreviation Rx := (Channel Q W (MessageHead Hm RequestLine * Bs) (MessageHead Hm StatusCode * Incoming)).
Abbreviation Prom := (Promise (MessageHead Hm RequestLine * Bs) (MessageHead Hm StatusCode * Incoming)).
Abbreviation Answer := (result (TrySendError (MessageHead Hm RequestLine * Bs)) (MessageHead Hm StatusCode * Incoming)).

(** The requests that wait in the channel. *)
Definition queued (r : Rx) : list nat := map snd (mpsc_items (inner r)).

(** The request an answer gives back. *)
Definition gives_back (a : Answer) : bool :=
  match a with Err (MkTrySendError _ (Some _)) => true | _ => false end.
Definition is_response (a : Answer) : bool := match a with Ok _ => true | Err _ => false end.

(** ** Runs *)

(** The calls on a client by the connection and by the callers, with the
    requests the connection has taken, in order. The connection asks for a
    message only when [should_poll] says so and the channel has not ended. *)
Inductive client_run : list nat -> Cl -> Prop :=
| run_new : client_run [] (client_new dispatch_channel)
| run_send taken c val r o :
    client_run taken c -> ds_try_send val (rx c) = (r, o) -> client_run taken (set_rx r c)
| run_give_up taken c cb : client_run taken c -> client_run taken (on_rx (ds_give_up cb) c)
| run_none taken c c' o :
    client_run taken c -> rx_closed c = false -> d_should_poll c = true ->
    d_poll_msg c = (c', o) -> (forall m, o ≠ Ready (Some m)) -> client_run taken c'
| run_take taken c c' m cb :
    client_run taken c -> rx_closed c = false -> d_should_poll c = true ->
    d_poll_msg c = (c', Ready (Some m)) -> callback c' = Some cb -> client_run (taken ++ [cb]) c'
| run_recv taken c c' msg o : client_run taken c -> d_recv_msg msg c = (c', o) -> client_run taken c'.

(** ** The invariant *)

(** How far a request has come: it waits, or its exchange is under way, or it
    was answered, once. *)
Definition waiting (open : bool) (p : Prom) (taken : bool) : Prop :=
  if open then answers p = []
  else exists a, answers p = [a] /\ (if taken then gives_back a = false else is_response a = false).

Lemma waiting_iff P P' R R' `{!Decision P, !Decision P', !Decision R, !Decision R'} p :
  (P <-> P') -> (R <-> R') -> waiting (bool_decide P) p (bool_decide R) -> waiting (bool_decide P') p (bool_decide R').
Proof. intros HP HR. by rewrite (bool_decide_ext P P' HP), (bool_decide_ext R R' HR). Qed.

(** Where the requests [ps] of a channel are: [taken] by the connection, in that
    order, the one of [cb] not answered yet, or waiting in the queue [q]. *)
Record account (taken q : list nat) (cb : option nat) (ps : list Prom) : Prop := {
  ac_sorted : StronglySorted lt (taken ++ q);
  ac_bound : forall id, id ∈ taken ++ q -> (id < length ps)%nat;
  ac_callback : forall id, cb = Some id -> id ∈ taken;
  ac_answers : forall id p, ps !! id = Some p -> waiting (bool_decide (id ∈ q \/ cb = Some id)) p (bool_decide (id ∈ taken));
}.

Definition client_inv (taken : list nat) (c : Cl) : Prop := account taken (queued (rx c)) (callback c) (promises (rx c)).

(** One more answer. *)
Definition answered (a : Answer) (id : nat) (ps : list Prom) : list Prom :=
  alter (fun p => MkPromise (answers p ++ [a]) (canceled p)) id ps.

Lemma sorted_nodup l : StronglySorted lt l -> NoDup l.
Proof.
  induction 1 as [|x l _ IH Hall]; constructor; [|done]. intros Hin. rewrite Forall_forall in Hall. specialize (Hall _ Hin). lia.
Qed.

Lemma taken_not_queued taken q cb ps id : account taken q cb ps -> id ∈ taken -> (id ∉ q).
Proof. intros [Hs _ _ _] Hin Hq. apply sorted_nodup, NoDup_app in Hs as (_ & Hd & _). by apply (Hd id). Qed.

(** Nothing changed but who has given up. *)
Lemma same_account taken q cb ps ps' :
  account taken q cb ps -> length ps' = length ps ->
  (forall id p', ps' !! id = Some p' -> exists p, ps !! id = Some p /\ answers p' = answers p) -> account taken q cb ps'.
Proof.
  intros [Hs Hb Hc Ha] Hl Hp. split; rewrite ?Hl; [done|done|done|].
  intros id p' Hid. destruct (Hp id p' Hid) as (p & Hid' & He). specialize (Ha id p Hid'). unfold waiting in *. by rewrite He.
Qed.

(** A new request. *)
Lemma send_account taken q cb ps : account taken q cb ps -> account taken (q ++ [length ps]) cb (ps ++ [MkPromise [] false]).
Proof.
  intros [Hs Hb Hc Ha]. split; [| |done|].
  - rewrite app_assoc. apply StronglySorted_app_2; [|done|repeat constructor].
    intros id x Hid ->%list_elem_of_singleton. by apply Hb.
  - intros id Hid. rewrite length_app. cbn. rewrite app_assoc, elem_of_app, list_elem_of_singleton in Hid.
    destruct Hid as [Hid| ->]; [specialize (Hb id Hid)|]; lia.
  - intros id p Hid. apply lookup_app_Some in Hid as [Hid|[Hlen Hid]].
    + specialize (Ha id p Hid). apply lookup_lt_Some in Hid.
      eapply waiting_iff, Ha; [|done]. rewrite elem_of_app, list_elem_of_singleton. intuition lia.
    + apply list_lookup_singleton_Some in Hid as [Hid <-]. unfold waiting. rewrite bool_decide_true; [done|].
      left. apply elem_of_app. right. apply list_elem_of_singleton. lia.
Qed.

(** The head of the queue is neither taken nor answered. *)
Lemma queue_head taken id q cb ps :
  account taken (id :: q) cb ps ->
  (id ∉ taken) /\ (id ∉ q) /\ cb ≠ Some id /\ StronglySorted lt ((taken ++ [id]) ++ q) /\
  StronglySorted lt (taken ++ q) /\ (id < length ps)%nat.
Proof.
  intros [Hs Hb Hc _]. pose proof (sorted_nodup _ Hs) as Hnd.
  apply NoDup_app in Hnd as (_ & Hd & Hnd). apply NoDup_cons in Hnd as [Hnq _].
  assert (Hnt : id ∉ taken) by (intros Hin; apply (Hd id Hin), list_elem_of_here).
  split_and!; [done|done|by intros ?%Hc|by rewrite <- app_assoc| |apply Hb; set_solver].
  apply StronglySorted_app in Hs as (Hx & Ht & Hr). apply StronglySorted_app. inversion Hr; subst.
  split_and!; [|done|done]. intros x y ? ?. apply Hx; set_solver.
Qed.

(** The request at the head of the queue is answered without being taken. *)
Lemma answer_queued taken id q cb ps (a : Answer) :
  account taken (id :: q) cb ps -> is_response a = false -> account taken q cb (answered a id ps).
Proof.
  intros Hi Hr. destruct (queue_head _ _ _ _ _ Hi) as (Hnt & Hnq & Hncb & _ & Hs & _). destruct Hi as [_ Hb Hc Ha].
  split; unfold answered; rewrite ?length_alter; [done|intros x Hx; apply Hb; set_solver|done|].
  intros x p Hid. rewrite list_lookup_alter in Hid. case_decide as He.
  - subst x. destruct (ps !! id) as [p0|] eqn:E; [|done]. injection Hid as <-. specialize (Ha _ _ E).
    rewrite bool_decide_true in Ha by (left; apply list_elem_of_here).
    rewrite !bool_decide_false by (done || naive_solver). exists a. cbn. cbn in Ha. by rewrite Ha.
  - specialize (Ha _ _ Hid). eapply waiting_iff, Ha; [|done]. rewrite elem_of_cons. naive_solver.
Qed.

(** The request of the callback is answered. *)
Lemma answer_callback taken id q ps (a : Answer) :
  account taken q (Some id) ps -> gives_back a = false -> account taken q None (answered a id ps).
Proof.
  intros Hi Hg. pose proof (ac_callback _ _ _ _ Hi id eq_refl) as Ht. pose proof (taken_not_queued _ _ _ _ id Hi Ht) as Hnq.
  destruct Hi as [Hs Hb Hc Ha]. split; unfold answered; rewrite ?length_alter; [done|done|done|].
  intros x p Hid. rewrite list_lookup_alter in Hid. case_decide as He.
  - subst x. destruct (ps !! id) as [p0|] eqn:E; [|done]. injection Hid as <-. specialize (Ha _ _ E).
    rewrite bool_decide_true in Ha by (by right). rewrite bool_decide_false, bool_decide_true by (done || naive_solver).
    exists a. cbn. cbn in Ha. by rewrite Ha.
  - specialize (Ha _ _ Hid). eapply waiting_iff, Ha; [naive_solver|done].
Qed.

(** The request at the head of the queue is taken. *)
Lemma take_account taken id q ps : account taken (id :: q) None ps -> account (taken ++ [id]) q (Some id) ps.
Proof.
  intros Hi. destruct (queue_head _ _ _ _ _ Hi) as (Hnt & Hnq & _ & Hs & _ & Hlt). destruct Hi as [_ Hb Hc Ha]. split; [done| | |].
  - intros x Hx. apply Hb. set_solver.
  - intros x [= <-]. set_solver.
  - intros x p Hid. specialize (Ha _ _ Hid). destruct (decide (x = id)) as [->|Hne].
    + rewrite bool_decide_true in Ha by (left; apply list_elem_of_here). rewrite bool_decide_true by (by right). exact Ha.
    + eapply waiting_iff, Ha; [rewrite elem_of_cons; naive_solver|set_solver].
Qed.

(** ** The operations *)

Lemma ds_poll_recv_spec (r r' : Rx) o :
  ds_poll_recv (E := Error) r = (r', o) ->
  promises r' = promises r /\
  match o with
  | Ready (Some (req, cb)) => queued r = cb :: queued r'
  | Ready None | Pending => queued r' = queued r
  | _ => False
  end.
Proof.
  unfold ds_poll_recv. destruct (mpsc_poll_recv (inner r)) as [q res] eqn:Er. destruct (mpsc_poll_recv_spec _ _ _ Er) as [_ Hs].
  destruct res as [[[req cb]|]|]; intros [= <- <-]; (split; [done|]); unfold queued; cbn.
  - by rewrite Hs.
  - by destruct Hs as (-> & -> & _).
  - by destruct Hs as (-> & -> & _).
Qed.

Lemma ds_try_recv_spec (r r' : Rx) o :
  ds_try_recv r = (r', o) ->
  promises r' = promises r /\ match o with Some (req, cb) => queued r = cb :: queued r' | None => queued r' = queued r end.
Proof.
  unfold ds_try_recv. destruct (mpsc_poll_recv (inner r)) as [q res] eqn:Er. destruct (mpsc_poll_recv_spec _ _ _ Er) as [_ Hs].
  destruct res as [[[req cb]|]|]; intros [= <- <-]; (split; [done|]); unfold queued; cbn.
  - by rewrite Hs.
  - by destruct Hs as (-> & -> & _).
  - by destruct Hs as (-> & -> & _).
Qed.

Lemma ds_try_send_inv taken (c : Cl) val r o :
  client_inv taken c -> ds_try_send val (rx c) = (r, o) -> client_inv taken (set_rx r c).
Proof.
  intros Hi. unfold ds_try_send. destruct (giver_give (demand (rx c))) as [w wanted].
  destruct (_ || _); [|by intros [= <- <-]]. unfold send_envelope. cbn.
  pose proof (mpsc_send_spec (val, length (promises (rx c))) (inner (rx c))) as Hs.
  destruct (mpsc_send _ _) as [q|]; intros [= <- <-]; [|done].
  destruct Hs as (_ & _ & Hit). unfold client_inv, queued. cbn. rewrite Hit, map_app. by apply send_account.
Qed.

Lemma give_up_inv taken (c : Cl) cb : client_inv taken c -> client_inv taken (on_rx (ds_give_up cb) c).
Proof.
  intros Hi. unfold client_inv. cbn. eapply same_account; [exact Hi|by rewrite length_alter|].
  intros id p' Hid. rewrite list_lookup_alter in Hid. case_decide as He; [subst id|by eauto].
  destruct (promises (rx c) !! cb) as [p|] eqn:E; [|done]. injection Hid as <-. by exists p.
Qed.

Lemma client_poll_msg_inv taken (c c' : Cl) o :
  client_inv taken c -> rx_closed c = false -> callback c = None -> client_poll_msg c = (c', o) ->
  match o with
  | Ready (Some m) => exists cb, callback c' = Some cb /\ client_inv (taken ++ [cb]) c'
  | Ready None | Pending => client_inv taken c'
  | _ => False
  end.
Proof.
  intros Hi Hc Hcb. unfold client_poll_msg, mbind, M_bind, get, zoom. rewrite Hc.
  destruct (ds_poll_recv (rx c)) as [r res] eqn:Er. destruct (ds_poll_recv_spec _ _ _ Er) as [Hp Hs].
  unfold client_inv in *. rewrite Hcb in Hi. destruct res as [[[req cb]|]|e| | |]; try done.
  - rewrite Hs in Hi. change (cb_canceled cb (rx (set_rx r c))) with (cb_canceled cb r). destruct (cb_canceled cb r); intros [= <- <-].
    + cbn. rewrite Hcb, Hp. by apply (answer_queued _ _ _ _ _ (Err _) Hi).
    + exists cb. unfold replace_callback. cbn. rewrite Hcb. cbn. rewrite Hp. split; [done|]. by apply take_account.
  - intros [= <- <-]. cbn. by rewrite Hcb, Hp, Hs.
  - intros [= <- <-]. cbn. by rewrite Hcb, Hp, Hs.
Qed.

Lemma client_recv_msg_inv taken (c c' : Cl) msg o :
  client_inv taken c -> client_recv_msg msg c = (c', o) -> client_inv taken c'.
Proof.
  intros Hi. unfold client_recv_msg, mbind, M_bind, get, modify, mret, M_ret, fail. unfold client_inv in *.
  destruct msg as [res|err], (callback c) as [cb|] eqn:Hcb.
  - intros [= <- <-]. cbn. by apply (answer_callback _ _ _ _ (Ok _) Hi).
  - intros [= <- <-]. by rewrite Hcb.
  - intros [= <- <-]. cbn. by apply (answer_callback _ _ _ _ (Err _) Hi).
  - destruct (rx_closed c); cbn [negb]; [intros [= <- <-]; by rewrite Hcb|].
    assert (Hq : queued (ds_close (rx c)) = queued (rx c)) by (unfold queued; cbn; by destruct (mpsc_close_spec (inner (rx c))) as [_ ->]).
    cbn [rx on_rx set_rx]. destruct (ds_try_recv (ds_close (rx c))) as [r res] eqn:Er.
    destruct (ds_try_recv_spec _ _ _ Er) as [Hp Hs]. change (promises (ds_close (rx c))) with (promises (rx c)) in Hp. rewrite Hq in Hs.
    destruct res as [[req cb]|]; intros [= <- <-]; cbn; rewrite Hcb, Hp.
    + rewrite Hs in Hi. by apply (answer_queued _ _ _ _ _ (Err _) Hi).
    + by rewrite Hs.
Qed.

Lemma client_run_inv taken c : client_run taken c -> client_inv taken c.
Proof.
  induction 1 as [|taken c val r o _ IH Hs|taken c cb _ IH|taken c c' o _ IH Hc Hp Hmsg Hno|taken c c' m cb _ IH Hc Hp Hmsg Hcb|taken c c' msg o _ IH Hmsg].
  - unfold client_inv, queued. cbn. rewrite (proj1 mpsc_new_spec). cbn. split; [constructor|set_solver|done|done].
  - by eapply ds_try_send_inv.
  - by apply give_up_inv.
  - cbn in Hp. unfold client_should_poll in Hp. destruct (callback c) eqn:E; [done|].
    pose proof (client_poll_msg_inv _ _ _ _ IH Hc E Hmsg) as Hs. destruct o as [[m|]|e| | |]; try done. by destruct (Hno m).
  - cbn in Hp. unfold client_should_poll in Hp. destruct (callback c) eqn:E; [done|].
    destruct (client_poll_msg_inv _ _ _ _ IH Hc E Hmsg) as (cb' & Hcb' & Hi). rewrite Hcb in Hcb'. by injection Hcb' as <-.
  - eapply client_recv_msg_inv; [exact IH|exact Hmsg].
Qed.

(** Dropping the queue answers all that waits in it. *)
Lemma envelopes_drop taken es (d : Rx) :
  account taken (map snd es) None (promises d) ->
  account taken [] None (promises (foldl (fun d e => envelope_drop e d) d es)) /\
  length (promises (foldl (fun d e => envelope_drop e d) d es)) = length (promises d).
Proof.
  revert d. induction es as [|[req id] es IH]; intros d Hi; [done|]. cbn [foldl map] in *.
  destruct (IH (envelope_drop (req, id) d)) as [Ha Hl]; [by apply (answer_queued _ _ _ _ _ (Err _) Hi)|].
  split; [done|]. rewrite Hl. cbn. by rewrite length_alter.
Qed.

Lemma client_drop_inv taken (c : Cl) panicking :
  client_inv taken c -> account taken [] None (promises (rx (client_drop panicking c))) /\
  length (promises (rx (client_drop panicking c))) = length (promises (rx c)).
Proof.
  intros Hi. unfold client_drop.
  set (c1 := match callback c with Some cb => _ | None => c end).
  assert (Hi1 : account taken (queued (rx c1)) None (promises (rx c1)) /\ length (promises (rx c1)) = length (promises (rx c))).
  { unfold client_inv in Hi. subst c1. destruct (callback c) as [cb|]; [|done]. cbn. rewrite length_alter.
    split; [|done]. by apply (answer_callback _ _ _ _ (Err _) Hi). }
  destruct Hi1 as [Hi1 Hl]. cbn. unfold ds_receiver_drop. cbn.
  destruct (mpsc_drop (inner (rx c1))) as [q es] eqn:Ed. apply mpsc_drop_spec in Ed as (-> & _ & _).
  rewrite <- Hl. by apply (envelopes_drop taken (mpsc_items (inner (rx c1))) (set_inner q (set_demand (taker_cancel (demand (rx c1))) (rx c1)))).
Qed.

(** ** Claims *)

(** C32. Every caller is answered exactly once. Whatever requests are sent and
    given up, and whatever the connection does, a request has no answer while
    it waits in the channel or its exchange is under way, and exactly one
    afterwards; and if the connection goes away every request has exactly one. *)
Theorem answered_exactly_once taken c panicking :
  client_run taken c ->
  (forall id p, promises (rx c) !! id = Some p ->
    length (answers p) = if bool_decide (id ∈ queued (rx c) \/ callback c = Some id) then 0%nat else 1%nat) /\
  length (promises (rx (client_drop panicking c))) = length (promises (rx c)) /\
  (forall id p, promises (rx (client_drop panicking c)) !! id = Some p -> length (answers p) = 1%nat).
Proof.
  intros Hi%client_run_inv. destruct (client_drop_inv taken c panicking Hi) as [Hd Hl]. split_and!; [|done|].
  - intros id p Hp. pose proof (ac_answers _ _ _ _ Hi id p Hp) as Ha. unfold waiting in Ha.
    destruct (bool_decide _); [by rewrite Ha|]. by destruct Ha as (a & -> & _).
  - intros id p Hp. pose proof (ac_answers _ _ _ _ Hd id p Hp) as Ha. unfold waiting in Ha.
    rewrite bool_decide_false in Ha by (intros [?|?]; [by eapply not_elem_of_nil|done]). by destruct Ha as (a & -> & _).
Qed.

(** Requests are taken in the order they were sent, each at most once; a
    response answers only a request that was taken; and a request that is
    given back to its caller with an error was never taken, so no byte of it
    was written and it can be sent again, on another connection, safely. *)
Theorem given_back_never_sent taken c panicking :
  client_run taken c ->
  StronglySorted lt (taken ++ queued (rx c)) /\
  (forall id p a, promises (rx (client_drop panicking c)) !! id = Some p -> answers p = [a] ->
    (gives_back a = true -> id ∉ taken) /\ (is_response a = true -> id ∈ taken)).
Proof.
  intros Hi%client_run_inv. split; [apply Hi|]. destruct (client_drop_inv taken c panicking Hi) as [Hd _].
  intros id p a Hp Hpa. pose proof (ac_answers _ _ _ _ Hd id p Hp) as Ha. unfold waiting in Ha.
  rewrite bool_decide_false in Ha by (intros [?|?]; [by eapply not_elem_of_nil|done]). destruct Ha as (a' & Ha' & Ha).
  rewrite Hpa in Ha'. injection Ha' as <-. destruct (decide (id ∈ taken)) as [Hin|Hin].
  - rewrite bool_decide_true in Ha by done. split; [congruence|done].
  - rewrite bool_decide_false in Ha by done. split; [done|congruence].
Qed.
End laws.

(** ** Examples *)

Module ConcreteDispatch.

(** A queue that is a list, and a demand signal of three states. *)
Record lq (A : Type) : Type := LQ { lq_items : list A; lq_closed : bool; lq_abandoned : bool }.
Arguments LQ {A}.
Arguments lq_items {A}.
Arguments lq_closed {A}.
Arguments lq_abandoned {A}.

#[export] Instance lq_Mpsc : Mpsc lq := {
  mpsc_new A := LQ [] false false;
  mpsc_send A a q := if lq_closed q then None else Some (LQ (lq_items q ++ [a]) false (lq_abandoned q));
  mpsc_poll_recv A q :=
    match lq_items q with
    | a :: l => (LQ l (lq_closed q) (lq_abandoned q), Some (Some a))
    | [] => (q, if lq_closed q || lq_abandoned q then Some None else None)
    end;
  mpsc_close A q := LQ (lq_items q) true (lq_abandoned q);
  mpsc_drop A q := (LQ [] true (lq_abandoned q), lq_items q);
}.

#[export] Instance lq_MpscLaws : MpscLaws lq.
Proof.
  refine {| mpsc_items A q := lq_items q; mpsc_closed A q := lq_closed q; mpsc_abandoned A q := lq_abandoned q |}.
  - done.
  - intros A a [l cl ab]. cbn. by destruct cl.
  - intros A [l cl ab] q' r. cbn. destruct l as [|a l], cl, ab; cbn; intros [= <- <-]; by eauto.
  - done.
  - intros A [l cl ab] q' l'. cbn. by intros [= <- <-].
Defined.

Inductive signal : Type := SgIdle | SgWanting | SgCanceled.

#[export] Instance signal_Want : Want signal := {
  want_new := SgIdle;
  taker_want w := match w with SgCanceled => SgCanceled | _ => SgWanting end;
  taker_cancel _ := SgCanceled;
  giver_give w := match w with SgWanting => (SgIdle, true) | _ => (w, false) end;
  giver_poll_want w := (w, match w with SgWanting => Ready tt | SgCanceled => Failed tt | SgIdle => Pending end);
  giver_is_wanting w := match w with SgWanting => true | _ => false end;
  giver_is_canceled w := match w with SgCanceled => true | _ => false end;
}.

#[export] Instance signal_WantLaws : WantLaws signal.
Proof. split; [done|by intros []..]. Qed.

Abbreviation Cl0 := (Client lq signal unit unit).

Definition req (n : Z) : MessageHead unit RequestLine * unit :=
  (MkHead HTTP_11 (MkRequestLine GET [n]) tt extensions_default, tt).

Definition res : MessageHead unit StatusCode * Incoming := (MkHead HTTP_11 200 tt extensions_default, InEmpty).

(** A request is sent, taken and answered; the connection asks for more, a second
    request is sent, and the connection goes away before it takes it. *)
Definition c0 : Cl0 := client_new dispatch_channel.
Definition c1 : Cl0 := set_rx (ds_try_send (req 1) (rx c0)).1 c0.
Definition c2 : Cl0 := (d_poll_msg c1).1.
Definition c3 : Cl0 := (d_recv_msg (Ok res) c2).1.
Definition c4 : Cl0 := (d_poll_msg c3).1.
Definition c5 : Cl0 := set_rx (ds_try_send (req 2) (rx c4)).1 c4.

Lemma c5_run : client_run [0%nat] c5.
Proof.
  eapply (run_send _ c4 (req 2) _ (Ready 1%nat)); [|reflexivity].
  eapply (run_none _ c3 c4 Pending); [|reflexivity|reflexivity|reflexivity|done].
  eapply (run_recv _ c2 c3 (Ok res) (Ready false)); [|reflexivity].
  eapply (run_take [] c1 c2 (req 1) 0); [|reflexivity|reflexivity|reflexivity|reflexivity].
  eapply (run_send _ c0 (req 1) _ (Ready 0%nat)); [|reflexivity]. apply run_new.
Qed.

Definition given_back : result (TrySendError (MessageHead unit RequestLine * unit)) (MessageHead unit StatusCode * Incoming) :=
  Err (MkTrySendError (err_with (CauseText "connection closed") new_canceled) (Some (req 2))).

Lemma answered_exactly_once_witness :
  length (promises (rx (client_drop false c5))) = 2%nat /\
  (forall id p, promises (rx (client_drop false c5)) !! id = Some p -> length (answers p) = 1%nat).
Proof. exact (proj2 (answered_exactly_once [0%nat] c5 false c5_run)). Defined.

Lemma given_back_never_sent_witness : (gives_back given_back = true -> 1%nat ∉ [0%nat]) /\ gives_back given_back = true.
Proof.
  destruct (given_back_never_sent [0%nat] c5 false c5_run) as [_ Hg].
  destruct (Hg 1%nat (MkPromise [given_back] false) given_back) as [Hb _]; [reflexivity|reflexivity|].
  split; [exact Hb|reflexivity].
Defined.
End ConcreteDispatch.
