(* ===== verification/Dispatcher.v ===== *)
(** * Dispatcher

    [proto/http1/dispatch.rs]: the task that drives an HTTP/1 connection. It
    takes requests from a [Dispatch], writes them and their bodies to the
    connection, reads responses and passes their bodies on through the channel
    of [BodyChan].

    One poll of the task is one step: the other ends of its channels move
    between polls. Wakers are left out. *)

From stdpp Require Import prelude strings.
From Stdlib Require Import ZArith Lia.
From S2P Require Import Prelude Bytes Crates Errors Length Headers MemRead Decode BufList WriteBuf Transport Buffered BufferedLaws Encode Message Role Conn BodyChan DispatchChan Client.
Local Open Scope Z_scope.

(** ** [http_body::Body] *)

(** [http_body::Frame] of a user's body. *)
Inductive BodyFrame (B Hm : Type) : Type := FData (chunk : B) | FTrailers (t : Hm) | FOther.
Arguments FData {B Hm}.
Arguments FTrailers {B Hm}.
Arguments FOther {B Hm}.

(** A user's body; [hb_size_exact] is [size_hint().exact()]. *)
Class HttpBody (Bs B Hm : Type) : Type := {
  hb_poll_frame : M Bs Cause (option (BodyFrame B Hm));
  hb_is_end_stream : Bs -> bool;
  hb_size_exact : Bs -> option Z;
}.

(** What is assumed of the bodies users give: chunks are well formed buffers that
    fit in memory, a known size is a [u64], polling does not panic, and the body has
    finitely many frames ([hb_frames] bounds those it still has). A body that panics
    takes its task with it, and one that is always ready keeps its task busy. *)
Class HttpBodyLaws (Bs B Hm : Type) `{BufLaws B} `{HttpBody Bs B Hm} : Type := {
  hb_frames : Bs -> nat;
  hb_poll_frame_spec : forall b b' o, hb_poll_frame b = (b', o) ->
    match o with
    | Ready (Some f) => (hb_frames b' < hb_frames b)%nat /\
        match f with FData chunk => buf_ok chunk /\ len (content chunk) <= USIZE_MAX | _ => True end
    | Panicked | NoFuel => False
    | _ => True
    end;
  hb_size_spec : forall b n, hb_size_exact b = Some n -> is_u64 n;
}.

(** [enum Dispatched] of [proto.rs]. *)
Inductive Dispatched : Type := DShutdown | DUpgrade.

Section dispatcher.
Context `{HeaderSyntax} `{HeaderMap Hm} `{HttparseHeaders} `{HttparseResponse PC}
  `{TransportLaws T V} `{!BytesMutLaws V} `{BufCombinators} `{BufLaws B}
  {D Bs : Type} `{Dispatch D Bs Hm} `{HttpBody Bs B Hm} `{!HttpBodyLaws Bs B Hm}.
Abbreviation C := (Conn (Hm := Hm) (PC := PC) (T := T) (V := V) (B := B)).

(** The capacity of the head vector at a write (see [wb_buffer]). *)
Variable vec_capacity : C -> Z.

(** [struct Dispatcher], with the body channels it has made: [body_tx] is the
    one whose sender it holds. *)
Record Dispatcher : Type := MkDispatcher {
  conn : C;
  dispatch : D;
  body_tx : option nat;
  body_rx : option Bs;
  is_closing : bool;
  is_aborted : bool;
  chans : list (Chan Hm);
}.

Definition set_conn x s : Dispatcher := MkDispatcher x (dispatch s) (body_tx s) (body_rx s) (is_closing s) (is_aborted s) (chans s).
Definition set_dispatch x s : Dispatcher := MkDispatcher (conn s) x (body_tx s) (body_rx s) (is_closing s) (is_aborted s) (chans s).
Definition set_body_tx x s : Dispatcher := MkDispatcher (conn s) (dispatch s) x (body_rx s) (is_closing s) (is_aborted s) (chans s).
Definition set_body_rx x s : Dispatcher := MkDispatcher (conn s) (dispatch s) (body_tx s) x (is_closing s) (is_aborted s) (chans s).
Definition set_is_closing x s : Dispatcher := MkDispatcher (conn s) (dispatch s) (body_tx s) (body_rx s) x (is_aborted s) (chans s).
Definition set_is_aborted x s : Dispatcher := MkDispatcher (conn s) (dispatch s) (body_tx s) (body_rx s) (is_closing s) x (chans s).
Definition set_chans x s : Dispatcher := MkDispatcher (conn s) (dispatch s) (body_tx s) (body_rx s) (is_closing s) (is_aborted s) x.

Definition on_conn {E A} (m : M C E A) : M Dispatcher E A := zoom conn set_conn m.
Definition on_dispatch {E A} (m : M D E A) : M Dispatcher E A := zoom dispatch set_dispatch m.

(** A call on channel [i]. *)
Definition on_chan {E A} (i : nat) (m : M (Chan Hm) E A) : M Dispatcher E A := fun s =>
  match chans s !! i with
  | Some c => let '(c', o) := m c in (set_chans (<[i := c']> (chans s)) s, o)
  | None => (s, Panicked)
  end.

(** [m.is_ready()] of a poll whose error has been returned with [?]. *)
Definition polled {E} (m : M Dispatcher E unit) : M Dispatcher E bool := fun s =>
  match m s with
  | (s, Ready _) => (s, Ready true)
  | (s, Pending) => (s, Ready false)
  | (s, Failed e) => (s, Failed e)
  | (s, Panicked) => (s, Panicked)
  | (s, NoFuel) => (s, NoFuel)
  end.

(** [Dispatcher::new]. *)
Definition dispatcher_new (d : D) (c : C) : Dispatcher := MkDispatcher c d None None false false [].

(** [into_inner]. *)
Definition dispatcher_into_inner (s : Dispatcher) : T * bytes * D := (conn_into_inner (conn s), dispatch s).

(** ** [SenderGuard] *)

(** [self.body_tx.set(tx)]: a sender that was there is dropped. *)
Definition tx_set {E} (i : nat) : M Dispatcher E unit :=
  s ← get;
  (match body_tx s with Some old => on_chan old sender_drop | None => mret tt end);;
  modify (set_body_tx (Some i)).

(** [self.body_tx.take()]. *)
Definition tx_take {E} : M Dispatcher E (option nat) :=
  s ← get;
  modify (set_body_tx None);;
  mret (body_tx s).

(** [Drop for SenderGuard], and then the sender. *)
Definition guard_drop {E} : M Dispatcher E unit :=
  tx ← tx_take;
  match tx with
  | Some i => on_chan i (send_error new_incomplete);; on_chan i sender_drop
  | None => mret tt
  end.

(** ** Reading *)

(** [close]. *)
Definition dp_close {E} : M Dispatcher E unit :=
  modify (set_is_closing true);;
  on_conn close_read;;
  on_conn close_write.

(** The response's body is dropped. *)
Definition drop_incoming {E} (body : Incoming) : M Dispatcher E unit :=
  match body with InH1 i _ => on_chan i receiver_drop | InEmpty => mret tt end.

(** [self.dispatch.recv_msg(Ok((head, body)))?], which drops the body of a
    message it cannot pass on. *)
Definition recv_response (head : MessageHead Hm StatusCode) (body : Incoming) : M Dispatcher Error unit :=
  match_ready (on_dispatch (d_recv_msg (Ok (head, body))))
    (fun dropped : bool => if dropped then drop_incoming body else mret tt)
    (fun e => drop_incoming body;; fail e).

(** [poll_read_head]. The handle of an upgrade that goes into the head's
    extensions is left out. *)
Definition dp_poll_read_head : M Dispatcher Error unit :=
  ready ← match_ready (on_dispatch d_poll_ready) (fun _ => mret true) (fun _ => mret false);
  if negb ready then
    modify (set_is_aborted true);; dp_close
  else
    match_ready (on_conn poll_read_head)
      (fun r =>
        match r with
        | Some (head, body_len, wants) =>
            body ← (if decide (body_len = ZERO) then mret InEmpty
                    else
                      s ← get;
                      let i := length (chans s) in
                      modify (fun s => set_chans (chans s ++ [channel (wants_contains wants WANTS_EXPECT)]) s);;
                      tx_set i;;
                      mret (InH1 i body_len));
            (if wants_contains wants WANTS_UPGRADE then on_conn on_upgrade else mret tt);;
            recv_response head body
        | None =>
            s ← get;
            if negb (is_read_closed (conn s)) then panic
            else if is_write_closed (conn s) then dp_close else mret tt
        end)
      (fun err => on_dispatch (d_recv_msg (Err err));; dp_close).

(** What [poll_read] does with the result of [poll_read_body], the sender of
    channel [i] being taken out: [true] to go on, [false] to wait. *)
Definition pass_frame (i : nat) : M Dispatcher Error bool := fun s =>
  let close_unless_done : M Dispatcher Error bool :=
    s ← get;
    (if can_read_body (conn s) then on_conn close_read else mret tt);;
    on_chan i sender_drop;; mret true in
  match on_conn poll_read_body s with
  | (s, Ready (Some (Data chunk))) =>
      match_ready (on_chan i (send_data chunk)) (fun _ => tx_set i;; mret true) (fun _ => close_unless_done) s
  | (s, Ready (Some (Trailers trailers))) =>
      match_ready (on_chan i (send_trailers trailers)) (fun _ => tx_set i;; mret true) (fun _ => close_unless_done) s
  | (s, Ready None) => (on_chan i sender_drop;; mret true) s
  | (s, Pending) => (tx_set i;; mret false) s
  | (s, Failed e) => (on_chan i (send_error (new_body (CauseIo e)));; on_chan i sender_drop;; mret true) s
  | (s, Panicked) => (s, Panicked)
  | (s, NoFuel) => (s, NoFuel)
  end.

(** The arm of [poll_read] that has a body to pass on, in a body and after it. *)
Definition read_body_in (i : nat) : M Dispatcher Error bool := fun s =>
  match on_chan i chan_poll_ready s with
  | (s, Ready _) => pass_frame i s
  | (s, Pending) => (tx_set i;; mret false) s
  | (s, Failed _) => (on_conn poll_drain_or_close_read;; on_chan i sender_drop;; mret true) s
  | (s, Panicked) => (s, Panicked)
  | (s, NoFuel) => (s, NoFuel)
  end.

Definition read_body_arm (i : nat) : M Dispatcher Error bool :=
  s ← get;
  if can_read_body (conn s) then read_body_in i
  else on_chan i sender_drop;; mret true.

Fixpoint read_loop (fuel : nat) : M Dispatcher Error unit :=
  match fuel with
  | O => fun s => (s, NoFuel)
  | S k =>
      s ← get;
      if is_closing s then mret tt
      else if can_read_head (conn s) then dp_poll_read_head;; read_loop k
      else
        tx ← tx_take;
        match tx with
        | Some i => go_on ← read_body_arm i; if go_on : bool then read_loop k else pend
        | None => on_conn poll_read_keep_alive
        end
  end.

(** [poll_read]: a head, a frame of its body, and two rounds to find the body's
    channel full or done with. *)
Definition dp_poll_read : M Dispatcher Error unit := read_loop 5.

(** ** Writing *)

(** [poll_flush]. *)
Definition dp_poll_flush : M Dispatcher Error unit := map_err (fun e => new_body_write (CauseIo e)) (on_conn conn_poll_flush).

(** The user's body is polled in place. *)
Definition on_body {E A} (m : M Bs E A) : M Dispatcher E A := fun s =>
  match body_rx s with
  | Some b => let '(b', o) := m b in (set_body_rx (Some b') s, o)
  | None => (s, Panicked)
  end.

Definition with_cap {E A} (f : Z -> M C E A) : M Dispatcher E A := s ← get; on_conn (f (vec_capacity (conn s))).

(** [clear_body] takes effect when the guard is dropped, at the end of the round. *)
Definition clear_body {E} : M Dispatcher E unit := modify (set_body_rx None).

(** [self.conn.end_body()?] in a round that clears the body. *)
Definition end_and_clear : M Dispatcher Error unit :=
  match_ready (with_cap end_body) (fun _ => clear_body) (fun e => clear_body;; fail e).

(** One frame of the body, or its end. *)
Definition write_frame : M Dispatcher Error unit :=
  match_ready (on_body hb_poll_frame)
    (fun item =>
      match item with
      | Some (FData chunk) =>
          s ← get;
          let eos := match body_rx s with Some b => hb_is_end_stream b | None => true end in
          if eos then
            if remaining chunk =? 0 then end_and_clear
            else with_cap (fun cap => write_body_and_end cap chunk);; clear_body
          else if remaining chunk =? 0 then mret tt
          else with_cap (fun cap => write_body cap chunk)
      | Some (FTrailers trailers) => with_cap (fun cap => write_trailers cap trailers);; clear_body
      | Some FOther => mret tt
      | None => end_and_clear
      end)
    (fun e => clear_body;; fail (new_user_body e)).

(** What [poll_write] does with a message: its head is written and its body kept. *)
Definition start_message (head : MessageHead Hm RequestLine) (body : Bs) : M Dispatcher Error unit :=
  body_type ← (if hb_is_end_stream body then modify (set_body_rx None);; mret None
               else
                 modify (set_body_rx (Some body));;
                 mret (Some match hb_size_exact body with Some n => Known n | None => Unknown end));
  on_conn (write_head head body_type).

(** The loop of [poll_write]; [again] goes on after a message was taken. *)
Fixpoint write_loop (again : M Dispatcher Error unit) (fuel : nat) : M Dispatcher Error unit :=
  match fuel with
  | O => fun s => (s, NoFuel)
  | S k =>
      s ← get;
      if is_closing s then mret tt
      else if bool_decide (body_rx s = None) && can_write_head (conn s) && d_should_poll (dispatch s) then
        msg ← on_dispatch d_poll_msg;
        match msg with
        | Some (head, body) => start_message head body;; again
        | None => dp_close
        end
      else if negb (can_buffer_body (conn s)) then dp_poll_flush;; write_loop again k
      else
        match body_rx s with
        | Some body =>
            if negb (can_write_body (conn s)) then clear_body;; write_loop again k
            else write_frame;; write_loop again k
        | None =>
            if can_write_body (conn s) then with_cap end_body;; write_loop again k
            else pend
        end
  end.

(** How many rounds can follow: two for a frame that is left (the second to
    flush), and those that end the body. *)
Definition write_rounds (s : Dispatcher) : nat :=
  (match body_rx s with Some b => 2 * hb_frames b + 4 | None => 0 end +
   (if can_write_body (conn s) then 2 else 0) + (if can_buffer_body (conn s) then 0 else 1))%nat.

(** [poll_write]: no message is taken while one is answered, so the rounds start
    anew once. *)
Definition dp_poll_write : M Dispatcher Error unit := fun s =>
  write_loop (fun s => write_loop (fun s => (s, NoFuel)) (S (write_rounds s)) s) (S (write_rounds s)) s.

(** ** The task *)

(** [can_write_again]. *)
Definition can_write_again (s : Dispatcher) : bool :=
  negb (is_closing s) && negb (bool_decide (body_rx s = None)) && can_write_body (conn s).

(** [poll_loop], [n] rounds of it. *)
Fixpoint loop_rounds (n : nat) : M Dispatcher Error unit :=
  match n with
  | O => pend
  | S k =>
      polled dp_poll_read;;
      write_ready ← polled dp_poll_write;
      flush_ready ← polled dp_poll_flush;
      s ← get;
      let wants_write_again := can_write_again s && (write_ready || flush_ready) in
      wants_read_again ← on_conn wants_read_again;
      if negb (wants_write_again || wants_read_again) then mret tt
      else if negb wants_read_again && wants_write_again then
        ready ← polled dp_poll_write;
        if negb ready then
          s ← get;
          (if conn_has_buffered_write (conn s) then polled dp_poll_flush;; mret tt else mret tt)
        else loop_rounds k
      else loop_rounds k
  end.

Definition poll_loop : M Dispatcher Error unit := loop_rounds 16.

(** [is_done]. *)
Definition is_done (s : Dispatcher) : bool :=
  if is_closing s then true
  else
    let read_done := is_read_closed (conn s) in
    if read_done then true
    else
      let write_done := is_write_closed (conn s) || (negb (d_should_poll (dispatch s)) && bool_decide (body_rx s = None)) in
      read_done && write_done.

(** [poll_inner]. *)
Definition poll_inner (should_shutdown : bool) : M Dispatcher Error Dispatched :=
  poll_loop;;
  s ← get;
  if is_done s then
    let '(pending, c) := pending_upgrade (conn s) in
    modify (set_conn c);;
    if pending : bool then on_conn take_error;; mret DUpgrade
    else
      (if should_shutdown && negb (is_aborted s) && negb (can_write_body (conn s))
       then map_err new_shutdown (on_conn conn_poll_shutdown) else mret tt);;
      on_conn take_error;;
      mret DShutdown
  else pend.

(** [poll_catch]. *)
Definition poll_catch (should_shutdown : bool) : M Dispatcher Error Dispatched :=
  match_ready (poll_inner should_shutdown) mret
    (fun e =>
      tx ← tx_take;
      (match tx with
       | Some i => on_chan i (send_error (new_body (CauseText "connection error")));; on_chan i sender_drop
       | None => mret tt
       end);;
      on_dispatch (d_recv_msg (Err e));;
      mret DShutdown).

(** [Future::poll], [poll_without_shutdown]. *)
Definition dispatcher_poll : M Dispatcher Error Dispatched := poll_catch true.
Definition poll_without_shutdown : M Dispatcher Error unit := poll_catch false;; mret tt.
End dispatcher.
