(* ===== verification/DispatcherLaws.v ===== *)
(** * DispatcherLaws

    The dispatcher keeps the rules of the connection it drives: every operation
    is called under its guard, and its loops come to an end. The theorems hold
    for any [Dispatch] that keeps the promises of [DispatchLaws]; the client's
    is one. *)

From stdpp Require Import prelude strings.
From Stdlib Require Import ZArith Lia.
From S2P Require Import Prelude Bytes Crates Errors Length Headers MemRead Decode BodyTheorems BufList WriteBuf Transport Buffered BufferedLaws Encode EncodeLaws Message Role RoleLaws RoleParse Conn ConnInv ConnRead ConnWrite ConnWire ConnPhase BodyChan DispatchChan Client Dispatcher.
Local Open Scope Z_scope.

(** The framing [poll_write] asks for. *)
Definition body_type `{HttpBody Bs B Hm} (body : Bs) : option BodyLength :=
  if hb_is_end_stream body then None
  else Some match hb_size_exact body with Some n => Known n | None => Unknown end.

(** What a dispatcher relies on: as long as the dispatch is open and polled when
    it wants to be, it gives out well formed requests one at a time. *)
Class DispatchLaws (D Bs Hm : Type) {B : Type} `{HeaderMap Hm} `{!Dispatch D Bs Hm} `{!HttpBody Bs B Hm} : Type := {
  d_inv : D -> Prop;
  d_open : D -> bool;
  d_poll_msg_spec : forall d d' o,
    d_inv d -> d_open d = true -> d_should_poll d = true -> d_poll_msg d = (d', o) ->
    d_inv d' /\
    match o with
    | Ready (Some (head, body)) => d_open d' = true /\ d_should_poll d' = false /\
        Forall (fun v => forallb visible_ascii v = true) (hm_get_all (head_headers head) H_TRANSFER_ENCODING)
    | Ready None | Failed _ => True
    | Pending => d_open d' = true
    | _ => False
    end;
  d_recv_msg_spec : forall m d d' o,
    d_inv d -> d_recv_msg m d = (d', o) -> d_inv d' /\ d_open d' = d_open d /\ sound o /\ o ≠ Pending;
  d_poll_ready_spec : forall d d' o,
    d_inv d -> d_poll_ready d = (d', o) -> d_inv d' /\ d_open d' = d_open d /\ sound o;
  (** what its other end does between polls *)
  d_env : D -> D -> Prop;
  d_env_spec : forall d d', d_inv d -> d_env d d' -> d_inv d' /\ d_open d' = d_open d;
}.

Section laws.
Context `{HeaderSyntaxLaws} `{HeaderMapLaws Hm} `{HttparseHeaders} `{HttparseResponse PC}
  `{!HttparseResponseLaws PC} `{TransportLaws T V} `{!BytesMutLaws V} `{BufCombinatorsLaws} `{BufLaws B}
  {D Bs : Type} `{!Dispatch D Bs Hm} `{!HttpBody Bs B Hm} `{!HttpBodyLaws Bs B Hm} `{!DispatchLaws D Bs Hm}.
Abbreviation C := (Conn (Hm := Hm) (PC := PC) (T := T) (V := V) (B := B)).
Abbreviation Dp := (Dispatcher (Hm := Hm) (PC := PC) (T := T) (V := V) (B := B) (D := D) (Bs := Bs)).
Variable vec_capacity : C -> Z.
Implicit Type s : Dp.

(** ** The invariant *)

(** What holds even after an error: the connection and the dispatch are in
    order, and the channel of the sender exists. *)
Record dp_weak (s : Dp) : Prop := {
  dp_conn : conn_inv (conn s);
  dp_dispatch : d_inv (dispatch s);
  dp_tx : forall i, body_tx s = Some i -> (i < length (chans s))%nat;
}.

(** While the task goes on the dispatch can be polled, and a body that is read
    has a channel to go through. *)
Record dp_inv (s : Dp) : Prop := {
  dp_is_weak : dp_weak s;
  dp_open : is_closing s = false -> d_open (dispatch s) = true;
  dp_body : can_read_body (conn s) = true -> is_Some (body_tx s);
}.

(** The contract of a part of the task. *)
Definition dp_ok {E A} (o : outcome E A) (s : Dp) : Prop :=
  sound o /\ dp_weak s /\ ((forall e, o ≠ Failed e) -> dp_inv s).

Lemma dp_ok_ready {E A} (a : A) s : dp_inv s -> dp_ok (E := E) (Ready a) s.
Proof. intros Hi. split_and!; [done|apply Hi|done]. Qed.

Lemma dp_ok_failed {E A} (e : E) s : dp_weak s -> dp_ok (A := A) (Failed e) s.
Proof. intros Hi. split_and!; [done|done|]. intros Hne. by destruct (Hne e). Qed.

(** ** Running the pieces *)

Lemma on_chan_run {E A} i (m : M (Chan Hm) E A) s c :
  chans s !! i = Some c -> on_chan i m s = (set_chans (<[i := (m c).1]> (chans s)) s, (m c).2).
Proof. intros Hc. unfold on_chan. rewrite Hc. by destruct (m c). Qed.

Lemma tx_set_none {E} i s : body_tx s = None -> tx_set (E := E) i s = (set_body_tx (Some i) s, Ready tt).
Proof. intros Htx. unfold tx_set, mbind, M_bind, get. by rewrite Htx. Qed.

Lemma chan_lookup (s : Dp) i : (i < length (chans s))%nat -> exists c, chans s !! i = Some c.
Proof. intros Hlt. by apply lookup_lt_is_Some in Hlt as [c Hc]; eauto. Qed.

(** Dropping or reporting on a channel. *)
Lemma sender_drop_run {E} i s :
  (i < length (chans s))%nat ->
  exists l, on_chan (E := E) i sender_drop s = (set_chans l s, Ready tt) /\ length l = length (chans s).
Proof.
  intros [c Hc]%chan_lookup. rewrite (on_chan_run _ _ _ c Hc). eexists. split; [done|]. by rewrite length_insert.
Qed.

Lemma receiver_drop_run {E} i s :
  (i < length (chans s))%nat ->
  exists l, on_chan (E := E) i receiver_drop s = (set_chans l s, Ready tt) /\ length l = length (chans s).
Proof.
  intros [c Hc]%chan_lookup. rewrite (on_chan_run _ _ _ c Hc). eexists. split; [done|]. by rewrite length_insert.
Qed.

Lemma send_error_run {E} i e s :
  (i < length (chans s))%nat ->
  exists l, on_chan (E := E) i (send_error e) s = (set_chans l s, Ready tt) /\ length l = length (chans s).
Proof.
  intros [c Hc]%chan_lookup. rewrite (on_chan_run _ _ _ c Hc).
  assert (Hr : (send_error (E := E) e c).2 = Ready tt).
  { unfold send_error, mbind, M_bind, get, modify, mret, M_ret. by destruct (negb (receiver_open c)). }
  rewrite Hr. eexists. split; [done|]. by rewrite length_insert.
Qed.

(** ** Reading *)

(** The next round of [poll_read] passes no frame: there is no channel, or it
    holds a chunk that was not taken yet. *)
Definition full s : Prop :=
  match body_tx s with
  | None => True
  | Some i => can_read_body (conn s) = true -> exists c, chans s !! i = Some c /\ item c ≠ None
  end.

(** The contract of a round with the sender of channel [i] taken out: it goes on
    to a round that passes no frame, or waits. *)
Definition round_ok (o : outcome Error bool) (s : Dp) : Prop :=
  dp_inv s /\ can_read_head (conn s) = false /\
  match o with Ready true => full s | Ready false => True | _ => False end.

(** A state in which the sender of [i] was taken out. *)
Record taken_out (i : nat) (s : Dp) : Prop := {
  to_weak : dp_weak s;
  to_open : is_closing s = false -> d_open (dispatch s) = true;
  to_tx : body_tx s = None;
  to_lt : (i < length (chans s))%nat;
  to_head : can_read_head (conn s) = false;
}.

(** Updates of a state whose sender was taken out. *)
Lemma taken_out_chans i s l : taken_out i s -> length l = length (chans s) -> taken_out i (set_chans l s).
Proof. intros [[Hc Hd Ht] Ho Hx Hl Hh] He. split; try done; [|by cbn; rewrite He]. split; try done. cbn. by rewrite Hx. Qed.

Lemma taken_out_conn i s c : taken_out i s -> conn_inv c -> can_read_head c = false -> taken_out i (set_conn c s).
Proof. intros [[Hc Hd Ht] Ho Hx Hl Hh] Hi Hh'. by split; try done; split. Qed.

(** Putting it back. *)
Lemma put_back i s : taken_out i s -> dp_inv (set_body_tx (Some i) s) /\ can_read_head (conn (set_body_tx (Some i) s)) = false.
Proof.
  intros [[Hc Hd Ht] Ho Hx Hl Hh]. split; [|done]. split; [split; try done|done|by eauto]. cbn. by intros ? [= <-].
Qed.

Lemma put_back_waits i s : taken_out i s -> round_ok (Ready false) (set_body_tx (Some i) s).
Proof. intros Ht. destruct (put_back i s Ht). by split_and!. Qed.

(** Dropping it, when no body is left. *)
Lemma drop_round i s :
  taken_out i s -> can_read_body (conn s) = false ->
  wp (on_chan i sender_drop;; mret true) round_ok s.
Proof.
  intros Ht Hb. destruct (sender_drop_run (E := Error) i s (to_lt _ _ Ht)) as (l & Hl & He).
  unfold wp, mbind, M_bind. rewrite Hl. cbv beta iota. unfold mret, M_ret.
  destruct (taken_out_chans i s l Ht He) as [[] ? Htx ? ?]. split_and!; [split; [by split|done|cbn; by rewrite Hb]|done|].
  unfold full. by rewrite Htx.
Qed.

Lemma close_read_phase (c : C) : can_read_head (upd st_close_read c) = false /\ can_read_body (upd st_close_read c) = false.
Proof. done. Qed.

(** The two ways a frame that was refused ends its body. *)
Lemma refused_round i s :
  taken_out i s ->
  wp (s ← get; (if can_read_body (conn s) then on_conn close_read else mret tt);; on_chan i sender_drop;; mret true) round_ok s.
Proof.
  intros Ht. wp_step. wp_step. destruct (can_read_body (conn s)) eqn:Eb.
  - wp_step. unfold on_conn, close_read, on_state. apply wp_zoom. wp_step. apply drop_round; [|done].
    apply taken_out_conn; [done| |done]. apply st_close_read_inv, (to_weak _ _ Ht).
  - wp_step. wp_step. by apply drop_round.
Qed.

(** What the channel says to a chunk: there is room for it, or it is refused. *)
Lemma send_data_run chunk (c : Chan Hm) :
  (exists c', send_data chunk c = (c', Ready tt) /\ item c' ≠ None) \/ (exists c' b, send_data chunk c = (c', Failed b)).
Proof.
  unfold send_data, mbind, M_bind, get, fail, modify. destruct (_ || _ || _ || _); [right; eauto|left]. eexists. split; [done|]. done.
Qed.

Lemma send_trailers_run t (c : Chan Hm) :
  (exists c', send_trailers t c = (c', Ready tt)) \/ (exists c' b, send_trailers t c = (c', Failed b)).
Proof.
  unfold send_trailers, mbind, M_bind, get, fail, modify. destruct (trailers_sent c); [eauto|]. destruct (negb _); eauto.
Qed.

Lemma pass_frame_spec i s : taken_out i s -> can_read_body (conn s) = true -> wp (pass_frame i) round_ok s.
Proof.
  intros Ht Hb. unfold wp, pass_frame, on_conn, zoom. destruct (poll_read_body (conn s)) as [c o] eqn:Er.
  pose proof (poll_read_body_phase _ _ _ (dp_conn _ (to_weak _ _ Ht)) Hb Er) as [Hh Hbody].
  pose proof (poll_read_body_keeps (conn s) (dp_conn _ (to_weak _ _ Ht)) Hb) as Hk. unfold wp in Hk. rewrite Er in Hk.
  destruct Hk as (Hs & Hi & _). pose proof (taken_out_conn i s c Ht Hi Hh) as Ht1. set (s1 := set_conn c s) in *.
  destruct (chan_lookup s1 i (to_lt _ _ Ht1)) as [ch Hch].
  assert (Hins : forall x, taken_out i (set_chans (<[i := x]> (chans s1)) s1)) by (intros x; apply taken_out_chans; [done|by rewrite length_insert]).
  destruct o as [[[chunk|trailers]|]|e| | |]; try done.
  - unfold match_ready. rewrite (on_chan_run _ _ _ ch Hch).
    destruct (send_data_run chunk ch) as [(ch' & -> & Hit)|(ch' & b & ->)]; cbn [fst snd]; [|by apply refused_round].
    unfold mbind, M_bind. rewrite tx_set_none by apply Ht1. cbv beta iota. destruct (put_back i _ (Hins ch')) as [Hi' Hh'].
    split_and!; [done|done|]. unfold full. cbn [body_tx set_body_tx chans set_chans]. intros _. exists ch'.
    split; [|done]. apply list_lookup_insert_eq. by apply lookup_lt_Some in Hch.
  - unfold match_ready. rewrite (on_chan_run _ _ _ ch Hch).
    destruct (send_trailers_run trailers ch) as [(ch' & ->)|(ch' & b & ->)]; cbn [fst snd]; [|by apply refused_round].
    unfold mbind, M_bind. rewrite tx_set_none by apply Ht1. cbv beta iota. destruct (put_back i _ (Hins ch')) as [Hi' Hh'].
    split_and!; [done|done|]. unfold full. cbn [body_tx set_body_tx]. intros Hx. change (can_read_body c = true) in Hx. congruence.
  - by apply drop_round.
  - destruct (send_error_run (E := Error) i (new_body (CauseIo e)) s1 (to_lt _ _ Ht1)) as (l & Hl & He).
    unfold mbind, M_bind. rewrite Hl. cbv beta iota. apply (drop_round i (set_chans l s1)); [by apply taken_out_chans|done].
  - unfold mbind, M_bind. rewrite tx_set_none by apply Ht1. by apply put_back_waits.
Qed.

(** A round of [poll_read] in the body's arm. One that starts with a full channel
    ends with none. *)
Lemma read_body_arm_spec i s :
  taken_out i s ->
  wp (read_body_arm i) (fun o s' => round_ok o s' /\
    ((can_read_body (conn s) = true -> exists c, chans s !! i = Some c /\ item c ≠ None) -> o = Ready true -> body_tx s' = None)) s.
Proof.
  intros Ht. unfold read_body_arm. wp_step. wp_step. destruct (can_read_body (conn s)) eqn:Eb.
  - apply wp_intro. intros s' o Hrun. unfold read_body_in in Hrun. destruct (chan_lookup s i (to_lt _ _ Ht)) as [ch Hch].
    rewrite (on_chan_run _ _ _ ch Hch) in Hrun. assert (Hpr : (chan_poll_ready ch).1 = ch).
    { unfold chan_poll_ready, mbind, M_bind, get, fail, mret, M_ret, pend. repeat case_match; done. }
    rewrite Hpr in Hrun. rewrite (list_insert_id _ _ _ Hch) in Hrun. assert (Hs : set_chans (chans s) s = s) by (by destruct s). rewrite Hs in Hrun.
    assert (Hitem : item ch ≠ None -> (chan_poll_ready ch).2 ≠ Ready tt).
    { intros Hit. unfold chan_poll_ready, mbind, M_bind, get, fail, mret, M_ret, pend. rewrite (bool_decide_false _ Hit).
      rewrite andb_false_r. cbn [andb]. by destruct (negb (receiver_open ch)). }
    assert (Hpo : match (chan_poll_ready ch).2 with Panicked | NoFuel => False | _ => True end).
    { unfold chan_poll_ready, mbind, M_bind, get, fail, mret, M_ret, pend. repeat case_match; try done; simplify_eq/=. }
    destruct ((chan_poll_ready ch).2) as [[]|e| | |]; try done.
    + split; [by apply (wp_elim _ _ _ _ _ (pass_frame_spec i s Ht Eb)) in Hrun|].
      intros Hf _. destruct (Hf eq_refl) as (ch' & Hch' & Hit). rewrite Hch in Hch'. injection Hch' as <-. by destruct (Hitem Hit).
    + unfold mbind, M_bind, on_conn, zoom in Hrun. destruct (poll_drain_or_close_read (E := Error) (conn s)) as [c o1] eqn:Ed.
      destruct (drain_phase _ _ _ (dp_conn _ (to_weak _ _ Ht)) Eb Ed) as (-> & Hh & Hb).
      pose proof (poll_drain_or_close_read_keeps (E := Error) (conn s) (dp_conn _ (to_weak _ _ Ht)) Eb) as Hk. unfold wp in Hk.
      rewrite Ed in Hk. destruct Hk as (_ & Hi & _). pose proof (taken_out_conn i s c Ht Hi Hh) as Ht1.
      split; [by apply (wp_elim _ _ _ _ _ (drop_round i _ Ht1 Hb)) in Hrun|]. intros _ _.
      destruct (sender_drop_run (E := Error) i (set_conn c s) (to_lt _ _ Ht1)) as (l & Hl & _).
      rewrite Hl in Hrun. injection Hrun as <- <-. apply Ht.
    + unfold mbind, M_bind in Hrun. rewrite tx_set_none in Hrun by apply Ht. injection Hrun as <- <-. split; [by apply put_back_waits|done].
  - apply wp_intro. intros s' o Hrun. split; [by apply (wp_elim _ _ _ _ _ (drop_round i s Ht Eb)) in Hrun|].
    intros _ _. destruct (sender_drop_run (E := Error) i s (to_lt _ _ Ht)) as (l & Hl & _).
    unfold mbind, M_bind in Hrun. rewrite Hl in Hrun. injection Hrun as <- <-. apply Ht.
Qed.

Lemma dp_close_ok {E} s : dp_weak s -> wp (E := E) dp_close (fun o s' => o = Ready tt /\ dp_inv s' /\ is_closing s' = true) s.
Proof.
  intros [Hc Hd Ht]. unfold dp_close, on_conn, close_read, close_write, on_state. wp_step. wp_step. wp_step. apply wp_zoom. wp_step.
  apply wp_zoom. wp_step. split; [done|]. split; [|done]. destruct (st_close_read_inv _ Hc) as [Hc1 _].
  destruct (st_close_write_inv _ Hc1) as [Hc2 _]. split; [by split|done|done].
Qed.

Lemma drop_incoming_ok {E} body s :
  match body with InH1 i _ => (i < length (chans s))%nat | InEmpty => True end -> dp_weak s ->
  exists l, drop_incoming (E := E) body s = (set_chans l s, Ready tt) /\ length l = length (chans s).
Proof.
  intros Hb _. destruct body as [i len|]; cbn; [by apply receiver_drop_run|]. exists (chans s). by destruct s.
Qed.

Lemma set_chans_inv s l : dp_inv s -> length l = length (chans s) -> dp_inv (set_chans l s).
Proof. intros [[Hc Hd Ht] Ho Hb] Hl. split; [split; try done; cbn; by rewrite Hl|done|done]. Qed.

Lemma set_chans_weak s l : dp_weak s -> length l = length (chans s) -> dp_weak (set_chans l s).
Proof. intros [Hc Hd Ht] Hl. split; try done. cbn. by rewrite Hl. Qed.

Lemma recv_response_ok head body s :
  match body with InH1 i _ => (i < length (chans s))%nat | InEmpty => True end -> dp_inv s ->
  wp (recv_response head body) (fun o s' => dp_ok o s' /\ o ≠ Pending /\ conn s' = conn s /\ is_closing s' = is_closing s) s.
Proof.
  intros Hb Hi. pose proof Hi as [[Hc Hd Ht] Ho Hbt]. unfold recv_response, on_dispatch. wp_step. apply wp_zoom, wp_intro. intros d o Hr.
  destruct (d_recv_msg_spec _ _ _ _ Hd Hr) as (Hd' & Hop & Hs & Hnp). set (s1 := set_dispatch d s).
  assert (Hi1 : dp_inv s1) by (split; [by split|cbn; by rewrite Hop|done]).
  destruct (drop_incoming_ok (E := Error) body s1 Hb (dp_is_weak _ Hi1)) as (l & Hl & He).
  destruct o as [dropped|e| | |]; try done.
  - destruct dropped; [|wp_step; split_and!; [by apply dp_ok_ready|done..]]. unfold wp. rewrite Hl.
    split_and!; [apply dp_ok_ready; by apply set_chans_inv|done..].
  - wp_step. unfold wp. rewrite Hl. split_and!; [|done..]. apply dp_ok_failed. apply set_chans_weak; [apply Hi1|done].
Qed.

(** The channel of a response body. *)
Lemma open_channel_ok l wants s :
  dp_weak s -> (is_closing s = false -> d_open (dispatch s) = true) -> (l = ZERO -> can_read_body (conn s) = false) ->
  wp (E := Error) (if decide (l = ZERO) then mret InEmpty
      else
        s ← get;
        let i := length (chans s) in
        modify (fun s => set_chans (chans s ++ [channel wants]) s);;
        tx_set i;;
        mret (InH1 i l))
    (fun o s' => dp_inv s' /\ conn s' = conn s /\ is_closing s' = is_closing s /\
      exists body, o = Ready body /\ match body with InH1 i _ => (i < length (chans s'))%nat | InEmpty => True end) s.
Proof.
  intros [Hc Hd Ht] Ho Hb. destruct (decide (l = ZERO)) as [Hz|Hz].
  { wp_step. split_and!; [split; [by split|done|by rewrite Hb]|done|done|by exists InEmpty]. }
  wp_step. wp_step. cbv zeta. wp_step. wp_step. set (s1 := set_chans _ s). wp_step. unfold tx_set. wp_step. wp_step.
  assert (Hlen : length (chans s1) = S (length (chans s))) by (cbn; rewrite length_app; cbn; lia).
  assert (Hfin : forall s2, length (chans s2) = length (chans s1) -> conn s2 = conn s -> is_closing s2 = is_closing s -> dispatch s2 = dispatch s ->
    dp_inv (set_body_tx (Some (length (chans s))) s2)).
  { intros s2 Hl Hc2 Hcl Hd2. split; [split; cbn; [by rewrite Hc2|by rewrite Hd2|]|cbn; by rewrite Hcl, Hd2|cbn; by eauto].
    intros i [= <-]. lia. }
  wp_step. destruct (body_tx s1) as [old|] eqn:Etx.
  - destruct (sender_drop_run (E := Error) old s1) as (cs & Hcs & Hl); [specialize (Ht old Etx); lia|]. unfold wp at 1. rewrite Hcs.
    wp_step. wp_step. split_and!; [by apply Hfin|done|done|]. eexists. split; [done|]. cbn. lia.
  - repeat wp_step. split_and!; [by apply Hfin|done|done|]. eexists. split; [done|]. cbn in Hlen. cbn. lia.
Qed.

Lemma on_upgrade_ok {E} s : dp_inv s -> wp (E := E) (on_conn on_upgrade) (fun o s' => o = Ready tt /\ dp_inv s' /\
  can_read_head (conn s') = can_read_head (conn s) /\ is_closing s' = is_closing s /\ chans s' = chans s) s.
Proof.
  intros [[Hc Hd Ht] Ho Hb]. unfold on_conn. apply wp_zoom. unfold on_upgrade, on_state. wp_step. split_and!; try done.
  split; [split; try done|done|done]. destruct (exec_ok (conn s) OOnUpgrade _ _ Hc I eq_refl) as (_ & Hi & _). exact Hi.
Qed.

(** [poll_read_head]: a head that is not read waits, and after it none is read. *)
Lemma dp_poll_read_head_spec s :
  dp_inv s -> can_read_head (conn s) = true ->
  wp dp_poll_read_head (fun o s' => dp_ok o s' /\ (o = Ready tt -> is_closing s' = true \/ can_read_head (conn s') = false)) s.
Proof.
  intros Hi Hcan. pose proof Hi as [[Hc Hd Ht] Ho Hb]. unfold dp_poll_read_head, on_dispatch at 1. wp_step. wp_step. apply wp_zoom, wp_intro.
  intros d o Hr. destruct (d_poll_ready_spec _ _ _ Hd Hr) as (Hd' & Hop & Hs). set (s1 := set_dispatch d s).
  assert (Hi1 : dp_inv s1) by (split; [by split|cbn; by rewrite Hop|done]).
  destruct o as [[]|[]| | |]; try done; repeat wp_step; cbn [negb].
  2: { wp_step. wp_step. eapply wp_mono; [apply dp_close_ok; destruct Hi1 as [[] _ _]; by split|].
       intros o s' (-> & Hi' & Hcl). split; [by apply dp_ok_ready|by left]. }
  wp_step. unfold on_conn at 1. apply wp_zoom, wp_intro. intros c o Hp. change (conn s1) with (conn s) in Hp.
  pose proof (poll_read_head_phase _ _ _ Hc Hcan Hp) as Hph.
  pose proof (wp_elim _ _ _ _ _ (poll_read_head_spec (conn s) Hc Hcan) Hp) as [(Hso & Hi' & _) Hpost].
  set (s2 := set_conn c s1). assert (Hw2 : dp_weak s2) by (by split).
  destruct o as [[[[head l] wants]|]|e| | |]; try done.
  - destruct Hph as [Hh Hz]. wp_step. eapply wp_mono; [apply (open_channel_ok l _ s2); [done|apply Hi1|exact Hz]|].
    intros o s3 (Hi3 & Hc3 & Hcl3 & body & -> & Hbody). wp_step.
    assert (Hfin : forall s4, dp_inv s4 -> can_read_head (conn s4) = false -> chans s4 = chans s3 ->
      wp (recv_response head body) (fun o s' => dp_ok o s' /\ (o = Ready tt -> is_closing s' = true \/ can_read_head (conn s') = false)) s4).
    { intros s4 Hi4 Hh4 Hch4. eapply wp_mono; [apply recv_response_ok; [by rewrite Hch4|done]|].
      intros o s5 (Hok & _ & Hc5 & _). split; [done|]. intros _. right. by rewrite Hc5. }
    destruct (wants_contains wants WANTS_UPGRADE).
    + eapply wp_mono; [by apply on_upgrade_ok|]. intros o s4 (-> & Hi4 & Hh4 & _ & Hch4). apply Hfin; [done|by rewrite Hh4, Hc3|done].
    + wp_step. apply Hfin; [done|by rewrite Hc3|done].
  - wp_step. apply wp_zoom, wp_intro. intros d2 o Hr2. destruct (d_recv_msg_spec _ _ _ _ (dp_dispatch _ Hw2) Hr2) as (Hd2 & Hop2 & Hs2 & Hnp2).
    destruct o as [b|e'| | |]; try done.
    + eapply wp_mono; [apply dp_close_ok; by split|]. intros o s3 (-> & Hi3 & Hcl). split; [by apply dp_ok_ready|by left].
    + split; [|done]. apply dp_ok_failed. by split.
  - split; [|done]. split_and!; [done|done|]. intros _. split; [done|apply Hi1|]. cbn. unfold head_phase in Hph. by rewrite Hph.
Qed.

(** The rounds of [poll_read], from the last to the first. *)
Lemma read_loop_idle k s :
  dp_inv s -> can_read_head (conn s) = false -> body_tx s = None -> wp (read_loop (S k)) dp_ok s.
Proof.
  intros Hi Hh Htx. cbn [read_loop]. wp_step. wp_step. destruct (is_closing s) eqn:Ecl; [wp_step; by apply dp_ok_ready|].
  rewrite Hh. unfold tx_take. repeat wp_step. rewrite Htx. pose proof Hi as [[Hc Hd Ht] Ho Hb].
  assert (Hrb : can_read_body (conn s) = false) by (apply not_true_iff_false; intros Hx; destruct (Hb Hx); congruence).
  unfold on_conn. apply wp_zoom. change (conn (set_body_tx None s)) with (conn s).
  apply wp_intro. intros c o Hrun. pose proof (wp_elim _ _ _ _ _ (keep_alive_calm (conn s) Hc) Hrun) as Hcalm.
  pose proof (poll_read_keep_alive_keeps (conn s) Hc) as Hk. unfold not_reading in Hk. rewrite Hh, Hrb in Hk.
  destruct (wp_elim _ _ _ _ _ (Hk eq_refl) Hrun) as (Hs & Hi' & _). split_and!; [done|by split|].
  intros _. split; [by split|done|]. cbn. intros Hx%(calm_read_body _ _ Hcalm). congruence.
Qed.

Lemma take_out i s : dp_inv s -> can_read_head (conn s) = false -> body_tx s = Some i -> taken_out i (set_body_tx None s).
Proof. intros [[Hc Hd Ht] Ho Hb] Hh Htx. split; [by split|done|done|by apply Ht|done]. Qed.

(** The body's arm of a round, and what follows. *)
Lemma read_loop_body k i s :
  dp_inv s -> can_read_head (conn s) = false -> body_tx s = Some i -> is_closing s = false ->
  (forall s', dp_inv s' -> can_read_head (conn s') = false -> full s' -> (full s -> body_tx s' = None) -> wp (read_loop k) dp_ok s') ->
  wp (read_loop (S k)) dp_ok s.
Proof.
  intros Hi Hh Htx Hcl Hk. cbn [read_loop]. wp_step. wp_step. rewrite Hcl, Hh. unfold tx_take. repeat wp_step. rewrite Htx. wp_step.
  pose proof (take_out i s Hi Hh Htx) as Ht. eapply wp_mono; [by apply read_body_arm_spec|].
  intros o s' [(Hi' & Hh' & Ho) Hfull]. destruct o as [[]| | | |]; try done.
  - apply Hk; try done. intros Hf. apply Hfull; [|done]. unfold full in Hf. by rewrite Htx in Hf.
  - wp_step. split_and!; [done|apply Hi'|done].
Qed.

Lemma read_loop_full k s :
  dp_inv s -> can_read_head (conn s) = false -> full s -> wp (read_loop (S (S k))) dp_ok s.
Proof.
  intros Hi Hh Hf. destruct (body_tx s) as [i|] eqn:Etx; [|by apply read_loop_idle].
  destruct (is_closing s) eqn:Ecl; [cbn [read_loop]; repeat wp_step; rewrite Ecl; wp_step; by apply dp_ok_ready|].
  apply (read_loop_body _ i); try done. intros s' Hi' Hh' _ Hn. apply read_loop_idle; auto.
Qed.

Lemma read_loop_after_head k s :
  dp_inv s -> can_read_head (conn s) = false -> wp (read_loop (S (S (S k)))) dp_ok s.
Proof.
  intros Hi Hh. destruct (body_tx s) as [i|] eqn:Etx; [|by apply read_loop_idle].
  destruct (is_closing s) eqn:Ecl; [cbn [read_loop]; repeat wp_step; rewrite Ecl; wp_step; by apply dp_ok_ready|].
  apply (read_loop_body _ i); try done. intros s' Hi' Hh' Hf _. by apply read_loop_full.
Qed.

Lemma dp_poll_read_spec s : dp_inv s -> wp dp_poll_read dp_ok s.
Proof.
  intros Hi. unfold dp_poll_read. destruct (can_read_head (conn s)) eqn:Eh; [|by apply read_loop_after_head].
  set (n := 4%nat). cbn [read_loop]. wp_step. wp_step. destruct (is_closing s) eqn:Ecl; [wp_step; by apply dp_ok_ready|].
  rewrite Eh. wp_step. eapply wp_mono; [by apply dp_poll_read_head_spec|]. intros o s' [(Hs & Hw & Hi') Hn].
  destruct o as [[]|e| | |]; try done. specialize (Hi' ltac:(done)). destruct (Hn eq_refl) as [Hcl|Hh].
  - subst n. cbn [read_loop]. repeat wp_step. rewrite Hcl. wp_step. by apply dp_ok_ready.
  - by apply (read_loop_after_head 1).
Qed.
End laws.
