(* ===== verification/DispatcherTheorems.v ===== *)
(** * DispatcherTheorems

    The writing half of the dispatcher keeps its invariant and ends, and so does
    a whole poll of the task. The body of a response is passed on as the connection
    gives it, and ends without an error only when the connection said so. *)

From stdpp Require Import prelude strings.
From Stdlib Require Import ZArith Lia.
From S2P Require Import Prelude Bytes Crates Errors Length Headers MemRead Decode BodyTheorems BufList WriteBuf Transport Buffered BufferedLaws Encode EncodeLaws Message Role RoleLaws RoleParse Conn ConnInv ConnRead ConnWrite ConnWire ConnPhase ConnTheorems BodyChan DispatchChan Client Dispatcher DispatcherLaws.
Local Open Scope Z_scope.

Section laws.
Context `{HeaderSyntaxLaws} `{HeaderMapLaws Hm} `{HttparseHeaders} `{HttparseResponse PC}
  `{!HttparseResponseLaws PC} `{TransportLaws T V} `{!BytesMutLaws V} `{BufCombinatorsLaws} `{BufLaws B}
  {D Bs : Type} `{!Dispatch D Bs Hm} `{!HttpBody Bs B Hm} `{!HttpBodyLaws Bs B Hm} `{!DispatchLaws D Bs Hm}.
Abbreviation C := (Conn (Hm := Hm) (PC := PC) (T := T) (V := V) (B := B)).
Abbreviation Dp := (Dispatcher (Hm := Hm) (PC := PC) (T := T) (V := V) (B := B) (D := D) (Bs := Bs)).
Variable vec_capacity : C -> Z.
Implicit Type s : Dp.

(** ** Writing to the connection *)

(** A write of the connection leaves reading alone. *)
Definition write_ok {E A} (c : C) (o : outcome E A) (c' : C) : Prop :=
  sound o /\ conn_inv c' /\ reading (c_state c') = reading (c_state c).

Lemma set_conn_inv s c : dp_inv s -> conn_inv c -> (can_read_body c = true -> can_read_body (conn s) = true) -> dp_inv (set_conn c s).
Proof. intros [[Hc Hd Ht] Ho Hb] Hi Hr. split; [by split|done|]. cbn. auto. Qed.

Lemma on_conn_write {E A} (m : M C E A) s (P : outcome E A -> C -> Prop) :
  dp_inv s -> wp m (fun o c => write_ok (conn s) o c /\ P o c) (conn s) ->
  wp (on_conn m) (fun o s' => sound o /\ exists c, s' = set_conn c s /\ dp_inv s' /\ can_read_body c = can_read_body (conn s) /\ P o c) s.
Proof.
  intros Hi Hm'. unfold on_conn. apply wp_zoom. eapply wp_mono; [exact Hm'|]. intros o c [(Hs & Hc & Hr) HP]. split; [done|].
  exists c. assert (can_read_body c = can_read_body (conn s)) as Hb by (unfold can_read_body; by rewrite Hr).
  split_and!; [done| |done|done]. apply set_conn_inv; [done|done|]. by rewrite Hb.
Qed.

Lemma write_head_ok {E} head (body : Bs) (c : C) :
  conn_inv c -> can_write_head c = true ->
  Forall (fun v => forallb visible_ascii v = true) (hm_get_all (head_headers head) H_TRANSFER_ENCODING) ->
  wp (E := E) (write_head head (body_type body)) (fun o c' => write_ok c o c' /\ o = Ready tt) c.
Proof.
  intros Hi Hcan Hte. assert (Hreq : request_ok head (body_type body)).
  { split; [done|]. unfold body_type. destruct (hb_is_end_stream body); [done|]. destruct (hb_size_exact body) eqn:Es; [|done].
    by apply (hb_size_spec body). }
  eapply wp_mono; [by apply write_head_wrote|]. intros o c' (-> & enc & _ & Hw & _ & _ & _ & Hi' & _).
  unfold write_ok. split_and!; try done. apply (wrote_reading _ _ _ Hw).
Qed.

Lemma write_body_ok {E} cap (chunk : B) (c : C) :
  conn_inv c -> can_write_body c = true -> can_buffer_body c = true -> msg_ok chunk ->
  wp (E := E) (write_body cap chunk) (fun o c' => write_ok c o c' /\ o = Ready tt) c.
Proof.
  intros Hi Hcw Hcb Hm'. unfold can_write_body in Hcw. destruct (writing (c_state c)) eqn:Ew; try done.
  eapply wp_mono; [by apply write_body_wrote|]. intros o c' (-> & Hw & _ & Hi' & _). unfold write_ok. split_and!; try done. apply (wrote_reading _ _ _ Hw).
Qed.

Lemma write_body_and_end_ok {E} cap (chunk : B) (c : C) :
  conn_inv c -> can_write_body c = true -> can_buffer_body c = true -> msg_ok chunk ->
  wp (E := E) (write_body_and_end cap chunk) (fun o c' => write_ok c o c' /\ o = Ready tt /\ can_write_body c' = false) c.
Proof.
  intros Hi Hcw Hcb Hm'. unfold can_write_body in Hcw. destruct (writing (c_state c)) eqn:Ew; try done.
  eapply wp_mono; [by apply write_body_and_end_wrote|]. intros o c' (-> & Hw & Hst & Hi' & _). unfold write_ok. split_and!; try done; [apply (wrote_reading _ _ _ Hw)|].
  unfold can_write_body. rewrite Hst. cbn. by repeat case_match.
Qed.

Lemma end_body_ok cap (c : C) :
  conn_inv c -> can_write_body c = true ->
  wp (end_body cap) (fun o c' => write_ok c o c' /\ can_write_body c' = false) c.
Proof.
  intros Hi Hcw. unfold can_write_body in Hcw. destruct (writing (c_state c)) eqn:Ew; try done.
  eapply wp_mono; [by apply end_body_wrote|]. intros o c' (-> & Hw & Hst & Hi' & _). unfold write_ok. split_and!.
  - by destruct (enc_kind _).
  - done.
  - apply (wrote_reading _ _ _ Hw).
  - unfold can_write_body. rewrite Hst. cbn. by destruct (enc_kind _).
Qed.

Lemma write_trailers_ok {E} cap (t : Hm) (c : C) :
  conn_inv c -> can_write_body c = true -> can_buffer_body c = true ->
  wp (E := E) (write_trailers cap t) (fun o c' => write_ok c o c' /\ True) c.
Proof.
  intros Hi Hcw Hcb. apply wp_intro. intros c' o Hrun.
  destruct (wp_elim _ _ _ _ _ (write_trailers_wrote cap t c Hi Hcw Hcb) Hrun) as (Hs & Hi' & _).
  pose proof (wp_elim _ _ _ _ _ (write_trailers_reading cap t c) Hrun). unfold write_ok. by split_and!.
Qed.

(** ** The loop of [poll_write] *)

(** What writing leaves alone: the channel of the response body, and whether the
    body is still to be read, unless the task closes. *)
Record kept s s' : Prop := {
  kept_tx : body_tx s' = body_tx s;
  kept_chans : chans s' = chans s;
  kept_closing : is_closing s = true -> is_closing s' = true;
  kept_body : is_closing s' = true \/ can_read_body (conn s') = can_read_body (conn s);
}.

#[local] Instance kept_preorder : PreOrder kept.
Proof.
  split; [intros s; split; auto|]. intros s1 s2 s3 [J1 J2 J3 J4] [K1 K2 K3 K4]. split; [congruence..|auto|].
  destruct K4 as [K4|K4]; [by left|]. destruct J4 as [J4|J4]; [left; auto|right; congruence].
Qed.

(** What a round leaves alone besides. *)
Definition round_frame s s' : Prop := dispatch s' = dispatch s /\ kept s s' /\ is_closing s' = is_closing s.

(** A round that goes on comes closer to the end. *)
Definition step_ok s (o : outcome Error unit) s' : Prop :=
  dp_ok o s' /\ round_frame s s' /\ (o = Ready tt -> (write_rounds s' < write_rounds s)%nat).

Lemma dp_poll_flush_spec s :
  dp_inv s -> wp dp_poll_flush (fun o s' => dp_ok o s' /\ round_frame s s' /\
    (can_buffer_body (conn s) = false -> o = Ready tt -> (write_rounds s' < write_rounds s)%nat)) s.
Proof.
  intros Hi. unfold dp_poll_flush, on_conn. wp_step. apply wp_zoom, wp_intro. intros c o Hrun. pose proof Hi as [[Hc Hd Ht] Ho Hb].
  destruct (flush_phase _ _ _ Hc Hrun) as (_ & Hrb & Hwb & Hbuf).
  destruct (wp_elim _ _ _ _ _ (conn_poll_flush_keeps (conn s) Hc) Hrun) as (Hs & Hi' & _).
  assert (dp_inv (set_conn c s)) as Hi1 by (apply set_conn_inv; [done|done|by rewrite Hrb]).
  assert (Hr : can_buffer_body (conn s) = false -> o = Ready tt -> (write_rounds (set_conn c s) < write_rounds s)%nat).
  { intros Hf Hr. unfold write_rounds. cbn [body_rx conn set_conn]. rewrite (Hbuf Hr), Hf.
    destruct (can_write_body c); [rewrite Hwb by done|destruct (can_write_body (conn s))]; lia. }
  assert (round_frame s (set_conn c s)) as Hf by (split_and!; [done| |done]; split; auto).
  destruct o as [[]|e| | |]; try done; (split; [|split; [exact Hf|by auto]]); first [by apply dp_ok_ready|apply dp_ok_failed; apply Hi1|by split_and!; [|apply Hi1|]].
Qed.

(** Writes at the vector's capacity. *)
Lemma with_cap_write {E A} (f : Z -> M C E A) s (P : outcome E A -> C -> Prop) :
  dp_inv s -> (forall cap, wp (f cap) (fun o c => write_ok (conn s) o c /\ P o c) (conn s)) ->
  wp (with_cap vec_capacity f) (fun o s' => sound o /\ exists c, s' = set_conn c s /\ dp_inv s' /\ can_read_body c = can_read_body (conn s) /\ P o c) s.
Proof. intros Hi Hf. unfold with_cap. wp_step. wp_step. by apply on_conn_write. Qed.

Lemma set_body_rx_inv s b : dp_inv s -> dp_inv (set_body_rx b s).
Proof. intros [[Hc Hd Ht] Ho Hb]. by split; [split|..]. Qed.

(** A round that clears the body is a step forward. *)
Lemma cleared_rounds s s' b : body_rx s = Some b -> body_rx s' = None -> (write_rounds s' < write_rounds s)%nat.
Proof.
  intros Hb Hn. unfold write_rounds. rewrite Hb, Hn. destruct (can_write_body (conn s')), (can_buffer_body (conn s')); lia.
Qed.

Lemma frame_conn s c : can_read_body c = can_read_body (conn s) -> round_frame s (set_conn c s).
Proof. intros Hb. split_and!; [done| |done]. split; auto. Qed.

Lemma frame_trans s1 s2 s3 : round_frame s1 s2 -> round_frame s2 s3 -> round_frame s1 s3.
Proof. intros (D1 & K1 & C1) (D2 & K2 & C2). split_and!; [congruence|by etrans|congruence]. Qed.

Lemma frame_body_rx s b : round_frame s (set_body_rx b s).
Proof. split_and!; [done| |done]. split; auto. Qed.

(** The end of a round that clears the body, however it came to it. *)
Lemma clear_after s s1 b (o : outcome Error unit) :
  body_rx s = Some b -> dp_inv s1 -> round_frame s s1 -> sound o ->
  wp (match_ready (fun s => (s, o)) (fun _ => clear_body) (fun e => clear_body;; fail e)) (step_ok s) s1.
Proof.
  intros Hb Hi Hf Hs. pose proof (set_body_rx_inv s1 None Hi) as Hi2. wp_step. unfold wp at 1.
  pose proof (frame_trans _ _ _ Hf (frame_body_rx s1 None)) as Hf2.
  destruct o as [[]|e| | |]; try done; unfold clear_body; repeat wp_step; (split; [|split; [done|]]); try done;
    first [by apply dp_ok_ready|intros _; by eapply cleared_rounds|apply dp_ok_failed; apply Hi2|split_and!; [done|apply Hi|done]].
Qed.

Lemma end_and_clear_spec s s1 b b' :
  body_rx s = Some b -> dp_inv s1 -> round_frame s s1 -> body_rx s1 = Some b' -> can_write_body (conn s1) = true ->
  wp (end_and_clear vec_capacity) (step_ok s) s1.
Proof.
  intros Hb Hi Hf Hb' Hcw. unfold end_and_clear. wp_step.
  eapply wp_mono; [apply (with_cap_write end_body s1 (fun _ _ => True) Hi)|].
  { intros cap. eapply wp_mono; [apply end_body_ok; [apply Hi|done]|]. by intros o c [? _]. }
  intros o s' (Hs & c & -> & Hi' & Hrb & _). pose proof (clear_after s _ b o Hb Hi' (frame_trans _ _ _ Hf (frame_conn _ _ Hrb)) Hs) as Hc.
  unfold wp, match_ready in *. by destruct o as [[]|e| | |].
Qed.

(** One frame of the body. *)
Lemma write_frame_spec s b :
  dp_inv s -> body_rx s = Some b -> can_write_body (conn s) = true -> can_buffer_body (conn s) = true ->
  wp (write_frame vec_capacity) (step_ok s) s.
Proof.
  intros Hi Hb Hcw Hcb. unfold write_frame. wp_step. apply wp_intro. intros s1 o. unfold on_body. rewrite Hb.
  destruct (hb_poll_frame b) as [b' o'] eqn:Ef. intros [= <- <-]. pose proof (hb_poll_frame_spec b b' o' Ef) as Hf.
  pose proof (set_body_rx_inv s (Some b') Hi) as Hi1. set (s1 := set_body_rx (Some b') s) in *.
  pose proof (frame_body_rx s (Some b')) as Hfr. fold s1 in Hfr.
  assert (Hfc : forall c : C, can_read_body c = can_read_body (conn s1) -> round_frame s (set_conn c s1)) by (intros; eapply frame_trans, frame_conn; done).
  assert (Hend : wp (end_and_clear vec_capacity) (step_ok s) s1) by (by apply (end_and_clear_spec s s1 b b')).
  destruct o' as [[f|]|e| | |]; try done.
  - destruct Hf as [Hlt Hchunk].
    assert (Hless : forall c : C, (write_rounds (set_conn c s1) < write_rounds s)%nat).
    { intros c. unfold write_rounds. cbn. rewrite Hb, Hcw, Hcb. destruct (can_write_body c), (can_buffer_body c); lia. }
    assert (Hsame : wp (mret tt) (step_ok s) s1).
    { wp_step. split; [by apply dp_ok_ready|split; [done|]]. intros _. specialize (Hless (conn s1)). by destruct s. }
    destruct f as [chunk|t|]; [| |exact Hsame].
    + wp_step. wp_step. cbn [body_rx s1 set_body_rx]. assert (Hmsg : remaining chunk ≠ 0 -> msg_ok chunk).
      { intros Hne. destruct Hchunk as [Hok Hlen]. split_and!; [done| |done]. intros Hnil. rewrite buf_remaining, Hnil in Hne by done. done. }
      destruct (hb_is_end_stream b'), (remaining chunk =? 0) eqn:Ez; zbool; [exact Hend| |exact Hsame|].
      * wp_step. eapply wp_mono; [apply (with_cap_write _ s1 (fun o _ => o = Ready tt) Hi1)|].
        { intros cap. eapply wp_mono; [apply write_body_and_end_ok; [apply Hi|done|done|auto]|]. by intros o c (? & -> & _). }
        intros o s' (_ & c & -> & Hi' & Hrb & ->). by apply (clear_after s _ b (Ready tt) Hb Hi'); auto.
      * eapply wp_mono; [apply (with_cap_write _ s1 (fun o _ => o = Ready tt) Hi1)|].
        { intros cap. apply write_body_ok; [apply Hi|done|done|auto]. }
        intros o s' (_ & c & -> & Hi' & Hrb & ->). split; [by apply dp_ok_ready|split; auto].
    + wp_step. eapply wp_mono; [apply (with_cap_write _ s1 (fun _ _ => True) Hi1)|].
      { intros cap. apply write_trailers_ok; [apply Hi|done|done]. }
      intros o s' (Hs & c & -> & Hi' & Hrb & _). specialize (Hfc c Hrb). destruct o as [[]|e| | |]; try done.
      * by apply (clear_after s _ b (Ready tt) Hb Hi').
      * split; [apply dp_ok_failed; apply Hi'|by split].
      * split; [split_and!; [done|apply Hi'|done]|by split].
  - unfold clear_body. repeat wp_step. split; [apply dp_ok_failed; by apply (set_body_rx_inv s1 None)|]. split; [|done].
    eapply frame_trans; [exact Hfr|apply frame_body_rx].
  - split; [split_and!; [done|apply Hi1|done]|by split].
Qed.

(** ** Messages *)

Lemma start_message_ok head (body : Bs) s :
  dp_inv s -> can_write_head (conn s) = true ->
  Forall (fun v => forallb visible_ascii v = true) (hm_get_all (head_headers head) H_TRANSFER_ENCODING) ->
  wp (start_message head body) (fun o s' => o = Ready tt /\ dp_inv s' /\ round_frame s s') s.
Proof.
  intros Hi Hcan Hte. unfold start_message.
  assert (Hgo : forall b, wp (on_conn (write_head (E := Error) head (body_type body)))
    (fun o s' => o = Ready tt /\ dp_inv s' /\ round_frame s s') (set_body_rx b s)).
  { intros b. eapply wp_mono; [apply (on_conn_write _ _ (fun o _ => o = Ready tt)); [by apply set_body_rx_inv|]|].
    - apply write_head_ok; [apply Hi|done|done].
    - intros o s' (_ & c & -> & Hi' & Hrb & ->). split; [done|]. split; [done|]. eapply frame_trans; [apply frame_body_rx|by apply frame_conn]. }
  unfold body_type in Hgo. wp_step. destruct (hb_is_end_stream body); repeat wp_step; apply Hgo.
Qed.

(** The loop of [poll_write] keeps the invariant and ends in time, if what
    follows a message does. *)
Lemma write_loop_spec again fuel s :
  dp_inv s -> (write_rounds s < fuel)%nat ->
  (d_should_poll (dispatch s) = true ->
   forall s', dp_inv s' -> d_should_poll (dispatch s') = false -> wp again (fun o s2 => dp_ok o s2 /\ kept s' s2) s') ->
  wp (write_loop vec_capacity again fuel) (fun o s' => dp_ok o s' /\ kept s s') s.
Proof.
  revert s. induction fuel as [|k IH]; intros s Hi Hf Hagain; [lia|]. cbn [write_loop]. wp_step. wp_step.
  destruct (is_closing s) eqn:Ecl; [wp_step; by split; [apply dp_ok_ready|]|].
  assert (Hstep : forall m, wp m (step_ok s) s -> wp (m;; write_loop vec_capacity again k) (fun o s' => dp_ok o s' /\ kept s s') s).
  { intros m Hm'. wp_step. eapply wp_mono; [exact Hm'|]. intros o s' (Hok & (Hd & Hk & _) & Hr).
    destruct o as [[]|e| | |]; try by split; [apply Hok|]. specialize (Hr eq_refl). destruct Hok as (_ & _ & Hi').
    eapply wp_mono; [apply IH; [apply Hi'; done|lia|by rewrite Hd]|]. intros o2 s2 [? ?]. split; [done|by etrans]. }
  destruct (bool_decide _ && can_write_head (conn s) && d_should_poll (dispatch s)) eqn:Ep.
  - zbool. wp_step. unfold on_dispatch. apply wp_zoom, wp_intro. intros d o Hrun. pose proof Hi as [[Hc Hd Ht] Ho Hb].
    destruct (d_poll_msg_spec _ _ _ Hd (Ho Ecl) ltac:(done) Hrun) as [Hd' Hpost].
    destruct o as [[[head body]|]|e| | |]; try done.
    + destruct Hpost as (Hop & Hsp & Hte). wp_step. assert (Hi1 : dp_inv (set_dispatch d s)) by (split; [by split|done|done]).
      eapply wp_mono; [by apply start_message_ok|]. intros o s' (-> & Hi' & Hd2 & Hk2 & _).
      eapply wp_mono; [apply Hagain; [done|done|by rewrite Hd2]|]. intros o2 s2 [? ?]. split; [done|]. transitivity (set_dispatch d s); [split; by auto|by etrans].
    + apply wp_intro. intros s' o Hend. pose proof (wp_elim _ _ _ _ _ (dp_close_ok (E := Error) (set_dispatch d s) ltac:(by split)) Hend) as (-> & Hi' & Hcl).
      split; [by apply dp_ok_ready|]. injection Hend as <-. split; by auto.
    + split; [apply dp_ok_failed; by split|split; by auto].
    + split; [|split; by auto]. split; [done|]. split; [by split|]. intros _. by split.
  - destruct (can_buffer_body (conn s)) eqn:Ecb; cbn [negb].
    + destruct (body_rx s) as [b|] eqn:Eb.
      * destruct (can_write_body (conn s)) eqn:Ecw; cbn [negb]; [apply Hstep; by apply (write_frame_spec s b)|].
        apply Hstep. unfold clear_body. wp_step. split; [apply dp_ok_ready; by apply set_body_rx_inv|]. split; [apply frame_body_rx|].
        intros _. by apply (cleared_rounds s _ b).
      * destruct (can_write_body (conn s)) eqn:Ecw; [|wp_step; split; [by split_and!; [|apply Hi|]|done]].
        apply Hstep. eapply wp_mono; [apply (with_cap_write end_body s (fun _ c => can_write_body c = false) Hi)|].
        { intros cap. apply end_body_ok; [apply Hi|done]. }
        intros o s' (Hs & c & -> & Hi' & Hrb & Hcw'). split; [split_and!; [done|apply Hi'|done]|]. split; [by apply frame_conn|].
        intros _. unfold write_rounds. cbn. rewrite Eb, Ecw, Ecb, Hcw'. destruct (can_buffer_body c); lia.
    + apply Hstep. eapply wp_mono; [by apply dp_poll_flush_spec|]. intros o s' (Hok & Hfr & Hr). split; auto.
Qed.

Lemma dp_poll_write_kept s : dp_inv s -> wp (dp_poll_write vec_capacity) (fun o s' => dp_ok o s' /\ kept s s') s.
Proof.
  intros Hi. unfold dp_poll_write.
  match goal with |- wp (fun s => write_loop _ ?again _ s) ?Q _ => change (wp (write_loop vec_capacity again (S (write_rounds s))) Q s) end.
  apply write_loop_spec; [done|lia|]. intros _ s1 Hi1 Hsp.
  match goal with |- wp (fun s => write_loop _ ?again _ s) ?Q _ => change (wp (write_loop vec_capacity again (S (write_rounds s1))) Q s1) end.
  apply write_loop_spec; [done|lia|]. by rewrite Hsp.
Qed.

Lemma dp_poll_write_spec s : dp_inv s -> wp (dp_poll_write vec_capacity) dp_ok s.
Proof. intros Hi. eapply wp_mono; [by apply dp_poll_write_kept|]. by intros o s' [? _]. Qed.

(** ** Passing on the body of a response *)

(** What a connection gives of a body when it is polled for it. *)
Inductive body_reads : C -> list (Frame Hm) -> C -> Prop :=
| reads_none k : body_reads k [] k
| reads_wait k k1 k2 fs : poll_read_body k = (k1, Pending) -> body_reads k1 fs k2 -> body_reads k fs k2
| reads_frame k k1 k2 f fs : poll_read_body k = (k1, Ready (Some f)) -> body_reads k1 fs k2 -> body_reads k (f :: fs) k2.

Lemma body_reads_app k1 k2 k3 fs fs' : body_reads k1 fs k2 -> body_reads k2 fs' k3 -> body_reads k1 (fs ++ fs') k3.
Proof. induction 1; intros; [done|eapply reads_wait; by eauto|eapply reads_frame; by eauto]. Qed.

(** What its channel holds for it. *)
Definition frame_data (f : Frame Hm) : option (result Error bytes) := match f with Data b => Some (Ok b) | Trailers _ => None end.

(** The body has no more: the connection said so, or gave its last frame. *)
Definition body_over (k : C) : Prop := can_read_body k = false \/ exists k', poll_read_body k = (k', Ready None).

(** What happens to channel [i], [c], when its body is read from the connection
    [k0]: [tx], [k] and [c'] are the sender, the connection and the channel
    afterwards. It is still held, or it is closed because the body is over or
    because reading it failed, and then the channel has the error. *)
Definition body_fate (i : nat) (k0 : C) (c : Chan Hm) (tx : option nat) (k : C) (c' : Chan Hm) : Prop :=
  receiver_open c' = true /\ exists fs k1, body_reads k0 fs k1 /\
  match tx with
  | Some j => j = i /\ k = k1 /\ sender_open c' = sender_open c /\ in_flight c' = in_flight c ++ omap frame_data fs
  | None => sender_open c' = false /\
      (body_over k1 /\ in_flight c' = in_flight c ++ omap frame_data fs \/
       exists e k', poll_read_body k1 = (k', Failed e) /\ in_flight c' = in_flight c ++ omap frame_data fs ++ [Err (new_body (CauseIo e))])
  end.

Lemma body_fate_trans i k0 c k1 c1 tx k2 c2 : body_fate i k0 c (Some i) k1 c1 -> body_fate i k1 c1 tx k2 c2 -> body_fate i k0 c tx k2 c2.
Proof.
  intros (Hr1 & fs1 & ? & Hb1 & _ & <- & Hs1 & Hf1) (Hr2 & fs2 & k3 & Hb2 & Hx). split; [done|]. exists (fs1 ++ fs2), k3. split; [by eapply body_reads_app|].
  rewrite omap_app. destruct tx as [j|].
  - destruct Hx as (-> & -> & Hs2 & Hf2). rewrite Hf2, Hf1, <-!app_assoc, Hs2. by split_and!.
  - destruct Hx as [Hs2 [[Ho Hf2]|(e & k' & Hk & Hf2)]]; (split; [done|]).
    + left. split; [done|]. by rewrite Hf2, Hf1, <-app_assoc.
    + right. exists e, k'. split; [done|]. by rewrite Hf2, Hf1, <-!app_assoc.
Qed.

(** A round, with the sender taken out. *)
Definition arm_fate (i : nat) s (c : Chan Hm) (o : outcome Error bool) s' : Prop :=
  exists tx k c', s' = set_body_tx tx (set_chans (<[i := c']> (chans s)) (set_conn k s)) /\ body_fate i (conn s) c tx k c' /\
  match o with Ready true => True | Ready false => tx = Some i /\ can_read_body k = true | _ => False end.

Lemma chan_ready_room (c : Chan Hm) : (chan_poll_ready c).2 = Ready tt ->
  receiver_open c = true /\ want c = true /\ item c = None /\ pending_error c = None.
Proof.
  unfold chan_poll_ready, mbind, M_bind, get, fail, mret, M_ret, pend. destruct (receiver_open c), (want c), (item c), (pending_error c); cbn; by intros [=].
Qed.

(** The sender is put back, or dropped. *)
Lemma arm_held i s c k c' fs b :
  taken_out i s -> (i < length (chans s))%nat -> receiver_open c' = true -> body_reads (conn s) fs k -> sender_open c' = sender_open c ->
  in_flight c' = in_flight c ++ omap frame_data fs -> (b = false -> can_read_body k = true) ->
  wp (tx_set i;; mret b) (arm_fate i s c) (set_chans (<[i := c']> (chans s)) (set_conn k s)).
Proof.
  intros Ht Hlt Hr Hb Hs Hf Hw. unfold wp, mbind, M_bind. rewrite tx_set_none by apply Ht. cbv beta iota. exists (Some i), k, c'. split; [done|]. split.
  - split; [done|]. by exists fs, k.
  - destruct b; [done|]. split; [done|by apply Hw].
Qed.

Lemma arm_dropped i s c k c' fs k1 :
  (i < length (chans s))%nat -> body_tx s = None -> receiver_open c' = true -> body_reads (conn s) fs k1 ->
  (body_over k1 /\ in_flight c' = in_flight c ++ omap frame_data fs \/
   exists e k', poll_read_body k1 = (k', Failed e) /\ in_flight c' = in_flight c ++ omap frame_data fs ++ [Err (new_body (CauseIo e))]) ->
  wp (on_chan i sender_drop;; mret true) (arm_fate i s c) (set_chans (<[i := c']> (chans s)) (set_conn k s)).
Proof.
  intros Hlt Htx Hr Hb Hd. unfold wp, mbind, M_bind. rewrite (on_chan_run i _ _ c') by (cbn; by apply list_lookup_insert_eq). cbn [sender_drop modify fst snd]. cbv beta iota.
  cbn [set_chans chans set_conn]. rewrite list_insert_insert_eq.
  exists None, k, (sender_drop (E := Error) c').1. split; [by destruct s; cbn in *; subst|]. split; [|done]. split; [by cbn; rewrite Hr|]. exists fs, k1. split; [done|].
  split; [by cbn; rewrite Hr|]. assert (in_flight (sender_drop (E := Error) c').1 = in_flight c') as -> by (cbn; by rewrite Hr). done.
Qed.

Lemma pass_frame_fate i s c :
  taken_out i s -> chans s !! i = Some c -> can_read_body (conn s) = true -> (chan_poll_ready c).2 = Ready tt -> wp (pass_frame i) (arm_fate i s c) s.
Proof.
  intros Ht Hc Hb (Hro & Hwa & Hit & Hpe)%chan_ready_room. unfold wp, pass_frame, on_conn, zoom. destruct (poll_read_body (conn s)) as [k o] eqn:Er.
  pose proof (poll_read_body_phase _ _ _ (dp_conn _ (to_weak _ _ Ht)) Hb Er) as [_ Hphase].
  pose proof (poll_read_body_keeps (conn s) (dp_conn _ (to_weak _ _ Ht)) Hb) as Hk. unfold wp in Hk. rewrite Er in Hk. destruct Hk as (Hso & _).
  pose proof (lookup_lt_Some _ _ _ Hc) as Hlt. assert (Hsame : set_conn k s = set_chans (<[i := c]> (chans s)) (set_conn k s)).
  { rewrite list_insert_id by done. by destruct s. }
  destruct c as [it pe tr so ro wa ts te sw rw]. cbn in Hro, Hwa, Hit, Hpe. subst. set (c := MkChan None None tr so true true ts te sw rw) in *.
  assert (Hfr : forall f, poll_read_body (conn s) = (k, Ready (Some f)) -> body_reads (conn s) [f] k) by (intros; by eapply reads_frame, reads_none).
  destruct o as [[[chunk|ts']|]|e| | |]; try done.
  - unfold match_ready. rewrite (on_chan_run i _ (set_conn k s) c Hc). apply (arm_held i s c k _ [Data chunk] true Ht Hlt); [done|by auto|done|done|done].
  - unfold match_ready. rewrite (on_chan_run i _ (set_conn k s) c Hc). subst c. unfold send_trailers, mbind, M_bind, get, modify, fail. cbn [trailers_sent]. destruct ts; cbn [fst snd].
    + cbn [conn set_chans set_conn]. rewrite Hphase. apply (arm_dropped i s _ k _ [Trailers ts'] k Hlt (to_tx _ _ Ht)); [done|by auto|]. left. split; [by left|done].
    + apply (arm_held i s _ k _ [Trailers ts'] true Ht Hlt); [done|by auto|done|done|done].
  - rewrite Hsame. apply (arm_dropped i s c k c [] (conn s) Hlt (to_tx _ _ Ht)); [done|constructor|]. left. split; [right; by eauto|by rewrite app_nil_r].
  - unfold mbind at 1, M_bind at 1. rewrite (on_chan_run i _ (set_conn k s) c Hc). cbn [fst snd]. cbv beta iota.
    apply (arm_dropped i s c k _ [] (conn s) Hlt (to_tx _ _ Ht)); [done|constructor|]. right. by exists e, k.
  - rewrite Hsame. apply (arm_held i s c k c [] false Ht Hlt); [done|by eapply reads_wait; [|constructor]|done|by rewrite app_nil_r|done].
Qed.

Lemma read_body_arm_fate i s c :
  taken_out i s -> chans s !! i = Some c -> receiver_open c = true -> wp (read_body_arm i) (arm_fate i s c) s.
Proof.
  intros Ht Hc Hr. pose proof (lookup_lt_Some _ _ _ Hc) as Hlt. assert (Hsame : s = set_chans (<[i := c]> (chans s)) (set_conn (conn s) s)).
  { rewrite list_insert_id by done. by destruct s. }
  unfold read_body_arm. wp_step. wp_step. destruct (can_read_body (conn s)) eqn:Eb.
  - unfold wp, read_body_in. rewrite (on_chan_run i _ _ c Hc). assert (Hpr : (chan_poll_ready c).1 = c).
    { unfold chan_poll_ready, mbind, M_bind, get, fail, mret, M_ret, pend. repeat case_match; done. }
    rewrite Hpr, (list_insert_id _ _ _ Hc). assert (set_chans (chans s) s = s) as -> by (by destruct s).
    destruct ((chan_poll_ready c).2) as [[]|e| | |] eqn:Ec.
    + by apply pass_frame_fate.
    + exfalso. revert Ec. unfold chan_poll_ready, mbind, M_bind, get, fail, mret, M_ret, pend. rewrite Hr. by destruct (_ && _).
    + pose proof (arm_held i s c (conn s) c [] false Ht Hlt Hr (reads_none _) eq_refl ltac:(by rewrite app_nil_r) ltac:(done)) as Hx. by rewrite <-Hsame in Hx.
    + exfalso. revert Ec. unfold chan_poll_ready, mbind, M_bind, get, fail, mret, M_ret, pend. rewrite Hr. by destruct (_ && _).
    + exfalso. revert Ec. unfold chan_poll_ready, mbind, M_bind, get, fail, mret, M_ret, pend. rewrite Hr. by destruct (_ && _).
  - assert (Hover : body_over (conn s) /\ in_flight c = in_flight c ++ omap frame_data []) by (split; [by left|by rewrite app_nil_r]).
    pose proof (arm_dropped i s c (conn s) c [] (conn s) Hlt (to_tx _ _ Ht) Hr (reads_none _) (or_introl Hover)) as Hx. by rewrite <-Hsame in Hx.
Qed.

(** The rounds of [poll_read], while the body is passed on. *)
Lemma read_loop_fate n : forall i s c, dp_inv s -> can_read_head (conn s) = false -> is_closing s = false ->
  body_tx s = Some i -> chans s !! i = Some c -> receiver_open c = true ->
  wp (read_loop n) (fun o s' => o ≠ NoFuel -> exists c', chans s' !! i = Some c' /\ body_fate i (conn s) c (body_tx s') (conn s') c' /\
    (is_Some (body_tx s') -> can_read_body (conn s') = true)) s.
Proof.
  induction n as [|n IH]; intros i s c Hi Hh Hcl Htx Hc Hr; [unfold wp; cbn; intros Hn; by destruct Hn|]. cbn [read_loop]. wp_step. wp_step. rewrite Hcl, Hh. unfold tx_take. repeat wp_step. rewrite Htx. wp_step.
  pose proof (take_out i s Hi Hh Htx) as Ht. apply wp_intro. intros s' o Hrun.
  pose proof (wp_elim _ _ _ _ _ (read_body_arm_spec i _ Ht) Hrun) as [(Hi' & Hh' & Ho) _].
  destruct (wp_elim _ _ _ _ _ (read_body_arm_fate i _ c Ht Hc Hr) Hrun) as (tx & k & c' & -> & Hf & Hgo). change (conn (set_body_tx None s)) with (conn s) in Hf.
  assert (Hc' : <[i := c']> (chans s) !! i = Some c') by (apply list_lookup_insert_eq; by apply lookup_lt_Some in Hc).
  destruct o as [[]| | | |]; try done; [|wp_step; intros _; exists c'; destruct Hgo as [-> Hgo]; by split_and!].
  pose proof Hf as (Hr' & fs & k1 & Hb & Hx). destruct tx as [j|].
  - destruct Hx as (-> & Hx). eapply wp_mono; [by apply (IH i _ c')|]. intros o s' Hs Hn. destruct (Hs Hn) as (c2 & Hc2 & Hf2 & Hb2). exists c2. split_and!; [done|by eapply body_fate_trans|done].
  - clear IH Hrun Ho. destruct n as [|n]; [unfold wp; cbn; intros Hn; by destruct Hn|]. cbn [read_loop]. repeat wp_step. cbn [is_closing set_body_tx set_chans set_conn]. rewrite Hcl. rewrite Hh'. unfold tx_take.
    repeat wp_step. unfold on_conn. apply wp_zoom, wp_intro. intros k2 o Hka _. exists c'. split_and!; [done| |by intros []]. split; [done|]. by exists fs, k1.
Qed.

Lemma dp_poll_read_fate i s c s' o : dp_inv s -> body_tx s = Some i -> chans s !! i = Some c -> receiver_open c = true -> can_read_body (conn s) = true ->
  dp_poll_read s = (s', o) -> exists c', chans s' !! i = Some c' /\ body_fate i (conn s) c (body_tx s') (conn s') c' /\
    (is_Some (body_tx s') -> can_read_body (conn s') = true).
Proof.
  intros Hi Htx Hc Hr Hb Hp. pose proof (wp_elim _ _ _ _ _ (dp_poll_read_spec s Hi) Hp) as (Hs & _).
  assert (Hh : can_read_head (conn s) = false) by (unfold can_read_body, can_read_head in *; by destruct (reading (c_state (conn s)))).
  destruct (is_closing s) eqn:Ecl.
  - unfold dp_poll_read in Hp. cbn [read_loop] in Hp. unfold mbind, M_bind, get in Hp. rewrite Ecl in Hp. injection Hp as <- _. rewrite Htx. exists c.
    split_and!; [done| |done]. split; [done|]. exists [], (conn s). split; [constructor|]. by rewrite app_nil_r.
  - pose proof (wp_elim _ _ _ _ _ (read_loop_fate 5 i s c Hi Hh Ecl Htx Hc Hr) Hp) as Hf. apply Hf. by intros ->.
Qed.

(** ** The task *)

Lemma polled_ok m s :
  wp m dp_ok s -> wp (polled (E := Error) m) (fun o s' => match o with Ready _ => dp_inv s' | Failed _ => dp_weak s' | _ => False end) s.
Proof.
  unfold wp, polled. destruct (m s) as [s' o]. intros (Hs & Hw & Hi). destruct o; try done; by apply Hi.
Qed.

Lemma wants_read_again_ok {E} s : dp_inv s -> wp (E := E) (on_conn wants_read_again) (fun o s' => dp_inv s' /\ exists b, o = Ready b) s.
Proof.
  intros [[Hc Hd Ht] Ho Hb]. unfold on_conn, wants_read_again, on_state. apply wp_zoom. repeat wp_step. split; [|by eauto].
  split; [split; try done|done|done]. destruct (exec_ok (conn s) OWantsReadAgain _ _ Hc I eq_refl) as (_ & Hi & _). exact Hi.
Qed.

Lemma loop_rounds_spec n s : dp_inv s -> wp (loop_rounds vec_capacity n) dp_ok s.
Proof.
  revert s. induction n as [|n IH]; intros s Hi; cbn [loop_rounds]; [wp_step; by split_and!; [|apply Hi|]|].
  wp_step. eapply wp_mono; [by apply polled_ok, dp_poll_read_spec|]. intros o s1 Hi1. destruct o as [b1|e| | |]; try done; [|by apply dp_ok_failed].
  wp_step. eapply wp_mono; [by apply polled_ok, dp_poll_write_spec|]. intros o s2 Hi2. destruct o as [b2|e| | |]; try done; [|by apply dp_ok_failed].
  assert (Hflush : forall s, dp_inv s -> wp dp_poll_flush dp_ok s).
  { intros s0 Hi0. eapply wp_mono; [by apply dp_poll_flush_spec|]. by intros o s' (? & _). }
  wp_step. eapply wp_mono; [by apply polled_ok, Hflush|]. intros o s3 Hi3. destruct o as [b3|e| | |]; try done; [|by apply dp_ok_failed].
  wp_step. wp_step. cbv zeta. wp_step. eapply wp_mono; [by apply wants_read_again_ok|]. intros o s4 (Hi4 & again & ->).
  destruct (negb (_ || again)); [wp_step; by apply dp_ok_ready|]. destruct (negb again && _); [|by apply IH].
  wp_step. eapply wp_mono; [by apply polled_ok, dp_poll_write_spec|]. intros o s5 Hi5. destruct o as [b5|e| | |]; try done; [|by apply dp_ok_failed].
  destruct (negb b5); [|by apply IH]. wp_step. wp_step. destruct (conn_has_buffered_write (conn s5)); [|wp_step; by apply dp_ok_ready].
  wp_step. eapply wp_mono; [by apply polled_ok, Hflush|]. intros o s6 Hi6. destruct o as [b6|e| | |]; try done; [|by apply dp_ok_failed].
  wp_step. by apply dp_ok_ready.
Qed.

(** A call of the connection that only settles it. *)
Lemma settle_ok {E A} (m : M C E A) s : dp_weak s -> wp m (fun o c => sound o /\ conn_inv c) (conn s) ->
  wp (on_conn m) (fun o s' => sound o /\ dp_weak s' /\ exists c, s' = set_conn c s) s.
Proof.
  intros [Hc Hd Ht] Hm'. unfold on_conn. apply wp_zoom. eapply wp_mono; [exact Hm'|]. intros o c [Hs Hi]. split_and!; [done|by split|by eauto].
Qed.

Lemma take_error_ok (c : C) : conn_inv c -> wp take_error (fun o c' => sound o /\ o ≠ Pending /\ conn_inv c') c.
Proof.
  intros Hi. apply wp_intro. intros c' o Hrun. destruct (exec_ok c OTakeError _ _ Hi I eq_refl) as (_ & Hi' & _). cbn [exec] in Hi'.
  rewrite Hrun in Hi'. cbn in Hi'. revert Hrun. unfold take_error, mbind, M_bind, get, on_state, modify, fail, mret, M_ret.
  destruct (st_error (c_state c)); intros [= <- <-]; by split_and!.
Qed.

Lemma poll_inner_spec should s : dp_inv s -> wp (poll_inner vec_capacity should) (fun o s' => sound o /\ dp_weak s' /\ (o = Pending -> dp_inv s')) s.
Proof.
  intros Hi. unfold poll_inner. wp_step. eapply wp_mono; [by apply loop_rounds_spec|]. intros o s1 (Hs & Hw & Hi1).
  destruct o as [[]|e| | |]; try done; [|split_and!; [done|done|intros _; by apply Hi1]].
  specialize (Hi1 ltac:(done)). wp_step. wp_step. destruct (is_done s1); [|wp_step; by split_and!].
  destruct (exec_ok (conn s1) OPendingUpgrade _ _ (dp_conn _ Hw) I eq_refl) as (_ & Hc1 & _). cbn [exec] in Hc1.
  destruct (pending_upgrade (conn s1)) as [pending c] eqn:Ep. cbn in Hc1. wp_step. wp_step.
  set (s2 := set_conn c s1). assert (Hi2 : dp_inv s2).
  { apply set_conn_inv; [done|done|]. unfold pending_upgrade in Ep. by injection Ep as _ <-. }
  assert (Htake : forall d s3, dp_weak s3 ->
    wp (on_conn take_error;; mret d) (fun (o : outcome Error Dispatched) s' => sound o /\ dp_weak s' /\ (o = Pending -> dp_inv s')) s3).
  { intros d s3 Hw3. wp_step. unfold on_conn. apply wp_zoom. eapply wp_mono; [apply take_error_ok, Hw3|].
    intros o c3 (Hs3 & Hnp & Hi3). destruct Hw3. assert (dp_weak (set_conn c3 s3)) by (by split). by destruct o as [[]|e| | |]. }
  destruct pending; [apply Htake, Hi2|]. wp_step.
  destruct (should && negb (is_aborted s1) && negb (can_write_body (conn s1))); [|wp_step; apply Htake, Hi2].
  wp_step. unfold on_conn at 1. apply wp_zoom, wp_intro. intros c3 o Hrun.
  destruct (wp_elim _ _ _ _ _ (conn_poll_shutdown_keeps (conn s2) (dp_conn _ (dp_is_weak _ Hi2))) Hrun) as (Hs3 & Hi3 & _).
  assert (Hst : c_state c3 = c_state c).
  { revert Hrun. unfold conn_poll_shutdown, on_io, zoom. destruct (poll_shutdown (c_io (conn s2))). by intros [= <- _]. }
  assert (Hi4 : dp_inv (set_conn c3 s2)) by (apply set_conn_inv; [done|done|unfold can_read_body; by rewrite Hst]).
  destruct o as [[]|e| | |]; try done; [apply Htake, Hi4|by split_and!; [|apply Hi4|]|by split_and!; [|apply Hi4|]].
Qed.

Lemma poll_catch_spec should s : dp_inv s -> wp (poll_catch vec_capacity should) (fun o s' => sound o /\ dp_weak s' /\ (o = Pending -> dp_inv s')) s.
Proof.
  intros Hi. unfold poll_catch. wp_step. eapply wp_mono; [by apply poll_inner_spec|]. intros o s1 (Hs & Hw & Hp).
  destruct o as [d|e| | |]; try done. unfold tx_take. repeat wp_step.
  set (s2 := set_body_tx None s1). assert (Hw2 : dp_weak s2) by (destruct Hw; by split).
  assert (Hrecv : forall l, length l = length (chans s2) ->
    wp (on_dispatch (d_recv_msg (Err e));; mret DShutdown) (fun o s' => sound o /\ dp_weak s' /\ (o = Pending -> dp_inv s')) (set_chans l s2)).
  { intros l Hl. destruct (set_chans_weak s2 l Hw2 Hl) as [Hc Hd Ht]. wp_step. unfold on_dispatch. apply wp_zoom, wp_intro. intros d o Hr.
    destruct (d_recv_msg_spec _ _ _ _ Hd Hr) as (Hd' & _ & Hso & Hnp). assert (dp_weak (set_dispatch d (set_chans l s2))) by (by split). by destruct o. }
  destruct (body_tx s1) as [i|] eqn:Etx.
  - pose proof (dp_tx _ Hw i Etx) as Hlt.
    destruct (send_error_run (E := Error) i (new_body (CauseText "connection error")) s2 Hlt) as (l & Hl & He).
    destruct (sender_drop_run (E := Error) i (set_chans l s2)) as (l' & Hl' & He'); [cbn; by rewrite He|].
    wp_step. unfold wp at 1. rewrite Hl. cbv beta iota. unfold wp at 1. rewrite Hl'. cbv beta iota.
    apply (Hrecv l'). rewrite He'. exact He.
  - wp_step. specialize (Hrecv (chans s2) eq_refl). by destruct s1.
Qed.
End laws.

(** ** Theorems

    The claims about the dispatcher of [proto/http1/dispatch.rs], and that the
    client's [Dispatch] is one it can work with. *)

Section theorems.
Context `{HeaderSyntaxLaws} `{HeaderMapLaws Hm} `{HttparseHeaders} `{HttparseResponse PC}
  `{!HttparseResponseLaws PC} `{TransportLaws T V} `{!BytesMutLaws V} `{BufCombinatorsLaws} `{BufLaws B}
  {D Bs : Type} `{!Dispatch D Bs Hm} `{!HttpBody Bs B Hm} `{!HttpBodyLaws Bs B Hm} `{!DispatchLaws D Bs Hm}.
Abbreviation C := (Conn (Hm := Hm) (PC := PC) (T := T) (V := V) (B := B)).
Abbreviation Dp := (Dispatcher (Hm := Hm) (PC := PC) (T := T) (V := V) (B := B) (D := D) (Bs := Bs)).
Variable vec_capacity : C -> Z.

(** ** Runs *)

(** A task and what happens around it between its polls: the users of its
    response bodies, of its dispatch and of the body it sends. *)
Inductive dp_reachable (cfg : PC) : Dp -> Prop :=
| dr_new d c :
    d_inv d -> d_open d = true -> reachable cfg c -> can_read_body c = false -> dp_reachable cfg (dispatcher_new d c)
| dr_poll s s' : dp_reachable cfg s -> dispatcher_poll vec_capacity s = (s', Pending) -> dp_reachable cfg s'
| dr_chan s i c es ts c' :
    dp_reachable cfg s -> chans s !! i = Some c -> receiver_step c es ts c' ->
    dp_reachable cfg (set_chans (<[i := c']> (chans s)) s)
| dr_dispatch s d' : dp_reachable cfg s -> d_env (dispatch s) d' -> dp_reachable cfg (set_dispatch d' s)
| dr_body s b b' : dp_reachable cfg s -> body_rx s = Some b -> dp_reachable cfg (set_body_rx (Some b') s).

Lemma dispatcher_poll_spec (s s' : Dp) o :
  dp_inv s -> dispatcher_poll vec_capacity s = (s', o) -> sound o /\ dp_weak s' /\ (o = Pending -> dp_inv s').
Proof.
  intros Hi Hp. assert (He : dispatcher_poll vec_capacity s = poll_catch vec_capacity true s) by reflexivity. rewrite He in Hp.
  exact (wp_elim _ _ _ _ _ (poll_catch_spec vec_capacity true s Hi) Hp).
Qed.

Lemma dp_reachable_inv cfg s : dp_reachable cfg s -> dp_inv s.
Proof.
  induction 1 as [d c Hd Ho Hc Hb|s s' _ IH Hp|s i c es ts c' _ IH Hc Hst|s d' _ IH He|s b b' _ IH Hb].
  - split; [split; [by eapply reachable_inv|done|done]|done|]. cbn. by rewrite Hb.
  - by destruct (dispatcher_poll_spec s s' Pending IH Hp) as (_ & _ & Hi); apply Hi.
  - apply set_chans_inv; [done|by rewrite length_insert].
  - destruct IH as [[Hc Hd Ht] Ho Hb]. destruct (d_env_spec _ _ Hd He) as [Hd' Hop]. split; [by split|cbn; by rewrite Hop|done].
  - by apply set_body_rx_inv.
Qed.

(** ** Claims *)

(** C31. A poll of the connection task always comes to an end, never panics, and
    keeps the task in order. The request bodies are assumed to have finitely many
    frames and not to panic themselves, and the transport to behave. Then,
    whatever the peer sends, whatever requests and cancellations the users give
    and however they read the response bodies, the two loops of a poll stop after
    a bounded number of rounds, every operation of the connection and of the
    channels is called under its guard, and none of the assertions of the
    dispatcher or of the code below it fails. The connection and the dispatch are
    in order afterwards and a sender that is held has its channel; and when the
    poll waits, the dispatch can still be polled unless the task is closing, and
    a body that is being read has a channel to go to. *)
Theorem dispatcher_poll_safe cfg s s' o :
  dp_reachable cfg s -> dispatcher_poll vec_capacity s = (s', o) ->
  o ≠ NoFuel /\ o ≠ Panicked /\ dp_weak s' /\ (o = Pending -> dp_inv s').
Proof.
  intros Hi%dp_reachable_inv Hp. destruct (dispatcher_poll_spec s s' o Hi Hp) as (Hs & Hw & Hi'). split; [by intros ->|]. split; [by intros ->|]. by split.
Qed.

(** The states a task is in during a poll: between the parts of a round of
    [poll_loop]. *)
Inductive dp_during (cfg : PC) : Dp -> Prop :=
| during_start s : dp_reachable cfg s -> dp_during cfg s
| during_read s s' b : dp_during cfg s -> polled (E := Error) dp_poll_read s = (s', Ready b) -> dp_during cfg s'
| during_write s s' b : dp_during cfg s -> polled (E := Error) (dp_poll_write vec_capacity) s = (s', Ready b) -> dp_during cfg s'
| during_flush s s' b : dp_during cfg s -> polled (E := Error) dp_poll_flush s = (s', Ready b) -> dp_during cfg s'
| during_again s s' b : dp_during cfg s -> on_conn (wants_read_again (E := Error)) s = (s', Ready b) -> dp_during cfg s'.

Lemma dp_poll_flush_kept (s : Dp) : dp_inv s -> wp dp_poll_flush (fun o s' => dp_ok o s' /\ kept s s') s.
Proof. intros Hi. eapply wp_mono; [by apply dp_poll_flush_spec|]. by intros o s' (? & (_ & ? & _) & _). Qed.

Lemma dp_during_inv cfg s : dp_during cfg s -> dp_inv s.
Proof.
  assert (Hpart : forall (m : M Dp Error unit) s s' (b : bool), wp m dp_ok s -> polled (E := Error) m s = (s', Ready b) -> dp_inv s').
  { intros m s1 s2 b Hm' Hp. by pose proof (wp_elim _ _ _ _ _ (polled_ok _ _ Hm') Hp). }
  induction 1 as [s Hs|s s' b _ IH Hp|s s' b _ IH Hp|s s' b _ IH Hp|s s' b _ IH Hp].
  - by eapply dp_reachable_inv.
  - by eapply Hpart; [apply dp_poll_read_spec|].
  - by eapply Hpart; [apply dp_poll_write_spec|].
  - eapply Hpart; [|done]. eapply wp_mono; [by apply dp_poll_flush_kept|]. by intros ?? [? _].
  - by pose proof (wp_elim _ _ _ _ _ (wants_read_again_ok s IH) Hp) as [? _].
Qed.

(** The channel [c] is told that its body is cut off. *)
Definition cut_off (c : Chan Hm) : Prop := sender_open c = false /\ exists e, Err e ∈ in_flight c.

Lemma send_error_cut_off e (c : Chan Hm) :
  receiver_open c = true -> cut_off (sender_drop (E := Error) (send_error (E := Error) e c).1).1.
Proof.
  intros Hr. destruct c as [it pe tr so ro w ts te sw rw]. cbn in Hr. subst ro.
  unfold cut_off, sender_drop, send_error, mbind, M_bind, get, modify, in_flight. cbn.
  destruct it as [it|], pe as [pe|]; cbn; (split; [done|]); eexists; repeat first [apply list_elem_of_here|apply list_elem_of_further].
Qed.

(** Both ways of giving up on a body report it. *)
Lemma guard_drop_cut (s : Dp) i c : body_tx s = Some i -> chans s !! i = Some c -> receiver_open c = true ->
  exists c', chans (guard_drop (E := Error) s).1 !! i = Some c' /\ cut_off c'.
Proof.
  intros Htx Hc Hr. unfold guard_drop, tx_take, mbind, M_bind, get, modify, mret, M_ret. rewrite Htx.
  rewrite (on_chan_run i _ (set_body_tx None s) c Hc). cbn [set_body_tx chans].
  set (c1 := (send_error (E := Error) new_incomplete c).1).
  assert (Hrd : (send_error (E := Error) new_incomplete c).2 = Ready tt).
  { unfold send_error, mbind, M_bind, get, modify. by rewrite Hr. }
  rewrite Hrd. rewrite (on_chan_run i _ _ c1) by (cbn; apply list_lookup_insert_eq; by apply lookup_lt_Some in Hc). cbn.
  eexists. split; [apply list_lookup_insert_eq; rewrite length_insert; by apply lookup_lt_Some in Hc|].
  by apply send_error_cut_off.
Qed.

Lemma poll_catch_cut (s s1 s2 : Dp) e o i c : poll_inner vec_capacity true s = (s1, Failed e) -> body_tx s1 = Some i -> chans s1 !! i = Some c ->
  receiver_open c = true -> dispatcher_poll vec_capacity s = (s2, o) -> exists c', chans s2 !! i = Some c' /\ cut_off c'.
Proof.
  intros Hin Htx Hc Hr. unfold dispatcher_poll, poll_catch, match_ready. rewrite Hin.
  unfold tx_take, mbind, M_bind, get, modify, mret, M_ret. rewrite Htx.
  rewrite (on_chan_run i _ (set_body_tx None s1) c Hc). cbn [set_body_tx chans].
  set (err := new_body (CauseText "connection error")). set (c1 := (send_error (E := Error) err c).1).
  assert (Hrd : (send_error (E := Error) err c).2 = Ready tt) by (unfold send_error, mbind, M_bind, get, modify; by rewrite Hr).
  rewrite Hrd. rewrite (on_chan_run i _ _ c1) by (cbn; apply list_lookup_insert_eq; by apply lookup_lt_Some in Hc). cbn.
  unfold on_dispatch, zoom. match goal with |- context [d_recv_msg ?m ?d] => destruct (d_recv_msg m d) as [d' o'] end.
  intros Hrun. assert (Hch : chans s2 = <[i := (sender_drop (E := Error) c1).1]> (<[i := c1]> (chans s1))) by (destruct o'; by injection Hrun as <- _).
  rewrite Hch. eexists. split; [apply list_lookup_insert_eq; rewrite length_insert; by apply lookup_lt_Some in Hc|].
  by apply send_error_cut_off.
Qed.

(** C36. A response body that is cut off never looks complete. At every point of
    every poll of a task that passes a body on to a reader, reading goes on with
    exactly what the connection gives: the frames it gives are added to the
    channel in order, and the channel is closed without an error only once the
    connection has said that the body is over; when reading the body fails, the
    channel gets the error of it after the data, and is closed. Writing and
    flushing touch neither the channel nor the reading of the body, unless the
    task closes. And when the task fails, or is dropped by its runtime, while it
    still passes the body on, the reader finds an error before the end. *)
Theorem cut_body_reported cfg s i c :
  dp_during cfg s -> body_tx s = Some i -> chans s !! i = Some c -> receiver_open c = true ->
  (can_read_body (conn s) = true -> forall s' o, dp_poll_read s = (s', o) ->
    exists c', chans s' !! i = Some c' /\ body_fate i (conn s) c (body_tx s') (conn s') c' /\
      (is_Some (body_tx s') -> can_read_body (conn s') = true)) /\
  (forall s' o, dp_poll_write vec_capacity s = (s', o) \/ dp_poll_flush s = (s', o) -> kept s s') /\
  (exists c', chans (guard_drop (E := Error) s).1 !! i = Some c' /\ cut_off c') /\
  (forall s1 e s2 o c1, poll_inner vec_capacity true s = (s1, Failed e) -> body_tx s1 = Some i -> chans s1 !! i = Some c1 ->
    receiver_open c1 = true -> dispatcher_poll vec_capacity s = (s2, o) -> exists c', chans s2 !! i = Some c' /\ cut_off c').
Proof.
  intros Hi%dp_during_inv Htx Hc Hr. split; [|split; [|split]].
  - intros Hb s' o. by apply dp_poll_read_fate.
  - intros s' o [Hp|Hp]; [by destruct (wp_elim _ _ _ _ _ (dp_poll_write_kept _ s Hi) Hp)|by destruct (wp_elim _ _ _ _ _ (dp_poll_flush_kept s Hi) Hp)].
  - by eapply guard_drop_cut.
  - intros s1 e s2 o c1. by apply poll_catch_cut.
Qed.
End theorems.

(** ** The client's dispatch *)

Section client.
Context `{HeaderMap Hm} {B Bs : Type} `{!HttpBody Bs B Hm} {Q : Type -> Type} `{MpscLaws Q} {W : Type} `{WantLaws W}.
Abbreviation Cl := (Client Q W Bs Hm).

(** A request the connection can write (see [request_ok]). *)
Definition request_fields_ok (m : MessageHead Hm RequestLine * Bs) : Prop :=
  Forall (fun v => forallb visible_ascii v = true) (hm_get_all (head_headers m.1) H_TRANSFER_ENCODING).

Definition queue_ok (c : Cl) : Prop := Forall (fun e => request_fields_ok e.1) (mpsc_items (inner (rx c))).

(** The callers send requests and give up on them. *)
Inductive client_env (c : Cl) : Cl -> Prop :=
| env_send val r o : request_fields_ok val -> ds_try_send val (rx c) = (r, o) -> client_env c (set_rx r c)
| env_give_up cb : client_env c (on_rx (ds_give_up cb) c).

Lemma client_poll_msg_ok (c c' : Cl) o :
  queue_ok c -> rx_closed c = false -> client_poll_msg c = (c', o) ->
  queue_ok c' /\
  match o with
  | Ready (Some (head, body)) => rx_closed c' = false /\ client_should_poll c' = false /\ request_fields_ok (head, body)
  | Ready None => True
  | Pending => rx_closed c' = false
  | _ => False
  end.
Proof.
  intros Hq Hc. unfold client_poll_msg, mbind, M_bind, get, zoom. rewrite Hc. unfold ds_poll_recv.
  destruct (mpsc_poll_recv (inner (rx c))) as [q res] eqn:Er. destruct (mpsc_poll_recv_spec _ _ _ Er) as [_ Hs].
  unfold queue_ok in *. destruct res as [[[req cb]|]|].
  - rewrite Hs in Hq. apply Forall_cons in Hq as [Hreq Hq]. cbn in Hreq.
    match goal with |- context [cb_canceled ?x ?y] => destruct (cb_canceled x y) end; intros [= <- <-]; [done|].
    unfold replace_callback. cbn. destruct req as [head body]. split; [by destruct (callback c)|]. by destruct (callback c).
  - destruct Hs as (_ & Hs & _). intros [= <- <-]. cbn. by rewrite Hs.
  - destruct Hs as (_ & Hs & _). intros [= <- <-]. cbn. by rewrite Hs.
Qed.

Lemma client_recv_msg_ok (c c' : Cl) m o :
  queue_ok c -> client_recv_msg m c = (c', o) -> queue_ok c' /\ rx_closed c' = rx_closed c /\ sound o /\ o ≠ Pending.
Proof.
  intros Hq. unfold client_recv_msg, mbind, M_bind, get, modify, mret, M_ret, fail. unfold queue_ok in *.
  destruct m as [res|err], (callback c) as [cb|]; try (intros [= <- <-]; by split_and!).
  destruct (rx_closed c) eqn:Ec; cbn [negb]; [intros [= <- <-]; by split_and!|].
  unfold ds_try_recv. cbn [rx on_rx set_rx ds_close set_inner inner].
  destruct (mpsc_poll_recv (mpsc_close (inner (rx c)))) as [q r] eqn:Er. destruct (mpsc_poll_recv_spec _ _ _ Er) as [_ Hs].
  rewrite (proj2 (mpsc_close_spec _)) in Hs. destruct r as [[[req cb]|]|]; intros [= <- <-]; cbn; split_and!; try done.
  - rewrite Hs in Hq. by apply Forall_cons in Hq as [_ Hq].
  - destruct Hs as (_ & -> & _). done.
  - destruct Hs as (_ & -> & _). done.
Qed.

Lemma client_env_ok (c c' : Cl) : queue_ok c -> client_env c c' -> queue_ok c' /\ rx_closed c' = rx_closed c.
Proof.
  intros Hq [val r o Hv Hs|cb]; [|done]. unfold queue_ok in *. split; [|done]. cbn. revert Hs. unfold ds_try_send.
  destruct (giver_give (demand (rx c))) as [w wanted]. destruct (_ || _); [|by intros [= <- <-]]. unfold send_envelope. cbn.
  pose proof (mpsc_send_spec (val, length (promises (rx c))) (inner (rx c))) as Hm'.
  destruct (mpsc_send _ _) as [q|]; intros [= <- <-]; [|done]. destruct Hm' as (_ & _ & Hit). cbn. rewrite Hit.
  apply Forall_app_2; [done|]. by apply Forall_singleton.
Qed.

#[export] Instance client_DispatchLaws : DispatchLaws Cl Bs Hm.
Proof.
  refine {| d_inv := queue_ok; d_open c := negb (rx_closed c); d_env := client_env |}.
  - intros d d' o Hi Ho _ Hp. apply negb_true_iff in Ho. destruct (client_poll_msg_ok d d' o Hi Ho Hp) as [Hi' Hpost].
    split; [done|]. destruct o as [[[head body]|]|e| | |]; try done.
    + destruct Hpost as (-> & ? & ?). by split_and!.
    + by rewrite Hpost.
  - intros m d d' o Hi Hr. destruct (client_recv_msg_ok d d' m o Hi Hr) as (? & -> & ? & ?). by split_and!.
  - intros d d' o Hi. cbn. unfold client_poll_ready, mbind, M_bind, get. destruct (callback d) as [cb|]; [|intros [= <- <-]; by split_and!].
    destruct (cb_canceled cb (rx d)); intros [= <- <-]; by split_and!.
  - intros d d' Hi He. destruct (client_env_ok d d' Hi He) as [? ->]. by split.
Defined.
End client.

(** ** Examples *)

Module ConcreteTask.
Import Concrete ConcreteIo ConcreteParse ConcreteDispatch.

(** A body of [n] equal chunks, of unknown size. *)
#[export] Instance nat_HttpBody : HttpBody nat bytes hmap := {
  hb_poll_frame n := match n with O => (O, Ready None) | S k => (k, Ready (Some (FData (bs "Wiki")))) end;
  hb_is_end_stream n := match n with O => true | S _ => false end;
  hb_size_exact _ := None;
}.

#[export] Instance nat_HttpBodyLaws : HttpBodyLaws nat bytes hmap.
Proof.
  refine {| hb_frames (n : nat) := n |}; [|done]. intros [|k] b' o; cbn; intros [= <- <-]; [done|]. split; [lia|]. split; [done|]. by vm_compute.
Defined.

Abbreviation Task := (Dispatcher (Hm := hmap) (PC := unit) (T := mock) (V := vec) (B := bytes) (D := Client lq signal nat hmap) (Bs := nat)).

Definition cap0 (c : Conn (Hm := hmap) (PC := unit) (T := mock) (V := vec) (B := bytes)) : Z := 0.

(** A client with one request whose body has two chunks. *)
Definition demo_client : Client lq signal nat hmap :=
  set_rx (ds_try_send (demo_post, 2%nat) dispatch_channel).1 (client_new dispatch_channel).

(** The peer answers with a body that ends with the connection, in two pieces. *)
Definition task : Task := dispatcher_new demo_client (demo_conn [[]; demo_200 ++ bs "Wi"; []; bs "ki"]).
Definition task1 : Task := (dispatcher_poll cap0 task).1.

Lemma task_reachable : dp_reachable cap0 tt task.
Proof. apply dr_new; [|reflexivity|apply reachable_new|reflexivity]. apply Forall_singleton. constructor. Qed.

Lemma dispatcher_poll_safe_witness :
  exists s o, dispatcher_poll cap0 task = (s, o) /\ o ≠ NoFuel /\ o ≠ Panicked /\ o = Pending.
Proof.
  destruct (dispatcher_poll cap0 task) as [s o] eqn:E.
  destruct (dispatcher_poll_safe cap0 tt task s o task_reachable E) as (H1 & H2 & _).
  exists s, o. split; [reflexivity|]. split; [exact H1|]. split; [exact H2|].
  etransitivity; [symmetry; exact (f_equal snd E)|vm_compute; reflexivity].
Defined.

Definition task2 : Task := (dispatcher_poll cap0 task1).1.

Lemma poll_pending (s : Task) : (dispatcher_poll cap0 s).2 = Pending -> dispatcher_poll cap0 s = ((dispatcher_poll cap0 s).1, Pending).
Proof. intros Hp. rewrite <- Hp. apply surjective_pairing. Qed.

Lemma task2_reachable : dp_reachable cap0 tt task2.
Proof.
  apply (dr_poll cap0 tt task1); [|apply poll_pending; vm_compute; reflexivity].
  apply (dr_poll cap0 tt task); [apply task_reachable|apply poll_pending; vm_compute; reflexivity].
Qed.

(** The channel of the response body holds its first piece. *)
Definition chan2 : Chan hmap := default (channel false) (chans task2 !! 0%nat).

Lemma cut_body_reported_witness :
  in_flight chan2 = [Ok (bs "Wi")] /\ (exists c', chans (guard_drop (E := Error) task2).1 !! 0%nat = Some c' /\ cut_off c') /\
  exists c', chans (dp_poll_read task2).1 !! 0%nat = Some c' /\ body_fate 0 (conn task2) chan2 (body_tx (dp_poll_read task2).1) (conn (dp_poll_read task2).1) c'.
Proof.
  split; [vm_compute; reflexivity|].
  destruct (cut_body_reported cap0 tt task2 0 chan2) as (Hread & _ & Hdrop & _);
    [apply during_start; exact task2_reachable|vm_compute; reflexivity|vm_compute; reflexivity|vm_compute; reflexivity|].
  split; [exact Hdrop|].
  destruct (Hread ltac:(vm_compute; reflexivity) _ _ (surjective_pairing _)) as (c' & Hc & Hf & _). exists c'. split; [exact Hc|exact Hf].
Defined.
End ConcreteTask.
