(* ===== verification/Wire.v ===== *)
(** * Wire

    Big-endian integers and QUIC variable-length integers, the number formats
    of the datagram and proxy protocols: the writers and readers the sources
    call, with their round trips. The reader of variable-length integers is
    [proxy/masque/capsule.rs]'s [varint], the writer its [put_varint]. *)

From stdpp Require Import prelude.
From Stdlib Require Import ZArith Lia.
From S2P Require Import Prelude Bytes.
Local Open Scope Z_scope.

(** ** Fixed-width integers *)

(** [BufMut::put_uint(v, n)] and [to_be_bytes]: the low [n] bytes of [v], most
    significant first. *)
Fixpoint be_bytes (n : nat) (v : Z) : bytes :=
  match n with
  | O => []
  | S k => Z.shiftr v (8 * Z.of_nat k) mod 256 :: be_bytes k v
  end.

(** [from_be_bytes]. *)
Definition from_be (b : bytes) : Z := of_digits 256 b.

(** Byte strings proper. *)
Definition all_u8 (b : bytes) : Prop := Forall is_u8 b.

Lemma length_be_bytes n v : length (be_bytes n v) = n.
Proof. induction n; simpl; auto. Qed.

Lemma len_be_bytes n v : len (be_bytes n v) = Z.of_nat n.
Proof. unfold len. by rewrite length_be_bytes. Qed.

Lemma be_bytes_u8 n v : all_u8 (be_bytes n v).
Proof.
  induction n as [|n IH]; [constructor|]. constructor; [|done].
  pose proof (Z.mod_pos_bound (Z.shiftr v (8 * Z.of_nat n)) 256 ltac:(lia)). unfold_u. lia.
Qed.

Lemma of_digits_cons r d ds : of_digits r (d :: ds) = d * r ^ len ds + of_digits r ds.
Proof.
  induction ds as [|x ds IH] using rev_ind; [unfold of_digits; simpl; change (len (@nil Z)) with 0; lia|].
  rewrite app_comm_cons, !of_digits_snoc, IH, len_app. change (len [x]) with 1.
  rewrite Z.pow_add_r by (pose proof (len_nonneg ds); lia). lia.
Qed.

Lemma from_be_bound b : all_u8 b -> 0 <= from_be b < 256 ^ len b.
Proof.
  unfold from_be. induction 1 as [|x b Hx Hb IH]; [by change (0 <= 0 < 1)|].
  rewrite of_digits_cons, len_cons, Z.pow_add_r by (pose proof (len_nonneg b); lia).
  unfold_u. change (256 ^ 1) with 256. nia.
Qed.

Lemma from_be_bytes n v : from_be (be_bytes n v) = v mod 256 ^ Z.of_nat n.
Proof.
  unfold from_be. induction n as [|n IH]; [by rewrite Z.mod_1_r|].
  cbn [be_bytes]. rewrite of_digits_cons, IH, len_be_bytes.
  rewrite Z.shiftr_div_pow2 by lia. rewrite Z.pow_mul_r by lia. change (2 ^ 8) with 256.
  rewrite Nat2Z.inj_succ, Z.pow_succ_r by lia.
  rewrite (Z.mul_comm 256), Z.rem_mul_r; [lia| |lia]. apply Z.pow_nonzero; lia.
Qed.

(** A byte string is the encoding of the number it denotes. *)
Lemma be_bytes_from n b : all_u8 b -> length b = n -> be_bytes n (from_be b) = b.
Proof.
  intros Hb. revert n. induction Hb as [|x b Hx Hb IH]; intros n <-; [done|].
  pose proof (from_be_bound b Hb) as Hbd. unfold from_be in *. cbn [length be_bytes].
  rewrite of_digits_cons. unfold len in *. f_equal.
  - rewrite Z.shiftr_div_pow2, Z.pow_mul_r by lia. change (2 ^ 8) with 256.
    rewrite Z.add_comm, Z.div_add, Z.div_small by lia. apply Z.mod_small. unfold_u. lia.
  - transitivity (be_bytes (length b) (of_digits 256 b)); [|by apply IH]. clear IH.
    assert (Hg : forall k a c, (k <= length b)%nat -> be_bytes k (a * 256 ^ Z.of_nat (length b) + c) = be_bytes k c).
    { induction k as [|k IHk]; intros a c Hk; [done|]. cbn [be_bytes]. rewrite IHk by lia. f_equal.
      rewrite !Z.shiftr_div_pow2, !Z.pow_mul_r by lia. change (2 ^ 8) with 256.
      replace (Z.of_nat (length b)) with (Z.of_nat (length b) - Z.of_nat k - 1 + 1 + Z.of_nat k) by lia.
      rewrite !Z.pow_add_r by lia.
      rewrite Z.mul_assoc, (Z.add_comm (_ * _)), Z.div_add by lia.
      change (256 ^ 1) with 256. by rewrite Z.mul_assoc, Z.mod_add by lia. }
    by apply Hg.
Qed.

(** ** Variable-length integers *)

(** [slice.get(lo..hi)]. *)
Definition slice_get (lo hi : Z) (b : bytes) : option bytes :=
  if (lo <=? hi) && (hi <=? len b) then Some (ztake (hi - lo) (zdrop lo b)) else None.

(** [v << n] on a [u64]: the bits above are lost. *)
Definition shl_u64 (v n : Z) : Z := Z.shiftl v n mod (U64_MAX + 1).

(** [put_varint]: the bytes it appends; [None] where its [debug_assert!] fires. *)
Definition put_varint (value : Z) : option bytes :=
  if value <? Z.shiftl 1 62 then
    let '(tag, n) :=
      if value <? 0x40 then (0, 1%nat)
      else if value <? 0x4000 then (0x4000, 2%nat)
      else if value <? 0x40000000 then (0x80000000, 4%nat)
      else (0xC000000000000000, 8%nat) in
    Some (be_bytes n (Z.lor tag value))
  else None.

(** [varint]: the value and its encoded length. *)
Definition varint (buf : bytes) : option (Z * Z) :=
  first ← head buf;
  let n := Z.shiftl 1 (Z.shiftr first 6) in
  bytes ← slice_get 1 n buf;
  Some (fold_left (fun value b => Z.lor (shl_u64 value 8) b) bytes (Z.land first 0x3F), n).

(** The encodings of [v] the format allows: [2^k] bytes whose top two bits are
    [k], not necessarily the shortest. *)
Definition varint_bits (k : nat) : Z := 8 * Z.of_nat (2 ^ k) - 2.
Definition varint_enc (k : nat) (v : Z) : bytes := be_bytes (2 ^ k) (Z.of_nat k * 2 ^ varint_bits k + v).
Definition varint_fits (k : nat) (v : Z) : Prop := (k <= 3)%nat /\ 0 <= v < 2 ^ varint_bits k.

Lemma lor_tag t v n : 0 <= n -> 0 <= v < 2 ^ n -> Z.lor (t * 2 ^ n) v = t * 2 ^ n + v.
Proof.
  intros Hn Hv. symmetry. rewrite <- Z.shiftl_mul_pow2 by lia. apply Z.add_nocarry_lor, Z.bits_inj'.
  intros i Hi. rewrite Z.land_spec, Z.bits_0. destruct (decide (i < n)).
  - by rewrite Z.shiftl_spec_low.
  - rewrite andb_comm. apply andb_false_intro1. destruct (decide (v = 0)) as [->|]; [apply Z.bits_0|].
    apply Z.bits_above_log2; [lia|]. apply Z.log2_lt_pow2; [lia|].
    apply Z.lt_le_trans with (2 ^ n); [lia|]. apply Z.pow_le_mono_r; lia.
Qed.

Lemma lor_shift_byte v b : is_u8 b -> Z.lor (v * 256) b = v * 256 + b.
Proof. intros Hb. apply (lor_tag v b 8); unfold_u; lia. Qed.

(** The reader's loop adds a byte at a time, and nothing is shifted out as long
    as the result fits 64 bits. *)
Lemma varint_fold b v :
  all_u8 b -> 0 <= v -> (v + 1) * 256 ^ len b <= U64_MAX + 1 ->
  fold_left (fun value b => Z.lor (shl_u64 value 8) b) b v = v * 256 ^ len b + from_be b.
Proof.
  intros Hb. revert v. induction Hb as [|x b Hx Hb IH]; intros v Hv Hfit;
    [unfold from_be, of_digits; simpl; change (len (@nil Z)) with 0; lia|].
  pose proof (len_nonneg b). pose proof (Z.pow_pos_nonneg 256 (len b) ltac:(lia) ltac:(lia)).
  rewrite len_cons, Z.pow_add_r in Hfit by lia. change (256 ^ 1) with 256 in Hfit.
  assert (Hshl : shl_u64 v 8 = v * 256).
  { unfold shl_u64. rewrite Z.shiftl_mul_pow2 by lia. change (2 ^ 8) with 256.
    apply Z.mod_small. unfold_u. nia. }
  cbn [fold_left]. rewrite Hshl, lor_shift_byte by done.
  rewrite IH by (unfold_u; nia). unfold from_be. rewrite of_digits_cons, len_cons, Z.pow_add_r by lia.
  change (256 ^ 1) with 256. lia.
Qed.

(** The top two bits of the first byte give the length. *)
Lemma first_byte f : is_u8 f -> Z.shiftr f 6 = f / 64 /\ Z.land f 0x3F = f mod 64 /\ 0 <= f / 64 < 4.
Proof.
  intros Hf. split_and!; [by rewrite Z.shiftr_div_pow2|by apply (Z.land_ones f 6)| |]; unfold_u.
  - apply Z.div_pos; lia.
  - apply Z.div_lt_upper_bound; lia.
Qed.

(** Reading an encoding gives its value and its length, whatever follows. *)
Lemma varint_enc_read k v rest :
  varint_fits k v -> varint (varint_enc k v ++ rest) = Some (v, len (varint_enc k v)).
Proof.
  intros [Hk Hv]. unfold varint_enc, varint_bits in *. rewrite len_be_bytes.
  assert (exists m, (2 ^ k = S m)%nat) as [m Hm] by (exists (2 ^ k - 1)%nat; pose proof (Nat.pow_nonzero 2 k); lia).
  rewrite Hm in *. cbn [be_bytes]. unfold varint. cbn [app head mbind option_bind].
  set (x := Z.of_nat k * 2 ^ (8 * Z.of_nat (S m) - 2) + v).
  assert (Hpow : 2 ^ (8 * Z.of_nat (S m) - 2) = 64 * 256 ^ Z.of_nat m).
  { replace (8 * Z.of_nat (S m) - 2) with (6 + 8 * Z.of_nat m) by lia.
    rewrite Z.pow_add_r, Z.pow_mul_r by lia. done. }
  pose proof (Z.pow_pos_nonneg 256 (Z.of_nat m) ltac:(lia) ltac:(lia)) as Hp.
  assert (Hq : 0 <= v / 256 ^ Z.of_nat m < 64).
  { split; [apply Z.div_pos; lia|]. apply Z.div_lt_upper_bound; lia. }
  assert (Hf : Z.shiftr x (8 * Z.of_nat m) mod 256 = Z.of_nat k * 64 + v / 256 ^ Z.of_nat m).
  { rewrite Z.shiftr_div_pow2, Z.pow_mul_r by lia. change (2 ^ 8) with 256.
    unfold x. rewrite Hpow, Z.add_comm, Z.mul_assoc, Z.div_add by lia.
    rewrite Z.mod_small by lia. lia. }
  rewrite Hf. destruct (first_byte (Z.of_nat k * 64 + v / 256 ^ Z.of_nat m)) as (-> & -> & _); [unfold_u; lia|].
  rewrite Z.div_add_l, (Z.div_small (v / _)), Z.add_0_r by lia.
  rewrite Z.add_comm, Z.mod_add, (Z.mod_small (v / _)) by lia.
  rewrite Z.shiftl_1_l. replace (2 ^ Z.of_nat k) with (Z.of_nat (S m)) by (rewrite <- Hm; rewrite Nat2Z.inj_pow; done).
  unfold slice_get. rewrite len_cons, len_app, len_be_bytes. pose proof (len_nonneg rest).
  rewrite (proj2 (Z.leb_le 1 (Z.of_nat (S m)))) by lia. cbn [andb].
  rewrite (proj2 (Z.leb_le _ _)) by lia. cbn [mbind option_bind]. do 2 f_equal.
  replace (ztake _ _) with (be_bytes m x).
  2:{ change (zdrop 1 (_ :: be_bytes m x ++ rest)) with (be_bytes m x ++ rest).
      rewrite <- (ztake_len_app (be_bytes m x) rest) at 1. rewrite len_be_bytes. f_equal. lia. }
  rewrite varint_fold, from_be_bytes, len_be_bytes; [|apply be_bytes_u8|lia|].
  - unfold x. rewrite Hpow, Z.mul_assoc, Z.add_comm, (Z.add_comm (_ * _) v), Z.mod_add by lia.
    pose proof (Z.div_mod v (256 ^ Z.of_nat m) ltac:(lia)). lia.
  - rewrite len_be_bytes. assert (Z.of_nat m <= 7).
    { do 4 (destruct k as [|k]; [simpl in Hm; lia|]). lia. }
    pose proof (Z.pow_le_mono_r 256 (Z.of_nat m) 7 ltac:(lia) ltac:(lia)). unfold_u.
    change (256 ^ 7) with 72057594037927936 in *. nia.
Qed.

Lemma slice_get_Some lo hi b s :
  slice_get lo hi b = Some s -> lo <= hi <= len b /\ s = ztake (hi - lo) (zdrop lo b).
Proof. unfold slice_get. intros H. split_cases. zbool. naive_solver lia. Qed.

Lemma slice_get_app lo hi b c s : 0 <= lo -> slice_get lo hi b = Some s -> slice_get lo hi (b ++ c) = Some s.
Proof.
  intros Hlo Hs. destruct (slice_get_Some _ _ _ _ Hs) as [Hb ->]. unfold slice_get. rewrite len_app.
  pose proof (len_nonneg c). rewrite (proj2 (Z.leb_le lo hi)), (proj2 (Z.leb_le hi _)) by lia. cbn [andb].
  f_equal. rewrite zdrop_app, ztake_app by lia. rewrite len_zdrop by lia.
  unfold ztake at 2. replace (Z.to_nat _) with 0%nat by lia. by rewrite app_nil_r.
Qed.

(** More bytes do not change what was read. *)
Lemma varint_app b c r : varint b = Some r -> varint (b ++ c) = Some r.
Proof.
  unfold varint. destruct b as [|f b]; [done|]. cbn [head app mbind option_bind].
  destruct (slice_get 1 (Z.shiftl 1 (Z.shiftr f 6)) (f :: b)) eqn:E; [|done].
  apply (slice_get_app _ _ _ c) in E; [|lia]. change (f :: b ++ c) with ((f :: b) ++ c). by rewrite E.
Qed.

(** What is read lies inside the buffer. *)
Lemma varint_len b v n : varint b = Some (v, n) -> 1 <= n <= len b.
Proof.
  unfold varint. destruct b as [|f b]; [done|]. cbn [head mbind option_bind].
  destruct (slice_get _ _ _) eqn:E; [|done]. cbn [mbind option_bind]. intros [= _ <-].
  by apply slice_get_Some in E as [? _].
Qed.

(** Whatever is read is an encoding of the value read. *)
Lemma varint_sound b v n :
  all_u8 b -> varint b = Some (v, n) ->
  exists k, varint_fits k v /\ b = varint_enc k v ++ zdrop n b /\ n = len (varint_enc k v).
Proof.
  unfold varint. destruct b as [|f b]; [done|]. intros Hall. inversion_clear Hall as [|? ? Hf Hb].
  cbn [head mbind option_bind]. destruct (first_byte f Hf) as (-> & -> & Hf4).
  destruct (slice_get _ _ _) as [s|] eqn:Es; [|done]. cbn [mbind option_bind]. intros [= <- <-].
  apply slice_get_Some in Es as [Hn ->]. set (k := Z.to_nat (f / 64)).
  rewrite Z.shiftl_1_l in *. replace (2 ^ (f / 64)) with (Z.of_nat (2 ^ k)) in *
    by (rewrite Nat2Z.inj_pow; unfold k; rewrite Z2Nat.id by lia; done).
  rewrite len_cons in Hn. change (zdrop 1 (f :: b)) with b. set (m := Z.of_nat (2 ^ k) - 1) in *.
  assert (0 <= m) by (unfold m; pose proof (Nat.pow_nonzero 2 k); lia).
  assert (Hlt : len (ztake m b) = m) by (rewrite len_ztake; lia).
  assert (Ht : all_u8 (ztake m b)) by (by apply Forall_take).
  pose proof (from_be_bound _ Ht) as Hbd. rewrite Hlt in Hbd.
  pose proof (Z.div_mod f 64 ltac:(lia)) as Hdm. pose proof (Z.mod_pos_bound f 64 ltac:(lia)) as Hmod.
  assert (Hm7 : m <= 7).
  { unfold m, k. assert (f / 64 = 0 \/ f / 64 = 1 \/ f / 64 = 2 \/ f / 64 = 3) as [-> | [-> | [-> | ->]]] by lia; done. }
  assert (Hpow : 2 ^ varint_bits k = 64 * 256 ^ m).
  { unfold varint_bits, m. replace (8 * Z.of_nat (2 ^ k) - 2) with (6 + 8 * (Z.of_nat (2 ^ k) - 1)) by lia.
    rewrite Z.pow_add_r, Z.pow_mul_r by lia. done. }
  rewrite varint_fold; [|done|lia|].
  2:{ rewrite Hlt. pose proof (Z.pow_le_mono_r 256 m 7 ltac:(lia) Hm7).
      change (256 ^ 7) with 72057594037927936 in *. unfold_u. nia. }
  rewrite Hlt. set (v := _ + _). assert (Hv : 0 <= v < 2 ^ varint_bits k) by (unfold v; rewrite Hpow; nia).
  assert (Henc : varint_enc k v = f :: ztake m b).
  { unfold varint_enc. rewrite <- (be_bytes_from (2 ^ k) (f :: ztake m b)); [|by constructor|].
    - f_equal. unfold from_be in *. rewrite of_digits_cons, Hlt, Hpow. unfold v, k. rewrite Z2Nat.id by lia. nia.
    - unfold len in Hlt. cbn [length]. unfold m in *. lia. }
  exists k. split_and!; [split; [unfold k; lia|done]| |].
  - rewrite Henc. replace (zdrop _ (f :: b)) with (zdrop m b); [cbn [app]; by rewrite ztake_zdrop|].
    unfold zdrop. replace (Z.to_nat (Z.of_nat (2 ^ k))) with (S (Z.to_nat m)) by (unfold m; lia). done.
  - unfold varint_enc. by rewrite len_be_bytes.
Qed.

(** The writer produces an encoding. *)
Lemma put_varint_enc v :
  0 <= v < 2 ^ 62 -> exists k, varint_fits k v /\ put_varint v = Some (varint_enc k v).
Proof.
  intros Hv. unfold put_varint, varint_fits, varint_enc, varint_bits.
  rewrite (proj2 (Z.ltb_lt v (Z.shiftl 1 62))) by (rewrite Z.shiftl_1_l; lia).
  destruct (v <? 0x40) eqn:E0; zbool.
  { exists 0%nat. split; [split; [lia|]; simpl; lia|]. by rewrite Z.lor_0_l. }
  destruct (v <? 0x4000) eqn:E1; zbool.
  { exists 1%nat. split; [split; [lia|]; simpl; lia|]. do 2 f_equal. apply (lor_tag 1 v 14); lia. }
  destruct (v <? 0x40000000) eqn:E2; zbool.
  { exists 2%nat. split; [split; [lia|]; simpl; lia|]. do 2 f_equal. apply (lor_tag 2 v 30); lia. }
  exists 3%nat. split; [split; [lia|]; simpl; lia|]. do 2 f_equal. apply (lor_tag 3 v 62); lia.
Qed.

Lemma varint_enc_u8 k v : all_u8 (varint_enc k v).
Proof. apply be_bytes_u8. Qed.
