(* ===== verification/Capsule.v ===== *)
(** * Capsule

    [proxy/masque/capsule.rs], the Capsule Protocol framing of DATAGRAM
    capsules, and the errors of [proxy/masque.rs] it shares with the tunnel.
    The decoder is a state machine over the bytes of the request stream; the
    grammar of a capsule stream is given separately and the decoder is shown
    to read it, however the stream is cut into reads. *)

From stdpp Require Import prelude strings.
From Stdlib Require Import ZArith Lia.
From S2P Require Import Prelude Bytes Errors Transport Wire.
Local Open Scope Z_scope.

(** ** [proxy/masque.rs]: limits and errors *)

Definition MAX_UDP_PAYLOAD : Z := 65527.

(** [enum MasqueError]; a boxed error is its text. *)
Inductive MasqueError : Type :=
| InvalidTemplate (reason : string)
| InvalidTarget
| MConnectFailed (err : string)
| MRequest (err : Error)
| Unsuccessful (status : Z)
| InvalidResponse
| Malformed
| MIo (err : io_error).

#[export] Instance MasqueError_eq_dec : EqDecision MasqueError.
Proof. solve_decision. Defined.

(** ** The codec *)

Definition DATAGRAM : Z := 0.
Definition MAX_DATAGRAM : Z := 8 + MAX_UDP_PAYLOAD.

(** [encode_datagram]: the bytes it appends; [None] where [put_varint]'s
    [debug_assert!] fires. *)
Definition encode_datagram (payload : bytes) : option bytes :=
  kind ← put_varint DATAGRAM;
  size ← put_varint (len payload + 1);
  Some (kind ++ size ++ [0] ++ payload).

(** [struct Decoder]. *)
Record CapsuleDecoder : Type := MkCapsuleDecoder { skip : Z }.

Definition capsule_decoder_default : CapsuleDecoder := MkCapsuleDecoder 0.

Section decoder.
Context {V : Type} `{BytesMut V}.

Abbreviation Dec := (M (CapsuleDecoder * V) MasqueError).

Definition dec_advance (n : Z) : Dec unit :=
  '(d, buf) ← get; buf ← expect (bm_advance n buf); modify (fun _ => (d, buf)).

(** The skipping at the front of the loop; [true] when it ends the call. On a
    64-bit target a [u64] is a [usize]. *)
Definition skip_value : Dec bool :=
  '(d, buf) ← get;
  if 0 <? skip d then
    let n := Z.min (skip d) (len (bm_bytes buf)) in
    dec_advance n;;
    modify (prod_map (fun d => MkCapsuleDecoder (skip d - n)) id);;
    mret (0 <? skip d - n)
  else mret false.

(** Skipping the value of a capsule whose header has arrived. *)
Definition skip_capsule (header size : Z) : Dec unit :=
  dec_advance header;; modify (prod_map (fun _ => MkCapsuleDecoder size) id).

(** A DATAGRAM capsule that fits the limit: taken whole, or waited for. *)
Definition take_datagram (header size : Z) : Dec (option bytes) :=
  '(_, buf) ← get;
  if len (bm_bytes buf) <? header + size then
    modify (prod_map id (bm_reserve (header + size - len (bm_bytes buf))));;
    mret None
  else
    dec_advance header;;
    '(d, buf) ← get;
    '(value, buf) ← expect (bm_split_to size buf);
    modify (fun _ => (d, buf));;
    mret (Some value).

(** [Decoder::decode], its [loop] by fuel; slices of [buf] start inside it. *)
Fixpoint decode_loop (fuel : nat) : Dec (option bytes) :=
  match fuel with
  | O => fun s => (s, NoFuel)
  | S k =>
      stop ← skip_value;
      if stop : bool then mret None
      else
        '(_, buf) ← get;
        let b := bm_bytes buf in
        match varint b with
        | None => mret None
        | Some (kind, kind_len) =>
            match varint (zdrop kind_len b) with
            | None => mret None
            | Some (size, len_len) =>
                let header := kind_len + len_len in
                if kind =? DATAGRAM then
                  if size <=? MAX_DATAGRAM then take_datagram header size
                  else
                    match varint (zdrop header b) with
                    | None => mret None
                    | Some (0, _) => fail Malformed
                    | Some _ => skip_capsule header size;; decode_loop k
                    end
                else skip_capsule header size;; decode_loop k
            end
        end
  end.

(** Each round that goes on takes at least a header's two bytes. *)
Definition capsule_decode : Dec (option bytes) := fun s => decode_loop (S (length (bm_bytes s.2))) s.

Definition is_partial (d : CapsuleDecoder) (buf : V) : bool :=
  (0 <? skip d) || negb (bool_decide (bm_bytes buf = [])).
End decoder.

(** ** The capsule grammar *)

(** A capsule: its type, its value and the sizes of the two integers before it. *)
Record capsule : Type := MkCapsule {
  cap_kind : Z;
  cap_value : bytes;
  cap_kind_enc : nat;
  cap_len_enc : nat;
}.

Definition cap_ok (c : capsule) : Prop :=
  varint_fits (cap_kind_enc c) (cap_kind c) /\ varint_fits (cap_len_enc c) (len (cap_value c)) /\
  all_u8 (cap_value c).

Definition cap_wire (c : capsule) : bytes :=
  varint_enc (cap_kind_enc c) (cap_kind c) ++ varint_enc (cap_len_enc c) (len (cap_value c)) ++ cap_value c.

Definition stream_wire (cs : list capsule) : bytes := concat (map cap_wire cs).

(** The capsules whose value is given to the tunnel. *)
Definition delivered (c : capsule) : bool := (cap_kind c =? DATAGRAM) && (len (cap_value c) <=? MAX_DATAGRAM).

(** The capsules that break the protocol: too large for any UDP payload, yet
    of Context ID 0. *)
Definition oversized (c : capsule) : bool :=
  (cap_kind c =? DATAGRAM) && negb (len (cap_value c) <=? MAX_DATAGRAM) &&
  match varint (cap_value c) with Some (0, _) => true | _ => false end.

(** What a receiver gets from a stream: the values up to the first capsule that
    breaks the protocol, and whether there is one. *)
Fixpoint stream_values (cs : list capsule) : list bytes * bool :=
  match cs with
  | [] => ([], true)
  | c :: cs' =>
      if oversized c then ([], false)
      else let '(vs, ok) := stream_values cs' in ((if delivered c then cap_value c :: vs else vs), ok)
  end.

(** ** Laws *)

(** Reading an integer from the part of a stream that has arrived: it is not
    complete yet, or it is read and the rest follows. *)
Lemma varint_arrived b fut k v tail :
  varint_fits k v -> b ++ fut = varint_enc k v ++ tail ->
  varint b = None /\ fut ≠ [] /\ len b < len (varint_enc k v) \/
  exists b', varint b = Some (v, len (varint_enc k v)) /\ b = varint_enc k v ++ b' /\ b' ++ fut = tail.
Proof.
  intros Hk Heq. pose proof (varint_enc_read k v tail Hk) as Hr. rewrite <- Heq in Hr.
  destruct (varint b) as [r|] eqn:Eb.
  - right. pose proof (varint_app b fut r Eb) as Hb. rewrite Hb in Hr. injection Hr as ->.
    apply varint_len in Eb. apply app_eq_inv in Heq as [(k' & Hb1 & Hb2) | (k' & Hb1 & Hb2)].
    + exists k'. by rewrite Hb1.
    + assert (k' = []) as -> by (apply len_zero; rewrite Hb1, len_app in Eb; pose proof (len_nonneg k'); lia).
      rewrite app_nil_r in Hb1. subst b. exists []. by rewrite app_nil_r.
  - left. split; [done|]. split; [intros ->; by rewrite app_nil_r, Eb in Hr|].
    apply Z.nle_gt. intros Hle. apply app_eq_inv in Heq as [(k' & Hb1 & _) | (k' & Hb1 & _)].
    + by rewrite Hb1, varint_enc_read in Eb.
    + assert (k' = []) as -> by (apply len_zero; rewrite Hb1, len_app in Hle; pose proof (len_nonneg k'); lia).
      rewrite app_nil_r in Hb1. rewrite <- Hb1, <- (app_nil_r (varint_enc k v)), varint_enc_read in Eb by done. done.
Qed.

(** Eight bytes hold any integer. *)
Lemma varint_total b : all_u8 b -> 8 <= len b -> exists v n, varint b = Some (v, n).
Proof.
  intros Hall Hl. destruct b as [|f b]; [done|]. inversion_clear Hall as [|? ? Hf _].
  destruct (first_byte f Hf) as (E1 & _ & Hr). unfold varint. cbn [head mbind option_bind]. rewrite E1.
  assert (1 <= Z.shiftl 1 (f / 64) <= 8) as Hs.
  { assert (f / 64 = 0 \/ f / 64 = 1 \/ f / 64 = 2 \/ f / 64 = 3) as [-> | [-> | [-> | ->]]] by lia; done. }
  unfold slice_get. rewrite (proj2 (Z.leb_le 1 _)), (proj2 (Z.leb_le _ (len _))) by lia. cbn. eauto.
Qed.

Lemma len_cap_wire c : len (cap_wire c) =
  len (varint_enc (cap_kind_enc c) (cap_kind c)) + len (varint_enc (cap_len_enc c) (len (cap_value c))) + len (cap_value c).
Proof. unfold cap_wire. rewrite !len_app. lia. Qed.

Lemma varint_enc_pos k v : 1 <= len (varint_enc k v).
Proof. unfold varint_enc. rewrite len_be_bytes. pose proof (Nat.pow_nonzero 2 k). lia. Qed.

Lemma cap_wire_pos c : 2 <= len (cap_wire c).
Proof.
  rewrite len_cap_wire. pose proof (len_nonneg (cap_value c)).
  pose proof (varint_enc_pos (cap_kind_enc c) (cap_kind c)). pose proof (varint_enc_pos (cap_len_enc c) (len (cap_value c))). lia.
Qed.

Section laws.
Context {V : Type} `{BytesMutLaws V}.

Abbreviation Dec := (M (CapsuleDecoder * V) MasqueError).

Lemma wp_dec_advance n d v (Q : outcome MasqueError unit -> CapsuleDecoder * V -> Prop) :
  0 <= n <= len (bm_bytes v) ->
  (forall v', bm_bytes v' = zdrop n (bm_bytes v) -> Q (Ready tt) (d, v')) -> wp (dec_advance n) Q (d, v).
Proof.
  intros Hn HQ. destruct (bm_advance_spec n v Hn) as (v' & Hv' & Hb').
  unfold dec_advance. repeat wp_step. wp_expect Hv'. wp_step. auto.
Qed.

(** What one call of [decode] does on a stream [cs] of which [fut] has not
    arrived. *)
Definition decode_post (cs : list capsule) (fut : bytes) (o : outcome MasqueError (option bytes)) (s : CapsuleDecoder * V) : Prop :=
  match o with
  | Ready (Some value) =>
      exists cs', Forall cap_ok cs' /\ cs' `suffix_of` cs /\ skip s.1 = 0 /\ bm_bytes s.2 ++ fut = stream_wire cs' /\
        stream_values cs = (value :: (stream_values cs').1, (stream_values cs').2)
  | Ready None =>
      exists cs', Forall cap_ok cs' /\ cs' `suffix_of` cs /\ 0 <= skip s.1 <= len (bm_bytes s.2 ++ fut) /\
        zdrop (skip s.1) (bm_bytes s.2 ++ fut) = stream_wire cs' /\
        stream_values cs = stream_values cs' /\ (fut = [] -> cs' = []) /\ (skip s.1 = 0 \/ bm_bytes s.2 = []) /\
        match cs' with c :: _ => len (bm_bytes s.2) < len (cap_wire c) | [] => True end
  | Failed e => e = Malformed /\ stream_values cs = ([], false)
  | _ => False
  end.

Lemma decode_post_skip c cs fut o s :
  delivered c = false -> oversized c = false -> decode_post cs fut o s -> decode_post (c :: cs) fut o s.
Proof.
  intros Hd Ho. assert (stream_values (c :: cs) = stream_values cs) as Hsv.
  { cbn [stream_values]. rewrite Ho, Hd. by destruct (stream_values cs). }
  unfold decode_post. rewrite Hsv. destruct o as [[value|]|e| | |]; try done.
  - intros (cs' & ? & ? & ?). exists cs'. split_and!; [done|by apply suffix_cons_r|naive_solver..].
  - intros (cs' & ? & ? & ?). exists cs'. split_and!; [done|by apply suffix_cons_r|naive_solver..].
Qed.

Lemma wp_take_datagram c cs fut d v b2 :
  cap_ok c -> Forall cap_ok cs -> delivered c = true -> skip d = 0 ->
  let ek := varint_enc (cap_kind_enc c) (cap_kind c) in
  let el := varint_enc (cap_len_enc c) (len (cap_value c)) in
  bm_bytes v = ek ++ el ++ b2 -> b2 ++ fut = cap_value c ++ stream_wire cs ->
  wp (take_datagram (len ek + len el) (len (cap_value c))) (decode_post (c :: cs) fut) (d, v).
Proof.
  intros Hc Hcs Hdel Hd ek el Hv Hb2. pose proof (len_nonneg ek). pose proof (len_nonneg el).
  pose proof (len_nonneg b2). pose proof (len_nonneg (cap_value c)).
  assert (Hbad : oversized c = false) by (unfold oversized; unfold delivered in Hdel; zbool; split_cases; ulia).
  unfold take_datagram. repeat wp_step. destruct (_ <? _) eqn:E; zbool.
  - repeat wp_step. exists (c :: cs). unfold prod_map. cbn [fst snd id]. unfold id. rewrite Hd, bm_bytes_reserve, Hv, zdrop_0.
    split_and!; [by constructor|done|lia|apply len_nonneg| |done| |by left|rewrite len_cap_wire, <- Hv; fold ek el; lia].
    + unfold stream_wire. cbn [map concat]. unfold cap_wire. fold ek el. rewrite <- !app_assoc. by rewrite Hb2.
    + intros ->. rewrite app_nil_r in Hb2. subst b2. rewrite Hv, !len_app in E. pose proof (len_nonneg (stream_wire cs)). lia.
  - wp_step. apply wp_dec_advance; [rewrite Hv, !len_app; lia|]. intros v1 Hv1. repeat wp_step.
    rewrite Hv, app_assoc, <- len_app, zdrop_len_app in Hv1.
    rewrite Hv, !len_app in E.
    destruct (bm_split_to_spec (len (cap_value c)) v1) as (v2 & Hs & Hv2); [rewrite Hv1; lia|].
    wp_expect Hs. repeat wp_step. exists cs.
    assert (Hsplit : b2 = cap_value c ++ zdrop (len (cap_value c)) b2).
    { apply (f_equal (ztake (len (cap_value c)))) in Hb2. rewrite ztake_len_app, ztake_app in Hb2 by lia.
      replace (ztake (_ - _) fut) with (@nil Z) in Hb2 by (unfold ztake; by replace (Z.to_nat _) with 0%nat by lia).
      rewrite app_nil_r in Hb2. rewrite <- Hb2 at 1. by rewrite ztake_zdrop. }
    split_and!; [done|by apply suffix_cons_r|done| |].
    + cbn [snd]. rewrite Hv2, Hv1. rewrite Hsplit, <- app_assoc in Hb2. by simplify_list_eq.
    + cbn [stream_values]. rewrite Hbad, Hdel, Hv1. destruct (stream_values cs). cbn [fst snd].
      rewrite Hsplit at 1. by rewrite ztake_len_app.
Qed.

(** Skipping what is left of a value. *)
Lemma wp_skip_value cs fut d v (Q : outcome MasqueError bool -> CapsuleDecoder * V -> Prop) :
  Forall cap_ok cs -> 0 <= skip d <= len (bm_bytes v ++ fut) ->
  zdrop (skip d) (bm_bytes v ++ fut) = stream_wire cs ->
  (forall d' v', (length (bm_bytes v') <= length (bm_bytes v))%nat -> skip d' = 0 ->
    bm_bytes v' ++ fut = stream_wire cs -> Q (Ready false) (d', v')) ->
  (forall s, decode_post cs fut (Ready None) s -> Q (Ready true) s) ->
  wp skip_value Q (d, v).
Proof.
  intros Hcs Hskip Hst Hgo Hstop. unfold skip_value. repeat wp_step.
  pose proof (len_nonneg (bm_bytes v)) as Hlb.
  destruct (0 <? skip d) eqn:E; zbool; [|wp_step; apply Hgo; [lia|lia|]; rewrite <- Hst; by replace (skip d) with 0 by lia].
  wp_step. apply wp_dec_advance; [lia|]. intros v' Hv'. repeat wp_step.
  set (n := Z.min (skip d) (len (bm_bytes v))) in *. rewrite len_app in Hskip.
  assert (Hdrop : zdrop (skip d - n) (bm_bytes v' ++ fut) = stream_wire cs).
  { rewrite <- Hst, Hv', !zdrop_app by lia. rewrite zdrop_zdrop by lia. rewrite len_zdrop by lia. f_equal; f_equal; lia. }
  destruct (0 <? skip d - n) eqn:E'; zbool.
  - apply Hstop. exists cs. unfold prod_map. cbn [fst snd skip]. unfold id.
    assert (Hnil : bm_bytes v' = []) by (rewrite Hv'; apply zdrop_all; lia). rewrite Hnil in *. cbn [app] in *.
    split_and!; [done|done|lia|lia|done|done| |by right|destruct cs as [|c cs1]; [done|]; pose proof (cap_wire_pos c); change (len (@nil Z)) with 0; lia].
    intros ->. change (len (@nil Z)) with 0 in *. lia.
  - replace (skip d - n) with 0 in Hdrop by lia.
    unfold prod_map. cbn [fst snd]. unfold id. apply Hgo; [rewrite Hv'; unfold zdrop; rewrite length_drop; lia|cbn [skip]; lia|done].
Qed.

Lemma decode_loop_spec fuel cs fut d v :
  (length (bm_bytes v) < fuel)%nat -> Forall cap_ok cs -> 0 <= skip d <= len (bm_bytes v ++ fut) ->
  zdrop (skip d) (bm_bytes v ++ fut) = stream_wire cs ->
  wp (decode_loop fuel) (decode_post cs fut) (d, v).
Proof.
  revert cs d v. induction fuel as [|fuel IH]; intros cs d v Hf Hcs Hskip Hst; [lia|].
  cbn [decode_loop]. wp_step. eapply wp_skip_value; [done..| |intros s Hs; by repeat wp_step].
  clear Hst Hskip. intros d' v' Hl Hd Hst. repeat wp_step. cbv zeta.
  assert (Hwait : (fut = [] -> cs = []) -> match cs with c :: _ => len (bm_bytes v') < len (cap_wire c) | [] => True end ->
    decode_post cs fut (Ready None) (d', v')).
  { intros Hfut Hshort. exists cs. cbn [fst snd]. rewrite Hd, zdrop_0. split_and!; auto using len_nonneg; lia. }
  destruct cs as [|c cs].
  { apply app_eq_nil in Hst as [Hv' Hfut]. rewrite Hv'. change (varint []) with (@None (Z * Z)). cbv beta iota. wp_step. auto. }
  inversion_clear Hcs as [|? ? (Hk & Hl1 & Hu8) Hcs'].
  pose proof (varint_enc_pos (cap_len_enc c) (len (cap_value c))). pose proof (len_nonneg (cap_value c)).
  unfold stream_wire in Hst. cbn [map concat] in Hst. fold (stream_wire cs) in Hst. unfold cap_wire in Hst.
  rewrite <- !app_assoc in Hst.
  destruct (varint_arrived _ _ _ _ _ Hk Hst) as [(Ev & Hfut & Hsh)|(b1 & Ev & Hb1 & Hst1)].
  { rewrite Ev. cbv beta iota. wp_step. apply Hwait; [done|]. rewrite len_cap_wire. lia. }
  set (ek := varint_enc (cap_kind_enc c) (cap_kind c)) in *.
  rewrite Ev. cbv beta iota. rewrite Hb1, zdrop_len_app.
  destruct (varint_arrived _ _ _ _ _ Hl1 Hst1) as [(Ev1 & Hfut & Hsh)|(b2 & Ev1 & Hb2 & Hst2)].
  { rewrite Ev1. cbv beta iota. wp_step. apply Hwait; [done|]. rewrite len_cap_wire, Hb1, len_app. fold ek. lia. }
  set (el := varint_enc (cap_len_enc c) (len (cap_value c))) in *.
  rewrite Ev1. cbv beta iota zeta. subst b1. rewrite app_assoc, <- len_app, zdrop_len_app.
  pose proof (len_nonneg (cap_value c)) as Hlv.
  assert (Hgo : delivered c = false -> oversized c = false ->
    wp (skip_capsule (len (ek ++ el)) (len (cap_value c)) ≫= fun _ => decode_loop fuel) (decode_post (c :: cs) fut) (d', v')).
  { intros Hdel Hov. wp_step. unfold skip_capsule. wp_step.
    apply wp_dec_advance; [rewrite Hb1, app_assoc, (len_app (ek ++ el)); pose proof (len_nonneg b2); pose proof (len_nonneg (ek ++ el)); lia|].
    intros v2 Hv2. rewrite Hb1, app_assoc, zdrop_len_app in Hv2. repeat wp_step. unfold prod_map. cbn [fst snd]. unfold id.
    eapply wp_mono; [|intros o s; by apply decode_post_skip]. apply IH; [| done | |]; cbn [skip]; rewrite ?Hv2.
    - apply varint_len in Ev. rewrite Hb1 in Hl. rewrite !length_app in Hl. unfold len in Ev. lia.
    - rewrite Hst2, len_app. pose proof (len_nonneg (stream_wire cs)). lia.
    - rewrite Hst2. apply zdrop_len_app. }
  unfold delivered, oversized in Hgo.
  destruct (cap_kind c =? DATAGRAM) eqn:Ek; [|by apply Hgo].
  destruct (len (cap_value c) <=? MAX_DATAGRAM) eqn:Em; cbn [andb negb] in Hgo.
  { rewrite len_app. apply wp_take_datagram with b2; [by unfold cap_ok|done|unfold delivered; by rewrite Ek, Em|done..]. }
  zbool. destruct (varint_total _ Hu8) as (cid & n & Hcid); [unfold MAX_DATAGRAM, MAX_UDP_PAYLOAD in Em; lia|].
  destruct (varint b2) as [[cid' n']|] eqn:E2.
  2:{ assert (Hsh : len b2 < len (cap_value c)).
      { apply Z.nle_gt. intros Hle. apply app_eq_inv in Hst2 as [(k' & Hk' & _) | (k' & Hk' & _)].
        - by rewrite Hk', (varint_app _ _ _ Hcid) in E2.
        - assert (k' = []) as -> by (apply len_zero; rewrite Hk', len_app in Hle; pose proof (len_nonneg k'); lia).
          rewrite app_nil_r in Hk'. congruence. }
      wp_step. apply Hwait; [|rewrite len_cap_wire, Hb1, !len_app; fold ek el; lia].
      intros ->. rewrite app_nil_r in Hst2. subst b2. by rewrite (varint_app _ _ _ Hcid) in E2. }
  apply (varint_app _ fut) in E2. rewrite Hst2, (varint_app _ _ _ Hcid) in E2. injection E2 as <- <-.
  rewrite Hcid in Hgo. destruct cid; try by apply Hgo.
  wp_step. split; [done|]. cbn [stream_values]. unfold oversized. rewrite (proj2 (Z.eqb_eq _ _) Ek), Hcid.
  by rewrite (proj2 (Z.leb_gt _ _) Em).
Qed.

Lemma capsule_decode_spec cs fut d v :
  Forall cap_ok cs -> 0 <= skip d <= len (bm_bytes v ++ fut) ->
  zdrop (skip d) (bm_bytes v ++ fut) = stream_wire cs ->
  wp capsule_decode (decode_post cs fut) (d, v).
Proof. intros Hcs Hskip Hst. unfold wp, capsule_decode. cbn [snd]. by apply decode_loop_spec; [lia|..]. Qed.
End laws.

(** The writer produces a capsule of the grammar. *)
Lemma encode_datagram_wire payload :
  all_u8 payload -> len payload < 2 ^ 62 - 1 ->
  exists c, encode_datagram payload = Some (cap_wire c) /\ cap_ok c /\ cap_kind c = DATAGRAM /\ cap_value c = 0 :: payload.
Proof.
  intros Hu Hl. pose proof (len_nonneg payload).
  destruct (put_varint_enc DATAGRAM) as (k0 & Hk0 & E0); [done|].
  destruct (put_varint_enc (len payload + 1)) as (k1 & Hk1 & E1); [lia|].
  unfold encode_datagram. rewrite E0, E1. cbn [mbind option_bind].
  exists (MkCapsule DATAGRAM (0 :: payload) k0 k1). unfold cap_wire, cap_ok. cbn [cap_kind cap_value cap_kind_enc cap_len_enc].
  rewrite len_cons, (Z.add_comm 1). split_and!; try done. apply Forall_cons. split; [by split|done].
Qed.
