(* ===== verification/Datagram.v ===== *)
(** * Datagram

    [proto/http3/datagram.rs]: the registry that routes HTTP Datagrams between
    one QUIC connection and its request streams, the per-request operations and
    the driver that moves packets between the registry and the transport; and
    [conn/http3/datagram.rs], the sender and receiver handles built on them.

    The [Mutex] makes every operation a step of its own on the shared state, so
    a run of the component is a sequence of these operations in any order. A
    [Weak] reference is the key of the object in a map of the live ones;
    [upgrade] is a lookup. Wakers are counters: a task that registered at a
    count is woken when the count has grown. A [usize] subtraction that would
    underflow is a panic. *)

From stdpp Require Import prelude strings gmap.
From Stdlib Require Import ZArith Lia.
From S2P Require Import Prelude Bytes Errors Wire.
Local Open Scope Z_scope.

Definition PACKETS : Z := 64.
Definition SESSION_BYTES : Z := 128 * 1024.
Definition CONNECTION_BYTES : Z := 1024 * 1024.

(** ** State *)

(** [struct Entry]; [request] is the key of the [Weak<RequestState>]. *)
Record Entry : Type := MkEntry {
  request : nat;
  semantics : bool;
  send_open : bool;
  recv_open : bool;
  e_incoming : list bytes;
  e_outgoing : list bytes;
  incoming_bytes : Z;
  outgoing_bytes : Z;
}.

(** [struct State], the data under the lock. *)
Record DgState : Type := MkDgState {
  streams : gmap Z Entry;
  ready_ids : list Z;
  s_incoming : Z;
  s_outgoing : Z;
  s_max_size : option Z;
  s_negotiated : bool;
  s_closed : bool;
}.

(** [State::default()]. *)
Definition dg_state_default : DgState := MkDgState ∅ [] 0 0 None false false.

(** [enum Abort]. *)
Inductive Abort : Type := AbortDatagram | AbortMessage.

(** [enum SendErrorKind]. *)
Inductive SendErrorKind : Type := SkUnavailable | SkTooLarge | SkFull | SkClosed.

#[export] Instance SendErrorKind_eq_dec : EqDecision SendErrorKind.
Proof. solve_decision. Defined.

(** [struct RequestState]: the stream, the wakes of [received], the body hook
    ([stop] with the key of [stop_state]), the cancellation token and [abort]. *)
Record RequestState : Type := MkRequestState {
  rs_id : Z;
  rs_received : nat;
  rs_stop : option nat;
  rs_invalid : bool;
  rs_abort : option Abort;
}.

(** The registry and what it shares: the state, the wakes of the driver, the
    generation of [capacity_notify], the live requests, the live response
    bodies and the bodies a hook has stopped. *)
Record Registry : Type := MkRegistry {
  r_state : DgState;
  r_waker : nat;
  r_capacity : nat;
  r_requests : gmap nat RequestState;
  r_bodies : gset nat;
  r_stopped : list nat;
}.

Definition set_incoming (q : list bytes) (n : Z) (e : Entry) : Entry :=
  MkEntry (request e) (semantics e) (send_open e) (recv_open e) q (e_outgoing e) n (outgoing_bytes e).
Definition set_outgoing (q : list bytes) (n : Z) (e : Entry) : Entry :=
  MkEntry (request e) (semantics e) (send_open e) (recv_open e) (e_incoming e) q (incoming_bytes e) n.
Definition set_send_open (b : bool) (e : Entry) : Entry :=
  MkEntry (request e) (semantics e) b (recv_open e) (e_incoming e) (e_outgoing e) (incoming_bytes e) (outgoing_bytes e).
Definition set_recv_open (b : bool) (e : Entry) : Entry :=
  MkEntry (request e) (semantics e) (send_open e) b (e_incoming e) (e_outgoing e) (incoming_bytes e) (outgoing_bytes e).

Definition set_streams (m : gmap Z Entry) (s : DgState) : DgState :=
  MkDgState m (ready_ids s) (s_incoming s) (s_outgoing s) (s_max_size s) (s_negotiated s) (s_closed s).
Definition set_ready_ids (l : list Z) (s : DgState) : DgState :=
  MkDgState (streams s) l (s_incoming s) (s_outgoing s) (s_max_size s) (s_negotiated s) (s_closed s).
Definition set_s_incoming (n : Z) (s : DgState) : DgState :=
  MkDgState (streams s) (ready_ids s) n (s_outgoing s) (s_max_size s) (s_negotiated s) (s_closed s).
Definition set_s_outgoing (n : Z) (s : DgState) : DgState :=
  MkDgState (streams s) (ready_ids s) (s_incoming s) n (s_max_size s) (s_negotiated s) (s_closed s).
Definition set_s_max_size (o : option Z) (s : DgState) : DgState :=
  MkDgState (streams s) (ready_ids s) (s_incoming s) (s_outgoing s) o (s_negotiated s) (s_closed s).
Definition set_s_negotiated (b : bool) (s : DgState) : DgState :=
  MkDgState (streams s) (ready_ids s) (s_incoming s) (s_outgoing s) (s_max_size s) b (s_closed s).

Definition set_r_state (s : DgState) (r : Registry) : Registry :=
  MkRegistry s (r_waker r) (r_capacity r) (r_requests r) (r_bodies r) (r_stopped r).
Definition set_r_requests (m : gmap nat RequestState) (r : Registry) : Registry :=
  MkRegistry (r_state r) (r_waker r) (r_capacity r) m (r_bodies r) (r_stopped r).

(** [waker.wake()], [capacity_notify.notify_waiters()] and [received.wake()] of
    a request. *)
Definition wake_driver (r : Registry) : Registry :=
  MkRegistry (r_state r) (S (r_waker r)) (r_capacity r) (r_requests r) (r_bodies r) (r_stopped r).
Definition notify_capacity (r : Registry) : Registry :=
  MkRegistry (r_state r) (r_waker r) (S (r_capacity r)) (r_requests r) (r_bodies r) (r_stopped r).
Definition wake_received (h : nat) (r : Registry) : Registry :=
  set_r_requests (alter (fun q => MkRequestState (rs_id q) (S (rs_received q)) (rs_stop q) (rs_invalid q) (rs_abort q)) h (r_requests r)) r.

(** ** Third-party: the HTTP Datagram format *)

(** [http3_datagram::Datagram]: [decode] and [encode]. *)
Class HttpDatagram : Type := {
  datagram_decode : bytes -> result string (Z * bytes);
  datagram_encode : Z -> bytes -> bytes;
}.

Section registry.
Context `{HttpDatagram}.

Abbreviation Dg := (M Registry).

Definition on_dg {E} (f : DgState -> DgState) : Dg E unit := modify (fun r => set_r_state (f (r_state r)) r).
Definition dg_state {E} : Dg E DgState := r ← get; mret (r_state r).

(** ** [Registry] *)

(** [Registry::new]: the limit of the transport, nothing else known. *)
Definition registry_new (max_datagram_size : option Z) : Registry :=
  MkRegistry (set_s_max_size max_datagram_size dg_state_default) 0 0 ∅ ∅ [].

(** [Registry::register]; the key of the new request. *)
Definition register {E} (id : Z) (semantics : bool) (invalid : bool) : Dg E nat :=
  r ← get;
  let h := fresh (dom (r_requests r)) in
  modify (fun r => set_r_requests (<[h := MkRequestState id 0 None invalid None]> (r_requests r)) r);;
  (if s_closed (r_state r) then mret tt
   else on_dg (fun s => set_streams (<[id := MkEntry h semantics true true [] [] 0 0]> (streams s)) s));;
  mret h.

(** [Registry::negotiated]. *)
Definition negotiated {E} (enabled : bool) : Dg E unit := on_dg (set_s_negotiated enabled).

(** Waking the requests of the entries a close removes. *)
Definition wake_all (es : list Entry) (r : Registry) : Registry := fold_left (fun r e => wake_received (request e) r) es r.

(** [Registry::close]. *)
Definition registry_close {E} : Dg E unit :=
  s ← dg_state;
  on_dg (fun s => MkDgState ∅ [] 0 0 (s_max_size s) (s_negotiated s) true);;
  modify (wake_all (map snd (map_to_list (streams s))));;
  modify wake_driver;;
  modify notify_capacity.

(** [RequestState::invalidate]. *)
Definition invalidate {E} (h : nat) : Dg E unit :=
  modify (fun r => set_r_requests (alter (fun q => MkRequestState (rs_id q) (rs_received q) (rs_stop q) true (rs_abort q)) h (r_requests r)) r);;
  r ← get;
  match q ← r_requests r !! h; rs_stop q with
  | Some body =>
      if decide (body ∈ r_bodies r)
      then modify (fun r => MkRegistry (r_state r) (r_waker r) (r_capacity r) (r_requests r) (r_bodies r) (r_stopped r ++ [body]))
      else mret tt
  | None => mret tt
  end.

(** [Registry::receive]. *)
Definition receive (packet : bytes) : Dg Error unit :=
  '(id, payload) ← lift_result (match datagram_decode packet with
                                | Ok p => Ok p
                                | Err text => Err (err_with (CauseText text) (err_new Http3))
                                end);
  r ← get;
  let s := r_state r in
  capacity ← expect (checked_sub CONNECTION_BYTES (s_incoming s));
  match streams s !! id with
  | None => mret tt
  | Some entry =>
      if negb (recv_open entry) then mret tt
      else
        match r_requests r !! request entry with
        | None => mret tt
        | Some _ =>
            if negb (semantics entry) then invalidate (request entry)
            else
              let size := len payload in
              full ← (if len (e_incoming entry) =? PACKETS then mret true
                      else room ← expect (checked_sub SESSION_BYTES (incoming_bytes entry));
                           mret ((room <? size) || (capacity <? size)));
              if full : bool then mret tt
              else
                on_dg (fun s =>
                  set_s_incoming (s_incoming s + size)
                    (set_streams (<[id := set_incoming (e_incoming entry ++ [payload]) (incoming_bytes entry + size) entry]> (streams s)) s));;
                modify (wake_received (request entry))
        end
  end.

(** [Registry::next]: the [while let] over the ready queue. *)
Fixpoint next_loop {E} (rdy : list Z) : Dg E (option (Z * bytes)) :=
  match rdy with
  | [] => mret None
  | id :: rdy =>
      on_dg (set_ready_ids rdy);;
      s ← dg_state;
      match streams s !! id with
      | None => next_loop rdy
      | Some entry =>
          match e_outgoing entry with
          | [] => next_loop rdy
          | packet :: rest =>
              left_bytes ← expect (checked_sub (outgoing_bytes entry) (len packet));
              on_dg (set_streams (<[id := set_outgoing rest left_bytes entry]> (streams s)));;
              (if decide (rest = []) then mret tt else on_dg (set_ready_ids (rdy ++ [id])));;
              left_total ← expect (checked_sub (s_outgoing s) (len packet));
              on_dg (set_s_outgoing left_total);;
              modify notify_capacity;;
              mret (Some (id, packet))
          end
      end
  end.

Definition next {E} : Dg E (option (Z * bytes)) := s ← dg_state; next_loop (ready_ids s).

(** The driver's update of the limit: senders are told when it changed. *)
Definition take_limit {E} (limit : option Z) : Dg E unit :=
  s ← dg_state;
  on_dg (set_s_max_size limit);;
  if decide (s_max_size s = limit) then mret tt else modify notify_capacity.

(** ** [RequestState] *)

(** The request a handle holds. *)
Definition self {E} (h : nat) : Dg E RequestState := r ← get; expect (r_requests r !! h).

(** [RequestState::prefix_size] of a stream. *)
Definition prefix_size (id : Z) : Z :=
  let q := id / 4 in
  if q <=? 63 then 1 else if q <=? 16383 then 2 else if q <=? 1073741823 then 4 else 8.

(** [RequestState::max_size]. *)
Definition max_size {E} (h : nat) : Dg E (option Z) :=
  q ← self h; s ← dg_state;
  mret (entry ← streams s !! rs_id q;
        if negb (s_negotiated s) || negb (send_open entry) then None
        else max ← s_max_size s; Some (saturating_sub max (prefix_size (rs_id q)))).

(** The limit in force, [state.max_size.filter(|_| state.negotiated)]. *)
Definition limit (s : DgState) : option Z := if s_negotiated s then s_max_size s else None.

(** Whether a packet of [size] bytes finds room; the subtractions panic where
    they would underflow. *)
Definition has_room {E} (s : DgState) (entry : Entry) (size : Z) : Dg E bool :=
  if len (e_outgoing entry) =? PACKETS then mret false
  else
    session ← expect (checked_sub SESSION_BYTES (outgoing_bytes entry));
    if session <? size then mret false
    else
      connection ← expect (checked_sub CONNECTION_BYTES (s_outgoing s));
      mret (negb (connection <? size)).

(** [RequestState::ready]. *)
Definition ready (h : nat) : Dg SendErrorKind unit :=
  q ← self h; s ← dg_state;
  match streams s !! rs_id q with
  | None => fail SkClosed
  | Some entry =>
      if negb (send_open entry) then fail SkClosed
      else
        match limit s with
        | None => fail SkUnavailable
        | Some max =>
            if max <? prefix_size (rs_id q) then fail SkTooLarge
            else
              room ← has_room s entry (Z.min max SESSION_BYTES);
              if room : bool then mret tt else fail SkFull
        end
  end.

(** [RequestState::try_send_buf]; [try_send] calls it with the whole payload.
    A payload is the contents of its [Buf]. *)
Definition try_send_buf (h : nat) (payload : bytes) : Dg SendErrorKind unit :=
  q ← self h; s ← dg_state;
  match streams s !! rs_id q with
  | None => fail SkClosed
  | Some entry =>
      if negb (send_open entry) then fail SkClosed
      else
        match limit s with
        | None => fail SkUnavailable
        | Some max =>
            match checked_add (len payload) (prefix_size (rs_id q)) with
            | None => fail SkTooLarge
            | Some size =>
                if (max <? size) || (SESSION_BYTES <? size) then fail SkTooLarge
                else
                  room ← has_room s entry size;
                  if negb room then fail SkFull
                  else
                    let packet := datagram_encode (rs_id q) payload in
                    let empty := bool_decide (e_outgoing entry = []) in
                    on_dg (fun s =>
                      set_s_outgoing (s_outgoing s + size)
                        (set_streams (<[rs_id q := set_outgoing (e_outgoing entry ++ [packet]) (outgoing_bytes entry + size) entry]> (streams s)) s));;
                    (if empty then on_dg (fun s => set_ready_ids (ready_ids s ++ [rs_id q]) s) else mret tt);;
                    modify wake_driver
            end
        end
  end.

Definition try_send (h : nat) (payload : bytes) : Dg SendErrorKind unit := try_send_buf h payload.

(** [RequestState::poll_recv]; the waker is registered by the caller's count of
    wakes. *)
Definition dg_poll_recv {E} (h : nat) : Dg E (option bytes) :=
  q ← self h; s ← dg_state;
  match streams s !! rs_id q with
  | None => mret None
  | Some entry =>
      match e_incoming entry with
      | packet :: rest =>
          left_bytes ← expect (checked_sub (incoming_bytes entry) (len packet));
          left_total ← expect (checked_sub (s_incoming s) (len packet));
          on_dg (fun s => set_s_incoming left_total (set_streams (<[rs_id q := set_incoming rest left_bytes entry]> (streams s)) s));;
          mret (Some packet)
      | [] => if negb (recv_open entry) then mret None else pend
      end
  end.

(** [RequestState::attach]: both cells keep their first value. *)
Definition attach {E} (h body : nat) : Dg E unit :=
  modify (fun r => set_r_requests
    (alter (fun q => MkRequestState (rs_id q) (rs_received q) (match rs_stop q with Some b => Some b | None => Some body end)
                       (rs_invalid q) (rs_abort q)) h (r_requests r)) r).

(** [RequestState::close_send]. *)
Definition close_send {E} (h : nat) : Dg E unit :=
  q ← self h; s ← dg_state;
  match streams s !! rs_id q with
  | None => mret tt
  | Some entry =>
      left_total ← expect (checked_sub (s_outgoing s) (outgoing_bytes entry));
      on_dg (fun s =>
        set_ready_ids (filter (fun id => id ≠ rs_id q) (ready_ids s))
          (set_s_outgoing left_total
             (set_streams (<[rs_id q := set_outgoing [] 0 (set_send_open false entry)]> (streams s)) s)))
  end;;
  modify wake_driver;; modify notify_capacity.

(** [RequestState::close_recv]. *)
Definition close_recv {E} (h : nat) : Dg E unit :=
  q ← self h; s ← dg_state;
  match streams s !! rs_id q with
  | None => mret tt
  | Some entry =>
      left_total ← expect (checked_sub (s_incoming s) (incoming_bytes entry));
      on_dg (fun s =>
        set_s_incoming left_total
          (set_streams (<[rs_id q := set_incoming [] 0 (set_recv_open false entry)]> (streams s)) s))
  end;;
  modify (wake_received h).

(** [RequestState::abort]: the first reason stays. *)
Definition abort {E} (h : nat) (why : Abort) : Dg E unit :=
  modify (fun r => set_r_requests
    (alter (fun q => MkRequestState (rs_id q) (rs_received q) (rs_stop q) (rs_invalid q)
                       (match rs_abort q with Some a => Some a | None => Some why end)) h (r_requests r)) r);;
  invalidate h;; close_recv h;; close_send h.

(** [RequestState::aborted]. *)
Definition aborted {E} (h : nat) : Dg E (option Abort) := q ← self h; mret (rs_abort q).

(** [RequestState::invalid_code]. *)
Definition invalid_code {E} (h : nat) : Dg E Code :=
  a ← aborted h; mret (match a with Some AbortMessage => H3_MESSAGE_ERROR | _ => H3_DATAGRAM_ERROR end).

(** [RequestState::close], which a dropped [Registration] runs. *)
Definition request_close {E} (h : nat) : Dg E unit :=
  q ← self h; s ← dg_state;
  match streams s !! rs_id q with
  | None => mret tt
  | Some entry =>
      left_in ← expect (checked_sub (s_incoming s) (incoming_bytes entry));
      left_out ← expect (checked_sub (s_outgoing s) (outgoing_bytes entry));
      on_dg (fun s =>
        MkDgState (delete (rs_id q) (streams s)) (filter (fun id => id ≠ rs_id q) (ready_ids s)) left_in left_out
          (s_max_size s) (s_negotiated s) (s_closed s))
  end;;
  modify (wake_received h);; modify wake_driver;; modify notify_capacity.
End registry.

(** ** The driver *)

(** [quic::DatagramError]. *)
Inductive DatagramError : Type := DgUnavailable | DgTooLarge | DgConnection (e : QuicError).

(** [trait SendDatagram] and [trait RecvDatagram], the transport's halves. *)
Class SendDatagram (S : Type) : Type := {
  max_datagram_size : S -> option Z;
  poll_send_datagram : bytes -> M S DatagramError unit;
}.
Class RecvDatagram (R : Type) : Type := poll_recv_datagram : M R QuicError (option bytes).

(** [enum DriveError]. *)
Inductive DriveError : Type := DMalformed (e : Error) | DConnection (e : QuicError).

(** [struct Driver] with the registry it shares and the wakes of its own task. *)
Record Driver (S R : Type) : Type := MkDriver {
  d_sender : S;
  d_receiver : R;
  d_pending : option (Z * bytes);
  d_registry : Registry;
  d_self_wakes : nat;
}.
Arguments MkDriver {S R}.
Arguments d_sender {S R}.
Arguments d_receiver {S R}.
Arguments d_pending {S R}.
Arguments d_registry {S R}.
Arguments d_self_wakes {S R}.

Section driver.
Context `{HttpDatagram} {S R : Type} `{SendDatagram S} `{RecvDatagram R}.

Abbreviation D := (Driver S R).

Definition on_registry {E A} (m : M Registry E A) : M D E A :=
  zoom d_registry (fun r d => MkDriver (d_sender d) (d_receiver d) (d_pending d) r (d_self_wakes d)) m.
Definition on_sender {E A} (m : M S E A) : M D E A :=
  zoom d_sender (fun s d => MkDriver s (d_receiver d) (d_pending d) (d_registry d) (d_self_wakes d)) m.
Definition on_receiver {E A} (m : M R E A) : M D E A :=
  zoom d_receiver (fun r d => MkDriver (d_sender d) r (d_pending d) (d_registry d) (d_self_wakes d)) m.
Definition set_pending (p : option (Z * bytes)) (d : D) : D :=
  MkDriver (d_sender d) (d_receiver d) p (d_registry d) (d_self_wakes d).
(** [if index == 31 { cx.waker().wake_by_ref() }] with [k] rounds to go. *)
Definition wake_at_end {E} (k : nat) : M D E unit :=
  match k with
  | O => modify (fun d => MkDriver (d_sender d) (d_receiver d) (d_pending d) (d_registry d) (Datatypes.S (d_self_wakes d)))
  | _ => mret tt
  end.

(** The receiving loop: [true] when the transport has closed. *)
Fixpoint recv_loop (n : nat) : M D DriveError bool :=
  match n with
  | O => mret false
  | Datatypes.S k => fun d =>
      match on_receiver poll_recv_datagram d with
      | (d, Ready (Some packet)) =>
          (map_err DMalformed (on_registry (receive packet));; wake_at_end k;; recv_loop k) d
      | (d, Ready None) => (d, Ready true)
      | (d, Failed error) => (d, Failed (DConnection error))
      | (d, Pending) => (d, Ready false)
      | (d, Panicked) => (d, Panicked)
      | (d, NoFuel) => (d, NoFuel)
      end
  end.

(** Whether the stream of the pending packet still sends. *)
Definition pending_open (id : Z) (s : DgState) : bool :=
  match streams s !! id with Some entry => send_open entry | None => false end.

(** The sending loop. *)
Fixpoint send_loop (n : nat) : M D DriveError unit :=
  match n with
  | O => mret tt
  | Datatypes.S k =>
      d ← get;
      (match d_pending d with
       | None => p ← on_registry next; modify (set_pending p)
       | Some _ => mret tt
       end);;
      d ← get;
      match d_pending d with
      | None => mret tt
      | Some (id, packet) =>
          if negb (pending_open id (r_state (d_registry d))) then
            modify (set_pending None);; wake_at_end k;; send_loop k
          else fun d =>
            match on_sender (poll_send_datagram packet) d with
            | (d, Pending) => (d, Ready tt)
            | (d, Failed (DgConnection error)) => (d, Failed (DConnection error))
            | (d, Ready _) | (d, Failed _) => (modify (set_pending None);; wake_at_end k;; send_loop k) d
            | (d, Panicked) => (d, Panicked)
            | (d, NoFuel) => (d, NoFuel)
            end
      end
  end.

(** The transport's limit is taken over. *)
Definition update_limit {E} : M D E unit :=
  d ← get; on_registry (take_limit (max_datagram_size (d_sender d))).

(** [Future for Driver]. *)
Definition driver_poll : M D DriveError unit :=
  update_limit;;
  closed ← recv_loop 32;
  if closed : bool then mret tt else send_loop 32;; pend.
End driver.

(** ** Handles: [conn/http3/datagram.rs] *)

(** [struct Sender]: the request and the generation a waiting [Notified] was
    made at. *)
Record DgSender : Type := MkDgSender { ds_state : nat; ds_waiting : option nat }.

Section handles.
Context `{HttpDatagram}.

Abbreviation Hd := (M (DgSender * Registry)).

Definition dg_sender_new (h : nat) : DgSender := MkDgSender h None.

(** Runs an attempt and keeps its error as a value. *)
Definition attempted {E E' A} (m : M Registry E A) : Hd E' (result E A) := fun '(s, r) =>
  match m r with
  | (r, Ready a) => ((s, r), Ready (Ok a))
  | (r, Failed e) => ((s, r), Ready (Err e))
  | (r, Pending) => ((s, r), Pending)
  | (r, Panicked) => ((s, r), Panicked)
  | (r, NoFuel) => ((s, r), NoFuel)
  end.

Definition set_waiting {E} (w : option nat) : Hd E unit :=
  modify (fun '(s, r) => (MkDgSender (ds_state s) w, r)).

Definition is_full (r : result SendErrorKind unit) : bool :=
  match r with Err SkFull => true | _ => false end.

(** [Sender::poll_admit]. A [Notified] made at a generation is ready once the
    generation has moved on; the task is woken when that happens. The value is
    the result, or [None] for "pending", with whether the task woke itself. *)
Definition poll_admit {E} (attempt : nat -> M Registry SendErrorKind unit) : Hd E (result SendErrorKind unit + bool) :=
  '(s, _) ← get;
  first ← attempted (attempt (ds_state s));
  if negb (is_full first) then set_waiting None;; mret (inl first)
  else
    '(s, r) ← get;
    let since := match ds_waiting s with Some g => g | None => r_capacity r end in
    set_waiting (Some since);;
    if negb (r_capacity r =? since)%nat then set_waiting None;; mret (inr true)
    else
      again ← attempted (attempt (ds_state s));
      if is_full again then mret (inr false) else set_waiting None;; mret (inl again).

(** [Sender::poll_send], [Sender::poll_ready]. *)
Definition sender_poll_send {E} (payload : bytes) : Hd E (result SendErrorKind unit + bool) :=
  poll_admit (fun h => try_send h payload).
Definition sender_poll_ready {E} : Hd E (result SendErrorKind unit + bool) := poll_admit ready.

(** [Sender::max_datagram_size], [Sender::is_closed], [Sender::try_send_prefixed]. *)
Definition sender_max_datagram_size {E} (s : DgSender) : M Registry E (option Z) := max_size (ds_state s).
Definition sender_is_closed {E} (s : DgSender) : M Registry E bool := fun r =>
  match ready (ds_state s) r with
  | (r, Failed SkClosed) => (r, Ready true)
  | (r, Panicked) => (r, Panicked)
  | (r, NoFuel) => (r, NoFuel)
  | (r, _) => (r, Ready false)
  end.
Definition try_send_prefixed (s : DgSender) (prefix payload : bytes) : M Registry SendErrorKind unit :=
  try_send_buf (ds_state s) (prefix ++ payload).

(** [Receiver]: its request; [abort_malformed], [abort_malformed_message] and
    the drop. *)
Definition receiver_poll_recv {E} (h : nat) : M Registry E (option bytes) := dg_poll_recv h.
Definition abort_malformed {E} (h : nat) : M Registry E unit := abort h AbortDatagram.
Definition abort_malformed_message {E} (h : nat) : M Registry E unit := abort h AbortMessage.
Definition receiver_drop {E} (h : nat) : M Registry E unit := close_recv h.
End handles.
