(* ===== verification/DatagramLaws.v ===== *)
(** * DatagramLaws

    The invariant of the datagram registry and that every operation keeps it:
    the byte counters are the sums of the queues and stay within their budgets,
    so no counter underflows, and the ready queue holds exactly the sessions
    with packets to send, each once. *)

From stdpp Require Import prelude strings gmap.
From Stdlib Require Import ZArith Lia.
From S2P Require Import Prelude Bytes Errors Wire Datagram.
Local Open Scope Z_scope.

(** ** Sums over a map *)

Section total.
Context (f : Entry -> Z).

Definition total (m : gmap Z Entry) : Z := map_fold (fun _ e acc => f e + acc) 0 m.

Lemma total_empty : total ∅ = 0.
Proof. apply map_fold_empty. Qed.

Lemma total_insert_new i e m : m !! i = None -> total (<[i := e]> m) = f e + total m.
Proof. intros Hi. unfold total. rewrite (map_fold_insert_L (fun _ e acc => f e + acc)); [done|intros; lia|done]. Qed.

Lemma total_delete i e m : m !! i = Some e -> total (delete i m) = total m - f e.
Proof.
  intros Hi. rewrite <- (insert_delete_id m i e Hi) at 2.
  rewrite total_insert_new by apply lookup_delete_eq. lia.
Qed.

Lemma total_insert i e e' m : m !! i = Some e -> total (<[i := e']> m) = total m - f e + f e'.
Proof.
  intros Hi. rewrite <- insert_delete_eq, total_insert_new by apply lookup_delete_eq.
  rewrite (total_delete _ _ _ Hi). lia.
Qed.

Lemma total_nonneg m : (forall i e, m !! i = Some e -> 0 <= f e) -> 0 <= total m.
Proof.
  induction m as [|i e m Hi IH] using map_ind; intros Hm; [by rewrite total_empty|].
  rewrite total_insert_new by done.
  pose proof (Hm i e ltac:(by rewrite lookup_insert_eq)).
  assert (0 <= total m); [|lia]. apply IH. intros j e' Hj. apply (Hm j).
  rewrite lookup_insert_ne; [done|]. by intros ->; congruence.
Qed.

Lemma total_member i e m : (forall i e, m !! i = Some e -> 0 <= f e) -> m !! i = Some e -> f e <= total m.
Proof.
  intros Hm Hi. pose proof (total_delete i e m Hi) as Hd.
  assert (0 <= total (delete i m)); [|lia]. apply total_nonneg. intros j e' Hj.
  apply lookup_delete_Some in Hj as [_ Hj]. by apply (Hm j).
Qed.
End total.

Lemma total_ext f g m : (forall i e, m !! i = Some e -> f e = g e) -> total f m = total g m.
Proof.
  induction m as [|i e m Hi IH] using map_ind; intros Hfg; [by rewrite !total_empty|].
  rewrite !total_insert_new by done. rewrite (Hfg i e) by (by rewrite lookup_insert_eq). f_equal.
  apply IH. intros j e' Hj. apply (Hfg j). rewrite lookup_insert_ne; [done|]. intros ->. congruence.
Qed.

(** The bytes of a queue. *)
Fixpoint queued (q : list bytes) : Z := match q with [] => 0 | p :: q => len p + queued q end.

Lemma queued_nonneg q : 0 <= queued q.
Proof. induction q as [|p q IH]; cbn [queued]; [lia|]. pose proof (len_nonneg p). lia. Qed.

Lemma queued_snoc q p : queued (q ++ [p]) = queued q + len p.
Proof. induction q as [|x q IH]; cbn [queued app]; lia. Qed.

(** ** The invariant *)

(** The documented size of the Quarter Stream ID prefix, and that decoding
    undoes encoding. *)
Definition stream_id (id : Z) : Prop := 0 <= id < 2 ^ 62 /\ id mod 4 = 0.

Class HttpDatagramLaws `{HttpDatagram} : Prop := {
  datagram_encode_len : forall id p, stream_id id -> len (datagram_encode id p) = prefix_size id + len p;
  datagram_decode_encode : forall id p, stream_id id -> datagram_decode (datagram_encode id p) = Ok (id, p);
}.

Record queue_ok (q : list bytes) (n : Z) (open : bool) : Prop := {
  q_bytes : n = queued q;
  q_session : n <= SESSION_BYTES;
  q_packets : len q <= PACKETS;
  q_open : open = false -> q = [];
}.

Definition entry_ok (e : Entry) : Prop :=
  queue_ok (e_incoming e) (incoming_bytes e) (recv_open e) /\ queue_ok (e_outgoing e) (outgoing_bytes e) (send_open e).

Record dg_inv (s : DgState) : Prop := {
  i_entries : forall id e, streams s !! id = Some e -> entry_ok e;
  i_incoming : s_incoming s = total incoming_bytes (streams s);
  i_outgoing : s_outgoing s = total outgoing_bytes (streams s);
  i_in_budget : s_incoming s <= CONNECTION_BYTES;
  i_out_budget : s_outgoing s <= CONNECTION_BYTES;
  i_nodup : NoDup (ready_ids s);
  i_ready : forall id, id ∈ ready_ids s <-> exists e, streams s !! id = Some e /\ e_outgoing e ≠ [];
  i_closed : s_closed s = true -> streams s = ∅;
}.

Lemma queue_ok_nil b : queue_ok [] 0 b.
Proof. split; try done. Qed.
Lemma queue_nonneg q n b : queue_ok q n b -> 0 <= n.
Proof. intros [-> _ _ _]. apply queued_nonneg. Qed.

Lemma queue_ok_push q n b p :
  queue_ok q n b -> b = true -> len q ≠ PACKETS -> len p <= SESSION_BYTES - n -> queue_ok (q ++ [p]) (n + len p) b.
Proof.
  intros [-> ? ? ?] -> Hq Hp. split; [by rewrite queued_snoc|lia| |done].
  rewrite len_app. change (len [p]) with 1. lia.
Qed.

Lemma queue_ok_pop p q n b : queue_ok (p :: q) n b -> queue_ok q (n - len p) b /\ len p <= n.
Proof.
  intros [-> Hs Hp Ho]. pose proof (queued_nonneg q). pose proof (len_nonneg p). cbn [queued] in *.
  rewrite len_cons in Hp. split; [split|]; [lia|lia|lia| |lia]. intros ->. by specialize (Ho eq_refl).
Qed.

Section inv_lemmas.
Context (s : DgState) (Hinv : dg_inv s).

Lemma entry_in_le id e : streams s !! id = Some e -> 0 <= incoming_bytes e <= s_incoming s.
Proof.
  intros He. rewrite (i_incoming _ Hinv). split; [by apply (queue_nonneg _ _ _ (proj1 (i_entries _ Hinv _ _ He)))|].
  apply total_member with id; [|done]. intros j e' Hj. by apply (queue_nonneg _ _ _ (proj1 (i_entries _ Hinv _ _ Hj))).
Qed.

Lemma entry_out_le id e : streams s !! id = Some e -> 0 <= outgoing_bytes e <= s_outgoing s.
Proof.
  intros He. rewrite (i_outgoing _ Hinv). split; [by apply (queue_nonneg _ _ _ (proj2 (i_entries _ Hinv _ _ He)))|].
  apply total_member with id; [|done]. intros j e' Hj. by apply (queue_nonneg _ _ _ (proj2 (i_entries _ Hinv _ _ Hj))).
Qed.

(** Replacing one entry: the counters move with it and the ready queue follows
    whether it has packets. *)
Lemma inv_update id e e' rdy n m :
  streams s !! id = Some e -> entry_ok e' ->
  n = s_incoming s - incoming_bytes e + incoming_bytes e' -> m = s_outgoing s - outgoing_bytes e + outgoing_bytes e' ->
  n <= CONNECTION_BYTES -> m <= CONNECTION_BYTES ->
  NoDup rdy -> (forall i, i ≠ id -> i ∈ rdy <-> i ∈ ready_ids s) -> (id ∈ rdy <-> e_outgoing e' ≠ []) ->
  dg_inv (MkDgState (<[id := e']> (streams s)) rdy n m (s_max_size s) (s_negotiated s) (s_closed s)).
Proof.
  intros He He' Hn Hm Hbn Hbm Hnd Hother Hself. split; cbn.
  - intros i x. rewrite lookup_insert_Some. intros [[_ <-]|[_ Hx]]; [done|]. by apply (i_entries _ Hinv i).
  - rewrite (total_insert _ _ _ _ _ He), <- (i_incoming _ Hinv). lia.
  - rewrite (total_insert _ _ _ _ _ He), <- (i_outgoing _ Hinv). lia.
  - done.
  - done.
  - done.
  - intros i. destruct (decide (i = id)) as [->|Hne].
    + rewrite Hself, lookup_insert_eq. naive_solver.
    + rewrite (Hother _ Hne), (i_ready _ Hinv), lookup_insert_ne by done. done.
  - intros Hc. rewrite (i_closed _ Hinv Hc) in He. by rewrite lookup_empty in He.
Qed.
End inv_lemmas.

(** ** The abstract machine *)

(** What the operations do to the shared state, one label per kind of change. *)
Inductive label : Type :=
| LNone
| LRegister (id : Z) (h : nat) (sem : bool)
| LNegotiated (b : bool)
| LLimit (o : option Z)
| LSend (id : Z) (packet : bytes)
| LNext (id : Z) (packet : bytes)
| LArrive (id : Z) (payload : bytes)
| LTake (id : Z) (payload : bytes)
| LCloseSend (id : Z)
| LCloseRecv (id : Z)
| LRemove (id : Z)
| LCloseAll.

(** Room for one more packet in a queue and its budgets. *)
Definition room (q : list bytes) (n connection size : Z) : Prop :=
  len q ≠ PACKETS /\ size <= SESSION_BYTES - n /\ size <= CONNECTION_BYTES - connection.

Definition lab_guard (l : label) (s : DgState) : Prop :=
  match l with
  | LNone | LLimit _ | LCloseAll => True
  | LNegotiated _ => s_negotiated s = false
  | LRegister id _ _ => streams s !! id = None /\ s_closed s = false
  | LSend id p => exists e, streams s !! id = Some e /\ send_open e = true /\
      room (e_outgoing e) (outgoing_bytes e) (s_outgoing s) (len p) /\ is_Some (limit s)
  | LNext id p => exists e rest rdy, ready_ids s = id :: rdy /\ streams s !! id = Some e /\ e_outgoing e = p :: rest
  | LArrive id p => exists e, streams s !! id = Some e /\ recv_open e = true /\ semantics e = true /\
      room (e_incoming e) (incoming_bytes e) (s_incoming s) (len p)
  | LTake id p => exists e rest, streams s !! id = Some e /\ e_incoming e = p :: rest
  | LCloseSend id | LCloseRecv id | LRemove id => is_Some (streams s !! id)
  end.

(** An update of one entry with the counters that go with it. *)
Definition update (id : Z) (f : Entry -> Entry) (rdy : list Z) (s : DgState) : DgState :=
  match streams s !! id with
  | None => s
  | Some e =>
      let e' := f e in
      MkDgState (<[id := e']> (streams s)) rdy
        (s_incoming s - incoming_bytes e + incoming_bytes e') (s_outgoing s - outgoing_bytes e + outgoing_bytes e')
        (s_max_size s) (s_negotiated s) (s_closed s)
  end.

Definition push_out (p : bytes) (e : Entry) : Entry := set_outgoing (e_outgoing e ++ [p]) (outgoing_bytes e + len p) e.
Definition pop_out (e : Entry) : Entry :=
  match e_outgoing e with p :: q => set_outgoing q (outgoing_bytes e - len p) e | [] => e end.
Definition push_in (p : bytes) (e : Entry) : Entry := set_incoming (e_incoming e ++ [p]) (incoming_bytes e + len p) e.
Definition pop_in (e : Entry) : Entry :=
  match e_incoming e with p :: q => set_incoming q (incoming_bytes e - len p) e | [] => e end.

(** The sessions with packets after [id] got one, and after it gave one. *)
Definition ready_push (id : Z) (s : DgState) : list Z :=
  match streams s !! id with
  | Some e => if decide (e_outgoing e = []) then ready_ids s ++ [id] else ready_ids s
  | None => ready_ids s
  end.
Definition ready_rotate (id : Z) (s : DgState) : list Z :=
  match streams s !! id with
  | Some e => match e_outgoing e with _ :: _ :: _ => tail (ready_ids s) ++ [id] | _ => tail (ready_ids s) end
  | None => ready_ids s
  end.
Definition ready_without (id : Z) (s : DgState) : list Z := filter (fun i => i ≠ id) (ready_ids s).

Definition lab_apply (l : label) (s : DgState) : DgState :=
  match l with
  | LNone => s
  | LRegister id h sem => set_streams (<[id := MkEntry h sem true true [] [] 0 0]> (streams s)) s
  | LNegotiated b => set_s_negotiated b s
  | LLimit o => set_s_max_size o s
  | LSend id p => update id (push_out p) (ready_push id s) s
  | LNext id _ => update id pop_out (ready_rotate id s) s
  | LArrive id p => update id (push_in p) (ready_ids s) s
  | LTake id _ => update id pop_in (ready_ids s) s
  | LCloseSend id => update id (fun e => set_outgoing [] 0 (set_send_open false e)) (ready_without id s) s
  | LCloseRecv id => update id (fun e => set_incoming [] 0 (set_recv_open false e)) (ready_ids s) s
  | LRemove id =>
      match streams s !! id with
      | Some e => MkDgState (delete id (streams s)) (ready_without id s)
                    (s_incoming s - incoming_bytes e) (s_outgoing s - outgoing_bytes e) (s_max_size s) (s_negotiated s) (s_closed s)
      | None => s
      end
  | LCloseAll => MkDgState ∅ [] 0 0 (s_max_size s) (s_negotiated s) true
  end.

Lemma ready_without_elem id i s : i ∈ ready_without id s <-> i ≠ id /\ i ∈ ready_ids s.
Proof. unfold ready_without. by rewrite list_elem_of_filter. Qed.

Lemma NoDup_ready_without id s : NoDup (ready_ids s) -> NoDup (ready_without id s).
Proof. apply NoDup_filter. Qed.

(** [inv_update] for [update]. *)
Lemma update_inv s id e f rdy :
  dg_inv s -> streams s !! id = Some e -> entry_ok (f e) ->
  s_incoming s - incoming_bytes e + incoming_bytes (f e) <= CONNECTION_BYTES ->
  s_outgoing s - outgoing_bytes e + outgoing_bytes (f e) <= CONNECTION_BYTES ->
  NoDup rdy -> (forall i, i ≠ id -> i ∈ rdy <-> i ∈ ready_ids s) -> (id ∈ rdy <-> e_outgoing (f e) ≠ []) ->
  dg_inv (update id f rdy s).
Proof. intros Hs He ?????. unfold update. rewrite He. by apply (inv_update s Hs id e). Qed.

Lemma send_inv s id p : dg_inv s -> lab_guard (LSend id p) s -> dg_inv (lab_apply (LSend id p) s).
Proof.
  intros Hs (e & He & Ho & (Hq & Hn & Hc) & _). cbn [lab_apply].
  destruct (i_entries _ Hs _ _ He) as [Hin Hout]. pose proof (entry_in_le s Hs id e He).
  pose proof (i_in_budget _ Hs). pose proof (i_ready _ Hs id) as Hr.
  apply update_inv with e; [done|done| |cbn; lia|cbn; lia| | |].
  - split; [done|]. cbn. rewrite Ho in *. by apply queue_ok_push.
  - unfold ready_push. rewrite He. case_decide; [|apply (i_nodup _ Hs)].
    apply NoDup_app. split_and!; [apply (i_nodup _ Hs)| |apply NoDup_singleton].
    intros i Hi ->%list_elem_of_singleton. apply Hr in Hi as (e' & He' & Hne). congruence.
  - intros i Hi. unfold ready_push. rewrite He. case_decide; [|done]. rewrite elem_of_app, list_elem_of_singleton. naive_solver.
  - cbn. split; [intros _ Hnil; by apply app_eq_nil in Hnil as [_ ?]|]. intros _. unfold ready_push. rewrite He.
    case_decide; [set_solver|]. apply Hr. eauto.
Qed.

Lemma next_inv s id p : dg_inv s -> lab_guard (LNext id p) s -> dg_inv (lab_apply (LNext id p) s).
Proof.
  intros Hs (e & rest & rdy & Hrdy & He & Hout). cbn [lab_apply].
  destruct (i_entries _ Hs _ _ He) as [Hi Ho]. pose proof (i_nodup _ Hs) as Hnd. rewrite Hrdy in Hnd.
  apply NoDup_cons in Hnd as [Hnotin Hnd]. rewrite Hout in Ho. apply queue_ok_pop in Ho as [Ho Hle].
  pose proof (entry_in_le s Hs id e He). pose proof (i_in_budget _ Hs). pose proof (i_out_budget _ Hs). pose proof (len_nonneg p).
  assert (Hpop : pop_out e = set_outgoing rest (outgoing_bytes e - len p) e) by (unfold pop_out; by rewrite Hout).
  unfold ready_rotate. rewrite He, Hout, Hrdy. cbn [tail].
  apply update_inv with e; rewrite ?Hpop; [done|done|split; done|cbn; lia|cbn; lia| | |]; cbn.
  - destruct rest; [done|]. apply NoDup_app. split_and!; [done| |apply NoDup_singleton]. intros i Hin ->%list_elem_of_singleton. done.
  - intros i Hne. rewrite Hrdy. destruct rest; set_solver.
  - destruct rest; set_solver.
Qed.

Lemma arrive_inv s id p : dg_inv s -> lab_guard (LArrive id p) s -> dg_inv (lab_apply (LArrive id p) s).
Proof.
  intros Hs (e & He & Ho & _ & (Hq & Hn & Hc)). cbn [lab_apply].
  destruct (i_entries _ Hs _ _ He) as [Hin Hout]. pose proof (entry_out_le s Hs id e He).
  pose proof (i_out_budget _ Hs).
  apply update_inv with e; [done|done| |cbn; lia|cbn; lia|apply (i_nodup _ Hs)|done|].
  - split; [|done]. cbn. rewrite Ho in *. by apply queue_ok_push.
  - rewrite (i_ready _ Hs). cbn. naive_solver.
Qed.

Lemma take_inv s id p : dg_inv s -> lab_guard (LTake id p) s -> dg_inv (lab_apply (LTake id p) s).
Proof.
  intros Hs (e & rest & He & Hq). cbn [lab_apply]. destruct (i_entries _ Hs _ _ He) as [Hi Ho].
  rewrite Hq in Hi. apply queue_ok_pop in Hi as [Hi Hle]. pose proof (len_nonneg p).
  pose proof (entry_out_le s Hs id e He). pose proof (i_in_budget _ Hs). pose proof (i_out_budget _ Hs).
  assert (Hpop : pop_in e = set_incoming rest (incoming_bytes e - len p) e) by (unfold pop_in; by rewrite Hq).
  apply update_inv with e; rewrite ?Hpop; [done|done|split; done|cbn; lia|cbn; lia|apply (i_nodup _ Hs)|done|].
  rewrite (i_ready _ Hs). cbn. naive_solver.
Qed.

Lemma close_send_inv s id : dg_inv s -> lab_guard (LCloseSend id) s -> dg_inv (lab_apply (LCloseSend id) s).
Proof.
  intros Hs [e He]. cbn [lab_apply]. destruct (i_entries _ Hs _ _ He) as [Hi Ho].
  pose proof (entry_out_le s Hs id e He). pose proof (i_in_budget _ Hs). pose proof (i_out_budget _ Hs).
  apply update_inv with e; [done|done|split; [done|apply queue_ok_nil]|cbn; lia|cbn; lia| | |].
  - by apply NoDup_ready_without, i_nodup.
  - intros i Hne. rewrite ready_without_elem. naive_solver.
  - rewrite ready_without_elem. cbn. naive_solver.
Qed.

Lemma close_recv_inv s id : dg_inv s -> lab_guard (LCloseRecv id) s -> dg_inv (lab_apply (LCloseRecv id) s).
Proof.
  intros Hs [e He]. cbn [lab_apply]. destruct (i_entries _ Hs _ _ He) as [Hi Ho].
  pose proof (entry_in_le s Hs id e He). pose proof (i_in_budget _ Hs). pose proof (i_out_budget _ Hs).
  apply update_inv with e; [done|done|split; [apply queue_ok_nil|done]|cbn; lia|cbn; lia|apply (i_nodup _ Hs)|done|].
  rewrite (i_ready _ Hs). cbn. naive_solver.
Qed.

Lemma remove_inv s id : dg_inv s -> lab_guard (LRemove id) s -> dg_inv (lab_apply (LRemove id) s).
Proof.
  intros Hs [e He]. cbn [lab_apply]. rewrite He.
  pose proof (entry_in_le s Hs id e He). pose proof (entry_out_le s Hs id e He).
  pose proof (i_in_budget _ Hs). pose proof (i_out_budget _ Hs). split; cbn; try lia.
  - intros i x Hx. apply lookup_delete_Some in Hx as [_ Hx]. by apply (i_entries _ Hs i).
  - rewrite (total_delete _ _ _ _ He), <- (i_incoming _ Hs). done.
  - rewrite (total_delete _ _ _ _ He), <- (i_outgoing _ Hs). done.
  - by apply NoDup_ready_without, i_nodup.
  - intros i. rewrite ready_without_elem, (i_ready _ Hs). setoid_rewrite lookup_delete_Some. naive_solver.
  - intros Hc. rewrite (i_closed _ Hs Hc) in He. by rewrite lookup_empty in He.
Qed.

Lemma register_inv s id h sem : dg_inv s -> lab_guard (LRegister id h sem) s -> dg_inv (lab_apply (LRegister id h sem) s).
Proof.
  intros Hs [Hid Hc]. cbn [lab_apply]. split; cbn; try apply Hs.
  - intros i e. rewrite lookup_insert_Some. intros [[_ <-]|[_ He]]; [split; apply queue_ok_nil|]. by apply (i_entries _ Hs i).
  - rewrite total_insert_new by done. rewrite <- (i_incoming _ Hs). cbn. lia.
  - rewrite total_insert_new by done. rewrite <- (i_outgoing _ Hs). cbn. lia.
  - intros i. rewrite (i_ready _ Hs). setoid_rewrite lookup_insert_Some. split.
    + intros (e & He & Hne). exists e. split; [right|done]. split; [congruence|done].
    + intros (e & [[_ <-]|[_ He]] & Hne); [done|]. eauto.
  - congruence.
Qed.

(** Every change of the abstract machine keeps the invariant. *)
Lemma lab_inv l s : dg_inv s -> lab_guard l s -> dg_inv (lab_apply l s).
Proof.
  intros Hs Hg. destruct l; [done|by apply register_inv|by destruct Hs|by destruct Hs|by apply send_inv|by apply next_inv|
    by apply arrive_inv|by apply take_inv|by apply close_send_inv|by apply close_recv_inv|by apply remove_inv|].
  cbn [lab_apply]. split; cbn; try done; try (by rewrite total_empty).
  - constructor.
  - intros i. split; [by intros ?%not_elem_of_nil|]. intros (e & He & _). by rewrite lookup_empty in He.
Qed.
