(* ===== verification/DatagramOps.v ===== *)
(** * DatagramOps

    Every operation of the datagram registry makes one change of the abstract
    machine of [DatagramLaws], keeps the registry's invariant and wakes the
    tasks that the change can let go on. *)

From stdpp Require Import prelude strings gmap.
From Stdlib Require Import ZArith Lia.
From S2P Require Import Prelude Bytes Errors Wire Datagram DatagramLaws.
Local Open Scope Z_scope.

(** ** Requests *)

(** The stream of each live request. *)
Definition ids (r : Registry) : gmap nat Z := rs_id <$> r_requests r.

(** How often the receiver of a request was woken. *)
Definition received (h : nat) (r : Registry) : nat :=
  match r_requests r !! h with Some q => rs_received q | None => 0%nat end.

(** The invariant of the registry: streams are not shared between requests and
    a registered one is live, as its [Registration] holds it. *)
Record registry_inv (r : Registry) : Prop := {
  ri_state : dg_inv (r_state r);
  ri_ids : forall h id, ids r !! h = Some id -> stream_id id;
  ri_unique : forall h1 h2 id, ids r !! h1 = Some id -> ids r !! h2 = Some id -> h1 = h2;
  ri_entry : forall id e, streams (r_state r) !! id = Some e -> ids r !! request e = Some id;
}.

(** ** Waking *)

(** The changes that can admit a waiting sender. *)
Definition frees (l : label) (s : DgState) : bool :=
  match l with
  | LNext _ _ | LCloseSend _ | LRemove _ | LCloseAll => true
  | LLimit o => negb (bool_decide (s_max_size s = o))
  | _ => false
  end.

(** The changes that can end a receiver's wait on stream [id]. *)
Definition arrives (l : label) (id : Z) : bool :=
  match l with
  | LArrive i _ | LCloseRecv i | LRemove i => i =? id
  | LCloseAll => true
  | _ => false
  end.

(** The changes that give the driver something to do. *)
Definition enqueues (l : label) : bool := match l with LSend _ _ => true | _ => false end.

(** [r'] is [r] after the change [l], and everyone it concerns was woken. *)
Record refines (l : label) (r r' : Registry) : Prop := {
  rf_guard : lab_guard l (r_state r);
  rf_state : r_state r' = lab_apply l (r_state r);
  rf_capacity : (r_capacity r <= r_capacity r')%nat;
  rf_frees : frees l (r_state r) = true -> (r_capacity r < r_capacity r')%nat;
  rf_received : forall h, (received h r <= received h r')%nat;
  rf_arrives : forall id e, arrives l id = true -> streams (r_state r) !! id = Some e ->
    (received (request e) r < received (request e) r')%nat;
  rf_waker : (r_waker r <= r_waker r')%nat;
  rf_enqueues : enqueues l = true -> (r_waker r < r_waker r')%nat;
}.

Lemma refines_none r : refines LNone r r.
Proof. by split. Qed.

(** Changing a request's own data. *)
Lemma ids_alter f h r : (forall q, rs_id (f q) = rs_id q) -> ids (set_r_requests (alter f h (r_requests r)) r) = ids r.
Proof.
  intros Hf. apply map_eq. intros i. unfold ids. cbn. rewrite !lookup_fmap, lookup_alter.
  case_decide; [|done]. subst. destruct (r_requests r !! i); cbn; [by rewrite Hf|done].
Qed.

Lemma received_alter f h i r :
  received i (set_r_requests (alter f h (r_requests r)) r) =
  if decide (h = i) then match r_requests r !! i with Some q => rs_received (f q) | None => 0%nat end else received i r.
Proof. unfold received. cbn. rewrite lookup_alter. case_decide; [|done]. subst. by destruct (r_requests r !! i). Qed.

Lemma ids_wake h r : ids (wake_received h r) = ids r.
Proof. by apply ids_alter. Qed.

Lemma received_wake h i r : is_Some (ids r !! h) -> received i (wake_received h r) = if decide (h = i) then S (received i r) else received i r.
Proof.
  intros Hh. unfold wake_received. rewrite received_alter. case_decide; [|done]. subst. unfold received.
  unfold ids in Hh. rewrite lookup_fmap in Hh. destruct (r_requests r !! i); [done|]. by destruct Hh.
Qed.

Lemma received_wake_le h i r : (received i r <= received i (wake_received h r))%nat.
Proof. unfold wake_received. rewrite received_alter. case_decide; [|done]. unfold received. destruct (r_requests r !! i); cbn; lia. Qed.

Lemma wake_all_cons e es r : wake_all (e :: es) r = wake_all es (wake_received (request e) r).
Proof. done. Qed.

Lemma ids_wake_all es r : ids (wake_all es r) = ids r.
Proof. revert r. induction es as [|e es IH]; intros r; [done|]. rewrite wake_all_cons. by rewrite IH, ids_wake. Qed.

Lemma wake_all_keeps es r :
  r_state (wake_all es r) = r_state r /\ r_waker (wake_all es r) = r_waker r /\ r_capacity (wake_all es r) = r_capacity r.
Proof. revert r. induction es as [|e es IH]; intros r; [done|]. rewrite wake_all_cons. by destruct (IH (wake_received (request e) r)) as (-> & -> & ->). Qed.

Lemma received_wake_all_le es i r : (received i r <= received i (wake_all es r))%nat.
Proof.
  revert r. induction es as [|e es IH]; intros r; [done|]. rewrite wake_all_cons.
  etransitivity; [apply received_wake_le|apply IH].
Qed.

Lemma received_wake_all es e r :
  e ∈ es -> is_Some (ids r !! request e) -> (received (request e) r < received (request e) (wake_all es r))%nat.
Proof.
  intros He. revert r. induction He as [e es|e x es He IH]; intros r Hr; rewrite wake_all_cons.
  - eapply Nat.lt_le_trans; [|apply received_wake_all_le]. rewrite received_wake by done. rewrite decide_True by done. lia.
  - eapply Nat.le_lt_trans; [apply (received_wake_le (request x))|]. apply IH. by rewrite ids_wake.
Qed.

(** The entries of a changed state belong to the same requests. *)
Lemma lab_apply_entry l s id e :
  lab_guard l s -> streams (lab_apply l s) !! id = Some e ->
  (exists h sem, l = LRegister id h sem /\ request e = h) \/ exists e0, streams s !! id = Some e0 /\ request e0 = request e.
Proof.
  assert (Hup : forall i f rdy, (forall e, request (f e) = request e) ->
    streams (update i f rdy s) !! id = Some e -> exists e0, streams s !! id = Some e0 /\ request e0 = request e).
  { intros i f rdy Hf. unfold update. destruct (streams s !! i) as [e0|] eqn:Ei; cbn; [|eauto].
    rewrite lookup_insert_Some. intros [[<- <-]|[_ ?]]; eauto. }
  intros Hg. destruct l; cbn [lab_apply]; try (intros; right; eauto; done);
    try (intros He; right; eapply Hup; [|exact He]; intros x; unfold pop_out, pop_in; by repeat case_match).
  - cbn. rewrite lookup_insert_Some. intros [[<- <-]|[_ ?]]; [left|right]; eauto.
  - destruct (streams s !! id0) eqn:E; cbn; [|eauto]. intros [_ ?]%lookup_delete_Some. eauto.
Qed.

Lemma refines_inv l r r' :
  registry_inv r -> refines l r r' -> ids r' = ids r -> (forall id h sem, l ≠ LRegister id h sem) -> registry_inv r'.
Proof.
  intros Hi Hr Hids Hl. split; rewrite ?Hids; try apply Hi.
  - rewrite (rf_state _ _ _ Hr). apply lab_inv; [apply Hi|apply Hr].
  - intros id e. rewrite (rf_state _ _ _ Hr). intros He.
    destruct (lab_apply_entry _ _ _ _ (rf_guard _ _ _ Hr) He) as [(h & sem & -> & _)|(e0 & He0 & <-)]; [by destruct (Hl id h sem)|].
    by apply Hi.
Qed.

(** ** The operations *)

(** Two registry states given by their fields. *)
Ltac dg_eq :=
  unfold set_ready_ids, set_s_outgoing, set_s_incoming, set_streams, set_s_max_size, set_s_negotiated; cbn;
  f_equal; try lia.

Section ops.
Context `{HttpDatagramLaws}.

Lemma wp_self {E} h id r (Q : outcome E RequestState -> Registry -> Prop) :
  ids r !! h = Some id -> (forall q, r_requests r !! h = Some q -> rs_id q = id -> Q (Ready q) r) -> wp (self h) Q r.
Proof.
  unfold ids. rewrite lookup_fmap. intros Hh HQ. destruct (r_requests r !! h) as [q|] eqn:Eq; [|done].
  cbn in Hh. injection Hh as Hid. unfold self. repeat wp_step. wp_expect Eq. auto.
Qed.

Lemma wp_dg_state {E} r (Q : outcome E DgState -> Registry -> Prop) : Q (Ready (r_state r)) r -> wp dg_state Q r.
Proof. done. Qed.

Lemma wp_on_dg {E} f r (Q : outcome E unit -> Registry -> Prop) : Q (Ready tt) (set_r_state (f (r_state r)) r) -> wp (on_dg f) Q r.
Proof. done. Qed.

(** What an attempt to send [size] bytes on a stream gives. *)
Definition admission (size : Z) (id : Z) (s : DgState) : result SendErrorKind unit :=
  match streams s !! id with
  | None => Err SkClosed
  | Some e =>
      if negb (send_open e) then Err SkClosed
      else
        match limit s with
        | None => Err SkUnavailable
        | Some max =>
            if (max <? size) || (SESSION_BYTES <? size) then Err SkTooLarge
            else if (len (e_outgoing e) =? PACKETS) || (SESSION_BYTES - outgoing_bytes e <? size) || (CONNECTION_BYTES - s_outgoing s <? size)
                 then Err SkFull else Ok tt
        end
  end.

(** What [ready] gives: whether the largest packet would be admitted. *)
Definition readiness (id : Z) (s : DgState) : result SendErrorKind unit :=
  match streams s !! id with
  | None => Err SkClosed
  | Some e =>
      if negb (send_open e) then Err SkClosed
      else
        match limit s with
        | None => Err SkUnavailable
        | Some max =>
            if max <? prefix_size id then Err SkTooLarge
            else if (len (e_outgoing e) =? PACKETS) || (SESSION_BYTES - outgoing_bytes e <? Z.min max SESSION_BYTES) ||
                    (CONNECTION_BYTES - s_outgoing s <? Z.min max SESSION_BYTES)
                 then Err SkFull else Ok tt
        end
  end.

Definition as_outcome {E A} (r : result E A) : outcome E A := match r with Ok a => Ready a | Err e => Failed e end.

Lemma wp_has_room {E} s id e size r (Q : outcome E bool -> Registry -> Prop) :
  dg_inv s -> streams s !! id = Some e ->
  Q (Ready (negb ((len (e_outgoing e) =? PACKETS) || (SESSION_BYTES - outgoing_bytes e <? size) || (CONNECTION_BYTES - s_outgoing s <? size)))) r ->
  wp (has_room s e size) Q r.
Proof.
  intros Hs He HQ. destruct (i_entries _ Hs _ _ He) as [_ Ho]. unfold has_room.
  destruct (len (e_outgoing e) =? PACKETS); [by wp_step|]. wp_step.
  wp_expect (checked_sub_le SESSION_BYTES (outgoing_bytes e) (q_session _ _ _ Ho)).
  destruct (_ <? size); [by wp_step|]. wp_step.
  wp_expect (checked_sub_le CONNECTION_BYTES (s_outgoing s) (i_out_budget _ Hs)). by wp_step.
Qed.

Lemma ready_spec h id r :
  registry_inv r -> ids r !! h = Some id -> ready h r = (r, as_outcome (readiness id (r_state r))).
Proof.
  intros Hi Hh.
  assert (Hwp : wp (ready h) (fun o r' => r' = r /\ o = as_outcome (readiness id (r_state r))) r).
  { unfold ready, readiness. wp_step. eapply wp_self; [exact Hh|]. intros q Hq Hid. wp_step. apply wp_dg_state; cbv beta iota. rewrite Hid.
    destruct (streams (r_state r) !! id) as [e|] eqn:He; [|by wp_step].
    destruct (negb (send_open e)); [by wp_step|]. destruct (limit (r_state r)) as [max|]; [|by wp_step].
    destruct (max <? prefix_size id); [by wp_step|]. wp_step.
    eapply wp_has_room; [apply Hi|exact He|]; cbv beta iota.
    match goal with |- context [if ?b then Err SkFull else Ok tt] => destruct b end; cbn [negb]; by wp_step. }
  unfold wp in Hwp. destruct (ready h r). naive_solver.
Qed.

Lemma prefix_size_pos id : 1 <= prefix_size id <= 8.
Proof. unfold prefix_size. repeat case_match; lia. Qed.

Lemma try_send_buf_spec h id p r :
  registry_inv r -> ids r !! h = Some id ->
  wp (try_send_buf h p) (fun o r' =>
    o = as_outcome (admission (prefix_size id + len p) id (r_state r)) /\ ids r' = ids r /\
    match o with
    | Ready _ => refines (LSend id (datagram_encode id p)) r r'
    | _ => r' = r
    end) r.
Proof.
  intros Hi Hh. pose proof (ri_ids _ Hi _ _ Hh) as Hid. pose proof (ri_state _ Hi) as Hs.
  pose proof (len_nonneg p) as Hlen. pose proof (prefix_size_pos id) as Hpre.
  unfold try_send_buf, admission. wp_step. eapply wp_self; [exact Hh|]. intros q Hq <-. wp_step. apply wp_dg_state; cbv beta iota.
  destruct (streams (r_state r) !! rs_id q) as [e|] eqn:He; [|by wp_step].
  destruct (send_open e) eqn:Ho; cbn [negb]; [|by wp_step].
  destruct (limit (r_state r)) as [max|] eqn:Hlim; [|by wp_step].
  unfold checked_add. rewrite (Z.add_comm (len p)).
  destruct (prefix_size (rs_id q) + len p <=? U64_MAX) eqn:Eu.
  2:{ wp_step. rewrite (proj2 (Z.ltb_lt SESSION_BYTES _)), orb_true_r by (unfold SESSION_BYTES; ulia). done. }
  set (size := prefix_size (rs_id q) + len p) in *.
  destruct ((max <? size) || (SESSION_BYTES <? size)) eqn:Et; [by wp_step|]. wp_step.
  eapply wp_has_room; [done|exact He|]; cbv beta iota. rewrite negb_involutive.
  destruct ((len (e_outgoing e) =? PACKETS) || _ || _) eqn:Ef; [by wp_step|].
  assert (Hpk : len (datagram_encode (rs_id q) p) = size) by (by apply datagram_encode_len).
  wp_step. apply wp_on_dg; cbv beta iota. wp_step.
  set (r1 := set_r_state _ r).
  match goal with |- wp ?m _ _ => assert (Hm : wp m (fun o r' => o = Ready tt /\ r' = set_r_state (set_ready_ids (ready_push (rs_id q) (r_state r)) (r_state r1)) r1) r1) end.
  { unfold ready_push. rewrite He. case_bool_decide; [rewrite decide_True by done|rewrite decide_False by done].
    - by apply wp_on_dg.
    - wp_step. split; [done|]. by destruct r. }
  eapply wp_mono; [exact Hm|]. intros o r2 [-> ->]. wp_step. split_and!; [done|done|].
  zbool. split; try done; try (cbn; lia).
  - exists e. rewrite Hpk. split_and!; [done|done|split_and!; lia|by rewrite Hlim].
  - cbn [lab_apply]. unfold update. rewrite He. subst r1. cbn. unfold push_out. rewrite Hpk. dg_eq.
Qed.

Lemma next_spec {E} r :
  registry_inv r ->
  wp (E := E) next (fun o r' =>
    ids r' = ids r /\
    match o with
    | Ready None => ready_ids (r_state r) = [] /\ r' = r
    | Ready (Some (id, p)) => refines (LNext id p) r r'
    | _ => False
    end) r.
Proof.
  intros Hi. pose proof (ri_state _ Hi) as Hs. unfold next. wp_step. apply wp_dg_state; cbv beta iota.
  destruct (ready_ids (r_state r)) as [|id rdy] eqn:Er; cbn [next_loop]; [by wp_step|].
  assert (exists e, streams (r_state r) !! id = Some e /\ e_outgoing e ≠ []) as (e & He & Hne).
  { apply (i_ready _ Hs). rewrite Er. set_solver. }
  destruct (e_outgoing e) as [|p rest] eqn:Eq; [done|]. destruct (i_entries _ Hs _ _ He) as [_ Ho].
  pose proof (entry_out_le _ Hs _ _ He) as Hout. rewrite Eq in Ho. destruct (queue_ok_pop _ _ _ _ Ho) as [_ Hle].
  cbn [next_loop]. wp_step. apply wp_on_dg; cbv beta iota. wp_step. apply wp_dg_state; cbv beta iota.
  cbn [r_state set_r_state set_ready_ids streams s_outgoing]. rewrite He, Eq. wp_step.
  wp_expect (checked_sub_le (outgoing_bytes e) (len p) Hle).
  wp_step. apply wp_on_dg; cbv beta iota. wp_step.
  match goal with |- wp ?m _ ?r1 => assert (Hm : wp m (fun o r' => o = Ready tt /\
    r' = set_r_state (set_ready_ids (ready_rotate id (r_state r)) (r_state r1)) r1) r1) end.
  { unfold ready_rotate. rewrite He, Eq, Er. cbn [tail]. case_decide as Hrest.
    - subst rest. wp_step. split; [done|]. by destruct r.
    - destruct rest; [done|]. apply wp_on_dg. split; [done|]. by destruct r. }
  eapply wp_mono; [exact Hm|]. intros o r2 [-> ->]. wp_step.
  wp_expect (checked_sub_le (s_outgoing (r_state r)) (len p) ltac:(lia)).
  wp_step. apply wp_on_dg; cbv beta iota. repeat wp_step. split; [done|].
  split; try done; try (cbn; lia).
  - by exists e, rest, rdy.
  - cbn [lab_apply]. unfold update. rewrite He. cbn.
    assert (pop_out e = set_outgoing rest (outgoing_bytes e - len p) e) as -> by (unfold pop_out; by rewrite Eq). dg_eq.
Qed.

Lemma dg_poll_recv_spec {E} h id r :
  registry_inv r -> ids r !! h = Some id ->
  wp (E := E) (dg_poll_recv h) (fun o r' =>
    ids r' = ids r /\
    match o with
    | Ready (Some p) => refines (LTake id p) r r'
    | Ready None => r' = r /\ forall e, streams (r_state r) !! id = Some e -> e_incoming e = [] /\ recv_open e = false
    | Pending => r' = r /\ exists e, streams (r_state r) !! id = Some e /\ e_incoming e = [] /\ recv_open e = true
    | _ => False
    end) r.
Proof.
  intros Hi Hh. pose proof (ri_state _ Hi) as Hs. unfold dg_poll_recv. wp_step. eapply wp_self; [exact Hh|].
  intros q Hq <-. wp_step. apply wp_dg_state; cbv beta iota.
  destruct (streams (r_state r) !! rs_id q) as [e|] eqn:He; [|by wp_step].
  destruct (i_entries _ Hs _ _ He) as [Hin _]. pose proof (entry_in_le _ Hs _ _ He) as Hle.
  destruct (e_incoming e) as [|p rest] eqn:Eq.
  - destruct (recv_open e) eqn:Ho; cbn [negb]; wp_step; [by eauto 8|]. split_and!; [done|done|]. intros e' [= <-]. done.
  - destruct (queue_ok_pop _ _ _ _ Hin) as [_ Hp]. wp_step. wp_expect (checked_sub_le _ _ Hp). wp_step.
    wp_expect (checked_sub_le (s_incoming (r_state r)) (len p) ltac:(lia)).
    wp_step. apply wp_on_dg; cbv beta iota. wp_step. split; [done|].
    split; try done; try (cbn; lia).
    + by exists e, rest.
    + cbn [lab_apply]. unfold update. rewrite He. cbn.
      assert (pop_in e = set_incoming rest (incoming_bytes e - len p) e) as -> by (unfold pop_in; by rewrite Eq). dg_eq.
Qed.

(** Marking a request invalid does not touch the shared state. *)
Lemma invalidate_spec {E} h r :
  wp (E := E) (invalidate h) (fun o r' =>
    o = Ready tt /\ r_state r' = r_state r /\ ids r' = ids r /\ r_waker r' = r_waker r /\ r_capacity r' = r_capacity r /\
    forall i, received i r' = received i r) r.
Proof.
  unfold invalidate. wp_step. wp_step. set (r1 := set_r_requests _ r). repeat wp_step.
  assert (Hr1 : ids r1 = ids r /\ forall i, received i r1 = received i r).
  { split; [by apply ids_alter|]. intros i. unfold r1. rewrite received_alter. case_decide; [|done]. unfold received.
    by destruct (r_requests r !! i). }
  destruct (_ ≫= rs_stop) as [body|]; [case_decide|]; wp_step; split_and!; naive_solver.
Qed.

Lemma receive_spec packet r :
  registry_inv r ->
  wp (receive packet) (fun o r' =>
    ids r' = ids r /\
    match o with
    | Ready _ => exists id p, datagram_decode packet = Ok (id, p) /\
        (refines LNone r r' /\ ~ lab_guard (LArrive id p) (r_state r) \/ refines (LArrive id p) r r')
    | Failed _ => r' = r /\ exists text, datagram_decode packet = Err text
    | _ => False
    end) r.
Proof.
  intros Hi. pose proof (ri_state _ Hi) as Hs. unfold receive. wp_step.
  destruct (datagram_decode packet) as [[id p]|text] eqn:Ed; cbn [lift_result]; [|wp_step; by eauto]. repeat wp_step. cbv zeta.
  wp_expect (checked_sub_le _ _ (i_in_budget _ Hs)).
  assert (Hdrop : forall r', ids r' = ids r -> refines LNone r r' -> ~ lab_guard (LArrive id p) (r_state r) ->
    ids r' = ids r /\ exists id' p', Ok (id, p) = @Ok string _ (id', p') /\
      (refines LNone r r' /\ ~ lab_guard (LArrive id' p') (r_state r) \/ refines (LArrive id' p') r r')).
  { intros r' Hids Hr Hg. split; [done|]. exists id, p. split; [done|]. by left. }
  destruct (streams (r_state r) !! id) as [e|] eqn:He; [|wp_step; apply Hdrop; [done|apply refines_none|intros (e & He' & _); congruence]].
  destruct (recv_open e) eqn:Ho; cbn [negb]; [|wp_step; apply Hdrop; [done|apply refines_none|intros (e' & He' & Ho' & _); congruence]].
  pose proof (ri_entry _ Hi _ _ He) as Hreq. unfold ids in Hreq. rewrite lookup_fmap in Hreq.
  destruct (r_requests r !! request e) as [q|] eqn:Hq; [|done].
  destruct (semantics e) eqn:Hsem; cbn [negb].
  2:{ eapply wp_mono; [apply invalidate_spec|]. intros o r' (-> & Hst & Hids & Hw & Hc & Hrec).
      apply Hdrop; [done| |intros (e' & He' & _ & Hs' & _); congruence]. split; rewrite ?Hst, ?Hw, ?Hc; try done. intros i. by rewrite Hrec. }
  destruct (i_entries _ Hs _ _ He) as [Hin _]. wp_step.
  match goal with |- wp ?m _ _ => assert (Hm : wp m (fun o r' => r' = r /\
    o = Ready (negb (bool_decide (room (e_incoming e) (incoming_bytes e) (s_incoming (r_state r)) (len p))))) r) end.
  { unfold room. destruct (len (e_incoming e) =? PACKETS) eqn:Ep; zbool.
    - wp_step. split; [done|]. rewrite bool_decide_false by tauto. done.
    - wp_step. wp_expect (checked_sub_le _ _ (q_session _ _ _ Hin)). wp_step. split; [done|]. do 2 f_equal.
      case_bool_decide as Hb; cbn [negb].
      + apply orb_false_iff. split; apply Z.ltb_ge; lia.
      + apply orb_true_iff. rewrite !Z.ltb_lt. lia. }
  eapply wp_mono; [exact Hm|]. intros o r0 [-> ->]. case_bool_decide as Hroom; cbn [negb].
  2:{ wp_step. apply Hdrop; [done|apply refines_none|]. intros (e' & He' & _ & _ & Hr'). rewrite He in He'. by injection He' as <-. }
  wp_step. apply wp_on_dg; cbv beta iota. wp_step. rewrite ids_wake. split; [done|]. exists id, p. split; [done|]. right.
  assert (Hlive : is_Some (ids (set_r_state (r_state r) r) !! request e)) by (cbn; unfold ids; cbn; by rewrite lookup_fmap, Hq).
  split; try done; try (cbn; lia).
  - by exists e.
  - cbn [lab_apply]. unfold update. rewrite He. cbn. unfold push_in. dg_eq.
  - intros i. eapply Nat.le_trans; [|apply received_wake_le]. done.
  - intros id' e' Harr He'. cbn in Harr. zbool. subst id'. rewrite He in He'. injection He' as <-.
    rewrite received_wake by exact Hlive. rewrite decide_True by done. apply Nat.lt_succ_diag_r.
Qed.

(** The change a close makes: none once the stream is gone. *)
Definition if_present (id : Z) (l : label) (s : DgState) : label := if decide (is_Some (streams s !! id)) then l else LNone.

Lemma close_send_spec {E} h id r :
  registry_inv r -> ids r !! h = Some id ->
  wp (E := E) (close_send h) (fun o r' =>
    o = Ready tt /\ ids r' = ids r /\ refines (if_present id (LCloseSend id) (r_state r)) r r') r.
Proof.
  intros Hi Hh. pose proof (ri_state _ Hi) as Hs. unfold close_send. wp_step. eapply wp_self; [exact Hh|].
  intros q Hq <-. wp_step. apply wp_dg_state; cbv beta iota. wp_step. unfold if_present.
  destruct (streams (r_state r) !! rs_id q) as [e|] eqn:He.
  - rewrite decide_True by eauto. pose proof (entry_out_le _ Hs _ _ He) as Hle. wp_step.
    wp_expect (checked_sub_le (s_outgoing (r_state r)) (outgoing_bytes e) ltac:(lia)).
    apply wp_on_dg; cbv beta iota. repeat wp_step. split_and!; [done|done|].
    split; try done; try (cbn; lia).
    + by exists e.
    + cbn [lab_apply]. unfold update. rewrite He. cbn. unfold ready_without. dg_eq.
  - rewrite decide_False by (by intros [? ?]). repeat wp_step. split_and!; [done|done|]. split; try done; cbn; lia.
Qed.

Lemma close_recv_spec {E} h id r :
  registry_inv r -> ids r !! h = Some id ->
  wp (E := E) (close_recv h) (fun o r' =>
    o = Ready tt /\ ids r' = ids r /\ refines (if_present id (LCloseRecv id) (r_state r)) r r') r.
Proof.
  intros Hi Hh. pose proof (ri_state _ Hi) as Hs. unfold close_recv. wp_step. eapply wp_self; [exact Hh|].
  intros q Hq Hid. subst id. wp_step. apply wp_dg_state; cbv beta iota. wp_step. unfold if_present.
  destruct (streams (r_state r) !! rs_id q) as [e|] eqn:He.
  - rewrite decide_True by eauto. pose proof (entry_in_le _ Hs _ _ He) as Hle. wp_step.
    wp_expect (checked_sub_le (s_incoming (r_state r)) (incoming_bytes e) ltac:(lia)).
    apply wp_on_dg; cbv beta iota. repeat wp_step. rewrite ids_wake. split_and!; [done|done|].
    assert (request e = h) as <- by (eapply (ri_unique _ Hi); [by apply (ri_entry _ Hi)|done]).
    split; try done; try (cbn; lia).
    + by exists e.
    + cbn [lab_apply]. unfold update. rewrite He. cbn. dg_eq.
    + intros i. eapply Nat.le_trans; [|apply received_wake_le]. done.
    + intros id' e' Harr He'. cbn in Harr. zbool. subst id'. rewrite He in He'. injection He' as <-.
      rewrite received_wake by eauto. rewrite decide_True by done. apply Nat.lt_succ_diag_r.
  - rewrite decide_False by (by intros [? ?]). repeat wp_step. rewrite ids_wake. split_and!; [done|done|].
    split; try done; try (cbn; lia). intros i. apply received_wake_le.
Qed.

Lemma request_close_spec {E} h id r :
  registry_inv r -> ids r !! h = Some id ->
  wp (E := E) (request_close h) (fun o r' =>
    o = Ready tt /\ ids r' = ids r /\ refines (if_present id (LRemove id) (r_state r)) r r') r.
Proof.
  intros Hi Hh. pose proof (ri_state _ Hi) as Hs. unfold request_close. wp_step. eapply wp_self; [exact Hh|].
  intros q Hq Hid. subst id. wp_step. apply wp_dg_state; cbv beta iota. wp_step. unfold if_present.
  destruct (streams (r_state r) !! rs_id q) as [e|] eqn:He.
  - rewrite decide_True by eauto. pose proof (entry_in_le _ Hs _ _ He) as Hle. pose proof (entry_out_le _ Hs _ _ He) as Hle'. wp_step.
    wp_expect (checked_sub_le (s_incoming (r_state r)) (incoming_bytes e) ltac:(lia)). wp_step.
    wp_expect (checked_sub_le (s_outgoing (r_state r)) (outgoing_bytes e) ltac:(lia)).
    apply wp_on_dg; cbv beta iota. repeat wp_step.
    match goal with |- _ /\ ids (notify_capacity (wake_driver (wake_received h ?r1))) = _ /\ _ =>
      change (ids (notify_capacity (wake_driver (wake_received h r1)))) with (ids (wake_received h r1)) end.
    rewrite ids_wake. split_and!; [done|done|].
    assert (request e = h) as <- by (eapply (ri_unique _ Hi); [by apply (ri_entry _ Hi)|done]).
    split; try done; try (cbn; lia).
    + by exists e.
    + cbn [lab_apply]. rewrite He. cbn. dg_eq.
    + intros i. eapply Nat.le_trans; [|apply (received_wake_le (request e))]. done.
    + intros id' e' Harr He'. cbn in Harr. zbool. subst id'. rewrite He in He'. injection He' as <-.
      match goal with |- (_ < received ?i (notify_capacity (wake_driver ?r2)))%nat => change (received i (notify_capacity (wake_driver r2))) with (received i r2) end.
      rewrite received_wake by eauto. rewrite decide_True by done. apply Nat.lt_succ_diag_r.
  - rewrite decide_False by (by intros [? ?]). repeat wp_step.
    change (ids (notify_capacity (wake_driver (wake_received h r)))) with (ids (wake_received h r)). rewrite ids_wake.
    split_and!; [done|done|]. split; try done; try (cbn; lia). intros i. apply (received_wake_le h).
Qed.

Lemma registry_close_spec {E} r :
  registry_inv r ->
  wp (E := E) registry_close (fun o r' => o = Ready tt /\ ids r' = ids r /\ refines LCloseAll r r') r.
Proof.
  intros Hi. unfold registry_close. wp_step. apply wp_dg_state; cbv beta iota. wp_step. apply wp_on_dg; cbv beta iota.
  repeat wp_step. set (es := map snd _). set (r1 := set_r_state _ r).
  destruct (wake_all_keeps es r1) as (Hst & Hw & Hc).
  change (ids (notify_capacity (wake_driver (wake_all es r1)))) with (ids (wake_all es r1)).
  rewrite ids_wake_all. split_and!; [done|done|]. split; try done.
  - cbn. rewrite Hc. cbn. lia.
  - cbn. rewrite Hc. cbn. lia.
  - intros i. eapply Nat.le_trans; [|apply (received_wake_all_le es)]. done.
  - intros id e _ He. eapply Nat.le_lt_trans; [|apply (received_wake_all es e r1)]; [done| |].
    + unfold es. apply list_elem_of_In, in_map_iff. exists (id, e). split; [done|]. by apply list_elem_of_In, elem_of_map_to_list.
    + exists id. by apply (ri_entry _ Hi).
  - cbn. rewrite Hw. cbn. lia.
Qed.

Lemma take_limit_spec {E} o r :
  wp (E := E) (take_limit o) (fun out r' => out = Ready tt /\ ids r' = ids r /\ refines (LLimit o) r r') r.
Proof.
  unfold take_limit. wp_step. apply wp_dg_state; cbv beta iota. wp_step. apply wp_on_dg; cbv beta iota.
  case_decide; wp_step; (split_and!; [done|done|]); split; try done; try (cbn; lia).
  cbn. by rewrite bool_decide_true.
Qed.

Lemma negotiated_spec {E} b r :
  s_negotiated (r_state r) = false ->
  wp (E := E) (negotiated b) (fun out r' => out = Ready tt /\ ids r' = ids r /\ refines (LNegotiated b) r r') r.
Proof. intros Hn. unfold negotiated. apply wp_on_dg. split_and!; [done|done|]. by split. Qed.

Lemma attach_spec {E} h body r :
  wp (E := E) (attach h body) (fun out r' => out = Ready tt /\ ids r' = ids r /\ refines LNone r r') r.
Proof.
  unfold attach. wp_step. rewrite ids_alter by done. split_and!; [done|done|]. split; try done.
  intros i. rewrite received_alter. case_decide; [|done]. unfold received. by destruct (r_requests r !! i).
Qed.

Lemma register_spec {E} id sem invalid r :
  registry_inv r -> (forall h, ids r !! h ≠ Some id) -> stream_id id ->
  wp (E := E) (register id sem invalid) (fun out r' => exists h, out = Ready h /\ ids r !! h = None /\ ids r' = <[h := id]> (ids r) /\
    refines (if s_closed (r_state r) then LNone else LRegister id h sem) r r' /\ registry_inv r') r.
Proof.
  intros Hi Hfresh Hid. unfold register. repeat wp_step. cbv zeta. set (h := fresh (dom (r_requests r))).
  assert (Hh : r_requests r !! h = None) by apply not_elem_of_dom, is_fresh.
  assert (Hh' : ids r !! h = None) by (unfold ids; by rewrite lookup_fmap, Hh).
  assert (Hnew : streams (r_state r) !! id = None).
  { destruct (streams (r_state r) !! id) as [e|] eqn:He; [|done]. by destruct (Hfresh _ (ri_entry _ Hi _ _ He)). }
  repeat wp_step. set (r1 := set_r_requests _ r).
  assert (Hids : ids r1 = <[h := id]> (ids r)) by (unfold ids, r1; cbn; by rewrite fmap_insert).
  assert (Hrec : forall i, (received i r <= received i r1)%nat).
  { intros i. unfold received, r1. cbn. rewrite lookup_insert. case_decide; [subst; rewrite Hh; cbn; lia|done]. }
  assert (Hinv : forall l r', refines l r r' -> ids r' = <[h := id]> (ids r) ->
    (forall i e, streams (r_state r') !! i = Some e -> ids r' !! request e = Some i) -> registry_inv r').
  { intros l r' Hr Hids' He. split; rewrite ?Hids' in *; [|..|done].
    - rewrite (rf_state _ _ _ Hr). apply lab_inv; [apply Hi|apply Hr].
    - intros h' id'. rewrite lookup_insert_Some. intros [[_ <-]|[_ ?]]; [done|by eapply (ri_ids _ Hi)].
    - intros h1 h2 id'. rewrite !lookup_insert_Some. intros [[<- <-]|[? Hi1]] [[<- ?]|[? Hi2]]; [done| | |by eapply (ri_unique _ Hi)].
      + by destruct (Hfresh h2).
      + subst. by destruct (Hfresh h1). }
  assert (Hkeep : forall i e, streams (r_state r) !! i = Some e -> <[h := id]> (ids r) !! request e = Some i).
  { intros i e He. pose proof (ri_entry _ Hi _ _ He) as Hreq. rewrite lookup_insert_ne; [done|]. intros Heq. congruence. }
  destruct (s_closed (r_state r)) eqn:Ec.
  - repeat wp_step. exists h. assert (Hr : refines LNone r r1) by (by split). split_and!; try done.
    eapply Hinv; [exact Hr|done|]. rewrite Hids. done.
  - apply wp_on_dg; cbv beta iota. repeat wp_step. exists h. set (r2 := set_r_state _ r1).
    assert (Hr : refines (LRegister id h sem) r r2) by (by split). split_and!; try done.
    eapply Hinv; [exact Hr|done|]. change (ids r2) with (ids r1). rewrite Hids. intros i e. cbn.
    rewrite lookup_insert_Some. intros [[<- <-]|[_ He]]; [by rewrite lookup_insert_eq|by apply Hkeep].
Qed.

(** A sequence of changes, the invariant holding in between. *)
Inductive runs : list label -> Registry -> Registry -> Prop :=
| runs_nil r : runs [] r r
| runs_cons l tr r r1 r2 : refines l r r1 -> registry_inv r1 -> ids r ⊆ ids r1 -> runs tr r1 r2 -> runs (l :: tr) r r2.

Lemma runs_one l r r' : refines l r r' -> registry_inv r' -> ids r ⊆ ids r' -> runs [l] r r'.
Proof. intros Hr Hi Hsub. by econstructor; [|done|done|constructor]. Qed.

(** Taking over wakes and the other changes that leave the shared state. *)
Lemma refines_shift l r0 r r' :
  r_state r0 = r_state r -> ids r0 = ids r -> (r_waker r <= r_waker r0)%nat -> (r_capacity r <= r_capacity r0)%nat ->
  (forall h, (received h r <= received h r0)%nat) -> refines l r0 r' -> refines l r r'.
Proof.
  intros Hst Hids Hw Hc Hrec [g s c f rc a w e]. rewrite Hst in *. split; try done; try lia.
  - intros Hf. specialize (f Hf). lia.
  - intros h. specialize (Hrec h). specialize (rc h). lia.
  - intros id x Ha Hx. specialize (a id x Ha Hx). specialize (Hrec (request x)). lia.
  - intros He. specialize (e He). lia.
Qed.

Lemma if_present_not_register id l s i h sem : (forall i h sem, l ≠ LRegister i h sem) -> if_present id l s ≠ LRegister i h sem.
Proof. unfold if_present. case_decide; auto. Qed.

Lemma abort_spec {E} h id why r :
  registry_inv r -> ids r !! h = Some id ->
  wp (E := E) (abort h why) (fun out r' => out = Ready tt /\ ids r' = ids r /\ registry_inv r' /\
    exists l1 l2, runs [l1; l2] r r' /\ l1 = if_present id (LCloseRecv id) (r_state r) /\
      l2 = if_present id (LCloseSend id) (r_state r)) r.
Proof.
  intros Hi Hh. unfold abort. wp_step. wp_step. set (r0 := set_r_requests _ r).
  assert (Hids0 : ids r0 = ids r) by (by apply ids_alter).
  assert (Hrec0 : forall i, received i r0 = received i r).
  { intros i. unfold r0. rewrite received_alter. case_decide; [|done]. unfold received. by destruct (r_requests r !! i). }
  wp_step. eapply wp_mono; [apply invalidate_spec|]. intros o r1 (-> & Hst & Hids & Hw & Hc & Hrec).
  assert (Hi1 : registry_inv r1).
  { split; rewrite ?Hst, ?Hids, ?Hids0; apply Hi. }
  wp_step. eapply wp_mono; [apply (close_recv_spec h id); [done|by rewrite Hids, Hids0]|].
  intros o r2 (-> & Hids2 & Hr2). cbv beta iota. rewrite Hst in Hr2. change (r_state r0) with (r_state r) in *.
  assert (Hi2 : registry_inv r2) by (eapply refines_inv; [exact Hi1|exact Hr2|done|]; intros; by apply if_present_not_register).
  eapply wp_mono; [apply (close_send_spec h id); [done|by rewrite Hids2, Hids, Hids0]|].
  intros o r3 (-> & Hids3 & Hr3).
  assert (Hi3 : registry_inv r3) by (eapply refines_inv; [exact Hi2|exact Hr3|done|]; intros; by apply if_present_not_register).
  split_and!; [done|by rewrite Hids3, Hids2, Hids, Hids0|done|]. eexists _, _. split; [|split; [reflexivity|]].
  - econstructor; [|exact Hi2|by rewrite Hids2, Hids, Hids0|apply runs_one; [exact Hr3|done|by rewrite Hids3]].
    apply refines_shift with r1; try done; [by rewrite Hids|by rewrite Hw|by rewrite Hc|]. intros i. by rewrite Hrec, Hrec0.
  - rewrite (rf_state _ _ _ Hr2). unfold if_present.
    destruct (decide (is_Some (streams (r_state r) !! id))) as [[e He]|Hp]; [|cbn [lab_apply]; by rewrite Hst, decide_False].
    cbn [lab_apply]. unfold update. rewrite Hst. change (r_state r0) with (r_state r). rewrite He. cbn. rewrite lookup_insert_eq. by rewrite decide_True by eauto.
Qed.
End ops.
