(* ===== verification/DatagramTheorems.v ===== *)
(** * DatagramTheorems

    Runs of the datagram registry: any sequence of its operations, as the
    connection task, the request handles and the application call them. The
    theorems show that the budgets hold and no counter underflows, that each
    session's packets leave in the order they were admitted and are delivered in
    the order they arrived, that the round
    robin serves every session, and that no waiting task misses its wake-up. *)

From stdpp Require Import prelude strings gmap.
From Stdlib Require Import ZArith Lia.
From S2P Require Import Prelude Bytes Errors Wire Datagram DatagramLaws DatagramOps.
Local Open Scope Z_scope.

(** ** Runs *)

Inductive dg_op : Type :=
| OpRegister (id : Z) (sem invalid : bool)
| OpNegotiated (b : bool)
| OpLimit (o : option Z)
| OpClose
| OpReceive (packet : bytes)
| OpNext
| OpSend (h : nat) (payload : bytes)
| OpRecv (h : nat)
| OpAttach (h body : nat)
| OpCloseSend (h : nat)
| OpCloseRecv (h : nat)
| OpAbort (h : nat) (why : Abort)
| OpRequestClose (h : nat).

Inductive dg_out : Type :=
| OutUnit
| OutHandle (h : nat)
| OutPacket (o : option (Z * bytes))
| OutSent (r : result SendErrorKind unit)
| OutGot (o : option bytes).

Section theorems.
Context `{HttpDatagramLaws}.

Abbreviation out := (outcome Error dg_out).

Definition dg_exec (o : dg_op) : M Registry Error dg_out :=
  match o with
  | OpRegister id sem invalid => h ← register id sem invalid; mret (OutHandle h)
  | OpNegotiated b => negotiated b;; mret OutUnit
  | OpLimit o => take_limit o;; mret OutUnit
  | OpClose => registry_close;; mret OutUnit
  | OpReceive packet => receive packet;; mret OutUnit
  | OpNext => p ← next; mret (OutPacket p)
  | OpSend h payload => match_ready (try_send h payload) (fun _ => mret (OutSent (Ok tt))) (fun e => mret (OutSent (Err e)))
  | OpRecv h => p ← dg_poll_recv h; mret (OutGot p)
  | OpAttach h body => attach h body;; mret OutUnit
  | OpCloseSend h => close_send h;; mret OutUnit
  | OpCloseRecv h => close_recv h;; mret OutUnit
  | OpAbort h why => abort h why;; mret OutUnit
  | OpRequestClose h => request_close h;; mret OutUnit
  end.

(** What the callers ensure: stream identifiers are valid and not used twice on
    a connection, the peer's settings come once, a handle holds its request. *)
Definition dg_guard (o : dg_op) (r : Registry) : Prop :=
  match o with
  | OpRegister id _ _ => (forall h, ids r !! h ≠ Some id) /\ stream_id id
  | OpNegotiated _ => s_negotiated (r_state r) = false
  | OpSend h _ | OpRecv h | OpAttach h _ | OpCloseSend h | OpCloseRecv h | OpAbort h _ | OpRequestClose h => is_Some (ids r !! h)
  | OpLimit _ | OpClose | OpReceive _ | OpNext => True
  end.

Inductive dg_run : Registry -> list (dg_op * out) -> Registry -> Prop :=
| run_nil r : dg_run r [] r
| run_cons r o out r1 tr r2 : dg_guard o r -> dg_exec o r = (r1, out) -> dg_run r1 tr r2 -> dg_run r ((o, out) :: tr) r2.

Definition dg_reachable (r : Registry) : Prop := exists max tr, dg_run (registry_new max) tr r.

(** The changes an operation made. *)
Definition explains (o : dg_op) (out : out) (r : Registry) (tr : list label) : Prop :=
  match o with
  | OpRegister id sem _ => exists h, out = Ready (OutHandle h) /\ tr = [if s_closed (r_state r) then LNone else LRegister id h sem]
  | OpNegotiated b => tr = [LNegotiated b]
  | OpLimit o => tr = [LLimit o]
  | OpClose => tr = [LCloseAll]
  | OpReceive packet => exists l, (tr = [] \/ tr = [l]) /\
      match datagram_decode packet with
      | Ok (id, p) => tr = [l] /\ (l = LNone /\ ~ lab_guard (LArrive id p) (r_state r) \/ l = LArrive id p /\ lab_guard l (r_state r))
      | Err _ => l = LNone
      end
  | OpNext => match out with Ready (OutPacket (Some (id, p))) => tr = [LNext id p] | _ => tr = [] /\ ready_ids (r_state r) = [] end
  | OpSend h p =>
      match out with
      | Ready (OutSent (Ok _)) => exists id, ids r !! h = Some id /\ tr = [LSend id (datagram_encode id p)]
      | Ready (OutSent (Err _)) => tr = []
      | _ => False
      end
  | OpRecv h => match out with Ready (OutGot (Some p)) => exists id, ids r !! h = Some id /\ tr = [LTake id p] | _ => tr = [] end
  | OpAttach _ _ => tr = [LNone]
  | OpCloseSend h => exists id, ids r !! h = Some id /\ tr = [if_present id (LCloseSend id) (r_state r)]
  | OpCloseRecv h => exists id, ids r !! h = Some id /\ tr = [if_present id (LCloseRecv id) (r_state r)]
  | OpAbort h _ => exists id, ids r !! h = Some id /\ tr = [if_present id (LCloseRecv id) (r_state r); if_present id (LCloseSend id) (r_state r)]
  | OpRequestClose h => exists id, ids r !! h = Some id /\ tr = [if_present id (LRemove id) (r_state r)]
  end.

(** Every operation succeeds or fails as a value, keeps the invariant and the
    requests, and makes the changes [explains] lists. *)
Definition exec_post (o : dg_op) (r : Registry) (out : out) (r' : Registry) : Prop :=
  sound out /\ registry_inv r' /\ ids r ⊆ ids r' /\ exists tr, runs tr r r' /\ explains o out r tr.

Lemma exec_post_one o r out r' l :
  registry_inv r -> ids r' = ids r -> refines l r r' -> (forall i h sem, l ≠ LRegister i h sem) ->
  sound out -> explains o out r [l] -> exec_post o r out r'.
Proof.
  intros Hi Hids Hr Hl Hs He. pose proof (refines_inv _ _ _ Hi Hr Hids Hl) as Hi'.
  split_and!; [done|done|by rewrite Hids|]. exists [l]. split; [apply runs_one; [done|done|by rewrite Hids]|done].
Qed.

Lemma exec_post_none o r out : registry_inv r -> sound out -> explains o out r [] -> exec_post o r out r.
Proof. intros Hi Hs He. split_and!; [done|done|done|]. exists []. split; [constructor|done]. Qed.

Lemma dg_exec_spec o r : registry_inv r -> dg_guard o r -> wp (dg_exec o) (exec_post o r) r.
Proof.
  intros Hi Hg. destruct o; cbn [dg_exec dg_guard] in *; 
    try match type of Hg with is_Some _ => destruct Hg as [id Hh] end; wp_step.
  - destruct Hg. eapply wp_mono; [by apply register_spec|]. intros o r' (h & -> & Hh' & Hids & Hr & Hi'). wp_step.
    assert (Hsub : ids r ⊆ ids r') by (rewrite Hids; by apply insert_subseteq).
    split_and!; [done|done|done|]. eexists [_]. split; [by apply runs_one|]. eexists. split; [done|]. done.
  - eapply wp_mono; [by apply negotiated_spec|]. intros o r' (-> & Hids & Hr). wp_step. by eapply exec_post_one.
  - eapply wp_mono; [by apply take_limit_spec|]. intros o' r' (-> & Hids & Hr). wp_step. by eapply exec_post_one.
  - eapply wp_mono; [by apply registry_close_spec|]. intros o r' (-> & Hids & Hr). wp_step. by eapply exec_post_one.
  - eapply wp_mono; [by apply receive_spec|]. intros [[]|e| | |] r' (Hids & Hr); try done.
    + wp_step. destruct Hr as (id & p & Hd & [[Hr Hn]|Hr]); eapply exec_post_one; try done; cbn; rewrite Hd; [by eauto 8|]. pose proof (rf_guard _ _ _ Hr). eexists. split; [by right|]. split; [done|]. by right.
    + destruct Hr as [-> [text Hd]]. apply exec_post_none; [done|done|]. cbn. rewrite Hd. eauto.
  - eapply wp_mono; [by apply next_spec|]. intros [[[id p]|]| | | |] r' (Hids & Hr); try done; wp_step.
    + by eapply exec_post_one.
    + destruct Hr as [? ->]. by apply exec_post_none.
  - eapply wp_mono; [by apply try_send_buf_spec|]. intros [[]|e| | |] r' (Ho & Hids & Hr); try (by destruct (admission _ _ _)); wp_step.
    + eapply exec_post_one; try done. cbn. eauto.
    + subst r'. by apply exec_post_none.
  - eapply wp_mono; [by apply dg_poll_recv_spec|]. intros [[p|]| | | |] r' (Hids & Hr); try done; try wp_step.
    + eapply exec_post_one; try done. cbn. eauto.
    + destruct Hr as [-> _]. by apply exec_post_none.
    + destruct Hr as [-> _]. by apply exec_post_none.
  - eapply wp_mono; [by apply attach_spec|]. intros o r' (-> & Hids & Hr). wp_step. by eapply exec_post_one.
  - eapply wp_mono; [by apply close_send_spec|]. intros o r' (-> & Hids & Hr). wp_step.
    eapply exec_post_one; try done; [intros; by apply if_present_not_register|cbn; eauto].
  - eapply wp_mono; [by apply close_recv_spec|]. intros o r' (-> & Hids & Hr). wp_step.
    eapply exec_post_one; try done; [intros; by apply if_present_not_register|cbn; eauto].
  - eapply wp_mono; [by apply abort_spec|]. intros o r' (-> & Hids & Hi' & l1 & l2 & Hr & -> & ->). wp_step.
    split_and!; [done|done|by rewrite Hids|]. eexists. split; [exact Hr|]. cbn. eauto.
  - eapply wp_mono; [by apply request_close_spec|]. intros o r' (-> & Hids & Hr). wp_step.
    eapply exec_post_one; try done; [intros; by apply if_present_not_register|cbn; eauto].
Qed.

Lemma registry_new_inv max : registry_inv (registry_new max).
Proof.
  split; cbn.
  - split; cbn; try done; try (by rewrite total_empty); try apply NoDup_nil_2.
    intros i. split; [by intros ?%not_elem_of_nil|]. intros (e & He & _). by rewrite lookup_empty in He.
  - intros h id. unfold ids. cbn. by rewrite fmap_empty, lookup_empty.
  - intros h1 h2 id. unfold ids. cbn. by rewrite fmap_empty, lookup_empty.
  - intros id e. by rewrite lookup_empty.
Qed.

Lemma dg_run_inv r tr r' : dg_run r tr r' -> registry_inv r -> registry_inv r' /\ ids r ⊆ ids r'.
Proof.
  induction 1 as [|r o out r1 tr r2 Hg He Hrun IH]; intros Hi; [done|].
  destruct (wp_elim _ _ _ _ _ (dg_exec_spec o r Hi Hg) He) as (_ & Hi1 & Hsub & _).
  destruct (IH Hi1) as [? ?]. split; [done|]. by etransitivity.
Qed.

Lemma dg_reachable_inv r : dg_reachable r -> registry_inv r.
Proof. intros (max & tr & Hrun). apply (dg_run_inv _ _ _ Hrun), registry_new_inv. Qed.

(** ** Queues along a run *)

Definition out_queue (id : Z) (s : DgState) : list bytes :=
  match streams s !! id with Some e => e_outgoing e | None => [] end.

(** The packets a change adds to, and takes from, the queue of a stream. *)
Definition added (id : Z) (l : label) : list bytes := match l with LSend i p => if i =? id then [p] else [] | _ => [] end.
Definition taken (id : Z) (l : label) : list bytes := match l with LNext i p => if i =? id then [p] else [] | _ => [] end.
Definition closes (id : Z) (l : label) : bool :=
  match l with LCloseSend i | LRemove i => i =? id | LCloseAll => true | _ => false end.

Lemma out_queue_update id i f rdy s :
  out_queue id (update i f rdy s) =
  if i =? id then match streams s !! id with Some e => e_outgoing (f e) | None => [] end else out_queue id s.
Proof.
  unfold out_queue, update. destruct (i =? id) eqn:Ei; zbool.
  - subst i. destruct (streams s !! id) eqn:E; cbn; [by rewrite lookup_insert_eq|by rewrite E].
  - destruct (streams s !! i); cbn; [by rewrite lookup_insert_ne|done].
Qed.

(** A change moves packets through the queue of a stream in order. *)
Lemma lab_queue l s id :
  dg_inv s -> lab_guard l s -> closes id l = false ->
  out_queue id s ++ added id l = taken id l ++ out_queue id (lab_apply l s).
Proof.
  intros Hs Hg Hc. destruct l as [|i h sem| | |i p|i p|i p|i p|i|i|i|]; cbn [added taken closes lab_apply app] in *;
    rewrite ?out_queue_update, ?app_nil_r; try done.
  - unfold out_queue. cbn. destruct Hg as [Hi _]. destruct (decide (i = id)) as [->|]; [|by rewrite lookup_insert_ne].
    by rewrite lookup_insert_eq, Hi.
  - destruct Hg as (e & He & _). destruct (i =? id) eqn:Ei; [|by rewrite app_nil_r]. zbool. subst i. unfold out_queue. by rewrite He.
  - destruct Hg as (e & rest & rdy & _ & He & Hq). destruct (i =? id) eqn:Ei; [|done]. zbool. subst i. unfold out_queue.
    rewrite He. unfold pop_out. by rewrite Hq.
  - destruct Hg as (e & He & _). destruct (i =? id) eqn:Ei; [|done]. zbool. subst i. unfold out_queue. by rewrite He.
  - destruct Hg as (e & rest & He & Hq). destruct (i =? id) eqn:Ei; [|done]. zbool. subst i. unfold out_queue.
    rewrite He. unfold pop_in. by rewrite Hq.
  - by rewrite Hc.
  - destruct (i =? id) eqn:Ei; [|done]. zbool. subst i. unfold out_queue. by destruct (streams s !! id).
  - unfold out_queue. destruct (streams s !! i) eqn:E; cbn; [|done]. zbool. by rewrite lookup_delete_ne.
Qed.

Lemma runs_queue tr r r' id :
  runs tr r r' -> registry_inv r -> forallb (fun l => negb (closes id l)) tr = true ->
  out_queue id (r_state r) ++ concat (map (added id) tr) = concat (map (taken id) tr) ++ out_queue id (r_state r').
Proof.
  induction 1 as [r|l tr r r1 r2 Hr Hi1 _ Hrun IH]; intros Hi Hc; [by rewrite app_nil_r|].
  cbn in *. zbool. rewrite app_assoc, (lab_queue l (r_state r) id); [|apply Hi|apply Hr|done].
  rewrite <- app_assoc, <- (rf_state _ _ _ Hr), IH by done. by rewrite app_assoc.
Qed.

(** Operations that end the sending of a request. *)
Definition ends_send (h : nat) (o : dg_op) : bool :=
  match o with
  | OpClose => true
  | OpCloseSend i | OpAbort i _ | OpRequestClose i => (i =? h)%nat
  | _ => false
  end.

(** The packets admitted for a request and the packets handed to the transport
    for its stream, along a run. *)
Definition admitted (h : nat) (id : Z) (tr : list (dg_op * out)) : list bytes :=
  concat (map (fun '(o, out) => match o, out with
    | OpSend i p, Ready (OutSent (Ok _)) => if (i =? h)%nat then [datagram_encode id p] else []
    | _, _ => [] end) tr).
Definition transmitted (id : Z) (tr : list (dg_op * out)) : list bytes :=
  concat (map (fun '(o, out) => match o, out with
    | OpNext, Ready (OutPacket (Some (i, p))) => if i =? id then [p] else []
    | _, _ => [] end) tr).

Lemma if_present_added id i l s : added id l = [] -> added id (if_present i l s) = [].
Proof. unfold if_present. by case_decide. Qed.
Lemma if_present_taken id i l s : taken id l = [] -> taken id (if_present i l s) = [].
Proof. unfold if_present. by case_decide. Qed.
Lemma if_present_closes id i l s : closes id l = false -> closes id (if_present i l s) = false.
Proof. unfold if_present. by case_decide. Qed.

(** The changes of an operation that does not end the sending of [h] do not
    close its queue, and move the packets [admitted] and [transmitted] name. *)
Lemma explains_queue o out r tr h id :
  registry_inv r -> ids r !! h = Some id -> ends_send h o = false -> explains o out r tr ->
  forallb (fun l => negb (closes id l)) tr = true /\
  concat (map (added id) tr) = admitted h id [(o, out)] /\ concat (map (taken id) tr) = transmitted id [(o, out)].
Proof.
  intros Hi Hh He Hx. unfold admitted, transmitted. cbn [map concat].
  assert (Hother : forall i j, ids r !! i = Some j -> (i =? h)%nat = false -> (j =? id) = false).
  { intros i j Hij Hne. apply Nat.eqb_neq in Hne. apply Z.eqb_neq. intros ->. apply Hne. by eapply (ri_unique _ Hi). }
  destruct o; cbn [explains ends_send] in *; try (subst tr; done).
  - destruct Hx as (? & _ & ->). by destruct (s_closed (r_state r)).
  - destruct Hx as (l & Ht & Hx). destruct (datagram_decode packet) as [[i p]|]; [destruct Hx as [-> [[-> _]|[-> _]]]; done|]. subst l. by destruct Ht as [-> | ->].
  - destruct out as [[| |[[i p]|]| |]| | | |]; try (destruct Hx; by subst tr). subst tr. cbn. by rewrite !app_nil_r.
  - destruct out as [[| | |[[]|]|]| | | |]; try done; [|by subst tr]. destruct Hx as (j & Hj & ->). cbn. rewrite !app_nil_r.
    destruct (_ =? h)%nat eqn:E; [|by rewrite (Hother _ _ Hj E)]. apply Nat.eqb_eq in E. subst. rewrite Hj in Hh.
    injection Hh as <-. by rewrite Z.eqb_refl.
  - destruct out as [[| | | |[p|]]| | | |]; try (by subst tr). by destruct Hx as (j & Hj & ->).
  - destruct Hx as (j & Hj & ->). cbn. rewrite if_present_added, if_present_taken, if_present_closes; [done|by apply (Hother _ _ Hj)|done..].
  - destruct Hx as (j & Hj & ->). cbn. by rewrite if_present_added, if_present_taken, if_present_closes.
  - destruct Hx as (j & Hj & ->). cbn. rewrite !if_present_added, !if_present_taken, !if_present_closes; [done|by apply (Hother _ _ Hj)|done..].
  - destruct Hx as (j & Hj & ->). cbn. rewrite if_present_added, if_present_taken, if_present_closes; [done|by apply (Hother _ _ Hj)|done..].
Qed.

Lemma sent_in_order r tr r' h id :
  registry_inv r -> ids r !! h = Some id -> dg_run r tr r' -> forallb (fun x => negb (ends_send h x.1)) tr = true ->
  out_queue id (r_state r) ++ admitted h id tr = transmitted id tr ++ out_queue id (r_state r').
Proof.
  intros Hi Hh Hrun. revert Hi Hh.
  induction Hrun as [r|r o out r1 tr r2 Hg He Hrun IH]; intros Hi Hh Hc; [by rewrite app_nil_r|].
  cbn in Hc. zbool.
  destruct (wp_elim _ _ _ _ _ (dg_exec_spec o r Hi Hg) He) as (_ & Hi1 & Hsub & ls & Hls & Hx).
  destruct (explains_queue o out r ls h id Hi Hh) as (Hcl & Ha & Ht); [done..|].
  pose proof (runs_queue ls r r1 id Hls Hi Hcl) as Hq. rewrite Ha, Ht in Hq.
  change (admitted h id ((o, out) :: tr)) with (admitted h id ([(o, out)] ++ tr)).
  change (transmitted id ((o, out) :: tr)) with (transmitted id ([(o, out)] ++ tr)).
  unfold admitted, transmitted in *. rewrite !map_app, !concat_app.
  rewrite app_assoc, Hq, <- !app_assoc. f_equal. apply IH; [done|by eapply lookup_weaken|done].
Qed.

(** *** Incoming packets *)

Definition in_queue (id : Z) (s : DgState) : list bytes :=
  match streams s !! id with Some e => e_incoming e | None => [] end.

(** A payload that arrives for a stream is kept when the request is there, still
    receives and uses datagrams, has fewer than 64 packets waiting, and the
    payload fits the 128 KiB of its session and the 1 MiB of the connection. *)
Definition takes_in (id : Z) (p : bytes) (s : DgState) : bool :=
  match streams s !! id with
  | Some e => recv_open e && semantics e && (len (e_incoming e) <? 64) && (queued (e_incoming e) + len p <=? 131072) &&
      (total (fun e => queued (e_incoming e)) (streams s) + len p <=? 1048576)
  | None => false
  end.

Lemma takes_in_iff id p s : dg_inv s -> takes_in id p s = true <-> lab_guard (LArrive id p) s.
Proof.
  intros Hs. unfold takes_in. cbn [lab_guard]. destruct (streams s !! id) as [e|] eqn:He; [|split; [done|intros (e & ? & _); done]].
  destruct (i_entries _ Hs _ _ He) as [[Hn _ Hp _] _]. rewrite !andb_true_iff, Z.ltb_lt, !Z.leb_le.
  assert (total (fun e => queued (e_incoming e)) (streams s) = s_incoming s) as ->.
  { rewrite (i_incoming _ Hs). symmetry. apply total_ext. intros i e' Hx. by destruct (i_entries _ Hs _ _ Hx) as [[? ? ? _] _]. }
  unfold room, PACKETS, SESSION_BYTES, CONNECTION_BYTES in *. split.
  - intros [[[[? ?] ?] ?] ?]. exists e. split_and!; try done; lia.
  - intros (e' & [= <-] & ? & ? & ? & ? & ?). split_and!; try done; lia.
Qed.

(** The payloads kept for a stream, along a run from [r]; all others are
    dropped. *)
Definition arriving (id : Z) (packet : bytes) (s : DgState) : list bytes :=
  match datagram_decode packet with
  | Ok (i, p) => if (i =? id) && takes_in id p s then [p] else []
  | Err _ => []
  end.
Fixpoint arrived (id : Z) (r : Registry) (tr : list (dg_op * out)) : list bytes :=
  match tr with
  | [] => []
  | (o, _) :: tr => match o with OpReceive packet => arriving id packet (r_state r) | _ => [] end ++ arrived id (dg_exec o r).1 tr
  end.

(** The payloads a request was given. *)
Definition given_to (h : nat) (tr : list (dg_op * out)) : list bytes :=
  concat (map (fun '(o, out) => match o, out with
    | OpRecv i, Ready (OutGot (Some p)) => if (i =? h)%nat then [p] else []
    | _, _ => [] end) tr).

(** Operations that end the receiving of a request. *)
Definition ends_recv (h : nat) (o : dg_op) : bool :=
  match o with
  | OpClose => true
  | OpCloseRecv i | OpAbort i _ | OpRequestClose i => (i =? h)%nat
  | _ => false
  end.

Definition pushed (id : Z) (l : label) : list bytes := match l with LArrive i p => if i =? id then [p] else [] | _ => [] end.
Definition popped (id : Z) (l : label) : list bytes := match l with LTake i p => if i =? id then [p] else [] | _ => [] end.
Definition shuts (id : Z) (l : label) : bool :=
  match l with LCloseRecv i | LRemove i => i =? id | LCloseAll => true | _ => false end.

Lemma in_queue_update id i f rdy s :
  in_queue id (update i f rdy s) =
  if i =? id then match streams s !! id with Some e => e_incoming (f e) | None => [] end else in_queue id s.
Proof.
  unfold in_queue, update. destruct (i =? id) eqn:Ei; zbool.
  - subst i. destruct (streams s !! id) eqn:E; cbn; [by rewrite lookup_insert_eq|by rewrite E].
  - destruct (streams s !! i); cbn; [by rewrite lookup_insert_ne|done].
Qed.

Lemma lab_in_queue l s id :
  lab_guard l s -> shuts id l = false -> in_queue id s ++ pushed id l = popped id l ++ in_queue id (lab_apply l s).
Proof.
  intros Hg Hc. destruct l as [|i h sem| | |i p|i p|i p|i p|i|i|i|]; cbn [pushed popped shuts lab_apply app] in *;
    rewrite ?in_queue_update, ?app_nil_r; try done.
  - unfold in_queue. cbn. destruct Hg as [Hi _]. destruct (decide (i = id)) as [->|]; [|by rewrite lookup_insert_ne].
    by rewrite lookup_insert_eq, Hi.
  - destruct Hg as (e & He & _). destruct (i =? id) eqn:Ei; [|done]. zbool. subst i. unfold in_queue. by rewrite He.
  - destruct Hg as (e & rest & rdy & _ & He & Hq). destruct (i =? id) eqn:Ei; [|done]. zbool. subst i. unfold in_queue.
    rewrite He. unfold pop_out. by rewrite Hq.
  - destruct Hg as (e & He & _). destruct (i =? id) eqn:Ei; [|by rewrite app_nil_r]. zbool. subst i. unfold in_queue. by rewrite He.
  - destruct Hg as (e & rest & He & Hq). destruct (i =? id) eqn:Ei; [|done]. zbool. subst i. unfold in_queue.
    rewrite He. unfold pop_in. by rewrite Hq.
  - destruct (i =? id) eqn:Ei; [|done]. zbool. subst i. unfold in_queue. by destruct (streams s !! id).
  - by rewrite Hc.
  - unfold in_queue. destruct (streams s !! i) eqn:E; cbn; [|done]. zbool. by rewrite lookup_delete_ne.
Qed.

Lemma runs_in_queue tr r r' id :
  runs tr r r' -> forallb (fun l => negb (shuts id l)) tr = true ->
  in_queue id (r_state r) ++ concat (map (pushed id) tr) = concat (map (popped id) tr) ++ in_queue id (r_state r').
Proof.
  induction 1 as [r|l tr r r1 r2 Hr Hi1 _ Hrun IH]; intros Hc; [by rewrite app_nil_r|].
  cbn in *. zbool. rewrite app_assoc, (lab_in_queue l (r_state r) id); [|apply Hr|done].
  rewrite <- app_assoc, <- (rf_state _ _ _ Hr), IH by done. by rewrite app_assoc.
Qed.

Lemma if_present_shuts id i l s : shuts id l = false -> shuts id (if_present i l s) = false.
Proof. unfold if_present. by case_decide. Qed.
Lemma if_present_moves id i l s : pushed id l = [] -> popped id l = [] -> pushed id (if_present i l s) = [] /\ popped id (if_present i l s) = [].
Proof. unfold if_present. by case_decide. Qed.

(** The changes of an operation that does not end the receiving of [h]. *)
Lemma explains_in_queue o out r tr h id :
  registry_inv r -> ids r !! h = Some id -> ends_recv h o = false -> explains o out r tr ->
  forallb (fun l => negb (shuts id l)) tr = true /\
  concat (map (pushed id) tr) = match o with OpReceive packet => arriving id packet (r_state r) | _ => [] end /\
  concat (map (popped id) tr) = given_to h [(o, out)].
Proof.
  intros Hi Hh He Hx. unfold given_to. cbn [map concat].
  assert (Hother : forall i j, ids r !! i = Some j -> (i =? h)%nat = false -> (j =? id) = false).
  { intros i j Hij Hne. apply Nat.eqb_neq in Hne. apply Z.eqb_neq. intros ->. apply Hne. by eapply (ri_unique _ Hi). }
  assert (Hpres : forall j l, shuts id l = false -> pushed id l = [] -> popped id l = [] ->
    shuts id (if_present j l (r_state r)) = false /\ pushed id (if_present j l (r_state r)) = [] /\ popped id (if_present j l (r_state r)) = []).
  { intros j l H1 H2 H3. split; [by apply if_present_shuts|by apply if_present_moves]. }
  destruct o; cbn [explains ends_recv] in *; try (subst tr; done).
  - destruct Hx as (? & _ & ->). by destruct (s_closed (r_state r)).
  - destruct Hx as (l & Ht & Hx). unfold arriving. destruct (datagram_decode packet) as [[i p]|]; [|subst l; by destruct Ht as [-> | ->]].
    destruct Hx as [-> Hx]. destruct (i =? id) eqn:Ei; zbool; cbn [andb].
    + subst i. pose proof (takes_in_iff id p _ (ri_state _ Hi)) as Hk. destruct Hx as [[-> Hn]|[-> Hn]].
      * destruct (takes_in id p (r_state r)); [by destruct Hn; apply Hk|done].
      * cbn. rewrite Z.eqb_refl. destruct (takes_in id p (r_state r)) eqn:Ek; [done|]. by apply Hk in Hn.
    + destruct Hx as [[-> _]|[-> _]]; [done|]. cbn. by rewrite (proj2 (Z.eqb_neq _ _) Ei).
  - destruct out as [[| |[[i p]|]| |]| | | |]; try (destruct Hx; by subst tr). by subst tr.
  - destruct out as [[| | |[[]|]|]| | | |]; try done; [|by subst tr]. by destruct Hx as (j & Hj & ->).
  - destruct out as [[| | | |[p|]]| | | |]; try (by subst tr). destruct Hx as (j & Hj & ->). cbn. rewrite !app_nil_r.
    destruct (_ =? h)%nat eqn:E; [|by rewrite (Hother _ _ Hj E)]. apply Nat.eqb_eq in E. subst. rewrite Hj in Hh.
    injection Hh as <-. by rewrite Z.eqb_refl.
  - destruct Hx as (j & Hj & ->). cbn. destruct (Hpres j (LCloseSend j)) as (-> & -> & ->); done.
  - destruct Hx as (j & Hj & ->). cbn. destruct (Hpres j (LCloseRecv j)) as (-> & -> & ->); [by apply (Hother _ _ Hj)|done..].
  - destruct Hx as (j & Hj & ->). cbn. destruct (Hpres j (LCloseRecv j)) as (-> & -> & ->); [by apply (Hother _ _ Hj)|done|done|].
    destruct (Hpres j (LCloseSend j)) as (-> & -> & ->); done.
  - destruct Hx as (j & Hj & ->). cbn. destruct (Hpres j (LRemove j)) as (-> & -> & ->); [by apply (Hother _ _ Hj)|done..].
Qed.

Lemma received_in_order r tr r' h id :
  registry_inv r -> ids r !! h = Some id -> dg_run r tr r' -> forallb (fun x => negb (ends_recv h x.1)) tr = true ->
  in_queue id (r_state r) ++ arrived id r tr = given_to h tr ++ in_queue id (r_state r').
Proof.
  intros Hi Hh Hrun. revert Hi Hh.
  induction Hrun as [r|r o out r1 tr r2 Hg He Hrun IH]; intros Hi Hh Hc; [by rewrite app_nil_r|].
  cbn in Hc. zbool.
  destruct (wp_elim _ _ _ _ _ (dg_exec_spec o r Hi Hg) He) as (_ & Hi1 & Hsub & ls & Hls & Hx).
  destruct (explains_in_queue o out r ls h id Hi Hh) as (Hcl & Ha & Ht); [done..|].
  pose proof (runs_in_queue ls r r1 id Hls Hcl) as Hq. rewrite Ha, Ht in Hq. cbn [arrived]. rewrite He. cbn [fst].
  change (given_to h ((o, out) :: tr)) with (given_to h ([(o, out)] ++ tr)).
  unfold given_to in *. rewrite !map_app, !concat_app.
  rewrite app_assoc, Hq, <- !app_assoc. f_equal. apply IH; [done|by eapply lookup_weaken|done].
Qed.

(** C34. The datagram queues are first in, first out, in both directions and
    whatever other sessions do. Along any run of the registry that does not end
    the sending of a request, the packets queued for its stream before, followed
    by the ones admitted during the run, are the ones handed to the transport
    during the run, followed by the ones still queued: nothing that was admitted
    is lost, duplicated or reordered. Along any run that does not end its
    receiving, the payloads waiting for the request before, followed by those of
    the arriving packets that are kept, are the ones it was given during the
    run, followed by those still waiting. A packet is dropped on arrival exactly
    when it is malformed, its stream has no request that receives datagrams,
    64 payloads wait already, or it would take the session over 128 KiB or the
    connection over 1 MiB. *)
Theorem datagram_fifo r tr r' h id :
  dg_reachable r -> ids r !! h = Some id -> dg_run r tr r' ->
  (forallb (fun x => negb (ends_send h x.1)) tr = true ->
   out_queue id (r_state r) ++ admitted h id tr = transmitted id tr ++ out_queue id (r_state r')) /\
  (forallb (fun x => negb (ends_recv h x.1)) tr = true ->
   in_queue id (r_state r) ++ arrived id r tr = given_to h tr ++ in_queue id (r_state r')).
Proof. intros Hi%dg_reachable_inv Hh Hrun. split; intros He; [by apply sent_in_order|by apply received_in_order]. Qed.

(** The registry stays within its budgets. Whatever operations are run, in
    any order and whatever the peer sends, no byte counter underflows and no
    loop runs on; per session and direction at most 64 packets and 128 KiB are
    queued, per connection and direction at most 1 MiB, the counters being the
    sizes of the queues; and the ready queue holds each session with packets to
    send exactly once. *)
Theorem registry_budgets r o r' res :
  dg_reachable r -> dg_guard o r -> dg_exec o r = (r', res) ->
  res ≠ Panicked /\ res ≠ NoFuel /\
  let s := r_state r' in
  (forall id e, streams s !! id = Some e ->
    len (e_incoming e) <= PACKETS /\ len (e_outgoing e) <= PACKETS /\
    queued (e_incoming e) <= SESSION_BYTES /\ queued (e_outgoing e) <= SESSION_BYTES) /\
  s_incoming s = total (fun e => queued (e_incoming e)) (streams s) /\ s_incoming s <= CONNECTION_BYTES /\
  s_outgoing s = total (fun e => queued (e_outgoing e)) (streams s) /\ s_outgoing s <= CONNECTION_BYTES /\
  NoDup (ready_ids s) /\ (forall id, id ∈ ready_ids s <-> out_queue id s ≠ []).
Proof.
  intros Hreach%dg_reachable_inv Hg He.
  destruct (wp_elim _ _ _ _ _ (dg_exec_spec o r Hreach Hg) He) as (Hs & [Hi _ _ _] & _).
  split_and!; [by intros ->|by intros ->|cbv zeta].
  split_and!.
  - intros id e Hx. destruct (i_entries _ Hi _ _ Hx) as [[? ? ? _] [? ? ? _]]. split_and!; congruence || lia.
  - rewrite (i_incoming _ Hi). apply total_ext. intros id e Hx. by destruct (i_entries _ Hi _ _ Hx) as [[? ? ? _] _].
  - apply Hi.
  - rewrite (i_outgoing _ Hi). apply total_ext. intros id e Hx. by destruct (i_entries _ Hi _ _ Hx) as [_ [? ? ? _]].
  - apply Hi.
  - apply Hi.
  - intros id. rewrite (i_ready _ Hi). unfold out_queue. destruct (streams (r_state r') !! id); naive_solver.
Qed.

(** ** The round robin *)

(** A session that waits: its place in the ready queue and its first packet. *)
Definition waits (id : Z) (p : bytes) (k : nat) (s : DgState) : Prop :=
  ready_ids s !! k = Some id /\ exists q, out_queue id s = p :: q.

Lemma lookup_filter_ne (l : list Z) (i id : Z) k :
  i ≠ id -> l !! k = Some id -> exists k', (k' <= k)%nat /\ filter (fun x => x ≠ i) l !! k' = Some id.
Proof.
  revert k. induction l as [|x l IH]; intros k Hne Hk; [done|]. destruct k as [|k]; cbn in Hk.
  - injection Hk as ->. exists 0%nat. rewrite filter_cons_True by done. split; [lia|done].
  - destruct (IH k Hne Hk) as (k' & Hle & Hk'). rewrite filter_cons. case_decide; [exists (S k')|exists k']; split; (lia || done).
Qed.

(** Changes other than giving out a packet do not push a session back. *)
Lemma waits_other l s id p k :
  dg_inv s -> lab_guard l s -> closes id l = false -> (forall i q, l ≠ LNext i q) -> waits id p k s ->
  exists k', (k' <= k)%nat /\ waits id p k' (lab_apply l s).
Proof.
  intros Hs Hg Hc Hn [Hk [q Hq]]. pose proof (lab_queue l s id Hs Hg Hc) as Hqueue.
  replace (taken id l) with (@nil bytes) in Hqueue by (destruct l; try done; by destruct (Hn id0 packet)).
  cbn [app] in Hqueue.
  assert (Hq' : exists q', out_queue id (lab_apply l s) = p :: q') by (rewrite <- Hqueue, Hq; cbn; eauto).
  assert (Hup : forall i f rdy, ready_ids (update i f rdy s) = if decide (is_Some (streams s !! i)) then rdy else ready_ids s).
  { intros i f rdy. unfold update. destruct (streams s !! i); [by rewrite decide_True by eauto|by rewrite decide_False by (by intros [? ?])]. }
  destruct l as [|i h sem| | |i x|i x|i x|i x|i|i|i|]; cbn [lab_apply closes] in *;
    try (exists k; split; [lia|]; split; [by rewrite ?Hup; repeat case_decide|done]).
  - exists k. split; [lia|]. split; [|done]. rewrite Hup. case_decide; [|done]. unfold ready_push.
    destruct (streams s !! i); [|done]. case_decide; [by apply lookup_app_l_Some|done].
  - by destruct (Hn i x).
  - zbool. destruct (lookup_filter_ne (ready_ids s) i id k Hc Hk) as (k' & Hle & Hk'). exists (if decide (is_Some (streams s !! i)) then k' else k).
    split; [by case_decide|]. split; [|done]. rewrite Hup. by case_decide.
  - zbool. destruct Hg as [e He]. rewrite He in *. destruct (lookup_filter_ne (ready_ids s) i id k Hc Hk) as (k' & Hle & Hk').
    by exists k'.
Qed.

(** Giving out a packet moves every waiting session one place up, and the first
    one gets its turn. *)
Lemma waits_next i x s id p k :
  dg_inv s -> lab_guard (LNext i x) s -> waits id p k s ->
  match k with
  | O => i = id /\ x = p
  | S k' => waits id p k' (lab_apply (LNext i x) s)
  end.
Proof.
  intros Hs Hg [Hk [q Hq]]. pose proof (lab_queue (LNext i x) s id Hs Hg eq_refl) as Hqueue.
  destruct Hg as (e & rest & rdy & Hrdy & He & Hout). cbn [taken added] in Hqueue. rewrite app_nil_r in Hqueue.
  rewrite Hrdy in Hk. pose proof (i_nodup _ Hs) as Hnd. rewrite Hrdy in Hnd. apply NoDup_cons in Hnd as [Hnotin _].
  destruct k as [|k]; cbn in Hk.
  - injection Hk as ->. split; [done|]. unfold out_queue in Hq. rewrite He, Hout in Hq. congruence.
  - assert (i ≠ id) as Hne by (intros ->; by apply Hnotin, list_elem_of_lookup; eauto).
    rewrite (proj2 (Z.eqb_neq i id)) in Hqueue by done. cbn [app] in Hqueue. split; [|rewrite <- Hqueue; eauto].
    cbn [lab_apply]. unfold update, ready_rotate. rewrite He, Hout, Hrdy. cbn. destruct rest; [done|]. by apply lookup_app_l_Some.
Qed.

Definition is_next (o : dg_op) : bool := match o with OpNext => true | _ => false end.

Lemma explains_no_next o out r tr : explains o out r tr -> is_next o = false -> forall i q, LNext i q ∉ tr.
Proof.
  intros Hx Hn i q.
  assert (Hif : forall j l, l ≠ LNext i q -> LNext i q ≠ if_present j l (r_state r)) by (intros j l Hl; unfold if_present; case_decide; congruence).
  destruct o; cbn [explains] in Hx; try done; try (subst tr; set_solver).
  - destruct Hx as (h & _ & ->). destruct (s_closed (r_state r)); set_solver.
  - destruct Hx as (l & Ht & Hx). destruct (datagram_decode packet) as [[j p]|]; [destruct Hx as [-> [[-> _]|[-> _]]]|subst l; destruct Ht as [-> | ->]]; set_solver.
  - destruct out as [[| | |[[]|]|]| | | |]; try done; [|subst tr; set_solver]. destruct Hx as (j & _ & ->). set_solver.
  - destruct out as [[| | | |[x|]]| | | |]; try (subst tr; set_solver). destruct Hx as (j & _ & ->). set_solver.
  - destruct Hx as (j & _ & ->). rewrite list_elem_of_singleton. by apply Hif.
  - destruct Hx as (j & _ & ->). rewrite list_elem_of_singleton. by apply Hif.
  - destruct Hx as (j & _ & ->). rewrite elem_of_cons, list_elem_of_singleton. intros [Hc|Hc]; by apply Hif in Hc.
  - destruct Hx as (j & _ & ->). rewrite list_elem_of_singleton. by apply Hif.
Qed.

Lemma runs_waits tr r r' id p k :
  runs tr r r' -> registry_inv r -> forallb (fun l => negb (closes id l)) tr = true -> (forall i q, LNext i q ∉ tr) ->
  waits id p k (r_state r) -> exists k', (k' <= k)%nat /\ waits id p k' (r_state r').
Proof.
  intros Hrun. revert k. induction Hrun as [r|l tr r r1 r2 Hr Hi1 _ Hrun IH]; intros k Hi Hc Hn Hw; [by eauto|].
  cbn in Hc. zbool. destruct (waits_other l (r_state r) id p k) as (k1 & Hle & Hw1); [apply Hi|apply Hr|done| |done|].
  { intros i q ->. apply (Hn i q). set_solver. }
  rewrite <- (rf_state _ _ _ Hr) in Hw1. destruct (IH k1) as (k2 & ? & ?); [done|done| |done|].
  { intros i q Hin. apply (Hn i q). set_solver. }
  exists k2. split; [lia|done].
Qed.

(** The round robin starves no session. When a session with a packet to
    send is at place [k] of the ready queue, any run of the registry that does
    not end its sending and takes more than [k] packets for the transport
    transmits that packet, however busy the other sessions are. *)
Theorem round_robin_serves r tr r' h id p k :
  dg_reachable r -> ids r !! h = Some id -> waits id p k (r_state r) ->
  dg_run r tr r' -> forallb (fun x => negb (ends_send h x.1)) tr = true ->
  (k < length (filter (fun x => is_next x.1 = true) tr))%nat ->
  (OpNext, Ready (OutPacket (Some (id, p)))) ∈ tr.
Proof.
  intros Hreach%dg_reachable_inv Hh Hw Hrun. revert k Hreach Hh Hw.
  induction Hrun as [r|r o out r1 tr r2 Hg He Hrun IH]; intros k Hi Hh Hw Hc Hk; [cbn in Hk; lia|].
  cbn [forallb fst] in Hc. zbool.
  destruct (wp_elim _ _ _ _ _ (dg_exec_spec o r Hi Hg) He) as (_ & Hi1 & Hsub & ls & Hls & Hx).
  destruct (explains_queue o out r ls h id Hi Hh) as (Hcl & _ & _); [done..|].
  assert (Hh1 : ids r1 !! h = Some id) by (by eapply lookup_weaken).
  rewrite filter_cons in Hk. cbn [fst] in Hk. destruct (is_next o) eqn:En.
  - destruct o; try done. rewrite decide_True in Hk by done. cbn [length] in Hk. cbn [explains] in Hx.
    destruct out as [[| |[[i x]|]| |]| | | |];
      try (match type of Hx with _ /\ _ => destruct Hx as [_ Hempty], Hw as [Hlook _]; by rewrite Hempty in Hlook end).
    subst ls. inversion Hls as [|l ? ? ra ? Hr _ _ Hnil]; subst. inversion Hnil; subst.
    pose proof (waits_next i x (r_state r) id p k (ri_state _ Hi) (rf_guard _ _ _ Hr) Hw) as Hnext.
    rewrite <- (rf_state _ _ _ Hr) in Hnext. destruct k as [|k]; [destruct Hnext as [-> ->]; by left|].
    right. apply (IH k); [done..|]. lia.
  - rewrite decide_False in Hk by congruence.
    destruct (runs_waits ls r r1 id p k Hls Hi Hcl) as (k' & Hle & Hw'); [|done|].
    + by apply (explains_no_next o out r).
    + right. apply (IH k'); [done..|]. lia.
Qed.

(** ** Wake-ups *)

(** A condition that a counter of wakes watches: each change keeps it or adds
    to the counter. Then a run that ends the condition has added to it. *)
Section watch.
Context (P : Registry -> Prop) (c : Registry -> nat).
Hypothesis watched : forall l r r', registry_inv r -> refines l r r' -> ids r ⊆ ids r' -> P r -> P r' \/ (c r < c r')%nat.
Hypothesis counts : forall l r r', refines l r r' -> (c r <= c r')%nat.

Lemma runs_counts tr r r' : runs tr r r' -> (c r <= c r')%nat.
Proof. induction 1 as [|l tr r r1 r2 Hr _ _ _ IH]; [done|]. specialize (counts _ _ _ Hr). lia. Qed.

Lemma runs_watch tr r r' : runs tr r r' -> registry_inv r -> P r -> P r' \/ (c r < c r')%nat.
Proof.
  induction 1 as [|l tr r r1 r2 Hr Hi1 Hsub Hrun IH]; intros Hi Hp; [by left|].
  destruct (watched _ _ _ Hi Hr Hsub Hp) as [Hp1|Hlt].
  - specialize (counts _ _ _ Hr). destruct (IH Hi1 Hp1); [by left|right; lia].
  - pose proof (runs_counts _ _ _ Hrun). right. lia.
Qed.

Lemma dg_run_watch r tr r' : dg_run r tr r' -> registry_inv r -> P r -> P r' \/ (c r < c r')%nat.
Proof.
  intros Hrun Hi. assert (Hle : forall r tr r', dg_run r tr r' -> registry_inv r -> (c r <= c r')%nat).
  { clear - counts H0. induction 1 as [|r o out r1 tr r2 Hg He Hrun IH]; intros Hi; [done|].
    destruct (wp_elim _ _ _ _ _ (dg_exec_spec o r Hi Hg) He) as (_ & Hi1 & _ & ls & Hls & _).
    pose proof (runs_counts _ _ _ Hls). specialize (IH Hi1). lia. }
  induction Hrun as [|r o out r1 tr r2 Hg He Hrun IH]; intros Hp; [by left|].
  destruct (wp_elim _ _ _ _ _ (dg_exec_spec o r Hi Hg) He) as (_ & Hi1 & _ & ls & Hls & _).
  pose proof (runs_counts _ _ _ Hls).
  destruct (runs_watch _ _ _ Hls Hi Hp) as [Hp1|Hlt]; [destruct (IH Hi1 Hp1); [by left|right; lia]|].
  specialize (Hle _ _ _ Hrun Hi1). right. lia.
Qed.
End watch.

(** What a sender tries: to be ready for the largest payload, or to send one. *)
Inductive attempt : Type := AReady | ASend (payload : bytes).

Definition attempt_run (a : attempt) (h : nat) : M Registry SendErrorKind unit :=
  match a with AReady => ready h | ASend p => try_send h p end.

(** The limit it needs and the room it wants. *)
Definition fits (a : attempt) (id max : Z) : Prop :=
  match a with AReady => prefix_size id <= max | ASend p => prefix_size id + len p <= Z.min max SESSION_BYTES end.
Definition want (a : attempt) (id max : Z) : Z :=
  match a with AReady => Z.min max SESSION_BYTES | ASend p => prefix_size id + len p end.

(** The stream is open for sending and has no room for what the sender wants. *)
Definition no_room (a : attempt) (id : Z) (s : DgState) : Prop :=
  exists e max, streams s !! id = Some e /\ send_open e = true /\ limit s = Some max /\ fits a id max /\
    ~ room (e_outgoing e) (outgoing_bytes e) (s_outgoing s) (want a id max).

Lemma full_iff a h id r :
  registry_inv r -> ids r !! h = Some id -> (attempt_run a h r).2 = Failed SkFull <-> no_room a id (r_state r).
Proof.
  intros Hi Hh.
  assert (Hres : (attempt_run a h r).2 = as_outcome (match a with AReady => readiness id (r_state r) | ASend p => admission (prefix_size id + len p) id (r_state r) end)).
  { destruct a; cbn [attempt_run]; [by rewrite (ready_spec h id)|].
    pose proof (try_send_buf_spec h id payload r Hi Hh) as Hw. unfold wp, try_send in *. destruct (try_send_buf h payload r). by destruct Hw. }
  rewrite Hres. unfold no_room, room. clear Hres.
  destruct a as [|p]; cbn [fits want]; unfold readiness, admission; destruct (streams (r_state r) !! id) as [e|];
    try (split; [done|intros (? & ? & ? & _); done]); destruct (send_open e) eqn:Ho; cbn [negb];
    try (split; [done|intros (? & ? & [= <-] & ? & _); congruence]); destruct (limit (r_state r)) as [max|];
    try (split; [done|intros (? & ? & _ & _ & ? & _); done]).
  - destruct (max <? prefix_size id) eqn:Em; zbool; [split; [done|intros (? & ? & [= <-] & _ & [= <-] & ? & _); lia]|].
    destruct (_ || _) eqn:Ef; zbool; (split; [|]); try done.
    + intros _. exists e, max. split_and!; try done. lia.
    + intros (? & ? & [= <-] & _ & [= <-] & _ & Hr). exfalso. apply Hr. split_and!; lia.
  - destruct (_ || _) eqn:Em at 1; zbool; [split; [done|intros (? & ? & [= <-] & _ & [= <-] & ? & _); lia]|].
    destruct (_ || _) eqn:Ef; zbool; (split; [|]); try done.
    + intros _. exists e, max. split_and!; try done; lia.
    + intros (? & ? & [= <-] & _ & [= <-] & _ & Hr). exfalso. apply Hr. split_and!; lia.
Qed.

(** A change that frees nothing leaves a sender without room. *)
Lemma no_room_stable a id l s : dg_inv s -> lab_guard l s -> frees l s = false -> no_room a id s -> no_room a id (lab_apply l s).
Proof.
  intros Hs Hg Hf (e & max & He & Ho & Hl & Hfit & Hr).
  assert (Hup : forall i f rdy, (forall x, send_open (f x) = send_open x /\ outgoing_bytes x <= outgoing_bytes (f x) /\
      (streams s !! i = Some x -> len (e_outgoing x) = PACKETS -> len (e_outgoing (f x)) = PACKETS)) -> no_room a id (update i f rdy s)).
  { intros i f rdy Hx. unfold update. destruct (streams s !! i) as [x|] eqn:Ei; [|by exists e, max].
    destruct (Hx x) as (Hopen & Hbytes & Hlen). unfold no_room. cbn.
    exists (if decide (i = id) then f x else e), max. unfold limit in *. cbn. case_decide as Heq.
    - subst i. rewrite lookup_insert_eq, Hopen. rewrite He in Ei. injection Ei as <-. split_and!; try done.
      unfold room in *. intros (Hp & Hb & Hc). apply Hr. split_and!; [|lia..]. intros Hlp. by apply Hp, Hlen.
    - rewrite lookup_insert_ne by done. split_and!; try done. unfold room in *. intros (Hp & Hb & Hc). apply Hr. split_and!; [done|lia..]. }
  destruct l as [|i h sem|b|o|i x|i x|i x|i x|i|i|i|]; cbn [lab_apply frees lab_guard] in *; try done.
  - by exists e, max.
  - exists e, max. cbn. rewrite lookup_insert_ne by (intros ->; destruct Hg; congruence). done.
  - unfold limit in Hl. by rewrite Hg in Hl.
  - zbool. apply bool_decide_eq_true in Hf. exists e, max. unfold limit in *. cbn. by rewrite <- Hf.
  - apply Hup. intros y. cbn. split_and!; [done|pose proof (len_nonneg x); lia|]. intros Hy Hp. destruct Hg as (y' & Hy' & _ & (Hq & _) & _). congruence.
  - apply Hup. intros y. cbn. split_and!; [done|lia|done].
  - apply Hup. intros y. unfold pop_in. destruct (e_incoming y); cbn; (split_and!; [done|lia|done]).
  - apply Hup. intros y. cbn. split_and!; [done|lia|done].
Qed.

(** A receiver that waits: its stream is open and nothing is queued. *)
Definition nothing_in (id : Z) (s : DgState) : Prop :=
  exists e, streams s !! id = Some e /\ e_incoming e = [] /\ recv_open e = true.

Lemma nothing_in_stable id l s : lab_guard l s -> arrives l id = false -> nothing_in id s -> nothing_in id (lab_apply l s).
Proof.
  intros Hg Ha (e & He & Hq & Ho).
  assert (Hup : forall i f rdy, (i = id -> e_incoming (f e) = [] /\ recv_open (f e) = true) -> nothing_in id (update i f rdy s)).
  { intros i f rdy Hf. unfold update. destruct (streams s !! i) as [x|] eqn:Ei; [|by exists e].
    destruct (decide (i = id)) as [->|Hne].
    - rewrite He in Ei. injection Ei as <-. exists (f e). cbn. rewrite lookup_insert_eq. naive_solver.
    - exists e. cbn. by rewrite lookup_insert_ne. }
  destruct l as [|i h sem|b|o|i x|i x|i x|i x|i|i|i|]; cbn [lab_apply arrives lab_guard] in *; zbool; try (by exists e); try done.
  - exists e. cbn. rewrite lookup_insert_ne by (intros ->; destruct Hg; congruence). done.
  - by apply Hup.
  - apply Hup. intros _. unfold pop_out. by destruct (e_outgoing e).
  - by apply Hup.
  - apply Hup. intros ->. destruct Hg as (y & rest & Hy & Hrest). congruence.
  - by apply Hup.
  - apply Hup. by intros ->.
  - exists e. destruct (streams s !! i); cbn; [|done]. by rewrite lookup_delete_ne.
Qed.

Lemma no_ready_stable l s : dg_inv s -> lab_guard l s -> enqueues l = false -> ready_ids s = [] -> ready_ids (lab_apply l s) = [].
Proof.
  intros Hs Hg He Hr.
  assert (Hup : forall i f, ready_ids (update i f [] s) = []) by (intros i f; unfold update; by destruct (streams s !! i)).
  destruct l as [|i h sem|b|o|i x|i x|i x|i x|i|i|i|]; cbn [lab_apply enqueues lab_guard] in *; unfold ready_without; rewrite ?Hr; try done;
    try apply Hup.
  - destruct Hg as (? & ? & ? & Hc & _). congruence.
  - destruct (streams s !! i); cbn; by rewrite ?Hr.
Qed.

(** A sender that [poll_admit] parks has no room and waits for the current
    generation. *)
Lemma poll_admit_parked {E} a s0 r0 s r id :
  registry_inv r0 -> ids r0 !! ds_state s0 = Some id ->
  poll_admit (E := E) (attempt_run a) (s0, r0) = ((s, r), Ready (inr false)) ->
  r = r0 /\ ds_state s = ds_state s0 /\ ds_waiting s = Some (r_capacity r) /\ no_room a id (r_state r).
Proof.
  intros Hi Hh Hp. pose proof (full_iff a (ds_state s0) id r0 Hi Hh) as Hfull.
  unfold poll_admit, attempted, set_waiting, get, modify, mbind, M_bind, mret, M_ret in Hp. cbn in Hp.
  destruct (attempt_run a (ds_state s0) r0) as [r1 o1] eqn:E1. cbn [snd] in Hfull.
  assert (o1 = Failed SkFull -> r1 = r0) as Hsame.
  { intros ->. destruct a as [|p]; cbn [attempt_run] in E1.
    - rewrite (ready_spec _ id) in E1 by done. congruence.
    - pose proof (try_send_buf_spec (ds_state s0) id p r0 Hi Hh) as Hw. unfold try_send in E1.
      by destruct (wp_elim _ _ _ _ _ Hw E1) as (_ & _ & ?). }
  destruct o1 as [[]|[]| | |]; cbn in Hp; try done. specialize (Hsame eq_refl). subst r1.
  destruct (ds_waiting s0) as [g|]; cbn in Hp.
  - destruct (r_capacity r0 =? g)%nat eqn:Eg; cbn in Hp; [|done]. apply Nat.eqb_eq in Eg. rewrite E1 in Hp. cbn in Hp.
    injection Hp as <- <-. split_and!; [done|done|by rewrite <- Eg|]. by apply Hfull.
  - rewrite Nat.eqb_refl in Hp. cbn in Hp. rewrite E1 in Hp. cbn in Hp. injection Hp as <- <-. split_and!; [done..|]. by apply Hfull.
Qed.

(** No task sleeps through its wake-up. A sender is parked only when there
    is no room for it, and if after any run of the registry its attempt would
    no longer find the queues full, the notification it waits for has been
    given; a receiver that was told to wait has been woken if it would no
    longer be; and so has the driver if there is a packet for the transport
    again. *)
Theorem no_lost_wakeups r tr r' :
  dg_reachable r -> dg_run r tr r' ->
  (forall a s0 s r0, dg_reachable r0 -> is_Some (ids r0 !! ds_state s0) ->
    poll_admit (E := Error) (attempt_run a) (s0, r0) = ((s, r), Ready (inr false)) ->
    (attempt_run a (ds_state s) r').2 ≠ Failed SkFull -> exists g, ds_waiting s = Some g /\ (g < r_capacity r')%nat) /\
  (forall h, is_Some (ids r !! h) -> (dg_poll_recv (E := Error) h r).2 = Pending ->
    (dg_poll_recv (E := Error) h r').2 ≠ Pending -> (received h r < received h r')%nat) /\
  ((next (E := Error) r).2 = Ready None -> (next (E := Error) r').2 ≠ Ready None -> (r_waker r < r_waker r')%nat).
Proof.
  intros Hr%dg_reachable_inv Hrun. destruct (dg_run_inv _ _ _ Hrun Hr) as [Hr' Hsub]. split_and!.
  - intros a s0 s r0 Hr0%dg_reachable_inv [id Hid] Hp Hnow.
    destruct (poll_admit_parked a s0 r0 s r id Hr0 Hid Hp) as (-> & Hs & Hw & Hno). exists (r_capacity r0). split; [done|].
    rewrite Hs, (full_iff a _ id) in Hnow by (done || by eapply lookup_weaken).
    edestruct (dg_run_watch (fun r => no_room a id (r_state r)) r_capacity) as [Hp'|]; [| |exact Hrun|done|done|done|done].
    + intros l r1 r2 Hi1 Hl _ Hn. destruct (frees l (r_state r1)) eqn:Ef; [right; by apply Hl|left].
      rewrite (rf_state _ _ _ Hl). apply no_room_stable; [apply Hi1|apply Hl|done|done].
    + intros l r1 r2 Hl. apply Hl.
  - intros h [id Hid] Hp Hnow.
    assert (Hn : nothing_in id (r_state r)).
    { pose proof (dg_poll_recv_spec (E := Error) h id r Hr Hid) as Hs. unfold wp in Hs. destruct (dg_poll_recv h r) as [r1 o].
      cbn in Hp. subst o. by destruct Hs as (_ & _ & ?). }
    edestruct (dg_run_watch (fun r => ids r !! h = Some id /\ nothing_in id (r_state r)) (received h)) as [[_ Hp']|];
      [| |exact Hrun|done|done| |done].
    + intros l r1 r2 Hi1 Hl Hs12 [Hh1 Hn1]. destruct (arrives l id) eqn:Ea.
      * right. destruct Hn1 as (e & He & _). assert (request e = h) as <- by (eapply (ri_unique _ Hi1); [by apply (ri_entry _ Hi1)|done]).
        by apply (rf_arrives _ _ _ Hl id).
      * left. split; [by eapply lookup_weaken|]. rewrite (rf_state _ _ _ Hl). apply nothing_in_stable; [apply Hl|done|done].
    + intros l r1 r2 Hl. apply Hl.
    + exfalso. apply Hnow. destruct Hp' as (e & He & Hq & Ho).
      pose proof (dg_poll_recv_spec (E := Error) h id r' Hr' ltac:(by eapply lookup_weaken)) as Hs. unfold wp in Hs.
      destruct (dg_poll_recv h r') as [r1 [[p|]| | | |]]; cbn; try by destruct Hs.
      * destruct Hs as [_ Hs]. destruct (rf_guard _ _ _ Hs) as (e' & rest & He' & Hq'). congruence.
      * destruct Hs as (_ & _ & Hs). destruct (Hs e He). congruence.
  - intros Hn Hnow.
    assert (Hempty : ready_ids (r_state r) = []).
    { pose proof (next_spec (E := Error) r Hr) as Hs. unfold wp in Hs. destruct (next r) as [r1 o]. cbn in Hn. subst o. by destruct Hs as (_ & ? & _). }
    edestruct (dg_run_watch (fun r => ready_ids (r_state r) = []) r_waker) as [Hp'|]; [| |exact Hrun|done|done| |done].
    + intros l r1 r2 Hi1 Hl _ Hn1. destruct (enqueues l) eqn:Ee; [right; by apply Hl|left].
      rewrite (rf_state _ _ _ Hl). apply no_ready_stable; [apply Hi1|apply Hl|done|done].
    + intros l r1 r2 Hl. apply Hl.
    + exfalso. apply Hnow. unfold next, dg_state, get, mbind, M_bind, mret, M_ret. cbn. by rewrite Hp'.
Qed.
End theorems.

(** ** The driver *)

(** A transport's polls return. *)
Class SendDatagramLaws (S : Type) `{SendDatagram S} : Prop :=
  poll_send_sound : forall p s, sound (snd (poll_send_datagram p s)).
Class RecvDatagramLaws (R : Type) `{RecvDatagram R} : Prop :=
  poll_recv_sound : forall r, sound (snd (poll_recv_datagram r)).

Section driver_laws.
Context `{HttpDatagramLaws} {S R : Type} `{SendDatagramLaws S} `{RecvDatagramLaws R}.

Abbreviation D := (Driver S R).

(** What a step of the driver keeps. *)
Definition driver_keeps (d d' : D) : Prop :=
  registry_inv (d_registry d') /\ (d_self_wakes d <= d_self_wakes d')%nat.

Lemma wake_at_end_spec {E} k (d : D) :
  wp (E := E) (wake_at_end k) (fun o d' => o = Ready tt /\ d_registry d' = d_registry d /\ d_pending d' = d_pending d /\
    (d_self_wakes d <= d_self_wakes d')%nat /\ (k = 0%nat -> (d_self_wakes d < d_self_wakes d')%nat)) d.
Proof. destruct k; cbn [wake_at_end]; wp_step; cbn; split_and!; (done || lia). Qed.

(** Running an operation of the registry inside the driver. *)
Lemma wp_on_registry {E A} (m : M Registry E A) (d : D) Q :
  wp m (fun o r' => Q o (MkDriver (d_sender d) (d_receiver d) (d_pending d) r' (d_self_wakes d))) (d_registry d) -> wp (on_registry m) Q d.
Proof. intros Hm. unfold on_registry. by apply wp_zoom. Qed.

Lemma receive_keeps p r :
  registry_inv r -> wp (receive p) (fun o r' => sound o /\ o ≠ Pending /\ registry_inv r') r.
Proof.
  intros Hi. eapply wp_mono; [by apply receive_spec|]. intros [[]|e| | |] r' (Hids & Hr); try done.
  - split_and!; [done|done|]. destruct Hr as (id & q & _ & [[Hr _]|Hr]); by eapply refines_inv.
  - by destruct Hr as [-> _].
Qed.

Lemma recv_loop_spec n (d : D) :
  registry_inv (d_registry d) -> wp (recv_loop n) (fun o d' => sound o /\ o ≠ Pending /\ driver_keeps d d') d.
Proof.
  revert d. induction n as [|n IH]; intros d Hi; cbn [recv_loop]; [by wp_step|].
  unfold wp at 1. unfold on_receiver, zoom. pose proof (poll_recv_sound (d_receiver d)) as Hs.
  destruct (poll_recv_datagram (d_receiver d)) as [rc [[p|]|e| | |]]; cbn in Hs; try done.
  set (d1 := MkDriver _ _ _ _ _).
  change (wp (map_err DMalformed (on_registry (receive p)) ≫= fun _ => wake_at_end n ≫= fun _ => recv_loop n)
    (fun o d' => sound o /\ o ≠ Pending /\ driver_keeps d d') d1).
  wp_step. wp_step. apply wp_on_registry. eapply wp_mono; [by apply receive_keeps|].
  intros [[]|e| | |] r' (Hso & Hpend & Hi'); try done. cbv beta iota. wp_step.
  eapply wp_mono; [apply wake_at_end_spec|]. intros o d2 (-> & Hreg & _ & Hle & _). cbv beta iota.
  eapply wp_mono; [apply IH; by rewrite Hreg|]. intros o d3 (? & ? & ? & Hle3). split_and!; [done|done|]. split; [done|]. cbn in Hle. lia.
Qed.

(** Why the sending loop may end: its budget ran out and it woke itself, the
    transport is not ready for the packet at hand, or there is no packet. *)
Definition send_rest (w : nat) (d : D) : Prop :=
  (w < d_self_wakes d)%nat \/ is_Some (d_pending d) \/ (d_pending d = None /\ ready_ids (r_state (d_registry d)) = []).

Lemma send_loop_spec n (d : D) :
  (0 < n)%nat -> registry_inv (d_registry d) ->
  wp (send_loop n) (fun o d' => sound o /\ o ≠ Pending /\ driver_keeps d d' /\
    (o = Ready tt -> send_rest (d_self_wakes d) d')) d.
Proof.
  revert d. induction n as [|n IH]; intros d Hn Hi; [lia|]. cbn [send_loop]. repeat wp_step.
  match goal with |- wp ?m _ _ => assert (Hm : wp m (fun o d' => o = Ready tt /\ registry_inv (d_registry d') /\ d_self_wakes d' = d_self_wakes d /\
    (d_pending d' = None -> ready_ids (r_state (d_registry d')) = [])) d) end.
  { destruct (d_pending d) eqn:Ep; [wp_step; by rewrite Ep|]. wp_step. apply wp_on_registry.
    eapply wp_mono; [by apply next_spec|]. intros [[[id p]|]| | | |] r' (Hids & Hr); try done; wp_step; cbn.
    - split_and!; try done. by eapply refines_inv.
    - by destruct Hr as [? ->]. }
  eapply wp_mono; [exact Hm|]. clear Hm. intros o d1 (-> & Hi1 & Hw1 & Hnone). repeat wp_step.
  destruct (d_pending d1) as [[id p]|] eqn:Ep.
  2:{ wp_step. split_and!; [done|done|split; [done|lia]|]. intros _. right. right. auto. }
  assert (Hgo : forall d2, d_registry d2 = d_registry d1 -> d_self_wakes d2 = d_self_wakes d ->
    wp (modify (set_pending None) ≫= fun _ => wake_at_end n ≫= fun _ => send_loop n)
      (fun o d' => sound o /\ o ≠ Pending /\ driver_keeps d d' /\ (o = Ready tt -> send_rest (d_self_wakes d) d')) d2).
  { intros d2 Hreg2 Hw2. wp_step. wp_step. wp_step. eapply wp_mono; [apply wake_at_end_spec|].
    intros o d3 (-> & Hreg3 & _ & Hle & Hlast). cbn in Hreg3, Hle, Hlast. cbv beta iota.
    destruct n as [|n].
    - cbn [send_loop]. wp_step. unfold driver_keeps. rewrite Hreg3, Hreg2. split_and!; [done|done|done|lia|]. intros _. left. specialize (Hlast eq_refl). lia.
    - eapply wp_mono; [apply IH; [lia|by rewrite Hreg3, Hreg2]|]. intros o d4 (? & ? & [? ?] & Hrest).
      split_and!; [done|done|split; [done|lia]|]. intros Ho. destruct (Hrest Ho) as [?|?]; [left; lia|by right]. }
  destruct (negb (pending_open id (r_state (d_registry d1)))); [by apply Hgo|].
  unfold wp at 1. unfold on_sender, zoom. pose proof (poll_send_sound p (d_sender d1)) as Hs.
  assert (Hsame : driver_keeps d (MkDriver (d_sender d1) (d_receiver d1) (d_pending d1) (d_registry d1) (d_self_wakes d1))) by (split; cbn; [done|lia]).
  destruct (poll_send_datagram p (d_sender d1)) as [sd [[]|[| |e]| | |]]; cbn in Hs; try done.
  - by apply (Hgo (MkDriver sd (d_receiver d1) (d_pending d1) (d_registry d1) (d_self_wakes d1))).
  - by apply (Hgo (MkDriver sd (d_receiver d1) (d_pending d1) (d_registry d1) (d_self_wakes d1))).
  - by apply (Hgo (MkDriver sd (d_receiver d1) (d_pending d1) (d_registry d1) (d_self_wakes d1))).
  - split_and!; [done|done|done|]. intros _. right. left. cbn. rewrite Ep. eauto.
Qed.

(** Every poll of the datagram driver ends: after at most 32 packets in each
    direction it is done, failed or waits, it never panics, and the registry's
    invariant holds. When it waits it does so rightly: its task has woken
    itself, or the transport is not ready for the packet at hand, or no session
    has a packet to send. *)
Theorem driver_poll_ends (d d' : D) o :
  dg_reachable (d_registry d) -> driver_poll d = (d', o) ->
  o ≠ Panicked /\ o ≠ NoFuel /\ registry_inv (d_registry d') /\ (o = Pending -> send_rest (d_self_wakes d) d').
Proof.
  intros Hi%dg_reachable_inv He.
  assert (Hwp : wp driver_poll (fun o d' => sound o /\ driver_keeps d d' /\ (o = Pending -> send_rest (d_self_wakes d) d')) d).
  { unfold driver_poll. wp_step. unfold update_limit. repeat wp_step. apply wp_on_registry.
    eapply wp_mono; [apply take_limit_spec|]. intros o1 r1 (-> & Hids & Hr). cbv beta iota.
    set (d1 := MkDriver _ _ _ _ _). assert (Hi1 : registry_inv (d_registry d1)) by (by eapply refines_inv).
    wp_step. eapply wp_mono; [by apply recv_loop_spec|]. intros o2 d2 (Hs2 & Hp2 & Hi2 & Hle2). cbn in Hle2.
    destruct o2 as [closed|e| | |]; try done.
    destruct closed; [wp_step; split_and!; [done|split; [done|lia]|done]|]. wp_step.
    eapply wp_mono; [apply (send_loop_spec 32); [lia|done]|]. intros o3 d3 (Hs3 & Hp3 & [Hi3 Hle3] & Hrest).
    destruct o3 as [[]|e| | |]; try done; try (split_and!; [done|split; [done|lia]|done]).
    wp_step. split_and!; [done|split; [done|lia]|]. intros _. destruct (Hrest eq_refl) as [?|?]; [left; lia|by right]. }
  destruct (wp_elim _ _ _ _ _ Hwp He) as (Hs & [Hi' _] & Hrest). split_and!; [by intros ->|by intros ->|done|done].
Qed.
End driver_laws.

(** ** Witnesses *)

Module ConcreteDatagram.

(** The format as RFC 9297 gives it: the Quarter Stream ID, then the payload. *)
#[export] Instance rfc_datagram : HttpDatagram := {
  datagram_decode b := match varint b with
    | Some (q, n) => Ok (q * 4, zdrop n b)
    | None => Err "malformed"%string
    end;
  datagram_encode id p := match put_varint (id / 4) with Some q => q ++ p | None => p end;
}.

#[export] Instance rfc_datagram_laws : HttpDatagramLaws.
Proof.
  split; intros id p [Hid Hmod]; cbn.
  - assert (Hq : 0 <= id / 4 < Z.shiftl 1 62) by (split; [apply Z.div_pos; lia|apply Z.div_lt_upper_bound; [lia|]; rewrite Z.shiftl_1_l; lia]).
    unfold put_varint, prefix_size. rewrite (proj2 (Z.ltb_lt _ _)) by lia.
    destruct (id / 4 <? 0x40) eqn:E0, (id / 4 <=? 63) eqn:F0; zbool; try lia; [by rewrite len_app, len_be_bytes|].
    destruct (id / 4 <? 0x4000) eqn:E1, (id / 4 <=? 16383) eqn:F1; zbool; try lia; [by rewrite len_app, len_be_bytes|].
    destruct (id / 4 <? 0x40000000) eqn:E2, (id / 4 <=? 1073741823) eqn:F2; zbool; try lia; by rewrite len_app, len_be_bytes.
  - destruct (put_varint_enc (id / 4)) as (k & Hk & ->); [split; [apply Z.div_pos; lia|apply Z.div_lt_upper_bound; lia]|].
    rewrite varint_enc_read by done. rewrite zdrop_len_app. do 2 f_equal. pose proof (Z.div_mod id 4). lia.
Qed.

(** The guards as a test, to run a list of operations. *)
Definition guardb (o : dg_op) (r : Registry) : bool :=
  match o with
  | OpRegister id _ _ =>
      forallb (fun x => negb (x.2 =? id)) (map_to_list (ids r)) && (0 <=? id) && (id <? 2 ^ 62) && (id mod 4 =? 0)
  | OpNegotiated _ => negb (s_negotiated (r_state r))
  | OpSend h _ | OpRecv h | OpAttach h _ | OpCloseSend h | OpCloseRecv h | OpAbort h _ | OpRequestClose h =>
      match ids r !! h with Some _ => true | None => false end
  | _ => true
  end.

Lemma guardb_sound o r : guardb o r = true -> dg_guard o r.
Proof.
  destruct o; cbn [guardb dg_guard]; try done; try (destruct (ids r !! _); [by eauto|done]).
  - intros Hb. zbool. split; [|by split]. intros h Hh. rewrite forallb_forall in *.
    match goal with Hf : forall x, _ -> _ |- _ => specialize (Hf (h, id)); cbn in Hf end.
    assert (negb (id =? id) = true) as Hn by (apply H; by apply list_elem_of_In, elem_of_map_to_list).
    by rewrite Z.eqb_refl in Hn.
  - intros Hb. by zbool.
Qed.

Fixpoint run_ops (os : list dg_op) (r : Registry) : option (list (dg_op * outcome Error dg_out) * Registry) :=
  match os with
  | [] => Some ([], r)
  | o :: os =>
      if guardb o r then
        let '(r1, out) := dg_exec o r in
        '(tr, r2) ← run_ops os r1; Some ((o, out) :: tr, r2)
      else None
  end.

Lemma run_ops_run os r tr r' : run_ops os r = Some (tr, r') -> dg_run r tr r'.
Proof.
  revert r tr. induction os as [|o os IH]; cbn [run_ops]; intros r tr Hrun; [injection Hrun as <- <-; constructor|].
  destruct (guardb o r) eqn:Hg; [|done]. destruct (dg_exec o r) as [r1 out] eqn:He.
  destruct (run_ops os r1) as [[tr1 r2]|] eqn:Hr; [|done]. cbn in Hrun. injection Hrun as <- <-.
  econstructor; [by apply guardb_sound|exact He|by apply IH].
Qed.

(** Two sessions, one of them with two packets waiting. *)
Definition setup : list dg_op :=
  [OpRegister 0 true false; OpNegotiated true; OpRegister 4 true false;
   OpSend 1 (bs "other"); OpSend 0 (bs "a"); OpSend 0 (bs "b"); OpSend 1 (bs "more"); OpReceive (0 :: bs "x")].
Definition later : list dg_op := [OpSend 0 (bs "c"); OpNext; OpRecv 1; OpNext; OpNext; OpReceive (0 :: bs "y"); OpRecv 0; OpReceive (bs "x")].

Definition start : Registry := default (registry_new None) (snd <$> run_ops setup (registry_new (Some 1200))).
Definition later_trace := default [] (fst <$> run_ops later start).
Definition finish : Registry := default (registry_new None) (snd <$> run_ops later start).

Lemma start_reachable : dg_reachable start.
Proof.
  exists (Some 1200), (default [] (fst <$> run_ops setup (registry_new (Some 1200)))). apply (run_ops_run setup).
  vm_compute. reflexivity.
Qed.

Lemma later_run : dg_run start later_trace finish.
Proof. apply (run_ops_run later). vm_compute. reflexivity. Qed.

Lemma datagram_fifo_witness :
  transmitted 0 later_trace = [0 :: bs "a"] /\ arrived 0 start later_trace = [bs "y"] /\ given_to 0 later_trace = [bs "x"] /\
  out_queue 0 (r_state start) ++ admitted 0 0 later_trace = transmitted 0 later_trace ++ out_queue 0 (r_state finish) /\
  in_queue 0 (r_state start) ++ arrived 0 start later_trace = given_to 0 later_trace ++ in_queue 0 (r_state finish).
Proof.
  split; [vm_compute; reflexivity|]. split; [vm_compute; reflexivity|]. split; [vm_compute; reflexivity|].
  destruct (datagram_fifo start later_trace finish 0 0) as [Ho Hi]; [exact start_reachable|vm_compute; reflexivity|exact later_run|].
  split; [apply Ho; vm_compute; reflexivity|apply Hi; vm_compute; reflexivity].
Defined.

Lemma round_robin_serves_witness : (OpNext, Ready (OutPacket (Some (0, 0 :: bs "a")))) ∈ later_trace.
Proof.
  apply (round_robin_serves start later_trace finish 0 0 (0 :: bs "a") 1);
    [exact start_reachable|vm_compute; reflexivity| |exact later_run|vm_compute; reflexivity|vm_compute; lia].
  split; [vm_compute; reflexivity|]. eexists. vm_compute. reflexivity.
Defined.

Lemma registry_budgets_witness :
  exists r res, dg_exec (OpSend 0 (bs "d")) start = (r, res) /\ res ≠ Panicked /\ len (out_queue 0 (r_state r)) = 3.
Proof.
  destruct (dg_exec (OpSend 0 (bs "d")) start) as [r res] eqn:E.
  pose proof (registry_budgets start (OpSend 0 (bs "d")) r res start_reachable ltac:(vm_compute; eauto) E) as (Hp & _ & _).
  exists r, res. split; [reflexivity|]. split; [exact Hp|].
  etransitivity; [symmetry; exact (f_equal (fun x => len (out_queue 0 (r_state (fst x)))) E)|vm_compute; reflexivity].
Defined.

(** A session filled to its 64 packets: its sender is parked, and woken by the
    first packet that leaves. *)
Definition full_start : Registry :=
  default (registry_new None) (snd <$> run_ops ([OpRegister 0 true false; OpNegotiated true] ++ replicate 64 (OpSend 0 [])) (registry_new (Some 1200))).
Definition full_trace := default [] (fst <$> run_ops [OpNext] full_start).
Definition full_finish : Registry := default (registry_new None) (snd <$> run_ops [OpNext] full_start).

Lemma full_start_reachable : dg_reachable full_start.
Proof.
  eexists (Some 1200), _. eapply (run_ops_run ([OpRegister 0 true false; OpNegotiated true] ++ replicate 64 (OpSend 0 []))).
  vm_compute. reflexivity.
Qed.

Lemma full_run : dg_run full_start full_trace full_finish.
Proof. apply (run_ops_run [OpNext]). vm_compute. reflexivity. Qed.

Lemma no_lost_wakeups_witness : exists g, (g < r_capacity full_finish)%nat.
Proof.
  destruct (no_lost_wakeups full_start full_trace full_finish full_start_reachable full_run) as (Hsend & _ & _).
  destruct (Hsend (ASend (bs "x")) (dg_sender_new 0) (MkDgSender 0 (Some (r_capacity full_start))) full_start full_start_reachable) as (g & _ & Hg).
  - vm_compute. eauto.
  - vm_compute. reflexivity.
  - vm_compute. discriminate.
  - exists g. exact Hg.
Defined.

(** A transport that keeps what it is given and delivers a list of packets. *)
#[export] Instance list_send : SendDatagram (list bytes) := {
  max_datagram_size _ := Some 1200;
  poll_send_datagram p s := (s ++ [p], Ready tt);
}.
#[export] Instance list_recv : RecvDatagram (list bytes) := fun r =>
  match r with p :: r => (r, Ready (Some p)) | [] => ([], Pending) end.
#[export] Instance list_send_laws : SendDatagramLaws (list bytes).
Proof. done. Qed.
#[export] Instance list_recv_laws : RecvDatagramLaws (list bytes).
Proof. by intros [|p r]. Qed.

Lemma driver_poll_ends_witness :
  let d := MkDriver (S := list bytes) (R := list bytes) [] [0 :: bs "hi"] None start 0 in
  exists d', driver_poll d = (d', Pending) /\ len (d_sender d') = 4 /\ send_rest 0 d'.
Proof.
  cbv zeta. set (d := MkDriver _ _ _ _ _). destruct (driver_poll d) as [d' o] eqn:E.
  assert (o = Pending) as -> by (etransitivity; [symmetry; exact (f_equal snd E)|vm_compute; reflexivity]).
  pose proof (driver_poll_ends d d' Pending start_reachable E) as (_ & _ & _ & Hrest).
  exists d'. split; [reflexivity|]. split; [|exact (Hrest eq_refl)].
  etransitivity; [symmetry; exact (f_equal (fun x => len (d_sender (fst x))) E)|vm_compute; reflexivity].
Defined.
End ConcreteDatagram.
