(* ===== verification/MasqueTunnel.v ===== *)
(** * MasqueTunnel

    [proxy/masque/tunnel.rs]: UDP payloads over a CONNECT-UDP request stream,
    as HTTP Datagrams of [Datagram] or as capsules of [Capsule]; and the reset
    of an HTTP/2 request stream ([StreamReset] of [proto/http2/upgrade.rs]).

    Both halves share the request stream, the datagram registry and the reset,
    so a tunnel is one state that the operations of either half act on. The
    wakers are left out: a poll that is not done is [Pending]. *)

From stdpp Require Import prelude strings gmap.
From Stdlib Require Import ZArith Lia.
From S2P Require Import Prelude Bytes Errors Transport Wire Capsule Datagram.
Local Open Scope Z_scope.

Definition WRITE_LIMIT : Z := 64 * 1024.
Definition READ_CHUNK : Z := 8 * 1024.

(** [enum SendError] of [proxy/masque.rs]. *)
Inductive SendError : Type := SeFull | SeTooLarge | SeClosed.

(** [enum RecvError]. *)
Inductive RecvError : Type := RecvMalformed | RecvIo (kind : ErrorKind) (message : string).

(** ** Resetting an HTTP/2 stream *)

(** [http2::Reason], the two reasons used here. *)
Inductive Reason : Type := PROTOCOL_ERROR | CANCEL.

(** [struct ResetSlot]: the reason of the first request, if any ([requested] and
    the taken [reset] sender), and [stop_recv]. *)
Record ResetSlot : Type := MkResetSlot { sl_requested : option Reason; sl_stop_recv : bool }.

(** [request_reset], [StreamReset::reset] while the stream's IO lives. *)
Definition request_reset (reason : Reason) (s : ResetSlot) : ResetSlot :=
  match sl_requested s with
  | None => MkResetSlot (Some reason) (sl_stop_recv s)
  | Some _ => s
  end.

(** [StreamReset::is_reset]. *)
Definition is_reset (s : ResetSlot) : bool := match sl_requested s with Some _ => true | None => false end.

(** The flag [StreamReset::stop_recv] sets; the read that applies it at once is
    the transport's. *)
Definition stop_recv (s : ResetSlot) : ResetSlot := MkResetSlot (sl_requested s) true.

(** [struct Http2Stream] and who still holds it. *)
Record Http2Stream : Type := MkHttp2Stream { h2_reset : ResetSlot; h2_closed : bool; h2_holders : nat }.

(** ** Halves *)

(** [struct UdpSender] without its wakers and the shared stream. *)
Record UdpSender (V : Type) : Type := MkUdpSender {
  us_native : option DgSender;
  write_buf : V;
  unflushed : bool;
  closing : bool;
  write_closed : bool;
  write_error : option io_error;
}.
Arguments MkUdpSender {V}.
Arguments us_native {V}.
Arguments write_buf {V}.
Arguments unflushed {V}.
Arguments closing {V}.
Arguments write_closed {V}.
Arguments write_error {V}.

(** [struct UdpReceiver] without the shared stream. *)
Record UdpReceiver (V : Type) : Type := MkUdpReceiver {
  ur_native : option nat;
  native_open : bool;
  decoder : CapsuleDecoder;
  read_buf : V;
  ur_error : option RecvError;
  stream_first : bool;
}.
Arguments MkUdpReceiver {V}.
Arguments ur_native {V}.
Arguments native_open {V}.
Arguments decoder {V}.
Arguments read_buf {V}.
Arguments ur_error {V}.
Arguments stream_first {V}.

(** A tunnel: both halves, the request stream, the HTTP/2 reset and the
    registry of the HTTP/3 connection. *)
Record UdpTunnel (T V : Type) : Type := MkUdpTunnel {
  t_sender : UdpSender V;
  t_receiver : UdpReceiver V;
  t_control : T;
  t_http2 : option Http2Stream;
  t_registry : Registry;
}.
Arguments MkUdpTunnel {T V}.
Arguments t_sender {T V}.
Arguments t_receiver {T V}.
Arguments t_control {T V}.
Arguments t_http2 {T V}.
Arguments t_registry {T V}.

(** [udp_payload]. *)
Definition udp_payload (datagram : bytes) : result MasqueError (option bytes) :=
  match varint datagram with
  | None => Ok None
  | Some (context, n) =>
      if negb (context =? 0) then Ok None
      else
        let payload := zdrop n datagram in
        if MAX_UDP_PAYLOAD <? len payload then Err Malformed else Ok (Some payload)
  end.

(** [BytesMut] as a [BufMut]: appending bytes. *)
Class BytesMutPut (V : Type) : Type := bm_put : bytes -> V -> V.

Section tunnel.
Context `{HttpDatagram} {T V : Type} `{Transport T V} `{BytesMutPut V} (io_text : io_error -> string).

Abbreviation Tu := (UdpTunnel T V).

Definition set_sender (s : UdpSender V) (t : Tu) : Tu := MkUdpTunnel s (t_receiver t) (t_control t) (t_http2 t) (t_registry t).
Definition set_receiver (r : UdpReceiver V) (t : Tu) : Tu := MkUdpTunnel (t_sender t) r (t_control t) (t_http2 t) (t_registry t).
Definition set_control (c : T) (t : Tu) : Tu := MkUdpTunnel (t_sender t) (t_receiver t) c (t_http2 t) (t_registry t).
Definition set_http2 (h : option Http2Stream) (t : Tu) : Tu := MkUdpTunnel (t_sender t) (t_receiver t) (t_control t) h (t_registry t).
Definition set_registry (r : Registry) (t : Tu) : Tu := MkUdpTunnel (t_sender t) (t_receiver t) (t_control t) (t_http2 t) r.

Definition set_us_native (n : option DgSender) (s : UdpSender V) := MkUdpSender n (write_buf s) (unflushed s) (closing s) (write_closed s) (write_error s).
Definition set_write_buf (b : V) (s : UdpSender V) := MkUdpSender (us_native s) b (unflushed s) (closing s) (write_closed s) (write_error s).
Definition set_unflushed (b : bool) (s : UdpSender V) := MkUdpSender (us_native s) (write_buf s) b (closing s) (write_closed s) (write_error s).
Definition set_closing (b : bool) (s : UdpSender V) := MkUdpSender (us_native s) (write_buf s) (unflushed s) b (write_closed s) (write_error s).
Definition set_write_closed (b : bool) (s : UdpSender V) := MkUdpSender (us_native s) (write_buf s) (unflushed s) (closing s) b (write_error s).
Definition set_write_error (e : option io_error) (s : UdpSender V) := MkUdpSender (us_native s) (write_buf s) (unflushed s) (closing s) (write_closed s) e.

Definition on_us {E} (f : UdpSender V -> UdpSender V) : M Tu E unit := modify (fun t => set_sender (f (t_sender t)) t).
Definition on_control {E A} (m : M T E A) : M Tu E A := zoom t_control set_control m.
Definition on_reg {E A} (m : M Registry E A) : M Tu E A := zoom t_registry set_registry m.

(** A poll whose "not ready" is looked at: [None]. *)
Definition or_pending {E A} (m : M Tu E A) : M Tu E (option A) := fun t =>
  match m t with
  | (t, Ready a) => (t, Ready (Some a))
  | (t, Pending) => (t, Ready None)
  | (t, Failed e) => (t, Failed e)
  | (t, Panicked) => (t, Panicked)
  | (t, NoFuel) => (t, NoFuel)
  end.

(** [UdpTunnel::new] and [with_reset]; [native] is the session's request, held by
    both halves. *)
Definition tunnel_new (control : T) (native : option nat) (registry : Registry) : Tu :=
  MkUdpTunnel (MkUdpSender (dg_sender_new <$> native) bm_new false false false None)
    (MkUdpReceiver native (match native with Some _ => true | None => false end) capsule_decoder_default bm_new None false)
    control None registry.
Definition with_reset (t : Tu) : Tu := set_http2 (Some (MkHttp2Stream (MkResetSlot None false) false 2)) t.

(** ** [UdpSender] *)

(** [http2_reset]. *)
Definition http2_reset (t : Tu) : bool := match t_http2 t with Some h => is_reset (h2_reset h) | None => false end.

(** [native_limit]. *)
Definition native_limit {E} : M Tu E (option Z) :=
  t ← get;
  match us_native (t_sender t) with
  | None => mret None
  | Some native =>
      max ← on_reg (sender_max_datagram_size native);
      mret ((fun max => Z.min (saturating_sub max 1) MAX_UDP_PAYLOAD) <$> max)
  end.

(** [max_payload_size]. *)
Definition max_payload_size {E} : M Tu E Z :=
  t ← get;
  gone ← (if closing (t_sender t) || http2_reset t then mret true
          else match us_native (t_sender t) with
               | Some native => on_reg (sender_is_closed native)
               | None => mret false
               end);
  if gone : bool then mret 0
  else
    l ← native_limit;
    match l with
    | Some l => mret l
    | None => t ← get; mret (if write_closed (t_sender t) then 0 else MAX_UDP_PAYLOAD)
    end.

(** The loop of [poll_write_buf]: how it ends, or [Pending]. *)
Fixpoint write_loop (fuel : nat) : M Tu io_error unit :=
  match fuel with
  | O => fun t => (t, NoFuel)
  | S k =>
      t ← get;
      if decide (bm_bytes (write_buf (t_sender t)) = []) then
        if negb (unflushed (t_sender t)) then mret tt
        else fun t =>
          match on_control io_flush t with
          | (t, Pending) => (t, Pending)
          | (t, o) => (set_sender (set_unflushed false (t_sender t)) t, o)
          end
      else
        n ← on_control (poll_write (bm_bytes (write_buf (t_sender t))));
        if n =? 0 then fail (IoError WriteZero NoPayload)
        else
          t ← get;
          buf ← expect (bm_advance n (write_buf (t_sender t)));
          on_us (fun s => set_unflushed true (set_write_buf buf s));;
          write_loop k
  end.

(** [BytesMut::clear], as advancing past the contents. *)
Definition clear (b : V) : V := match bm_advance (len (bm_bytes b)) b with Some b => b | None => b end.

(** [poll_write_buf]; a round that goes on writes at least a byte, and the last
    two find the buffer empty and flush. *)
Definition tunnel_write_buf {E} : M Tu E unit :=
  t ← get;
  if write_closed (t_sender t) then mret tt
  else match_ready (write_loop (S (length (bm_bytes (write_buf (t_sender t)))))) mret
         (fun err => on_us (fun s => set_write_buf (clear (write_buf s)) (set_write_closed true (set_write_error (Some err) s)))).

(** [let _ = self.poll_write_buf()]. *)
Definition ignore_pending {E} (m : M Tu E unit) : M Tu E unit := fun t =>
  match m t with (t, Pending) => (t, Ready tt) | r => r end.

(** [try_send]. *)
Definition tunnel_try_send (payload : bytes) : M Tu SendError unit :=
  t ← get;
  if closing (t_sender t) || http2_reset t then fail SeClosed
  else if MAX_UDP_PAYLOAD <? len payload then fail SeTooLarge
  else
    sent ← (match us_native (t_sender t) with
            | None => mret false
            | Some native =>
                match_ready (on_reg (try_send_prefixed native [0] payload)) (fun _ => mret true)
                  (fun e => match e with
                            | SkFull => fail SeFull
                            | SkTooLarge => fail SeTooLarge
                            | SkClosed => fail SeClosed
                            | SkUnavailable => mret false
                            end)
            end);
    if sent : bool then mret tt
    else
      t ← get;
      if write_closed (t_sender t) then fail SeClosed
      else if WRITE_LIMIT <=? len (bm_bytes (write_buf (t_sender t))) then fail SeFull
      else
        capsule ← expect (encode_datagram payload);
        on_us (fun s => set_write_buf (bm_put capsule (write_buf s)) s);;
        ignore_pending tunnel_write_buf;;
        t ← get;
        if write_closed (t_sender t) then fail SeClosed else mret tt.

(** Polling the native sender, which keeps its place in the queue of waiters. *)
Definition native_poll_ready {E} (native : DgSender) : M Tu E (result SendErrorKind unit + bool) := fun t =>
  match sender_poll_ready (native, t_registry t) with
  | ((native, r), o) => (set_registry r (set_sender (set_us_native (Some native) (t_sender t)) t), o)
  end.

(** [poll_send_ready]. *)
Definition poll_send_ready : M Tu SendError unit :=
  t ← get;
  if closing (t_sender t) || http2_reset t then fail SeClosed
  else
    let by_capsules : M Tu SendError unit :=
      ignore_pending tunnel_write_buf;;
      t ← get;
      if write_closed (t_sender t) then fail SeClosed
      else if len (bm_bytes (write_buf (t_sender t))) <? WRITE_LIMIT then mret tt
      else pend in
    match us_native (t_sender t) with
    | None => by_capsules
    | Some native =>
        res ← native_poll_ready native;
        match res with
        | inr _ => pend
        | inl (Ok _) =>
            max ← on_reg (sender_max_datagram_size native);
            if decide (max = Some 0) then fail SeTooLarge else mret tt
        | inl (Err SkUnavailable) => by_capsules
        | inl (Err SkTooLarge) => fail SeTooLarge
        | inl (Err _) => fail SeClosed
        end
    end.

(** [self.write_error.take().map_or(Ok(()), Err)]. *)
Definition take_write_error : M Tu io_error unit :=
  t ← get;
  on_us (set_write_error None);;
  match write_error (t_sender t) with Some err => fail err | None => mret tt end.

(** [poll_flush]. *)
Definition tunnel_poll_flush : M Tu io_error unit := tunnel_write_buf;; take_write_error.

(** [poll_close]. *)
Definition poll_close : M Tu io_error unit :=
  on_us (set_closing true);;
  tunnel_write_buf;;
  t ← get;
  (if write_closed (t_sender t) then mret tt
   else match_ready (on_control io_shutdown)
          (fun _ => on_us (fun s => set_write_error None (set_write_closed true s)))
          (fun err => on_us (fun s => set_write_error (Some err) (set_write_closed true s))));;
  take_write_error.

(** ** [UdpReceiver] *)

Definition on_ur {E} (f : UdpReceiver V -> UdpReceiver V) : M Tu E unit := modify (fun t => set_receiver (f (t_receiver t)) t).
Definition set_native_open (b : bool) (r : UdpReceiver V) := MkUdpReceiver (ur_native r) b (decoder r) (read_buf r) (ur_error r) (stream_first r).
Definition set_decoder (d : CapsuleDecoder) (b : V) (r : UdpReceiver V) := MkUdpReceiver (ur_native r) (native_open r) d b (ur_error r) (stream_first r).
Definition set_ur_error (e : option RecvError) (r : UdpReceiver V) := MkUdpReceiver (ur_native r) (native_open r) (decoder r) (read_buf r) e (stream_first r).
Definition set_stream_first (b : bool) (r : UdpReceiver V) := MkUdpReceiver (ur_native r) (native_open r) (decoder r) (read_buf r) (ur_error r) b.

(** [self.decoder.decode(&mut self.read_buf)]. *)
Definition tunnel_decode : M Tu MasqueError (option bytes) :=
  zoom (fun t => (decoder (t_receiver t), read_buf (t_receiver t)))
    (fun db t => set_receiver (set_decoder db.1 db.2 (t_receiver t)) t) capsule_decode.

(** [reserve(READ_CHUNK)] and [poll_read_buf]. *)
Definition read_stream : M Tu io_error Z :=
  on_ur (fun r => set_decoder (decoder r) (bm_reserve READ_CHUNK (read_buf r)) r);;
  zoom (fun t => (t_control t, read_buf (t_receiver t)))
    (fun cb t => set_control cb.1 (set_receiver (set_decoder (decoder (t_receiver t)) cb.2 (t_receiver t)) t)) poll_read_buf.

(** The datagrams of one round: [Some r] ends the round with [r], [None] goes on
    to the request stream. *)
Definition native_round (stream_first : bool) : M Tu MasqueError (option (option bytes)) :=
  t ← get;
  match ur_native (t_receiver t) with
  | Some native =>
      if stream_first || negb (native_open (t_receiver t)) then mret None
      else
        polled ← or_pending (on_reg (receiver_poll_recv native));
        match polled with
        | Some (Some datagram) => p ← lift_result (udp_payload datagram); mret (Some p)
        | Some None => on_ur (set_native_open false);; mret None
        | None => mret None
        end
  | None => mret None
  end.

(** The rounds of [poll_payload]. *)
Fixpoint payload_loop (n : nat) (stream_first : bool) : M Tu MasqueError (option bytes) :=
  match n with
  | O => pend
  | S k =>
      native ← native_round stream_first;
      match native with
      | Some (Some payload) => mret (Some payload)
      | Some None => payload_loop k stream_first
      | None =>
          datagram ← tunnel_decode;
          match datagram with
          | Some datagram =>
              p ← lift_result (udp_payload datagram);
              match p with
              | Some payload => mret (Some payload)
              | None => payload_loop k stream_first
              end
          | None =>
              read ← or_pending (map_err MIo read_stream);
              match read with
              | None => if stream_first then payload_loop k false else pend
              | Some n => if n =? 0 then mret None else payload_loop k stream_first
              end
          end
      end
  end.

(** [poll_payload]. *)
Definition poll_payload : M Tu MasqueError (option bytes) :=
  t ← get;
  on_ur (fun r => set_stream_first (negb (stream_first r)) r);;
  payload_loop 32 (stream_first (t_receiver t)).

(** [From<RecvError> for MasqueError]. *)
Definition masque_error_from (e : RecvError) : MasqueError :=
  match e with RecvMalformed => Malformed | RecvIo kind message => MIo (IoError kind (Msg message)) end.

(** What a failed receive does before it is reported. *)
Definition recv_failed (truncated : bool) (err : MasqueError) : M Tu MasqueError unit :=
  let failed := match err with MIo e => RecvIo (io_kind e) (io_text e) | _ => RecvMalformed end in
  (match failed with
   | RecvMalformed =>
       t ← get;
       (match ur_native (t_receiver t) with
        | Some native => on_reg (if truncated then abort_malformed_message native else abort_malformed native)
        | None => mret tt
        end);;
       modify (fun t => set_http2 ((fun h => MkHttp2Stream (request_reset PROTOCOL_ERROR (h2_reset h)) (h2_closed h) (h2_holders h)) <$> t_http2 t) t)
   | RecvIo _ _ => mret tt
   end);;
  on_ur (set_ur_error (Some failed)).

(** [poll_recv]. *)
Definition poll_recv : M Tu MasqueError (option bytes) :=
  t ← get;
  match ur_error (t_receiver t) with
  | Some err => fail (masque_error_from err)
  | None =>
      match_ready poll_payload
        (fun payload =>
           t ← get;
           match payload with
           | None =>
               if is_partial (decoder (t_receiver t)) (read_buf (t_receiver t))
               then recv_failed true Malformed;; fail Malformed
               else mret None
           | Some p => mret (Some p)
           end)
        (fun err => recv_failed false err;; fail err)
  end.

(** [UdpTunnel::poll_recv], which also writes buffered capsules. *)
Definition tunnel_poll_recv : M Tu MasqueError (option bytes) := ignore_pending tunnel_write_buf;; poll_recv.

(** ** Drops *)

(** A half lets go of the HTTP/2 stream; the last one resets it unless the
    sender's writes had ended ([Drop for Http2Stream]). *)
Definition release_http2 (h : Http2Stream) : Http2Stream :=
  match h2_holders h with
  | S (S n) => MkHttp2Stream (h2_reset h) (h2_closed h) (S n)
  | _ => MkHttp2Stream (if h2_closed h then h2_reset h else request_reset CANCEL (h2_reset h)) (h2_closed h) 0
  end.

(** [Drop for UdpSender] and then its fields. *)
Definition sender_drop {E} : M Tu E unit :=
  modify (fun t => set_http2 ((fun h => release_http2
    (if write_closed (t_sender t) then MkHttp2Stream (h2_reset h) true (h2_holders h) else h)) <$> t_http2 t) t).

(** [Drop for UdpReceiver] and then its fields, the native receiver last. *)
Definition udp_receiver_drop {E} : M Tu E unit :=
  modify (fun t => set_http2 ((fun h => release_http2
    (MkHttp2Stream (stop_recv (h2_reset h)) (h2_closed h) (h2_holders h))) <$> t_http2 t) t);;
  t ← get;
  match ur_native (t_receiver t) with Some native => on_reg (receiver_drop native) | None => mret tt end.
End tunnel.
