(* ===== verification/MasqueLaws.v ===== *)
(** * MasqueLaws

    The tunnel's halves over the request stream: what a sender accepts is on
    the stream, in capsules and in order, and a receiver gives out the UDP
    payloads of the capsule stream, however the stream is cut into reads. *)

From stdpp Require Import prelude strings gmap.
From Stdlib Require Import ZArith Lia.
From S2P Require Import Prelude Bytes Errors Transport Wire Capsule Datagram MasqueTunnel.
Local Open Scope Z_scope.

Class BytesMutPutLaws (V : Type) `{BytesMut V} `{BytesMutPut V} : Prop :=
  bm_bytes_put : forall b v, bm_bytes (bm_put b v) = bm_bytes v ++ b.

(** ** The payloads of a capsule stream *)

(** The UDP payloads among the values of DATAGRAM capsules, up to the first
    that is too large; [ok] is whether the values end without an error. *)
Fixpoint udp_payloads (vs : list bytes) (ok : bool) : list bytes * bool :=
  match vs with
  | [] => ([], ok)
  | v :: vs =>
      match udp_payload v with
      | Ok (Some p) => (p :: (udp_payloads vs ok).1, (udp_payloads vs ok).2)
      | Ok None => udp_payloads vs ok
      | Err _ => ([], false)
      end
  end.

Definition udp_stream (cs : list capsule) : list bytes * bool := udp_payloads (stream_values cs).1 (stream_values cs).2.

Lemma udp_payload_error v e : udp_payload v = Err e -> e = Malformed.
Proof. unfold udp_payload. intros Hv. repeat case_match; congruence. Qed.

Lemma stream_wire_app a b : stream_wire (a ++ b) = stream_wire a ++ stream_wire b.
Proof. unfold stream_wire. by rewrite map_app, concat_app. Qed.

(** A shorter rest of a stream takes fewer bytes. *)
Lemma stream_wire_suffix a b : a `suffix_of` b -> len (stream_wire a) <= len (stream_wire b) /\ (a ≠ b -> len (stream_wire a) < len (stream_wire b)).
Proof.
  intros [k ->]. rewrite stream_wire_app, len_app. destruct k as [|c k]; [split; [change (len (stream_wire [])) with 0; lia|done]|].
  change (stream_wire (c :: k)) with (cap_wire c ++ stream_wire k). rewrite len_app.
  pose proof (cap_wire_pos c). pose proof (len_nonneg (stream_wire k)). split; [lia|intros _; lia].
Qed.

Section laws.
Context `{HttpDatagram} {T V : Type} `{BytesMutLaws V} `{!Transport T V} `{!TransportLaws T V}
  `{BytesMutPut V} `{!BytesMutPutLaws V} (io_text : io_error -> string).

Abbreviation Tu := (UdpTunnel T V).

(** ** Sending *)

(** The bytes the tunnel has taken for the request stream. *)
Definition stream_out (t : Tu) : bytes := written (t_control t) ++ bm_bytes (write_buf (t_sender t)).

(** What writing leaves alone. *)
Record send_frame (t t' : Tu) : Prop := {
  sf_receiver : t_receiver t' = t_receiver t;
  sf_http2 : t_http2 t' = t_http2 t;
  sf_registry : t_registry t' = t_registry t;
  sf_native : us_native (t_sender t') = us_native (t_sender t);
  sf_closing : closing (t_sender t') = closing (t_sender t);
  sf_incoming : incoming (t_control t') = incoming (t_control t);
  sf_patience : read_patience (t_control t') = read_patience (t_control t);
}.

Lemma send_frame_refl t : send_frame t t.
Proof. by split. Qed.

Lemma send_frame_trans t1 t2 t3 : send_frame t1 t2 -> send_frame t2 t3 -> send_frame t1 t3.
Proof. intros [] []. split; congruence. Qed.

Lemma wp_on_control {E A} (m : M T E A) (t : Tu) Q :
  wp m (fun o c => Q o (set_control c t)) (t_control t) -> wp (on_control m) Q t.
Proof. intros Hm. unfold on_control. by apply wp_zoom. Qed.

Lemma tunnel_write_loop_spec fuel (t : Tu) :
  (length (bm_bytes (write_buf (t_sender t))) < fuel)%nat ->
  wp (write_loop fuel) (fun o t' =>
    sound o /\ send_frame t t' /\ stream_out t' = stream_out t /\
    write_closed (t_sender t') = write_closed (t_sender t) /\ write_error (t_sender t') = write_error (t_sender t) /\
    (o = Ready tt -> bm_bytes (write_buf (t_sender t')) = [])) t.
Proof.
  revert t. induction fuel as [|fuel IH]; intros t Hf; [lia|]. cbn [write_loop]. repeat wp_step.
  case_decide as Hnil.
  - destruct (unflushed (t_sender t)) eqn:Eu; cbn [negb]; [|wp_step; by split_and!; [|apply send_frame_refl|..]].
    unfold wp, on_control, zoom. destruct (io_flush_streams (t_control t)) as (Hin & Hw & Hp).
    pose proof (io_flush_total (t_control t)) as Htot. destruct (io_flush (t_control t)) as [c o]. cbn in Hin, Hw, Hp.
    assert (Ho : sound o) by (destruct o; try done; by destruct (Htot c)).
    destruct o as [[]|e| | |]; try done; (split_and!; [done|by split| |done..]); unfold stream_out; cbn; by rewrite Hw.
  - wp_step. apply wp_on_control. apply wp_intro. intros c o Hpw. cbv beta.
    pose proof (poll_write_total (bm_bytes (write_buf (t_sender t))) (t_control t) c) as Htot.
    pose proof (poll_write_incoming (bm_bytes (write_buf (t_sender t))) (t_control t)) as Hin. rewrite Hpw in Hin. cbn in Hin.
    assert (Hstop : (forall n, o ≠ Ready n) -> send_frame t (set_control c t) /\ stream_out (set_control c t) = stream_out t).
    { intros Hn. pose proof (poll_write_unready _ _ _ _ Hpw Hn) as Hw. split; [by split; destruct Hin|]. unfold stream_out. cbn. by rewrite Hw. }
    destruct o as [n|e| | |]; try (by rewrite Hpw in Htot; destruct Htot); try (destruct Hstop; [done|]; by split_and!).
    destruct (poll_write_ready _ _ _ _ Hpw) as [Hn Hw].
    destruct (n =? 0) eqn:En; zbool.
    { wp_step. subst n. split_and!; try done; [by split; destruct Hin|]. unfold stream_out. cbn. rewrite Hw.
      change (ztake 0 (bm_bytes (write_buf (t_sender t)))) with (@nil Z). by rewrite app_nil_r. }
    destruct (bm_advance_spec n (write_buf (t_sender t)) Hn) as (buf & Hadv & Hbuf). repeat wp_step.
    wp_expect Hadv. unfold on_us. repeat wp_step. set (t1 := set_sender _ _).
    assert (Hf1 : send_frame t t1) by (by split; destruct Hin).
    assert (Hout : stream_out t1 = stream_out t).
    { unfold stream_out, t1. cbn. rewrite Hw, Hbuf, <- app_assoc. by rewrite ztake_zdrop. }
    eapply wp_mono; [apply IH|].
    + unfold t1. cbn. rewrite Hbuf. unfold zdrop. rewrite length_drop. unfold len in Hn. lia.
    + intros o t2 (? & Hf2 & Hout2 & Hc2 & He2 & ?). split_and!; try done; [by eapply send_frame_trans|congruence].
Qed.

Lemma clear_bytes (v : V) : bm_bytes (clear v) = [].
Proof.
  unfold clear. destruct (bm_advance_spec (len (bm_bytes v)) v) as (v' & -> & ->); [pose proof (len_nonneg (bm_bytes v)); lia|].
  by apply zdrop_all.
Qed.

(** Writing out the buffer: all of it is written, or some of it is still
    buffered, or the stream failed and sending is over. *)
Lemma tunnel_write_buf_spec {E} (t : Tu) :
  wp (E := E) tunnel_write_buf (fun o t' =>
    send_frame t t' /\ (o = Ready tt \/ o = Pending) /\
    if write_closed (t_sender t) then t' = t
    else if write_closed (t_sender t') then o = Ready tt /\ is_Some (write_error (t_sender t'))
    else stream_out t' = stream_out t /\ write_error (t_sender t') = write_error (t_sender t) /\
         (o = Ready tt -> bm_bytes (write_buf (t_sender t')) = [])) t.
Proof.
  unfold tunnel_write_buf. repeat wp_step. destruct (write_closed (t_sender t)) eqn:Ec.
  { wp_step. split_and!; [apply send_frame_refl|by left|done]. }
  wp_step. eapply wp_mono; [apply tunnel_write_loop_spec; lia|]. intros o t' (Hs & Hf & Hout & Hc & He & Hr).
  rewrite Ec in Hc. destruct o as [[]|e| | |]; try done.
  - wp_step. rewrite Hc. split_and!; auto.
  - unfold on_us. wp_step. cbn. split_and!; [|by left|done|by eauto].
    eapply send_frame_trans; [exact Hf|]. by split.
  - rewrite Hc. by split_and!; auto.
Qed.

(** A payload the sender accepts for the request stream is on it, as one
    capsule after all that was accepted before. *)
Lemma tunnel_try_send_spec payload (t : Tu) :
  all_u8 payload -> us_native (t_sender t) = None ->
  wp (tunnel_try_send payload) (fun o t' =>
    send_frame t t' /\
    match o with
    | Ready _ => write_closed (t_sender t) = false /\ write_closed (t_sender t') = false /\
        write_error (t_sender t') = write_error (t_sender t) /\ len payload <= MAX_UDP_PAYLOAD /\
        exists c, cap_ok c /\ cap_kind c = DATAGRAM /\ cap_value c = 0 :: payload /\ stream_out t' = stream_out t ++ cap_wire c
    | Failed SeClosed => t' = t \/ write_closed (t_sender t') = true
    | Failed SeFull | Failed SeTooLarge => t' = t
    | _ => False
    end) t.
Proof.
  intros Hu Hn. unfold tunnel_try_send. repeat wp_step.
  destruct (closing (t_sender t) || http2_reset t); [wp_step; split; [apply send_frame_refl|by auto]|].
  destruct (MAX_UDP_PAYLOAD <? len payload) eqn:El; [wp_step; split; [apply send_frame_refl|by auto]|].
  zbool. rewrite Hn. repeat wp_step.
  destruct (write_closed (t_sender t)) eqn:Ec; [wp_step; split; [apply send_frame_refl|by auto]|].
  destruct (WRITE_LIMIT <=? _) eqn:Ew; [wp_step; split; [apply send_frame_refl|by auto]|].
  destruct (encode_datagram_wire payload Hu) as (c & Henc & Hok & Hkind & Hval); [unfold MAX_UDP_PAYLOAD in El; lia|].
  wp_step. wp_expect Henc. unfold on_us. repeat wp_step. set (t1 := set_sender _ t).
  assert (Hout : stream_out t1 = stream_out t ++ cap_wire c) by (unfold stream_out, t1; cbn; rewrite bm_bytes_put; by rewrite app_assoc).
  assert (Hf1 : send_frame t t1) by (by split).
  assert (Hw : wp (E := SendError) (ignore_pending tunnel_write_buf) (fun o t' => o = Ready tt /\ send_frame t1 t' /\
    (write_closed (t_sender t') = false -> stream_out t' = stream_out t1 /\ write_error (t_sender t') = write_error (t_sender t1))) t1).
  { pose proof (tunnel_write_buf_spec (E := SendError) t1) as Hs. unfold wp, ignore_pending in *.
    destruct (tunnel_write_buf t1) as [t2 o]. destruct Hs as (Hf2 & Ho & Hs). change (write_closed (t_sender t1)) with (write_closed (t_sender t)) in Hs.
    rewrite Ec in Hs. destruct Ho as [-> | ->]; (split_and!; [done|done|]); intros Hc; rewrite Hc in Hs; by destruct Hs as (? & ? & _). }
  eapply wp_mono; [exact Hw|]. intros o t2 (-> & Hf2 & Hs). repeat wp_step.
  assert (Hf : send_frame t t2) by (by eapply send_frame_trans).
  destruct (write_closed (t_sender t2)) eqn:Ec2; wp_step; [by split; [|right]|]. destruct (Hs eq_refl) as [Hs1 Hs2].
  split_and!; try done. exists c. split_and!; try done. by rewrite Hs1, Hout.
Qed.

(** ** Receiving *)

(** [t] is in the middle of a stream of which [cs] is still to come, its last
    bytes [missing] never arriving. *)
Record recv_ok (missing : bytes) (cs : list capsule) (t : Tu) : Prop := {
  ro_native : ur_native (t_receiver t) = None;
  ro_caps : Forall cap_ok cs;
  ro_skip : 0 <= skip (decoder (t_receiver t)) <= len (bm_bytes (read_buf (t_receiver t)) ++ incoming (t_control t) ++ missing);
  ro_stream : zdrop (skip (decoder (t_receiver t))) (bm_bytes (read_buf (t_receiver t)) ++ incoming (t_control t) ++ missing) = stream_wire cs;
}.

(** How much reading is left: every poll takes some of it. *)
Definition reading_left (t : Tu) : nat :=
  (2 * length (incoming (t_control t)) + length (bm_bytes (read_buf (t_receiver t))) + read_patience (t_control t))%nat.

(** What receiving leaves alone. *)
Record recv_frame (t t' : Tu) : Prop := {
  rv_sender : t_sender t' = t_sender t;
  rv_http2 : t_http2 t' = t_http2 t;
  rv_registry : t_registry t' = t_registry t;
  rv_written : written (t_control t') = written (t_control t);
  rv_error : ur_error (t_receiver t') = ur_error (t_receiver t);
  rv_native : ur_native (t_receiver t') = ur_native (t_receiver t);
}.

Lemma recv_frame_trans t1 t2 t3 : recv_frame t1 t2 -> recv_frame t2 t3 -> recv_frame t1 t3.
Proof. intros [] []. split; congruence. Qed.

Lemma tunnel_decode_spec missing cs (t : Tu) :
  recv_ok missing cs t ->
  wp tunnel_decode (fun o t' => recv_frame t t' /\ t_control t' = t_control t /\ stream_first (t_receiver t') = stream_first (t_receiver t) /\
    match o with
    | Ready (Some v) => exists cs', cs' `suffix_of` cs /\ recv_ok missing cs' t' /\ (reading_left t' < reading_left t)%nat /\
        udp_stream cs = udp_payloads (v :: (stream_values cs').1) (stream_values cs').2
    | Ready None => exists cs', cs' `suffix_of` cs /\ recv_ok missing cs' t' /\ (reading_left t' <= reading_left t)%nat /\
        udp_stream cs = udp_stream cs' /\ (incoming (t_control t) ++ missing = [] -> cs' = []) /\
        (skip (decoder (t_receiver t')) = 0 \/ bm_bytes (read_buf (t_receiver t')) = []) /\
        match cs' with c :: _ => len (bm_bytes (read_buf (t_receiver t'))) < len (cap_wire c) | [] => True end
    | Failed e => e = Malformed /\ udp_stream cs = ([], false)
    | _ => False
    end) t.
Proof.
  intros [Hn Hcaps Hskip Hst]. unfold tunnel_decode. apply wp_zoom. eapply wp_mono; [by apply capsule_decode_spec|].
  intros o [d v] Hpost. cbn [fst snd]. set (t' := set_receiver _ t).
  split_and!; [by split|done|done|]. set (fut := incoming (t_control t) ++ missing) in *.
  assert (Hlen : len (stream_wire cs) <= len (bm_bytes (read_buf (t_receiver t))) + len fut).
  { rewrite <- Hst, len_zdrop, len_app by lia. pose proof (len_nonneg (bm_bytes (read_buf (t_receiver t)))). pose proof (len_nonneg fut). lia. }
  destruct o as [[w|]|e| | |]; cbn [decode_post fst snd] in Hpost; try done.
  - destruct Hpost as (cs' & Hcaps' & Hsuf & Hs0 & Hw & Hv). exists cs'. split_and!; [done| | |].
    + split; try done; cbn; fold fut; rewrite Hs0; [split; [lia|apply len_nonneg]|by rewrite zdrop_0].
    + assert (cs' ≠ cs) as Hne.
      { intros ->. apply (f_equal (fun x => length x.1)) in Hv. cbn [fst length] in Hv. lia. }
      destruct (stream_wire_suffix _ _ Hsuf) as [_ Hlt]. specialize (Hlt Hne). rewrite <- Hw, len_app in Hlt.
      unfold reading_left, len in *. cbn. lia.
    + unfold udp_stream. by rewrite Hv.
  - destruct Hpost as (cs' & Hcaps' & Hsuf & Hs0 & Hw & Hv & Hfut & Hz & Hsh). exists cs'. split_and!; try done.
    + destruct (stream_wire_suffix _ _ Hsuf) as [Hle _]. rewrite <- Hw in Hle. unfold reading_left, len in *. cbn.
      destruct Hz as [Hz|Hz]; [rewrite Hz, zdrop_0, length_app in Hle; lia|rewrite Hz; cbn; lia].
    + unfold udp_stream. by rewrite Hv.
  - destruct Hpost as [-> Hv]. split; [done|]. unfold udp_stream. by rewrite Hv.
Qed.

Lemma read_stream_spec missing cs (t : Tu) :
  recv_ok missing cs t ->
  wp read_stream (fun o t' => recv_frame t t' /\ decoder (t_receiver t') = decoder (t_receiver t) /\
    match o with
    | Ready n => recv_ok missing cs t' /\
        (n = 0 -> incoming (t_control t) = [] /\ incoming (t_control t') = [] /\ bm_bytes (read_buf (t_receiver t')) = bm_bytes (read_buf (t_receiver t))) /\
        (n ≠ 0 -> (reading_left t' < reading_left t)%nat)
    | Pending => recv_ok missing cs t' /\ (reading_left t' < reading_left t)%nat
    | Failed _ => True
    | _ => False
    end) t.
Proof.
  intros [Hn Hcaps Hskip Hst]. unfold read_stream, on_ur. repeat wp_step. set (t1 := set_receiver _ t).
  assert (Hb1 : bm_bytes (read_buf (t_receiver t1)) = bm_bytes (read_buf (t_receiver t))) by (cbn; by rewrite bm_bytes_reserve).
  apply wp_zoom. apply wp_intro. intros [c v] o Hr. cbn [fst snd].
  pose proof (poll_read_buf_total (t_control t1) (read_buf (t_receiver t1)) (c, v)) as Htot. rewrite Hr in Htot.
  destruct o as [n|e| | |]; try (by destruct Htot).
  - destruct (poll_read_buf_ready _ _ _ _ _ Hr) as (b & -> & Hv & Hin & Hnil & Hw & Hp).
    rewrite Hb1 in Hv. cbn in Hin, Hw, Hp.
    split_and!; [by split|done|split; cbn; rewrite ?Hv, <- ?app_assoc, ?(app_assoc b), <- ?Hin; done| |].
    + intros Hb0. apply len_zero in Hb0. subst b. specialize (Hnil eq_refl). cbn in Hnil. rewrite Hnil in Hin. cbn in *. by rewrite Hv, app_nil_r, <- Hin.
    + intros Hb0. unfold reading_left. cbn. rewrite Hv, Hin, !length_app. unfold len in Hb0. lia.
  - destruct (poll_read_buf_failed _ _ _ _ _ Hr) as (_ & _ & Hw). by split_and!; [split|..].
  - destruct (poll_read_buf_pending _ _ _ _ Hr) as (Hv & Hin & Hw & Hp). rewrite Hb1 in Hv. cbn in Hin, Hw, Hp.
    split_and!; [by split|done|split; cbn; rewrite ?Hv, ?Hin; done|].
    unfold reading_left. cbn. rewrite Hv, Hin. lia.
Qed.

(** The end of the stream as a poll sees it: all of it was read and the rest of
    the capsules, if any, did not arrive. *)
Definition at_end (missing : bytes) (cs : list capsule) (t : Tu) : Prop :=
  incoming (t_control t) = [] /\ (missing = [] -> cs = []) /\
  (skip (decoder (t_receiver t)) = 0 \/ bm_bytes (read_buf (t_receiver t)) = []) /\
  match cs with c :: _ => len (bm_bytes (read_buf (t_receiver t))) < len (cap_wire c) | [] => True end.

(** One call of [poll_payload] on a stream. *)
Definition payload_post (missing : bytes) (cs : list capsule) (n : nat) (t : Tu) (o : outcome MasqueError (option bytes)) (t' : Tu) : Prop :=
  recv_frame t t' /\
  match o with
  | Ready (Some p) => exists cs', cs' `suffix_of` cs /\ recv_ok missing cs' t' /\ (reading_left t' < reading_left t)%nat /\
      udp_stream cs = (p :: (udp_stream cs').1, (udp_stream cs').2)
  | Ready None => exists cs', cs' `suffix_of` cs /\ recv_ok missing cs' t' /\ udp_stream cs = udp_stream cs' /\ at_end missing cs' t'
  | Failed e => e = Malformed /\ udp_stream cs = ([], false) \/ exists io, e = MIo io
  | Pending => exists cs', cs' `suffix_of` cs /\ recv_ok missing cs' t' /\ udp_stream cs = udp_stream cs' /\
      (reading_left t' <= reading_left t)%nat /\ ((0 < n)%nat -> (reading_left t' < reading_left t)%nat)
  | _ => False
  end.

Lemma payload_post_step missing cs cs1 n m t t1 o t' :
  cs1 `suffix_of` cs -> udp_stream cs = udp_stream cs1 -> recv_frame t t1 -> (reading_left t1 < reading_left t)%nat ->
  payload_post missing cs1 n t1 o t' -> payload_post missing cs m t o t'.
Proof.
  intros Hsuf Hv Hf Hlt [Hf' Hpost]. split; [by eapply recv_frame_trans|]. rewrite Hv. destruct o as [[p|]|e| | |]; try done.
  - destruct Hpost as (cs2 & ? & ? & ? & ?). exists cs2. split_and!; [by etransitivity|done|lia|done].
  - destruct Hpost as (cs2 & ? & ?). exists cs2. split_and!; [by etransitivity|naive_solver..].
  - destruct Hpost as (cs2 & ? & ? & ? & ? & ?). exists cs2. split_and!; [by etransitivity|done|done|lia|lia].
Qed.

Lemma payload_loop_spec missing n sf cs (t : Tu) :
  recv_ok missing cs t -> wp (payload_loop n sf) (payload_post missing cs n t) t.
Proof.
  revert sf cs t. induction n as [|n IH]; intros sf cs t Hok; cbn [payload_loop].
  { wp_step. split; [by split|]. exists cs. split_and!; [done|done|done|lia|lia]. }
  wp_step. unfold native_round. repeat wp_step. rewrite (ro_native _ _ _ Hok). repeat wp_step.
  eapply wp_mono; [by apply tunnel_decode_spec|].
  intros o t1 (Hf1 & Hc1 & Hsf1 & Hpost). destruct o as [[v|]|e| | |]; try done.
  - destruct Hpost as (cs1 & Hsuf & Hok1 & Hlt & Hv). wp_step. cbn [udp_payloads] in Hv.
    destruct (udp_payload v) as [[p|]|e] eqn:Ep; cbn [lift_result]; repeat wp_step.
    + split; [done|]. exists cs1. done.
    + eapply wp_mono; [by apply IH|]. intros o t2. by apply payload_post_step.
    + split; [done|]. left. split; [by eapply udp_payload_error|done].
  - destruct Hpost as (cs1 & Hsuf & Hok1 & Hle & Hv & Hend & Hz & Hsh). wp_step.
    assert (Hread : wp (or_pending (map_err MIo read_stream)) (fun o t2 =>
      match o with
      | Ready (Some m) => recv_frame t1 t2 /\ recv_ok missing cs1 t2 /\ decoder (t_receiver t2) = decoder (t_receiver t1) /\
          (m = 0 -> incoming (t_control t1) = [] /\ incoming (t_control t2) = [] /\ bm_bytes (read_buf (t_receiver t2)) = bm_bytes (read_buf (t_receiver t1))) /\
          (m ≠ 0 -> (reading_left t2 < reading_left t1)%nat)
      | Ready None => recv_frame t1 t2 /\ recv_ok missing cs1 t2 /\ (reading_left t2 < reading_left t1)%nat
      | Failed e => recv_frame t1 t2 /\ exists io, e = MIo io
      | _ => False
      end) t1).
    { pose proof (read_stream_spec missing cs1 t1 Hok1) as Hr. unfold wp, or_pending, map_err, match_ready in *.
      destruct (read_stream t1) as [t2 [m|e| | |]]; destruct Hr as (Hf & Hd & Hr); try done; cbn; naive_solver. }
    eapply wp_mono; [exact Hread|]. intros o t2 Hr. destruct o as [[m|]|e| | |]; try done.
    + destruct Hr as (Hf2 & Hok2 & Hd2 & Hzero & Hmore). destruct (m =? 0) eqn:Em; zbool.
      * wp_step. destruct (Hzero Em) as (Hin1 & Hin2 & Hb2). split; [by eapply recv_frame_trans|]. exists cs1. split_and!; try done.
        unfold at_end. rewrite Hd2, Hb2. split_and!; try done. intros ->. apply Hend. by rewrite <- Hc1, Hin1.
      * eapply wp_mono; [by apply IH|]. intros o t3. apply payload_post_step; [done|done|by eapply recv_frame_trans|specialize (Hmore Em); lia].
    + destruct Hr as (Hf2 & Hok2 & Hlt). destruct sf.
      * eapply wp_mono; [by apply IH|]. intros o t3. apply payload_post_step; [done|done|by eapply recv_frame_trans|lia].
      * wp_step. split; [by eapply recv_frame_trans|]. exists cs1. split_and!; [done|done|done|lia|lia].
    + destruct Hr as [Hf2 Hr]. split; [by eapply recv_frame_trans|]. by right.
  - split; [done|]. by left.
Qed.

Lemma poll_payload_spec missing cs (t : Tu) : recv_ok missing cs t -> wp poll_payload (payload_post missing cs 32 t) t.
Proof.
  intros Hok. unfold poll_payload, on_ur. repeat wp_step. set (t1 := set_receiver _ t).
  eapply wp_mono; [apply (payload_loop_spec missing 32 _ cs t1); by destruct Hok|].
  intros o t2 [[] Hpost]. split; [by split|done].
Qed.

(** ** Receiving to the end *)

(** A task that receives until the tunnel ends. *)
Fixpoint recv_all (fuel : nat) (acc : list bytes) : M Tu MasqueError (list bytes * option MasqueError) := fun t =>
  match fuel with
  | O => (t, NoFuel)
  | S k =>
      match poll_recv io_text t with
      | (t, Ready (Some p)) => recv_all k (acc ++ [p]) t
      | (t, Ready None) => (t, Ready (acc, None))
      | (t, Failed e) => (t, Ready (acc, Some e))
      | (t, Pending) => recv_all k acc t
      | (t, Panicked) => (t, Panicked)
      | (t, NoFuel) => (t, NoFuel)
      end
  end.

Lemma recv_failed_spec truncated err (t : Tu) :
  ur_native (t_receiver t) = None -> wp (recv_failed io_text truncated err) (fun o t' => o = Ready tt) t.
Proof.
  intros Hn. unfold recv_failed, on_ur. wp_step. destruct err; repeat wp_step; rewrite ?Hn; by repeat wp_step.
Qed.

(** One call of [poll_recv] on a stream. *)
Lemma poll_recv_spec missing cs (t : Tu) :
  recv_ok missing cs t -> ur_error (t_receiver t) = None ->
  wp (poll_recv io_text) (fun o t' =>
    match o with
    | Ready (Some p) => ur_error (t_receiver t') = None /\ exists cs', cs' `suffix_of` cs /\ recv_ok missing cs' t' /\
        (reading_left t' < reading_left t)%nat /\ udp_stream cs = (p :: (udp_stream cs').1, (udp_stream cs').2)
    | Pending => ur_error (t_receiver t') = None /\ exists cs', cs' `suffix_of` cs /\ recv_ok missing cs' t' /\
        (reading_left t' < reading_left t)%nat /\ udp_stream cs = udp_stream cs'
    | Ready None => exists cs', cs' `suffix_of` cs /\ udp_stream cs = udp_stream cs' /\ missing = stream_wire cs'
    | Failed e =>
        e = Malformed /\ (udp_stream cs = ([], false) \/
          missing ≠ [] /\ exists cs' t1, cs' `suffix_of` cs /\ udp_stream cs = udp_stream cs' /\ recv_ok missing cs' t1 /\ at_end missing cs' t1)
        \/ exists io, e = MIo io
    | _ => False
    end) t.
Proof.
  intros Hok He. unfold poll_recv. repeat wp_step. rewrite He. wp_step.
  eapply wp_mono; [by apply poll_payload_spec|]. intros o t' [Hf Hpost]. pose proof (rv_error _ _ Hf) as He'. rewrite He in He'.
  destruct o as [[p|]|e| | |]; try done.
  - destruct Hpost as (cs' & Hsuf & Hok' & Hv & Hat). pose proof Hok' as [Hn Hcaps Hskip Hst]. pose proof Hat as (Hin & Hend & Hz & Hsh).
    repeat wp_step. rewrite Hin in Hskip, Hst. cbn [app] in Hskip, Hst. unfold is_partial.
    destruct (_ || _) eqn:Ep; [apply orb_true_iff in Ep|apply orb_false_iff in Ep as [Hs Hb]].
    + wp_step. eapply wp_mono; [by apply recv_failed_spec|]. intros ? t2 ->. wp_step. left. split; [done|]. right.
      split; [|by exists cs', t']. intros ->.
      rewrite app_nil_r in Hskip, Hst. specialize (Hend eq_refl). subst cs'. change (stream_wire []) with (@nil Z) in Hst.
      destruct Ep as [Hs|Hb]; zbool.
      * destruct Hz as [Hz|Hz]; [lia|]. rewrite Hz in Hskip. change (len (@nil Z)) with 0 in Hskip. lia.
      * apply bool_decide_eq_false in Hb. destruct Hz as [Hz|Hz]; [|done]. rewrite Hz, zdrop_0 in Hst. done.
    + wp_step. exists cs'. split_and!; [done|done|]. zbool. apply bool_decide_eq_true in Hb. rewrite Hb in *. cbn [app] in *.
      replace (skip (decoder (t_receiver t'))) with 0 in Hst by lia. done.
  - wp_step. eapply wp_mono; [apply recv_failed_spec; rewrite (rv_native _ _ Hf); apply (ro_native _ _ _ Hok)|].
    intros ? t2 ->. wp_step. naive_solver.
  - destruct Hpost as (cs' & ? & ? & ? & ? & Hlt). split; [done|]. exists cs'. split_and!; [done|done|lia|done].
Qed.
(** [missing] is the part that never arrives of the stream of [cs]: nothing,
    or some of its last capsule, the ones of [pre] being whole. *)
Inductive cut_after (missing : bytes) (pre cs : list capsule) : Prop :=
  | cut_none : missing = [] -> pre = cs -> cut_after missing pre cs
  | cut_in c : missing ≠ [] -> len missing < len (cap_wire c) -> cs = pre ++ [c] -> cut_after missing pre cs.

Lemma udp_payloads_app us vs ok : udp_payloads (us ++ vs) ok =
  if (udp_payloads us true).2 then ((udp_payloads us true).1 ++ (udp_payloads vs ok).1, (udp_payloads vs ok).2) else udp_payloads us true.
Proof.
  induction us as [|u us IH]; cbn [app udp_payloads fst snd]; [by destruct (udp_payloads vs ok)|].
  destruct (udp_payload u) as [[p|]|e]; cbn [fst snd]; [|done|done]. rewrite IH.
  destruct (udp_payloads us true) as [ps []]; done.
Qed.

Lemma udp_payloads_bad vs ok : udp_payloads vs ok = if (udp_payloads vs true).2 then ((udp_payloads vs true).1, ok) else udp_payloads vs true.
Proof. rewrite <- (app_nil_r vs), udp_payloads_app at 1. cbn [udp_payloads fst snd]. by rewrite app_nil_r. Qed.

Lemma udp_stream_cons c cs : udp_stream (c :: cs) =
  if (udp_stream [c]).2 then ((udp_stream [c]).1 ++ (udp_stream cs).1, (udp_stream cs).2) else udp_stream [c].
Proof.
  unfold udp_stream. cbn [stream_values]. destruct (oversized c); [done|]. destruct (stream_values cs) as [vs ok]. cbn [fst snd].
  destruct (delivered c); [|by cbn; destruct (udp_payloads vs ok)]. exact (udp_payloads_app [cap_value c] vs ok).
Qed.

Lemma udp_stream_app a b : udp_stream (a ++ b) =
  if (udp_stream a).2 then ((udp_stream a).1 ++ (udp_stream b).1, (udp_stream b).2) else udp_stream a.
Proof.
  induction a as [|c a IH]; [by rewrite app_nil_l; destruct (udp_stream b)|]. cbn [app].
  rewrite (udp_stream_cons c (a ++ b)), (udp_stream_cons c a), IH.
  destruct (udp_stream [c]) as [p []], (udp_stream a) as [q []]; cbn [fst snd]; by rewrite ?app_assoc.
Qed.

(** A capsule gives at most one payload, and none when it is in error. *)
Lemma udp_stream_bad_one c : (udp_stream [c]).2 = false -> (udp_stream [c]).1 = [].
Proof.
  unfold udp_stream. cbn [stream_values]. destruct (oversized c); [done|]. destruct (delivered c); [|done]. cbn.
  by destruct (udp_payload (cap_value c)) as [[p|]|e].
Qed.

(** At the end of a cut stream only the capsule that was cut is left. *)
Lemma at_end_last missing pre cs cs' (t : Tu) :
  cut_after missing pre cs -> missing ≠ [] -> cs' `suffix_of` cs -> recv_ok missing cs' t -> at_end missing cs' t ->
  exists c, cs = pre ++ [c] /\ (cs' = [] \/ cs' = [c]).
Proof.
  intros [? ?|c _ Hle ->] Hm [k Hk] [_ _ Hskip Hst] (Hin & _ & Hz & Hsh); [done|]. exists c. split; [done|].
  destruct (decide (cs' = [])) as [|Hne]; [by left|]. destruct (exists_last Hne) as (l & c' & ->).
  rewrite app_assoc in Hk. apply app_inj_tail in Hk as [_ <-]. destruct l as [|h l]; [by right|exfalso].
  rewrite Hin in Hskip, Hst. cbn [app] in Hskip, Hst, Hsh. apply (f_equal len) in Hst.
  rewrite len_zdrop in Hst by lia. rewrite len_app in Hst.
  change (stream_wire (h :: l ++ [c])) with (cap_wire h ++ stream_wire (l ++ [c])) in Hst. rewrite stream_wire_app, !len_app in Hst.
  change (stream_wire [c]) with (cap_wire c ++ []) in Hst. rewrite app_nil_r in Hst. pose proof (len_nonneg (stream_wire l)). pose proof (cap_wire_pos c). pose proof (cap_wire_pos h). lia.
Qed.

Lemma cut_suffix_payloads missing pre cs cs' (ps : list bytes) (t : Tu) :
  cut_after missing pre cs -> missing ≠ [] -> cs' `suffix_of` cs -> recv_ok missing cs' t -> at_end missing cs' t ->
  udp_stream cs = (ps ++ (udp_stream cs').1, (udp_stream cs').2) -> (udp_stream pre).1 `prefix_of` ps.
Proof.
  intros Hcut Hm Hsuf Hok Hat Hps. destruct (at_end_last _ _ _ _ _ Hcut Hm Hsuf Hok Hat) as (c & -> & Hc).
  rewrite udp_stream_app in Hps. destruct (udp_stream pre) as [qs ok] eqn:Eq. cbn [fst snd] in *.
  destruct ok; destruct Hc as [-> | ->].
  - apply (f_equal fst) in Hps. cbn in Hps. rewrite app_nil_r in Hps. subst ps. by apply prefix_app_r.
  - apply (f_equal fst) in Hps. cbn [fst] in Hps. by apply app_inv_tail in Hps as ->.
  - done.
  - pose proof (udp_stream_bad_one c) as Hb. injection Hps as -> Hf. rewrite <- Hf in Hb. rewrite (Hb eq_refl). by rewrite app_nil_r.
Qed.

Lemma cut_ended missing pre cs cs' : cut_after missing pre cs -> cs' `suffix_of` cs -> missing = stream_wire cs' -> missing = [] /\ cs' = [].
Proof.
  intros Hcut [k Hk] Hm. destruct (decide (cs' = [])) as [->|Hne]; [done|exfalso]. destruct (exists_last Hne) as (l & c & ->).
  pose proof (len_nonneg (stream_wire l)). pose proof (cap_wire_pos c). rewrite stream_wire_app in Hm.
  change (stream_wire [c]) with (cap_wire c ++ []) in Hm. rewrite app_nil_r in Hm. apply (f_equal len) in Hm. rewrite len_app in Hm.
  destruct Hcut as [-> _|c' _ Hlt ->]; [change (len (@nil Z)) with 0 in Hm; lia|].
  rewrite app_assoc in Hk. apply app_inj_tail in Hk as [_ ->]. lia.
Qed.

Lemma cut_payloads missing pre cs (ps : list bytes) :
  cut_after missing pre cs -> udp_stream cs = (ps, false) -> (udp_stream pre).1 `prefix_of` ps.
Proof.
  intros [_ ->|c _ _ ->] Hps; [by rewrite Hps|]. rewrite udp_stream_app in Hps. destruct (udp_stream pre) as [qs []]; cbn [fst snd] in *.
  - injection Hps as <- _. by apply prefix_app_r.
  - by injection Hps as ->.
Qed.

(** How a reader of a whole tunnel ends. *)
Definition recv_end (missing : bytes) (pre cs : list capsule) (ps : list bytes) (res : option MasqueError) : Prop :=
  ps `prefix_of` (udp_stream cs).1 /\
  match res with
  | None => missing = [] /\ udp_stream cs = (ps, true)
  | Some Malformed => (udp_stream pre).1 `prefix_of` ps /\ ((udp_stream cs).2 = false \/ missing ≠ [])
  | Some (MIo _) => True
  | Some _ => False
  end.

Lemma recv_all_spec missing pre cs0 fuel cs acc (t : Tu) :
  cut_after missing pre cs0 -> cs `suffix_of` cs0 -> udp_stream cs0 = (acc ++ (udp_stream cs).1, (udp_stream cs).2) ->
  recv_ok missing cs t -> ur_error (t_receiver t) = None -> (reading_left t < fuel)%nat ->
  exists t' ps res, recv_all fuel acc t = (t', Ready (ps, res)) /\ recv_end missing pre cs0 ps res.
Proof.
  intros Hcut. revert cs acc t. induction fuel as [|fuel IH]; intros cs acc t Hsuf Hacc Hok He Hf; [lia|]. cbn [recv_all].
  pose proof (poll_recv_spec missing cs t Hok He) as Hr. unfold wp in Hr. destruct (poll_recv io_text t) as [t1 o].
  assert (Hpre : acc `prefix_of` (udp_stream cs0).1) by (rewrite Hacc; by apply prefix_app_r).
  destruct o as [[p|]|e| | |]; try done.
  - destruct Hr as (He1 & cs1 & Hsuf1 & Hok1 & Hlt & Hv). apply (IH cs1); [by etransitivity| |done|done|lia].
    rewrite Hacc, Hv. cbn [fst snd]. by rewrite <- app_assoc.
  - destruct Hr as (cs1 & Hsuf1 & Hv & Hm). exists t1, acc, None. split; [done|]. split; [done|].
    destruct (cut_ended _ _ _ _ Hcut (transitivity Hsuf1 Hsuf) Hm) as [-> ->]. split; [done|]. rewrite Hacc, Hv. by rewrite app_nil_r.
  - exists t1, acc, (Some e). split; [done|]. split; [done|]. destruct Hr as [[-> Hr]|[io ->]]; [|done].
    destruct Hr as [Hv|(Hm & cs1 & t2 & Hsuf1 & Hv & Hok1 & Hat)]; [|split; [|by right]].
    + rewrite Hacc, Hv. cbn [fst snd]. split; [|by left]. eapply (cut_payloads _ _ _ acc Hcut). by rewrite Hacc, Hv, app_nil_r.
    + eapply (cut_suffix_payloads _ _ _ cs1); try done; [by etransitivity|by rewrite Hacc, Hv].
  - destruct Hr as (He1 & cs1 & Hsuf1 & Hok1 & Hlt & Hv). apply (IH cs1); [by etransitivity| |done|done|lia]. by rewrite Hacc, Hv.
Qed.
End laws.
