(* ===== verification/MasqueTheorems.v ===== *)
(** * MasqueTheorems

    The claims about the CONNECT-UDP tunnel over a request stream: a sender's
    payloads arrive, whole and in order, at a receiver on the other end, and a
    receiver of any capsule stream gives out exactly its UDP payloads. *)

From stdpp Require Import prelude strings gmap.
From Stdlib Require Import ZArith Lia.
From S2P Require Import Prelude Bytes Errors Transport Wire Capsule Datagram DatagramTheorems MasqueTunnel MasqueLaws.
Local Open Scope Z_scope.

Section theorems.
Context `{HttpDatagram} {T V : Type} `{BytesMutLaws V} `{!Transport T V} `{!TransportLaws T V}
  `{BytesMutPut V} `{!BytesMutPutLaws V} (io_text : io_error -> string).

Abbreviation Tu := (UdpTunnel T V).

(** ** Sending *)

(** A task that uses the sending half: the payloads accepted so far. A refused
    payload and a flush leave them as they are. *)
Inductive sends : list bytes -> Tu -> Tu -> Prop :=
  | sends_none t : sends [] t t
  | sends_accepted ps p t t1 t2 :
      sends ps t t1 -> all_u8 p -> tunnel_try_send p t1 = (t2, Ready tt) -> sends (ps ++ [p]) t t2
  | sends_refused ps p e t t1 t2 :
      sends ps t t1 -> all_u8 p -> tunnel_try_send p t1 = (t2, Failed e) -> sends ps t t2
  | sends_flushed ps o t t1 t2 :
      sends ps t t1 -> tunnel_poll_flush t1 = (t2, o) -> sends ps t t2.

Lemma udp_payload_sent p : len p <= MAX_UDP_PAYLOAD -> udp_payload (0 :: p) = Ok (Some p).
Proof.
  intros Hl. unfold udp_payload. assert (Hv : varint (0 :: p) = Some (0, 1)) by (apply (varint_enc_read 0 0 p); split; [lia|unfold varint_bits; cbn; lia]). rewrite Hv. cbn [negb Z.eqb].
  change (zdrop 1 (0 :: p)) with p. cbv zeta. by rewrite (proj2 (Z.ltb_ge _ _)).
Qed.

(** The capsule of a payload is received as that payload. *)
Lemma udp_stream_sent c p :
  cap_kind c = DATAGRAM -> cap_value c = 0 :: p -> len p <= MAX_UDP_PAYLOAD -> udp_stream [c] = ([p], true).
Proof.
  intros Hk Hv Hl. unfold udp_stream. cbn [stream_values].
  assert (Hsz : (len (cap_value c) <=? MAX_DATAGRAM) = true).
  { rewrite Hv, len_cons. apply Z.leb_le. unfold MAX_DATAGRAM, MAX_UDP_PAYLOAD in *. lia. }
  unfold oversized, delivered. rewrite Hk, Hsz, Z.eqb_refl. cbn [negb andb fst snd udp_payloads]. rewrite Hv, udp_payload_sent by done. done.
Qed.

(** The invariant of a sender: unless its writes failed, all it accepted is on
    the stream, a capsule each. *)
Definition sender_ok (ps : list bytes) (t : Tu) : Prop :=
  us_native (t_sender t) = None /\
  (write_closed (t_sender t) = false ->
   exists cs, Forall cap_ok cs /\ udp_stream cs = (ps, true) /\ stream_out t = stream_wire cs).

Lemma flush_sender_ok ps t t' o : sender_ok ps t -> tunnel_poll_flush t = (t', o) ->
  sender_ok ps t' /\ (o = Ready tt -> write_closed (t_sender t') = false -> bm_bytes (write_buf (t_sender t')) = []).
Proof.
  intros [Hn Hok] Hf. pose proof (tunnel_write_buf_spec (E := io_error) t) as Hw. unfold tunnel_poll_flush in Hf.
  unfold wp in Hw. unfold mbind, M_bind in Hf. destruct (tunnel_write_buf t) as [t1 o1] eqn:E. destruct Hw as (Hfr & Ho & Hw).
  assert (Hok1 : sender_ok ps t1 /\ (o1 = Ready tt -> write_closed (t_sender t1) = false ->
    write_closed (t_sender t) = false /\ bm_bytes (write_buf (t_sender t1)) = [])).
  { destruct (write_closed (t_sender t)) eqn:Ec; [subst t1; split; [split; [done|by rewrite Ec]|by rewrite Ec]|].
    split; [split; [by rewrite (sf_native _ _ Hfr)|]|].
    - intros Hc. rewrite Hc in Hw. destruct Hw as [-> _]. by apply Hok.
    - intros Hr Hc. rewrite Hc in Hw. destruct Hw as (_ & _ & Hw). auto. }
  destruct Hok1 as [[Hn1 Hok1] Hnil]. destruct Ho as [-> | ->].
  - unfold take_write_error, get, on_us, modify in Hf. cbn in Hf. unfold mbind, M_bind, mret, M_ret, fail in Hf. cbn in Hf.
    destruct (write_error (t_sender t1)); injection Hf as <- <-; (split; [by split|]); [done|]. intros _ Hc. by apply Hnil.
  - injection Hf as <- <-. by split; [split|].
Qed.

Lemma send_sender_ok ps p t t' o : sender_ok ps t -> all_u8 p -> tunnel_try_send p t = (t', o) ->
  match o with Ready _ => sender_ok (ps ++ [p]) t' | Failed _ => sender_ok ps t' | _ => False end.
Proof.
  intros [Hn Hok] Hu Hs. pose proof (tunnel_try_send_spec p t Hu Hn) as Hw. unfold wp in Hw. rewrite Hs in Hw.
  destruct Hw as [Hfr Hw]. destruct o as [[]|e| | |]; try done.
  - destruct Hw as (Hc & _ & _ & Hl & c & Hcok & Hk & Hv & Hout). split; [by rewrite (sf_native _ _ Hfr)|]. intros _.
    destruct (Hok Hc) as (cs & Hcs & Hps & Hout0). exists (cs ++ [c]). split_and!.
    + apply Forall_app_2; [done|by apply Forall_singleton].
    + rewrite udp_stream_app, Hps, (udp_stream_sent c p) by done. done.
    + rewrite stream_wire_app, Hout, Hout0. change (stream_wire [c]) with (cap_wire c ++ []). by rewrite app_nil_r.
  - destruct e; [by subst t'|by subst t'|]. destruct Hw as [->|Hc]; [by split|]. split; [by rewrite (sf_native _ _ Hfr)|by rewrite Hc].
Qed.

Lemma sends_ok ps t t' : sends ps t t' -> sender_ok [] t -> sender_ok ps t'.
Proof.
  induction 1 as [|ps p t t1 t2 _ IH Hu Hs|ps p e t t1 t2 _ IH Hu Hs|ps o t t1 t2 _ IH Hf]; intros Ht; [done|..].
  - exact (send_sender_ok _ _ _ _ _ (IH Ht) Hu Hs).
  - exact (send_sender_ok _ _ _ _ _ (IH Ht) Hu Hs).
  - exact (proj1 (flush_sender_ok _ _ _ _ (IH Ht) Hf)).
Qed.

Lemma sender_ok_new control registry : written control = [] -> sender_ok [] (tunnel_new control None registry).
Proof.
  intros Hw. split; [done|]. intros _. exists []. split_and!; [done|done|]. unfold stream_out. cbn. by rewrite Hw, bm_bytes_new.
Qed.

Lemma recv_ok_new missing cs control registry :
  Forall cap_ok cs -> incoming control ++ missing = stream_wire cs -> recv_ok missing cs (tunnel_new control None registry).
Proof.
  intros Hcs Hin. split; try done; cbn; rewrite bm_bytes_new; cbn [app]; [|by rewrite zdrop_0].
  split; [lia|apply len_nonneg].
Qed.

(** ** Receiving *)

(** A receiver gives out the UDP payloads of the capsule stream it reads,
    in order and whatever the pieces the stream arrives in. Of a stream that
    ends inside a capsule it gives out every payload before that capsule and
    reports a malformed message; it reports the end of the tunnel only after a
    whole stream without error, when it has given out all of it. Polling always
    comes to one of these ends (an IO error of the stream being the third). *)
Theorem tunnel_receives missing pre cs (control : T) registry :
  Forall cap_ok cs -> incoming control ++ missing = stream_wire cs -> cut_after missing pre cs ->
  let t := tunnel_new control None registry in
  exists t' ps res, recv_all io_text (S (reading_left t)) [] t = (t', Ready (ps, res)) /\ recv_end missing pre cs ps res.
Proof.
  intros Hcs Hin Hcut t. apply (recv_all_spec io_text missing pre cs _ cs); [done|done|by destruct (udp_stream cs)| |done|lia].
  by apply recv_ok_new.
Qed.

(** C33. The tunnel's round trip over a request stream: the payloads a sender
    accepted, once its last flush succeeded, are the ones a receiver gets when
    the bytes written are what it reads, in the same order, with nothing lost,
    merged or added, and then the end of the tunnel. *)
Theorem tunnel_roundtrip ps (a b : T) ra rb (t1 t2 : Tu) :
  written a = [] -> sends ps (tunnel_new a None ra) t1 -> tunnel_poll_flush t1 = (t2, Ready tt) ->
  write_closed (t_sender t2) = false -> incoming b = written (t_control t2) ->
  let t := tunnel_new b None rb in
  exists t' qs res, recv_all io_text (S (reading_left t)) [] t = (t', Ready (qs, res)) /\
    match res with
    | None => qs = ps
    | Some (MIo _) => qs `prefix_of` ps
    | Some _ => False
    end.
Proof.
  intros Ha Hs Hf Hc Hin t. destruct (flush_sender_ok ps t1 t2 (Ready tt)) as [[_ Hok] Hnil]; [|done|].
  { eapply sends_ok; [exact Hs|by apply sender_ok_new]. }
  destruct (Hok Hc) as (cs & Hcs & Hps & Hout). specialize (Hnil eq_refl Hc).
  unfold stream_out in Hout. rewrite Hnil, app_nil_r in Hout.
  destruct (recv_all_spec io_text [] cs cs (S (reading_left t)) cs [] t) as (t' & qs & res & Hr & Hpre & Hres); try done;
    [by left|by destruct (udp_stream cs)|apply recv_ok_new; [done|by rewrite app_nil_r, Hin]|lia|].
  exists t', qs, res. split; [done|]. rewrite Hps in Hpre, Hres. destruct res as [[]|]; try done; naive_solver.
Qed.

End theorems.


(** ** Examples *)

Module ConcreteTunnel.
Import ConcreteIo.
Import ConcreteDatagram.

#[export] Instance vec_BytesMutPut : BytesMutPut vec := fun b v => Vec (vec_bytes v ++ b) (vec_spare v).

#[export] Instance vec_BytesMutPutLaws : BytesMutPutLaws vec.
Proof. done. Qed.

(** Writes take three bytes at a time; the other end reads them in two pieces
    with a pause between them. *)
Definition near : mock := Mock [] [] 3.
Definition far : mock := Mock [Some (0, [4; 0; 1; 2]); None; Some (3, [0; 2; 0; 9])] [] 3.
Definition registry0 : Registry := registry_new None.

Definition sent1 : UdpTunnel mock vec := (tunnel_try_send [1; 2; 3] (tunnel_new near None registry0)).1.
Definition sent2 : UdpTunnel mock vec := (tunnel_try_send [9] sent1).1.

Ltac u8s := repeat (apply List.Forall_cons; [split; done|]); apply List.Forall_nil.

Lemma sent_both : sends [[1; 2; 3]; [9]] (tunnel_new near None registry0) sent2.
Proof.
  apply (sends_accepted [[1; 2; 3]] [9] _ sent1); [|u8s|vm_compute; reflexivity].
  apply (sends_accepted [] [1; 2; 3] _ (tunnel_new near None registry0)); [constructor|u8s|vm_compute; reflexivity].
Qed.

Lemma tunnel_roundtrip_witness : exists t' qs,
  recv_all (fun _ => ""%string) (S (reading_left (tunnel_new far None registry0))) [] (tunnel_new far None registry0)
    = (t', Ready (qs, None)) /\ qs = [[1; 2; 3]; [9]].
Proof.
  destruct (tunnel_roundtrip (fun _ => ""%string) [[1; 2; 3]; [9]] near far registry0 registry0 sent2 (tunnel_poll_flush sent2).1)
    as (t' & qs & res & Hr & Hres); [reflexivity|exact sent_both|vm_compute; reflexivity|vm_compute; reflexivity|vm_compute; reflexivity|].
  assert (Ready (E := MasqueError) (qs, res) = Ready ([[1; 2; 3]; [9]], None)) as Hq
    by (etransitivity; [symmetry; exact (f_equal snd Hr)|vm_compute; reflexivity]).
  injection Hq as -> ->. exists t', [[1; 2; 3]; [9]]. split; [exact Hr|exact Hres].
Defined.

(** A DATAGRAM capsule, one of another type, and one that is cut short. *)
Definition three : list capsule := [MkCapsule 0 [0; 7; 8] 0 0; MkCapsule 5 [1] 1 0; MkCapsule 0 [0; 1; 1] 0 0].

Definition cut_far : mock := Mock [Some (0, [3; 0; 7]); Some (8, [64; 5; 1; 1; 0; 3; 0])] [] 3.

Lemma tunnel_receives_witness : exists t' ps,
  recv_all (fun _ => ""%string) (S (reading_left (tunnel_new cut_far None registry0))) [] (tunnel_new cut_far None registry0)
    = (t', Ready (ps, Some Malformed)) /\ [[7; 8]] `prefix_of` ps /\ ps `prefix_of` [[7; 8]; [1; 1]].
Proof.
  destruct (tunnel_receives (fun _ => ""%string) [1; 1] (take 2 three) three
    cut_far registry0) as (t' & ps & res & Hr & Hpre & Hres).
  - unfold three. repeat (apply List.Forall_cons; [unfold cap_ok, varint_fits; cbn [cap_kind cap_value cap_kind_enc cap_len_enc];
      split_and!; first [u8s|lia|by vm_compute]|]). apply List.Forall_nil.
  - vm_compute. reflexivity.
  - apply (cut_in _ _ _ (MkCapsule 0 [0; 1; 1] 0 0)); [done|vm_compute; reflexivity|done].
  - assert (Ready (E := MasqueError) (ps, res) = Ready ([[7; 8]], Some Malformed)) as Hq
      by (etransitivity; [symmetry; exact (f_equal snd Hr)|vm_compute; reflexivity]).
    injection Hq as -> ->. exists t', [[7; 8]]. split_and!; [exact Hr|exact (proj1 Hres)|exact Hpre].
Defined.
End ConcreteTunnel.
