(* ===== verification/Net.v ===== *)
(** * Net

    What the proxy protocols use of the standard library's [std::net] and
    [std::str]: addresses, their canonical form, and the validity of UTF-8. *)

From stdpp Require Import prelude strings.
From Stdlib Require Import ZArith Lia.
From S2P Require Import Prelude Bytes Wire.
Local Open Scope Z_scope.

(** ** Addresses *)

(** [IpAddr], by octets. *)
Inductive IpAddr : Type := V4 (octets : bytes) | V6 (octets : bytes).

#[export] Instance IpAddr_eq_dec : EqDecision IpAddr.
Proof. solve_decision. Defined.

(** [SocketAddr]: an IPv6 one has a flow label and a scope. *)
Inductive SocketAddr : Type :=
| SaV4 (ip : bytes) (port : Z)
| SaV6 (ip : bytes) (port flowinfo scope_id : Z).

#[export] Instance SocketAddr_eq_dec : EqDecision SocketAddr.
Proof. solve_decision. Defined.

Definition sa_ip (a : SocketAddr) : IpAddr := match a with SaV4 ip _ => V4 ip | SaV6 ip _ _ _ => V6 ip end.
Definition sa_port (a : SocketAddr) : Z := match a with SaV4 _ p => p | SaV6 _ p _ _ => p end.

(** [SocketAddr::new]. *)
Definition sa_new (ip : IpAddr) (port : Z) : SocketAddr :=
  match ip with V4 o => SaV4 o port | V6 o => SaV6 o port 0 0 end.

(** The octets in front of an IPv4-mapped address. *)
Definition V4_MAPPED : bytes := replicate 10 0 ++ [0xFF; 0xFF].

(** [IpAddr::to_canonical]. *)
Definition to_canonical (ip : IpAddr) : IpAddr :=
  match ip with
  | V4 o => V4 o
  | V6 o => if decide (take 12 o = V4_MAPPED) then V4 (drop 12 o) else V6 o
  end.

(** [IpAddr::is_unspecified]. *)
Definition is_unspecified (ip : IpAddr) : bool :=
  match ip with V4 o => bool_decide (o = replicate 4 0) | V6 o => bool_decide (o = replicate 16 0) end.

(** [Ipv6Addr::is_unicast_link_local]: [fe80::/10]. *)
Definition is_unicast_link_local (o : bytes) : bool :=
  match o with
  | a :: b :: _ => (a =? 0xFE) && (Z.land b 0xC0 =? 0x80)
  | _ => false
  end.

(** [is_ipv4], [is_ipv6]. *)
Definition is_ipv6 (ip : IpAddr) : bool := match ip with V6 _ => true | V4 _ => false end.

(** The values these types have. *)
Definition ip_ok (ip : IpAddr) : Prop :=
  match ip with V4 o => length o = 4%nat /\ all_u8 o | V6 o => length o = 16%nat /\ all_u8 o end.
Definition sa_ok (a : SocketAddr) : Prop := ip_ok (sa_ip a) /\ is_u16 (sa_port a).

Lemma to_canonical_ok ip : ip_ok ip -> ip_ok (to_canonical ip).
Proof.
  destruct ip as [o|o]; [done|]. simpl. intros [Hl Hu]. case_decide as Hm; [|done]. simpl.
  rewrite length_drop, Hl. split; [done|]. by apply Forall_drop.
Qed.

Lemma to_canonical_idemp ip : to_canonical (to_canonical ip) = to_canonical ip.
Proof. destruct ip as [o|o]; [done|]. simpl. case_decide as Hm; [done|]. simpl. by rewrite decide_False. Qed.

(** ** UTF-8 *)

Definition between (lo hi b : Z) : bool := (lo <=? b) && (b <=? hi).

(** A continuation byte. *)
Definition utf8_tail (b : Z) : bool := between 0x80 0xBF b.

(** [str::from_utf8(b).is_ok()]: the well-formed byte sequences. *)
Fixpoint from_utf8 (b : bytes) : bool :=
  match b with
  | [] => true
  | b0 :: r0 =>
      if between 0 0x7F b0 then from_utf8 r0
      else
        match r0 with
        | [] => false
        | b1 :: r1 =>
            if between 0xC2 0xDF b0 then utf8_tail b1 && from_utf8 r1
            else
              match r1 with
              | [] => false
              | b2 :: r2 =>
                  if between 0xE0 0xEF b0 then
                    (if b0 =? 0xE0 then between 0xA0 0xBF b1 else if b0 =? 0xED then between 0x80 0x9F b1 else utf8_tail b1) &&
                    utf8_tail b2 && from_utf8 r2
                  else
                    match r2 with
                    | [] => false
                    | b3 :: r3 =>
                        between 0xF0 0xF4 b0 &&
                        (if b0 =? 0xF0 then between 0x90 0xBF b1 else if b0 =? 0xF4 then between 0x80 0x8F b1 else utf8_tail b1) &&
                        utf8_tail b2 && utf8_tail b3 && from_utf8 r3
                    end
              end
        end
  end.

(** A value of type [str]. *)
Definition is_str (s : bytes) : Prop := from_utf8 s = true.

(** A string holds bytes. *)
Lemma is_str_u8 s : is_str s -> all_u8 s.
Proof.
  unfold is_str, all_u8. revert s. fix IH 1. intros [|b0 r0]; [constructor|]. simpl.
  unfold between, utf8_tail, between. destruct ((0 <=? b0) && (b0 <=? 127)) eqn:E0.
  { intros Hr. constructor; [ulia|by apply IH]. }
  destruct r0 as [|b1 r1]; [done|]. destruct ((194 <=? b0) && (b0 <=? 223)) eqn:E1.
  { intros [Ht Hr]%andb_true_iff. constructor; [ulia|]. constructor; [ulia|by apply IH]. }
  destruct r1 as [|b2 r2]; [done|]. destruct ((224 <=? b0) && (b0 <=? 239)) eqn:E2.
  { intros [[H1 H2]%andb_true_iff Hr]%andb_true_iff. constructor; [ulia|]. constructor; [repeat case_match; ulia|].
    constructor; [ulia|by apply IH]. }
  destruct r2 as [|b3 r3]; [done|].
  intros [[[[H0 H1]%andb_true_iff H2]%andb_true_iff H3]%andb_true_iff Hr]%andb_true_iff.
  constructor; [ulia|]. constructor; [repeat case_match; ulia|]. constructor; [ulia|]. constructor; [ulia|by apply IH].
Qed.

(** ASCII text is UTF-8. *)
Lemma ascii_is_str s : Forall (fun b => 0 <= b <= 0x7F) s -> is_str s.
Proof.
  unfold is_str. induction 1 as [|b s Hb Hs IH]; [done|]. simpl. unfold between.
  by rewrite (proj2 (andb_true_iff _ _)) by (split; apply Z.leb_le; lia).
Qed.

(** ** Parsing addresses

    The parser of [std::net] for [str::parse] to [Ipv6Addr] and [IpAddr]
    ([core::net::parser]). A parser takes the rest of the input and
    gives the value with what follows, or nothing and consumes nothing
    ([read_atomically]). *)

(** [char::to_digit(radix)], for a radix of 10 or 16. *)
Definition to_digit (radix b : Z) : option Z :=
  let d := if is_ascii_digit b then b - 48 else if is_ascii_lower b then b - 87 else if is_ascii_upper b then b - 55 else radix in
  if d <? radix then Some d else None.

(** The digits [read_number] takes, at most [max_digits]: their value, their number and
    the rest. *)
Fixpoint read_digits (radix : Z) (max_digits : nat) (value : Z) (count : nat) (s : bytes) {struct s} : option (Z * nat * bytes) :=
  match s with
  | b :: s' =>
      match to_digit radix b with
      | Some d => match max_digits with O => None | S m => read_digits radix m (value * radix + d) (S count) s' end
      | None => Some (value, count, s)
      end
  | [] => Some (value, count, [])
  end.

(** [read_number::<T>] with [T::try_from] bounded by [limit]. *)
Definition read_number (radix : Z) (max_digits : nat) (allow_zero_prefix : bool) (limit : Z) (s : bytes) : option (Z * bytes) :=
  let has_leading_zero := match s with 48 :: _ => true | _ => false end in
  '(value, count, rest) ← read_digits radix max_digits 0 0 s;
  if (count =? 0)%nat then None
  else if negb allow_zero_prefix && has_leading_zero && (1 <? count)%nat then None
  else if value <=? limit then Some (value, rest) else None.

(** [read_given_char]. *)
Definition read_given_char (c : Z) (s : bytes) : option bytes := match s with b :: s' => if b =? c then Some s' else None | [] => None end.

(** [read_separator]: the separator stands before every item but the first. *)
Definition read_separator {A} (sep : Z) (index : nat) (inner : bytes -> option (A * bytes)) (s : bytes) : option (A * bytes) :=
  s ← (if (index =? 0)%nat then Some s else read_given_char sep s);
  inner s.

(** [read_ipv4_addr]: four numbers of a byte. *)
Fixpoint read_octets (n index : nat) (s : bytes) : option (bytes * bytes) :=
  match n with
  | O => Some ([], s)
  | S m =>
      '(o, s) ← read_separator 46 index (read_number 10 3 false 255) s;
      '(os, s) ← read_octets m (S index) s;
      Some (o :: os, s)
  end.
Definition read_ipv4_addr (s : bytes) : option (bytes * bytes) := read_octets 4 0 s.

(** [u16::from_be_bytes] on each pair of octets, and back. *)
Fixpoint groups_of (octets : bytes) : list Z := match octets with a :: b :: l => (a * 256 + b) :: groups_of l | _ => [] end.
Definition octets_of (groups : list Z) : bytes := g ← groups; [g / 256; g mod 256].

(** [read_groups]: the groups, whether they end in an IPv4 address, and the rest. *)
Fixpoint read_groups (n index : nat) (s : bytes) : list Z * bool * bytes :=
  match n with
  | O => ([], false, s)
  | S m =>
      match (if (1 <=? m)%nat then read_separator 58 index read_ipv4_addr s else None) with
      | Some (os, s) => (groups_of os, true, s)
      | None =>
          match read_separator 58 index (read_number 16 4 true 65535) s with
          | Some (g, s) => let '(gs, v4, s) := read_groups m (S index) s in (g :: gs, v4, s)
          | None => ([], false, s)
          end
      end
  end.

(** [read_ipv6_addr]: [::] stands for as many zeros as are missing. *)
Definition read_ipv6_addr (s : bytes) : option (bytes * bytes) :=
  let '(head, head_ipv4, s) := read_groups 8 0 s in
  if (length head =? 8)%nat then Some (octets_of head, s)
  else if head_ipv4 then None
  else
    s ← read_given_char 58 s;
    s ← read_given_char 58 s;
    let '(tail, _, s) := read_groups (8 - (length head + 1)) 0 s in
    Some (octets_of (head ++ replicate (8 - length head - length tail) 0 ++ tail), s).

(** [parse_with] wants all of the input: [host.parse::<Ipv6Addr>().is_ok()] and
    [host.parse::<IpAddr>()]. *)
Definition parses_ipv6 (s : bytes) : bool := match read_ipv6_addr s with Some (_, []) => true | _ => false end.
Definition parse_ip (s : bytes) : option IpAddr :=
  match read_ipv4_addr s with
  | Some (o, []) => Some (V4 o)
  | Some _ => None
  | None => match read_ipv6_addr s with Some (o, []) => Some (V6 o) | _ => None end
  end.

Example parse_ip_examples :
  map parse_ip [bs "192.0.2.1"; bs "::1"; bs "2001:db8::ff00:42:8329"; bs "::ffff:192.0.2.1"; bs "1.2.3.4.5"; bs "1.2.3"; bs "example.com"] =
  [Some (V4 [192; 0; 2; 1]); Some (V6 [0; 0; 0; 0; 0; 0; 0; 0; 0; 0; 0; 0; 0; 0; 0; 1]); Some (V6 [32; 1; 13; 184; 0; 0; 0; 0; 0; 0; 255; 0; 0; 66; 131; 41]);
   Some (V6 [0; 0; 0; 0; 0; 0; 0; 0; 0; 0; 255; 255; 192; 0; 2; 1]); None; None; None].
Proof. by vm_compute. Qed.

Example parses_ipv6_examples :
  map parses_ipv6 [bs "2001:db8::42"; bs "::1"; bs "::"; bs "1:2:3:4:5:6:7:8"; bs "::ffff:192.0.2.1"; bs "2001:DB8::1"] = [true; true; true; true; true; true] /\
  map parses_ipv6 [bs ""; bs "1:2:3"; bs "fe80::1%eth0"; bs "1:2:3:4:5:6:7:8:9"; bs "1.2.3.4::"; bs "12345::"; bs ":1"; bs "::1.2.3.04"] = [false; false; false; false; false; false; false; false].
Proof. by vm_compute. Qed.

(** *** The characters of an address *)

(** A hexadecimal digit, a colon or a dot. *)
Definition ipv6_char (b : Z) : Prop := is_Some (to_digit 16 b) \/ b = 58 \/ b = 46.

(** What a reader consumed. *)
Definition consumed (s s' : bytes) : Prop := exists w, s = w ++ s' /\ Forall ipv6_char w.

Lemma consumed_refl s : consumed s s.
Proof. by exists []. Qed.

Lemma consumed_trans s1 s2 s3 : consumed s1 s2 -> consumed s2 s3 -> consumed s1 s3.
Proof. intros (w1 & -> & H1) (w2 & -> & H2). exists (w1 ++ w2). rewrite <-app_assoc. split; [done|]. by apply Forall_app. Qed.

Lemma consumed_cons b s s' : ipv6_char b -> consumed s s' -> consumed (b :: s) s'.
Proof. intros Hb (w & -> & Hw). exists (b :: w). split; [done|by constructor]. Qed.

Lemma to_digit_hex r b d : r <= 16 -> to_digit r b = Some d -> is_Some (to_digit 16 b).
Proof.
  unfold to_digit. intros Hr. destruct (is_ascii_digit b), (is_ascii_lower b), (is_ascii_upper b); match goal with |- context [?x <? r] => destruct (Z.ltb_spec x r) end; try done; intros _; try lia.
  all: by rewrite (proj2 (Z.ltb_lt _ _)) by lia.
Qed.

Lemma read_digits_consumed r m v c s v' c' s' : r <= 16 -> read_digits r m v c s = Some (v', c', s') -> consumed s s'.
Proof.
  intros Hr. revert m v c. induction s as [|b s IH]; intros m v c; simpl; [intros; simplify_eq; apply consumed_refl|].
  destruct (to_digit r b) as [d|] eqn:E; [|intros; simplify_eq; apply consumed_refl]. destruct m as [|m]; [done|]. intros Hd.
  apply consumed_cons; [left; by eapply to_digit_hex|by eapply IH].
Qed.

Lemma read_number_consumed r m z l s v s' : r <= 16 -> read_number r m z l s = Some (v, s') -> consumed s s'.
Proof.
  intros Hr. unfold read_number. destruct (read_digits r m 0 0 s) as [[[v1 c1] s1]|] eqn:E; [|done]. apply read_digits_consumed in E; [|done].
  cbn. destruct (c1 =? 0)%nat; [done|]. destruct (negb z && _ && _); [done|]. destruct (v1 <=? l); [|done]. by intros; simplify_eq.
Qed.

Lemma read_given_char_consumed c s s' : ipv6_char c -> read_given_char c s = Some s' -> consumed s s'.
Proof. intros Hc. destruct s as [|b s]; [done|]. simpl. destruct (b =? c) eqn:E; [|done]. zbool. subst. intros [= <-]. apply consumed_cons; [done|apply consumed_refl]. Qed.

Lemma read_separator_consumed {A} c i (inner : bytes -> option (A * bytes)) s a s' : ipv6_char c ->
  (forall t t' b, inner t = Some (b, t') -> consumed t t') -> read_separator c i inner s = Some (a, s') -> consumed s s'.
Proof.
  intros Hc Hi. unfold read_separator. destruct (i =? 0)%nat; [by intros; eapply Hi|]. destruct (read_given_char c s) as [t|] eqn:E; [|done].
  intros Hin. apply read_given_char_consumed in E; [|done]. eapply consumed_trans; [done|]. by eapply Hi.
Qed.

Lemma read_octets_consumed n i s o s' : read_octets n i s = Some (o, s') -> consumed s s'.
Proof.
  revert i s o. induction n as [|n IH]; intros i s o; simpl; [intros [= _ <-]; apply consumed_refl|].
  destruct (read_separator _ _ _ s) as [[v t]|] eqn:E; [|done]. cbn. destruct (read_octets n (S i) t) as [[os t']|] eqn:E'; [|done]. cbn. intros [= _ <-]. apply read_separator_consumed in E; [|by right; right|].
  - eapply consumed_trans; [done|by eapply IH].
  - intros t1 t2 b. by apply read_number_consumed.
Qed.

Lemma read_groups_consumed n i s k b s' : read_groups n i s = (k, b, s') -> consumed s s'.
Proof.
  revert i s k. induction n as [|n IH]; intros i s k; cbn [read_groups]; [intros; simplify_eq; apply consumed_refl|].
  destruct (if (1 <=? n)%nat then _ else None) as [[u t]|] eqn:E4.
  - intros; simplify_eq. destruct (1 <=? n)%nat; [|done]. apply read_separator_consumed in E4; [done|by right; left|]. intros t1 t2 b'. apply read_octets_consumed.
  - destruct (read_separator _ _ (read_number _ _ _ _) s) as [[v t]|] eqn:E; [|intros; simplify_eq; apply consumed_refl].
    destruct (read_groups n (S i) t) as [[gs v4] t'] eqn:E'. intros; simplify_eq.
    apply read_separator_consumed in E; [|by right; left|intros t1 t2 b'; by apply read_number_consumed]. eapply consumed_trans; [done|by eapply IH].
Qed.

(** An IPv6 literal has only hexadecimal digits, colons and dots. *)
Lemma parses_ipv6_chars s : parses_ipv6 s = true -> Forall ipv6_char s.
Proof.
  unfold parses_ipv6. destruct (read_ipv6_addr s) as [[o [|]]|] eqn:Hr; try done. intros _. unfold read_ipv6_addr in Hr. assert (consumed s []) as (w & -> & Hw); [|by rewrite app_nil_r].
  destruct (read_groups 8 0 s) as [[k b] s1] eqn:E1. apply read_groups_consumed in E1. destruct (length k =? 8)%nat; [by injection Hr as _ ->|]. destruct b; [done|].
  destruct (read_given_char 58 s1) as [s2|] eqn:E2; [|done]. destruct (read_given_char 58 s2) as [s3|] eqn:E3; [|cbn in Hr; by rewrite E3 in Hr]. cbn in Hr. rewrite E3 in Hr. cbn in Hr.
  destruct (read_groups (8 - (length k + 1)) 0 s3) as [[k' b'] s4] eqn:E4. injection Hr as _ ->.
  apply read_given_char_consumed in E2; [|by right; left]. apply read_given_char_consumed in E3; [|by right; left]. apply read_groups_consumed in E4.
  repeat (eapply consumed_trans; [done|]). apply consumed_refl.
Qed.
