(* ===== verification/Async.v ===== *)
(** * Async

    Asynchronous functions over an I/O object. An [async fn] is a value of
    [future]: it is done, or it awaits an operation of its I/O object and goes
    on with the operation's result. Polling runs it until an operation is not
    ready; what is left is polled again later. The byte-stream helpers of
    [proxy.rs] are here too.

    [fwp] is the program logic: it follows a future along the bytes that are to
    be read and those that were written, for every way the I/O object can cut
    them, and [drive_spec] carries its conclusions to polling. *)

From stdpp Require Import prelude strings.
From Stdlib Require Import ZArith Lia.
From S2P Require Import Prelude.
Local Open Scope Z_scope.

Inductive future (E A : Type) : Type :=
| Done (r : result E A)
(** a panic *)
| Unwind
(** an exhausted bound *)
| Endless
| AwaitRead (cap : Z) (k : result io_error bytes -> future E A)
| AwaitWrite (b : bytes) (k : result io_error Z -> future E A)
| AwaitFlush (k : result io_error unit -> future E A).
Arguments Done {E A} r.
Arguments Unwind {E A}.
Arguments Endless {E A}.
Arguments AwaitRead {E A} cap k.
Arguments AwaitWrite {E A} b k.
Arguments AwaitFlush {E A} k.

(** ** Sequencing *)

(** Goes on with the result of a future, an error included. *)
Fixpoint and_then {E A E' B} (f : future E A) (k : result E A -> future E' B) : future E' B :=
  match f with
  | Done r => k r
  | Unwind => Unwind
  | Endless => Endless
  | AwaitRead cap g => AwaitRead cap (fun r => and_then (g r) k)
  | AwaitWrite b g => AwaitWrite b (fun r => and_then (g r) k)
  | AwaitFlush g => AwaitFlush (fun r => and_then (g r) k)
  end.

#[export] Instance future_ret {E} : MRet (future E) := fun A a => Done (Ok a).
#[export] Instance future_bind {E} : MBind (future E) := fun A B k f =>
  and_then f (fun r => match r with Ok a => k a | Err e => Done (Err e) end).

Definition throw {E A} (e : E) : future E A := Done (Err e).
(** [r?] *)
Definition attempt {E A} (r : result E A) : future E A := Done r.
(** [f.await.map_err(g)?] *)
Definition await_err {E E' A} (g : E -> E') (f : future E A) : future E' A :=
  and_then f (fun r => match r with Ok a => Done (Ok a) | Err e => Done (Err (g e)) end).
(** Slicing and other partial operations: a panic where they have no value. *)
Definition or_unwind {E A} (o : option A) : future E A := match o with Some a => mret a | None => Unwind end.

(** [poll_read], [poll_write], [poll_flush], awaited. *)
Definition await_read (cap : Z) : future io_error bytes := AwaitRead cap Done.
Definition await_write (b : bytes) : future io_error Z := AwaitWrite b Done.
Definition await_flush : future io_error unit := AwaitFlush Done.

(** ** The helpers of [proxy.rs] *)

(** [&buf[n..]] *)
Definition slice_from (n : Z) (b : bytes) : option bytes := if n <=? len b then Some (zdrop n b) else None.

(** [io::send], the loop; a round writes at least a byte. *)
Fixpoint send_all (fuel : nat) (buf : bytes) : future io_error unit :=
  match fuel with
  | O => Endless
  | S k =>
      if decide (buf = []) then await_flush
      else
        n ← await_write buf;
        if n =? 0 then throw (IoError WriteZero NoPayload)
        else buf ← or_unwind (slice_from n buf); send_all k buf
  end.

(** [io::send]. *)
Definition send (buf : bytes) : future io_error unit := send_all (S (length buf)) buf.

(** [io::read] into a slice of [n] bytes: what was read. *)
Definition read (n : Z) : future io_error bytes := await_read n.

(** ** Polling *)

(** The I/O object: [AsyncRead] into a slice of [cap] bytes, [AsyncWrite]. *)
Class AsyncIo (T : Type) : Type := {
  aio_read : Z -> M T io_error bytes;
  aio_write : bytes -> M T io_error Z;
  aio_flush : M T io_error unit;
}.

Inductive polled (E A : Type) : Type := Finished (r : result E A) | Suspended (f : future E A) | Crashed.
Arguments Finished {E A} r.
Arguments Suspended {E A} f.
Arguments Crashed {E A}.

(** One poll. *)
Fixpoint poll_future {T E A} `{AsyncIo T} (f : future E A) (t : T) : T * polled E A :=
  match f with
  | Done r => (t, Finished r)
  | Unwind | Endless => (t, Crashed)
  | AwaitRead cap k =>
      match aio_read cap t with
      | (t, Ready b) => poll_future (k (Ok b)) t
      | (t, Failed e) => poll_future (k (Err e)) t
      | (t, Pending) => (t, Suspended (AwaitRead cap k))
      | (t, _) => (t, Crashed)
      end
  | AwaitWrite b k =>
      match aio_write b t with
      | (t, Ready n) => poll_future (k (Ok n)) t
      | (t, Failed e) => poll_future (k (Err e)) t
      | (t, Pending) => (t, Suspended (AwaitWrite b k))
      | (t, _) => (t, Crashed)
      end
  | AwaitFlush k =>
      match aio_flush t with
      | (t, Ready u) => poll_future (k (Ok u)) t
      | (t, Failed e) => poll_future (k (Err e)) t
      | (t, Pending) => (t, Suspended (AwaitFlush k))
      | (t, _) => (t, Crashed)
      end
  end.

(** Polling until the future is done, at most [n] times. *)
Fixpoint drive {T E A} `{AsyncIo T} (n : nat) (f : future E A) (t : T) : T * option (result E A) :=
  match n with
  | O => (t, None)
  | S n =>
      match poll_future f t with
      | (t, Finished r) => (t, Some r)
      | (t, Suspended f) => drive n f t
      | (t, Crashed) => (t, None)
      end
  end.

(** What an I/O object promises: it delivers a byte stream and accepts one;
    [aio_fault] are the errors it can raise ([WriteZero] also where it accepts
    nothing), [aio_patience] bounds how often it is not ready. *)
Class AsyncIoLaws (T : Type) `{AsyncIo T} : Type := {
  aio_incoming : T -> bytes;
  aio_written : T -> bytes;
  aio_patience : T -> nat;
  aio_fault : io_error -> Prop;
  aio_read_ready : forall cap t t' b, aio_read cap t = (t', Ready b) ->
    aio_incoming t = b ++ aio_incoming t' /\ aio_written t' = aio_written t /\ len b <= Z.max 0 cap /\
    (b = [] -> 0 < cap -> aio_incoming t = []) /\ (aio_patience t' <= aio_patience t)%nat;
  aio_read_unready : forall cap t t' o, aio_read cap t = (t', o) -> (forall b, o ≠ Ready b) ->
    aio_incoming t' = aio_incoming t /\ aio_written t' = aio_written t /\
    match o with Failed e => aio_fault e /\ (aio_patience t' <= aio_patience t)%nat
               | _ => o = Pending /\ (aio_patience t' < aio_patience t)%nat end;
  aio_write_ready : forall b t t' n, aio_write b t = (t', Ready n) ->
    0 <= n <= len b /\ (n = 0 -> b ≠ [] -> aio_fault (IoError WriteZero NoPayload)) /\
    aio_incoming t' = aio_incoming t /\ aio_written t' = aio_written t ++ ztake n b /\ (aio_patience t' <= aio_patience t)%nat;
  aio_write_unready : forall b t t' o, aio_write b t = (t', o) -> (forall n, o ≠ Ready n) ->
    aio_incoming t' = aio_incoming t /\ aio_written t' = aio_written t /\
    match o with Failed e => aio_fault e /\ (aio_patience t' <= aio_patience t)%nat
               | _ => o = Pending /\ (aio_patience t' < aio_patience t)%nat end;
  aio_flush_any : forall t t' o, aio_flush t = (t', o) ->
    aio_incoming t' = aio_incoming t /\ aio_written t' = aio_written t /\
    match o with Ready _ => (aio_patience t' <= aio_patience t)%nat
               | Failed e => aio_fault e /\ (aio_patience t' <= aio_patience t)%nat
               | _ => o = Pending /\ (aio_patience t' < aio_patience t)%nat end;
}.

(** ** The program logic *)

(** [fwp fault f Q inc out]: from bytes [inc] to be read and [out] written, and
    with errors of [fault] only, [f] neither panics nor goes on for ever and
    its result satisfies [Q], with the bytes left and written then. *)
Fixpoint fwp {E A} (fault : io_error -> Prop) (f : future E A) (Q : result E A -> bytes -> bytes -> Prop) (inc out : bytes) : Prop :=
  match f with
  | Done r => Q r inc out
  | Unwind | Endless => False
  | AwaitRead cap k =>
      (forall e, fault e -> fwp fault (k (Err e)) Q inc out) /\
      forall b rest, inc = b ++ rest -> len b <= Z.max 0 cap -> (b = [] -> 0 < cap -> inc = []) ->
        fwp fault (k (Ok b)) Q rest out
  | AwaitWrite b k =>
      (forall e, fault e -> fwp fault (k (Err e)) Q inc out) /\
      forall n, 0 <= n <= len b -> (n = 0 -> b ≠ [] -> fault (IoError WriteZero NoPayload)) ->
        fwp fault (k (Ok n)) Q inc (out ++ ztake n b)
  | AwaitFlush k =>
      (forall e, fault e -> fwp fault (k (Err e)) Q inc out) /\ fwp fault (k (Ok tt)) Q inc out
  end.

Section logic.
Context {E : Type} (fault : io_error -> Prop).

Lemma fwp_mono {A} (f : future E A) (Q Q' : result E A -> bytes -> bytes -> Prop) inc out :
  fwp fault f Q inc out -> (forall r i o, Q r i o -> Q' r i o) -> fwp fault f Q' inc out.
Proof.
  intros Hf HQ. revert inc out Hf.
  induction f as [r| | |cap k IH|b k IH|k IH]; simpl; intros inc out Hf; eauto; naive_solver.
Qed.

Lemma fwp_and_then {A E' B} (f : future E A) (k : result E A -> future E' B) Q inc out :
  fwp fault f (fun r i o => fwp fault (k r) Q i o) inc out -> fwp fault (and_then f k) Q inc out.
Proof.
  revert inc out. induction f as [r| | |cap g IH|b g IH|g IH]; simpl; intros inc out Hf; eauto; naive_solver.
Qed.

Lemma fwp_bind {A B} (f : future E A) (k : A -> future E B) Q inc out :
  fwp fault f (fun r i o => match r with Ok a => fwp fault (k a) Q i o | Err e => Q (Err e) i o end) inc out ->
  fwp fault (f ≫= k) Q inc out.
Proof. intros Hf. apply fwp_and_then. eapply fwp_mono; [exact Hf|]. intros [a|e] i o; done. Qed.

Lemma fwp_await_err {A E'} (g : E -> E') (f : future E A) Q inc out :
  fwp fault f (fun r i o => match r with Ok a => Q (Ok a) i o | Err e => Q (Err (g e)) i o end) inc out ->
  fwp fault (await_err g f) Q inc out.
Proof. intros Hf. apply fwp_and_then. eapply fwp_mono; [exact Hf|]. intros [a|e] i o; done. Qed.

Lemma fwp_unwind {A B} (x : option A) a (k : A -> future E B) Q inc out :
  x = Some a -> fwp fault (k a) Q inc out -> fwp fault (or_unwind x ≫= k) Q inc out.
Proof. by intros ->. Qed.
End logic.

(** [send] writes all of its argument, or a part before an error. *)
Lemma fwp_send fault buf Q inc out :
  Q (Ok tt) inc (out ++ buf) ->
  (forall e p s, fault e -> buf = p ++ s -> Q (Err e) inc (out ++ p)) ->
  fwp fault (send buf) Q inc out.
Proof.
  unfold send. intros Hok Herr.
  enough (forall n pre b, (length b < n)%nat -> buf = pre ++ b -> fwp fault (send_all n b) Q inc (out ++ pre)) as He.
  { rewrite <- (app_nil_r out). apply (He _ []); [lia|done]. }
  clear -Hok Herr. induction n as [|n IH]; intros pre b Hn Hb; [lia|]. cbn [send_all]. case_decide as Hd.
  - subst b. rewrite app_nil_r in Hb. subst pre. split; [|done]. intros e He. apply (Herr e buf []); [done|by rewrite app_nil_r].
  - apply fwp_bind. split; [intros e He; by apply (Herr e pre b)|]. intros k Hk Hz. simpl.
    assert (ztake k b ++ zdrop k b = b) as Hs by apply ztake_zdrop.
    case_match eqn:Ek; zbool.
    + subst k. change (ztake 0 b) with (@nil Z). rewrite app_nil_r. apply (Herr _ pre b); [by apply Hz|done].
    + eapply fwp_unwind; [unfold slice_from; by rewrite (proj2 (Z.leb_le _ _)) by lia|].
      rewrite <- (assoc_L (++)). apply IH; [|by rewrite <- (assoc_L (++)), Hs].
      enough (len (zdrop k b) < len b) by (unfold len in *; lia). rewrite len_zdrop by lia. lia.
Qed.

(** Goes on with the induction hypothesis after an operation with result [r]
    that left the I/O object at [t'], and the streams as [Hi] and [Hw] say. *)
Tactic Notation "resume" hyp(IH) uconstr(r) hyp(t') hyp(Hi) hyp(Hw) uconstr(Hf) :=
  specialize (IH r t'); rewrite Hw in IH; try rewrite Hi in IH; specialize (IH Hf);
  destruct (poll_future _ t') as [? []]; naive_solver lia.

(** Polling a future whose behaviour is known. *)
Section polling.
Context {T : Type} `{AsyncIoLaws T} {E A : Type}.
Implicit Types (f : future E A) (t : T).

Lemma poll_future_spec f Q t :
  fwp aio_fault f Q (aio_incoming t) (aio_written t) ->
  match poll_future f t with
  | (t', Finished r) => Q r (aio_incoming t') (aio_written t') /\ (aio_patience t' <= aio_patience t)%nat
  | (t', Suspended f') => fwp aio_fault f' Q (aio_incoming t') (aio_written t') /\ (aio_patience t' < aio_patience t)%nat
  | (_, Crashed) => False
  end.
Proof.
  revert t. induction f as [r| | |cap k IH|b k IH|k IH]; intros t Hf; cbn [poll_future fwp] in *; [by split|done|done| | |];
    destruct Hf as [He Hok].
  - destruct (aio_read cap t) as [t' [b|e| | |]] eqn:Er;
      [apply aio_read_ready in Er as (Hi & Hw & Hl & Hz & Hp)|apply aio_read_unready in Er as (Hi & Hw & Hr & Hp); [|done]..].
    + resume IH (Ok b) t' Hi Hw (Hok _ _ Hi Hl Hz).
    + resume IH (Err e) t' Hi Hw (He _ Hr).
    + split; [|done]. cbn [fwp]. by rewrite Hi, Hw.
    + done.
    + done.
  - destruct (aio_write b t) as [t' [n|e| | |]] eqn:Er;
      [apply aio_write_ready in Er as (Hn & Hz & Hi & Hw & Hp)|apply aio_write_unready in Er as (Hi & Hw & Hr & Hp); [|done]..].
    + resume IH (Ok n) t' Hi Hw (Hok _ Hn Hz).
    + resume IH (Err e) t' Hi Hw (He _ Hr).
    + split; [|done]. cbn [fwp]. by rewrite Hi, Hw.
    + done.
    + done.
  - destruct (aio_flush t) as [t' o] eqn:Er. apply aio_flush_any in Er as (Hi & Hw & Hp). destruct o as [[]|e| | |].
    + resume IH (Ok tt) t' Hi Hw Hok.
    + resume IH (Err e) t' Hi Hw (He _ (proj1 Hp)).
    + split; [|naive_solver]. cbn [fwp]. by rewrite Hi, Hw.
    + by destruct Hp.
    + by destruct Hp.
Qed.

(** A future is done after finitely many polls, with a result of [Q]. *)
Lemma drive_spec f Q t :
  fwp aio_fault f Q (aio_incoming t) (aio_written t) ->
  exists r t', drive (S (aio_patience t)) f t = (t', Some r) /\ Q r (aio_incoming t') (aio_written t').
Proof.
  remember (aio_patience t) as p eqn:Ep. assert (aio_patience t <= p)%nat as Hp by lia. clear Ep.
  revert f t Hp. induction p as [|p IH]; intros f t Hp Hf; apply poll_future_spec in Hf.
  - cbn [drive]. destruct (poll_future f t) as [t' [r|f'|]]; [|lia|done]. exists r, t'. naive_solver.
  - remember (S p) as q. cbn [drive]. destruct (poll_future f t) as [t' [r|f'|]]; [exists r, t'; naive_solver| |done].
    subst q. destruct Hf as [Hf Hl]. apply IH; [lia|done].
Qed.
End polling.

(** ** A concrete I/O object *)

Module ConcreteAsync.

(** A scripted peer: the pieces it sends, [None] for "not ready yet", and what
    it received; it takes at most [pipe_room] bytes at a time, but at least one. *)
Record pipe : Type := Pipe { pipe_in : list (option (Z * bytes)); pipe_out : bytes; pipe_room : nat }.

Definition pipe_piece (p : option (Z * bytes)) : bytes := match p with Some (b, rest) => b :: rest | None => [] end.

#[export] Instance pipe_AsyncIo : AsyncIo pipe := {
  aio_read cap t :=
    match pipe_in t with
    | [] => (t, Ready [])
    | None :: ps => (Pipe ps (pipe_out t) (pipe_room t), Pending)
    | Some (b, rest) :: ps =>
        if cap <=? 0 then (t, Ready [])
        else
          (Pipe (match zdrop (cap - 1) rest with [] => ps | c :: cs => Some (c, cs) :: ps end) (pipe_out t) (pipe_room t),
           Ready (b :: ztake (cap - 1) rest))
    end;
  aio_write b t :=
    let n := Z.min (1 + Z.of_nat (pipe_room t)) (len b) in
    (Pipe (pipe_in t) (pipe_out t ++ ztake n b) (pipe_room t), Ready n);
  aio_flush t := (t, Ready tt);
}.

#[export] Instance pipe_AsyncIoLaws : AsyncIoLaws pipe.
Proof.
  refine {| aio_incoming t := concat (map pipe_piece (pipe_in t)); aio_written := pipe_out;
            aio_patience t := length (pipe_in t); aio_fault := fun _ => False |}.
  - intros cap [ps out room] t' b. simpl. destruct ps as [|[[c rest]|] ps]; [intros [= <- <-]; split_and!; try done; change (len (@nil Z)) with 0; lia| |done].
    case_match eqn:Ec; intros [= <- <-]; zbool; simpl.
    + change (len (@nil Z)) with 0. split_and!; done || lia.
    + pose proof (ztake_zdrop (cap - 1) rest) as Hs. rewrite len_cons, len_ztake by lia.
      split_and!; [|done|pose proof (len_nonneg rest); lia|done|case_match; simpl; lia].
      destruct (zdrop _ rest) as [|d ds]; rewrite <- Hs at 1; simpl; by rewrite ?app_nil_r, <- ?(assoc_L (++)).
  - intros cap [ps out room] t' o. simpl. destruct ps as [|[[c rest]|] ps].
    + intros [= <- <-] Ho. by destruct (Ho []).
    + case_match; intros [= <- <-] Ho; by destruct (Ho _ eq_refl).
    + intros [= <- <-] _. simpl. split_and!; done || lia.
  - intros b t t' n. simpl. intros [= <- <-]. pose proof (len_nonneg b). split_and!; try done; try lia.
    intros Hn Hb. apply len_pos in Hb. lia.
  - intros b t t' o. simpl. intros [= <- <-] Ho. by destruct (Ho _ eq_refl).
  - intros t t' o [= <- <-]. done.
Defined.
End ConcreteAsync.
