(* ===== verification/SocksUdp.v ===== *)
(** * SocksUdp

    [proxy/socks/udp.rs]: SOCKS5 UDP ASSOCIATE. The handshake over the control
    connection, the header in front of every relayed datagram, and the
    unframing of a received buffer in place. [Address] and the borrowed
    [AddressRef] are one type here. *)

From stdpp Require Import prelude.
From Stdlib Require Import ZArith Lia.
From S2P Require Import Prelude Wire Net Async.
Local Open Scope Z_scope.

Definition VERSION : Z := 0x05.
Definition AUTH_VERSION : Z := 0x01.
Definition NO_AUTH : Z := 0x00.
Definition USERNAME_PASSWORD : Z := 0x02.
Definition NO_ACCEPTABLE_METHODS : Z := 0xFF.
Definition CMD_UDP_ASSOCIATE : Z := 0x03.
Definition ATYP_IPV4 : Z := 0x01.
Definition ATYP_DOMAIN : Z := 0x03.
Definition ATYP_IPV6 : Z := 0x04.

(** [Address], [AddressRef]. *)
Inductive Address : Type := AIp (addr : SocketAddr) | ADomain (name : bytes) (port : Z).

#[export] Instance Address_eq_dec : EqDecision Address.
Proof. solve_decision. Defined.

(** [Address::port], [AddressRef::port]. *)
Definition address_port (a : Address) : Z := match a with AIp addr => sa_port addr | ADomain _ port => port end.

(** [AssociateError]. *)
Inductive AssociateError : Type :=
| AsIo (e : io_error) | InvalidCredentials | NoAcceptableAuth | AuthFailed | AsInvalidResponse | AsReply (code : Z).

(** [HeaderError]. *)
Inductive HeaderError : Type := HTruncated | HReserved | HFragmented | HUnsupportedAddress | HInvalidDomain.

(** [UdpAssociation]; its control connection is the I/O object of the futures. *)
Record UdpAssociation : Type := MkUdpAssociation { bound : Address }.

(** ** The datagram header *)

(** [put_ip]: the bytes it writes. *)
Definition put_ip (addr : SocketAddr) : bytes :=
  match to_canonical (sa_ip addr) with
  | V4 o => ATYP_IPV4 :: o
  | V6 o => ATYP_IPV6 :: o
  end ++ be_bytes 2 (sa_port addr).

(** [header_len]. *)
Definition header_len (target : Address) : Z :=
  match target with
  | AIp addr => match to_canonical (sa_ip addr) with V4 _ => 10 | V6 _ => 22 end
  | ADomain name _ => 7 + len name
  end.

(** [u8::try_from(n).ok().filter(|&n| n > 0)] *)
Definition nonzero_u8 (n : Z) : option Z := if (n <=? U8_MAX) && (0 <? n) then Some n else None.

(** [encode_header]: the bytes it writes; nothing on error. *)
Definition encode_header (target : Address) : result HeaderError bytes :=
  match target with
  | AIp addr => Ok ([0; 0; 0] ++ put_ip addr)
  | ADomain name port =>
      match nonzero_u8 (len name) with
      | None => Err HInvalidDomain
      | Some n => Ok ([0; 0; 0; ATYP_DOMAIN; n] ++ name ++ be_bytes 2 port)
      end
  end.

(** [split_at_checked(n)], [split_first_chunk::<n>()]. *)
Definition split_at_checked (n : Z) (b : bytes) : option (bytes * bytes) :=
  if n <=? len b then Some (ztake n b, zdrop n b) else None.
Definition or_truncated {A} (o : option A) : result HeaderError A := match o with Some a => Ok a | None => Err HTruncated end.

(** [decode_addr]. *)
Definition decode_addr (atyp : Z) (b : bytes) : result HeaderError (Address * bytes) :=
  if atyp =? ATYP_DOMAIN then
    '(n, rest) ← or_truncated (match b with n :: rest => Some (n, rest) | [] => None end);
    '(name, rest) ← or_truncated (split_at_checked n rest);
    '(port, rest) ← or_truncated (split_at_checked 2 rest);
    if from_utf8 name && negb (bool_decide (name = [])) then Ok (ADomain name (from_be port), rest)
    else Err HInvalidDomain
  else
    '(addr, rest) ←
      (if atyp =? ATYP_IPV4 then '(ip, rest) ← or_truncated (split_at_checked 4 b); Ok (V4 ip, rest)
       else if atyp =? ATYP_IPV6 then '(ip, rest) ← or_truncated (split_at_checked 16 b); Ok (V6 ip, rest)
       else Err HUnsupportedAddress);
    '(port, rest) ← or_truncated (split_at_checked 2 rest);
    Ok (AIp (sa_new (to_canonical addr) (from_be port)), rest).

(** [decode_header]. *)
Definition decode_header (datagram : bytes) : result HeaderError (Address * bytes) :=
  match datagram with
  | rsv0 :: rsv1 :: frag :: atyp :: rest =>
      if negb ((rsv0 =? 0) && (rsv1 =? 0)) then Err HReserved
      else if negb (frag =? 0) then Err HFragmented
      else decode_addr atyp rest
  | _ => Err HTruncated
  end.

(** ** Unframing *)

(** [Unframed]. *)
Record Unframed : Type := MkUnframed { uf_source : Address; uf_len : Z; uf_stride : Z; uf_consumed : Z }.

(** [slice::copy_within(lo..hi, dest)]; [None] where it panics. *)
Definition copy_within (lo hi dest : Z) (buf : bytes) : option bytes :=
  if dest + (hi - lo) <=? len buf then
    piece ← slice_get lo hi buf;
    Some (ztake dest buf ++ piece ++ zdrop (dest + (hi - lo)) buf)
  else None.

(** Computations on the received buffer. *)
Definition Uf (A : Type) : Type := M bytes Empty_set A.

(** [unframe], the loop. *)
Fixpoint unframe_loop (fuel : nat) (stride rd wr : Z) (run : option (Address * Z)) : Uf (Z * Z * option (Address * Z)) :=
  match fuel with
  | O => fun s => (s, NoFuel)
  | S k =>
      buf ← get;
      if len buf <=? rd then mret (rd, wr, run)
      else
        let fin := Z.min (saturating_add rd stride) (len buf) in
        datagram ← expect (slice_get rd fin buf);
        match decode_header datagram with
        | Err _ => unframe_loop k stride fin wr run
        | Ok (source, payload) =>
            let n := len payload in
            if match run with Some (first, s) => negb (bool_decide (first = source)) || (s <? n) | None => false end
            then mret (rd, wr, run)
            else
              let '(first, s) := match run with Some r => r | None => (source, n) end in
              lo ← expect (checked_sub fin n);
              buf ← expect (copy_within lo fin wr buf);
              modify (fun _ => buf);;
              if n <? s then mret (fin, wr + n, Some (first, s))
              else unframe_loop k stride fin (wr + n) (Some (first, s))
        end
  end.

(** The interface an address names: only a link-local one has any. *)
Definition zone (a : SocketAddr) : Z :=
  match a with SaV6 ip _ _ scope => if is_unicast_link_local ip then scope else 0 | SaV4 _ _ => 0 end.

(** Whether a datagram from [from] came through [relay]. *)
Definition from_relay (relay from : SocketAddr) : bool :=
  bool_decide (to_canonical (sa_ip from) = to_canonical (sa_ip relay)) && (sa_port from =? sa_port relay) &&
  ((zone relay =? 0) || (zone relay =? zone from)).

(** [unframe]. *)
Definition unframe (relay from : SocketAddr) (stride : Z) : Uf (option Unframed) :=
  if negb (from_relay relay from) then mret None
  else
    buf ← get;
    let stride := if stride =? 0 then len buf else stride in
    '(rd, wr, run) ← unframe_loop (S (length buf)) stride 0 0 None;
    match run with
    | None => mret None
    | Some (source, stride) => mret (Some (MkUnframed source wr stride rd))
    end.

(** ** The handshake *)

Definition aio {A} (f : future io_error A) : future AssociateError A := await_err AsIo f.

(** [read_exact] into a slice of [n] bytes: the bytes it holds then. *)
Fixpoint read_exact_loop (fuel : nat) (n : Z) : future io_error bytes :=
  match fuel with
  | O => Endless
  | S k =>
      if n <=? 0 then mret []
      else
        b ← read n;
        if decide (b = []) then throw (IoError UnexpectedEof NoPayload)
        else rest ← read_exact_loop k (n - len b); mret (b ++ rest)
  end.
Definition read_exact (n : Z) : future io_error bytes := read_exact_loop (S (Z.to_nat n)) n.

(** [read_array::<n>]. *)
Definition read_array (n : Z) : future io_error bytes := read_exact n.

(** [read_exact(io, &mut arr[lo..hi])]: the array afterwards. *)
Definition read_into (arr : bytes) (lo hi : Z) : future io_error bytes :=
  if (lo <=? hi) && (hi <=? len arr) then
    b ← read_exact (hi - lo); mret (ztake lo arr ++ b ++ zdrop hi arr)
  else Unwind.

(** The lengths of username and password. *)
Definition credential_len (s : bytes) : result AssociateError Z :=
  match nonzero_u8 (len s) with Some n => Ok n | None => Err InvalidCredentials end.
Definition check_auth (auth : option (bytes * bytes)) : result AssociateError (option (bytes * Z * bytes * Z)) :=
  match auth with
  | Some (username, password) =>
      ulen ← credential_len username; plen ← credential_len password; Ok (Some (username, ulen, password, plen))
  | None => Ok None
  end.

(** The authentication the proxy chose. *)
Definition authenticate (method : Z) (auth : option (bytes * Z * bytes * Z)) : future AssociateError unit :=
  if method =? NO_AUTH then mret tt
  else
    match auth with
    | Some (username, ulen, password, plen) =>
        if method =? USERNAME_PASSWORD then
          aio (send ([AUTH_VERSION; ulen] ++ username ++ [plen] ++ password));;
          r ← aio (read_array 2);
          match r with
          | [version; status] =>
              if negb (version =? AUTH_VERSION) then throw AsInvalidResponse
              else if negb (status =? 0) then throw AuthFailed
              else mret tt
          | _ => Unwind
          end
        else if method =? NO_ACCEPTABLE_METHODS then throw NoAcceptableAuth
        else throw AsInvalidResponse
    | None => if method =? NO_ACCEPTABLE_METHODS then throw NoAcceptableAuth else throw AsInvalidResponse
    end.

(** BND.ADDR and BND.PORT. *)
Definition read_bound (atyp : Z) : future AssociateError UdpAssociation :=
  let addr := replicate (1 + 255 + 2) 0 in
  '(addr, start, fin) ←
    (if atyp =? ATYP_IPV4 then mret (addr, 0, 4 + 2)
     else if atyp =? ATYP_IPV6 then mret (addr, 0, 16 + 2)
     else if atyp =? ATYP_DOMAIN then
       addr ← aio (read_into addr 0 1);
       match addr with n :: _ => mret (addr, 1, 1 + n + 2) | [] => Unwind end
     else throw AsInvalidResponse);
  addr ← aio (read_into addr start fin);
  match decode_addr atyp (ztake fin addr) with
  | Ok (bound, _) => if negb (address_port bound =? 0) then mret (MkUdpAssociation bound) else throw AsInvalidResponse
  | Err _ => throw AsInvalidResponse
  end.

(** [associate]. *)
Definition associate (auth : option (bytes * bytes)) (client_addr : SocketAddr) : future AssociateError UdpAssociation :=
  auth ← attempt (check_auth auth);
  aio (send (match auth with Some _ => [VERSION; 2; NO_AUTH; USERNAME_PASSWORD] | None => [VERSION; 1; NO_AUTH] end));;
  r ← aio (read_array 2);
  match r with
  | [version; method] =>
      if negb (version =? VERSION) then throw AsInvalidResponse
      else
        authenticate method auth;;
        aio (send ([VERSION; CMD_UDP_ASSOCIATE; 0x00] ++ put_ip client_addr));;
        r ← aio (read_array 4);
        match r with
        | [version; reply; rsv; atyp] =>
            if negb (version =? VERSION) || negb (rsv =? 0) then throw AsInvalidResponse
            else if negb (reply =? 0) then throw (AsReply reply)
            else read_bound atyp
        | _ => Unwind
        end
  | _ => Unwind
  end.

(** ** The association *)

(** [relay_addr]. *)
Definition relay_addr (this : UdpAssociation) (proxy : SocketAddr) : Address :=
  match bound this with
  | ADomain name port => ADomain name port
  | AIp bound =>
      let proxy_ip := to_canonical (sa_ip proxy) in
      let ip := if is_unspecified (sa_ip bound) then proxy_ip else sa_ip bound in
      AIp match ip, proxy with
          | V6 o, SaV6 _ _ _ scope => if decide (V6 o = proxy_ip) then SaV6 o (sa_port bound) 0 scope else sa_new ip (sa_port bound)
          | _, _ => sa_new ip (sa_port bound)
          end
  end.

(** [poll_closed], the loop: [Pending] after the last round is a yield, with a
    wake-up of the task itself. *)
Fixpoint closed_rounds {T} `{AsyncIo T} (n : nat) : M T io_error unit :=
  match n with
  | O => pend
  | S n => b ← aio_read 512; if decide (b = []) then mret tt else closed_rounds n
  end.
Definition poll_closed {T} `{AsyncIo T} : M T io_error unit := closed_rounds 16.
