(* ===== verification/SocksLaws.v ===== *)
(** * SocksLaws

    The SOCKS5 UDP header is read back as it was written, and a received buffer
    is unframed to exactly the payloads it holds. *)

From stdpp Require Import prelude.
From Stdlib Require Import ZArith Lia.
From S2P Require Import Prelude Wire Net Async SocksUdp.
Local Open Scope Z_scope.
Local Opaque be_bytes.

(** ** The header *)

(** The values of type [Address]. *)
Definition address_ok (a : Address) : Prop :=
  match a with AIp addr => sa_ok addr | ADomain name port => is_str name /\ is_u16 port end.

(** IPv4-mapped addresses in their IPv4 form, without flow label and scope. *)
Definition canonical (a : Address) : Address :=
  match a with AIp addr => AIp (sa_new (to_canonical (sa_ip addr)) (sa_port addr)) | ADomain name port => ADomain name port end.

(** Whether a SOCKS5 header can carry an address. *)
Definition sendable (a : Address) : Prop := match a with AIp _ => True | ADomain name _ => 0 < len name <= U8_MAX end.

Lemma split_at_checked_app n l r : len l = n -> split_at_checked n (l ++ r) = Some (l, r).
Proof.
  intros <-. unfold split_at_checked. rewrite len_app, (proj2 (Z.leb_le _ _)) by (pose proof (len_nonneg r); lia).
  by rewrite ztake_len_app, zdrop_len_app.
Qed.

Lemma split_at_checked_Some n b l r : 0 <= n -> split_at_checked n b = Some (l, r) -> b = l ++ r /\ len l = n.
Proof.
  unfold split_at_checked. intros Hn. case_match eqn:E; [|done]. intros [= <- <-]. zbool.
  rewrite ztake_zdrop, len_ztake by lia. split; [done|lia].
Qed.

Lemma u16_be p : is_u16 p -> from_be (be_bytes 2 p) = p.
Proof. intros Hp. rewrite from_be_bytes. apply Z.mod_small. revert Hp. change (256 ^ Z.of_nat 2) with 65536. unfold_u. lia. Qed.

Lemma be_u16 b : all_u8 b -> len b = 2 -> is_u16 (from_be b) /\ be_bytes 2 (from_be b) = b.
Proof.
  intros Hb Hl. pose proof (from_be_bound b Hb) as Hf. rewrite Hl in Hf. change (256 ^ 2) with 65536 in Hf.
  split; [unfold_u; lia|]. apply be_bytes_from; [done|unfold len in Hl; lia].
Qed.

(** An address as a header carries it: its type, its bytes and its port. *)
Definition addr_wire (ip : IpAddr) (port : Z) : Z * bytes :=
  match ip with V4 o => (ATYP_IPV4, o ++ be_bytes 2 port) | V6 o => (ATYP_IPV6, o ++ be_bytes 2 port) end.

Lemma put_ip_wire addr : put_ip addr = (addr_wire (to_canonical (sa_ip addr)) (sa_port addr)).1 :: (addr_wire (to_canonical (sa_ip addr)) (sa_port addr)).2.
Proof. unfold put_ip. by destruct (to_canonical _). Qed.

Lemma decode_ip_wire ip port rest :
  ip_ok ip -> is_u16 port ->
  decode_addr (addr_wire ip port).1 ((addr_wire ip port).2 ++ rest) = Ok (AIp (sa_new (to_canonical ip) port), rest).
Proof.
  intros Hi Hp. destruct ip as [o|o]; destruct Hi as [Hl Hu]; simpl; unfold decode_addr; simpl;
    rewrite <- (assoc_L (++)), split_at_checked_app by (unfold len; lia); simpl;
    rewrite split_at_checked_app by apply len_be_bytes; simpl; by rewrite u16_be.
Qed.

Lemma decode_domain_wire name port rest :
  is_str name -> is_u16 port -> 0 < len name ->
  decode_addr ATYP_DOMAIN ((len name :: name ++ be_bytes 2 port) ++ rest) = Ok (ADomain name port, rest).
Proof.
  intros Hs Hp Hn. unfold decode_addr. simpl. rewrite <- (assoc_L (++)), split_at_checked_app by done. simpl.
  rewrite split_at_checked_app by apply len_be_bytes. simpl. rewrite Hs, u16_be by done. simpl.
  rewrite bool_decide_false; [done|]. intros ->. by change (len (@nil Z)) with 0 in Hn.
Qed.

Lemma nonzero_u8_iff n m : nonzero_u8 n = Some m <-> m = n /\ 0 < n <= U8_MAX.
Proof. unfold nonzero_u8. case_match eqn:E; zbool; split; intros; destruct_and?; simplify_eq; try done; lia. Qed.

Lemma nonzero_u8_None n : nonzero_u8 n = None <-> ~ 0 < n <= U8_MAX.
Proof. unfold nonzero_u8. case_match eqn:E; zbool; (split; [intros; try done; lia|intros; try done; lia]). Qed.

(** The header and then any payload are read back as the address and that
    payload. *)
Lemma decode_encode a h payload :
  address_ok a -> encode_header a = Ok h ->
  decode_header (h ++ payload) = Ok (canonical a, payload) /\ len h = header_len a.
Proof.
  destruct a as [addr|name port]; simpl.
  - intros [Hi Hp] [= <-]. apply to_canonical_ok in Hi. cbn [app]. rewrite put_ip_wire. cbn [app decode_header].
    change (negb _) with false. cbv iota. rewrite decode_ip_wire, to_canonical_idemp by done. split; [done|].
    rewrite !len_cons. destruct (to_canonical (sa_ip addr)) as [o|o]; simpl; rewrite len_app, len_be_bytes;
      destruct Hi as [Hl _]; unfold len; lia.
  - intros [Hs Hp]. destruct (nonzero_u8 _) as [n|] eqn:En; [|done]. apply nonzero_u8_iff in En as [-> Hn]. intros [= <-].
    cbn [app decode_header]. change (negb _) with false. cbv iota.
    rewrite app_comm_cons, <- (decode_domain_wire name port payload Hs Hp) by lia. split; [done|].
    rewrite !len_cons, len_app, len_be_bytes. lia.
Qed.

Lemma encode_header_sendable a : (exists h, encode_header a = Ok h) <-> sendable a.
Proof.
  destruct a as [addr|name port]; simpl; [naive_solver|].
  destruct (nonzero_u8 _) as [n|] eqn:En.
  - apply nonzero_u8_iff in En as [-> Hn]. naive_solver.
  - apply nonzero_u8_None in En. naive_solver.
Qed.

(** The one other header an address has: an IPv4-mapped form. *)
Definition mapped_header (a : Address) (h : bytes) : Prop :=
  exists o port, a = AIp (SaV4 o port) /\ h = [0; 0; 0; ATYP_IPV6] ++ V4_MAPPED ++ o ++ be_bytes 2 port.

Lemma decode_addr_sound atyp b a rest :
  all_u8 b -> decode_addr atyp b = Ok (a, rest) ->
  exists w, b = w ++ rest /\ address_ok a /\ canonical a = a /\ sendable a /\
    (encode_header a = Ok ([0; 0; 0; atyp] ++ w) \/ mapped_header a ([0; 0; 0; atyp] ++ w)).
Proof.
  intros Hb. unfold decode_addr. destruct (atyp =? ATYP_DOMAIN) eqn:Ea; zbool.
  { subst atyp. destruct b as [|n b]; [done|]. simpl. apply Forall_cons in Hb as [Hn Hb].
    destruct (split_at_checked n b) as [[name r1]|] eqn:E1; [|done]. simpl.
    apply split_at_checked_Some in E1 as [-> Hln]; [|ulia]. apply Forall_app in Hb as [Hbn Hb].
    destruct (split_at_checked 2 r1) as [[port r2]|] eqn:E2; [|done]. simpl.
    apply split_at_checked_Some in E2 as [-> Hlp]; [|lia]. apply Forall_app in Hb as [Hbp Hb].
    destruct (from_utf8 name) eqn:Eu; [|done]. simpl. case_bool_decide as Hne; [done|]. simpl. intros [= <- <-].
    destruct (be_u16 port Hbp Hlp) as [Hp Hpe]. apply len_pos in Hne.
    exists (n :: name ++ port). simpl. rewrite <- (assoc_L (++)), Hpe.
    replace (nonzero_u8 (len name)) with (Some n) by (symmetry; apply nonzero_u8_iff; unfold is_u8, U8_MAX in *; lia).
    split_and!; try done; [unfold is_u8, U8_MAX in *; lia|by left]. }
  set (m := if atyp =? ATYP_IPV4 then _ else _).
  destruct m as [[ip r1]|] eqn:Em; [|done]. subst m.
  assert (exists o, b = o ++ r1 /\ all_u8 r1 /\ ip_ok ip /\
    ((atyp = ATYP_IPV4 /\ ip = V4 o) \/ (atyp = ATYP_IPV6 /\ ip = V6 o))) as (o & -> & Hr1 & Hip & Hcase).
  { destruct (atyp =? ATYP_IPV4) eqn:E4; [|destruct (atyp =? ATYP_IPV6) eqn:E6; [|done]]; zbool; simpl in Em.
    - destruct (split_at_checked 4 b) as [[o r]|] eqn:E1; [|done]. simpl in Em. simplify_eq.
      apply split_at_checked_Some in E1 as [-> Hl]; [|lia]. apply Forall_app in Hb as [Hbo Hbr].
      exists o. split_and!; [done..|split; [unfold len in Hl; lia|done]|by left].
    - destruct (split_at_checked 16 b) as [[o r]|] eqn:E1; [|done]. simpl in Em. simplify_eq.
      apply split_at_checked_Some in E1 as [-> Hl]; [|lia]. apply Forall_app in Hb as [Hbo Hbr].
      exists o. split_and!; [done..|split; [unfold len in Hl; lia|done]|by right]. }
  simpl. destruct (split_at_checked 2 r1) as [[port r2]|] eqn:E2; [|done]. simpl. intros [= <- <-].
  apply split_at_checked_Some in E2 as [-> Hlp]; [|lia]. apply Forall_app in Hr1 as [Hbp _].
  destruct (be_u16 port Hbp Hlp) as [Hp Hpe]. apply to_canonical_ok in Hip as Hic.
  exists (o ++ port). rewrite <- (assoc_L (++)). split; [done|].
  assert (forall ip', sa_ip (sa_new ip' (from_be port)) = ip' /\ sa_port (sa_new ip' (from_be port)) = from_be port) as Hsn
    by by intros [].
  split_and!; simpl.
  - unfold sa_ok. rewrite (proj1 (Hsn _)), (proj2 (Hsn _)). done.
  - rewrite (proj1 (Hsn _)), (proj2 (Hsn _)), to_canonical_idemp. done.
  - done.
  - rewrite put_ip_wire, (proj1 (Hsn _)), (proj2 (Hsn _)), to_canonical_idemp.
    destruct Hcase as [[-> ->] | [-> ->]]; simpl; [left; by rewrite Hpe|].
    case_decide as Hm; simpl; [|left; by rewrite Hpe]. right. exists (drop 12 o), (from_be port). split; [done|].
    assert (V4_MAPPED ++ drop 12 o = o) as Ho by (rewrite <- Hm; apply take_drop).
    by rewrite Hpe, (assoc_L (++) V4_MAPPED), Ho.
Qed.

(** Whatever is accepted is a header followed by the payload. *)
Lemma decode_header_sound d a payload :
  all_u8 d -> decode_header d = Ok (a, payload) ->
  exists h, d = h ++ payload /\ address_ok a /\ canonical a = a /\ sendable a /\ (encode_header a = Ok h \/ mapped_header a h).
Proof.
  intros Hd. destruct d as [|r0 [|r1 [|f [|atyp rest]]]]; try done. simpl.
  destruct (negb _) eqn:Er; [done|]. destruct (negb (f =? 0)) eqn:Ef; [done|]. intros Ha.
  assert (r0 = 0 /\ r1 = 0 /\ f = 0) as (-> & -> & ->) by (zbool; lia).
  apply decode_addr_sound in Ha as (w & -> & Hok & Hc & Hs & He); [|by do 4 apply Forall_cons in Hd as [_ Hd]].
  by exists ([0; 0; 0; atyp] ++ w).
Qed.

(** ** Unframing *)

(** [slice::chunks(n)]. *)
Fixpoint chunks_loop (fuel : nat) (n : Z) (b : bytes) : list bytes :=
  match fuel with
  | O => []
  | S k => if decide (b = []) then [] else ztake n b :: chunks_loop k n (zdrop n b)
  end.
Definition chunks (n : Z) (b : bytes) : list bytes := chunks_loop (length b) n b.

Lemma chunks_loop_fuel n b k : 0 < n -> (length b <= k)%nat -> chunks_loop k n b = chunks n b.
Proof.
  intros Hn. unfold chunks. remember (length b) as m eqn:Em. assert (length b <= m)%nat as Hm by lia. clear Em.
  revert b k Hm. induction m as [|m IH]; intros b k Hb Hk; [destruct b; [by destruct k|simpl in Hb; lia]|].
  destruct k as [|k]; [lia|]. cbn [chunks_loop]. case_decide as Hd; [done|]. f_equal.
  assert (length (zdrop n b) <= m)%nat as Hl.
  { enough (len (zdrop n b) < len b) by (unfold len in *; lia). rewrite len_zdrop by lia. apply len_pos in Hd. lia. }
  by apply IH; [|lia].
Qed.

Lemma chunks_cons n b : 0 < n -> b ≠ [] -> chunks n b = ztake n b :: chunks n (zdrop n b).
Proof.
  intros Hn Hb. unfold chunks at 1. destruct b as [|x b]; [done|]. cbn [length chunks_loop]. rewrite decide_False by done.
  f_equal. apply chunks_loop_fuel; [done|]. enough (len (zdrop n (x :: b)) < len (x :: b)) by (unfold len in *; simpl in *; lia).
  rewrite len_zdrop by lia. rewrite len_cons. pose proof (len_nonneg b). lia.
Qed.

Lemma chunks_count n b : 0 < n -> (length (chunks n b) < S (length b))%nat.
Proof.
  intros Hn. unfold chunks. generalize (length b) as k. intros k. revert b. induction k as [|k IH]; intros b; [simpl; lia|].
  cbn [chunks_loop]. case_decide; simpl; [lia|]. specialize (IH (zdrop n b)). lia.
Qed.

(** Payloads of one length, the last at most as long, are cut apart again. *)
Lemma chunks_concat s ps :
  0 < s -> Forall (fun p => len p = s) ps -> forall q, 0 < len q <= s -> chunks s (concat ps ++ q) = ps ++ [q].
Proof.
  intros Hs. induction 1 as [|p ps Hp Hps IH]; intros q Hq; simpl.
  - rewrite chunks_cons by (done || (intros ->; change (len (@nil Z)) with 0 in Hq; lia)).
    by rewrite ztake_all, zdrop_all by lia.
  - rewrite <- (assoc_L (++)), chunks_cons;
      [|done|intros Hn; apply (f_equal len) in Hn; rewrite len_app in Hn; change (len (@nil Z)) with 0 in Hn;
             pose proof (len_nonneg (concat ps ++ q)); lia].
    assert (forall x, ztake s (p ++ x) = p /\ zdrop s (p ++ x) = x) as Hx
      by (intros x; rewrite <- Hp; by rewrite ztake_len_app, zdrop_len_app).
    by rewrite (proj1 (Hx _)), (proj2 (Hx _)), IH.
Qed.

(** The datagrams of a buffer that have a header, with source and payload. *)
Definition decoded (ds : list bytes) : list (Address * bytes) :=
  omap (fun d => match decode_header d with Ok x => Some x | Err _ => None end) ds.

(** The run at the front of a list of datagrams: the payloads of it, what is
    known of it and the datagrams after it. *)
Fixpoint take_run (run : option (Address * Z)) (ds : list bytes) : list bytes * option (Address * Z) * list bytes :=
  match ds with
  | [] => ([], run, [])
  | d :: ds' =>
      match decode_header d with
      | Err _ => take_run run ds'
      | Ok (source, p) =>
          if match run with Some (first, s) => negb (bool_decide (first = source)) || (s <? len p) | None => false end
          then ([], run, ds)
          else
            let '(first, s) := match run with Some r => r | None => (source, len p) end in
            if len p <? s then ([p], Some (first, s), ds')
            else let '(ps, run', ds'') := take_run (Some (first, s)) ds' in (p :: ps, run', ds'')
      end
  end.

Lemma split_at_checked_eq n b l r : split_at_checked n b = Some (l, r) -> b = l ++ r.
Proof. unfold split_at_checked. case_match; [|done]. intros [= <- <-]. by rewrite ztake_zdrop. Qed.

Lemma decode_addr_suffix atyp b a p : decode_addr atyp b = Ok (a, p) -> exists h, b = h ++ p.
Proof.
  pose proof split_at_checked_eq as Hs. unfold decode_addr. intros Hd.
  destruct (atyp =? ATYP_DOMAIN).
  - destruct b as [|n b]; [done|]. simpl in Hd. destruct (split_at_checked n b) as [[name r1]|] eqn:E1; [|done]. simpl in Hd.
    destruct (split_at_checked 2 r1) as [[port r2]|] eqn:E2; [|done]. simpl in Hd. case_match; [|done]. simplify_eq.
    apply Hs in E1 as ->, E2 as ->. exists ((n :: name) ++ port). by rewrite <- (assoc_L (++)).
  - destruct (if atyp =? ATYP_IPV4 then _ else _) as [[ip r1]|] eqn:Em; [|done]. simpl in Hd.
    destruct (split_at_checked 2 r1) as [[port r2]|] eqn:E2; [|done]. simpl in Hd. simplify_eq. apply Hs in E2 as ->.
    assert (exists h, b = h ++ port ++ p) as [h ->].
    { destruct (atyp =? ATYP_IPV4); [|destruct (atyp =? ATYP_IPV6); [|done]]; simpl in Em;
        [destruct (split_at_checked 4 b) as [[o r]|] eqn:E1|destruct (split_at_checked 16 b) as [[o r]|] eqn:E1]; try done;
        simpl in Em; simplify_eq; apply Hs in E1 as ->; eauto. }
    exists (h ++ port). by rewrite <- (assoc_L (++)).
Qed.

Lemma decode_header_suffix d a p : decode_header d = Ok (a, p) -> exists h, d = h ++ p.
Proof.
  destruct d as [|r0 [|r1 [|f [|atyp rest]]]]; try done. simpl. repeat (case_match; [done|]).
  intros [h ->]%decode_addr_suffix. by exists ([r0; r1; f; atyp] ++ h).
Qed.

(** Moving a payload to the front leaves what follows it alone. *)
Lemma copy_within_spec lo fin wr buf :
  0 <= wr <= lo -> lo <= fin <= len buf ->
  exists buf', copy_within lo fin wr buf = Some buf' /\ len buf' = len buf /\
    ztake (wr + (fin - lo)) buf' = ztake wr buf ++ ztake (fin - lo) (zdrop lo buf) /\ zdrop fin buf' = zdrop fin buf.
Proof.
  intros Hw Hl. unfold copy_within, slice_get. rewrite !(proj2 (Z.leb_le _ _)) by lia. simpl.
  set (piece := ztake (fin - lo) (zdrop lo buf)). set (tl := zdrop (wr + (fin - lo)) buf).
  assert (len piece = fin - lo) as Hp by (unfold piece; rewrite len_ztake, len_zdrop by lia; lia).
  assert (len (ztake wr buf) = wr) as Ht by (rewrite len_ztake by lia; lia).
  eexists. split; [done|]. split_and!.
  - rewrite !len_app, Hp, Ht. unfold tl. rewrite len_zdrop by lia. lia.
  - rewrite (assoc_L (++)). replace (wr + (fin - lo)) with (len (ztake wr buf ++ piece)) by (rewrite len_app; lia).
    apply ztake_len_app.
  - rewrite (assoc_L (++)), zdrop_app, zdrop_all by (rewrite ?len_app; lia). rewrite len_app, Hp, Ht. unfold tl.
    rewrite zdrop_zdrop by lia. simpl. f_equal. lia.
Qed.

(** What the loop leaves: the packed payloads of the run, and the rest. *)
Lemma unframe_loop_spec fuel stride rd wr run buf ps run' ds' :
  0 < stride -> 0 <= wr <= rd -> rd <= len buf <= USIZE_MAX -> (Z.to_nat (len buf - rd) < fuel)%nat ->
  take_run run (chunks stride (zdrop rd buf)) = (ps, run', ds') ->
  wp (unframe_loop fuel stride rd wr run) (fun o buf' =>
    exists rd' wr', o = Ready (rd', wr', run') /\ len buf' = len buf /\ rd <= rd' <= len buf /\ wr' <= rd' /\
      wr' = wr + len (concat ps) /\ ztake wr' buf' = ztake wr buf ++ concat ps /\
      zdrop rd' buf' = zdrop rd' buf /\ chunks stride (zdrop rd' buf') = ds') buf.
Proof.
  intros Hs. revert rd wr run buf ps. induction fuel as [|fuel IH]; intros rd wr run buf ps Hw Hr Hf Ht; [lia|].
  cbn [unframe_loop]. wp_step. wp_step. destruct (len buf <=? rd) eqn:Ee; zbool.
  { wp_step. rewrite (zdrop_all rd) in Ht by lia. simplify_eq/=. exists rd, wr. rewrite app_nil_r.
    change (len (@nil Z)) with 0. rewrite zdrop_all by lia. split_and!; done || lia. }
  set (fin := Z.min (saturating_add rd stride) (len buf)).
  assert (fin = Z.min (rd + stride) (len buf)) as Hfin by (unfold fin, saturating_add; lia).
  assert (zdrop rd buf ≠ []) as Hne.
  { intros Hn. apply (f_equal len) in Hn. rewrite len_zdrop in Hn by lia. change (len (@nil Z)) with 0 in Hn. lia. }
  rewrite chunks_cons in Ht by done.
  assert (ztake stride (zdrop rd buf) = ztake (fin - rd) (zdrop rd buf)) as Hd.
  { destruct (decide (rd + stride <= len buf)); [f_equal; lia|].
    rewrite !ztake_all by (rewrite len_zdrop by lia; lia). done. }
  assert (zdrop stride (zdrop rd buf) = zdrop fin buf) as Hz.
  { rewrite zdrop_zdrop by lia. destruct (decide (rd + stride <= len buf)); [f_equal; lia|]. rewrite !zdrop_all by lia. done. }
  rewrite Hd, Hz in Ht. set (d := ztake (fin - rd) (zdrop rd buf)) in *.
  assert (slice_get rd fin buf = Some d) as Hg by (unfold slice_get; by rewrite !(proj2 (Z.leb_le _ _)) by lia).
  wp_step. wp_expect Hg. cbn [take_run] in Ht. destruct (decode_header d) as [[source p]|e] eqn:Ed.
  2: { eapply wp_mono; [apply IH; [lia|lia|lia|exact Ht]|]. cbv beta. intros o buf' (rd' & wr' & Ho & Hb). exists rd', wr'.
       destruct_and?. split_and!; try done; lia. }
  destruct (match run with Some _ => _ | None => false end) eqn:Estop.
  { wp_step. injection Ht as <- <- <-. exists rd, wr. simpl. rewrite app_nil_r, chunks_cons by done. rewrite Hd, Hz.
    change (len (@nil Z)) with 0. split_and!; done || lia. }
  apply decode_header_suffix in Ed as [h Hh].
  assert (len d = fin - rd) as Hld by (unfold d; rewrite len_ztake, len_zdrop by lia; lia).
  assert (len d = len h + len p) as Hlp by (by rewrite Hh, len_app). pose proof (len_nonneg h). pose proof (len_nonneg p).
  destruct (match run with Some r => r | None => _ end) as [first s] eqn:Erun.
  wp_step. wp_expect (checked_sub_le fin (len p) ltac:(lia)).
  destruct (copy_within_spec (fin - len p) fin wr buf) as (buf' & Hc & Hlb & Htk & Hdr); [lia|lia|].
  wp_step. wp_expect Hc. replace (fin - (fin - len p)) with (len p) in Htk by lia.
  assert (ztake (len p) (zdrop (fin - len p) buf) = p) as Hpp.
  { replace (fin - len p) with (rd + len h) by lia. rewrite <- zdrop_zdrop by lia.
    assert (exists tl, zdrop rd buf = h ++ p ++ tl) as [tl ->].
    { exists (zdrop (fin - rd) (zdrop rd buf)). rewrite (assoc_L (++)), <- Hh. symmetry. apply ztake_zdrop. }
    by rewrite zdrop_len_app, ztake_len_app. }
  rewrite Hpp in Htk. wp_step. wp_step. destruct (len p <? s) eqn:Es; zbool.
  { wp_step. injection Ht as <- <- <-. exists fin, (wr + len p). simpl. rewrite app_nil_r, Hdr. split_and!; done || lia. }
  destruct (take_run (Some (first, s)) (chunks stride (zdrop fin buf))) as [[ps1 r1] d1] eqn:Et1. injection Ht as <- <- <-.
  rewrite <- Hdr in Et1. eapply wp_mono; [apply IH; [lia|lia|lia|exact Et1]|]. cbv beta.
  intros o buf2 (rd' & wr' & -> & Hl2 & Hr2 & Hwr2 & Hw2 & Ht2 & Hd2 & Hc2). exists rd', wr'.
  simpl. rewrite len_app. split_and!; try done; try lia.
  - by rewrite Ht2, Htk, <- (assoc_L (++)).
  - rewrite Hd2. replace rd' with (fin + (rd' - fin)) by lia. rewrite <- !zdrop_zdrop by lia. by rewrite Hdr.
Qed.

(** The payloads of a run: all of the first one's length but the last, which
    may be shorter. *)
Definition run_payloads (s : Z) (ps : list bytes) : Prop :=
  Forall (fun p => len p = s) ps \/ exists qs q, ps = qs ++ [q] /\ Forall (fun p => len p = s) qs /\ len q < s.

Lemma run_payloads_cons s p ps : len p = s -> run_payloads s ps -> run_payloads s (p :: ps).
Proof.
  intros Hp [Hps|(qs & q & -> & Hqs & Hq)]; [left; by constructor|]. right. exists (p :: qs), q. split_and!; auto.
Qed.

Lemma decoded_cons d ds : decoded (d :: ds) = match decode_header d with Ok x => x :: decoded ds | Err _ => decoded ds end.
Proof. unfold decoded. simpl. by destruct (decode_header d). Qed.

Lemma take_run_spec ds run ps run' ds' :
  take_run run ds = (ps, run', ds') ->
  (length ds' <= length ds)%nat /\
  match run' with
  | None => run = None /\ decoded ds = []
  | Some (src, s) =>
      (run = Some (src, s) \/ run = None /\ (length ds' < length ds)%nat /\ 0 <= s) /\
      decoded ds = map (pair src) ps ++ decoded ds' /\ run_payloads s ps
  end.
Proof.
  revert run ps. induction ds as [|d ds IH]; intros run ps; cbn [take_run].
  { intros [= <- <- <-]. split; [done|]. destruct run as [[src s]|]; [|done]. split_and!; [by left|done|by left]. }
  rewrite decoded_cons. destruct (decode_header d) as [[source p]|e] eqn:Ed.
  2: { intros [Hl Hr]%IH. split; [simpl; lia|]. destruct run' as [[src s]|]; [|done]. destruct Hr as (Hr & Hd & Hp).
       split_and!; [|done..]. destruct Hr as [->|(-> & Hlt & Hs)]; [by left|right; split_and!; simpl; lia || done]. }
  pose proof (len_nonneg p) as Hp0.
  destruct (match run with Some _ => _ | None => false end) eqn:Estop.
  { intros [= <- <- <-]. split; [done|]. destruct run as [[src s]|]; [|done].
    rewrite decoded_cons, Ed. split_and!; [by left|done|by left]. }
  destruct (match run with Some r => r | None => _ end) as [first s] eqn:Erun.
  assert (first = source /\ len p <= s /\ (run = Some (first, s) \/ run = None /\ s = len p)) as (-> & Hs & Hrun).
  { destruct run as [[f0 s0]|]; simplify_eq; [|split_and!; [done|done|by right]].
    apply orb_false_iff in Estop as [Hf%negb_false_iff Hle]. zbool. apply bool_decide_eq_true in Hf. split_and!; auto. }
  destruct (len p <? s) eqn:Eps; zbool.
  { intros [= <- <- <-]. split; [simpl; lia|]. split_and!; [|done|right; by exists [], p].
    destruct Hrun as [->|[-> ->]]; [by left|lia]. }
  destruct (take_run (Some (source, s)) ds) as [[ps1 r1] d1] eqn:Et. intros [= <- <- <-].
  apply IH in Et as [Hl Hr]. split; [simpl; lia|]. destruct r1 as [[src s1]|]; [|by destruct Hr].
  destruct Hr as ([[= <- <-]|[? _]] & Hd & Hps); [|done].
  split_and!; [|by rewrite Hd|apply run_payloads_cons; [lia|done]].
  destruct Hrun as [->|[-> ->]]; [by left|right; split_and!; simpl; lia || done].
Qed.

(** Cutting the packed payloads of a run at its stride gives them back, but for
    empty ones, which leave nothing. *)
Lemma chunks_run s ps : 0 <= s -> run_payloads s ps -> chunks s (concat ps) = filter (fun p => p ≠ []) ps.
Proof.
  intros Hs Hps.
  assert (forall qs : list bytes, 0 < s -> Forall (fun p => len p = s) qs -> filter (fun p => p ≠ []) qs = qs) as Hfull.
  { intros qs Hs0. induction 1 as [|q qs Hq Hqs IH]; [done|]. rewrite filter_cons_True, IH; [done|].
    intros ->. change (len (@nil Z)) with 0 in Hq. lia. }
  assert (forall qs, 0 < s -> Forall (fun p => len p = s) qs -> chunks s (concat qs) = qs) as Hall.
  { intros qs Hs0 Hqs. destruct qs as [|q qs _] using rev_ind; [done|]. apply Forall_app in Hqs as [Hqs [Hq _]%Forall_cons].
    rewrite concat_app. simpl. rewrite app_nil_r. apply chunks_concat; [done|done|lia]. }
  destruct (decide (s = 0)) as [->|Hn].
  - assert (Forall (fun p : bytes => p = []) ps) as He.
    { destruct Hps as [Hps|(qs & q & _ & _ & Hq)]; [|pose proof (len_nonneg q); lia].
      eapply Forall_impl; [exact Hps|]. intros p. apply len_zero. }
    assert (concat ps = [] /\ filter (fun p => p ≠ []) ps = []) as [-> ->]; [|done].
    induction He as [|p ps -> He IH]; [done|]. destruct IH as [H1 H2].
    { destruct Hps as [Hps|(qs & q & _ & _ & Hq)]; [left; by apply Forall_cons in Hps as [_ ?]|pose proof (len_nonneg q); lia]. }
    simpl. by rewrite H1, filter_cons_False, H2 by (intros Hf; by apply Hf).
  - destruct Hps as [Hps|(qs & q & -> & Hqs & Hq)]; [rewrite Hfull, Hall; done || lia|].
    rewrite filter_app, Hfull, concat_app by (done || lia). simpl. destruct (decide (q = [])) as [->|Hne].
    + rewrite filter_cons_False, filter_nil, !app_nil_r by (intros Hf; by apply Hf). apply Hall; [lia|done].
    + rewrite filter_cons_True, filter_nil, app_nil_r by done. apply len_pos in Hne. apply chunks_concat; [lia|done|lia].
Qed.
