(* ===== verification/SocksTheorems.v ===== *)
(** * SocksTheorems

    The UDP ASSOCIATE handshake of [proxy/socks/udp.rs] against the protocol of
    RFC 1928 and RFC 1929: what the proxy has to answer for the association to
    be granted, and what the client says on the way. *)

From stdpp Require Import prelude.
From Stdlib Require Import ZArith Lia.
From S2P Require Import Prelude Wire Net Async SocksUdp SocksLaws.
Local Open Scope Z_scope.

Local Opaque be_bytes.

(** ** The protocol *)

(** An address as a reply carries it: type, bytes, port. *)
Definition wire_of (a : Address) (w : bytes) : Prop :=
  address_ok a /\ canonical a = a /\ (encode_header a = Ok ([0; 0; 0] ++ w) \/ mapped_header a ([0; 0; 0] ++ w)).

Definition greeting (auth : option (bytes * bytes)) : bytes :=
  match auth with Some _ => [5; 2; 0; 2] | None => [5; 1; 0] end.
Definition login (username password : bytes) : bytes := [1; len username] ++ username ++ [len password] ++ password.
Definition udp_request (client : SocketAddr) : bytes := [5; 3; 0] ++ put_ip client.

(** Credentials RFC 1929 can carry. *)
Definition credentials_ok (auth : option (bytes * bytes)) : Prop :=
  match auth with Some (u, p) => 0 < len u <= U8_MAX /\ 0 < len p <= U8_MAX | None => True end.

(** How the proxy lets the client in, and what the client says for it. *)
Inductive auth_round (auth : option (bytes * bytes)) : bytes -> bytes -> Prop :=
| round_open : auth_round auth [5; 0] []
| round_password u p : auth = Some (u, p) -> auth_round auth [5; 2; 1; 0] (login u p).

(** A granted exchange: the proxy's bytes and the client's. *)
Definition granted (auth : option (bytes * bytes)) (client : SocketAddr) (replies sent : bytes) (a : Address) : Prop :=
  exists m l w, auth_round auth m l /\ wire_of a w /\ address_port a ≠ 0 /\
    replies = m ++ [5; 0; 0] ++ w /\ sent = greeting auth ++ l ++ udp_request client.

(** The proxy's bytes do not begin with a granted exchange. *)
Definition never_granted (auth : option (bytes * bytes)) (client : SocketAddr) (inc : bytes) : Prop :=
  forall x rest sent a, inc = x ++ rest -> ~ granted auth client x sent a.

(** Why the client gave up, after what the proxy said. *)
Definition refusal (auth : option (bytes * bytes)) (e : AssociateError) (replies rest : bytes) : Prop :=
  match e with
  | AsIo e => e = IoError UnexpectedEof NoPayload /\ rest = []
  | InvalidCredentials => ~ credentials_ok auth /\ replies = []
  | NoAcceptableAuth => replies = [5; 0xFF]
  | AuthFailed => exists s, s ≠ 0 /\ replies = [5; 2; 1; s]
  | AsReply c => exists m l atyp, c ≠ 0 /\ auth_round auth m l /\ replies = m ++ [5; c; 0; atyp]
  | AsInvalidResponse => True
  end.

(** ** Addresses in replies *)

Lemma wire_of_app a w rest :
  wire_of a w -> exists atyp b, w = atyp :: b /\ decode_addr atyp (b ++ rest) = Ok (a, rest).
Proof.
  intros (Hok & Hc & [He|(o & port & -> & Hh)]).
  - destruct (decode_encode a _ rest Hok He) as [Hd _]. rewrite Hc in Hd. destruct w as [|atyp b].
    { by destruct a as [addr|name port]; simpl in He; [rewrite put_ip_wire in He|repeat case_match]. }
    exists atyp, b. split; [done|]. exact Hd.
  - injection Hh as ->. exists ATYP_IPV6, (V4_MAPPED ++ o ++ be_bytes 2 port). split; [done|].
    destruct Hok as [[Hl Hu] Hp]. simpl in Hl, Hu, Hp.
    pose proof (decode_ip_wire (V6 (V4_MAPPED ++ o)) port rest) as Hd. cbn [addr_wire fst snd] in Hd.
    rewrite <- !(assoc_L (++)) in Hd |- *. rewrite Hd; [|split; [rewrite length_app; by rewrite Hl|]|done].
    + done.
    + apply Forall_app. split; [|done]. unfold V4_MAPPED. repeat constructor; unfold_u; lia.
Qed.

Lemma wire_of_len a atyp b :
  wire_of a (atyp :: b) ->
  atyp = ATYP_IPV4 /\ len b = 6 \/ atyp = ATYP_IPV6 /\ len b = 18 \/
  atyp = ATYP_DOMAIN /\ exists n b', b = n :: b' /\ len b' = n + 2 /\ is_u8 n.
Proof.
  intros (Hok & Hc & [He|(o & port & -> & Hh)]).
  - destruct a as [addr|name port]; simpl in He.
    + destruct Hok as [Hi _]. apply to_canonical_ok in Hi. rewrite put_ip_wire in He.
      destruct (to_canonical (sa_ip addr)) as [o|o]; destruct Hi as [Hl _]; injection He as <- <-;
        rewrite len_app, len_be_bytes; [left|right; left]; unfold len; split; done || lia.
    + destruct (nonzero_u8 _) as [n|] eqn:En; [|done]. apply nonzero_u8_iff in En as [-> Hn]. injection He as <- <-.
      right. right. split; [done|]. eexists _, _. split; [done|]. rewrite len_app, len_be_bytes. unfold_u. lia.
  - injection Hh as -> ->. right. left. split; [done|]. destruct Hok as [[Hl _] _]. simpl in Hl.
    rewrite ?len_cons, len_app, len_be_bytes. unfold len. lia.
Qed.

Lemma wire_of_domain a b : wire_of a (ATYP_DOMAIN :: b) -> exists n b', b = n :: b'.
Proof. intros [[? _]|[[? _]|(_ & n & b' & -> & _)]]%wire_of_len; [done..|eauto]. Qed.

Lemma decode_addr_wire atyp b a rest :
  all_u8 b -> decode_addr atyp b = Ok (a, rest) -> exists w, b = w ++ rest /\ wire_of a (atyp :: w).
Proof. intros Hb Hd. apply decode_addr_sound in Hd as (w & -> & Hok & Hc & _ & He); [|done]. by exists w. Qed.

(** A granted exchange at the front of [inc]. *)
Lemma granted_front auth client inc x rest sent a :
  inc = x ++ rest -> granted auth client x sent a ->
  exists m l atyp w, auth_round auth m l /\ wire_of a (atyp :: w) /\ address_port a ≠ 0 /\
    inc = m ++ [5; 0; 0; atyp] ++ w ++ rest.
Proof.
  intros -> (m & l & w & Hm & Hw & Hp & -> & ->). destruct (wire_of_app a w rest Hw) as (atyp & b & -> & _).
  exists m, l, atyp, b. split_and!; try done. by rewrite <- !(assoc_L (++)).
Qed.

(** ** Reading *)

Lemma fwp_read_exact fault n Q inc out :
  0 <= n ->
  (forall b rest, inc = b ++ rest -> len b = n -> Q (Ok b) rest out) ->
  (forall e p rest, fault e -> inc = p ++ rest -> Q (Err e) rest out) ->
  (len inc < n -> Q (Err (IoError UnexpectedEof NoPayload)) [] out) ->
  fwp fault (read_exact n) Q inc out.
Proof.
  unfold read_exact. remember (S (Z.to_nat n)) as fuel eqn:Ef. assert (Z.to_nat n < fuel)%nat as Hf by lia. clear Ef.
  revert n Q inc Hf. induction fuel as [|fuel IH]; intros n Q inc Hf Hn Hok Hfault Heof; [lia|].
  cbn [read_exact_loop]. destruct (n <=? 0) eqn:E0; zbool; [apply (Hok [] inc); [done|change (len (@nil Z)) with 0; lia]|].
  apply fwp_bind. split; [intros e He; by apply (Hfault e [] inc)|]. intros b rest -> Hl Hz. simpl. case_decide as Hb.
  - subst b. specialize (Hz eq_refl ltac:(lia)). simpl in Hz. subst rest. apply Heof. change (len ([] ++ [])) with 0. lia.
  - apply len_pos in Hb. apply fwp_bind. apply IH; [lia|lia| | |].
    + intros b' rest' -> Hl'. apply Hok; [by rewrite (assoc_L (++))|rewrite len_app; lia].
    + intros e p rest' He ->. apply (Hfault e (b ++ p)); [done|by rewrite (assoc_L (++))].
    + intros Hlt. apply Heof. rewrite len_app. lia.
Qed.

Lemma array2 (b : bytes) : len b = 2 -> exists x y, b = [x; y].
Proof. destruct b as [|x [|y [|z b]]]; intros Hl; rewrite ?len_cons in Hl; [done|done|eauto|pose proof (len_nonneg b); lia]. Qed.

Lemma array4 (b : bytes) : len b = 4 -> exists x y z w, b = [x; y; z; w].
Proof.
  destruct b as [|x [|y [|z [|w [|v b]]]]]; intros Hl; rewrite ?len_cons in Hl; try done; [eauto|].
  pose proof (len_nonneg b). lia.
Qed.

(** ** The handshake *)

Section handshake.
Context (fault : io_error -> Prop) (auth : option (bytes * bytes)) (client : SocketAddr) (inc out : bytes).
Context (Hu8 : all_u8 inc).

(** What holds when the handshake ends. *)
Definition ended (r : result AssociateError UdpAssociation) (inc' out' : bytes) : Prop :=
  exists replies sent, inc = replies ++ inc' /\ out' = out ++ sent /\
    match r with
    | Ok u => credentials_ok auth /\ granted auth client replies sent (bound u)
    | Err e => (exists e', e = AsIo e' /\ fault e') \/
               refusal auth e replies inc' /\ (credentials_ok auth -> never_granted auth client inc)
    end.

Lemma ended_fault e p i s : fault e -> inc = p ++ i -> ended (Err (AsIo e)) i (out ++ s).
Proof. intros He Hi. exists p, s. split_and!; [done..|]. left. eauto. Qed.

Lemma ended_refusal e p i s :
  inc = p ++ i -> refusal auth e p i -> (credentials_ok auth -> never_granted auth client inc) -> ended (Err e) i (out ++ s).
Proof. intros Hi Hr Hn. exists p, s. split_and!; [done..|]. by right. Qed.

Lemma ended_eof p s : inc = p -> (credentials_ok auth -> never_granted auth client inc) ->
  ended (Err (AsIo (IoError UnexpectedEof NoPayload))) [] (out ++ s).
Proof. intros Hp Hn. eapply ended_refusal; [by rewrite app_nil_r|done|done]. Qed.

(** Reads [n] bytes after [p]; [Q] takes every ending with an error. *)
Lemma fwp_reply {A} n p s (k : bytes -> future AssociateError A) Q i :
  0 <= n -> inc = p ++ i -> (forall e i o, ended (Err e) i o -> Q (Err e) i o) ->
  (len i < n -> credentials_ok auth -> never_granted auth client inc) ->
  (forall b rest, len b = n -> inc = p ++ b ++ rest -> fwp fault (k b) Q rest (out ++ s)) ->
  fwp fault (b ← aio (read_exact n); k b) Q i (out ++ s).
Proof.
  intros Hn Hi Herr Heof Hok. apply fwp_bind, fwp_await_err, fwp_read_exact; [done| | |].
  - intros b rest -> Hb. by apply Hok.
  - intros e q rest He ->. apply Herr, (ended_fault e (p ++ q)); [done|]. by rewrite Hi, (assoc_L (++)).
  - intros Hl. by eapply Herr, ended_eof, Heof.
Qed.

(** Sends [msg]. *)
Lemma fwp_say {A} msg p s (k : future AssociateError A) Q i :
  inc = p ++ i -> (forall e i o, ended (Err e) i o -> Q (Err e) i o) ->
  fwp fault k Q i (out ++ s ++ msg) -> fwp fault (aio (send msg);; k) Q i (out ++ s).
Proof.
  intros Hi Herr Hk. apply fwp_bind, fwp_await_err, fwp_send; [by rewrite <- (assoc_L (++))|].
  intros e q q' He ->. rewrite <- (assoc_L (++)). by eapply Herr, ended_fault.
Qed.

(** Once the proxy let the client in, only its reply to the request counts. *)
Lemma never_granted_request m l j :
  auth_round auth m l -> inc = m ++ j ->
  (forall a atyp w rest, j = [5; 0; 0; atyp] ++ w ++ rest -> wire_of a (atyp :: w) -> address_port a ≠ 0 -> False) ->
  never_granted auth client inc.
Proof.
  intros Hm Hi Hj x rest sent a Hx Hg. destruct (granted_front _ _ _ _ _ _ _ Hx Hg) as (m' & l' & atyp & w & Hm' & Hw & Hp & Hi').
  apply (Hj a atyp w rest); [|done..]. rewrite Hi in Hi'. inversion Hm; inversion Hm'; simplify_eq/=; done.
Qed.

Lemma never_granted_round : (forall m l j, auth_round auth m l -> inc = m ++ j -> False) -> never_granted auth client inc.
Proof.
  intros Hn x rest sent a Hx Hg. destruct (granted_front _ _ _ _ _ _ _ Hx Hg) as (m & l & atyp & w & Hm & _ & _ & Hi).
  by eapply Hn.
Qed.

Lemma check_auth_ok auth' :
  check_auth auth = Ok auth' -> credentials_ok auth /\
  auth' = match auth with Some (u, p) => Some (u, len u, p, len p) | None => None end.
Proof.
  unfold check_auth, credential_len. destruct auth as [[u p]|]; [|by intros [= <-]]. simpl.
  destruct (nonzero_u8 (len u)) eqn:Eu; [|done]. simpl. destruct (nonzero_u8 (len p)) eqn:Ep; [|done]. simpl.
  apply nonzero_u8_iff in Eu as [-> Hu], Ep as [-> Hp]. by intros [= <-].
Qed.

Lemma check_auth_err e : check_auth auth = Err e -> e = InvalidCredentials /\ ~ credentials_ok auth.
Proof.
  unfold check_auth, credential_len. destruct auth as [[u p]|]; [|done]. simpl.
  destruct (nonzero_u8 (len u)) eqn:Eu; simpl; [|intros [= <-]; apply nonzero_u8_None in Eu; naive_solver].
  destruct (nonzero_u8 (len p)) eqn:Ep; simpl; [done|intros [= <-]; apply nonzero_u8_None in Ep; naive_solver].
Qed.

Lemma fwp_authenticate method auth' i :
  check_auth auth = Ok auth' -> inc = [5; method] ++ i ->
  fwp fault (authenticate method auth') (fun r j o =>
    match r with
    | Ok _ => exists m l, auth_round auth m l /\ inc = m ++ j /\ o = out ++ greeting auth ++ l
    | Err e => ended (Err e) j o
    end) i (out ++ greeting auth).
Proof.
  intros [Hc ->]%check_auth_ok Hi. unfold authenticate.
  destruct (method =? NO_AUTH) eqn:E0; zbool; [subst method; exists [5; 0], []; split_and!; [constructor|done|by rewrite app_nil_r]|].
  assert (method ≠ 2 \/ auth = None -> credentials_ok auth -> never_granted auth client inc) as Hn.
  { intros Hm _. apply never_granted_round. intros m l j Hr. rewrite Hi. inversion Hr; intros ?; simplify_eq/=.
    by destruct Hm. }
  destruct auth as [[u p]|] eqn:Eauth; [|case_match eqn:Ef; zbool; (eapply ended_refusal; [exact Hi|simpl; by rewrite ?Ef|rewrite Eauth; apply Hn; by right])].
  destruct (method =? USERNAME_PASSWORD) eqn:E2; zbool.
  2: { case_match eqn:Ef; zbool; (eapply ended_refusal; [exact Hi|simpl; by rewrite ?Ef|rewrite Eauth; apply Hn; by left]). }
  subst method. eapply fwp_say; [exact Hi|done|]. eapply (fwp_reply 2); [lia|exact Hi|done| |].
  - intros Hl _. apply never_granted_round. intros m l j Hr Hj. rewrite Hi in Hj. inversion Hr; subst; simplify_eq/=.
    rewrite !len_cons in Hl. pose proof (len_nonneg j). lia.
  - intros b rest Hb Hi2. destruct (array2 b Hb) as (v & st & ->). case_match eqn:Ev; zbool.
    { eapply (ended_refusal _ [5; 2; v; st]); [done|done|]. intros _. apply never_granted_round. intros m l j Hr Hj.
      rewrite Hi2 in Hj. by inversion Hr; subst; simplify_eq/=. }
    subst v. case_match eqn:Es; zbool.
    { eapply (ended_refusal _ [5; 2; 1; st]); [done|by exists st|]. intros _. apply never_granted_round. intros m l j Hr Hj.
      rewrite Hi2 in Hj. by inversion Hr; subst; simplify_eq/=. }
    subst st. exists [5; 2; 1; 0], (login u p). split_and!; [by constructor|done|done].
Qed.

(** The array of [read_bound] after its reads. *)
Lemma fwp_read_into {A} arr lo hi p s (k : bytes -> future AssociateError A) Q i :
  0 <= lo <= hi -> hi <= len arr -> inc = p ++ i -> (forall e i o, ended (Err e) i o -> Q (Err e) i o) ->
  (len i < hi - lo -> credentials_ok auth -> never_granted auth client inc) ->
  (forall b rest, len b = hi - lo -> inc = p ++ b ++ rest -> fwp fault (k (ztake lo arr ++ b ++ zdrop hi arr)) Q rest (out ++ s)) ->
  fwp fault (arr ← aio (read_into arr lo hi); k arr) Q i (out ++ s).
Proof.
  intros Hlo Hhi Hi Herr Heof Hok. unfold read_into. rewrite !(proj2 (Z.leb_le _ _)) by lia. cbn [andb].
  apply fwp_bind, fwp_await_err, fwp_bind, fwp_read_exact; [lia| | |].
  - intros b rest -> Hb. by apply Hok.
  - intros e q rest He ->. apply Herr, (ended_fault e (p ++ q)); [done|]. by rewrite Hi, (assoc_L (++)).
  - intros Hl. by eapply Herr, ended_eof, Heof.
Qed.

(** The address of a reply, once the proxy granted the request. *)
Section bound.
Context (m l i : bytes) (atyp : Z).
Context (Hc : credentials_ok auth) (Hm : auth_round auth m l) (Hi : inc = (m ++ [5; 0; 0; atyp]) ++ i).

Local Abbreviation said := (out ++ greeting auth ++ l ++ udp_request client).
Local Abbreviation decide_bound b :=
  (match decode_addr atyp b with
   | Ok (bound, _) => if negb (address_port bound =? 0) then mret (MkUdpAssociation bound) else throw AsInvalidResponse
   | Err _ => throw AsInvalidResponse
   end).

Lemma never_granted_bound :
  (forall a w rest, i = w ++ rest -> wire_of a (atyp :: w) -> address_port a ≠ 0 -> False) -> never_granted auth client inc.
Proof.
  intros Hno. eapply never_granted_request; [exact Hm|by rewrite Hi, <- (assoc_L (++))|].
  intros a atyp' w rest [= -> Hj] Hw Hp. by eapply Hno.
Qed.

Lemma never_granted_short n :
  (forall a w, wire_of a (atyp :: w) -> n <= len w) -> len i < n -> credentials_ok auth -> never_granted auth client inc.
Proof.
  intros Hw Hl _. apply never_granted_bound. intros a w rest -> Hwire _. rewrite len_app in Hl. apply Hw in Hwire.
  pose proof (len_nonneg rest). lia.
Qed.

(** The end, with the bytes of the address read. *)
Lemma fwp_decide_bound b rest :
  i = b ++ rest -> (forall a w x, wire_of a (atyp :: w) -> i = w ++ x \/ b = w ++ x -> len w = len b) ->
  fwp fault (decide_bound b) ended rest said.
Proof.
  intros Hib Hlen.
  assert (all_u8 b) as Hb by (rewrite Hi, Hib in Hu8; apply Forall_app in Hu8 as [_ Hu]; by apply Forall_app in Hu as [? _]).
  assert (inc = (m ++ [5; 0; 0; atyp] ++ b) ++ rest) as Hinc by (by rewrite Hi, Hib, <- !(assoc_L (++))).
  assert ((forall a r, decode_addr atyp b = Ok (a, r) -> address_port a = 0) -> credentials_ok auth -> never_granted auth client inc) as Hno.
  { intros Hz _. apply never_granted_bound. intros a w rest' Hiw Hw Hp. apply Hp. apply (Hz a []).
    destruct (wire_of_app a (atyp :: w) [] Hw) as (? & ? & [= <- <-] & Hd). rewrite app_nil_r in Hd.
    apply (Hlen _ _ rest') in Hw as Hl; [|by left]. rewrite Hib in Hiw.
    apply app_inj_1 in Hiw as [-> _]; [done|]. unfold len in Hl. lia. }
  destruct (decode_addr atyp b) as [[a r]|e] eqn:Ed; [|by eapply ended_refusal; [exact Hinc|done|apply Hno]].
  destruct (negb (address_port a =? 0)) eqn:Ep; zbool; [|by eapply ended_refusal; [exact Hinc|done|apply Hno; intros ? ? [= <- <-]]].
  apply decode_addr_wire in Ed as (w & -> & Hw); [|done].
  assert (r = []) as ->.
  { apply (Hlen _ _ r) in Hw as Hl; [|by right]. apply len_zero. rewrite len_app in Hl. lia. }
  rewrite app_nil_r in Hinc. eexists _, _. split; [exact Hinc|]. split; [done|]. split; [done|].
  exists m, l, (atyp :: w). by split_and!.
Qed.

(** An IP address: its length is known. *)
Lemma fwp_bound_ip n :
  0 <= n <= 258 -> (forall a w, wire_of a (atyp :: w) -> len w = n) ->
  fwp fault (addr ← aio (read_into (replicate 258 0) 0 n); decide_bound (ztake n addr)) ended i said.
Proof.
  intros Hn Hw. eapply fwp_read_into; [lia|by change (len (replicate 258 0)) with 258; lia|exact Hi|done| |].
  - replace (n - 0) with n by lia. apply never_granted_short. intros a w Hwi. apply Hw in Hwi. lia.
  - intros b rest Hb Hi2. change (ztake 0 _) with (@nil Z). cbn [app].
    replace (ztake n (b ++ _)) with b by (replace n with (len b) by lia; by rewrite ztake_len_app).
    apply fwp_decide_bound; [rewrite Hi in Hi2; by apply app_inv_head in Hi2|].
    intros a w x Hwi _. apply Hw in Hwi. lia.
Qed.

(** A domain name: its length comes first. *)
Lemma fwp_bound_domain :
  atyp = ATYP_DOMAIN ->
  fwp fault ('(addr, start, fin) ← (addr ← aio (read_into (replicate 258 0) 0 1);
               match addr with n :: _ => mret (addr, 1, 1 + n + 2) | [] => Unwind end);
             addr ← aio (read_into addr start fin); decide_bound (ztake fin addr)) ended i said.
Proof.
  intros Hd. apply fwp_bind. eapply fwp_read_into; [lia|by change (len (replicate 258 0)) with 258|exact Hi|done| |].
  { apply never_granted_short. intros a w Hw. apply wire_of_len in Hw as [[? ?]|[[? ?]|(_ & n & w' & -> & _)]]; [lia..|].
    rewrite len_cons. pose proof (len_nonneg w'). lia. }
  intros b rest Hb Hi2. destruct b as [|n [|? ?]]; [done| |rewrite !len_cons in Hb; pose proof (len_nonneg l0); lia].
  assert (i = [n] ++ rest) as Hin by (rewrite Hi in Hi2; by apply app_inv_head in Hi2).
  assert (is_u8 n) as Hn by (rewrite Hi, Hin in Hu8; apply Forall_app in Hu8 as [_ Hu]; by apply Forall_cons in Hu as [? _]).
  assert (forall a w, wire_of a (atyp :: w) -> head w = Some n -> len w = 3 + n) as Hlen.
  { intros a w Hw Hh. rewrite Hd in Hw. apply wire_of_len in Hw as [[? _]|[[? _]|(_ & n' & w' & -> & Hl & _)]]; [done..|].
    injection Hh as ->. rewrite len_cons. lia. }
  change (ztake 0 (replicate 258 0)) with (@nil Z). cbn [app]. set (arr := n :: zdrop 1 (replicate 258 0)).
  assert (len arr = 258) as Harr by done.
  eapply (fwp_read_into arr 1 (1 + n + 2) ((m ++ [5; 0; 0; atyp]) ++ [n]));
    [unfold_u; lia|unfold_u; lia|by rewrite Hi2, (assoc_L (++))|done| |].
  - intros Hl _. apply never_granted_bound. intros a w rest' Hiw Hw _.
    assert (head w = Some n) as Hh by (destruct (wire_of_domain a w) as (? & ? & ->); [by rewrite <- Hd|]; rewrite Hin in Hiw; by simplify_eq/=).
    apply Hlen in Hw; [|done]. apply (f_equal len) in Hiw. rewrite Hin, !len_app in Hiw. change (len [n]) with 1 in Hiw.
    pose proof (len_nonneg rest'). lia.
  - intros b2 rest2 Hb2 Hi3. change (ztake 1 arr) with [n].
    replace (ztake (1 + n + 2) ([n] ++ b2 ++ zdrop (1 + n + 2) arr)) with (n :: b2)
      by (replace (1 + n + 2) with (len (n :: b2)) by (rewrite len_cons; lia); symmetry; apply (ztake_len_app (n :: b2))).
    apply fwp_decide_bound.
    + rewrite Hi, <- !(assoc_L (++)) in Hi3. do 2 apply app_inv_head in Hi3. done.
    + intros a w x Hw Hcase. rewrite len_cons, Hb2. replace (1 + (1 + n + 2 - 1)) with (3 + n) by lia. apply (Hlen a); [done|].
      destruct (wire_of_domain a w) as (? & ? & ->); [by rewrite <- Hd|]. rewrite Hin in Hcase. by destruct Hcase; simplify_eq/=.
Qed.

Lemma fwp_read_bound : fwp fault (read_bound atyp) ended i said.
Proof.
  unfold read_bound. change (1 + 255 + 2)%nat with 258%nat.
  assert (forall a w, wire_of a (atyp :: w) -> atyp = ATYP_IPV4 /\ len w = 4 + 2 \/ atyp = ATYP_IPV6 /\ len w = 16 + 2 \/ atyp = ATYP_DOMAIN) as Htypes.
  { intros a w Hw. apply wire_of_len in Hw. naive_solver. }
  unfold ATYP_IPV4, ATYP_IPV6, ATYP_DOMAIN in *. destruct (atyp =? 1) eqn:E4; zbool.
  { apply (fwp_bound_ip (4 + 2)); [lia|]. intros a w Hw. apply Htypes in Hw. lia. }
  destruct (atyp =? 4) eqn:E6; zbool.
  { apply (fwp_bound_ip (16 + 2)); [lia|]. intros a w Hw. apply Htypes in Hw. lia. }
  destruct (atyp =? 3) eqn:Ed; zbool; [by apply fwp_bound_domain|].
  eapply ended_refusal; [exact Hi|done|]. apply (never_granted_short (1 + len i)); [|lia]. intros a w Hw. apply Htypes in Hw. lia.
Qed.
End bound.

Lemma fwp_associate : fwp fault (associate auth client) ended inc out.
Proof.
  rewrite <- (app_nil_r out). unfold associate. apply fwp_bind. cbn [attempt fwp].
  destruct (check_auth auth) as [auth'|e] eqn:Ea.
  2: { apply check_auth_err in Ea as [-> Hn]. by eapply (ended_refusal _ []). }
  destruct (check_auth_ok _ Ea) as [Hc Ha'].
  replace (match auth' with Some _ => _ | None => _ end) with (greeting auth) by (rewrite Ha'; by destruct auth as [[]|]).
  eapply (fwp_say _ []); [done|done|]. cbn [app]. eapply (fwp_reply 2 []); [lia|done|done| |].
  { intros Hl _. apply never_granted_round. intros m l j Hr ->. inversion Hr; subst; rewrite ?len_app, ?len_cons in Hl;
      pose proof (len_nonneg j); change (len (@nil Z)) with 0 in Hl; lia. }
  intros b rest Hb Hi. cbn [app] in Hi. destruct (array2 b Hb) as (v & method & ->). destruct (negb (v =? VERSION)) eqn:Ev; zbool.
  { eapply ended_refusal; [exact Hi|done|]. intros _. apply never_granted_round. intros m l j Hr Hj. rewrite Hi in Hj.
    by inversion Hr; subst; simplify_eq/=. }
  subst v. apply fwp_bind. eapply fwp_mono; [by apply fwp_authenticate|]. cbv beta. intros [[]|e] i o; [|done].
  intros (m & l & Hm & Hi1 & ->). eapply fwp_say; [exact Hi1|done|]. rewrite <- (assoc_L (++)).
  change ([VERSION; _; _] ++ _) with (udp_request client).
  eapply (fwp_reply 4 m); [lia|done|done| |].
  { intros Hl _. eapply never_granted_request; [exact Hm|exact Hi1|]. intros a atyp w rest' -> _ _.
    rewrite !len_app in Hl. change (len [_; _; _; _]) with 4 in Hl. pose proof (len_nonneg w). pose proof (len_nonneg rest'). lia. }
  intros b rest2 Hb2 Hi2. destruct (array4 b Hb2) as (v & reply & rsv & atyp & ->). rewrite (assoc_L (++)) in Hi2.
  assert (forall atyp' w rest', i = [5; 0; 0; atyp'] ++ w ++ rest' -> v = 5 /\ reply = 0 /\ rsv = 0) as Hno.
  { intros atyp' w rest' ->. rewrite Hi1, <- (assoc_L (++)) in Hi2. apply app_inv_head in Hi2. by simplify_eq/=. }
  destruct (negb (v =? VERSION) || negb (rsv =? 0)) eqn:Evr.
  { eapply ended_refusal; [exact Hi2|done|]. intros _. eapply never_granted_request; [exact Hm|exact Hi1|].
    intros a atyp' w rest' Hj _ _. destruct (Hno _ _ _ Hj) as (-> & -> & ->). done. }
  zbool. subst v rsv. destruct (negb (reply =? 0)) eqn:Er; zbool.
  { eapply ended_refusal; [exact Hi2|by exists m, l, atyp|]. intros _. eapply never_granted_request; [exact Hm|exact Hi1|].
    intros a atyp' w rest' Hj _ _. by destruct (Hno _ _ _ Hj) as (_ & -> & _). }
  subst reply. by eapply fwp_read_bound.
Qed.
End handshake.

(** ** Theorems

    The claims about SOCKS5 UDP ASSOCIATE ([proxy/socks/udp.rs]): the datagram
    header, unframing, and the handshake. *)

(** C26. The SOCKS5 UDP header: an address can be encoded exactly when it is an IP
    address or a domain of 1 to 255 bytes; its header has the announced length
    and, followed by any payload, is read back as the address in canonical form
    and that payload. Conversely, every datagram that is accepted is the header
    of the address returned, or its IPv4-mapped form, followed by the payload
    returned. *)
Theorem udp_header_roundtrip :
  (forall a, (exists h, encode_header a = Ok h) <-> sendable a) /\
  (forall a h payload, address_ok a -> encode_header a = Ok h ->
    decode_header (h ++ payload) = Ok (canonical a, payload) /\ len h = header_len a) /\
  (forall d a payload, all_u8 d -> decode_header d = Ok (a, payload) ->
    address_ok a /\ canonical a = a /\
    exists h, d = h ++ payload /\ (encode_header a = Ok h \/ mapped_header a h)).
Proof.
  split_and!; [apply encode_header_sendable|apply decode_encode|].
  intros d a payload Hd Ha. destruct (decode_header_sound d a payload Hd Ha) as (h & -> & Hok & Hc & _ & He). eauto.
Qed.

(** What a caller gets that unframes a buffer as it is told to: the payloads of
    each run, cut at the run's stride, and then the runs of the rest. *)
Fixpoint unframe_all (fuel : nat) (relay from : SocketAddr) (stride : Z) (buf : bytes) : list (Address * bytes) :=
  match fuel with
  | O => []
  | S k =>
      match unframe relay from stride buf with
      | (buf', Ready (Some u)) =>
          map (pair (uf_source u)) (chunks (uf_stride u) (ztake (uf_len u) buf')) ++
          unframe_all k relay from stride (zdrop (uf_consumed u) buf')
      | _ => []
      end
  end.

Section unframing.
Context (relay from : SocketAddr) (stride : Z).
Context (Hs : 0 < stride) (Hfrom : from_relay relay from = true).

Lemma unframe_spec buf ps run ds :
  len buf <= USIZE_MAX -> take_run None (chunks stride buf) = (ps, run, ds) ->
  wp (unframe relay from stride) (fun o buf' =>
    match run with
    | None => o = Ready None
    | Some (src, s) => exists u, o = Ready (Some u) /\ uf_source u = src /\ uf_stride u = s /\ 0 <= uf_len u <= uf_consumed u /\
        uf_consumed u <= len buf /\ ztake (uf_len u) buf' = concat ps /\ len buf' = len buf /\
        zdrop (uf_consumed u) buf' = zdrop (uf_consumed u) buf /\ chunks stride (zdrop (uf_consumed u) buf') = ds
    end) buf.
Proof.
  intros Hl Ht. unfold unframe. rewrite Hfrom. cbn [negb]. wp_step. wp_step.
  rewrite (proj2 (Z.eqb_neq stride 0)) by lia. wp_step. pose proof (len_nonneg buf) as H0.
  eapply wp_mono; [eapply (unframe_loop_spec _ _ 0 0 None buf ps run ds); [done|lia|lia|unfold len; lia|by rewrite zdrop_0]|].
  cbv beta. intros o buf' (rd' & wr' & -> & Hlb & Hrd & Hwr & Hw & Htk & Hzd & Hch). cbn. destruct run as [[src s]|]; [|done].
  eexists. split; [done|]. simpl. rewrite Htk. split_and!; try done; pose proof (len_nonneg (concat ps)); lia.
Qed.

Lemma unframe_all_spec fuel buf :
  len buf <= USIZE_MAX -> (length (chunks stride buf) < fuel)%nat ->
  unframe_all fuel relay from stride buf = filter (fun x => x.2 ≠ []) (decoded (chunks stride buf)).
Proof.
  revert buf. induction fuel as [|fuel IH]; intros buf Hl Hf; [lia|]. cbn [unframe_all].
  destruct (take_run None (chunks stride buf)) as [[ps run] ds] eqn:Et.
  pose proof (unframe_spec buf ps run ds Hl Et) as Hu. unfold wp in Hu. destruct (unframe relay from stride buf) as [buf' o].
  apply take_run_spec in Et as [Hds Hr]. destruct run as [[src s]|].
  2: { subst o. destruct Hr as [_ ->]. done. }
  destruct Hu as (u & -> & -> & -> & Hul & Huc & Htk & Hlb & Hzd & Hch).
  destruct Hr as ([?|(_ & Hlt & Hs0)] & Hdec & Hrun); [done|].
  rewrite Htk, chunks_run by done. rewrite IH; [|rewrite len_zdrop by lia; lia|rewrite Hch; lia].
  rewrite Hdec, Hch, filter_app. f_equal. clear. induction ps as [|p ps IHp]; [done|].
  destruct (decide (p = [])) as [->|Hp].
  - simpl. rewrite !filter_cons_False by (intros Hn; by apply Hn). done.
  - cbn [map]. rewrite !filter_cons_True by done. cbn [map]. f_equal. exact IHp.
Qed.
End unframing.

(** Unframing loses and invents nothing: for a buffer received from the relay,
    with datagrams of [stride] bytes back to back as UDP GRO delivers them,
    unframing run after run yields exactly the non-empty payloads of the
    well-formed datagrams with their sources, in order, although payloads are
    moved within the buffer they are read from; it neither panics nor reads
    past the buffer. What does not come from the relay is left alone. *)
Theorem unframe_delivers relay from stride buf :
  0 < stride -> len buf <= USIZE_MAX ->
  if from_relay relay from
  then unframe_all (S (length buf)) relay from stride buf = filter (fun x => x.2 ≠ []) (decoded (chunks stride buf))
  else unframe relay from stride buf = (buf, Ready None).
Proof.
  intros Hs Hl. destruct (from_relay relay from) eqn:Hf; [|unfold unframe; by rewrite Hf].
  apply unframe_all_spec; [done..|]. apply (chunks_count stride buf Hs).
Qed.

(** C25. The UDP ASSOCIATE handshake over any transport, however it cuts reads and
    writes and however often it is not ready: polling it ends, and unless the
    transport fails it succeeds exactly when the credentials can be sent and
    the proxy's bytes begin with a granted exchange of RFC 1928 and RFC 1929.
    Then the client said exactly the greeting, the login if (and only if) the
    proxy chose it, and the request; the relay address is the one the proxy
    named, with a port other than zero; and nothing after the reply was read.
    Every other error names what the proxy said. *)
Theorem associate_granted {T} `{AsyncIoLaws T} auth client (t : T) :
  all_u8 (aio_incoming t) ->
  exists r t' replies sent, drive (S (aio_patience t)) (associate auth client) t = (t', Some r) /\
    aio_incoming t = replies ++ aio_incoming t' /\ aio_written t' = aio_written t ++ sent /\
    match r with
    | Ok u => credentials_ok auth /\ granted auth client replies sent (bound u)
    | Err e => (exists e', e = AsIo e' /\ aio_fault e') \/
               refusal auth e replies (aio_incoming t') /\
               (credentials_ok auth -> never_granted auth client (aio_incoming t))
    end.
Proof.
  intros Hu. destruct (drive_spec (associate auth client) _ t (fwp_associate aio_fault auth client _ (aio_written t) Hu))
    as (r & t' & Hd & replies & sent & Hi & Ho & Hr). eauto 10.
Qed.

(** ** The theorems at work *)

Module ConcreteSocks.
Import ConcreteAsync.

Definition relay : SocketAddr := SaV4 [127; 0; 0; 1] 1080.
Definition peer : Address := AIp (SaV4 [192; 0; 2; 7] 53).
Definition header : bytes := [0; 0; 0; 1; 192; 0; 2; 7; 0; 53].

Lemma udp_header_roundtrip_witness : decode_header (header ++ [1; 2; 3]) = Ok (peer, [1; 2; 3]) /\ len header = header_len peer.
Proof.
  apply (proj1 (proj2 udp_header_roundtrip) peer header [1; 2; 3]); [|reflexivity].
  split; [split; [reflexivity|repeat constructor; unfold_u; lia]|unfold_u; simpl; lia].
Defined.

(** Three datagrams of thirteen bytes at most, one of them a fragment. *)
Definition received : bytes := (header ++ [1; 2; 3]) ++ ([0; 0; 7] ++ repeat 0 10) ++ (header ++ [4; 5]).

Lemma unframe_delivers_witness : unframe_all 39 relay relay 13 received = [(peer, [1; 2; 3]); (peer, [4; 5])].
Proof.
  pose proof (unframe_delivers relay relay 13 received ltac:(lia) ltac:(vm_compute; discriminate)) as Hu.
  etransitivity; [exact Hu|vm_compute; reflexivity].
Defined.

(** A proxy that asks for the password and is slow, with a byte after its reply. *)
Definition proxy : pipe :=
  Pipe [Some (5, []); None; Some (2, [1]); Some (0, [5; 0; 0]); None; Some (1, [127; 0; 0; 1; 4; 56; 99])] [] 2.
Definition creds : option (bytes * bytes) := Some ([117], [112; 119]).
Definition client : SocketAddr := SaV4 [0; 0; 0; 0] 0.

Lemma associate_granted_witness :
  exists replies sent, granted creds client replies sent (AIp relay) /\ replies ++ [99] = aio_incoming proxy /\
    sent = [5; 2; 0; 2] ++ [1; 1; 117; 2; 112; 119] ++ [5; 3; 0; 1; 0; 0; 0; 0; 0; 0].
Proof.
  destruct (associate_granted creds client proxy) as (r & t' & replies & sent & Hd & Hi & Hw & Hr).
  { repeat constructor; unfold_u; lia. }
  assert (drive (S (aio_patience proxy)) (associate creds client) proxy =
    (Pipe [Some (99, [])] ([5; 2; 0; 2] ++ [1; 1; 117; 2; 112; 119] ++ [5; 3; 0; 1; 0; 0; 0; 0; 0; 0]) 2, Some (Ok (MkUdpAssociation (AIp relay)))))
    as Hc by (vm_compute; reflexivity).
  rewrite Hc in Hd. injection Hd as <- <-. exists replies, sent. split; [exact (proj2 Hr)|]. split; [symmetry; exact Hi|symmetry; exact Hw].
Defined.
End ConcreteSocks.
