(* ===== verification/Proxy.v ===== *)
(** * Proxy

    [proxy.rs]: what the proxy connectors share, the host and the port of a
    destination, over the [Uri] of the http crate. *)

From stdpp Require Import prelude strings.
From Stdlib Require Import ZArith Lia.
From S2P Require Import Prelude Bytes.
Local Open Scope Z_scope.

Definition AT : Z := 64.
Definition COLON : Z := 58.

(** ** [http::Uri] *)

Class UriOps (U : Type) : Type := {
  (** [scheme_str], [authority().as_str()]. *)
  uri_scheme : U -> option bytes;
  uri_authority : U -> option bytes;
  (** [Authority::host], [Authority::port_u16]. *)
  authority_host : bytes -> bytes;
  authority_port_u16 : bytes -> option Z;
  (** [str::parse::<Uri>], [Uri::to_string]. *)
  uri_parse : bytes -> option U;
  uri_to_string : U -> bytes;
}.

(** [Uri::host], [Uri::port_u16]. *)
Definition uri_host {U} `{UriOps U} (u : U) : option bytes := authority_host <$> uri_authority u.
Definition uri_port_u16 {U} `{UriOps U} (u : U) : option Z := a ← uri_authority u; authority_port_u16 a.

(** [str::parse::<u16>()]: a sign and decimal digits. *)
Definition parse_u16 (s : bytes) : option Z :=
  let s := match s with 43 :: rest => rest | _ => s end in
  if negb (bool_decide (s = [])) && forallb is_ascii_digit s && (of_digits 10 (map (fun b => b - 48) s) <=? U16_MAX)
  then Some (of_digits 10 (map (fun b => b - 48) s)) else None.

(** The parts of an authority: user information, the host, and a port with its
    colon. *)
Definition authority_parts `{UriOps U} (a user host port : bytes) : Prop :=
  a = user ++ host ++ port /\ host = authority_host a /\ (user = [] \/ exists v, user = v ++ [AT]) /\ (AT ∉ host ++ port) /\
  (port = [] /\ authority_port_u16 a = None \/ exists txt, port = COLON :: txt /\ authority_port_u16 a = parse_u16 txt).

Class UriLaws (U : Type) `{UriOps U} : Prop := {
  uri_authority_parts : forall u a, uri_authority u = Some a -> exists user host port, authority_parts (U := U) a user host port;
}.

(** ** Strings *)

(** [s.rsplit(c).next()]: what follows the last [c]. *)
Fixpoint rsplit_next (c : Z) (s : bytes) : bytes :=
  match s with
  | [] => []
  | b :: s' => if bool_decide (c ∈ s') then rsplit_next c s' else if b =? c then s' else s
  end.

(** [s.strip_prefix(p)], [s.strip_suffix(p)]. *)
Fixpoint strip_prefix (p s : bytes) : option bytes :=
  match p, s with
  | [], _ => Some s
  | x :: p, y :: s => if x =? y then strip_prefix p s else None
  | _ :: _, [] => None
  end.
Definition strip_suffix (p s : bytes) : option bytes := (@rev Z) <$> strip_prefix (rev p) (rev s).

(** ** The destination *)

Section dst.
Context {U : Type} `{UriOps U}.

(** [dst_host]. *)
Definition dst_host (uri : U) : option bytes :=
  host ← uri_host uri;
  if bool_decide (host = []) || bool_decide (host = bs "[]") then None else Some host.

(** [dst_port]. *)
Definition dst_port (uri : U) : option Z :=
  authority ← uri_authority uri;
  match authority_port_u16 authority with
  | Some port => if negb (port =? 0) then Some port else None
  | None =>
      let host_port := rsplit_next AT authority in
      tail ← strip_prefix (authority_host authority) host_port;
      if negb (bool_decide (tail = []) || bool_decide (tail = [COLON])) then None
      else
        let insecure :=
          match uri_scheme uri with
          | Some scheme => eq_ignore_ascii_case scheme (bs "http") || eq_ignore_ascii_case scheme (bs "ws")
          | None => false
          end in
        Some (if insecure then 80 else 443)
  end.
End dst.

(** ** Facts *)

Lemma strip_prefix_app p s : strip_prefix p (p ++ s) = Some s.
Proof. induction p as [|x p IH]; [done|]. simpl. by rewrite Z.eqb_refl. Qed.

Lemma strip_prefix_Some p s r : strip_prefix p s = Some r -> s = p ++ r.
Proof.
  revert s. induction p as [|x p IH]; intros s; [by intros [= ->]|]. destruct s as [|y s]; [done|]. simpl.
  destruct (x =? y) eqn:E; [|done]. zbool. subst y. intros ->%IH. done.
Qed.

Lemma strip_suffix_Some p s r : strip_suffix p s = Some r -> s = r ++ p.
Proof.
  unfold strip_suffix. rewrite fmap_Some. intros (x & Hx & ->). apply strip_prefix_Some in Hx.
  apply (f_equal (@rev Z)) in Hx. by rewrite rev_involutive, rev_app_distr, rev_involutive in Hx.
Qed.

Lemma rsplit_next_none c s : (c ∉ s) -> rsplit_next c s = s.
Proof.
  induction s as [|b s IH]; intros Hn; [done|]. simpl. apply not_elem_of_cons in Hn as [Hb Hs].
  rewrite bool_decide_false by done. by rewrite (proj2 (Z.eqb_neq b c)).
Qed.

Lemma rsplit_next_last c v s : (c ∉ s) -> rsplit_next c (v ++ c :: s) = s.
Proof.
  intros Hs. induction v as [|b v IH]; simpl; [by rewrite bool_decide_false, Z.eqb_refl|].
  rewrite bool_decide_true; [done|]. apply elem_of_app. right. apply elem_of_cons. by left.
Qed.

(** The default port of a scheme. *)
Definition default_port {U} `{UriOps U} (u : U) : Z :=
  match uri_scheme u with
  | Some s => if eq_ignore_ascii_case s (bs "http") || eq_ignore_ascii_case s (bs "ws") then 80 else 443
  | None => 443
  end.

Lemma parse_u16_range s p : parse_u16 s = Some p -> is_u16 p.
Proof.
  unfold parse_u16. set (d := match s with 43 :: rest => rest | _ => s end). case_match eqn:E; [|done]. intros [= <-].
  apply andb_true_iff in E as [[_ Hd]%andb_true_iff Hle]. zbool. split; [|done].
  assert (Forall (fun b => 0 <= b) (map (fun b => b - 48) d)) as Hf.
  { apply Forall_map, Forall_forall. intros b Hb. rewrite forallb_forall in Hd. specialize (Hd b).
    rewrite <- list_elem_of_In in Hd. specialize (Hd Hb). unfold is_ascii_digit, in_range in Hd. zbool. simpl. lia. }
  clear -Hf. unfold of_digits. assert (forall v, 0 <= v -> 0 <= fold_left (fun v d => v * 10 + d) (map (fun b => b - 48) d) v) as Hg;
    [|by apply Hg].
  induction Hf as [|x l Hx Hl IH]; intros v Hv; simpl; [done|]. apply IH. lia.
Qed.

(** The port a destination names: an explicit one must be a number from 1 to
    65535, and only an absent or empty one is the scheme's default. *)
Lemma dst_port_spec {U} `{UriOps U} (u : U) a user host port :
  uri_authority u = Some a -> authority_parts (U := U) a user host port ->
  dst_port u =
    match port with
    | [] | [_] => Some (default_port u)
    | _ :: txt => match parse_u16 txt with Some p => if p =? 0 then None else Some p | None => None end
    end.
Proof.
  intros Ha (Hap & Hh & Hu & Hat & Hp). unfold dst_port. rewrite Ha. simpl.
  assert (rsplit_next AT a = host ++ port) as Hr.
  { rewrite Hap. destruct Hu as [->|[v ->]]; [by apply rsplit_next_none|]. rewrite <- (assoc_L (++)). by apply rsplit_next_last. }
  destruct Hp as [[-> Hn] | (txt & -> & Hn)]; rewrite Hn, Hr, <- Hh, strip_prefix_app; simpl.
  - unfold default_port. by destruct (uri_scheme u).
  - destruct txt as [|c txt].
    + simpl. unfold default_port. by destruct (uri_scheme u).
    + destruct (parse_u16 (c :: txt)) as [p|]; [by destruct (p =? 0)|]. by rewrite bool_decide_false.
Qed.

(** ** A concrete URI *)

Module ConcreteUri.

(** A URI is kept as its text. *)
Record uri : Type := Uri { uri_text : bytes }.

(** What comes before the first byte of [cs], and the rest. *)
Fixpoint until (cs : list Z) (s : bytes) : bytes * bytes :=
  match s with
  | [] => ([], [])
  | b :: s' => if bool_decide (b ∈ cs) then ([], s) else let '(p, r) := until cs s' in (b :: p, r)
  end.

Definition split_scheme (s : bytes) : option (bytes * bytes) :=
  match until [COLON] s with
  | (scheme, 58 :: 47 :: 47 :: rest) => Some (scheme, rest)
  | _ => None
  end.

(** Host and port of an authority without user information. *)
Definition host_port (s : bytes) : bytes * bytes :=
  match s with
  | 91 :: _ => match until [93] s with (h, c :: r) => (h ++ [c], r) | (h, []) => (h, []) end
  | _ => until [COLON] s
  end.

Definition valid_port (p : bytes) : bool := match p with [] => true | c :: _ => c =? COLON end.

#[export] Instance text_UriOps : UriOps uri := {
  uri_scheme u := fst <$> split_scheme (uri_text u);
  uri_authority u :=
    '(_, rest) ← split_scheme (uri_text u);
    let a := (until [47; 63; 35] rest).1 in
    if valid_port (host_port (rsplit_next AT a)).2 then Some a else None;
  authority_host a := (host_port (rsplit_next AT a)).1;
  authority_port_u16 a := match (host_port (rsplit_next AT a)).2 with _ :: txt => parse_u16 txt | [] => None end;
  uri_parse s := if split_scheme s is Some _ then Some (Uri s) else None;
  uri_to_string := uri_text;
}.

Lemma until_app cs s : s = (until cs s).1 ++ (until cs s).2.
Proof. induction s as [|b s IH]; [done|]. simpl. case_bool_decide; [done|]. destruct (until cs s). simpl in *. by rewrite <- IH. Qed.

Lemma host_port_app s : s = (host_port s).1 ++ (host_port s).2.
Proof.
  assert (forall cs, s = (until cs s).1 ++ (until cs s).2) as Hu by (intros; apply until_app).
  unfold host_port. destruct s as [|b s]; [done|].
  assert (b :: s = match until [93] (b :: s) with (h, c :: r) => (h ++ [c], r) | (h, []) => (h, []) end.1 ++
    match until [93] (b :: s) with (h, c :: r) => (h ++ [c], r) | (h, []) => (h, []) end.2) as Hb.
  { specialize (Hu [93]). destruct (until [93] (b :: s)) as [h [|c r]]; simpl in *; [done|]. by rewrite <- (assoc_L (++)). }
  destruct b as [|p|p]; [apply Hu| |apply Hu]. do 7 (destruct p as [p|p|]; try apply Hu). exact Hb.
Qed.

Lemma rsplit_next_user c s : exists user, s = user ++ rsplit_next c s /\ (user = [] \/ exists v, user = v ++ [c]) /\ (c ∉ rsplit_next c s).
Proof.
  induction s as [|b s (user & Hs & Hu & Hn)]; [exists []; split_and!; [done|by left|apply not_elem_of_nil]|]. simpl.
  case_bool_decide as Hc.
  - exists (b :: user). split_and!; [simpl; by rewrite <- Hs| |done]. right. destruct Hu as [->|[v ->]]; [|by exists (b :: v)].
    exfalso. apply Hn. by rewrite Hs in Hc.
  - destruct (b =? c) eqn:E; zbool; [subst; exists [c]; split_and!; [done|right; by exists []|done]|].
    exists []. split_and!; [done|by left|]. apply not_elem_of_cons. done.
Qed.

#[export] Instance text_UriLaws : UriLaws uri.
Proof.
  split. intros u a. simpl. destruct (split_scheme (uri_text u)) as [[sc rest]|]; [|done]. simpl.
  destruct (valid_port _) eqn:Ev; [|done]. intros [= <-]. set (a := (until _ rest).1) in *.
  destruct (rsplit_next_user AT a) as (user & Ha & Hu & Hn). pose proof (host_port_app (rsplit_next AT a)) as Hp.
  exists user, (host_port (rsplit_next AT a)).1, (host_port (rsplit_next AT a)).2. split_and!; try done.
  - by rewrite <- Hp.
  - by rewrite <- Hp.
  - simpl. destruct (host_port (rsplit_next AT a)) as [h [|c p]]; [by left|]. right. exists p. simpl in *. zbool. by subst.
Qed.
End ConcreteUri.
