(* ===== verification/HttpTunnel.v ===== *)
(** * HttpTunnel

    [proxy/tunnel.rs]: HTTP CONNECT tunnels. The request a connector sends and
    the reading of the proxy's response, which must stop at the end of its head:
    what follows belongs to the tunnel. *)

From stdpp Require Import prelude strings.
From Stdlib Require Import ZArith Lia.
From S2P Require Import Prelude Bytes Crates Headers Message Async Proxy.
Local Open Scope Z_scope.

Definition MAX_HEADERS : Z := 64.
Definition MAX_RESPONSE_HEAD : Z := 8192.
Definition H_HOST : bytes := Eval vm_compute in bs "host".
Definition H_PROXY_AUTHORIZATION : bytes := Eval vm_compute in bs "proxy-authorization".

(** [TunnelError]. *)
Inductive TunnelError : Type :=
| TuConnectFailed (e : string)
| TuIo (e : io_error)
| TuParse (e : HttparseError)
| TuMissingHost
| TuInvalidPort
| ProxyAuthRequired
| ProxyHeadersTooLong
| TunnelUnexpectedEof
| TunnelUnsuccessful (s : StatusCode).

(** [httparse::Response::parse] with room for a number of headers: the length
    of the head and the status code. *)
Class HttparseHead : Type :=
  hp_head : bytes -> Z -> result HttparseError (HpStatusOf (Z * option Z)).

(** [s.ends_with(p)]. *)
Definition ends_with (p s : bytes) : bool := match strip_suffix p s with Some _ => true | None => false end.

(** [StatusCode::is_success]. *)
Definition is_success (s : StatusCode) : bool := in_range 200 299 s.

(** ** The request *)

Section request.
Context {Hm : Type} `{HeaderMap Hm} {U : Type} `{UriOps U}.

(** [HeaderMap::extend] with another map: the first value of a name replaces,
    the others are added. *)
Fixpoint extend_from (cur : option bytes) (l : list (option bytes * bytes)) (h : Hm) : Hm :=
  match l with
  | [] => h
  | (Some n, v) :: l => extend_from (Some n) l (hm_insert n v h)
  | (None, v) :: l => match cur with Some n => extend_from cur l (hm_append n v h) | None => extend_from cur l h end
  end.
Definition hm_extend (h : Hm) (other : Hm) : Hm := extend_from None (hm_into_iter other) h.

(** [TunnelConnector]; the inner connector is not part of it. *)
Record TunnelConnector : Type := MkTunnelConnector { tc_headers : Hm; tc_proxy_dst : U }.

(** [TunnelConnector::new]. *)
Definition tunnel_connector_new (proxy_dst : U) : TunnelConnector := MkTunnelConnector hm_new proxy_dst.

(** [with_auth]. *)
Definition tunnel_with_auth (auth : bytes) (c : TunnelConnector) : TunnelConnector :=
  MkTunnelConnector (hm_insert H_PROXY_AUTHORIZATION auth (tc_headers c)) (tc_proxy_dst c).

(** [with_headers]. *)
Definition tunnel_with_headers (headers : Hm) (c : TunnelConnector) : TunnelConnector :=
  let headers := hm_remove H_TRANSFER_ENCODING (hm_remove H_CONTENT_LENGTH headers) in
  MkTunnelConnector (if hm_is_empty (tc_headers c) then headers else hm_extend (tc_headers c) headers) (tc_proxy_dst c).

(** [connect_request]. *)
Definition connect_request (dst : U) (headers : Hm) : result TunnelError bytes :=
  match dst_host dst with
  | None => Err TuMissingHost
  | Some host =>
      match dst_port dst with
      | None => Err TuInvalidPort
      | Some port =>
          let target := host ++ bs ":" ++ to_dec port in
          let req := bs "CONNECT " ++ target ++ bs " HTTP/1.1" ++ CRLF ++ bs "Host: " in
          let req := req ++ match hm_get headers H_HOST with Some value => value | None => target end in
          let req := req ++ CRLF in
          let req := req ++ concat (map (fun '(name, value) => name ++ bs ": " ++ value ++ CRLF)
                              (filter (fun nv => nv.1 ≠ H_HOST) (hm_iter headers))) in
          Ok (req ++ CRLF)
      end
  end.
End request.
Arguments TunnelConnector : clear implicits.

(** ** The response *)

Section response.
Context `{HttparseHead}.

(** A head that may be complete; [again] goes on reading from where a head
    starts in what was read. *)
Definition handle_head (again : Z -> bytes -> future TunnelError unit) (start : Z) (buf head : bytes) : future TunnelError unit :=
  match hp_head head MAX_HEADERS with
  | Ok (Complete (parsed, code)) =>
      match code with
      | None => throw (TuParse HpStatus)
      | Some code =>
          match status_from_u16 code with
          | Err _ => throw (TuParse HpStatus)
          | Ok s =>
              if is_informational s && negb (s =? 101) then again (start + parsed) buf
              else if is_success s then if start + parsed =? len buf then mret tt else Unwind
              else if s =? 407 then throw ProxyAuthRequired
              else throw (TunnelUnsuccessful s)
          end
      end
  | Ok Partial => again start buf
  | Err HpTooManyHeaders => throw ProxyHeadersTooLong
  | Err e => throw (TuParse e)
  end.

(** [read_response], the loop, with where the head that is being read starts and
    what was read so far. *)
Fixpoint response_loop (fuel : nat) (start : Z) (buf : bytes) : future TunnelError unit :=
  match fuel with
  | O => Endless
  | S k =>
      if len buf =? MAX_RESPONSE_HEAD then throw ProxyHeadersTooLong
      else
        head ← or_unwind (slice_from start buf);
        let want := if ends_with [LF] head || ends_with [LF; CR] head then 1 else 2 in
        let fin := Z.min (len buf + want) MAX_RESPONSE_HEAD in
        b ← await_err TuIo (read (fin - len buf));
        if decide (b = []) then throw TunnelUnexpectedEof
        else
          let buf := buf ++ b in
          head ← or_unwind (slice_from start buf);
          if negb (ends_with [LF; LF] head || ends_with [LF; CR; LF] head) &&
             (len (bs "HTTP/1.1 200 ") <? len (trim_start_with is_ascii_whitespace head))
          then response_loop k start buf
          else handle_head (response_loop k) start buf head
  end.

(** [read_response]. *)
Definition read_response : future TunnelError unit := response_loop (S (Z.to_nat MAX_RESPONSE_HEAD)) 0 [].

(** [tunnel]. *)
Definition tunnel (req : bytes) : future TunnelError unit := await_err TuIo (send req);; read_response.

(** [TunnelConnector::call]: a bad destination fails before the inner connector
    is called; [connecting] is what its connection comes to. *)
Definition tunnel_call {Hm U} `{HeaderMap Hm} `{UriOps U} (c : TunnelConnector Hm U) (dst : U)
    (connecting : result string unit) : future TunnelError unit :=
  match connect_request dst (tc_headers c) with
  | Err e => throw e
  | Ok req => match connecting with Err e => throw (TuConnectFailed e) | Ok _ => tunnel req end
  end.
End response.

(** What [httparse] documents of heads: a complete one ends with its empty line
    and does not depend on what follows; before its end it is partial. *)
Class HttparseHeadLaws `{HttparseHead} : Prop := {
  hp_head_complete : forall b room n code, hp_head b room = Ok (Complete (n, code)) ->
    0 < n <= len b /\ (ends_with [LF; LF] (ztake n b) || ends_with [LF; CR; LF] (ztake n b) = true) /\
    (forall b', ztake n b' = ztake n b -> hp_head b' room = Ok (Complete (n, code))) /\
    (forall k, 0 <= k < n -> hp_head (ztake k b) room = Ok Partial);
}.
