(* ===== verification/HttpTunnelTheorems.v ===== *)
(** * HttpTunnelTheorems

    The response of a CONNECT proxy is read up to the end of its head and not a
    byte further, and the tunnel is open exactly when the proxy said so. *)

From stdpp Require Import prelude strings.
From Stdlib Require Import ZArith Lia.
From S2P Require Import Prelude Bytes Crates Headers Message Async Proxy HttpTunnel.
Local Open Scope Z_scope.

Section answers.
Context `{HttparseHeadLaws}.

(** One head, exactly. *)
Definition whole_head (h : bytes) (s : StatusCode) : Prop :=
  exists code, hp_head h MAX_HEADERS = Ok (Complete (len h, Some code)) /\ status_from_u16 code = Ok s.

(** An interim response: informational, and not a switch of protocols. *)
Definition interim (s : StatusCode) : bool := is_informational s && negb (s =? 101).

(** What a final status means for the tunnel. *)
Definition verdict (s : StatusCode) : result TunnelError unit :=
  if is_success s then Ok tt else if s =? 407 then Err ProxyAuthRequired else Err (TunnelUnsuccessful s).

(** The proxy's answer: interim heads, and a final one. *)
Inductive answered : bytes -> result TunnelError unit -> Prop :=
| answered_final h s : whole_head h s -> interim s = false -> answered h (verdict s)
| answered_interim h s hs r : whole_head h s -> interim s = true -> answered hs r -> answered (h ++ hs) r.

Inductive interims : bytes -> Prop :=
| interims_nil : interims []
| interims_cons h s d : whole_head h s -> interim s = true -> interims d -> interims (h ++ d).

Lemma interims_snoc d h s : interims d -> whole_head h s -> interim s = true -> interims (d ++ h).
Proof.
  intros Hd Hh Hs. induction Hd as [|g s' d Hg Hs' Hd IH]; [cbn [app]; rewrite <- (app_nil_r h); by eapply interims_cons; [exact Hh| |constructor]|].
  rewrite <- (assoc_L (++)). by econstructor.
Qed.

Lemma interims_answered d hs r : interims d -> answered hs r -> answered (d ++ hs) r.
Proof. intros Hd Ha. induction Hd as [|g s d Hg Hs Hd IH]; [done|]. rewrite <- (assoc_L (++)). by econstructor. Qed.

(** A head is recognised whatever follows it. *)
Lemma whole_head_app h s x :
  whole_head h s -> exists code, hp_head (h ++ x) MAX_HEADERS = Ok (Complete (len h, Some code)) /\ status_from_u16 code = Ok s.
Proof.
  intros (code & Hc & Hs). exists code. split; [|done]. destruct (hp_head_complete _ _ _ _ Hc) as (_ & _ & Hd & _).
  apply Hd. rewrite ztake_len_app, ztake_all by lia. done.
Qed.

Lemma whole_head_unique h g s s' x y : whole_head h s -> whole_head g s' -> h ++ x = g ++ y -> h = g /\ s = s'.
Proof.
  intros Hh Hg He. destruct (whole_head_app h s x Hh) as (c & Hc & Hs), (whole_head_app g s' y Hg) as (c' & Hc' & Hs').
  rewrite He, Hc' in Hc. simplify_eq. split; [|by rewrite Hs in Hs'; simplify_eq].
  apply app_inj_1 in He as [? _]; [done|]. unfold len in *. lia.
Qed.

Lemma answered_front hs r : answered hs r -> exists h s hs', whole_head h s /\ hs = h ++ hs' /\
  (interim s = false /\ hs' = [] /\ r = verdict s \/ interim s = true /\ answered hs' r).
Proof.
  intros [h s Hh Hs|h s hs' r' Hh Hs Ha]; [exists h, s, []; rewrite app_nil_r; naive_solver|exists h, s, hs'; naive_solver].
Qed.

(** Interim heads that were read are the front of the answer. *)
Lemma answered_strip d hs r x rest : interims d -> answered hs r -> d ++ x = hs ++ rest ->
  exists hs', hs = d ++ hs' /\ answered hs' r.
Proof.
  intros Hd. revert hs. induction Hd as [|g s d Hg Hs Hd IH]; intros hs Ha He; [by exists hs|].
  destruct (answered_front hs r Ha) as (h & s' & hs' & Hh & -> & Hcase). rewrite <- !(assoc_L (++)) in He.
  destruct (whole_head_unique g h s s' _ _ Hg Hh He) as [-> ->]. apply app_inv_head in He.
  destruct Hcase as [[? _]|[_ Ha']]; [congruence|]. destruct (IH hs' Ha' He) as (hs2 & -> & ?). exists hs2.
  by rewrite (assoc_L (++)).
Qed.

(** ** One read *)

(** No head is complete yet. *)
Definition unfinished (head : bytes) : Prop := forall x, hp_head head MAX_HEADERS ≠ Ok (Complete x).

(** How much may be read. *)
Definition want (head : bytes) : Z := if ends_with [LF] head || ends_with [LF; CR] head then 1 else 2.

Lemma ends_with_snoc p c head x : ends_with (p ++ [c]) (head ++ [x]) = true -> ends_with p head = true.
Proof.
  unfold ends_with. destruct (strip_suffix (p ++ [c]) (head ++ [x])) as [r|] eqn:E; [|done]. intros _.
  apply strip_suffix_Some in E. rewrite (assoc_L (++)) in E. apply app_inj_2 in E as [-> _]; [|done].
  unfold strip_suffix. by rewrite rev_app_distr, strip_prefix_app.
Qed.

(** A head that gets complete by a read ends with it. *)
Lemma read_exact_end head b n c :
  unfinished head -> 0 < len b <= want head -> hp_head (head ++ b) MAX_HEADERS = Ok (Complete (n, c)) -> n = len (head ++ b).
Proof.
  intros Hu Hb Hc. destruct (hp_head_complete _ _ _ _ Hc) as (Hn & He & Hd & _). rewrite len_app in *.
  pose proof (len_nonneg head) as Hh0.
  assert (len head < n) as Hlt.
  { destruct (decide (len head < n)) as [|Hge]; [done|]. destruct (Hu (n, c)). apply Hd.
    rewrite ztake_app by lia. replace (ztake (n - len head) b) with (@nil Z); [by rewrite app_nil_r|].
    unfold ztake. replace (Z.to_nat (n - len head)) with 0%nat by lia. done. }
  destruct (decide (n = len head + len b)) as [|Hne]; [done|]. exfalso.
  assert (want head = 2 /\ len b = 2 /\ n = len head + 1) as (Hw & Hb2 & Hn1) by (unfold want in *; case_match; lia).
  destruct b as [|x b]; [by change (len (@nil Z)) with 0 in Hb2|].
  assert (ztake n (head ++ x :: b) = head ++ [x]) as Hz.
  { rewrite ztake_app, ztake_all by lia. f_equal. replace (n - len head) with 1 by lia. done. }
  rewrite Hz in He. unfold want in Hw. case_match eqn:Ew; [done|]. apply orb_false_iff in Ew as [E1 E2].
  apply orb_true_iff in He as [He|He].
  - by rewrite (ends_with_snoc [LF] LF head x He) in E1.
  - by rewrite (ends_with_snoc [LF; CR] LF head x He) in E2.
Qed.

(** The head that is coming is not over before it is complete. *)
Lemma unfinished_short head h s i rest :
  unfinished head -> whole_head h s -> head ++ i = h ++ rest -> exists x, h = head ++ x /\ x ≠ [] /\ i = x ++ rest.
Proof.
  intros Hu Hh [(x & -> & ->)|(x & -> & ->)]%app_eq_inv.
  - destruct (whole_head_app h s x Hh) as (code & Hc & _). by destruct (Hu (len h, Some code)).
  - exists x. split_and!; [done| |done]. intros ->. rewrite app_nil_r in Hh. destruct Hh as (code & Hc & _).
    by destruct (Hu (len head, Some code)).
Qed.

(** What the parser says of a front of a head that is coming. *)
Lemma hp_head_front head h s i rest :
  whole_head h s -> head ++ i = h ++ rest ->
  hp_head head MAX_HEADERS = Ok Partial \/
  exists code, hp_head head MAX_HEADERS = Ok (Complete (len h, Some code)) /\ status_from_u16 code = Ok s.
Proof.
  intros Hh [(x & -> & ->)|(x & -> & ->)]%app_eq_inv; [right; by apply whole_head_app|].
  destruct Hh as (code & Hc & Hs). destruct x as [|c x]; [right; rewrite app_nil_r in *; eauto|]. left.
  destruct (hp_head_complete _ _ _ _ Hc) as (_ & _ & _ & Hp). rewrite <- (ztake_len_app head (c :: x)). apply Hp.
  rewrite len_app, len_cons. pose proof (len_nonneg head). pose proof (len_nonneg x). lia.
Qed.

(** ** The whole response *)

Section reading.
Context (fault : io_error -> Prop) (inc out : bytes).

(** Unless the transport failed, an answer that fits the limit was taken for
    what it is, and nothing after it was read. *)
Definition taken_as (r : result TunnelError unit) (i : bytes) : Prop :=
  forall hs rest r0, inc = hs ++ rest -> answered hs r0 -> len hs <= MAX_RESPONSE_HEAD ->
    (exists e, r = Err (TuIo e) /\ fault e) \/ (r = r0 /\ i = rest).

(** What holds when reading ends. *)
Definition response_read (r : result TunnelError unit) (i o : bytes) : Prop :=
  o = out /\ taken_as r i /\ exists heads, inc = heads ++ i /\ len heads <= MAX_RESPONSE_HEAD /\
    match r with
    | Ok _ | Err ProxyAuthRequired | Err (TunnelUnsuccessful _) => answered heads r
    | Err (TuIo e) => fault e
    | Err TunnelUnexpectedEof => i = []
    | Err (TuParse _) | Err ProxyHeadersTooLong => True
    | _ => False
    end.

(** The state of the loop: interim heads, and the front of the next one. *)
Record reading (d head i : bytes) : Prop := {
  rd_inc : inc = d ++ head ++ i;
  rd_interims : interims d;
  rd_head : unfinished head;
  rd_size : len d + len head <= MAX_RESPONSE_HEAD;
}.

(** An answer is still coming. *)
Lemma coming d head i hs rest r0 :
  reading d head i -> inc = hs ++ rest -> answered hs r0 ->
  exists h s hs' x, hs = d ++ h ++ hs' /\ whole_head h s /\ h = head ++ x /\ x ≠ [] /\ i = x ++ hs' ++ rest /\
    (interim s = false /\ hs' = [] /\ r0 = verdict s \/ interim s = true /\ answered hs' r0).
Proof.
  intros [Hi Hd Hh Hs] Hinc Ha. rewrite Hi in Hinc. destruct (answered_strip d hs r0 (head ++ i) rest Hd Ha Hinc) as (hs1 & -> & Ha1).
  rewrite <- (assoc_L (++)) in Hinc. apply app_inv_head in Hinc.
  destruct (answered_front hs1 r0 Ha1) as (h & s & hs' & Hw & -> & Hcase). rewrite <- (assoc_L (++)) in Hinc.
  destruct (unfinished_short head h s i _ Hh Hw Hinc) as (x & Hx & Hne & Hix). exists h, s, hs', x. split_and!; done.
Qed.

Lemma taken_as_fault e i : fault e -> taken_as (Err (TuIo e)) i.
Proof. intros He hs rest r0 _ _ _. left. eauto. Qed.

(** An end that only comes when the answer is too long, cut short or not HTTP. *)
Lemma taken_as_never r d head i j :
  reading d head i ->
  (forall h s x rest', whole_head h s -> h = head ++ x -> x ≠ [] -> i = x ++ rest' -> len d + len h <= MAX_RESPONSE_HEAD -> False) ->
  taken_as r j.
Proof.
  intros Hr Hno hs rest r0 Hi Ha Hl. destruct (coming _ _ _ _ _ _ Hr Hi Ha) as (h & s & hs' & x & -> & Hw & Hx & Hne & Hix & _).
  exfalso. eapply (Hno h s x); [done..|]. rewrite !len_app in Hl. pose proof (len_nonneg hs'). lia.
Qed.

(** A head that was read to its end. *)
Lemma taken_as_final d head i s :
  interims d -> inc = d ++ head ++ i -> whole_head head s -> interim s = false -> taken_as (verdict s) i.
Proof.
  intros Hd Hi Hw Hs hs rest r0 Hinc Ha _. right. rewrite Hi in Hinc.
  destruct (answered_strip d hs r0 (head ++ i) rest Hd Ha Hinc) as (hs1 & -> & Ha1).
  rewrite <- (assoc_L (++)) in Hinc. apply app_inv_head in Hinc.
  destruct (answered_front hs1 r0 Ha1) as (h & s' & hs' & Hw' & -> & Hcase). rewrite <- (assoc_L (++)) in Hinc.
  destruct (whole_head_unique head h s s' _ _ Hw Hw' Hinc) as [-> ->]. apply app_inv_head in Hinc.
  destruct Hcase as [(_ & -> & ->)|[? _]]; [done|congruence].
Qed.

(** A parse that no answer gives. *)
Lemma taken_as_bad r d head b rest j :
  reading d head (b ++ rest) ->
  (forall n code s, hp_head (head ++ b) MAX_HEADERS = Ok (Complete (n, Some code)) -> status_from_u16 code = Ok s -> False) ->
  hp_head (head ++ b) MAX_HEADERS ≠ Ok Partial -> taken_as r j.
Proof.
  intros Hr Hc Hp. eapply taken_as_never; [exact Hr|]. intros h s x rest' Hw -> _ Hx _.
  destruct (hp_head_front (head ++ b) (head ++ x) s rest rest' Hw) as [?|(code & Hcc & Hs)]; [by rewrite <- !(assoc_L (++)), Hx|done|].
  by eapply Hc.
Qed.

Lemma reading_more d head b rest :
  reading d head (b ++ rest) -> len d + len (head ++ b) <= MAX_RESPONSE_HEAD -> unfinished (head ++ b) -> reading d (head ++ b) rest.
Proof. intros [Hi Hd Hh Hs] Hl Hu. split; [by rewrite Hi, <- !(assoc_L (++))|done..]. Qed.

Lemma reading_next d head b rest s :
  reading d head (b ++ rest) -> len d + len (head ++ b) <= MAX_RESPONSE_HEAD -> whole_head (head ++ b) s -> interim s = true ->
  reading (d ++ head ++ b) [] rest.
Proof.
  intros [Hi Hd Hh Hs] Hl Hw Hint. split.
  - by rewrite Hi, <- !(assoc_L (++)).
  - by eapply interims_snoc.
  - intros [n c] Hc. apply hp_head_complete in Hc as (Hn & _). change (len (@nil Z)) with 0 in Hn. lia.
  - rewrite len_app. change (len (@nil Z)) with 0. lia.
Qed.

(** The end of the loop on a final head. *)
Lemma response_final d head b rest s :
  reading d head (b ++ rest) -> len d + len (head ++ b) <= MAX_RESPONSE_HEAD -> whole_head (head ++ b) s -> interim s = false ->
  response_read (verdict s) rest out.
Proof.
  intros [Hi Hd Hh Hs] Hl Hw Hint. assert (inc = d ++ (head ++ b) ++ rest) as Hi' by by rewrite Hi, <- !(assoc_L (++)).
  split; [done|]. split; [by eapply taken_as_final|]. exists (d ++ head ++ b).
  split; [by rewrite Hi', <- !(assoc_L (++))|]. split; [rewrite len_app; lia|].
  assert (answered (d ++ head ++ b) (verdict s)) as Ha by (by apply interims_answered; [|constructor]).
  unfold verdict in *. by repeat case_match.
Qed.

(** What is done with a head after a read, if the loop goes on as it should. *)
Lemma handle_head_spec again d head b rest :
  reading d head (b ++ rest) -> len d + len (head ++ b) <= MAX_RESPONSE_HEAD ->
  (forall n c, hp_head (head ++ b) MAX_HEADERS = Ok (Complete (n, c)) -> n = len (head ++ b)) ->
  (unfinished (head ++ b) -> fwp fault (again (len d) (d ++ head ++ b)) response_read rest out) ->
  (reading (d ++ head ++ b) [] rest -> fwp fault (again (len (d ++ head ++ b)) (d ++ head ++ b)) response_read rest out) ->
  fwp fault (handle_head again (len d) (d ++ head ++ b) (head ++ b)) response_read rest out.
Proof.
  intros Hr Hl Hend Hgo Hnext. unfold handle_head.
  assert (forall r : TunnelError, (match r with TuParse _ | ProxyHeadersTooLong => True | _ => False end) ->
    taken_as (Err r) rest -> response_read (Err r) rest out) as Hbad.
  { intros r Hr' Ht. split; [done|]. split; [done|]. exists (d ++ head ++ b). rewrite len_app.
    split; [by rewrite (rd_inc _ _ _ Hr), <- !(assoc_L (++))|]. split; [done|by destruct r]. }
  destruct (hp_head (head ++ b) MAX_HEADERS) as [[[parsed code]|]|e] eqn:Ep.
  - pose proof (Hend _ _ eq_refl) as ->. destruct code as [code|].
    2: { apply Hbad; [done|]. by eapply taken_as_bad; [exact Hr|rewrite Ep|rewrite Ep]. }
    destruct (status_from_u16 code) as [s|e] eqn:Es.
    2: { apply Hbad; [done|]. eapply taken_as_bad; [exact Hr|rewrite Ep; intros n0 c0 s0 [= _ <-] Hs0; congruence|by rewrite Ep]. }
    assert (whole_head (head ++ b) s) as Hwh by by exists code. fold (interim s).
    rewrite <- len_app. destruct (interim s) eqn:Eint; [apply Hnext; by eapply reading_next|].
    pose proof (response_final _ _ _ _ _ Hr Hl Hwh Eint) as Hfin. unfold verdict in Hfin.
    destruct (is_success s); [|by destruct (s =? 407)]. by rewrite Z.eqb_refl.
  - apply Hgo. intros x. by rewrite Ep.
  - assert (forall r, taken_as r rest) as Ht by (intros r; eapply taken_as_bad; [exact Hr|by rewrite Ep|by rewrite Ep]).
    destruct e; (apply Hbad; [done|apply Ht]).
Qed.

Lemma slice_from_app x y : slice_from (len x) (x ++ y) = Some y.
Proof. unfold slice_from. rewrite len_app, (proj2 (Z.leb_le _ _)) by (pose proof (len_nonneg y); lia). by rewrite zdrop_len_app. Qed.

Lemma response_loop_spec fuel d head i :
  reading d head i -> (Z.to_nat (MAX_RESPONSE_HEAD - (len d + len head)) < fuel)%nat ->
  fwp fault (response_loop fuel (len d) (d ++ head)) response_read i out.
Proof.
  revert d head i. induction fuel as [|fuel IH]; intros d head i Hr Hf; [lia|]. cbn [response_loop].
  pose proof (rd_inc _ _ _ Hr) as Hi. pose proof (rd_size _ _ _ Hr) as Hsz.
  assert (exists heads, inc = heads ++ i /\ len heads <= MAX_RESPONSE_HEAD) as Hheads
    by (exists (d ++ head); split; [by rewrite Hi, (assoc_L (++))|rewrite len_app; lia]).
  destruct (len (d ++ head) =? MAX_RESPONSE_HEAD) eqn:Efull; zbool; rewrite len_app in Efull.
  { split; [done|]. split; [|naive_solver]. eapply taken_as_never; [exact Hr|]. intros h s x rest' _ -> Hne _ Hl.
    rewrite len_app in Hl. apply len_pos in Hne. lia. }
  eapply fwp_unwind; [apply slice_from_app|]. fold (want head). apply fwp_bind, fwp_await_err.
  split; [intros e He; split; [done|]; split; [by apply taken_as_fault|naive_solver]|].
  intros b rest -> Hb Hz. simpl. assert (1 <= want head <= 2) as Hw by (unfold want; case_match; lia).
  rewrite len_app in Hb, Hz. case_decide as Hnil.
  { subst b. simpl in *. specialize (Hz eq_refl ltac:(lia)). subst rest. split; [done|]. split; [|naive_solver].
    eapply taken_as_never; [exact Hr|]. intros h s x rest' _ _ Hne Hx _. by destruct x. }
  apply len_pos in Hnil. rewrite <- (assoc_L (++)). eapply fwp_unwind; [apply slice_from_app|].
  assert (len d + len (head ++ b) <= MAX_RESPONSE_HEAD) as Hl by (rewrite len_app; lia).
  assert (forall n c, hp_head (head ++ b) MAX_HEADERS = Ok (Complete (n, c)) -> n = len (head ++ b)) as Hend
    by (intros n c; apply read_exact_end; [apply Hr|lia]).
  assert (unfinished (head ++ b) -> fwp fault (response_loop fuel (len d) (d ++ head ++ b)) response_read rest out) as Hgo.
  { intros Hu. apply IH; [by apply reading_more|]. rewrite len_app. lia. }
  case_match eqn:Eskip.
  - apply Hgo. intros [n c] Hc. apply andb_true_iff in Eskip as [Hend'%negb_true_iff _].
    pose proof (Hend _ _ Hc) as ->. apply hp_head_complete in Hc as (_ & He & _). by rewrite ztake_all, Hend' in He by lia.
  - apply handle_head_spec; [done..|]. intros Hnext. rewrite <- (app_nil_r (d ++ head ++ b)) at 2.
    apply IH; [done|]. rewrite !len_app. change (len (@nil Z)) with 0. lia.
Qed.

Lemma read_response_spec : fwp fault read_response response_read inc out.
Proof.
  apply (response_loop_spec _ [] []); [|change (len (@nil Z)) with 0; lia]. split; [done|constructor| |done].
  intros [n c] Hc. apply hp_head_complete in Hc as (Hn & _). change (len (@nil Z)) with 0 in Hn. lia.
Qed.
End reading.
End answers.

(** ** Theorems

    The claims about HTTP CONNECT tunnels ([proxy/tunnel.rs]): the request a
    connector writes, and how the proxy's response is read. *)

(** ** The request *)

Section request.
Context {Hm : Type} `{HeaderMapLaws Hm} {U : Type} `{UriOps U}.
Implicit Types (h : Hm) (c : TunnelConnector Hm U).

(** Connectors, as they are made. *)
Inductive built : TunnelConnector Hm U -> Prop :=
| built_new proxy : built (tunnel_connector_new proxy)
| built_auth auth c : built c -> built (tunnel_with_auth auth c)
| built_headers h c : built c -> built (tunnel_with_headers h c).

Lemma extend_from_absent n cur l h :
  (forall v, (n, v) ∉ resolve_names cur l) -> hm_get_all (extend_from cur l h) n = hm_get_all h n.
Proof.
  revert cur h. induction l as [|[[m|] v] l IH]; intros cur h Hn; [done| |]; cbn [extend_from resolve_names] in *.
  - rewrite IH; [|intros w Hw; by apply (Hn w), elem_of_cons; right]. rewrite hm_get_all_insert, decide_False; [done|].
    intros ->. by apply (Hn v), elem_of_cons; left.
  - destruct cur as [m|]; [|by apply IH]. rewrite IH; [|intros w Hw; by apply (Hn w), elem_of_cons; right].
    rewrite hm_get_all_append, decide_False; [done|]. intros ->. by apply (Hn v), elem_of_cons; left.
Qed.

Lemma not_iter n h v : hm_get_all h n = [] -> ((n, v) ∉ hm_iter h).
Proof.
  rewrite hm_get_all_iter. intros He Hin. assert ((n, v) ∈ filter (fun kv => kv.1 = n) (hm_iter h)) as Hf by by apply list_elem_of_filter.
  apply (list_elem_of_fmap_2 snd) in Hf. rewrite He in Hf. by apply not_elem_of_nil in Hf.
Qed.

Lemma hm_extend_absent n h o : hm_get_all o n = [] -> hm_get_all (hm_extend h o) n = hm_get_all h n.
Proof. intros Ho. apply extend_from_absent. intros v. rewrite hm_into_iter_iter. by apply not_iter. Qed.

(** No connector announces content. *)
Lemma built_no_content c n : built c -> n = H_CONTENT_LENGTH \/ n = H_TRANSFER_ENCODING -> hm_get_all (tc_headers c) n = [].
Proof.
  intros Hc Hn. induction Hc as [proxy|auth c Hc IH|h c Hc IH]; simpl.
  - apply hm_get_all_new.
  - rewrite hm_get_all_insert, decide_False; [done|]. by destruct Hn as [->| ->].
  - assert (hm_get_all (hm_remove H_TRANSFER_ENCODING (hm_remove H_CONTENT_LENGTH h)) n = []) as Hr.
    { rewrite !hm_get_all_remove. destruct Hn as [->| ->]; [by rewrite decide_False, decide_True|by rewrite decide_True]. }
    case_match; [done|]. by rewrite hm_extend_absent.
Qed.

(** A field on the wire. *)
Definition tunnel_line (nv : bytes * bytes) : bytes := nv.1 ++ bs ": " ++ nv.2 ++ CRLF.

(** The CONNECT request a connector writes, however its headers were added:
    the request line names host and port of the destination, then there is
    exactly one Host line (the caller's, or the destination), then every other
    field that was added, in order and with all its values, and an empty line;
    never a Content-Length or Transfer-Encoding, so nothing after it can be
    read as content. A destination without a host, or with a port that is not
    a number from 1 to 65535, is refused and nothing is written. *)
Theorem connect_request_wire c dst :
  built c ->
  match connect_request dst (tc_headers c) with
  | Ok req => exists host port fields value,
      dst_host dst = Some host /\ dst_port dst = Some port /\
      req = bs "CONNECT " ++ (host ++ bs ":" ++ to_dec port) ++ bs " HTTP/1.1" ++ CRLF ++
            tunnel_line (bs "Host", value) ++ concat (map tunnel_line fields) ++ CRLF /\
      value = default (host ++ bs ":" ++ to_dec port) (hm_get (tc_headers c) H_HOST) /\
      (forall n, n ≠ H_HOST -> (filter (fun kv => kv.1 = n) fields).*2 = hm_get_all (tc_headers c) n) /\
      Forall (fun kv => kv.1 ≠ H_HOST /\ kv.1 ≠ H_CONTENT_LENGTH /\ kv.1 ≠ H_TRANSFER_ENCODING) fields
  | Err e => e = TuMissingHost /\ dst_host dst = None \/ e = TuInvalidPort /\ dst_port dst = None
  end.
Proof.
  intros Hc. unfold connect_request. destruct (dst_host dst) as [host|]; [|by left].
  destruct (dst_port dst) as [port|]; [|by right].
  exists host, port, (filter (fun nv => nv.1 ≠ H_HOST) (hm_iter (tc_headers c))), (default (host ++ bs ":" ++ to_dec port) (hm_get (tc_headers c) H_HOST)).
  split_and!; [done..| |done| |].
  - unfold tunnel_line. cbn [fst snd]. rewrite <- !(assoc_L (++)). change (bs "Host: ") with (bs "Host" ++ bs ": ").
    rewrite <- (assoc_L (++) (bs "Host")), (map_ext _ (fun nv => nv.1 ++ bs ": " ++ nv.2 ++ CRLF)) by (by intros []).
    by destruct (hm_get _ _).
  - intros n Hn. rewrite hm_get_all_iter, list_filter_filter. f_equal. apply list_filter_iff. intros [m v]. simpl. naive_solver.
  - apply Forall_forall. intros [m v] [Hmn Hin]%list_elem_of_filter. simpl in *. split; [done|].
    split; intros ->; (eapply not_iter; [|exact Hin]); apply built_no_content; auto.
Qed.
End request.

(** ** The response *)

(** C27. Opening a tunnel over any transport, however it cuts reads and writes: it
    ends; unless the transport fails the whole request was written, and the
    tunnel is open exactly when the proxy's answer (any interim heads and a
    final one, within 8192 bytes) says 2xx; a refusal is reported with its
    status and 407 as such. What was read is exactly that answer: not a byte of
    the tunnel that follows it is lost, although heads are parsed while they
    arrive. A cut answer is an error, and no answer makes it panic. *)
Theorem tunnel_opens {T} `{HttparseHeadLaws} `{AsyncIoLaws T} req (t : T) :
  exists r t', drive (S (aio_patience t)) (tunnel req) t = (t', Some r) /\
    (forall hs rest r0, aio_incoming t = hs ++ rest -> answered hs r0 -> len hs <= MAX_RESPONSE_HEAD ->
      (exists e, r = Err (TuIo e) /\ aio_fault e) \/ (r = r0 /\ aio_incoming t' = rest)) /\
    match r with
    | Err (TuIo e) => aio_fault e
    | _ => aio_written t' = aio_written t ++ req /\
        exists heads, aio_incoming t = heads ++ aio_incoming t' /\ len heads <= MAX_RESPONSE_HEAD /\
          match r with
          | Ok _ | Err ProxyAuthRequired | Err (TunnelUnsuccessful _) => answered heads r
          | Err TunnelUnexpectedEof => aio_incoming t' = []
          | Err (TuParse _) | Err ProxyHeadersTooLong => True
          | _ => False
          end
    end.
Proof.
  set (Q := fun (r : result TunnelError unit) (i o : bytes) =>
    (exists e, r = Err (TuIo e) /\ aio_fault e) \/ response_read aio_fault (aio_incoming t) (aio_written t ++ req) r i o).
  destruct (drive_spec (tunnel req) Q t) as (r & t' & Hd & Hq).
  { unfold tunnel. apply fwp_bind, fwp_await_err, fwp_send; [|intros e p s He _; left; eauto].
    eapply fwp_mono; [apply read_response_spec|]. intros r i o Hr. by right. }
  exists r, t'. split; [exact Hd|]. destruct Hq as [(e & -> & He)|(Hw & Ht & heads & Hi & Hl & Hc)].
  - split; [intros hs rest r0 _ _ _; left; eauto|done].
  - split; [exact Ht|]. destruct r as [[]|[]]; try done; (split; [done|]; exists heads; by split_and!).
Qed.

(** ** The theorems at work *)

(** A parser of heads: up to the first empty line, with a status line in front. *)
Fixpoint head_end (st : nat) (n : Z) (b : bytes) : option Z :=
  match b with
  | [] => None
  | c :: b' =>
      if c =? LF then match st with O => head_end 1 (n + 1) b' | _ => Some (n + 1) end
      else if c =? CR then head_end (match st with 1%nat => 2 | _ => 0 end) (n + 1) b'
      else head_end 0 (n + 1) b'
  end.

Definition head_status (h : bytes) : option Z :=
  rest ← strip_prefix (bs "HTTP/1.1 ") h;
  match rest with
  | a :: b :: c :: _ =>
      if is_ascii_digit a && is_ascii_digit b && is_ascii_digit c then Some (of_digits 10 [a - 48; b - 48; c - 48]) else None
  | _ => None
  end.

Module ConcreteHead.

#[export] Instance line_HttparseHead : HttparseHead := fun b room =>
  match head_end 0 0 b with
  | None => Ok Partial
  | Some n => match head_status (ztake n b) with Some code => Ok (Complete (n, Some code)) | None => Err HpStatus end
  end.

(** What the scanner remembers of the bytes before. *)
Definition seen (st : nat) (pre : bytes) : Prop :=
  match st with
  | O => True
  | 1%nat => exists p, pre = p ++ [LF]
  | _ => exists p, pre = p ++ [LF; CR]
  end.

(** An end that was found: the front up to it decides, and no shorter one does. *)
Definition found (st : nat) (pre b : bytes) (n : Z) : Prop :=
  exists p rest, b = p ++ rest /\ n = len pre + len p /\ p ≠ [] /\
    ((exists q, pre ++ p = q ++ [LF; LF]) \/ (exists q, pre ++ p = q ++ [LF; CR; LF])) /\
    (forall rest', head_end st (len pre) (p ++ rest') = Some n) /\
    (forall p1 p2, p = p1 ++ p2 -> p2 ≠ [] -> head_end st (len pre) p1 = None).

Lemma head_end_spec b : forall st pre n, seen st pre -> head_end st (len pre) b = Some n -> found st pre b n.
Proof.
  induction b as [|c b IH]; intros st pre n Hs; [done|].
  assert (forall st', seen st' (pre ++ [c]) -> (forall x, head_end st (len pre) (c :: x) = head_end st' (len pre + 1) x) ->
    head_end st (len pre) (c :: b) = Some n -> found st pre (c :: b) n) as Hgo.
  { intros st' Hs' Hstep He. rewrite Hstep in He.
    assert (len (pre ++ [c]) = len pre + 1) as Hl by (rewrite len_app; done). rewrite <- Hl in He.
    destruct (IH st' (pre ++ [c]) n Hs' He) as (p & rest & -> & -> & _ & Hend & Hd & Hp). rewrite Hl in *.
    exists (c :: p), rest. rewrite <- (assoc_L (++)) in Hend. simpl in Hend. rewrite len_cons.
    split_and!; [done|lia|done|done|intros rest'; cbn [app]; rewrite Hstep; apply Hd|].
    intros [|x p1] p2 He2 Hne; [done|]. injection He2 as <- He2. rewrite Hstep. by apply (Hp p1 p2). }
  assert (forall m, n = m -> m = len pre + 1 -> c = LF -> st ≠ O -> found st pre (c :: b) n) as Hstop.
  { intros m -> -> -> Hst. exists [LF], b. split_and!; try done.
    - destruct st as [|[|st]]; [done|left|right]; destruct Hs as [q ->]; exists q; by rewrite <- (assoc_L (++)).
    - intros rest'. simpl. by destruct st.
    - intros [|x [|? ?]] p2 He Hne; [done| |done]. injection He as _ <-. done. }
  cbn [head_end]. destruct (c =? LF) eqn:El; zbool; [destruct st as [|st]|destruct (c =? CR) eqn:Er; zbool].
  - intros He. apply (Hgo 1%nat); [exists pre; by rewrite El|intros x; simpl; by rewrite El|simpl; by rewrite El].
  - intros [= <-]. by eapply Hstop.
  - intros He. subst c. apply (Hgo (match st with 1%nat => 2%nat | _ => 0%nat end)); [|done|done].
    destruct st as [|[|st]]; [done| |done]. destruct Hs as [q ->]. exists q. by rewrite <- (assoc_L (++)).
  - intros He. assert (forall x, head_end st (len pre) (c :: x) = head_end 0 (len pre + 1) x) as Hx.
    { intros x. simpl. by rewrite (proj2 (Z.eqb_neq c LF)), (proj2 (Z.eqb_neq c CR)). }
    apply (Hgo 0%nat); [done|done|]. by rewrite Hx.
Qed.

Lemma ends_with_app q p : ends_with p (q ++ p) = true.
Proof. unfold ends_with, strip_suffix. by rewrite rev_app_distr, strip_prefix_app. Qed.

#[export] Instance line_HttparseHeadLaws : HttparseHeadLaws.
Proof.
  split. intros b room n code. unfold hp_head, line_HttparseHead. destruct (head_end 0 0 b) as [m|] eqn:Ee; [|done].
  destruct (head_end_spec b 0 [] m I Ee) as (p & rest & -> & Hm & Hne & Hend & Hd & Hp). simpl in *.
  change (len (@nil Z)) with 0 in *. rewrite Z.add_0_l in Hm. subst m. rewrite ztake_len_app.
  destruct (head_status p) as [cd|] eqn:Es; [|done]. intros [= <- <-]. pose proof (len_pos p Hne). split_and!.
  - lia.
  - rewrite len_app. pose proof (len_nonneg rest). lia.
  - rewrite ztake_len_app. apply orb_true_iff. destruct Hend as [[q ->]|[q ->]]; [left|right]; apply ends_with_app.
  - intros b' Hb. rewrite ztake_len_app in Hb. rewrite <- (ztake_zdrop (len p) b'), Hb, Hd. by rewrite ztake_len_app, Es.
  - intros k Hk. assert (exists p2, p = ztake k (p ++ rest) ++ p2 /\ p2 ≠ []) as (p2 & Hp2 & Hn2).
    { exists (zdrop k p). rewrite ztake_app by lia. replace (ztake (k - len p) rest) with (@nil Z).
      - rewrite app_nil_r, ztake_zdrop. split; [done|]. intros Hz. apply (f_equal len) in Hz.
        rewrite len_zdrop in Hz by lia. change (len (@nil Z)) with 0 in Hz. lia.
      - unfold ztake. replace (Z.to_nat (k - len p)) with 0%nat by lia. done. }
    by rewrite (Hp _ _ Hp2 Hn2).
Qed.
End ConcreteHead.

Module ConcreteTunnelProxy.
Import Concrete ConcreteHead ConcreteAsync ConcreteUri.

(** A proxy that first says 100, then 200, and whose tunnel starts with a banner. *)
Definition interim_head : bytes := bs "HTTP/1.1 100 Continue" ++ [CR; LF; CR; LF].
Definition final_head : bytes := bs "HTTP/1.1 200 OK" ++ [LF; LF].
Definition proxy : pipe :=
  Pipe [Some (72, tail interim_head); None; Some (72, tail final_head ++ bs "SSH-2.0")] [] 5.

Lemma proxy_answers : answered (interim_head ++ final_head) (Ok tt).
Proof.
  apply (answered_interim _ 100); [exists 100; by vm_compute|done|]. apply (answered_final _ 200); [exists 200; by vm_compute|done].
Qed.

Lemma tunnel_opens_witness :
  exists t', drive 4 (tunnel (bs "CONNECT")) proxy = (t', Some (Ok tt)) /\ aio_incoming t' = bs "SSH-2.0".
Proof.
  destruct (tunnel_opens (bs "CONNECT") proxy) as (r & t' & Hd & Ht & _).
  destruct (Ht (interim_head ++ final_head) (bs "SSH-2.0") (Ok tt)) as [(e & _ & He)|[-> Hrest]].
  - vm_compute. reflexivity.
  - exact proxy_answers.
  - vm_compute. discriminate.
  - destruct He.
  - exists t'. split; [exact Hd|exact Hrest].
Defined.

(** A connector with a password and a header that announces content. *)
Definition connector : TunnelConnector hmap uri :=
  tunnel_with_headers (hm_append H_CONTENT_LENGTH (bs "5") (hm_append (bs "x-a") (bs "1") hm_new))
    (tunnel_with_auth (bs "Basic QQ==") (tunnel_connector_new (Uri (bs "http://proxy:3128/")))).
Definition dst : uri := Uri (bs "https://example.com/x").

Lemma connector_built : built connector.
Proof. apply built_headers, built_auth, built_new. Qed.

Lemma connect_request_wire_witness :
  exists host port, dst_host dst = Some host /\ dst_port dst = Some port /\
    connect_request dst (tc_headers connector) =
      Ok (bs "CONNECT example.com:443 HTTP/1.1" ++ CRLF ++ bs "Host: example.com:443" ++ CRLF ++
          bs "proxy-authorization: Basic QQ==" ++ CRLF ++ bs "x-a: 1" ++ CRLF ++ CRLF).
Proof.
  pose proof (connect_request_wire connector dst connector_built) as Hw.
  assert (exists req, connect_request dst (tc_headers connector) = Ok req) as [req Hr] by (eexists; vm_compute; reflexivity).
  rewrite Hr in Hw. destruct Hw as (host & port & fields & value & Hh & Hp & _). exists host, port.
  split; [exact Hh|]. split; [exact Hp|]. vm_compute. reflexivity.
Defined.
End ConcreteTunnelProxy.
