(* ===== verification/Ping.v ===== *)
(** * Ping

    [proto/http2/ping.rs]: the pings of an HTTP/2 connection. A [Recorder] (one
    per stream) and the [Ponger] of the connection's task share a state behind a
    lock. Pings measure the connection's bandwidth-delay product ([Bdp]), from
    which the receive window is derived, and show that an otherwise silent peer
    is alive ([KeepAlive]). [rt/timer.rs]'s [Time] is the clock and the sleeps.

    The [http2] crate's [PingPong] and the runtime's timer are parameters.
    Instants and durations are nanoseconds. *)

From stdpp Require Import prelude.
From Stdlib Require Import ZArith Lia SpecFloat.
From S2P Require Import Prelude Errors.
Local Open Scope Z_scope.

(** ** Binary64

    [f64] as the Standard Library's IEEE 754 binary64 values ([SpecFloat] at
    precision 53 and exponent bound 1024), with the operations [ping.rs] uses.
    They are computed on integers, so the definitions over them run. *)

Definition f64 : Type := spec_float.

Definition f64_add : f64 -> f64 -> f64 := SFadd 53 1024.
Definition f64_sub : f64 -> f64 -> f64 := SFsub 53 1024.
Definition f64_mul : f64 -> f64 -> f64 := SFmul 53 1024.
Definition f64_div : f64 -> f64 -> f64 := SFdiv 53 1024.

(** [a == b] and [a < b]; neither holds of a NaN. *)
Definition f64_eq (a b : f64) : bool := SFeqb a b.
Definition f64_lt (a b : f64) : bool := SFltb a b.

(** [n as f64] for an unsigned integer: to the nearest value, ties to even. *)
Definition f64_of_int (n : Z) : f64 := binary_normalize 53 1024 n 0 false.

(** The literals [0.0], [0.125], [1.5]. *)
Definition F0 : f64 := S754_zero false.
Definition F0_125 : f64 := Eval vm_compute in f64_div (f64_of_int 1) (f64_of_int 8).
Definition F1_5 : f64 := Eval vm_compute in f64_div (f64_of_int 3) (f64_of_int 2).

(** The conversion from integers keeps zero apart from everything else, which
    is what the tests against [0.0] rely on. *)
Example f64_of_int_exact :
  f64_of_int 1000000000 = S754_finite false 8388608000000000 (-23) /\
  f64_eq (f64_of_int 0) F0 = true /\ f64_eq (f64_of_int 1) F0 = false /\
  f64_of_int U64_MAX = f64_of_int (U64_MAX + 1).
Proof. by vm_compute. Qed.


(** ** Time *)

Definition NANOS_PER_SEC : Z := 1000000000.
Definition from_secs (s : Z) : Z := s * NANOS_PER_SEC.
Definition from_millis (ms : Z) : Z := ms * 1000000.
Definition as_secs (d : Z) : Z := d / NANOS_PER_SEC.
Definition subsec_nanos (d : Z) : Z := d mod NANOS_PER_SEC.

(** The latest instant: seconds are an [i64]. Adding past it panics. *)
Definition INSTANT_MAX : Z := 9223372036854775807 * NANOS_PER_SEC + 999999999.
Definition instant_add {S E} (i d : Z) : M S E Z :=
  expect (if i + d <=? INSTANT_MAX then Some (i + d) else None).

(** [Instant - Instant] saturates at zero. *)
Definition instant_sub (a b : Z) : Z := Z.max 0 (a - b).

(** The longest [Duration]; multiplying past it panics. Dividing truncates. *)
Definition DURATION_MAX : Z := U64_MAX * NANOS_PER_SEC + 999999999.
Definition duration_mul (d n : Z) : option Z := if d * n <=? DURATION_MAX then Some (d * n) else None.
Definition duration_div (d n : Z) : Z := d / n.

(** [trait Timer] and [trait Sleep]: [T] is the runtime, [Sl] a sleep. Reading
    the clock and polling a sleep may take time. *)
Class TimerOps (T Sl : Type) : Type := {
  std_now : T -> T * Z;
  timer_now : T -> T * Z;
  timer_sleep : Z -> T -> T * Sl;
  timer_reset : Sl -> Z -> T -> T * Sl;
  (** a sleep that has resolved may do anything when it is polled again *)
  sleep_poll : Sl -> T -> T * (Sl * outcome Empty_set unit);
}.

(** [http2::PingPong]: [pp_send_ping] says whether the ping was taken,
    [pp_poll_pong] is [None] for [Pending] and else says whether a pong came. *)
Class PingPongOps (P : Type) : Type := {
  (** [Ping::opaque()]'s payload *)
  ping_opaque : bytes;
  pp_send_ping : bytes -> P -> P * bool;
  pp_poll_pong : P -> P * option bool;
}.

(** [enum Time]. *)
Inductive Time : Type := Timer | Empty.

(** ** The data *)

(** [struct Config]. *)
Record Config : Type := MkConfig {
  bdp_initial_window : option Z;
  keep_alive_interval : option Z;
  keep_alive_timeout : Z;
  keep_alive_while_idle : bool;
  cfg_payload : option bytes;
}.

(** [struct Bdp]. *)
Record Bdp : Type := MkBdp { bdp_ : Z; max_bandwidth : f64; rtt_ : f64; ping_delay : Z; stable_count : Z }.

(** [enum KeepAliveState]. *)
Inductive KeepAliveState : Type := KInit | Scheduled (at_ : Z) | PingSent (deadline : Z).

(** [enum Ponged]. *)
Inductive Ponged : Type := SizeUpdate (w : Z).

(** [struct KeepAlive]. *)
Record KeepAlive (Sl : Type) : Type := MkKeepAlive {
  ka_interval : Z; ka_timeout : Z; while_idle : bool; ka_state : KeepAliveState; ka_sleep : Sl; ka_timer : Time }.
Arguments MkKeepAlive {Sl}.
Arguments ka_interval {Sl}.
Arguments ka_timeout {Sl}.
Arguments while_idle {Sl}.
Arguments ka_state {Sl}.
Arguments ka_sleep {Sl}.
Arguments ka_timer {Sl}.

(** [struct Shared]. *)
Record Shared (P : Type) : Type := MkShared {
  ping_pong : P; ping_sent_at : option Z; payload : option bytes; sh_bytes : option Z; next_bdp_at : option Z;
  last_read_at : option Z; is_keep_alive_timed_out : bool; sh_timer : Time }.
Arguments MkShared {P}.
Arguments ping_pong {P}.
Arguments ping_sent_at {P}.
Arguments payload {P}.
Arguments sh_bytes {P}.
Arguments next_bdp_at {P}.
Arguments last_read_at {P}.
Arguments is_keep_alive_timed_out {P}.
Arguments sh_timer {P}.

Section shared_updates.
Context {P : Type}.
Implicit Types s : Shared P.
Definition set_ping_pong (x : P) s := MkShared x (ping_sent_at s) (payload s) (sh_bytes s) (next_bdp_at s) (last_read_at s) (is_keep_alive_timed_out s) (sh_timer s).
Definition set_ping_sent_at (x : option Z) s := MkShared (ping_pong s) x (payload s) (sh_bytes s) (next_bdp_at s) (last_read_at s) (is_keep_alive_timed_out s) (sh_timer s).
Definition set_sh_bytes (x : option Z) s := MkShared (ping_pong s) (ping_sent_at s) (payload s) x (next_bdp_at s) (last_read_at s) (is_keep_alive_timed_out s) (sh_timer s).
Definition set_next_bdp_at (x : option Z) s := MkShared (ping_pong s) (ping_sent_at s) (payload s) (sh_bytes s) x (last_read_at s) (is_keep_alive_timed_out s) (sh_timer s).
Definition set_last_read_at (x : option Z) s := MkShared (ping_pong s) (ping_sent_at s) (payload s) (sh_bytes s) (next_bdp_at s) x (is_keep_alive_timed_out s) (sh_timer s).
Definition set_timed_out (x : bool) s := MkShared (ping_pong s) (ping_sent_at s) (payload s) (sh_bytes s) (next_bdp_at s) (last_read_at s) x (sh_timer s).

(** [Shared::is_ping_sent]. *)
Definition is_ping_sent s : bool := if ping_sent_at s is Some _ then true else false.
End shared_updates.

Definition set_ka_state {Sl} (x : KeepAliveState) (k : KeepAlive Sl) := MkKeepAlive (ka_interval k) (ka_timeout k) (while_idle k) x (ka_sleep k) (ka_timer k).
Definition set_ka_sleep {Sl} (x : Sl) (k : KeepAlive Sl) := MkKeepAlive (ka_interval k) (ka_timeout k) (while_idle k) (ka_state k) x (ka_timer k).

(** [struct Recorder]: with the shared state, or disabled. *)
Inductive Recorder : Type := Recording | Disabled.

(** ** [impl Config] *)

Definition MAX_DELAY : Z := from_secs (86400 * 365 * 30).

(** [Config::new]. *)
Definition config_new (adaptive_window : bool) (initial_window_size : Z) (interval : option Z) (timeout : Z)
    (idle : bool) (pl : option bytes) : Config :=
  MkConfig (if adaptive_window then Some initial_window_size else None)
    ((fun i => Z.min i MAX_DELAY) <$> interval) (Z.min timeout MAX_DELAY) idle pl.

(** [Config::is_enabled]. *)
Definition is_enabled (c : Config) : bool :=
  (if bdp_initial_window c is Some _ then true else false) || (if keep_alive_interval c is Some _ then true else false).

(** ** [impl Bdp] *)

Definition BDP_LIMIT : Z := 1024 * 1024 * 16.

(** [seconds]. *)
Definition seconds (dur : Z) : f64 :=
  f64_add (f64_of_int (as_secs dur)) (f64_div (f64_of_int (subsec_nanos dur)) (f64_of_int NANOS_PER_SEC)).

(** [Bdp::stabilize_delay]; a [u32] counter and a [Duration] that overflow panic. *)
Definition stabilize_delay (b : Bdp) : option Bdp :=
  if ping_delay b <? from_secs 10 then
    if stable_count b + 1 <=? U32_MAX then
      let count := stable_count b + 1 in
      if 2 <=? count then
        delay ← duration_mul (ping_delay b) 4;
        Some (MkBdp (bdp_ b) (max_bandwidth b) (rtt_ b) delay 0)
      else Some (MkBdp (bdp_ b) (max_bandwidth b) (rtt_ b) (ping_delay b) count)
    else None
  else Some b.

(** [self.stabilize_delay(); return None]. *)
Definition stabilized (b : Bdp) : option (Bdp * option Z) := b ← stabilize_delay b; Some (b, None).

(** [Bdp::calculate]: [None] is a panic. *)
Definition calculate (b : Bdp) (bytes : Z) (rtt : Z) : option (Bdp * option Z) :=
  if bdp_ b =? BDP_LIMIT then stabilized b
  else
    let rtt := seconds rtt in
    if f64_eq rtt F0 then stabilized b
    else
      let avg := if f64_eq (rtt_ b) F0 then rtt else f64_add (rtt_ b) (f64_mul (f64_sub rtt (rtt_ b)) F0_125) in
      let b := MkBdp (bdp_ b) (max_bandwidth b) avg (ping_delay b) (stable_count b) in
      let bw := f64_div (f64_of_int bytes) (f64_mul (rtt_ b) F1_5) in
      if f64_lt bw (max_bandwidth b) then stabilized b
      else
        let b := MkBdp (bdp_ b) bw (rtt_ b) (ping_delay b) (stable_count b) in
        if bdp_ b * 2 / 3 <=? bytes then
          let w := Z.min (saturating_mul bytes 2) BDP_LIMIT in
          Some (MkBdp w (max_bandwidth b) (rtt_ b) (duration_div (ping_delay b) 2) 0, Some w)
        else stabilized b.

(** ** The recorder and the ponger *)

Section ping.
Context {T Sl P : Type} `{TimerOps T Sl} `{PingPongOps P}.

(** The shared state, the ponger, the runtime and the wake-ups of the task. *)
Record Sys : Type := MkSys { rt : T; shared : Shared P; bdp : option Bdp; keep_alive : option (KeepAlive Sl); woken : nat }.
Definition set_rt x (s : Sys) := MkSys x (shared s) (bdp s) (keep_alive s) (woken s).
Definition set_shared x (s : Sys) := MkSys (rt s) x (bdp s) (keep_alive s) (woken s).
Definition set_bdp x (s : Sys) := MkSys (rt s) (shared s) x (keep_alive s) (woken s).
Definition set_keep_alive x (s : Sys) := MkSys (rt s) (shared s) (bdp s) x (woken s).
Definition wake (s : Sys) := MkSys (rt s) (shared s) (bdp s) (keep_alive s) (S (woken s)).
Definition on_shared (f : Shared P -> Shared P) : Sys -> Sys := fun s => set_shared (f (shared s)) s.
Definition on_ka (f : KeepAlive Sl -> KeepAlive Sl) : Sys -> Sys := fun s => set_keep_alive (f <$> keep_alive s) s.

Definition Pg (A : Type) : Type := M Sys Empty_set A.

(** [impl Timer for Time]. *)
Definition now (tm : Time) : Pg Z := fun s =>
  let '(t, i) := match tm with Timer => timer_now (rt s) | Empty => std_now (rt s) end in (set_rt t s, Ready i).
Definition time_sleep (tm : Time) (d : Z) : Pg Sl := fun s =>
  match tm with Timer => let '(t, sl) := timer_sleep d (rt s) in (set_rt t s, Ready sl) | Empty => (s, Panicked) end.
Definition time_reset (tm : Time) (sl : Sl) (d : Z) : Pg Sl := fun s =>
  match tm with Timer => let '(t, sl) := timer_reset sl d (rt s) in (set_rt t s, Ready sl) | Empty => (s, Panicked) end.

(** [self.keep_alive] in a method that has matched it. *)
Definition the_ka : Pg (KeepAlive Sl) := s ← get; expect (keep_alive s).

(** [self.timer.reset(&mut self.sleep, deadline)]. *)
Definition reset_sleep (d : Z) : Pg unit :=
  ka ← the_ka; sl ← time_reset (ka_timer ka) (ka_sleep ka) d; modify (on_ka (set_ka_sleep sl)).

(** [Pin::new(&mut self.sleep).poll(cx).is_ready()]. *)
Definition sleep_is_ready (ka : KeepAlive Sl) : Pg bool := fun s =>
  let '(t, (sl, o)) := sleep_poll (ka_sleep ka) (rt s) in
  (on_ka (set_ka_sleep sl) (set_rt t s), match o with Ready _ => Ready true | Pending => Ready false | Panicked | Failed _ => Panicked | NoFuel => NoFuel end).

(** [Shared::send_ping]. *)
Definition send_ping : Pg unit :=
  s ← get;
  let ping := default ping_opaque (payload (shared s)) in
  let '(pp, ok) := pp_send_ping ping (ping_pong (shared s)) in
  modify (on_shared (set_ping_pong pp));;
  if ok : bool then i ← now (sh_timer (shared s)); modify (on_shared (set_ping_sent_at (Some i))) else mret tt.

(** [Shared::update_last_read_at]. *)
Definition update_last_read_at : Pg unit :=
  s ← get;
  match last_read_at (shared s) with
  | Some _ => i ← now (sh_timer (shared s)); modify (on_shared (set_last_read_at (Some i)))
  | None => mret tt
  end.

(** [Shared::last_read_at]. *)
Definition sh_last_read_at : Pg Z := s ← get; expect (last_read_at (shared s)).

(** [Recorder::record_data]. *)
Definition record_data (r : Recorder) (n : Z) : Pg unit :=
  match r with
  | Disabled => mret tt
  | Recording =>
      s ← get;
      early ← match next_bdp_at (shared s) with
              | Some at_ =>
                  i ← now (sh_timer (shared s));
                  if i <? at_ then mret true else modify (on_shared (set_next_bdp_at None));; mret false
              | None => mret false
              end;
      if early : bool then mret tt
      else
        match sh_bytes (shared s) with
        | Some b =>
            modify (on_shared (set_sh_bytes (Some (saturating_add b n))));;
            s ← get;
            if is_ping_sent (shared s) then mret tt else send_ping
        | None => mret tt
        end
  end.

(** [Recorder::for_stream], given [stream.is_end_stream()]. *)
Definition for_stream (r : Recorder) (is_end_stream : bool) : Recorder := if is_end_stream then Disabled else r.

(** [KeepAliveTimedOut::crate_error]. *)
Definition timed_out_error : Error := err_with CauseKeepAliveTimedOut (err_new Http2).

(** [Recorder::ensure_not_timed_out]. *)
Definition ensure_not_timed_out (r : Recorder) (sh : Shared P) : result Error unit :=
  match r with
  | Recording => if is_keep_alive_timed_out sh then Err timed_out_error else Ok tt
  | Disabled => Ok tt
  end.

(** [<Ponger as Future>::poll]. *)
Definition ponger_poll : Pg Ponged :=
  s ← get;
  i ← now (sh_timer (shared s));
  if negb (is_ping_sent (shared s)) then pend
  else
    let '(pp, pong) := pp_poll_pong (ping_pong (shared s)) in
    modify (on_shared (set_ping_pong pp));;
    match pong with
    | Some true =>
        start ← expect (ping_sent_at (shared s));
        modify (on_shared (set_ping_sent_at None));;
        let rtt := instant_sub i start in
        update_last_read_at;;
        s ← get;
        match bdp s with
        | Some b =>
            n ← expect (sh_bytes (shared s));
            modify (on_shared (set_sh_bytes (Some 0)));;
            '(b, update) ← expect (calculate b n rtt);
            modify (set_bdp (Some b));;
            next ← instant_add i (ping_delay b);
            modify (on_shared (set_next_bdp_at (Some next)));;
            match update with Some w => mret (SizeUpdate w) | None => pend end
        | None => pend
        end
    | Some false => pend
    | None => pend
    end.

(** [Ponger::record_read]. *)
Definition record_read : Pg unit := update_last_read_at.

(** [Ponger::tracks_idle]. *)
Definition tracks_idle (s : Sys) : bool := match keep_alive s with Some ka => negb (while_idle ka) | None => false end.

(** ** [impl KeepAlive] *)

(** [KeepAlive::schedule]. *)
Definition schedule (ka : KeepAlive Sl) : Pg unit :=
  last ← sh_last_read_at;
  interval ← instant_add last (ka_interval ka);
  modify (on_ka (set_ka_state (Scheduled interval)));;
  reset_sleep interval.

(** [KeepAlive::maybe_schedule]. *)
Definition maybe_schedule (ka : KeepAlive Sl) (is_idle : bool) : Pg unit :=
  match ka_state ka with
  | KInit => if negb (while_idle ka) && is_idle then mret tt else schedule ka
  | PingSent _ => s ← get; if is_ping_sent (shared s) then mret tt else schedule ka
  | Scheduled _ => mret tt
  end.

(** [KeepAlive::maybe_ping]. *)
Definition maybe_ping (ka : KeepAlive Sl) (is_idle : bool) : Pg unit :=
  match ka_state ka with
  | Scheduled at_ =>
      ready ← sleep_is_ready ka;
      if negb ready then mret tt
      else
        last ← sh_last_read_at;
        next ← instant_add last (ka_interval ka);
        if at_ <? next then modify (on_ka (set_ka_state KInit));; modify wake
        else if negb (while_idle ka) && is_idle then modify (on_ka (set_ka_state KInit))
        else
          send_ping;;
          i ← now (ka_timer ka);
          timeout ← instant_add i (ka_timeout ka);
          modify (on_ka (set_ka_state (PingSent timeout)));;
          reset_sleep timeout
  | KInit | PingSent _ => mret tt
  end.

(** The loop of [KeepAlive::poll_timeout]. *)
Fixpoint timeout_loop (fuel : nat) (deadline : Z) : Pg unit :=
  match fuel with
  | O => fun s => (s, NoFuel)
  | S fuel' =>
      ka ← the_ka;
      ready ← sleep_is_ready ka;
      if negb ready then pend
      else
        last ← sh_last_read_at;
        next ← instant_add last (ka_timeout ka);
        if next <=? deadline then mret tt
        else
          modify (on_ka (set_ka_state (PingSent next)));;
          reset_sleep next;;
          timeout_loop fuel' next
  end.

(** [KeepAlive::poll_timeout]: each extension needs a new read, so the loop
    runs at most twice. *)
Definition poll_timeout : Pg unit :=
  ka ← the_ka;
  match ka_state ka with
  | PingSent deadline => timeout_loop 2 deadline
  | _ => pend
  end.

(** [Ponger::poll_keep_alive]. *)
Definition poll_keep_alive (is_idle : bool) : Pg unit :=
  s ← get;
  match keep_alive s with
  | None => pend
  | Some ka =>
      maybe_schedule ka is_idle;;
      ka ← the_ka;
      maybe_ping ka is_idle;;
      poll_timeout;;
      modify (set_keep_alive None);;
      modify (on_shared (set_timed_out true))
  end.

(** [channel]: the runtime's state goes in, the recorder and the system come
    out; the debug assertion and [Time::Empty]'s sleeps panic. *)
Definition channel (pp : P) (config : Config) (timer : Time) (t : T) : option (Recorder * Sys) :=
  if negb (is_enabled config) then None
  else
    let b := (fun wnd => MkBdp wnd F0 F0 (from_millis 100) 0) <$> bdp_initial_window config in
    let '(t, i) := match timer with Timer => timer_now t | Empty => std_now t end in
    let '(bytes, next) := match b with Some _ => (Some 0, Some i) | None => (None, None) end in
    let sys ka last t :=
      (Recording, MkSys t (MkShared pp None (cfg_payload config) bytes next last false timer) b ka 0) in
    match keep_alive_interval config with
    | Some interval =>
        match timer with
        | Timer =>
            let '(t, sl) := timer_sleep interval t in
            Some (sys (Some (MkKeepAlive interval (keep_alive_timeout config) (keep_alive_while_idle config) KInit sl timer)) (Some i) t)
        | Empty => None
        end
    | None => Some (sys None None t)
    end.
End ping.
Arguments Sys : clear implicits.
Arguments Pg : clear implicits.
