(* ===== verification/PingLaws.v ===== *)
(** * Pings: laws

    What the runtime's timer promises, the arithmetic of the bandwidth-delay
    product, the invariant of the ping state and the contract of each operation
    under it. *)

From stdpp Require Import prelude.
From Stdlib Require Import ZArith Lia Sorted.
From S2P Require Import Prelude Errors Ping.
Local Open Scope Z_scope.

(** ** The bandwidth-delay product *)

Definition MAX_PING_DELAY : Z := from_secs 40.

Record bdp_ok (b : Bdp) : Prop := {
  bdp_ok_count : 0 <= stable_count b <= 1;
  bdp_ok_delay : 0 <= ping_delay b < MAX_PING_DELAY;
  bdp_ok_window : is_u32 (bdp_ b);
}.

(** A step that leaves the window alone may only lengthen the delay. *)
Definition bdp_stable (b b' : Bdp) : Prop := bdp_ok b' /\ bdp_ b' = bdp_ b /\ ping_delay b <= ping_delay b'.

Lemma stabilized_spec b b0 :
  bdp_ok b0 -> bdp_ b = bdp_ b0 -> ping_delay b = ping_delay b0 -> stable_count b = stable_count b0 ->
  exists b', stabilized b = Some (b', None) /\ bdp_stable b0 b'.
Proof.
  intros [Hc Hd Hw] Eb Ed Ec. unfold stabilized, stabilize_delay, bdp_stable, duration_mul. rewrite Ed, Ec.
  destruct (ping_delay b0 <? from_secs 10) eqn:E10; zbool.
  - rewrite (proj2 (Z.leb_le _ U32_MAX)) by ulia. destruct (2 <=? stable_count b0 + 1) eqn:E2; zbool.
    + rewrite (proj2 (Z.leb_le _ DURATION_MAX)); [|unfold DURATION_MAX, MAX_PING_DELAY, from_secs, NANOS_PER_SEC in *; ulia].
      eexists. split; [done|]. split_and!; [split; cbn|..]; cbn; rewrite ?Eb; unfold MAX_PING_DELAY, from_secs, NANOS_PER_SEC in *; try lia; done.
    + eexists. split; [done|]. split_and!; [split; cbn|..]; cbn; rewrite ?Eb; try lia; done.
  - eexists. split; [done|]. split_and!; [split|..]; rewrite ?Eb, ?Ed, ?Ec; try lia; done.
Qed.

(** Either the window stays, or the sample of at least two thirds of it is
    doubled, up to the limit. *)
Definition calculated (b : Bdp) (bytes : Z) (b' : Bdp) (update : option Z) : Prop :=
  match update with
  | None => bdp_stable b b'
  | Some w => bdp_ok b' /\ bdp_ b ≠ BDP_LIMIT /\ bdp_ b * 2 / 3 <= bytes /\ w = Z.min (2 * bytes) BDP_LIMIT /\
      bdp_ b' = w /\ ping_delay b' = ping_delay b / 2
  end.

Lemma calculate_spec b bytes rtt : bdp_ok b -> is_u64 bytes ->
  exists b' update, calculate b bytes rtt = Some (b', update) /\ calculated b bytes b' update.
Proof.
  intros Hb Hn. unfold calculate.
  assert (forall b1, bdp_ b1 = bdp_ b -> ping_delay b1 = ping_delay b -> stable_count b1 = stable_count b ->
    exists b' update, stabilized b1 = Some (b', update) /\ calculated b bytes b' update) as Hs.
  { intros b1 ???. destruct (stabilized_spec b1 b) as (b' & ? & ?); [done..|]. by exists b', None. }
  destruct (bdp_ b =? BDP_LIMIT) eqn:El; [by apply Hs|]. cbv zeta. destruct (f64_eq _ F0); [by apply Hs|].
  cbn [bdp_ max_bandwidth rtt_ ping_delay stable_count]. destruct (f64_lt _ _); [by apply Hs|].
  destruct (_ <=? bytes) eqn:Eb; [|by apply Hs]. zbool. do 2 eexists. split; [done|]. cbn.
  assert (Z.min (saturating_mul bytes 2) BDP_LIMIT = Z.min (2 * bytes) BDP_LIMIT) as ->.
  { unfold saturating_mul, BDP_LIMIT. ulia. }
  destruct Hb as [? [??] ?]. split_and!; try done. split; cbn; [lia| |].
  - unfold duration_div. split; [apply Z.div_pos; lia|]. apply Z.div_lt_upper_bound; unfold MAX_PING_DELAY in *; lia.
  - unfold BDP_LIMIT. ulia.
Qed.

(** Feeding samples of bytes and round-trip times: the windows announced. *)
Fixpoint samples (b : Bdp) (l : list (Z * Z)) : option (Bdp * list Z) :=
  match l with
  | [] => Some (b, [])
  | (n, rtt) :: l =>
      '(b, update) ← calculate b n rtt;
      '(b, ws) ← samples b l;
      Some (b, match update with Some w => w :: ws | None => ws end)
  end.

(** The least window after [k] updates from the HTTP/2 default one. *)
Fixpoint least_window (k : nat) : Z := match k with O => 65535 | S k => 2 * (least_window k * 2 / 3) end.

Lemma least_window_lb k : 65535 <= least_window k.
Proof. induction k; cbn [least_window]; [lia|]. pose proof (Z.div_mod (least_window k * 2) 3). pose proof (Z.mod_pos_bound (least_window k * 2) 3). lia. Qed.

Lemma least_window_max k : least_window k <= BDP_LIMIT -> (k <= 19)%nat.
Proof.
  intros Hk. destruct (decide (k <= 19)%nat) as [|Hgt]; [done|]. exfalso.
  assert (forall j, (20 <= j)%nat -> BDP_LIMIT < least_window j) as Hj; [|specialize (Hj k ltac:(lia)); lia].
  induction 1 as [|j _ IH]; [by vm_compute|]. cbn [least_window].
  pose proof (Z.div_mod (least_window j * 2) 3). pose proof (Z.mod_pos_bound (least_window j * 2) 3). unfold BDP_LIMIT in *. lia.
Qed.

Lemma grow w n : 65535 <= w < BDP_LIMIT -> w * 2 / 3 <= n -> w < Z.min (2 * n) BDP_LIMIT.
Proof. intros ??. pose proof (Z.div_mod (w * 2) 3). pose proof (Z.mod_pos_bound (w * 2) 3). lia. Qed.

(** After [k] updates: the window has grown, and the delay has not been halved away. *)
Record bdp_after (k : nat) (b : Bdp) : Prop := {
  after_ok : bdp_ok b;
  after_window : 65535 <= bdp_ b <= BDP_LIMIT;
  after_least : Z.min (least_window k) BDP_LIMIT <= bdp_ b;
  after_count : (k <= 20)%nat;
  after_delay : from_millis 100 / 2 ^ Z.of_nat k <= ping_delay b;
}.

Lemma bdp_after_calculate k b n b' update : bdp_after k b -> calculated b n b' update ->
  match update with None => bdp_after k b' /\ bdp_ b' = bdp_ b | Some w => bdp_after (S k) b' /\ bdp_ b' = w /\ bdp_ b < w <= BDP_LIMIT end.
Proof.
  intros [Hok Hw Hl Hk Hd]. destruct update as [w|]; cbn.
  - intros (Hok' & Hne & Hn & -> & Ew & Ed). pose proof (grow (bdp_ b) n) as Hg. pose proof (least_window_lb k).
    split_and!; [|lia..]. split; [done|lia| | |].
    + rewrite Ew. cbn [least_window]. assert (least_window k * 2 / 3 <= bdp_ b * 2 / 3); [|lia].
      apply Z.div_le_mono; [lia|]. unfold BDP_LIMIT in *. lia.
    + apply le_n_S, least_window_max. lia.
    + rewrite Ed, Nat2Z.inj_succ, Z.pow_succ_r, (Z.mul_comm 2), <-Z.div_div by (try apply Z.pow_nonzero; lia).
      apply Z.div_le_mono; lia.
  - intros (Hok' & Ew & Ed). rewrite Ew. split; [|done]. split; rewrite ?Ew; try done. lia.
Qed.

(** The windows announced grow and stay within the limit. *)
Definition growing (w0 : Z) (ws : list Z) : Prop := StronglySorted Z.lt (w0 :: ws) /\ Forall (fun w => w <= BDP_LIMIT) ws.

Lemma growing_cons w0 w ws : w0 < w <= BDP_LIMIT -> growing w ws -> growing w0 (w :: ws).
Proof.
  intros Hw [Hs Hf]. split; [|by constructor; [lia|]]. constructor; [done|]. constructor; [lia|].
  apply StronglySorted_inv in Hs as [_ Hs]. eapply Forall_impl; [exact Hs|]. cbn. lia.
Qed.

Lemma samples_spec l : forall k b, bdp_after k b -> Forall (fun x => is_u64 (fst x)) l ->
  exists b' ws, samples b l = Some (b', ws) /\ bdp_after (k + length ws) b' /\ growing (bdp_ b) ws /\ bdp_ b <= bdp_ b'.
Proof.
  induction l as [|[n rtt] l IH]; intros k b Hb Hl; cbn [samples].
  { exists b, []. split_and!; [done| |split; repeat constructor|done]. by rewrite Nat.add_0_r. }
  apply Forall_cons in Hl as [Hn Hl].
  destruct (calculate_spec b n rtt) as (b1 & u & -> & Hc); [apply Hb|done|]. cbn [mbind option_bind].
  pose proof (bdp_after_calculate _ _ _ _ _ Hb Hc) as H1. destruct u as [w|].
  - destruct H1 as (H1 & Ew & Hlt). destruct (IH _ _ H1 Hl) as (b' & ws & -> & Ha & Hg & Hm). exists b', (w :: ws).
    rewrite Ew in Hg, Hm. split_and!; [done| |by apply growing_cons|lia]. cbn [length]. by rewrite <-Nat.add_succ_comm.
  - destruct H1 as [H1 Ew]. destruct (IH _ _ H1 Hl) as (b' & ws & -> & Ha & Hg & Hm). exists b', ws. by rewrite <-Ew.
Qed.

(** ** What the timer promises *)

(** [clock t] is the last time read; it never goes back and stays [MAX_DELAY]
    short of the end of time. [armed sl] is the deadline of a sleep that has not
    resolved: polling it resolves it once the deadline has passed, and not
    before. Nothing is said of polling a sleep that has resolved. *)
Class TimerLaws (T Sl : Type) `{TimerOps T Sl} : Type := {
  clock : T -> Z;
  armed : Sl -> option Z;
  clock_range t : 0 <= clock t /\ clock t + MAX_DELAY <= INSTANT_MAX;
  std_now_law t t' i : std_now t = (t', i) -> clock t <= i /\ clock t' = i;
  timer_now_law t t' i : timer_now t = (t', i) -> clock t <= i /\ clock t' = i;
  timer_sleep_law d t t' sl : timer_sleep d t = (t', sl) -> clock t <= clock t';
  timer_reset_law sl d t t' sl' : timer_reset sl d t = (t', sl') -> clock t <= clock t' /\ armed sl' = Some d;
  sleep_poll_law sl d t t' sl' o : armed sl = Some d -> sleep_poll sl t = (t', (sl', o)) -> clock t <= clock t' /\
    ((o = Ready tt /\ d <= clock t') \/ (o = Pending /\ armed sl' = Some d /\ clock t < d));
}.

Section ping_laws.
Context {T Sl P : Type} `{TL : TimerLaws T Sl} `{PP : PingPongOps P}.
Implicit Types (s : Sys T Sl P) (ka : KeepAlive Sl) (sh : Shared P).

(** Arithmetic on the clocks of updated systems. *)
Ltac clock_lia := cbn in *; lia.

(** ** The invariant *)

Definition delay_ok (d : Z) : Prop := 0 <= d <= MAX_DELAY.

(** The sleep is the one the state waits for. *)
Definition sleep_ok ka : Prop :=
  match ka_state ka with KInit => True | Scheduled d | PingSent d => armed (ka_sleep ka) = Some d end.

Record ka_ok ka : Prop := {
  ka_ok_interval : delay_ok (ka_interval ka);
  ka_ok_timeout : delay_ok (ka_timeout ka);
  ka_ok_timer : ka_timer ka = Timer;
  ka_ok_sleep : sleep_ok ka;
}.

Record sys_ok s : Prop := {
  (** the bytes of a sample are counted exactly when there is an estimate *)
  ok_bdp : match bdp s, sh_bytes (shared s) with
           | Some b, Some n => bdp_ok b /\ is_u64 n | None, None => True | _, _ => False end;
  ok_last : forall last, last_read_at (shared s) = Some last -> 0 <= last <= clock (rt s);
  ok_ka : forall ka, keep_alive s = Some ka -> ka_ok ka /\ exists last, last_read_at (shared s) = Some last;
}.

(** Reading the clock. *)
Definition later s s' : Prop := exists t, clock (rt s) <= clock t /\ s' = set_rt t s.

Lemma wp_now tm (Q : outcome Empty_set Z -> Sys T Sl P -> Prop) s :
  (forall t, clock (rt s) <= clock t -> Q (Ready (clock t)) (set_rt t s)) -> wp (now tm) Q s.
Proof.
  intros HQ. unfold wp, now. destruct tm.
  - destruct (timer_now (rt s)) as [t i] eqn:E. apply timer_now_law in E as [? <-]. by apply HQ.
  - destruct (std_now (rt s)) as [t i] eqn:E. apply std_now_law in E as [? <-]. by apply HQ.
Qed.

Lemma wp_instant_add i d (Q : outcome Empty_set Z -> Sys T Sl P -> Prop) s :
  i <= clock (rt s) -> delay_ok d -> Q (Ready (i + d)) s -> wp (instant_add i d) Q s.
Proof.
  intros Hi Hd HQ. unfold instant_add, delay_ok in *. pose proof (clock_range (rt s)).
  by rewrite (proj2 (Z.leb_le _ INSTANT_MAX)) by lia.
Qed.

Lemma wp_reset_sleep ka d (Q : outcome Empty_set unit -> Sys T Sl P -> Prop) s :
  keep_alive s = Some ka -> ka_timer ka = Timer ->
  (forall t sl, clock (rt s) <= clock t -> armed sl = Some d ->
    Q (Ready tt) (set_keep_alive (Some (set_ka_sleep sl ka)) (set_rt t s))) ->
  wp (reset_sleep d) Q s.
Proof.
  intros Ek Et HQ. unfold reset_sleep, the_ka. do 2 wp_step. wp_step. wp_expect Ek. wp_step.
  unfold wp at 1, time_reset. rewrite Et. destruct (timer_reset _ _ _) as [t sl] eqn:E. apply timer_reset_law in E as [??].
  cbn. specialize (HQ t sl). destruct s. cbn in *. rewrite Ek in *. by apply HQ.
Qed.

Lemma wp_sleep_is_ready ka d (Q : outcome Empty_set bool -> Sys T Sl P -> Prop) s :
  keep_alive s = Some ka -> armed (ka_sleep ka) = Some d ->
  (forall t sl, clock (rt s) <= clock t -> d <= clock t -> Q (Ready true) (set_keep_alive (Some (set_ka_sleep sl ka)) (set_rt t s))) ->
  (forall t sl, clock (rt s) <= clock t -> clock (rt s) < d -> armed sl = Some d ->
    Q (Ready false) (set_keep_alive (Some (set_ka_sleep sl ka)) (set_rt t s))) ->
  wp (sleep_is_ready ka) Q s.
Proof.
  intros Ek Ea Ht Hf. unfold wp, sleep_is_ready. destruct (sleep_poll _ _) as [t [sl o]] eqn:E.
  destruct (sleep_poll_law _ _ _ _ _ _ Ea E) as [Hc Ho]. unfold on_ka. cbn [keep_alive set_rt]. rewrite Ek. cbn [fmap option_fmap option_map].
  destruct Ho as [(-> & ?)|(-> & ? & ?)]; [by apply Ht|by apply Hf].
Qed.

(** [send_ping] changes the ping at most: it is sent now, or it stays as it was. *)
Definition pinged s s' : Prop := exists pp t sent,
  clock (rt s) <= clock t /\ s' = set_rt t (on_shared (fun sh => set_ping_sent_at sent (set_ping_pong pp sh)) s) /\
  (sent = ping_sent_at (shared s) \/ sent = Some (clock t)).

Lemma wp_send_ping (Q : outcome Empty_set unit -> Sys T Sl P -> Prop) s :
  (forall s', pinged s s' -> Q (Ready tt) s') -> wp send_ping Q s.
Proof.
  intros HQ. unfold send_ping. do 2 wp_step. destruct (pp_send_ping _ _) as [pp ok]. do 2 wp_step. destruct ok.
  - wp_step. apply wp_now. intros t Ht. wp_step. apply HQ. exists pp, t, (Some (clock t)). destruct s as [? []]. cbn in *. by eauto.
  - wp_step. apply HQ. exists pp, (rt s), (ping_sent_at (shared s)). destruct s as [? []]. cbn. split_and!; [lia|done|by left].
Qed.

Lemma wp_update_last_read_at (Q : outcome Empty_set unit -> Sys T Sl P -> Prop) s :
  (last_read_at (shared s) = None -> Q (Ready tt) s) ->
  (forall t, is_Some (last_read_at (shared s)) -> clock (rt s) <= clock t ->
    Q (Ready tt) (on_shared (set_last_read_at (Some (clock t))) (set_rt t s))) ->
  wp update_last_read_at Q s.
Proof.
  intros Hn Hs. unfold update_last_read_at. do 2 wp_step. destruct (last_read_at _) eqn:E; [|wp_step; by apply Hn].
  wp_step. apply wp_now. intros t Ht. wp_step. apply Hs; [by eexists|done].
Qed.

Lemma wp_sh_last_read_at last (Q : outcome Empty_set Z -> Sys T Sl P -> Prop) s :
  last_read_at (shared s) = Some last -> Q (Ready last) s -> wp sh_last_read_at Q s.
Proof. intros E HQ. unfold sh_last_read_at. do 2 wp_step. by wp_expect E. Qed.

(** ** Keep-alive *)

(** Whether keep-alive applies to the connection as it is. *)
Definition busy ka (is_idle : bool) : bool := while_idle ka || negb is_idle.

Lemma idle_busy ka is_idle : negb (while_idle ka) && is_idle = negb (busy ka is_idle).
Proof. unfold busy. by destruct (while_idle ka), is_idle. Qed.

(** The state [maybe_schedule] leaves. *)
Definition scheduled ka sh (last : Z) (is_idle : bool) : KeepAliveState :=
  match ka_state ka with
  | KInit => if busy ka is_idle then Scheduled (last + ka_interval ka) else KInit
  | PingSent d => if is_ping_sent sh then PingSent d else Scheduled (last + ka_interval ka)
  | Scheduled a => Scheduled a
  end.

(** The keep-alive of [s'] is [ka] in another state, and the rest as in [s]
    but for the clock. *)
Definition ka_moves s ka (st : KeepAliveState) s' : Prop := exists sl t,
  let ka' := set_ka_sleep sl (set_ka_state st ka) in
  clock (rt s) <= clock t /\ s' = set_keep_alive (Some ka') (set_rt t s) /\ sleep_ok ka'.

Lemma wp_schedule ka last (Q : outcome Empty_set unit -> Sys T Sl P -> Prop) s :
  keep_alive s = Some ka -> ka_ok ka -> last_read_at (shared s) = Some last -> last <= clock (rt s) ->
  (forall s', ka_moves s ka (Scheduled (last + ka_interval ka)) s' -> Q (Ready tt) s') ->
  wp (schedule ka) Q s.
Proof.
  intros Ek Hk El Hl HQ. unfold schedule. wp_step. apply (wp_sh_last_read_at last); [done|]. wp_step.
  apply wp_instant_add; [done|apply Hk|]. do 2 wp_step.
  apply (wp_reset_sleep (set_ka_state (Scheduled (last + ka_interval ka)) ka)); [cbn; by rewrite Ek|apply Hk|].
  intros t sl Ht Ha. apply HQ. exists sl, t. by destruct s.
Qed.

Lemma wp_maybe_schedule ka is_idle last (Q : outcome Empty_set unit -> Sys T Sl P -> Prop) s :
  keep_alive s = Some ka -> ka_ok ka -> last_read_at (shared s) = Some last -> last <= clock (rt s) ->
  (forall s', ka_moves s ka (scheduled ka (shared s) last is_idle) s' -> Q (Ready tt) s') ->
  wp (maybe_schedule ka is_idle) Q s.
Proof.
  intros Ek Hk El Hl HQ. unfold maybe_schedule, scheduled in *. rewrite idle_busy.
  assert (ka_moves s ka (ka_state ka) s) as Hsame.
  { exists (ka_sleep ka), (rt s). destruct s, ka; cbn in *. rewrite Ek. split_and!; [lia|done|by destruct Hk]. }
  destruct (ka_state ka) eqn:Es.
  - destruct (busy _ _); cbn [negb]; [by eapply wp_schedule|]. wp_step. by apply HQ.
  - wp_step. by apply HQ.
  - do 2 wp_step. destruct (is_ping_sent _); [wp_step; by apply HQ|by eapply wp_schedule].
Qed.

(** What [maybe_ping] does when it is scheduled: it waits, starts over because
    something was read or the connection is idle, or sends a ping. *)
Inductive ping_turn s ka (at_ last : Z) (is_idle : bool) : Sys T Sl P -> Prop :=
| turn_wait s' : clock (rt s) < at_ -> ka_moves s ka (Scheduled at_) s' -> ping_turn s ka at_ last is_idle s'
| turn_read s' : at_ < last + ka_interval ka -> ka_moves s ka KInit s' -> ping_turn s ka at_ last is_idle (wake s')
| turn_idle s' : busy ka is_idle = false -> ka_moves s ka KInit s' -> ping_turn s ka at_ last is_idle s'
| turn_ping s1 s' p : last + ka_interval ka <= at_ -> busy ka is_idle = true -> pinged s s1 ->
    at_ <= p -> clock (rt s) <= p <= clock (rt s') -> ka_moves s1 ka (PingSent (p + ka_timeout ka)) s' ->
    ping_turn s ka at_ last is_idle s'.

Lemma wp_maybe_ping ka at_ is_idle last (Q : outcome Empty_set unit -> Sys T Sl P -> Prop) s :
  keep_alive s = Some ka -> ka_ok ka -> ka_state ka = Scheduled at_ -> last_read_at (shared s) = Some last -> last <= clock (rt s) ->
  (forall s', ping_turn s ka at_ last is_idle s' -> Q (Ready tt) s') ->
  wp (maybe_ping ka is_idle) Q s.
Proof.
  intros Ek Hk Es El Hl HQ. unfold maybe_ping. rewrite Es, idle_busy. wp_step.
  pose proof (ka_ok_sleep _ Hk) as Hs. unfold sleep_ok in Hs. rewrite Es in Hs.
  apply (wp_sleep_is_ready _ at_); [done..| |]; intros t sl Ht Hat; cbn [negb].
  2: { intros Ha. wp_step. apply HQ. apply turn_wait; [done|]. exists sl, t. destruct ka. cbn in *. by subst. }
  wp_step. apply (wp_sh_last_read_at last); [done|]. wp_step. apply wp_instant_add; [clock_lia|apply Hk|].
  destruct (at_ <? last + ka_interval ka) eqn:Elt; zbool.
  { do 2 wp_step. wp_step. apply HQ.
    apply (turn_read _ _ _ _ _ (set_keep_alive (Some (set_ka_sleep sl (set_ka_state KInit ka))) (set_rt t s))); [done|]. by exists sl, t. }
  destruct (busy ka is_idle) eqn:Eb; cbn [negb].
  2: { wp_step. apply HQ. apply turn_idle; [done|]. by exists sl, t. }
  wp_step. apply wp_send_ping. intros s1 (pp & t1 & sent & Ht1 & -> & Hsent). wp_step. apply wp_now. intros t2 Ht2. wp_step.
  apply wp_instant_add; [clock_lia|apply Hk|]. do 2 wp_step.
  apply (wp_reset_sleep (set_ka_state (PingSent (clock t2 + ka_timeout ka)) (set_ka_sleep sl ka))); [done|apply Hk|].
  intros t3 sl' Ht3 Ha. apply HQ.
  eapply (turn_ping _ _ _ _ _ (set_rt t1 (on_shared (fun sh => set_ping_sent_at sent (set_ping_pong pp sh)) s)) _ (clock t2)); try done; [|clock_lia..|].
  - exists pp, t1, sent. split_and!; [clock_lia|done|done].
  - exists sl', t3. split_and!; [clock_lia|by destruct s, ka|done].
Qed.

(** The timeout: not yet, with the deadline put off by reads, or reached with
    nothing read for that long. *)
Inductive timeout_turn s ka (d last : Z) : outcome Empty_set unit -> Sys T Sl P -> Prop :=
| timeout_wait s' d' : d' = d \/ (d < d' /\ d' = last + ka_timeout ka) ->
    clock (rt s) < d' -> ka_moves s ka (PingSent d') s' -> timeout_turn s ka d last Pending s'
| timeout_reached s' d' sl t : d <= d' -> last + ka_timeout ka <= d' <= clock t -> clock (rt s) <= clock t ->
    s' = set_keep_alive (Some (set_ka_sleep sl (set_ka_state (PingSent d') ka))) (set_rt t s) ->
    timeout_turn s ka d last (Ready tt) s'.

(** Once the deadline is past the last read's, one round decides. *)
Lemma wp_timeout_last fuel ka d last (Q : outcome Empty_set unit -> Sys T Sl P -> Prop) s :
  keep_alive s = Some ka -> ka_ok ka -> ka_state ka = PingSent d -> last_read_at (shared s) = Some last -> last <= clock (rt s) ->
  last + ka_timeout ka <= d -> (forall o s', timeout_turn s ka d last o s' -> Q o s') ->
  wp (timeout_loop (S fuel) d) Q s.
Proof.
  intros Ek Hk Es El Hl Hd HQ. cbn [timeout_loop]. unfold the_ka. do 3 wp_step. wp_expect Ek. wp_step.
  pose proof (ka_ok_sleep _ Hk) as Hs. unfold sleep_ok in Hs. rewrite Es in Hs.
  apply (wp_sleep_is_ready _ d); [done..| |]; intros t sl Ht Hdt; cbn [negb].
  - wp_step. apply (wp_sh_last_read_at last); [done|]. wp_step. apply wp_instant_add; [clock_lia|apply Hk|].
    rewrite (proj2 (Z.leb_le _ _) Hd). wp_step. apply HQ. apply (timeout_reached _ _ _ _ _ d sl t); [lia..|]. destruct ka. cbn in *. by subst.
  - intros Ha. wp_step. apply HQ. apply (timeout_wait _ _ _ _ _ d); [by left|done|]. exists sl, t. destruct ka. cbn in *. by subst.
Qed.

Lemma wp_timeout_loop ka d last (Q : outcome Empty_set unit -> Sys T Sl P -> Prop) s :
  keep_alive s = Some ka -> ka_ok ka -> ka_state ka = PingSent d -> last_read_at (shared s) = Some last -> last <= clock (rt s) ->
  (forall o s', timeout_turn s ka d last o s' -> Q o s') ->
  wp (timeout_loop 2 d) Q s.
Proof.
  intros Ek Hk Es El Hl HQ. destruct (decide (last + ka_timeout ka <= d)); [by eapply wp_timeout_last|].
  cbn [timeout_loop]. unfold the_ka. do 3 wp_step. wp_expect Ek. wp_step.
  pose proof (ka_ok_sleep _ Hk) as Hs. unfold sleep_ok in Hs. rewrite Es in Hs.
  apply (wp_sleep_is_ready _ d); [done..| |]; intros t sl Ht Hdt; cbn [negb].
  2: { intros Ha. wp_step. apply HQ. apply (timeout_wait _ _ _ _ _ d); [by left|done|]. exists sl, t. destruct ka. cbn in *. by subst. }
  wp_step. apply (wp_sh_last_read_at last); [done|]. wp_step. apply wp_instant_add; [clock_lia|apply Hk|].
  rewrite (proj2 (Z.leb_gt _ _)) by lia. do 2 wp_step. wp_step.
  set (d' := last + ka_timeout ka) in *.
  apply (wp_reset_sleep (set_ka_state (PingSent d') (set_ka_sleep sl ka))); [done|apply Hk|]. intros t1 sl1 Ht1 Ha1.
  set (ka1 := set_ka_sleep sl1 _) in *. set (s1 := set_keep_alive _ _).
  change (wp (timeout_loop 1 d') Q s1). apply (wp_timeout_last 0 ka1 d' last); [done| |done|done|subst s1; clock_lia|cbn; lia|].
  { destruct Hk. by split. }
  intros o s' Ht'. apply HQ. destruct Ht' as [s' d2 Hd2 Hc2 Hm|s' d2 sl2 t2 Hd2 Hle Hc2 ->].
  - apply (timeout_wait _ _ _ _ _ d'); [by right; lia| |].
    + subst s1. destruct Hd2 as [->|[? ->]]; clock_lia.
    + destruct Hm as (sl2 & t2 & Hc & -> & Hso). exists sl2, t2. destruct Hd2 as [->|[? ->]]; [|cbn in *; lia].
      split_and!; [subst s1; clock_lia|by destruct s|done].
  - apply (timeout_reached _ _ _ _ _ d2 sl2 t2); [cbn in *; lia..|subst s1; clock_lia|by destruct s].
Qed.

(** ** The timed automaton of keep-alive *)

(** Between the times [c0] and [c1] of a poll, with the last read at [last]: a
    ping is scheduled, given up (something was read, or the connection is idle)
    or sent; a read puts the timeout off. A step that sends a ping is labelled
    with its time. *)
Inductive ka_step (ka : KeepAlive Sl) (last : Z) (is_busy answered : bool) (c0 c1 : Z) : KeepAliveState -> list Z -> KeepAliveState -> Prop :=
| step_start : is_busy = true -> ka_step ka last is_busy answered c0 c1 KInit [] (Scheduled (last + ka_interval ka))
| step_answered d : answered = true -> ka_step ka last is_busy answered c0 c1 (PingSent d) [] (Scheduled (last + ka_interval ka))
| step_restart a : a < last + ka_interval ka \/ is_busy = false -> ka_step ka last is_busy answered c0 c1 (Scheduled a) [] KInit
| step_ping a p : last + ka_interval ka <= a -> a <= p -> c0 <= p <= c1 -> is_busy = true ->
    ka_step ka last is_busy answered c0 c1 (Scheduled a) [p] (PingSent (p + ka_timeout ka))
| step_put_off d : answered = false -> d < last + ka_timeout ka -> ka_step ka last is_busy answered c0 c1 (PingSent d) [] (PingSent (last + ka_timeout ka)).

Inductive ka_steps (ka : KeepAlive Sl) (last : Z) (is_busy answered : bool) (c0 c1 : Z) : KeepAliveState -> list Z -> KeepAliveState -> Prop :=
| steps_nil st : ka_steps ka last is_busy answered c0 c1 st [] st
| steps_cons st1 l1 st2 l2 st3 : ka_step ka last is_busy answered c0 c1 st1 l1 st2 -> ka_steps ka last is_busy answered c0 c1 st2 l2 st3 ->
    ka_steps ka last is_busy answered c0 c1 st1 (l1 ++ l2) st3.

Lemma steps_app ka last is_busy answered c0 c1 st1 l1 st2 l2 st3 :
  ka_steps ka last is_busy answered c0 c1 st1 l1 st2 -> ka_steps ka last is_busy answered c0 c1 st2 l2 st3 ->
  ka_steps ka last is_busy answered c0 c1 st1 (l1 ++ l2) st3.
Proof. induction 1; [done|]. intros. rewrite <-app_assoc. eapply steps_cons; eauto. Qed.

Lemma steps_one ka last is_busy answered c0 c1 st1 l st2 :
  ka_step ka last is_busy answered c0 c1 st1 l st2 -> ka_steps ka last is_busy answered c0 c1 st1 l st2.
Proof. intros. rewrite <-(app_nil_r l). eapply steps_cons; [done|]. constructor. Qed.

Lemma steps_widen ka last is_busy answered c0 c1 c0' c1' st1 l st2 : c0 <= c0' -> c1' <= c1 ->
  ka_steps ka last is_busy answered c0' c1' st1 l st2 -> ka_steps ka last is_busy answered c0 c1 st1 l st2.
Proof.
  intros H0 H1. induction 1 as [|st1 l1 st2 l2 st3 Hs _ IH]; [constructor|]. eapply steps_cons; [|done].
  destruct Hs; constructor; solve [done|lia].
Qed.

(** A poll does all that can be done at its time: it starts over only for an
    idle connection, or at once. *)
Definition urgent ka (last : Z) (is_busy : bool) s s' (st : KeepAliveState) : Prop :=
  match st with
  | KInit => is_busy = false \/ (woken s' = S (woken s) /\ exists a, ka_state ka = Scheduled a)
  | Scheduled a => clock (rt s) < a
  | PingSent d => clock (rt s) < d
  end.

Definition same_ka ka ka' : Prop :=
  ka_interval ka' = ka_interval ka /\ ka_timeout ka' = ka_timeout ka /\ while_idle ka' = while_idle ka /\ ka_timer ka' = ka_timer ka.

(** What keep-alive leaves alone. *)
Definition kept s s' : Prop :=
  clock (rt s) <= clock (rt s') /\ bdp s' = bdp s /\ sh_bytes (shared s') = sh_bytes (shared s) /\
  last_read_at (shared s') = last_read_at (shared s).

Definition keep_alive_turn s ka last is_idle (o : outcome Empty_set unit) s' : Prop :=
  let steps := ka_steps ka last (busy ka is_idle) (negb (is_ping_sent (shared s))) (clock (rt s)) (clock (rt s')) (ka_state ka) in
  kept s s' /\
  match o with
  | Pending => exists ka' l, keep_alive s' = Some ka' /\ same_ka ka ka' /\ sleep_ok ka' /\ steps l (ka_state ka') /\
      urgent ka last (busy ka is_idle) s s' (ka_state ka') /\ is_keep_alive_timed_out (shared s') = is_keep_alive_timed_out (shared s) /\
      (l = [] -> ping_sent_at (shared s') = ping_sent_at (shared s))
  | Ready _ => keep_alive s' = None /\ is_keep_alive_timed_out (shared s') = true /\
      exists d l, steps l (PingSent d) /\ last + ka_timeout ka <= d <= clock (rt s') /\
        ((is_ping_sent (shared s) = true /\ exists d0, ka_state ka = PingSent d0) \/ clock (rt s) + ka_timeout ka <= d)
  | _ => False
  end.

Lemma ka_moves_ok s ka st s' : ka_ok ka -> ka_moves s ka st s' -> exists ka', keep_alive s' = Some ka' /\ ka_state ka' = st /\
  ka_ok ka' /\ same_ka ka ka' /\ kept s s' /\ shared s' = shared s /\ woken s' = woken s.
Proof.
  intros [] (sl & t & Hc & -> & Hs). exists (set_ka_sleep sl (set_ka_state st ka)). unfold kept, same_ka. cbn.
  split_and!; done.
Qed.

Lemma scheduled_steps ka sh last is_idle c0 c1 :
  ka_steps ka last (busy ka is_idle) (negb (is_ping_sent sh)) c0 c1 (ka_state ka) [] (scheduled ka sh last is_idle).
Proof.
  unfold scheduled. destruct (ka_state ka).
  - destruct (busy ka is_idle); [|constructor]. apply steps_one. by constructor.
  - constructor.
  - destruct (is_ping_sent sh); [constructor|]. apply steps_one. by constructor.
Qed.

Lemma scheduled_waiting ka sh last is_idle d : scheduled ka sh last is_idle = PingSent d ->
  is_ping_sent sh = true /\ exists d0, ka_state ka = PingSent d0.
Proof. unfold scheduled. intros. repeat case_match; simplify_eq. eauto. Qed.

Lemma steps_same ka ka' last is_busy answered c0 c1 st1 l st2 : same_ka ka ka' ->
  ka_steps ka' last is_busy answered c0 c1 st1 l st2 -> ka_steps ka last is_busy answered c0 c1 st1 l st2.
Proof.
  intros (Ei & Et & _). induction 1 as [|st1 l1 st2 l2 st3 Hs _ IH]; [constructor|]. eapply steps_cons; [|done].
  destruct Hs; rewrite ?Ei, ?Et in *; by constructor.
Qed.

Lemma same_ka_trans ka1 ka2 ka3 : same_ka ka1 ka2 -> same_ka ka2 ka3 -> same_ka ka1 ka3.
Proof. unfold same_ka. intros (->&->&->&->) (->&->&->&->). done. Qed.

Lemma kept_trans s1 s2 s3 : kept s1 s2 -> kept s2 s3 -> kept s1 s3.
Proof. unfold kept. intros (?&->&->&->) (?&->&->&->). split_and!; [lia|done..]. Qed.

(** The part of a poll between scheduling and the timeout. *)
Definition ping_stage s ka last is_idle answered s' : Prop := exists ka' l,
  keep_alive s' = Some ka' /\ ka_ok ka' /\ same_ka ka ka' /\ kept s s' /\
  is_keep_alive_timed_out (shared s') = is_keep_alive_timed_out (shared s) /\
  ka_steps ka last (busy ka is_idle) answered (clock (rt s)) (clock (rt s')) (ka_state ka) l (ka_state ka') /\
  (l = [] -> ping_sent_at (shared s') = ping_sent_at (shared s)) /\
  match ka_state ka' with
  | KInit => (ka_state ka = KInit /\ woken s' = woken s) \/ busy ka is_idle = false \/
      (woken s' = S (woken s) /\ exists a, ka_state ka = Scheduled a /\ a < last + ka_interval ka)
  | Scheduled a => clock (rt s) < a
  | PingSent d => ka_state ka = PingSent d \/ (last + ka_timeout ka <= d /\ clock (rt s) + ka_timeout ka <= d)
  end.

Lemma wp_ping_stage ka is_idle last answered (Q : outcome Empty_set unit -> Sys T Sl P -> Prop) s :
  keep_alive s = Some ka -> ka_ok ka -> last_read_at (shared s) = Some last -> last <= clock (rt s) ->
  (forall s', ping_stage s ka last is_idle answered s' -> Q (Ready tt) s') ->
  wp (maybe_ping ka is_idle) Q s.
Proof.
  intros Ek Hk El Hl HQ.
  assert (ka_state ka = KInit \/ (exists d, ka_state ka = PingSent d) -> Q (Ready tt) s) as Hsame.
  { intros Hst. apply HQ. exists ka, []. unfold kept, same_ka. split_and!; try done; [constructor|].
    destruct Hst as [->|[d ->]]; auto. }
  destruct (ka_state ka) as [|a|d] eqn:Es.
  - unfold maybe_ping. rewrite Es. wp_step. auto.
  - apply (wp_maybe_ping ka a is_idle last); [done..|]. intros s' Ht. apply HQ.
    assert (forall st s1, ka_moves s ka st s1 -> exists ka', keep_alive s1 = Some ka' /\ ka_state ka' = st /\
      ka_ok ka' /\ same_ka ka ka' /\ kept s s1 /\ shared s1 = shared s /\ woken s1 = woken s) as Hmv by (intros ??; by apply ka_moves_ok).
    destruct Ht as [s' Hw Hm|s' Hr Hm|s' Hi Hm|s1 s' p Hr Hb (pp & t & sent & Hc & -> & Hsent) Ha Hp Hm].
    + apply Hmv in Hm as (ka' & ? & E' & ? & ? & ? & Esh & _). exists ka', []. rewrite E', Esh, Es. split_and!; try done. constructor.
    + apply Hmv in Hm as (ka' & ? & E' & ? & ? & ? & Esh & Ew). exists ka', []. rewrite E'. cbn [shared wake]. rewrite Esh, Es.
      split_and!; try done; [apply steps_one; constructor; by left|]. right. right. cbn. rewrite Ew. by eauto.
    + apply Hmv in Hm as (ka' & ? & E' & ? & ? & ? & Esh & Ew). exists ka', []. rewrite E', Esh, Es.
      split_and!; try done; [apply steps_one; constructor; by right|]. auto.
    + apply ka_moves_ok in Hm as (ka' & ? & E' & ? & ? & Hkept & Esh & Ew); [|done]. exists ka', [p]. rewrite E', Es, Esh.
      split_and!; try done; [|by apply steps_one; constructor|right; destruct Hk as [[??] ???]; lia]. destruct Hkept as (?&?&?&?). split_and!; try done. clock_lia.
  - unfold maybe_ping. rewrite Es. wp_step. eauto.
Qed.

Lemma wp_poll_keep_alive ka last is_idle (Q : outcome Empty_set unit -> Sys T Sl P -> Prop) s :
  keep_alive s = Some ka -> ka_ok ka -> last_read_at (shared s) = Some last -> last <= clock (rt s) ->
  (forall o s', keep_alive_turn s ka last is_idle o s' -> Q o s') ->
  wp (poll_keep_alive is_idle) Q s.
Proof.
  intros Ek Hk El Hl HQ. unfold poll_keep_alive. do 2 wp_step. rewrite Ek. wp_step.
  apply (wp_maybe_schedule _ _ last); [done..|]. intros s1 Hm1. apply ka_moves_ok in Hm1 as (ka1 & Ek1 & Es1 & Hk1 & Hsame1 & Hkept1 & Esh1 & Ew1); [|done].
  unfold the_ka. do 3 wp_step. wp_expect Ek1. wp_step.
  apply (wp_ping_stage ka1 is_idle last (negb (is_ping_sent (shared s)))); [done|done|by rewrite Esh1|destruct Hkept1; lia|].
  intros s2 (ka2 & l & Ek2 & Hk2 & Hsame2 & Hkept2 & Eto & Hsteps & Hnp & Hst). wp_step.
  assert (busy ka1 is_idle = busy ka is_idle) as Eb by (unfold busy; by destruct Hsame1 as (_ & _ & -> & _)). rewrite Eb in *.
  assert (ka_steps ka last (busy ka is_idle) (negb (is_ping_sent (shared s))) (clock (rt s)) (clock (rt s2)) (ka_state ka) l (ka_state ka2)) as Hsteps2.
  { apply (steps_app _ _ _ _ _ _ _ [] (ka_state ka1)); [rewrite Es1; apply scheduled_steps|].
    eapply steps_same; [done|]. destruct Hkept1. eapply steps_widen; [..|done]; lia. }
  pose proof (kept_trans _ _ _ Hkept1 Hkept2) as Hk12. pose proof (same_ka_trans _ _ _ Hsame1 Hsame2) as Hs12.
  assert (last_read_at (shared s2) = Some last) as El2 by (destruct Hk12 as (_&_&_&->); done).
  rewrite Esh1 in Eto, Hnp.
  unfold poll_timeout, the_ka. do 3 wp_step. wp_expect Ek2.
  destruct (ka_state ka2) as [|a|d] eqn:Es2.
  - wp_step. apply HQ. split; [done|]. exists ka2, l. rewrite Es2. split_and!; try done; [by destruct Hk2|]. cbn.
    destruct Hst as [[E1 Ew]|[?|[Ew (a & E1 & Ha)]]]; [|by left|right; split; [congruence|]]; rewrite Es1 in E1; unfold scheduled in E1.
    + repeat case_match; simplify_eq; by left.
    + destruct Hsame1 as (Ei & _). repeat case_match; simplify_eq; try lia. by eauto.
  - wp_step. apply HQ. split; [done|]. exists ka2, l. rewrite Es2. split_and!; try done; [by destruct Hk2|]. cbn. destruct Hkept1. lia.
  - apply (wp_timeout_loop ka2 d last); [done..|destruct Hk12; lia|]. intros o s3 Ht.
    assert (ka_timeout ka2 = ka_timeout ka) as Et by (by destruct Hs12 as (_ & -> & _)).
    assert (forall d', d' = d \/ (d < d' /\ d' = last + ka_timeout ka2) -> ka_steps ka last (busy ka is_idle) (negb (is_ping_sent (shared s)))
      (clock (rt s)) (clock (rt s2)) (ka_state ka) l (PingSent d')) as Hput.
    { intros d' [->|[Hd' ->]]; [done|]. rewrite <-(app_nil_r l). eapply steps_app; [done|]. apply steps_one. rewrite Et in *.
      constructor; [|done]. destruct Hsame1 as (_ & E1 & _). destruct Hst as [Hst|]; [|lia]. rewrite Es1 in Hst.
      by destruct (scheduled_waiting _ _ _ _ _ Hst) as [-> _]. }
    destruct Ht as [s3 d' Hd' Hc Hm|s3 d' sl t Hd' Hle Hc ->].
    + apply ka_moves_ok in Hm as (ka3 & Ek3 & Es3 & Hk3 & Hsame3 & Hkept3 & Esh3 & Ew3); [|done]. apply HQ.
      split; [by eapply kept_trans|]. exists ka3, l. rewrite Es3, Esh3. split_and!; try done.
      * by eapply same_ka_trans.
      * by destruct Hk3.
      * destruct Hkept3. eapply steps_widen; [| |by apply Hput]; lia.
      * cbn. destruct Hk12. lia.
    + do 2 wp_step. wp_step. apply HQ. split; [unfold kept in *; cbn; intuition lia|]. split_and!; [done..|].
      rewrite Et in *. exists (Z.max d (last + ka_timeout ka)), l. split_and!; [|cbn; lia..|].
      2: { destruct Hst as [Hst|[_ Hst]]; [left; rewrite Es1 in Hst; by eapply scheduled_waiting|right]. destruct Hsame1 as (_ & E1 & _), Hkept1. lia. }
      eapply (steps_widen _ _ _ _ _ _ (clock (rt s)) (clock (rt s2))); [lia|clock_lia|]. apply Hput.
      destruct (decide (d < last + ka_timeout ka)); [right|left]; lia.
Qed.

(** ** The other operations *)

(** What they leave alone: keep-alive, and the time of the last read unless
    it moves to the present. *)
Definition calm s s' : Prop :=
  clock (rt s) <= clock (rt s') /\ keep_alive s' = keep_alive s /\ is_keep_alive_timed_out (shared s') = is_keep_alive_timed_out (shared s).

Lemma sys_ok_calm s s' : sys_ok s -> calm s s' ->
  match bdp s', sh_bytes (shared s') with Some b, Some n => bdp_ok b /\ is_u64 n | None, None => True | _, _ => False end ->
  last_read_at (shared s') = last_read_at (shared s) \/
    (is_Some (last_read_at (shared s)) /\ exists c, clock (rt s) <= c <= clock (rt s') /\ last_read_at (shared s') = Some c) ->
  sys_ok s'.
Proof.
  intros [Hb Hl Hk] (Hc & Ek & _) Hb' Hl'. split; [done|..].
  - intros last E. destruct Hl' as [E'|(_ & c & ? & E')]; rewrite E' in E.
    + specialize (Hl _ E). lia.
    + simplify_eq. pose proof (clock_range (rt s)). lia.
  - intros ka E. rewrite Ek in E. destruct (Hk _ E) as [? [last El]]. split; [done|].
    destruct Hl' as [->|(_ & c & _ & ->)]; eauto.
Qed.

(** An operation that reads nothing: only a data ping may be sent. *)
Definition recorded s (o : outcome Empty_set unit) s' : Prop :=
  o = Ready tt /\ sys_ok s' /\ calm s s' /\ last_read_at (shared s') = last_read_at (shared s) /\ bdp s' = bdp s.

Lemma recorded_ok s s' : sys_ok s -> calm s s' -> last_read_at (shared s') = last_read_at (shared s) -> bdp s' = bdp s ->
  sh_bytes (shared s') = sh_bytes (shared s) \/ (is_Some (sh_bytes (shared s)) /\ exists m, is_u64 m /\ sh_bytes (shared s') = Some m) ->
  recorded s (Ready tt) s'.
Proof.
  intros Hok Hcalm El Eb Hby. split_and!; [done| |done..]. eapply sys_ok_calm; [done..| |by left]. rewrite Eb.
  pose proof (ok_bdp _ Hok) as Hb. destruct Hby as [->|([y Ey] & m & Hm & ->)]; [done|]. rewrite Ey in Hb.
  destruct (bdp s); [|done]. by split; [apply Hb|].
Qed.

(** The part of [record_data] behind the check of [next_bdp_at]. *)
Lemma wp_count_bytes n s s1 x : sys_ok s -> is_u64 n -> clock (rt s) <= clock (rt s1) ->
  keep_alive s1 = keep_alive s -> bdp s1 = bdp s -> shared s1 = set_next_bdp_at x (shared s) ->
  wp (match sh_bytes (shared s) with
      | Some b => modify (on_shared (set_sh_bytes (Some (saturating_add b n))));;
          s ← get; if is_ping_sent (shared s) then mret tt else send_ping
      | None => mret tt end) (recorded s) s1.
Proof.
  intros Hok Hn Hc Ek Eb Esh. destruct (sh_bytes (shared s)) as [b|] eqn:Eby.
  2: { wp_step. apply recorded_ok; [done| |by rewrite Esh|done|left; by rewrite Esh]. unfold calm. by rewrite Esh. }
  do 2 wp_step. do 2 wp_step. set (s2 := on_shared _ s1).
  assert (calm s s2 /\ last_read_at (shared s2) = last_read_at (shared s)) as [Hc2 El2] by (unfold calm; cbn; by rewrite Esh).
  pose proof (ok_bdp _ Hok) as Hb. rewrite Eby in Hb. assert (is_u64 b) by (destruct (bdp s); [apply Hb|done]).
  assert (is_u64 (saturating_add b n)) by (unfold saturating_add; ulia).
  destruct (is_ping_sent _); [wp_step; apply recorded_ok; eauto|].
  apply wp_send_ping. intros s' (pp & t & sent & Ht & -> & _). apply recorded_ok; [done| |done|done|eauto].
  destruct Hc2 as (?&?&?). split_and!; [clock_lia|done|done].
Qed.

Lemma record_data_spec r n s : sys_ok s -> is_u64 n -> wp (record_data r n) (recorded s) s.
Proof.
  intros Hok Hn. destruct r; cbn [record_data]; [|wp_step; split_and!; done].
  do 3 wp_step. destruct (next_bdp_at (shared s)) as [a|] eqn:En.
  - wp_step. apply wp_now. intros t Ht. destruct (clock t <? a).
    + do 2 wp_step. apply recorded_ok; try done. by left.
    + do 2 wp_step. wp_step. by eapply wp_count_bytes.
  - wp_step. eapply (wp_count_bytes _ _ _ (next_bdp_at (shared s))); [done..|lia|done|done|]. by destruct s as [? []].
Qed.

(** Recording a read puts the last one at the present. *)
Lemma record_read_spec s : sys_ok s ->
  wp record_read (fun o s' => o = Ready tt /\ sys_ok s' /\ calm s s' /\ ping_sent_at (shared s') = ping_sent_at (shared s) /\
    forall last, last_read_at (shared s) = Some last -> exists c, clock (rt s) <= c /\ last_read_at (shared s') = Some c) s.
Proof.
  intros Hok. apply wp_update_last_read_at.
  - intros E. split_and!; try done. by rewrite E.
  - intros t Hs Ht. split_and!; try done; [|by eauto]. eapply sys_ok_calm; [done|done|apply Hok|]. right. split; [done|]. exists (clock t). by split; [|].
Qed.

(** Polling for the pong: an acknowledgement counts as a read, and a window
    comes with the estimate it was taken from. *)
Definition acked s s' : bool := is_ping_sent (shared s) && negb (is_ping_sent (shared s')).

Definition pong_window s (o : outcome Empty_set Ponged) s' : Prop :=
  (o = Pending /\ bdp_ <$> bdp s' = bdp_ <$> bdp s) \/
  exists b, bdp s' = Some b /\ o = Ready (SizeUpdate (bdp_ b)) /\ bdp_ b <= BDP_LIMIT.

Definition pong_turn s (o : outcome Empty_set Ponged) s' : Prop :=
  pong_window s o s' /\ sys_ok s' /\ calm s s' /\
  if acked s s' then forall last, last_read_at (shared s) = Some last -> exists c, clock (rt s) <= c /\ last_read_at (shared s') = Some c
  else last_read_at (shared s') = last_read_at (shared s) /\ ping_sent_at (shared s') = ping_sent_at (shared s).

Lemma pong_turn_nothing s pp t : sys_ok s -> clock (rt s) <= clock t ->
  pong_turn s Pending (on_shared (set_ping_pong pp) (set_rt t s)).
Proof.
  intros Hok Ht. split_and!; [by left| |done|].
  - eapply sys_ok_calm; [done|done|apply Hok|by left].
  - unfold acked. cbn. by rewrite andb_negb_r.
Qed.

(** The state once an acknowledgement has been taken, before the estimate. *)
Definition after_ack s s1 : Prop :=
  sys_ok s1 /\ calm s s1 /\ bdp s1 = bdp s /\ sh_bytes (shared s1) = sh_bytes (shared s) /\ ping_sent_at (shared s1) = None /\
  forall last, last_read_at (shared s) = Some last -> exists c, clock (rt s) <= c /\ last_read_at (shared s1) = Some c.

Lemma pong_turn_acked s s1 s' o : is_ping_sent (shared s) = true -> after_ack s s1 -> calm s1 s' ->
  ping_sent_at (shared s') = None -> last_read_at (shared s') = last_read_at (shared s1) ->
  pong_window s o s' ->
  match bdp s', sh_bytes (shared s') with Some b, Some n => bdp_ok b /\ is_u64 n | None, None => True | _, _ => False end ->
  pong_turn s o s'.
Proof.
  intros Hp (Hok & Hc1 & _ & _ & _ & Hl) Hc2 Ep El Ho Hb. split_and!; [done| | |].
  - eapply sys_ok_calm; [exact Hok|done|done|by left].
  - unfold calm in *. destruct Hc2 as (?&->&->), Hc1 as (?&->&->). split_and!; [lia|done|done].
  - unfold acked, is_ping_sent at 2. rewrite Hp, Ep, El. exact Hl.
Qed.

Lemma wp_take_ack s s0 (Q : outcome Empty_set unit -> Sys T Sl P -> Prop) : sys_ok s -> calm s s0 -> bdp s0 = bdp s ->
  sh_bytes (shared s0) = sh_bytes (shared s) -> last_read_at (shared s0) = last_read_at (shared s) -> ping_sent_at (shared s0) = None ->
  (forall s1, after_ack s s1 -> clock (rt s0) <= clock (rt s1) -> Q (Ready tt) s1) -> wp update_last_read_at Q s0.
Proof.
  intros Hok Hc Eb Ey El Ep HQ. apply wp_update_last_read_at.
  - intros E. apply HQ; [|lia]. split_and!; try done.
    + eapply sys_ok_calm; [done|done|rewrite Eb, Ey; apply Hok|by left].
    + rewrite <-El, E. done.
  - intros t Hs Ht. apply HQ; [|done]. assert (calm s (on_shared (set_last_read_at (Some (clock t))) (set_rt t s0))) as Hc'.
    { destruct Hc as (?&?&?). split_and!; [clock_lia|done|done]. }
    split_and!; try done.
    + eapply sys_ok_calm; [done|done|cbn; rewrite Eb, Ey; apply Hok|]. right. rewrite <-El. split; [done|]. exists (clock t). split; [|done]. destruct Hc. clock_lia.
    + intros last _. exists (clock t). split; [|done]. destruct Hc. lia.
Qed.

Lemma ponger_poll_spec s : sys_ok s -> wp ponger_poll (pong_turn s) s.
Proof.
  intros Hok. unfold ponger_poll. do 3 wp_step. apply wp_now. intros t Ht.
  destruct (is_ping_sent (shared s)) eqn:Ep; cbn [negb].
  2: { wp_step. pose proof (pong_turn_nothing s (ping_pong (shared s)) t Hok Ht) as Hn. by destruct s as [? []]. }
  destruct (pp_poll_pong _) as [pp pong]. do 2 wp_step.
  destruct pong as [[|]|]; try (wp_step; by apply pong_turn_nothing).
  wp_step. destruct (ping_sent_at (shared s)) as [start|] eqn:Es; [|unfold is_ping_sent in Ep; by rewrite Es in Ep].
  wp_expect (eq_refl (Some start)). do 2 wp_step. wp_step.
  apply (wp_take_ack s); try done. intros s1 Ha Hc1. do 2 wp_step.
  destruct Ha as (Hok1 & Hcalm & Eb & Ey & Ep1 & Hl). assert (after_ack s s1) as Ha by done.
  destruct (bdp s1) as [b|] eqn:Eb1.
  2: { wp_step. eapply pong_turn_acked; [done|done|done|done|done|left; by rewrite <-Eb, Eb1|]. rewrite Eb1. pose proof (ok_bdp _ Hok1) as Hb. by rewrite Eb1 in Hb. }
  pose proof (ok_bdp _ Hok1) as Hb. rewrite Eb1 in Hb. destruct (sh_bytes (shared s1)) as [n|] eqn:Ey1; [|done]. destruct Hb as [Hb Hn].
  wp_step. wp_expect (eq_refl (Some n)). do 2 wp_step. wp_step.
  destruct (calculate_spec b n (instant_sub (clock t) start) Hb Hn) as (b' & u & Ec & Hcal). wp_expect Ec. do 3 wp_step.
  assert (bdp_ok b') as Hb' by (destruct u; [by destruct Hcal|by destruct Hcal]).
  apply wp_instant_add; [clock_lia| |].
  { destruct Hb' as [_ Hd _]. unfold delay_ok, MAX_DELAY, MAX_PING_DELAY, from_secs, NANOS_PER_SEC in *. lia. }
  do 2 wp_step. destruct u as [w|]; wp_step; (eapply pong_turn_acked; [done|done|done|done|done| |done]).
  - right. exists b'. destruct Hcal as (_ & _ & _ & -> & -> & _). split_and!; [done..|]. lia.
  - left. rewrite <-Eb. cbn. by destruct Hcal as (_ & -> & _).
Qed.
End ping_laws.
