(* ===== verification/PingTheorems.v ===== *)
(** * Pings: theorems

    Histories of a connection's ping state: calls of the recorders and of the
    ponger, with time passing between them. No history panics; keep-alive closes
    a connection only after the silence it is configured for, and does close it
    after that silence; the windows announced grow within their limit. *)

From stdpp Require Import prelude.
From Stdlib Require Import ZArith Lia Sorted.
From S2P Require Import Prelude Errors Ping PingLaws.
Local Open Scope Z_scope.

(** ** Starting *)

Record cfg_ok (c : Config) : Prop := {
  cfg_window : forall w, bdp_initial_window c = Some w -> is_u32 w;
  cfg_interval : forall i, keep_alive_interval c = Some i -> delay_ok i;
  cfg_timeout : delay_ok (keep_alive_timeout c);
}.

Lemma config_new_ok aw iw interval timeout idle pl : is_u32 iw -> 0 <= timeout -> (forall i, interval = Some i -> 0 <= i) ->
  cfg_ok (config_new aw iw interval timeout idle pl).
Proof.
  intros Hw Ht Hi. assert (0 <= MAX_DELAY) by done. split; cbn.
  - intros w. by destruct aw; intros; simplify_eq.
  - intros i. destruct interval as [j|]; cbn; intros; simplify_eq. specialize (Hi _ eq_refl). unfold delay_ok. lia.
  - unfold delay_ok. lia.
Qed.

Section histories.
Context {T Sl P : Type} `{TL : TimerLaws T Sl} `{PP : PingPongOps P}.
Implicit Types (s : Sys T Sl P) (ka : KeepAlive Sl).

Lemma channel_ok (pp : P) cfg t : is_enabled cfg = true -> cfg_ok cfg ->
  exists s, channel pp cfg Timer t = Some (Recording, s) /\ sys_ok s /\
    forall ka, keep_alive s = Some ka -> ka_state ka = KInit /\ ka_timeout ka = keep_alive_timeout cfg.
Proof.
  intros He [Hw Hi Ht]. unfold channel. rewrite He. cbn [negb]. destruct (timer_now t) as [t1 i] eqn:En. apply timer_now_law in En as [Hn <-].
  assert (match ((fun wnd => MkBdp wnd F0 F0 (from_millis 100) 0) <$> bdp_initial_window cfg) with
    | Some b => bdp_ok b | None => True end) as Hb.
  { destruct (bdp_initial_window cfg) as [w|]; cbn; [|done]. specialize (Hw _ eq_refl). split; cbn; [lia|by vm_compute|done]. }
  pose proof (clock_range t1) as [Hc _].
  destruct (keep_alive_interval cfg) as [iv|]; [destruct (timer_sleep iv t1) as [t2 sl] eqn:Es; apply timer_sleep_law in Es|];
    destruct (bdp_initial_window cfg) as [w|]; cbn in Hb |- *; eexists; (split; [done|]); (split; [split; cbn|]);
    try done; intros; simplify_eq/=; repeat split; try done; try lia; try apply Ht; try (by apply (Hi _ eq_refl)); try (by eexists).
Qed.

(** ** Histories *)

(** Whether an unanswered ping of keep-alive, or a data ping sent since, is
    waited for. *)
Definition waiting s : bool :=
  match keep_alive s with
  | Some ka => match ka_state ka with PingSent _ => is_ping_sent (shared s) | _ => false end
  | None => false
  end.

(** The call that led from [s] to [s'] has sent a ping. *)
Definition sent_ping s s' : bool :=
  match keep_alive s' with
  | Some ka => match ka_state ka with PingSent _ => negb (waiting s) | _ => false end
  | None => false
  end.

(** [history pp cfg s reads pings]: a state reached from the start by calls
    between which time passes, with the times of the calls that recorded a read
    (an acknowledgement is one) and that sent a ping of keep-alive. *)
Inductive history (pp : P) (cfg : Config) : Sys T Sl P -> list Z -> list Z -> Prop :=
| h_start t r s : channel pp cfg Timer t = Some (r, s) -> history pp cfg s [] []
| h_time t s reads pings : history pp cfg s reads pings -> clock (rt s) <= clock t -> history pp cfg (set_rt t s) reads pings
| h_data r n s s' o reads pings : history pp cfg s reads pings -> is_u64 n -> record_data r n s = (s', o) -> history pp cfg s' reads pings
| h_pong s s' o reads pings : history pp cfg s reads pings -> ponger_poll s = (s', o) ->
    history pp cfg s' (if acked s s' then clock (rt s) :: reads else reads) pings
| h_read s s' o reads pings : history pp cfg s reads pings -> record_read s = (s', o) -> history pp cfg s' (clock (rt s) :: reads) pings
| h_alive is_idle s s' o reads pings : history pp cfg s reads pings -> poll_keep_alive is_idle s = (s', o) ->
    history pp cfg s' reads (if sent_ping s s' then clock (rt s) :: pings else pings).

(** What the state of keep-alive says of the past. *)
Definition st_ok (ka : KeepAlive Sl) (last c : Z) (pings : list Z) (st : KeepAliveState) : Prop :=
  match st with
  | KInit => True
  | Scheduled a => a <= last + ka_interval ka
  | PingSent d => d <= c + ka_timeout ka /\ exists p, p ∈ pings /\ p + ka_timeout ka <= d
  end.

Lemma st_ok_mono ka ka' last last' c c' pings pings' st : same_ka ka ka' -> last <= last' -> c <= c' -> pings ⊆ pings' ->
  st_ok ka last c pings st -> st_ok ka' last' c' pings' st.
Proof.
  intros (Ei & Et & _) Hl Hc Hp. destruct st as [|a|d]; cbn; rewrite ?Ei, ?Et; [done|lia|]. intros [Hd (p & Hin & ?)]. split; [lia|].
  exists p. split; [by apply Hp|done].
Qed.

Lemma st_ok_step ka last b answered c0 c1 pings st l st' : c0 <= c1 -> last <= c0 ->
  ka_step ka last b answered c0 c1 st l st' -> st_ok ka last c1 (c0 :: pings) st -> st_ok ka last c1 (c0 :: pings) st'.
Proof.
  intros Hc Hl Hs Hst. destruct Hs; cbn in *; try lia; try done.
  - split; [lia|]. exists c0. split; [left|lia].
  - destruct Hst as [? (p & ? & ?)]. split; [lia|]. exists p. split; [done|lia].
Qed.

Lemma st_ok_steps ka last b answered c0 c1 pings st l st' : c0 <= c1 -> last <= c0 ->
  ka_steps ka last b answered c0 c1 st l st' -> st_ok ka last c1 (c0 :: pings) st -> st_ok ka last c1 (c0 :: pings) st'.
Proof. intros Hc Hl. induction 1; [done|]. intros. by eauto using st_ok_step. Qed.

(** While a ping is unanswered the deadline is at most put off. *)
Lemma waiting_steps ka last b c0 c1 d l st : ka_steps ka last b false c0 c1 (PingSent d) l st ->
  exists d', st = PingSent d' /\ l = [] /\ d <= d' /\ (d' = d \/ d' = last + ka_timeout ka).
Proof.
  remember (PingSent d) as st0 eqn:E. intros Hs. revert d E.
  induction Hs as [|st1 l1 st2 l2 st3 H1 _ IH]; intros d ->; [exists d; split_and!; [done|done|lia|by left]|].
  inversion H1; subst; [done|]. destruct (IH _ eq_refl) as (d' & -> & -> & ? & Hd). exists d'. split_and!; [done|done|lia|].
  right. destruct Hd; lia.
Qed.

Definition hist_ok (cfg : Config) s (reads pings : list Z) : Prop :=
  sys_ok s /\ forall ka last, keep_alive s = Some ka -> last_read_at (shared s) = Some last ->
    ka_timeout ka = keep_alive_timeout cfg /\ (forall r, r ∈ reads -> r <= last) /\ st_ok ka last (clock (rt s)) pings (ka_state ka).

Lemma hist_ok_calm cfg s s' reads reads' pings : hist_ok cfg s reads pings -> sys_ok s' -> calm s s' ->
  (reads' = reads /\ last_read_at (shared s') = last_read_at (shared s)) \/
  (reads' = clock (rt s) :: reads /\ forall last, last_read_at (shared s) = Some last -> exists c, clock (rt s) <= c /\ last_read_at (shared s') = Some c) ->
  hist_ok cfg s' reads' pings.
Proof.
  intros [Hok Hk] Hok' (Hc & Ek & _) Hr. split; [done|]. intros ka last' Ek' El'. rewrite Ek in Ek'.
  destruct (ok_ka _ Hok _ Ek') as [_ [last El]]. destruct (Hk _ _ Ek' El) as (Et & Hrd & Hst). pose proof (ok_last _ Hok _ El).
  assert (last <= last' /\ forall r, r ∈ reads' -> r <= last') as [Hl Hrd'].
  { destruct Hr as [[-> E]|[-> E]].
    - rewrite E, El in El'. simplify_eq. split; [lia|done].
    - destruct (E _ El) as (c & ? & E'). simplify_eq. split; [lia|]. intros r [->|Hin]%elem_of_cons; [done|]. specialize (Hrd _ Hin). lia. }
  split_and!; [done|done|]. by eapply st_ok_mono.
Qed.

Lemma turn_sys_ok s ka last is_idle o s' : sys_ok s -> keep_alive s = Some ka -> keep_alive_turn s ka last is_idle o s' ->
  (o = Pending \/ o = Ready tt) /\ sys_ok s'.
Proof.
  intros Hok Ek [(Hc & Eb & Ey & El) Ht]. destruct (ok_ka _ Hok _ Ek) as [[] Hlast].
  split; [destruct o as [[]| | | |]; auto; done|]. split.
  - rewrite Eb, Ey. apply Hok.
  - rewrite El. intros last' E. apply (ok_last _ Hok) in E. lia.
  - rewrite El. intros ka' Ek'. destruct o; try done; [destruct Ht as [Ht _]; congruence|].
    destruct Ht as (ka1 & l & Ek1 & (Ei & Et & _ & Em) & Hs & _). simplify_eq. split; [split; congruence|done].
Qed.

Lemma alive_ok cfg s reads pings is_idle s' o : hist_ok cfg s reads pings -> poll_keep_alive is_idle s = (s', o) ->
  (o = Pending \/ o = Ready tt) /\ hist_ok cfg s' reads (if sent_ping s s' then clock (rt s) :: pings else pings).
Proof.
  intros [Hok Hk] Ep. destruct (keep_alive s) as [ka|] eqn:Ek.
  2: { unfold poll_keep_alive, mbind, M_bind, get in Ep. rewrite Ek in Ep. unfold pend in Ep. simplify_eq. split; [by left|]. split; [done|]. intros ??. congruence. }
  destruct (ok_ka _ Hok _ Ek) as [Hka [last El]]. pose proof (ok_last _ Hok _ El) as Hl.
  assert (keep_alive_turn s ka last is_idle o s') as Ht.
  { eapply wp_elim; [|exact Ep]. apply (wp_poll_keep_alive ka last); try done. lia. }
  destruct (turn_sys_ok _ _ _ _ _ _ Hok Ek Ht) as [Ho Hok']. split; [done|]. split; [done|]. intros ka' last' Ek' El'.
  destruct Ht as [(Hc & _ & _ & Elast) Ht]. rewrite Elast, El in El'. simplify_eq. destruct (Hk _ _ eq_refl El) as (Et & Hr & Hst).
  destruct Ho as [->| ->]; [|destruct Ht as [Ht _]; congruence]. destruct Ht as (ka1 & l & Ek1 & Hsame & _ & Hsteps & _). simplify_eq.
  split_and!; [destruct Hsame as (_ & -> & _); done|done|].
  assert (st_ok ka last' (clock (rt s')) (clock (rt s) :: pings) (ka_state ka1)) as Hst1.
  { eapply st_ok_steps; [..|exact Hsteps|]; [lia..|]. eapply st_ok_mono; [..|exact Hst]; [done|lia|lia|by apply list_subseteq_cons]. }
  eapply (st_ok_mono ka); [done|reflexivity|reflexivity|reflexivity|].
  unfold sent_ping. rewrite Ek1. destruct (ka_state ka1) as [|a|d] eqn:Es1; [done|exact Hst1|].
  unfold waiting. rewrite Ek. destruct (ka_state ka) as [|a|d0] eqn:Es; [exact Hst1..|]. destruct (is_ping_sent (shared s)); [|exact Hst1]. cbn [negb].
  apply waiting_steps in Hsteps as (d' & ? & _ & Hd & _). simplify_eq. destruct Hst as [_ (p & ? & ?)]. split; [by destruct Hst1|].
  exists p. split; [done|lia].
Qed.

Lemma history_ok pp cfg s reads pings : is_enabled cfg = true -> cfg_ok cfg -> history pp cfg s reads pings -> hist_ok cfg s reads pings.
Proof.
  intros He Hc. induction 1 as [t r s Es|t s reads pings _ IH Ht|r n s s' o reads pings _ IH Hn Es|s s' o reads pings _ IH Es|s s' o reads pings _ IH Es|i s s' o reads pings _ IH Es].
  - destruct (channel_ok pp cfg t He Hc) as (s1 & Es1 & Hok & Hk). rewrite Es1 in Es. simplify_eq. split; [done|].
    intros ka last Ek El. destruct (Hk _ Ek) as [-> ->]. split_and!; [done| |done]. by intros r ?%elem_of_nil.
  - eapply hist_ok_calm; [done| |done|by left]. destruct IH as [IH _]. eapply sys_ok_calm; [done|done|apply IH|by left].
  - destruct (wp_elim _ _ _ _ _ (record_data_spec r n s (proj1 IH) Hn) Es) as (_ & Hok & Hcalm & El & _). eapply hist_ok_calm; [done..|by left].
  - destruct (wp_elim _ _ _ _ _ (ponger_poll_spec s (proj1 IH)) Es) as (_ & Hok & Hcalm & Ha). eapply hist_ok_calm; [done..|].
    destruct (acked s s'); [by right|left]. by destruct Ha.
  - destruct (wp_elim _ _ _ _ _ (record_read_spec s (proj1 IH)) Es) as (_ & Hok & Hcalm & _ & Ha). eapply hist_ok_calm; [done..|by right].
  - by eapply alive_ok.
Qed.

(** No sequence of calls makes the pings of a connection panic, whatever
    the clock reads and whatever the peer does: a bandwidth estimate always has
    its byte count and keep-alive the time of the last read, no sum of an instant
    and a delay overflows (the delays are capped when they are configured), and
    no sleep is polled again after it has resolved. The calls come to an end (the
    loop of the timeout takes at most two rounds), and a window that is announced
    is the new estimate and at most 16 MiB. *)
Theorem ping_safe pp aw iw interval timeout idle pl s reads pings :
  let cfg := config_new aw iw interval timeout idle pl in
  is_u32 iw -> 0 <= timeout -> (forall i, interval = Some i -> 0 <= i) -> is_enabled cfg = true ->
  history pp cfg s reads pings ->
  sys_ok s /\
  (forall r n, is_u64 n -> wp (record_data r n) (fun o _ => o = Ready tt) s) /\
  wp record_read (fun o _ => o = Ready tt) s /\
  wp ponger_poll (fun o s' => o = Pending \/ exists b, bdp s' = Some b /\ o = Ready (SizeUpdate (bdp_ b)) /\ bdp_ b <= BDP_LIMIT) s /\
  (forall is_idle, wp (poll_keep_alive is_idle) (fun o _ => o = Pending \/ o = Ready tt) s).
Proof.
  intros cfg Hw Ht Hi He Hh. pose proof (history_ok _ _ _ _ _ He (config_new_ok aw iw interval timeout idle pl Hw Ht Hi) Hh) as Hok.
  split_and!; [apply Hok|..].
  - intros r n Hn. eapply wp_mono; [by apply record_data_spec; [apply Hok|]|]. by intros o s' [? _].
  - eapply wp_mono; [apply record_read_spec, Hok|]. by intros o s' [? _].
  - eapply wp_mono; [apply ponger_poll_spec, Hok|]. intros o s' [[[? _]|?] _]; auto.
  - intros is_idle. apply wp_intro. intros s' o Es. by eapply alive_ok.
Qed.

(** Keep-alive declares the connection dead only when it may: at that time
    nothing (acknowledgements included) has been read for the configured timeout,
    and a ping that was sent at least that long ago, or longer than that before
    the end of this very call, has not been answered. The streams are told:
    from then on [ensure_not_timed_out] fails. *)
Theorem keep_alive_justified pp aw iw interval timeout idle pl s reads pings is_idle s' :
  let cfg := config_new aw iw interval timeout idle pl in
  is_u32 iw -> 0 <= timeout -> (forall i, interval = Some i -> 0 <= i) -> is_enabled cfg = true ->
  history pp cfg s reads pings -> poll_keep_alive is_idle s = (s', Ready tt) ->
  (forall r, r ∈ reads -> r + keep_alive_timeout cfg <= clock (rt s')) /\
  ((is_ping_sent (shared s) = true /\ exists p, p ∈ pings /\ p + keep_alive_timeout cfg <= clock (rt s')) \/
   clock (rt s) + keep_alive_timeout cfg <= clock (rt s')) /\
  ensure_not_timed_out Recording (shared s') = Err timed_out_error.
Proof.
  intros cfg Hw Ht Hi He Hh Ep.
  pose proof (history_ok _ _ _ _ _ He (config_new_ok aw iw interval timeout idle pl Hw Ht Hi) Hh) as [Hok Hk].
  destruct (keep_alive s) as [ka|] eqn:Ek.
  2: { unfold poll_keep_alive, mbind, M_bind, get in Ep. rewrite Ek in Ep. done. }
  destruct (ok_ka _ Hok _ Ek) as [Hka [last El]]. pose proof (ok_last _ Hok _ El) as Hl. destruct (Hk _ _ eq_refl El) as (Et & Hr & Hst).
  assert (keep_alive_turn s ka last is_idle (Ready tt) s') as [(Hc & _) (_ & Eto & d & l & Hsteps & Hd & Hor)].
  { eapply wp_elim; [|exact Ep]. apply (wp_poll_keep_alive ka last); try done. lia. }
  fold cfg in Et. rewrite <-Et in *. split_and!; [|..].
  - intros r Hin. specialize (Hr _ Hin). lia.
  - destruct Hor as [[Hsent [d0 Es]]|]; [|right; lia]. left. split; [done|]. rewrite Es, Hsent in *.
    apply waiting_steps in Hsteps as (d' & ? & _ & ? & _). simplify_eq. destruct Hst as [_ (p & ? & ?)]. exists p. split; [done|lia].
  - cbn. by rewrite Eto.
Qed.

(** A poll when a ping is due sends one, if it does not time out, unless it
    finds out about a read and asks to be polled again at once. *)
Lemma poll_due cfg s reads pings ka last is_idle s' o :
  hist_ok cfg s reads pings -> keep_alive s = Some ka -> last_read_at (shared s) = Some last ->
  busy ka is_idle = true -> last + ka_interval ka <= clock (rt s) -> poll_keep_alive is_idle s = (s', o) ->
  o = Ready tt \/ (o = Pending /\ kept s s' /\ exists ka', keep_alive s' = Some ka' /\ same_ka ka ka' /\
    ((ka_state ka' = KInit /\ woken s' = S (woken s) /\ exists a, ka_state ka = Scheduled a) \/
     exists d, ka_state ka' = PingSent d /\ armed (ka_sleep ka') = Some d /\ d <= clock (rt s') + ka_timeout ka)).
Proof.
  intros Hh Ek El Hb Hdue Ep. destruct (alive_ok _ _ _ _ _ _ _ Hh Ep) as [[->| ->] [Hok' Hk']]; [|by left]. right. split; [done|].
  destruct Hh as [Hok Hk]. destruct (ok_ka _ Hok _ Ek) as [Hka _]. pose proof (ok_last _ Hok _ El) as Hl.
  assert (keep_alive_turn s ka last is_idle Pending s') as [Hkept (ka' & l & Ek' & Hsame & Hs & _ & Hu & _)].
  { eapply wp_elim; [|exact Ep]. apply (wp_poll_keep_alive ka last); try done. lia. }
  split; [done|]. exists ka'. split; [done|]. split; [done|]. destruct Hkept as (Hc & _ & _ & El'). rewrite El in El'.
  destruct (Hk' _ _ Ek' El') as (_ & _ & Hst'). pose proof Hsame as (Ei & Et & _). rewrite Hb in Hu. unfold sleep_ok in Hs.
  destruct (ka_state ka') as [|a|d]; cbn in *.
  - left. destruct Hu as [?|[? ?]]; done.
  - lia.
  - right. exists d. rewrite <-Et. split_and!; [done|done|]. by destruct Hst'.
Qed.

(** A silent peer is detected. Once nothing has been read for the interval,
    a poll of a busy connection sends a ping, or asks to be polled again at once
    and the second one does; the sleep is then armed for a deadline at most the
    timeout away. If the ping stays unanswered, the next poll at that time or
    later declares the connection dead. *)
Theorem keep_alive_detects pp cfg s reads pings ka last is_idle s1 o1 t1 s2 o2 t2 s3 o3 :
  is_enabled cfg = true -> cfg_ok cfg -> history pp cfg s reads pings ->
  keep_alive s = Some ka -> last_read_at (shared s) = Some last -> while_idle ka || negb is_idle = true ->
  last + ka_interval ka <= clock (rt s) ->
  poll_keep_alive is_idle s = (s1, o1) ->
  clock (rt s1) <= clock t1 -> poll_keep_alive is_idle (set_rt t1 s1) = (s2, o2) ->
  is_ping_sent (shared s2) = true -> clock (rt s2) + ka_timeout ka <= clock t2 -> poll_keep_alive is_idle (set_rt t2 s2) = (s3, o3) ->
  o1 = Ready tt \/
  ((waiting s1 = is_ping_sent (shared s1) \/ woken s1 = S (woken s)) /\
   (o2 = Ready tt \/
    (o3 = Ready tt /\ exists ka2 d, keep_alive s2 = Some ka2 /\ ka_state ka2 = PingSent d /\
      armed (ka_sleep ka2) = Some d /\ d <= clock (rt s2) + ka_timeout ka))).
Proof.
  intros He Hc Hh Ek El Hb Hdue Ep1 Ht1 Ep2 Hsent Ht2 Ep3. pose proof (history_ok _ _ _ _ _ He Hc Hh) as Hok.
  destruct (poll_due _ _ _ _ _ _ _ _ _ Hok Ek El Hb Hdue Ep1) as [?|(-> & Hk1 & ka1 & Ek1 & Hsame1 & Hst1)]; [by left|]. right.
  pose proof (h_time _ _ t1 _ _ _ (h_alive _ _ _ _ _ _ _ _ Hh Ep1) Ht1) as Hh1. pose proof (history_ok _ _ _ _ _ He Hc Hh1) as Hok1.
  assert (last_read_at (shared s1) = Some last) as El1 by (destruct Hk1 as (_&_&_&->); done).
  pose proof Hsame1 as (Ei1 & Et1 & Ew1 & _). destruct Hk1 as (Hc1 & _).
  split. { destruct Hst1 as [(_ & ? & _)|(d & Es1 & _)]; [by right|left]. unfold waiting. by rewrite Ek1, Es1. }
  assert (busy ka1 is_idle = true) as Hb1 by (unfold busy; by rewrite Ew1).
  assert (last + ka_interval ka1 <= clock (rt (set_rt t1 s1))) as Hdue1 by (cbn; lia).
  destruct (poll_due _ (set_rt t1 s1) _ _ ka1 last is_idle _ _ Hok1 Ek1 El1 Hb1 Hdue1 Ep2) as [?|(-> & Hk2 & ka2 & Ek2 & Hsame2 & Hst2)]; [by left|]. right.
  assert (exists d, ka_state ka2 = PingSent d /\ armed (ka_sleep ka2) = Some d /\ d <= clock (rt s2) + ka_timeout ka1) as (d & Es2 & Ha2 & Hd2).
  { destruct Hst2 as [(_ & _ & a & Ea)|]; [|done]. exfalso. destruct Hst1 as [(E & _)|(d & E & _)]; congruence. }
  rewrite Et1 in Hd2. split; [|by exists ka2, d].
  assert (clock (rt s2) <= clock t2) as Hc2.
  { destruct Hok1 as [Hok1 _]. destruct (ok_ka _ Hok1 _ Ek1) as [[_ [? _]] _]. rewrite Et1 in *. lia. }
  pose proof (h_time _ _ t2 _ _ _ (h_alive _ _ _ _ _ _ _ _ Hh1 Ep2) Hc2) as Hh2. pose proof (history_ok _ _ _ _ _ He Hc Hh2) as [Hok2 _].
  assert (last_read_at (shared s2) = Some last) as El2 by (destruct Hk2 as (_&_&_&->); done).
  destruct (ok_ka _ Hok2 _ Ek2) as [Hka2 _]. assert (last <= clock (rt s2)) by (destruct Hk2; pose proof (ok_last _ (proj1 Hok) _ El); cbn in *; lia).
  assert (keep_alive_turn (set_rt t2 s2) ka2 last is_idle o3 s3) as [_ Ht].
  { eapply wp_elim; [|exact Ep3]. apply (wp_poll_keep_alive ka2 last); try done. cbn. lia. }
  destruct o3 as [[]| | | |]; try done. destruct Ht as (ka3 & l & Ek3 & _ & _ & Hsteps & Hu & _). exfalso.
  change (shared (set_rt t2 s2)) with (shared s2) in *. rewrite Hsent, Es2 in Hsteps. apply waiting_steps in Hsteps as (d' & E3 & _ & _ & Hd').
  rewrite E3 in Hu. cbn in Hu. destruct Hsame2 as (_ & Et2 & _). rewrite Et2, Et1 in *. lia.
Qed.
End histories.

(** ** The window *)

(** C21. Adapting the window: whatever samples of bytes and round-trip times
    arrive, from any initial window between HTTP/2's default and the limit the
    windows that are announced grow strictly and stay within 16 MiB, so there are
    at most 20 of them; the delay between measurements stays above zero and below
    40 seconds, however often it is halved and quadrupled; and nothing panics. *)
Theorem windows_grow w0 l :
  65535 <= w0 <= BDP_LIMIT -> Forall (fun x => is_u64 (fst x)) l ->
  exists b ws, samples (MkBdp w0 F0 F0 (from_millis 100) 0) l = Some (b, ws) /\
    StronglySorted Z.lt (w0 :: ws) /\ Forall (fun w => w <= BDP_LIMIT) ws /\ (length ws <= 20)%nat /\
    0 < ping_delay b < from_secs 40 /\ w0 <= bdp_ b <= BDP_LIMIT.
Proof.
  intros Hw Hl. assert (bdp_after 0 (MkBdp w0 F0 F0 (from_millis 100) 0)) as H0.
  { split; cbn; [split; cbn; [lia|by vm_compute|unfold BDP_LIMIT in *; ulia]|lia|lia|lia|by vm_compute]. }
  destruct (samples_spec l 0 _ H0 Hl) as (b & ws & Es & [[_ Hd _] Hb _ Hk Hlow] & [Hs Hf] & Hmono). cbn in Hs, Hmono. exists b, ws.
  split_and!; try done; try lia; try apply Hd.
  eapply Z.lt_le_trans; [|exact Hlow]. apply Z.div_str_pos. split; [apply Z.pow_pos_nonneg; lia|].
  transitivity (2 ^ 20); [apply Z.pow_le_mono_r; lia|by vm_compute].
Qed.

(** ** A concrete timer and peer *)

Module ConcretePing.

(** A runtime is a time, held below the end of time; a sleep is its deadline
    until it has resolved. *)
Definition ticks : Type := Z.
Definition tick (t : ticks) : Z := Z.max 0 (Z.min t (INSTANT_MAX - MAX_DELAY)).

#[export] Instance ticks_timer : TimerOps ticks (option Z) := {
  std_now t := (t, tick t);
  timer_now t := (t, tick t);
  timer_sleep d t := (t, Some (tick t + d));
  timer_reset _ d t := (t, Some d);
  sleep_poll sl t :=
    match sl with
    | Some d => if d <=? tick t then (t, (None, Ready tt)) else (t, (Some d, Pending))
    | None => (t, (None, Panicked))
    end;
}.

#[export] Instance ticks_laws : TimerLaws ticks (option Z).
Proof.
  refine {| clock := tick; armed sl := sl |}.
  - intros t. assert (0 <= INSTANT_MAX - MAX_DELAY) by (by vm_compute). unfold tick. lia.
  - intros t t' i. cbn. intros. simplify_eq. lia.
  - intros t t' i. cbn. intros. simplify_eq. lia.
  - intros d t t' sl. cbn. intros. simplify_eq. lia.
  - intros sl d t t' sl'. cbn. intros. simplify_eq. split; [lia|done].
  - intros sl d t t' sl' o ->. cbn. destruct (d <=? tick t) eqn:E; zbool; intros; simplify_eq; (split; [lia|]); [by left|by right].
Defined.

(** A peer that acknowledges pings or does not; one ping may be outstanding. *)
Record peer : Type := Peer { outstanding : bool; answers : bool }.

#[export] Instance peer_pings : PingPongOps peer := {
  ping_opaque := [0; 1; 2; 3; 4; 5; 6; 7];
  pp_send_ping _ p := if outstanding p then (p, false) else (Peer true (answers p), true);
  pp_poll_pong p := if outstanding p && answers p then (Peer false true, Some true) else (p, None);
}.

Definition silent : peer := Peer false false.
Definition lively : peer := Peer false true.
Definition secs (n : Z) : Z := from_secs n.

(** Ten seconds of silence before a ping, five for its answer. *)
Definition cfg : Config := config_new true 65535 (Some (secs 10)) (secs 5) true None.
Definition start (p : peer) : Sys ticks (option Z) peer :=
  match channel p cfg Timer 0 with Some (_, s) => s | None => MkSys 0 (MkShared p None None None None None false Timer) None None 0 end.

Lemma start_history p : history p cfg (start p) [] [].
Proof. apply (h_start p cfg 0 Recording). destruct p as [[] []]; vm_compute; reflexivity. Qed.

(** Data arrives, is measured over 20 milliseconds and doubles the window. *)
Definition measured : Sys ticks (option Z) peer := set_rt 20000000 (fst (record_data Recording 60000 (start lively))).

Lemma measured_history : history lively cfg measured [] [].
Proof. unfold measured. eapply h_time; [|by vm_compute]. eapply (h_data _ _ Recording 60000 (start lively)); [apply start_history|by vm_compute|]. apply surjective_pairing. Qed.

Lemma ping_safe_witness : is_u32 65535 /\ is_enabled cfg = true /\ snd (ponger_poll measured) = Ready (SizeUpdate 120000) /\
  wp ponger_poll (fun o s' => o = Pending \/ exists b, bdp s' = Some b /\ o = Ready (SizeUpdate (bdp_ b)) /\ bdp_ b <= BDP_LIMIT) measured.
Proof.
  split; [by vm_compute|]. split; [by vm_compute|]. split; [by vm_compute|].
  destruct (ping_safe lively true 65535 (Some (secs 10)) (secs 5) true None measured [] []) as (_ & _ & _ & Hp & _);
    [by vm_compute|by vm_compute|by intros i [= <-]|by vm_compute|exact measured_history|exact Hp].
Defined.

(** Nothing is read: the ping of the tenth second is not answered. *)
Definition pinged10 : Sys ticks (option Z) peer := fst (poll_keep_alive false (set_rt (secs 10) (start silent))).

Lemma pinged10_history : history silent cfg pinged10 [] [secs 10].
Proof.
  change [secs 10] with (if sent_ping (set_rt (secs 10) (start silent)) pinged10 then [clock (rt (set_rt (secs 10) (start silent)))] else []).
  apply (h_alive _ _ false _ pinged10 Pending); [|by vm_compute]. apply h_time; [apply start_history|by vm_compute].
Qed.

Definition dead15 : Sys ticks (option Z) peer := fst (poll_keep_alive false (set_rt (secs 15) pinged10)).

Lemma keep_alive_justified_witness : poll_keep_alive false (set_rt (secs 15) pinged10) = (dead15, Ready tt) /\
  ensure_not_timed_out Recording (shared dead15) = Err timed_out_error.
Proof.
  split; [by vm_compute|].
  destruct (keep_alive_justified silent true 65535 (Some (secs 10)) (secs 5) true None (set_rt (secs 15) pinged10) [] [secs 10] false dead15)
    as (_ & _ & He); [by vm_compute|by vm_compute|by intros i [= <-]|by vm_compute| |by vm_compute|exact He].
  apply h_time; [exact pinged10_history|by vm_compute].
Defined.

Definition silent10 : Sys ticks (option Z) peer := set_rt (secs 10) (start silent).
Definition pinged11 : Sys ticks (option Z) peer := fst (poll_keep_alive false (set_rt (secs 11) pinged10)).
Definition dead16 : Sys ticks (option Z) peer := fst (poll_keep_alive false (set_rt (secs 16) pinged11)).

Lemma silent10_history : history silent cfg silent10 [] [].
Proof. apply h_time; [apply start_history|by vm_compute]. Qed.

Lemma keep_alive_detects_witness : poll_keep_alive false (set_rt (secs 16) pinged11) = (dead16, Ready tt) /\
  exists ka2 d, keep_alive pinged11 = Some ka2 /\ ka_state ka2 = PingSent d.
Proof.
  split; [by vm_compute|].
  destruct (keep_alive_detects silent cfg silent10 [] [] (MkKeepAlive (secs 10) (secs 5) true KInit (Some (secs 10)) Timer) 0 false
    pinged10 Pending (secs 11) pinged11 Pending (secs 16) dead16 (Ready tt)) as [He|[_ [He|[_ (ka2 & d & Ek & Es & _)]]]];
    [by vm_compute| |exact silent10_history|by vm_compute..|discriminate He|discriminate He|].
  - apply config_new_ok; [by vm_compute|by vm_compute|by intros i [= <-]].
  - by exists ka2, d.
Defined.

Lemma windows_grow_witness : exists b, samples (MkBdp 65535 F0 F0 (from_millis 100) 0)
    [(43690, secs 1); (43690, secs 1); (80000, secs 1); (9000000, secs 1); (9000000, secs 1)] = Some (b, [87380; 160000; BDP_LIMIT]) /\
  StronglySorted Z.lt [65535; 87380; 160000; BDP_LIMIT].
Proof.
  destruct (windows_grow 65535 [(43690, secs 1); (43690, secs 1); (80000, secs 1); (9000000, secs 1); (9000000, secs 1)]) as (b & ws & Es & Hs & _);
    [by vm_compute|repeat constructor; by vm_compute|].
  vm_compute in Es. simplify_eq. eexists. split; [by vm_compute|exact Hs].
Defined.
End ConcretePing.
