(* ===== verification/Http2Opts.v ===== *)
(** * Http2Opts

    The options of an HTTP/2 connection: [Http2Options] and its builder
    ([proto/http2.rs]), and what [conn/http2.rs]'s [Builder::handshake] does with
    them before the connection starts: the settings it passes to the [http2]
    crate's builder and the configuration of the pings. *)

From stdpp Require Import prelude.
From Stdlib Require Import ZArith Lia.
From coqutil.Datatypes Require Import RecordSetters.
Import DoubleBraceUpdate.
From S2P Require Import Prelude Errors Ping PingLaws PingTheorems.
Local Open Scope Z_scope.

Definition SPEC_WINDOW_SIZE : Z := 65535.
Definition DEFAULT_CONN_WINDOW : Z := 1024 * 1024 * 5.
Definition DEFAULT_STREAM_WINDOW : Z := 1024 * 1024 * 2.
Definition DEFAULT_MAX_FRAME_SIZE : Z := 1024 * 16.
Definition DEFAULT_MAX_SEND_BUF_SIZE : Z := 1024 * 1024.
Definition DEFAULT_MAX_HEADER_LIST_SIZE : Z := 1024 * 16.
Definition DEFAULT_INITIAL_MAX_SEND_STREAMS : Z := 100.

(** The [http2] crate's types of header and settings orders and priorities. *)
Section http2_options.
Context {PseudoOrder HeadersPriority SettingsOrder Priorities : Type}.

(** [struct Http2Options]. *)
Record Http2Options : Type := MkHttp2Options {
  adaptive_window : bool;
  initial_stream_id : option Z;
  initial_conn_window_size : Z;
  initial_window_size : Z;
  initial_max_send_streams : Z;
  max_frame_size : option Z;
  o_keep_alive_interval : option Z;
  o_keep_alive_timeout : Z;
  o_keep_alive_while_idle : bool;
  ping_payload : option bytes;
  preface_ping : option Z;
  preface_ping_timeout : option Z;
  max_concurrent_reset_streams : option Z;
  reset_stream_duration : option Z;
  max_send_buffer_size : Z;
  max_send_data_frame_size : option Z;
  max_send_header_frame_size : option Z;
  one_frame_per_write : bool;
  max_concurrent_streams : option Z;
  max_header_list_size : option Z;
  max_pending_accept_reset_streams : option Z;
  max_local_error_reset_streams : option Z;
  enable_push : option bool;
  header_table_size : option Z;
  enable_connect_protocol : option bool;
  no_rfc7540_priorities : option bool;
  headers_pseudo_order : option PseudoOrder;
  headers_priority : option HeadersPriority;
  settings_order : option SettingsOrder;
  priorities : option Priorities;
}.

(** [impl Default for Http2Options]. *)
Definition options_default : Http2Options := {|
  adaptive_window := false;
  initial_stream_id := None;
  initial_conn_window_size := DEFAULT_CONN_WINDOW;
  initial_window_size := DEFAULT_STREAM_WINDOW;
  initial_max_send_streams := DEFAULT_INITIAL_MAX_SEND_STREAMS;
  max_frame_size := Some DEFAULT_MAX_FRAME_SIZE;
  o_keep_alive_interval := None;
  o_keep_alive_timeout := from_secs 20;
  o_keep_alive_while_idle := false;
  ping_payload := None;
  preface_ping := None;
  preface_ping_timeout := None;
  max_concurrent_reset_streams := None;
  reset_stream_duration := None;
  max_send_buffer_size := DEFAULT_MAX_SEND_BUF_SIZE;
  max_send_data_frame_size := None;
  max_send_header_frame_size := None;
  one_frame_per_write := false;
  max_concurrent_streams := None;
  max_header_list_size := Some DEFAULT_MAX_HEADER_LIST_SIZE;
  max_pending_accept_reset_streams := None;
  max_local_error_reset_streams := Some 1024;
  enable_push := None;
  header_table_size := None;
  enable_connect_protocol := None;
  no_rfc7540_priorities := None;
  headers_pseudo_order := None;
  headers_priority := None;
  settings_order := None;
  priorities := None;
|}.

(** [Http2Options::builder]. *)
Definition options_builder : Http2Options := options_default {{ max_frame_size := None; max_header_list_size := None }}.

(** ** [impl Http2OptionsBuilder]: [None] from a method is its panic *)

Definition b_initial_window_size (x : option Z) (o : Http2Options) : Http2Options :=
  match x with Some x => o {{ adaptive_window := false; initial_window_size := x }} | None => o end.
Definition b_initial_connection_window_size (x : option Z) (o : Http2Options) : Http2Options :=
  match x with Some x => o {{ adaptive_window := false; initial_conn_window_size := x }} | None => o end.
Definition b_initial_max_send_streams (x : option Z) (o : Http2Options) : Http2Options :=
  match x with Some x => o {{ initial_max_send_streams := x }} | None => o end.
Definition b_initial_stream_id (x : option Z) (o : Http2Options) : Http2Options :=
  match x with Some x => o {{ initial_stream_id := Some x }} | None => o end.
Definition b_adaptive_window (enabled : bool) (o : Http2Options) : Http2Options :=
  let o := o {{ adaptive_window := enabled }} in
  if enabled then o {{ initial_window_size := SPEC_WINDOW_SIZE; initial_conn_window_size := SPEC_WINDOW_SIZE }} else o.
Definition b_max_frame_size (x : option Z) (o : Http2Options) : Http2Options :=
  match x with Some x => o {{ max_frame_size := Some x }} | None => o end.
Definition b_max_header_list_size (max : Z) (o : Http2Options) : Http2Options :=
  o {{ max_header_list_size := Some max }}.
Definition b_header_table_size (x : option Z) (o : Http2Options) : Http2Options :=
  match x with Some x => o {{ header_table_size := Some x }} | None => o end.
Definition b_max_concurrent_streams (x : option Z) (o : Http2Options) : Http2Options :=
  match x with Some x => o {{ max_concurrent_streams := Some x }} | None => o end.
Definition b_keep_alive_interval (interval : option Z) (o : Http2Options) : Http2Options :=
  o {{ o_keep_alive_interval := interval }}.
Definition b_keep_alive_timeout (timeout : Z) (o : Http2Options) : Http2Options :=
  o {{ o_keep_alive_timeout := timeout }}.
Definition b_keep_alive_while_idle (enabled : bool) (o : Http2Options) : Http2Options :=
  o {{ o_keep_alive_while_idle := enabled }}.
Definition b_ping_payload (pl : option bytes) (o : Http2Options) : Http2Options :=
  o {{ ping_payload := pl }}.
Definition b_preface_ping (threshold : option Z) (o : Http2Options) : Http2Options :=
  o {{ preface_ping := threshold }}.
Definition b_preface_ping_timeout (timeout : option Z) (o : Http2Options) : Http2Options :=
  o {{ preface_ping_timeout := timeout }}.
Definition b_enable_push (opt : bool) (o : Http2Options) : Http2Options :=
  o {{ enable_push := Some opt }}.
Definition b_enable_connect_protocol (opt : bool) (o : Http2Options) : Http2Options :=
  o {{ enable_connect_protocol := Some opt }}.
Definition b_no_rfc7540_priorities (opt : bool) (o : Http2Options) : Http2Options :=
  o {{ no_rfc7540_priorities := Some opt }}.
Definition b_max_concurrent_reset_streams (max : Z) (o : Http2Options) : Http2Options :=
  o {{ max_concurrent_reset_streams := Some max }}.
Definition b_reset_stream_duration (dur : Z) (o : Http2Options) : Http2Options :=
  o {{ reset_stream_duration := Some dur }}.
Definition b_max_send_buf_size (max : Z) (o : Http2Options) : option Http2Options :=
  if max <=? U32_MAX then Some o {{ max_send_buffer_size := max }} else None.
Definition b_max_send_data_frame_size (max : option Z) (o : Http2Options) : Http2Options :=
  o {{ max_send_data_frame_size := max }}.
Definition b_max_send_header_frame_size (max : option Z) (o : Http2Options) : Http2Options :=
  o {{ max_send_header_frame_size := max }}.
Definition b_one_frame_per_write (enabled : bool) (o : Http2Options) : Http2Options :=
  o {{ one_frame_per_write := enabled }}.
Definition b_max_pending_accept_reset_streams (x : option Z) (o : Http2Options) : Http2Options :=
  match x with Some x => o {{ max_pending_accept_reset_streams := Some x }} | None => o end.
Definition b_max_local_error_reset_streams (max : option Z) (o : Http2Options) : Http2Options :=
  o {{ max_local_error_reset_streams := max }}.
Definition b_headers_priority (x : option HeadersPriority) (o : Http2Options) : Http2Options :=
  match x with Some x => o {{ headers_priority := Some x }} | None => o end.
Definition b_headers_pseudo_order (x : option PseudoOrder) (o : Http2Options) : Http2Options :=
  match x with Some x => o {{ headers_pseudo_order := Some x }} | None => o end.
Definition b_settings_order (x : option SettingsOrder) (o : Http2Options) : Http2Options :=
  match x with Some x => o {{ settings_order := Some x }} | None => o end.
Definition b_priorities (x : option Priorities) (o : Http2Options) : Http2Options :=
  match x with Some x => o {{ priorities := Some x }} | None => o end.

(** ** [Builder::handshake] of [conn/http2.rs] *)

(** A call on the [http2] crate's builder. *)
Inductive Setting : Type :=
| SInitialMaxSendStreams (n : Z) | SInitialWindowSize (n : Z) | SInitialConnectionWindowSize (n : Z) | SMaxSendBufferSize (n : Z)
| SMaxLocalErrorResetStreams (n : option Z) | SInitialStreamId (n : Z) | SMaxPendingAcceptResetStreams (n : Z)
| SMaxConcurrentResetStreams (n : Z) | SResetStreamDuration (n : Z) | SMaxConcurrentStreams (n : Z) | SMaxHeaderListSize (n : Z)
| SEnablePush (b : bool) | SMaxFrameSize (n : Z) | SHeaderTableSize (n : Z) | SEnableConnectProtocol (b : bool)
| SNoRfc7540Priorities (b : bool) | SSettingsOrder (x : SettingsOrder) | SHeadersPriority (x : HeadersPriority)
| SHeadersPseudoOrder (x : PseudoOrder) | SPriorities (x : Priorities) | SPrefacePing (n : Z) | SPrefacePingTimeout (n : Z)
| SMaxSendDataFrameSize (n : Z) | SMaxSendHeaderFrameSize (n : Z) | SOneFramePerWrite (b : bool).

(** [if let Some(x) = self.opts.field { builder.field(x); }]. *)
Definition when {A} (f : A -> Setting) (x : option A) : list Setting := match x with Some x => [f x] | None => [] end.

(** The calls on the builder, in order. *)
Definition builder_settings (o : Http2Options) : list Setting :=
  [SInitialMaxSendStreams (initial_max_send_streams o); SInitialWindowSize (initial_window_size o);
   SInitialConnectionWindowSize (initial_conn_window_size o); SMaxSendBufferSize (max_send_buffer_size o);
   SMaxLocalErrorResetStreams (max_local_error_reset_streams o)] ++
  when SInitialStreamId (initial_stream_id o) ++ when SMaxPendingAcceptResetStreams (max_pending_accept_reset_streams o) ++
  when SMaxConcurrentResetStreams (max_concurrent_reset_streams o) ++ when SResetStreamDuration (reset_stream_duration o) ++
  when SMaxConcurrentStreams (max_concurrent_streams o) ++ when SMaxHeaderListSize (max_header_list_size o) ++
  when SEnablePush (enable_push o) ++ when SMaxFrameSize (max_frame_size o) ++ when SHeaderTableSize (header_table_size o) ++
  when SEnableConnectProtocol (enable_connect_protocol o) ++ when SNoRfc7540Priorities (no_rfc7540_priorities o) ++
  when SSettingsOrder (settings_order o) ++ when SHeadersPriority (headers_priority o) ++
  when SHeadersPseudoOrder (headers_pseudo_order o) ++ when SPriorities (priorities o) ++ when SPrefacePing (preface_ping o) ++
  when SPrefacePingTimeout (preface_ping_timeout o) ++ when SMaxSendDataFrameSize (max_send_data_frame_size o) ++
  when SMaxSendHeaderFrameSize (max_send_header_frame_size o) ++ [SOneFramePerWrite (one_frame_per_write o)].

(** The handshake up to the connection: refused without the timer keep-alive
    needs, else the builder's settings and the configuration of the pings. *)
Definition handshake_setup (timer : Time) (o : Http2Options) : result Error (list Setting * Config) :=
  match o_keep_alive_interval o, timer with
  | Some _, Empty => Err new_user_keep_alive_without_timer
  | _, _ =>
      Ok (builder_settings o,
        config_new (adaptive_window o) (initial_window_size o) (o_keep_alive_interval o) (o_keep_alive_timeout o)
          (o_keep_alive_while_idle o) (ping_payload o))
  end.

(** ** Options made by the builder *)

(** A method of the builder with its argument. *)
Inductive method : Type :=
| MInitialWindowSize (x : option Z) | MInitialConnectionWindowSize (x : option Z)
| MInitialMaxSendStreams (x : option Z) | MInitialStreamId (x : option Z) | MAdaptiveWindow (x : bool)
| MMaxFrameSize (x : option Z) | MMaxHeaderListSize (x : Z) | MHeaderTableSize (x : option Z)
| MMaxConcurrentStreams (x : option Z) | MKeepAliveInterval (x : option Z) | MKeepAliveTimeout (x : Z)
| MKeepAliveWhileIdle (x : bool) | MPingPayload (x : option bytes) | MPrefacePing (x : option Z)
| MPrefacePingTimeout (x : option Z) | MEnablePush (x : bool) | MEnableConnectProtocol (x : bool)
| MNoRfc7540Priorities (x : bool) | MMaxConcurrentResetStreams (x : Z) | MResetStreamDuration (x : Z)
| MMaxSendBufSize (x : Z) | MMaxSendDataFrameSize (x : option Z) | MMaxSendHeaderFrameSize (x : option Z)
| MOneFramePerWrite (x : bool) | MMaxPendingAcceptResetStreams (x : option Z)
| MMaxLocalErrorResetStreams (x : option Z) | MHeadersPriority (x : option HeadersPriority)
| MHeadersPseudoOrder (x : option PseudoOrder) | MSettingsOrder (x : option SettingsOrder)
| MPriorities (x : option Priorities).

Definition call (m : method) (o : Http2Options) : option Http2Options :=
  match m with
  | MInitialWindowSize x => Some (b_initial_window_size x o)
  | MInitialConnectionWindowSize x => Some (b_initial_connection_window_size x o)
  | MInitialMaxSendStreams x => Some (b_initial_max_send_streams x o)
  | MInitialStreamId x => Some (b_initial_stream_id x o)
  | MAdaptiveWindow x => Some (b_adaptive_window x o)
  | MMaxFrameSize x => Some (b_max_frame_size x o)
  | MMaxHeaderListSize x => Some (b_max_header_list_size x o)
  | MHeaderTableSize x => Some (b_header_table_size x o)
  | MMaxConcurrentStreams x => Some (b_max_concurrent_streams x o)
  | MKeepAliveInterval x => Some (b_keep_alive_interval x o)
  | MKeepAliveTimeout x => Some (b_keep_alive_timeout x o)
  | MKeepAliveWhileIdle x => Some (b_keep_alive_while_idle x o)
  | MPingPayload x => Some (b_ping_payload x o)
  | MPrefacePing x => Some (b_preface_ping x o)
  | MPrefacePingTimeout x => Some (b_preface_ping_timeout x o)
  | MEnablePush x => Some (b_enable_push x o)
  | MEnableConnectProtocol x => Some (b_enable_connect_protocol x o)
  | MNoRfc7540Priorities x => Some (b_no_rfc7540_priorities x o)
  | MMaxConcurrentResetStreams x => Some (b_max_concurrent_reset_streams x o)
  | MResetStreamDuration x => Some (b_reset_stream_duration x o)
  | MMaxSendBufSize x => b_max_send_buf_size x o
  | MMaxSendDataFrameSize x => Some (b_max_send_data_frame_size x o)
  | MMaxSendHeaderFrameSize x => Some (b_max_send_header_frame_size x o)
  | MOneFramePerWrite x => Some (b_one_frame_per_write x o)
  | MMaxPendingAcceptResetStreams x => Some (b_max_pending_accept_reset_streams x o)
  | MMaxLocalErrorResetStreams x => Some (b_max_local_error_reset_streams x o)
  | MHeadersPriority x => Some (b_headers_priority x o)
  | MHeadersPseudoOrder x => Some (b_headers_pseudo_order x o)
  | MSettingsOrder x => Some (b_settings_order x o)
  | MPriorities x => Some (b_priorities x o)
  end.

Fixpoint calls (ms : list method) (o : Http2Options) : option Http2Options :=
  match ms with [] => Some o | m :: ms => o ← call m o; calls ms o end.

(** ** What the calls ask for

    The last call that speaks of an option decides it; without one it keeps the
    value [d] it has from the start. *)
Definition wanted {A} (says : method -> option A) (d : A) (ms : list method) : A := default d (last (omap says ms)).

(** Adaptive flow control sets both windows to HTTP/2's default of 65535 octets;
    a builder starts with windows of 2 MiB and 5 MiB. *)
Definition stream_window (ms : list method) : Z :=
  wanted (fun m => match m with MInitialWindowSize x => x | MAdaptiveWindow true => Some 65535 | _ => None end) 2097152 ms.
Definition connection_window (ms : list method) : Z :=
  wanted (fun m => match m with MInitialConnectionWindowSize x => x | MAdaptiveWindow true => Some 65535 | _ => None end) 5242880 ms.
Definition asked_adaptive (ms : list method) : bool :=
  wanted (fun m => match m with MInitialWindowSize (Some _) | MInitialConnectionWindowSize (Some _) => Some false | MAdaptiveWindow b => Some b | _ => None end) false ms.
Definition asked_interval (ms : list method) : option Z := wanted (fun m => match m with MKeepAliveInterval x => Some x | _ => None end) None ms.
Definition asked_timeout (ms : list method) : Z := wanted (fun m => match m with MKeepAliveTimeout x => Some x | _ => None end) (from_secs 20) ms.
Definition asked_while_idle (ms : list method) : bool := wanted (fun m => match m with MKeepAliveWhileIdle x => Some x | _ => None end) false ms.
Definition asked_payload (ms : list method) : option bytes := wanted (fun m => match m with MPingPayload x => Some x | _ => None end) None ms.

(** An option no call has set is left to the [http2] crate. *)
Definition chosen {A} (says : method -> option A) (ms : list method) : option A := last (omap says ms).

(** The settings the connection is to be started with. *)
Definition asked (ms : list method) (s : Setting) : Prop :=
  match s with
  | SInitialMaxSendStreams n => n = wanted (fun m => match m with MInitialMaxSendStreams x => x | _ => None end) 100 ms
  | SInitialWindowSize n => n = stream_window ms
  | SInitialConnectionWindowSize n => n = connection_window ms
  | SMaxSendBufferSize n => n = wanted (fun m => match m with MMaxSendBufSize x => Some x | _ => None end) 1048576 ms
  | SMaxLocalErrorResetStreams x => x = wanted (fun m => match m with MMaxLocalErrorResetStreams x => Some x | _ => None end) (Some 1024) ms
  | SInitialStreamId n => chosen (fun m => match m with MInitialStreamId x => x | _ => None end) ms = Some n
  | SMaxPendingAcceptResetStreams n => chosen (fun m => match m with MMaxPendingAcceptResetStreams x => x | _ => None end) ms = Some n
  | SMaxConcurrentResetStreams n => chosen (fun m => match m with MMaxConcurrentResetStreams x => Some x | _ => None end) ms = Some n
  | SResetStreamDuration n => chosen (fun m => match m with MResetStreamDuration x => Some x | _ => None end) ms = Some n
  | SMaxConcurrentStreams n => chosen (fun m => match m with MMaxConcurrentStreams x => x | _ => None end) ms = Some n
  | SMaxHeaderListSize n => chosen (fun m => match m with MMaxHeaderListSize x => Some x | _ => None end) ms = Some n
  | SEnablePush b => chosen (fun m => match m with MEnablePush x => Some x | _ => None end) ms = Some b
  | SMaxFrameSize n => chosen (fun m => match m with MMaxFrameSize x => x | _ => None end) ms = Some n
  | SHeaderTableSize n => chosen (fun m => match m with MHeaderTableSize x => x | _ => None end) ms = Some n
  | SEnableConnectProtocol b => chosen (fun m => match m with MEnableConnectProtocol x => Some x | _ => None end) ms = Some b
  | SNoRfc7540Priorities b => chosen (fun m => match m with MNoRfc7540Priorities x => Some x | _ => None end) ms = Some b
  | SSettingsOrder y => chosen (fun m => match m with MSettingsOrder x => x | _ => None end) ms = Some y
  | SHeadersPriority y => chosen (fun m => match m with MHeadersPriority x => x | _ => None end) ms = Some y
  | SHeadersPseudoOrder y => chosen (fun m => match m with MHeadersPseudoOrder x => x | _ => None end) ms = Some y
  | SPriorities y => chosen (fun m => match m with MPriorities x => x | _ => None end) ms = Some y
  | SPrefacePing n => wanted (fun m => match m with MPrefacePing x => Some x | _ => None end) None ms = Some n
  | SPrefacePingTimeout n => wanted (fun m => match m with MPrefacePingTimeout x => Some x | _ => None end) None ms = Some n
  | SMaxSendDataFrameSize n => wanted (fun m => match m with MMaxSendDataFrameSize x => Some x | _ => None end) None ms = Some n
  | SMaxSendHeaderFrameSize n => wanted (fun m => match m with MMaxSendHeaderFrameSize x => Some x | _ => None end) None ms = Some n
  | SOneFramePerWrite b => b = wanted (fun m => match m with MOneFramePerWrite x => Some x | _ => None end) false ms
  end.

(** *** Each field holds what was asked for *)

Ltac each_method :=
  let m := fresh "m" in let o := fresh "o" in let o' := fresh "o" in let He := fresh "He" in
  intros m o o' He; destruct m as [[?|]|[?|]|[?|]|[?|]|[|]|[?|]|?|[?|]|[?|]|[?|]|?|?|?|?|?|?|?|?|?|?|?|?|?|?|[?|]|?|[?|]|[?|]|[?|]|[?|]];
  cbn in He; unfold b_max_send_buf_size in He; repeat case_match; simplify_eq; reflexivity.

Lemma calls_wanted {A} (field : Http2Options -> A) says :
  (forall m o o', call m o = Some o' -> field o' = default (field o) (says m)) ->
  forall ms o o', calls ms o = Some o' -> field o' = wanted says (field o) ms.
Proof.
  intros Hm. unfold wanted. induction ms as [|m ms IH]; intros o o' Hc; cbn in Hc; [by simplify_eq|].
  destruct (call m o) as [o1|] eqn:E; [|done]. cbn in Hc. rewrite (IH _ _ Hc), (Hm _ _ _ E). cbn.
  destruct (says m); cbn; [rewrite last_cons|]; by destruct (last _).
Qed.

Lemma calls_chosen {A} (field : Http2Options -> option A) says :
  (forall m o o', call m o = Some o' -> field o' = match says m with Some x => Some x | None => field o end) ->
  forall ms o o', field o = None -> calls ms o = Some o' -> field o' = chosen says ms.
Proof.
  intros Hm. enough (forall ms o o', calls ms o = Some o' -> field o' = match chosen says ms with Some x => Some x | None => field o end) as He.
  { intros ms o o' Ho Hc. rewrite (He _ _ _ Hc), Ho. by destruct (chosen says ms). }
  unfold chosen. induction ms as [|m ms IH]; intros o o' Hc; cbn in Hc; [by simplify_eq|].
  destruct (call m o) as [o1|] eqn:E; [|done]. cbn in Hc. rewrite (IH _ _ Hc), (Hm _ _ _ E). cbn.
  destruct (says m); cbn; [rewrite last_cons|]; by destruct (last _).
Qed.

Lemma elem_of_when {A} (f : A -> Setting) x s : s ∈ when f x <-> exists y, x = Some y /\ s = f y.
Proof. destruct x; cbn; set_unfold; naive_solver. Qed.

Ltac asked_is Hc F :=
  match type of Hc with calls ?ms ?o0 = Some ?o =>
    match goal with
    | |- context [wanted ?f ?d ms] => assert (F o = wanted f d ms) as <- by exact (calls_wanted F f ltac:(each_method) ms o0 o Hc)
    | |- context [chosen ?f ms] => assert (F o = chosen f ms) as <- by exact (calls_chosen F f ltac:(each_method) ms o0 o eq_refl Hc)
    end
  end.
Ltac among := set_unfold; split; [intros Hs; repeat destruct Hs as [Hs|Hs]; by naive_solver|intros Hs; by naive_solver].

(** The calls on the [http2] crate's builder are the settings asked for. *)
Lemma builder_settings_asked ms o : calls ms options_builder = Some o -> forall s, s ∈ builder_settings o <-> asked ms s.
Proof.
  intros Hc s. unfold builder_settings. rewrite !elem_of_app, !elem_of_when.
  destruct s; cbn [asked]; unfold stream_window, connection_window.
  - asked_is Hc initial_max_send_streams. among.
  - asked_is Hc initial_window_size. among.
  - asked_is Hc initial_conn_window_size. among.
  - asked_is Hc max_send_buffer_size. among.
  - asked_is Hc max_local_error_reset_streams. among.
  - asked_is Hc initial_stream_id. among.
  - asked_is Hc max_pending_accept_reset_streams. among.
  - asked_is Hc max_concurrent_reset_streams. among.
  - asked_is Hc reset_stream_duration. among.
  - asked_is Hc max_concurrent_streams. among.
  - asked_is Hc max_header_list_size. among.
  - asked_is Hc enable_push. among.
  - asked_is Hc max_frame_size. among.
  - asked_is Hc header_table_size. among.
  - asked_is Hc enable_connect_protocol. among.
  - asked_is Hc no_rfc7540_priorities. among.
  - asked_is Hc settings_order. among.
  - asked_is Hc headers_priority. among.
  - asked_is Hc headers_pseudo_order. among.
  - asked_is Hc priorities. among.
  - asked_is Hc preface_ping. among.
  - asked_is Hc preface_ping_timeout. among.
  - asked_is Hc max_send_data_frame_size. among.
  - asked_is Hc max_send_header_frame_size. among.
  - asked_is Hc one_frame_per_write. among.
Qed.

(** The arguments have the types of the methods: a [u32] window, durations. *)
Definition arg_ok (m : method) : Prop :=
  match m with
  | MInitialWindowSize (Some n) => is_u32 n
  | MKeepAliveInterval (Some d) => 0 <= d
  | MKeepAliveTimeout d => 0 <= d
  | _ => True
  end.

Record opts_ok (o : Http2Options) : Prop := {
  opts_adaptive : adaptive_window o = true -> initial_window_size o = SPEC_WINDOW_SIZE /\ initial_conn_window_size o = SPEC_WINDOW_SIZE;
  opts_window : is_u32 (initial_window_size o);
  opts_buffer : max_send_buffer_size o <= U32_MAX;
  opts_interval : forall d, o_keep_alive_interval o = Some d -> 0 <= d;
  opts_timeout : 0 <= o_keep_alive_timeout o;
}.

Lemma call_ok m o o' : arg_ok m -> opts_ok o -> call m o = Some o' -> opts_ok o'.
Proof.
  intros Ha [H1 H2 H3 H4 H5] Hc.
  destruct m as [[x|]|[x|]|[x|]|[x|]|[|]|[x|]|x|[x|]|[x|]|[x|]|x|x|x|x|x|x|x|x|x|x|x|x|x|x|[x|]|x|[x|]|[x|]|[x|]|[x|]]; cbn in Ha, Hc; destruct o;
    try (injection Hc as <-; split; cbn in *; unfold constant in *; intros; simplify_eq; solve [done|by vm_compute|eauto]).
  unfold b_max_send_buf_size in Hc. destruct (x <=? U32_MAX) eqn:E; [|done]. zbool. injection Hc as <-. split; cbn in *; done.
Qed.

Lemma calls_ok ms : forall o o', Forall arg_ok ms -> opts_ok o -> calls ms o = Some o' -> opts_ok o'.
Proof.
  induction ms as [|m ms IH]; intros o o' Hf Ho Hc; cbn in Hc; [by simplify_eq|]. apply Forall_cons in Hf as [Hm Hf].
  destruct (call m o) as [o1|] eqn:E; [|done]. cbn in Hc. eapply IH; [done| |done]. by eapply call_ok.
Qed.

(** The configuration of the pings: the estimate runs, from HTTP/2's default
    window, exactly when adaptive flow control is asked for; the keep-alive delays
    are those asked for, at most thirty years. *)
Definition pings_asked (ms : list method) (cfg : Config) : Prop :=
  cfg = MkConfig (if asked_adaptive ms then Some 65535 else None) ((fun d => Z.min d (from_secs (30 * 365 * 24 * 60 * 60))) <$> asked_interval ms)
    (Z.min (asked_timeout ms) (from_secs (30 * 365 * 24 * 60 * 60))) (asked_while_idle ms) (asked_payload ms).

Lemma config_asked ms o : calls ms options_builder = Some o -> opts_ok o ->
  pings_asked ms (config_new (adaptive_window o) (initial_window_size o) (o_keep_alive_interval o) (o_keep_alive_timeout o)
    (o_keep_alive_while_idle o) (ping_payload o)).
Proof.
  intros Hc [Ha _ _ _ _]. unfold pings_asked, asked_adaptive, asked_interval, asked_timeout, asked_while_idle, asked_payload, config_new.
  asked_is Hc adaptive_window. asked_is Hc o_keep_alive_interval. asked_is Hc o_keep_alive_timeout.
  asked_is Hc o_keep_alive_while_idle. asked_is Hc ping_payload.
  f_equal; try reflexivity. destruct (adaptive_window o); [|done]. by destruct (Ha eq_refl) as [-> _].
Qed.

Lemma interval_asked ms o : calls ms options_builder = Some o -> asked_interval ms = o_keep_alive_interval o.
Proof. intros Hc. unfold asked_interval. by asked_is Hc o_keep_alive_interval. Qed.

Lemma adaptive_windows ms o : calls ms options_builder = Some o -> opts_ok o -> asked_adaptive ms = true ->
  stream_window ms = 65535 /\ connection_window ms = 65535.
Proof.
  intros Hc [Ha _ _ _ _]. unfold asked_adaptive. asked_is Hc adaptive_window. intros He. destruct (Ha He) as [E1 E2].
  unfold stream_window, connection_window. split; [asked_is Hc initial_window_size|asked_is Hc initial_conn_window_size]; done.
Qed.

Lemma calls_panic ms : forall o, calls ms o = None <-> exists x, MMaxSendBufSize x ∈ ms /\ U32_MAX < x.
Proof.
  induction ms as [|m ms IH]; intros o; cbn; [split; [done|intros (x & Hx & _); by apply not_elem_of_nil in Hx]|].
  assert (call m o = None <-> exists x, m = MMaxSendBufSize x /\ U32_MAX < x) as Hm.
  { destruct m; cbn; try naive_solver. unfold b_max_send_buf_size. case_match; zbool; split; intros Hx; try done.
    - destruct Hx as (y & [= <-] & ?). lia.
    - eauto. }
  destruct (call m o) as [o1|] eqn:E; cbn; setoid_rewrite elem_of_cons; [rewrite IH|]; naive_solver.
Qed.

Lemma options_builder_ok : opts_ok options_builder.
Proof. split; cbn; try done. Qed.
End http2_options.
Arguments Http2Options : clear implicits.
Arguments method : clear implicits.

(** C22. What a connection is started with is what the builder was asked for.
    A sequence of builder calls panics exactly when it asks for a send buffer
    beyond [u32]. Otherwise the handshake is refused exactly when keep-alive was
    asked for and there is no timer; and when it is not refused, the calls made on
    the [http2] crate's builder are, setting for setting, the values of the last
    calls that named them or the builder's defaults, and none besides. The
    configuration of the pings has the keep-alive asked for, its delays cut to
    thirty years, and the estimate exactly when adaptive flow control was the last word on
    the windows, both of which are then HTTP/2's default; with it, starting the
    pings does not panic, with or without a timer. *)
Theorem options_start PO HP SO PR ms timer : Forall arg_ok ms ->
  match calls ms (@options_builder PO HP SO PR) with
  | None => exists x, MMaxSendBufSize x ∈ ms /\ U32_MAX < x
  | Some o =>
      (forall x, MMaxSendBufSize x ∈ ms -> x <= U32_MAX) /\
      match handshake_setup timer o with
      | Err e => e = new_user_keep_alive_without_timer /\ asked_interval ms ≠ None /\ timer = Empty
      | Ok (settings, cfg) =>
          (timer = Timer \/ asked_interval ms = None) /\
          (forall s, s ∈ settings <-> asked ms s) /\ pings_asked ms cfg /\ cfg_ok cfg /\
          (asked_adaptive ms = true -> stream_window ms = 65535 /\ connection_window ms = 65535) /\
          (is_enabled cfg = true -> forall T Sl P (ti : TimerOps T Sl) (pi : PingPongOps P) (pp : P) (t : T), is_Some (channel pp cfg timer t))
      end
  end.
Proof.
  intros Hf. destruct (calls ms options_builder) as [o|] eqn:Hc; [|by apply calls_panic in Hc]. split.
  { intros x Hx. destruct (decide (x <= U32_MAX)); [done|]. enough (calls ms options_builder = @None (Http2Options PO HP SO PR)) by congruence.
    apply calls_panic. exists x. split; [done|lia]. }
  pose proof (calls_ok _ _ _ Hf options_builder_ok Hc) as Ho.
  pose proof (builder_settings_asked _ _ Hc) as Hs. pose proof (config_asked _ _ Hc Ho) as Hp. pose proof (adaptive_windows _ _ Hc Ho) as Hw.
  pose proof (interval_asked _ _ Hc) as Ei.
  assert (cfg_ok (config_new (adaptive_window o) (initial_window_size o) (o_keep_alive_interval o) (o_keep_alive_timeout o)
    (o_keep_alive_while_idle o) (ping_payload o))) as Hcfg by (destruct Ho; by apply config_new_ok).
  unfold handshake_setup. rewrite Ei.
  destruct (o_keep_alive_interval o) as [d|] eqn:Ed, timer; cbn; (repeat (split; [by auto|])); try done; intros He T Sl P ????; unfold channel; rewrite He; cbn;
    repeat case_match; simplify_eq; eauto.
Qed.

Module ConcreteOptions.
Definition adaptive : list (method unit unit unit unit) :=
  [MInitialWindowSize (Some 1000000); MKeepAliveInterval (Some (from_secs 30)); MAdaptiveWindow true; MMaxSendBufSize 4096].

Definition built : Http2Options unit unit unit unit := Eval vm_compute in default options_builder (calls adaptive options_builder).
Definition setup : list Setting * Config := Eval vm_compute in
  match handshake_setup Timer built with Ok x => x | Err _ => ([], config_new false 0 None 0 false None) end.

Lemma options_start_witness : calls adaptive options_builder = Some built /\ handshake_setup Timer built = Ok setup /\
  SMaxSendBufferSize 4096 ∈ setup.1 /\ SInitialWindowSize 65535 ∈ setup.1 /\ bdp_initial_window setup.2 = Some 65535 /\ cfg_ok setup.2.
Proof.
  assert (calls adaptive options_builder = Some built) as Ec by (vm_compute; reflexivity).
  assert (handshake_setup Timer built = Ok setup) as Eh by (vm_compute; reflexivity).
  pose proof (options_start unit unit unit unit adaptive Timer) as Hs. rewrite Ec in Hs.
  destruct Hs as [_ Hs]; [repeat constructor; by vm_compute|].
  rewrite Eh in Hs. destruct setup as [settings cfg] eqn:Es. destruct Hs as (_ & Ha & Hp & Hc & _).
  split; [exact Ec|]. split; [exact Eh|]. split; [apply Ha; reflexivity|]. split; [apply Ha; reflexivity|]. split; [by rewrite Hp|exact Hc].
Defined.
End ConcreteOptions.
