(* ===== verification/Http2Pipe.v ===== *)
(** * Http2Pipe

    How a request's body reaches an HTTP/2 stream ([proto/http2.rs]):
    [PipeToSendStream] polls the body and hands its frames to the stream, waiting
    for flow-control capacity with at most one chunk in hand, and [PipeMap]
    ([proto/http2/client.rs]) runs it as a task that a cancelled request resets.

    The [http2] crate's send half of a stream and the user's body are parameters. *)

From stdpp Require Import prelude strings.
From Stdlib Require Import ZArith Lia.
From S2P Require Import Prelude Bytes Crates Errors WriteBuf Dispatcher.
Local Open Scope Z_scope.

(** ** [enum SendBuf] *)

(** What is handed to a stream; [std::io::Cursor] is a buffer with a position,
    like the crate's own [Cursor]. *)
Inductive SendBuf (B : Type) : Type := SBuf (b : B) | SCursor (c : Cursor) | SNone.
Arguments SBuf {B}.
Arguments SCursor {B}.
Arguments SNone {B}.

#[export] Instance SendBuf_Buf {B} `{Buf B} : Buf (SendBuf B) := {
  remaining s := match s with SBuf b => remaining b | SCursor c => remaining c | SNone => 0 end;
  chunk s := match s with SBuf b => chunk b | SCursor c => chunk c | SNone => [] end;
  advance n s :=
    match s with
    | SBuf b => SBuf <$> advance n b
    | SCursor c => SCursor <$> advance n c
    | SNone => Some SNone
    end;
}.

(** ** [http2::SendStream] *)

(** [ss_poll_reset] is the peer's reset; [ss_poll_capacity] is [Ready None] once
    the stream is not streaming. *)
Class SendStreamOps (X B Hm : Type) : Type := {
  ss_poll_reset : M X H2Error Z;
  ss_capacity : X -> Z;
  ss_poll_capacity : M X H2Error (option Z);
  ss_reserve_capacity : Z -> X -> X;
  ss_send_data : SendBuf B -> bool -> X -> X * result H2Error unit;
  ss_send_trailers : Hm -> X -> X * result H2Error unit;
  ss_send_reset : Z -> X -> X;
}.

Section capacity.
Context {X B Hm : Type} `{SendStreamOps X B Hm}.

Definition capacity_closed : Error := new_body_write (CauseText "send stream capacity unexpectedly closed").

(** [while body_tx.capacity() == 0 { ... }], the wait for capacity. *)
Fixpoint wait_capacity (fuel : nat) : M X Error unit :=
  match fuel with
  | O => fun x => (x, NoFuel)
  | S fuel' =>
      x ← get;
      if ss_capacity x =? 0 then
        match_ready ss_poll_capacity
          (fun c => match c with
                    | Some n => if n =? 0 then wait_capacity fuel' else mret tt
                    | None => fail capacity_closed
                    end)
          (fun e => fail (new_body_write (CauseH2 e)))
      else mret tt
  end.

(** A call of the stream whose error is one of writing the body. *)
Definition write_stream (f : X -> X * result H2Error unit) : M X Error unit := fun x =>
  match f x with (x, Ok _) => (x, Ready tt) | (x, Err e) => (x, Failed (new_body_write (CauseH2 e))) end.

(** [send_eos_frame]. *)
Definition send_eos_frame : M X Error unit := write_stream (ss_send_data SNone true).

(** [on_user_err]. *)
Definition on_user_err (e : Cause) : M X Error Error :=
  let err := new_user_body e in modify (ss_send_reset (h2_reason err));; mret err.
End capacity.

(** ** [PipeToSendStream] *)

Section pipe.
Context {X Bs B Hm : Type} `{SendStreamOps X B Hm} `{Buf B} `{HttpBody Bs B Hm}.

(** [struct Peeked]: a chunk that waits for capacity, and whether it is the last. *)
Record Peeked : Type := MkPeeked { pk_data : B; is_eos : bool }.

Record PipeToSendStream : Type := MkPipe { stream : Bs; body_tx : X; data_done : bool; buffered_data : option Peeked }.
Definition set_stream x p := MkPipe x (body_tx p) (data_done p) (buffered_data p).
Definition set_body_tx x p := MkPipe (stream p) x (data_done p) (buffered_data p).
Definition set_buffered x p := MkPipe (stream p) (body_tx p) (data_done p) x.

Definition pipe_new (s : Bs) (tx : X) : PipeToSendStream := MkPipe s tx false None.

Definition on_tx {E A} (m : M X E A) : M PipeToSendStream E A := zoom body_tx set_body_tx m.

(** [send_reset]. *)
Definition pipe_send_reset (reason : Z) (p : PipeToSendStream) : PipeToSendStream := set_body_tx (ss_send_reset reason (body_tx p)) p.

(** [me.body_tx.poll_reset(cx)]: a reset, or the error of the stream, ends the pipe. *)
Definition check_reset : M PipeToSendStream Error unit := fun p =>
  match ss_poll_reset (body_tx p) with
  | (x, Ready reason) => (set_body_tx x p, Failed (new_body_write (CauseH2 (H2Reason reason))))
  | (x, Failed e) => (set_body_tx x p, Failed (new_body_write (CauseH2 e)))
  | (x, Pending) => (set_body_tx x p, Ready tt)
  | (x, Panicked) => (set_body_tx x p, Panicked)
  | (x, NoFuel) => (set_body_tx x p, NoFuel)
  end.

(** A chunk that has been polled waits for capacity and is sent; [rounds] bounds
    the wait. The result says whether the body is done. *)
Definition send_buffered (rounds : X -> nat) (pk : Peeked) : M PipeToSendStream Error bool :=
  p ← get;
  on_tx (wait_capacity (S (rounds (body_tx p))));;
  modify (set_buffered None);;
  on_tx (write_stream (ss_send_data (SBuf (pk_data pk)) (is_eos pk)));;
  mret (is_eos pk).

(** A frame of the body. The result says whether the body is done. *)
Definition pipe_frame (frame : BodyFrame B Hm) : M PipeToSendStream Error bool :=
  match frame with
  | FData chunk =>
      p ← get;
      let eos := hb_is_end_stream (stream p) in
      if remaining chunk =? 0 then on_tx (write_stream (ss_send_data (SBuf chunk) eos));; mret eos
      else
        modify (fun p => set_body_tx (ss_reserve_capacity 1 (body_tx p)) p);;
        modify (set_buffered (Some (MkPeeked chunk eos)));;
        mret false
  | FTrailers t =>
      modify (fun p => set_body_tx (ss_reserve_capacity 0 (body_tx p)) p);;
      on_tx (write_stream (ss_send_trailers t));; mret true
  | FOther => mret false
  end.

(** One round of the loop of [poll], up to its [continue]. *)
Definition pipe_round (rounds : X -> nat) : M PipeToSendStream Error bool :=
  check_reset;;
  p ← get;
  match buffered_data p with
  | Some pk => send_buffered rounds pk
  | None =>
      match_ready (zoom stream set_stream hb_poll_frame)
        (fun frame => match frame with
                      | Some frame => pipe_frame frame
                      | None => on_tx send_eos_frame;; mret true
                      end)
        (fun e => err ← on_tx (on_user_err e); fail err)
  end.

Fixpoint pipe_loop (rounds : X -> nat) (fuel : nat) : M PipeToSendStream Error unit :=
  match fuel with
  | O => fun p => (p, NoFuel)
  | S fuel' => done ← pipe_round rounds; if done : bool then mret tt else pipe_loop rounds fuel'
  end.

(** [<PipeToSendStream as Future>::poll]; [frames] bounds the frames of the
    body, which takes two rounds for each at most. *)
Definition pipe_poll (rounds : X -> nat) (frames : Bs -> nat) : M PipeToSendStream Error unit :=
  p ← get; pipe_loop rounds (2 * frames (stream p) + 2).

(** ** [PipeMap] *)

(** [oneshot::Receiver<()>]: nothing yet, the request is cancelled, or the
    sender is gone. *)
Inductive CancelRx : Type := NotYet | Cancelled | SenderGone.

#[export] Instance CancelRx_eq_dec : EqDecision CancelRx.
Proof. solve_decision. Defined.

Record PipeMap : Type := MkPipeMap { pm_pipe : PipeToSendStream; conn_drop_ref : bool; cancel_rx : option CancelRx }.
Definition set_pm_pipe x m := MkPipeMap x (conn_drop_ref m) (cancel_rx m).
Definition set_drop_ref x m := MkPipeMap (pm_pipe m) x (cancel_rx m).
Definition set_cancel_rx x m := MkPipeMap (pm_pipe m) (conn_drop_ref m) x.

(** [this.conn_drop_ref.take().expect(..)]. *)
Definition take_drop_ref : M PipeMap Empty_set unit :=
  m ← get; if conn_drop_ref m then modify (set_drop_ref false) else panic.

(** [pipe.poll(cx)]; its error is only logged. *)
Definition poll_pipe_map (rounds : X -> nat) (frames : Bs -> nat) : M PipeMap Empty_set unit := fun m =>
  match pipe_poll rounds frames (pm_pipe m) with
  | (p, Ready _) | (p, Failed _) => take_drop_ref (set_pm_pipe p m)
  | (p, Pending) => (set_pm_pipe p m, Pending)
  | (p, Panicked) => (set_pm_pipe p m, Panicked)
  | (p, NoFuel) => (set_pm_pipe p m, NoFuel)
  end.

(** [<PipeMap as Future>::poll]. *)
Definition pipe_map_poll (rounds : X -> nat) (frames : Bs -> nat) : M PipeMap Empty_set unit :=
  m ← get;
  match cancel_rx m with
  | Some Cancelled => modify (fun m => set_pm_pipe (pipe_send_reset R_CANCEL (pm_pipe m)) m);; take_drop_ref
  | Some SenderGone => modify (set_cancel_rx None);; poll_pipe_map rounds frames
  | Some NotYet | None => poll_pipe_map rounds frames
  end.
End pipe.
Arguments PipeToSendStream : clear implicits.
Arguments PipeMap : clear implicits.
Arguments Peeked : clear implicits.
