(* ===== verification/Http2PipeLaws.v ===== *)
(** * The pipe to a stream: laws and theorem

    What the send half of a stream promises, the invariant of the pipe, and that
    whatever the polls and waits, the frames a stream gets are the frames the body
    gave, ended once and only by a body that has ended. *)

From stdpp Require Import prelude strings.
From Stdlib Require Import ZArith Lia.
From S2P Require Import Prelude Bytes Crates Errors WriteBuf Dispatcher Http2Pipe.
Local Open Scope Z_scope.

(** ** What a stream gets *)

Inductive SFrame (Hm : Type) : Type := SData (d : bytes) (eos : bool) | STrailers (t : Hm) | SReset (reason : Z).
Arguments SData {Hm}.
Arguments STrailers {Hm}.
Arguments SReset {Hm}.

Definition sb_content {B} `{BufLaws B} (s : SendBuf B) : bytes :=
  match s with SBuf b => content b | SCursor c => content c | SNone => [] end.

(** [SendBuf] is as lawful a buffer as what it wraps. *)
#[export] Instance SendBuf_BufLaws {B} `{BufLaws B} : BufLaws (SendBuf B).
Proof.
  refine {| buf_ok s := match s with SBuf b => buf_ok b | SCursor c => buf_ok c | SNone => True end; content := sb_content |}.
  - intros [b|c|] Hs; cbn -[Cursor_Buf Cursor_BufLaws]; [by apply buf_remaining|by apply buf_remaining|done].
  - intros [b|c|] Hs; cbn -[Cursor_Buf Cursor_BufLaws]; [by apply buf_chunk_prefix|by apply buf_chunk_prefix|by exists []].
  - intros [b|c|] Hs; cbn -[Cursor_Buf Cursor_BufLaws]; [by apply buf_chunk_nonempty|by apply buf_chunk_nonempty|done].
  - intros [b|c|] n Hs Hn; cbn -[Cursor_Buf Cursor_BufLaws] in *.
    + destruct (buf_advance b n Hs Hn) as (b' & -> & ? & ?). by exists (SBuf b').
    + destruct (buf_advance c n Hs Hn) as (c' & -> & ? & ?). by exists (SCursor c').
    + exists SNone. split_and!; [done..|]. change (@nil Z = zdrop n []). rewrite zdrop_all; [done|]. change (len (@nil Z)) with 0. lia.
Defined.

(** [ss_sent] is what the stream has been given; [ss_spurious] bounds the
    answers of no capacity before it waits. *)
Class SendStreamLaws (X B Hm : Type) `{SendStreamOps X B Hm} `{BufLaws B} : Type := {
  ss_sent : X -> list (SFrame Hm);
  ss_spurious : X -> nat;
  poll_reset_law x x' o : ss_poll_reset x = (x', o) -> ss_sent x' = ss_sent x /\ sound o;
  poll_capacity_law x x' o : ss_poll_capacity x = (x', o) -> ss_sent x' = ss_sent x /\ sound o /\
    (o = Ready (Some 0) -> (ss_spurious x' < ss_spurious x)%nat);
  reserve_law n x : ss_sent (ss_reserve_capacity n x) = ss_sent x;
  send_data_law s eos x x' r : ss_send_data s eos x = (x', r) ->
    ss_sent x' = ss_sent x ++ match r with Ok _ => [SData (sb_content s) eos] | Err _ => [] end;
  send_trailers_law t x x' r : ss_send_trailers t x = (x', r) ->
    ss_sent x' = ss_sent x ++ match r with Ok _ => [STrailers t] | Err _ => [] end;
  send_reset_law r x : ss_sent (ss_send_reset r x) = ss_sent x ++ [SReset r];
}.

(** A body that remembers the frames it has given, and whether it has told its end: by
    giving no more frames, by trailers, or by [is_end_stream] after a frame. *)
Record Heard (Bs B Hm : Type) : Type := MkHeard { he_body : Bs; he_log : list (BodyFrame B Hm); he_over : bool }.
Arguments MkHeard {Bs B Hm}.
Arguments he_body {Bs B Hm}.
Arguments he_log {Bs B Hm}.
Arguments he_over {Bs B Hm}.

Definition tells_end {Bs B Hm} `{HttpBody Bs B Hm} (o : outcome Cause (option (BodyFrame B Hm))) (b : Bs) : bool :=
  match o with Ready None | Ready (Some (FTrailers _)) => true | Ready (Some (FData _)) => hb_is_end_stream b | _ => false end.

#[export] Instance Heard_HttpBody {Bs B Hm} `{HttpBody Bs B Hm} : HttpBody (Heard Bs B Hm) B Hm := {
  hb_poll_frame b :=
    match hb_poll_frame (he_body b) with
    | (b', o) => (MkHeard b' (match o with Ready (Some f) => he_log b ++ [f] | _ => he_log b end) (he_over b || tells_end o b'), o)
    end;
  hb_is_end_stream b := hb_is_end_stream (he_body b);
  hb_size_exact b := hb_size_exact (he_body b);
}.

#[export] Instance Heard_HttpBodyLaws {Bs B Hm} `{HttpBodyLaws Bs B Hm} : HttpBodyLaws (Heard Bs B Hm) B Hm.
Proof.
  refine {| hb_frames b := hb_frames (he_body b) |}.
  - intros [b l ov] b' o. cbn. destruct (hb_poll_frame b) as [b1 o1] eqn:E. intros [= <- <-]. by apply hb_poll_frame_spec in E.
  - intros [b l ov] n. cbn. apply hb_size_spec.
Defined.

Section pipe_laws.
Context {X Bs B Hm : Type} `{BL : BufLaws B} `{SL : !SendStreamOps X B Hm} `{SLL : !SendStreamLaws X B Hm}
  `{HB : HttpBody Bs B Hm} `{HBL : !HttpBodyLaws Bs B Hm}.
Implicit Types x : X.

Lemma wp_wait_capacity fuel (Q : outcome Error unit -> X -> Prop) : forall x, (ss_spurious x < fuel)%nat ->
  (forall x' o, ss_sent x' = ss_sent x -> match o with Ready _ | Pending | Failed _ => Q o x' | _ => True end) ->
  wp (wait_capacity fuel) Q x.
Proof.
  induction fuel as [|fuel IH]; intros x Hf HQ; [lia|]. cbn [wait_capacity]. do 2 wp_step.
  destruct (ss_capacity x =? 0); [|wp_step; by apply (HQ _ (Ready tt))]. wp_step. apply wp_intro. intros x1 o1 E.
  apply poll_capacity_law in E as (Es & Ho & Hsp). destruct o1 as [[n|]|e| | |]; try done.
  - destruct (n =? 0) eqn:En; zbool; [|wp_step; by apply (HQ _ (Ready tt))]. subst n. specialize (Hsp eq_refl).
    apply IH; [lia|]. intros x' o E'. apply HQ. congruence.
  - wp_step. by apply (HQ _ (Failed capacity_closed)).
  - wp_step. by apply (HQ _ (Failed _)).
  - by apply (HQ _ Pending).
Qed.

(** ** The pipe *)

Abbreviation Pipe := (PipeToSendStream X (Heard Bs B Hm) B).
Implicit Types p : Pipe.

Definition log p : list (BodyFrame B Hm) := he_log (stream p).
Definition over p : bool := he_over (stream p).
Definition data_of (l : list (BodyFrame B Hm)) : list bytes :=
  omap (fun f => match f with FData c => Some (content c) | _ => None end) l.
Definition plain (ds : list bytes) : list (SFrame Hm) := (fun d => SData d false) <$> ds.

(** All the data the body has given is with the stream, but for the chunk that
    waits for capacity. *)
Definition piping p : Prop :=
  match buffered_data p with
  | None => ss_sent (body_tx p) = plain (data_of (log p))
  | Some pk => (is_eos pk = true -> over p = true) /\ exists ds, data_of (log p) = ds ++ [content (pk_data pk)] /\ ss_sent (body_tx p) = plain ds
  end.

(** The body has told its end and the stream has been ended: by the last data, by an
    empty frame after it, or by the trailers. *)
Definition complete p : Prop := over p = true /\ exists ds fin,
  ss_sent (body_tx p) = plain ds ++ [fin] /\
  ((exists d, fin = SData d true /\ data_of (log p) = ds ++ [d]) \/
   (fin = SData [] true /\ data_of (log p) = ds) \/
   (exists t, fin = STrailers t /\ data_of (log p) = ds /\ last (log p) = Some (FTrailers t))).

(** The stream has not been ended: it holds a part of the data, and a reset if
    the body failed. *)
Definition cut p (e : Error) : Prop := exists ds, ds `prefix_of` data_of (log p) /\
  (ss_sent (body_tx p) = plain ds \/ exists c, e = new_user_body c /\ ss_sent (body_tx p) = plain ds ++ [SReset (h2_reason e)]).

Definition pipe_post (o : outcome Error unit) p : Prop :=
  match o with Ready _ => complete p | Failed e => cut p e | Pending => piping p | Panicked | NoFuel => False end.

Definition rounds_left p : nat := 2 * hb_frames (stream p) + match buffered_data p with Some _ => 1 | None => 0 end.

(** After a round: done, or the loop goes on with less to do. *)
Definition round_post p (o : outcome Error bool) p' : Prop :=
  match o with
  | Ready true => complete p'
  | Ready false => piping p' /\ (rounds_left p' < rounds_left p)%nat
  | Failed e => cut p' e
  | Pending => piping p'
  | Panicked | NoFuel => False
  end.

Lemma data_of_app l f : data_of (l ++ [f]) = data_of l ++ match f with FData c => [content c] | _ => [] end.
Proof. unfold data_of. rewrite omap_app. f_equal. by destruct f. Qed.

Lemma plain_app ds d : plain (ds ++ [d]) = plain ds ++ [SData d false].
Proof. unfold plain. by rewrite fmap_app. Qed.

Lemma piping_cut p e : piping p -> cut p e.
Proof.
  unfold piping, cut. destruct (buffered_data p) as [pk|].
  - intros (_ & ds & -> & ->). exists ds. split; [by eexists|by left].
  - intros ->. exists (data_of (log p)). split; [done|by left].
Qed.

(** The stream moved without a frame. *)
Lemma piping_tx p x : ss_sent x = ss_sent (body_tx p) -> piping p -> piping (set_body_tx x p).
Proof. unfold piping. cbn. by intros ->. Qed.

(** A write that ends the poll when it fails. *)
Lemma wp_write_stream (f : X -> X * result H2Error unit) (fr : SFrame Hm) (Q : outcome Error unit -> X -> Prop) x :
  (forall x x' r, f x = (x', r) -> ss_sent x' = ss_sent x ++ match r with Ok _ => [fr] | Err _ => [] end) ->
  (forall x', ss_sent x' = ss_sent x ++ [fr] -> Q (Ready tt) x') ->
  (forall x' e, ss_sent x' = ss_sent x -> Q (Failed e) x') -> wp (write_stream f) Q x.
Proof.
  intros Hf Ho He. unfold wp, write_stream. destruct (f x) as [x' [u|e]] eqn:E; apply Hf in E; [by apply Ho|].
  apply He. by rewrite app_nil_r in E.
Qed.

Lemma wp_check_reset (Q : outcome Error unit -> Pipe -> Prop) p : piping p ->
  (forall x e, piping (set_body_tx x p) -> Q (Failed e) (set_body_tx x p)) ->
  (forall x, piping (set_body_tx x p) -> Q (Ready tt) (set_body_tx x p)) -> wp check_reset Q p.
Proof.
  intros Hp Hf Hr. unfold wp, check_reset. destruct (ss_poll_reset (body_tx p)) as [x o] eqn:E. apply poll_reset_law in E as [Es Ho].
  pose proof (piping_tx p x Es Hp). destruct o; try done; auto.
Qed.

Lemma wp_send_buffered pk p : piping p -> buffered_data p = Some pk -> wp (send_buffered ss_spurious pk) (round_post p) p.
Proof.
  intros Hp Eb. unfold send_buffered. do 3 wp_step. apply wp_zoom. apply wp_wait_capacity; [lia|]. intros x o Es.
  pose proof (piping_tx p x Es Hp) as Hp1. destruct o as [u|e| | |]; try done; [|by apply piping_cut]. do 3 wp_step.
  unfold piping in Hp. rewrite Eb in Hp. destruct Hp as (Hov & ds & Ed & Ess). apply wp_zoom.
  apply (wp_write_stream _ (SData (content (pk_data pk)) (is_eos pk))); [by intros ??? ?%send_data_law| |].
  - intros x1 E1. wp_step. cbn [body_tx set_body_tx set_buffered] in E1. rewrite Es, Ess in E1. destruct (is_eos pk).
    + split; [by apply Hov|]. exists ds, (SData (content (pk_data pk)) true). split; [done|]. left. by eexists.
    + split; [unfold piping; cbn; rewrite E1; unfold log in *; cbn; by rewrite Ed, plain_app|]. unfold rounds_left. rewrite Eb. cbn. lia.
  - intros x1 e E1. cbn [body_tx set_body_tx set_buffered] in E1. rewrite Es, Ess in E1. exists ds. split; [unfold log in *; cbn; rewrite Ed; by eexists|by left].
Qed.

(** A frame the body has just given. *)
Lemma wp_pipe_frame f p0 p : buffered_data p = None -> (exists l, log p = l ++ [f] /\ ss_sent (body_tx p) = plain (data_of l)) ->
  match f with FData c => buf_ok c /\ (hb_is_end_stream (stream p) = true -> over p = true) | FTrailers _ => over p = true | FOther => True end ->
  (2 * hb_frames (stream p) + 1 < rounds_left p0)%nat -> wp (pipe_frame f) (round_post p0) p.
Proof.
  intros Eb (l & El & Es) Hok Hr. assert (data_of (log p) = data_of l ++ match f with FData c => [content c] | _ => [] end) as Ed.
  { by rewrite El, data_of_app. }
  destruct f as [c|t|]; cbn [pipe_frame].
  - do 2 wp_step. destruct (remaining c =? 0) eqn:Ec.
    + wp_step. apply wp_zoom. apply (wp_write_stream _ (SData (content c) (hb_is_end_stream (stream p)))); [by intros ??? ?%send_data_law| |].
      * intros x E. wp_step. rewrite Es in E. destruct (hb_is_end_stream (stream p)).
        -- split; [by apply Hok|]. exists (data_of l), (SData (content c) true). split; [done|]. left. by eexists.
        -- split; [unfold piping; cbn; rewrite Eb, E; unfold log in *; cbn; by rewrite Ed, plain_app|].
           eapply Nat.le_lt_trans; [|exact Hr]. unfold rounds_left. cbn. rewrite Eb. lia.
      * intros x e E. rewrite Es in E. exists (data_of l). split; [unfold log in *; cbn; rewrite Ed; by eexists|by left].
    + do 3 wp_step. do 2 wp_step. split.
      * unfold piping. cbn. split; [by apply Hok|]. exists (data_of l). unfold log in *. cbn. by rewrite reserve_law.
      * eapply Nat.le_lt_trans; [|exact Hr]. unfold rounds_left. cbn. lia.
  - do 2 wp_step. wp_step. apply wp_zoom. apply (wp_write_stream _ (STrailers t)); [by intros ??? ?%send_trailers_law| |]; cbn [body_tx set_body_tx]; rewrite reserve_law.
    + intros x E. wp_step. rewrite Es in E. split; [exact Hok|]. exists (data_of l), (STrailers t). split; [done|]. right. right. exists t. unfold log in *. cbn.
      rewrite Ed, app_nil_r, El, last_snoc. done.
    + intros x e E. rewrite Es in E. exists (data_of l). split; [unfold log in *; cbn; by rewrite Ed, app_nil_r|by left].
  - wp_step. split; [unfold piping; rewrite Eb, Es, Ed; by rewrite app_nil_r|].
    eapply Nat.le_lt_trans; [|exact Hr]. unfold rounds_left. rewrite Eb. lia.
Qed.

Lemma wp_pipe_round p : piping p -> wp (pipe_round ss_spurious) (round_post p) p.
Proof.
  intros Hp. unfold pipe_round. wp_step. apply wp_check_reset; [done|intros x e; by apply piping_cut|]. intros x Hp1. do 2 wp_step.
  cbn [buffered_data set_body_tx]. destruct (buffered_data p) as [pk|] eqn:Eb.
  { change (wp (send_buffered ss_spurious pk) (round_post (set_body_tx x p)) (set_body_tx x p)). by apply wp_send_buffered. }
  wp_step. apply wp_zoom. unfold piping in Hp1. cbn in Hp1. rewrite Eb in Hp1.
  destruct p as [[b l ov] tx dd bd]. cbn in Eb, Hp1 |- *. subst bd. unfold wp. cbn.
  destruct (hb_poll_frame b) as [b' o] eqn:E. pose proof (hb_poll_frame_spec _ _ _ E) as Hspec. unfold log in Hp1. cbn in Hp1. destruct o as [[f|]|c| | |]; try done; cbn [tells_end].
  - destruct Hspec as [Hlt Hf]. set (b1 := MkHeard b' (l ++ [f]) _). change (wp (pipe_frame f) (round_post (MkPipe (MkHeard b l ov) tx dd None)) (MkPipe b1 x dd None)).
    apply wp_pipe_frame; [done|by exists l| |unfold rounds_left; cbn; lia]. destruct f; [|apply orb_true_r|done]. split; [by destruct Hf|]. cbn. intros ->. apply orb_true_r.
  - rewrite orb_true_r. change (wp (on_tx send_eos_frame;; mret true) (round_post (MkPipe (MkHeard b l ov) tx dd None)) (MkPipe (MkHeard b' l true) x dd None)).
    wp_step. apply wp_zoom. apply (wp_write_stream _ (SData [] true)); [by intros ??? ?%send_data_law| |]; cbn [body_tx].
    + intros x1 E1. wp_step. split; [done|]. exists (data_of l), (SData [] true). rewrite Hp1 in E1. split; [done|]. right. by left.
    + intros x1 e E1. apply piping_cut. unfold piping, log. cbn. by rewrite E1.
  - exists (data_of l). split; [done|]. right. exists c. split; [done|]. cbn. by rewrite send_reset_law, Hp1.
Qed.

Lemma wp_pipe_loop fuel : forall p, piping p -> (rounds_left p < fuel)%nat -> wp (pipe_loop ss_spurious fuel) pipe_post p.
Proof.
  induction fuel as [|fuel IH]; intros p Hp Hf; [lia|]. cbn [pipe_loop]. wp_step. eapply wp_mono; [by apply wp_pipe_round|].
  intros o p' Ho. destruct o as [[|]|e| | |]; try done. destruct Ho as [Hp' Hl]. apply IH; [done|lia].
Qed.

(** [piped p]: a pipe as it is between polls: it is new, or has been polled
    and waits; the body and the stream move on their own, but give and take
    frames only through it. *)
Inductive piped : Pipe -> Prop :=
| piped_new b x : ss_sent x = [] -> piped (pipe_new (MkHeard b [] false) x)
| piped_poll p p' : piped p -> pipe_poll ss_spurious hb_frames p = (p', Pending) -> piped p'
| piped_body p b : piped p -> piped (set_stream (MkHeard b (log p) (over p)) p)
| piped_stream p x : piped p -> ss_sent x = ss_sent (body_tx p) -> piped (set_body_tx x p).

Lemma pipe_poll_post p : piping p -> wp (pipe_poll ss_spurious hb_frames) pipe_post p.
Proof.
  intros Hp. unfold pipe_poll. do 2 wp_step. apply wp_pipe_loop; [done|]. unfold rounds_left. destruct (buffered_data p); lia.
Qed.

Lemma piped_piping p : piped p -> piping p.
Proof.
  induction 1 as [b x Ex|p p' _ IH Ep|p b _ IH|p x _ IH Ex]; [by unfold piping; cbn; rewrite Ex| |done|by apply piping_tx].
  exact (wp_elim _ _ _ _ _ (pipe_poll_post p IH) Ep).
Qed.


(** The task around the pipe lets go of the connection exactly once, at its
    end. A cancelled request resets the stream with [CANCEL] at the next poll, and
    the stream is not ended; a sender that goes away without cancelling does not
    stop the body. *)
Theorem pipe_map_ends (m : PipeMap X (Heard Bs B Hm) B) : piped (pm_pipe m) -> conn_drop_ref m = true ->
  wp (pipe_map_poll ss_spurious hb_frames) (fun o m' =>
    match o with
    | Pending => conn_drop_ref m' = true /\ piping (pm_pipe m') /\ cancel_rx m ≠ Some Cancelled
    | Ready _ => conn_drop_ref m' = false /\
        if decide (cancel_rx m = Some Cancelled)
        then exists ds, ds `prefix_of` data_of (log (pm_pipe m')) /\ ss_sent (body_tx (pm_pipe m')) = plain ds ++ [SReset R_CANCEL]
        else complete (pm_pipe m') \/ exists e, cut (pm_pipe m') e
    | _ => False
    end) m.
Proof.
  intros Hp Hd. apply piped_piping in Hp.
  assert (forall m1, pm_pipe m1 = pm_pipe m -> conn_drop_ref m1 = true ->
    wp (poll_pipe_map ss_spurious hb_frames) (fun o m' =>
      match o with
      | Pending => conn_drop_ref m' = true /\ piping (pm_pipe m')
      | Ready _ => conn_drop_ref m' = false /\ (complete (pm_pipe m') \/ exists e, cut (pm_pipe m') e)
      | _ => False
      end) m1) as Hpoll.
  { intros m1 Em Ed. unfold wp, poll_pipe_map. rewrite Em. destruct (pipe_poll _ _ (pm_pipe m)) as [p o] eqn:E.
    pose proof (wp_elim _ _ _ _ _ (pipe_poll_post _ Hp) E) as Ho.
    destruct o; try done; unfold take_drop_ref, mbind, M_bind, get; cbn; rewrite Ed; cbn; eauto. }
  unfold pipe_map_poll. do 2 wp_step. destruct (cancel_rx m) as [[| |]|] eqn:Ec.
  - eapply wp_mono; [by apply Hpoll|]. intros [] ?; try done. by intros [].
  - do 2 wp_step. unfold take_drop_ref. do 2 wp_step. cbn. rewrite Hd. wp_step. split; [done|]. cbn.
    destruct (piping_cut _ new_closed Hp) as (ds & Hpre & [Es|(c & ? & _)]); [|done]. exists ds. split; [done|]. by rewrite send_reset_law, Es.
  - do 2 wp_step. eapply wp_mono; [by apply Hpoll|]. intros [] ?; try done. by intros [].
  - eapply wp_mono; [by apply Hpoll|]. intros [] ?; try done. by intros [].
Qed.
End pipe_laws.

(** ** A concrete body and stream *)

Module ConcretePipe.
Import Concrete.

(** A body that gives its chunks one by one, and waits where the script says so. *)
Definition script : Type := list (option bytes).
#[export] Instance script_HttpBody : HttpBody script bytes hmap := {
  hb_poll_frame s :=
    match s with
    | [] => ([], Ready None)
    | None :: s => (s, Pending)
    | Some c :: s => (s, Ready (Some (FData (if len c <=? USIZE_MAX then c else []))))
    end;
  hb_is_end_stream s := match s with [] => true | _ => false end;
  hb_size_exact _ := None;
}.
#[export] Instance script_HttpBodyLaws : HttpBodyLaws script bytes hmap.
Proof.
  refine {| hb_frames := fun s : script => length s |}.
  - intros [|[c|] s] s' o; cbn; intros [= <- <-]; [done| |done]. split; [lia|]. split; [done|].
    destruct (len c <=? USIZE_MAX) eqn:E; [by zbool|by vm_compute].
  - done.
Defined.

(** A stream with a window. *)
Record wire : Type := Wire { wire_sent : list (SFrame hmap); window : Z }.
#[export] Instance wire_SendStream : SendStreamOps wire bytes hmap := {
  ss_poll_reset w := (w, Pending);
  ss_capacity w := window w;
  ss_poll_capacity w := (w, if window w =? 0 then Pending else Ready (Some (window w)));
  ss_reserve_capacity _ w := w;
  ss_send_data s eos w := (Wire (wire_sent w ++ [SData (sb_content s) eos]) (Z.max 0 (window w - len (sb_content s))), Ok tt);
  ss_send_trailers t w := (Wire (wire_sent w ++ [STrailers t]) (window w), Ok tt);
  ss_send_reset r w := Wire (wire_sent w ++ [SReset r]) (window w);
}.
#[export] Instance wire_SendStreamLaws : SendStreamLaws wire bytes hmap.
Proof.
  refine {| ss_sent := wire_sent; ss_spurious _ := 0%nat |}.
  - intros x x' o [= <- <-]. done.
  - intros x x' o. cbn. destruct (window x =? 0) eqn:E; intros [= <- <-]; [done|]. split_and!; [done..|]. zbool. congruence.
  - done.
  - intros s eos x x' r [= <- <-]. done.
  - intros t x x' r [= <- <-]. done.
  - done.
Defined.

Definition pipe0 : PipeToSendStream wire (Heard script bytes hmap) bytes :=
  pipe_new (MkHeard [Some [97; 98]; None; Some [99; 100]] [] false) (Wire [] 1).

(** The first chunk goes out, the second waits for the window. *)
Definition pipe1 : PipeToSendStream wire (Heard script bytes hmap) bytes := (pipe_poll ss_spurious hb_frames pipe0).1.
Definition pipe2 : PipeToSendStream wire (Heard script bytes hmap) bytes := (pipe_poll ss_spurious hb_frames pipe1).1.
Definition opened : PipeToSendStream wire (Heard script bytes hmap) bytes := set_body_tx (Wire (wire_sent (body_tx pipe2)) 10) pipe2.

Lemma opened_piped : piped opened.
Proof. apply piped_stream; [|done]. apply (piped_poll pipe1); [|done]. apply (piped_poll pipe0); [|done]. by apply piped_new. Qed.


(** The same, cancelled while the second chunk waits. *)
Lemma pipe_map_ends_witness :
  let m := MkPipeMap pipe2 true (Some Cancelled) in
  conn_drop_ref m = true /\
  wp (pipe_map_poll ss_spurious hb_frames) (fun o m' => o = Ready tt /\ wire_sent (body_tx (pm_pipe m')) = [SData [97; 98] false; SReset R_CANCEL]) m /\
  exists ds, ds `prefix_of` data_of (log (pm_pipe (pipe_map_poll ss_spurious hb_frames m).1)).
Proof.
  intros m. split; [done|]. split; [done|].
  assert (piped pipe2) as Hp by (apply (piped_poll pipe1); [apply (piped_poll pipe0); [by apply piped_new|done]|done]).
  pose proof (pipe_map_ends m Hp eq_refl) as Hw. unfold wp in Hw. destruct (pipe_map_poll _ _ m) as [m' o] eqn:E.
  destruct o; try done. destruct Hw as [_ Hw]. destruct (decide _) as [|Hn]; [|by destruct Hn]. destruct Hw as (ds & ? & _). by exists ds.
Defined.
End ConcretePipe.
