(* ===== verification/Http2Peer.v ===== *)
(** * Http2Peer

    [PeerSettings] of [proto/http2/client.rs]: the server's SETTINGS as the
    connection's task publishes them and the dispatching task waits for them, and
    whether the dispatching task holds requests back, which the connection's task
    watches. The two tasks run at the same time, so an operation is a [prog]: a step
    for each access to an atomic or a waker, in the order of the source. The two tasks
    interleave the steps of their calls, and no wake-up is lost. *)

From stdpp Require Import prelude.
From S2P Require Import Prelude.

(** ** Calls over shared atomics

    A call is a [prog]: its atomic steps, each a function of the shared state. Run without
    interruption it is a function ([run]); [exec] runs its first steps. *)

Section prog.
Context {W : Type}.

Inductive prog (A : Type) : Type :=
| Ret (a : A)
| Do (R : Type) (f : W -> W * R) (k : R -> prog A).
Arguments Ret {A}.
Arguments Do {A R}.

#[export] Instance prog_ret : MRet prog := @Ret.
#[export] Instance prog_bind : MBind prog := fun A B k => fix go p :=
  match p with Ret a => k a | Do f h => Do f (fun r => go (h r)) end.

(** One atomic step. *)
Definition atom {R} (f : W -> W * R) : prog R := Do f Ret.
Definition load {R} (f : W -> R) : prog R := atom (fun w => (w, f w)).
Definition store (f : W -> W) : prog unit := atom (fun w => (f w, tt)).

Fixpoint run {A} (p : prog A) (w : W) : W * A :=
  match p with Ret a => (w, a) | Do f k => let '(w, r) := f w in run (k r) w end.

Lemma run_bind {A B} (p : prog A) (k : A -> prog B) w : run (p ≫= k) w = let '(w, a) := run p w in run (k a) w.
Proof. revert w. induction p as [a|R f h IH]; intros w; [done|]. cbn. destruct (f w) as [w1 r]. apply IH. Qed.

(** The first [n] steps of a call. *)
Fixpoint exec {A} (n : nat) (p : prog A) (w : W) : W * prog A :=
  match n, p with
  | Datatypes.S n, Do f k => exec n (k (f w).2) (f w).1
  | _, _ => (w, p)
  end.
End prog.
Arguments prog : clear implicits.
Arguments Ret {W A}.
Arguments Do {W A R}.

(** ** The data *)

(** [AtomicWaker]: whether a task is registered, and the wake-ups it got. *)
Record AtomicWaker : Type := MkWaker { registered : bool; woken_times : nat }.
Definition waker_new : AtomicWaker := MkWaker false 0.
Definition waker_register (w : AtomicWaker) : AtomicWaker := MkWaker true (woken_times w).
Definition waker_wake (w : AtomicWaker) : AtomicWaker :=
  if registered w then MkWaker false (S (woken_times w)) else w.

(** [struct PeerSettings]; the byte is [None] for [UNKNOWN]. *)
Record PeerSettings : Type := MkPeer {
  ps_extended_connect : option bool; ps_waker : AtomicWaker; ps_parked : bool; ps_conn_waker : AtomicWaker }.
Definition set_extended_connect x p := MkPeer x (ps_waker p) (ps_parked p) (ps_conn_waker p).
Definition on_waker f p := MkPeer (ps_extended_connect p) (f (ps_waker p)) (ps_parked p) (ps_conn_waker p).
Definition set_ps_parked x p := MkPeer (ps_extended_connect p) (ps_waker p) x (ps_conn_waker p).
Definition on_conn_waker f p := MkPeer (ps_extended_connect p) (ps_waker p) (ps_parked p) (f (ps_conn_waker p)).

(** [PeerSettings::new]. *)
Definition peer_new : PeerSettings := MkPeer None waker_new false waker_new.

(** [extended_connect]. *)
Definition extended_connect (p : PeerSettings) : option bool := ps_extended_connect p.

(** [publish]: the value is stored, then the dispatching task is woken. *)
Definition publish_steps (enabled : bool) : prog PeerSettings unit :=
  store (set_extended_connect (Some enabled));; store (on_waker waker_wake).

(** [poll_extended_connect]: look, register, and look again; [None] is [Pending]. *)
Definition poll_extended_connect_steps : prog PeerSettings (option bool) :=
  v ← load extended_connect;
  match v with
  | Some enabled => mret (Some enabled)
  | None => store (on_waker waker_register);; load extended_connect
  end.

(** [set_parked]: the first request that is held back wakes the connection. *)
Definition set_parked_steps (parked : bool) : prog PeerSettings unit :=
  was ← atom (fun p => (set_ps_parked parked p, ps_parked p));
  if negb was && parked then store (on_conn_waker waker_wake) else mret tt.

(** [poll_parked]: register, then look. *)
Definition poll_parked_steps : prog PeerSettings bool := store (on_conn_waker waker_register);; load ps_parked.

(** The same without interruption. *)
Definition publish (enabled : bool) (p : PeerSettings) : PeerSettings := (run (publish_steps enabled) p).1.
Definition poll_extended_connect : M PeerSettings Empty_set bool := fun p =>
  match run poll_extended_connect_steps p with (p, Some enabled) => (p, Ready enabled) | (p, None) => (p, Pending) end.
Definition set_parked (parked : bool) (p : PeerSettings) : PeerSettings := (run (set_parked_steps parked) p).1.
Definition poll_parked (p : PeerSettings) : PeerSettings * bool := run poll_parked_steps p.

Lemma poll_extended_connect_run p : poll_extended_connect p = match ps_extended_connect p with Some e => (p, Ready e) | None => (on_waker waker_register p, Pending) end.
Proof. unfold poll_extended_connect. cbn. unfold extended_connect at 1. destruct (ps_extended_connect p) eqn:E; cbn; [done|]. unfold extended_connect. cbn. by rewrite E. Qed.
Lemma set_parked_run b p : set_parked b p = let p' := set_ps_parked b p in if negb (ps_parked p) && b then on_conn_waker waker_wake p' else p'.
Proof. unfold set_parked. cbn. by destruct (negb _ && b). Qed.

(** ** The two tasks *)

(** A task: the call it is in, with the wake-ups it had had when the call began, and,
    when its last poll found nothing, the wake-ups it had had at the start of that poll:
    it counts on one more. *)
Record task : Type := MkTask { call : option (nat * prog PeerSettings (option bool)); waits : option nat }.
Record world : Type := MkWorld { peer : PeerSettings; conn : task; disp : task }.

(** The calls of each; a poll returns whether it found nothing. *)
Definition find_settings : prog PeerSettings (option bool) := v ← poll_extended_connect_steps; mret (Some (match v with Some _ => false | None => true end)).
Definition find_parked : prog PeerSettings (option bool) := b ← poll_parked_steps; mret (Some (negb b)).
Inductive conn_calls : prog PeerSettings (option bool) -> Prop :=
| cc_publish e : conn_calls (publish_steps e;; mret None)
| cc_parked : conn_calls find_parked.
Inductive disp_calls : prog PeerSettings (option bool) -> Prop :=
| dc_settings : disp_calls find_settings
| dc_parked b : disp_calls (set_parked_steps b;; mret None).

(** A step of a task: it begins a call, takes a step of it, or returns. *)
Inductive task_step (calls : prog PeerSettings (option bool) -> Prop) (woken : nat) (p : PeerSettings) : task -> PeerSettings -> task -> Prop :=
| ts_begin q ws : calls q -> task_step calls woken p (MkTask None ws) p (MkTask (Some (woken, q)) ws)
| ts_atom n q ws : task_step calls woken p (MkTask (Some (n, q)) ws) (exec 1 q p).1 (MkTask (Some (n, (exec 1 q p).2)) ws)
| ts_return n r ws : task_step calls woken p (MkTask (Some (n, Ret r)) ws) p (MkTask None (match r with Some true => Some n | Some false => None | None => ws end)).

Inductive world_step : world -> world -> Prop :=
| ws_conn p c d p' c' : task_step conn_calls (woken_times (ps_conn_waker p)) p c p' c' -> world_step (MkWorld p c d) (MkWorld p' c' d)
| ws_disp p c d p' d' : task_step disp_calls (woken_times (ps_waker p)) p d p' d' -> world_step (MkWorld p c d) (MkWorld p' c d').

Definition world_new : world := MkWorld peer_new (MkTask None None) (MkTask None None).

(** The shared state once a task has finished the call it is in. *)
Definition finish (t : task) (p : PeerSettings) : PeerSettings := match call t with Some (_, q) => (run q p).1 | None => p end.

(** ** Points *)

(** Where a call can be. *)
Inductive conn_point : Type := CStore (e : bool) | CWake | CRegister | CLook | CReturn (r : option bool).
Definition conn_prog (c : conn_point) : prog PeerSettings (option bool) :=
  match c with
  | CStore e => publish_steps e;; mret None
  | CWake => store (on_waker waker_wake);; mret None
  | CRegister => find_parked
  | CLook => b ← load ps_parked; mret (Some (negb b))
  | CReturn r => Ret r
  end.
Inductive disp_point : Type := DLook | DRegister | DAgain | DSwap (b : bool) | DWake | DReturn (r : option bool).
Definition disp_prog (d : disp_point) : prog PeerSettings (option bool) :=
  match d with
  | DLook => find_settings
  | DRegister => v ← (store (on_waker waker_register);; load extended_connect); mret (Some (match v with Some _ => false | None => true end))
  | DAgain => v ← load extended_connect; mret (Some (match v with Some _ => false | None => true end))
  | DSwap b => set_parked_steps b;; mret None
  | DWake => store (on_conn_waker waker_wake);; mret None
  | DReturn r => Ret r
  end.

Lemma conn_point_step c p : exec 1 (conn_prog c) p = match c with
  | CStore e => (set_extended_connect (Some e) p, conn_prog CWake)
  | CWake => (on_waker waker_wake p, conn_prog (CReturn None))
  | CRegister => (on_conn_waker waker_register p, conn_prog CLook)
  | CLook => (p, conn_prog (CReturn (Some (negb (ps_parked p)))))
  | CReturn r => (p, conn_prog c)
  end.
Proof. by destruct c. Qed.

Lemma disp_point_step d p : exec 1 (disp_prog d) p = match d with
  | DLook => (p, disp_prog (match extended_connect p with Some _ => DReturn (Some false) | None => DRegister end))
  | DRegister => (on_waker waker_register p, disp_prog DAgain)
  | DAgain => (p, disp_prog (DReturn (Some (match extended_connect p with Some _ => false | None => true end))))
  | DSwap b => (set_ps_parked b p, disp_prog (if negb (ps_parked p) && b then DWake else DReturn None))
  | DWake => (on_conn_waker waker_wake p, disp_prog (DReturn None))
  | DReturn r => (p, disp_prog d)
  end.
Proof. destruct d as [| | |b| |r]; [cbn; by destruct (extended_connect p)|done|done|cbn; by destruct (ps_parked p), b|done|done]. Qed.

(** Whoever counts on a wake-up beyond the [n] it had is registered for it, or has had
    it; and has had it, or is about to, unless nothing has arrived. *)
Definition owed (w : AtomicWaker) (n : nat) (nothing coming : Prop) : Prop :=
  n <= woken_times w /\ (registered w = true \/ n < woken_times w) /\ (nothing \/ coming \/ n < woken_times w).

Definition at_point {A} (f : A -> prog PeerSettings (option bool)) (t : task) (a : option (nat * A)) : Prop := call t = (fun '(n, a) => (n, f a)) <$> a.

(** What a call in progress may count on. *)
Definition conn_owed (p : PeerSettings) (coming : Prop) (c : option (nat * conn_point)) : Prop :=
  match c with
  | Some (n, CLook) => n <= woken_times (ps_conn_waker p) /\ (registered (ps_conn_waker p) = true \/ n < woken_times (ps_conn_waker p))
  | Some (n, CReturn (Some true)) => owed (ps_conn_waker p) n (ps_parked p = false) coming
  | Some (n, _) => n <= woken_times (ps_conn_waker p)
  | None => True
  end.
Definition disp_owed (p : PeerSettings) (coming : Prop) (d : option (nat * disp_point)) : Prop :=
  match d with
  | Some (n, DAgain) => n <= woken_times (ps_waker p) /\ (registered (ps_waker p) = true \/ n < woken_times (ps_waker p))
  | Some (n, DReturn (Some true)) => owed (ps_waker p) n (ps_extended_connect p = None) coming
  | Some (n, _) => n <= woken_times (ps_waker p)
  | None => True
  end.
Definition publishing (c : option (nat * conn_point)) : Prop := snd <$> c = Some CWake.
Definition parking (d : option (nat * disp_point)) : Prop := snd <$> d = Some DWake.

Definition world_ok (x : world) : Prop := exists c d, at_point conn_prog (conn x) c /\ at_point disp_prog (disp x) d /\
  conn_owed (peer x) (parking d) c /\ disp_owed (peer x) (publishing c) d /\
  (forall n, waits (disp x) = Some n -> owed (ps_waker (peer x)) n (ps_extended_connect (peer x) = None) (publishing c)) /\
  (forall n, waits (conn x) = Some n -> owed (ps_conn_waker (peer x)) n (ps_parked (peer x) = false) (parking d)).

(** The wakers: what is owed stays owed when they are used. *)
Lemma owed_register w n (P Q : Prop) : owed w n P Q -> owed (waker_register w) n P Q.
Proof. unfold owed. cbn. intuition. Qed.
Lemma owed_wake w n (P Q : Prop) : n <= woken_times w /\ (registered w = true \/ n < woken_times w) -> owed (waker_wake w) n P Q.
Proof. unfold owed, waker_wake. destruct (registered w) eqn:E; cbn; rewrite ?E; intuition (try done; lia). Qed.
Lemma owed_part w n (P Q : Prop) : owed w n P Q -> n <= woken_times w /\ (registered w = true \/ n < woken_times w).
Proof. unfold owed. intuition. Qed.
Lemma owed_coming w n (P Q : Prop) : n <= woken_times w /\ (registered w = true \/ n < woken_times w) -> P \/ Q -> owed w n P Q.
Proof. unfold owed. intuition. Qed.
Lemma owed_mono w n (P Q Q' : Prop) : (Q -> Q') -> owed w n P Q -> owed w n P Q'.
Proof. unfold owed. tauto. Qed.
Lemma woken_wake w n : n <= woken_times w -> n <= woken_times (waker_wake w).
Proof. unfold waker_wake. destruct (registered w); cbn; lia. Qed.

(** The same for a call in progress. *)
Lemma disp_owed_part p Q n d : disp_owed p Q (Some (n, d)) -> n <= woken_times (ps_waker p).
Proof. destruct d as [| | |b| |[[]|]]; cbn; unfold owed; intuition. Qed.
Lemma conn_owed_part p Q n c : conn_owed p Q (Some (n, c)) -> n <= woken_times (ps_conn_waker p).
Proof. destruct c as [e| | | |[[]|]]; cbn; unfold owed; intuition. Qed.

(** What another task's step leaves of it. *)
Lemma disp_owed_store p Q Q' d e : disp_owed p Q d -> Q' -> disp_owed (set_extended_connect (Some e) p) Q' d.
Proof. destruct d as [[n [| | |b| |[[]|]]]|]; cbn; try done. intros Ho%owed_part HQ. apply owed_coming; auto. Qed.
Lemma disp_owed_wake p Q Q' d : disp_owed p Q d -> disp_owed (on_waker waker_wake p) Q' d.
Proof.
  destruct d as [[n [| | |b| |[[]|]]]|]; cbn; try done; try apply woken_wake; intros Ho; [|by eapply owed_wake, owed_part].
  apply (owed_wake _ _ True True) in Ho. by apply owed_part in Ho.
Qed.
Lemma disp_owed_same p p' (Q Q' : Prop) d : ps_waker p' = ps_waker p -> ps_extended_connect p' = ps_extended_connect p -> (Q -> Q') -> disp_owed p Q d -> disp_owed p' Q' d.
Proof. intros E1 E2 HQ. destruct d as [[n [| | |b| |[[]|]]]|]; cbn; unfold owed; rewrite ?E1, ?E2; tauto. Qed.
Lemma conn_owed_store p Q Q' c b : conn_owed p Q c -> b = false \/ Q' \/ ps_parked p = b /\ (Q -> Q') -> conn_owed (set_ps_parked b p) Q' c.
Proof.
  destruct c as [[n [e| | | |[[]|]]]|]; cbn; try done. intros Ho HQ. destruct HQ as [->|[?|[<- HQ]]]; [apply owed_coming; [by eapply owed_part|by left]|apply owed_coming; [by eapply owed_part|by right]|].
  unfold owed in *. cbn. tauto.
Qed.
Lemma conn_owed_wake p Q Q' c : conn_owed p Q c -> conn_owed (on_conn_waker waker_wake p) Q' c.
Proof.
  destruct c as [[n [e| | | |[[]|]]]|]; cbn; try done; try apply woken_wake; intros Ho; [|by eapply owed_wake, owed_part].
  apply (owed_wake _ _ True True) in Ho. by apply owed_part in Ho.
Qed.
Lemma conn_owed_same p p' (Q Q' : Prop) c : ps_conn_waker p' = ps_conn_waker p -> ps_parked p' = ps_parked p -> (Q -> Q') -> conn_owed p Q c -> conn_owed p' Q' c.
Proof. intros E1 E2 HQ. destruct c as [[n [e| | | |[[]|]]]|]; cbn; unfold owed; rewrite ?E1, ?E2; tauto. Qed.

(** The four parts of [world_ok], at given points. *)
Ltac world_at c d := exists c, d; cbn [conn disp peer call waits]; do 2 (split; [done|]); split; [|split; [|split]].

Lemma conn_step_ok p c d p' c' : task_step conn_calls (woken_times (ps_conn_waker p)) p c p' c' -> world_ok (MkWorld p c d) -> world_ok (MkWorld p' c' d).
Proof.
  intros Hs (cp & dp & Hc & Hd & Hco & Hdo & Hwd & Hwc). cbn [conn disp peer] in *. unfold at_point in *.
  destruct Hs as [q ws Hq|n q ws|n r ws]; cbn [call waits] in *.
  - assert (cp = None) as -> by (by destruct cp as [[]|]). assert (exists c0, q = conn_prog c0 /\ match c0 with CStore _ | CRegister => True | _ => False end) as (c0 & -> & Hc0).
    { destruct Hq as [e|]; [by exists (CStore e)|by exists CRegister]. }
    world_at (Some (woken_times (ps_conn_waker p), c0)) dp.
    + destruct c0; cbn; done || lia.
    + by eapply disp_owed_same; [..|exact Hdo].
    + intros n Hw. by eapply owed_mono; [|apply Hwd].
    + exact Hwc.
  - destruct cp as [[n' c0]|]; [|done]. injection Hc as <- ->. rewrite conn_point_step. destruct c0 as [e| | | |r]; cbn [fst snd].
    + world_at (Some (n, CWake)) dp; [exact Hco|by eapply disp_owed_store| |exact Hwc]. intros k Hw. apply owed_coming; [by eapply owed_part, Hwd|by right].
    + world_at (Some (n, CReturn None)) dp; [exact Hco|by eapply disp_owed_wake| |exact Hwc]. intros k Hw. by eapply owed_wake, owed_part, Hwd.
    + world_at (Some (n, CLook)) dp; [split; [exact Hco|by left]|by eapply disp_owed_same; [..|exact Hdo]| |]; intros k Hw; [by eapply owed_mono; [|apply Hwd]|by apply owed_register, Hwc].
    + world_at (Some (n, CReturn (Some (negb (ps_parked p))))) dp; [|by eapply disp_owed_same; [..|exact Hdo]| |exact Hwc].
      * destruct (ps_parked p) eqn:Ep; cbn; [by destruct Hco|]. rewrite Ep. apply owed_coming; [done|by left].
      * intros k Hw. by eapply owed_mono; [|apply Hwd].
    + by world_at (Some (n, CReturn r)) dp.
  - destruct cp as [[n' c0]|]; [|done]. injection Hc as <- Hr. assert (c0 = CReturn r) as -> by (destruct c0; try done; cbn in Hr; congruence).
    world_at (None : option (nat * conn_point)) dp; [done|by eapply disp_owed_same; [..|exact Hdo]| |]; intros k Hw; [by eapply owed_mono; [|apply Hwd]|].
    destruct r as [[]|]; [|done|by apply Hwc]. injection Hw as <-. exact Hco.
Qed.

Lemma disp_step_ok p c d p' d' : task_step disp_calls (woken_times (ps_waker p)) p d p' d' -> world_ok (MkWorld p c d) -> world_ok (MkWorld p' c d').
Proof.
  intros Hs (cp & dp & Hc & Hd & Hco & Hdo & Hwd & Hwc). cbn [conn disp peer] in *. unfold at_point in *. destruct Hs as [q ws Hq|n q ws|n r ws]; cbn [call waits] in *.
  - assert (dp = None) as -> by (by destruct dp as [[]|]). assert (exists d0, q = disp_prog d0 /\ match d0 with DLook | DSwap _ => True | _ => False end) as (d0 & -> & Hd0).
    { destruct Hq as [|b]; [by exists DLook|by exists (DSwap b)]. }
    world_at cp (Some (woken_times (ps_waker p), d0)).
    + by eapply conn_owed_same; [..|exact Hco].
    + destruct d0; cbn; done || lia.
    + exact Hwd.
    + intros n Hw. by eapply owed_mono; [|apply Hwc].
  - destruct dp as [[n' d0]|]; [|done]. injection Hd as <- ->. rewrite disp_point_step. destruct d0 as [| | |b| |r]; cbn [fst snd].
    + set (d1 := match extended_connect p with Some _ => DReturn (Some false) | None => DRegister end).
      world_at cp (Some (n, d1)); [by eapply conn_owed_same; [..|exact Hco]|unfold d1; by destruct (extended_connect p)|exact Hwd|]. intros k Hw. by eapply owed_mono; [|apply Hwc].
    + world_at cp (Some (n, DAgain)); [by eapply conn_owed_same; [..|exact Hco]|split; [exact Hdo|by left]| |]; intros k Hw; [by apply owed_register, Hwd|by eapply owed_mono; [|apply Hwc]].
    + world_at cp (Some (n, DReturn (Some (match extended_connect p with Some _ => false | None => true end)))); [by eapply conn_owed_same; [..|exact Hco]| |exact Hwd|].
      * unfold extended_connect. destruct (ps_extended_connect p) as [e|] eqn:Ee; cbn; [by destruct Hdo|]. rewrite Ee. apply owed_coming; [done|by left].
      * intros k Hw. by eapply owed_mono; [|apply Hwc].
    + set (d1 := if negb (ps_parked p) && b then DWake else DReturn None).
      assert (b = false \/ parking (Some (n, d1)) \/ ps_parked p = b) as Hb by (unfold d1, parking; destruct b, (ps_parked p); cbn; auto).
      world_at cp (Some (n, d1)).
      * eapply conn_owed_store; [exact Hco|]. destruct Hb as [?|[?|?]]; [by left|by right; left|right; right; by split].
      * unfold d1. destruct (negb _ && b); exact Hdo.
      * exact Hwd.
      * intros k Hw. specialize (Hwc k Hw). destruct Hb as [->|[?|Hb]]; [apply owed_coming; [by eapply owed_part|by left]|apply owed_coming; [by eapply owed_part|by right]|].
        cbn. rewrite Hb in Hwc. by eapply owed_mono; [|exact Hwc].
    + world_at cp (Some (n, DReturn None)); [by eapply conn_owed_wake|exact Hdo|exact Hwd|]. intros k Hw. by eapply owed_wake, owed_part, Hwc.
    + by world_at cp (Some (n, DReturn r)).
  - destruct dp as [[n' d0]|]; [|done]. injection Hd as <- Hr. assert (d0 = DReturn r) as -> by (destruct d0; try done; cbn in Hr; congruence).
    world_at cp (None : option (nat * disp_point)); [by eapply conn_owed_same; [..|exact Hco]|done| |]; intros k Hw; [|by eapply owed_mono; [|apply Hwc]].
    destruct r as [[]|]; [|done|by apply Hwd]. injection Hw as <-. exact Hdo.
Qed.

Lemma world_ok_reach x : rtc world_step world_new x -> world_ok x.
Proof.
  intros Hr. eapply (rtc_ind_r world_ok); [|intros y z _ Hs Hy|exact Hr]; [exists None, None; by split_and!|]. destruct Hs; [by eapply conn_step_ok|by eapply disp_step_ok].
Qed.

(** C20. No wake-up between the two tasks of an HTTP/2 connection is lost, however the
    atomic steps of their calls interleave. A dispatching task whose last poll found no
    SETTINGS has been woken since that poll began once they are there, at the latest
    when the connection's task has finished the publish it is in; and a connection's task
    that found no held request has been woken likewise once one is held. *)
Theorem no_lost_settings x : rtc world_step world_new x ->
  (forall n, waits (disp x) = Some n -> ps_extended_connect (peer x) ≠ None -> n < woken_times (ps_waker (finish (conn x) (peer x)))) /\
  (forall n, waits (conn x) = Some n -> ps_parked (peer x) = true -> n < woken_times (ps_conn_waker (finish (disp x) (peer x)))).
Proof.
  intros (cp & dp & Hc & Hd & _ & _ & Hwd & Hwc)%world_ok_reach. unfold finish, at_point in *. rewrite Hc, Hd. destruct x as [p c d]. cbn [peer conn disp] in *. split; intros n Hw He.
  - destruct (Hwd n Hw) as (Hle & Hreg & Hor). destruct Hor as [?|[Hp|Hlt]]; [done| |].
    + destruct cp as [[k c0]|]; [|done]. injection Hp as ->. cbn. unfold waker_wake. destruct (registered (ps_waker p)); cbn; [lia|by destruct Hreg].
    + destruct cp as [[k [e| | | |r]]|]; cbn; try done; by apply woken_wake in Hlt.
  - destruct (Hwc n Hw) as (Hle & Hreg & Hor). destruct Hor as [?|[Hp|Hlt]]; [congruence| |].
    + destruct dp as [[k d0]|]; [|done]. injection Hp as ->. cbn. unfold waker_wake. destruct (registered (ps_conn_waker p)); cbn; [lia|by destruct Hreg].
    + destruct dp as [[k [| | |b| |r]]|]; cbn; try done.
      * destruct (extended_connect p); done.
      * rewrite He. done.
      * by apply woken_wake in Hlt.
Qed.

(** ** An interleaving *)

Module ConcretePeer.
Definition asleep : task := MkTask None None.
Definition looking (d : disp_point) (p : PeerSettings) : world := MkWorld p asleep (MkTask (Some (0, disp_prog d)) None).
Definition publishing_at (c : conn_point) (p : PeerSettings) : world := MkWorld p (MkTask (Some (0, conn_prog c)) None) (MkTask None (Some 0)).
Definition noted : PeerSettings := on_waker waker_register peer_new.

(** The dispatching task registers and finds nothing; then SETTINGS are stored, and their
    publisher is stopped before it wakes anybody. *)
Lemma stored_reached : rtc world_step world_new (publishing_at CWake (set_extended_connect (Some true) noted)).
Proof.
  apply rtc_l with (looking DLook peer_new); [exact (ws_disp _ _ _ _ _ (ts_begin _ _ _ _ _ dc_settings))|].
  apply rtc_l with (looking DRegister peer_new); [exact (ws_disp _ _ _ _ _ (ts_atom _ _ _ _ _ _))|].
  apply rtc_l with (looking DAgain noted); [exact (ws_disp _ _ _ _ _ (ts_atom _ _ _ _ _ _))|].
  apply rtc_l with (looking (DReturn (Some true)) noted); [exact (ws_disp _ _ _ _ _ (ts_atom _ _ _ _ _ _))|].
  apply rtc_l with (MkWorld noted asleep (MkTask None (Some 0))); [exact (ws_disp _ _ _ _ _ (ts_return _ _ _ _ (Some true) _))|].
  apply rtc_l with (publishing_at (CStore true) noted); [exact (ws_conn _ _ _ _ _ (ts_begin _ _ _ _ _ (cc_publish true)))|].
  apply rtc_once. exact (ws_conn _ _ _ _ _ (ts_atom _ _ _ _ _ _)).
Qed.

Lemma no_lost_settings_witness : woken_times (ps_waker (set_extended_connect (Some true) noted)) = 0 /\
  0 < woken_times (ps_waker (finish (MkTask (Some (0, conn_prog CWake)) None) (set_extended_connect (Some true) noted))).
Proof. split; [reflexivity|]. apply (no_lost_settings (publishing_at CWake (set_extended_connect (Some true) noted)) stored_reached); [reflexivity|discriminate]. Defined.
End ConcretePeer.
