(* ===== verification/Http2Client.v ===== *)
(** * Http2Client

    The dispatching task of an HTTP/2 connection ([proto/http2/client.rs]):
    [ClientTask] takes requests from the channel of [DispatchChan], holds
    extended CONNECT requests back until the server's SETTINGS are known
    ([ConnectGate]), opens streams, and spawns a task for the body of each request
    ([PipeMap]) and one for its response ([SendWhen]).

    The [http2] crate's handle that opens streams, its response future and the
    receiving half of a stream are parameters. A callback is known by its number
    in the channel. *)

From stdpp Require Import prelude strings.
From Stdlib Require Import ZArith Lia.
From S2P Require Import Prelude Bytes Crates Errors Length Headers Message DispatchChan Dispatcher HttpTunnel Ping Http2Pipe Http2Peer.
Local Open Scope Z_scope.

(** ** Requests and responses *)

(** [http::Request] as the task uses it: [:protocol] and [OnPreserveHeader] are
    extensions. *)
Record Request (Hm Bs : Type) : Type := MkRequest {
  rq_method : Method; rq_uri : bytes; rq_headers : Hm; rq_protocol : option bytes; rq_sort : option (Hm -> Hm); rq_body : Bs }.
Arguments MkRequest {Hm Bs}.
Arguments rq_method {Hm Bs}.
Arguments rq_uri {Hm Bs}.
Arguments rq_headers {Hm Bs}.
Arguments rq_protocol {Hm Bs}.
Arguments rq_sort {Hm Bs}.
Arguments rq_body {Hm Bs}.

(** The head handed to [send_request]. *)
Record Head (Hm : Type) : Type := MkReqHead { hd_method : Method; hd_uri : bytes; hd_headers : Hm; hd_protocol : option bytes }.
Arguments MkReqHead {Hm}.

(** The body of a response: what the stream receives, or a tunnel over its two
    halves. *)
Inductive ResBody (X RS : Type) : Type := RBody (stream : RS) (content_length : DecodedLength) (ping : Recorder) | RUpgraded (tx : X) (rx : RS) (resettable : bool).
Arguments RBody {X RS}.
Arguments RUpgraded {X RS}.

Record Response (Hm Body : Type) : Type := MkResponse { rs_status : StatusCode; rs_headers : Hm; rs_body : Body }.
Arguments MkResponse {Hm Body}.
Arguments rs_status {Hm Body}.
Arguments rs_headers {Hm Body}.
Arguments rs_body {Hm Body}.

(** ** The [http2] crate *)

Class H2Client (SR F X RS Hm : Type) : Type := {
  h2_poll_ready : M SR H2Error unit;
  h2_send_request : Head Hm -> bool -> SR -> SR * result H2Error (F * X);
  rf_poll : M F H2Error (Response Hm RS);
  rcv_is_end_stream : RS -> bool;
}.

Definition CONNECT_UDP : bytes := Eval vm_compute in bs "connect-udp".

(** [canceled_by] and [canceled_by_timeout]. *)
Definition canceled_by (err : H2Error) : Error :=
  match h2_error_reason err, h2_error_io err with
  | Some reason, _ => err_with (CauseH2 (H2Reason reason)) new_canceled
  | None, Some io => err_with (CauseIo (IoError (io_kind io) (io_payload io))) new_canceled
  | None, None => err_with (CauseText (match err with H2Other s => s | _ => EmptyString end)) new_canceled
  end.
Definition canceled_by_timeout : Error := err_with CauseKeepAliveTimedOut new_canceled.

Section http2_client.
Context `{HeaderSyntax} `{HeaderMap Hm} {Q : Type -> Type} `{Mpsc Q} {W : Type} `{Want W}
  {Bs B X SR F RS PP : Type} `{Buf B} `{HttpBody Bs B Hm} `{SendStreamOps X B Hm} `{H2Client SR F X RS Hm}.
Abbreviation Req := (Request Hm Bs).
Abbreviation Res := (Response Hm (ResBody X RS)).
Abbreviation Chan := (Channel Q W Req Res).
Abbreviation Queued := (Req * nat)%type.

(** Bounds on the waits of a stream and the frames of a body (see [pipe_poll]). *)
Variable rounds : X -> nat.
Variable frames : Bs -> nat.

(** [refused]. *)
Definition refused (req : Req) : TrySendError Req :=
  MkTrySendError (new_user_invalid_request (CauseText "peer did not enable Extended CONNECT")) (Some req).

(** ** [ResponseFutMap] and [SendWhen] *)

(** [struct ResponseFutMap]; [cancel_tx] is the number of the task to cancel, and
    [rfm_closed] the stream it has reset or ended, as it was when it was dropped. *)
Record ResponseFutMap : Type := MkRfm {
  rfm_fut : F; rfm_ping : option Recorder; rfm_send_stream : option (option X); rfm_cancel_tx : option nat; rfm_connect_udp : bool;
  rfm_closed : option X }.

(** [struct SendWhen]. *)
Record SendWhen : Type := MkSendWhen { sw_when : ResponseFutMap; call_back : option nat }.

(** [Incoming::h2]. *)
Definition incoming_h2 (recv : RS) (content_length : DecodedLength) (ping : Recorder) : ResBody X RS :=
  RBody recv (if negb (is_exact content_length) && rcv_is_end_stream recv then ZERO else content_length) ping.

(** A response that has come, once [ping] and [send_stream] have been taken. The
    stream that is dropped or ended is the first component. *)
Definition map_response (connect_udp : bool) (ping : Recorder) (send_stream : option X) (res : Response Hm RS) :
    option X * result (Error * option Req) Res :=
  if connect_udp && is_success (rs_status res) && breaks_capsule_protocol (rs_status res) (rs_headers res) then
    (ss_send_reset R_PROTOCOL_ERROR <$> send_stream, Err (new_h2 (H2Reason R_PROTOCOL_ERROR), None))
  else
    match (if is_success (rs_status res) then send_stream else None) with
    | Some tx => (None, Ok (MkResponse (rs_status res) (rs_headers res) (RUpgraded tx (rs_body res) connect_udp)))
    | None =>
        ((fun tx => (ss_send_data SNone true tx).1) <$> send_stream,
         let content_length := content_length_parse_all (rs_headers res) in
         Ok (MkResponse (rs_status res) (rs_headers res)
           (incoming_h2 (rs_body res) (from_opt content_length) (for_stream ping (rcv_is_end_stream (rs_body res))))))
    end.

(** [<ResponseFutMap as Future>::poll]; [sh] is the shared state of the pings. *)
Definition response_poll (sh : Shared PP) : M ResponseFutMap (Error * option Req) Res := fun f =>
  let take fut closed := MkRfm fut None None (rfm_cancel_tx f) (rfm_connect_udp f) closed in
  match rf_poll (rfm_fut f) with
  | (fut, Pending) => (MkRfm fut (rfm_ping f) (rfm_send_stream f) (rfm_cancel_tx f) (rfm_connect_udp f) (rfm_closed f), Pending)
  | (fut, Panicked) => (take fut None, Panicked)
  | (fut, NoFuel) => (take fut None, NoFuel)
  | (fut, Ready res) =>
      match rfm_ping f, rfm_send_stream f with
      | Some ping, Some send_stream =>
          let '(closed, r) := map_response (rfm_connect_udp f) ping send_stream res in
          (take fut closed, match r with Ok r => Ready r | Err e => Failed e end)
      | _, _ => (take fut None, Panicked)
      end
  | (fut, Failed err) =>
      match rfm_ping f, rfm_send_stream f with
      | Some ping, Some _ =>
          (take fut None, Failed (match ensure_not_timed_out ping sh with Err e => (e, None) | Ok _ => (new_h2 err, None) end))
      | _, _ => (take fut None, Panicked)
      end
  end.

(** ** [ClientTask] *)

(** [struct FutCtx]. *)
Record FutCtx : Type := MkFutCtx { fc_is_connect : bool; fc_connect_udp : bool; fc_eos : bool; fc_fut : F; fc_body_tx : X; fc_body : Bs; fc_cb : nat }.

(** What the executor runs for the connection. *)
Inductive Task : Type := TPipe (p : PipeMap X Bs B) | TSend (s : SendWhen) | TDone.

(** [struct ClientTask] with the channel, the gate's [peer] and [parked] and the
    tasks it has spawned. [submitted] keeps the callbacks of the requests that
    were given to [send_request], with their [:protocol] and what was known of the
    server's SETTINGS then. *)
Record ClientTask : Type := MkTask {
  ct_ping : Recorder; ct_shared : Shared PP; conn_eof : bool; ct_peer : PeerSettings; gate_parked : list Queued;
  h2_tx : SR; req_rx : Chan; fut_ctx : option FutCtx; spawned : list Task;
  submitted : list (nat * (option bytes * option bool)) }.
Definition set_ct_peer x t := MkTask (ct_ping t) (ct_shared t) (conn_eof t) x (gate_parked t) (h2_tx t) (req_rx t) (fut_ctx t) (spawned t) (submitted t).
Definition set_gate_parked x t := MkTask (ct_ping t) (ct_shared t) (conn_eof t) (ct_peer t) x (h2_tx t) (req_rx t) (fut_ctx t) (spawned t) (submitted t).
Definition set_h2_tx x t := MkTask (ct_ping t) (ct_shared t) (conn_eof t) (ct_peer t) (gate_parked t) x (req_rx t) (fut_ctx t) (spawned t) (submitted t).
Definition set_req_rx x t := MkTask (ct_ping t) (ct_shared t) (conn_eof t) (ct_peer t) (gate_parked t) (h2_tx t) x (fut_ctx t) (spawned t) (submitted t).
Definition set_fut_ctx x t := MkTask (ct_ping t) (ct_shared t) (conn_eof t) (ct_peer t) (gate_parked t) (h2_tx t) (req_rx t) x (spawned t) (submitted t).
Definition set_spawned x t := MkTask (ct_ping t) (ct_shared t) (conn_eof t) (ct_peer t) (gate_parked t) (h2_tx t) (req_rx t) (fut_ctx t) x (submitted t).
Definition set_submitted x t := MkTask (ct_ping t) (ct_shared t) (conn_eof t) (ct_peer t) (gate_parked t) (h2_tx t) (req_rx t) (fut_ctx t) (spawned t) x.
Definition on_rx (f : Chan -> Chan) (t : ClientTask) : ClientTask := set_req_rx (f (req_rx t)) t.
Definition on_peer (f : PeerSettings -> PeerSettings) (t : ClientTask) : ClientTask := set_ct_peer (f (ct_peer t)) t.

(** [exec.execute_h2_future(task)]. *)
Definition spawn (k : Task) (t : ClientTask) : ClientTask := set_spawned (spawned t ++ [k]) t.

Definition Ct (E A : Type) : Type := M ClientTask E A.

(** [self.peer.poll_extended_connect(cx)]: [None] is [Pending]. *)
Definition poll_settings {E} : Ct E (option bool) := fun t =>
  match poll_extended_connect (ct_peer t) with
  | (p, Ready b) => (set_ct_peer p t, Ready (Some b))
  | (p, _) => (set_ct_peer p t, Ready None)
  end.

(** ** [ConnectGate] *)

(** [ConnectGate::admit]. *)
Definition gate_admit {E} (q : Queued) : Ct E (option Queued) :=
  match rq_protocol q.1 with
  | None => mret (Some q)
  | Some _ =>
      known ← poll_settings;
      match known with
      | Some true => mret (Some q)
      | Some false => modify (on_rx (cb_send q.2 (Err (refused q.1))));; mret None
      | None => modify (fun t => set_gate_parked (gate_parked t ++ [q]) t);; modify (on_peer (set_parked true));; mret None
      end
  end.

(** Answering parked requests one by one. *)
Definition answer_all (err : Req -> TrySendError Req) (qs : list Queued) (d : Chan) : Chan :=
  foldl (fun d q => cb_send q.2 (Err (err q.1)) d) d qs.

(** [self.parked.retain_mut(|parked| parked.poll_canceled(cx).is_pending())]:
    the envelopes that go are dropped. *)
Definition retain_waiting (t : ClientTask) : ClientTask :=
  let gone (q : Queued) := cb_canceled q.2 (req_rx t) in
  set_gate_parked (filter (fun q => gone q = false) (gate_parked t))
    (on_rx (fun d => foldl (fun d q => if gone q then envelope_drop q d else d) d (gate_parked t)) t).

(** [ConnectGate::poll_settle]. *)
Definition poll_settle {E} : Ct E unit :=
  t ← get;
  if decide (gate_parked t = []) then mret tt
  else
    known ← poll_settings;
    match known with
    | Some true => mret tt
    | Some false => modify (fun t => set_gate_parked [] (on_rx (answer_all refused (gate_parked t)) t))
    | None => modify retain_waiting
    end;;
    modify (fun t => on_peer (set_parked (negb (bool_decide (gate_parked t = [])))) t).

(** [ConnectGate::pop_enabled]. *)
Definition pop_enabled {E} : Ct E (option Queued) :=
  t ← get;
  if decide (extended_connect (ct_peer t) = Some true) then
    let next := head (gate_parked t) in
    modify (fun t => set_gate_parked (tail (gate_parked t)) t);;
    modify (fun t => on_peer (set_parked (negb (bool_decide (gate_parked t = [])))) t);;
    mret next
  else mret None.

(** [ConnectGate::release]. *)
Definition gate_release (error : Error) (t : ClientTask) : ClientTask :=
  on_peer (set_parked false) (set_gate_parked [] (on_rx (answer_all (fun req => MkTrySendError error (Some req)) (gate_parked t)) t)).

(** ** Opening a stream *)

(** [ClientTask::poll_pipe]: the body is polled once here; if it is not done it
    gets a task. Then the response gets one. *)
Definition poll_pipe {E} (f : FutCtx) : Ct E unit := fun t =>
  let send_when cancel_tx send_stream t :=
    spawn (TSend (MkSendWhen (MkRfm (fc_fut f) (Some (ct_ping t)) (Some send_stream) cancel_tx (fc_connect_udp f) None) (Some (fc_cb f)))) t in
  if negb (fc_is_connect f) then
    if negb (fc_eos f) then
      match pipe_poll rounds frames (pipe_new (fc_body f) (fc_body_tx f)) with
      | (p, Ready _) | (p, Failed _) => (send_when None None t, Ready tt)
      | (p, Pending) =>
          let id := length (spawned t) in
          (send_when (Some id) None (spawn (TPipe (MkPipeMap p true (Some NotYet))) t), Ready tt)
      | (p, Panicked) => (t, Panicked)
      | (p, NoFuel) => (t, NoFuel)
      end
    else (send_when None None t, Ready tt)
  else (send_when None (Some (fc_body_tx f)) t, Ready tt).

(** The headers of a request as it goes out, and the body's length if it is declared. *)
Definition prepare_headers (req : Req) : Hm :=
  let headers := strip_connection_headers (rq_headers req) true in
  let headers :=
    match hb_size_exact (rq_body req) with
    | Some n => if negb (n =? 0) || method_has_defined_payload_semantics (rq_method req) then set_content_length_if_missing headers n else headers
    | None => headers
    end in
  match rq_sort req with Some f => f headers | None => headers end.

(** What happens to a request the gate let through: [Some f] is a stream to go
    on with, [None] an answer already given. *)
Definition open_stream {E} (req : Req) (cb : nat) : Ct E (option FutCtx) :=
  let headers := prepare_headers req in
  let is_connect := bool_decide (rq_method req = CONNECT) in
  let eos := hb_is_end_stream (rq_body req) in
  let connect_udp := is_connect && bool_decide (rq_protocol req = Some CONNECT_UDP) in
  if is_connect && match content_length_parse_all headers with Some n => negb (n =? 0) | None => false end then
    modify (on_rx (cb_send cb (Err (MkTrySendError new_user_invalid_connect None))));; mret None
  else
    t ← get;
    modify (fun t => set_submitted (submitted t ++ [(cb, (rq_protocol req, extended_connect (ct_peer t)))]) t);;
    match h2_send_request (MkReqHead (rq_method req) (rq_uri req) headers (rq_protocol req)) (negb is_connect && eos) (h2_tx t) with
    | (sr, Ok (fut, tx)) => modify (set_h2_tx sr);; mret (Some (MkFutCtx is_connect connect_udp eos fut tx (rq_body req) cb))
    | (sr, Err err) =>
        modify (set_h2_tx sr);; modify (on_rx (cb_send cb (Err (MkTrySendError (new_h2 err) None))));; mret None
    end.

(** ** [<ClientTask as Future>::poll] *)

(** [self.h2_tx.poll_ready(cx)]. *)
Definition poll_h2_ready : Ct H2Error unit := zoom h2_tx set_h2_tx h2_poll_ready.

(** The connection failed with [err]. *)
Definition connection_failed (err : H2Error) : Ct Error Dispatched :=
  t ← get;
  match fut_ctx t with
  | Some f => modify (set_fut_ctx None);; poll_pipe f
  | None => mret tt
  end;;
  t ← get;
  match ensure_not_timed_out (ct_ping t) (ct_shared t) with
  | Err e => modify (gate_release canceled_by_timeout);; fail e
  | Ok _ =>
      modify (gate_release (canceled_by err));;
      if decide (h2_error_reason err = Some R_NO_ERROR) then mret DShutdown else fail (new_h2 err)
  end.

(** What the task dispatches next. *)
Inductive Next : Type := NRequest (q : Queued) | NEnd | NWait.

Definition next_request {E} : Ct E Next :=
  parked ← pop_enabled;
  match parked with
  | Some q => mret (NRequest q)
  | None => fun t =>
      match ds_poll_recv (E := E) (req_rx t) with
      | (d, Ready (Some q)) => (set_req_rx d t, Ready (NRequest q))
      | (d, Ready None) => (set_req_rx d t, Ready (if decide (gate_parked t = []) then NEnd else NWait))
      | (d, _) => (set_req_rx d t, Ready NWait)
      end
  end.

(** No request for now: the end of the connection's task ends this one. *)
Definition wait_or_end : Ct Error Dispatched :=
  t ← get;
  if conn_eof t then
    match ensure_not_timed_out (ct_ping t) (ct_shared t) with
    | Err e => modify (gate_release canceled_by_timeout);; fail e
    | Ok _ => mret DShutdown
    end
  else pend.

(** A stream that has been opened, or waits to be: [Ready false]. *)
Definition go_on_with (f : FutCtx) : Ct Error bool := fun t =>
  match poll_h2_ready t with
  | (t, Pending) => (set_fut_ctx (Some f) t, Ready false)
  | (t, Ready _) | (t, Failed _) => (poll_pipe f;; mret true) t
  | (t, Panicked) => (t, Panicked)
  | (t, NoFuel) => (t, NoFuel)
  end.

(** A request: [Ready true] goes on with the loop, [Ready false] waits for the
    stream to open. *)
Definition dispatch_request (q : Queued) : Ct Error bool :=
  t ← get;
  if cb_canceled q.2 (req_rx t) then modify (on_rx (cb_drop false q.2));; mret true
  else
    admitted ← gate_admit q;
    match admitted with
    | None => mret true
    | Some (req, cb) =>
        f ← open_stream req cb;
        match f with None => mret true | Some f => go_on_with f end
    end.

(** One round of the loop: [Ready None] goes on. *)
Definition dispatch_round : Ct Error (option Dispatched) :=
  poll_settle;;
  match_ready poll_h2_ready
    (fun _ =>
      t ← get;
      match fut_ctx t with
      | Some f => modify (set_fut_ctx None);; poll_pipe f;; mret None
      | None =>
          next ← next_request;
          match next with
          | NRequest q => go_on ← dispatch_request q; if go_on : bool then mret None else pend
          | NEnd => mret (Some DShutdown)
          | NWait => d ← wait_or_end; mret (Some d)
          end
      end)
    (fun err => d ← connection_failed err; mret (Some d)).

Fixpoint dispatch_loop (fuel : nat) : Ct Error Dispatched :=
  match fuel with
  | O => fun t => (t, NoFuel)
  | S fuel' => d ← dispatch_round; match d with Some d => mret d | None => dispatch_loop fuel' end
  end.

(** [queue] bounds the requests in the channel: each takes a round to dispatch,
    and one more if it has been held back. *)
Definition client_task_poll (queue : Q Queued -> nat) : Ct Error Dispatched :=
  t ← get; dispatch_loop (2 * queue (inner (req_rx t)) + length (gate_parked t) + match fut_ctx t with Some _ => 1 | None => 0 end + 1)%nat.

(** Dropping the task: the parked requests are given back, then those in the
    channel; a stream that waits to be opened is given up. *)
Definition client_task_drop (t : ClientTask) : ClientTask :=
  let t := on_peer (set_parked false) t in
  let t := set_gate_parked [] (on_rx (fun d => foldl (fun d q => envelope_drop q d) d (gate_parked t)) t) in
  let t := on_rx ds_receiver_drop t in
  match fut_ctx t with Some f => set_fut_ctx None (on_rx (cb_drop false (fc_cb f)) t) | None => t end.

(** ** The spawned tasks *)

(** [cancel_tx.send(())]: the task of the body is told, if it is still there. *)
Definition tell (c : CancelRx) (id : option nat) (t : ClientTask) : ClientTask :=
  match id with
  | Some id => set_spawned (alter (fun k => match k with TPipe p => TPipe (set_cancel_rx ((fun _ => c) <$> cancel_rx p) p) | k => k end) id (spawned t)) t
  | None => t
  end.

(** [<SendWhen as Future>::poll] of the task [id]: the answer, or the reset of a
    request whose caller has gone. *)
Definition send_when_poll (id : nat) (s : SendWhen) : Ct Empty_set unit := fun t =>
  match call_back s with
  | None => (t, Panicked)
  | Some cb =>
      let finish ans t := set_spawned (<[id := TDone]> (spawned t)) (on_rx (cb_send cb ans) t) in
      match response_poll (ct_shared t) (sw_when s) with
      | (_, Ready res) => (tell SenderGone (rfm_cancel_tx (sw_when s)) (finish (Ok res) t), Ready tt)
      | (_, Failed (error, message)) => (tell SenderGone (rfm_cancel_tx (sw_when s)) (finish (Err (MkTrySendError error message)) t), Ready tt)
      | (w, Pending) =>
          if cb_canceled cb (req_rx t) then
            (tell Cancelled (rfm_cancel_tx (sw_when s)) (finish (Err (MkTrySendError (dispatch_gone false) None)) t), Ready tt)
          else (set_spawned (<[id := TSend (MkSendWhen w (Some cb))]> (spawned t)) t, Pending)
      | (_, Panicked) => (finish (Err (MkTrySendError (dispatch_gone true) None)) t, Panicked)
      | (_, NoFuel) => (t, NoFuel)
      end
  end.

(** Polling the task [id]. *)
Definition task_poll (id : nat) : Ct Empty_set unit := fun t =>
  match spawned t !! id with
  | Some (TSend s) => send_when_poll id s t
  | Some (TPipe p) =>
      match pipe_map_poll rounds frames p with
      | (p, Pending) => (set_spawned (<[id := TPipe p]> (spawned t)) t, Pending)
      | (p, o) => (set_spawned (<[id := TDone]> (spawned t)) t, o)
      end
  | _ => (t, Ready tt)
  end.

(** The executor drops the task [id]. *)
Definition task_drop (id : nat) (t : ClientTask) : ClientTask :=
  match spawned t !! id with
  | Some (TSend s) =>
      let t := set_spawned (<[id := TDone]> (spawned t)) t in
      let t := tell SenderGone (rfm_cancel_tx (sw_when s)) t in
      match call_back s with Some cb => on_rx (cb_drop false cb) t | None => t end
  | Some (TPipe _) => set_spawned (<[id := TDone]> (spawned t)) t
  | _ => t
  end.
End http2_client.
