(* ===== verification/Http2ClientLaws.v ===== *)
(** * The HTTP/2 client: laws and theorems

    The life of a request on an HTTP/2 connection: where its callback is at any
    time ([ledger]), that every operation of the dispatching task and of the tasks
    it spawns keeps the account, and what follows for the callers. *)

From stdpp Require Import prelude strings.
From Stdlib Require Import ZArith Lia.
From S2P Require Import Prelude Bytes Crates Errors Length Headers Message DispatchChan Dispatcher HttpTunnel Ping Http2Pipe Http2PipeLaws Http2Peer Http2Client.
Local Open Scope Z_scope.

(** ** The account of callbacks *)

Section ledger.
Context {T U : Type}.
Abbreviation Answer := (result (TrySendError T) U).

(** An answer that gives the request back, and one with a response. *)
Definition returns_request (a : Answer) : bool := match a with Err (MkTrySendError _ (Some _)) => true | _ => false end.
Definition has_response (a : Answer) : bool := match a with Ok _ => true | Err _ => false end.

(** One more answer. *)
Definition with_answer (a : Answer) (id : nat) (ps : list (Promise T U)) : list (Promise T U) :=
  alter (fun p => MkPromise (answers p ++ [a]) (canceled p)) id ps.

(** [unsent] are the callbacks of requests that wait and have not been given to
    the protocol, [open] those of requests that have and are not answered,
    [sent] all that have been given to it. *)
Record ledger (unsent open sent : list nat) (ps : list (Promise T U)) : Prop := {
  lg_nodup : NoDup (unsent ++ open);
  lg_bound : forall id, id ∈ unsent ++ open ++ sent -> (id < length ps)%nat;
  lg_open : forall id, id ∈ open -> id ∈ sent;
  lg_unsent : forall id, id ∈ unsent -> id ∉ sent;
  lg_waiting : forall id p, ps !! id = Some p -> id ∈ unsent ++ open -> answers p = [];
  lg_done : forall id p, ps !! id = Some p -> id ∉ unsent ++ open -> exists a, answers p = [a] /\
    (returns_request a = true -> id ∉ sent) /\ (has_response a = true -> id ∈ sent);
}.

Lemma ledger_perm u u' o o' sent ps : u ≡ₚ u' -> o ≡ₚ o' -> ledger u o sent ps -> ledger u' o' sent ps.
Proof.
  intros Hu Ho [H1 H2 H3 H4 H5 H6]. assert (u ++ o ≡ₚ u' ++ o') as Huo by (by rewrite Hu, Ho).
  split.
  - by rewrite <-Huo.
  - intros id. rewrite <-Hu, <-Ho. apply H2.
  - intros id. rewrite <-Ho. apply H3.
  - intros id. rewrite <-Hu. apply H4.
  - intros id p. rewrite <-Huo. apply H5.
  - intros id p Hp. rewrite <-Huo. by apply H6.
Qed.

Lemma ledger_new : ledger [] [] [] [].
Proof. split; try set_solver. constructor. Qed.

(** A request is sent to the channel. *)
Lemma ledger_send u o sent ps : ledger u o sent ps -> ledger (length ps :: u) o sent (ps ++ [MkPromise [] false]).
Proof.
  intros [H1 H2 H3 H4 H5 H6]. assert (forall id, id ∈ u ++ o ++ sent -> id ≠ length ps) as Hne by (intros id Hi ->; specialize (H2 _ Hi); lia).
  split.
  - constructor; [|done]. intros Hin. apply (Hne (length ps)); [|done]. set_solver.
  - intros id Hid. rewrite length_app. cbn. destruct (decide (id = length ps)) as [->|]; [lia|]. assert (id < length ps)%nat; [apply H2; set_solver|lia].
  - done.
  - intros id [->|Hid]%elem_of_cons; [|by apply H4]. intros Hin. apply (Hne (length ps)); [|done]. set_solver.
  - intros id p Hp Hid. apply lookup_app_Some in Hp as [Hp|[Hl Hp]].
    + apply (H5 id p Hp). apply lookup_lt_Some in Hp. set_solver by lia.
    + by apply list_lookup_singleton_Some in Hp as [_ <-].
  - intros id p Hp Hid. apply lookup_app_Some in Hp as [Hp|[Hl Hp]]; [apply H6; [done|set_solver]|].
    apply list_lookup_singleton_Some in Hp as [Hp _]. exfalso. assert (id = length ps) as -> by lia. set_solver.
Qed.

(** A waiting request is answered without having been given to the protocol. *)
Lemma ledger_answer_unsent a id u o sent ps : ledger (id :: u) o sent ps -> has_response a = false -> ledger u o sent (with_answer a id ps).
Proof.
  intros [H1 H2 H3 H4 H5 H6] Ha. apply NoDup_cons in H1 as [Hni H1]. unfold with_answer. split; rewrite ?length_alter.
  - done.
  - intros x Hx. apply H2. set_solver.
  - done.
  - intros x Hx. apply H4. set_solver.
  - intros x p Hp Hx. rewrite list_lookup_alter_ne in Hp by (intros ->; done). apply (H5 x p Hp). set_solver.
  - intros x p Hp Hx. rewrite list_lookup_alter in Hp. case_decide as He.
    + subst x. destruct (ps !! id) as [p0|] eqn:E; [|done]. injection Hp as <-. rewrite (H5 _ _ E) by set_solver. exists a.
      split_and!; [done| |by rewrite Ha]. intros _. apply H4. set_solver.
    + apply (H6 x p Hp). set_solver.
Qed.

(** A request the protocol has is answered. *)
Lemma ledger_answer_open a id u o sent ps : ledger u (id :: o) sent ps -> returns_request a = false -> ledger u o sent (with_answer a id ps).
Proof.
  intros [H1 H2 H3 H4 H5 H6] Ha. assert ((id ∉ u ++ o) /\ NoDup (u ++ o)) as [Hni Hnd].
  { apply NoDup_app in H1 as (Hu & Hd & Ho). apply NoDup_cons in Ho as [? Ho]. split; [set_solver|]. apply NoDup_app. set_solver. }
  unfold with_answer. split; rewrite ?length_alter.
  - done.
  - intros x Hx. apply H2. set_solver.
  - intros x Hx. apply H3. set_solver.
  - done.
  - intros x p Hp Hx. rewrite list_lookup_alter_ne in Hp by (intros ->; done). apply (H5 x p Hp). set_solver.
  - intros x p Hp Hx. rewrite list_lookup_alter in Hp. case_decide as He.
    + subst x. destruct (ps !! id) as [p0|] eqn:E; [|done]. injection Hp as <-. rewrite (H5 _ _ E) by set_solver. exists a.
      split_and!; [done|by rewrite Ha|]. intros _. apply H3. set_solver.
    + apply (H6 x p Hp). set_solver.
Qed.

(** A waiting request is given to the protocol. *)
Lemma ledger_submit id u o sent ps : ledger (id :: u) o sent ps -> ledger u (id :: o) (sent ++ [id]) ps.
Proof.
  intros [H1 H2 H3 H4 H5 H6]. pose proof H1 as H1'. apply NoDup_cons in H1' as [Hni Hnd]. split.
  - by rewrite <-Permutation_middle.
  - intros x Hx. apply H2. set_solver.
  - set_solver.
  - intros x Hx. specialize (H4 x). set_solver.
  - intros x p Hp Hx. apply (H5 x p Hp). set_solver.
  - intros x p Hp Hx. destruct (H6 x p Hp) as (a & ? & ? & ?); [set_solver|]. exists a. split_and!; [done| |set_solver].
    assert (x ≠ id) by set_solver. set_solver.
Qed.

(** Nothing changed but who has given up. *)
Lemma ledger_same u o sent ps ps' : ledger u o sent ps -> length ps' = length ps ->
  (forall id p', ps' !! id = Some p' -> exists p, ps !! id = Some p /\ answers p' = answers p) -> ledger u o sent ps'.
Proof.
  intros [H1 H2 H3 H4 H5 H6] Hl Hp. split; rewrite ?Hl; try done.
  - intros id p' Hid. destruct (Hp _ _ Hid) as (p & Hid' & ->). by apply H5.
  - intros id p' Hid. destruct (Hp _ _ Hid) as (p & Hid' & ->). by apply H6.
Qed.
End ledger.

(** ** The dispatching task *)

(** What the protocol's handles promise: they do not panic. *)
Class H2ClientLaws (SR F X RS Hm : Type) `{H2Client SR F X RS Hm} : Prop := {
  h2_poll_ready_law sr : sound (h2_poll_ready sr).2;
  rf_poll_law f : sound (rf_poll f).2;
}.

Section task_laws.
Context `{HeaderSyntax} `{HeaderMap Hm} {Q : Type -> Type} `{MpscLaws Q} {W : Type} `{Want W}
  {Bs B X SR F RS PP : Type} `{BL : BufLaws B} `{SO : !SendStreamOps X B Hm} `{SL : !SendStreamLaws X B Hm}
  `{HB : HttpBody Bs B Hm} `{HBL : !HttpBodyLaws Bs B Hm} `{H2C : H2Client SR F X RS Hm} `{H2L : !H2ClientLaws SR F X RS Hm}.
Abbreviation Tk := (ClientTask (Hm := Hm) (Q := Q) (W := W) (Bs := Bs) (B := B) (X := X) (SR := SR) (F := F) (RS := RS) (PP := PP)).
Abbreviation Rq := (Request Hm Bs).
Implicit Types t : Tk.

Definition queued_ids t : list nat := snd <$> mpsc_items (inner (req_rx t)).
Definition parked_ids t : list nat := snd <$> gate_parked t.
Definition task_cb (k : Task (Bs := Bs) (B := B) (X := X) (F := F)) : option nat := match k with TSend s => call_back s | _ => None end.
(** A task that has not ended: the body's still refers to the connection, the
    response's has what it takes when the response comes. *)
Definition task_ok (k : Task (Bs := Bs) (B := B) (X := X) (F := F)) : Prop :=
  match k with
  | TPipe p => conn_drop_ref p = true
  | TSend s => call_back s ≠ None /\ rfm_ping (sw_when s) ≠ None /\ rfm_send_stream (sw_when s) ≠ None
  | TDone => True
  end.

Definition open_ids t : list nat := match fut_ctx t with Some f => [fc_cb f] | None => [] end ++ omap task_cb (spawned t).
Definition sent_ids t : list nat := fst <$> submitted t.

(** The account while the task has callbacks in hand: [hu] not given to the
    protocol, [ho] given to it. *)
Definition holds (hu ho : list nat) t : Prop :=
  ledger (hu ++ queued_ids t ++ parked_ids t) (ho ++ open_ids t) (sent_ids t) (promises (req_rx t)) /\
  Forall (fun x => x.2.1 ≠ None -> x.2.2 = Some true) (submitted t) /\ Forall task_ok (spawned t).

Lemma perm_rot (a : nat) l k : a :: l ++ k ≡ₚ l ++ k ++ [a].
Proof. by rewrite app_assoc, <-Permutation_cons_append. Qed.

(** Only the peer's settings, the handle of the protocol or the body of a task
    changed. *)
Definition same_account t t' : Prop :=
  queued_ids t' ≡ₚ queued_ids t /\ parked_ids t' = parked_ids t /\ open_ids t' = open_ids t /\ submitted t' = submitted t /\
  (Forall task_ok (spawned t) -> Forall task_ok (spawned t')) /\ promises (req_rx t') = promises (req_rx t).

Lemma holds_same hu ho t t' : same_account t t' -> holds hu ho t -> holds hu ho t'.
Proof.
  intros (Eq & Ep & Eo & Es & Hk & Er) (Hl & Hs & Ht). unfold holds, sent_ids. rewrite Ep, Eo, Es, Er. split; [|by split; [|apply Hk]].
  eapply ledger_perm; [|done|exact Hl]. by rewrite Eq.
Qed.

Lemma wp_poll_settings {E} (R : outcome E (option bool) -> Tk -> Prop) t :
  (forall p, ps_extended_connect p = ps_extended_connect (ct_peer t) -> R (Ready (extended_connect (ct_peer t))) (set_ct_peer p t)) -> wp poll_settings R t.
Proof.
  intros HR. unfold wp, poll_settings, extended_connect in *. rewrite poll_extended_connect_run.
  destruct (ps_extended_connect (ct_peer t)) as [b|] eqn:Ee; by apply HR.
Qed.

(** Answering a callback in hand. *)
Lemma holds_answer a id hu ho t : holds (id :: hu) ho t -> has_response a = false -> holds hu ho (on_rx (cb_send id a) t).
Proof. intros [Hl Hs] Ha. split; [|done]. by apply (ledger_answer_unsent a id). Qed.

Lemma holds_answer_open a id hu ho t : holds hu (id :: ho) t -> returns_request a = false -> holds hu ho (on_rx (cb_send id a) t).
Proof. intros [Hl Hs] Ha. split; [|done]. by apply (ledger_answer_open a id). Qed.

(** Admitting a request in hand: it is let through, answered or parked; one with
    a [:protocol] is let through only when the server has enabled it. *)
Lemma wp_gate_admit {E} (q : Rq * nat) t (R : outcome E (option (Rq * nat)) -> Tk -> Prop) : holds [q.2] [] t ->
  (forall t', holds [q.2] [] t' -> (rq_protocol q.1 ≠ None -> extended_connect (ct_peer t') = Some true) -> mpsc_items (inner (req_rx t')) = mpsc_items (inner (req_rx t)) ->
    gate_parked t' = gate_parked t -> fut_ctx t' = fut_ctx t -> R (Ready (Some q)) t') ->
  (forall t', holds [] [] t' -> mpsc_items (inner (req_rx t')) = mpsc_items (inner (req_rx t)) ->
    (length (gate_parked t') <= length (gate_parked t) + match extended_connect (ct_peer t) with None => 1 | Some _ => 0 end)%nat ->
    fut_ctx t' = fut_ctx t -> R (Ready None) t') ->
  wp (gate_admit q) R t.
Proof.
  intros Hh Hsome Hnone. unfold gate_admit. destruct (rq_protocol q.1) as [proto|] eqn:Ep; [|by apply Hsome].
  wp_step. apply wp_poll_settings. intros p Epeer. assert (holds [q.2] [] (set_ct_peer p t)) as Hh1 by (by eapply holds_same; [|exact Hh]).
  destruct (extended_connect (ct_peer t)) as [[|]|] eqn:Ee.
  - wp_step. apply Hsome; try done. intros _. unfold extended_connect in *. cbn. congruence.
  - do 3 wp_step. apply Hnone; [by apply holds_answer|done|cbn; lia|done].
  - do 2 wp_step. do 3 wp_step. apply Hnone; [|done|cbn; rewrite length_app; cbn; lia|done]. destruct Hh1 as [Hl Hs]. split; [|done].
    eapply ledger_perm; [|reflexivity|exact Hl]. unfold parked_ids, queued_ids. cbn. rewrite fmap_app. apply perm_rot.
Qed.

(** What the loop of the task still has to do. *)
Definition weight t : nat :=
  2 * length (mpsc_items (inner (req_rx t))) + length (gate_parked t) + match fut_ctx t with Some _ => 1 | None => 0 end.

(** The pipe over any body: it does not panic and comes to an end. *)
Definition pipe_left (p : PipeToSendStream X Bs B) : nat := 2 * hb_frames (stream p) + match buffered_data p with Some _ => 1 | None => 0 end.

Lemma pipe_round_sound p : wp (pipe_round ss_spurious) (fun o p' =>
  match o with Ready false => (pipe_left p' < pipe_left p)%nat | _ => sound o end) p.
Proof.
  unfold pipe_left, pipe_round. wp_step. apply wp_intro. intros p1 o1 Ec. unfold check_reset in Ec.
  destruct (ss_poll_reset (body_tx p)) as [x o] eqn:Er. apply poll_reset_law in Er as [_ Ho].
  assert (forall f (p : PipeToSendStream X Bs B), wp (on_tx (write_stream f)) (fun o p' => match o with Ready _ | Failed _ => stream p' = stream p /\ buffered_data p' = buffered_data p | _ => False end) p) as Hw.
  { intros f p0. apply wp_zoom. unfold wp, write_stream. by destruct (f (body_tx p0)) as [? []]. }
  destruct o; simplify_eq; try done. do 2 wp_step. cbn [buffered_data set_body_tx]. destruct (buffered_data p) as [pk|] eqn:Eb.
  - unfold send_buffered. do 3 wp_step. apply wp_zoom. apply wp_wait_capacity; [lia|]. intros x1 o1 _. destruct o1; try done.
    do 3 wp_step. eapply wp_mono; [apply Hw|]. intros o2 p2. destruct o2; try done. intros [E1 E2]. wp_step. rewrite E1, E2. destruct (is_eos pk); [done|]. cbn. lia.
  - wp_step. apply wp_zoom. apply wp_intro. intros b o2 Ef. cbn in Ef. apply hb_poll_frame_spec in Ef. destruct o2 as [[f|]|c| | |]; try done.
    + destruct Ef as [Hlt _]. destruct f as [c|tr|]; cbn [pipe_frame].
      * do 2 wp_step. destruct (remaining c =? 0).
        -- wp_step. eapply wp_mono; [apply Hw|]. intros o2 p2. destruct o2; try done. intros [E1 E2]. wp_step. destruct (hb_is_end_stream _); [done|]. rewrite E1, E2. cbn. rewrite Eb. lia.
        -- do 3 wp_step. do 2 wp_step. cbn. lia.
      * do 2 wp_step. wp_step. eapply wp_mono; [apply Hw|]. intros o2 p2. by destruct o2.
      * wp_step. cbn. rewrite Eb. lia.
    + wp_step. eapply wp_mono; [apply Hw|]. intros o2 p2. by destruct o2.
Qed.

Lemma pipe_poll_sound p : sound (pipe_poll ss_spurious hb_frames p).2.
Proof.
  assert (forall fuel p, (pipe_left p < fuel)%nat -> sound (pipe_loop ss_spurious fuel p).2) as Hloop.
  { induction fuel as [|fuel IH]; intros p0 Hf; [lia|]. cbn [pipe_loop]. unfold mbind, M_bind. pose proof (pipe_round_sound p0) as Hr. unfold wp in Hr.
    destruct (pipe_round _ p0) as [p1 [[|]|e| | |]]; try done. apply IH. lia. }
  unfold pipe_poll, mbind, M_bind, get. cbn [fst snd]. apply Hloop. unfold pipe_left. destruct (buffered_data p); lia.
Qed.

(** Handing a stream over to its tasks. *)
Lemma wp_poll_pipe {E} f t (R : outcome E unit -> Tk -> Prop) : holds [] [fc_cb f] t ->
  (forall t', holds [] [] t' -> mpsc_items (inner (req_rx t')) = mpsc_items (inner (req_rx t)) -> gate_parked t' = gate_parked t ->
    fut_ctx t' = fut_ctx t -> R (Ready tt) t') ->
  wp (poll_pipe ss_spurious hb_frames f) R t.
Proof.
  intros Hh HR. unfold wp, poll_pipe.
  assert (forall ks s, omap task_cb ks = [] -> call_back s = Some (fc_cb f) -> Forall task_ok ks -> task_ok (TSend s) ->
    R (Ready tt) (set_spawned (spawned t ++ ks ++ [TSend s]) t)) as Hsp.
  { intros ks s Ek Ec Hks Hk. apply HR; try done. destruct Hh as (Hl & Hs & Ht). split; [|split; [done|]; cbn; by rewrite !Forall_app, Forall_singleton]. eapply ledger_perm; [reflexivity| |exact Hl].
    unfold open_ids. cbn. rewrite !omap_app, Ek. cbn. rewrite Ec. apply perm_rot. }
  destruct (fc_is_connect f); cbn [negb]; [by apply (Hsp []); [..|constructor|]|]. destruct (fc_eos f); cbn [negb]; [by apply (Hsp []); [..|constructor|]|].
  pose proof (pipe_poll_sound (pipe_new (fc_body f) (fc_body_tx f))) as Hp. destruct (pipe_poll _ _ _) as [p o]. destruct o; try done; [by apply (Hsp []); [..|constructor|]..|].
  specialize (Hsp [TPipe (MkPipeMap p true (Some NotYet))]). unfold spawn. cbn. rewrite <-app_assoc. apply Hsp; [done|done|by constructor|done].
Qed.

(** Polling the protocol's handle. *)
Lemma wp_poll_h2_ready t (R : outcome H2Error unit -> Tk -> Prop) :
  (forall sr o, sound o -> R o (set_h2_tx sr t)) -> wp poll_h2_ready R t.
Proof.
  intros HR. apply wp_zoom. unfold wp. pose proof (h2_poll_ready_law (h2_tx t)) as Hs. destruct (h2_poll_ready (h2_tx t)) as [sr o]. by apply HR.
Qed.

(** Giving a request in hand to the protocol. *)
Lemma wp_open_stream {E} (req : Rq) cb t (R : outcome E (option FutCtx) -> Tk -> Prop) : holds [cb] [] t ->
  (rq_protocol req ≠ None -> extended_connect (ct_peer t) = Some true) ->
  (forall t' f, match f with Some f => fc_cb f = cb /\ holds [] [cb] t' | None => holds [] [] t' end ->
    mpsc_items (inner (req_rx t')) = mpsc_items (inner (req_rx t)) -> gate_parked t' = gate_parked t -> fut_ctx t' = fut_ctx t -> R (Ready f) t') ->
  wp (open_stream req cb) R t.
Proof.
  intros Hh Hproto HR. unfold open_stream.
  destruct (_ && _); [do 3 wp_step; by apply HR; [apply holds_answer|..]|]. do 2 wp_step. do 2 wp_step.
  assert (holds [] [cb] (set_submitted (submitted t ++ [(cb, (rq_protocol req, extended_connect (ct_peer t)))]) t)) as Hs.
  { destruct Hh as (Hl & Hf & Ht). split; [|split; [apply Forall_app; split; [done|]; by constructor|done]].
    unfold sent_ids. cbn. rewrite fmap_app. apply ledger_submit. exact Hl. }
  destruct (h2_send_request _ _ _) as [sr [[fut tx]|err]].
  - do 3 wp_step. by apply HR.
  - do 2 wp_step. do 3 wp_step. apply HR; [|done..]. by apply holds_answer_open.
Qed.

(** Answering parked requests. *)
Lemma ledger_answer_all (err : Rq -> TrySendError Rq) (qs : list (Rq * nat)) u o sent : forall (d : Channel Q W Rq (Response Hm (ResBody X RS))),
  ledger (u ++ (snd <$> qs)) o sent (promises d) -> ledger u o sent (promises (answer_all err qs d)) /\ inner (answer_all err qs d) = inner d.
Proof.
  induction qs as [|q qs IH]; intros d Hl; cbn in *; [by rewrite app_nil_r in Hl|].
  destruct (IH (cb_send q.2 (Err (err q.1)) d)) as [? Ei]; [|by split; [|exact Ei]].
  apply (ledger_answer_unsent (Err (err q.1)) q.2); [|done]. eapply ledger_perm; [|reflexivity|exact Hl]. by rewrite <-Permutation_middle.
Qed.

Lemma holds_answer_all err hu ho t : holds hu ho t ->
  holds hu ho (set_gate_parked [] (on_rx (answer_all err (gate_parked t)) t)) /\ inner (req_rx (on_rx (answer_all err (gate_parked t)) t)) = inner (req_rx t).
Proof.
  intros [Hl Hs]. unfold holds, queued_ids, parked_ids in *. cbn in *. rewrite app_assoc in Hl.
  destruct (ledger_answer_all err _ _ _ _ _ Hl) as [Hl' Ei]. rewrite Ei, app_nil_r. done.
Qed.

(** Dropping the envelopes of callers that have gone. *)
Lemma retain_ledger (gone : Rq * nat -> bool) (qs : list (Rq * nat)) o sent : forall u (d : Channel Q W Rq (Response Hm (ResBody X RS))),
  ledger (u ++ (snd <$> qs)) o sent (promises d) ->
  let d' := foldl (fun d q => if gone q then envelope_drop q d else d) d qs in
  ledger (u ++ (snd <$> filter (fun q => gone q = false) qs)) o sent (promises d') /\ inner d' = inner d.
Proof.
  induction qs as [|q qs IH]; intros u d Hl; [done|]. cbn [foldl]. rewrite filter_cons. cbn [fmap list_fmap] in Hl. destruct (gone q) eqn:Eg.
  - rewrite decide_False by done. destruct (IH u (envelope_drop q d)) as [? Ei]; [|by split; [|exact Ei]].
    apply (ledger_answer_unsent (Err _) q.2); [|done]. eapply ledger_perm; [|reflexivity|exact Hl]. by rewrite <-Permutation_middle.
  - rewrite decide_True by done. destruct (IH (q.2 :: u) d) as [Hl' Ei]; [eapply ledger_perm; [|reflexivity|exact Hl]; by rewrite <-Permutation_middle|].
    split; [|exact Ei]. eapply ledger_perm; [|reflexivity|exact Hl']. cbn. by rewrite <-Permutation_middle.
Qed.

(** What an operation of the gate leaves: the account, and no more to do. *)
Definition settled hu ho t t' : Prop :=
  holds hu ho t' /\ mpsc_items (inner (req_rx t')) = mpsc_items (inner (req_rx t)) /\ (length (gate_parked t') <= length (gate_parked t))%nat /\ fut_ctx t' = fut_ctx t.

Lemma settled_peer hu ho t t' f : settled hu ho t t' -> settled hu ho t (on_peer f t').
Proof. intros (Hh & ? & ? & ?). split_and!; done. Qed.

Lemma wp_poll_settle {E} t (R : outcome E unit -> Tk -> Prop) : holds [] [] t -> (forall t', settled [] [] t t' -> R (Ready tt) t') -> wp poll_settle R t.
Proof.
  intros Hh HR. unfold poll_settle. do 2 wp_step. destruct (decide (gate_parked t = [])) as [Ep|Ep]; [wp_step; by apply HR|].
  wp_step. apply wp_poll_settings. intros p _. set (t1 := set_ct_peer p t).
  assert (holds [] [] t1) as Hh1 by (by eapply holds_same; [|exact Hh]).
  assert (forall t2, settled [] [] t t2 -> wp (modify (fun t => on_peer (set_parked (negb (bool_decide (gate_parked t = [])))) t)) R t2) as Hfin.
  { intros t2 Ht2. wp_step. apply HR. by apply settled_peer. }
  wp_step. destruct (extended_connect (ct_peer t)) as [[|]|]; wp_step; apply Hfin.
  - by split_and!.
  - destruct (holds_answer_all refused [] [] t1 Hh1) as [? Ei]. split_and!; [done|cbn in *; by rewrite Ei|cbn; lia|done].
  - destruct Hh1 as [Hl Hs]. unfold holds, queued_ids, parked_ids in Hl. rewrite app_nil_l in Hl.
    destruct (retain_ledger (fun q => cb_canceled q.2 (req_rx t1)) (gate_parked t1) _ _ _ _ Hl) as [Hl' Ei]. split_and!.
    + split; [|done]. unfold queued_ids, parked_ids. cbn in *. by rewrite Ei.
    + cbn in *. by rewrite Ei.
    + cbn. apply length_filter.
    + done.
Qed.

(** What comes next, with its callback in hand: a request that was held back,
    once the server has enabled it, or one from the channel. *)
Definition taken t t' : Prop :=
  (extended_connect (ct_peer t') = Some true /\ mpsc_items (inner (req_rx t')) = mpsc_items (inner (req_rx t)) /\ S (length (gate_parked t')) = length (gate_parked t)) \/
  (length (mpsc_items (inner (req_rx t))) = S (length (mpsc_items (inner (req_rx t')))) /\ gate_parked t' = gate_parked t).

Lemma wp_poll_queue {E} t (R : outcome E (Next (Hm := Hm) (Bs := Bs)) -> Tk -> Prop) : holds [] [] t ->
  (forall t' n, holds match n with NRequest q => [q.2] | _ => [] end [] t' -> fut_ctx t' = fut_ctx t ->
    (match n with NRequest q => length (mpsc_items (inner (req_rx t))) = S (length (mpsc_items (inner (req_rx t')))) /\ gate_parked t' = gate_parked t | _ => True end) ->
    R (Ready n) t') ->
  wp (fun t => match ds_poll_recv (E := E) (req_rx t) with
      | (d, Ready (Some q)) => (set_req_rx d t, Ready (NRequest q))
      | (d, Ready None) => (set_req_rx d t, Ready (if decide (gate_parked t = []) then NEnd else NWait))
      | (d, _) => (set_req_rx d t, Ready NWait) end) R t.
Proof.
  intros [Hl Hs] HR. unfold wp, ds_poll_recv. destruct (mpsc_poll_recv (inner (req_rx t))) as [q r] eqn:Er.
  apply mpsc_poll_recv_spec in Er as [_ Hr]. unfold holds, queued_ids in *. destruct r as [[q1|]|]; cbn.
  - apply HR; [|done|cbn; by rewrite Hr]. split; [|done]. cbn. rewrite Hr in Hl. exact Hl.
  - destruct Hr as (E1 & E2 & _). assert (snd <$> mpsc_items q = snd <$> mpsc_items (inner (req_rx t))) as Eq by (by rewrite E1, E2).
    apply HR; [|done|by case_decide]. case_decide; (split; [|done]); cbn; by rewrite Eq.
  - destruct Hr as (E1 & E2 & _). apply HR; [|done|done]. split; [|done]. cbn. by rewrite E2, <-E1.
Qed.

Lemma wp_next_request {E} t (R : outcome E (Next (Hm := Hm) (Bs := Bs)) -> Tk -> Prop) : holds [] [] t ->
  (forall t' n, holds match n with NRequest q => [q.2] | _ => [] end [] t' -> fut_ctx t' = fut_ctx t ->
    (match n with NRequest q => taken t t' | _ => True end) -> R (Ready n) t') ->
  wp next_request R t.
Proof.
  intros Hh HR. unfold next_request. wp_step. unfold pop_enabled. do 2 wp_step.
  assert (forall t1, holds [] [] t1 -> mpsc_items (inner (req_rx t1)) = mpsc_items (inner (req_rx t)) -> gate_parked t1 = gate_parked t -> fut_ctx t1 = fut_ctx t ->
    wp (fun t => match ds_poll_recv (E := E) (req_rx t) with
      | (d, Ready (Some q)) => (set_req_rx d t, Ready (NRequest q))
      | (d, Ready None) => (set_req_rx d t, Ready (if decide (gate_parked t = []) then NEnd else NWait))
      | (d, _) => (set_req_rx d t, Ready NWait) end) R t1) as Hq.
  { intros t1 Hh1 E1 E2 E3. apply wp_poll_queue; [done|]. intros t' n Hn Ef Ht. apply HR; [done|congruence|]. destruct n as [q| |]; try done.
    right. rewrite <-E1, <-E2. done. }
  destruct (decide _) as [Ee|_]; [|wp_step; by apply Hq]. do 2 wp_step. do 3 wp_step.
  destruct (gate_parked t) as [|q qs] eqn:Ep; cbn [head].
  - apply Hq; try done. eapply holds_same; [|exact Hh]. unfold same_account, parked_ids. cbn. by rewrite Ep.
  - wp_step. apply HR; [|done|].
    + destruct Hh as [Hl Hs]. split; [|done]. eapply ledger_perm; [|reflexivity|exact Hl]. unfold queued_ids, parked_ids. cbn. rewrite Ep. cbn. by rewrite <-Permutation_middle.
    + left. split_and!; [|done|cbn; by rewrite Ep]. unfold extended_connect in *. cbn. rewrite set_parked_run. by destruct (negb _ && _).
Qed.

Lemma holds_release e t : holds [] [] t -> holds [] [] (gate_release e t).
Proof. intros Hh. destruct (holds_answer_all (fun req => MkTrySendError e (Some req)) [] [] t Hh) as [? _]. done. Qed.

(** Taking the stream that waits to be opened in hand. *)
Lemma holds_take_fut f t : fut_ctx t = Some f -> holds [] [] t -> holds [] [fc_cb f] (set_fut_ctx None t).
Proof. intros Ef [Hl Hs]. split; [|done]. unfold open_ids in *. rewrite Ef in Hl. exact Hl. Qed.

Lemma holds_put_fut f t : fut_ctx t = None -> holds [] [fc_cb f] t -> holds [] [] (set_fut_ctx (Some f) t).
Proof. intros Ef [Hl Hs]. split; [|done]. unfold open_ids in *. rewrite Ef in Hl. exact Hl. Qed.

(** The task may end or wait, with nothing in hand. *)
Definition rests (o : outcome Error Dispatched) t : Prop := sound o /\ holds [] [] t.

Lemma wp_connection_failed err t : holds [] [] t -> wp (connection_failed ss_spurious hb_frames err) rests t.
Proof.
  intros Hh. unfold connection_failed. do 3 wp_step.
  assert (forall t1, holds [] [] t1 -> wp (t ← get;
    match ensure_not_timed_out (ct_ping t) (ct_shared t) with
    | Err e => modify (gate_release canceled_by_timeout);; fail e
    | Ok _ => modify (gate_release (canceled_by err));; if decide (h2_error_reason err = Some R_NO_ERROR) then mret DShutdown else fail (new_h2 err)
    end) rests t1) as Hend.
  { intros t1 Hh1. do 2 wp_step. destruct (ensure_not_timed_out _ _); do 2 wp_step; [case_decide|]; wp_step; (split; [done|by apply holds_release]). }
  destruct (fut_ctx t) as [f|] eqn:Ef; [|wp_step; by apply Hend]. do 2 wp_step.
  apply wp_poll_pipe; [by apply holds_take_fut|]. intros t1 Hh1 _ _ _. by apply Hend.
Qed.

Lemma wp_wait_or_end t : holds [] [] t -> wp wait_or_end rests t.
Proof.
  intros Hh. unfold wait_or_end. do 2 wp_step. destruct (conn_eof t); [|by wp_step].
  destruct (ensure_not_timed_out _ _); [by wp_step|]. do 2 wp_step. wp_step. split; [done|by apply holds_release].
Qed.

(** Going on with the loop means less to do. *)
Definition goes_on (w : nat) (o : outcome Error bool) t : Prop :=
  match o with
  | Ready true => holds [] [] t /\ fut_ctx t = None /\ (weight t < w)%nat
  | Ready false => holds [] [] t
  | _ => False
  end.

Lemma wp_go_on_with f t w : holds [] [fc_cb f] t -> fut_ctx t = None -> (weight t < w)%nat -> wp (go_on_with ss_spurious hb_frames f) (goes_on w) t.
Proof.
  intros Hh Ef Hw. apply wp_intro. intros t2 o2 E2. unfold go_on_with in E2. destruct (poll_h2_ready t) as [t1 o] eqn:E1.
  assert (sound o /\ exists sr, t1 = set_h2_tx sr t) as [Ho [sr ->]].
  { assert (wp poll_h2_ready (fun o t1 => sound o /\ exists sr, t1 = set_h2_tx sr t) t) as Hr by (apply wp_poll_h2_ready; eauto).
    unfold wp in Hr. by rewrite E1 in Hr. }
  assert (holds [] [fc_cb f] (set_h2_tx sr t)) as Hh1 by (by eapply holds_same; [|exact Hh]).
  assert ((poll_pipe ss_spurious hb_frames f;; mret true) (set_h2_tx sr t) = (t2, o2) -> goes_on w o2 t2) as Hpipe.
  { apply wp_elim. wp_step. apply wp_poll_pipe; [done|]. intros t' Hh' Eq Ep Ef'. wp_step. split_and!; [done|by rewrite Ef'|].
    eapply Nat.le_lt_trans; [|exact Hw]. unfold weight. rewrite Eq, Ep, Ef'. cbn. lia. }
  destruct o; try done; [by apply Hpipe..|]. simplify_eq. by apply holds_put_fut.
Qed.

Lemma wp_dispatch_request q t w : holds [q.2] [] t -> fut_ctx t = None ->
  (2 * length (mpsc_items (inner (req_rx t))) + length (gate_parked t) + match extended_connect (ct_peer t) with None => 1 | Some _ => 0 end < w)%nat ->
  wp (dispatch_request ss_spurious hb_frames q) (goes_on w) t.
Proof.
  intros Hh Ef Hw. unfold dispatch_request. do 2 wp_step. destruct (cb_canceled _ _).
  { do 3 wp_step. split_and!; [by apply holds_answer|done|]. unfold weight. cbn. rewrite Ef. lia. }
  wp_step. apply wp_gate_admit; [done| |].
  - intros t1 Hh1 Hproto E1 E2 E3. destruct q as [req cb]. wp_step. apply wp_open_stream; [done|done|].
    intros t2 f Hf E4 E5 E6. assert (weight t2 < w)%nat as Hw2 by (unfold weight; rewrite E4, E5, E6, E1, E2, E3, Ef; lia).
    destruct f as [f|]; [|wp_step; by split_and!; [|congruence|]]. destruct Hf as [Ecb Hf]. apply wp_go_on_with; [by rewrite Ecb|congruence|done].
  - intros t1 Hh1 E1 E2 E3. wp_step. split_and!; [done|congruence|]. unfold weight. rewrite E1, E3, Ef. lia.
Qed.

Definition round_ok (w : nat) (o : outcome Error (option Dispatched)) t : Prop :=
  match o with Ready None => holds [] [] t /\ (weight t < w)%nat | _ => sound o /\ holds [] [] t end.

Lemma rests_round w (m : Ct Error Dispatched) t : wp m rests t -> wp (d ← m; mret (Some d)) (round_ok w) t.
Proof. intros Hwp. wp_step. eapply wp_mono; [exact Hwp|]. intros [] t' [Ho Hh]; done. Qed.

Lemma wp_dispatch_round t : holds [] [] t -> wp (dispatch_round ss_spurious hb_frames) (round_ok (weight t)) t.
Proof.
  intros Hh. unfold dispatch_round. wp_step. apply wp_poll_settle; [done|]. intros t1 (Hh1 & E1 & E2 & E3). wp_step. apply wp_poll_h2_ready. intros sr o Ho.
  set (t2 := set_h2_tx sr t1). assert (holds [] [] t2) as Hh2 by (by eapply holds_same; [|exact Hh1]).
  assert (weight t2 <= weight t)%nat as Hw2 by (unfold weight; cbn; rewrite E1, E3; lia).
  destruct o as [u|err| | |]; try done; [|by apply rests_round, wp_connection_failed]. do 2 wp_step. destruct (fut_ctx t2) as [f|] eqn:Ef.
  - do 3 wp_step. apply wp_poll_pipe; [by apply holds_take_fut|]. intros t3 Hh3 E4 E5 E6. wp_step. split; [done|].
    eapply Nat.lt_le_trans; [|exact Hw2]. unfold weight. rewrite E4, E5, E6, Ef. cbn. lia.
  - wp_step. apply wp_next_request; [done|]. intros t3 n Hh3 Ef3 Htk. destruct n as [q| |]; [|wp_step; by split|by apply rests_round, wp_wait_or_end].
    wp_step. eapply wp_mono; [apply (wp_dispatch_request q t3 (weight t)); [done|congruence|]|].
    + eapply Nat.lt_le_trans; [|exact Hw2]. unfold weight. rewrite Ef. destruct Htk as [(-> & -> & ?)|[-> ->]]; [lia|destruct (extended_connect _); lia].
    + intros [[|]| | | |] t4 Ht4; try done. by destruct Ht4 as (? & _ & ?).
Qed.

Lemma wp_dispatch_loop fuel : forall t, holds [] [] t -> (weight t < fuel)%nat -> wp (dispatch_loop ss_spurious hb_frames fuel) rests t.
Proof.
  induction fuel as [|fuel IH]; intros t Hh Hf; [lia|]. cbn [dispatch_loop]. wp_step. eapply wp_mono; [by apply wp_dispatch_round|].
  intros o t1 Ho. destruct o as [[d|]| | | |]; try done. destruct Ho as [Hh1 Hw]. apply IH; [done|lia].
Qed.

(** The requests in the channel bound the rounds. *)
Definition queue_len (q : Q (Rq * nat)) : nat := length (mpsc_items q).

Lemma wp_client_task_poll t : holds [] [] t -> wp (client_task_poll ss_spurious hb_frames queue_len) rests t.
Proof. intros Hh. unfold client_task_poll. do 2 wp_step. apply wp_dispatch_loop; [done|]. unfold weight, queue_len. lia. Qed.
End task_laws.
