(* ===== verification/Http2ClientTheorems.v ===== *)
(** * The HTTP/2 client: theorems

    Everything that can happen to the dispatching task of an HTTP/2 connection and
    to the tasks it spawns ([h2_step]), and what holds in every state that is
    reached: what becomes of a request, and that the task comes to rest whenever it
    is polled. *)

From stdpp Require Import prelude strings.
From Stdlib Require Import ZArith Lia.
From S2P Require Import Prelude Bytes Crates Errors Length Headers Message DispatchChan Client Dispatcher HttpTunnel Ping Http2Pipe Http2PipeLaws Http2Peer Http2Client Http2ClientLaws.
Local Open Scope Z_scope.

(** ** Replacing a task *)

Section replace.
Context {A : Type}.
Implicit Types (l : list A) (f : A -> option nat).

Lemma omap_insert_none f l i x y n : l !! i = Some x -> f x = Some n -> f y = None -> omap f l ≡ₚ n :: omap f (<[i := y]> l).
Proof.
  intros Hi Hx Hy. rewrite (insert_take_drop l i y) by (by eapply lookup_lt_Some).
  rewrite <-(take_drop_middle l i x Hi) at 1. rewrite !omap_app. cbn. rewrite Hx, Hy. by rewrite <-Permutation_middle.
Qed.

Lemma omap_insert_same f l i x y : l !! i = Some x -> f y = f x -> omap f (<[i := y]> l) = omap f l.
Proof.
  intros Hi Hy. rewrite (insert_take_drop l i y) by (by eapply lookup_lt_Some).
  rewrite <-(take_drop_middle l i x Hi) at 3. rewrite !omap_app. cbn. by rewrite Hy.
Qed.

Lemma omap_alter_same f g l i : (forall x, f (g x) = f x) -> omap f (alter g i l) = omap f l.
Proof.
  intros Hg. revert i. induction l as [|x l IH]; intros [|i]; cbn; [done..|by rewrite Hg|]. change (match f x with Some y => y :: omap f (alter g i l) | None => omap f (alter g i l) end = match f x with Some y => y :: omap f l | None => omap f l end).
  by rewrite IH.
Qed.
End replace.

Section run.
Context `{HeaderSyntax} `{HeaderMap Hm} {Q : Type -> Type} `{MpscLaws Q} {W : Type} `{Want W}
  {Bs B X SR F RS PP : Type} `{BL : BufLaws B} `{SO : !SendStreamOps X B Hm} `{SL : !SendStreamLaws X B Hm}
  `{HB : HttpBody Bs B Hm} `{HBL : !HttpBodyLaws Bs B Hm} `{H2C : H2Client SR F X RS Hm} `{H2L : !H2ClientLaws SR F X RS Hm}.
Abbreviation Tk := (ClientTask (Hm := Hm) (Q := Q) (W := W) (Bs := Bs) (B := B) (X := X) (SR := SR) (F := F) (RS := RS) (PP := PP)).
Abbreviation Rq := (Request Hm Bs).
Abbreviation Tsk := (Task (Bs := Bs) (B := B) (X := X) (F := F)).
Implicit Types t : Tk.

(** ** What keeps the account *)

Lemma holds_send req d cb t : holds [] [] t -> unbounded_try_send req (req_rx t) = (d, Ready cb) -> holds [] [] (set_req_rx d t).
Proof.
  intros (Hl & Hs & Ht) E. unfold unbounded_try_send, send_envelope in E. pose proof (mpsc_send_spec (req, length (promises (req_rx t))) (inner (req_rx t))) as Hq.
  destruct (mpsc_send _ _) as [q|]; [|done]. simplify_eq. destruct Hq as (_ & _ & Eq). split; [|done]. unfold queued_ids, parked_ids in *. cbn.
  rewrite Eq, fmap_app. eapply ledger_perm; [|reflexivity|apply ledger_send, Hl]. cbn. rewrite <-app_assoc. apply Permutation_middle.
Qed.

Lemma holds_give_up cb t : holds [] [] t -> holds [] [] (on_rx (ds_give_up cb) t).
Proof.
  intros (Hl & Hs & Ht). split; [|done]. cbn. eapply ledger_same; [exact Hl|apply length_alter|].
  intros id p' Hp. rewrite list_lookup_alter in Hp. case_decide; [|by exists p']. subst. destruct (promises (req_rx t) !! id) as [p|]; [|done]. cbn in Hp. simplify_eq. by exists p.
Qed.

(** Dropping envelopes. *)
Lemma ledger_drop_all (qs : list (Rq * nat)) u o sent : forall (d : Channel Q W Rq (Response Hm (ResBody X RS))),
  ledger (u ++ (snd <$> qs)) o sent (promises d) ->
  ledger u o sent (promises (foldl (fun d q => envelope_drop q d) d qs)) /\ inner (foldl (fun d q => envelope_drop q d) d qs) = inner d.
Proof.
  induction qs as [|q qs IH]; intros d Hl; cbn in *; [by rewrite app_nil_r in Hl|].
  destruct (IH (envelope_drop q d)) as [? Ei]; [|by split; [|exact Ei]].
  apply (ledger_answer_unsent (Err _) q.2); [|done]. eapply ledger_perm; [|reflexivity|exact Hl]. by rewrite <-Permutation_middle.
Qed.

(** When the dispatching task is dropped only the tasks of responses have callers
    left. *)
Lemma holds_drop t : holds [] [] t ->
  holds [] [] (client_task_drop t) /\ queued_ids (client_task_drop t) = [] /\ parked_ids (client_task_drop t) = [] /\ fut_ctx (client_task_drop t) = None.
Proof.
  intros (Hl & Hs & Ht). unfold client_task_drop. set (t1 := set_gate_parked [] _). set (t2 := on_rx ds_receiver_drop t1).
  assert (holds [] [] t1) as (Hl1 & _).
  { unfold holds, queued_ids, parked_ids in *. cbn in *. destruct (ledger_drop_all (gate_parked t) (snd <$> mpsc_items (inner (req_rx t))) _ _ _ Hl) as [Hl' Ei].
    rewrite Ei, app_nil_r. done. }
  assert (holds [] [] t2 /\ queued_ids t2 = []) as [Hh2 Eq].
  { unfold t2, on_rx, ds_receiver_drop, holds, queued_ids, parked_ids in *. cbn in *. destruct (mpsc_drop _) as [q es] eqn:E. apply mpsc_drop_spec in E as (-> & Eq & _).
    rewrite app_nil_r in Hl1. destruct (ledger_drop_all (mpsc_items (inner (req_rx t1))) [] (open_ids t1) (sent_ids t1) (set_inner q (set_demand (taker_cancel (demand (req_rx t1))) (req_rx t1))) Hl1) as [Hl' Ei].
    cbn in *. rewrite Ei. cbn. rewrite Eq. done. }
  destruct (fut_ctx t2) as [f|] eqn:Ef; [|done]. split; [|done]. change (holds [] [] (on_rx (cb_drop false (fc_cb f)) (set_fut_ctx None t2))).
  apply holds_answer_open; [by apply holds_take_fut|done].
Qed.

(** A task that gives its callback away. *)
Lemma holds_retire k k' id cb t : holds [] [] t -> spawned t !! id = Some k -> task_cb k = Some cb -> task_cb k' = None -> task_ok k' ->
  holds [] [cb] (set_spawned (<[id := k']> (spawned t)) t).
Proof.
  intros (Hl & Hs & Ht) Hk Ecb Ek Hok. split; [|split; [done|]; cbn; by apply Forall_insert]. eapply ledger_perm; [reflexivity| |exact Hl].
  unfold open_ids. cbn. rewrite (omap_insert_none _ _ _ _ k' _ Hk Ecb Ek). by rewrite <-Permutation_middle.
Qed.

Lemma holds_replace k k' id t hu ho : holds hu ho t -> spawned t !! id = Some k -> task_cb k' = task_cb k -> task_ok k' ->
  holds hu ho (set_spawned (<[id := k']> (spawned t)) t).
Proof.
  intros Hh Hk Ek Hok. eapply holds_same; [|exact Hh]. split_and!; try done.
  - unfold open_ids. cbn. by rewrite (omap_insert_same _ _ _ k).
  - intros Ht. cbn. by apply Forall_insert.
Qed.

Lemma holds_tell c id t hu ho : holds hu ho t -> holds hu ho (tell c id t).
Proof.
  intros Hh. destruct id as [id|]; [|done]. eapply holds_same; [|exact Hh]. split_and!; try done.
  - unfold open_ids. cbn. rewrite omap_alter_same; [done|]. by intros [].
  - intros Ht. cbn. apply Forall_alter; [done|]. by intros [].
Qed.

Lemma response_poll_ok sh (w : ResponseFutMap (X := X) (F := F)) w' o : rfm_ping w ≠ None -> rfm_send_stream w ≠ None -> response_poll (PP := PP) (Bs := Bs) sh w = (w', o) ->
  match o with
  | Ready _ => True
  | Failed (_, m) => m = None
  | Pending => rfm_ping w' ≠ None /\ rfm_send_stream w' ≠ None
  | _ => False
  end.
Proof.
  intros Hp Hs E. unfold response_poll in E. pose proof (rf_poll_law (rfm_fut w)) as Hf. destruct (rf_poll (rfm_fut w)) as [fut [res|err| | |]]; try done; [| |by simplify_eq].
  - destruct (rfm_ping w); [|done]. destruct (rfm_send_stream w); [|done]. destruct (map_response _ _ _ _) as [closed [rs|[e m]]] eqn:Em; simplify_eq; [done|].
    unfold map_response in Em. destruct (_ && _); [by simplify_eq|]. by destruct (if is_success _ then _ else _).
  - destruct (rfm_ping w); [|done]. destruct (rfm_send_stream w); [|done]. simplify_eq. by destruct (ensure_not_timed_out _ _).
Qed.

(** The task of a response: it answers its caller once, and then is done. *)
Lemma send_when_ok id s t : holds [] [] t -> spawned t !! id = Some (TSend s) -> sound (send_when_poll id s t).2 /\ holds [] [] (send_when_poll id s t).1.
Proof.
  intros Hh Hk. assert (task_ok (TSend s : Tsk)) as (Hcb & Hp & Hs) by (destruct Hh as (_ & _ & Ht); by eapply Forall_lookup_1 in Hk).
  unfold send_when_poll. destruct (call_back s) as [cb|] eqn:Ecb; [|done].
  assert (forall c ans, returns_request ans = false -> holds [] [] (tell c (rfm_cancel_tx (sw_when s)) (set_spawned (<[id := TDone]> (spawned t)) (on_rx (cb_send cb ans) t)))) as Hfin.
  { intros c ans Ha. apply holds_tell. change (holds [] [] (on_rx (cb_send cb ans) (set_spawned (<[id := TDone]> (spawned t)) t))).
    apply holds_answer_open; [|done]. by apply (holds_retire (TSend s)). }
  destruct (response_poll _ _) as [w o] eqn:E. pose proof (response_poll_ok _ _ _ _ Hp Hs E) as Ho. destruct o as [res|[e m]| | |]; try done.
  - split; [done|]. by apply Hfin.
  - split; [done|]. apply Hfin. by rewrite Ho.
  - destruct (cb_canceled _ _); [split; [done|]; by apply Hfin|]. split; [done|].
    apply (holds_replace (TSend s)); [done|done|cbn; by rewrite Ecb|by split].
Qed.

Lemma pipe_map_poll_sound (p : PipeMap X Bs B) p' o : conn_drop_ref p = true -> pipe_map_poll ss_spurious hb_frames p = (p', o) ->
  sound o /\ (o = Pending -> conn_drop_ref p' = true).
Proof.
  intros Hd E. assert (forall p1 : PipeMap X Bs B, conn_drop_ref p1 = true -> poll_pipe_map ss_spurious hb_frames p1 = (p', o) -> sound o /\ (o = Pending -> conn_drop_ref p' = true)) as Hpoll.
  { intros p1 Hd1 E1. unfold poll_pipe_map in E1. pose proof (pipe_poll_sound (pm_pipe p1)) as Hs. destruct (pipe_poll _ _ (pm_pipe p1)) as [q oq].
    unfold take_drop_ref, mbind, M_bind, get, modify in E1. cbn in E1. rewrite Hd1 in E1. destruct oq; simplify_eq; done. }
  unfold pipe_map_poll, take_drop_ref, mbind, M_bind, get, modify in E. destruct (cancel_rx p) as [[| |]|]; cbn in E; [| |eapply Hpoll; [|exact E]; done|]; [by apply (Hpoll p)| |by apply (Hpoll p)].
  rewrite Hd in E. by simplify_eq.
Qed.

Lemma task_poll_ok id t : holds [] [] t -> sound (task_poll ss_spurious hb_frames id t).2 /\ holds [] [] (task_poll ss_spurious hb_frames id t).1.
Proof.
  intros Hh. unfold task_poll. destruct (spawned t !! id) as [[p|s|]|] eqn:Hk; [|by apply send_when_ok|done..].
  assert (task_ok (TPipe p : Tsk)) as Hd by (destruct Hh as (_ & _ & Ht); by eapply Forall_lookup_1 in Hk).
  destruct (pipe_map_poll _ _ p) as [p' o] eqn:E. pose proof (pipe_map_poll_sound p p' o Hd E) as [Ho Hp].
  destruct o; try done; (split; [done|]); apply (holds_replace (TPipe p)); try done. by apply Hp.
Qed.

Lemma holds_task_drop id t : holds [] [] t -> holds [] [] (task_drop id t).
Proof.
  intros Hh. unfold task_drop. destruct (spawned t !! id) as [[p|s|]|] eqn:Hk; [by apply (holds_replace (TPipe p))| |done..].
  assert (task_ok (TSend s : Tsk)) as (Hcb & _) by (destruct Hh as (_ & _ & Ht); by eapply Forall_lookup_1 in Hk).
  destruct (call_back s) as [cb|] eqn:Ecb; [|done]. apply holds_answer_open; [|done]. apply holds_tell. by apply (holds_retire (TSend s)).
Qed.

(** ** What can happen *)

(** The world may change what it owns: the state of the protocol's handle, of the
    responses, streams and bodies, of the pings and of the connection, and that all
    senders of the channel are gone; not the requests and their callbacks. *)
Definition same_task (k k' : Tsk) : Prop :=
  match k, k' with
  | TPipe p, TPipe p' => conn_drop_ref p' = conn_drop_ref p /\ cancel_rx p' = cancel_rx p
  | TSend s, TSend s' => call_back s' = call_back s /\ rfm_ping (sw_when s') = rfm_ping (sw_when s) /\
      (rfm_send_stream (sw_when s') = None <-> rfm_send_stream (sw_when s) = None) /\ rfm_cancel_tx (sw_when s') = rfm_cancel_tx (sw_when s)
  | TDone, TDone => True
  | _, _ => False
  end.

Record world_moves t t' : Prop := {
  wo_queue : mpsc_items (inner (req_rx t')) = mpsc_items (inner (req_rx t));
  wo_promises : promises (req_rx t') = promises (req_rx t);
  wo_parked : gate_parked t' = gate_parked t;
  wo_peer : ct_peer t' = ct_peer t;
  wo_fut : fc_cb <$> fut_ctx t' = fc_cb <$> fut_ctx t;
  wo_tasks : Forall2 same_task (spawned t) (spawned t');
  wo_submitted : submitted t' = submitted t;
}.

Definition poll_task : M Tk Error Dispatched := client_task_poll ss_spurious hb_frames queue_len.

Lemma poll_task_ok t : holds [] [] t -> sound (poll_task t).2 /\ holds [] [] (poll_task t).1.
Proof. intros Hh. pose proof (wp_client_task_poll t Hh) as Hw. unfold wp in Hw. unfold poll_task. by destruct (client_task_poll _ _ _ t). Qed.

Inductive h2_step t : Tk -> Prop :=
| H2Send req d cb : unbounded_try_send req (req_rx t) = (d, Ready cb) -> h2_step t (set_req_rx d t)
| H2GiveUp cb : h2_step t (on_rx (ds_give_up cb) t)
| H2Poll : h2_step t (poll_task t).1
| H2Drop : h2_step t (client_task_drop t)
| H2TaskPoll id : h2_step t (task_poll ss_spurious hb_frames id t).1
| H2TaskDrop id : h2_step t (task_drop id t)
| H2Publish enabled : h2_step t (on_peer (publish enabled) t)
| H2World t' : world_moves t t' -> h2_step t t'.

(** The task as [handshake] makes it. *)
Definition h2_start (ping : Recorder) (sh : Shared PP) (sr : SR) : Tk := MkTask ping sh false peer_new [] sr dispatch_channel None [] [].

Definition h2_run t : Prop := exists ping sh sr, rtc h2_step (h2_start ping sh sr) t.

Lemma holds_world t t' : world_moves t t' -> holds [] [] t -> holds [] [] t'.
Proof.
  intros [E1 E2 E3 E4 E5 E6 E7]. apply holds_same. unfold same_account, queued_ids, parked_ids, open_ids. rewrite E1, E2, E3.
  assert (omap task_cb (spawned t') = omap task_cb (spawned t) /\ (Forall task_ok (spawned t) -> Forall task_ok (spawned t'))) as [Eo Hok].
  { clear -E6. induction E6 as [|k k' l l' Hk _ [IH1 IH2]]; [done|]. destruct k as [p|s|], k' as [p'|s'|]; cbn in *; try done; cbn.
    - destruct Hk as [Hk _]. split; [done|]. intros [? ?]%Forall_cons. constructor; [cbn in *; congruence|auto].
    - destruct Hk as (Hk & Hp & Hx & _). rewrite Hk, IH1. split; [done|]. intros [Ho ?]%Forall_cons. constructor; [|auto]. cbn in *.
      rewrite Hk, Hp, Hx. done.
    - split; [done|]. intros [? ?]%Forall_cons. constructor; auto. }
  rewrite Eo. split_and!; try done. destruct (fut_ctx t), (fut_ctx t'); cbn in E5; try done. injection E5 as E5. by rewrite E5.
Qed.

Lemma holds_run t : h2_run t -> holds [] [] t.
Proof.
  intros (ping & sh & sr & Hr). assert (holds [] [] (h2_start ping sh sr)) as Hh.
  { split; [|by split; constructor]. unfold queued_ids. cbn. destruct (mpsc_new_spec (A := Rq * nat)) as [-> _]. apply ledger_new. }
  induction Hr as [t|t t1 t2 Hs _ IH]; [done|]. apply IH. destruct Hs; [by eapply holds_send|by apply holds_give_up|by apply poll_task_ok
    |by apply holds_drop|by apply task_poll_ok|by apply holds_task_drop|by eapply holds_same; [|exact Hh]|by eapply holds_world].
Qed.

(** Who waits: in the channel, held back, for a stream to open, or for a response. *)
Definition waiting t : list nat := queued_ids t ++ parked_ids t ++ open_ids t.

(** C12. Whatever happens on an HTTP/2 connection, in every state: a caller that
    waits is in one place (the channel, the gate, a stream that opens, the task of
    its response) and has no answer, any other caller has exactly one answer; an
    answer that gives the request back is only for one the protocol never got, and
    a response only for one it did; and a request with a [:protocol] was given to
    the protocol only once the server's SETTINGS had enabled extended CONNECT. *)
Theorem h2_callers_answered t : h2_run t ->
  NoDup (waiting t) /\
  (forall id p, promises (req_rx t) !! id = Some p ->
    if decide (id ∈ waiting t) then answers p = []
    else exists a, answers p = [a] /\ (returns_request a = true -> id ∉ (submitted t).*1) /\ (has_response a = true -> id ∈ (submitted t).*1)) /\
  (forall id protocol known, (id, (Some protocol, known)) ∈ submitted t -> known = Some true).
Proof.
  intros (Hl & Hs & _)%holds_run. unfold waiting. rewrite app_assoc. split_and!; [apply Hl| |].
  - intros id p Hp. case_decide as Hw; [by eapply lg_waiting|]. by eapply lg_done.
  - intros id protocol known Hin. rewrite Forall_forall in Hs. by apply (Hs _ Hin).
Qed.

(** The end of everything: the dispatching task is dropped, then every other. *)
Definition drop_everything t : Tk := foldl (fun t id => task_drop id t) (client_task_drop t) (seq 0 (length (spawned t))).

Lemma task_drop_cb id t j : holds [] [] t ->
  (spawned (task_drop id t) !! j ≫= task_cb) = if decide (j = id) then None else spawned t !! j ≫= task_cb.
Proof.
  intros Hh. assert (forall (c : CancelRx) (n : nat) (l : list Tsk) (j : nat), (alter (fun k : Tsk => match k with TPipe p => TPipe (set_cancel_rx ((fun _ => c) <$> cancel_rx p) p) | k => k end) n l !! j) ≫= task_cb = l !! j ≫= task_cb) as Ha.
  { intros c n l i. rewrite list_lookup_alter. case_decide; [subst|done]. by destruct (l !! i) as [[]|]. }
  assert (forall k : Tsk, spawned t !! id = Some k -> (<[id := TDone]> (spawned t)) !! j ≫= task_cb = if decide (j = id) then None else spawned t !! j ≫= task_cb) as Hi.
  { intros k Hk. case_decide as Hj; [|by rewrite list_lookup_insert_ne by congruence]. subst j. by rewrite list_lookup_insert_eq by (by eapply lookup_lt_Some). }
  unfold task_drop. destruct (spawned t !! id) as [[p|s|]|] eqn:Hk.
  - by apply (Hi (TPipe p)).
  - destruct (call_back s); (destruct (rfm_cancel_tx (sw_when s)); cbn; [rewrite Ha|]; by apply (Hi (TSend s))).
  - case_decide; [subst; by rewrite Hk|done].
  - case_decide; [subst; by rewrite Hk|done].
Qed.

Lemma task_drop_rest id t : queued_ids (task_drop id t) = queued_ids t /\ parked_ids (task_drop id t) = parked_ids t /\ fut_ctx (task_drop id t) = fut_ctx t /\
  length (spawned (task_drop id t)) = length (spawned t).
Proof.
  unfold task_drop. destruct (spawned t !! id) as [[p|s|]|]; [|destruct (call_back s); destruct (rfm_cancel_tx (sw_when s))|done|done]; cbn; rewrite ?length_alter, ?length_insert; done.
Qed.

Lemma client_task_drop_spawned t : spawned (client_task_drop t) = spawned t.
Proof. unfold client_task_drop. by destruct (fut_ctx _). Qed.

(** Dropping tasks in a row. *)
Lemma task_drops ids : forall t, holds [] [] t -> let t' := foldl (fun t id => task_drop id t) t ids in
  holds [] [] t' /\ queued_ids t' = queued_ids t /\ parked_ids t' = parked_ids t /\ fut_ctx t' = fut_ctx t /\ length (spawned t') = length (spawned t) /\
  forall j, (spawned t' !! j ≫= task_cb) = if decide (j ∈ ids) then None else spawned t !! j ≫= task_cb.
Proof.
  induction ids as [|id ids IH]; intros t Hh; cbn; [done|]. destruct (IH (task_drop id t) (holds_task_drop id t Hh)) as (H1' & E2 & E3 & E4 & E5 & E6).
  destruct (task_drop_rest id t) as (F2 & F3 & F4 & F5). split_and!; [done|congruence..|]. intros j. rewrite E6, task_drop_cb by done.
  repeat case_decide; set_solver.
Qed.

Lemma omap_none (l : list Tsk) : (forall j, l !! j ≫= task_cb = None) -> omap task_cb l = [].
Proof. intros Hj. induction l as [|k l IH]; [done|]. cbn. pose proof (Hj 0%nat) as Hk. cbn in Hk. rewrite Hk. apply IH. intros j. apply (Hj (S j)). Qed.

(** C13. No poll on an HTTP/2 connection panics or goes on for ever, in any state
    that is reached: not the dispatching task's, and no spawned task's. When the
    dispatching task is dropped, only callers whose response is awaited by a
    spawned task are left; when the runtime drops those too, every caller has
    exactly one answer. *)
Theorem h2_nobody_left_waiting t : h2_run t ->
  sound (poll_task t).2 /\ (forall id, sound (task_poll ss_spurious hb_frames id t).2) /\
  waiting (client_task_drop t) = omap task_cb (spawned t) /\
  forall id p, promises (req_rx (drop_everything t)) !! id = Some p -> exists a, answers p = [a].
Proof.
  intros Hh%holds_run. destruct (holds_drop t Hh) as (Hd & Eq & Ep & Ef). split_and!.
  - by apply poll_task_ok.
  - intros id. by apply task_poll_ok.
  - unfold waiting, open_ids. by rewrite Eq, Ep, Ef, client_task_drop_spawned.
  - intros id p. unfold drop_everything. destruct (task_drops (seq 0 (length (spawned t))) _ Hd) as ((Hl & _) & Eq' & Ep' & Ef' & Es & Ecb).
    intros Hp. destruct (lg_done _ _ _ _ Hl id p Hp) as (a & Ha & _); [|by exists a].
    unfold open_ids. rewrite Eq', Ep', Ef', Eq, Ep, Ef, omap_none; [set_solver|]. intros j. rewrite Ecb. case_decide as Hj; [done|].
    rewrite client_task_drop_spawned. rewrite (lookup_ge_None_2 (spawned t) j); [done|]. rewrite elem_of_seq in Hj. lia.
Qed.

End run.

(** ** Examples *)

Module ConcreteHttp2.
Import Concrete ConcreteDispatch ConcretePipe.

(** A connection that always has room, and numbers its streams; a response comes
    when its number is even. *)
#[export] Instance nat_H2Client : H2Client nat nat (wire) unit hmap := {
  h2_poll_ready n := (n, Ready tt);
  h2_send_request h eos n := (S n, Ok (n, Wire [] 10));
  rf_poll n := (n, if Nat.even n then Ready (MkResponse 200 hm_new tt) else Pending);
  rcv_is_end_stream _ := false;
}.

#[export] Instance nat_H2ClientLaws : H2ClientLaws nat nat wire unit hmap.
Proof. split; [done|]. intros f. cbn. by destruct (Nat.even f). Qed.

Definition get_req : Request hmap script := MkRequest GET (bs "/") hm_new None None [Some (bs "hi")].
Definition ws_req : Request hmap script := MkRequest CONNECT (bs "/chat") hm_new (Some (bs "websocket")) None [].

Abbreviation Task0 := (ClientTask (Hm := hmap) (Q := lq) (W := signal) (Bs := script) (B := bytes) (X := wire) (SR := nat) (F := nat) (RS := unit) (PP := unit)).

Definition t0 : Task0 := h2_start Disabled (MkShared tt None None None None None false Empty) 0%nat.
Definition send1 (req : Request hmap script) (t : Task0) : Task0 := set_req_rx (unbounded_try_send req (req_rx t)).1 t.

(** Two requests and a websocket: the first is answered, the second awaits its
    response, the websocket is held back. *)
Definition t1 : Task0 := (task_poll ss_spurious hb_frames 0 (poll_task (send1 ws_req (send1 get_req (send1 get_req t0)))).1).1.

(** The server does not enable extended CONNECT. *)
Definition t2 : Task0 := (poll_task (on_peer (publish false) t1)).1.

Definition outcome_of (p : Promise (Request hmap script) (Response hmap (ResBody wire unit))) : option (bool * bool) :=
  match answers p with [a] => Some (returns_request a, has_response a) | _ => None end.

Lemma send1_step req (t : Task0) cb : (unbounded_try_send req (req_rx t)).2 = Ready cb -> h2_step t (send1 req t).
Proof. intros E. unfold send1. destruct (unbounded_try_send req (req_rx t)) as [d o] eqn:Eo. cbn in E. subst o. by eapply H2Send. Qed.

Lemma h2_run_step (t t' : Task0) : h2_run t -> h2_step t t' -> h2_run t'.
Proof. intros (ping & sh & sr & Hr) Hs. exists ping, sh, sr. by eapply rtc_r. Qed.

Lemma t1_run : h2_run (t1 : Task0).
Proof.
  refine (h2_run_step _ _ (h2_run_step _ _ (h2_run_step _ _ (h2_run_step _ _ (h2_run_step t0 _ _
    (send1_step get_req _ 0 _)) (send1_step get_req _ 1 _)) (send1_step ws_req _ 2 _)) (H2Poll _)) (H2TaskPoll _ 0)); [|by vm_compute..].
  exists Disabled, (MkShared tt None None None None None false Empty), 0%nat. apply rtc_refl.
Qed.

Lemma t2_run : h2_run t2.
Proof. exact (h2_run_step _ _ (h2_run_step _ _ t1_run (H2Publish _ false)) (H2Poll _)). Qed.

Lemma h2_callers_answered_witness :
  outcome_of <$> promises (req_rx t2) = [Some (false, true); None; Some (true, false)] /\ (submitted t2).*1 = [0; 1]%nat /\ waiting t2 = [1]%nat /\
  forall id protocol known, (id, (Some protocol, known)) ∈ submitted t2 -> known = Some true.
Proof. split; [by vm_compute|]. split; [by vm_compute|]. split; [by vm_compute|]. destruct (h2_callers_answered t2 t2_run) as (_ & _ & Hc). exact Hc. Defined.

Lemma h2_nobody_left_waiting_witness :
  waiting t1 = [2; 1]%nat /\ outcome_of <$> promises (req_rx (drop_everything t1)) = [Some (false, true); Some (false, false); Some (true, false)] /\
  forall id p, promises (req_rx (drop_everything t1)) !! id = Some p -> exists a, answers p = [a].
Proof. split; [by vm_compute|]. split; [by vm_compute|]. destruct (h2_nobody_left_waiting t1 t1_run) as (_ & _ & _ & Hd). exact Hd. Defined.
End ConcreteHttp2.
