(* ===== verification/Http2Conn.v ===== *)
(** * Http2Conn

    The task that drives an HTTP/2 connection ([proto/http2/client.rs]: [Conn],
    [ConnMapErr], [PrefacePingTimer], [ConnTask] and [handshake]). It polls the
    connection of the [http2] crate, sets the windows the pings estimate, runs
    keep-alive, watches the deadline of the preface ping, publishes the server's
    SETTINGS and tells the dispatching task when its own end is near.

    The [http2] crate's connection and the runtime's timers are parameters. Of the
    channel that tells when all requests are gone ([futures_channel::mpsc]) the
    model keeps whether senders are left and whether its end has been seen. *)

From stdpp Require Import prelude strings.
From Stdlib Require Import ZArith Lia.
From S2P Require Import Prelude Bytes Errors Ping Http2Peer.
Local Open Scope Z_scope.

(** The outcome of a poll as a value: [None] is [Pending]. *)
Definition observe {S E E' A} (m : M S E A) : M S E' (option (result E A)) := fun s =>
  match m s with
  | (s, Ready a) => (s, Ready (Some (Ok a)))
  | (s, Failed e) => (s, Ready (Some (Err e)))
  | (s, Pending) => (s, Ready None)
  | (s, Panicked) => (s, Panicked)
  | (s, NoFuel) => (s, NoFuel)
  end.

(** [http2::client::Connection]. *)
Class H2Connection (C P : Type) : Type := {
  hc_poll : M C H2Error unit;
  hc_ping_pong : C -> C * option P;
  hc_set_target_window_size : Z -> C -> C;
  hc_set_initial_window_size : Z -> C -> C * result H2Error unit;
  hc_take_read_activity : C -> C * bool;
  hc_has_streams : C -> bool;
  hc_abrupt_shutdown : Z -> C -> C;
  hc_preface_ping_deadline : C -> option Z;
  hc_extended_connect_protocol : C -> option bool;
}.

(** [Timer::sleep_until]. *)
Class SleepUntil (T Sl : Type) : Type := { timer_sleep_until : Z -> T -> T * Sl }.

(** [Receiver<Infallible>]. *)
Inductive DropRx : Type := HasSenders | NoSenders | RxTerminated.

#[export] Instance DropRx_eq_dec : EqDecision DropRx.
Proof. solve_decision. Defined.

Section http2_conn.
Context {T Sl P C : Type} `{TimerOps T Sl} `{SleepUntil T Sl} `{PingPongOps P} `{H2Connection C P}.

(** ** [Conn] *)

(** [struct Conn]. *)
Record H2Conn : Type := MkConn { ponger : Sys T Sl P; h2conn : C; hc_peer : PeerSettings; pending_window : option Z }.
Definition set_ponger x c := MkConn x (h2conn c) (hc_peer c) (pending_window c).
Definition set_h2conn x c := MkConn (ponger c) x (hc_peer c) (pending_window c).
Definition set_hc_peer x c := MkConn (ponger c) (h2conn c) x (pending_window c).
Definition set_pending_window x c := MkConn (ponger c) (h2conn c) (hc_peer c) x.

(** A new estimate of the window; it waits if a SETTINGS is not yet acknowledged. *)
Definition size_update (wnd : Z) (c : H2Conn) : H2Conn :=
  let '(h, r) := hc_set_initial_window_size wnd (hc_set_target_window_size wnd (h2conn c)) in
  set_pending_window (match r with Ok _ => None | Err _ => Some wnd end) (set_h2conn h c).

(** [Pin::new(&mut this.conn).poll(cx)]. *)
Definition poll_conn {E} : M H2Conn E (option (result H2Error unit)) := zoom h2conn set_h2conn (observe hc_poll).

(** The window that waits goes out once it can. *)
Definition flush_window {E} (polled : option (result H2Error unit)) : M H2Conn E (option (result H2Error unit)) :=
  c ← get;
  match polled, pending_window c with
  | None, Some wnd =>
      let '(h, r) := hc_set_initial_window_size wnd (h2conn c) in
      modify (set_h2conn h);;
      match r with
      | Ok _ => modify (set_pending_window None);; poll_conn
      | Err _ => mret None
      end
  | _, _ => mret polled
  end.

(** Anything read counts for keep-alive. *)
Definition note_reads {E} : M H2Conn E unit :=
  c ← get;
  let '(h, active) := hc_take_read_activity (h2conn c) in
  modify (set_h2conn h);;
  if active : bool then _ ← zoom ponger set_ponger (observe record_read); mret tt else mret tt.

(** [tracks_idle() && !has_streams() && !poll_parked(cx)]. *)
Definition conn_is_idle {E} : M H2Conn E bool :=
  c ← get;
  if tracks_idle (ponger c) && negb (hc_has_streams (h2conn c)) then
    let '(p, parked) := poll_parked (hc_peer c) in
    modify (set_hc_peer p);; mret (negb parked)
  else mret false.

(** [<Conn as Future>::poll]. *)
Definition h2_conn_poll : M H2Conn H2Error unit :=
  ponged ← zoom ponger set_ponger (observe ponger_poll);
  match ponged with Some (Ok (SizeUpdate wnd)) => modify (size_update wnd) | _ => mret tt end;;
  polled ← poll_conn;
  polled ← flush_window polled;
  note_reads;;
  match polled with
  | Some (Ok _) => mret tt
  | Some (Err e) => fail e
  | None =>
      is_idle ← conn_is_idle;
      dead ← zoom ponger set_ponger (observe (poll_keep_alive is_idle));
      match dead with
      | Some _ => modify (fun c => set_h2conn (hc_abrupt_shutdown R_INTERNAL_ERROR (h2conn c)) c);; _ ← poll_conn; mret tt
      | None => pend
      end
  end.

(** ** [PrefacePingTimer] *)

Record PrefacePingTimer : Type := MkPreface { pt_sleep : option Sl; pt_deadline : option Z }.

(** [PrefacePingTimer::new]. *)
Definition preface_new : PrefacePingTimer := MkPreface None None.

(** [self.timer.reset(sleep, deadline)], or a new sleep. *)
Definition preface_arm (d : Z) : M (T * PrefacePingTimer) Empty_set unit := fun '(t, p) =>
  let '(t, sl) := match pt_sleep p with Some sl => timer_reset sl d t | None => timer_sleep_until d t end in
  ((t, MkPreface (Some sl) (Some d)), Ready tt).

(** Polling the sleep, which goes when it fires. *)
Definition preface_fire : M (T * PrefacePingTimer) Empty_set unit := fun '(t, p) =>
  match pt_sleep p with
  | None => ((t, p), Pending)
  | Some sl =>
      let '(t, (sl, o)) := sleep_poll sl t in
      ((t, MkPreface (match o with Ready _ => None | _ => Some sl end) (pt_deadline p)), o)
  end.

(** [PrefacePingTimer::poll]. *)
Definition preface_poll (deadline : option Z) : M (T * PrefacePingTimer) Empty_set unit :=
  match deadline with
  | None => pend
  | Some d =>
      tp ← get;
      (if decide (pt_deadline tp.2 = Some d) then mret tt else preface_arm d);;
      preface_fire
  end.

(** ** [ConnMapErr] and [ConnTask] *)

(** [Either<Conn, Connection>]: with pings, or without; the runtime is kept with
    the pings where there are some. *)
Inductive Side : Type := Pinging (s : Sys T Sl P) (pending : option Z) | Plain (t : T).

(** [struct ConnTask], with its [ConnMapErr]; [cancel_tx] is whether the sender is
    still held, [self_wakes] counts [cx.waker().wake_by_ref()]. *)
Record ConnTask : Type := MkConnTask {
  side : Side; tk_conn : C; preface_ping : option PrefacePingTimer; is_terminated : bool;
  drop_rx : DropRx; cancel_tx : bool; tk_peer : PeerSettings; self_wakes : nat }.
Definition set_side x t := MkConnTask x (tk_conn t) (preface_ping t) (is_terminated t) (drop_rx t) (cancel_tx t) (tk_peer t) (self_wakes t).
Definition set_tk_conn x t := MkConnTask (side t) x (preface_ping t) (is_terminated t) (drop_rx t) (cancel_tx t) (tk_peer t) (self_wakes t).
Definition set_preface x t := MkConnTask (side t) (tk_conn t) x (is_terminated t) (drop_rx t) (cancel_tx t) (tk_peer t) (self_wakes t).
Definition set_terminated x t := MkConnTask (side t) (tk_conn t) (preface_ping t) x (drop_rx t) (cancel_tx t) (tk_peer t) (self_wakes t).
Definition set_drop_rx x t := MkConnTask (side t) (tk_conn t) (preface_ping t) (is_terminated t) x (cancel_tx t) (tk_peer t) (self_wakes t).
Definition set_cancel_tx x t := MkConnTask (side t) (tk_conn t) (preface_ping t) (is_terminated t) (drop_rx t) x (tk_peer t) (self_wakes t).
Definition set_tk_peer x t := MkConnTask (side t) (tk_conn t) (preface_ping t) (is_terminated t) (drop_rx t) (cancel_tx t) x (self_wakes t).
Definition wake_self t := MkConnTask (side t) (tk_conn t) (preface_ping t) (is_terminated t) (drop_rx t) (cancel_tx t) (tk_peer t) (S (self_wakes t)).

Definition side_rt (x : Side) : T := match x with Pinging s _ => rt s | Plain t => t end.
Definition set_side_rt (t : T) (x : Side) : Side := match x with Pinging s w => Pinging (set_rt t s) w | Plain _ => Plain t end.

(** [this.conn.as_mut().poll(cx)]. *)
Definition side_poll : M ConnTask H2Error unit := fun t =>
  match side t with
  | Pinging s w =>
      let '(c, o) := h2_conn_poll (MkConn s (tk_conn t) (tk_peer t) w) in
      (set_side (Pinging (ponger c) (pending_window c)) (set_tk_conn (h2conn c) (set_tk_peer (hc_peer c) t)), o)
  | Plain _ => let '(c, o) := hc_poll (tk_conn t) in (set_tk_conn c t, o)
  end.

(** The deadline of the preface ping, after a poll that is not done. *)
Definition watch_preface {E} : M ConnTask E unit := fun t =>
  match preface_ping t with
  | None => (t, Ready tt)
  | Some p =>
      let '((r, p), o) := preface_poll (hc_preface_ping_deadline (tk_conn t)) (side_rt (side t), p) in
      let t := set_preface (Some p) (set_side (set_side_rt r (side t)) t) in
      match o with
      | Ready _ => (wake_self t, Ready tt)
      | Pending => (t, Ready tt)
      | NoFuel => (t, NoFuel)
      | Panicked | Failed _ => (t, Panicked)
      end
  end.

(** [<ConnMapErr as Future>::poll]. *)
Definition conn_map_err_poll : M ConnTask unit unit :=
  t ← get;
  if is_terminated t then pend
  else
    polled ← observe side_poll;
    match polled with
    | Some r => modify (set_terminated true);; match r with Ok _ => mret tt | Err _ => fail tt end
    | None => watch_preface;; pend
    end.

(** [this.drop_rx.poll_next(cx).is_ready()]: nothing is ever sent. *)
Definition drop_rx_ready : M ConnTask Empty_set bool :=
  t ← get;
  match drop_rx t with
  | HasSenders => mret false
  | NoSenders | RxTerminated => modify (set_drop_rx RxTerminated);; mret true
  end.

(** The server's SETTINGS, if they have changed. *)
Definition publish_settings : M ConnTask Empty_set unit :=
  t ← get;
  match hc_extended_connect_protocol (tk_conn t) with
  | Some enabled =>
      if decide (extended_connect (tk_peer t) = Some enabled) then mret tt else modify (set_tk_peer (publish enabled (tk_peer t)))
  | None => mret tt
  end.

(** When all senders of requests are gone, the dispatching task is told. *)
Definition watch_senders : M ConnTask Empty_set unit :=
  t ← get;
  gone ← (if decide (drop_rx t = RxTerminated) then mret false else drop_rx_ready);
  if gone : bool then t ← get; if cancel_tx t then modify (set_cancel_tx false) else panic else mret tt.

(** [<ConnTask as Future>::poll]. *)
Definition conn_task_poll : M ConnTask Empty_set unit :=
  t ← get;
  finished ← (if is_terminated t then mret false else r ← observe conn_map_err_poll; mret (bool_decide (is_Some r)));
  publish_settings;;
  if finished : bool then mret tt else watch_senders;; pend.

(** ** [handshake] *)

(** What is made of the connection once the protocol's handshake is done: the task
    that drives it, and the recorder of the pings. *)
Definition handshake_tasks (c : C) (ping_config : Config) (timer : Time) (t : T) : option (Recorder * ConnTask) :=
  let preface := match timer with Timer => Some preface_new | Empty => None end in
  let task side c := MkConnTask side c preface false HasSenders true peer_new 0 in
  if is_enabled ping_config then
    match hc_ping_pong c with
    | (c, Some pp) =>
        match channel pp ping_config timer t with
        | Some (r, s) => Some (r, task (Pinging s None) c)
        | None => None
        end
    | (_, None) => None
    end
  else Some (Disabled, task (Plain t) c).
End http2_conn.
Arguments H2Conn : clear implicits.
Arguments ConnTask : clear implicits.
Arguments PrefacePingTimer : clear implicits.
Arguments Side : clear implicits.
