(* ===== verification/Http2ConnTheorems.v ===== *)
(** * The task of an HTTP/2 connection: laws and theorems

    Polling the connection never panics, keeps the window that was estimated, and
    publishes the server's SETTINGS; keep-alive ends a dead connection with a
    GOAWAY; the deadline of the preface ping fires once. *)

From stdpp Require Import prelude strings.
From Stdlib Require Import ZArith Lia.
From S2P Require Import Prelude Bytes Errors Ping PingLaws PingTheorems Http2Peer Http2Conn.
Local Open Scope Z_scope.

Lemma wp_observe {S E E' A} (m : M S E A) (Q : outcome E' (option (result E A)) -> S -> Prop) s :
  wp m (fun o s' => match o with
    | Ready a => Q (Ready (Some (Ok a))) s' | Failed e => Q (Ready (Some (Err e))) s' | Pending => Q (Ready None) s'
    | Panicked => Q Panicked s' | NoFuel => Q NoFuel s' end) s -> wp (observe m) Q s.
Proof. unfold wp, observe. by destruct (m s) as [s' []]. Qed.

(** What the timers and the connection promise: a new sleep is set to its deadline;
    the connection does not panic, asks for the window it was last told (if it
    could) and remembers that it was told to go away. [hc_result] is what its polls have
    said: [None] while it runs. *)
Class SleepUntilLaws (T Sl : Type) `{TimerLaws T Sl} `{SleepUntil T Sl} : Prop := {
  timer_sleep_until_law d t t' sl : timer_sleep_until d t = (t', sl) -> clock t <= clock t' /\ armed sl = Some d;
}.

Class H2ConnectionLaws (C P : Type) `{H2Connection C P} : Type := {
  hc_window : C -> Z;
  hc_goaway : C -> option Z;
  hc_result : C -> option (result H2Error unit);
  hc_poll_law c c' o : hc_poll c = (c', o) -> sound o /\ hc_window c' = hc_window c /\ (forall r, hc_goaway c = Some r -> hc_goaway c' = Some r) /\
    hc_result c' = match o with Ready _ => Some (Ok tt) | Failed e => Some (Err e) | _ => hc_result c end;
  hc_set_target_law w c : hc_window (hc_set_target_window_size w c) = hc_window c /\ hc_result (hc_set_target_window_size w c) = hc_result c;
  hc_set_initial_law w c c' r : hc_set_initial_window_size w c = (c', r) -> hc_window c' = match r with Ok _ => w | Err _ => hc_window c end /\ hc_result c' = hc_result c;
  hc_take_read_activity_law c c' b : hc_take_read_activity c = (c', b) -> hc_window c' = hc_window c /\ hc_result c' = hc_result c;
  hc_abrupt_shutdown_law r c : hc_window (hc_abrupt_shutdown r c) = hc_window c /\ hc_goaway (hc_abrupt_shutdown r c) = Some r;
}.

Section conn_laws.
Context {T Sl P C : Type} `{TL : TimerLaws T Sl} `{SU : SleepUntil T Sl} `{SUL : !SleepUntilLaws T Sl} `{PP : PingPongOps P}
  `{HC : H2Connection C P} `{HCL : !H2ConnectionLaws C P}.
Abbreviation Cn := (H2Conn T Sl P C).
Abbreviation Ctk := (ConnTask T Sl P C).
Implicit Types (c : Cn) (t : Ctk).

Lemma record_read_bdp (s s' : Sys T Sl P) o : record_read s = (s', o) -> bdp s' = bdp s.
Proof. apply (wp_elim _ (fun o s' => bdp s' = bdp s)). by apply wp_update_last_read_at. Qed.

(** ** [Conn] *)

Definition timed_out c : bool := is_keep_alive_timed_out (shared (ponger c)).

(** The estimated window is the one the connection asks for, or waits. *)
Definition window_ok (s : Sys T Sl P) (pending : option Z) (h : C) : Prop :=
  forall w, bdp_ <$> bdp s = Some w -> match pending with Some p => p = w | None => hc_window h = w end.

Definition conn_ok c : Prop := sys_ok (ponger c) /\ window_ok (ponger c) (pending_window c) (h2conn c).

(** What a part of [poll] keeps. *)
Definition conn_keeps c c' : Prop :=
  conn_ok c' /\ timed_out c' = timed_out c /\ extended_connect (hc_peer c') = extended_connect (hc_peer c) /\ clock (rt (ponger c)) <= clock (rt (ponger c')).

Lemma keeps_refl c : conn_ok c -> conn_keeps c c.
Proof. intros Hok. by split_and!. Qed.

Lemma keeps_trans c1 c2 c3 : conn_keeps c1 c2 -> conn_keeps c2 c3 -> conn_keeps c1 c3.
Proof. intros (_ & E1 & E2 & E3) (? & E4 & E5 & E6). split_and!; [done|congruence..|lia]. Qed.

(** Only the connection of the crate changed, and not its window. *)
Lemma keeps_h2conn h c : conn_ok c -> hc_window h = hc_window (h2conn c) -> conn_keeps c (set_h2conn h c).
Proof. intros [Hs Hw] E. split_and!; try done. split; [done|]. intros w Ew. cbn. specialize (Hw w Ew). destruct (pending_window c); [done|congruence]. Qed.

Lemma wp_poll_conn {E} c (Q : outcome E (option (result H2Error unit)) -> Cn -> Prop) : conn_ok c ->
  (forall r h, conn_keeps c (set_h2conn h c) -> (forall x, hc_goaway (h2conn c) = Some x -> hc_goaway h = Some x) ->
    (hc_result (h2conn c) = None -> hc_result h = r) -> Q (Ready r) (set_h2conn h c)) -> wp poll_conn Q c.
Proof.
  intros Hok HQ. apply wp_zoom, wp_observe. apply wp_intro. intros h o E1. apply hc_poll_law in E1 as (Ho & Ew & Hg & Er).
  assert (conn_keeps c (set_h2conn h c)) by (by apply keeps_h2conn). destruct o as [[]|e| | |]; try done; apply HQ; try done; congruence.
Qed.

(** Not by a poll: the result is as it was. *)
Definition same_result c c' : Prop := hc_result (h2conn c') = hc_result (h2conn c).

Lemma wp_pong {E} c (Q : outcome E unit -> Cn -> Prop) : conn_ok c -> (forall c', conn_keeps c c' -> same_result c c' -> Q (Ready tt) c') ->
  wp (ponged ← zoom ponger set_ponger (observe (E' := E) ponger_poll);
      match ponged with Some (Ok (SizeUpdate wnd)) => modify (size_update wnd) | _ => mret tt end) Q c.
Proof.
  intros [Hs Hw] HQ. wp_step. apply wp_zoom, wp_observe. eapply wp_mono; [by apply ponger_poll_spec|].
  intros o s' (Hp & Hok & (Hc & _ & Et) & _). destruct Hp as [[-> Eb]|(b & Eb & -> & _)].
  - wp_step. apply HQ; [|done]. split_and!; try done. split; [done|]. intros w. cbn. rewrite Eb. apply Hw.
  - wp_step. unfold size_update. destruct (hc_set_initial_window_size _ _) as [h r] eqn:Eh. apply hc_set_initial_law in Eh as [Eh Er].
    apply HQ; [|unfold same_result; cbn; rewrite Er; apply hc_set_target_law]. split_and!; try done. split; [done|]. intros w Ew. cbn in *. rewrite Eb in Ew. cbn in Ew. simplify_eq. destruct r; done.
Qed.

Lemma wp_flush_window {E} polled c (Q : outcome E (option (result H2Error unit)) -> Cn -> Prop) : conn_ok c ->
  (forall r c', conn_keeps c c' -> (hc_result (h2conn c) = polled -> hc_result (h2conn c') = r) -> Q (Ready r) c') -> wp (flush_window polled) Q c.
Proof.
  intros Hok HQ. unfold flush_window. do 2 wp_step. destruct polled as [r|]; [wp_step; apply HQ; [by apply keeps_refl|done]|].
  destruct (pending_window c) as [w|] eqn:Ep; [|wp_step; apply HQ; [by apply keeps_refl|done]].
  destruct (hc_set_initial_window_size _ _) as [h r] eqn:Eh. apply hc_set_initial_law in Eh as [Eh Er]. do 2 wp_step. destruct r as [u|e].
  - do 2 wp_step. assert (conn_keeps c (set_pending_window None (set_h2conn h c))) as Hk.
    { destruct Hok as [Hs Hw]. split_and!; try done. split; [done|]. intros w' Ew. cbn. specialize (Hw w' Ew). rewrite Ep in Hw. congruence. }
    apply wp_poll_conn; [apply Hk|]. intros r h' Hk' _ Hr. apply HQ; [by eapply keeps_trans|]. intros Hn. apply Hr. cbn. congruence.
  - wp_step. apply HQ; [by apply keeps_h2conn|]. cbn. congruence.
Qed.

Lemma wp_note_reads {E} c (Q : outcome E unit -> Cn -> Prop) : conn_ok c -> (forall c', conn_keeps c c' -> same_result c c' -> Q (Ready tt) c') -> wp note_reads Q c.
Proof.
  intros Hok HQ. unfold note_reads. do 2 wp_step. destruct (hc_take_read_activity _) as [h b] eqn:Eh. apply hc_take_read_activity_law in Eh as [Eh Er]. do 2 wp_step.
  pose proof (keeps_h2conn h c Hok Eh) as Hk. destruct b; [|wp_step; by apply HQ].
  assert (forall c', h2conn c' = h -> same_result c c') as Hsr by (intros c' Ec; unfold same_result; by rewrite Ec). destruct Hk as ([Hs Hw] & _). wp_step. apply wp_zoom, wp_observe. apply wp_intro. intros s' o Es.
  pose proof (wp_elim _ _ _ _ _ (record_read_spec _ Hs) Es) as (-> & Hs' & (Hc & _ & Et) & _). apply record_read_bdp in Es. wp_step. apply HQ; [|by apply Hsr].
  split_and!; try done. split; [done|]. intros w. cbn in *. rewrite Es. apply Hw.
Qed.

Lemma wp_conn_is_idle {E} c (Q : outcome E bool -> Cn -> Prop) : conn_ok c -> (forall b c', conn_keeps c c' -> same_result c c' -> Q (Ready b) c') -> wp conn_is_idle Q c.
Proof.
  intros Hok HQ. unfold conn_is_idle. do 2 wp_step. destruct (_ && _); [|wp_step; apply HQ; [by apply keeps_refl|done]].
  unfold poll_parked. cbn [run poll_parked_steps store atom load mbind prog_bind mret prog_ret]. do 3 wp_step. apply HQ; [|done]. split; [exact Hok|]. by split_and!.
Qed.

(** Keep-alive leaves the estimate alone, and says when it has given up. *)
Lemma poll_keep_alive_ok is_idle s : sys_ok s -> wp (poll_keep_alive is_idle) (fun o s' =>
  sys_ok s' /\ bdp s' = bdp s /\ clock (rt s) <= clock (rt s') /\
  ((o = Pending /\ is_keep_alive_timed_out (shared s') = is_keep_alive_timed_out (shared s)) \/ (o = Ready tt /\ is_keep_alive_timed_out (shared s') = true))) s.
Proof.
  intros Hok. destruct (keep_alive s) as [ka|] eqn:Ek.
  - destruct (ok_ka _ Hok _ Ek) as [Hka [last El]]. apply (wp_poll_keep_alive ka last); try done; [by apply (ok_last _ Hok)|].
    intros o s' Ht. destruct (turn_sys_ok _ _ _ _ _ _ Hok Ek Ht) as [Ho Hok']. destruct Ht as ((Hc & Eb & _) & Ht). split_and!; try done.
    destruct Ho as [->| ->]; [left; split; [done|]; by destruct Ht as (? & ? & _ & _ & _ & _ & _ & ? & _)|right; split; [done|apply Ht]].
  - unfold poll_keep_alive. do 2 wp_step. rewrite Ek. wp_step. split_and!; try done. by left.
Qed.

(** What a poll of a connection that runs says of it. *)
Definition said (o : outcome H2Error unit) (dead : Prop) (h : C) : Prop :=
  match o with
  | Ready _ => hc_result h = Some (Ok tt) \/ dead
  | Failed e => hc_result h = Some (Err e)
  | Pending => hc_result h = None
  | _ => False
  end.

(** [Conn::poll]. *)
Definition conn_polled c (o : outcome H2Error unit) c' : Prop :=
  sound o /\ (hc_result (h2conn c) = None -> said o (timed_out c' = true) (h2conn c')) /\ conn_ok c' /\ extended_connect (hc_peer c') = extended_connect (hc_peer c) /\ clock (rt (ponger c)) <= clock (rt (ponger c')) /\
  (timed_out c' = timed_out c \/ (timed_out c' = true /\ o = Ready tt /\ hc_goaway (h2conn c') = Some R_INTERNAL_ERROR)).

Lemma keeps_polled c c' o : conn_keeps c c' -> sound o -> (hc_result (h2conn c) = None -> said o (timed_out c' = true) (h2conn c')) -> conn_polled c o c'.
Proof. intros (? & ? & ? & ?) Ho Hs. split_and!; try done. by left. Qed.

Lemma h2_conn_poll_spec c : conn_ok c -> wp h2_conn_poll (conn_polled c) c.
Proof.
  intros Hok. assert (wp (ponged ← zoom ponger set_ponger (observe (E' := H2Error) ponger_poll);
      match ponged with Some (Ok (SizeUpdate wnd)) => modify (size_update wnd) | _ => mret tt end) (fun o c1 => o = Ready tt /\ conn_keeps c c1 /\ same_result c c1) c) as Hpong
    by (apply wp_pong; [done|by split]).
  unfold h2_conn_poll. wp_step. apply wp_intro. intros c0 ponged E0. destruct ponged as [ponged| | | |]; unfold wp, mbind, M_bind in Hpong; rewrite E0 in Hpong; try by destruct Hpong.
  wp_step. apply wp_intro. intros c1 o1 E1. rewrite E1 in Hpong. destruct Hpong as (-> & Hk1 & R1).
  wp_step. apply wp_poll_conn; [apply Hk1|]. intros r2 h2 Hk2 _ R2. wp_step. apply wp_flush_window; [apply Hk2|]. intros r3 c3 Hk3 R3.
  wp_step. apply wp_note_reads; [apply Hk3|]. intros c4 Hk4 R4.
  assert (conn_keeps c c4) as Hk by (eapply keeps_trans; [exact Hk1|]; eapply keeps_trans; [exact Hk2|]; by eapply keeps_trans).
  assert (hc_result (h2conn c) = None -> hc_result (h2conn c4) = r3) as Hr by (intros Hn; rewrite R4; apply R3, R2; by rewrite R1).
  destruct r3 as [[[]|e]|]; [wp_step; apply keeps_polled; try done; cbn; auto..|]. wp_step. apply wp_conn_is_idle; [apply Hk|]. intros idle c5 Hk5 R5.
  pose proof (keeps_trans _ _ _ Hk Hk5) as ([Hs Hw] & Et & Ee & Hc). wp_step. apply wp_zoom, wp_observe. eapply wp_mono; [by apply poll_keep_alive_ok|].
  intros o s' (Hs' & Eb & Hc' & Ho). assert (conn_ok (set_ponger s' c5)) as Hok' by (split; [done|]; intros w; cbn; rewrite Eb; apply Hw).
  destruct Ho as [[-> Eto]|[-> Eto]].
  - wp_step. split_and!; try done; [cbn; rewrite R5; auto|cbn; lia|]. left. unfold timed_out in *. cbn. congruence.
  - do 2 wp_step. destruct (hc_abrupt_shutdown_law R_INTERNAL_ERROR (h2conn c5)) as [Ew Eg]. wp_step.
    apply wp_poll_conn; [split; [apply Hok'|]; intros w; cbn; rewrite Ew; apply Hok'|].
    intros r h (Hok'' & _) Hg _. wp_step. split_and!; try done; [by right|cbn; lia|]. right. split_and!; [done|done|]. by apply Hg.
Qed.

(** ** [PrefacePingTimer] *)

(** A sleep is set to the deadline it was made for. *)
Definition preface_ok (p : PrefacePingTimer Sl) : Prop := forall sl, pt_sleep p = Some sl -> exists d, pt_deadline p = Some d /\ armed sl = Some d.

Lemma preface_fire_spec d r p : preface_ok p -> pt_deadline p = Some d -> wp preface_fire (fun o rp => clock r <= clock rp.1 /\ preface_ok rp.2 /\ pt_deadline rp.2 = Some d /\
  match pt_sleep p with
  | None => o = Pending /\ rp.2 = p
  | Some _ => (o = Ready tt /\ d <= clock rp.1 /\ pt_sleep rp.2 = None) \/ (o = Pending /\ clock r < d /\ is_Some (pt_sleep rp.2))
  end) (r, p).
Proof.
  intros Hp Ed. unfold wp, preface_fire. destruct (pt_sleep p) as [sl|] eqn:Es; [|done]. destruct (Hp _ Es) as (d' & Ed' & Ha).
  assert (d' = d) as -> by congruence. destruct (sleep_poll sl r) as [r' [sl' o]] eqn:Ep. apply sleep_poll_law with (d := d) in Ep as [Hc Ho]; [|done].
  destruct Ho as [[-> Hd]|(-> & Ha' & Hd)]; cbn; (split_and!; [done| |done|]); [by intros ?|by left|intros sl2 [= <-]; by exists d|right; by split_and!].
Qed.

(** What polling for the deadline [d] does. *)
Definition preface_polled (d : Z) (r : T) (p : PrefacePingTimer Sl) (o : outcome Empty_set unit) (rp : T * PrefacePingTimer Sl) : Prop :=
  clock r <= clock rp.1 /\ preface_ok rp.2 /\ pt_deadline rp.2 = Some d /\
  if decide (pt_deadline p = Some d /\ pt_sleep p = None) then o = Pending /\ rp.2 = p
  else (o = Ready tt /\ d <= clock rp.1 /\ pt_sleep rp.2 = None) \/ (o = Pending /\ clock r < d /\ is_Some (pt_sleep rp.2)).

Lemma preface_poll_spec d r p : preface_ok p -> wp (preface_poll (Some d)) (preface_polled d r p) (r, p).
Proof.
  intros Hp. unfold preface_poll. do 2 wp_step. cbn [snd]. wp_step. destruct (decide (pt_deadline p = Some d)) as [Ed|Ed].
  - wp_step. eapply wp_mono; [by apply preface_fire_spec|]. intros o rp (? & ? & ? & Ho). split_and!; try done.
    destruct (pt_sleep p); case_decide as Hd; try done; [by destruct Hd|]. by destruct Hd.
  - unfold wp, preface_arm at 1. destruct (match pt_sleep p with Some sl => _ | None => _ end) as [r' sl] eqn:Ea.
    assert (clock r <= clock r' /\ armed sl = Some d) as [Hc Ha] by (destruct (pt_sleep p); [by eapply timer_reset_law|by eapply timer_sleep_until_law]).
    assert (preface_ok (MkPreface (Some sl) (Some d))) as Hp' by (intros sl2 [= <-]; by exists d).
    eapply wp_mono; [by apply (preface_fire_spec d)|]. intros o rp (? & ? & ? & Ho). split_and!; try done; [lia|].
    rewrite decide_False by (by intros []). cbn in Ho. destruct Ho as [?|(? & ? & ?)]; [by left|right; split_and!; [done|lia|done]].
Qed.

(** ** [ConnTask] *)

Definition side_ok (x : Side T Sl P) (h : C) : Prop := match x with Pinging s w => sys_ok s /\ window_ok s w h | Plain _ => True end.

(** The streams see no difference. *)
Definition calm_side (x y : Side T Sl P) : Prop :=
  match x, y with
  | Pinging s _, Pinging s' _ => is_keep_alive_timed_out (shared s') = is_keep_alive_timed_out (shared s)
  | Plain _, Plain _ => True
  | _, _ => False
  end.
Lemma calm_refl x : calm_side x x.
Proof. by destruct x. Qed.
Lemma calm_trans x y z : calm_side x y -> calm_side y z -> calm_side x z.
Proof. destruct x, y, z; cbn; try done. congruence. Qed.
Lemma calm_rt r x : calm_side x (set_side_rt r x).
Proof. by destruct x. Qed.

Record conn_task_ok t : Prop := {
  ctk_side : side_ok (side t) (tk_conn t);
  ctk_preface : forall p, preface_ping t = Some p -> preface_ok p;
  ctk_cancel : cancel_tx t = false <-> drop_rx t = RxTerminated;
}.

(** What driving the connection leaves alone. *)
Definition task_keeps t t' : Prop :=
  conn_task_ok t' /\ drop_rx t' = drop_rx t /\ cancel_tx t' = cancel_tx t /\ extended_connect (tk_peer t') = extended_connect (tk_peer t).

(** Keep-alive has given up in this poll. *)
Definition gave_up t {E} (o : outcome E unit) t' : Prop :=
  calm_side (side t) (side t') \/
  exists s w, side t' = Pinging s w /\ is_keep_alive_timed_out (shared s) = true /\ o = Ready tt /\ hc_goaway (tk_conn t') = Some R_INTERNAL_ERROR.

(** The connection has ended: its poll said so, or keep-alive has given it up. *)
Definition over t : Prop := hc_result (tk_conn t) ≠ None \/ exists s w, side t = Pinging s w /\ is_keep_alive_timed_out (shared s) = true.

Lemma side_poll_spec t : conn_task_ok t -> wp side_poll (fun o t' => sound o /\ (~ over t -> match o with Pending => ~ over t' | _ => over t' end) /\ task_keeps t t' /\ is_terminated t' = is_terminated t /\ gave_up t o t') t.
Proof.
  intros [Hs Hp Hc]. unfold wp, side_poll, gave_up. destruct (side t) as [s w|r] eqn:Es.
  - pose proof (h2_conn_poll_spec (MkConn s (tk_conn t) (tk_peer t) w) Hs) as Hw. unfold wp in Hw. destruct (h2_conn_poll _) as [c o].
    destruct Hw as (Ho & Hsaid & Hok & Ee & _ & Ht). split_and!; try done; [|destruct Ht as [Ht|(? & ? & ?)]; [by left|right]; by do 2 eexists].
    intros Hn. assert (hc_result (tk_conn t) = None) as Hr by (destruct (hc_result (tk_conn t)) eqn:Er; [|done]; destruct Hn; left; congruence). specialize (Hsaid Hr).
    assert (is_keep_alive_timed_out (shared s) = false) as Hto by (destruct (is_keep_alive_timed_out (shared s)) eqn:Eto; [|done]; destruct Hn; right; by exists s, w).
    destruct o as [u|e| | |]; try done; cbn in Hsaid; unfold over; cbn.
    + destruct Hsaid as [->|?]; [by left|right; by do 2 eexists].
    + left. by rewrite Hsaid.
    + intros [?|(s' & w' & [= <- <-] & Hd)]; [done|]. destruct Ht as [Ht|(_ & ? & _)]; [|done]. unfold timed_out in Ht. cbn in Ht. congruence.
  - destruct (hc_poll (tk_conn t)) as [c o] eqn:E. apply hc_poll_law in E as (Ho & _ & _ & Er). split_and!; try done; [| |left; cbn; by rewrite Es].
    { intros Hn. assert (hc_result (tk_conn t) = None) as Hr by (destruct (hc_result (tk_conn t)) eqn:Er'; [|done]; destruct Hn; left; congruence).
      destruct o as [u|e| | |]; try done; unfold over; cbn; rewrite Es, Er; [by left|by left|]. intros [?|(? & ? & ? & _)]; congruence. }
    split_and!; try done. split; try done. cbn. by rewrite Es.
Qed.

Lemma side_ok_rt r x h : side_ok x h -> clock (side_rt x) <= clock r -> side_ok (set_side_rt r x) h.
Proof.
  destruct x as [s w|]; [|done]. cbn. intros [Hs Hw] Hc. split; [|done]. eapply sys_ok_calm; [done| |apply Hs|by left]. done.
Qed.

Lemma watch_preface_spec {E} t : conn_task_ok t ->
  wp watch_preface (fun (o : outcome E unit) t' => o = Ready tt /\ task_keeps t t' /\ is_terminated t' = is_terminated t /\ calm_side (side t) (side t') /\ tk_conn t' = tk_conn t) t.
Proof.
  intros Hok. pose proof Hok as [Hs Hp Hc]. unfold wp, watch_preface. destruct (preface_ping t) as [p|] eqn:Ep; [|split_and!; try done; apply calm_refl]. specialize (Hp p eq_refl).
  destruct (hc_preface_ping_deadline (tk_conn t)) as [d|].
  - pose proof (preface_poll_spec d (side_rt (side t)) p Hp) as Hw. unfold wp in Hw. destruct (preface_poll _ _) as [[r p'] o]. destruct Hw as (Hc' & Hp' & _ & Ho).
    assert (forall t2, side t2 = set_side_rt r (side t) -> tk_conn t2 = tk_conn t -> preface_ping t2 = Some p' -> drop_rx t2 = drop_rx t -> cancel_tx t2 = cancel_tx t ->
      tk_peer t2 = tk_peer t -> task_keeps t t2 /\ calm_side (side t) (side t2)) as Hk.
    { intros t2 E1 E2 E3 E4 E5 E6. split; [|rewrite E1; apply calm_rt]. split_and!; try congruence. split.
      - rewrite E1, E2. by apply side_ok_rt.
      - rewrite E3. by intros ? [= <-].
      - by rewrite E4, E5. }
    cbn in Ho. assert (o = Ready tt \/ o = Pending) as [->| ->] by (case_decide; naive_solver); (split; [done|]);
      match goal with |- task_keeps _ ?t2 /\ _ => destruct (Hk t2) as [? ?]; [done..|]; by split_and! end.
  - cbn. split; [done|]. assert (set_side_rt (side_rt (side t)) (side t) = side t) as -> by (by destruct (side t) as [[] ?|]).
    split_and!; try done; [|apply calm_refl]. split_and!; try done. split; [done| |done]. by intros ? [= <-].
Qed.

(** [ConnMapErr::poll] of a connection that has not ended. *)
Lemma over_calm t t' : calm_side (side t) (side t') -> tk_conn t' = tk_conn t -> over t' -> over t.
Proof.
  intros Hc Ec [Hr|(s' & w' & Es' & Hd)]; [left; congruence|]. right. rewrite Es' in Hc. destruct (side t) as [s w|]; [|done]. cbn in Hc. exists s, w. split; [done|congruence].
Qed.

Lemma conn_map_err_poll_spec t : conn_task_ok t -> is_terminated t = false -> wp conn_map_err_poll (fun o t' =>
  sound o /\ (~ over t -> match o with Pending => ~ over t' | _ => over t' end) /\ task_keeps t t' /\ gave_up t (match o with Pending => Pending | _ => Ready tt end : outcome unit unit) t' /\ is_terminated t' = match o with Pending => false | _ => true end) t.
Proof.
  intros Hok Et. unfold conn_map_err_poll. do 2 wp_step. rewrite Et. wp_step. apply wp_observe. eapply wp_mono; [by apply side_poll_spec|].
  intros o t1 (Ho & Hov & Hk & Et1 & Hg). destruct o as [u|e| | |]; try done.
  - do 3 wp_step. split_and!; try done. 1: by destruct Hk as ([] & ? & ? & ?); split_and!. destruct Hg as [?|(s & w & ? & ? & _ & ?)]; [by left|right; by exists s, w].
  - do 3 wp_step. split_and!; try done. 1: by destruct Hk as ([] & ? & ? & ?); split_and!. destruct Hg as [?|(s & w & _ & _ & ? & _)]; [by left|done].
  - wp_step. eapply wp_mono; [apply watch_preface_spec, Hk|]. intros o t2 (-> & Hk2 & Et2 & Ed2 & Ec2). wp_step. destruct Hk as (_ & ? & ? & ?), Hk2 as (? & ? & ? & ?).
    split_and!; try done; [intros Hn Ho2; exact (Hov Hn (over_calm _ _ Ed2 Ec2 Ho2))|split_and!; congruence|left|congruence]. destruct Hg as [?|(s & w & _ & _ & ? & _)]; [by eapply calm_trans|done].
Qed.

(** [ConnTask::poll]. *)
Definition task_polled t (o : outcome Empty_set unit) t' : Prop :=
  conn_task_ok t' /\ (o = Pending \/ o = Ready tt) /\ (is_terminated t' = true <-> over t') /\ (o = Ready tt <-> is_terminated t = false /\ is_terminated t' = true) /\
  (forall enabled, hc_extended_connect_protocol (tk_conn t') = Some enabled -> extended_connect (tk_peer t') = Some enabled) /\
  (o = Pending -> cancel_tx t' = false <-> drop_rx t ≠ HasSenders) /\ gave_up t o t'.

(** Only what the dispatching task is told changed. *)
Definition same_conn t t' : Prop :=
  side t' = side t /\ tk_conn t' = tk_conn t /\ preface_ping t' = preface_ping t /\ is_terminated t' = is_terminated t.

Lemma publish_settings_spec t : conn_task_ok t -> wp publish_settings (fun o t' =>
  o = Ready tt /\ conn_task_ok t' /\ same_conn t t' /\ drop_rx t' = drop_rx t /\
  forall enabled, hc_extended_connect_protocol (tk_conn t') = Some enabled -> extended_connect (tk_peer t') = Some enabled) t.
Proof.
  intros Hok. unfold publish_settings. do 2 wp_step. destruct (hc_extended_connect_protocol (tk_conn t)) as [enabled|] eqn:Ex.
  - case_decide; wp_step; (split_and!; try done); [congruence|by destruct Hok|]. cbn. congruence.
  - wp_step. split_and!; try done. congruence.
Qed.

Lemma watch_senders_spec t : conn_task_ok t -> wp watch_senders (fun o t' =>
  o = Ready tt /\ conn_task_ok t' /\ same_conn t t' /\ tk_peer t' = tk_peer t /\ (cancel_tx t' = false <-> drop_rx t ≠ HasSenders)) t.
Proof.
  intros Hok. pose proof Hok as [Hs Hp Hc]. unfold watch_senders. do 3 wp_step. destruct (decide (drop_rx t = RxTerminated)) as [Er|Er].
  - do 2 wp_step. split_and!; try done. by rewrite Hc, Er.
  - unfold drop_rx_ready. do 2 wp_step. destruct (drop_rx t) eqn:Ex; try done.
    + do 2 wp_step. split_and!; try done. by rewrite Hc.
    + do 3 wp_step. do 2 wp_step. cbn. destruct (cancel_tx t) eqn:Ecx; [|by destruct Hc as [Hc _]; specialize (Hc eq_refl)]. wp_step. split_and!; try done.
Qed.

Lemma same_conn_gave_up t t1 t2 {E E'} (o : outcome E unit) (o' : outcome E' unit) : gave_up t o t1 -> same_conn t1 t2 -> (o = Ready tt -> o' = Ready tt) -> gave_up t o' t2.
Proof. unfold gave_up. intros Hg (-> & -> & _) Ho. destruct Hg as [?|(s & w & ? & ? & ? & ?)]; [by left|right; exists s, w; split_and!; auto]. Qed.

Lemma same_conn_over t t' : same_conn t t' -> over t <-> over t'.
Proof. unfold over. by intros (-> & -> & _). Qed.

Lemma conn_task_poll_spec t : conn_task_ok t -> (is_terminated t = true <-> over t) -> wp conn_task_poll (task_polled t) t.
Proof.
  intros Hok Hover. unfold conn_task_poll. do 3 wp_step.
  assert (forall t1 (finished : bool), task_keeps t t1 -> is_terminated t1 = finished || is_terminated t -> (finished = true -> is_terminated t = false) -> (is_terminated t1 = true <-> over t1) ->
    gave_up t (if finished then Ready tt else Pending : outcome Empty_set unit) t1 ->
    wp (publish_settings;; if finished then mret tt else watch_senders;; pend) (task_polled t) t1) as Hend.
  { intros t1 finished (Hok1 & Ed & _) Et Hf Hov1 Hg. wp_step. eapply wp_mono; [by apply publish_settings_spec|]. intros o t2 (-> & Hok2 & Hsame & Ed2 & Hpub).
    destruct finished; cbn in Et; pose proof Hsame as (_ & _ & _ & Et2).
    - wp_step. split; [done|]. split; [by right|]. split; [by rewrite Et2, <-(same_conn_over _ _ Hsame)|]. split_and!; try done; [rewrite Et2, Et; split; [by auto|done]|by eapply same_conn_gave_up].
    - wp_step. eapply wp_mono; [by apply watch_senders_spec|]. intros o t3 (-> & Hok3 & Hsame3 & Ep & Hcx). wp_step.
      pose proof Hsame3 as (_ & Ec3 & _ & Et3). split; [done|]. split; [by left|]. split; [by rewrite Et3, Et2, <-(same_conn_over _ _ Hsame3), <-(same_conn_over _ _ Hsame)|]. split_and!; try done; [rewrite Et3, Et2, Et; split; [done|intros [??]; congruence]|rewrite Ec3, Ep; apply Hpub|by rewrite <-Ed, <-Ed2|].
      eapply same_conn_gave_up; [|exact Hsame3|done]. by eapply same_conn_gave_up. }
  destruct (is_terminated t) eqn:Et.
  - wp_step. apply (Hend t false); try done; [by rewrite Et|]. left. apply calm_refl.
  - wp_step. apply wp_observe. eapply wp_mono; [by apply conn_map_err_poll_spec|]. intros o t1 (Ho & Hov & Hk & Hg & Et1).
    assert (~ over t) as Hn by (intros ?%Hover; done). specialize (Hov Hn).
    destruct o as [[]|[]| | |]; try done; wp_step; [apply (Hend t1 true)|apply (Hend t1 true)|apply (Hend t1 false)]; try done; try (rewrite Et1; by split);
      (destruct Hg as [?|(s & w & ? & ? & ? & ?)]; [by left|try done; right; by exists s, w]).
Qed.
End conn_laws.

(** ** The task of an HTTP/2 connection: theorems

    The histories of the task that drives an HTTP/2 connection, from [handshake]
    on, and what holds along them. *)

Section conn_runs.
Context {T Sl P C : Type} `{TL : TimerLaws T Sl} `{SU : SleepUntil T Sl} `{SUL : !SleepUntilLaws T Sl} `{PP : PingPongOps P}
  `{HC : H2Connection C P} `{HCL : !H2ConnectionLaws C P}.
Abbreviation Ctk := (ConnTask T Sl P C).
Implicit Types (t : Ctk).

Lemma channel_starts pp cfg timer r (rec : Recorder) (s : Sys T Sl P) : cfg_ok cfg -> channel pp cfg timer r = Some (rec, s) ->
  sys_ok s /\ bdp_ <$> bdp s = bdp_initial_window cfg /\ is_keep_alive_timed_out (shared s) = false.
Proof.
  intros Hcfg E. unfold channel in E. destruct (is_enabled cfg) eqn:He; [|done]. cbn [negb] in E.
  destruct timer.
  - destruct (channel_ok pp cfg r He Hcfg) as (s' & E' & Hok & _). unfold channel in E'. rewrite He in E'. cbn [negb] in E'. rewrite E' in E. simplify_eq. split; [done|].
    clear -E'. destruct (timer_now r) as [? ?]. destruct (bdp_initial_window cfg), (keep_alive_interval cfg); cbn in E'; try destruct (timer_sleep _ _); by simplify_eq.
  - destruct (std_now r) as [r1 i] eqn:En. apply std_now_law in En as [Hn <-]. destruct (keep_alive_interval cfg); [by destruct (bdp_initial_window cfg)|].
    destruct Hcfg as [Hw _ _]. destruct (bdp_initial_window cfg) as [w|]; cbn in E; simplify_eq; (split; [|done]); split; cbn; try done.
    specialize (Hw _ eq_refl). split; [|done]. split; cbn; [lia|by vm_compute|done].
Qed.

(** What happens to the task: it is polled; time passes; a stream records data; the
    dispatching task uses the settings; all requests are gone; frames arrive. *)
Inductive conn_step t : Ctk -> Prop :=
| CsPoll : conn_step t (conn_task_poll t).1
| CsTime r : clock (side_rt (side t)) <= clock r -> conn_step t (set_side (set_side_rt r (side t)) t)
| CsData s w n : side t = Pinging s w -> is_u64 n -> conn_step t (set_side (Pinging (record_data Recording n s).1 w) t)
| CsPeer p : extended_connect p = extended_connect (tk_peer t) -> conn_step t (set_tk_peer p t)
| CsGone : drop_rx t = HasSenders -> conn_step t (set_drop_rx NoSenders t)
| CsWorld h : hc_window h = hc_window (tk_conn t) -> hc_result h = hc_result (tk_conn t) -> conn_step t (set_tk_conn h t).

(** The options are those of a connection whose first window is the one that was
    configured. *)
Definition conn_run (cfg : Config) t : Prop :=
  exists h timer r rec t0, handshake_tasks h cfg timer r = Some (rec, t0) /\
    (forall w, bdp_initial_window cfg = Some w -> hc_window (hc_ping_pong h).1 = w) /\ hc_result (tk_conn t0) = None /\ rtc conn_step t0 t.

Lemma handshake_ok cfg h timer r rec t0 : cfg_ok cfg -> (forall w, bdp_initial_window cfg = Some w -> hc_window (hc_ping_pong h).1 = w) ->
  handshake_tasks h cfg timer r = Some (rec, t0) -> conn_task_ok t0 /\ is_terminated t0 = false /\ (hc_result (tk_conn t0) = None -> ~ over t0).
Proof.
  intros Hcfg Hw E. unfold handshake_tasks in E.
  assert (forall p : PrefacePingTimer Sl, match timer with Timer => Some preface_new | Empty => None end = Some p -> preface_ok p) as Hp by (destruct timer; intros p [= <-] sl; done).
  destruct (is_enabled cfg); [|simplify_eq; split_and!; [done|done|by intros ? [?|(? & ? & ? & _)]]].
  destruct (hc_ping_pong h) as [h' [pp|]]; [|done]. destruct (channel pp cfg timer r) as [[rec' s]|] eqn:Ec; [|done]. simplify_eq.
  apply channel_starts in Ec as (Hok & Eb & Hto); [|done]. split_and!; [|done|intros ? [?|(s' & w' & [= <- <-] & ?)]; congruence]. split; [|done|done]. split; [done|]. intros w. rewrite Eb. apply Hw.
Qed.

Lemma conn_run_ok cfg t : cfg_ok cfg -> conn_run cfg t -> conn_task_ok t /\ (is_terminated t = true <-> over t).
Proof.
  intros Hcfg (h & timer & r & rec & t0 & E & Hw & Hn & Hr). destruct (handshake_ok _ _ _ _ _ _ Hcfg Hw E) as (Hok & Et & Hov). specialize (Hov Hn).
  assert (is_terminated t0 = true <-> over t0) as Hov' by (rewrite Et; by split).
  clear -Hok Hov' Hr SUL HCL. induction Hr as [t|t t1 t2 Hs _ IH]; [done|].
  assert (conn_task_ok t1 /\ (is_terminated t1 = true <-> over t1)) as [Hok1 Hov1]; [|by apply IH]. destruct Hok as [Hs0 Hp Hc]. destruct Hs as [|r Hcl|s w n Es Hn|p _|Ed|h Hw Hres].
  - pose proof (conn_task_poll_spec t (Build_conn_task_ok _ Hs0 Hp Hc) Hov') as Hq. unfold wp in Hq. destruct (conn_task_poll t). by destruct Hq as (? & _ & ? & _).
  - split; [split; [|done|done]; by apply side_ok_rt|]. cbn. rewrite Hov'. split; (apply over_calm; [|done]); cbn; [by destruct (side t)|apply calm_rt].
  - rewrite Es in Hs0. destruct Hs0 as [Hok Hw]. pose proof (record_data_spec Recording n s Hok Hn) as Hq. unfold wp in Hq.
    destruct (record_data Recording n s) as [s' o]. destruct Hq as (_ & Hok' & (_ & _ & Hd) & _ & Eb). split.
    + split; [|done|done]. split; [exact Hok'|]. intros w'. cbn. rewrite Eb. apply Hw.
    + cbn. rewrite Hov'. split; (apply over_calm; [|done]); cbn; rewrite Es; cbn; congruence.
  - by split.
  - split; [|done]. split; [done|done|]. cbn. rewrite Hc, Ed. done.
  - split.
    + split; [|done|done]. cbn. destruct (side t) as [s w|]; [|done]. destruct Hs0 as [Hok Hwin]. split; [done|]. intros w' Ew. specialize (Hwin w' Ew). destruct w; [done|congruence].
    + cbn. rewrite Hov'. unfold over. cbn. by rewrite Hres.
Qed.

(** C15. The task that drives an HTTP/2 connection never panics or loops: neither by
    being polled twice nor in its pings. A poll ends the task exactly when the
    connection has ended in it: a poll of the connection said that it is done, or
    failed, or keep-alive has given it up. Whatever the connection knows of the server's
    SETTINGS has been published when a poll returns, the last one included; and the
    dispatching task is told that all requests are gone by the first poll after
    that. *)
Theorem conn_task_safe cfg t : cfg_ok cfg -> conn_run cfg t ->
  wp conn_task_poll (fun o t' =>
    (o = Pending \/ o = Ready tt) /\ (o = Ready tt <-> ~ over t /\ over t') /\
    (forall enabled, hc_extended_connect_protocol (tk_conn t') = Some enabled -> extended_connect (tk_peer t') = Some enabled) /\
    (o = Pending -> cancel_tx t' = false <-> drop_rx t ≠ HasSenders)) t.
Proof.
  intros Hcfg [Hr Hov]%conn_run_ok; [|done]. eapply wp_mono; [by apply conn_task_poll_spec|]. intros o t' (_ & Ho & Hov' & Ht & Hp & Hc & _). split_and!; try done.
  rewrite Ht, <-Hov, Hov'. rewrite not_true_iff_false. done.
Qed.

(** The window that the pings estimate is not lost: at any time it is the one
    the connection has asked for, or it is the one that waits until an earlier
    SETTINGS has been acknowledged. *)
Theorem estimate_applied cfg t s w : cfg_ok cfg -> conn_run cfg t -> side t = Pinging s w ->
  forall b, bdp s = Some b -> match w with Some p => p = bdp_ b | None => hc_window (tk_conn t) = bdp_ b end.
Proof.
  intros Hcfg [Hr _]%conn_run_ok Es b Eb; [|done]. pose proof (ctk_side _ Hr) as Hs. rewrite Es in Hs. destruct Hs as [_ Hw]. apply Hw. by rewrite Eb.
Qed.

(** When keep-alive gives a connection up, the poll in which it does so ends the
    task, and the connection has been told to go away with INTERNAL_ERROR; from then
    on the streams fail with a timeout. No other poll changes what they see. *)
Theorem keep_alive_ends_task cfg t s w : cfg_ok cfg -> conn_run cfg t -> side t = Pinging s w ->
  wp conn_task_poll (fun o t' => exists s' w', side t' = Pinging s' w' /\
    (is_keep_alive_timed_out (shared s') = is_keep_alive_timed_out (shared s) \/
     (o = Ready tt /\ is_terminated t' = true /\ hc_goaway (tk_conn t') = Some R_INTERNAL_ERROR /\ ensure_not_timed_out Recording (shared s') = Err timed_out_error))) t.
Proof.
  intros Hcfg [Hr Hov]%conn_run_ok Es; [|done]. eapply wp_mono; [by apply conn_task_poll_spec|]. intros o t' (_ & _ & _ & Ht & _ & _ & Hg). unfold gave_up in Hg. rewrite Es in Hg.
  destruct Hg as [Hc|(s' & w' & E' & Ed & Eo & Eg)].
  - destruct (side t') as [s' w'|]; [|done]. exists s', w'. split; [done|by left].
  - exists s', w'. split; [done|right]. split_and!; [done|by apply Ht|done|]. unfold ensure_not_timed_out. by rewrite Ed.
Qed.

(** ** The deadline of the preface ping *)

(** Polls for one deadline, with time passing before each; whether each fired. *)
Inductive preface_watch (d : Z) : T * PrefacePingTimer Sl -> list bool -> T * PrefacePingTimer Sl -> Prop :=
| pw_nil rp : preface_watch d rp [] rp
| pw_poll r p r1 rp' o l rp'' : clock r <= clock r1 -> preface_poll (Some d) (r1, p) = (rp', o) -> preface_watch d rp' l rp'' ->
    preface_watch d (r, p) (match o with Ready _ => true | _ => false end :: l) rp''.

(** The deadline has fired. *)
Definition fired (d : Z) (p : PrefacePingTimer Sl) : Prop := pt_deadline p = Some d /\ pt_sleep p = None.

Lemma preface_watch_spec d rp l rp' : preface_watch d rp l rp' -> preface_ok rp.2 -> preface_ok rp'.2 /\ clock rp.1 <= clock rp'.1 /\
  (fired d rp.2 -> fired d rp'.2 /\ true ∉ l) /\
  (~ fired d rp.2 -> (l = replicate (length l) false /\ ~ fired d rp'.2) \/ (fired d rp'.2 /\ d <= clock rp'.1 /\ exists n m, l = replicate n false ++ true :: replicate m false)).
Proof.
  assert (forall k, true ∉ k -> k = replicate (length k) false) as Hrep.
  { intros k. induction k as [|b k IH]; intros Hn; [done|]. destruct b; [set_solver|]. cbn. f_equal. apply IH. set_solver. }
  induction 1 as [rp|r p r1 rp1 o l rp2 Hr Ep _ IH]; intros Hp; cbn in Hp.
  { split_and!; try done; [set_solver|]. intros Hf. by left. }
  pose proof (wp_elim _ _ _ _ _ (preface_poll_spec d r1 p Hp) Ep) as (Hc & Hp1 & Ed & Ho). destruct (IH Hp1) as (Hp2 & Hc2 & Hf1 & Hf2). cbn [fst snd].
  split_and!; [done|lia|..].
  - intros Hf. rewrite decide_True in Ho by done. destruct Ho as [-> E]. rewrite E in *. destruct (Hf1 Hf). split; [done|set_solver].
  - intros Hf. rewrite decide_False in Ho by done. destruct Ho as [(-> & Hd & Es)|(-> & Hd & [sl Es])].
    + right. destruct (Hf1 (conj Ed Es)) as [Hf' Hn]. split_and!; [done|lia|]. exists 0%nat, (length l). cbn. f_equal. by apply Hrep.
    + assert (~ fired d rp1.2) as Hnf by (intros [_ ?]; congruence). destruct (Hf2 Hnf) as [[El ?]|(? & ? & n & m & El)].
      * left. split; [|done]. cbn. by f_equal.
      * right. split_and!; [done|done|]. exists (S n), m. by rewrite El.
Qed.

(** A deadline of the preface ping wakes the connection's task once: of the polls
    for it, at any times, at most one fires, and not before the deadline; and when
    none has, the next poll at or after the deadline does. *)
Theorem preface_deadline_fires_once d r p l r' p' : preface_ok p -> pt_deadline p ≠ Some d -> preface_watch d (r, p) l (r', p') ->
  (length (filter (fun b => b = true) l) <= 1)%nat /\ (true ∈ l -> d <= clock r') /\
  forall r1, clock r' <= clock r1 -> d <= clock r1 ->
    wp (preface_poll (Some d)) (fun o _ => o = if decide (true ∈ l) then Pending else Ready tt) (r1, p').
Proof.
  intros Hp Hd Hw. destruct (preface_watch_spec _ _ _ _ Hw Hp) as (Hp' & _ & _ & Hf). cbn [fst snd] in *.
  assert (forall n, filter (fun b : bool => b = true) (replicate n false) = []) as Hfr by (induction n as [|n IH]; [done|]; by rewrite replicate_S, filter_cons_False).
  assert (forall r1, clock r' <= clock r1 -> wp (preface_poll (Some d)) (preface_polled d r1 p') (r1, p')) as Hpoll by (intros; by apply preface_poll_spec).
  destruct Hf as [[El Hnf]|(Hf & Hc & n & m & El)]; [by intros []|..].
  - assert (true ∉ l) as Hn by (rewrite El; intros [? _]%elem_of_replicate; done). split_and!; [rewrite El, Hfr; cbn; lia|done|].
    intros r1 Hr Hr1. eapply wp_mono; [by apply Hpoll|]. intros o rp (_ & _ & _ & Ho). rewrite decide_False in Ho by done. rewrite decide_False by done.
    destruct Ho as [(-> & _)|(_ & ? & _)]; [done|lia].
  - assert (true ∈ l) as Hin by (rewrite El; set_solver). split_and!; [rewrite El, filter_app, filter_cons_True, !Hfr by done; cbn; lia|done|].
    intros r1 Hr Hr1. eapply wp_mono; [by apply Hpoll|]. intros o rp (_ & _ & _ & Ho). rewrite decide_True in Ho by done. rewrite decide_True by done. by destruct Ho.
Qed.
End conn_runs.

(** ** Examples *)

Module ConcreteConn.
Import ConcretePing.

#[export] Instance ticks_until : SleepUntil ticks (option Z) := { timer_sleep_until d t := (t, Some d) }.
#[export] Instance ticks_until_laws : SleepUntilLaws ticks (option Z).
Proof. split. intros d t t' sl [= <- <-]. split; [lia|done]. Qed.

(** A connection that waits for ever, has one SETTINGS unacknowledged at a time and
    supports extended CONNECT; it fails once it is broken. *)
Record h2c : Type := H2c { h_window : Z; h_unacked : bool; h_gone : option Z; h_peer : peer; h_broken : bool; h_over : option (result H2Error unit) }.
#[export] Instance h2c_conn : H2Connection h2c peer := {
  hc_poll c := if h_broken c then (H2c (h_window c) (h_unacked c) (h_gone c) (h_peer c) true (Some (Err (H2Other "broken"))), Failed (H2Other "broken")) else (c, Pending);
  hc_ping_pong c := (c, Some (h_peer c));
  hc_set_target_window_size _ c := c;
  hc_set_initial_window_size w c := if h_unacked c then (c, Err (H2Other "settings not acknowledged")) else (H2c w true (h_gone c) (h_peer c) (h_broken c) (h_over c), Ok tt);
  hc_take_read_activity c := (c, false);
  hc_has_streams _ := true;
  hc_abrupt_shutdown r c := H2c (h_window c) (h_unacked c) (Some r) (h_peer c) (h_broken c) (h_over c);
  hc_preface_ping_deadline _ := Some (secs 3);
  hc_extended_connect_protocol _ := Some true;
}.
#[export] Instance h2c_laws : H2ConnectionLaws h2c peer.
Proof.
  refine {| hc_window := h_window; hc_goaway := h_gone; hc_result := h_over |}.
  - intros c c' o. cbn. destruct (h_broken c); by intros [= <- <-].
  - done.
  - intros w c c' r. cbn. destruct (h_unacked c); by intros [= <- <-].
  - intros c c' b [= <- <-]. done.
  - done.
Defined.

Definition task0 (p : peer) (unacked : bool) : ConnTask ticks (option Z) peer h2c :=
  match handshake_tasks (H2c 65535 unacked None p false None) cfg Timer 0 with
  | Some (_, t) => t
  | None => MkConnTask (Plain 0) (H2c 0 false None p false None) None true HasSenders true peer_new 0
  end.

Lemma cfg_is_ok : cfg_ok cfg.
Proof. apply config_new_ok; [by vm_compute|by vm_compute|]. by intros i [= <-]. Qed.

Lemma task0_run p unacked : conn_run cfg (task0 p unacked).
Proof.
  exists (H2c 65535 unacked None p false None), Timer, 0, Recording, (task0 p unacked). split; [|split; [|split; [|apply rtc_refl]]].
  - destruct p as [[] []]; vm_compute; reflexivity.
  - intros w. vm_compute. congruence.
  - destruct p as [[] []]; vm_compute; reflexivity.
Qed.

Abbreviation Tk0 := (ConnTask ticks (option Z) peer h2c).

Lemma run_step (t t' : Tk0) : conn_run cfg t -> conn_step t t' -> conn_run cfg t'.
Proof. intros (h & tm & r & rec & t0 & E & Hw & Hn & Hs) H1. exists h, tm, r, rec, t0. split_and!; [done|done|done|]. by eapply rtc_r. Qed.

(** The requests are gone, and the connection breaks. *)
Definition broken0 : Tk0 := set_drop_rx NoSenders (task0 lively false).
Definition broken1 : Tk0 := set_tk_conn (H2c 65535 false None lively true None) (conn_task_poll broken0).1.
Definition broken2 : Tk0 := Eval vm_compute in (conn_task_poll broken1).1.

Lemma broken1_run : conn_run cfg broken1.
Proof. refine (run_step _ _ (run_step _ _ (run_step _ _ (task0_run lively false) (CsGone _ _)) (CsPoll _)) (CsWorld _ _ _ _)); by vm_compute. Qed.
Lemma broken1_told : cancel_tx broken1 = false.
Proof. by vm_compute. Qed.
Lemma broken1_polled : conn_task_poll broken1 = (broken2, Ready tt).
Proof. by vm_compute. Qed.

Lemma conn_task_safe_witness : cancel_tx broken1 = false /\ conn_task_poll broken1 = (broken2, Ready tt) /\ ~ over broken1 /\ over broken2.
Proof.
  split; [exact broken1_told|]. split; [exact broken1_polled|].
  pose proof (wp_elim _ _ _ _ _ (conn_task_safe cfg broken1 cfg_is_ok broken1_run) broken1_polled) as (_ & Ho & _). exact (proj1 Ho eq_refl).
Defined.

Definition at_time (r : ticks) (t : Tk0) : Tk0 := set_side (set_side_rt r (side t)) t.
Definition sys_of (t : Tk0) : Sys ticks (option Z) peer := match side t with Pinging s _ => s | Plain _ => start lively end.
Definition pending_of (t : Tk0) : option Z := match side t with Pinging _ w => w | Plain _ => None end.

(** Data arrives and is measured over 20 milliseconds, with SETTINGS unacknowledged:
    the doubled window waits. *)
Definition measured0 : Tk0 := set_side (Pinging (record_data Recording 60000 (sys_of (task0 lively true))).1 None) (task0 lively true).
Definition measured1 : Tk0 := (conn_task_poll (at_time 20000000 measured0)).1.

Lemma measured1_run : conn_run cfg measured1.
Proof.
  refine (run_step _ _ (run_step _ _ (run_step _ _ (task0_run lively true) (CsData _ (sys_of (task0 lively true)) None 60000 _ _)) (CsTime _ 20000000 _)) (CsPoll _)); by vm_compute.
Qed.

Lemma estimate_applied_witness : side measured1 = Pinging (sys_of measured1) (Some 120000) /\ hc_window (tk_conn measured1) = 65535 /\
  forall b, bdp (sys_of measured1) = Some b -> 120000 = bdp_ b.
Proof. split; [by vm_compute|]. split; [by vm_compute|]. apply (estimate_applied cfg measured1 (sys_of measured1) (Some 120000) cfg_is_ok measured1_run). by vm_compute. Defined.

(** Silence: a ping in the tenth second, and the end in the fifteenth. *)
Definition silent1 : Tk0 := at_time (secs 15) (conn_task_poll (at_time (secs 10) (task0 silent false))).1.

Lemma silent1_run : conn_run cfg silent1.
Proof.
  refine (run_step _ _ (run_step _ _ (run_step _ _ (task0_run silent false) (CsTime _ (secs 10) _)) (CsPoll _)) (CsTime _ (secs 15) _)); by vm_compute.
Qed.

Lemma keep_alive_ends_task_witness : (conn_task_poll silent1).2 = Ready tt /\ h_gone (tk_conn (conn_task_poll silent1).1) = Some R_INTERNAL_ERROR /\
  wp conn_task_poll (fun o t' => exists s' w', side t' = Pinging s' w' /\
    (is_keep_alive_timed_out (shared s') = is_keep_alive_timed_out (shared (sys_of silent1)) \/
     (o = Ready tt /\ is_terminated t' = true /\ hc_goaway (tk_conn t') = Some R_INTERNAL_ERROR /\ ensure_not_timed_out Recording (shared s') = Err timed_out_error))) silent1.
Proof.
  split; [by vm_compute|]. split; [by vm_compute|].
  apply (keep_alive_ends_task cfg silent1 (sys_of silent1) (pending_of silent1) cfg_is_ok silent1_run). by vm_compute.
Defined.

(** A deadline at three seconds, polled at one, four and five. *)
Lemma preface_deadline_fires_once_witness :
  let rp := (secs 5, MkPreface None (Some (secs 3))) in preface_watch (Sl := option Z) (secs 3) (0, preface_new) [false; true; false] rp /\
  forall r1, tick (secs 5) <= tick r1 -> secs 3 <= tick r1 -> wp (preface_poll (T := ticks) (Some (secs 3))) (fun o _ => o = Pending) (r1, MkPreface (None : option (option Z)) (Some (secs 3))).
Proof.
  intros rp. assert (preface_watch (Sl := option Z) (secs 3) (0, preface_new) [false; true; false] rp) as Hw.
  { eapply (pw_poll _ _ _ (secs 1) _ Pending); [by vm_compute|vm_compute; reflexivity|]. eapply (pw_poll _ _ _ (secs 4) _ (Ready tt)); [by vm_compute|vm_compute; reflexivity|].
    eapply (pw_poll _ _ _ (secs 5) _ Pending); [by vm_compute|vm_compute; reflexivity|]. apply pw_nil. }
  split; [exact Hw|]. destruct (preface_deadline_fires_once (secs 3) 0 preface_new _ _ _ ltac:(by intros sl) ltac:(done) Hw) as (_ & _ & Hf).
  intros r1 H1 H2. exact (Hf r1 H1 H2).
Defined.
End ConcreteConn.
