(* ===== verification/Http2Recv.v ===== *)
(** * Http2Recv

    The body of an HTTP/2 response, as its reader polls it: the [H2] kind of
    [body/incoming.rs]. Every chunk is counted against the length that was declared
    and reported to the pings, and its flow-control capacity is given back.

    The receiving half of an [http2] stream is a parameter. The recorder of the pings
    works on the shared state of [Ping], which is kept beside the body. *)

From stdpp Require Import prelude strings.
From Stdlib Require Import ZArith Lia.
From S2P Require Import Prelude Bytes Errors Length Dispatcher Ping PingLaws PingTheorems.
Local Open Scope Z_scope.

(** [http2::RecvStream] and its [FlowControl]: [Ready None] of [rcv_poll_data] is the
    end of the data; [rcv_release_capacity]'s result is ignored everywhere. *)
Class RecvStreamOps (RS Hm : Type) : Type := {
  rcv_poll_data : M RS H2Error (option bytes);
  rcv_poll_trailers : M RS H2Error (option Hm);
  rcv_is_end : RS -> bool;
  rcv_used_capacity : RS -> Z;
  rcv_release_capacity : Z -> RS -> RS;
}.

Section incoming.
Context {RS Hm T Sl P : Type} `{RecvStreamOps RS Hm} `{TimerOps T Sl} `{PingPongOps P}.

(** [Kind::H2] with the state the recorder shares. *)
Record H2Body : Type := MkH2Body { ib_sys : Sys T Sl P; ib_ping : Recorder; ib_recv : RS; ib_length : DecodedLength; ib_data_done : bool }.
Definition set_ib_sys x b := MkH2Body x (ib_ping b) (ib_recv b) (ib_length b) (ib_data_done b).
Definition set_ib_recv x b := MkH2Body (ib_sys b) (ib_ping b) x (ib_length b) (ib_data_done b).
Definition set_ib_length x b := MkH2Body (ib_sys b) (ib_ping b) (ib_recv b) x (ib_data_done b).
Definition set_data_done x b := MkH2Body (ib_sys b) (ib_ping b) (ib_recv b) (ib_length b) x.

Definition Ib (A : Type) : Type := M H2Body Error A.

(** [ping.record_data(n)] on the shared state; it never waits. *)
Definition ib_record (n : Z) : Ib unit := fun b =>
  match record_data (ib_ping b) n (ib_sys b) with
  | (s, Ready _) | (s, Pending) => (set_ib_sys s b, Ready tt)
  | (s, Panicked) | (s, Failed _) => (set_ib_sys s b, Panicked)
  | (s, NoFuel) => (set_ib_sys s b, NoFuel)
  end.

(** A chunk: its capacity is given back, and it is counted. *)
Definition h2_chunk (data : bytes) : Ib (option (BodyFrame bytes Hm)) :=
  modify (fun b => set_ib_recv (rcv_release_capacity (len data) (ib_recv b)) b);;
  b ← get;
  left ← expect (sub_if (len data) (ib_length b));
  modify (set_ib_length left);;
  ib_record (len data);;
  mret (Some (FData data)).

(** A failed stream: a reset with NO_ERROR ends the body; a keep-alive timeout is
    reported as such. *)
Definition h2_stream_error (err : H2Error -> Error) (e : H2Error) : Ib (option (BodyFrame bytes Hm)) :=
  if decide (h2_error_reason e = Some R_NO_ERROR) then mret None
  else
    b ← get;
    match ensure_not_timed_out (ib_ping b) (shared (ib_sys b)) with
    | Err timeout => fail timeout
    | Ok _ => fail (err e)
    end.

(** After the data, the trailers. *)
Definition h2_trailers : Ib (option (BodyFrame bytes Hm)) :=
  match_ready (zoom ib_recv set_ib_recv rcv_poll_trailers)
    (fun t => mret (FTrailers <$> t))
    (h2_stream_error new_h2).

(** [poll_frame] of the [H2] kind. *)
Definition h2_poll_frame : Ib (option (BodyFrame bytes Hm)) :=
  b ← get;
  if ib_data_done b then h2_trailers
  else
    match_ready (zoom ib_recv set_ib_recv rcv_poll_data)
      (fun d => match d with
                | Some data => h2_chunk data
                | None => modify (set_data_done true);; h2_trailers
                end)
      (h2_stream_error (fun e => new_body (CauseH2 e))).

(** [is_end_stream] and [size_hint] of the [H2] kind. *)
Definition h2_is_end_stream (b : H2Body) : bool := rcv_is_end (ib_recv b).
Definition h2_size_hint (b : H2Body) : option Z := into_opt (ib_length b).

(** [Incoming::h2] with the shared state of the pings. *)
Definition h2_body_new (sys : Sys T Sl P) (recv : RS) (content_length : DecodedLength) (ping : Recorder) : H2Body :=
  MkH2Body sys ping recv (if negb (is_exact content_length) && rcv_is_end recv then ZERO else content_length) false.
End incoming.
Arguments H2Body : clear implicits.

(** ** The body of an HTTP/2 response: laws and theorem *)

(** What the receiving half of a stream promises. [rcv_given] is the data it has handed
    out; data in hand uses capacity until it is released; [rcv_limit] is what is left
    of the length the head declared, which the protocol enforces; after the end there
    is no more data. [rcv_ready] bounds the frames it has at hand. *)
Class RecvStreamLaws (RS Hm : Type) `{RecvStreamOps RS Hm} : Type := {
  rcv_given : RS -> list bytes;
  rcv_limit : RS -> option Z;
  rcv_ready : RS -> nat;
  rcv_poll_data_law r r' o : rcv_poll_data r = (r', o) -> sound o /\ (rcv_is_end r = true -> rcv_is_end r' = true) /\
    match o with
    | Ready (Some d) => rcv_given r' = rcv_given r ++ [d] /\ rcv_used_capacity r' = rcv_used_capacity r + len d /\ is_u64 (len d) /\
        (rcv_ready r' < rcv_ready r)%nat /\ (rcv_is_end r = true -> d = []) /\
        match rcv_limit r with Some n => len d <= n /\ rcv_limit r' = Some (n - len d) | None => rcv_limit r' = None end
    | _ => rcv_given r' = rcv_given r /\ rcv_used_capacity r' = rcv_used_capacity r /\ rcv_limit r' = rcv_limit r
    end;
  rcv_poll_trailers_law r r' o : rcv_poll_trailers r = (r', o) -> sound o /\ rcv_given r' = rcv_given r /\
    rcv_used_capacity r' = rcv_used_capacity r /\ rcv_limit r' = rcv_limit r /\ (rcv_is_end r = true -> rcv_is_end r' = true);
  rcv_used_law r : 0 <= rcv_used_capacity r;
  rcv_release_law n r : 0 <= n <= rcv_used_capacity r -> rcv_used_capacity (rcv_release_capacity n r) = rcv_used_capacity r - n /\
    rcv_given (rcv_release_capacity n r) = rcv_given r /\ rcv_limit (rcv_release_capacity n r) = rcv_limit r /\
    rcv_is_end (rcv_release_capacity n r) = rcv_is_end r;
}.

Lemma sub_if_exact l n amt : dl_wf l -> into_opt l = Some n -> 0 <= amt <= n ->
  sub_if amt l = Some (DL (n - amt)) /\ into_opt (DL (n - amt)) = Some (n - amt) /\ dl_wf (DL (n - amt)).
Proof.
  intros Hwf Hn Ha. unfold into_opt in Hn. destruct (decide _) as [|Hx]; [done|]. injection Hn as <-.
  assert (dl_raw l <= MAX_LEN) as Hm by (apply Z.leb_le, is_exact_iff; [done|]; split; intros ?; apply Hx; auto).
  assert (dl_wf (DL (dl_raw l - amt))) as Hwf' by (unfold dl_wf, is_u64 in *; cbn; lia). split_and!; [|apply is_exact_spec; [done|]; apply Z.leb_le; cbn; lia|done].
  unfold sub_if. rewrite decide_False by done. rewrite checked_sub_le by lia. done.
Qed.

Section incoming_laws.
Context {RS Hm T Sl P : Type} `{RSL : RecvStreamLaws RS Hm} `{TL : TimerLaws T Sl} `{PP : PingPongOps P}.
Abbreviation Body := (H2Body RS T Sl P).
Abbreviation Fr := (BodyFrame bytes Hm).
Implicit Types (b : Body) (fs : list Fr).

Definition data_frames fs : list bytes := omap (fun f => match f with FData d => Some d | _ => None end) fs.

(** What is left of the length is what the stream enforces. *)
Definition length_ok b : Prop :=
  dl_wf (ib_length b) /\ forall n, h2_size_hint b = Some n -> rcv_limit (ib_recv b) = Some n \/ (n = 0 /\ rcv_is_end (ib_recv b) = true).

Record body_ok b : Prop := {
  bo_sys : sys_ok (ib_sys b);
  bo_used : rcv_used_capacity (ib_recv b) = 0;
  bo_length : length_ok b;
}.

(** A poll: what comes out is what the stream has handed out. *)
Definition body_polled b (o : outcome Error (option Fr)) b' : Prop :=
  sound o /\ body_ok b' /\
  match o with
  | Ready (Some (FData d)) => ib_data_done b = false /\ rcv_given (ib_recv b') = rcv_given (ib_recv b) ++ [d] /\
      match h2_size_hint b with Some n => len d <= n /\ h2_size_hint b' = Some (n - len d) | None => h2_size_hint b' = None end
  | _ => rcv_given (ib_recv b') = rcv_given (ib_recv b) /\ h2_size_hint b' = h2_size_hint b /\ (ib_data_done b = true -> ib_data_done b' = true)
  end /\
  match o with
  | Ready (Some FOther) => False
  | Ready (Some (FTrailers _)) => ib_data_done b' = true
  | Failed e => e = timed_out_error \/ exists h, h2_error_reason h ≠ Some R_NO_ERROR /\ (e = new_body (CauseH2 h) \/ e = new_h2 h)
  | _ => True
  end.

Lemma sub_if_hint b (d : bytes) : length_ok b -> is_u64 (len d) ->
  match rcv_limit (ib_recv b) with Some n => len d <= n | None => True end -> (rcv_is_end (ib_recv b) = true -> d = []) ->
  exists l, sub_if (len d) (ib_length b) = Some l /\ dl_wf l /\
    match h2_size_hint b with Some n => len d <= n /\ into_opt l = Some (n - len d) | None => into_opt l = None end.
Proof.
  intros [Hwf Hl] Hd Hlim Hend. destruct (h2_size_hint b) as [n|] eqn:Eh.
  - assert (0 <= len d <= n) as Hle.
    { split; [by destruct Hd|]. destruct (Hl n eq_refl) as [Hn|[-> He]]; [by rewrite Hn in Hlim|]. by rewrite (Hend He). }
    destruct (sub_if_exact _ n (len d) Hwf Eh Hle) as (E1 & E2 & E3). exists (DL (n - len d)). split_and!; try done. by destruct Hle.
  - exists (ib_length b). unfold h2_size_hint, into_opt, sub_if in *. destruct (decide _); [done|discriminate].
Qed.

Lemma wp_ib_record n b (Q : outcome Error unit -> Body -> Prop) : sys_ok (ib_sys b) -> is_u64 n ->
  (forall s, sys_ok s -> Q (Ready tt) (set_ib_sys s b)) -> wp (ib_record n) Q b.
Proof.
  intros Hs Hn HQ. unfold wp, ib_record. pose proof (record_data_spec (ib_ping b) n (ib_sys b) Hs Hn) as Hr. unfold wp in Hr.
  destruct (record_data _ _ _) as [s o]. destruct Hr as (-> & Hs' & _). by apply HQ.
Qed.

Lemma wp_stream_error b b1 err e : body_ok b1 -> rcv_given (ib_recv b1) = rcv_given (ib_recv b) -> h2_size_hint b1 = h2_size_hint b ->
  (ib_data_done b = true -> ib_data_done b1 = true) -> (err e = new_body (CauseH2 e) \/ err e = new_h2 e) ->
  wp (h2_stream_error err e) (body_polled b) b1.
Proof.
  intros Hok Eg Eh Ed He. unfold h2_stream_error. destruct (decide _) as [Hr|Hr]; [by wp_step|]. do 2 wp_step.
  destruct (ensure_not_timed_out _ _) as [u|t] eqn:Et; wp_step; split_and!; try done.
  - right. exists e. by split.
  - left. unfold ensure_not_timed_out in Et. destruct (ib_ping b1); [|done]. destruct (is_keep_alive_timed_out _); congruence.
Qed.

(** Only the stream moved on. *)
Lemma body_ok_recv b r : body_ok b -> rcv_used_capacity r = 0 -> rcv_limit r = rcv_limit (ib_recv b) -> (rcv_is_end (ib_recv b) = true -> rcv_is_end r = true) ->
  body_ok (set_ib_recv r b).
Proof.
  intros [Hs Hu [Hwf Hl]] Eu El He. split; [done|done|]. split; [done|]. intros n Hn. cbn. rewrite El. destruct (Hl n Hn) as [?|[? ?]]; [by left|right; auto].
Qed.

Lemma wp_trailers b b1 : body_ok b1 -> rcv_given (ib_recv b1) = rcv_given (ib_recv b) -> h2_size_hint b1 = h2_size_hint b -> ib_data_done b1 = true ->
  wp h2_trailers (body_polled b) b1.
Proof.
  intros Hok Eg Eh Ed. unfold h2_trailers. wp_step. apply wp_zoom. apply wp_intro. intros r o Er. apply rcv_poll_trailers_law in Er as (Ho & E1 & E2 & E3 & E4).
  assert (body_ok (set_ib_recv r b1)) as Hok1 by (apply body_ok_recv; [done|rewrite E2; apply Hok|done|done]).
  assert (rcv_given (ib_recv (set_ib_recv r b1)) = rcv_given (ib_recv b)) as Eg1 by (cbn; congruence).
  destruct o as [[t|]|e| | |]; try done; [wp_step..|]; try (split_and!; done). apply wp_stream_error; try done. by right.
Qed.

Lemma wp_chunk b r d : body_ok b -> ib_data_done b = false -> rcv_poll_data (ib_recv b) = (r, Ready (Some d)) ->
  wp (h2_chunk d) (body_polled b) (set_ib_recv r b).
Proof.
  intros Hok Edone Er. apply rcv_poll_data_law in Er as (_ & He & Eg & Eu & Hd & _ & Hend & Hlim). pose proof Hok as [Hs Hu Hlen]. rewrite Hu in Eu.
  unfold h2_chunk. do 2 wp_step. do 2 wp_step. cbn [ib_recv set_ib_recv].
  destruct (rcv_release_law (len d) r) as (Eu' & Eg' & El' & Ee'); [unfold is_u64 in Hd; lia|].
  destruct (sub_if_hint b d Hlen Hd) as (l & El & Hwf & Hh); [by destruct (rcv_limit (ib_recv b)); [apply Hlim|]|done|].
  wp_step. wp_expect El. do 2 wp_step. wp_step. apply wp_ib_record; [done|done|]. intros s Hs'. wp_step. split_and!; try done.
  - split; [done|cbn; lia|]. split; [done|]. unfold h2_size_hint at 1. cbn. intros n Hn. rewrite El', Ee'.
    destruct (h2_size_hint b) as [m|] eqn:Em; [|congruence]. destruct Hh as [Hle Hh]. assert (n = m - len d) as -> by congruence.
    destruct Hlen as [_ Hlen]. destruct (Hlen m Em) as [Hlm|[-> He0]]; [left; rewrite Hlm in Hlim; apply Hlim|right]. rewrite (Hend He0). split; [done|auto].
  - cbn. by rewrite Eg', Eg.
Qed.

Lemma h2_poll_frame_spec b : body_ok b -> wp h2_poll_frame (body_polled b) b.
Proof.
  intros Hok. unfold h2_poll_frame. do 2 wp_step. destruct (ib_data_done b) eqn:Ed; [by apply wp_trailers|].
  wp_step. apply wp_zoom. apply wp_intro. intros r o Er. destruct o as [[d|]|e| | |]; [by apply wp_chunk|..]; apply rcv_poll_data_law in Er as (Ho & He & E1 & E2 & E3);
    try done; (assert (body_ok (set_ib_recv r b)) as Hok1 by (apply body_ok_recv; [done|rewrite E2; apply Hok|done|done])).
  - do 2 wp_step. apply wp_trailers; [by destruct Hok1|done..].
  - apply wp_stream_error; try done. by left.
  - split_and!; done.
Qed.

(** ** Reading *)

(** Polls of a body, between which the stream and the pings move on; with the frames
    that came out. *)
Inductive h2_reads : Body -> list Fr -> Body -> Prop :=
| hr_start b : h2_reads b [] b
| hr_poll b0 fs b b' o : h2_reads b0 fs b -> h2_poll_frame b = (b', o) -> h2_reads b0 (fs ++ match o with Ready (Some f) => [f] | _ => [] end) b'
| hr_stream b0 fs b r : h2_reads b0 fs b -> rcv_given r = rcv_given (ib_recv b) -> rcv_used_capacity r = rcv_used_capacity (ib_recv b) ->
    rcv_limit r = rcv_limit (ib_recv b) -> (rcv_is_end (ib_recv b) = true -> rcv_is_end r = true) -> h2_reads b0 fs (set_ib_recv r b)
| hr_pings b0 fs b s : h2_reads b0 fs b -> sys_ok s -> h2_reads b0 fs (set_ib_sys s b).

Lemma h2_reads_spec b0 fs b : h2_reads b0 fs b -> body_ok b0 -> body_ok b /\ rcv_given (ib_recv b) = rcv_given (ib_recv b0) ++ data_frames fs /\
  (forall n, h2_size_hint b0 = Some n -> exists k, h2_size_hint b = Some k /\ n = len (concat (data_frames fs)) + k).
Proof.
  intros Hr Hok0. induction Hr as [b|b0 fs b b' o _ IH E|b0 fs b r _ IH E1 E2 E3 E4|b0 fs b s _ IH Hs].
  - split_and!; [done|by rewrite app_nil_r|]. intros n Hn. exists n. by split.
  - destruct (IH Hok0) as (Hok & Eg & Hn). pose proof (wp_elim _ _ _ _ _ (h2_poll_frame_spec b Hok) E) as (Ho & Hok' & Hd & Hf). split; [done|].
    assert (forall f, data_frames (fs ++ [f]) = data_frames fs ++ data_frames [f]) as Happ by (intros f; unfold data_frames; by rewrite omap_app).
    destruct o as [[[d|t|]|]|e| | |]; try done; rewrite ?app_nil_r; try (destruct Hd as (Ed1 & Ed2 & _); rewrite ?Happ, ?app_nil_r, Ed1, Ed2; cbn; rewrite ?app_nil_r; by split).
    destruct Hd as (_ & Ed1 & Ed2). rewrite Happ. cbn. rewrite Ed1, Eg, <-app_assoc. split; [done|]. intros n Hn0. destruct (Hn n Hn0) as (k & Hk & ->). rewrite Hk in Ed2.
    destruct Ed2 as [_ Ed2]. exists (k - len d). split; [done|]. rewrite concat_app. cbn. rewrite app_nil_r. unfold len. rewrite length_app. lia.
  - destruct (IH Hok0) as (Hok & Eg & Hn). split_and!; [|cbn; by rewrite E1|done]. apply body_ok_recv; [done|rewrite E2; apply Hok|done|done].
  - destruct (IH Hok0) as ([_ Hu Hl] & Eg & Hn). by split_and!.
Qed.

End incoming_laws.

(** ** A concrete stream *)

Module ConcreteRecv.
Import ConcretePing.

Record rstream : Type := Rs { r_in : list bytes; r_done : bool; r_given : list bytes; r_used : nat; r_limit : option Z }.

(** A chunk beyond the declared length is an error of the stream. *)
Definition fits (d : bytes) (limit : option Z) : bool := (len d <=? USIZE_MAX) && match limit with Some n => len d <=? n | None => true end.

#[export] Instance rstream_ops : RecvStreamOps rstream unit := {
  rcv_poll_data r :=
    match r_in r with
    | d :: l =>
        if fits d (r_limit r) then (Rs l (r_done r) (r_given r ++ [d]) (r_used r + length d) ((fun n => n - len d) <$> r_limit r), Ready (Some d))
        else (r, Failed (H2Reason R_PROTOCOL_ERROR))
    | [] => (r, if r_done r then Ready None else Pending)
    end;
  rcv_poll_trailers r := (r, if r_done r then Ready (Some tt) else Pending);
  rcv_is_end r := r_done r && bool_decide (r_in r = []);
  rcv_used_capacity r := Z.of_nat (r_used r);
  rcv_release_capacity n r := Rs (r_in r) (r_done r) (r_given r) (r_used r - Z.to_nat n) (r_limit r);
}.

#[export] Instance rstream_laws : RecvStreamLaws rstream unit.
Proof.
  refine {| rcv_given := r_given; rcv_limit := r_limit; rcv_ready r := length (r_in r) |}.
  - intros [i dn g u l] r' o. cbn. destruct i as [|d i]; cbn; [destruct dn; by intros [= <- <-]|].
    rewrite andb_false_r. destruct (fits d l) eqn:Ef; intros [= <- <-]; cbn; [|done]. unfold fits in Ef. apply andb_true_iff in Ef as [E1 E2]. split_and!; try done.
    + unfold len. lia.
    + split; [apply len_nonneg|]. apply Z.leb_le in E1. unfold USIZE_MAX in E1. lia.
    + lia.
    + destruct l as [n|]; cbn; [|done]. zbool. by split.
  - intros r r' o. cbn. intros Er. assert (r' = r) as -> by congruence. split_and!; try done. destruct (r_done r); by simplify_eq.
  - intros r. cbn. lia.
  - intros n r. cbn. intros Hn. split_and!; try done. lia.
Defined.

Definition recv0 : rstream := Rs [[104; 105]; [33]] false [] 0 (Some 3).
Definition body0 : H2Body rstream ticks (option Z) peer := h2_body_new (start lively) recv0 (DL 3) Recording.
Definition body1 : H2Body rstream ticks (option Z) peer := (h2_poll_frame body0).1.
Definition body2 : H2Body rstream ticks (option Z) peer := (h2_poll_frame body1).1.

Lemma start_ok : sys_ok (start lively).
Proof.
  destruct (channel_ok lively cfg 0) as (s & E & Hok & _); [by vm_compute|apply config_new_ok; [by vm_compute|by vm_compute|by intros i [= <-]]|].
  unfold start. by rewrite E.
Qed.

End ConcreteRecv.
