(* ===== verification/Http2Upgrade.v ===== *)
(** * Http2Upgrade

    An upgraded HTTP/2 stream ([proto/http2/upgrade.rs]): the bytes of a CONNECT
    tunnel. The application's side ([H2Upgraded]) reads from the stream and hands its
    writes to a task ([UpgradedSendStreamTask]) through a channel; the task sends them
    as flow control permits, ends the stream, and resets it when MASQUE asks for it
    ([StreamReset]).

    The halves of the [http2] stream and the bounded channel of [futures_channel] are
    parameters. Of the channel an error comes back by (a [oneshot]) the model keeps
    whether its sender is held, has sent, or is gone. *)

From stdpp Require Import prelude strings.
From Stdlib Require Import ZArith Lia.
From S2P Require Import Prelude Bytes Crates Errors WriteBuf MasqueTunnel Ping Http2Pipe Http2Recv.
Local Open Scope Z_scope.

Definition R_STREAM_CLOSED : Z := 5.

(** [http2::Reason] of the two resets. *)
Definition reason_code (r : Reason) : Z := match r with PROTOCOL_ERROR => R_PROTOCOL_ERROR | CANCEL => R_CANCEL end.

(** [futures_channel::mpsc], bounded: [fc_poll_ready] fails once the receiver is gone or
    the channel is closed; [fc_poll_next] is [None] while it waits and [Some None] at
    the end. *)
Class FutChan (Q : Type) : Type := {
  fc_new : Q;
  fc_poll_ready : M Q unit unit;
  fc_start_send : bytes -> Q -> Q * bool;
  fc_close : Q -> Q;
  fc_poll_next : Q -> Q * option (option bytes);
  fc_drop_receiver : Q -> Q;
}.

(** [oneshot::Receiver<crate::Error>]. *)
Inductive ErrChan : Type := EHeld | ESent (e : Error) | EGone.

(** [io::Error], by what it carries. *)
Inductive UpError : Type :=
| UBrokenPipe | UBrokenPipeBy (e : H2Error) | UTimedOut (e : Error) | UOther (e : Error) | UOtherBy (e : H2Error) | UIo (e : io_error)
| UInvalidData (s : string).

Section upgrade.
Context {X RS Hm Q T Sl P : Type} `{SendStreamOps X bytes Hm} `{RecvStreamOps RS Hm} `{FutChan Q} `{TimerOps T Sl} `{PingPongOps P}.

(** Both ends: [H2Upgraded] with its bridge (and the receiving half as it was when it
    was dropped), the [ResetSlot] (if a [StreamReset] was
    given out), the channels, and [UpgradedSendStreamTask]. *)
Record Up : Type := MkUp {
  up_sys : Sys T Sl P; up_ping : Recorder; up_recv : option RS; up_dropped : option RS; up_buf : bytes; up_slot : option ResetSlot; io_alive : bool;
  up_chan : Q; up_err : ErrChan;
  up_tx : X; up_buffered : option Cursor; error_tx : bool; reset_rx : bool; ended : bool; task_alive : bool }.
Definition set_up_sys x u := MkUp x (up_ping u) (up_recv u) (up_dropped u) (up_buf u) (up_slot u) (io_alive u) (up_chan u) (up_err u) (up_tx u) (up_buffered u) (error_tx u) (reset_rx u) (ended u) (task_alive u).
Definition set_up_recv x u := MkUp (up_sys u) (up_ping u) x (up_dropped u) (up_buf u) (up_slot u) (io_alive u) (up_chan u) (up_err u) (up_tx u) (up_buffered u) (error_tx u) (reset_rx u) (ended u) (task_alive u).
Definition set_up_dropped x u := MkUp (up_sys u) (up_ping u) (up_recv u) x (up_buf u) (up_slot u) (io_alive u) (up_chan u) (up_err u) (up_tx u) (up_buffered u) (error_tx u) (reset_rx u) (ended u) (task_alive u).
Definition set_up_buf x u := MkUp (up_sys u) (up_ping u) (up_recv u) (up_dropped u) x (up_slot u) (io_alive u) (up_chan u) (up_err u) (up_tx u) (up_buffered u) (error_tx u) (reset_rx u) (ended u) (task_alive u).
Definition set_up_slot x u := MkUp (up_sys u) (up_ping u) (up_recv u) (up_dropped u) (up_buf u) x (io_alive u) (up_chan u) (up_err u) (up_tx u) (up_buffered u) (error_tx u) (reset_rx u) (ended u) (task_alive u).
Definition set_io_alive x u := MkUp (up_sys u) (up_ping u) (up_recv u) (up_dropped u) (up_buf u) (up_slot u) x (up_chan u) (up_err u) (up_tx u) (up_buffered u) (error_tx u) (reset_rx u) (ended u) (task_alive u).
Definition set_up_chan x u := MkUp (up_sys u) (up_ping u) (up_recv u) (up_dropped u) (up_buf u) (up_slot u) (io_alive u) x (up_err u) (up_tx u) (up_buffered u) (error_tx u) (reset_rx u) (ended u) (task_alive u).
Definition set_up_err x u := MkUp (up_sys u) (up_ping u) (up_recv u) (up_dropped u) (up_buf u) (up_slot u) (io_alive u) (up_chan u) x (up_tx u) (up_buffered u) (error_tx u) (reset_rx u) (ended u) (task_alive u).
Definition set_up_tx x u := MkUp (up_sys u) (up_ping u) (up_recv u) (up_dropped u) (up_buf u) (up_slot u) (io_alive u) (up_chan u) (up_err u) x (up_buffered u) (error_tx u) (reset_rx u) (ended u) (task_alive u).
Definition set_up_buffered x u := MkUp (up_sys u) (up_ping u) (up_recv u) (up_dropped u) (up_buf u) (up_slot u) (io_alive u) (up_chan u) (up_err u) (up_tx u) x (error_tx u) (reset_rx u) (ended u) (task_alive u).
Definition set_error_tx x u := MkUp (up_sys u) (up_ping u) (up_recv u) (up_dropped u) (up_buf u) (up_slot u) (io_alive u) (up_chan u) (up_err u) (up_tx u) (up_buffered u) x (reset_rx u) (ended u) (task_alive u).
Definition set_reset_rx x u := MkUp (up_sys u) (up_ping u) (up_recv u) (up_dropped u) (up_buf u) (up_slot u) (io_alive u) (up_chan u) (up_err u) (up_tx u) (up_buffered u) (error_tx u) x (ended u) (task_alive u).
Definition set_ended x u := MkUp (up_sys u) (up_ping u) (up_recv u) (up_dropped u) (up_buf u) (up_slot u) (io_alive u) (up_chan u) (up_err u) (up_tx u) (up_buffered u) (error_tx u) (reset_rx u) x (task_alive u).
Definition set_task_alive x u := MkUp (up_sys u) (up_ping u) (up_recv u) (up_dropped u) (up_buf u) (up_slot u) (io_alive u) (up_chan u) (up_err u) (up_tx u) (up_buffered u) (error_tx u) (reset_rx u) (ended u) x.

(** [pair]; [resettable] is whether extensions for a [StreamReset] were given. *)
Definition pair (sys : Sys T Sl P) (send_stream : X) (recv_stream : RS) (ping : Recorder) (resettable : bool) : Up :=
  MkUp sys ping (Some recv_stream) None [] (if resettable then Some (MkResetSlot None false) else None) true fc_new EHeld send_stream None true resettable false true.

(** ** [UpgradedSendStreamTask] *)

Definition on_send {E A} (m : M X E A) : M Up E A := zoom up_tx set_up_tx m.

(** [ResetRx::poll]: a reset that was asked for; none can come once the IO is gone. *)
Definition reset_rx_poll {E} : M Up E (option Reason) :=
  u ← get;
  if reset_rx u then
    match up_slot u with
    | Some s =>
        match sl_requested s with
        | Some reason => mret (Some reason)
        | None => if io_alive u then mret None else modify (set_reset_rx false);; mret None
        end
    | None => modify (set_reset_rx false);; mret None
    end
  else mret None.

(** [me.h2_tx.poll_reset(cx)]: the peer's reset, or an error, ends the task. *)
Definition peer_reset : M X Error unit := fun x =>
  match ss_poll_reset x with
  | (x, Ready reason) => (x, Failed (new_body_write (CauseH2 (H2Reason reason))))
  | (x, Failed e) => (x, Failed (new_body_write (CauseH2 e)))
  | (x, Pending) => (x, Ready tt)
  | (x, Panicked) => (x, Panicked)
  | (x, NoFuel) => (x, NoFuel)
  end.

(** A write that waits for capacity is sent. *)
Definition send_write (rounds : X -> nat) (c : Cursor) : M Up Error unit :=
  u ← get;
  on_send (wait_capacity (S (rounds (up_tx u))));;
  modify (set_up_buffered None);;
  on_send (write_stream (ss_send_data (SCursor c) false)).

(** [error_tx.take()], which drops it. *)
Definition drop_error_tx (u : Up) : Up :=
  if error_tx u then set_error_tx false (set_up_err EGone u) else u.

(** The end of the writes ends the stream. *)
Definition end_writes : M Up Error unit :=
  on_send (write_stream (ss_send_data SNone true));;
  modify (set_ended true);;
  modify drop_error_tx.

(** One round of the loop of [tick]; the result says whether it is done. *)
Definition tick_round (rounds : X -> nat) : M Up Error bool :=
  on_send peer_reset;;
  u ← get;
  if ended u then if reset_rx u then pend else mret true
  else
    match up_buffered u with
    | Some c => send_write rounds c;; mret false
    | None =>
        let '(q, next) := fc_poll_next (up_chan u) in
        modify (set_up_chan q);;
        match next with
        | Some (Some b) => modify (fun u => set_up_tx (ss_reserve_capacity 1 (up_tx u)) u);; modify (set_up_buffered (Some (cursor_new b)));; mret false
        | Some None => end_writes;; mret false
        | None => pend
        end
    end.

Fixpoint tick_loop (rounds : X -> nat) (fuel : nat) : M Up Error unit :=
  match fuel with
  | O => fun u => (u, NoFuel)
  | S fuel' => done ← tick_round rounds; if done : bool then mret tt else tick_loop rounds fuel'
  end.

(** [tick]; [queue] bounds the writes in the channel, which take two rounds each. *)
Definition tick (rounds : X -> nat) (queue : Q -> nat) : M Up Error unit :=
  reason ← reset_rx_poll;
  match reason with
  | Some reason =>
      modify (fun u => set_up_tx (ss_send_reset (reason_code reason) (up_tx u)) u);;
      fail (new_body_write (CauseH2 (H2Reason (reason_code reason))))
  | None => u ← get; tick_loop rounds (2 * queue (up_chan u) + 4)
  end.

(** The task is dropped: its end of the channel, and its error sender. *)
Definition send_task_drop (u : Up) : Up := set_task_alive false (drop_error_tx (set_up_chan (fc_drop_receiver (up_chan u)) u)).

(** [<UpgradedSendStreamTask as Future>::poll], and the drop when it is done. *)
Definition send_task_poll (rounds : X -> nat) (queue : Q -> nat) : M Up Empty_set unit := fun u =>
  match tick rounds queue u with
  | (u, Ready _) => (send_task_drop u, Ready tt)
  | (u, Failed err) => (send_task_drop (if error_tx u then set_error_tx false (set_up_err (ESent err) u) else u), Ready tt)
  | (u, Pending) => (u, Pending)
  | (u, Panicked) => (u, Panicked)
  | (u, NoFuel) => (u, NoFuel)
  end.

(** ** [StreamReset] *)

(** [StreamReset::reset] and [StreamReset::is_reset], while the IO lives. *)
Definition up_request_reset (reason : Reason) (u : Up) : Up := if io_alive u then set_up_slot (request_reset reason <$> up_slot u) u else u.
Definition up_is_reset (u : Up) : bool := io_alive u && match up_slot u with Some s => is_reset s | None => false end.

(** ** [impl AsyncRead for H2Upgraded] *)

(** A read after [stop_recv] gives all capacity back and drops the receiving half. *)
Definition apply_stop (u : Up) : Up :=
  match up_slot u, up_recv u with
  | Some s, Some r =>
      if sl_stop_recv s then set_up_buf [] (set_up_recv None (set_up_dropped (Some (rcv_release_capacity (rcv_used_capacity r) r)) u)) else u
  | _, _ => u
  end.

(** [h2_to_io_error] and the errors of a read: [None] reads as the end. *)
Definition read_error (ping : Recorder) (sh : Shared P) (e : H2Error) : option UpError :=
  match h2_error_reason e with
  | Some r =>
      if (r =? R_NO_ERROR) || (r =? R_CANCEL) then None
      else if r =? R_STREAM_CLOSED then Some (UBrokenPipeBy e)
      else Some (match ensure_not_timed_out ping sh with Err timeout => UTimedOut timeout | Ok _ => UOtherBy e end)
  | None =>
      Some (match ensure_not_timed_out ping sh with
            | Err timeout => UTimedOut timeout
            | Ok _ => match h2_error_io e with Some io => UIo io | None => UOtherBy e end
            end)
  end.

(** [ping.record_data(n)]; it never waits. *)
Definition up_record {E} (n : Z) : M Up E unit := fun u =>
  match record_data (up_ping u) n (up_sys u) with
  | (s, Ready _) | (s, Pending) => (set_up_sys s u, Ready tt)
  | (s, Panicked) | (s, Failed _) => (set_up_sys s u, Panicked)
  | (s, NoFuel) => (set_up_sys s u, NoFuel)
  end.

(** [poll_end]. *)
Definition poll_end (r : RS) : M Up UpError unit := fun u =>
  match up_slot u with
  | None => (u, Ready tt)
  | Some s =>
      match rcv_poll_trailers r with
      | (r, Ready (Some _)) => (set_up_slot (Some (request_reset PROTOCOL_ERROR s)) (set_up_recv (Some r) u), Failed (UInvalidData "HEADERS after a CONNECT-UDP response"))
      | (r, Ready None) | (r, Failed _) => (set_up_recv (Some r) u, Ready tt)
      | (r, Pending) => (set_up_recv (Some r) u, Pending)
      | (r, Panicked) => (set_up_recv (Some r) u, Panicked)
      | (r, NoFuel) => (set_up_recv (Some r) u, NoFuel)
      end
  end.

(** The loop that waits for data: [Ready true] has some in [buf], [Ready false] is the
    end. *)
Fixpoint fill_loop (fuel : nat) (r : RS) : M Up UpError bool := fun u =>
  match fuel with
  | O => (u, NoFuel)
  | S fuel' =>
      match rcv_poll_data r with
      | (r, Ready None) => (poll_end r;; mret false) (set_up_recv (Some r) u)
      | (r, Ready (Some d)) =>
          let u := set_up_recv (Some r) u in
          if bool_decide (d = []) && negb (rcv_is_end r) then fill_loop fuel' r u
          else (up_record (len d);; modify (set_up_buf d);; mret true) u
      | (r, Failed e) =>
          let u := set_up_recv (Some r) u in
          match read_error (up_ping u) (shared (up_sys u)) e with
          | Some err => (u, Failed err)
          | None => (u, Ready false)
          end
      | (r, Pending) => (set_up_recv (Some r) u, Pending)
      | (r, Panicked) => (set_up_recv (Some r) u, Panicked)
      | (r, NoFuel) => (set_up_recv (Some r) u, NoFuel)
      end
  end.

(** Giving out what is in [buf], with its capacity. *)
Definition give_out (remaining : Z) : M Up UpError bytes :=
  u ← get;
  let cnt := Z.min (len (up_buf u)) remaining in
  modify (set_up_buf (zdrop cnt (up_buf u)));;
  modify (fun u => set_up_recv (rcv_release_capacity cnt <$> up_recv u) u);;
  mret (ztake cnt (up_buf u)).

(** [poll_read] into a buffer with room for [remaining] bytes; [frames] bounds the
    frames at hand. *)
Definition up_poll_read (frames : RS -> nat) (remaining : Z) : M Up UpError bytes :=
  modify apply_stop;;
  u ← get;
  match up_recv u with
  | None => mret []
  | Some r =>
      if decide (up_buf u = []) then
        filled ← fill_loop (S (frames r)) r;
        if filled : bool then give_out remaining else mret []
      else give_out remaining
  end.

(** [StreamReset::stop_recv] with the IO: the flag, and a read of nothing that applies it;
    what that read gives is dropped. *)
Definition up_stop_recv (frames : RS -> nat) (u : Up) : Up :=
  if io_alive u then
    match up_slot u with
    | Some s => (up_poll_read frames 0 (set_up_slot (Some (stop_recv s)) u)).1
    | None => u
    end
  else u.

(** ** [impl AsyncWrite for H2Upgraded] *)

(** [error_rx.poll(cx)], and what is made of it: [clean] if the task is gone without
    an error. *)
Definition poll_error {A} (clean : result UpError A) : M Up UpError A := fun u =>
  match up_err u with
  | ESent e => (set_up_err EGone u, Failed (UOther e))
  | EGone => (u, match clean with Ok a => Ready a | Err e => Failed e end)
  | EHeld => (u, Pending)
  end.

(** [tx.poll_ready(cx)]. *)
Definition chan_ready : M Up unit unit := zoom up_chan set_up_chan fc_poll_ready.

(** [poll_write]. *)
Definition up_poll_write (buf : bytes) : M Up UpError Z :=
  if decide (buf = []) then mret 0
  else
    match_ready chan_ready
      (fun _ u =>
        match fc_start_send buf (up_chan u) with
        | (q, true) => (set_up_chan q u, Ready (len buf))
        | (q, false) => poll_error (Err UBrokenPipe) (set_up_chan q u)
        end)
      (fun _ => poll_error (Err UBrokenPipe)).

(** [poll_flush]. *)
Definition up_poll_flush : M Up UpError unit := match_ready chan_ready mret (fun _ => poll_error (Ok tt)).

(** [poll_shutdown]. *)
Definition up_poll_shutdown : M Up UpError unit := modify (fun u => set_up_chan (fc_close (up_chan u)) u);; poll_error (Ok tt).

(** The IO is dropped: its end of the channel with the sender, and the receiving half. *)
Definition up_io_drop (u : Up) : Up := set_io_alive false (set_up_recv None (set_up_dropped (match up_recv u with Some r => Some r | None => up_dropped u end) (set_up_buf [] (set_up_chan (fc_close (up_chan u)) u)))).
End upgrade.
Arguments Up : clear implicits.
