(* ===== verification/Http2UpgradeTheorems.v ===== *)
(** * Upgraded HTTP/2 streams: laws and theorems

    The invariant of an upgraded stream and its task, along every sequence of
    operations ([up_run]). *)

From stdpp Require Import prelude strings.
From Stdlib Require Import ZArith Lia.
From S2P Require Import Prelude Bytes Crates Errors Length WriteBuf MasqueTunnel Dispatcher Ping PingLaws PingTheorems Http2Pipe Http2PipeLaws Http2Recv Http2Upgrade Client.
Local Open Scope Z_scope.

(** What the bounded channel promises: a queue that takes nothing once it is closed. *)
Class FutChanLaws (Q : Type) `{FutChan Q} : Type := {
  fc_items : Q -> list bytes;
  fc_closed : Q -> bool;
  fc_new_law : fc_items fc_new = [] /\ fc_closed fc_new = false;
  fc_poll_ready_law q q' o : fc_poll_ready q = (q', o) -> sound o /\ fc_items q' = fc_items q /\ fc_closed q' = fc_closed q;
  fc_start_send_law b q q' ok : fc_start_send b q = (q', ok) -> fc_closed q' = fc_closed q /\
    fc_items q' = (if ok then fc_items q ++ [b] else fc_items q) /\ (ok = true -> fc_closed q = false);
  fc_close_law q : fc_items (fc_close q) = fc_items q /\ fc_closed (fc_close q) = true;
  fc_poll_next_law q q' r : fc_poll_next q = (q', r) -> fc_closed q' = fc_closed q /\
    match r with
    | Some (Some b) => fc_items q = b :: fc_items q'
    | Some None => fc_items q = [] /\ fc_items q' = [] /\ fc_closed q = true
    | None => fc_items q = [] /\ fc_items q' = [] /\ fc_closed q = false
    end;
  fc_drop_receiver_law q : fc_items (fc_drop_receiver q) = [] /\ fc_closed (fc_drop_receiver q) = true;
}.

Section upgrade_laws.
Context {X RS Hm Q T Sl P : Type} `{SO : SendStreamOps X bytes Hm} `{SL : !SendStreamLaws X bytes Hm} `{RSL : RecvStreamLaws RS Hm} `{FCL : FutChanLaws Q}
  `{TL : TimerLaws T Sl} `{PP : PingPongOps P}.
Abbreviation Upg := (Up X RS Q T Sl P).
Implicit Types (u : Upg) (w : list bytes) (rd : bytes).

(** ** Writing *)

Definition END : SFrame Hm := SData [] true.

(** [w] has been accepted; the stream holds a part of it, and its end only after all
    of it; a reset is one that was asked for. *)
Definition sent_ok u w : Prop := exists ds fin rst, ss_sent (up_tx u) = plain ds ++ fin ++ rst /\ ds `prefix_of` w /\
  (fin = [] \/ (fin = [END] /\ ds = w)) /\
  (rst = [] \/ exists s reason, up_slot u = Some s /\ sl_requested s = Some reason /\ rst = [SReset (reason_code reason)]).

(** The stream has been ended after all that was accepted. *)
Definition all_sent u w : Prop := exists rst, ss_sent (up_tx u) = plain w ++ END :: rst.

(** While the task runs nothing is missing, and its error sender is held until it ends
    the stream. *)
Record running u w : Prop := {
  rn_sent : exists ds, ss_sent (up_tx u) = plain ds ++ (if ended u then [END] else []) /\
    w = ds ++ option_list (cur_bytes <$> up_buffered u) ++ fc_items (up_chan u);
  rn_cursor : forall c, up_buffered u = Some c -> cur_pos c = 0;
  rn_ended : if ended u then up_buffered u = None /\ fc_items (up_chan u) = [] /\ fc_closed (up_chan u) = true /\ up_err u = EGone /\ error_tx u = false
             else up_err u = EHeld /\ error_tx u = true;
}.

(** A reset that was asked for can reach the task. *)
Definition reset_ok u : Prop :=
  match up_slot u with
  | Some s => reset_rx u = true \/ (io_alive u = false /\ sl_requested s = None)
  | None => reset_rx u = false
  end.

(** [fault]: the writer has been told of an error, or the runtime has dropped the task. *)
Definition write_ok u w (fault : bool) : Prop :=
  if task_alive u then running u w /\ reset_ok u
  else sent_ok u w /\ fc_closed (up_chan u) = true /\ error_tx u = false /\
    match up_err u with EHeld => False | ESent _ => True | EGone => fault = true \/ all_sent u w end.

Lemma sent_content c : cur_pos c = 0 -> sb_content (B := bytes) (SCursor c) = cur_bytes c.
Proof. intros E. destruct c as [b p]. cbn in *. subst p. done. Qed.

Lemma plain_snoc ds d : plain (Hm := Hm) (ds ++ [d]) = plain ds ++ [SData d false].
Proof. unfold plain. by rewrite fmap_app. Qed.

Lemma running_all u w : running u w -> ended u = true -> all_sent u w.
Proof.
  intros [(ds & Es & Ew) _ He] Ee. rewrite Ee in *. destruct He as (E1 & E2 & _). rewrite E1, E2, app_nil_r in Ew. cbn in Ew. exists []. by rewrite Es, Ew.
Qed.

Lemma running_sent u w : running u w -> sent_ok u w.
Proof.
  intros [(ds & Es & Ew) _ He]. exists ds, (if ended u then [END] else []), []. rewrite app_nil_r. split_and!; [done|by rewrite Ew; apply prefix_app_r| |by left].
  destruct (ended u); [right|by left]. split; [done|]. destruct He as (E1 & E2 & _). by rewrite Ew, E1, E2, app_nil_r.
Qed.

(** What the task leaves alone. *)
Definition same_io u u' : Prop :=
  up_sys u' = up_sys u /\ up_recv u' = up_recv u /\ up_dropped u' = up_dropped u /\ up_buf u' = up_buf u /\ up_slot u' = up_slot u /\
  io_alive u' = io_alive u /\ task_alive u' = task_alive u /\ reset_rx u' = reset_rx u.

Definition tick_left u : nat := 2 * length (fc_items (up_chan u)) + match up_buffered u with Some _ => 1 | None => 0 end + if ended u then 0 else 1.

Definition ticked u w (o : outcome Error bool) u' : Prop :=
  same_io u u' /\
  match o with
  | Ready true => running u' w /\ ended u' = true
  | Ready false => running u' w /\ (tick_left u' < tick_left u)%nat
  | Pending => running u' w /\ (ended u' = true -> reset_rx u' = true)
  | Failed _ => sent_ok u' w /\ ((up_err u' = EHeld /\ error_tx u' = true) \/ (up_err u' = EGone /\ error_tx u' = false /\ all_sent u' w))
  | _ => False
  end.

Lemma wp_peer_reset x (R : outcome Error unit -> X -> Prop) : (forall x' o, ss_sent x' = ss_sent x -> match o with Ready _ | Failed _ => R o x' | _ => True end) -> wp peer_reset R x.
Proof.
  intros HR. unfold wp, peer_reset. destruct (ss_poll_reset x) as [x' o] eqn:E. apply poll_reset_law in E as [Es Ho].
  destruct o; try done; [by apply (HR x' (Failed _))|by apply (HR x' (Failed _))|by apply (HR x' (Ready tt))].
Qed.

(** The stream's sender changed, but not what it was given. *)
Lemma running_tx u w x : running u w -> ss_sent x = ss_sent (up_tx u) -> running (set_up_tx x u) w.
Proof. intros [Ha Hb Hc] E. split; [|done|done]. cbn. by rewrite E. Qed.

Lemma sent_ok_tx u w x : sent_ok u w -> ss_sent x = ss_sent (up_tx u) -> sent_ok (set_up_tx x u) w.
Proof. intros (ds & fin & rst & E1 & Ha) E. exists ds, fin, rst. cbn. by rewrite E. Qed.

Lemma wp_send_write u w c : running u w -> up_buffered u = Some c -> wp (send_write ss_spurious c;; mret false) (ticked u w) u.
Proof.
  intros Hr Eb. pose proof Hr as [(ds & Es & Ew) Hc He]. unfold send_write. assert (ended u = false) as Ee by (destruct (ended u); [destruct He; congruence|done]).
  rewrite Ee in *. do 3 wp_step. wp_step. apply wp_zoom. apply wp_wait_capacity; [lia|]. intros x o Ex. destruct o as [[]|e| | |]; try done.
  - do 2 wp_step. apply wp_zoom. apply wp_intro. intros x' o Ex'. unfold write_stream in Ex'. destruct (ss_send_data _ _ _) as [x1 r] eqn:Ed. apply send_data_law in Ed.
    cbn in Ed. rewrite Ex, Es, app_nil_r in Ed. rewrite Eb in Ew. cbn in Ew. destruct r; simplify_eq.
    + wp_step. split; [done|]. split; [split|]; cbn; rewrite ?Ee; try done.
      * exists (ds ++ [cur_bytes c]). rewrite Ed, plain_snoc, app_nil_r, <-app_assoc. split; [|done]. f_equal. f_equal. f_equal. apply sent_content. by apply Hc.
      * rewrite Eb. lia.
    + split; [done|]. split; [|by left; destruct He]. exists ds, [], []. cbn. rewrite Ed, !app_nil_r. split_and!; [done|by apply prefix_app_r|by left|by left].
  - split; [done|]. split; [|by left; destruct He]. apply sent_ok_tx; [by apply running_sent|done].
  - split; [done|]. split; [by apply running_tx|]. cbn. congruence.
Qed.

Lemma wp_end_writes u w : running u w -> ended u = false -> up_buffered u = None -> fc_items (up_chan u) = [] -> fc_closed (up_chan u) = true ->
  wp (end_writes;; mret false) (ticked u w) u.
Proof.
  intros [(ds & Es & Ew) Hc He] Ee Eb Ei Ec. rewrite Ee in *. rewrite Eb, Ei, app_nil_r in Ew. cbn in Ew. unfold end_writes. do 2 wp_step. apply wp_zoom. apply wp_intro. intros x o Ex.
  unfold write_stream in Ex. destruct (ss_send_data _ _ _) as [x1 r] eqn:Ed. apply send_data_law in Ed. rewrite Es, app_nil_r in Ed. destruct r; simplify_eq.
  - do 3 wp_step. wp_step. destruct He as [He1 He2]. unfold drop_error_tx. cbn. rewrite He2. split; [done|]. split.
    + split; cbn; [|congruence|done]. exists ds. rewrite Ed, Eb, Ei. cbn. by rewrite app_nil_r.
    + unfold tick_left. cbn. rewrite Ee. lia.
  - split; [done|]. split; [|by left; destruct He]. exists ds, [], []. cbn. rewrite Ed, !app_nil_r. split_and!; [done|done|by left|by left].
Qed.

Lemma tick_round_spec u w : running u w -> wp (tick_round ss_spurious) (ticked u w) u.
Proof.
  intros Hr. unfold tick_round. wp_step. apply wp_zoom. apply wp_peer_reset. intros x o Ex. pose proof (running_tx u w x Hr Ex) as Hr'. set (u1 := set_up_tx x u) in *.
  assert (forall o u', ticked u1 w o u' -> ticked u w o u') as Hto by done.
  destruct o as [[]|e| | |]; try done.
  2: { split; [done|]. split; [by apply running_sent|]. destruct (ended u1) eqn:Ee; [right|left]; [|apply rn_ended in Hr'; by rewrite Ee in Hr'].
       pose proof (running_all _ _ Hr' Ee). apply rn_ended in Hr'. rewrite Ee in Hr'. by destruct Hr' as (_ & _ & _ & ? & ?). }
  do 2 wp_step. destruct (ended u1) eqn:Ee.
  { destruct (reset_rx u1) eqn:Er; wp_step; by apply Hto. }
  destruct (up_buffered u1) as [c|] eqn:Eb; [eapply wp_mono; [by apply wp_send_write|]; auto|].
  destruct (fc_poll_next (up_chan u1)) as [q next] eqn:En. apply fc_poll_next_law in En as [Ec En]. do 2 wp_step.
  pose proof Hr' as [(ds & Es & Ew) Hcur Hend]. rewrite Ee, Eb in *. unfold u1 in *. cbn in Ee, Eb, Ec, En, Es, Ew, Hend. destruct next as [[b|]|].
  - do 2 wp_step. do 3 wp_step. apply Hto. split; [done|]. split.
    + split; cbn; rewrite ?Ee; [|by intros ? [= <-]|done]. exists ds. rewrite reserve_law, Ew, En. by split.
    + unfold tick_left. cbn. rewrite Ee, Eb, En. cbn. lia.
  - destruct En as (E1 & E2 & E3). eapply wp_mono; [apply (wp_end_writes (set_up_chan q u1) w)|]; cbn; try done; [|congruence|].
    + split; cbn; rewrite ?Ee; [|by rewrite Eb|done]. exists ds. rewrite E2, Eb. cbn. split; [done|]. by rewrite Ew, E1.
    + intros o u' [Hs Ht]. split; [done|]. destruct o as [[]| | | |]; try done. destruct Ht as [? Ht]. split; [done|]. unfold tick_left in *. cbn in *. by rewrite E1, <-E2.
  - destruct En as (E1 & E2 & E3). wp_step. split; [done|]. split; [|cbn; congruence]. split; cbn; rewrite ?Ee; [|by rewrite Eb|done]. exists ds. rewrite E2, Eb, Ew, E1. by split.
Qed.

Lemma tick_loop_spec fuel w : forall u, running u w -> (tick_left u < fuel)%nat -> wp (tick_loop ss_spurious fuel) (fun o u' => same_io u u' /\
  match o with
  | Ready _ => running u' w /\ ended u' = true
  | Pending => running u' w /\ (ended u' = true -> reset_rx u' = true)
  | Failed _ => sent_ok u' w /\ ((up_err u' = EHeld /\ error_tx u' = true) \/ (up_err u' = EGone /\ error_tx u' = false /\ all_sent u' w))
  | _ => False
  end) u.
Proof.
  induction fuel as [|fuel IH]; intros u Hr Hf; [lia|]. cbn [tick_loop]. wp_step. eapply wp_mono; [by apply tick_round_spec|].
  intros o u1 [Hs Ht]. destruct o as [[]|e| | |]; try done. destruct Ht as [Hr1 Hlt]. eapply wp_mono; [apply IH; [done|lia]|].
  intros o u2 [Hs2 Ht2]. split; [|done]. unfold same_io in *. intuition congruence.
Qed.

(** ** The task *)

(** What the task leaves alone, its wait for a reset apart. *)
Definition same_reader u u' : Prop :=
  up_sys u' = up_sys u /\ up_recv u' = up_recv u /\ up_dropped u' = up_dropped u /\ up_buf u' = up_buf u /\ up_slot u' = up_slot u /\ io_alive u' = io_alive u.

(** A reset that was asked for. *)
Definition asked u : option Reason := if reset_rx u then s ← up_slot u; sl_requested s else None.

Definition reset_error (reason : Reason) : Error := new_body_write (CauseH2 (H2Reason (reason_code reason))).

Lemma wp_reset_rx_poll {E} u w (R : outcome E (option Reason) -> Upg -> Prop) : running u w -> reset_ok u ->
  (forall u', running u' w -> reset_ok u' -> same_reader u u' -> task_alive u' = task_alive u -> up_tx u' = up_tx u -> ended u' = ended u -> R (Ready (asked u)) u') -> wp reset_rx_poll R u.
Proof.
  intros Hr Hk HR. assert (forall r, asked u = r -> forall u', running u' w -> reset_ok u' -> same_reader u u' -> task_alive u' = task_alive u -> up_tx u' = up_tx u -> ended u' = ended u -> R (Ready r) u') as HR' by (by intros r <-).
  clear HR. unfold reset_rx_poll. do 2 wp_step. destruct (reset_rx u) eqn:Er; [|wp_step; apply HR'; try done; unfold asked; by rewrite Er].
  destruct (up_slot u) as [s|] eqn:Es; [|unfold reset_ok in Hk; rewrite Es in Hk; congruence].
  assert (asked u = sl_requested s) as Ea by (unfold asked; by rewrite Er, Es). destruct (sl_requested s) as [reason|] eqn:Eq.
  - wp_step. by apply HR'.
  - destruct (io_alive u) eqn:Ei; [wp_step; by apply HR'|]. do 3 wp_step. apply HR'; try done; [by destruct Hr|]. unfold reset_ok. cbn. rewrite Es, Ei. by right.
Qed.

Lemma write_ok_dead u w fault : sent_ok u w -> fc_closed (up_chan u) = true -> task_alive u = false -> error_tx u = false ->
  match up_err u with EHeld => False | ESent _ => True | EGone => fault = true \/ all_sent u w end -> write_ok u w fault.
Proof. intros ? ? E ? ?. unfold write_ok. rewrite E. by split_and!. Qed.

(** A task that ends: with its error for the writer if it can still be told. *)
Lemma task_ends u w fault e : sent_ok u w -> (up_err u = EHeld /\ error_tx u = true) \/ (up_err u = EGone /\ error_tx u = false /\ all_sent u w) ->
  write_ok (send_task_drop (if error_tx u then set_error_tx false (set_up_err (ESent e) u) else u)) w fault.
Proof.
  intros Hs Herr. assert (exists v, send_task_drop (if error_tx u then set_error_tx false (set_up_err (ESent e) u) else u) = set_task_alive false (set_up_chan (fc_drop_receiver (up_chan u)) v) /\
    up_tx v = up_tx u /\ up_slot v = up_slot u /\ error_tx v = false /\ match up_err v with EHeld => False | ESent _ => True | EGone => all_sent u w end) as (v & -> & E1 & E2 & E3 & E4).
  { destruct Herr as [[E1 E2]|(E1 & E2 & Ha)]; rewrite E2; unfold send_task_drop, drop_error_tx; cbn [error_tx set_error_tx set_up_chan].
    - by exists (set_error_tx false (set_up_err (ESent e) u)).
    - rewrite E2. exists u. by rewrite E1. }
  apply write_ok_dead; try done.
  - unfold sent_ok in *. cbn. by rewrite E1, E2.
  - apply fc_drop_receiver_law.
  - cbn. destruct (up_err v); [done..|]. right. unfold all_sent in *. cbn. by rewrite E1.
Qed.

(** Polling the task: a reset that was asked for is applied at once. *)
Definition task_polled u w fault (o : outcome Empty_set unit) u' : Prop :=
  sound o /\ write_ok u' w fault /\ same_reader u u' /\
  match asked u with
  | Some reason => o = Ready tt /\ task_alive u' = false /\ ss_sent (up_tx u') = ss_sent (up_tx u) ++ [SReset (reason_code reason)] /\
      (ended u = false -> up_err u' = ESent (reset_error reason))
  | None => o = Ready tt <-> task_alive u' = false
  end.

Lemma send_task_poll_spec u w fault : write_ok u w fault -> task_alive u = true -> wp (send_task_poll ss_spurious (fun q => length (fc_items q))) (task_polled u w fault) u.
Proof.
  intros Hw Ha. unfold write_ok in Hw. rewrite Ha in Hw. destruct Hw as [Hr Hk].
  assert (wp (tick ss_spurious (fun q => length (fc_items q))) (fun o u' => same_reader u u' /\
    match asked u with
    | Some reason => o = Failed (reset_error reason) /\ sent_ok u' w /\ ss_sent (up_tx u') = ss_sent (up_tx u) ++ [SReset (reason_code reason)] /\ ended u' = ended u /\
        ((up_err u' = EHeld /\ error_tx u' = true) \/ (up_err u' = EGone /\ error_tx u' = false /\ all_sent u' w /\ ended u' = true))
    | None => match o with
      | Ready _ => running u' w /\ ended u' = true
      | Pending => running u' w /\ reset_ok u' /\ task_alive u' = true
      | Failed _ => sent_ok u' w /\ ((up_err u' = EHeld /\ error_tx u' = true) \/ (up_err u' = EGone /\ error_tx u' = false /\ all_sent u' w))
      | _ => False
      end
    end) u) as Ht.
  { unfold tick. wp_step. apply (wp_reset_rx_poll u w); [done..|]. intros u1 Hr1 Hk1 Hs1 Ea1 Ex1 Ee1. destruct (asked u) as [reason|] eqn:Eq.
    - do 3 wp_step. split; [done|]. cbn. rewrite send_reset_law, Ex1. pose proof Hr1 as [(ds & Esent & Ewr) _ Hend].
      assert (exists s, up_slot u1 = Some s /\ sl_requested s = Some reason) as (s & Esl & Erq).
      { unfold asked in Eq. destruct (reset_rx u); [|done]. destruct Hs1 as (_ & _ & _ & _ & -> & _). destruct (up_slot u) as [s|]; [|done]. by exists s. }
      split_and!; try done.
      + destruct (running_sent u1 w Hr1) as (ds' & fin & rst & E1 & E2 & E3 & E4). exists ds, (if ended u1 then [END] else []), [SReset (reason_code reason)]. cbn.
        rewrite send_reset_law, <-Ex1, Esent, <-app_assoc. split_and!; [done|by rewrite Ewr; apply prefix_app_r| |right; by exists s, reason].
        destruct (ended u1); [right|by left]. split; [done|]. destruct Hend as (F1 & F2 & _). by rewrite Ewr, F1, F2, app_nil_r.
      + destruct (ended u1) eqn:Ee; [right|by left]. destruct (running_all u1 w Hr1 Ee) as (rst & Erst). destruct Hend as (_ & _ & _ & F1 & F2). split_and!; try done.
        exists (rst ++ [SReset (reason_code reason)]). cbn. by rewrite send_reset_law, <-Ex1, Erst, <-app_assoc.
    - do 2 wp_step. eapply wp_mono; [apply tick_loop_spec; [done|]; unfold tick_left; destruct (up_buffered u1), (ended u1); lia|].
      intros o u2 (Hs2 & Ho). destruct Hs2 as (F1 & F2 & F3 & F4 & F5 & F6 & F7 & F8). split; [unfold same_reader in *; intuition congruence|].
      destruct o; try done. destruct Ho as [Ho _]. split_and!; [done| |congruence]. unfold reset_ok in *. by rewrite F5, F6, F8. }
  unfold wp, send_task_poll in *. destruct (tick _ _ u) as [u' o]. destruct Ht as [Hs Ht]. unfold task_polled. destruct (asked u) as [reason|].
  - destruct Ht as (-> & Hsent & Ex & Ee & Herr). split; [done|]. split; [apply task_ends; [done|]; destruct Herr as [?|(? & ? & ? & _)]; auto|].
    assert (forall v, same_reader u v -> same_reader u (send_task_drop v) /\ up_tx (send_task_drop v) = up_tx v) as Hd.
    { intros v Hv. unfold send_task_drop, drop_error_tx. cbn. by destruct (error_tx v). }
    destruct Herr as [[E1 E2]|(E1 & E2 & _ & E3)]; rewrite E2.
    + destruct (Hd (set_error_tx false (set_up_err (ESent (reset_error reason)) u'))) as [? Etx]; [done|]. split_and!; [done|done|done|by rewrite Etx|done].
    + destruct (Hd u' Hs) as [? Etx]. split_and!; [done|done|by destruct (error_tx u')|by rewrite Etx|congruence].
  - assert (forall v, same_reader u v -> same_reader u (send_task_drop v)) as Hd by (intros v Hv; unfold send_task_drop, drop_error_tx; cbn; by destruct (error_tx v)).
    destruct o as [[]|e| | |]; try done.
    + destruct Ht as [Hr' Ee]. pose proof (running_all _ _ Hr' Ee). pose proof (running_sent _ _ Hr'). pose proof (rn_ended _ _ Hr') as Hend. rewrite Ee in Hend.
      destruct Hend as (_ & _ & _ & E1 & E2). split_and!; [done| |by apply Hd|done].
      pose proof (task_ends u' w fault new_closed) as Hte. rewrite E2 in Hte. apply Hte; [done|right; by split_and!].
    + destruct Ht as [Hsent Herr]. split_and!; [done|by apply task_ends| |done]. destruct (error_tx u'); by apply Hd.
    + destruct Ht as (Hr' & Hk' & Ea). split_and!; [done| |done|]; [unfold write_ok; rewrite Ea; by split|]. rewrite Ea. by split.
Qed.

(** The runtime drops the task. *)
Lemma task_drop_ok u w fault : write_ok u w fault -> write_ok (send_task_drop u) w (fault || task_alive u).
Proof.
  unfold write_ok at 1. intros Hw. assert (sent_ok u w /\ (error_tx u = false -> match up_err u with EHeld => False | ESent _ => True | EGone => fault || task_alive u = true \/ all_sent u w end)) as [Hs He].
  { destruct (task_alive u).
    - rewrite orb_true_r. destruct Hw as [Hr _]. split; [by apply running_sent|]. pose proof (rn_ended _ _ Hr) as He. intros Het.
      destruct (ended u); [destruct He as (_ & _ & _ & -> & _)|destruct He]; [by left|congruence].
    - rewrite orb_false_r. by destruct Hw as (? & _ & _ & ?). }
  unfold send_task_drop, drop_error_tx. cbn [error_tx set_up_chan]. destruct (error_tx u) eqn:Et; (apply write_ok_dead; [done|apply fc_drop_receiver_law|done|done|]); cbn; [|by apply He].
  left. destruct (task_alive u); [by rewrite orb_true_r|]. by destruct Hw as (_ & _ & ? & _).
Qed.

(** ** The writer *)

Definition is_failed {E A} (o : outcome E A) : bool := match o with Failed _ => true | _ => false end.

Lemma write_ok_fault u w (f g : bool) : (f = true -> g = true) -> write_ok u w f -> write_ok u w g.
Proof. unfold write_ok. intros Hfg. destruct (task_alive u); [done|]. intros (? & ? & ? & He). split_and!; try done. destruct (up_err u); [done..|]. destruct He as [?|?]; auto. Qed.

Lemma sent_ok_same u u' w : sent_ok u w -> up_tx u' = up_tx u -> up_slot u' = up_slot u -> sent_ok u' w.
Proof. unfold sent_ok. by intros Hs -> ->. Qed.

(** Only the channel moved, and it kept its items; it may have been closed. *)
Lemma write_ok_chan u w fault q : write_ok u w fault -> fc_items q = fc_items (up_chan u) -> (fc_closed (up_chan u) = true -> fc_closed q = true) -> write_ok (set_up_chan q u) w fault.
Proof.
  intros Hw Ei Ec. unfold write_ok in *. cbn. destruct (task_alive u).
  - destruct Hw as [[(ds & Es & Ew) Hc He] Hk]. split; [|done]. split; cbn; [|done|].
    + exists ds. by rewrite Ei.
    + rewrite Ei. destruct (ended u); [|done]. intuition.
  - destruct Hw as (Hs & Hc & He). split_and!; [done|auto|apply He|apply He].
Qed.

(** What the writer is told by the error channel. *)
Lemma poll_error_spec {A} (clean : result UpError A) u w fault : write_ok u w fault -> wp (poll_error clean) (fun o u' => sound o /\ write_ok u' w (fault || is_failed o) /\
  same_reader u u' /\ match o with Ready a => clean = Ok a /\ (fault = true \/ all_sent u' w) | _ => True end) u.
Proof.
  intros Hw. unfold wp, poll_error. assert (up_err u = EGone -> fault = true \/ all_sent u w) as Hg.
  { intros E. unfold write_ok in Hw. destruct (task_alive u); [|destruct Hw as (_ & _ & _ & He); by rewrite E in He].
    destruct Hw as [Hr _]. right. apply running_all; [done|]. pose proof (rn_ended _ _ Hr) as He. destruct (ended u); [done|]. destruct He. congruence. }
  destruct (up_err u) as [|e|] eqn:Ee; (split; [by destruct clean|split; [|split; [done|]]]); cbn [is_failed]; rewrite ?orb_false_r, ?orb_true_r; try done.
  - unfold write_ok in *. cbn. rewrite Ee in Hw. destruct (task_alive u).
    + destruct Hw as [Hr _]. apply rn_ended in Hr. rewrite Ee in Hr. destruct (ended u); [destruct Hr as (_ & _ & _ & ? & _)|destruct Hr]; done.
    + destruct Hw as (Hs & Hc & Het & _). split_and!; try done. by left.
  - destruct clean; cbn; rewrite ?orb_false_r, ?orb_true_r; [done|]. eapply write_ok_fault, Hw. done.
  - destruct clean; auto.
Qed.

Definition accepted (b : bytes) (o : outcome UpError Z) w : list bytes := match o with Ready _ => if decide (b = []) then w else w ++ [b] | _ => w end.

Lemma wp_chan_ready u w fault (R : outcome unit unit -> Upg -> Prop) : write_ok u w fault ->
  (forall q o, sound o -> write_ok (set_up_chan q u) w fault -> fc_closed q = fc_closed (up_chan u) -> R o (set_up_chan q u)) -> wp chan_ready R u.
Proof.
  intros Hw HR. unfold chan_ready. apply wp_zoom. apply wp_intro. intros q o Eq. apply fc_poll_ready_law in Eq as (Ho & Ei & Ec). apply HR; [done| |done]. by apply write_ok_chan; [|done|congruence].
Qed.

Lemma up_poll_write_spec u w fault b : write_ok u w fault -> wp (up_poll_write b) (fun o u' => sound o /\ write_ok u' (accepted b o w) (fault || is_failed o) /\ same_reader u u' /\
  match o with Ready n => n = len b | _ => True end) u.
Proof.
  intros Hw. unfold up_poll_write, accepted. destruct (decide (b = [])) as [->|Hb]; [wp_step; cbn; rewrite orb_false_r; by split_and!|].
  assert (forall v, write_ok v w fault -> same_reader u v -> wp (poll_error (A := Z) (Err UBrokenPipe)) (fun o u' => sound o /\
    write_ok u' (match o with Ready _ => w ++ [b] | _ => w end) (fault || is_failed o) /\ same_reader u u' /\ match o with Ready n => n = len b | _ => True end) v) as Hpe.
  { intros v Hv Hsv. eapply wp_mono; [by apply poll_error_spec|]. intros o u' (Ho & Hw' & Hs' & Hr). destruct o; try done; [by destruct Hr|..]; split_and!; try done; unfold same_reader in *; intuition congruence. }
  wp_step. apply (wp_chan_ready u w fault); [done|]. intros q o Ho Hw1 Ec. destruct o as [[]|[]| | |]; try done.
  - apply wp_intro. intros u' o' Eo. cbn [up_chan set_up_chan] in Eo. destruct (fc_start_send b q) as [q' ok] eqn:Es. apply fc_start_send_law in Es as (Ec' & Ei & Hok). destruct ok.
    + simplify_eq. cbn [is_failed]. rewrite orb_false_r. split_and!; try done. specialize (Hok eq_refl). unfold write_ok in *. cbn [task_alive set_up_chan up_chan] in *. destruct (task_alive u).
      * destruct Hw1 as [[(ds & Esent & Ew) Hc He] Hk]. cbn in Esent, Ew, Hc, He. destruct (ended u) eqn:Ee; [destruct He as (_ & _ & ? & _); congruence|]. split; [|done]. split; cbn; rewrite ?Ee; try done.
        exists ds. split; [done|]. by rewrite Ew, Ei, <-!app_assoc.
      * destruct Hw1 as (_ & ? & _). congruence.
    + assert (write_ok (set_up_chan q' (set_up_chan q u)) w fault) as Hw2 by (apply write_ok_chan; [done|done|cbn; congruence]).
      pose proof (Hpe _ Hw2) as Hp. unfold wp in Hp. rewrite Eo in Hp. by apply Hp.
  - by apply Hpe.
  - cbn. rewrite orb_false_r. by split_and!.
Qed.

Lemma up_poll_flush_spec u w fault : write_ok u w fault -> wp up_poll_flush (fun o u' => sound o /\ write_ok u' w (fault || is_failed o) /\ same_reader u u') u.
Proof.
  intros Hw. unfold up_poll_flush. wp_step. apply (wp_chan_ready u w fault); [done|]. intros q o Ho Hw1 _. destruct o as [[]|[]| | |]; try done.
  - wp_step. cbn [is_failed]. by rewrite orb_false_r.
  - eapply wp_mono; [by apply poll_error_spec|]. intros o u' (? & ? & ? & _). by split_and!.
  - cbn [is_failed]. by rewrite orb_false_r.
Qed.

Lemma close_ok u w fault : write_ok u w fault -> write_ok (set_up_chan (fc_close (up_chan u)) u) w fault.
Proof. intros Hw. destruct (fc_close_law (up_chan u)) as [Ei Ec]. by apply write_ok_chan. Qed.

Lemma up_poll_shutdown_spec u w fault : write_ok u w fault -> wp up_poll_shutdown (fun o u' => sound o /\ write_ok u' w (fault || is_failed o) /\ same_reader u u' /\
  match o with Ready _ => fault = true \/ all_sent u' w | _ => True end) u.
Proof.
  intros Hw. unfold up_poll_shutdown. do 2 wp_step. eapply wp_mono; [apply poll_error_spec; by apply close_ok|]. intros o u' (? & ? & ? & Hr). split_and!; try done. by destruct o; try apply Hr.
Qed.

(** ** The reader *)

(** [rd] has been read: the data of the stream in order, whose capacity is all returned
    but for what is in [buf]. *)
Definition read_ok u rd : Prop := sys_ok (up_sys u) /\
  match up_recv u with
  | Some r => concat (rcv_given r) = rd ++ up_buf u /\ rcv_used_capacity r = len (up_buf u)
  | None => up_buf u = [] /\ exists r, up_dropped u = Some r /\ rd `prefix_of` concat (rcv_given r) /\ (io_alive u = true -> rcv_used_capacity r = 0)
  end.

(** A request for a reset is never replaced. *)
Definition slot_le (s s' : option ResetSlot) : Prop :=
  match s, s' with Some s, Some s' => forall r, sl_requested s = Some r -> sl_requested s' = Some r | None, None => True | _, _ => False end.

(** What a read leaves alone. *)
Definition same_writer u u' : Prop :=
  slot_le (up_slot u) (up_slot u') /\ io_alive u' = io_alive u /\ up_chan u' = up_chan u /\ up_err u' = up_err u /\ up_tx u' = up_tx u /\ up_buffered u' = up_buffered u /\
  error_tx u' = error_tx u /\ reset_rx u' = reset_rx u /\ ended u' = ended u /\ task_alive u' = task_alive u.

Lemma slot_le_refl s : slot_le s s.
Proof. destruct s; cbn; auto. Qed.

Lemma slot_le_trans s1 s2 s3 : slot_le s1 s2 -> slot_le s2 s3 -> slot_le s1 s3.
Proof. destruct s1, s2, s3; cbn; try done. auto. Qed.

Lemma slot_le_request reason s : slot_le (Some s) (Some (request_reset reason s)).
Proof. cbn. intros r E. unfold request_reset. by rewrite E. Qed.

Lemma same_writer_refl u : same_writer u u.
Proof. split; [apply slot_le_refl|done]. Qed.

Lemma same_writer_trans u v u' : same_writer u v -> same_writer v u' -> same_writer u u'.
Proof. intros (A1 & A2 & A3 & A4 & A5 & A6 & A7 & A8 & A9 & A10) (B1 & B2 & B3 & B4 & B5 & B6 & B7 & B8 & B9 & B10). split; [by eapply slot_le_trans|]. split_and!; congruence. Qed.

Lemma write_ok_writer u u' w fault : io_alive u = true -> same_writer u u' -> write_ok u w fault -> write_ok u' w fault.
Proof.
  intros Ha (Hs & E1 & E2 & E3 & E4 & E5 & E6 & E7 & E8 & E9) Hw. unfold write_ok, all_sent in *. rewrite E9, E2, E3, E4, E6. destruct (task_alive u).
  - destruct Hw as [[Hx Hc He] Hk]. split; [split; by rewrite ?E2, ?E3, ?E4, ?E5, ?E6, ?E8|]. unfold reset_ok in *. rewrite E7, E1, Ha.
    destruct (up_slot u), (up_slot u'); cbn in Hs; try done. destruct Hk as [?|[? _]]; [by left|congruence].
  - destruct Hw as ((ds & fin & rst & F1 & F2 & F3 & F4) & Hw). split; [|done]. exists ds, fin, rst. rewrite E4. split_and!; try done.
    destruct F4 as [?|(s & reason & F5 & F6 & F7)]; [by left|right]. rewrite F5 in Hs. destruct (up_slot u') as [s'|]; [|done]. exists s', reason. split_and!; [done|by apply Hs|done].
Qed.

Lemma wp_up_record {E} n u (R : outcome E unit -> Upg -> Prop) : sys_ok (up_sys u) -> is_u64 n ->
  (forall s, sys_ok s -> R (Ready tt) (set_up_sys s u)) -> wp (up_record n) R u.
Proof.
  intros Hs Hn HR. unfold wp, up_record. pose proof (record_data_spec (up_ping u) n (up_sys u) Hs Hn) as Hr. unfold wp in Hr.
  destruct (record_data _ _ _) as [s o]. destruct Hr as (-> & Hs' & _). by apply HR.
Qed.

Lemma give_out_spec n u rd : 0 <= n -> up_recv u <> None -> read_ok u rd ->
  wp (give_out n) (fun o u' => same_writer u u' /\ exists d, o = Ready d /\ len d <= n /\ read_ok u' (rd ++ d)) u.
Proof.
  intros Hn Hr [Hs Hok]. unfold give_out. do 2 wp_step. do 4 wp_step.
  split; [by split; [apply slot_le_refl|]|]. eexists. split; [done|].
  destruct (up_recv u) as [r|] eqn:Er; [|done]. destruct Hok as [Eg Eu]. pose proof (len_nonneg (up_buf u)). set (cnt := Z.min (len (up_buf u)) n).
  assert (0 <= cnt <= len (up_buf u)) as Hc by lia. destruct (rcv_release_law cnt r) as (F1 & F2 & _); [lia|]. split; [rewrite len_ztake; lia|]. split; [done|]. cbn. rewrite Er. cbn.
  rewrite F1, F2, Eg, Eu, len_zdrop by lia. rewrite <-app_assoc, ztake_zdrop. split; [done|lia].
Qed.

(** Only the receiving half moved on, without data. *)
Lemma read_ok_recv u rd r r' : up_recv u = Some r -> read_ok u rd -> rcv_given r' = rcv_given r -> rcv_used_capacity r' = rcv_used_capacity r -> read_ok (set_up_recv (Some r') u) rd.
Proof. intros Er [Hs Hok] E1 E2. rewrite Er in Hok. split; [done|]. cbn. by rewrite E1, E2. Qed.

Lemma poll_end_spec u rd r : up_recv u = Some r -> read_ok u rd -> wp (poll_end r) (fun o u' => sound o /\ same_writer u u' /\ read_ok u' rd) u.
Proof.
  intros Er Hok. unfold wp, poll_end. destruct (up_slot u) as [s|] eqn:Es; [|split_and!; [done|apply same_writer_refl|done]].
  destruct (rcv_poll_trailers r) as [r' o] eqn:Et. apply rcv_poll_trailers_law in Et as (Ho & E1 & E2 & _). pose proof (read_ok_recv u rd r r' Er Hok E1 E2) as Hok'.
  assert (same_writer u (set_up_recv (Some r') u)) as Hsw by (split; [apply slot_le_refl|done]).
  destruct o as [[t|]|e| | |]; try done. split; [done|]. split; [|by destruct Hok']. split; [cbn; rewrite Es; apply slot_le_request|done].
Qed.

Definition filled u rd (o : outcome UpError bool) u' : Prop := sound o /\ same_writer u u' /\ read_ok u' rd /\ (o = Ready true -> up_recv u' <> None).

Lemma fill_loop_spec fuel rd : forall u r, up_recv u = Some r -> up_buf u = [] -> read_ok u rd -> (rcv_ready r < fuel)%nat ->
  wp (fill_loop fuel r) (filled u rd) u.
Proof.
  induction fuel as [|fuel IH]; intros u r Er Eb Hok Hf; [lia|]. apply wp_intro. intros u' o Eo. cbn [fill_loop] in Eo.
  destruct (rcv_poll_data r) as [r' od] eqn:Ed. apply rcv_poll_data_law in Ed as (Ho & _ & Hd).
  assert (same_writer u (set_up_recv (Some r') u)) as Hsw by (split; [apply slot_le_refl|done]).
  assert (sys_ok (up_sys u) /\ concat (rcv_given r) = rd /\ rcv_used_capacity r = 0) as (Hs & Eg & Eu).
  { destruct Hok as [Hs Hok]. rewrite Er, Eb, app_nil_r in Hok. by destruct Hok. }
  destruct od as [[d|]|e| | |]; try done.
  - destruct Hd as (F1 & F2 & F3 & F4 & _). destruct (bool_decide (d = []) && negb (rcv_is_end r')) eqn:Ee.
    + apply andb_true_iff in Ee as [Ee _]. apply bool_decide_eq_true in Ee as ->. cbn in F2. rewrite Z.add_0_r in F2.
      pose proof (IH (set_up_recv (Some r') u) r' eq_refl Eb) as Hi. unfold wp in Hi. rewrite Eo in Hi. destruct Hi as (? & Hsw' & ? & ?); [|lia|].
      * split; [done|]. cbn. rewrite F1, concat_app, Eb, F2. cbn. by rewrite !app_nil_r.
      * split; [done|]. split; [by apply (same_writer_trans _ _ _ Hsw Hsw')|done].
    + assert (wp (up_record (len d);; modify (set_up_buf d);; mret true) (filled u rd) (set_up_recv (Some r') u)) as Hw.
      { wp_step. apply wp_up_record; [done|done|]. intros s Hs'. do 3 wp_step. split; [done|]. split; [split; [apply slot_le_refl|done]|]. split; [|done].
        split; [done|]. cbn. rewrite F1, concat_app, Eg. cbn. rewrite app_nil_r. split; [done|]. unfold len in *. lia. }
      unfold wp in Hw. by rewrite Eo in Hw.
  - destruct Hd as (F1 & F2 & _). assert (wp (poll_end r';; mret false) (filled u rd) (set_up_recv (Some r') u)) as Hw.
    { wp_step. eapply wp_mono; [apply (poll_end_spec _ rd r'); [done|]; by apply (read_ok_recv u rd r r')|]. intros o1 u1 (H1' & H2' & H3').
      pose proof (same_writer_trans _ _ _ Hsw H2'). by destruct o1; try done. }
    unfold wp in Hw. by rewrite Eo in Hw.
  - destruct Hd as (F1 & F2 & _). pose proof (read_ok_recv u rd r r' Er Hok F1 F2). destruct (read_error _ _ _); by simplify_eq.
  - destruct Hd as (F1 & F2 & _). pose proof (read_ok_recv u rd r r' Er Hok F1 F2). by simplify_eq.
Qed.

(** A stop gives all capacity back. *)
Lemma apply_stop_ok u rd : read_ok u rd -> read_ok (apply_stop u) rd /\ same_writer u (apply_stop u).
Proof.
  intros Hok. unfold apply_stop. destruct (up_slot u) as [s|] eqn:Es; [|by split; [|apply same_writer_refl]]. destruct (up_recv u) as [r|] eqn:Er; [|by split; [|apply same_writer_refl]].
  destruct (sl_stop_recv s); [|by split; [|apply same_writer_refl]]. destruct Hok as [Hs Hok]. rewrite Er in Hok. destruct Hok as [Eg Eu].
  pose proof (rcv_used_law r). destruct (rcv_release_law (rcv_used_capacity r) r) as (F1 & F2 & _); [lia|].
  split; [split; [done|]; cbn; split; [done|]; eexists; split; [done|]; rewrite F1, F2, Eg; split; [apply prefix_app_r; done|intros _; lia]|]. split; [cbn; rewrite Es; apply slot_le_refl|done].
Qed.

Lemma up_poll_read_spec n u rd : 0 <= n -> read_ok u rd -> wp (up_poll_read rcv_ready n) (fun o u' => sound o /\ same_writer u u' /\
  match o with Ready d => len d <= n /\ read_ok u' (rd ++ d) | _ => read_ok u' rd end) u.
Proof.
  intros Hn Hok. unfold up_poll_read. do 4 wp_step. destruct (apply_stop_ok u rd Hok) as [Hok1 Hsw]. set (u1 := apply_stop u) in *. clearbody u1.
  assert (forall v, same_writer u1 v -> read_ok v rd -> up_recv v <> None -> wp (give_out n) (fun o u' => sound o /\ same_writer u u' /\
    match o with Ready d => len d <= n /\ read_ok u' (rd ++ d) | _ => read_ok u' rd end) v) as Hgo.
  { intros v Hv Hokv Hr. eapply wp_mono; [by apply give_out_spec|]. intros o u' (Hs & d & -> & Hd & Ho). split; [done|]. split; [|done]. by do 2 (eapply same_writer_trans; [done|]). }
  destruct (up_recv u1) as [r|] eqn:Er.
  - destruct (decide (up_buf u1 = [])) as [Eb|]; [|apply Hgo; [apply same_writer_refl|done|congruence]].
    wp_step. eapply wp_mono; [apply (fill_loop_spec _ rd); [done..|lia]|]. intros o u2 (Ho & Hs2 & Hok2 & Hr2). pose proof (same_writer_trans _ _ _ Hsw Hs2). destruct o as [[]|e| | |]; try done.
    + apply Hgo; auto.
    + wp_step. rewrite app_nil_r. split_and!; try done. 
  - wp_step. rewrite app_nil_r. split_and!; try done. 
Qed.
End upgrade_laws.

(** ** Upgraded HTTP/2 streams: theorems

    Histories of an upgraded stream ([up_run]): the application reads, writes, shuts
    down, asks for a reset or a stop and drops its side; the task is polled or dropped;
    and the connection moves on in between. *)

Section upgrade_theorems.
Context {X RS Hm Q T Sl P : Type} `{SO : SendStreamOps X bytes Hm} `{SL : !SendStreamLaws X bytes Hm} `{RSL : RecvStreamLaws RS Hm} `{FCL : FutChanLaws Q}
  `{TL : TimerLaws T Sl} `{PP : PingPongOps P}.
Abbreviation Upg := (Up X RS Q T Sl P).
Implicit Types (u : Upg) (w : list bytes) (rd : bytes) (f : bool).

Definition queued (q : Q) : nat := length (fc_items q).

(** [up_run u w rd f]: [u] is reached with the writes [w] accepted and [rd] read; [f] is
    whether the writer was told of an error, or the task was dropped before its end. *)
Inductive up_run : Upg -> list bytes -> bytes -> bool -> Prop :=
| ur_pair sys x r ping resettable : sys_ok sys -> ss_sent x = [] -> rcv_given r = [] -> rcv_used_capacity r = 0 -> up_run (pair sys x r ping resettable) [] [] false
| ur_write b u w rd f u' o : up_run u w rd f -> io_alive u = true -> up_poll_write b u = (u', o) -> up_run u' (accepted b o w) rd (f || is_failed o)
| ur_flush u w rd f u' o : up_run u w rd f -> io_alive u = true -> up_poll_flush u = (u', o) -> up_run u' w rd (f || is_failed o)
| ur_shutdown u w rd f u' o : up_run u w rd f -> io_alive u = true -> up_poll_shutdown u = (u', o) -> up_run u' w rd (f || is_failed o)
| ur_read n u w rd f u' o : up_run u w rd f -> io_alive u = true -> 0 <= n -> up_poll_read rcv_ready n u = (u', o) -> up_run u' w (match o with Ready d => rd ++ d | _ => rd end) f
| ur_reset reason u w rd f : up_run u w rd f -> up_run (up_request_reset reason u) w rd f
| ur_stop u w rd f : up_run u w rd f -> up_run (up_stop_recv rcv_ready u) w rd f
| ur_io_drop u w rd f : up_run u w rd f -> up_run (up_io_drop u) w rd f
| ur_task u w rd f u' o : up_run u w rd f -> task_alive u = true -> send_task_poll ss_spurious queued u = (u', o) -> up_run u' w rd f
| ur_task_drop u w rd f : up_run u w rd f -> up_run (send_task_drop u) w rd (f || task_alive u)
| ur_window x u w rd f : up_run u w rd f -> ss_sent x = ss_sent (up_tx u) -> up_run (set_up_tx x u) w rd f
| ur_arrival r r' u w rd f : up_run u w rd f -> up_recv u = Some r -> rcv_given r' = rcv_given r -> rcv_used_capacity r' = rcv_used_capacity r -> up_run (set_up_recv (Some r') u) w rd f
| ur_pings s u w rd f : up_run u w rd f -> sys_ok s -> up_run (set_up_sys s u) w rd f.

Lemma read_ok_same u u' rd : read_ok u rd -> same_reader u u' -> read_ok u' rd.
Proof. unfold read_ok. by intros Hr (-> & -> & -> & -> & _ & ->). Qed.

Lemma write_ok_window x u w f : write_ok u w f -> ss_sent x = ss_sent (up_tx u) -> write_ok (set_up_tx x u) w f.
Proof.
  intros Hw E. unfold write_ok, all_sent in *. cbn. rewrite E. destruct (task_alive u); [destruct Hw; split; [by apply running_tx|done]|].
  destruct Hw as (Hs & Hw). split; [by apply sent_ok_tx|done].
Qed.

(** Dropping the IO closes the channel and ends the receiving half. *)
Lemma io_drop_ok u w rd f : write_ok u w f -> read_ok u rd -> write_ok (up_io_drop u) w f /\ read_ok (up_io_drop u) rd.
Proof.
  intros Hw [Hs Hok]. split.
  - apply close_ok in Hw. unfold write_ok in *. cbn in *. destruct (task_alive u); [|done]. destruct Hw as [[Ha Hb Hc] Hk]. split; [by split|].
    unfold reset_ok in *. cbn in *. destruct (up_slot u); [|done]. destruct Hk as [?|[_ ?]]; [by left|by right].
  - split; [done|]. cbn. split; [done|]. destruct (up_recv u) as [r|].
    + exists r. destruct Hok as [Eg _]. split_and!; [done|rewrite Eg; by apply prefix_app_r|done].
    + destruct Hok as (_ & r & E1 & E2 & _). by exists r.
Qed.

Lemma stop_ok u w rd f : write_ok u w f -> read_ok u rd -> write_ok (up_stop_recv rcv_ready u) w f /\ read_ok (up_stop_recv rcv_ready u) rd.
Proof.
  intros Hw Hok. unfold up_stop_recv. destruct (io_alive u) eqn:Ea; [|done]. destruct (up_slot u) as [s|] eqn:Es; [|done].
  set (v := set_up_slot (Some (stop_recv s)) u). assert (same_writer u v) as Hv by (split; [cbn; rewrite Es; cbn; auto|done]).
  pose proof (up_poll_read_spec 0 v rd ltac:(lia) Hok) as Hr. unfold wp in Hr. destruct (up_poll_read _ _ v) as [u' o]. destruct Hr as (Ho & Hs & Hr). cbn [fst].
  split; [by apply (write_ok_writer u _ _ _ Ea); [eapply same_writer_trans|]|]. destruct o as [d|e| | |]; try done. destruct Hr as [Hd Hr].
  assert (d = []) as -> by (destruct d; [done|]; unfold len in Hd; cbn in Hd; lia). by rewrite app_nil_r in Hr.
Qed.

Lemma request_ok reason u w rd f : write_ok u w f -> read_ok u rd -> write_ok (up_request_reset reason u) w f /\ read_ok (up_request_reset reason u) rd.
Proof.
  intros Hw Hok. unfold up_request_reset. destruct (io_alive u) eqn:Ea; [|done]. split; [|done]. apply (write_ok_writer u); [done| |done].
  split; [cbn; destruct (up_slot u); [apply slot_le_request|done]|done].
Qed.

Lemma up_run_ok u w rd f : up_run u w rd f -> write_ok u w f /\ read_ok u rd.
Proof.
  induction 1 as [sys x r ping b Hs Ex Eg Eu|b u w rd f u' o _ [Hw Hr] Ha E|u w rd f u' o _ [Hw Hr] Ha E|u w rd f u' o _ [Hw Hr] Ha E|n u w rd f u' o _ [Hw Hr] Ha Hn E|reason u w rd f _ [Hw Hr]|u w rd f _ [Hw Hr]
    |u w rd f _ [Hw Hr]|u w rd f u' o _ [Hw Hr] Ha E|u w rd f _ [Hw Hr]|x u w rd f _ [Hw Hr] E|r r' u w rd f _ [Hw Hr] Er E1 E2|s u w rd f _ [Hw Hr] Hs].
  - destruct fc_new_law as [Ei Ec]. split; [|split; [done|]; cbn; by rewrite Eg, Eu]. split; [split; cbn; [|done|done]|by destruct b; [left|]].
    exists []. by rewrite Ex, Ei.
  - pose proof (wp_elim _ _ _ _ _ (up_poll_write_spec u w f b Hw) E) as (_ & ? & ? & _). split; [done|by eapply read_ok_same].
  - pose proof (wp_elim _ _ _ _ _ (up_poll_flush_spec u w f Hw) E) as (_ & ? & ?). split; [done|by eapply read_ok_same].
  - pose proof (wp_elim _ _ _ _ _ (up_poll_shutdown_spec u w f Hw) E) as (_ & ? & ? & _). split; [done|by eapply read_ok_same].
  - pose proof (wp_elim _ _ _ _ _ (up_poll_read_spec n u rd Hn Hr) E) as (_ & ? & Ho). split; [by eapply write_ok_writer|]. by destruct o; try apply Ho.
  - by apply request_ok.
  - by apply stop_ok.
  - by apply io_drop_ok.
  - pose proof (wp_elim _ _ _ _ _ (send_task_poll_spec u w f Hw Ha) E) as (_ & ? & ? & _). split; [done|by eapply read_ok_same].
  - split; [by apply task_drop_ok|]. unfold send_task_drop, drop_error_tx. cbn. by destruct (error_tx u).
  - split; [by apply write_ok_window|done].
  - split; [|by eapply read_ok_recv]. unfold write_ok in *. cbn. destruct (task_alive u); [|done]. destruct Hw as [[Ha Hb Hc] Hk]. split; [by split|done].
  - split; [unfold write_ok in *; cbn; destruct (task_alive u); [destruct Hw as [[Ha Hb Hc] Hk]; split; [by split|done]|done]|]. by destruct Hr.
Qed.

(** C16. Writing to an upgraded HTTP/2 stream, however the writer, the task, resets and
    flow control interleave: what the stream has been given is the accepted writes in
    order, or the first of them, then its end only after all of them, and a reset only
    if one was asked for; while the task lives, what is not yet sent is queued. No call
    panics or loops, and when a shutdown succeeds without the writer having been told
    of an error, everything it wrote and the end of the stream have been given to the
    stream. *)
Theorem upgraded_writes u w rd f : up_run u w rd f ->
  sent_ok u w /\
  (task_alive u = true -> exists ds, ss_sent (up_tx u) = plain ds ++ (if ended u then [END] else []) /\
    w = ds ++ option_list (cur_bytes <$> up_buffered u) ++ fc_items (up_chan u)) /\
  (forall b, wp (up_poll_write b) (fun o _ => sound o /\ match o with Ready n => n = len b | _ => True end) u) /\
  wp up_poll_flush (fun o _ => sound o) u /\
  wp up_poll_shutdown (fun o u' => sound o /\ (o = Ready tt -> f = false -> all_sent u' w)) u /\
  (task_alive u = true -> wp (send_task_poll ss_spurious queued) (fun o u' => sound o /\ (o = Ready tt <-> task_alive u' = false)) u).
Proof.
  intros Hrun. apply up_run_ok in Hrun as [Hw _]. split; [|split; [|split; [|split; [|split]]]].
  - unfold write_ok in Hw. destruct (task_alive u); [apply running_sent|]; apply Hw.
  - intros Ha. unfold write_ok in Hw. rewrite Ha in Hw. destruct Hw as [[Hs _ _] _]. exact Hs.
  - intros b. eapply wp_mono; [by apply up_poll_write_spec|]. intros o u' (? & _ & _ & ?). done.
  - eapply wp_mono; [by apply up_poll_flush_spec|]. by intros o u' (? & _).
  - eapply wp_mono; [by apply up_poll_shutdown_spec|]. intros o u' (Ho & _ & _ & Hr). split; [done|]. intros -> ->. by destruct Hr.
  - intros Ha. eapply wp_mono; [by apply (send_task_poll_spec u w f)|]. intros o u' (Ho & _ & _ & Hr). split; [done|].
    destruct (asked u); [|done]. destruct Hr as (-> & -> & _). done.
Qed.

(** Reading from an upgraded HTTP/2 stream: what has been read is the stream's data
    in order, the rest of it in the buffer, and flow-control capacity is held exactly
    for the latter; once receiving stopped none is held, and what was read is still the
    beginning of the data. A read never panics or loops and gives at most the bytes
    there is room for. *)
Theorem upgraded_reads u w rd f : up_run u w rd f ->
  match up_recv u with
  | Some r => concat (rcv_given r) = rd ++ up_buf u /\ rcv_used_capacity r = len (up_buf u)
  | None => exists r, up_dropped u = Some r /\ rd `prefix_of` concat (rcv_given r) /\ (io_alive u = true -> rcv_used_capacity r = 0)
  end /\
  forall n, 0 <= n -> wp (up_poll_read rcv_ready n) (fun o _ => sound o /\ match o with Ready d => len d <= n | _ => True end) u.
Proof.
  intros Hrun. apply up_run_ok in Hrun as [_ Hr]. split.
  - destruct Hr as [_ Hr]. destruct (up_recv u); [done|apply Hr].
  - intros n Hn. eapply wp_mono; [by apply (up_poll_read_spec n u rd)|]. intros o u' (? & _ & Ho). split; [done|]. by destruct o; try apply Ho.
Qed.

(** A reset asked for while the application holds the stream is applied the next
    time the task is polled, even after the stream was ended: the first reason asked
    for goes out, nothing else does, the task ends, and a writer that still waits is
    told. *)
Theorem upgraded_reset reason u w rd f s : up_run u w rd f -> io_alive u = true -> task_alive u = true -> up_slot u = Some s ->
  wp (send_task_poll ss_spurious queued) (fun o u' => o = Ready tt /\ task_alive u' = false /\
    exists first, sl_requested (request_reset reason s) = Some first /\ (sl_requested s = None -> first = reason) /\
      ss_sent (up_tx u') = ss_sent (up_tx u) ++ [SReset (reason_code first)] /\ (ended u = false -> up_err u' = ESent (reset_error first)))
    (up_request_reset reason u).
Proof.
  intros Hrun Hio Ha Es. pose proof (up_run_ok _ _ _ _ (ur_reset reason _ _ _ _ Hrun)) as [Hw' _]. apply up_run_ok in Hrun as [Hw _].
  assert (reset_rx u = true) as Erx.
  { unfold write_ok in Hw. rewrite Ha in Hw. destruct Hw as [_ Hk]. unfold reset_ok in Hk. rewrite Es, Hio in Hk. destruct Hk as [?|[? _]]; congruence. }
  assert (exists first, sl_requested (request_reset reason s) = Some first /\ (sl_requested s = None -> first = reason)) as (first & Ef & Hf).
  { unfold request_reset. destruct (sl_requested s) as [r|] eqn:E; [exists r|exists reason]; rewrite ?E; done. }
  assert (up_request_reset reason u = set_up_slot (Some (request_reset reason s)) u) as Eu by (unfold up_request_reset; by rewrite Hio, Es).
  eapply wp_mono; [apply (send_task_poll_spec _ w f Hw'); by rewrite Eu|]. intros o u' (_ & _ & _ & Hr). rewrite Eu in Hr. unfold asked in Hr. cbn in Hr. rewrite Erx, Ef in Hr.
  destruct Hr as (-> & ? & ? & ?). split_and!; try done. by exists first.
Qed.
End upgrade_theorems.

(** ** A concrete stream *)

Module ConcreteUpgrade.
Import Concrete ConcretePing ConcretePipe ConcreteRecv.

(** A channel is its items and whether it was closed. *)
Record chan : Type := Ch { ch_items : list bytes; ch_closed : bool }.

#[export] Instance chan_ops : FutChan chan := {
  fc_new := Ch [] false;
  fc_poll_ready q := (q, if ch_closed q then Failed tt else if (length (ch_items q) <=? 1)%nat then Ready tt else Pending);
  fc_start_send b q := if ch_closed q then (q, false) else (Ch (ch_items q ++ [b]) false, true);
  fc_close q := Ch (ch_items q) true;
  fc_poll_next q :=
    match ch_items q with
    | b :: l => (Ch l (ch_closed q), Some (Some b))
    | [] => (q, if ch_closed q then Some None else None)
    end;
  fc_drop_receiver q := Ch [] true;
}.

#[export] Instance chan_laws : FutChanLaws chan.
Proof.
  refine {| fc_items := ch_items; fc_closed := ch_closed |}.
  - done.
  - intros q q' o. cbn. destruct (ch_closed q) eqn:E, (length (ch_items q) <=? 1)%nat; intros; by simplify_eq.
  - intros b q q' ok. cbn. destruct (ch_closed q) eqn:E; intros; by simplify_eq.
  - done.
  - intros [[|b l] []] q' r; cbn; intros; by simplify_eq.
  - done.
Defined.

#[export] Instance rstream_hmap_ops : RecvStreamOps rstream hmap := {
  rcv_poll_data := rcv_poll_data (Hm := unit);
  rcv_poll_trailers r := (r, if r_done r then Ready None else Pending);
  rcv_is_end := rcv_is_end (Hm := unit);
  rcv_used_capacity := rcv_used_capacity (Hm := unit);
  rcv_release_capacity := rcv_release_capacity (Hm := unit);
}.

#[export] Instance rstream_hmap_laws : RecvStreamLaws rstream hmap.
Proof.
  refine {| rcv_given := r_given; rcv_limit := r_limit; rcv_ready r := length (r_in r) |}.
  - intros r r' o E. exact (rcv_poll_data_law (Hm := unit) (H := rstream_ops) (RecvStreamLaws := rstream_laws) r r' o E).
  - intros r r' o. cbn. intros Er. assert (r' = r) as -> by congruence. split_and!; try done. destruct (r_done r); by simplify_eq.
  - apply (rcv_used_law (RS := rstream) (Hm := unit)).
  - intros n r E. exact (rcv_release_law (Hm := unit) (H := rstream_ops) (RecvStreamLaws := rstream_laws) n r E).
Defined.

Definition St : Type := Up wire rstream chan ticks (option Z) peer.
Definition up0 : St := pair (start lively) (Wire [] 10) (Rs [[104; 105]] false [] 0 None) Recording true.
Definition up1 : St := (up_poll_write [1; 2] up0).1.
Definition up2 : St := (up_poll_read rcv_ready 1 up1).1.
Definition up3 : St := (send_task_poll ss_spurious queued up2).1.
Definition up4 : St := (up_poll_shutdown up3).1.
Definition up5 : St := (send_task_poll ss_spurious queued up4).1.

Lemma up2_run : up_run up2 [[1; 2]] [104] false.
Proof.
  apply (ur_read 1 up1 [[1; 2]] [] false up2 (Ready [104])); [|done|lia|by vm_compute].
  apply (ur_write [1; 2] up0 [] [] false up1 (Ready 2)); [|done|by vm_compute]. by apply ur_pair; [apply start_ok|..].
Qed.

Lemma up5_run : up_run up5 [[1; 2]] [104] false.
Proof.
  apply (ur_task up4 _ _ _ _ Pending); [|by vm_compute..]. apply (ur_shutdown up3 _ _ false up4 Pending); [|by vm_compute..]. apply (ur_task up2 _ _ _ _ Pending); [exact up2_run|by vm_compute..].
Qed.

Lemma upgraded_writes_witness : (up_poll_shutdown up5).2 = Ready tt /\ wire_sent (up_tx up5) = [SData [1; 2] false; SData [] true] /\ sent_ok up5 [[1; 2]].
Proof. split; [by vm_compute|]. split; [by vm_compute|]. destruct (upgraded_writes up5 _ _ _ up5_run) as [Hs _]. exact Hs. Defined.

Lemma upgraded_reads_witness : up_buf up2 = [105] /\ wp (up_poll_read rcv_ready 1) (fun o _ => sound o /\ match o with Ready d => len d <= 1 | _ => True end) up2.
Proof. split; [by vm_compute|]. destruct (upgraded_reads up2 _ _ _ up2_run) as [_ Hr]. apply (Hr 1). lia. Defined.

Definition slot5 : ResetSlot := MkResetSlot None false.

Lemma upgraded_reset_witness : ended up5 = true /\ wp (send_task_poll ss_spurious queued) (fun o u' => o = Ready tt /\ task_alive u' = false /\
    exists first, sl_requested (request_reset CANCEL slot5) = Some first /\ (sl_requested slot5 = None -> first = CANCEL) /\
      ss_sent (up_tx u') = ss_sent (up_tx up5) ++ [SReset (reason_code first)] /\ (ended up5 = false -> up_err u' = ESent (reset_error first))) (up_request_reset CANCEL up5).
Proof. split; [by vm_compute|]. apply (upgraded_reset CANCEL up5 _ _ _ slot5 up5_run); by vm_compute. Defined.
End ConcreteUpgrade.
