(* ===== verification/MasqueTemplate.v ===== *)
(** * MasqueTemplate

    [proxy/masque/template.rs]: the URI templates of CONNECT-UDP proxies, how they are
    parsed and checked, and their expansion for a target. *)

From stdpp Require Import prelude strings.
From Stdlib Require Import ZArith Lia.
From S2P Require Import Prelude Bytes Errors Capsule Proxy Net.
Local Open Scope Z_scope.

Definition LBRACE : Z := 123.
Definition RBRACE : Z := 125.
Definition SLASH : Z := 47.
Definition HASH : Z := 35.

(** ** Strings *)

(** [s] up to the first [c], and from there on. *)
Fixpoint span_until (c : Z) (s : bytes) : bytes * bytes :=
  match s with
  | [] => ([], [])
  | b :: s' => if b =? c then ([], s) else let '(x, y) := span_until c s' in (b :: x, y)
  end.

(** [s.find(c)], as the two slices it gives. *)
Definition find_char (c : Z) (s : bytes) : option (bytes * bytes) :=
  match span_until c s with (x, []) => None | (x, y) => Some (x, y) end.

(** [s.split_once(c)] of a character. *)
Definition split_once_char (c : Z) (s : bytes) : option (bytes * bytes) :=
  match span_until c s with (x, _ :: y) => Some (x, y) | (_, []) => None end.

(** [s.split_once(p)] of a string. *)
Fixpoint split_once (p s : bytes) : option (bytes * bytes) :=
  match strip_prefix p s with
  | Some rest => Some ([], rest)
  | None => match s with [] => None | b :: s' => '(x, y) ← split_once p s'; Some (b :: x, y) end
  end.

(** [s.contains([c1, c2, ..])]. *)
Definition contains_any (cs s : bytes) : bool := existsb (fun b => bool_decide (b ∈ cs)) s.

(** ** Hosts *)

(** [is_reg_name]. *)
Definition reg_name_char (b : Z) : bool := is_ascii_alphanumeric b || bool_decide (b ∈ bs "-._~!$&'()*+,;=").
Definition is_reg_name (host : bytes) : bool := forallb reg_name_char host.

(** [parse_host]. *)
Definition parse_host (host : bytes) : option bytes :=
  match (h ← strip_prefix (bs "[") host; strip_suffix (bs "]") h) with
  | Some ip => if parses_ipv6 ip then Some ip else None
  | None => if negb (bool_decide (host = [])) && (parses_ipv6 host || is_reg_name host) then Some host else None
  end.

(** [percent_encode]: what it appends. *)
Definition unreserved (b : Z) : bool := is_ascii_alphanumeric b || bool_decide (b ∈ bs "-._~").
Definition percent_encode (value : bytes) : bytes :=
  concat (map (fun b => if unreserved b then [b] else [37; hex_digit (Z.shiftr b 4); hex_digit (Z.land b 15)]) value).

(** ** Parts *)

Inductive Op : Type := Simple | Query | QueryContinuation.
Inductive Var : Type := VHost | VPort | VOther.
Inductive Part : Type := Literal (s : bytes) | Expr (op : Op) (vars : list Var).
#[export] Instance Op_eq_dec : EqDecision Op.
Proof. solve_decision. Defined.
#[export] Instance Var_eq_dec : EqDecision Var.
Proof. solve_decision. Defined.
#[export] Instance Part_eq_dec : EqDecision Part.
Proof. solve_decision. Defined.

Definition invalid {A} (reason : string) : result MasqueError A := Err (InvalidTemplate reason).
Definition check (b : bool) (reason : string) : result MasqueError unit := if b then Ok tt else invalid reason.
Definition ok_or {A} (o : option A) (reason : string) : result MasqueError A := match o with Some a => Ok a | None => invalid reason end.

(** The variables of an expression. *)
Definition parse_var (name : bytes) : result MasqueError Var :=
  if bool_decide (name = bs "target_host") then Ok VHost
  else if bool_decide (name = bs "target_port") then Ok VPort
  else if bool_decide (name = []) then invalid "empty variable name"
  else if bool_decide (last name = Some 42) || contains_any (bs ":") name then invalid "level 4 modifiers"
  else Ok VOther.

(** [collect::<Result<Vec<_>, _>>()]: the first error. *)
Fixpoint parse_vars (names : list bytes) : result MasqueError (list Var) :=
  match names with
  | [] => Ok []
  | n :: names => v ← parse_var n; vs ← parse_vars names; Ok (v :: vs)
  end.

(** The operator of an expression. *)
Definition parse_op (expr : bytes) : result MasqueError (Op * bytes) :=
  match expr with
  | b :: list =>
      if b =? 63 then Ok (Query, list)
      else if b =? 38 then Ok (QueryContinuation, list)
      else if bool_decide (b ∈ bs "+#./;") then invalid "reserved, fragment, label or path expansion"
      else if bool_decide (b ∈ bs "=,!@|") then invalid "reserved operator"
      else Ok (Simple, expr)
  | [] => Ok (Simple, expr)
  end.

(** One round of the loop of [parse_parts], on what is not empty: a part, and what
    follows it. *)
Definition parse_part (rest : bytes) : result MasqueError (Part * bytes) :=
  match strip_prefix [LBRACE] rest with
  | None =>
      let '(literal, after) := span_until LBRACE rest in
      check (negb (contains_any [HASH] literal)) "variables outside the path and query";;
      Ok (Literal literal, after)
  | Some expr =>
      '(expr, after) ← ok_or (split_once_char RBRACE expr) "unclosed expression";
      '(op, list) ← parse_op expr;
      vars ← parse_vars (split_on COMMA list);
      Ok (Expr op vars, after)
  end.

(** The loop; every round consumes a byte, so [length rest] rounds are enough. *)
Fixpoint parts_loop (fuel : nat) (rest : bytes) : result MasqueError (list Part) :=
  match rest, fuel with
  | [], _ => Ok []
  | _ :: _, O => invalid ""
  | _ :: _, S fuel => '(part, after) ← parse_part rest; parts ← parts_loop fuel after; Ok (part :: parts)
  end.

(** [parse_parts]. *)
Definition parse_parts (rest : bytes) : result MasqueError (list Part) := parts_loop (length rest) rest.

(** ** Expansion *)

(** The defined variables of an expression, with their names. *)
Definition defined (host port : bytes) (vars : list Var) : list (bytes * bytes) :=
  omap (fun v => match v with VHost => Some (bs "target_host", host) | VPort => Some (bs "target_port", port) | VOther => None end) vars.

(** The loop over them; [i] counts them. *)
Fixpoint expand_vars (op : Op) (i : nat) (vars : list (bytes * bytes)) : bytes :=
  match vars with
  | [] => []
  | (name, value) :: vars =>
      match op, i with
      | Simple, O => []
      | Simple, _ => bs ","
      | Query, O => bs "?"
      | _, _ => bs "&"
      end ++
      match op with Simple => [] | _ => name ++ bs "=" end ++
      percent_encode value ++
      expand_vars op (S i) vars
  end.

Definition expand_part (host port : bytes) (part : Part) : bytes :=
  match part with
  | Literal literal => literal
  | Expr op vars => expand_vars op 0 (defined host port vars)
  end.

(** ** [struct Template] *)

Section template.
Context {U : Type} `{UriOps U}.

Record Template : Type := MkTemplate { t_raw : bytes; t_proxy : U; t_parts : list Part }.

(** The string [expand] makes; [host] has passed [parse_host]. *)
Definition expansion (t : Template) (host : bytes) (port : Z) : bytes :=
  removelast (uri_to_string (t_proxy t)) ++ concat (map (expand_part host (to_dec port)) (t_parts t)).

(** [Template::expand]. *)
Definition expand (t : Template) (host : bytes) (port : Z) : result MasqueError U :=
  match parse_host host with
  | None => Err InvalidTarget
  | Some host =>
      if port =? 0 then Err InvalidTarget
      else match uri_parse (expansion t host port) with Some uri => Ok uri | None => Err InvalidTarget end
  end.

(** The port of the proxy: nothing, or a colon and the digits of one. *)
Definition valid_port (proxy : U) (host : bytes) : bool :=
  match (a ← uri_authority proxy; strip_prefix host a) with
  | Some [] => true
  | Some port =>
      match strip_prefix (bs ":") port with
      | Some port => forallb is_ascii_digit port && match parse_u16 port with Some p => negb (p =? 0) | None => false end
      | None => false
      end
  | None => false
  end.

(** [has]. *)
Definition has (v : Var) (parts : list Part) : bool := existsb (fun p => match p with Expr _ vars => bool_decide (v ∈ vars) | Literal _ => false end) parts.

(** [Template::new]. *)
Definition template_new (template : bytes) : result MasqueError Template :=
  check (forallb (in_range 33 126) template) "characters outside 0x21-0x7E";;
  '(scheme, rest) ← ok_or (split_once (bs "://") template) "not in absolute form";
  '(authority, path) ← ok_or (find_char SLASH rest) "path must start with a slash";
  check (negb (bool_decide (scheme = []) || bool_decide (authority = []))) "empty scheme or authority";;
  check (negb (contains_any (bs "{}") scheme || contains_any (bs "{}?#") authority)) "variables outside the path and query";;
  check (negb (contains_any (bs "@") authority)) "userinfo in the authority";;
  proxy ← ok_or (uri_parse (scheme ++ bs "://" ++ authority ++ bs "/")) "invalid scheme or authority";
  host ← ok_or (dst_host proxy) "empty host";
  check (match parse_host host with Some _ => true | None => false end) "invalid host";;
  check (valid_port proxy host) "invalid port";;
  parts ← parse_parts path;
  check (has VHost parts && has VPort parts) "missing target_host or target_port";;
  let parsed := MkTemplate template proxy parts in
  check (match expand parsed (bs "localhost") 443 with Ok _ => true | Err _ => false end) "not a valid URI once expanded";;
  Ok parsed.

(** [Template::well_known]; [proxy] is the text of an [Authority]. *)
Definition well_known (proxy : bytes) : result MasqueError Template :=
  template_new (bs "https://" ++ proxy ++ bs "/.well-known/masque/udp/{target_host}/{target_port}/").
End template.
Arguments Template : clear implicits.
