(* ===== verification/MasqueTemplateTheorems.v ===== *)
(** * MASQUE URI templates: grammar and expansion

    A template as a tree of literals and expressions of RFC 6570 (level 3), its text and
    its expansion in an environment, with the character classes and the percent-encoding of
    RFC 3986 spelled out; [parse_parts] reads exactly the texts of such trees, and [expand]
    is their expansion. Like the code, the trees do not restrict literals and variable
    names to the characters RFC 6570 gives them. *)

From stdpp Require Import prelude strings.
From Stdlib Require Import ZArith Lia.
From S2P Require Import Prelude Bytes Errors Capsule Proxy Net MasqueTemplate.
Local Open Scope Z_scope.

(** ** Templates as trees *)

Inductive TPart : Type := TText (s : bytes) | TExpr (op : Op) (names : list bytes).

Definition op_text (op : Op) : bytes := match op with Simple => [] | Query => bs "?" | QueryContinuation => bs "&" end.
Definition part_text (p : TPart) : bytes :=
  match p with TText s => s | TExpr op names => [LBRACE] ++ op_text op ++ join_with COMMA names ++ [RBRACE] end.
Definition text (ps : list TPart) : bytes := concat (map part_text ps).

(** A name without level 4 modifiers. *)
Definition name_ok (n : bytes) : Prop := n ≠ [] /\ (COMMA ∉ n) /\ (RBRACE ∉ n) /\ last n ≠ Some 42 /\ (58 ∉ n).
(** The operators of RFC 6570, defined and reserved. *)
Definition operators : bytes := bs "?&+#./;=,!@|".
Definition part_ok (p : TPart) : Prop :=
  match p with
  | TText s => s ≠ [] /\ (LBRACE ∉ s) /\ (HASH ∉ s)
  | TExpr op names => names ≠ [] /\ Forall name_ok names /\ (op = Simple -> forall b, head (join_with COMMA names) = Some b -> b ∉ operators)
  end.
(** Text is in one piece. *)
Fixpoint tree_ok (ps : list TPart) : Prop :=
  match ps with
  | [] => True
  | p :: ps => part_ok p /\ match p, ps with TText _, TText _ :: _ => False | _, _ => True end /\ tree_ok ps
  end.

(** ** RFC 3986 *)

(** ALPHA / DIGIT / - / . / _ / ~ (section 2.3). *)
Definition rfc_unreserved (b : Z) : Prop := 65 <= b <= 90 \/ 97 <= b <= 122 \/ 48 <= b <= 57 \/ b ∈ [45; 46; 95; 126].
#[export] Instance rfc_unreserved_dec b : Decision (rfc_unreserved b).
Proof. unfold rfc_unreserved. apply _. Defined.
(** sub-delims (section 2.2). *)
Definition rfc_sub_delim (b : Z) : Prop := b ∈ [33; 36; 38; 39; 40; 41; 42; 43; 44; 59; 61].
#[export] Instance rfc_sub_delim_dec b : Decision (rfc_sub_delim b).
Proof. unfold rfc_sub_delim. apply _. Defined.
(** Everything but the unreserved characters as a triplet in upper case (section 2.1). *)
Definition pct_digit (d : Z) : Z := if d <? 10 then 48 + d else 65 + (d - 10).
Definition rfc_escape (v : bytes) : bytes := concat (map (fun b => if decide (rfc_unreserved b) then [b] else [37; pct_digit (b / 16); pct_digit (b mod 16)]) v).

(** A target of RFC 9298: an IPv6 address, in brackets or not, or a registered name without
    percent-encoding (section 3.2.2). *)
Definition host_target (host h : bytes) : Prop :=
  (host = bs "[" ++ h ++ bs "]" /\ parses_ipv6 h = true) \/
  (host = h /\ h ≠ [] /\ (parses_ipv6 h = true \/ Forall (fun b => rfc_unreserved b \/ rfc_sub_delim b) h)).

(** ** Expansion (RFC 6570, section 3.2.1) *)

Definition op_first (op : Op) : bytes := match op with Simple => [] | Query => bs "?" | QueryContinuation => bs "&" end.
Definition op_sep (op : Op) : Z := match op with Simple => COMMA | _ => 38 end.
Definition op_item (op : Op) (nv : bytes * bytes) : bytes :=
  match op with Simple => rfc_escape nv.2 | _ => nv.1 ++ bs "=" ++ rfc_escape nv.2 end.
(** Undefined variables are left out, and an expression without defined ones expands
    to nothing. *)
Definition rfc_expr (op : Op) (vals : list (bytes * bytes)) : bytes :=
  match vals with [] => [] | _ => op_first op ++ join_with (op_sep op) (map (op_item op) vals) end.
Definition rfc_part (env : bytes -> option bytes) (p : TPart) : bytes :=
  match p with TText s => s | TExpr op names => rfc_expr op (omap (fun n => v ← env n; Some (n, v)) names) end.
Definition rfc_expand (env : bytes -> option bytes) (ps : list TPart) : bytes := concat (map (rfc_part env) ps).

(** The variables a client of RFC 9298 defines. *)
Definition target_env (host port : bytes) (n : bytes) : option bytes :=
  if bool_decide (n = bs "target_host") then Some host else if bool_decide (n = bs "target_port") then Some port else None.

(** What the code keeps of a tree. *)
Definition var_of (n : bytes) : Var := if bool_decide (n = bs "target_host") then VHost else if bool_decide (n = bs "target_port") then VPort else VOther.
Definition part_of (p : TPart) : Part := match p with TText s => Literal s | TExpr op names => Expr op (map var_of names) end.

(** ** Strings *)

Lemma span_until_spec c s : let '(x, y) := span_until c s in s = x ++ y /\ (c ∉ x) /\ match y with [] => True | b :: _ => b = c end.
Proof.
  induction s as [|b s IH]; simpl; [by split_and!; [|apply not_elem_of_nil|]|]. destruct (b =? c) eqn:E; zbool; [by split_and!; [|apply not_elem_of_nil|]|].
  destruct (span_until c s) as [x y]. destruct IH as (-> & Hx & Hy). split_and!; [done| |done]. set_solver.
Qed.

Lemma span_until_app c x y : (c ∉ x) -> match y with [] => True | b :: _ => b = c end -> span_until c (x ++ y) = (x, y).
Proof.
  intros Hx Hy. induction x as [|b x IH]; simpl.
  - destruct y as [|b y]; [done|]. subst b. simpl. by rewrite Z.eqb_refl.
  - apply not_elem_of_cons in Hx as [Hb Hx]. rewrite (proj2 (Z.eqb_neq b c)) by done. by rewrite IH.
Qed.

Lemma find_char_spec c s x y : find_char c s = Some (x, y) <-> s = x ++ y /\ (c ∉ x) /\ head y = Some c.
Proof.
  unfold find_char. split.
  - pose proof (span_until_spec c s) as Hs. destruct (span_until c s) as [x' [|b y']]; [done|]. intros [= -> <-]. destruct Hs as (? & ? & ->). done.
  - intros (-> & Hx & Hy). destruct y as [|b y]; [done|]. injection Hy as ->. by rewrite span_until_app.
Qed.

Lemma split_once_char_spec c s x y : split_once_char c s = Some (x, y) <-> s = x ++ c :: y /\ (c ∉ x).
Proof.
  unfold split_once_char. split.
  - pose proof (span_until_spec c s) as Hs. destruct (span_until c s) as [x' [|b y']]; [done|]. intros [= -> <-]. destruct Hs as (? & ? & ->). done.
  - intros [-> Hx]. by rewrite span_until_app.
Qed.

(** The first occurrence. *)
Lemma split_once_spec p s x y : split_once p s = Some (x, y) <-> s = x ++ p ++ y /\ forall x' y', s = x' ++ p ++ y' -> (length x <= length x')%nat.
Proof.
  revert x y. induction s as [|b s IH]; intros x y; cbn [split_once].
  - destruct (strip_prefix p []) as [r|] eqn:E.
    + apply strip_prefix_Some in E. symmetry in E. apply app_eq_nil in E as [-> ->]. split; [intros [= <- <-]; split; [done|]; simpl; lia|]. intros [Hs _].
      symmetry in Hs. apply app_eq_nil in Hs as [-> Hs]. simpl in Hs. by subst.
    + split; [done|]. intros [Hs _]. symmetry in Hs. apply app_eq_nil in Hs as [_ Hs]. apply app_eq_nil in Hs as [-> _]. done.
  - destruct (strip_prefix p (b :: s)) as [r|] eqn:E.
    + apply strip_prefix_Some in E. split.
      * intros [= <- <-]. split; [done|]. simpl. lia.
      * intros [Hs Hm]. specialize (Hm [] r E). destruct x; [|simpl in Hm; lia]. simpl in Hs. rewrite Hs in E. apply app_inv_head in E. by subst.
    + split.
      * destruct (split_once p s) as [[x1 y1]|] eqn:Es; [|done]. cbn. intros [= <- <-]. destruct (proj1 (IH x1 y1) eq_refl) as [-> Hm]. split; [done|].
        intros [|b' x'] y' Hx'; simpl in Hx'; [by rewrite Hx', strip_prefix_app in E|]. injection Hx' as -> Hx'. simpl. specialize (Hm x' y' Hx'). lia.
      * intros [Hs Hm]. destruct x as [|b' x]; simpl in Hs; [by rewrite Hs, strip_prefix_app in E|]. injection Hs as <- Hs.
        rewrite (proj2 (IH x y)); [done|]. split; [done|]. intros x' y' Hx'. specialize (Hm (b :: x') y'). simpl in Hm. rewrite <-Hx' in Hm. specialize (Hm eq_refl). lia.
Qed.

Lemma contains_any_spec cs s : contains_any cs s = false <-> forall c, c ∈ cs -> c ∉ s.
Proof.
  unfold contains_any. split.
  - intros Hf c Hc Hs. rewrite <-not_true_iff_false in Hf. apply Hf. apply existsb_exists. exists c. split; [by apply list_elem_of_In|by apply bool_decide_eq_true].
  - intros Hf. apply not_true_iff_false. rewrite existsb_exists. intros (c & Hs%list_elem_of_In & Hc%bool_decide_eq_true). by apply (Hf c).
Qed.

Lemma split_on_join sep ws : ws ≠ [] -> Forall (fun w => sep ∉ w) ws -> split_on sep (join_with sep ws) = ws.
Proof.
  intros Hn Hf. destruct ws as [|w ws]; [done|]. clear Hn. revert w Hf. induction ws as [|w' ws IH]; intros w Hf; simpl.
  - rewrite app_nil_r. apply split_on_no_sep. by inversion Hf.
  - inversion_clear Hf as [|? ? Hw Hws]. rewrite split_on_app_sep by done. f_equal. specialize (IH w' Hws). done.
Qed.

Lemma not_in_join c sep ws : c ≠ sep -> (c ∉ join_with sep ws) <-> Forall (fun w => c ∉ w) ws.
Proof.
  intros Hc. assert (forall ws, (c ∉ concat (map (cons sep) ws)) <-> Forall (fun w => c ∉ w) ws) as Hcat.
  { clear ws. induction ws as [|w ws IH]; [split; [done|intros _; apply not_elem_of_nil]|]. rewrite Forall_cons, <-IH. simpl. rewrite elem_of_cons, elem_of_app. tauto. }
  destruct ws as [|w ws]; [split; [done|intros _; apply not_elem_of_nil]|]. rewrite Forall_cons, <-Hcat. simpl. rewrite elem_of_app. tauto.
Qed.

(** ** Reading *)

Lemma check_Ok b r u : check b r = Ok u <-> b = true.
Proof. unfold check, invalid. destruct b; [by destruct u|done]. Qed.

Lemma ok_or_Ok {A} (o : option A) r a : ok_or o r = Ok a <-> o = Some a.
Proof. unfold ok_or, invalid. destruct o; split; intros; by simplify_eq. Qed.

Lemma bind_Ok {E A B} (m : result E A) (k : A -> result E B) b : (m ≫= k) = Ok b <-> exists a, m = Ok a /\ k a = Ok b.
Proof. destruct m as [a|e]; cbn; [split; [by exists a|by intros (? & [= ->] & ?)]|split; [done|by intros (? & ? & ?)]]. Qed.

Lemma parse_var_Ok n v : parse_var n = Ok v <-> (n ≠ [] /\ last n ≠ Some 42 /\ 58 ∉ n) /\ v = var_of n.
Proof.
  unfold parse_var, var_of, invalid. destruct (bool_decide (n = bs "target_host")) eqn:E1.
  { apply bool_decide_eq_true in E1 as ->. split; [intros [= <-]|by intros [_ ->]]. split; [|done]. split; [done|]. split; [by vm_compute|]. by apply (bool_decide_unpack (58 ∉ bs "target_host")). }
  destruct (bool_decide (n = bs "target_port")) eqn:E2.
  { apply bool_decide_eq_true in E2 as ->. split; [intros [= <-]|by intros [_ ->]]. split; [|done]. split; [done|]. split; [by vm_compute|]. by apply (bool_decide_unpack (58 ∉ bs "target_port")). }
  destruct (bool_decide (n = [])) eqn:E3; [apply bool_decide_eq_true in E3; naive_solver|]. apply bool_decide_eq_false in E3.
  destruct (bool_decide (last n = Some 42)) eqn:E4; [apply bool_decide_eq_true in E4; naive_solver|]. apply bool_decide_eq_false in E4. simpl.
  destruct (contains_any (bs ":") n) eqn:E5.
  - split; [done|]. intros [(_ & _ & Hn) _]. assert (contains_any (bs ":") n = false); [|congruence]. apply contains_any_spec. intros c Hc. vm_compute in Hc. set_solver.
  - rewrite contains_any_spec in E5. split; [intros [= <-]|by intros [_ ->]]. split_and!; try done. apply E5. vm_compute. set_solver.
Qed.

Lemma parse_vars_Ok names vs : parse_vars names = Ok vs <-> Forall (fun n => n ≠ [] /\ last n ≠ Some 42 /\ 58 ∉ n) names /\ vs = map var_of names.
Proof.
  revert vs. induction names as [|n names IH]; intros vs; cbn [parse_vars]; [split; [by intros [= <-]|by intros [_ ->]]|].
  rewrite bind_Ok. setoid_rewrite bind_Ok. setoid_rewrite IH. setoid_rewrite parse_var_Ok. rewrite Forall_cons. split.
  - intros (v & [Hn ->] & vs' & [Hf ->] & [= <-]). done.
  - intros [[Hn Hf] ->]. exists (var_of n). split; [done|]. by eexists.
Qed.

Lemma parse_op_Ok expr op l : parse_op expr = Ok (op, l) <-> expr = op_text op ++ l /\ (op = Simple -> forall b, head l = Some b -> b ∉ operators).
Proof.
  unfold parse_op, invalid. destruct expr as [|b s].
  - split; [by intros [= <- <-]|]. intros [Hs _]. symmetry in Hs. apply app_eq_nil in Hs as [Ho ->]. by destruct op.
  - destruct (b =? 63) eqn:E1; zbool; [subst b|destruct (b =? 38) eqn:E2; zbool; [subst b|]].
    + split; [by intros [= <- <-]|]. intros [Hs Ho]. destruct op; simpl in Hs; [|by simplify_eq|by simplify_eq]. subst l. exfalso. apply (Ho eq_refl 63 eq_refl). by apply (bool_decide_unpack (63 ∈ operators)).
    + split; [by intros [= <- <-]|]. intros [Hs Ho]. destruct op; simpl in Hs; [|by simplify_eq|by simplify_eq]. subst l. exfalso. apply (Ho eq_refl 38 eq_refl). by apply (bool_decide_unpack (38 ∈ operators)).
    + assert (b ∈ operators <-> b ∈ bs "+#./;" \/ b ∈ bs "=,!@|") as Hop.
      { unfold operators. vm_compute bs. set_solver. }
      destruct (bool_decide (b ∈ bs "+#./;")) eqn:E3; [apply bool_decide_eq_true in E3|apply bool_decide_eq_false in E3; destruct (bool_decide (b ∈ bs "=,!@|")) eqn:E4; [apply bool_decide_eq_true in E4|apply bool_decide_eq_false in E4]].
      * split; [done|]. intros [Hs Ho]. destruct op; simpl in Hs; [subst l|by simplify_eq..]. exfalso. apply (Ho eq_refl b eq_refl). apply Hop. by left.
      * split; [done|]. intros [Hs Ho]. destruct op; simpl in Hs; [subst l|by simplify_eq..]. exfalso. apply (Ho eq_refl b eq_refl). apply Hop. by right.
      * split; [intros [= <- <-]|]; [split; [done|]; intros _ b' [= <-]; rewrite Hop; tauto|]. intros [Hs Ho]. destruct op; simpl in Hs; [by subst l|by simplify_eq..].
Qed.

(** One part: its text is a prefix of the rest, and text ends where an expression
    starts. *)
Definition reads_part (rest : bytes) (tp : TPart) (after : bytes) : Prop :=
  part_ok tp /\ rest = part_text tp ++ after /\ match tp with TText _ => match after with [] => True | b :: _ => b = LBRACE end | _ => True end.

Lemma name_ok_split names : names ≠ [] /\ Forall name_ok names <->
  names ≠ [] /\ Forall (fun n => n ≠ [] /\ last n ≠ Some 42 /\ 58 ∉ n) names /\ Forall (fun n => COMMA ∉ n) names /\ Forall (fun n => RBRACE ∉ n) names.
Proof. unfold name_ok. rewrite !Forall_and. tauto. Qed.

Lemma op_text_not_rbrace op : RBRACE ∉ op_text op.
Proof. destruct op; by apply (bool_decide_unpack (RBRACE ∉ _)). Qed.

Lemma parse_expr_Ok expr op vars : (('(op, list) ← parse_op expr; vars ← parse_vars (split_on COMMA list); Ok (op, vars)) : result MasqueError _) = Ok (op, vars) ->
  (RBRACE ∉ expr) -> exists names, part_ok (TExpr op names) /\ expr = op_text op ++ join_with COMMA names /\ vars = map var_of names.
Proof.
  rewrite bind_Ok. intros ([op' l] & Hop & Hv) Hb. apply parse_op_Ok in Hop as [-> Hop]. rewrite bind_Ok in Hv. destruct Hv as (vs & Hvs & [= <- <-]).
  apply parse_vars_Ok in Hvs as [Hf ->]. exists (split_on COMMA l). rewrite join_split_on. split; [|done]. cbn [part_ok].
  rewrite join_split_on. assert (RBRACE ∉ l) as Hbl by set_solver. rewrite <-(join_split_on COMMA l) in Hbl. apply not_in_join in Hbl; [|done].
  destruct (proj2 (name_ok_split (split_on COMMA l))) as [? ?]; [split_and!; [apply split_on_nonnil|done|apply split_on_pieces|done]|]. by split_and!.
Qed.

Lemma parse_part_Ok rest p after : rest ≠ [] -> parse_part rest = Ok (p, after) <-> exists tp, reads_part rest tp after /\ p = part_of tp.
Proof.
  intros Hne. unfold parse_part. destruct (strip_prefix [LBRACE] rest) as [expr|] eqn:Es.
  - apply strip_prefix_Some in Es as ->. split.
    + rewrite bind_Ok. intros ([e a] & He & Hp). apply ok_or_Ok, split_once_char_spec in He as [-> Hb].
      assert (exists op vars, p = Expr op vars /\ a = after /\ (('(op, list) ← parse_op e; vars ← parse_vars (split_on COMMA list); Ok (op, vars)) : result MasqueError _) = Ok (op, vars)) as (op & vars & -> & -> & Hov).
      { apply bind_Ok in Hp as ([op l] & Ho & Hp). apply bind_Ok in Hp as (vs & Hv & [= <- <-]). exists op, vs. split_and!; try done. rewrite bind_Ok. exists (op, l). split; [done|]. rewrite bind_Ok. by exists vs. }
      destruct (parse_expr_Ok e op vars Hov Hb) as (names & Hok & -> & ->). exists (TExpr op names). split; [|done]. split_and!; [done| |done]. cbn [part_text]. by rewrite <-!app_assoc.
    + intros ([s|op names] & (Hok & Ht & Ha) & ->); cbn [part_text part_of] in *.
      * destruct Hok as (Hn & Hb & _). destruct s as [|b s]; [done|]. injection Ht as <- _. set_solver.
      * destruct Hok as (Hn & Hf & Hop). destruct (proj1 (name_ok_split names) (conj Hn Hf)) as (_ & F1 & F2 & F3). rewrite <-!app_assoc in Ht. simpl in Ht. injection Ht as ->.
        rewrite bind_Ok. exists (op_text op ++ join_with COMMA names, after). split.
        { apply ok_or_Ok, split_once_char_spec. rewrite <-app_assoc. split; [done|]. rewrite elem_of_app. intros [Hx|Hx]; [by apply (op_text_not_rbrace op)|]. revert Hx. by apply not_in_join. }
        rewrite bind_Ok. exists (op, join_with COMMA names). split; [by apply parse_op_Ok|]. rewrite bind_Ok. exists (map var_of names). split; [|done]. apply parse_vars_Ok. by rewrite split_on_join.
  - pose proof (span_until_spec LBRACE rest) as Hs. destruct (span_until LBRACE rest) as [x y] eqn:Ex. destruct Hs as (-> & Hx & Hy). split.
    + rewrite bind_Ok. intros (u & Hc%check_Ok & [= <- <-]). apply negb_true_iff in Hc. rewrite contains_any_spec in Hc. exists (TText x). split; [|done]. split_and!; [|done|done].
      split_and!; [|done|apply Hc; set_solver]. intros ->. destruct y as [|b y]; [done|]. subst b. discriminate Es.
    + intros ([s|op names] & (Hok & Ht & Ha) & ->); cbn [part_text part_of] in *.
      * destruct Hok as (Hn & Hb & Hh). assert (span_until LBRACE (s ++ after) = (s, after)) as E2 by (by apply span_until_app). rewrite <-Ht, Ex in E2. injection E2 as -> ->.
        rewrite bind_Ok. exists tt. split; [|done]. apply check_Ok, negb_true_iff, contains_any_spec. set_solver.
      * rewrite Ht, <-app_assoc, strip_prefix_app in Es. done.
Qed.

Lemma part_text_nonnil tp : part_ok tp -> part_text tp ≠ [].
Proof. destruct tp; [by intros []|done]. Qed.

Lemma parts_loop_Ok fuel : forall rest parts, (length rest <= fuel)%nat -> parts_loop fuel rest = Ok parts <-> exists ps, tree_ok ps /\ rest = text ps /\ parts = map part_of ps.
Proof.
  induction fuel as [|fuel IH]; intros rest parts Hf.
  - destruct rest; [|simpl in Hf; lia]. simpl. split; [intros [= <-]; by exists []|]. intros ([|tp ps] & Ht & Hx & ->); [done|]. destruct Ht as [Hok _]. unfold text in Hx. simpl in Hx.
    symmetry in Hx. apply app_eq_nil in Hx as [Hx _]. by apply part_text_nonnil in Hok.
  - destruct rest as [|b rest']; [clear IH|set (rest := b :: rest') in *].
    { simpl. split; [intros [= <-]; by exists []|]. intros ([|tp ps] & Ht & Hx & ->); [done|]. destruct Ht as [Hok _]. unfold text in Hx. simpl in Hx.
      symmetry in Hx. apply app_eq_nil in Hx as [Hx _]. by apply part_text_nonnil in Hok. }
    change (parts_loop (S fuel) rest) with ('(part, after) ← parse_part rest; parts ← parts_loop fuel after; Ok (part :: parts) : result MasqueError (list Part)).
    assert (rest ≠ []) as Hne by done. rewrite bind_Ok. split.
    + intros ([p after] & Hp & Hr). rewrite bind_Ok in Hr. destruct Hr as (parts' & Hl & [= <-]). apply parse_part_Ok in Hp as (tp & (Hok & Ht & Ha) & ->); [|done].
      assert (length after <= fuel)%nat as Hlen. { apply part_text_nonnil in Hok. rewrite Ht, length_app in Hf. destruct (part_text tp); [done|]. simpl in Hf. lia. }
      apply IH in Hl as (ps & Hps & -> & ->); [|done]. exists (tp :: ps). split; [|by rewrite Ht]. split_and!; [done| |done].
      destruct tp as [s|]; [|done]. destruct ps as [|[s'|] ps]; [done| |done]. destruct Hps as ((Hn' & Hb' & _) & _). unfold text in Ha. simpl in Ha. destruct s' as [|b' s']; [done|]. simpl in Ha. subst b'. set_solver.
    + intros ([|tp ps] & Ht & Hx & ->); [done|]. destruct Ht as (Hok & Hadj & Hps). exists (part_of tp, text ps). split.
      * apply parse_part_Ok; [done|]. exists tp. split; [|done]. split_and!; [done|done|]. destruct tp as [s|]; [|done]. destruct ps as [|[]]; [done..|]. done.
      * rewrite bind_Ok. exists (map part_of ps). split; [|done]. apply IH; [|by exists ps]. unfold text in Hx. simpl in Hx. fold (text ps) in Hx. apply part_text_nonnil in Hok. rewrite Hx, length_app in Hf. destruct (part_text tp); [done|]. simpl in Hf. lia.
Qed.

Lemma parse_parts_Ok rest parts : parse_parts rest = Ok parts <-> exists ps, tree_ok ps /\ rest = text ps /\ parts = map part_of ps.
Proof. by apply parts_loop_Ok. Qed.

(** ** MASQUE URI templates: theorems *)

(** ** Percent-encoding *)

(** The value of a hexadecimal digit in upper case. *)
Definition unhex (b : Z) : option Z := if is_ascii_digit b then Some (b - 48) else if in_range 65 70 b then Some (b - 55) else None.
Fixpoint percent_decode (s : bytes) : option bytes :=
  match s with
  | [] => Some []
  | b :: s' =>
      if b =? 37 then
        match s' with
        | hi :: lo :: s'' => h ← unhex hi; l ← unhex lo; r ← percent_decode s''; Some (16 * h + l :: r)
        | _ => None
        end
      else r ← percent_decode s'; Some (b :: r)
  end.

Lemma hex_digit_unhex d : 0 <= d < 16 -> unhex (hex_digit d) = Some d /\ unreserved (hex_digit d) = true.
Proof. intros Hd. assert (d = 0 \/ d = 1 \/ d = 2 \/ d = 3 \/ d = 4 \/ d = 5 \/ d = 6 \/ d = 7 \/ d = 8 \/ d = 9 \/ d = 10 \/ d = 11 \/ d = 12 \/ d = 13 \/ d = 14 \/ d = 15) by lia. naive_solver. Qed.

Lemma nibbles b : is_u8 b -> 0 <= Z.shiftr b 4 < 16 /\ 0 <= Z.land b 15 < 16 /\ b = 16 * Z.shiftr b 4 + Z.land b 15.
Proof.
  intros Hb. unfold is_u8, U8_MAX in Hb. rewrite Z.shiftr_div_pow2 by lia. change 15 with (Z.ones 4). rewrite Z.land_ones by lia. change (2 ^ 4) with 16.
  pose proof (Z.div_mod b 16 ltac:(lia)). pose proof (Z.mod_pos_bound b 16 ltac:(lia)). pose proof (Z.div_pos b 16 ltac:(lia) ltac:(lia)). pose proof (Z.div_lt_upper_bound b 16 16 ltac:(lia) ltac:(lia)). lia.
Qed.

Lemma unreserved_not_percent b : unreserved b = true -> (b =? 37) = false.
Proof. intros Hu. apply Z.eqb_neq. intros ->. by vm_compute in Hu. Qed.

Lemma percent_decode_encode v : Forall is_u8 v -> percent_decode (percent_encode v) = Some v.
Proof.
  unfold percent_encode. induction 1 as [|b v Hb Hv IH]; [done|]. cbn [map concat]. destruct (unreserved b) eqn:Eu.
  - simpl. rewrite unreserved_not_percent by done. by rewrite IH.
  - destruct (nibbles b Hb) as (H1 & H2 & H3). simpl. rewrite (proj1 (hex_digit_unhex _ H1)), (proj1 (hex_digit_unhex _ H2)), IH. cbn. by rewrite <-H3.
Qed.

(** The code's characters and triplets are those of RFC 3986. *)
Lemma unreserved_rfc b : unreserved b = bool_decide (rfc_unreserved b).
Proof.
  apply eq_true_iff_eq. unfold unreserved, is_ascii_alphanumeric, is_ascii_digit, is_ascii_upper, is_ascii_lower, in_range. rewrite bool_decide_eq_true, !orb_true_iff, !andb_true_iff, !Z.leb_le, bool_decide_eq_true.
  unfold rfc_unreserved. change (bs "-._~") with [45; 46; 95; 126]. tauto.
Qed.

Lemma percent_encode_rfc v : Forall is_u8 v -> percent_encode v = rfc_escape v.
Proof.
  unfold percent_encode, rfc_escape. induction 1 as [|b v Hb Hv IH]; [done|]. cbn [map concat]. rewrite IH, unreserved_rfc. f_equal.
  case_bool_decide as Hu; [by rewrite decide_True|]. rewrite decide_False by done. assert (forall d, hex_digit d = pct_digit d) as Hd by (intros d; unfold hex_digit, pct_digit; destruct (d <? 10); lia).
  rewrite !Hd, Z.shiftr_div_pow2 by lia. change 15 with (Z.ones 4). by rewrite Z.land_ones by lia.
Qed.

(** A character that separates parts of a URI. *)
Definition separator (b : Z) : Prop := ~ rfc_unreserved b /\ b ≠ 37.
#[export] Instance separator_dec b : Decision (separator b).
Proof. apply _. Defined.

Lemma percent_encode_no_separator v : Forall is_u8 v -> filter separator (percent_encode v) = [].
Proof.
  unfold percent_encode. induction 1 as [|b v Hb Hv IH]; [done|]. cbn [map concat]. rewrite filter_app, IH, app_nil_r.
  assert (forall c, unreserved c = true -> ~ separator c) as Hs by (intros c Hc [Hn _]; rewrite unreserved_rfc in Hc; by apply bool_decide_eq_true in Hc). destruct (unreserved b) eqn:Eu.
  - by rewrite filter_cons_False by auto.
  - destruct (nibbles b Hb) as (H1 & H2 & _). destruct (hex_digit_unhex _ H1) as [_ U1], (hex_digit_unhex _ H2) as [_ U2].
    rewrite !filter_cons_False; [done|auto|auto|by intros [_ ?]].
Qed.

(** ** Expansion *)

Definition ascii_values (vals : list (bytes * bytes)) : Prop := Forall (fun nv => Forall is_u8 nv.2) vals.

Lemma expand_vars_tail op i vals : ascii_values vals -> expand_vars op (S i) vals = concat (map (cons (op_sep op)) (map (op_item op) vals)).
Proof. intros Hv. revert i. induction Hv as [|[n v] vals Hv _ IH]; intros i; [done|]. cbn in Hv. cbn [expand_vars map concat]. rewrite IH, percent_encode_rfc by done. destruct op; simpl; by rewrite <-?app_assoc. Qed.

Lemma expand_vars_rfc op vals : ascii_values vals -> expand_vars op 0 vals = rfc_expr op vals.
Proof.
  intros Hv. destruct Hv as [|[n v] vals Hv Hvs]; [done|]. cbn in Hv. cbn [expand_vars rfc_expr map join_with]. rewrite expand_vars_tail, percent_encode_rfc by done. destruct op; simpl; by rewrite <-?app_assoc.
Qed.

Lemma defined_env h p names : defined h p (map var_of names) = omap (fun n => v ← target_env h p n; Some (n, v)) names.
Proof.
  induction names as [|n names IH]; [done|]. unfold defined in *. cbn [map omap list_omap]. unfold var_of at 1, target_env at 1.
  destruct (bool_decide (n = bs "target_host")) eqn:E1; [apply bool_decide_eq_true in E1 as ->; by f_equal|].
  destruct (bool_decide (n = bs "target_port")) eqn:E2; [apply bool_decide_eq_true in E2 as ->; by f_equal|]. exact IH.
Qed.

Lemma expand_part_rfc h p tp : Forall is_u8 h -> Forall is_u8 p -> expand_part h p (part_of tp) = rfc_part (target_env h p) tp.
Proof.
  intros Hh Hp. destruct tp as [s|op names]; [done|]. cbn [expand_part part_of rfc_part]. rewrite expand_vars_rfc, defined_env; [done|].
  unfold ascii_values, defined. apply Forall_forall. intros [n v] (x & _ & Hx)%list_elem_of_omap. destruct x; by simplify_eq.
Qed.

Lemma expand_parts_rfc h p ps : Forall is_u8 h -> Forall is_u8 p -> concat (map (expand_part h p) (map part_of ps)) = rfc_expand (target_env h p) ps.
Proof. intros Hh Hp. unfold rfc_expand. induction ps as [|tp ps IH]; [done|]. cbn [map concat]. by rewrite IH, expand_part_rfc. Qed.

(** ** Targets *)

Lemma to_digit_u8 b : is_Some (to_digit 16 b) -> is_u8 b.
Proof.
  unfold to_digit, is_ascii_digit, is_ascii_lower, is_ascii_upper, in_range. intros Hs. unfold_u. unfold U8_MAX.
  destruct (_ && _) eqn:E1 in Hs; [zbool; lia|]. destruct (_ && _) eqn:E2 in Hs; [zbool; lia|]. destruct (_ && _) eqn:E3 in Hs; [zbool; lia|]. by destruct Hs.
Qed.

Lemma reg_name_char_u8 b : reg_name_char b = true -> is_u8 b.
Proof.
  unfold reg_name_char. rewrite orb_true_iff. intros [Ha|Hs].
  - unfold is_ascii_alphanumeric, is_ascii_digit, is_ascii_upper, is_ascii_lower, in_range in Ha. unfold_u. rewrite !orb_true_iff in Ha. destruct Ha as [[Ha|Ha]|Ha]; zbool; lia.
  - apply bool_decide_eq_true in Hs. assert (Forall is_u8 (bs "-._~!$&'()*+,;=")) as Hf by (apply (bool_decide_unpack (Forall _ _)); by vm_compute). rewrite Forall_forall in Hf. auto.
Qed.

(** An accepted host is ASCII. *)
Lemma parse_host_u8 host h : parse_host host = Some h -> h ≠ [] /\ Forall is_u8 h.
Proof.
  unfold parse_host. assert (forall s, parses_ipv6 s = true -> s ≠ [] /\ Forall is_u8 s) as H6.
  { intros s Hs. split; [by intros ->|]. apply parses_ipv6_chars in Hs. eapply Forall_impl; [done|]. intros b [?|[->| ->]]; [by apply to_digit_u8|done|done]. }
  destruct (h0 ← strip_prefix (bs "[") host; strip_suffix (bs "]") h0) as [ip|]; [destruct (parses_ipv6 ip) eqn:E; [|done]; intros [= <-]; auto|].
  destruct (negb _ && _) eqn:E; [|done]. intros [= <-]. apply andb_true_iff in E as [Hne Hc]. apply negb_true_iff, bool_decide_eq_false in Hne. split; [done|].
  apply orb_true_iff in Hc as [Hc|Hc]; [by apply H6|]. unfold is_reg_name in Hc. rewrite forallb_forall in Hc. apply Forall_forall. intros b Hb. by apply reg_name_char_u8, Hc, list_elem_of_In.
Qed.

Lemma parse_host_spec host h : parse_host host = Some h <-> host_target host h.
Proof.
  assert (forall s, is_reg_name s = true <-> Forall (fun b => rfc_unreserved b \/ rfc_sub_delim b) s) as Hreg.
  { intros s. unfold is_reg_name. rewrite forallb_forall, Forall_forall. assert (forall b, reg_name_char b = true <-> rfc_unreserved b \/ rfc_sub_delim b) as Hb.
    { intros b. unfold reg_name_char. rewrite orb_true_iff. transitivity (unreserved b = true \/ rfc_sub_delim b); [|by rewrite unreserved_rfc, bool_decide_eq_true].
      unfold unreserved, rfc_sub_delim. rewrite orb_true_iff, !bool_decide_eq_true. change (bs "-._~!$&'()*+,;=") with (bs "-._~" ++ [33; 36; 38; 39; 40; 41; 42; 43; 44; 59; 61]). rewrite elem_of_app. tauto. }
    split; intros Hs b Hi; apply Hb, Hs; by apply list_elem_of_In. }
  assert (forall s, parses_ipv6 (bs "[" ++ s) = false /\ is_reg_name (bs "[" ++ s) = false) as Hbr.
  { intros s. split; [|done]. apply not_true_iff_false. intros Hs%parses_ipv6_chars. inversion Hs as [|? ? [Hd|[?|?]] _]; [|done|done]. by vm_compute in Hd; destruct Hd. }
  unfold parse_host. destruct (h0 ← strip_prefix (bs "[") host; strip_suffix (bs "]") h0) as [ip|] eqn:Es.
  - assert (host = bs "[" ++ ip ++ bs "]") as Eh.
    { destruct (strip_prefix (bs "[") host) as [r|] eqn:E1; [|done]. apply strip_prefix_Some in E1 as ->. cbn [mbind option_bind] in Es. apply strip_suffix_Some in Es as ->. done. }
    split.
    + destruct (parses_ipv6 ip) eqn:E; [|done]. intros [= <-]. by left.
    + intros [[Eq Hip]|(-> & _ & Hx)].
      * rewrite Eh in Eq. apply app_inv_head, app_inv_tail in Eq as ->. by rewrite Hip.
      * destruct (Hbr (ip ++ bs "]")) as [B1 B2]. rewrite <-Eh in B1, B2. rewrite <-Hreg in Hx. destruct Hx; congruence.
  - split.
    + destruct (negb _ && _) eqn:E; [|done]. intros [= <-]. right. apply andb_true_iff in E as [E1 E2]. apply negb_true_iff, bool_decide_eq_false in E1. apply orb_true_iff in E2. rewrite Hreg in E2. done.
    + intros [[-> _]|(-> & Hne & Hx)].
      * exfalso. cbn [mbind option_bind] in Es. rewrite strip_prefix_app in Es. cbn [mbind option_bind] in Es. unfold strip_suffix in Es. by rewrite rev_app_distr, strip_prefix_app in Es.
      * rewrite bool_decide_eq_false_2 by done. rewrite <-Hreg in Hx. cbn [negb andb]. by destruct Hx as [-> | ->]; rewrite ?orb_true_r.
Qed.

Lemma to_dec_u8 n : is_u64 n -> Forall is_u8 (to_dec n) /\ Forall (fun b => unreserved b = true) (to_dec n).
Proof.
  intros Hn. destruct (to_dec_spec n Hn) as (ds & -> & Hd & _ & _). split; apply Forall_map; (eapply Forall_impl; [done|]); intros d Hx; cbn in *.
  - unfold hex_digit. destruct (d <? 10) eqn:E; zbool; unfold_u; lia.
  - apply hex_digit_unhex. lia.
Qed.

(** The separators of an expansion do not depend on the target. *)
Lemma expand_vars_separators op h1 p1 h2 p2 : Forall is_u8 h1 -> Forall is_u8 p1 -> Forall is_u8 h2 -> Forall is_u8 p2 -> forall vars i,
  filter separator (expand_vars op i (defined h1 p1 vars)) = filter separator (expand_vars op i (defined h2 p2 vars)).
Proof.
  intros H1 H2 H3 H4. induction vars as [|v vars IH]; intros i; [done|]. destruct v; [| |exact (IH i)]; unfold defined in *; cbn [omap list_omap expand_vars];
    rewrite !filter_app, !percent_encode_no_separator by done; by rewrite IH.
Qed.

Lemma expand_part_separators h1 p1 h2 p2 part : Forall is_u8 h1 -> Forall is_u8 p1 -> Forall is_u8 h2 -> Forall is_u8 p2 ->
  filter separator (expand_part h1 p1 part) = filter separator (expand_part h2 p2 part).
Proof. intros. destruct part; [done|]. by apply expand_vars_separators. Qed.

(** ** Theorems *)

Section theorems.
Context {U : Type} `{UriOps U}.
Implicit Types (t : Template U) (u : U).

(** The names of the variables of a tree. *)
Definition names (ps : list TPart) : list bytes := concat (map (fun p => match p with TExpr _ ns => ns | TText _ => [] end) ps).

Lemma has_names v n ps : (forall m, var_of m = v <-> m = n) -> has v (map part_of ps) = true <-> n ∈ names ps.
Proof.
  intros Hv. unfold has, names. induction ps as [|[s|op ns] ps IH]; cbn [map part_of existsb concat].
  - split; [done|]. intros []%not_elem_of_nil.
  - done.
  - rewrite orb_true_iff, IH, bool_decide_eq_true, elem_of_app, list_elem_of_fmap. split.
    + intros [(m & Hm & Hin)|?]; [left|by right]. symmetry in Hm. apply Hv in Hm as ->. done.
    + intros [?|?]; [left|by right]. exists n. split; [|done]. symmetry. by apply Hv.
Qed.

Lemma var_of_host m : var_of m = VHost <-> m = bs "target_host".
Proof. unfold var_of. repeat case_bool_decide; naive_solver. Qed.

Lemma var_of_port m : var_of m = VPort <-> m = bs "target_port".
Proof. unfold var_of. repeat case_bool_decide; subst; try done; naive_solver. Qed.

(** The port of a proxy: nothing, or a colon and a number from 1 to 65535. *)
Definition port_text (s : bytes) : Prop := s = [] \/ exists ds p, s = bs ":" ++ ds /\ Forall (fun b => is_ascii_digit b = true) ds /\ parse_u16 ds = Some p /\ p ≠ 0.

Lemma valid_port_spec proxy host : valid_port proxy host = true <-> exists port, uri_authority proxy = Some (host ++ port) /\ port_text port.
Proof.
  unfold valid_port. split.
  - destruct (uri_authority proxy) as [a|]; [|done]. cbn [mbind option_bind]. destruct (strip_prefix host a) as [port|] eqn:E; [|done]. apply strip_prefix_Some in E as ->. intros Hp. exists port. split; [done|].
    destruct port as [|b port]; [by left|right]. destruct (strip_prefix (bs ":") (b :: port)) as [ds|] eqn:E; [|done]. apply strip_prefix_Some in E. apply andb_true_iff in Hp as [Hd Hp].
    destruct (parse_u16 ds) as [p|] eqn:Ep; [|done]. exists ds, p. apply negb_true_iff, Z.eqb_neq in Hp. split_and!; try done. rewrite forallb_forall in Hd. apply Forall_forall. intros x Hx. by apply Hd, list_elem_of_In.
  - intros (port & -> & Hp). cbn [mbind option_bind]. rewrite strip_prefix_app. destruct Hp as [->|(ds & p & -> & Hd & Ep & Hp)]; [done|].
    change (bs ":" ++ ds) with (58 :: ds). change (strip_prefix (bs ":") (58 :: ds)) with (Some ds). cbn. rewrite Ep. apply andb_true_iff. split; [|by apply negb_true_iff, Z.eqb_neq].
    apply forallb_forall. rewrite Forall_forall in Hd. intros x Hx. by apply Hd, list_elem_of_In.
Qed.

(** The templates of RFC 9298, section 2, for this client: absolute, visible ASCII, an
    authority that is a host with an optional port, and a tree of literals and
    expressions that has both variables. *)
Definition template_ok (s : bytes) t : Prop := exists scheme authority ps host port,
  Forall (fun b => 33 <= b <= 126) s /\
  s = scheme ++ bs "://" ++ authority ++ text ps /\ (forall x y, s = x ++ bs "://" ++ y -> (length scheme <= length x)%nat) /\
  scheme ≠ [] /\ authority ≠ [] /\ (forall c, c ∈ bs "{}" -> c ∉ scheme) /\ (forall c, c ∈ bs "{}?#@/" -> c ∉ authority) /\
  uri_parse (scheme ++ bs "://" ++ authority ++ bs "/") = Some (t_proxy t) /\
  dst_host (t_proxy t) = Some host /\ (exists h, host_target host h) /\ uri_authority (t_proxy t) = Some (host ++ port) /\ port_text port /\
  tree_ok ps /\ head (text ps) = Some SLASH /\ bs "target_host" ∈ names ps /\ bs "target_port" ∈ names ps /\
  t = MkTemplate s (t_proxy t) (map part_of ps) /\
  uri_parse (removelast (uri_to_string (t_proxy t)) ++ rfc_expand (target_env (bs "localhost") (bs "443")) ps) ≠ None.

Lemma expand_localhost t ps : t_parts t = map part_of ps -> (match expand t (bs "localhost") 443 with Ok _ => true | Err _ => false end = true <->
  uri_parse (removelast (uri_to_string (t_proxy t)) ++ rfc_expand (target_env (bs "localhost") (bs "443")) ps) ≠ None).
Proof.
  intros Ep. unfold expand. change (parse_host (bs "localhost")) with (Some (bs "localhost")). change (443 =? 0) with false. cbv iota.
  unfold expansion. rewrite Ep, expand_parts_rfc by (by apply (bool_decide_unpack (Forall _ _)); vm_compute). change (to_dec 443) with (bs "443"). by destruct (uri_parse _).
Qed.

Lemma contains_none cs s : negb (contains_any cs s) = true <-> forall c, c ∈ cs -> c ∉ s.
Proof. rewrite negb_true_iff. apply contains_any_spec. Qed.

Lemma visible s : forallb (in_range 33 126) s = true <-> Forall (fun b => 33 <= b <= 126) s.
Proof.
  rewrite forallb_forall, Forall_forall. unfold in_range. split; intros Hf b Hb; specialize (Hf b).
  - specialize (Hf (proj1 (list_elem_of_In _ _) Hb)). zbool. lia.
  - specialize (Hf (proj2 (list_elem_of_In _ _) Hb)). apply andb_true_iff. split; apply Z.leb_le; lia.
Qed.

(** C18. A CONNECT-UDP template is accepted exactly when it has what RFC 9298 and the
    documentation of [Template] ask for: visible ASCII in absolute form, a scheme and an
    authority without variables or user information, whose host is an IPv6 literal or a
    registered name and whose port, if any, is a number from 1 to 65535, a path of
    literals without a fragment and of closed expressions with no operator, [?] or [&] and
    names without level 4 modifiers, both variables among them, and an expansion that is a
    URI. As documented, literals and names are not otherwise held to the syntax of
    RFC 6570. *)
Theorem template_new_iff s t : template_new s = Ok t <-> template_ok s t.
Proof.
  unfold template_new. rewrite bind_Ok. split.
  - intros ([] & Hvis%check_Ok%visible & Hk). apply bind_Ok in Hk as ([scheme rest] & Hs%ok_or_Ok%split_once_spec & Hk). destruct Hs as [-> Hfirst].
    apply bind_Ok in Hk as ([authority path] & Hp%ok_or_Ok%find_char_spec & Hk). destruct Hp as (-> & Hna & Hhd).
    apply bind_Ok in Hk as ([] & Hne%check_Ok & Hk). apply bind_Ok in Hk as ([] & Hbr%check_Ok & Hk). apply bind_Ok in Hk as ([] & Hat%check_Ok & Hk).
    apply bind_Ok in Hk as (proxy & Hproxy%ok_or_Ok & Hk). apply bind_Ok in Hk as (host & Hhost%ok_or_Ok & Hk). apply bind_Ok in Hk as ([] & Hph%check_Ok & Hk).
    apply bind_Ok in Hk as ([] & Hport%check_Ok & Hk). apply bind_Ok in Hk as (parts & Hparts & Hk). apply bind_Ok in Hk as ([] & Hhas%check_Ok & Hk).
    apply bind_Ok in Hk as ([] & Hex%check_Ok & [= <-]). apply parse_parts_Ok in Hparts as (ps & Hps & -> & ->). apply valid_port_spec in Hport as (port & Hauth & Hport).
    apply andb_true_iff in Hhas as [Hh Hp]. apply (has_names VHost (bs "target_host")) in Hh; [|apply var_of_host]. apply (has_names VPort (bs "target_port")) in Hp; [|apply var_of_port].
    rewrite negb_orb in Hne, Hbr. apply andb_true_iff in Hne as [Hn1 Hn2], Hbr as [Hb1 Hb2]. apply negb_true_iff, bool_decide_eq_false in Hn1, Hn2.
    rewrite contains_none in Hb1, Hb2, Hat. exists scheme, authority, ps, host, port. split_and!; try done.
    + intros c Hc. assert (c ∈ bs "{}?#" \/ c ∈ bs "@" \/ c = SLASH) as [?|[?| ->]]; [|auto..]. revert Hc. unfold SLASH. vm_compute bs. set_solver.
    + destruct (parse_host host) as [h|] eqn:Eh; [|done]. exists h. by apply parse_host_spec.
    + by apply (expand_localhost (MkTemplate _ proxy (map part_of ps)) ps eq_refl).
  - intros (scheme & authority & ps & host & port & Hvis & Es & Hfirst & Hn1 & Hn2 & Hb1 & Hb2 & Hproxy & Hhost & Hph & Hauth & Hport & Hps & Hhd & Hh & Hp & Et & Hex).
    exists tt. split; [by apply check_Ok, visible|]. apply bind_Ok. exists (scheme, authority ++ text ps). split; [by apply ok_or_Ok, split_once_spec|].
    apply bind_Ok. exists (authority, text ps). split; [apply ok_or_Ok, find_char_spec; split_and!; [done|apply Hb2; by apply (bool_decide_unpack (_ ∈ _))|done]|].
    apply bind_Ok. exists tt. split; [by apply check_Ok; rewrite !bool_decide_false|]. apply bind_Ok. exists tt. split.
    { apply check_Ok. rewrite negb_orb. apply andb_true_iff. split; apply contains_none; [done|]. intros c Hc. apply Hb2. revert Hc. vm_compute bs. set_solver. }
    apply bind_Ok. exists tt. split; [apply check_Ok, contains_none; intros c Hc; apply Hb2; revert Hc; vm_compute bs; set_solver|].
    apply bind_Ok. exists (t_proxy t). split; [by apply ok_or_Ok|]. apply bind_Ok. exists host. split; [by apply ok_or_Ok|]. apply bind_Ok. exists tt. split; [apply check_Ok; destruct Hph as [h Hph%parse_host_spec]; by rewrite Hph|].
    apply bind_Ok. exists tt. split; [apply check_Ok, valid_port_spec; by exists port|]. apply bind_Ok. exists (map part_of ps). split; [apply parse_parts_Ok; by exists ps|].
    apply bind_Ok. exists tt. split; [apply check_Ok, andb_true_iff; split; [by apply (has_names VHost (bs "target_host") _ var_of_host)|by apply (has_names VPort (bs "target_port") _ var_of_port)]|].
    apply bind_Ok. exists tt. split; [|by rewrite <-Et]. apply check_Ok. rewrite <-Et. apply (expand_localhost t ps); [by rewrite Et|done].
Qed.

Lemma template_tree s t : template_new s = Ok t -> exists scheme authority ps, s = scheme ++ bs "://" ++ authority ++ text ps /\ tree_ok ps /\ t_parts t = map part_of ps.
Proof.
  unfold template_new. intros ([] & _ & Hk)%bind_Ok. apply bind_Ok in Hk as ([scheme rest] & Hs%ok_or_Ok%split_once_spec & Hk). destruct Hs as [-> _].
  apply bind_Ok in Hk as ([authority path] & Hp%ok_or_Ok%find_char_spec & Hk). destruct Hp as (-> & _). do 3 (apply bind_Ok in Hk as ([] & _ & Hk)).
  apply bind_Ok in Hk as (proxy & _ & Hk). apply bind_Ok in Hk as (host & _ & Hk). do 2 (apply bind_Ok in Hk as ([] & _ & Hk)). apply bind_Ok in Hk as (parts & Hparts & Hk).
  do 2 (apply bind_Ok in Hk as ([] & _ & Hk)). injection Hk as <-. apply parse_parts_Ok in Hparts as (ps & Hps & -> & ->). by exists scheme, authority, ps.
Qed.

Lemma expansion_rfc t ps h p : Forall is_u8 h -> is_u16 p -> t_parts t = map part_of ps -> expansion t h p = removelast (uri_to_string (t_proxy t)) ++ rfc_expand (target_env h (to_dec p)) ps.
Proof. intros Hh Hp E. unfold expansion. rewrite E, expand_parts_rfc; [done|done|]. apply to_dec_u8. unfold_u. lia. Qed.

(** C19. Expanding an accepted template is the expansion of RFC 6570 of the tree it is
    the text of, with the target's host and port as its variables, after the proxy's
    scheme and authority; it fails exactly for a host that is neither an IPv6 address
    nor a registered name, for port zero and where the http crate refuses the URI. Values
    are encoded as RFC 3986 says: everything but its unreserved characters becomes a
    triplet. So the target cannot change the shape of the URI: the other characters are the
    same for all targets, and the values decode to the host. *)
Theorem template_expands s t : template_new s = Ok t -> exists scheme authority ps, s = scheme ++ bs "://" ++ authority ++ text ps /\ tree_ok ps /\
  (forall host port u, is_u16 port -> expand t host port = Ok u <-> exists h, host_target host h /\ port ≠ 0 /\
    uri_parse (removelast (uri_to_string (t_proxy t)) ++ rfc_expand (target_env h (to_dec port)) ps) = Some u) /\
  (forall host port e, expand t host port = Err e -> e = InvalidTarget) /\
  (forall host1 port1 h1 host2 port2 h2, host_target host1 h1 -> host_target host2 h2 -> is_u16 port1 -> is_u16 port2 ->
    filter separator (expansion t h1 port1) = filter separator (expansion t h2 port2) /\ percent_decode (rfc_escape h1) = Some h1).
Proof.
  intros Hn. destruct (template_tree s t Hn) as (scheme & authority & ps & -> & Hps & Ep). exists scheme, authority, ps. split; [done|]. split; [done|]. split; [|split].
  - intros host port u Hu16. unfold expand. setoid_rewrite <-parse_host_spec. destruct (parse_host host) as [h|] eqn:Eh; [|split; [done|by intros (? & ? & _)]].
    rewrite (expansion_rfc t ps) by (done || by eapply parse_host_u8). destruct (port =? 0) eqn:E0; zbool.
    + split; [done|]. by intros (? & _ & ? & _).
    + destruct (uri_parse _) as [u'|] eqn:Eu; split.
      * intros [= <-]. by exists h.
      * intros (h' & [= <-] & _ & E). congruence.
      * done.
      * intros (h' & [= <-] & _ & E). congruence.
  - intros host port e. unfold expand. destruct (parse_host host); [|by intros [= <-]]. destruct (port =? 0); [by intros [= <-]|]. destruct (uri_parse _); [done|by intros [= <-]].
  - intros host1 port1 h1 host2 port2 h2 [_ H1]%parse_host_spec%parse_host_u8 [_ H2]%parse_host_spec%parse_host_u8 Hp1 Hp2. split; [|rewrite <-percent_encode_rfc by done; by apply percent_decode_encode].
    unfold expansion. rewrite !filter_app. f_equal.
    assert (forall p, is_u16 p -> Forall is_u8 (to_dec p)) as Hdec by (intros p Hp; apply to_dec_u8; unfold_u; lia).
    clear Ep. induction (t_parts t) as [|part parts IH]; [done|]. cbn [map concat]. rewrite !filter_app, IH. f_equal. apply expand_part_separators; auto.
Qed.

(** ** The default template *)

Lemma percent_encode_unreserved v : Forall (fun b => unreserved b = true) v -> percent_encode v = v.
Proof. unfold percent_encode. induction 1 as [|b v Hb _ IH]; [done|]. cbn [map concat]. by rewrite Hb, IH. Qed.

Lemma percent_encode_no_slash v : Forall is_u8 v -> SLASH ∉ percent_encode v.
Proof.
  intros Hv Hs. assert (SLASH ∈ filter separator (percent_encode v)) as Hin; [|rewrite percent_encode_no_separator in Hin by done; by apply not_elem_of_nil in Hin].
  apply list_elem_of_filter. split; [|done]. by apply (bool_decide_unpack (separator SLASH)).
Qed.

Lemma well_known_parts proxy t : (SLASH ∉ proxy) -> well_known proxy = Ok t ->
  t_parts t = [Literal (bs "/.well-known/masque/udp/"); Expr Simple [VHost]; Literal (bs "/"); Expr Simple [VPort]; Literal (bs "/")].
Proof.
  intros Hp. set (path := bs "/.well-known/masque/udp/{target_host}/{target_port}/"). unfold well_known, template_new. fold path. intros ([] & _ & Hk)%bind_Ok.
  apply bind_Ok in Hk as ([scheme rest] & Hs%ok_or_Ok & Hk). change (split_once (bs "://") (bs "https://" ++ proxy ++ path)) with (Some (bs "https", proxy ++ path)) in Hs. injection Hs as <- <-.
  apply bind_Ok in Hk as ([authority path'] & Hf%ok_or_Ok & Hk). assert (find_char SLASH (proxy ++ path) = Some (proxy, path)) as Ef by (by apply find_char_spec).
  rewrite Ef in Hf. injection Hf as <- <-. do 3 (apply bind_Ok in Hk as ([] & _ & Hk)).
  apply bind_Ok in Hk as (u & _ & Hk). apply bind_Ok in Hk as (host & _ & Hk). do 2 (apply bind_Ok in Hk as ([] & _ & Hk)). apply bind_Ok in Hk as (parts & Hparts & Hk).
  do 2 (apply bind_Ok in Hk as ([] & _ & Hk)). injection Hk as <-. cbn [t_parts]. vm_compute in Hparts. by injection Hparts as <-.
Qed.

Lemma app_no_slash x y x' y' : (SLASH ∉ x) -> (SLASH ∉ x') -> x ++ SLASH :: y = x' ++ SLASH :: y' -> x = x' /\ y = y'.
Proof.
  revert x'. induction x as [|b x IH]; intros [|b' x']; simpl; intros Hx Hx' E; [by simplify_eq|injection E as <- _; set_solver|injection E as -> _; set_solver|].
  injection E as -> E. destruct (IH x') as [-> ->]; [set_solver|set_solver|done|done].
Qed.

(** With the default template of a proxy, the URI of a tunnel names its target: it
    ends in the percent-encoded host and the port between slashes, and two targets
    never share one. *)
Theorem well_known_targets proxy t : (SLASH ∉ proxy) -> well_known proxy = Ok t -> forall host1 h1 port1 host2 h2 port2,
  parse_host host1 = Some h1 -> parse_host host2 = Some h2 -> is_u16 port1 -> is_u16 port2 ->
  expansion t h1 port1 = removelast (uri_to_string (t_proxy t)) ++ bs "/.well-known/masque/udp/" ++ percent_encode h1 ++ bs "/" ++ to_dec port1 ++ bs "/" /\
  (expansion t h1 port1 = expansion t h2 port2 -> h1 = h2 /\ port1 = port2).
Proof.
  intros Hp Hw host1 h1 port1 host2 h2 port2 [_ H1]%parse_host_u8 [_ H2]%parse_host_u8 Hp1 Hp2.
  assert (forall h p, is_u16 p -> expansion t h p = removelast (uri_to_string (t_proxy t)) ++ bs "/.well-known/masque/udp/" ++ percent_encode h ++ bs "/" ++ to_dec p ++ bs "/") as Hexp.
  { intros h p Hpp. unfold expansion. rewrite (well_known_parts proxy t Hp Hw). cbn [map concat expand_part defined omap list_omap expand_vars]. rewrite !app_nil_r.
    rewrite (percent_encode_unreserved (to_dec p)); [by rewrite <-?app_assoc|]. apply to_dec_u8. unfold_u. lia. }
  rewrite !Hexp by done. split; [done|]. intros E. apply app_inv_head, app_inv_head in E. change (bs "/") with [SLASH] in E. simpl in E.
  apply app_no_slash in E as [E1 E2]; [|by apply percent_encode_no_slash..]. assert (is_u64 port1 /\ is_u64 port2) as [Hu1 Hu2] by (unfold_u; lia).
  split; [apply (f_equal percent_decode) in E1; rewrite !percent_decode_encode in E1 by done; by injection E1|].
  apply app_inv_tail in E2. assert (forall n, is_u64 n -> of_digits 10 (map (fun b => b - 48) (to_dec n)) = n) as Hval; [|by rewrite <-(Hval port1), <-(Hval port2), E2 by done].
  intros n Hn. destruct (to_dec_spec n Hn) as (ds & -> & Hd & Hv & _). rewrite map_map. rewrite <-Hv. f_equal. rewrite <-(map_id ds) at 2. apply map_ext_in.
  intros d Hin%list_elem_of_In. rewrite Forall_forall in Hd. specialize (Hd d Hin). unfold hex_digit. rewrite (proj2 (Z.ltb_lt d 10)) by lia. lia.
Qed.
End theorems.

(** ** Examples *)

Module ConcreteTemplate.
Import ConcreteUri.

(** The templates of the tests. *)
Definition query_template : bytes := bs "https://proxy.example/m{?x}{?y,target_host}{&z,target_port}".
Definition query : Template uri := MkTemplate query_template (Uri (bs "https://proxy.example/"))
  [Literal (bs "/m"); Expr Query [VOther]; Expr Query [VOther; VHost]; Expr QueryContinuation [VOther; VPort]].

Example query_parses : template_new query_template = Ok query.
Proof. by vm_compute. Qed.

Example expansions :
  expand query (bs "example.com") 443 = Ok (Uri (bs "https://proxy.example/m?target_host=example.com&target_port=443")) /\
  (t ← template_new (bs "https://proxy.example:4443/masque?h={target_host}&p={target_port}"); expand t (bs "[2001:db8::42]") 443) =
    Ok (Uri (bs "https://proxy.example:4443/masque?h=2001%3Adb8%3A%3A42&p=443")) /\
  (t ← template_new (bs "https://proxy.example/m/{x,target_host,y,target_port}"); expand t (bs "a-b_c~d.example") 443) =
    Ok (Uri (bs "https://proxy.example/m/a-b_c~d.example,443")).
Proof. by vm_compute. Qed.

Example rejections :
  map (fun s => match template_new (U := uri) (bs s) with Err (InvalidTemplate r) => r | _ => "" end)%string
    ["/masque/{target_host}/{target_port}/"; "https://proxy.example"; "https://p.example/m#{target_host}/{target_port}"; "://p.example/{target_host}/{target_port}";
     "https://u:s@p.example/{target_host}/{target_port}"; "https://p.example:0/{target_host}/{target_port}"; "https://[p.example]/{target_host}/{target_port}";
     "https://p.example/{target_host}"; "https://p.example/{+target_host}/{target_port}"; "https://p.example/{target_host*}/{target_port}"; "https://p.example/{target_host}/{target_port}/{x"]%string =
    ["not in absolute form"; "path must start with a slash"; "variables outside the path and query"; "empty scheme or authority"; "userinfo in the authority"; "invalid port"; "invalid host";
     "missing target_host or target_port"; "reserved, fragment, label or path expansion"; "level 4 modifiers"; "unclosed expression"]%string.
Proof. by vm_compute. Qed.

Lemma template_expands_witness : filter separator (expansion query (bs "::1") 53) = filter separator (expansion query (bs "a.example") 443) /\
  percent_decode (rfc_escape (bs "::1")) = Some (bs "::1").
Proof.
  destruct (template_expands query_template query) as (scheme & authority & ps & _ & _ & _ & _ & Hs); [by vm_compute|].
  apply (Hs (bs "[::1]") 53 (bs "::1") (bs "a.example") 443 (bs "a.example")); [apply parse_host_spec; by vm_compute..|by vm_compute|by vm_compute].
Defined.

Definition default : Template uri := MkTemplate (bs "https://proxy.example:443/.well-known/masque/udp/{target_host}/{target_port}/") (Uri (bs "https://proxy.example:443/"))
  [Literal (bs "/.well-known/masque/udp/"); Expr Simple [VHost]; Literal (bs "/"); Expr Simple [VPort]; Literal (bs "/")].

Lemma well_known_targets_witness : expansion default (bs "::1") 53 = bs "https://proxy.example:443/.well-known/masque/udp/%3A%3A1/53/" /\
  (expansion default (bs "::1") 53 = expansion default (bs "a.example") 53 -> bs "::1" = bs "a.example" /\ 53 = 53).
Proof.
  split; [by vm_compute|]. apply (well_known_targets (bs "proxy.example:443") default) with (host1 := bs "::1") (host2 := bs "a.example"); try by vm_compute.
  by apply (bool_decide_unpack (SLASH ∉ bs "proxy.example:443")).
Defined.
End ConcreteTemplate.
