(* ===== verification/Upgrade.v ===== *)
(** * Upgrade

    [upgrade.rs]: the hand-over of a connection after an upgrade. [Rewind] gives back the
    bytes that were read beyond the HTTP message before it reads on; [OnUpgrade] and
    [Pending] are the two ends of a one-shot channel, of which clones of [OnUpgrade]
    share the receiver. *)

From stdpp Require Import prelude strings.
From Stdlib Require Import ZArith Lia.
From S2P Require Import Prelude Bytes Errors Async.
Local Open Scope Z_scope.

(** ** [rewind] *)

Section rewind.
Context {T : Type} `{AsyncIo T}.

Record Rewind : Type := MkRewind { rw_pre : option bytes; rw_inner : T }.
Definition set_rw_pre x r := MkRewind x (rw_inner r).
Definition set_rw_inner x r := MkRewind (rw_pre r) x.

(** [Rewind::new_buffered], [Upgraded::new]. *)
Definition new_buffered (io : T) (buf : bytes) : Rewind := MkRewind (Some buf) io.

Definition on_inner {E A} (m : M T E A) : M Rewind E A := zoom rw_inner set_rw_inner m.

(** [poll_read] into a buffer with room for [cap] bytes. *)
Definition rw_poll_read (cap : Z) : M Rewind io_error bytes := fun r =>
  match rw_pre r with
  | Some (b :: rest) =>
      let prefix := b :: rest in
      let copy_len := Z.min (len prefix) cap in
      let left := zdrop copy_len prefix in
      (set_rw_pre (if bool_decide (left = []) then None else Some left) r, Ready (ztake copy_len prefix))
  | _ => on_inner (aio_read cap) (set_rw_pre None r)
  end.

(** [poll_write], [poll_flush]. *)
Definition rw_poll_write (b : bytes) : M Rewind io_error Z := on_inner (aio_write b).
Definition rw_poll_flush : M Rewind io_error unit := on_inner aio_flush.

#[export] Instance Rewind_AsyncIo : AsyncIo Rewind := { aio_read := rw_poll_read; aio_write := rw_poll_write; aio_flush := rw_poll_flush }.
End rewind.
Arguments Rewind : clear implicits.

(** ** [OnUpgrade] and [Pending] *)

(** [tokio::sync::oneshot], as its receiver sees it: nothing yet, a value, a sender that
    is gone without one, or what was there has been received. *)
Inductive OneShot (V : Type) : Type := OsEmpty | OsValue (v : V) | OsCanceled | OsTaken.
Arguments OsEmpty {V}.
Arguments OsValue {V} v.
Arguments OsCanceled {V}.
Arguments OsTaken {V}.

Section on_upgrade.
Context {Upgraded : Type}.
Abbreviation Chan := (OneShot (result Error Upgraded)).

(** [UpgradeExpected], the cause of a cancelled upgrade. *)
Definition upgrade_expected : Error := err_with (CauseText "upgrade expected but not completed") new_canceled.

(** [struct OnUpgrade]: whether there is a receiver. *)
Record OnUpgrade : Type := MkOnUpgrade { has_rx : bool }.
Definition on_upgrade_none : OnUpgrade := MkOnUpgrade false.
Definition on_upgrade_is_none (o : OnUpgrade) : bool := negb (has_rx o).

(** [pending()]. *)
Definition pending : Chan * OnUpgrade := (OsEmpty, MkOnUpgrade true).

(** [sealed::CanUpgrade::on_upgrade]: what the extensions of a message hold, if any. *)
Definition can_upgrade (ext : option OnUpgrade) : option OnUpgrade * OnUpgrade := (None, default on_upgrade_none ext).

(** [take_fulfilled]. *)
Definition take_fulfilled (o : OnUpgrade) (c : Chan) : Chan * option Upgraded :=
  if has_rx o then
    match c with
    | OsValue (Ok u) => (OsTaken, Some u)
    | OsValue (Err _) | OsCanceled => (OsTaken, None)
    | OsEmpty | OsTaken => (c, None)
    end
  else (c, None).

(** [<OnUpgrade as Future>::poll]; without [budget] tokio's channel is never ready. *)
Definition on_upgrade_poll (budget : bool) (o : OnUpgrade) : M Chan Error Upgraded := fun c =>
  if has_rx o then
    match c with
    | OsTaken => (c, Failed new_user_no_upgrade)
    | _ =>
        if budget then
          match c with
          | OsValue (Ok u) => (OsTaken, Ready u)
          | OsValue (Err err) => (OsTaken, Failed err)
          | OsCanceled => (OsTaken, Failed upgrade_expected)
          | OsEmpty | OsTaken => (c, Pending)
          end
        else (c, Pending)
    end
  else (c, Failed new_user_no_upgrade).

(** [Pending::fulfill], [Pending::manual], and the drop of a [Pending]; each consumes
    it. *)
Definition fulfill (u : Upgraded) (c : Chan) : Chan := match c with OsEmpty => OsValue (Ok u) | _ => c end.
Definition manual (c : Chan) : Chan := match c with OsEmpty => OsValue (Err new_user_manual_upgrade) | _ => c end.
Definition pending_drop (c : Chan) : Chan := match c with OsEmpty => OsCanceled | _ => c end.
End on_upgrade.

(** ** Upgrades: theorems *)

(** ** [Rewind] *)

Section rewind.
Context {T : Type} `{AL : AsyncIoLaws T}.
Implicit Types (r : Rewind T) (rd wr : bytes).

(** What there is to read: what was buffered, then the rest of the connection. *)
Definition rw_incoming r : bytes := default [] (rw_pre r) ++ aio_incoming (rw_inner r).

(** Rewinding keeps the promises of the connection, for what there is to read. *)
#[export] Instance Rewind_AsyncIoLaws : AsyncIoLaws (Rewind T).
Proof.
  refine {| aio_incoming := rw_incoming; aio_written r := aio_written (rw_inner r); aio_patience r := aio_patience (rw_inner r); aio_fault := aio_fault |}.
  - intros cap r r' b. cbn. unfold rw_poll_read, rw_incoming. destruct (rw_pre r) as [[|c rest]|] eqn:Ep.
    2: { intros [= <- <-]. cbn [rw_pre rw_inner set_rw_pre]. set (p := c :: rest). assert (0 < len p) by (unfold p; rewrite len_cons; pose proof (len_nonneg rest); lia).
      assert (default [] (if bool_decide (zdrop (len p `min` cap) p = []) then None else Some (zdrop (len p `min` cap) p)) = zdrop (len p `min` cap) p) as ->.
      { case_bool_decide as E; [by rewrite E|done]. }
      split_and!; try done.
      - cbn [default from_option]. by rewrite (assoc_L (++)), ztake_zdrop.
      - destruct (Z.le_gt_cases 0 (len p `min` cap)); [rewrite len_ztake by lia; lia|]. unfold ztake. rewrite Z2Nat.nonpos by lia. change (len (take 0 p)) with 0. lia.
      - intros E Hc. by apply ztake_nonnil in E; [|lia|]. }
    all: unfold on_inner, zoom; cbn [rw_inner set_rw_pre]; destruct (aio_read cap (rw_inner r)) as [t o] eqn:E; intros [= <- ->]; apply aio_read_ready in E; exact E.
  - intros cap r r' o. cbn. unfold rw_poll_read, rw_incoming. destruct (rw_pre r) as [[|c rest]|] eqn:Ep.
    2: { intros [= <- <-] Ho. by destruct (Ho _ eq_refl). }
    all: unfold on_inner, zoom; cbn [rw_inner set_rw_pre]; destruct (aio_read cap (rw_inner r)) as [t o'] eqn:E; intros [= <- <-] Ho; apply (aio_read_unready _ _ _ _ E Ho).
  - intros b r r' n. cbn. unfold rw_poll_write, on_inner, zoom, rw_incoming. destruct (aio_write b (rw_inner r)) as [t o] eqn:E. intros [= <- ->].
    apply aio_write_ready in E as (E1 & E2 & E3 & E4 & E5). cbn. by rewrite E3.
  - intros b r r' o. cbn. unfold rw_poll_write, on_inner, zoom, rw_incoming. destruct (aio_write b (rw_inner r)) as [t o'] eqn:E. intros [= <- <-] Ho.
    destruct (aio_write_unready _ _ _ _ E Ho) as (E1 & E2 & E3). cbn. by rewrite E1.
  - intros r r' o. cbn. unfold rw_poll_flush, on_inner, zoom, rw_incoming. destruct (aio_flush (rw_inner r)) as [t o'] eqn:E. intros [= <- <-].
    destruct (aio_flush_any _ _ _ E) as (E1 & E2 & E3). cbn. by rewrite E1.
Defined.

(** What an upgraded connection has been read and written. *)
Inductive rw_run (r0 : Rewind T) : Rewind T -> bytes -> bytes -> Prop :=
| rwr_start : rw_run r0 r0 [] []
| rwr_read cap r rd wr r' o : rw_run r0 r rd wr -> rw_poll_read cap r = (r', o) -> rw_run r0 r' (match o with Ready b => rd ++ b | _ => rd end) wr
| rwr_write b r rd wr r' o : rw_run r0 r rd wr -> rw_poll_write b r = (r', o) -> rw_run r0 r' rd (match o with Ready n => wr ++ ztake n b | _ => wr end)
| rwr_flush r rd wr r' o : rw_run r0 r rd wr -> rw_poll_flush r = (r', o) -> rw_run r0 r' rd wr.

(** An upgraded connection is the connection with the bytes that had been read too
    far put back in front: whatever is read and written in any order, what was read and
    what is still to come are the buffered bytes followed by the rest of the
    connection, what was written has been written to the connection, and a read that
    gives nothing where there is room means that both have ended. *)
Theorem upgraded_rewinds io buf r rd wr : rw_run (new_buffered io buf) r rd wr ->
  buf ++ aio_incoming io = rd ++ rw_incoming r /\
  aio_written (rw_inner r) = aio_written io ++ wr /\
  (forall cap r' , 0 < cap -> rw_poll_read cap r = (r', Ready []) -> rd = buf ++ aio_incoming io).
Proof.
  intros Hr. assert (buf ++ aio_incoming io = rd ++ rw_incoming r /\ aio_written (rw_inner r) = aio_written io ++ wr) as [Ei Ew].
  { induction Hr as [|cap r rd wr r' o _ [Ei Ew] E|b r rd wr r' o _ [Ei Ew] E|r rd wr r' o _ [Ei Ew] E].
    - cbn. by rewrite app_nil_r.
    - destruct o as [b|e| | |].
      1: { destruct (aio_read_ready (T := Rewind T) (AsyncIoLaws := Rewind_AsyncIoLaws) cap r r' b E) as (E1 & E2 & _). cbn in E1, E2. rewrite Ei, E1, E2. by rewrite (assoc_L (++)). }
      all: destruct (aio_read_unready (T := Rewind T) (AsyncIoLaws := Rewind_AsyncIoLaws) cap r r' _ E ltac:(done)) as (E1 & E2 & _); cbn in E1, E2; by rewrite E1, E2.
    - destruct o as [n|e| | |].
      1: { destruct (aio_write_ready (T := Rewind T) (AsyncIoLaws := Rewind_AsyncIoLaws) b r r' n E) as (_ & _ & E1 & E2 & _). cbn in E1, E2. rewrite Ei, E1, E2, Ew. by rewrite (assoc_L (++)). }
      all: destruct (aio_write_unready (T := Rewind T) (AsyncIoLaws := Rewind_AsyncIoLaws) b r r' _ E ltac:(done)) as (E1 & E2 & _); cbn in E1, E2; by rewrite E1, E2.
    - destruct (aio_flush_any (T := Rewind T) (AsyncIoLaws := Rewind_AsyncIoLaws) r r' o E) as (E1 & E2 & _). cbn in E1, E2. by rewrite E1, E2. }
  split_and!; [done|done|]. intros cap r' Hc E. destruct (aio_read_ready (T := Rewind T) (AsyncIoLaws := Rewind_AsyncIoLaws) cap r r' [] E) as (_ & _ & _ & Hz & _). specialize (Hz eq_refl Hc). cbn in Hz. by rewrite Hz, app_nil_r in Ei.
Qed.
End rewind.

(** ** [OnUpgrade] and [Pending] *)

Section on_upgrade.
Context {Upgraded : Type}.
Abbreviation Chan := (OneShot (result Error Upgraded)).
Implicit Types (c : Chan) (u : Upgraded).

(** What became of the [Pending]. *)
Inductive Fate : Type := Held | Fulfilled (u : Upgraded) | Unfulfilled.

(** A channel along the calls of the connection and of the clones of its receiver, with
    what was given and everything that was received. *)
Inductive upgrade_run : Chan -> Fate -> list Upgraded -> Prop :=
| upr_start : upgrade_run (pending (Upgraded := Upgraded)).1 Held []
| upr_fulfill u c rs : upgrade_run c Held rs -> upgrade_run (fulfill u c) (Fulfilled u) rs
| upr_manual c rs : upgrade_run c Held rs -> upgrade_run (manual c) Unfulfilled rs
| upr_drop c rs : upgrade_run c Held rs -> upgrade_run (pending_drop c) Unfulfilled rs
| upr_poll budget o c f rs c' r : upgrade_run c f rs -> on_upgrade_poll budget o c = (c', r) -> upgrade_run c' f (match r with Ready u => rs ++ [u] | _ => rs end)
| upr_take o c f rs c' r : upgrade_run c f rs -> take_fulfilled o c = (c', r) -> upgrade_run c' f (match r with Some u => rs ++ [u] | None => rs end).

Definition upgrade_ok c (f : Fate) (rs : list Upgraded) : Prop :=
  match f with
  | Held => c = OsEmpty /\ rs = []
  | Fulfilled u => (c = OsValue (Ok u) /\ rs = []) \/ (c = OsTaken /\ rs = [u])
  | Unfulfilled => rs = [] /\ match c with OsEmpty | OsValue (Ok _) => False | _ => True end
  end.

Lemma upgrade_run_ok c f rs : upgrade_run c f rs -> upgrade_ok c f rs.
Proof.
  induction 1 as [|u c rs _ IH|c rs _ IH|c rs _ IH|budget o c f rs c' r _ IH E|o c f rs c' r _ IH E].
  - done.
  - destruct IH as [-> ->]. by left.
  - destruct IH as [-> ->]. done.
  - destruct IH as [-> ->]. done.
  - unfold on_upgrade_poll in E. destruct (has_rx o); [|by simplify_eq]. destruct f as [|u|]; cbn in *.
    + destruct IH as [-> ->]. destruct budget; by simplify_eq.
    + destruct IH as [[-> ->]|[-> ->]]; [destruct budget|]; simplify_eq; auto.
    + destruct IH as [-> IH]. destruct c as [|[u|e]| |]; [done|done|..]; [destruct budget..|]; by simplify_eq.
  - unfold take_fulfilled in E. destruct (has_rx o); [|by simplify_eq]. destruct f as [|u|]; cbn in *.
    + destruct IH as [-> ->]. by simplify_eq.
    + destruct IH as [[-> ->]|[-> ->]]; simplify_eq; auto.
    + destruct IH as [-> IH]. destruct c as [|[u|e]| |]; by simplify_eq.
Qed.

(** An upgrade is handed over at most once: however the clones of its receiver are
    polled and asked, with or without tokio's budget, what they receive altogether is
    nothing or the one connection that was given; until it is received,
    [take_fulfilled] and a poll with budget give it, and after that every poll says
    that there is no upgrade. Without a fulfilled upgrade nothing is received, and once
    the sender is gone a poll with budget fails. *)
Theorem upgrade_handed_over c f rs o : upgrade_run c f rs -> has_rx o = true ->
  match f with
  | Fulfilled u =>
      (rs = [] /\ take_fulfilled o c = (OsTaken, Some u) /\ on_upgrade_poll true o c = (OsTaken, Ready u)) \/
      (rs = [u] /\ forall budget, on_upgrade_poll budget o c = (c, Failed new_user_no_upgrade) /\ take_fulfilled o c = (c, None))
  | Held => rs = [] /\ forall budget, on_upgrade_poll budget o c = (c, Pending) /\ take_fulfilled o c = (c, None)
  | Unfulfilled => rs = [] /\ exists e, on_upgrade_poll true o c = (OsTaken, Failed e) /\ take_fulfilled o c = (OsTaken, None)
  end.
Proof.
  intros Hrun%upgrade_run_ok Ho. unfold on_upgrade_poll, take_fulfilled. rewrite Ho. destruct f as [|u|]; cbn in Hrun.
  - destruct Hrun as [-> ->]. split; [done|]. by intros [].
  - destruct Hrun as [[-> ->]|[-> ->]]; [by left|by right].
  - destruct Hrun as [-> Hc]. split; [done|]. destruct c as [|[u|e]| |]; [done|done|by eexists..].
Qed.
End on_upgrade.

(** ** Examples *)

Module ConcreteUpgraded.
Import ConcreteAsync.

(** A connection of which three bytes were read too far. *)
Definition io0 : pipe := Pipe [None; Some (100, [101])] [] 5.
Definition rw0 : Rewind pipe := new_buffered io0 [97; 98; 99].
Definition rw1 : Rewind pipe := (rw_poll_read 2 rw0).1.
Definition rw2 : Rewind pipe := (rw_poll_write [1; 2] rw1).1.
Definition rw3 : Rewind pipe := (rw_poll_read 2 rw2).1.

Lemma upgraded_rewinds_witness : rw_incoming rw3 = [100; 101] /\ [97; 98; 99] ++ aio_incoming io0 = [97; 98; 99] ++ rw_incoming rw3 /\ aio_written (rw_inner rw3) = [1; 2].
Proof.
  assert (rw_run rw0 rw3 (([] ++ [97; 98]) ++ [99]) ([] ++ ztake 2 [1; 2])) as Hr.
  { apply (rwr_read rw0 2 rw2 _ _ rw3 (Ready [99])); [|by vm_compute]. apply (rwr_write rw0 [1; 2] rw1 _ _ rw2 (Ready 2)); [|by vm_compute].
    apply (rwr_read rw0 2 rw0 _ _ rw1 (Ready [97; 98])); [apply rwr_start|by vm_compute]. }
  split; [by vm_compute|]. destruct (upgraded_rewinds io0 [97; 98; 99] rw3 _ _ Hr) as (Hi & Hw & _). split; [exact Hi|exact Hw].
Defined.

Lemma upgrade_handed_over_witness : on_upgrade_poll false (MkOnUpgrade true) (OsValue (Ok 7)) = (OsValue (Ok 7), Pending) /\
  (take_fulfilled (MkOnUpgrade true) (OsValue (Ok 7)) = (OsTaken, Some 7)).
Proof.
  split; [done|].
  assert (upgrade_run (Upgraded := Z) (OsValue (Ok 7)) (Fulfilled 7) []) as Hr.
  { apply (upr_poll false (MkOnUpgrade true) (OsValue (Ok 7)) (Fulfilled 7) [] _ Pending); [|done]. apply (upr_fulfill 7 OsEmpty). apply upr_start. }
  destruct (upgrade_handed_over (OsValue (Ok 7)) (Fulfilled 7) [] (MkOnUpgrade true) Hr eq_refl) as [(_ & Ht & _)|[Hx _]]; [exact Ht|discriminate Hx].
Defined.
End ConcreteUpgraded.
