(* ===== verification/MasqueRequest.v ===== *)
(** * MasqueRequest

    [proxy/masque.rs]: the CONNECT-UDP request of a connector, the check of its response,
    and the opening of a tunnel from a response over HTTP/3 and over HTTP/2. Marking a
    header value as sensitive changes only how it is printed and compressed, and is left
    out; so is the inner connector, with the requests it sends. *)

From stdpp Require Import prelude strings.
From Stdlib Require Import ZArith Lia.
From S2P Require Import Http2Client Prelude Bytes Crates Headers Errors Capsule Transport Wire Datagram MasqueTunnel Proxy Net MasqueTemplate MasqueTemplateTheorems HttpTunnel HttpTunnelTheorems Upgrade.
Local Open Scope Z_scope.

Definition CAPSULE_PROTOCOL : bytes := Eval vm_compute in bs "capsule-protocol".
(** [http3::ext::Protocol::CONNECT_UDP]. *)
Definition PROTOCOL_CONNECT_UDP : bytes := Eval vm_compute in bs "connect-udp".

Section request.
Context {Hm : Type} `{HeaderMap Hm} {U : Type} `{UriOps U}.

(** [http::Request], with what its extensions say: the [:protocol] and whether it uses
    HTTP Datagrams. *)
Record UdpRequest : Type := MkUdpRequest { uq_method : Method; uq_uri : U; uq_headers : Hm; uq_protocol : option bytes; uq_datagrams : bool }.

(** [connect_request]. *)
Definition udp_connect_request (uri : U) : UdpRequest := MkUdpRequest CONNECT uri (hm_insert CAPSULE_PROTOCOL (bs "?1") hm_new) None false.

(** [http3_request], [http2_request]. *)
Definition http3_request (uri : U) : UdpRequest :=
  let r := udp_connect_request uri in MkUdpRequest (uq_method r) (uq_uri r) (uq_headers r) (Some PROTOCOL_CONNECT_UDP) true.
Definition http2_request (uri : U) : UdpRequest :=
  let r := udp_connect_request uri in MkUdpRequest (uq_method r) (uq_uri r) (uq_headers r) (Some CONNECT_UDP) false.

(** [struct ConnectUdp], without the inner connector. *)
Record ConnectUdp : Type := MkConnectUdp { cu_template : Template U; cu_headers : Hm }.

(** [ConnectUdp::new], [with_auth], [with_headers]. *)
Definition connect_udp_new (template : Template U) : ConnectUdp := MkConnectUdp template hm_new.
Definition udp_with_auth (auth : bytes) (c : ConnectUdp) : ConnectUdp := MkConnectUdp (cu_template c) (hm_insert H_PROXY_AUTHORIZATION auth (cu_headers c)).
Definition udp_with_headers (headers : Hm) (c : ConnectUdp) : ConnectUdp :=
  let headers := foldl (fun h name => hm_remove name h) headers [H_CONTENT_LENGTH; H_CONTENT_TYPE; H_TRANSFER_ENCODING; CAPSULE_PROTOCOL] in
  MkConnectUdp (cu_template c) (hm_extend (cu_headers c) headers).

(** [call], up to the connection to the proxy: the URI of the tunnel, or why there is
    none. *)
Definition udp_target (c : ConnectUdp) (dst : U) : result MasqueError U :=
  match dst_host dst, uri_port_u16 dst with
  | Some host, Some port => expand (cu_template c) host port
  | _, _ => Err InvalidTarget
  end.

(** The request [call] sends. *)
Definition call_request (c : ConnectUdp) (uri : U) : UdpRequest :=
  let r := http3_request uri in MkUdpRequest (uq_method r) (uq_uri r) (hm_extend (uq_headers r) (cu_headers c)) (uq_protocol r) (uq_datagrams r).

(** ** Responses *)

(** [validate]. *)
Definition validate (status : Z) (headers : Hm) : result MasqueError unit :=
  if negb (is_success status) then Err (Unsuccessful status)
  else if breaks_capsule_protocol status headers then Err InvalidResponse
  else Ok tt.
End request.
Arguments UdpRequest : clear implicits.
Arguments ConnectUdp : clear implicits.

Section tunnel.
Context {Hm : Type} `{HeaderMap Hm} {T V : Type} `{BytesMut V}.

(** A response with the extensions a tunnel is opened from: the [Pending] session of
    HTTP/3, the [StreamReset] and the [OnUpgrade] of HTTP/2. *)
Record UdpResponse : Type := MkUdpResponse { up_status : Z; up_headers : Hm; up_session : bool; up_stream_reset : bool; up_on_upgrade : option OnUpgrade }.

(** The session a [Pending] of HTTP/3 holds until it is taken: its control stream and
    its request. *)
Definition SessionCell : Type := option (T * nat).

(** [conn::http3::datagram::on]. *)
Definition datagram_on (r : UdpResponse) (cell : SessionCell) : UdpResponse * SessionCell * option (T * nat) :=
  if up_session r then (MkUdpResponse (up_status r) (up_headers r) false (up_stream_reset r) (up_on_upgrade r), None, cell) else (r, cell, None).

(** [UdpTunnel::from_http3]. *)
Definition from_http3 (registry : Registry) (r : UdpResponse) (cell : SessionCell) : UdpResponse * SessionCell * result MasqueError (UdpTunnel T V) :=
  match validate (up_status r) (up_headers r) with
  | Err e => (r, cell, Err e)
  | Ok _ =>
      match datagram_on r cell with
      | (r, cell, None) => (r, cell, Err InvalidResponse)
      | (r, cell, Some (control, request)) => (r, cell, Ok (tunnel_new control (Some request) registry))
      end
  end.

(** [UdpTunnel::from_http2]; the channel is that of the upgrade. *)
Definition from_http2 (registry : Registry) (r : UdpResponse) (chan : OneShot (result Error T)) : UdpResponse * OneShot (result Error T) * result MasqueError (UdpTunnel T V) :=
  match validate (up_status r) (up_headers r) with
  | Err e => (r, chan, Err e)
  | Ok _ =>
      if up_stream_reset r then
        let '(ext, on) := can_upgrade (up_on_upgrade r) in
        let r := MkUdpResponse (up_status r) (up_headers r) (up_session r) (up_stream_reset r) ext in
        match take_fulfilled on chan with
        | (chan, None) => (r, chan, Err InvalidResponse)
        | (chan, Some control) =>
            (MkUdpResponse (up_status r) (up_headers r) (up_session r) false (up_on_upgrade r), chan, Ok (with_reset (tunnel_new control None registry)))
        end
      else (r, chan, Err InvalidResponse)
  end.
End tunnel.
Arguments UdpResponse : clear implicits.

(** ** CONNECT-UDP requests and responses: theorems *)

Section requests.
Context {Hm : Type} `{HeaderMapLaws Hm} {U : Type} `{UriOps U}.
Implicit Types (c : ConnectUdp Hm U).

(** The connectors of the public functions. *)
Inductive udp_built : ConnectUdp Hm U -> Prop :=
| ub_new s template : template_new s = Ok template -> udp_built (connect_udp_new template)
| ub_auth auth c : udp_built c -> udp_built (udp_with_auth auth c)
| ub_headers h c : udp_built c -> udp_built (udp_with_headers h c).

(** The fields a CONNECT-UDP request may not take from its connector. *)
Definition reserved_fields : list bytes := [H_CONTENT_LENGTH; H_CONTENT_TYPE; H_TRANSFER_ENCODING; CAPSULE_PROTOCOL].

Lemma remove_all_absent n ns (h : Hm) : n ∈ ns -> hm_get_all (foldl (fun h name => hm_remove name h) h ns) n = [].
Proof.
  assert (forall ns h, hm_get_all h n = [] -> hm_get_all (foldl (fun h name => hm_remove name h) h ns) n = []) as Hk.
  { induction ns0 as [|m ns0 IH]; intros h0 E; [done|]. simpl. apply IH. rewrite hm_get_all_remove. by case_decide. }
  intros Hn. revert h. induction ns as [|m ns IH]; intros h; [by apply not_elem_of_nil in Hn|]. simpl. apply elem_of_cons in Hn as [->|Hn]; [|by apply IH].
  apply Hk. rewrite hm_get_all_remove. by rewrite decide_True.
Qed.

Lemma udp_built_fields c n : udp_built c -> n ∈ reserved_fields -> hm_get_all (cu_headers c) n = [].
Proof.
  intros Hc Hn. induction Hc as [s t _|auth c _ IH|h c _ IH]; simpl.
  - rewrite hm_get_all_iter, hm_iter_new. done.
  - rewrite hm_get_all_insert, decide_False; [done|]. intros ->. revert Hn. by apply (bool_decide_unpack (H_PROXY_AUTHORIZATION ∉ reserved_fields)).
  - rewrite hm_extend_absent; [done|]. by apply (remove_all_absent n reserved_fields).
Qed.

(** The request of a CONNECT-UDP connector, however it was configured: it is an
    extended CONNECT with HTTP Datagrams to the expanded template, it announces the
    Capsule Protocol exactly once, and has none of the fields that protocol forbids; a
    target without a host or a port is refused before anything is connected. *)
Theorem connect_udp_request c dst : udp_built c ->
  match udp_target c dst with
  | Ok uri => let r := call_request c uri in
      (exists host h port, dst_host dst = Some host /\ parse_host host = Some h /\ uri_port_u16 dst = Some port /\ port ≠ 0 /\ uri_parse (expansion (cu_template c) h port) = Some uri) /\
      uq_method r = CONNECT /\ uq_uri r = uri /\ uq_protocol r = Some (bs "connect-udp") /\ uq_datagrams r = true /\
      hm_get_all (uq_headers r) CAPSULE_PROTOCOL = [bs "?1"] /\
      (forall n, n ∈ [H_CONTENT_LENGTH; H_CONTENT_TYPE; H_TRANSFER_ENCODING] -> hm_get_all (uq_headers r) n = [])
  | Err e => e = InvalidTarget
  end.
Proof.
  intros Hc. unfold udp_target. destruct (dst_host dst) as [host|]; [|done]. destruct (uri_port_u16 dst) as [port|]; [|done]. unfold expand.
  destruct (parse_host host) as [h|] eqn:Eh; [|done]. destruct (port =? 0) eqn:E0; [done|]. zbool. destruct (uri_parse _) as [uri|] eqn:Eu; [|done]. cbn zeta.
  split; [by exists host, h, port|]. do 4 (split; [done|]). assert (forall n, n ∈ reserved_fields -> hm_get_all (uq_headers (call_request c uri)) n = hm_get_all (uq_headers (udp_connect_request (U := U) (Hm := Hm) uri)) n) as Hx.
  { intros n Hn. cbn. rewrite hm_extend_absent; [done|by apply udp_built_fields]. }
  assert (forall n, hm_get_all (hm_new (H := Hm)) n = []) as Hnew by (intros n; by rewrite hm_get_all_iter, hm_iter_new).
  split; [rewrite Hx by (unfold reserved_fields; set_solver); cbn; rewrite hm_get_all_insert; by rewrite decide_True|].
  intros n Hn. rewrite Hx by (unfold reserved_fields; set_solver). cbn. rewrite hm_get_all_insert, Hnew, decide_False; [done|]. intros ->. revert Hn. by apply (bool_decide_unpack (CAPSULE_PROTOCOL ∉ [H_CONTENT_LENGTH; H_CONTENT_TYPE; H_TRANSFER_ENCODING])).
Qed.

(** When a response can start the Capsule Protocol (RFC 9297, section 3.2). *)
Definition opens (status : Z) (headers : Hm) : Prop :=
  200 <= status <= 299 /\ ~ 204 <= status <= 206 /\ forall n, n ∈ [H_CONTENT_LENGTH; H_CONTENT_TYPE; H_TRANSFER_ENCODING] -> hm_get_all headers n = [].

Lemma breaks_capsule_spec status (headers : Hm) : breaks_capsule_protocol status headers = false <->
  (~ 204 <= status <= 206) /\ forall n, n ∈ [H_CONTENT_LENGTH; H_CONTENT_TYPE; H_TRANSFER_ENCODING] -> hm_get_all headers n = [].
Proof.
  unfold breaks_capsule_protocol, in_range. rewrite orb_false_iff. rewrite <-not_true_iff_false, andb_true_iff, !Z.leb_le. rewrite <-not_true_iff_false, existsb_exists. split; intros [Ha Hb]; (split; [done|]).
  - intros n Hn. apply hm_contains_key_absent. apply not_true_is_false. intros Hk. apply Hb. exists n. split; [by apply list_elem_of_In|done].
  - intros (n & Hn%list_elem_of_In & Hk). apply hm_contains_key_get_all in Hk. auto.
Qed.

Lemma validate_spec status (headers : Hm) : validate status headers =
  (if decide (200 <= status <= 299) then if breaks_capsule_protocol status headers then Err InvalidResponse else Ok tt else Err (Unsuccessful status)).
Proof.
  unfold validate, is_success, in_range. destruct (decide _) as [Hd|Hd].
  - rewrite !(proj2 (Z.leb_le _ _)) by lia. done.
  - destruct (_ && _) eqn:E; [|done]. zbool. lia.
Qed.

Lemma validate_Ok status (headers : Hm) : validate status headers = Ok tt <-> opens status headers.
Proof.
  rewrite validate_spec. unfold opens. rewrite <-breaks_capsule_spec. destruct (decide _); [|naive_solver]. destruct (breaks_capsule_protocol status headers); naive_solver.
Qed.
End requests.

Section opening.
Context {Hm : Type} `{HeaderMapLaws Hm} {T V : Type} `{BytesMut V}.
Implicit Types (r : UdpResponse Hm).

(** A tunnel opens from an HTTP/2 response exactly when the status is successful and
    neither it nor the fields break the Capsule Protocol, the client marked the response
    as its CONNECT-UDP tunnel, and the upgrade is fulfilled and not taken; then the
    tunnel runs over the upgraded stream with its reset, and the response cannot open a
    second one. Otherwise a refusal keeps everything of the response for the caller. *)
Theorem tunnel_from_http2 reg r chan : let '(r', chan', res) := from_http2 (V := V) reg r chan in
  match res with
  | Ok t => opens (up_status r) (up_headers r) /\ up_stream_reset r = true /\
      (exists o control, up_on_upgrade r = Some o /\ has_rx o = true /\ chan = OsValue (Ok control) /\ t = with_reset (tunnel_new (T := T) control None reg)) /\
      chan' = OsTaken /\ up_on_upgrade r' = None /\ up_stream_reset r' = false /\ (from_http2 (V := V) reg r' chan').2 = Err InvalidResponse
  | Err (Unsuccessful s) => s = up_status r /\ ~ 200 <= s <= 299 /\ r' = r /\ chan' = chan
  | Err e => e = InvalidResponse /\ 200 <= up_status r <= 299 /\
      (~ opens (up_status r) (up_headers r) \/ up_stream_reset r = false \/ up_on_upgrade r = None \/
       (exists o, up_on_upgrade r = Some o /\ (has_rx o = false \/ forall control, chan ≠ OsValue (Ok control))))
  end.
Proof.
  unfold from_http2 at 1. destruct (validate (up_status r) (up_headers r)) as [[]|e] eqn:Ev.
  - apply validate_Ok in Ev as Ho. destruct (up_stream_reset r) eqn:Er.
    2: { split; [done|]. split; [by destruct Ho|]. by right; left. }
    unfold can_upgrade. cbn [up_on_upgrade up_status up_headers up_session up_stream_reset]. unfold take_fulfilled. destruct (up_on_upgrade r) as [o|] eqn:Eo.
    + change (default on_upgrade_none (Some o)) with o. destruct (has_rx o) eqn:Ex.
      * destruct chan as [|[control|e]| |]; cbv beta iota zeta; (split; [try done|]); try (split; [by destruct Ho|]; right; right; right; exists o; by split; [|right]).
        split; [done|]. split; [by exists o, control|]. do 3 (split; [done|]). unfold from_http2. cbn [up_status up_headers up_stream_reset]. by rewrite Ev.
      * cbv beta iota zeta. split; [done|]. split; [by destruct Ho|]. right; right; right. exists o. by split; [|left].
    + cbn. split; [done|]. split; [by destruct Ho|]. by right; right; left.
  - rewrite validate_spec in Ev. destruct (decide _) as [Hd|Hd]; [|injection Ev as <-; done]. destruct (breaks_capsule_protocol _ _) eqn:Eb; [|done]. injection Ev as <-. split; [done|]. split; [done|].
    left. intros (_ & Ha & Hb). assert (breaks_capsule_protocol (up_status r) (up_headers r) = false); [|congruence]. by apply breaks_capsule_spec.
Qed.

(** The same over HTTP/3, where the client left a session in the response. *)
Theorem tunnel_from_http3 reg r cell : let '(r', cell', res) := from_http3 (V := V) reg r cell in
  match res with
  | Ok t => opens (up_status r) (up_headers r) /\ up_session r = true /\ (exists control request, cell = Some (control, request) /\ t = tunnel_new (T := T) control (Some request) reg) /\
      cell' = None /\ up_session r' = false
  | Err (Unsuccessful s) => s = up_status r /\ ~ 200 <= s <= 299 /\ r' = r /\ cell' = cell
  | Err e => e = InvalidResponse /\ 200 <= up_status r <= 299 /\ (~ opens (up_status r) (up_headers r) \/ up_session r = false \/ cell = None)
  end.
Proof.
  unfold from_http3. destruct (validate (up_status r) (up_headers r)) as [[]|e] eqn:Ev.
  - apply validate_Ok in Ev as Ho. unfold datagram_on. destruct (up_session r) eqn:Es.
    + destruct cell as [[control request]|]; [|split; [done|]; split; [by destruct Ho|]; by right; right]. split; [done|]. split; [done|]. split; [by exists control, request|]. done.
    + split; [done|]. split; [by destruct Ho|]. by right; left.
  - rewrite validate_spec in Ev. destruct (decide _) as [Hd|Hd]; [|injection Ev as <-; done]. destruct (breaks_capsule_protocol _ _) eqn:Eb; [|done]. injection Ev as <-. split; [done|]. split; [done|].
    left. intros (_ & Ha & Hb). assert (breaks_capsule_protocol (up_status r) (up_headers r) = false); [|congruence]. by apply breaks_capsule_spec.
Qed.
End opening.

(** ** Examples *)

Module ConcreteRequest.
Import Concrete ConcreteIo ConcreteUri ConcreteTemplate.

(** A connector with a password, and headers that try to frame a body. *)
Definition connector : ConnectUdp hmap uri :=
  udp_with_headers (hm_append CAPSULE_PROTOCOL (bs "?0") (hm_append H_CONTENT_LENGTH (bs "5") (hm_append (bs "x-trace") (bs "1") hm_new)))
    (udp_with_auth (bs "Basic QQ==") (connect_udp_new query)).
Definition target : uri := Uri (bs "udp://dns.example:53").

Lemma connector_udp_built : udp_built connector.
Proof. apply ub_headers, ub_auth, (ub_new query_template). by vm_compute. Qed.

Lemma connect_udp_request_witness :
  hm_iter (uq_headers (call_request connector (Uri (bs "https://proxy.example/m?target_host=dns.example&target_port=53")))) =
    [(CAPSULE_PROTOCOL, bs "?1"); (H_PROXY_AUTHORIZATION, bs "Basic QQ=="); (bs "x-trace", bs "1")] /\
  udp_target connector target = Ok (Uri (bs "https://proxy.example/m?target_host=dns.example&target_port=53")) /\
  match udp_target connector target with
  | Ok uri => hm_get_all (uq_headers (call_request connector uri)) CAPSULE_PROTOCOL = [bs "?1"]
  | Err e => e = InvalidTarget
  end.
Proof.
  split; [by vm_compute|]. split; [by vm_compute|]. pose proof (connect_udp_request connector target connector_udp_built) as Hr.
  destruct (udp_target connector target) as [uri|e]; [|exact Hr]. destruct Hr as (_ & _ & _ & _ & _ & Hc & _). exact Hc.
Defined.

(** A response of the client, whose upgrade is fulfilled. *)
Definition accepted : UdpResponse hmap := MkUdpResponse 200 hm_new false true (Some (MkOnUpgrade true)).

Lemma tunnel_from_http2_witness : (from_http2 (T := nat) (V := vec) (registry_new None) accepted (OsValue (Ok 7%nat))).2 = Ok (with_reset (tunnel_new 7%nat None (registry_new None))) /\ opens 200 (hm_new (H := hmap)).
Proof.
  split; [by vm_compute|]. pose proof (tunnel_from_http2 (T := nat) (V := vec) (registry_new None) accepted (OsValue (Ok 7%nat))) as Ht.
  cbv beta iota zeta delta [from_http2 accepted up_status up_headers up_stream_reset up_on_upgrade] in Ht. vm_compute (validate 200 hm_new) in Ht. destruct Ht as [Ho _]. exact Ho.
Defined.
End ConcreteRequest.
