(* ===== verification/Http3Shared.v ===== *)
(** * Http3Shared

    What the parts of an HTTP/3 connection share ([proto/http3/shared.rs]): local
    admission, the drain and the published error; the connection's task
    ([ConnTask] of [proto/http3/client.rs]), which closes the connection; and the
    handles of [conn/http3.rs], which start and end it.

    All of them run at the same time, so every operation is a [prog]: a
    step for each access to an atomic, a once-cell, the semaphore, the waker or the
    transport, in the order of the source. [usize] counters wrap around as
    [AtomicUsize] does. tokio's semaphore, the protocol driver of the [http3] crate and
    the classification of its errors are parameters. *)

From stdpp Require Import prelude strings.
From Stdlib Require Import ZArith Lia.
From S2P Require Import Prelude Bytes Errors Wire Datagram Http2Peer.

(** ** Calls over shared atomics

    Calls that run at the same time over shared atomics: every call is a [prog] of
    [Http2Peer]; in a pool its steps interleave with those of every other call ([step]),
    memory being sequentially consistent.

    Calls are made on objects; a call that returns gives back the objects that are left
    of it. The program logic [wpc] follows one call: at every atomic step it may assume
    the invariant of the shared state and the shares of all objects and calls, and has
    to restore it with its own share changed. [pool_ok_steps] carries the invariant to
    every reachable pool. *)

(** *** Pools *)

Section pool.
Context {W O N : Type}.

(** An object, or a call that is running. *)
Inductive thread : Type := Obj (o : O) | Call (p : prog W (list O)).

(** The shared state, the pool, and what an observer noted of the states so far. *)
Record config : Type := MkConfig { cf_world : W; cf_pool : list thread; cf_seen : N }.

Definition idle (t : thread) : bool := match t with Obj _ => true | Call _ => false end.

Context (methods : O -> prog W (list O) -> Prop) (env : W -> W -> Prop) (seen : N -> W -> N) (bound : Z).

Inductive step : config -> config -> Prop :=
| st_call w l1 o l2 q p : methods o p -> step (MkConfig w (l1 ++ Obj o :: l2) q) (MkConfig w (l1 ++ Call p :: l2) q)
| st_atom w l1 R (f : W -> W * R) k l2 q :
    step (MkConfig w (l1 ++ Call (Do f k) :: l2) q) (MkConfig (f w).1 (l1 ++ Call (k (f w).2) :: l2) (seen q (f w).1))
| st_return w l1 os l2 q : (Z.of_nat (length (l1 ++ map Obj os ++ l2)) <= bound)%Z ->
    step (MkConfig w (l1 ++ Call (Ret os) :: l2) q) (MkConfig w (l1 ++ map Obj os ++ l2) q)
| st_env w w' l q : env w w' -> step (MkConfig w l q) (MkConfig w' l (seen q w')).

(** *** The logic *)

Context {G : Type} (own : O -> G) (inv : N -> W -> list G -> Prop) (guar : N -> W -> W -> Prop).

(** A share may be exchanged for another that is as good to everybody else. *)
Definition shift (g g' : G) : Prop := forall q w l, inv q w (g :: l) -> inv q w (g' :: l).

Fixpoint wpc {A} (g : G) (p : prog W A) (Q : G -> A -> Prop) : Prop :=
  match p with
  | Ret a => exists g', shift g g' /\ Q g' a
  | Do f k => forall q w l, inv q w (g :: l) ->
      exists g', inv (seen q (f w).1) (f w).1 (g' :: l) /\ guar q w (f w).1 /\ wpc g' (k (f w).2) Q
  end.

Lemma wpc_ret {A} g (a : A) (Q : G -> A -> Prop) : Q g a -> wpc g (Ret a) Q.
Proof. intros HQ. exists g. split; [by intros q w l|done]. Qed.

Lemma wpc_shift {A} g g' (p : prog W A) Q : shift g g' -> wpc g' p Q -> wpc g p Q.
Proof.
  intros Hs Hp. destruct p as [a|R f k]; cbn in *.
  - destruct Hp as (g2 & H2 & HQ). exists g2. split; [|done]. intros q w l Hi. by apply H2, Hs.
  - intros q w l Hi. by apply Hp, Hs.
Qed.

Lemma wpc_conseq {A} g (p : prog W A) (Q Q' : G -> A -> Prop) : wpc g p Q -> (forall g a, Q g a -> exists g', shift g g' /\ Q' g' a) -> wpc g p Q'.
Proof.
  revert g. induction p as [a|R f k IH]; intros g Hp HQ.
  - destruct Hp as (g1 & H1 & HQ1). destruct (HQ _ _ HQ1) as (g2 & H2 & HQ2). exists g2. split; [|done]. intros q w l Hi. by apply H2, H1.
  - intros q w l Hi. destruct (Hp q w l Hi) as (g' & Hi' & Hg & Hk). exists g'. split_and!; [done..|]. by apply IH.
Qed.

Lemma wpc_mono {A} g (p : prog W A) (Q Q' : G -> A -> Prop) : wpc g p Q -> (forall g a, Q g a -> Q' g a) -> wpc g p Q'.
Proof. intros Hp HQ. eapply wpc_conseq; [exact Hp|]. intros g' a Ha. exists g'. split; [by intros q w l|auto]. Qed.

Lemma wpc_bind {A B} g (p : prog W A) (k : A -> prog W B) Q : wpc g p (fun g a => wpc g (k a) Q) -> wpc g (p ≫= k) Q.
Proof.
  revert g. induction p as [a|R f h IH]; intros g Hp; [destruct Hp as (g' & ? & ?); by eapply wpc_shift|]. intros q w l Hi.
  destruct (Hp q w l Hi) as (g' & Hi' & Hg & Hk). exists g'. split_and!; [done..|]. by apply IH.
Qed.

(** What a call gives back: its share is that of the objects it returns. *)
Definition returns (g : G) (os : list O) : Prop :=
  forall q w l, inv q w (g :: l) -> (Z.of_nat (length (map own os ++ l)) <= bound)%Z -> inv q w (map own os ++ l).

Definition thread_ok (t : thread) (g : G) : Prop := match t with Obj o => g = own o | Call p => wpc g p returns end.
Definition pool_ok (c : config) : Prop := exists gs, inv (cf_seen c) (cf_world c) gs /\ Forall2 thread_ok (cf_pool c) gs.

Hypothesis inv_perm : forall q w, Proper ((≡ₚ) ==> impl) (inv q w).
Hypothesis inv_env : forall q w w' l, env w w' -> inv q w l -> inv (seen q w') w' l /\ guar q w w'.
Hypothesis methods_ok : forall o p, methods o p -> wpc (own o) p returns.
Hypothesis guar_refl : forall q w, guar q w w.

Lemma thread_ok_objs os : Forall2 thread_ok (map Obj os) (map own os).
Proof. induction os; by constructor. Qed.

Lemma pool_ok_step c c' : step c c' -> pool_ok c -> pool_ok c' /\ guar (cf_seen c) (cf_world c) (cf_world c').
Proof.
  intros Hs (gs & Hi & Ht). destruct Hs as [w l1 o l2 q p Hm|w l1 R f k l2 q|w l1 os l2 q Hb|w w' l q He]; cbn in *;
    [apply Forall2_app_inv_l in Ht as (g1 & g2 & H1 & H2 & ->); apply Forall2_cons_inv_l in H2 as (g & g3 & Hg & H2 & ->)..|].
  - split; [|done]. exists (g1 ++ g :: g3). split; [done|]. apply Forall2_app; [done|]. constructor; [|done]. cbn in Hg. subst g. by apply methods_ok.
  - assert (inv q w (g :: g1 ++ g3)) as Hi' by (eapply inv_perm; [|exact Hi]; by rewrite Permutation_middle).
    destruct (Hg q w _ Hi') as (g' & Hi2 & Hgu & Hk). split; [|done]. exists (g1 ++ g' :: g3).
    split; [eapply inv_perm; [|exact Hi2]; by rewrite Permutation_middle|]. apply Forall2_app; [done|]. by constructor.
  - destruct Hg as (g' & Hsh & Hg). split; [|done]. exists (g1 ++ map own os ++ g3). split.
    + eapply inv_perm; [symmetry; apply Permutation_app_swap_app|]. apply (Hg q w (g1 ++ g3)).
      * apply Hsh. eapply inv_perm; [|exact Hi]; by rewrite Permutation_middle.
      * rewrite !length_app, length_map in *. apply Forall2_length in H1, H2. lia.
    + apply Forall2_app; [done|]. apply Forall2_app; [apply thread_ok_objs|done].
  - destruct (inv_env _ _ _ _ He Hi) as [Hi' Hgu]. split; [|done]. by exists gs.
Qed.

Lemma pool_ok_steps c c' : rtc step c c' -> pool_ok c -> pool_ok c'.
Proof. induction 1 as [|x y z Hxy _ IH]; [done|]. intros Hx. apply IH. by eapply pool_ok_step. Qed.

(** A pool at rest: the shares are those of its objects. *)
Lemma pool_ok_idle c : pool_ok c -> Forall (fun t => idle t = true) (cf_pool c) ->
  exists os, cf_pool c = map Obj os /\ inv (cf_seen c) (cf_world c) (map own os).
Proof.
  intros (gs & Hi & Ht) Hid. assert (exists os, cf_pool c = map Obj os /\ gs = map own os) as (os & E & ->); [|by exists os].
  clear Hi. revert Hid. induction Ht as [|t g ts gs Hg _ IH]; intros Hid; [by exists []|]. apply Forall_cons in Hid as [H1 H2].
  destruct (IH H2) as (os & -> & ->). destruct t as [o|p]; [|done]. cbn in Hg. subst g. by exists (o :: os).
Qed.

(** *** Calls without interruption *)

Lemma exec_steps n p w l1 l2 q : exists q', rtc step (MkConfig w (l1 ++ Call p :: l2) q) (MkConfig (exec n p w).1 (l1 ++ Call (exec n p w).2 :: l2) q').
Proof.
  revert p w q. induction n as [|n IH]; intros p w q; [by exists q|]. destruct p as [a|R f k]; [by exists q|]. cbn [exec].
  destruct (IH (k (f w).2) (f w).1 (seen q (f w).1)) as [q' Hr]. exists q'. eapply rtc_l; [|exact Hr]. apply st_atom.
Qed.

(** The next step of such a call. *)
Lemma exec_next n p w l1 l2 q : match (exec n p w).2 with Ret _ => False | Do _ _ => True end ->
  exists q', step (MkConfig (exec n p w).1 (l1 ++ Call (exec n p w).2 :: l2) q) (MkConfig (exec (Datatypes.S n) p w).1 (l1 ++ Call (exec (Datatypes.S n) p w).2 :: l2) q').
Proof.
  revert p w. induction n as [|n IH]; intros p w; destruct p as [a|R f k]; try done.
  - intros _. eexists. exact (st_atom w l1 R f k l2 q).
  - intros Hx. apply (IH (k (f w).2) (f w).1 Hx).
Qed.

Lemma run_steps p w l1 l2 q : exists q', rtc step (MkConfig w (l1 ++ Call p :: l2) q) (MkConfig (run p w).1 (l1 ++ Call (Ret (run p w).2) :: l2) q').
Proof.
  revert w q. induction p as [a|R f k IH]; intros w q; [by exists q|]. cbn [run]. destruct (IH (f w).2 (f w).1 (seen q (f w).1)) as [q' Hr].
  exists q'. destruct (f w) as [w' r] eqn:E. cbn in *. eapply rtc_l; [|exact Hr]. pose proof (st_atom w l1 R f k l2 q) as Hs. by rewrite E in Hs.
Qed.

(** A whole call on an object, as [run] computes it, is a run of the pool. *)
Lemma call_steps o p w l1 l2 q : methods o p -> (Z.of_nat (length (l1 ++ map Obj (run p w).2 ++ l2)) <= bound)%Z ->
  exists q', rtc step (MkConfig w (l1 ++ Obj o :: l2) q) (MkConfig (run p w).1 (l1 ++ map Obj (run p w).2 ++ l2) q').
Proof.
  intros Hm Hb. destruct (run_steps p w l1 l2 q) as [q' Hr]. exists q'. eapply rtc_l; [by apply st_call|]. eapply rtc_r; [exact Hr|]. by apply st_return.
Qed.
End pool.
Arguments thread : clear implicits.
Arguments config : clear implicits.

Local Open Scope Z_scope.

(** ** Parameters *)

(** One poll of [Semaphore::acquire]; a permit it yields is forgotten by the caller. *)
Inductive Acquired : Type := AcqOk | AcqClosed | AcqPending.

(** [tokio::sync::Semaphore]. *)
Class SemaphoreOps (Sm : Type) : Type := {
  sem_new : Z -> Sm;
  sem_is_closed : Sm -> bool;
  sem_close : Sm -> Sm;
  sem_add_permits : Z -> Sm -> Sm;
  sem_acquire : Sm -> Sm * Acquired;
}.

(** [Semaphore::MAX_PERMITS]. *)
Definition MAX_PERMITS : Z := USIZE_MAX / 8.

(** The SETTINGS of the peer, once they have arrived. *)
Record H3Settings : Type := MkH3Settings { enable_datagram : bool; enable_extended_connect : bool }.

(** [http3::client::Connection]: [hd_settings] is [None] while the values are the
    protocol's defaults. *)
Class H3Driver (D : Type) : Type := {
  hd_poll_close : D -> D * option H3ConnError;
  hd_settings : D -> option H3Settings;
  hd_is_closing : D -> bool;
}.

(** [ConnectionError::is_h3_no_error]. *)
Class H3Errors : Type := is_h3_no_error : H3ConnError -> bool.

(** ** [struct Shared] *)

Record Shared (Sm : Type) : Type := MkShared {
  sh_datagrams : option Registry;
  sh_peer_extended_connect : option bool;
  sh_settings_ready : bool;
  sh_draining : bool;
  sh_error : option Error;
  sh_violation : option (Code * string);
  sh_permits : Sm;
  sh_reserved : Z;
  sh_active : Z;
  sh_senders : Z;
  sh_waker : AtomicWaker;
}.
Arguments MkShared {Sm}.
Arguments sh_datagrams {Sm}.
Arguments sh_peer_extended_connect {Sm}.
Arguments sh_settings_ready {Sm}.
Arguments sh_draining {Sm}.
Arguments sh_error {Sm}.
Arguments sh_violation {Sm}.
Arguments sh_permits {Sm}.
Arguments sh_reserved {Sm}.
Arguments sh_active {Sm}.
Arguments sh_senders {Sm}.
Arguments sh_waker {Sm}.

(** [struct Active] without its reference to the shared state. *)
Record Active : Type := MkActive { a_admitted : bool; a_permit : bool }.

(** [AtomicUsize] arithmetic. *)
Definition usize_wrap (n : Z) : Z := n mod (USIZE_MAX + 1).

Section setters.
Context {Sm : Type}.
Implicit Types (s : Shared Sm).
Definition set_sh_datagrams x s := MkShared x (sh_peer_extended_connect s) (sh_settings_ready s) (sh_draining s) (sh_error s) (sh_violation s) (sh_permits s) (sh_reserved s) (sh_active s) (sh_senders s) (sh_waker s).
Definition set_peer_extended x s := MkShared (sh_datagrams s) x (sh_settings_ready s) (sh_draining s) (sh_error s) (sh_violation s) (sh_permits s) (sh_reserved s) (sh_active s) (sh_senders s) (sh_waker s).
Definition set_settings_ready x s := MkShared (sh_datagrams s) (sh_peer_extended_connect s) x (sh_draining s) (sh_error s) (sh_violation s) (sh_permits s) (sh_reserved s) (sh_active s) (sh_senders s) (sh_waker s).
Definition set_draining x s := MkShared (sh_datagrams s) (sh_peer_extended_connect s) (sh_settings_ready s) x (sh_error s) (sh_violation s) (sh_permits s) (sh_reserved s) (sh_active s) (sh_senders s) (sh_waker s).
Definition set_sh_error x s := MkShared (sh_datagrams s) (sh_peer_extended_connect s) (sh_settings_ready s) (sh_draining s) x (sh_violation s) (sh_permits s) (sh_reserved s) (sh_active s) (sh_senders s) (sh_waker s).
Definition set_violation x s := MkShared (sh_datagrams s) (sh_peer_extended_connect s) (sh_settings_ready s) (sh_draining s) (sh_error s) x (sh_permits s) (sh_reserved s) (sh_active s) (sh_senders s) (sh_waker s).
Definition set_permits (x : Sm) s := MkShared (sh_datagrams s) (sh_peer_extended_connect s) (sh_settings_ready s) (sh_draining s) (sh_error s) (sh_violation s) x (sh_reserved s) (sh_active s) (sh_senders s) (sh_waker s).
Definition set_reserved x s := MkShared (sh_datagrams s) (sh_peer_extended_connect s) (sh_settings_ready s) (sh_draining s) (sh_error s) (sh_violation s) (sh_permits s) x (sh_active s) (sh_senders s) (sh_waker s).
Definition set_active x s := MkShared (sh_datagrams s) (sh_peer_extended_connect s) (sh_settings_ready s) (sh_draining s) (sh_error s) (sh_violation s) (sh_permits s) (sh_reserved s) x (sh_senders s) (sh_waker s).
Definition set_senders x s := MkShared (sh_datagrams s) (sh_peer_extended_connect s) (sh_settings_ready s) (sh_draining s) (sh_error s) (sh_violation s) (sh_permits s) (sh_reserved s) (sh_active s) x (sh_waker s).
Definition set_waker x s := MkShared (sh_datagrams s) (sh_peer_extended_connect s) (sh_settings_ready s) (sh_draining s) (sh_error s) (sh_violation s) (sh_permits s) (sh_reserved s) (sh_active s) (sh_senders s) x.
End setters.

(** The shared state with what the task owns: the protocol driver and the Datagram
    driver, the calls of [OpenStreams::close] in order, and the two ends of the channel
    that reports the outcome. *)
Record H3World (Sm D S R : Type) : Type := MkH3World {
  w_shared : Shared Sm;
  w_driver : D;
  w_drive : option (Driver S R);
  w_closes : list (Code * string);
  w_done_tx : bool;
  w_done : option (result Error unit);
}.
Arguments MkH3World {Sm D S R}.
Arguments w_shared {Sm D S R}.
Arguments w_driver {Sm D S R}.
Arguments w_drive {Sm D S R}.
Arguments w_closes {Sm D S R}.
Arguments w_done_tx {Sm D S R}.
Arguments w_done {Sm D S R}.

Section shared.
Context {Sm D S R : Type} `{SemaphoreOps Sm} `{H3Driver D} `{H3Errors} `{HttpDatagram} `{SendDatagram S} `{RecvDatagram R}.

Abbreviation W := (H3World Sm D S R).
Abbreviation P := (prog W).

Definition set_shared x (w : W) : W := MkH3World x (w_driver w) (w_drive w) (w_closes w) (w_done_tx w) (w_done w).
Definition set_driver x (w : W) : W := MkH3World (w_shared w) x (w_drive w) (w_closes w) (w_done_tx w) (w_done w).
Definition set_drive x (w : W) : W := MkH3World (w_shared w) (w_driver w) x (w_closes w) (w_done_tx w) (w_done w).
Definition set_closes x (w : W) : W := MkH3World (w_shared w) (w_driver w) (w_drive w) x (w_done_tx w) (w_done w).
Definition set_done tx x (w : W) : W := MkH3World (w_shared w) (w_driver w) (w_drive w) (w_closes w) tx x.

Definition sh_load {A} (f : Shared Sm -> A) : P A := load (fun w => f (w_shared w)).
Definition sh_store (f : Shared Sm -> Shared Sm) : P unit := store (fun w => set_shared (f (w_shared w)) w).
Definition sh_atom {A} (f : Shared Sm -> Shared Sm * A) : P A := atom (fun w => let '(s, a) := f (w_shared w) in (set_shared s w, a)).

(** [fetch_add] and [fetch_sub], which return what was there. *)
Definition fetch (get1 : Shared Sm -> Z) (set1 : Z -> Shared Sm -> Shared Sm) (n : Z) : P Z :=
  sh_atom (fun s => (set1 (usize_wrap (get1 s + n)) s, get1 s)).

(** [OpenStreams::close]. *)
Definition quic_close (code : Code) (reason : string) : P unit := store (fun w => set_closes (w_closes w ++ [(code, reason)]) w).

(** [Shared::new]. *)
Definition shared_new (limit : Z) (datagrams : option Registry) : Shared Sm :=
  MkShared datagrams None false false None None (sem_new (Z.min limit MAX_PERMITS)) 0 0 1 waker_new.

(** [self.waker.wake()]. *)
Definition wake : P unit := sh_store (fun s => set_waker (waker_wake (sh_waker s)) s).

Definition drain : P unit :=
  was ← sh_atom (fun s => (set_draining true s, sh_draining s));
  if was : bool then mret tt else wake.

Definition shutdown : P unit :=
  closed ← sh_load (fun s => sem_is_closed (sh_permits s));
  if closed : bool then drain
  else
    sh_store (fun s => set_permits (sem_close (sh_permits s)) s);;
    drain;;
    sh_store (set_settings_ready true);;
    wake.

(** [datagrams.close()] on the registry, under its lock. *)
Definition close_datagrams : P unit :=
  sh_store (fun s => set_sh_datagrams ((fun r => (registry_close (E := Empty_set) r).1) <$> sh_datagrams s) s).

Definition terminate (error : Error) : P unit :=
  sh_store (fun s => set_sh_error (Some (default error (sh_error s))) s);;
  shutdown;;
  close_datagrams.

Definition violate (code : Code) (reason : string) : P unit :=
  sh_store (fun s => set_violation (Some (default (code, reason) (sh_violation s))) s);;
  terminate (new_h3 (CauseText reason));;
  wake.

Definition close_reason (reason : string) : P (Code * string) := sh_load (fun s => default (H3_NO_ERROR, reason) (sh_violation s)).

Definition is_draining : P bool := sh_load sh_draining.

Definition is_idle : P bool :=
  reserved ← sh_load sh_reserved;
  closed ← sh_load (fun s => sem_is_closed (sh_permits s));
  if closed || (reserved =? 0) then active ← sh_load sh_active; mret (active =? 0) else mret false.

(** [Shared::error] and [Shared::error_or], of the once-cell's content. *)
Definition error_of (o : option Error) : Error := match o with Some e => from_shared e | None => new_canceled end.
Definition error_or_of (o : option Error) (error : Error) : Error := match o with Some e => from_shared e | None => error end.
Definition shared_error : P Error := sh_load (fun s => error_of (sh_error s)).

(** [register]; the wake-ups so far are returned to tell later ones from them. *)
Definition register_driver : P nat := sh_atom (fun s => (set_waker (waker_register (sh_waker s)) s, woken_times (sh_waker s))).

(** ** [impl Active] *)

Definition reserve : P Active := fetch sh_reserved set_reserved 1;; mret (MkActive false false).

Definition release_permit (a : Active) : P Active :=
  (if a_permit a then sh_store (fun s => set_permits (sem_add_permits 1 (sh_permits s)) s) else mret tt);;
  mret (MkActive (a_admitted a) false).

(** [Drop for Active]. *)
Definition active_drop (a : Active) : P unit :=
  (if a_admitted a then release_permit a;; fetch sh_active set_active (-1);; mret tt
   else fetch sh_reserved set_reserved (-1);; mret tt);;
  draining ← is_draining;
  if draining : bool then wake else mret tt.

(** One poll of [Active::admit]; a failure drops the reservation. *)
Definition active_admit (a : Active) : P (outcome Error Active) :=
  acquired ← sh_atom (fun s => let '(m, r) := sem_acquire (sh_permits s) in (set_permits m s, r));
  match acquired with
  | AcqPending => mret Pending
  | AcqClosed => e ← shared_error; active_drop a;; mret (Failed (err_with (CauseText "connection closed") e))
  | AcqOk =>
      fetch sh_active set_active 1;;
      fetch sh_reserved set_reserved (-1);;
      mret (Ready (MkActive true true))
  end.

(** ** [conn::http3::SendRequest] *)

Definition handle_clone : P unit := fetch sh_senders set_senders 1;; mret tt.

Definition handle_drop : P unit :=
  was ← fetch sh_senders set_senders (-1);
  if was =? 1 then drain else mret tt.

(** [poll_ready], [is_ready] and [is_closed]. *)
Definition handle_poll_ready : P (result Error unit) := d ← is_draining; mret (if d : bool then Err new_closed else Ok tt).
Definition handle_is_ready : P bool := d ← is_draining; mret (negb d).

(** [try_send_request], up to the call of the exchange with the reservation. *)
Definition try_reserve : P (option Active) :=
  draining ← is_draining;
  if draining : bool then mret None else a ← reserve; mret (Some a).

(** ** [impl ConnTask] *)

(** [finish]. *)
Definition task_finish (r : result Error unit) : P unit := store (fun w => if w_done_tx w then set_done false (Some r) w else w).

(** [fail]. *)
Definition task_fail (code : Code) (error : Error) (reason : string) : P unit :=
  terminate error;;
  quic_close code reason;;
  e ← shared_error;
  task_finish (Err e).

(** [close]. *)
Definition task_close : P unit :=
  violation ← sh_load sh_violation;
  match violation with
  | None => quic_close H3_NO_ERROR "";; terminate new_closed;; task_finish (Ok tt)
  | Some (code, reason) => task_fail code (new_h3 (CauseText reason)) reason
  end.

(** [closed_normally]: H3_NO_ERROR, or the peer's close with a code not known here. *)
Definition known_code (code : Z) : bool := (code =? 0x33) || ((0x100 <=? code) && (code <=? 0x110)) || ((0x200 <=? code) && (code <=? 0x202)).
Definition closed_normally (e : H3ConnError) : bool :=
  is_h3_no_error e || match e with H3Remote (QApplicationClose code) => negb (known_code code) | _ => false end.

(** [closed]. *)
Definition task_closed (error : H3ConnError) : P unit :=
  terminate (new_h3 (CauseH3Conn error));;
  r ← (if closed_normally error then mret (Ok tt) else e ← shared_error; mret (Err e));
  task_finish r.

(** The peer's SETTINGS are published once. *)
Definition take_settings : P unit :=
  known ← sh_load sh_peer_extended_connect;
  match known with
  | Some _ => mret tt
  | None =>
      settings ← load (fun w => hd_settings (w_driver w));
      match settings with
      | None => mret tt
      | Some settings =>
          sh_store (fun s => set_sh_datagrams ((fun r => (negotiated (E := Empty_set) (enable_datagram settings) r).1) <$> sh_datagrams s) s);;
          sh_store (fun s => set_peer_extended (Some (default (enable_extended_connect settings) (sh_peer_extended_connect s))) s);;
          sh_store (set_settings_ready true)
      end
  end.

(** [datagrams.as_mut().poll(cx)]: the Datagram driver works on the shared registry. *)
Definition drive_with (r : Registry) (d : Driver S R) : Driver S R := MkDriver (d_sender d) (d_receiver d) (d_pending d) r (d_self_wakes d).
Definition drive_poll : P (option (outcome DriveError unit)) := atom (fun w =>
  match w_drive w, sh_datagrams (w_shared w) with
  | Some d, Some r =>
      let '(d, o) := driver_poll (drive_with r d) in
      (set_drive (Some d) (set_shared (set_sh_datagrams (Some (d_registry d)) (w_shared w)) w), Some o)
  | _, _ => (w, None)
  end).

(** What a poll of the task comes to; a pending one has registered after [had] wake-ups. *)
Inductive TaskPoll : Type := TReady | TPending (had : nat) | TPanicked.

(** The Datagram driver's result; [None] is to go on. *)
Definition task_datagrams : P (option TaskPoll) :=
  polled ← drive_poll;
  match polled with
  | None | Some Pending => mret None
  | Some (Ready _) => store (set_drive None);; close_datagrams;; mret None
  | Some (Failed (DConnection error)) =>
      store (set_drive None);;
      match error with
      | QTimeout => task_closed H3Timeout
      | QInternalError reason => task_fail H3_INTERNAL_ERROR (new_h3 (CauseH3Conn (H3Remote (QInternalError reason)))) reason
      | error => task_closed (H3Remote error)
      end;;
      mret (Some TReady)
  | Some (Failed (DMalformed error)) =>
      store (set_drive None);;
      task_fail H3_DATAGRAM_ERROR error "malformed HTTP Datagram";;
      mret (Some TReady)
  | Some Panicked | Some NoFuel => mret (Some TPanicked)
  end.

(** The drain: [is_draining() && is_idle()] closes the connection. *)
Definition task_drained (had : nat) : P TaskPoll :=
  closing ← load (fun w => hd_is_closing (w_driver w));
  (if closing : bool then shutdown else mret tt);;
  draining ← is_draining;
  idle ← (if draining : bool then is_idle else mret false);
  if idle : bool then task_close;; mret TReady else mret (TPending had).

(** [<ConnTask as Future>::poll]. *)
Definition task_poll : P TaskPoll :=
  pending ← load w_done_tx;
  if negb pending then mret TReady
  else
    had ← register_driver;
    violation ← sh_load sh_violation;
    match violation with
    | Some _ => task_close;; mret TReady
    | None =>
        closed ← atom (fun w => let '(d, e) := hd_poll_close (w_driver w) in (set_driver d w, e));
        match closed with
        | Some error => task_closed error;; mret TReady
        | None =>
            take_settings;;
            r ← task_datagrams;
            match r with Some r => mret r | None => task_drained had end
        end
    end.

(** [Drop for ConnTask]. *)
Definition task_drop : P unit :=
  pending ← load w_done_tx;
  if negb pending then mret tt
  else
    terminate (err_with (CauseText "HTTP/3 connection task dropped") new_canceled);;
    '(code, reason) ← close_reason "connection task dropped";
    quic_close code reason;;
    e ← shared_error;
    task_finish (Err e).

(** ** [conn::http3::Connection] *)

(** [graceful_shutdown]. *)
Definition graceful_shutdown : P unit := shutdown.

(** One poll of the handle: [completed] is its own. A task that went away without a
    report is an error. *)
Definition connection_poll (completed : bool) : P (option (result Error unit)) :=
  if completed then mret (Some (Ok tt))
  else
    load (fun w => match w_done w with
                   | Some r => Some r
                   | None => if w_done_tx w then None else Some (Err (err_with (CauseText "HTTP/3 connection task dropped") new_canceled))
                   end).

(** [Drop for Connection]. *)
Definition connection_drop (completed : bool) : P unit :=
  if completed then mret tt
  else
    terminate (err_with (CauseText "HTTP/3 connection dropped") new_canceled);;
    '(code, reason) ← close_reason "client connection dropped";
    quic_close code reason.

(** ** The pool *)

(** A handle for requests, a request or exchange, the task (with the wake-ups it had
    when it last registered, while it waits), the connection's handle. *)
Inductive H3Obj : Type := OHandle | OActive (a : Active) | OTask (had : option nat) | OConn (completed : bool).

(** The calls on each. A tunnel of an admitted exchange may find a violation. *)
Inductive h3_methods : H3Obj -> P (list H3Obj) -> Prop :=
| m_clone : h3_methods OHandle (handle_clone;; mret [OHandle; OHandle])
| m_handle_drop : h3_methods OHandle (handle_drop;; mret [])
| m_try_send : h3_methods OHandle (r ← try_reserve; mret (OHandle :: match r with Some a => [OActive a] | None => [] end))
| m_admit a : a_admitted a = false ->
    h3_methods (OActive a) (o ← active_admit a; mret (match o with Ready a' => [OActive a'] | Pending => [OActive a] | _ => [] end))
| m_release a : a_admitted a = true -> h3_methods (OActive a) (a ← release_permit a; mret [OActive a])
| m_active_drop a : h3_methods (OActive a) (active_drop a;; mret [])
| m_violate a reason : a_admitted a = true -> h3_methods (OActive a) (violate H3_FRAME_UNEXPECTED reason;; mret [OActive a])
| m_poll had : h3_methods (OTask had) (r ← task_poll; mret [OTask (match r with TPending n => Some n | _ => None end)])
| m_task_drop had : h3_methods (OTask had) (task_drop;; mret [])
| m_shutdown c : h3_methods (OConn c) (graceful_shutdown;; mret [OConn c])
| m_conn_poll c : h3_methods (OConn c) (r ← connection_poll c; mret [OConn (c || match r with Some _ => true | None => false end)])
| m_conn_drop c : h3_methods (OConn c) (connection_drop c;; mret []).

(** What the peer does shows in the protocol driver. *)
Inductive h3_env : W -> W -> Prop := he_driver w d : h3_env w (set_driver d w).

(** A connection as [handshake] makes it. *)
Definition h3_world_new (limit : Z) (driver : D) (datagrams : option (Registry * Driver S R)) : W :=
  MkH3World (shared_new limit (fst <$> datagrams)) driver (snd <$> datagrams) [] true None.
Definition h3_start (limit : Z) (driver : D) (datagrams : option (Registry * Driver S R)) : config W H3Obj (option Z) :=
  MkConfig (h3_world_new limit driver datagrams) [Obj OHandle; Obj (OTask None); Obj (OConn false)] None.
End shared.
