(* ===== verification/Http3SharedTheorems.v ===== *)
(** * Http3SharedTheorems

    The shared state of an HTTP/3 connection under every interleaving of its requests,
    exchanges, handles and task: the counters count what is alive, a drain closes
    the connection under nobody but a request that is just being admitted while the
    connection is shut down (which does happen), no wake-up of the task is lost, and the first
    error is the one that is reported. *)

From stdpp Require Import prelude strings.
From Stdlib Require Import ZArith Lia.
From S2P Require Import Prelude Bytes Errors Wire Datagram DatagramLaws DatagramTheorems Http2Peer Http3Shared.
Local Open Scope Z_scope.

(** tokio's semaphore: permits that are neither taken nor given back stay; a closed one
    refuses everybody, and only a closed one does. *)
Class SemaphoreLaws (Sm : Type) `{SemaphoreOps Sm} : Type := {
  sem_available : Sm -> Z;
  sem_available_law m : 0 <= sem_available m;
  sem_new_law n : 0 <= n <= MAX_PERMITS -> sem_available (sem_new n) = n /\ sem_is_closed (sem_new n) = false;
  sem_close_law m : sem_is_closed (sem_close m) = true /\ sem_available (sem_close m) = sem_available m;
  sem_add_law n m : 0 <= n -> sem_is_closed (sem_add_permits n m) = sem_is_closed m /\ sem_available (sem_add_permits n m) = sem_available m + n;
  sem_acquire_law m m' r : sem_acquire m = (m', r) -> sem_is_closed m' = sem_is_closed m /\
    match r with
    | AcqOk => sem_is_closed m = false /\ 1 <= sem_available m /\ sem_available m' = sem_available m - 1
    | AcqClosed => sem_is_closed m = true /\ sem_available m' = sem_available m
    | AcqPending => sem_is_closed m = false /\ sem_available m' = sem_available m
    end;
}.

(** [Arc] aborts beyond [isize::MAX] references, and everything in a pool holds one. *)
Definition ISIZE_MAX : Z := 2 ^ 63 - 1.

Lemma usize_wrap_small n : 0 <= n <= USIZE_MAX -> usize_wrap n = n.
Proof. intros Hn. unfold usize_wrap. apply Z.mod_small. lia. Qed.

(** ** Shares *)

(** What a call has found out about the shared state and relies on. *)
Inductive know : Type := KNone | KNoSenders | KShut | KVio | KDraining | KClosed | KUnres | KDec.

(** What an object or a running call has in the counters; whether it is going to wake
    the task for a drain or for a violation; and, for the task, the wake-ups it had when
    it registered, with the conditions it has found unmet since. *)
Record ghost : Type := Gh {
  g_senders : Z; g_reserved : Z; g_active : Z; g_permits : Z; g_owes_drain : bool; g_owes_vio : bool;
  g_had : option (nat * bool * bool); g_know : know }.

Definition g_zero : ghost := Gh 0 0 0 0 false false None KNone.
Definition g_handle : ghost := Gh 1 0 0 0 false false None KNone.
Definition g_of (a : Active) : ghost :=
  if a_admitted a then Gh 0 0 1 (if a_permit a then 1 else 0) false false None KNone else Gh 0 1 0 0 false false None KNone.
Definition g_task (had : option nat) : ghost := Gh 0 0 0 0 false false ((fun n => (n, true, true)) <$> had) KNone.

Definition own (o : H3Obj) : ghost :=
  match o with OHandle => g_handle | OActive a => g_of a | OTask had => g_task had | OConn _ => g_zero end.

Definition g_ok (g : ghost) : Prop := 0 <= g_senders g <= 2 /\ 0 <= g_reserved g <= 2 /\ 0 <= g_active g <= 2 /\ 0 <= g_permits g.

Definition tot (f : ghost -> Z) (l : list ghost) : Z := foldr (fun g n => f g + n) 0 l.

Lemma tot_cons f g l : tot f (g :: l) = f g + tot f l.
Proof. done. Qed.
Lemma tot_app f l1 l2 : tot f (l1 ++ l2) = tot f l1 + tot f l2.
Proof. induction l1 as [|g l1 IH]; [done|]. rewrite <-app_comm_cons, !tot_cons, IH. lia. Qed.

#[export] Instance tot_perm f : Proper ((≡ₚ) ==> eq) (tot f).
Proof. intros l1 l2 Hp. induction Hp; rewrite ?tot_cons; lia. Qed.

Lemma tot_bounds f k l : Forall (fun g => 0 <= f g <= k) l -> 0 <= tot f l <= k * Z.of_nat (length l).
Proof. induction 1; [cbn; lia|]. rewrite tot_cons. cbn [length]. lia. Qed.

Lemma Exists_perm (P : ghost -> Prop) l1 l2 : l1 ≡ₚ l2 -> Exists P l1 -> Exists P l2.
Proof. rewrite !Exists_exists. intros Hp (g & Hg & HP). exists g. by rewrite <-Hp. Qed.

Section inv.
Context {Sm D S R : Type} `{SemaphoreLaws Sm} `{H3Driver D} `{H3Errors} `{HttpDatagram} `{SendDatagram S} `{RecvDatagram R} (lim : Z).

Abbreviation W := (H3World Sm D S R).
Implicit Types (w : W) (s : Shared Sm) (g : ghost) (l : list ghost).

Definition sh_closed s : bool := sem_is_closed (sh_permits s).
Definition vio s : bool := match sh_violation s with Some _ => true | None => false end.
Definition no_exchange s : bool := (sh_senders s =? 0) && (sh_reserved s =? 0) && (sh_active s =? 0).

(** What the task waits for to close gracefully. *)
Definition drained s : bool := sh_draining s && (sh_closed s || (sh_reserved s =? 0)) && (sh_active s =? 0).

(** The first moment at which a connection that drains, with admission shut, counted no
    exchange: the observer notes the permits that were not taken then. *)
Definition vacant s : bool := sh_draining s && sh_closed s && (sh_active s =? 0).
Definition note (q : option Z) s : option Z :=
  match q with Some a => Some a | None => if vacant s then Some (sem_available (sh_permits s)) else None end.
Definition quiet (q : option Z) (w : W) : option Z := note q (w_shared w).
Definition noted (q q' : option Z) s : Prop := q' = q \/ q' = note q s.

(** What may be counted as an exchange once admission is shut: one that is, and a
    request that has its permit. *)
Definition pot (g : ghost) : Z := Z.max (g_active g) (g_permits g).

Definition knows (q : option Z) s (k : know) : Prop :=
  match k with
  | KNone => True
  | KNoSenders => sh_senders s = 0
  | KShut => sh_closed s = true
  | KVio => vio s = true
  | KDraining => sh_draining s = true
  | KClosed => sh_draining s = true /\ sh_closed s = true
  | KUnres => sh_draining s = true /\ (sh_closed s = true \/ sh_senders s = 0 /\ sh_reserved s = 0)
  | KDec => q ≠ None \/ no_exchange s = true
  end.

(** A registration after [n] wake-ups is there, or has been used. *)
Definition reg_ok s (n : nat) : Prop := (n <= woken_times (sh_waker s))%nat /\ (registered (sh_waker s) = true \/ (n < woken_times (sh_waker s))%nat).

Definition waits_ok s l (h : nat * bool * bool) : Prop :=
  let '(n, cv, cd) := h in reg_ok s n /\
    (cv = true -> vio s = false \/ Exists (fun g => g_owes_vio g = true) l \/ (n < woken_times (sh_waker s))%nat) /\
    (cd = true -> drained s = false \/ Exists (fun g => g_owes_drain g = true) l \/ (n < woken_times (sh_waker s))%nat).

Record inv (q : option Z) (w : W) l : Prop := {
  i_senders : sh_senders (w_shared w) = tot g_senders l;
  i_reserved : sh_reserved (w_shared w) = tot g_reserved l;
  i_active : sh_active (w_shared w) = tot g_active l;
  i_permits : sem_available (sh_permits (w_shared w)) + tot g_permits l = lim;
  i_ok : Forall g_ok l;
  i_len : Z.of_nat (length l) <= ISIZE_MAX;
  i_drain : sh_draining (w_shared w) = true -> sh_senders (w_shared w) = 0 \/ sh_closed (w_shared w) = true;
  i_vio : forall c r, sh_violation (w_shared w) = Some (c, r) -> c = H3_FRAME_UNEXPECTED;
  i_know : Forall (fun g => knows q (w_shared w) (g_know g)) l;
  i_wait : Forall (fun g => forall h, g_had g = Some h -> waits_ok (w_shared w) l h) l;
  i_seen : forall a, q = Some a -> sh_closed (w_shared w) = true /\ tot pot l <= lim - a;
}.

#[export] Instance inv_perm q w : Proper ((≡ₚ) ==> impl) (inv q w).
Proof.
  intros l1 l2 Hp [J1 J2 J3 J4 J5 J6 J7 J8 J9 J10 J11]. split; try done; try (by rewrite <-Hp); [|intros a; rewrite <-Hp; apply J11].
  rewrite <-Hp. eapply Forall_impl; [exact J10|]. cbn. intros g Hg h Hh. specialize (Hg h Hh). destruct h as [[n cv] cd].
  destruct Hg as (Hr & Hv & Hd). split; [done|]. split; intros Hc; [destruct (Hv Hc) as [?|[He|?]]|destruct (Hd Hc) as [?|[He|?]]];
    [by left|right; left; by eapply Exists_perm|by right; right|by left|right; left; by eapply Exists_perm|by right; right].
Qed.

(** What every step keeps: what is published stays; and a graceful close comes when
    there is nobody left at all, or after admission was shut and no exchange counted. *)
Definition guar (q : option Z) (w w' : W) : Prop :=
  (forall e, sh_error (w_shared w) = Some e -> sh_error (w_shared w') = Some e) /\
  (forall v, sh_violation (w_shared w) = Some v -> sh_violation (w_shared w') = Some v) /\
  (sh_draining (w_shared w) = true -> sh_draining (w_shared w') = true) /\
  (sh_closed (w_shared w) = true -> sh_closed (w_shared w') = true) /\
  (w_closes w' = w_closes w \/ exists c, w_closes w' = w_closes w ++ [c] /\
    (c = (H3_NO_ERROR, EmptyString) -> q ≠ None \/ no_exchange (w_shared w) = true)).

(** ** Steps *)

Lemma inv_bounds q w l : inv q w l -> 0 <= sh_senders (w_shared w) <= USIZE_MAX - 1 /\ 0 <= sh_reserved (w_shared w) <= USIZE_MAX - 1 /\
  0 <= sh_active (w_shared w) <= USIZE_MAX - 1 /\ 0 <= tot g_permits l.
Proof.
  intros [J1 J2 J3 _ J5 J6 _ _ _ _ _]. rewrite J1, J2, J3. unfold ISIZE_MAX in J6. unfold USIZE_MAX, U64_MAX.
  assert (forall f, (forall g, g_ok g -> 0 <= f g <= 2) -> 0 <= tot f l <= 2 * Z.of_nat (length l)) as Hf.
  { intros f Hf. apply tot_bounds. eapply Forall_impl; [exact J5|]. apply Hf. }
  pose proof (Hf g_senders ltac:(unfold g_ok; lia)). pose proof (Hf g_reserved ltac:(unfold g_ok; lia)). pose proof (Hf g_active ltac:(unfold g_ok; lia)).
  split_and!; try lia. clear -J5. induction J5 as [|g l Hg _ IH]; [done|]. rewrite tot_cons. unfold g_ok in Hg. lia.
Qed.

(** The rest of a pool, seen from one of its members. *)
Lemma inv_rest q w g l : inv q w (g :: l) -> g_senders g <= sh_senders (w_shared w) /\ g_reserved g <= sh_reserved (w_shared w) /\
  g_active g <= sh_active (w_shared w) /\ g_ok g /\ knows q (w_shared w) (g_know g) /\ (forall h, g_had g = Some h -> waits_ok (w_shared w) (g :: l) h).
Proof.
  intros [J1 J2 J3 _ J5 _ _ _ J9 J10 _]. rewrite tot_cons in *. apply Forall_cons in J5 as [Hg J5], J9 as [J9 _], J10 as [J10 _].
  assert (forall f, (forall g, g_ok g -> 0 <= f g <= 2) -> 0 <= tot f l) as Hf by (intros f Hf; apply (tot_bounds f 2); eapply Forall_impl; [exact J5|]; apply Hf).
  pose proof (Hf g_senders ltac:(unfold g_ok; lia)). pose proof (Hf g_reserved ltac:(unfold g_ok; lia)). pose proof (Hf g_active ltac:(unfold g_ok; lia)).
  split_and!; try done; lia.
Qed.

Lemma knows_mono q q' s s' k : (q ≠ None -> q' ≠ None) -> (vio s = true -> vio s' = true) -> (sh_draining s = true -> sh_draining s' = true) -> (sh_closed s = true -> sh_closed s' = true) ->
  (sh_senders s = 0 -> sh_senders s' = 0 /\ (sh_reserved s = 0 -> sh_reserved s' = 0)) -> (no_exchange s = true -> no_exchange s' = true) ->
  knows q s k -> knows q' s' k.
Proof. intros Hq Hv Hd Hc Hu Hn. destruct k; cbn; tauto. Qed.

(** A step that leaves the waker alone. *)
Record quiet_step (q q' : option Z) s s' g g' : Prop := {
  qs_q : noted q q' s';
  qs_pot : sh_closed s = true -> pot g' <= pot g;
  qs_senders : sh_senders s' = sh_senders s + (g_senders g' - g_senders g);
  qs_reserved : sh_reserved s' = sh_reserved s + (g_reserved g' - g_reserved g);
  qs_active : sh_active s' = sh_active s + (g_active g' - g_active g);
  qs_permits : sem_available (sh_permits s') + g_permits g' = sem_available (sh_permits s) + g_permits g;
  qs_ok : g_ok g';
  qs_waker : sh_waker s' = sh_waker s;
  qs_draining : sh_draining s = true -> sh_draining s' = true;
  qs_closed : sh_closed s = true -> sh_closed s' = true;
  qs_drain : sh_draining s' = true -> sh_senders s' = 0 \/ sh_closed s' = true;
  qs_vio : sh_violation s' = sh_violation s \/ g_owes_vio g' = true /\ exists r, sh_violation s' = Some (H3_FRAME_UNEXPECTED, r);
  qs_unres : sh_senders s = 0 -> sh_senders s' = 0 /\ (sh_reserved s = 0 -> sh_reserved s' = 0);
  qs_none : no_exchange s = true -> no_exchange s' = true;
  qs_know : knows q' s' (g_know g');
  qs_drained : drained s' = true -> drained s = true \/ g_owes_drain g' = true;
  qs_owes_drain : g_owes_drain g = true -> g_owes_drain g' = true \/ drained s' = false;
  qs_owes_vio : g_owes_vio g = true -> g_owes_vio g' = true \/ vio s' = false;
  qs_had n cv cd : g_had g' = Some (n, cv, cd) -> exists cv0 cd0, g_had g = Some (n, cv0, cd0) /\
    (cv = true -> cv0 = true \/ vio s' = false) /\ (cd = true -> cd0 = true \/ drained s' = false);
}.

(** Whoever owes a wake-up still does, or there is no reason any more. *)
Lemma owed_kept (f : ghost -> bool) (b b' : bool) g g' l (P : Prop) : (b' = true -> b = true \/ f g' = true) -> (f g = true -> f g' = true \/ b' = false) ->
  b = false \/ Exists (fun g => f g = true) (g :: l) \/ P -> b' = false \/ Exists (fun g => f g = true) (g' :: l) \/ P.
Proof.
  intros J1 J2 [->|[He|?]]; [|apply Exists_cons in He as [Hg|Hl]|by right; right].
  - destruct b'; [|by left]. destruct J1 as [?|?]; [done..|]. right; left. by left.
  - destruct (J2 Hg) as [?|?]; [|by left]. right; left. by left.
  - right; left. by right.
Qed.

Lemma waits_kept q q' s s' g g' l h : quiet_step q q' s s' g g' -> waits_ok s (g :: l) h -> waits_ok s' (g' :: l) h.
Proof.
  intros [] Hw. destruct h as [[n cv] cd]. destruct Hw as (Hr & Hv & Hd). unfold waits_ok, reg_ok. rewrite qs_waker0. split_and!; [apply Hr..| |].
  - intros Hc. eapply owed_kept; [| |by apply Hv]; [|done]. unfold vio in *. destruct qs_vio0 as [->|[? _]]; auto.
  - intros Hc. eapply owed_kept; [| |by apply Hd]; done.
Qed.

Lemma noted_some q q' s : noted q q' s -> q ≠ None -> q' ≠ None.
Proof. intros [->| ->]; [done|]. by destruct q. Qed.

(** With no exchange counted, the permits that are taken are those of requests. *)
Lemma pot_vacant l : Forall g_ok l -> tot g_active l = 0 -> tot pot l <= tot g_permits l.
Proof.
  induction 1 as [|g l Hg Hl IH]; [done|]. rewrite !tot_cons. unfold g_ok in Hg. intros E.
  assert (0 <= tot g_active l) as Hn by (apply (tot_bounds g_active 2); eapply Forall_impl; [exact Hl|]; cbn; intros x (_ & _ & ? & _); done).
  destruct Hg as (_ & _ & Ha & Hp). specialize (IH ltac:(lia)). unfold pot at 1. lia.
Qed.

Lemma inv_quiet q q' w w' g g' l : inv q w (g :: l) -> quiet_step q q' (w_shared w) (w_shared w') g g' -> inv q' w' (g' :: l).
Proof.
  intros Hi Hq. pose proof Hq as []. destruct Hi as [J1 J2 J3 J4 J5 J6 J7 J8 J9 J10 J11]. rewrite !tot_cons in *.
  apply Forall_cons in J5 as [Hg J5], J9 as [J9 J9'], J10 as [J10 J10']. split; rewrite ?tot_cons;
    [clear - J1 qs_senders0; lia|clear - J2 qs_reserved0; lia|clear - J3 qs_active0; lia|clear - J4 qs_permits0; lia|by constructor|exact J6|done|..|].
  - intros c r Hv. destruct qs_vio0 as [E|[_ [r' E]]]; [rewrite E in Hv; eauto|congruence].
  - constructor; [done|]. eapply Forall_impl; [exact J9'|]. cbn. intros x Hx. eapply knows_mono; [..|exact Hx]; try done; [by eapply noted_some|].
    unfold vio. destruct qs_vio0 as [->|[_ [r ->]]]; done.
  - constructor.
    + intros [[n cv] cd] Eh. destruct (qs_had0 _ _ _ Eh) as (cv0 & cd0 & E0 & Hcv & Hcd). specialize (J10 _ E0).
      eapply waits_kept in J10; [|exact Hq]. destruct J10 as (Hr & Hv & Hd). split; [done|]. split; intros Hc.
      * destruct (Hcv Hc) as [Hx|Hx]; [by apply Hv|by left].
      * destruct (Hcd Hc) as [Hx|Hx]; [by apply Hd|by left].
    + eapply Forall_impl; [exact J10'|]. cbn. intros x Hx h Eh. eapply waits_kept; [exact Hq|]. by apply Hx.
  - assert (forall a, q = Some a -> sh_closed (w_shared w') = true /\ pot g' + tot pot l <= lim - a) as Hold.
    { intros a Ea. destruct (J11 a Ea) as [Hc Hp]. rewrite ?tot_cons in Hp. split; [auto|]. specialize (qs_pot0 Hc). lia. }
    intros a Ea. destruct qs_q0 as [->| ->]; [auto|]. destruct q as [b|]; cbn in Ea; [by apply Hold|].
    destruct (vacant (w_shared w')) eqn:Ev; [|done]. injection Ea as <-. unfold vacant in Ev. rewrite !andb_true_iff, Z.eqb_eq in Ev. destruct Ev as [[_ Ec] Ea].
    split; [done|]. rewrite <-tot_cons. transitivity (tot g_permits (g' :: l)); [|rewrite tot_cons; lia]. apply pot_vacant; [by constructor|]. rewrite tot_cons. lia.
Qed.

(** A wake-up settles everything that is owed. *)
Lemma inv_wake q w g l : inv q w (g :: l) -> forall b b',
  inv q (set_shared (set_waker (waker_wake (sh_waker (w_shared w))) (w_shared w)) w)
    (Gh (g_senders g) (g_reserved g) (g_active g) (g_permits g) b b' (g_had g) (g_know g) :: l).
Proof.
  intros [J1 J2 J3 J4 J5 J6 J7 J8 J9 J10 J11] b b'. split; cbn [w_shared set_shared]; rewrite ?tot_cons in *; try done.
  - apply Forall_cons in J5 as [? ?]. by constructor.
  - apply Forall_cons in J9 as [? ?]. by constructor.
  - assert (forall h l1, waits_ok (w_shared w) l1 h -> forall l2, waits_ok (set_waker (waker_wake (sh_waker (w_shared w))) (w_shared w)) l2 h) as Hw.
    { intros [[n cv] cd] l1 ([Hn Hr] & _ & _) l2. assert ((n < woken_times (waker_wake (sh_waker (w_shared w))))%nat) as Hlt.
      { unfold waker_wake. destruct (registered _) eqn:E; cbn; [lia|]. by destruct Hr. }
      split; [split; [cbn; lia|by right]|]. split; intros _; right; by right. }
    apply Forall_cons in J10 as [J10 J10']. constructor.
    + intros h Eh. by eapply Hw, J10.
    + eapply Forall_impl; [exact J10'|]. cbn. intros x Hx h Eh. eapply Hw, Hx, Eh.
Qed.

(** Registering. *)
Lemma inv_register q w g l : inv q w (g :: l) ->
  inv q (set_shared (set_waker (waker_register (sh_waker (w_shared w))) (w_shared w)) w)
    (Gh (g_senders g) (g_reserved g) (g_active g) (g_permits g) (g_owes_drain g) (g_owes_vio g) (Some (woken_times (sh_waker (w_shared w)), false, false)) (g_know g) :: l).
Proof.
  intros [J1 J2 J3 J4 J5 J6 J7 J8 J9 J10 J11]. split; cbn [w_shared set_shared]; rewrite ?tot_cons in *; try done.
  - apply Forall_cons in J5 as [? ?]. by constructor.
  - apply Forall_cons in J9 as [? ?]. by constructor.
  - apply Forall_cons in J10 as [J10 J10']. constructor.
    + intros h [= <-]. split; [split; [done|by left]|done].
    + eapply Forall_impl; [exact J10'|]. cbn. intros x Hx h Eh. specialize (Hx h Eh). destruct h as [[n cv] cd]. destruct Hx as ([Hn _] & Hv & Hd).
      split; [split; [done|by left]|]. cbn. rewrite !Exists_cons in *. done.
Qed.

(** ** Atomic steps *)

Abbreviation wp3 := (wpc quiet inv guar).

Lemma drained_iff s : drained s = true <-> sh_draining s = true /\ (sh_closed s = true \/ sh_reserved s = 0) /\ sh_active s = 0.
Proof. unfold drained. rewrite !andb_true_iff, orb_true_iff, !Z.eqb_eq. tauto. Qed.
Lemma no_exchange_iff s : no_exchange s = true <-> sh_senders s = 0 /\ sh_reserved s = 0 /\ sh_active s = 0.
Proof. unfold no_exchange. rewrite !andb_true_iff, !Z.eqb_eq. tauto. Qed.

(** A step that changes none of what the invariant is about. *)
Definition same_core s s' : Prop :=
  sh_draining s' = sh_draining s /\ sh_permits s' = sh_permits s /\ sh_violation s' = sh_violation s /\ sh_reserved s' = sh_reserved s /\
  sh_active s' = sh_active s /\ sh_senders s' = sh_senders s /\ sh_waker s' = sh_waker s.

Lemma same_core_quiet q q' w s' g l : inv q w (g :: l) -> same_core (w_shared w) s' -> noted q q' s' -> quiet_step q q' (w_shared w) s' g g.
Proof.
  intros Hi (E1 & E2 & E3 & E4 & E5 & E6 & E7) Hq. pose proof (inv_rest _ _ _ _ Hi) as (_ & _ & _ & Hok & Hk & _).
  assert (forall k, knows q (w_shared w) k -> knows q' s' k) as Hkn.
  { intros k. apply knows_mono; [by eapply noted_some|..]; unfold vio, sh_closed, no_exchange; rewrite ?E1, ?E2, ?E3, ?E4, ?E5, ?E6; done. }
  split; unfold vio, drained, sh_closed, no_exchange in *; rewrite ?E1, ?E2, ?E3, ?E4, ?E5, ?E6, ?E7; try done; try lia; auto.
  - apply Hi.
  - intros n cv cd Eh. exists cv, cd. auto.
Qed.

(** The conditions of [guar] on a step of the shared state alone. *)
Definition keeps s s' : Prop := (forall e, sh_error s = Some e -> sh_error s' = Some e) /\ (forall v, sh_violation s = Some v -> sh_violation s' = Some v).

Lemma wpc_quiet {A} (f : Shared Sm -> Shared Sm * A) g Q :
  (forall q q' w l, inv q w (g :: l) -> noted q q' (f (w_shared w)).1 -> q' = note q (f (w_shared w)).1 ->
    exists g', quiet_step q q' (w_shared w) (f (w_shared w)).1 g g' /\ keeps (w_shared w) (f (w_shared w)).1 /\ Q g' (f (w_shared w)).2) ->
  wp3 g (sh_atom f) Q.
Proof.
  intros Hf q w l Hi. destruct (Hf q (note q (f (w_shared w)).1) w l Hi ltac:(by right) eq_refl) as (g' & Hq & [Hk1 Hk2] & HQ).
  destruct (f (w_shared w)) as [s' a]. cbn in *. exists g'. split; [by eapply inv_quiet|]. split; [|exists g'; split; [by intros ???|done]]. split_and!; [done|done|apply Hq|apply Hq|by left].
Qed.

Lemma wpc_store (f : Shared Sm -> Shared Sm) g Q :
  (forall q q' w l, inv q w (g :: l) -> noted q q' (f (w_shared w)) ->
    exists g', quiet_step q q' (w_shared w) (f (w_shared w)) g g' /\ keeps (w_shared w) (f (w_shared w)) /\ Q g' tt) ->
  wp3 g (sh_store f) Q.
Proof. intros Hf. apply (wpc_quiet (fun s => (f s, tt))). intros q q' w l Hi Hq _. by apply (Hf q q' w l). Qed.

(** Steps that are about something else: the closes, the report, the drivers. *)
Lemma wpc_frame {A} (f : W -> W * A) g Q :
  (forall w, same_core (w_shared w) (w_shared (f w).1) /\ keeps (w_shared w) (w_shared (f w).1) /\ w_closes (f w).1 = w_closes w) ->
  (forall q w l, inv q w (g :: l) -> Q g (f w).2) -> wp3 g (atom f) Q.
Proof.
  intros Hf HQ q w l Hi. destruct (Hf w) as (Hc & [Hk1 Hk2] & Ec). exists g.
  assert (quiet_step q (quiet q (f w).1) (w_shared w) (w_shared (f w).1) g g) as Hq by (eapply same_core_quiet; [done|done|by right]).
  split; [by eapply inv_quiet|]. split; [|exists g; split; [by intros ???|by eapply HQ]]. split_and!; [done|done|apply Hq|apply Hq|by left].
Qed.

Lemma wpc_frame_store (f : Shared Sm -> Shared Sm) g Q : (forall s, same_core s (f s) /\ keeps s (f s)) -> Q g tt -> wp3 g (sh_store f) Q.
Proof. intros Hf HQ. apply wpc_frame; [|done]. intros w. destruct (Hf (w_shared w)) as [? ?]. by split_and!. Qed.

(** A look at the state. *)
Lemma wpc_look {A} (f : Shared Sm -> A) g Q : (forall q q' w l, inv q w (g :: l) -> noted q q' (w_shared w) -> q' = note q (w_shared w) ->
    exists g', quiet_step q q' (w_shared w) (w_shared w) g g' /\ Q g' (f (w_shared w))) ->
  wp3 g (sh_load f) Q.
Proof.
  intros Hf. change (sh_load f) with (atom (fun w : W => (w, f (w_shared w)))). intros q w l Hi.
  destruct (Hf q (note q (w_shared w)) w l Hi ltac:(by right) eq_refl) as (g' & Hq & HQ). exists g'. cbn. split; [by eapply inv_quiet|split].
  - split_and!; try done. by left.
  - exists g'. split; [by intros ???|done].
Qed.

Lemma wpc_load {A} (f : Shared Sm -> A) g Q : (forall q w l, inv q w (g :: l) -> Q g (f (w_shared w))) -> wp3 g (sh_load f) Q.
Proof. intros Hf. apply wpc_look. intros q q' w l Hi Hq _. exists g. split; [by eapply same_core_quiet|eauto]. Qed.

Definition set_owes (d v : bool) g : ghost := Gh (g_senders g) (g_reserved g) (g_active g) (g_permits g) d v (g_had g) (g_know g).
Definition set_know (k : know) g : ghost := Gh (g_senders g) (g_reserved g) (g_active g) (g_permits g) (g_owes_drain g) (g_owes_vio g) (g_had g) k.
Definition set_had (h : option (nat * bool * bool)) g : ghost := Gh (g_senders g) (g_reserved g) (g_active g) (g_permits g) (g_owes_drain g) (g_owes_vio g) h (g_know g).

Lemma wpc_wake d v g Q : Q (set_owes d v g) tt -> wp3 g wake Q.
Proof.
  intros HQ q w l Hi. exists (set_owes d v g). split; [|split; [split_and!; try done; by left|eexists; split; [by intros ???|done]]].
  pose proof (inv_wake q w g l Hi d v) as Hi'. cbn. eapply inv_quiet; [exact Hi'|]. eapply same_core_quiet; [exact Hi'|done|by right].
Qed.

(** ** Operations of [Shared] *)

(** A share that only counts. *)
Definition gc (ds dr da dp : Z) : ghost := Gh ds dr da dp false false None KNone.

(** The share of the task. *)
Definition gt (h : option (nat * bool * bool)) (k : know) : ghost := Gh 0 0 0 0 false false h k.

(** Fields of [quiet_step] that follow by computation. *)
Ltac quiet_tac :=
  split; unfold vio, sh_closed, pot in *;
  cbn [sh_senders sh_reserved sh_active sh_permits sh_waker sh_draining sh_violation sh_error set_draining set_permits set_violation set_reserved set_active set_senders
       gc gt set_owes set_know set_had g_senders g_reserved g_active g_permits g_owes_drain g_owes_vio g_had g_know];
  rewrite ?no_exchange_iff, ?drained_iff, <-?not_true_iff_false, ?drained_iff; unfold sh_closed;
  cbn [sh_senders sh_reserved sh_active sh_permits sh_waker sh_draining sh_violation sh_error set_draining set_permits set_violation set_reserved set_active set_senders];
  try done; try lia; try (by intros; exfalso; lia); try (by auto); try (by intuition lia); try (by left);
  try (let n := fresh "n" in let cv := fresh "cv" in let cd := fresh "cd" in let Eh := fresh "Eh" in by intros n cv cd Eh; exists cv, cd; auto).

Lemma shift_know k k' g : (forall q s, knows q s k -> knows q s k') -> shift inv (set_know k g) (set_know k' g).
Proof.
  intros Hk q w l Hi. eapply inv_quiet; [exact Hi|]. pose proof (inv_rest _ _ _ _ Hi) as (_ & _ & _ & Hok & Hkn & _). destruct Hi. quiet_tac.
Qed.

Lemma set_know_id g : set_know (g_know g) g = g.
Proof. by destruct g. Qed.
Lemma set_know_none g : g_know g = KNone -> set_know KNone g = g.
Proof. intros <-. apply set_know_id. Qed.

Lemma wpc_drain g Q : (forall q s, knows q s (g_know g) -> sh_senders s = 0 \/ sh_closed s = true) -> Q g tt -> wp3 g drain Q.
Proof.
  intros Hk HQ. unfold drain. apply wpc_bind, wpc_quiet. intros q q' w l Hi Hq _. cbn. pose proof (inv_rest _ _ _ _ Hi) as (_ & _ & _ & Hok & Hkn & _).
  pose proof (Hk _ _ Hkn) as Hd. destruct (sh_draining (w_shared w)) eqn:Ed.
  - exists g. split_and!; [|done..|by apply wpc_ret]. eapply same_core_quiet; [done| |done]. by split_and!.
  - exists (set_owes true (g_owes_vio g) g). split_and!; [|done..|].
    + destruct Hi. quiet_tac. revert Hkn. apply knows_mono; [by eapply noted_some|done..].
    + apply (wpc_wake (g_owes_drain g) (g_owes_vio g)). by destruct g.
Qed.

Lemma wpc_forget k g g0 (p : prog W unit) Q : wp3 g0 p (fun g' _ => g' = set_know k g) -> g_know g = KNone -> Q g tt -> wp3 g0 p Q.
Proof.
  intros Hp Ek HQ. eapply wpc_conseq; [exact Hp|]. intros ? [] ->. exists (set_know KNone g). split; [by apply shift_know|]. by rewrite set_know_none.
Qed.

Lemma wpc_shutdown g Q : g_know g = KNone -> Q g tt -> wp3 g shutdown Q.
Proof.
  intros Ek HQ. unfold shutdown. apply wpc_bind, wpc_look. intros q q' w l Hi Hq _. pose proof (inv_rest _ _ _ _ Hi) as (_ & _ & _ & Hok & Hkn & _).
  destruct (sem_is_closed (sh_permits (w_shared w))) eqn:Ec.
  - exists (set_know KShut g). split; [destruct Hi; quiet_tac|]. apply (wpc_forget KShut g); [by apply wpc_drain; [right|]|done..].
  - exists g. split; [by eapply same_core_quiet|]. apply wpc_bind, wpc_store. clear q q' w l Hi Hq Hkn Ec. intros q q' w l Hi Hq.
    pose proof (inv_rest _ _ _ _ Hi) as (_ & _ & _ & _ & Hkn & _). destruct (sem_close_law (sh_permits (w_shared w))) as [E1 E2].
    exists (set_know KShut (set_owes true (g_owes_vio g) g)). split_and!; [destruct Hi; quiet_tac|done..|].
    apply wpc_bind, wpc_drain; [by right|]. apply wpc_bind, wpc_frame_store; [by intros s; split_and!|].
    apply (wpc_forget KShut g); [by apply (wpc_wake (g_owes_drain g) (g_owes_vio g)); destruct g|done..].
Qed.

Lemma wpc_close_datagrams g Q : Q g tt -> wp3 g close_datagrams Q.
Proof. apply wpc_frame_store. intros s. by split_and!. Qed.

Lemma wpc_terminate e g Q : g_know g = KNone -> Q g tt -> wp3 g (terminate e) Q.
Proof.
  intros Ek HQ. unfold terminate. apply wpc_bind, wpc_frame_store; [intros s; split; [by split_and!|]; split; [by intros e' ->|done]|].
  apply wpc_bind, wpc_shutdown; [done|]. by apply wpc_close_datagrams.
Qed.

Lemma wpc_violate reason g Q : g_know g = KNone -> Q g tt -> wp3 g (violate H3_FRAME_UNEXPECTED reason) Q.
Proof.
  intros Ek HQ. unfold violate. apply wpc_bind, wpc_store. intros q q' w l Hi Hq. pose proof (inv_rest _ _ _ _ Hi) as (_ & _ & _ & Hok & Hkn & _).
  exists (set_owes (g_owes_drain g) true g). split_and!; [|by split; [|intros v ->]|].
  - destruct Hi. quiet_tac; [|by rewrite Ek]. destruct (sh_violation (w_shared w)); [by left|right]. split; [done|]. by exists reason.
  - apply wpc_bind, wpc_terminate; [done|]. apply (wpc_wake (g_owes_drain g) (g_owes_vio g)). by destruct g.
Qed.

(** ** [Active] and the handles *)

Lemma returns_objs g os : g_owes_drain g = false -> g_owes_vio g = false ->
  (forall f, f = g_senders \/ f = g_reserved \/ f = g_active \/ f = g_permits -> tot f (map own os) = f g) ->
  tot pot (map own os) <= pot g ->
  (forall o h, o ∈ os -> g_had (own o) = Some h -> g_had g = Some h) -> returns ISIZE_MAX own inv g os.
Proof.
  intros Ed Ev Ef Ep Eh q w l [J1 J2 J3 J4 J5 J6 J7 J8 J9 J10 J11] Hlen. rewrite !tot_cons in *.
  apply Forall_cons in J5 as [Hg J5], J9 as [J9 J9'], J10 as [J10 J10'].
  assert (forall h, waits_ok (w_shared w) (g :: l) h -> waits_ok (w_shared w) (map own os ++ l) h) as Hw.
  { intros [[n cv] cd] (Hr & Hv & Hd). split; [done|]. rewrite !Exists_cons, Ed, Ev in *. split; intros Hc; [destruct (Hv Hc) as [?|[[?|He]|?]]|destruct (Hd Hc) as [?|[[?|He]|?]]];
      try done; try (by left); try (by right; right); right; left; apply Exists_app; by right. }
  split; rewrite ?tot_app; rewrite ?Ef by tauto; try done.
  - apply Forall_app. split; [|done]. apply Forall_map, Forall_true. intros [|[[] []]| |]; unfold g_ok; cbn; lia.
  - apply Forall_app. split; [|done]. apply Forall_map, Forall_true. by intros [|[[] []]| |].
  - apply Forall_app. split.
    + apply Forall_map, Forall_forall. intros o Ho h Hh. apply Hw, J10. by eapply Eh.
    + eapply Forall_impl; [exact J10'|]. cbn. intros x Hx h Hh. by apply Hw, Hx.
  - intros a Ea. destruct (J11 a Ea) as [Hc Hp]. rewrite ?tot_cons in Hp. rewrite ?tot_app. split; [done|lia].
Qed.

Lemma returns_counts ds dr da dp os : tot g_senders (map own os) = ds -> tot g_reserved (map own os) = dr -> tot g_active (map own os) = da ->
  tot g_permits (map own os) = dp -> tot pot (map own os) = Z.max da dp -> Forall (fun o => g_had (own o) = None) os -> returns ISIZE_MAX own inv (gc ds dr da dp) os.
Proof.
  intros E1 E2 E3 E4 E5 Hh. apply returns_objs; [done|done| |cbn [gc pot g_active g_permits]; unfold pot at 2; cbn; lia|].
  - intros f [->|[->|[->| ->]]]; done.
  - intros o h Ho Eo. rewrite Forall_forall in Hh. by rewrite (Hh o Ho) in Eo.
Qed.

(** One [fetch_add] or [fetch_sub] on a counter, the share becoming [g']. *)
Ltac fetch_tac g' :=
  unfold fetch; apply wpc_quiet; let q := fresh "q" in let q' := fresh "q'" in let w := fresh "w" in let l := fresh "l" in
  let Hi := fresh "Hi" in let Hq := fresh "Hq" in
  intros q q' w l Hi Hq _; pose proof (inv_bounds _ _ _ Hi) as (? & ? & ? & _); pose proof (inv_rest _ _ _ _ Hi) as (? & ? & ? & _ & _ & _);
  cbn [gc g_senders g_reserved g_active] in *; exists g'; cbn [fst snd] in Hq |- *; rewrite usize_wrap_small in Hq |- * by lia;
  split_and!; [destruct Hi; quiet_tac; unfold g_ok; cbn; lia|done|clear dependent w; clear dependent q; clear dependent l].

Lemma wpc_reserve Q : Q (gc 1 1 0 0) (MkActive false false) -> wp3 (gc 1 0 0 0) reserve Q.
Proof. intros HQ. unfold reserve. apply wpc_bind. fetch_tac (gc 1 1 0 0). by apply wpc_ret. Qed.

Lemma wpc_release_permit ds dr da p adm Q : 0 <= ds <= 2 -> 0 <= dr <= 2 -> 0 <= da <= 2 ->
  Q (gc ds dr da 0) (MkActive adm false) -> wp3 (gc ds dr da (if p : bool then 1 else 0)) (release_permit (MkActive adm p)) Q.
Proof.
  intros J1 J2 J3 HQ. unfold release_permit. cbn [a_permit a_admitted]. apply wpc_bind. destruct p; [|by do 2 apply wpc_ret].
  apply wpc_store. intros q q' w l Hi Hq. destruct (sem_add_law 1 (sh_permits (w_shared w))) as [E1 E2]; [lia|].
  exists (gc ds dr da 0). split_and!; [|done|by apply wpc_ret]. destruct Hi. quiet_tac; rewrite ?E1; auto; unfold g_ok; cbn; lia.
Qed.

(** After its counter has gone down, a drop wakes the task of a draining connection. *)
Lemma wpc_drop_tail Q : Q (gc 0 0 0 0) tt -> wp3 (set_owes true false (gc 0 0 0 0)) (draining ← is_draining; if draining : bool then wake else mret tt) Q.
Proof.
  intros HQ. apply wpc_bind, wpc_look. intros q q' w l Hi Hq _. destruct (sh_draining (w_shared w)) eqn:Ed.
  - eexists. split; [by eapply same_core_quiet|]. by apply (wpc_wake false false).
  - exists (gc 0 0 0 0). split; [|by apply wpc_ret]. pose proof (inv_rest _ _ _ _ Hi) as (_ & _ & _ & Hok & _). destruct Hi. quiet_tac. rewrite Ed. by right; intros [? _].
Qed.

Lemma wpc_active_drop a Q : Q (gc 0 0 0 0) tt -> wp3 (g_of a) (active_drop a) Q.
Proof.
  intros HQ. destruct a as [[|] p]; unfold active_drop; cbn [g_of a_admitted a_permit]; apply wpc_bind.
  - apply wpc_bind, wpc_release_permit; [lia..|]. apply wpc_bind. fetch_tac (set_owes true false (gc 0 0 0 0)). apply wpc_ret. by apply wpc_drop_tail.
  - apply wpc_bind. change (Gh 0 1 0 0 false false None KNone) with (gc 0 1 0 0). fetch_tac (set_owes true false (gc 0 0 0 0)). apply wpc_ret. by apply wpc_drop_tail.
Qed.

Lemma wpc_admit a Q : a_admitted a = false -> Q (gc 0 1 0 0) Pending -> (forall e, Q (gc 0 0 0 0) (Failed e)) -> Q (gc 0 0 1 1) (Ready (MkActive true true)) ->
  wp3 (g_of a) (active_admit a) Q.
Proof.
  intros Ea Q1 Q2 Q3. assert (g_of a = gc 0 1 0 0) as Eg by (unfold g_of; by rewrite Ea). rewrite Eg. unfold active_admit.
  apply wpc_bind, wpc_quiet. intros q q' w l Hi Hq _. destruct (sem_acquire (sh_permits (w_shared w))) as [m r] eqn:Es. apply sem_acquire_law in Es as [Ec Er]. cbn [fst snd].
  destruct r; cbn [fst snd] in *.
  - destruct Er as (Eo & _ & Ev). exists (gc 0 1 0 1). split_and!; [destruct Hi; quiet_tac; rewrite ?Ec; auto; try congruence; unfold g_ok; cbn; lia|done|].
    clear q q' w l Hi Hq Ec Ev Eo. apply wpc_bind. fetch_tac (gc 0 1 1 1). apply wpc_bind. fetch_tac (gc 0 0 1 1). by apply wpc_ret.
  - destruct Er as [_ Ev]. exists (gc 0 1 0 0). split_and!; [destruct Hi; quiet_tac; rewrite ?Ec; auto; unfold g_ok; cbn; lia|done|].
    apply wpc_bind, wpc_load. intros ? ? ? _. apply wpc_bind. rewrite <-Eg. apply wpc_active_drop. by apply wpc_ret.
  - destruct Er as [_ Ev]. exists (gc 0 1 0 0). split_and!; [destruct Hi; quiet_tac; rewrite ?Ec; auto; unfold g_ok; cbn; lia|done|]. by apply wpc_ret.
Qed.

Lemma wpc_handle_clone Q : Q (gc 2 0 0 0) tt -> wp3 (gc 1 0 0 0) handle_clone Q.
Proof. intros HQ. unfold handle_clone. apply wpc_bind. fetch_tac (gc 2 0 0 0). by apply wpc_ret. Qed.

Lemma wpc_handle_drop Q : Q (gc 0 0 0 0) tt -> wp3 (gc 1 0 0 0) handle_drop Q.
Proof.
  intros HQ. unfold handle_drop. apply wpc_bind. unfold fetch. apply wpc_quiet. intros q q' w l Hi Hq _.
  pose proof (inv_bounds _ _ _ Hi) as (? & ? & ? & _). pose proof (inv_rest _ _ _ _ Hi) as (Hs & ? & ? & _ & _ & _). cbn [gc g_senders g_reserved g_active] in *.
  cbn [fst snd] in Hq |- *. rewrite usize_wrap_small in Hq |- * by lia. destruct (Z.eqb_spec (sh_senders (w_shared w)) 1) as [E|E].
  - exists (set_know KNoSenders (gc 0 0 0 0)). split_and!; [destruct Hi; quiet_tac; unfold knows; cbn; unfold g_ok; cbn; lia|done|].
    apply (wpc_forget KNoSenders (gc 0 0 0 0)); [|done..]. by apply wpc_drain; [left|].
  - exists (gc 0 0 0 0). split_and!; [destruct Hi; quiet_tac; unfold g_ok; cbn; lia|done|]. by apply wpc_ret.
Qed.

Lemma wpc_try_reserve Q : Q (gc 1 0 0 0) None -> Q (gc 1 1 0 0) (Some (MkActive false false)) -> wp3 (gc 1 0 0 0) try_reserve Q.
Proof.
  intros Q1 Q2. unfold try_reserve, is_draining. apply wpc_bind, wpc_load. intros q w l Hi. destruct (sh_draining _); [by apply wpc_ret|].
  apply wpc_bind, wpc_reserve. by apply wpc_ret.
Qed.

(** ** The task *)

Lemma wpc_quic_close code reason g Q : ((code, reason) = (H3_NO_ERROR, EmptyString) -> g_know g = KDec) -> Q g tt -> wp3 g (quic_close code reason) Q.
Proof.
  intros Hk HQ q w l Hi. exists g. pose proof (inv_rest _ _ _ _ Hi) as (_ & _ & _ & _ & Hkn & _). cbn. split; [|split].
  - eapply inv_quiet; [exact Hi|]. eapply same_core_quiet; [exact Hi|by split_and!|by right].
  - split_and!; try done. right. exists (code, reason). split; [done|]. intros Hc. rewrite (Hk Hc) in Hkn. apply Hkn.
  - exists g. split; [by intros ???|done].
Qed.

Lemma wpc_task_finish r g Q : Q g tt -> wp3 g (task_finish r) Q.
Proof. intros HQ. apply wpc_frame; [|done]. intros w. cbn. by destruct (w_done_tx w); split_and!. Qed.

Lemma wpc_shared_error g Q : (forall e, Q g e) -> wp3 g shared_error Q.
Proof. intros HQ. apply wpc_load. intros ???. done. Qed.

Lemma wpc_task_fail code e reason g Q : g_know g = KNone -> code ≠ H3_NO_ERROR -> Q g tt -> wp3 g (task_fail code e reason) Q.
Proof.
  intros Ek Ec HQ. unfold task_fail. apply wpc_bind, wpc_terminate; [done|]. apply wpc_bind, wpc_quic_close; [congruence|].
  apply wpc_bind, wpc_shared_error. intros e'. by apply wpc_task_finish.
Qed.

Lemma wpc_task_close h k Q : k = KVio \/ k = KDec -> Q (gt h KNone) tt -> wp3 (gt h k) task_close Q.
Proof.
  intros Hk HQ. unfold task_close. apply wpc_bind, wpc_look. intros q q' w l Hi Hq _. pose proof (inv_rest _ _ _ _ Hi) as (_ & _ & _ & Hok & Hkn & _).
  destruct (sh_violation (w_shared w)) as [[code reason]|] eqn:Ev.
  - exists (gt h KNone). pose proof (i_vio _ _ _ Hi _ _ Ev) as ->. split; [destruct Hi; quiet_tac|]. by apply wpc_task_fail.
  - destruct Hk as [->| ->]; [cbn in Hkn; unfold vio in Hkn; by rewrite Ev in Hkn|]. exists (gt h KDec). split; [by eapply same_core_quiet|].
    apply wpc_bind, wpc_quic_close; [done|]. apply wpc_bind. eapply wpc_shift; [by apply (shift_know KDec KNone (gt h KNone))|].
    apply wpc_terminate; [done|]. by apply wpc_task_finish.
Qed.

Lemma wpc_task_closed e h Q : Q (gt h KNone) tt -> wp3 (gt h KNone) (task_closed e) Q.
Proof.
  intros HQ. unfold task_closed. apply wpc_bind, wpc_terminate; [done|]. apply wpc_bind. destruct (closed_normally e).
  - apply wpc_ret. by apply wpc_task_finish.
  - apply wpc_bind, wpc_shared_error. intros e'. apply wpc_ret. by apply wpc_task_finish.
Qed.

Lemma wpc_take_settings g Q : Q g tt -> wp3 g take_settings Q.
Proof.
  intros HQ. unfold take_settings. apply wpc_bind, wpc_load. intros q w l _. destruct (sh_peer_extended_connect _); [by apply wpc_ret|].
  apply wpc_bind, wpc_frame; [by intros w'; split_and!|]. intros q1 w1 l1 _. cbn [snd]. destruct (hd_settings _); [|by apply wpc_ret].
  do 2 (apply wpc_bind, wpc_frame_store; [by intros s'; split_and!|]). apply wpc_frame_store; [by intros s'; split_and!|done].
Qed.

Lemma wpc_register h Q : (forall n, Q (gt (Some (n, false, false)) KNone) n) -> wp3 (gt h KNone) register_driver Q.
Proof.
  intros HQ q w l Hi. exists (gt (Some (woken_times (sh_waker (w_shared w)), false, false)) KNone). cbn. split; [|split].
  - pose proof (inv_register _ _ _ _ Hi) as Hi'. eapply inv_quiet; [exact Hi'|]. eapply same_core_quiet; [exact Hi'|done|by right].
  - split_and!; try done. by left.
  - eexists. split; [by intros ???|done].
Qed.

(** What a poll leaves: nothing known, and a pending one has found both conditions unmet. *)
Definition polled (g : ghost) (r : TaskPoll) : Prop := exists h, g = gt h KNone /\ match r with TPending n => h = Some (n, true, true) | _ => True end.

Lemma wpc_task_datagrams h : wp3 (gt h KNone) task_datagrams (fun g r => g = gt h KNone /\ match r with Some (TPending _) => False | _ => True end).
Proof.
  unfold task_datagrams. apply wpc_bind, wpc_frame.
  { intros w. cbn. destruct (w_drive w) as [d|], (sh_datagrams (w_shared w)) as [r|]; [|by split_and!..]. destruct (driver_poll _) as [d' o]. by split_and!. }
  intros q w l _. destruct (_.2) as [[|[e|e]| | |]|]; try (by apply wpc_ret).
  - apply wpc_bind, wpc_frame; [by intros w'; split_and!|]. intros _ _ _ _. apply wpc_bind, wpc_close_datagrams. by apply wpc_ret.
  - apply wpc_bind, wpc_frame; [by intros w'; split_and!|]. intros _ _ _ _. apply wpc_bind, wpc_task_fail; [done|done|]. by apply wpc_ret.
  - apply wpc_bind, wpc_frame; [by intros w'; split_and!|]. intros _ _ _ _. destruct e; apply wpc_bind; first [apply wpc_task_closed; by apply wpc_ret|apply wpc_task_fail; [done|done|by apply wpc_ret]].
Qed.

(** The end of [is_idle]: admitted exchanges are read last. *)
Lemma wpc_idle_active n cd k : k = KClosed \/ k = KUnres ->
  wp3 (gt (Some (n, true, cd)) k) (active ← sh_load sh_active; mret (active =? 0))
    (fun g (b : bool) => if b then exists h, g = gt h KDec else exists k, g = gt (Some (n, true, true)) k).
Proof.
  intros Hk. apply wpc_bind, wpc_look. intros q q' w l Hi Hq Eq. pose proof (inv_rest _ _ _ _ Hi) as (_ & _ & _ & Hok & Hkn & _).
  destruct (Z.eqb_spec (sh_active (w_shared w)) 0) as [E|E].
  - exists (gt (Some (n, true, cd)) KDec). split; [|apply wpc_ret; by eexists].
    assert (knows q' (w_shared w) KDec) as Hdec.
    { unfold knows in *. rewrite no_exchange_iff. assert (sh_draining (w_shared w) = true -> sh_closed (w_shared w) = true -> q' ≠ None) as Hv.
      { intros V1 V2. rewrite Eq. unfold note, vacant. rewrite V1, V2, E. by destruct q. }
      destruct Hk as [->| ->]; cbn in Hkn; tauto. }
    destruct Hi. quiet_tac.
  - exists (gt (Some (n, true, true)) KNone). split; [|apply wpc_ret; by eexists]. destruct Hi. quiet_tac.
    intros n' cv cd' [= <- <- <-]. exists true, cd. split_and!; auto. right. apply not_true_iff_false. rewrite drained_iff. tauto.
Qed.

Lemma wpc_is_idle n : wp3 (gt (Some (n, true, false)) KDraining) is_idle
  (fun g (b : bool) => if b then exists h, g = gt h KDec else exists k, g = gt (Some (n, true, true)) k).
Proof.
  unfold is_idle. apply wpc_bind, wpc_look. intros q q' w l Hi Hq _. pose proof (inv_rest _ _ _ _ Hi) as (_ & _ & _ & Hok & Hkn & _). cbn in Hkn.
  pose proof (i_drain _ _ _ Hi Hkn) as Hd. destruct (Z.eqb_spec (sh_reserved (w_shared w)) 0) as [E|E].
  - exists (gt (Some (n, true, false)) KUnres). split; [destruct Hi; quiet_tac; cbn; tauto|]. clear dependent w. clear dependent q. clear l.
    apply wpc_bind, wpc_load. intros q w l _. rewrite orb_true_r. apply wpc_idle_active. by right.
  - destruct (sh_closed (w_shared w)) eqn:Ec.
    + exists (gt (Some (n, true, false)) KClosed). split; [destruct Hi; quiet_tac; cbn; tauto|]. clear dependent w. clear dependent q. clear l.
      apply wpc_bind, wpc_load. intros q w l Hi. pose proof (inv_rest _ _ _ _ Hi) as (_ & _ & _ & _ & [_ Hkn] & _). unfold sh_closed in Hkn. rewrite Hkn. apply wpc_idle_active. by left.
    + exists (gt (Some (n, true, true)) KDraining). split.
      { destruct Hi. quiet_tac. intros n' cv cd' [= <- <- <-]. exists true, false. split_and!; auto. right. apply not_true_iff_false. rewrite drained_iff. unfold sh_closed. rewrite Ec. intros (_ & [?|?] & _); congruence. }
      clear dependent w. clear dependent q. clear q' l Hok. apply wpc_bind, wpc_look. intros q q' w l Hi Hq _. pose proof (inv_rest _ _ _ _ Hi) as (_ & _ & _ & Hok & Hkn & _).
      destruct (sem_is_closed (sh_permits (w_shared w))) eqn:Ec; cbn [orb].
      * exists (gt (Some (n, true, true)) KClosed). split; [destruct Hi; quiet_tac; cbn; tauto|]. apply wpc_idle_active. by left.
      * exists (gt (Some (n, true, true)) KDraining). split; [by eapply same_core_quiet|]. apply wpc_ret. by eexists.
Qed.

Lemma polled_forget n k : exists g', shift inv (gt (Some (n, true, true)) k) g' /\ polled g' (TPending n).
Proof. exists (gt (Some (n, true, true)) KNone). split; [by apply (shift_know k KNone (gt _ KNone))|]. by eexists. Qed.

Lemma wpc_task_drained n : wp3 (gt (Some (n, true, false)) KNone) (task_drained n) polled.
Proof.
  unfold task_drained. apply wpc_bind, wpc_frame; [by intros w; split_and!|]. intros q w l _. cbn [snd]. apply wpc_bind.
  match goal with |- wpc _ _ _ _ (if ?b then _ else _) _ => assert (forall Q : ghost -> () -> Prop, Q (gt (Some (n, true, false)) KNone) tt -> wp3 (gt (Some (n, true, false)) KNone) (if b then shutdown else mret tt) Q) as Hsd end.
  { intros Q HQ. destruct (hd_is_closing _); [by apply wpc_shutdown|by apply wpc_ret]. }
  apply Hsd. clear Hsd q w l. apply wpc_bind, wpc_look. intros q q' w l Hi Hq _. pose proof (inv_rest _ _ _ _ Hi) as (_ & _ & _ & Hok & Hkn & _).
  destruct (sh_draining (w_shared w)) eqn:Ed.
  - exists (gt (Some (n, true, false)) KDraining). split; [destruct Hi; quiet_tac|]. apply wpc_bind. eapply wpc_mono; [apply wpc_is_idle|].
    intros g [|] Hg; [destruct Hg as [h ->]|destruct Hg as [k ->]].
    + apply wpc_bind, wpc_task_close; [by right|]. apply wpc_ret. by eexists.
    + destruct (polled_forget n k) as (g' & Hs & Hp). by exists g'.
  - exists (gt (Some (n, true, true)) KNone). split.
    { destruct Hi. quiet_tac. intros n' cv cd' [= <- <- <-]. exists true, false. split_and!; auto. right. apply not_true_iff_false. rewrite drained_iff, Ed. by intros [? _]. }
    apply wpc_ret. by eexists.
Qed.

Lemma wpc_task_poll h : wp3 (gt h KNone) task_poll polled.
Proof.
  unfold task_poll. apply wpc_bind, wpc_frame; [by intros w; split_and!|]. intros q w l _. cbn [snd]. destruct (negb _); [apply wpc_ret; by eexists|]. clear q w l.
  apply wpc_bind, wpc_register. intros n. apply wpc_bind, wpc_look. intros q q' w l Hi Hq _. pose proof (inv_rest _ _ _ _ Hi) as (_ & _ & _ & Hok & Hkn & _).
  destruct (sh_violation (w_shared w)) as [v|] eqn:Ev.
  - exists (gt (Some (n, false, false)) KVio). split; [destruct Hi; quiet_tac; cbn; unfold vio; by rewrite Ev|]. apply wpc_bind, wpc_task_close; [by left|]. apply wpc_ret. by eexists.
  - exists (gt (Some (n, true, false)) KNone). split.
    { destruct Hi. quiet_tac. intros n' cv cd' [= <- <- <-]. exists false, false. split_and!; auto. right. by rewrite Ev. }
    clear q q' w l Hi Hq Hok Hkn Ev. apply wpc_bind, wpc_frame.
    { intros w. destruct (hd_poll_close (w_driver w)) as [d e]. by split_and!. }
    intros q w l _. destruct (_.2) as [e|]; [apply wpc_bind, wpc_task_closed; apply wpc_ret; by eexists|].
    apply wpc_bind, wpc_take_settings. apply wpc_bind. eapply wpc_mono; [apply wpc_task_datagrams|]. intros g [r|] [-> Hr]; [|apply wpc_task_drained].
    apply wpc_ret. destruct r; [by eexists|done|by eexists].
Qed.

Lemma wpc_task_drop h : wp3 (gt h KNone) task_drop (fun g _ => g = gt h KNone).
Proof.
  unfold task_drop. apply wpc_bind, wpc_frame; [by intros w; split_and!|]. intros q w l _. cbn [snd]. destruct (negb _); [by apply wpc_ret|]. clear q w l.
  apply wpc_bind, wpc_terminate; [done|]. apply wpc_bind, wpc_load. intros q w l Hi. destruct (sh_violation (w_shared w)) as [[c r]|] eqn:Ev; cbn [default from_option].
  - pose proof (i_vio _ _ _ Hi _ _ Ev) as ->. apply wpc_bind, wpc_quic_close; [done|]. apply wpc_bind, wpc_shared_error. intros e. by apply wpc_task_finish.
  - apply wpc_bind, wpc_quic_close; [done|]. apply wpc_bind, wpc_shared_error. intros e. by apply wpc_task_finish.
Qed.

Lemma wpc_connection_drop c Q : Q (gc 0 0 0 0) tt -> wp3 (gc 0 0 0 0) (connection_drop c) Q.
Proof.
  intros HQ. unfold connection_drop. destruct c; [by apply wpc_ret|]. apply wpc_bind, wpc_terminate; [done|].
  apply wpc_bind, wpc_load. intros q w l Hi. destruct (sh_violation (w_shared w)) as [[c r]|] eqn:Ev; cbn [default from_option].
  - pose proof (i_vio _ _ _ Hi _ _ Ev) as ->. by apply wpc_quic_close.
  - by apply wpc_quic_close.
Qed.

Lemma h3_methods_ok o p : h3_methods o p -> wp3 (own o) p (returns ISIZE_MAX own inv).
Proof.
  intros Hm. destruct Hm as [| | |a Ea|a Ea|a|a reason Ea|had|had|c|c|c]; cbn [own]; apply wpc_bind.
  - apply wpc_handle_clone. apply wpc_ret. by apply returns_counts; [..|repeat constructor].
  - apply wpc_handle_drop. apply wpc_ret. by apply returns_counts.
  - apply wpc_try_reserve; apply wpc_ret; by apply returns_counts; [..|repeat constructor].
  - apply wpc_admit; [done|..|intros e|]; apply wpc_ret; try (by apply returns_counts; [..|repeat constructor]).
    assert (a = MkActive false (a_permit a)) as -> by (destruct a; cbn in *; congruence). by apply returns_counts; [..|repeat constructor].
  - destruct a as [[|] p]; [|done]. apply wpc_release_permit; [lia..|]. apply wpc_ret. by apply returns_counts; [..|repeat constructor].
  - apply wpc_active_drop. apply wpc_ret. by apply returns_counts.
  - apply wpc_violate; [by destruct a as [[] []]|]. apply wpc_ret. apply returns_objs; [by destruct a as [[] []]|by destruct a as [[] []]| |cbn [map]; rewrite tot_cons; cbn [tot foldr]; cbn [own]; lia|].
    + intros f _. cbn [map]. rewrite tot_cons. cbn. lia.
    + intros o h Ho. apply list_elem_of_singleton in Ho as ->. done.
  - eapply wpc_mono; [apply wpc_task_poll|]. intros g r (h & -> & Hr). apply wpc_ret. apply returns_objs; [done|done| |done|].
    + intros f [->|[->|[->| ->]]]; done.
    + intros o h' Ho. apply list_elem_of_singleton in Ho as ->. cbn. destruct r; cbn; intros Eh; [done| |done]. subst h. cbn. congruence.
  - eapply wpc_mono; [apply wpc_task_drop|]. intros g ? ->. apply wpc_ret. apply returns_objs; [done|done| |done|].
    + intros f [->|[->|[->| ->]]]; done.
    + by intros o h' Ho%not_elem_of_nil.
  - apply wpc_shutdown; [done|]. apply wpc_ret. by apply (returns_counts 0 0 0 0); [..|repeat constructor].
  - unfold connection_poll. destruct c; [apply wpc_ret|apply wpc_frame; [by intros w; split_and!|intros q w l _]]; apply wpc_ret; by apply (returns_counts 0 0 0 0); [..|repeat constructor].
  - apply wpc_connection_drop. apply wpc_ret. by apply returns_counts.
Qed.

Lemma inv_env q (w w' : W) l : h3_env w w' -> inv q w l -> inv (quiet q w') w' l /\ guar q w w'.
Proof.
  intros [w0 d] [J1 J2 J3 J4 J5 J6 J7 J8 J9 J10 J11]. split; [|split_and!; try done; by left]. unfold quiet. cbn [w_shared set_driver]. split; try done.
  - eapply Forall_impl; [exact J9|]. cbn. intros g. apply knows_mono; try done. by destruct q.
  - intros a Ea. destruct q as [b|]; [by apply J11|]. cbn in *. destruct (vacant (w_shared w0)) eqn:Ev; [|done]. injection Ea as <-. unfold vacant in Ev.
    rewrite !andb_true_iff, Z.eqb_eq in Ev. destruct Ev as [[_ Ec] Ea]. split; [done|]. transitivity (tot g_permits l); [apply pot_vacant; [done|]; lia|lia].
Qed.

Abbreviation h3_ok := (pool_ok quiet ISIZE_MAX own inv guar).

Lemma h3_step_ok c c' : step h3_methods h3_env quiet ISIZE_MAX c c' -> h3_ok c -> h3_ok c' /\ guar (cf_seen c) (cf_world c) (cf_world c').
Proof.
  apply pool_ok_step; [intros q w; apply inv_perm|intros q w w' l; apply inv_env|apply h3_methods_ok|]. intros q w. split_and!; try done. by left.
Qed.

Lemma h3_steps_ok c c' : rtc (step h3_methods h3_env quiet ISIZE_MAX) c c' -> h3_ok c -> h3_ok c'.
Proof. induction 1 as [|x y z Hxy _ IH]; [done|]. intros Hx. apply IH. by eapply h3_step_ok. Qed.

Lemma h3_start_ok limit d dg : 0 <= limit -> lim = Z.min limit MAX_PERMITS -> h3_ok (h3_start limit d dg).
Proof.
  intros Hl El. exists [g_handle; g_task None; g_zero]. split; [|by repeat constructor].
  assert (0 <= MAX_PERMITS) by (by vm_compute). destruct (sem_new_law (Z.min limit MAX_PERMITS)) as [E1 E2]; [lia|].
  split; cbn -[sem_new]; try done.
  - rewrite E1. lia.
  - repeat (apply Forall_cons; split); [unfold g_ok; cbn; lia..|done].
  - repeat constructor.
  - repeat constructor; done.
Qed.

(** ** Counting objects *)

Definition count (p : H3Obj -> bool) (pool : list (thread W H3Obj)) : Z :=
  foldr (fun t n => (match t with Obj o => if p o then 1 else 0 | Call _ => 0 end) + n) 0 pool.

Lemma count_shares (f : ghost -> Z) (p : H3Obj -> bool) pool gs : (forall o, f (own o) = if p o then 1 else 0) -> Forall2 (thread_ok quiet ISIZE_MAX own inv guar) pool gs -> Forall (fun g => 0 <= f g) gs ->
  count p pool <= tot f gs /\ (Forall (fun t => idle t = true) pool -> count p pool = tot f gs).
Proof.
  intros Hf Ht. induction Ht as [|t g pool gs Hg _ IH]; [done|]. intros Hn. apply Forall_cons in Hn as [Hn1 Hn2]. destruct (IH Hn2) as [IH1 IH2].
  rewrite tot_cons. cbn [count foldr]. fold (count p pool). destruct t as [o|c]; cbn in Hg.
  - subst g. rewrite Hf. split; [lia|]. intros Hi. apply Forall_cons in Hi as [_ Hi]. rewrite (IH2 Hi). lia.
  - split; [lia|]. intros Hi. by apply Forall_cons in Hi as [? _].
Qed.

Definition is_handle (o : H3Obj) : bool := match o with OHandle => true | _ => false end.
Definition is_request (o : H3Obj) : bool := match o with OActive a => negb (a_admitted a) | _ => false end.
Definition is_exchange (o : H3Obj) : bool := match o with OActive a => a_admitted a | _ => false end.
Definition has_permit (o : H3Obj) : bool := match o with OActive a => a_admitted a && a_permit a | _ => false end.

Lemma h3_counts c : h3_ok c -> let s := w_shared (cf_world c) in let n p := count p (cf_pool c) in
  n is_handle <= sh_senders s /\ n is_request <= sh_reserved s /\ n is_exchange <= sh_active s /\ sem_available (sh_permits s) + n has_permit <= lim /\
  (Forall (fun t => idle t = true) (cf_pool c) -> n is_handle = sh_senders s /\ n is_request = sh_reserved s /\ n is_exchange = sh_active s /\
    sem_available (sh_permits s) + n has_permit = lim).
Proof.
  intros (gs & Hi & Ht) s n. destruct Hi as [J1 J2 J3 J4 J5 _ _ _ _ _ _]. fold s in J1, J2, J3, J4.
  assert (forall f : ghost -> Z, (forall g, g_ok g -> 0 <= f g) -> Forall (fun g => 0 <= f g) gs) as Hpos by (intros f Hf; eapply Forall_impl; [exact J5|apply Hf]).
  destruct (count_shares g_senders is_handle _ _ ltac:(by intros [|[[] []]| |]) Ht (Hpos g_senders ltac:(unfold g_ok; lia))) as [A1 B1].
  destruct (count_shares g_reserved is_request _ _ ltac:(by intros [|[[] []]| |]) Ht (Hpos g_reserved ltac:(unfold g_ok; lia))) as [A2 B2].
  destruct (count_shares g_active is_exchange _ _ ltac:(by intros [|[[] []]| |]) Ht (Hpos g_active ltac:(unfold g_ok; lia))) as [A3 B3].
  destruct (count_shares g_permits has_permit _ _ ltac:(by intros [|[[] []]| |]) Ht (Hpos g_permits ltac:(unfold g_ok; lia))) as [A4 B4].
  unfold n. rewrite J1, J2, J3, <-J4. split_and!; [lia..|]. intros Hid. rewrite (B1 Hid), (B2 Hid), (B3 Hid), (B4 Hid). done.
Qed.
End inv.

(** ** Theorems *)

Section theorems.
Context {Sm D S R : Type} `{SemaphoreLaws Sm} `{H3Driver D} `{H3Errors} `{HttpDatagram} `{SendDatagram S} `{RecvDatagram R}.
Abbreviation W := (H3World Sm D S R).
Implicit Types (w : W) (c : config W H3Obj (option Z)).

(** The runs of a connection. *)
Definition h3_step : config W H3Obj (option Z) -> config W H3Obj (option Z) -> Prop := step h3_methods h3_env quiet ISIZE_MAX.
Definition h3_reach (limit : Z) c : Prop := exists d dg, rtc h3_step (h3_start limit d dg) c.
Definition resting c : Prop := Forall (fun t => idle t = true) (cf_pool c).

Lemma h3_reach_ok limit c : 0 <= limit -> h3_reach limit c -> pool_ok quiet ISIZE_MAX own (inv (Z.min limit MAX_PERMITS)) guar c.
Proof. intros Hl (d & dg & Hr). eapply h3_steps_ok; [exact Hr|]. by apply h3_start_ok. Qed.

(** C1. However the calls on an HTTP/3 connection interleave, its counters say who is
    there: at least the handles, the requests that wait for admission and the admitted
    exchanges, and exactly them whenever no call is running; no counter wraps around,
    and never more than the configured number of exchanges hold an admission permit. *)
Theorem h3_accounting limit c : 0 <= limit -> h3_reach limit c -> let s := w_shared (cf_world c) in let n p := count p (cf_pool c) in
  n is_handle <= sh_senders s /\ n is_request <= sh_reserved s /\ n is_exchange <= sh_active s /\ n has_permit <= limit /\
  sh_senders s < USIZE_MAX /\ sh_reserved s < USIZE_MAX /\ sh_active s < USIZE_MAX /\
  (resting c -> n is_handle = sh_senders s /\ n is_request = sh_reserved s /\ n is_exchange = sh_active s /\
    sem_available (sh_permits s) + n has_permit = Z.min limit MAX_PERMITS).
Proof.
  intros Hl Hr s n. pose proof (h3_reach_ok _ _ Hl Hr) as Hok. destruct (h3_counts _ _ Hok) as (A1 & A2 & A3 & A4 & A5).
  destruct Hok as (gs & Hi & _). apply inv_bounds in Hi as (B1 & B2 & B3 & _). pose proof (sem_available_law (sh_permits s)). subst s n. cbn in *. split_and!; try done; lia.
Qed.

(** What was noted is the number of permits at a moment of the run. *)
Lemma seen_moment c c' a : rtc h3_step c c' -> cf_seen c = None -> cf_seen c' = Some a ->
  exists c0, rtc h3_step c c0 /\ rtc h3_step c0 c' /\ vacant (w_shared (cf_world c0)) = true /\ a = sem_available (sh_permits (w_shared (cf_world c0))).
Proof.
  intros Hr Hn. revert c' Hr a. refine (rtc_ind_r _ c _ _); [congruence|]. intros x y Hx Hs IH a Ea.
  destruct (cf_seen x) as [b|] eqn:Ex.
  - destruct (IH b eq_refl) as (c0 & R1 & R2 & R3 & ->). exists c0. split_and!; [done|by eapply rtc_r|done|].
    destruct Hs as [w l1 o l2 q p Hm|w l1 T f k l2 q|w l1 os l2 q Hb|w w' l q He]; cbn in Ex, Ea; subst q; cbn in Ea; congruence.
  - assert (quiet None (cf_world y) = Some a) as Hq by (destruct Hs as [w l1 o l2 q p Hm|w l1 T f k l2 q|w l1 os l2 q Hb|w w' l q He]; cbn in Ex, Ea |- *; subst q; [congruence|done|congruence|done]).
    exists y. unfold quiet, note in Hq. destruct (vacant _) eqn:Ev; [|done]. injection Hq as <-. split_and!; [by eapply rtc_r|done|done|done].
Qed.

(** Counts of zero mean that nobody is there. *)
Lemma nobody_left (pool : list (thread W H3Obj)) : count is_handle pool <= 0 -> count is_request pool <= 0 -> count is_exchange pool <= 0 ->
  Forall (fun t => match t with Obj o => is_handle o || is_request o || is_exchange o = false | Call _ => True end) pool.
Proof.
  assert (forall p (pool : list (thread W H3Obj)), 0 <= count p pool) as Hp.
  { intros p l. induction l as [|t l IH]; [done|]. cbn [count foldr]. fold (count p l). destruct t as [o|]; [destruct (p o)|]; lia. }
  induction pool as [|t l IH]; intros A1 A2 A3; [done|]. cbn [count foldr] in *. fold (count is_handle l) (count is_request l) (count is_exchange l) in *.
  pose proof (Hp is_handle l). pose proof (Hp is_request l). pose proof (Hp is_exchange l). constructor.
  - destruct t as [o|]; [|done]. destruct (is_handle o), (is_request o), (is_exchange o); try done; lia.
  - apply IH; destruct t as [o|]; try lia; destruct (is_handle o), (is_request o), (is_exchange o); lia.
Qed.

(** C2. A graceful close of an HTTP/3 connection comes when no handle, no created request
    and no exchange is left at all; or when admission has been shut and, since then, the
    connection has been draining with no exchange counted at a moment of the run, and
    then there are at most as many exchanges left as requests had taken a permit at that
    moment without being counted yet. This holds although the task reads the counters
    one after the other while requests are created, admitted and dropped. *)
Theorem h3_drain_waits limit c c' : 0 <= limit -> h3_reach limit c -> h3_step c c' ->
  w_closes (cf_world c') = w_closes (cf_world c) ++ [(H3_NO_ERROR, EmptyString)] ->
  Forall (fun t => match t with Obj o => is_handle o || is_request o || is_exchange o = false | Call _ => True end) (cf_pool c) \/
  exists c0, h3_reach limit c0 /\ rtc h3_step c0 c /\ let s := w_shared (cf_world c0) in
    sh_draining s = true /\ sem_is_closed (sh_permits s) = true /\ sh_active s = 0 /\
    count is_exchange (cf_pool c) <= sh_active (w_shared (cf_world c)) <= Z.min limit MAX_PERMITS - sem_available (sh_permits s).
Proof.
  intros Hl Hr Hs Hc. pose proof (h3_reach_ok _ _ Hl Hr) as Hok. destruct (h3_step_ok _ _ _ Hs Hok) as [_ (_ & _ & _ & _ & [E|(x & E & Hx)])].
  { rewrite E in Hc. apply (f_equal length) in Hc. rewrite length_app in Hc. cbn in Hc. lia. }
  rewrite E in Hc. apply app_inj_2 in Hc as [_ Hc]; [|done]. injection Hc as ->. destruct (h3_counts _ _ Hok) as (A1 & A2 & A3 & _). destruct (Hx eq_refl) as [Hq|Hn]; [right|left].
  - destruct (cf_seen c) as [a|] eqn:Ea; [|done]. destruct Hr as (d & dg & Hr). destruct (seen_moment _ _ _ Hr eq_refl Ea) as (c0 & R1 & R2 & Hv & ->).
    exists c0. split; [by exists d, dg|]. split; [done|]. unfold vacant in Hv. rewrite !andb_true_iff, Z.eqb_eq in Hv. destruct Hv as [[V1 V2] V3]. split_and!; try done.
    destruct Hok as (gs & Hi & _). rewrite Ea in Hi. destruct (i_seen _ _ _ _ Hi _ eq_refl) as [_ Hp]. rewrite (i_active _ _ _ _ Hi). etrans; [|exact Hp].
    clear. induction gs as [|g gs IH]; [done|]. rewrite !tot_cons. unfold pot at 1. lia.
  - apply no_exchange_iff in Hn as (N1 & N2 & N3). rewrite N1 in A1. rewrite N2 in A2. rewrite N3 in A3. clear - A1 A2 A3. by apply nobody_left.
Qed.

(** C3. No wake-up of the connection's task is lost: when no call is running and the
    task waits although a violation has been published, or although the connection is
    draining with nobody left to wait for, it has been woken since it registered. *)
Theorem h3_task_woken limit c n : 0 <= limit -> h3_reach limit c -> resting c -> Obj (OTask (Some n)) ∈ cf_pool c ->
  let s := w_shared (cf_world c) in
  sh_violation s ≠ None \/
    (sh_draining s = true /\ (sem_is_closed (sh_permits s) = true \/ count is_request (cf_pool c) = 0) /\ count is_exchange (cf_pool c) = 0) ->
  (n < woken_times (sh_waker s))%nat.
Proof.
  intros Hl Hr Hrest Hin s Hready. pose proof (h3_reach_ok _ _ Hl Hr) as Hok. destruct (h3_counts _ _ Hok) as (_ & _ & _ & _ & Hc).
  destruct (Hc Hrest) as (_ & C2 & C3 & _). destruct (pool_ok_idle _ _ _ _ _ _ Hok Hrest) as (os & Ep & Hi).
  rewrite Ep in Hin. apply list_elem_of_fmap in Hin as (o & [= <-] & Ho).
  assert (g_task (Some n) ∈ map own os) as Hg by (apply list_elem_of_fmap; by exists (OTask (Some n))).
  destruct Hi as [_ _ _ _ _ _ _ _ _ J10 _]. rewrite Forall_forall in J10. specialize (J10 _ Hg _ eq_refl) as (_ & Hv & Hd).
  assert (forall f : ghost -> bool, (forall o, f (own o) = false) -> ~ Exists (fun g => f g = true) (map own os)) as Hno.
  { intros f Hf He. apply Exists_exists in He as (g & Hg' & Ef). apply list_elem_of_fmap in Hg' as (o & -> & _). by rewrite Hf in Ef. }
  destruct Hready as [Hvio|(R1 & R2 & R3)].
  - destruct (Hv eq_refl) as [E|[E|?]]; [|exfalso; eapply Hno; [|exact E]; by intros [|[[] []]| |]|done]. unfold vio in E. fold s in E. by destruct (sh_violation s).
  - destruct (Hd eq_refl) as [E|[E|?]]; [|exfalso; eapply Hno; [|exact E]; by intros [|[[] []]| |]|done]. exfalso. apply not_true_iff_false in E. apply E, drained_iff.
    fold s in C2, C3 |- *. rewrite <-C2, <-C3. done.
Qed.

(** ** A poll without interruption *)

(** What shutting down does to the shared state. *)
Definition shut (s s' : Shared Sm) : Prop :=
  sh_draining s' = true /\ sem_is_closed (sh_permits s') = true /\ (sem_is_closed (sh_permits s) = true \/ sh_settings_ready s' = true) /\
  sh_error s' = sh_error s /\ sh_violation s' = sh_violation s /\ sh_reserved s' = sh_reserved s /\ sh_active s' = sh_active s.

Lemma run_drain w : exists k, run drain w = (set_shared (set_waker k (set_draining true (w_shared w))) w, tt).
Proof. unfold drain. rewrite run_bind. cbn [run sh_atom atom]. destruct (sh_draining (w_shared w)); [exists (sh_waker (w_shared w))|eexists]; done. Qed.

Lemma run_shutdown w : exists s', run shutdown w = (set_shared s' w, tt) /\ shut (w_shared w) s'.
Proof.
  unfold shutdown. rewrite run_bind. cbn [run sh_load load atom]. destruct (sem_is_closed (sh_permits (w_shared w))) eqn:Ec.
  - destruct (run_drain w) as [k ->]. eexists. split; [done|]. unfold shut. cbn. rewrite Ec. split_and!; auto.
  - rewrite run_bind. cbn [run sh_store store atom]. rewrite run_bind. match goal with |- context [run drain ?w] => destruct (run_drain w) as [k ->] end.
    eexists. cbn. split; [done|]. destruct (sem_close_law (sh_permits (w_shared w))) as [E _]. unfold shut. cbn. rewrite E. split_and!; auto.
Qed.

(** The connection is over: what [terminate] leaves, the error being [e] unless there was one. *)
Definition over (s s' : Shared Sm) (e : Error) : Prop :=
  sh_draining s' = true /\ sem_is_closed (sh_permits s') = true /\ (sem_is_closed (sh_permits s) = true \/ sh_settings_ready s' = true) /\
  sh_error s' = Some (default e (sh_error s)) /\ sh_violation s' = sh_violation s.

Lemma run_terminate e w : exists s', run (terminate e) w = (set_shared s' w, tt) /\ over (w_shared w) s' e.
Proof.
  unfold terminate. rewrite run_bind. cbn [run sh_store store atom]. rewrite run_bind. match goal with |- context [run shutdown ?w] => destruct (run_shutdown w) as (s' & -> & Hs) end.
  cbn. eexists. split; [done|]. destruct Hs as (E1 & E2 & E3 & E4 & E5 & _). cbn in *. unfold over. cbn. split_and!; done.
Qed.

Ltac run_step := rewrite run_bind; cbn [run sh_load sh_store sh_atom load store atom quic_close task_finish shared_error mret prog_ret].

(** A task that ends: it reports once, the connection is over. *)
Definition ended (w : W) (r : result Error unit) (e : Error) (closes : list (Code * string)) (w' : W) : Prop :=
  w_done w' = Some r /\ w_done_tx w' = false /\ w_closes w' = w_closes w ++ closes /\ over (w_shared w) (w_shared w') e.

Lemma run_task_fail code e reason w : w_done_tx w = true -> exists w', run (task_fail code e reason) w = (w', tt) /\
  ended w (Err (from_shared (default e (sh_error (w_shared w))))) e [(code, reason)] w'.
Proof.
  intros Hd. unfold task_fail. run_step. destruct (run_terminate e w) as (s' & -> & Ho). do 2 run_step. cbn. rewrite Hd. eexists. split; [done|].
  pose proof Ho as (_ & _ & _ & E & _). split_and!; try done; [cbn; by rewrite E|apply Ho..].
Qed.

Lemma run_task_close w : w_done_tx w = true -> exists w', run task_close w = (w', tt) /\
  match sh_violation (w_shared w) with
  | Some (code, reason) => ended w (Err (from_shared (default (new_h3 (CauseText reason)) (sh_error (w_shared w))))) (new_h3 (CauseText reason)) [(code, reason)] w'
  | None => ended w (Ok tt) new_closed [(H3_NO_ERROR, EmptyString)] w'
  end.
Proof.
  intros Hd. unfold task_close. run_step. destruct (sh_violation (w_shared w)) as [[code reason]|]; [by apply run_task_fail|].
  do 2 run_step. match goal with |- context [run (terminate _) ?w] => destruct (run_terminate new_closed w) as (s' & -> & Ho) end. cbn. rewrite Hd. eexists. split; [done|].
  cbn in Ho. split_and!; try done; apply Ho.
Qed.

Lemma run_task_closed e w : w_done_tx w = true -> exists w', run (task_closed e) w = (w', tt) /\
  ended w (if closed_normally e then Ok tt else Err (from_shared (default (new_h3 (CauseH3Conn e)) (sh_error (w_shared w))))) (new_h3 (CauseH3Conn e)) [] w'.
Proof.
  intros Hd. unfold task_closed. run_step. destruct (run_terminate (new_h3 (CauseH3Conn e)) w) as (s' & -> & Ho). pose proof Ho as (_ & _ & _ & E & _).
  destruct (closed_normally e); repeat run_step; cbn; rewrite Hd; eexists; (split; [done|]); split_and!; cbn; rewrite ?E, ?app_nil_r; try done; apply Ho.
Qed.

(** Taking the SETTINGS changes nothing the drain depends on. *)
Lemma run_take_settings w : exists s', run take_settings w = (set_shared s' w, tt) /\ same_core (w_shared w) s' /\ sh_error s' = sh_error (w_shared w).
Proof.
  unfold take_settings. run_step. destruct (sh_peer_extended_connect (w_shared w)); [exists (w_shared w); by destruct w|].
  run_step. destruct (hd_settings (w_driver w)) as [st|]; [|exists (w_shared w); by destruct w]. do 2 run_step. eexists. split; [done|]. by split_and!.
Qed.

Lemma run_is_idle w : let s := w_shared w in run is_idle w = (w, (sem_is_closed (sh_permits s) || (sh_reserved s =? 0)) && (sh_active s =? 0)).
Proof. cbn. by destruct (_ || _). Qed.

Lemma run_task_drained n w : w_done_tx w = true -> sh_violation (w_shared w) = None ->
  (drained (w_shared w) = true -> exists w', run (task_drained n) w = (w', TReady) /\ w_done w' = Some (Ok tt) /\ w_done_tx w' = false /\
     w_closes w' = w_closes w ++ [(H3_NO_ERROR, EmptyString)] /\ sh_error (w_shared w') = Some (default new_closed (sh_error (w_shared w)))) /\
  (sh_draining (w_shared w) = false -> hd_is_closing (w_driver w) = false -> run (task_drained n) w = (w, TPending n)).
Proof.
  intros Hd Hv. unfold task_drained. split.
  - intros Hdr. apply drained_iff in Hdr as (D1 & D2 & D3). unfold sh_closed in D2. run_step. rewrite run_bind.
    assert (exists s', run (if hd_is_closing (w_driver w) then shutdown else mret tt) w = (set_shared s' w, tt) /\ sh_draining s' = true /\
      (sem_is_closed (sh_permits s') = true \/ sh_reserved s' = 0) /\ sh_active s' = 0 /\ sh_violation s' = None /\ sh_error s' = sh_error (w_shared w)) as (s' & -> & S1 & S2 & S3 & S4 & S5).
    { destruct (hd_is_closing _); [|exists (w_shared w); by destruct w]. destruct (run_shutdown w) as (s' & -> & E1 & E2 & E3 & E4 & E5 & E6 & E7). exists s'.
      split_and!; [done|done|by left|congruence..]. }
    unfold is_draining. run_step. cbn [w_shared set_shared]. rewrite S1, run_bind, run_is_idle. cbn [w_shared set_shared].
    assert (sem_is_closed (sh_permits s') || (sh_reserved s' =? 0) = true) as -> by (apply orb_true_iff; rewrite Z.eqb_eq; tauto). rewrite S3. cbn [andb Z.eqb].
    rewrite run_bind. destruct (run_task_close (set_shared s' w) Hd) as (w' & -> & Hw'). cbn in Hw'. rewrite S4 in Hw'. destruct Hw' as (E1 & E2 & E3 & _ & _ & _ & E4 & _).
    exists w'. cbn in *. rewrite S5 in E4. done.
  - intros D1 D2. run_step. rewrite D2. run_step. unfold is_draining. run_step. by rewrite D1.
Qed.

(** A poll of the connection's task. A published violation closes the connection
    with its code, and the report is the first error that was published; a connection
    that the peer or the network closed is reported as the error it is, or as a success
    when it was closed normally; a drained connection is closed with H3_NO_ERROR and
    reported as a success; after each of these admission is shut and an error is
    published for everybody still waiting. Otherwise the task has registered to be
    woken. *)
Theorem h3_task_polled w : w_done_tx w = true -> let s := w_shared w in let '(w', r) := run task_poll w in
  match sh_violation s with
  | Some (code, reason) => r = TReady /\
      ended w (Err (from_shared (default (new_h3 (CauseText reason)) (sh_error s)))) (new_h3 (CauseText reason)) [(code, reason)] w'
  | None =>
      match (hd_poll_close (w_driver w)).2 with
      | Some e => r = TReady /\
          ended w (if closed_normally e then Ok tt else Err (from_shared (default (new_h3 (CauseH3Conn e)) (sh_error s)))) (new_h3 (CauseH3Conn e)) [] w'
      | None => w_drive w = None ->
          (drained s = true -> r = TReady /\ w_done w' = Some (Ok tt) /\ w_done_tx w' = false /\
             w_closes w' = w_closes w ++ [(H3_NO_ERROR, EmptyString)] /\ sh_error (w_shared w') = Some (default new_closed (sh_error s))) /\
          (sh_draining s = false -> hd_is_closing (hd_poll_close (w_driver w)).1 = false ->
             r = TPending (woken_times (sh_waker s)) /\ registered (sh_waker (w_shared w')) = true /\ w_done_tx w' = true)
      end
  end.
Proof.
  intros Hd s. unfold task_poll. run_step. rewrite Hd. cbn [negb]. unfold register_driver. run_step. run_step. subst s. cbn [w_shared set_shared sh_violation set_waker].
  destruct (sh_violation (w_shared w)) as [[code reason]|] eqn:Ev.
  { rewrite run_bind. match goal with |- context [run task_close ?w] => destruct (run_task_close w Hd) as (w' & -> & Hw') end. cbn in Hw'. rewrite Ev in Hw'. cbn. by split. }
  run_step. cbn [w_driver set_shared]. destruct (hd_poll_close (w_driver w)) as [d' [e|]]; cbn [fst snd].
  { rewrite run_bind. match goal with |- context [run (task_closed e) ?w] => destruct (run_task_closed e w Hd) as (w' & -> & Hw') end. cbn. by split. }
  rewrite run_bind. match goal with |- context [run take_settings ?w] => destruct (run_take_settings w) as (s' & -> & Hc & He) end. cbn in Hc, He.
  destruct (w_drive w) as [dr|] eqn:Edr; [by destruct (run _ _)|].
  rewrite run_bind. unfold task_datagrams, drive_poll. run_step. cbn [w_drive set_shared set_driver]. rewrite Edr. cbn [run mret prog_ret].
  match goal with |- context [run (task_drained ?n) ?w] => destruct (run_task_drained n w Hd) as [T1 T2] end; [cbn; destruct Hc as (_ & _ & E & _); rewrite E; exact Ev|]. cbn [w_shared w_driver set_shared set_driver w_closes] in T1, T2.
  destruct (run (task_drained _) _) as [w' r] eqn:Er. intros _. split.
  - intros Hdr. destruct T1 as (w1 & [= <- <-] & R1 & R2 & R3 & R4).
    + unfold drained, sh_closed in *. destruct Hc as (-> & -> & _ & -> & -> & _). done.
    + rewrite He in R4. done.
  - intros D1 D2. destruct Hc as (C1 & _ & _ & _ & _ & _ & C7). specialize (T2 (eq_trans C1 D1) D2). injection T2 as -> ->. cbn. rewrite C7. done.
Qed.
End theorems.

(** ** A concrete connection *)

Module ConcreteH3.
Import ConcreteDatagram.

(** A semaphore as the permits it has and whether it is closed. *)
#[export] Instance pair_sem : SemaphoreOps (nat * bool) := {
  sem_new n := (Z.to_nat n, false);
  sem_is_closed m := m.2;
  sem_close m := (m.1, true);
  sem_add_permits n m := ((m.1 + Z.to_nat n)%nat, m.2);
  sem_acquire m := if m.2 then (m, AcqClosed) else match m.1 with O => (m, AcqPending) | S n => ((n, false), AcqOk) end;
}.

#[export] Instance pair_sem_laws : SemaphoreLaws (nat * bool).
Proof.
  refine {| sem_available m := Z.of_nat m.1 |}.
  - intros m. lia.
  - intros n Hn. cbn. split; [lia|done].
  - done.
  - intros n m Hn. cbn. split; [done|lia].
  - intros [n []] m' r; cbn; [by intros [= <- <-]|]. destruct n as [|n]; intros [= <- <-]; cbn; [done|]. split_and!; [done|done|lia|lia].
Defined.

(** A protocol driver as what it is going to say. *)
Record driver : Type := Dr { dr_closed : option H3ConnError; dr_settings : option H3Settings; dr_closing : bool }.
#[export] Instance driver_ops : H3Driver driver := { hd_poll_close d := (d, dr_closed d); hd_settings := dr_settings; hd_is_closing := dr_closing }.
#[export] Instance h3_errors : H3Errors := fun e => match e with H3Remote (QApplicationClose c) => c =? H3_NO_ERROR | _ => false end.

Abbreviation Wc := (H3World (nat * bool) driver (list bytes) (list bytes)).
Definition open_driver : driver := Dr None None false.

(** A connection with two permits; a request is made and admitted. *)
Definition started : config Wc H3Obj (option Z) := h3_start 2 open_driver None.
Definition p_send : prog Wc (list H3Obj) := r ← try_reserve; mret (OHandle :: match r with Some a => [OActive a] | None => [] end).
Definition p_admit (a : Active) : prog Wc (list H3Obj) := o ← active_admit a; mret (match o with Ready a' => [OActive a'] | Pending => [OActive a] | _ => [] end).
Definition p_poll : prog Wc (list H3Obj) := r ← task_poll; mret [OTask (match r with TPending n => Some n | _ => None end)].
Definition p_drop : prog Wc (list H3Obj) := handle_drop;; mret [].

Definition w1 : Wc := (run p_send (cf_world started)).1.
Definition w2 : Wc := (run (p_admit (MkActive false false)) w1).1.

Lemma reach_admitted : exists q, h3_reach 2 (MkConfig w2 [Obj OHandle; Obj (OActive (MkActive true true)); Obj (OTask None); Obj (OConn false)] q).
Proof.
  destruct (call_steps h3_methods h3_env quiet ISIZE_MAX OHandle p_send (cf_world started) [] [Obj (OTask None); Obj (OConn false)] None m_try_send) as [q1 H1]; [done|].
  destruct (call_steps h3_methods h3_env quiet ISIZE_MAX (OActive (MkActive false false)) (p_admit (MkActive false false)) w1 [Obj OHandle] [Obj (OTask None); Obj (OConn false)] q1) as [q2 H2];
    [by apply m_admit|done|].
  exists q2, open_driver, None. etrans; [exact H1|exact H2].
Defined.

Lemma h3_accounting_witness : exists c, h3_reach 2 c /\ resting c /\ cf_world c = w2 /\ count is_exchange (cf_pool c) = sh_active (w_shared (cf_world c)) /\ sh_active (w_shared w2) = 1.
Proof.
  destruct reach_admitted as [q Hr]. eexists. split; [exact Hr|]. split; [by repeat constructor|]. split; [done|]. split; [|done].
  destruct (h3_accounting 2 _ ltac:(lia) Hr) as (_ & _ & _ & _ & _ & _ & _ & Hres). apply Hres. by repeat constructor.
Defined.

(** The only handle is dropped, and the task closes the connection in its 14th step. *)
Definition w3 : Wc := (run p_drop (cf_world started)).1.

Lemma h3_drain_waits_witness : exists c c', h3_reach 2 c /\ h3_step c c' /\ w_closes (cf_world c') = [(H3_NO_ERROR, EmptyString)] /\
  (Forall (fun t => match t with Obj o => is_handle o || is_request o || is_exchange o = false | Call _ => True end) (cf_pool c) \/
   exists c0, h3_reach 2 c0 /\ rtc h3_step c0 c /\ count is_exchange (cf_pool c) <= 2 - sem_available (sh_permits (w_shared (cf_world c0)))).
Proof.
  destruct (call_steps h3_methods h3_env quiet ISIZE_MAX OHandle p_drop (cf_world started) [] [Obj (OTask None); Obj (OConn false)] None m_handle_drop) as [q1 H1]; [done|].
  destruct (exec_steps h3_methods h3_env quiet ISIZE_MAX 13 p_poll w3 [] [Obj (OConn false)] q1) as [q2 H2].
  destruct (exec_next h3_methods h3_env quiet ISIZE_MAX 13 p_poll w3 [] [Obj (OConn false)] q2) as [q3 H3]; [by vm_compute|].
  assert (h3_reach 2 (MkConfig (exec 13 p_poll w3).1 ([] ++ Call (exec 13 p_poll w3).2 :: [Obj (OConn false)]) q2)) as Hr.
  { exists open_driver, None. etrans; [exact H1|]. eapply rtc_l; [apply (st_call _ _ _ _ _ [] (OTask None) [Obj (OConn false)] _ p_poll), m_poll|exact H2]. }
  eexists _, _. split; [exact Hr|]. split; [exact H3|]. split; [by vm_compute|].
  destruct (h3_drain_waits 2 _ _ ltac:(lia) Hr H3 ltac:(by vm_compute)) as [Hn|(c0 & R1 & R2 & _ & _ & _ & Hb)]; [by left|right]. exists c0. split_and!; [done..|]. change (Z.min 2 MAX_PERMITS) with 2 in Hb. lia.
Defined.

(** The bound is reached: a request takes its permit and is held up; the connection is
    shut down; the task reads that no exchange is there; the request is counted, and
    its exchange starts; the task closes the connection under it. *)
Definition p_shut : prog Wc (list H3Obj) := graceful_shutdown;; mret [OConn false].
Definition r_admit : prog Wc (list H3Obj) := p_admit (MkActive false false).

Lemma race_run a b c d : exec 1 r_admit w1 = a -> run p_shut a.1 = (b, [OConn false]) -> exec 13 p_poll b = c -> run a.2 c.1 = (d, [OActive (MkActive true true)]) ->
  exists q, h3_reach 2 (MkConfig d ([Obj OHandle; Obj (OActive (MkActive true true))] ++ Call c.2 :: [Obj (OConn false)]) q).
Proof.
  intros Ea Eb Ec Ed.
  destruct (call_steps h3_methods h3_env quiet ISIZE_MAX OHandle p_send (cf_world started) [] [Obj (OTask None); Obj (OConn false)] None m_try_send) as [q1 H1]; [done|].
  destruct (exec_steps h3_methods h3_env quiet ISIZE_MAX 1 r_admit w1 [Obj OHandle] [Obj (OTask None); Obj (OConn false)] q1) as [q2 H2]. rewrite Ea in H2. clear Ea.
  destruct (call_steps h3_methods h3_env quiet ISIZE_MAX (OConn false) p_shut a.1 [Obj OHandle; Call a.2; Obj (OTask None)] [] q2 (m_shutdown false)) as [q3 H3]; [by rewrite Eb|]. rewrite Eb in H3. clear Eb.
  destruct (exec_steps h3_methods h3_env quiet ISIZE_MAX 13 p_poll b [Obj OHandle; Call a.2] [Obj (OConn false)] q3) as [q4 H4]. rewrite Ec in H4. clear Ec.
  destruct (run_steps h3_methods h3_env quiet ISIZE_MAX a.2 c.1 [Obj OHandle] [Call c.2; Obj (OConn false)] q4) as [q5 H5]. rewrite Ed in H5. clear Ed.
  exists q5, open_driver, None. etrans; [exact H1|]. eapply rtc_l; [apply (st_call _ _ _ _ _ [Obj OHandle] (OActive (MkActive false false)) [Obj (OTask None); Obj (OConn false)] _ r_admit); by apply m_admit|].
  etrans; [exact H2|]. etrans; [exact H3|].
  eapply rtc_l; [apply (st_call _ _ _ _ _ [Obj OHandle; Call a.2] (OTask None) [Obj (OConn false)] _ p_poll), m_poll|]. etrans; [exact H4|]. etrans; [exact H5|].
  apply rtc_once. by apply (st_return _ _ _ _ d [Obj OHandle] [OActive (MkActive true true)] [Call c.2; Obj (OConn false)] q5).
Qed.

Lemma race_closes : let a := exec 1 r_admit w1 in let b := run p_shut a.1 in let c := exec 13 p_poll b.1 in let d := run a.2 c.1 in
  b.2 = [OConn false] /\ d.2 = [OActive (MkActive true true)] /\ match c.2 with Ret _ => False | Do f _ => w_closes d.1 = [] /\ w_closes (f d.1).1 = [(H3_NO_ERROR, EmptyString)] end.
Proof. by vm_compute. Qed.

Lemma h3_drain_race : exists c c', h3_reach 2 c /\ h3_step c c' /\ w_closes (cf_world c) = [] /\ w_closes (cf_world c') = [(H3_NO_ERROR, EmptyString)] /\
  Obj (OActive (MkActive true true)) ∈ cf_pool c.
Proof.
  pose proof race_closes as Hc. cbv zeta in Hc. destruct (exec 1 r_admit w1) as [a1 a2] eqn:Ea. destruct (run p_shut (a1, a2).1) as [b os] eqn:Eb. destruct (exec 13 p_poll (b, os).1) as [c1 c2] eqn:Ec.
  destruct (run (a1, a2).2 (c1, c2).1) as [d os'] eqn:Ed. destruct Hc as (Eo & Eo' & Hc). cbn [snd] in Eo, Eo'. subst os os'.
  destruct (race_run _ _ _ _ Ea Eb Ec Ed) as [q Hr]. cbn [fst snd] in Hc, Hr. destruct c2 as [|T f k]; [done|]. destruct Hc as [E0 E1].
  eexists _, _. split; [exact Hr|]. split; [apply st_atom|]. split_and!; [done|done|right; left].
Qed.

(** The task polls and waits; then the only handle is dropped. *)
Definition w4 : Wc := (run p_poll (cf_world started)).1.
Definition w5 : Wc := (run p_drop w4).1.

Lemma h3_task_woken_witness : exists c, h3_reach 2 c /\ cf_pool c = [Obj (OTask (Some 0%nat)); Obj (OConn false)] /\ (0 < woken_times (sh_waker (w_shared (cf_world c))))%nat.
Proof.
  destruct (call_steps h3_methods h3_env quiet ISIZE_MAX (OTask None) p_poll (cf_world started) [Obj OHandle] [Obj (OConn false)] None (m_poll None)) as [q1 H1]; [done|].
  destruct (call_steps h3_methods h3_env quiet ISIZE_MAX OHandle p_drop w4 [] [Obj (OTask (Some 0%nat)); Obj (OConn false)] q1 m_handle_drop) as [q2 H2]; [done|].
  assert (h3_reach 2 (MkConfig w5 [Obj (OTask (Some 0%nat)); Obj (OConn false)] q2)) as Hr by (exists open_driver, None; etrans; [exact H1|exact H2]).
  eexists. split; [exact Hr|]. split; [done|]. apply (h3_task_woken 2 _ 0%nat ltac:(lia) Hr); [by repeat constructor|by left|]. right. split; [done|]. split; [by right|done].
Defined.

Lemma h3_task_polled_witness : exists w', run task_poll w5 = (w', TReady) /\ w_done w' = Some (Ok tt) /\ w_closes w' = [(H3_NO_ERROR, EmptyString)].
Proof.
  pose proof (h3_task_polled w5 eq_refl) as Hp. destruct (run task_poll w5) as [w' r]. destruct (Hp eq_refl) as [Hd _].
  destruct (Hd eq_refl) as (-> & E1 & _ & E2 & _). exists w'. done.
Defined.
End ConcreteH3.
