(* ===== verification/Http3Exchange.v ===== *)
(** * Http3Exchange

    A request on an HTTP/3 stream ([proto/http3/client.rs]): the checks before it is
    admitted, the guards of the two halves of its stream, the pipe of its body and the
    reading of the response head.

    The halves of an [http3] request stream and the user's body are parameters. What the
    guards need of HTTP Datagrams is the interface [RequestDatagrams], which the
    registry of [Datagram] implements. *)

From stdpp Require Import prelude strings.
From Stdlib Require Import ZArith Lia.
From S2P Require Import Prelude Bytes Crates Errors Headers Message BufList Dispatcher HttpTunnel Proxy Wire Datagram Http3Shared.
Local Open Scope Z_scope.

(** ** Interfaces *)

(** [Arc<RequestState>] as the guards use it. *)
Class RequestDatagrams (Dg : Type) : Type := {
  dg_close_send : Dg -> Dg;
  dg_close_recv : Dg -> Dg;
  dg_invalid : Dg -> bool;
  dg_invalid_code : Dg -> Code;
}.

(** The registry with the key of the request. *)
#[export] Instance registry_datagrams `{HttpDatagram} : RequestDatagrams (Registry * nat) := {
  dg_close_send d := ((close_send (E := Empty_set) d.2 d.1).1, d.2);
  dg_close_recv d := ((close_recv (E := Empty_set) d.2 d.1).1, d.2);
  dg_invalid d := match r_requests d.1 !! d.2 with Some q => rs_invalid q | None => false end;
  dg_invalid_code d := match (invalid_code (E := Empty_set) d.2 d.1).2 with Ready c => c | _ => H3_DATAGRAM_ERROR end;
}.

(** The send half: [hs_poll_stopped] is [Some] code on STOP_SENDING and [None] once
    everything, FIN included, is acknowledged. *)
Class H3SendOps (X Hm : Type) : Type := {
  hs_poll_stopped : M X H3StreamError (option Code);
  hs_poll_ready : M X H3StreamError unit;
  hs_start_send_data : bytes -> X -> X * result H3StreamError unit;
  hs_start_send_trailers : Hm -> X -> X * result H3StreamError unit;
  hs_poll_finish : M X H3StreamError unit;
  hs_stop_stream : Code -> X -> X;
}.

(** The receive half; a response head is its status and headers. *)
Class H3RecvOps (Y Hm : Type) : Type := {
  hr_poll_response : M Y H3StreamError (StatusCode * Hm);
  hr_poll_data : M Y H3StreamError (option bytes);
  hr_poll_trailers : M Y H3StreamError (option Hm);
  hr_stop_sending : Code -> Y -> Y;
}.

(** ** Guards *)

Record SendGuard (X Dg : Type) : Type := MkSendGuard { sg_datagrams : option Dg; sg_stream : X; sg_finished : bool; sg_code : Code }.
Arguments MkSendGuard {X Dg}.
Arguments sg_datagrams {X Dg}.
Arguments sg_stream {X Dg}.
Arguments sg_finished {X Dg}.
Arguments sg_code {X Dg}.

Record RecvGuard (Y Dg : Type) : Type := MkRecvGuard { rg_datagrams : option Dg; rg_stream : Y; rg_finished : bool; rg_code : Code }.
Arguments MkRecvGuard {Y Dg}.
Arguments rg_datagrams {Y Dg}.
Arguments rg_stream {Y Dg}.
Arguments rg_finished {Y Dg}.
Arguments rg_code {Y Dg}.

Section guards.
Context {X Y Dg Hm : Type} `{H3SendOps X Hm} `{H3RecvOps Y Hm} `{RequestDatagrams Dg}.

Definition set_sg_stream (x : X) (g : SendGuard X Dg) := MkSendGuard (sg_datagrams g) x (sg_finished g) (sg_code g).
Definition set_sg_code c (g : SendGuard X Dg) := MkSendGuard (sg_datagrams g) (sg_stream g) (sg_finished g) c.
Definition set_rg_stream (y : Y) (g : RecvGuard Y Dg) := MkRecvGuard (rg_datagrams g) y (rg_finished g) (rg_code g).
Definition set_rg_code c (g : RecvGuard Y Dg) := MkRecvGuard (rg_datagrams g) (rg_stream g) (rg_finished g) c.

(** [send.finished = true] with the end of Datagram sending. *)
Definition sg_finish (g : SendGuard X Dg) : SendGuard X Dg := MkSendGuard (dg_close_send <$> sg_datagrams g) (sg_stream g) true (sg_code g).

(** [Drop for SendGuard]: no Datagram may follow the reset. *)
Definition send_guard_drop (g : SendGuard X Dg) : SendGuard X Dg :=
  if sg_finished g then g
  else
    let d := dg_close_send <$> sg_datagrams g in
    let code := match d with Some d => if dg_invalid d then dg_invalid_code d else sg_code g | None => sg_code g end in
    MkSendGuard d (hs_stop_stream code (sg_stream g)) false (sg_code g).

(** [Drop for RecvGuard]. *)
Definition recv_guard_drop (g : RecvGuard Y Dg) : RecvGuard Y Dg :=
  if rg_finished g then g
  else
    let d := dg_close_recv <$> rg_datagrams g in
    let code := match d with Some d => if dg_invalid d then dg_invalid_code d else rg_code g | None => rg_code g end in
    MkRecvGuard d (hr_stop_sending code (rg_stream g)) false (rg_code g).
End guards.

(** ** Lengths *)

(** [consume_length]. *)
Definition consume_length (remaining : option Z) (size : Z) : result string (option Z) :=
  match remaining with
  | None => Ok None
  | Some n => match checked_sub n size with Some n => Ok (Some n) | None => Err "body exceeds content-length"%string end
  end.

Section lengths.
Context `{HeaderSyntax} `{HeaderMap Hm}.

(** [item.trim_matches([' ', '\t'])]. *)
Definition blank (b : Z) : bool := (b =? 32) || (b =? 9).
Definition trim_blank (s : bytes) : bytes := trim_start_with blank (trim_end_with blank s).

(** [str::parse::<u64>] of decimal digits. *)
Definition parse_u64_digits (s : bytes) : option Z :=
  let n := of_digits 10 (map (fun b => b - 48) s) in if n <=? U64_MAX then Some n else None.

(** The loop over the items of one value. *)
Fixpoint length_items (items : list bytes) (length : option Z) : result Error (option Z) :=
  match items with
  | [] => Ok length
  | item :: items =>
      let item := trim_blank item in
      if bool_decide (item = []) || negb (forallb is_ascii_digit item) then Err (new_h3 (CauseText "invalid content-length"))
      else
        match parse_u64_digits item with
        | None => Err (new_h3 (CauseText "number too large to fit in target type"))
        | Some parsed =>
            if match length with Some n => negb (n =? parsed) | None => false end then Err (new_h3 (CauseText "conflicting content-length"))
            else length_items items (Some parsed)
        end
  end.

Fixpoint length_values (values : list bytes) (length : option Z) : result Error (option Z) :=
  match values with
  | [] => Ok length
  | value :: values =>
      match hv_to_str value with
      | None => Err (new_h3 (CauseText "failed to convert header to a str"))
      | Some s => length ← length_items (split_on COMMA s) length; length_values values length
      end
  end.

(** [content_length]. *)
Definition h3_content_length (headers : Hm) : result Error (option Z) := length_values (hm_get_all headers H_CONTENT_LENGTH) None.
End lengths.

(** ** Requests *)

Definition H_HOST : bytes := Eval vm_compute in bs "host".
Definition CONNECT_UDP_PROTOCOL : bytes := Eval vm_compute in bs "connect-udp".

(** [http::Request] with the extensions the client looks at: [:protocol],
    [DatagramRequest] and [OnPreserveHeader]. *)
Record H3Request (U Hm Bs : Type) : Type := MkH3Request {
  q_method : Method; q_uri : U; q_headers : Hm; q_protocol : option bytes; q_datagram : bool; q_sort : option (Hm -> Hm); q_body : Bs }.
Arguments MkH3Request {U Hm Bs}.
Arguments q_method {U Hm Bs}.
Arguments q_uri {U Hm Bs}.
Arguments q_headers {U Hm Bs}.
Arguments q_protocol {U Hm Bs}.
Arguments q_datagram {U Hm Bs}.
Arguments q_sort {U Hm Bs}.
Arguments q_body {U Hm Bs}.

Section requests.
Context {U Hm Bs B : Type} `{HeaderSyntax} `{HeaderMap Hm} `{UriOps U} `{HttpBody Bs B Hm}.
Abbreviation Req := (H3Request U Hm Bs).

Definition set_q_headers (h : Hm) (r : Req) : Req := MkH3Request (q_method r) (q_uri r) h (q_protocol r) (q_datagram r) (q_sort r) (q_body r).
Definition is_connect (r : Req) : bool := bool_decide (q_method r = CONNECT).

Definition some_b {A} (o : option A) : bool := match o with Some _ => true | None => false end.

(** [validate_request]. *)
Definition validate_request (r : Req) : result Error (option Z) :=
  if some_b (q_protocol r) && negb (is_connect r) then Err (new_h3 (CauseText "Extended CONNECT protocol requires CONNECT"))
  else
    let ordinary_connect := is_connect r && negb (some_b (q_protocol r)) in
    match uri_authority (q_uri r) with
    | None => Err (new_h3 (CauseText "HTTP/3 request requires scheme and authority"))
    | Some authority =>
        if negb ordinary_connect && negb (some_b (uri_scheme (q_uri r))) then Err (new_h3 (CauseText "HTTP/3 request requires scheme and authority"))
        else if bool_decide (AT ∈ authority) then Err (new_h3 (CauseText "HTTP/3 authority includes userinfo"))
        else if match head (hm_get_all (q_headers r) H_HOST) with Some host => negb (bool_decide (authority = host)) | None => false end
        then Err (new_h3 (CauseText "Host conflicts with HTTP/3 authority"))
        else if existsb (fun v => negb (eq_ignore_ascii_case v (bs "trailers"))) (hm_get_all (q_headers r) H_TE)
        then Err (new_h3 (CauseText "HTTP/3 TE must be trailers"))
        else h3_content_length (q_headers r)
    end.

(** [TrySendError]: a request that has not left the caller is returned. *)
Record TrySend : Type := MkTrySend { ts_error : Error; ts_message : option Req }.
Definition rejected (e : Error) (r : Req) : TrySend := MkTrySend e (Some r).
Definition lost (e : Error) : TrySend := MkTrySend e None.

(** [request] up to the wait for the peer's SETTINGS: [reserved] is whether there is a
    reservation, [datagrams] whether the connection carries Datagrams. *)
Definition check_request (reserved datagrams : bool) (r : Req) : result TrySend (Req * option Z) :=
  if negb reserved then Err (rejected (err_with (CauseText "connection closed") new_canceled) r)
  else if q_datagram r && (negb datagrams || negb (is_connect r) || negb (some_b (q_protocol r))) then
    Err (rejected (new_user_invalid_request (CauseText "Datagram requests require an Extended CONNECT and a Datagram-enabled connection")) r)
  else if is_connect r && negb (hb_is_end_stream (q_body r)) then Err (rejected new_user_invalid_connect r)
  else
    let r := set_q_headers (strip_connection_headers (q_headers r) true) r in
    match validate_request r with
    | Ok length => Ok (r, length)
    | Err e => Err (rejected (new_user_invalid_request (error_cause e)) r)
    end.

(** After the SETTINGS: [peer] is what they said, [closed] whether admission is shut and
    [error] the connection's error. *)
Definition check_protocol (peer : option bool) (closed : bool) (error : option Error) (r : Req) : result TrySend unit :=
  if some_b (q_protocol r) && negb (default false peer) then
    Err (rejected (if closed then error_of error else new_user_invalid_request (CauseText "peer did not enable Extended CONNECT")) r)
  else Ok tt.

(** The declared length, from the field or from the body. *)
Definition settle_length (r : Req) (length : option Z) : Req * option Z :=
  if negb (some_b length) && negb (is_connect r) then
    let size := hb_size_exact (q_body r) in
    let r := match size with
             | Some n => if negb (n =? 0) || method_has_defined_payload_semantics (q_method r)
                         then set_q_headers (set_content_length_if_missing (q_headers r) n) r else r
             | None => r
             end in
    (r, size)
  else (r, length).

Definition check_length (r : Req) (length : option Z) : result TrySend unit :=
  if hb_is_end_stream (q_body r) && match length with Some n => negb (n =? 0) | None => false end
  then Err (rejected (new_user_body (CauseText "body shorter than content-length")) r) else Ok tt.

(** All of it: the request as it is admitted, with the length of its body. *)
Definition prepare (reserved datagrams : bool) (peer : option bool) (closed : bool) (error : option Error) (r : Req) : result TrySend (Req * option Z) :=
  '(r, length) ← check_request reserved datagrams r;
  check_protocol peer closed error r;;
  let '(r, length) := settle_length r length in
  check_length r length;;
  mret (r, length).

(** The head that is handed to [send_request]: the fields in the order asked for. *)
Definition request_head (r : Req) : Hm := match q_sort r with Some sort => sort (q_headers r) | None => q_headers r end.
End requests.

(** ** [PipeToSendStream] *)

(** The largest chunk handed to the stream at once. *)
Definition CHUNK : Z := 16 * 1024.

Section pipe.
Context {X Dg Bs B Hm : Type} `{H3SendOps X Hm} `{RequestDatagrams Dg} `{Buf B} `{HttpBody Bs B Hm}.

(** [hp_wakes] counts the times the pipe has woken its own task. *)
Record H3Pipe : Type := MkH3Pipe {
  hp_send : SendGuard X Dg; hp_body : Bs; hp_data : option B; hp_remaining : option Z; hp_trailers_sent : bool; hp_finishing : bool; hp_wakes : nat }.
Definition set_hp_send x p := MkH3Pipe x (hp_body p) (hp_data p) (hp_remaining p) (hp_trailers_sent p) (hp_finishing p) (hp_wakes p).
Definition set_hp_body x p := MkH3Pipe (hp_send p) x (hp_data p) (hp_remaining p) (hp_trailers_sent p) (hp_finishing p) (hp_wakes p).
Definition set_hp_data x p := MkH3Pipe (hp_send p) (hp_body p) x (hp_remaining p) (hp_trailers_sent p) (hp_finishing p) (hp_wakes p).
Definition set_hp_remaining x p := MkH3Pipe (hp_send p) (hp_body p) (hp_data p) x (hp_trailers_sent p) (hp_finishing p) (hp_wakes p).
Definition set_hp_trailers x p := MkH3Pipe (hp_send p) (hp_body p) (hp_data p) (hp_remaining p) x (hp_finishing p) (hp_wakes p).
Definition set_hp_finishing x p := MkH3Pipe (hp_send p) (hp_body p) (hp_data p) (hp_remaining p) (hp_trailers_sent p) x (hp_wakes p).
Definition wake_hp p := MkH3Pipe (hp_send p) (hp_body p) (hp_data p) (hp_remaining p) (hp_trailers_sent p) (hp_finishing p) (S (hp_wakes p)).

Definition h3_pipe_new (send : SendGuard X Dg) (body : Bs) (remaining : option Z) : H3Pipe := MkH3Pipe send body None remaining false false 0.

(** [reset_with]. *)
Definition reset_with (code : Code) (p : H3Pipe) : H3Pipe := set_hp_send (set_sg_code code (hp_send p)) p.

Definition on_stream {E A} (m : M X E A) : M H3Pipe E A :=
  zoom (fun p => sg_stream (hp_send p)) (fun x p => set_hp_send (set_sg_stream x (hp_send p)) p) m.

(** The result of a call of the stream: STOP_SENDING ends the pipe as done ([true]);
    any other error fails it; otherwise it goes on. *)
Definition unless_stopped {A} (m : M X H3StreamError A) (k : A -> M H3Pipe Error bool) : M H3Pipe Error bool :=
  match_ready (on_stream m) k
    (fun e => match e with H3RemoteTerminate _ => mret true | e => fail (new_h3 (CauseH3Stream e)) end).

(** A call that does not wait, as a poll. *)
Definition call (f : X -> X * result H3StreamError unit) : M X H3StreamError unit := fun x =>
  match f x with (x, Ok _) => (x, Ready tt) | (x, Err e) => (x, Failed e) end.

(** [poll_stopped], at the end: acknowledged, or stopped. *)
Definition await_stopped : M H3Pipe Error bool :=
  match_ready (on_stream hs_poll_stopped) (fun _ => mret true) (fun e => fail (new_h3 (CauseH3Stream e))).

(** The FIN and what follows it. *)
Definition pipe_finish : M H3Pipe Error bool :=
  unless_stopped hs_poll_finish (fun _ =>
    modify (fun p => set_hp_send (sg_finish (hp_send p)) p);;
    await_stopped).

(** [this.send.stream.poll_stopped(cx)] while sending: [true] when the peer wants no more. *)
Definition check_stopped : M H3Pipe Error bool := fun p =>
  match on_stream hs_poll_stopped p with
  | (p, Ready _) => (p, Ready true)
  | (p, Failed e) => (p, Failed (new_h3 (CauseH3Stream e)))
  | (p, Pending) => (p, Ready false)
  | (p, Panicked) => (p, Panicked)
  | (p, NoFuel) => (p, NoFuel)
  end.

Definition body_short : Error := new_user_body (CauseText "body shorter than content-length").
Definition owes_length (remaining : option Z) : bool := match remaining with Some n => negb (n =? 0) | None => false end.

(** The data in hand: at most a chunk of it is sent. *)
Definition pipe_chunk (data : B) : M H3Pipe Error bool :=
  let size := Z.min (remaining data) CHUNK in
  '(c, data) ← expect (copy_loop (S (Z.to_nat size)) size data);
  modify (set_hp_data (Some data));;
  unless_stopped (call (hs_start_send_data c)) (fun _ => mret false).

(** A frame of the body. *)
Definition pipe_frame (frame : BodyFrame B Hm) : M H3Pipe Error bool :=
  p ← get;
  if hp_trailers_sent p then fail (new_user_body (CauseText "body frame after trailers"))
  else
    match frame with
    | FData data =>
        match consume_length (hp_remaining p) (remaining data) with
        | Ok n => modify (set_hp_remaining n);; modify (set_hp_data (Some data));; mret false
        | Err why => fail (new_user_body (CauseText why))
        end
    | FTrailers t =>
        if owes_length (hp_remaining p) then fail body_short
        else unless_stopped (call (hs_start_send_trailers t)) (fun _ => modify (set_hp_trailers true);; mret false)
    | FOther => mret false
    end.

(** Nothing in hand: the next frame, or the end. *)
Definition pipe_next : M H3Pipe Error bool :=
  match_ready (zoom hp_body set_hp_body hb_poll_frame)
    (fun frame => match frame with
                  | Some frame => pipe_frame frame
                  | None =>
                      p ← get;
                      if owes_length (hp_remaining p) then fail body_short else modify (set_hp_finishing true);; mret false
                  end)
    (fun c => fail (new_user_body c)).

(** One round of the loop: [true] is done, [false] goes on. *)
Definition h3_pipe_round : M H3Pipe Error bool :=
  p ← get;
  if hp_finishing p then pipe_finish
  else
    stopped ← check_stopped;
    if stopped : bool then mret true
    else
      unless_stopped hs_poll_ready (fun _ =>
        p ← get;
        match hp_data p with
        | Some data => if 0 <? remaining data then pipe_chunk data else modify (set_hp_data None);; pipe_next
        | None => pipe_next
        end).

Fixpoint h3_pipe_loop (rounds : nat) : M H3Pipe Error unit :=
  match rounds with
  | O => modify wake_hp;; pend
  | S rounds => done ← h3_pipe_round; if done : bool then mret tt else h3_pipe_loop rounds
  end.

(** [<PipeToSendStream as Future>::poll]. *)
Definition h3_pipe_poll : M H3Pipe Error unit :=
  p ← get;
  if sg_finished (hp_send p) then await_stopped;; mret tt else h3_pipe_loop 32.

(** [Drop]: the guard goes with the pipe. *)
Definition h3_pipe_drop (p : H3Pipe) : H3Pipe := set_hp_send (send_guard_drop (hp_send p)) p.

(** ** [Finish] *)

(** The send direction of an empty body. *)
Definition finish_poll : M (SendGuard X Dg) Error unit :=
  match_ready (zoom sg_stream set_sg_stream hs_poll_finish)
    (fun _ => modify sg_finish)
    (fun e => match e with H3RemoteTerminate _ => mret tt | e => fail (new_h3 (CauseH3Stream e)) end).
End pipe.
Arguments H3Pipe : clear implicits.

(** ** [ResponseFutMap] *)

Section response.
Context {Y Dg Hm : Type} `{HeaderSyntax} `{HeaderMap Hm} `{H3RecvOps Y Hm}.
Abbreviation Guard := (RecvGuard Y Dg).

(** One head: [None] is an informational one that is skipped. *)
Definition response_head : M Guard Error (option (StatusCode * Hm)) :=
  match_ready (zoom rg_stream set_rg_stream hr_poll_response)
    (fun '(status, headers) =>
      if status =? 101 then modify (set_rg_code H3_MESSAGE_ERROR);; fail (new_h3 (CauseText "HTTP/3 response cannot use status 101"))
      else if negb (is_informational status) then mret (Some (status, headers))
      else
        match h3_content_length headers with
        | Ok _ => mret None
        | Err e => modify (set_rg_code H3_MESSAGE_ERROR);; fail e
        end)
    (fun e => match e with
              | H3StreamFault code _ => modify (set_rg_code code);; fail (new_h3 (CauseH3Stream e))
              | e => fail (new_h3 (CauseH3Stream e))
              end).

(** [poll]: at most 32 heads; [None] is a pending one that has woken its own task. *)
Fixpoint response_loop (rounds : nat) : M Guard Error (option (StatusCode * Hm)) :=
  match rounds with
  | O => mret None
  | S rounds => h ← response_head; match h with Some h => mret (Some h) | None => response_loop rounds end
  end.
Definition response_poll : M Guard Error (option (StatusCode * Hm)) := response_loop 32.

(** The length of the response's body, from its head and the request's method. *)
Definition response_length (head : bool) (status : StatusCode) (headers : Hm) : result Error (option Z) :=
  length ← h3_content_length headers;
  mret (if head || (status =? 204) || (status =? 304) then Some 0 else length).
End response.
