(* ===== verification/Http3ExchangeTheorems.v ===== *)
(** * Http3ExchangeTheorems

    Requests on HTTP/3 streams: what is admitted is well formed and what is refused is
    given back; a body reaches its stream whole with its declared length, or the stream
    is reset; response heads are read as RFC 9114 asks. *)

From stdpp Require Import prelude strings.
From Stdlib Require Import ZArith Lia.
From S2P Require Import Prelude Bytes Crates Errors Headers Message WriteBuf BufList Dispatcher HttpTunnel Proxy Wire Datagram Http2Pipe Http2PipeLaws Http3Shared Http3Exchange.
Local Open Scope Z_scope.

(** ** What a stream gets *)

Inductive HFrame (Hm : Type) : Type := HData (d : bytes) | HTrailers (t : Hm) | HFin | HStop (code : Code).
Arguments HData {Hm}.
Arguments HTrailers {Hm}.
Arguments HFin {Hm}.
Arguments HStop {Hm}.

(** [hs_sent] is what the stream has been given. *)
Class H3SendLaws (X Hm : Type) `{H3SendOps X Hm} : Type := {
  hs_sent : X -> list (HFrame Hm);
  hs_stopped_law x x' o : hs_poll_stopped x = (x', o) -> hs_sent x' = hs_sent x /\ sound o;
  hs_ready_law x x' o : hs_poll_ready x = (x', o) -> hs_sent x' = hs_sent x /\ sound o;
  hs_data_law d x x' r : hs_start_send_data d x = (x', r) -> hs_sent x' = hs_sent x ++ match r with Ok _ => [HData d] | Err _ => [] end;
  hs_trailers_law t x x' r : hs_start_send_trailers t x = (x', r) -> hs_sent x' = hs_sent x ++ match r with Ok _ => [HTrailers t] | Err _ => [] end;
  hs_finish_law x x' o : hs_poll_finish x = (x', o) -> hs_sent x' = hs_sent x ++ match o with Ready _ => [HFin] | _ => [] end /\ sound o;
  hs_stop_law code x : hs_sent (hs_stop_stream code x) = hs_sent x ++ [HStop code];
}.

(** A body that remembers the frames it has given. *)
Definition Logged (Bs B Hm : Type) : Type := (Bs * list (BodyFrame B Hm))%type.

#[export] Instance Logged_HttpBody {Bs B Hm} `{HttpBody Bs B Hm} : HttpBody (Logged Bs B Hm) B Hm := {
  hb_poll_frame b :=
    match hb_poll_frame b.1 with (b', o) => ((b', match o with Ready (Some f) => b.2 ++ [f] | _ => b.2 end), o) end;
  hb_is_end_stream b := hb_is_end_stream b.1;
  hb_size_exact b := hb_size_exact b.1;
}.

#[export] Instance Logged_HttpBodyLaws {Bs B Hm} `{HttpBodyLaws Bs B Hm} : HttpBodyLaws (Logged Bs B Hm) B Hm.
Proof.
  refine {| hb_frames b := hb_frames b.1 |}.
  - intros [b l] b' o. cbn. destruct (hb_poll_frame b) as [b1 o1] eqn:E. intros [= <- <-]. by apply hb_poll_frame_spec in E.
  - intros [b l] n. cbn. apply hb_size_spec.
Defined.

(** It also remembers whether it has ended. *)
Definition Watched (Bs B Hm : Type) : Type := (Logged Bs B Hm * bool)%type.

#[export] Instance Watched_HttpBody {Bs B Hm} `{HttpBody Bs B Hm} : HttpBody (Watched Bs B Hm) B Hm := {
  hb_poll_frame b := match hb_poll_frame b.1 with (b', o) => ((b', b.2 || match o with Ready None => true | _ => false end), o) end;
  hb_is_end_stream b := hb_is_end_stream b.1;
  hb_size_exact b := hb_size_exact b.1;
}.

#[export] Instance Watched_HttpBodyLaws {Bs B Hm} `{HttpBodyLaws Bs B Hm} : HttpBodyLaws (Watched Bs B Hm) B Hm.
Proof.
  refine {| hb_frames b := hb_frames b.1 |}.
  - intros [b l] b' o. cbn -[Logged_HttpBody Logged_HttpBodyLaws]. destruct (hb_poll_frame b) as [b1 o1] eqn:E. intros [= <- <-]. by apply hb_poll_frame_spec in E.
  - intros [b l] n. cbn -[Logged_HttpBody Logged_HttpBodyLaws]. apply hb_size_spec.
Defined.

Section pipe_laws.
Context {X Dg Bs B Hm : Type} `{BL : BufLaws B} `{SO : !H3SendOps X Hm} `{SL : !H3SendLaws X Hm} `{DG : RequestDatagrams Dg}
  `{HB : HttpBody Bs B Hm} `{HBL : !HttpBodyLaws Bs B Hm}.

Abbreviation Pipe := (H3Pipe X Dg (Watched Bs B Hm) B).
Implicit Types (p : Pipe) (n : option Z).

Definition given p : list (BodyFrame B Hm) := (hp_body p).1.2.
Definition body_over p : bool := (hp_body p).2.
Definition given_data p : bytes := concat (data_of (given p)).
Definition sent p : list (HFrame Hm) := hs_sent (sg_stream (hp_send p)).
Definition finished p : bool := sg_finished (hp_send p).
Definition in_hand p : bytes := match hp_data p with Some d => content d | None => [] end.

(** What a stream got: chunks, maybe trailers, and no end yet. *)
Definition chunked (chunks : list bytes) (tr : list Hm) : list (HFrame Hm) := (HData <$> chunks) ++ (HTrailers <$> tr).
Definition small (c : bytes) : Prop := 0 < len c <= CHUNK.

Definition length_left n p : Prop :=
  match n with
  | Some n => exists k, hp_remaining p = Some k /\ 0 <= k /\ n = k + len (given_data p)
  | None => hp_remaining p = None
  end.

(** The state between polls. *)
Record piping n p (chunks : list bytes) (tr : list Hm) : Prop := {
  pp_sent : sent p = chunked chunks tr ++ (if finished p then [HFin] else []);
  pp_data : concat chunks ++ in_hand p = given_data p;
  pp_small : Forall small chunks;
  pp_hand : match hp_data p with Some d => buf_ok d | None => True end;
  pp_left : length_left n p;
  pp_trailers : match tr with [] => hp_trailers_sent p = false | [t] => hp_trailers_sent p = true /\ FTrailers t ∈ given p | _ => False end;
  pp_done : hp_trailers_sent p = true \/ hp_finishing p = true -> hp_data p = None /\ owes_length (hp_remaining p) = false;
  pp_fin : finished p = true -> hp_finishing p = true;
  pp_over : hp_finishing p = true -> body_over p = true;
}.

(** The stream has been ended: by exactly the data of the body, which has ended, of the
    declared length. *)
Definition whole n p : Prop := body_over p = true /\ exists chunks tr, sent p = chunked chunks tr ++ [HFin] /\ concat chunks = given_data p /\
  match n with Some n => len (given_data p) = n | None => True end /\ Forall small chunks /\ Forall (fun t => FTrailers t ∈ given p) tr.

(** It has not: it holds a part of the data. *)
Definition cut p : Prop := exists chunks tr, sent p = chunked chunks tr /\ concat chunks `prefix_of` given_data p /\ Forall small chunks.

Definition ended n p : Prop := (finished p = true /\ whole n p) \/ (finished p = false /\ cut p).

Lemma piping_ended n p chunks tr : piping n p chunks tr -> ended n p.
Proof.
  intros [E1 E2 E3 _ E4 E5 E6 E7 E8]. unfold ended. destruct (finished p) eqn:Ef; [left|right]; (split; [done|]).
  - destruct (E6 (or_intror (E7 eq_refl))) as [Ed Eo]. unfold in_hand in E2. rewrite Ed, app_nil_r in E2. split; [auto|]. exists chunks, tr. split_and!; [done|done| |done|].
    + destruct n as [n|]; [|done]. destruct E4 as (k & Ek & Hk & ->). rewrite Ek in Eo. cbn in Eo. destruct (Z.eqb_spec k 0); [lia|done].
    + destruct tr as [|t [|]]; [done| |done]. constructor; [apply E5|done].
  - rewrite app_nil_r in E1. exists chunks, tr. split_and!; [done|rewrite <-E2; by eexists|done].
Qed.

Definition pipe_post n (o : outcome Error unit) p : Prop :=
  match o with
  | Ready _ | Failed _ => ended n p
  | Pending => exists chunks tr, piping n p chunks tr
  | Panicked | NoFuel => False
  end.

Definition round_post n (o : outcome Error bool) p : Prop :=
  match o with
  | Ready true | Failed _ => ended n p
  | Ready false => finished p = false /\ exists chunks tr, piping n p chunks tr
  | Pending => exists chunks tr, piping n p chunks tr
  | Panicked | NoFuel => False
  end.

(** Only the stream moved on. *)
Definition with_stream x p : Pipe := set_hp_send (set_sg_stream x (hp_send p)) p.

Lemma piping_stream n p chunks tr x : hs_sent x = sent p -> piping n p chunks tr -> piping n (with_stream x p) chunks tr.
Proof. intros E []. by split; [unfold sent in *; cbn; rewrite E|..]. Qed.

Lemma wp_unless_stopped {A} (m : M X H3StreamError A) k n p : 
  (forall x o, m (sg_stream (hp_send p)) = (x, o) -> match o with
    | Ready a => wp (k a) (round_post n) (with_stream x p)
    | Failed _ => ended n (with_stream x p)
    | Pending => exists chunks tr, piping n (with_stream x p) chunks tr
    | Panicked | NoFuel => False end) ->
  wp (unless_stopped m k) (round_post n) p.
Proof.
  intros Hx. unfold unless_stopped. wp_step. apply wp_zoom, wp_intro. intros x o E. specialize (Hx x o E). destruct o as [a|e| | |]; try done. by destruct e.
Qed.

(** The end: whatever [poll_stopped] says, the data is with the stream. *)
Lemma wp_await_stopped n p chunks tr : piping n p chunks tr -> wp await_stopped (round_post n) p.
Proof.
  intros Hp. unfold await_stopped. wp_step. apply wp_zoom, wp_intro. intros x o E. apply hs_stopped_law in E as [Es Ho].
  pose proof (piping_stream _ _ _ _ x Es Hp) as Hp'. destruct o; try done; [by eapply piping_ended..|by exists chunks, tr].
Qed.

Lemma wp_pipe_finish n p chunks tr : piping n p chunks tr -> hp_finishing p = true -> finished p = false -> wp pipe_finish (round_post n) p.
Proof.
  intros Hp Hf Hn. unfold pipe_finish. apply wp_unless_stopped. intros x o E. apply hs_finish_law in E as [Es Ho].
  destruct o as [u|e| | |]; try done; [|(rewrite app_nil_r in Es; apply (piping_stream _ _ _ _ x Es) in Hp) ..]; [|by eapply piping_ended|by exists chunks, tr].
  do 2 wp_step. eapply wp_await_stopped. destruct Hp as [E1 E2 E3 E4 E5 E6 E7 E8 E9]. split; try done.
  unfold sent, finished in *. cbn in *. rewrite Es. unfold sent in E1. rewrite E1, Hn, app_nil_r. done.
Qed.

Lemma wp_check_stopped n p chunks tr (Q : outcome Error bool -> Pipe -> Prop) : piping n p chunks tr -> finished p = false ->
  (forall x, ended n (with_stream x p) -> Q (Ready true) (with_stream x p)) -> (forall x e, ended n (with_stream x p) -> Q (Failed e) (with_stream x p)) ->
  (forall x, piping n (with_stream x p) chunks tr -> Q (Ready false) (with_stream x p)) -> wp check_stopped Q p.
Proof.
  intros Hp Hn Q1 Q2 Q3. unfold wp, check_stopped, on_stream, zoom. destruct (hs_poll_stopped _) as [x o] eqn:E. apply hs_stopped_law in E as [Es Ho].
  pose proof (piping_stream _ _ _ _ x Es Hp) as Hp'. pose proof (piping_ended _ _ _ _ Hp'). destruct o; [by apply Q1|by apply Q2|by apply Q3|done..].
Qed.

(** The chunk that goes out is the front of what is in hand. *)
Lemma wp_pipe_chunk n p chunks tr data : piping n p chunks tr -> finished p = false -> hp_data p = Some data -> 0 < remaining data -> wp (pipe_chunk data) (round_post n) p.
Proof.
  intros Hp Hn Ed Hr. pose proof Hp as [E1 E2 E3 E4 E5 E6 E7 E8 E9]. rewrite Ed in E4. set (size := Z.min (remaining data) CHUNK).
  assert (0 < CHUNK) as Hc by done. destruct (copy_loop_spec (S (Z.to_nat size)) size data E4) as (data' & Ecp & Hok & Econ); [lia|lia|].
  unfold pipe_chunk. fold size. wp_step. wp_expect Ecp. do 2 wp_step. apply wp_unless_stopped. intros x o E. unfold call in E.
  assert (tr = []) as ->. { destruct tr as [|t [|]]; [done| |done]. destruct (E7 (or_introl (proj1 E6))) as [Ex _]. congruence. }
  assert (len (content data) = remaining data) as El by (by rewrite buf_remaining). set (c := ztake size (content data)) in *.
  assert (content data = c ++ content data') as Esp by (rewrite Econ; unfold c; by rewrite ztake_zdrop).
  assert (small c) as Hs by (unfold small, c; rewrite len_ztake by lia; lia).
  cbn [hp_send set_hp_data] in E. destruct (hs_start_send_data c _) as [x1 [u|e]] eqn:Es; injection E as <- <-; apply hs_data_law in Es.
  - wp_step. split; [done|]. exists (chunks ++ [c]), []. unfold in_hand in E2. rewrite Ed in E2. split; cbn; try done.
    + unfold sent in *. cbn. rewrite Es, E1, Hn. unfold finished. cbn. unfold finished in Hn. rewrite Hn. unfold chunked. cbn. rewrite !app_nil_r, fmap_app. done.
    + unfold in_hand, given_data, given in *. cbn. rewrite concat_app. cbn. rewrite app_nil_r, <-app_assoc, <-Esp. done.
    + apply Forall_app. split; [done|]. by constructor.
    + intros [Ht|Ht]; destruct (E7 ltac:(auto)) as [Ex _]; congruence.
  - right. split; [done|]. rewrite app_nil_r in Es. exists chunks, []. unfold sent in *. cbn. rewrite Es, E1, Hn, app_nil_r. split_and!; [done| |done].
    unfold given_data, given in *. cbn. rewrite <-E2. by eexists.
Qed.

(** A frame the body has just given; nothing else is in hand. *)
Lemma h3_wp_pipe_frame n p chunks tr f p0 : piping n p0 chunks tr -> finished p0 = false -> hp_data p0 = None -> hp_finishing p0 = false ->
  match f with FData c => buf_ok c | _ => True end ->
  hp_send p = hp_send p0 -> hp_data p = None -> hp_remaining p = hp_remaining p0 -> hp_trailers_sent p = hp_trailers_sent p0 -> hp_finishing p = false ->
  given p = given p0 ++ [f] -> wp (pipe_frame f) (round_post n) p.
Proof.
  intros Hp Hn Ed0 Ef0 Hok Es Ed Er Et Ef Eg. pose proof Hp as [E1 E2 E3 _ E5 E6 E7 _ _]. unfold in_hand in E2. rewrite Ed0, app_nil_r in E2.
  assert (given_data p = given_data p0 ++ match f with FData c => content c | _ => [] end) as Egd.
  { unfold given_data. rewrite Eg, data_of_app, concat_app. destruct f; cbn; by rewrite ?app_nil_r. }
  assert (sent p = sent p0) as Ess by (unfold sent; by rewrite Es). assert (finished p = false) as Hnp by (unfold finished in *; by rewrite Es).
  assert (cut p) as Hcut. { exists chunks, tr. rewrite Ess, E1, Hn, app_nil_r. split_and!; [done|rewrite Egd, E2; by eexists|done]. }
  assert (forall e, round_post n (Failed e) p) as Hfail by (intros e; right; done).
  unfold pipe_frame. do 2 wp_step. destruct (hp_trailers_sent p) eqn:Ets; [by wp_step|]. destruct tr as [|t tr]; [|destruct tr; [destruct E6; congruence|done]].
  destruct f as [d|t|].
  - assert (remaining d = len (content d)) as Erem by (by rewrite buf_remaining). pose proof (len_nonneg (content d)).
    destruct (consume_length (hp_remaining p) (remaining d)) as [k|why] eqn:Ec; [|by wp_step]. do 3 wp_step. wp_step. split; [done|]. exists chunks, [].
    assert (length_left n (set_hp_data (Some d) (set_hp_remaining k p))) as Hl.
    { unfold consume_length in Ec. rewrite Er in Ec. destruct n as [n|]; cbn in *; [|rewrite E5 in Ec; by injection Ec as <-].
      destruct E5 as (k0 & E0 & Hk0 & ->). rewrite E0 in Ec. unfold checked_sub in Ec. destruct (_ <=? _) eqn:Ele in Ec; [|done]. injection Ec as <-. zbool.
      exists (k0 - remaining d). split_and!; [done|lia|]. unfold given_data, given in *. cbn. rewrite Egd. unfold len in *. rewrite length_app. lia. }
    split; try done; cbn.
    + unfold sent, finished in *. cbn. by rewrite Ess, Es, E1.
    + unfold in_hand, given_data, given in *. cbn. by rewrite Egd, E2.
    + intros [?|?]; congruence.
    + unfold finished in *. cbn. by rewrite Hnp.
    + by rewrite Ef.
  - destruct (owes_length (hp_remaining p)) eqn:Eo; [by wp_step|]. apply wp_unless_stopped. intros x o E. unfold call in E.
    destruct (hs_start_send_trailers t _) as [x1 [u|e]] eqn:Est; injection E as <- <-; apply hs_trailers_law in Est; fold (sent p) in Est; rewrite Ess, E1, Hn, app_nil_r in Est.
    + do 2 wp_step. wp_step. split; [done|]. exists chunks, [t]. split; cbn; try done.
      * unfold sent, finished in *. cbn. rewrite Est, Hnp, app_nil_r. unfold chunked. cbn. by rewrite app_nil_r.
      * unfold in_hand, given_data, given in *. cbn. by rewrite Ed, Egd, !app_nil_r, E2.
      * by rewrite Ed.
      * unfold length_left, given_data, given in *. cbn. rewrite Er. destruct n as [n|]; [|done]. by rewrite Egd, app_nil_r.
      * split; [done|]. unfold given in *. cbn. rewrite Eg. apply elem_of_app. right. by apply list_elem_of_singleton.
      * unfold finished in *. cbn. by rewrite Hnp.
      * by rewrite Ef.
    + right. split; [done|]. rewrite app_nil_r in Est. exists chunks, []. unfold sent, given_data, given in *. cbn. rewrite Est. split_and!; [done|rewrite Egd, E2; by eexists|done].
  - wp_step. split; [done|]. exists chunks, []. split; try done.
    + by rewrite Ess, E1, Hn, Hnp.
    + unfold in_hand. by rewrite Ed, Egd, !app_nil_r.
    + by rewrite Ed.
    + unfold length_left in *. rewrite Er. destruct n as [n|]; [|done]. by rewrite Egd, app_nil_r.
    + rewrite Ef, Ets. by intros [?|?].
    + by rewrite Hnp.
    + by rewrite Ef.
Qed.

Lemma wp_pipe_next n p chunks tr : piping n p chunks tr -> finished p = false -> hp_data p = None -> hp_finishing p = false -> wp pipe_next (round_post n) p.
Proof.
  intros Hp Hn Ed Ef. unfold pipe_next. wp_step. apply wp_zoom, wp_intro. intros b' o E. pose proof (hb_poll_frame_spec _ _ _ E) as Hspec.
  assert (b'.1.2 = given p ++ match o with Ready (Some f) => [f] | _ => [] end) as Eb.
  { unfold given. destruct (hp_body p) as [[b l] e]. cbn in E |- *. destruct (hb_poll_frame b) as [b1 o1]. injection E as <- <-. cbn. destruct o1 as [[f|]| | | |]; by rewrite ?app_nil_r. }
  assert (b'.2 = body_over p || match o with Ready None => true | _ => false end) as Eo'.
  { unfold body_over. destruct (hp_body p) as [[b l] e]. cbn in E |- *. destruct (hb_poll_frame b) as [b1 o1]. injection E as <- <-. done. }
  assert (forall l, l = given p -> b'.1.2 = l -> piping n (set_hp_body b' p) chunks tr) as Hsame.
  { intros l -> El. destruct Hp. unfold length_left, sent, finished, in_hand, given_data, given in *. split; cbn; unfold length_left, sent, finished, in_hand, given_data, given; cbn; rewrite ?El; try done. by rewrite Ef. }
  destruct o as [[f|]|c| | |]; try done.
  - eapply (h3_wp_pipe_frame n _ chunks tr f p); try done. destruct f; [apply Hspec|done..].
  - rewrite app_nil_r in Eb. specialize (Hsame _ eq_refl Eb). do 2 wp_step. destruct (owes_length _) eqn:Eo; [wp_step; by eapply piping_ended|].
    do 2 wp_step. split; [done|]. exists chunks, tr. destruct Hsame as [F1 F2 F3 F4 F5 F6 F7 F8 F9]. split; try done.
    intros _. unfold body_over. cbn. rewrite Eo'. apply orb_true_r.
  - rewrite app_nil_r in Eb. wp_step. by eapply piping_ended, Hsame.
  - rewrite app_nil_r in Eb. exists chunks, tr. by eapply Hsame.
Qed.

Lemma wp_h3_round n p chunks tr : piping n p chunks tr -> finished p = false -> wp h3_pipe_round (round_post n) p.
Proof.
  intros Hp Hn. unfold h3_pipe_round. do 2 wp_step. destruct (hp_finishing p) eqn:Ef; [by eapply wp_pipe_finish|].
  wp_step. eapply wp_check_stopped; [done|done|intros x Hx; by wp_step|done|]. intros x Hp1. apply wp_unless_stopped. intros x2 o E.
  apply hs_ready_law in E as [Es Ho]. pose proof (piping_stream _ _ _ _ x2 Es Hp1) as Hp2. destruct o as [u|e| | |]; try done; [|by eapply piping_ended|by exists chunks, tr].
  do 2 wp_step. change (hp_data (with_stream x2 (with_stream x p))) with (hp_data p). destruct (hp_data p) as [data|] eqn:Ed; [|by eapply wp_pipe_next].
  destruct (0 <? remaining data) eqn:Er; zbool; [by eapply wp_pipe_chunk|]. do 2 wp_step. eapply (wp_pipe_next n _ chunks tr); try done.
  destruct Hp2 as [F1 F2 F3 F4 F5 F6 F7 F8 F9]. cbn in F4. rewrite Ed in F4. split; try done.
  - unfold in_hand in *. cbn in *. rewrite Ed in F2. rewrite app_nil_r. rewrite buf_remaining in Er by done. rewrite (len_zero (content data)) in F2 by (pose proof (len_nonneg (content data)); lia).
    by rewrite app_nil_r in F2.
  - cbn in *. rewrite Ed in F7. intros Hx. destruct (F7 Hx). done.
Qed.

Lemma wp_h3_loop n k : forall p chunks tr, piping n p chunks tr -> finished p = false -> wp (h3_pipe_loop k) (pipe_post n) p.
Proof.
  induction k as [|k IH]; intros p chunks tr Hp Hn; cbn [h3_pipe_loop].
  - do 2 wp_step. wp_step. exists chunks, tr. by destruct Hp.
  - wp_step. eapply wp_mono; [by eapply wp_h3_round|]. intros o p' Ho. destruct o as [[|]|e| | |]; try done. destruct Ho as (Hn' & c' & t' & Hp'). by eapply IH.
Qed.

Lemma h3_pipe_poll_post n p chunks tr : piping n p chunks tr -> wp h3_pipe_poll (pipe_post n) p.
Proof.
  intros Hp. unfold h3_pipe_poll. do 2 wp_step. destruct (sg_finished (hp_send p)) eqn:Ef; [|by eapply wp_h3_loop].
  wp_step. eapply wp_mono; [by eapply wp_await_stopped|]. intros o p' Ho. destruct o as [[|]|e| | |]; try done. destruct Ho as (_ & c' & t' & Hp'). by eapply piping_ended.
Qed.

(** A pipe with [n] bytes declared as it is between polls: it is new, or has been polled
    and waits; the body and the stream move on their own, but give and take frames only
    through it; a malformed response changes the code of the reset. *)
Inductive h3_piped n : Pipe -> Prop :=
| hpi_new g b : hs_sent (sg_stream g) = [] -> sg_finished g = false -> match n with Some n => 0 <= n | None => True end -> h3_piped n (h3_pipe_new g (b, [], false) n)
| hpi_poll p p' : h3_piped n p -> h3_pipe_poll p = (p', Pending) -> h3_piped n p'
| hpi_body p b : h3_piped n p -> h3_piped n (set_hp_body (b, given p, body_over p) p)
| hpi_stream p x : h3_piped n p -> hs_sent x = sent p -> h3_piped n (with_stream x p)
| hpi_code p c : h3_piped n p -> h3_piped n (reset_with c p).

Lemma h3_piped_piping n p : h3_piped n p -> exists chunks tr, piping n p chunks tr.
Proof.
  induction 1 as [g b Es Hf Hn|p p' _ (chunks & tr & IH) E|p b _ (chunks & tr & IH)|p x _ (chunks & tr & IH) Ex|p c _ (chunks & tr & IH)].
  - exists [], []. split; try done; unfold sent, finished, length_left; cbn; rewrite ?Es, ?Hf; try done; [|by intros [?|?]].
    destruct n as [n|]; [|done]. exists n. split_and!; [done|done|]. change (n = n + 0). lia.
  - exact (wp_elim _ _ _ _ _ (h3_pipe_poll_post n p _ _ IH) E).
  - exists chunks, tr. by destruct IH.
  - exists chunks, tr. by apply piping_stream.
  - exists chunks, tr. by destruct IH.
Qed.

End pipe_laws.

(** ** Content-Length *)

Section content_length.
Context `{HeaderSyntaxLaws} `{HM : HeaderMap Hm}.

Definition visible (s : bytes) : Prop := Forall (fun b => visible_ascii b = true) s.

Lemma trim_start_ext (p1 p2 : Z -> bool) (P : Z -> Prop) s : (forall b, P b -> p1 b = p2 b) -> Forall P s -> trim_start_with p1 s = trim_start_with p2 s.
Proof. intros Hp. induction 1 as [|b s Hb _ IH]; [done|]. cbn. rewrite (Hp b Hb). by destruct (p2 b). Qed.

Lemma trim_start_Forall (p : Z -> bool) (P : Z -> Prop) s : Forall P s -> Forall P (trim_start_with p s).
Proof. induction 1 as [|b s Hb Hs IH]; [done|]. cbn. destruct (p b); [done|by constructor]. Qed.

(** On visible text the two trims agree. *)
Lemma trim_blank_visible s : visible s -> trim_blank s = str_trim s.
Proof.
  intros Hs. assert (forall b, visible_ascii b = true -> blank b = char_is_whitespace b) as Hb.
  { intros b. unfold visible_ascii, blank, char_is_whitespace, in_range. intros Hb. apply eq_true_iff_eq. rewrite !orb_true_iff, !andb_true_iff, !Z.leb_le, !Z.eqb_eq in *. lia. }
  unfold trim_blank, str_trim, trim_end_with. assert (visible (reverse s)) as Hr by (by apply Forall_reverse).
  rewrite (trim_start_ext blank char_is_whitespace _ (reverse s) Hb Hr). eapply trim_start_ext; [exact Hb|]. by apply Forall_reverse, trim_start_Forall.
Qed.

Lemma split_on_visible sep s : visible s -> Forall visible (split_on sep s).
Proof.
  induction 1 as [|b s Hb _ IH]; [by repeat constructor|]. cbn. destruct (b =? sep); [constructor; [constructor|done]|].
  destruct (split_on sep s) as [|w ws]; [by repeat constructor|]. apply Forall_cons in IH as [? ?]. constructor; [by constructor|done].
Qed.

Lemma digits_parse s : match from_digits s with
  | Some n => bool_decide (s = []) || negb (forallb is_ascii_digit s) = false /\ parse_u64_digits s = Some n
  | None => bool_decide (s = []) || negb (forallb is_ascii_digit s) = true \/ parse_u64_digits s = None
  end.
Proof.
  assert (forallb is_ascii_digit s = true <-> all_digits s) as Hd by (unfold all_digits; rewrite forallb_forall, Forall_forall; setoid_rewrite list_elem_of_In; done).
  destruct (from_digits s) as [n|] eqn:E.
  - apply from_digits_spec in E as (Hne & Ha & -> & Hle). rewrite bool_decide_eq_false_2 by done. apply Hd in Ha. rewrite Ha. split; [done|].
    unfold parse_u64_digits. fold (dec_value s). by rewrite (proj2 (Z.leb_le _ _)) by done.
  - destruct (bool_decide (s = [])) eqn:En; [by left|]. apply bool_decide_eq_false in En. destruct (forallb is_ascii_digit s) eqn:Ef; [right|by left].
    unfold parse_u64_digits. destruct (Z.leb_spec (of_digits 10 (map (fun b => b - 48) s)) U64_MAX) as [Hle|]; [|done]. exfalso.
    assert (from_digits s = Some (dec_value s)); [|congruence]. apply from_digits_spec. split_and!; [done|by apply Hd|done|done].
Qed.

Lemma length_items_line items cl : Forall visible items ->
  match length_items items cl with Ok r => content_length_line items cl = Some r /\ (items ≠ [] -> r ≠ None) | Err _ => content_length_line items cl = None end.
Proof.
  intros Hv. revert cl. induction Hv as [|v items Hv _ IH]; intros cl; [done|]. cbn [length_items content_length_line]. rewrite (trim_blank_visible v Hv).
  pose proof (digits_parse (str_trim v)) as Hd. destruct (from_digits (str_trim v)) as [n|]; cbn [mbind option_bind].
  - destruct Hd as [-> ->]. specialize (IH (Some n)).
    assert (forall r, length_items items (Some n) = Ok r -> r ≠ None) as Hr.
    { intros r Er. rewrite Er in IH. destruct IH as [IH1 IH2]. destruct items; [injection Er as <-; done|by apply IH2]. }
    destruct cl as [m|]; [destruct (Z.eqb_spec m n) as [->|]; cbn [negb]; [|done]|]; (destruct (length_items items (Some n)) as [r|e]; [|done]); (split; [apply IH|]); intros _; by apply Hr.
  - destruct (_ || _); [done|]. destruct Hd as [?|Hd]; [done|]. by rewrite Hd.
Qed.

Lemma length_values_lines values cl : Forall visible values ->
  match length_values values cl with
  | Ok r => content_length_lines values cl = r /\ (r = None -> values = [] /\ cl = None)
  | Err _ => content_length_lines values cl = None
  end.
Proof.
  intros Hv. revert cl. induction Hv as [|v values Hv _ IH]; intros cl; [done|]. cbn [length_values content_length_lines].
  destruct (hv_to_str v) as [s|] eqn:E; [|done]. apply hv_to_str_id in E as ->. pose proof (length_items_line _ cl (split_on_visible COMMA v Hv)) as Hl.
  destruct (length_items _ cl) as [r|e]; [|by rewrite Hl]. destruct Hl as [-> Hl]. cbn [mbind option_bind result_bind]. specialize (IH r).
  specialize (Hl (split_on_nonnil COMMA v)). destruct (length_values values r) as [r'|e]; [|done]. destruct IH as [IH1 IH2]. split; [done|]. intros Hr. by destruct (IH2 Hr).
Qed.

Lemma content_lengths_lines (headers : Hm) n : Forall visible (hm_get_all headers H_CONTENT_LENGTH) -> content_length_parse_all headers = Some n -> h3_content_length headers = Ok (Some n).
Proof.
  intros Hv Hn. unfold h3_content_length. pose proof (length_values_lines _ None Hv) as Hl. unfold content_length_parse_all, content_length_parse_all_values in Hn.
  destruct (length_values _ None) as [r|e]; [destruct Hl; congruence|congruence].
Qed.

(** The two parsers of Content-Length in the crate, that of HTTP/1 and HTTP/2
    ([content_length_parse_all]) and that of HTTP/3, agree on values of visible
    characters: HTTP/3 reads a length exactly where the other does and the same one, no
    length exactly without the field, and refuses everything else. *)
Theorem content_lengths_agree (headers : Hm) : Forall visible (hm_get_all headers H_CONTENT_LENGTH) ->
  (forall n, h3_content_length headers = Ok (Some n) <-> content_length_parse_all headers = Some n) /\
  (h3_content_length headers = Ok None <-> hm_get_all headers H_CONTENT_LENGTH = []).
Proof.
  intros Hv. unfold h3_content_length, content_length_parse_all, content_length_parse_all_values. pose proof (length_values_lines _ None Hv) as Hl.
  destruct (length_values _ None) as [r|e] eqn:E.
  - destruct Hl as [-> Hr]. split; [intros n; split; congruence|]. split; [intros [= ->]; by apply Hr|]. intros En. rewrite En in E. by injection E as <-.
  - rewrite Hl. split; [done|]. split; [done|]. intros En. by rewrite En in E.
Qed.
End content_length.

(** ** Requests *)

Section requests.
Context {U Hm Bs B : Type} `{HSL : HeaderSyntaxLaws} `{HML : HeaderMapLaws Hm} `{UO : UriOps U} `{BL : BufLaws B} `{HB : !HttpBody Bs B Hm} `{HBL : !HttpBodyLaws Bs B Hm}.
Abbreviation Req := (H3Request U Hm Bs).
Implicit Types r : Req.

(** Everything but the headers. *)
Definition same_request r r' : Prop :=
  q_method r' = q_method r /\ q_uri r' = q_uri r /\ q_protocol r' = q_protocol r /\ q_datagram r' = q_datagram r /\ q_body r' = q_body r /\ q_sort r' = q_sort r.

(** The length a body is known to have, as a field that was not there. *)
Definition known_length r r' : Prop :=
  hm_get_all (q_headers r) H_CONTENT_LENGTH = [] /\ q_method r ≠ CONNECT /\ exists n, hb_size_exact (q_body r) = Some n /\ hm_get_all (q_headers r') H_CONTENT_LENGTH = [to_dec n].

(** The headers are kept, but for the connection-specific fields and a length. *)
Definition kept_headers r r' : Prop := forall name, ~ stripped (q_headers r) true name ->
  hm_get_all (q_headers r') name = hm_get_all (q_headers r) name \/ (name = H_CONTENT_LENGTH /\ known_length r r').

(** A request that is returned. *)
Definition returned r (t : TrySend (U := U) (Hm := Hm) (Bs := Bs)) : Prop := exists r', ts_message t = Some r' /\ same_request r r' /\ kept_headers r r'.

Lemma validate_request_Ok r n : validate_request r = Ok n ->
  (q_protocol r ≠ None -> q_method r = CONNECT) /\
  (exists a, uri_authority (q_uri r) = Some a /\ (AT ∉ a) /\ (forall h, head (hm_get_all (q_headers r) H_HOST) = Some h -> h = a)) /\
  (uri_scheme (q_uri r) = None -> q_method r = CONNECT /\ q_protocol r = None) /\
  Forall (fun v => eq_ignore_ascii_case v (bs "trailers") = true) (hm_get_all (q_headers r) H_TE) /\ h3_content_length (q_headers r) = Ok n.
Proof.
  unfold validate_request, is_connect. destruct (some_b (q_protocol r) && negb (bool_decide (q_method r = CONNECT))) eqn:E1; [done|].
  destruct (uri_authority (q_uri r)) as [a|]; [|done].
  destruct (negb (bool_decide (q_method r = CONNECT) && negb (some_b (q_protocol r))) && negb (some_b (uri_scheme (q_uri r)))) eqn:E2; [done|].
  destruct (bool_decide (AT ∈ a)) eqn:E3; [done|]. apply bool_decide_eq_false in E3.
  destruct (match head _ with Some _ => _ | None => false end) eqn:E4; [done|]. destruct (existsb _ _) eqn:E5; [done|]. intros E6.
  split_and!; [..|done].
  - intros Hp. destruct (q_protocol r); [|done]. cbn in E1. by destruct (decide (q_method r = CONNECT)) as [|Hn]; [|rewrite bool_decide_eq_false_2 in E1 by done].
  - exists a. split_and!; [done|done|]. intros h Eh. rewrite Eh in E4. apply negb_false_iff, bool_decide_eq_true in E4. by symmetry.
  - intros Es. rewrite Es in E2. cbn in E2. rewrite andb_true_r in E2. apply negb_false_iff, andb_true_iff in E2 as [E2 E2']. apply bool_decide_eq_true in E2. by destruct (q_protocol r).
  - apply Forall_forall. intros v Hv. destruct (eq_ignore_ascii_case v (bs "trailers")) eqn:Ev; [done|]. rewrite <-E5. apply existsb_exists. exists v.
    rewrite Ev. split; [by apply list_elem_of_In|done].
Qed.

(** The field set from the size of the body is read back as that size. *)
Lemma length_of_size (h : Hm) n : is_u64 n -> hm_get_all h H_CONTENT_LENGTH = [] -> h3_content_length (set_content_length_if_missing h n) = Ok (Some n).
Proof.
  intros Hn He. unfold set_content_length_if_missing. rewrite (proj2 (hm_contains_key_absent h _)) by done.
  assert (hm_get_all (hm_insert H_CONTENT_LENGTH (to_dec n) h) H_CONTENT_LENGTH = [to_dec n]) as Eg by (by rewrite hm_get_all_insert, decide_True).
  pose proof (from_digits_to_dec n Hn) as Ed. pose proof Ed as (Hne & Ha & _)%from_digits_spec.
  assert (visible (to_dec n)) as Hv by (eapply Forall_impl; [exact Ha|]; intros b Hb%is_ascii_digit_range; unfold visible_ascii, in_range; apply orb_true_iff; left; apply andb_true_iff; rewrite !Z.leb_le; lia).
  apply content_lengths_lines; [by rewrite Eg; repeat constructor|]. unfold content_length_parse_all, content_length_parse_all_values. rewrite Eg. cbn [content_length_lines].
  rewrite hv_to_str_visible by (apply forallb_forall; intros b Hb%list_elem_of_In; by eapply Forall_forall in Hv).
  rewrite split_on_no_sep by (intros Hc; eapply Forall_forall in Ha; [|exact Hc]; done). cbn [content_length_line mbind option_bind].
  rewrite str_trim_id by (eapply Forall_impl; [exact Ha|]; intros b Hb%is_ascii_digit_range; unfold char_is_whitespace, in_range; apply not_true_iff_false; rewrite orb_true_iff, andb_true_iff, !Z.leb_le, Z.eqb_eq; lia).
  by rewrite Ed.
Qed.

Lemma length_items_some items cl (r : option Z) : length_items items cl = Ok r -> items ≠ [] \/ cl ≠ None -> r ≠ None.
Proof.
  revert cl. induction items as [|v items IH]; intros cl; cbn [length_items]; [intros [= <-] [?|?]; done|].
  destruct (_ || _); [done|]. destruct (parse_u64_digits _); [|done]. destruct (match cl with Some _ => _ | None => _ end); [done|]. intros Hr _. eapply IH; [exact Hr|]. by right.
Qed.

Lemma no_length (h : Hm) : h3_content_length h = Ok None -> hm_get_all h H_CONTENT_LENGTH = [].
Proof.
  unfold h3_content_length. assert (forall vs cl (r : option Z), length_values vs cl = Ok r -> vs ≠ [] \/ cl ≠ None -> r ≠ None) as Hv.
  { induction vs as [|v vs IH]; intros cl r; cbn [length_values]; [intros [= <-] [?|?]; done|]. destruct (hv_to_str v) as [s|]; [|done].
    destruct (length_items (split_on COMMA s) cl) as [c|e] eqn:E; [|done]. cbn. intros Hr _. eapply IH; [exact Hr|]. right. eapply length_items_some; [exact E|]. left. apply split_on_nonnil. }
  destruct (hm_get_all h H_CONTENT_LENGTH) as [|v vs]; [done|]. intros Hr. by destruct (Hv _ _ _ Hr ltac:(by left)).
Qed.

Lemma strip_kept r : kept_headers r (set_q_headers (strip_connection_headers (q_headers r) true) r).
Proof. intros name Hn. left. by apply get_all_strip_connection_headers. Qed.

Lemma check_request_spec reserved datagrams r :
  match check_request reserved datagrams r with
  | Err t => returned r t
  | Ok (r', n) => r' = set_q_headers (strip_connection_headers (q_headers r) true) r /\ validate_request r' = Ok n /\ reserved = true /\
      (q_datagram r = true -> datagrams = true /\ q_method r = CONNECT /\ q_protocol r ≠ None) /\
      (q_method r = CONNECT -> hb_is_end_stream (q_body r) = true)
  end.
Proof.
  assert (forall e, returned r (rejected e r)) as Hr by (intros e; exists r; split; [done|]; split; [by split_and!|by left]).
  unfold check_request. destruct reserved; cbn [negb]; [|apply Hr]. unfold is_connect.
  destruct (q_datagram r && _) eqn:E1; [apply Hr|]. destruct (bool_decide (q_method r = CONNECT) && negb (hb_is_end_stream (q_body r))) eqn:E2; [apply Hr|].
  destruct (validate_request _) as [n|e] eqn:E3; [|eexists; split; [done|]; split; [by split_and!|apply strip_kept]]. split_and!; [done|done|done| |].
  - intros Hd. rewrite Hd in E1. cbn in E1. apply orb_false_iff in E1 as [E1 E1c]. apply orb_false_iff in E1 as [E1a E1b].
    apply negb_false_iff in E1a, E1b, E1c. apply bool_decide_eq_true in E1b. split_and!; [done|done|]. by destruct (q_protocol r).
  - intros Hc. rewrite bool_decide_eq_true_2 in E2 by done. by apply negb_false_iff in E2.
Qed.

Lemma settle_length_spec r n : h3_content_length (q_headers r) = Ok n -> let '(r', len) := settle_length r n in
  same_request r r' /\ (forall name, hm_get_all (q_headers r') name = hm_get_all (q_headers r) name \/ (name = H_CONTENT_LENGTH /\ known_length r r')) /\
  (h3_content_length (q_headers r') = Ok len \/ (len = Some 0 /\ h3_content_length (q_headers r') = Ok None)).
Proof.
  intros Hn. unfold settle_length. destruct (negb (some_b n) && negb (is_connect r)) eqn:E; [|split_and!; auto; by split_and!].
  apply andb_true_iff in E as [E Ec]. apply negb_true_iff, bool_decide_eq_false in Ec. destruct n as [n|]; [done|]. pose proof (no_length _ Hn) as Hg. destruct (hb_size_exact (q_body r)) as [k|] eqn:Ek.
  - pose proof (hb_size_spec _ _ Ek) as Hk. destruct (negb (k =? 0) || _) eqn:Eb.
    + split_and!; [by split_and!| |left; by apply length_of_size]. intros name. unfold known_length. cbn. unfold set_content_length_if_missing.
      destruct (hm_contains_key _ _) eqn:Ek'; [by left|]. rewrite !hm_get_all_insert. destruct (decide (name = H_CONTENT_LENGTH)); [right|by left].
      rewrite decide_True by done. split_and!; [done|done|done|by exists k].
    + split_and!; [by split_and!|by left|]. right. apply orb_false_iff in Eb as [Eb _]. apply negb_false_iff, Z.eqb_eq in Eb as ->. done.
  - split_and!; [by split_and!|by left|by left].
Qed.

(** What the checks leave of the request with the fields stripped. *)
Lemma settled_kept r r' : let r1 := set_q_headers (strip_connection_headers (q_headers r) true) r in
  (forall name, hm_get_all (q_headers r') name = hm_get_all (q_headers r1) name \/ (name = H_CONTENT_LENGTH /\ known_length r1 r')) -> kept_headers r r'.
Proof.
  intros r1 Hr name Hs. pose proof (proj2 (get_all_strip_connection_headers (q_headers r) true name) Hs) as Hk. destruct (Hr name) as [->|[-> (K1 & K2 & K3)]]; [by left|].
  right. split; [done|]. split_and!; [|done|done]. rewrite <-Hk. exact K1.
Qed.

(** C11. A request that HTTP/3 refuses before it is admitted comes back whole: method,
    target, body and extensions are untouched, and so is every field but the
    connection-specific ones (and a Content-Length added for a body of known size). One
    that is let through is what was asked for in the same sense; it has a scheme unless it
    is an ordinary CONNECT, an authority without user information that its Host agrees
    with, uses extended CONNECT only as the server allows and Datagrams only with it,
    carries no connection-specific field and no TE but trailers, and its length is the one
    its fields agree on, or that of a body known to be empty. *)
Theorem h3_request_checked reserved datagrams peer closed error r :
  match prepare reserved datagrams peer closed error r with
  | Err t => returned r t
  | Ok (r', len) => same_request r r' /\ kept_headers r r' /\ reserved = true /\
      (q_protocol r ≠ None -> q_method r = CONNECT /\ peer = Some true) /\
      (q_datagram r = true -> datagrams = true /\ q_method r = CONNECT /\ q_protocol r ≠ None) /\
      (q_method r = CONNECT -> hb_is_end_stream (q_body r) = true) /\
      (uri_scheme (q_uri r) = None -> q_method r = CONNECT /\ q_protocol r = None) /\
      (exists a, uri_authority (q_uri r) = Some a /\ (AT ∉ a) /\ (forall h, head (hm_get_all (q_headers r') H_HOST) = Some h -> h = a)) /\
      (forall name, stripped (q_headers r) true name -> name ≠ H_CONTENT_LENGTH -> hm_get_all (q_headers r') name = []) /\
      Forall (fun v => map to_ascii_lowercase v = bs "trailers") (hm_get_all (q_headers r') H_TE) /\
      (h3_content_length (q_headers r') = Ok len \/ (len = Some 0 /\ h3_content_length (q_headers r') = Ok None)) /\
      (hb_is_end_stream (q_body r) = true -> len = None \/ len = Some 0)
  end.
Proof.
  unfold prepare. pose proof (check_request_spec reserved datagrams r) as H1'. destruct (check_request _ _ r) as [[r1 n]|t]; [|done].
  destruct H1' as (-> & (V1 & (a & V2 & V3 & V4) & V5 & V6 & V7)%validate_request_Ok & Hres & Hdg & Hcb). cbn [mbind result_bind q_headers set_q_headers q_uri q_protocol q_method] in *.
  set (r1 := set_q_headers _ r) in *. unfold check_protocol. destruct (some_b (q_protocol r1) && negb (default false peer)) eqn:Ep; cbn [result_bind].
  { exists r1. split; [done|]. split; [by split_and!|apply strip_kept]. }
  pose proof (settle_length_spec r1 n V7) as Hs. destruct (settle_length r1 n) as [r2 len]. destruct Hs as (Hsame & Hk & Hl).
  pose proof (settled_kept r r2 Hk) as Hkept. assert (same_request r r2) as Hsr by exact Hsame. destruct Hsame as (_ & _ & _ & _ & S5 & _). cbn in S5.
  assert (forall name, name ≠ H_CONTENT_LENGTH -> hm_get_all (q_headers r2) name = hm_get_all (q_headers r1) name) as Hg by (intros name Hne; by destruct (Hk name) as [|[? _]]).
  unfold check_length. destruct (hb_is_end_stream (q_body r2) && _) eqn:El; cbn; [by exists r2|]. split_and!; try done.
  - intros Hp. split; [auto|]. cbn in Ep. destruct (q_protocol r); [|done]. cbn in Ep. by destruct peer as [[]|].
  - exists a. split_and!; [done|done|]. rewrite Hg by done. exact V4.
  - intros name Hst Hne. rewrite Hg by done. by apply get_all_strip_connection_headers.
  - rewrite Hg by done. eapply Forall_impl; [exact V6|]. intros v Hv%bool_decide_eq_true. exact Hv.
  - intros Hb. rewrite S5, Hb in El. cbn in El. destruct len as [k|]; [|by left]. right. apply negb_false_iff, Z.eqb_eq in El as ->. done.
Qed.
End requests.

(** ** Response heads *)

(** [hr_heads] is the heads a receive half has handed out, and its failures. *)
Class H3HeadLaws (Y Hm : Type) `{H3RecvOps Y Hm} : Type := {
  hr_heads : Y -> list (result H3StreamError (StatusCode * Hm));
  hr_response_law y y' o : hr_poll_response y = (y', o) -> sound o /\ hr_heads y' = hr_heads y ++ match o with Ready h => [Ok h] | Failed e => [Err e] | _ => [] end;
}.

Section heads.
Context {Y Dg Hm : Type} `{HeaderSyntax} `{HeaderMap Hm} `{RL : H3HeadLaws Y Hm}.
Abbreviation Guard := (RecvGuard Y Dg).

(** An interim response that may be skipped. *)
Definition interim (h : StatusCode * Hm) : Prop := is_informational h.1 = true /\ h.1 ≠ 101 /\ exists n, h3_content_length h.2 = Ok n.

(** Why an interim response is refused. *)
Definition refused_interim (h : StatusCode * Hm) (e : Error) : Prop :=
  is_informational h.1 = true /\ ((h.1 = 101 /\ e = new_h3 (CauseText "HTTP/3 response cannot use status 101")) \/ h3_content_length h.2 = Err e).

Definition head_post (g : Guard) (k : nat) (o : outcome Error (option (StatusCode * Hm))) (g' : Guard) : Prop :=
  exists skipped, Forall interim skipped /\ let so_far := hr_heads (rg_stream g) ++ (Ok <$> skipped) in
  match o with
  | Ready (Some h) => hr_heads (rg_stream g') = so_far ++ [Ok h] /\ is_informational h.1 = false /\ rg_code g' = rg_code g
  | Ready None => hr_heads (rg_stream g') = so_far /\ length skipped = k /\ rg_code g' = rg_code g
  | Pending => hr_heads (rg_stream g') = so_far /\ rg_code g' = rg_code g
  | Failed e => (exists h, hr_heads (rg_stream g') = so_far ++ [Ok h] /\ refused_interim h e /\ rg_code g' = H3_MESSAGE_ERROR) \/
      (exists x, hr_heads (rg_stream g') = so_far ++ [Err x] /\ e = new_h3 (CauseH3Stream x) /\ rg_code g' = match x with H3StreamFault code _ => code | _ => rg_code g end)
  | _ => False
  end.

Lemma h3_response_loop_spec k (g : Guard) : wp (response_loop k) (head_post g k) g.
Proof.
  revert g. induction k as [|k IH]; intros g; cbn [response_loop]; [wp_step; exists []; by rewrite app_nil_r|].
  wp_step. unfold response_head. wp_step. apply wp_zoom, wp_intro. intros y o E. apply hr_response_law in E as [Ho Eh].
  destruct o as [[status headers]|e| | |]; try done.
  - destruct (Z.eqb_spec status 101) as [->|E101].
    { do 2 wp_step. wp_step. exists []. split; [done|]. left. exists (101, headers). cbn. rewrite app_nil_r. split_and!; [done|by split; [|left]|done]. }
    destruct (is_informational status) eqn:Ei; cbn [negb].
    2: { do 2 wp_step. exists []. cbn. rewrite app_nil_r. by split_and!. }
    destruct (h3_content_length headers) as [n|e] eqn:El.
    2: { do 2 wp_step. wp_step. exists []. split; [done|]. left. exists (status, headers). cbn. rewrite app_nil_r. split_and!; [done|by split; [|right]|done]. }
    wp_step. eapply wp_mono; [apply IH|]. intros o g' (skipped & Hs & Hp). exists ((status, headers) :: skipped).
    split; [constructor; [|done]; split_and!; [done|done|by exists n]|]. cbn [rg_stream set_rg_stream] in Hp. rewrite Eh, <-app_assoc in Hp.
    destruct o as [[h|]|e| | |]; try done. destruct Hp as (Ea & ? & ?). split_and!; [done|cbn; lia|done].
  - destruct e as [code why| | | | |]; [do 2 wp_step; wp_step|wp_step..]; (exists []; split; [done|]; right; eexists; rewrite app_nil_r; by split_and!).
  - exists []. by rewrite app_nil_r in *.
Qed.

(** A poll for the response of an HTTP/3 request takes the first head that is not
    informational and skips at most 32 interim ones; a 101 response and a malformed
    interim one are refused with H3_MESSAGE_ERROR, and a fault of the stream with its
    own code. *)
Theorem h3_head_read (g : Guard) : wp response_poll (head_post g 32) g.
Proof. apply h3_response_loop_spec. Qed.
End heads.

(** ** Concrete streams and requests *)

Module ConcreteExchange.
Import Concrete ConcretePipe ConcreteUri.

(** A stream that takes what it is given. *)
Record wire3 : Type := Wire3 { wire3_sent : list (HFrame hmap) }.
#[export] Instance wire3_ops : H3SendOps wire3 hmap := {
  hs_poll_stopped x := (x, if bool_decide (last (map (fun f => match f with HFin => true | _ => false end) (wire3_sent x)) = Some true) then Ready None else Pending);
  hs_poll_ready x := (x, Ready tt);
  hs_start_send_data d x := (Wire3 (wire3_sent x ++ [HData d]), Ok tt);
  hs_start_send_trailers t x := (Wire3 (wire3_sent x ++ [HTrailers t]), Ok tt);
  hs_poll_finish x := (Wire3 (wire3_sent x ++ [HFin]), Ready tt);
  hs_stop_stream c x := Wire3 (wire3_sent x ++ [HStop c]);
}.
#[export] Instance wire3_laws : H3SendLaws wire3 hmap.
Proof.
  refine {| hs_sent := wire3_sent |}.
  - intros x x' o. cbn. destruct (bool_decide _); by intros [= <- <-].
  - by intros x x' o [= <- <-].
  - by intros d x x' r [= <- <-].
  - by intros t x x' r [= <- <-].
  - by intros x x' o [= <- <-].
  - done.
Defined.

(** No Datagrams. *)
#[export] Instance unit_datagrams : RequestDatagrams unit := { dg_close_send d := d; dg_close_recv d := d; dg_invalid _ := false; dg_invalid_code _ := H3_DATAGRAM_ERROR }.

(** A body of two chunks with a pause; four bytes are declared. *)
Definition pipe_a : H3Pipe wire3 unit (Watched script bytes hmap) bytes :=
  h3_pipe_new (MkSendGuard None (Wire3 []) false H3_REQUEST_CANCELLED) ([Some [97; 98]; None; Some [99; 100]], [], false) (Some 4).
Definition pipe_b : H3Pipe wire3 unit (Watched script bytes hmap) bytes := (h3_pipe_poll pipe_a).1.

Definition pipe_c : H3Pipe wire3 unit (Watched script bytes hmap) bytes := Eval vm_compute in (h3_pipe_poll pipe_b).1.

Lemma polled_b : h3_pipe_poll pipe_b = (pipe_c, Ready tt).
Proof. by vm_compute. Qed.
Lemma piped_b : h3_piped (Some 4) pipe_b.
Proof. apply (hpi_poll (Some 4) pipe_a); [by apply hpi_new|by vm_compute]. Qed.


Definition length_headers : hmap := HMap [(H_CONTENT_LENGTH, bs "42, 42"); (H_CONTENT_LENGTH, bs " 42")].
Lemma content_lengths_agree_witness : Forall visible (hm_get_all length_headers H_CONTENT_LENGTH) /\ h3_content_length length_headers = Ok (Some 42).
Proof.
  assert (Forall visible (hm_get_all length_headers H_CONTENT_LENGTH)) as Hv by (vm_compute; repeat constructor).
  split; [exact Hv|]. apply (content_lengths_agree length_headers Hv). by vm_compute.
Defined.

(** A request with a body and a hop-by-hop field. *)
Definition request_a : H3Request uri hmap script :=
  MkH3Request POST (Uri (bs "https://example.com/")) (HMap [(bs "keep-alive", bs "1"); (H_CONTENT_LENGTH, bs "4")]) None false None [Some [97; 98]; Some [99; 100]].
Definition admitted_a : H3Request uri hmap script := Eval vm_compute in match prepare true false None false None request_a with Ok (r, _) => r | Err _ => request_a end.
Lemma prepared_a : prepare true false None false None request_a = Ok (admitted_a, Some 4).
Proof. by vm_compute. Qed.

Lemma h3_request_checked_witness : prepare true false None false None request_a = Ok (admitted_a, Some 4) /\ hm_get_all (q_headers admitted_a) (bs "keep-alive") = [].
Proof.
  split; [exact prepared_a|]. pose proof (h3_request_checked true false None false None request_a) as Hc. rewrite prepared_a in Hc.
  destruct Hc as (_ & _ & _ & _ & _ & _ & _ & _ & Hs & _). apply Hs; [left; apply list_elem_of_In; right; left; reflexivity|discriminate].
Defined.
End ConcreteExchange.
