(* ===== verification/Http3Body.v ===== *)
(** * Http3Body

    The body of an HTTP/3 response ([proto/http3/body.rs]), which reads the receive half
    of the stream directly, and the task that finishes sending the request's body after
    the response head ([PipeMap] of [proto/http3/client.rs]). They share the receive half
    behind a lock, so that either can stop the exchange, and the exchange's place in
    local admission, which is given up once both are done.

    The receive half is the parameter of [Http3Exchange]. A guard or a place that is
    dropped is kept with what its drop did, for the statements below. *)

From stdpp Require Import prelude strings.
From Stdlib Require Import ZArith Lia.
From S2P Require Import Prelude Bytes Crates Errors Headers Message Dispatcher HttpTunnel Proxy Wire Datagram Http2Peer Http3Shared Http3Exchange.
Local Open Scope Z_scope.

(** What becomes of a place in admission: its permit goes back, and the exchange is over. *)
Inductive SlotEvent : Type := PermitBack | ExchangeOver.

(** [Active::release_permit] and the drop of an [Active], as these events. *)
Definition slot_release (a : Active) : Active * list SlotEvent := (MkActive (a_admitted a) false, if a_permit a then [PermitBack] else []).
Definition slot_drop (a : Active) : list SlotEvent := (if a_permit a then [PermitBack] else []) ++ [ExchangeOver].

Section body.
Context {Y X Dg Hm P : Type} `{H3RecvOps Y Hm} `{H3SendOps X Hm} `{RequestDatagrams Dg}.

(** [struct State], the data under the lock. [st_registration] is whether the Datagram
    registration is still held, [st_refused] the send half of a refused CONNECT-UDP and
    [st_conn_error] what the connection has published. [st_gone], [st_refused_gone] and
    [st_events] keep what was dropped and released. *)
Record BState : Type := MkBState {
  st_recv : option (RecvGuard Y Dg);
  st_active : option Active;
  st_registration : bool;
  st_pipe_pending : bool;
  st_refused : option (SendGuard X Dg);
  st_error : option Error;
  st_waker : bool;
  st_conn_error : option Error;
  st_gone : option (RecvGuard Y Dg);
  st_refused_gone : option (SendGuard X Dg);
  st_events : list SlotEvent;
}.

Definition set_st_recv x s := MkBState x (st_active s) (st_registration s) (st_pipe_pending s) (st_refused s) (st_error s) (st_waker s) (st_conn_error s) (st_gone s) (st_refused_gone s) (st_events s).
Definition set_st_pending x s := MkBState (st_recv s) (st_active s) (st_registration s) x (st_refused s) (st_error s) (st_waker s) (st_conn_error s) (st_gone s) (st_refused_gone s) (st_events s).
Definition set_st_error x s := MkBState (st_recv s) (st_active s) (st_registration s) (st_pipe_pending s) (st_refused s) x (st_waker s) (st_conn_error s) (st_gone s) (st_refused_gone s) (st_events s).
Definition set_st_waker x s := MkBState (st_recv s) (st_active s) (st_registration s) (st_pipe_pending s) (st_refused s) (st_error s) x (st_conn_error s) (st_gone s) (st_refused_gone s) (st_events s).
Definition set_st_conn_error x s := MkBState (st_recv s) (st_active s) (st_registration s) (st_pipe_pending s) (st_refused s) (st_error s) (st_waker s) x (st_gone s) (st_refused_gone s) (st_events s).

(** [self.recv = None], which drops the guard. *)
Definition drop_recv (s : BState) : BState :=
  MkBState None (st_active s) (st_registration s) (st_pipe_pending s) (st_refused s) (st_error s) (st_waker s) (st_conn_error s)
    (match st_recv s with Some g => Some (recv_guard_drop g) | None => st_gone s end) (st_refused_gone s) (st_events s).

(** [State::release]. *)
Definition release (s : BState) : BState :=
  if st_pipe_pending s then s
  else
    match st_recv s with
    | None =>
        MkBState None None false false None (st_error s) (st_waker s) (st_conn_error s) (st_gone s)
          (match st_refused s with Some g => Some (send_guard_drop g) | None => st_refused_gone s end)
          (st_events s ++ match st_active s with Some a => slot_drop a | None => [] end)
    | Some g =>
        match st_refused s, st_active s with
        | None, Some a =>
            let '(a, ev) := slot_release a in
            MkBState (Some g) (Some a) (st_registration s) false None (st_error s) (st_waker s) (st_conn_error s) (st_gone s) (st_refused_gone s) (st_events s ++ ev)
        | _, _ => s
        end
    end.

(** [State::finish]: the error that is reported, and the state without the stream. *)
Definition state_finish (error : Error) (s : BState) : BState * Error :=
  let error := match st_active s with Some _ => error_or_of (st_conn_error s) error | None => error end in
  (release (drop_recv s), error).

(** ** [Link] with both sides of it *)

(** [RecvBody] without its link. *)
Record RecvBody : Type := MkRecvBody { rb_remaining : option Z; rb_data_done : bool; rb_ended : bool }.

(** The link; the body while the application holds it; the pipe while its task holds it
    and its [PipeGuard]. [lk_woken] counts the wake-ups of the body's task, and
    [lk_pipe_gone] keeps a pipe that was dropped. *)
Record Link : Type := MkLink {
  lk_state : BState; lk_abort : bool; lk_pipe_waker : AtomicWaker; lk_body : option RecvBody; lk_pipe : option P; lk_woken : nat; lk_pipe_gone : option P }.
Definition set_lk_state x k := MkLink x (lk_abort k) (lk_pipe_waker k) (lk_body k) (lk_pipe k) (lk_woken k) (lk_pipe_gone k).
Definition set_lk_body x k := MkLink (lk_state k) (lk_abort k) (lk_pipe_waker k) x (lk_pipe k) (lk_woken k) (lk_pipe_gone k).
Definition set_lk_pipe x k := MkLink (lk_state k) (lk_abort k) (lk_pipe_waker k) (lk_body k) x (lk_woken k) (lk_pipe_gone k).

(** [RecvBody::new] with [pipe_guard]: [pipe] is the sending that goes on. *)
Definition recv_body_new (recv : RecvGuard Y Dg) (remaining : option Z) (active : Active) (registration : bool) (refused : option (SendGuard X Dg))
    (conn_error : option Error) (pipe : option P) : Link :=
  MkLink (release (MkBState (Some recv) (Some active) registration (some_b pipe) refused None false conn_error None None []))
    false waker_new (Some (MkRecvBody remaining false false)) pipe 0 None.

(** [Link::cancel]. *)
Definition link_cancel (error : Error) (k : Link) : Link :=
  let s := lk_state k in
  let s := match st_recv s with
           | Some _ => let '(s, e) := state_finish error s in set_st_error (Some e) s
           | None => s
           end in
  let woken := if st_waker s then S (lk_woken k) else lk_woken k in
  MkLink (set_st_waker false s) (lk_abort k) (lk_pipe_waker k) (lk_body k) (lk_pipe k) woken (lk_pipe_gone k).

(** ** Reading *)

(** The locals of [State::poll_frame]. *)
Abbreviation Rd := (BState * option Z * bool)%type.
Definition rd_state (r : Rd) : BState := r.1.1.
Definition set_rd_state (s : BState) (r : Rd) : Rd := (s, r.1.2, r.2).

(** [Poll::Ready(Some(Err(self.finish(error))))]. *)
Definition read_fail (code : option Code) (error : Error) : M Rd Empty_set (option (result Error (BodyFrame bytes Hm))) := fun r =>
  let s := rd_state r in
  let s := match code, st_recv s with Some c, Some g => set_st_recv (Some (set_rg_code c g)) s | _, _ => s end in
  let '(s, e) := state_finish error s in
  (set_rd_state s r, Ready (Some (Err e))).

(** The stream of the receive guard, which is there. *)
Definition on_recv {E A} (g : RecvGuard Y Dg) (m : M Y E A) : M Rd E A := fun r =>
  let '(y, o) := m (rg_stream g) in (set_rd_state (set_st_recv (Some (set_rg_stream y g)) (rd_state r)) r, o).

(** After the data: the trailers, and the end. *)
Definition read_trailers (g : RecvGuard Y Dg) : M Rd Empty_set (option (result Error (BodyFrame bytes Hm))) :=
  match_ready (on_recv g hr_poll_trailers)
    (fun trailers r =>
      let s := rd_state r in
      let s := match st_recv s with
               | Some g => set_st_recv (Some (MkRecvGuard (dg_close_recv <$> rg_datagrams g) (rg_stream g) true (rg_code g))) s
               | None => s
               end in
      (set_rd_state (release (drop_recv s)) r, Ready ((fun t => Ok (FTrailers t)) <$> trailers)))
    (fun e => read_fail None (new_h3 (CauseH3Stream e))).

(** [State::poll_frame]; its loop comes back only once, after the data has ended. *)
Definition state_poll_frame : M Rd Empty_set (option (result Error (BodyFrame bytes Hm))) := fun r =>
  match st_recv (rd_state r) with
  | None => (set_rd_state (set_st_error None (rd_state r)) r, Ready (Err <$> st_error (rd_state r)))
  | Some g =>
      if r.2 then read_trailers g r
      else
        match_ready (on_recv g hr_poll_data)
          (fun d r =>
            match d with
            | Some data =>
                match consume_length r.1.2 (len data) with
                | Ok n => ((rd_state r, n, r.2), Ready (Some (Ok (FData data))))
                | Err why => read_fail (Some H3_MESSAGE_ERROR) (new_h3 (CauseText why)) r
                end
            | None =>
                if owes_length r.1.2 then read_fail (Some H3_MESSAGE_ERROR) (new_body (CauseText "HTTP/3 body shorter than content-length")) r
                else
                  match st_recv (rd_state r) with
                  | Some g => read_trailers g (rd_state r, r.1.2, true)
                  | None => ((rd_state r, r.1.2, true), Panicked)
                  end
            end)
          (fun e => read_fail None (new_h3 (CauseH3Stream e))) r
  end.

(** [<RecvBody as Body>::poll_frame]: a failure tells the pipe to reset. *)
Definition body_poll_frame : M Link Empty_set (option (result Error (BodyFrame bytes Hm))) := fun k =>
  match lk_body k with
  | None => (k, Panicked)
  | Some b =>
      if rb_ended b then (k, Ready None)
      else
        match state_poll_frame (set_st_waker true (lk_state k), rb_remaining b, rb_data_done b) with
        | ((s, n, dd), Ready frame) =>
            let ended := negb (some_b (st_recv s)) && negb (some_b (st_error s)) in
            let failed := match frame with Some (Err _) => true | _ => false end in
            (MkLink s (lk_abort k || failed) (if failed then waker_wake (lk_pipe_waker k) else lk_pipe_waker k) (Some (MkRecvBody n dd ended)) (lk_pipe k) (lk_woken k) (lk_pipe_gone k), Ready frame)
        | ((s, n, dd), o) => (MkLink s (lk_abort k) (lk_pipe_waker k) (Some (MkRecvBody n dd (rb_ended b))) (lk_pipe k) (lk_woken k) (lk_pipe_gone k), o)
        end
  end.

(** [is_end_stream] and [size_hint]. *)
Definition body_is_end_stream (b : RecvBody) : bool := rb_ended b.
Definition body_size_hint (b : RecvBody) : option Z := if rb_ended b then Some 0 else rb_remaining b.

(** [Drop for RecvBody]. *)
Definition body_drop (k : Link) : Link :=
  let s := lk_state k in
  set_lk_body None (set_lk_state (match st_recv s with Some _ => release (drop_recv s) | None => s end) k).

(** ** [PipeMap] *)

(** [Drop for PipeGuard], with the error that [fail] has noted. *)
Definition guard_drop (error : option Error) (k : Link) : Link :=
  let k := set_lk_state (release (set_st_pending false (lk_state k))) k in
  match error with Some e => link_cancel e k | None => k end.

(** [PipeGuard::watch]: register, then look. *)
Definition guard_watch (k : Link) : Link * bool :=
  (MkLink (lk_state k) (lk_abort k) (waker_register (lk_pipe_waker k)) (lk_body k) (lk_pipe k) (lk_woken k) (lk_pipe_gone k), negb (lk_abort k)).

(** The pipe, and then the guard, are dropped: [reset] is the drop of the pipe. *)
Definition pipe_map_end (reset : P -> P) (p : P) (error : option Error) (k : Link) : Link :=
  guard_drop error (MkLink (lk_state k) (lk_abort k) (lk_pipe_waker k) (lk_body k) None (lk_woken k) (Some (reset p))).

(** [<PipeMap as Future>::poll]: [invalid] is whether an invalid Datagram has arrived and
    [pipe] a poll of the pipe. *)
Definition pipe_map_poll (pipe : M P Error unit) (reset : P -> P) (invalid : bool) : M Link Empty_set unit := fun k =>
  match lk_pipe k with
  | None => (k, Ready tt)
  | Some p =>
      if invalid then (pipe_map_end reset p (Some (new_h3 (CauseText "HTTP Datagram on a request without Datagram semantics"))) k, Ready tt)
      else
        let '(k, go) := guard_watch k in
        if negb go then (pipe_map_end reset p (Some new_canceled) k, Ready tt)
        else
          match pipe p with
          | (p, Pending) => (set_lk_pipe (Some p) k, Pending)
          | (p, Ready _) => (pipe_map_end reset p None k, Ready tt)
          | (p, Failed e) => (pipe_map_end reset p (Some e) k, Ready tt)
          | (p, Panicked) => (set_lk_pipe (Some p) k, Panicked)
          | (p, NoFuel) => (set_lk_pipe (Some p) k, NoFuel)
          end
  end.

(** A task that the executor discards. *)
Definition pipe_map_drop (reset : P -> P) (k : Link) : Link := match lk_pipe k with Some p => pipe_map_end reset p None k | None => k end.
End body.
Arguments BState : clear implicits.
Arguments Link : clear implicits.

(** ** The place in admission *)

Section slots.
Context {Y X Dg Hm P : Type} `{H3RecvOps Y Hm} `{H3SendOps X Hm} `{RequestDatagrams Dg}.
Abbreviation St := (BState Y X Dg).
Abbreviation Lk := (Link Y X Dg P).
Implicit Types (s : St) (k : Lk).

(** The exchange keeps its place while it receives or sends, and its permit while it
    sends or has a send half to reset; then each has been given back once. *)
Definition tight s : Prop :=
  match st_active s with
  | None => st_recv s = None /\ st_pipe_pending s = false /\ st_refused s = None /\ st_registration s = false /\ st_events s = [PermitBack; ExchangeOver]
  | Some a => a_admitted a = true /\ (st_recv s ≠ None \/ st_pipe_pending s = true) /\
      a_permit a = st_pipe_pending s || some_b (st_refused s) /\ st_events s = (if a_permit a then [] else [PermitBack])
  end.

(** The same before [release] has run. *)
Definition loose s : Prop :=
  match st_active s with
  | None => st_recv s = None /\ st_pipe_pending s = false /\ st_refused s = None /\ st_registration s = false /\ st_events s = [PermitBack; ExchangeOver]
  | Some a => a_admitted a = true /\ (a_permit a = false -> st_pipe_pending s = false /\ st_refused s = None) /\ st_events s = (if a_permit a then [] else [PermitBack])
  end.

Lemma tight_loose s : tight s -> loose s.
Proof.
  unfold tight, loose. destruct (st_active s) as [a|]; [|done]. intros (E1 & _ & E3 & E4). split_and!; [done| |done]. intros Ea. rewrite E3 in Ea.
  apply orb_false_iff in Ea as [-> Ea]. by destruct (st_refused s).
Qed.

Lemma release_tight s : loose s -> tight (release s).
Proof.
  unfold loose, release. destruct (st_active s) as [a|] eqn:Ea.
  - intros (E1 & E2 & E3). destruct (st_pipe_pending s) eqn:Ep.
    + unfold tight. rewrite Ea, Ep. split_and!; [done|by right| |done]. destruct (a_permit a); [done|]. by destruct (E2 eq_refl).
    + destruct (st_recv s) as [g|] eqn:Er.
      * destruct (st_refused s) as [r|] eqn:Ef.
        -- unfold tight. rewrite Ea, Ep, Er, Ef. split_and!; [done|by left| |done]. destruct (a_permit a); [done|]. by destruct (E2 eq_refl).
        -- unfold tight. cbn. rewrite E3. split_and!; [done|by left|done|by destruct (a_permit a)].
      * unfold tight. cbn. rewrite E3. split_and!; try done. unfold slot_drop. by destruct (a_permit a).
  - intros (E1 & E2 & E3 & E4 & E5). rewrite E2, E1. unfold tight. cbn. by rewrite E5.
Qed.

(** What the steps below change keeps the loose form. *)
Lemma loose_drop_recv s : loose s -> loose (drop_recv s).
Proof. unfold loose. cbn. destruct (st_active s); tauto. Qed.
Lemma loose_recv g s : st_recv s ≠ None -> loose s -> loose (set_st_recv (Some g) s).
Proof. unfold loose. cbn. destruct (st_active s); [done|]. intros Hr (E & _). done. Qed.

Lemma tight_finish e s : tight s -> tight (state_finish e s).1.
Proof. intros Ht. by apply release_tight, loose_drop_recv, tight_loose. Qed.

Lemma tight_other s s' : st_active s' = st_active s -> st_recv s' = st_recv s -> st_pipe_pending s' = st_pipe_pending s -> st_refused s' = st_refused s ->
  st_registration s' = st_registration s -> st_events s' = st_events s -> tight s -> tight s'.
Proof. unfold tight. by intros -> -> -> -> -> ->. Qed.

Definition slot_ok k : Prop := tight (lk_state k) /\ st_pipe_pending (lk_state k) = some_b (lk_pipe k) /\ (lk_body k = None -> st_recv (lk_state k) = None).

Lemma release_pending s : st_pipe_pending (release s) = st_pipe_pending s.
Proof. unfold release, slot_release. destruct (st_pipe_pending s) eqn:E; [done|]. destruct (st_recv s), (st_refused s), (st_active s); cbn; done. Qed.
Lemma release_recv s : st_recv (release s) = st_recv s.
Proof. unfold release, slot_release. destruct (st_pipe_pending s); [done|]. destruct (st_recv s) eqn:E, (st_refused s), (st_active s); cbn; done. Qed.

Lemma link_cancel_ok e k : slot_ok k -> slot_ok (link_cancel e k).
Proof.
  intros (Ht & Hp & Hb). unfold link_cancel, slot_ok. destruct (st_recv (lk_state k)) as [g|] eqn:Er; cbn.
  - pose proof (tight_finish e _ Ht) as Ht'. split_and!.
    + by eapply tight_other; [..|exact Ht'].
    + by rewrite release_pending.
    + intros _. by rewrite release_recv.
  - split_and!; [by eapply tight_other; [..|exact Ht]|done|done].
Qed.
End slots.

(** ** Reading *)

(** What a receive half has said to whoever read it: a chunk of data, the end of the
    data, the trailers or their absence with the end of the stream, or an error. *)
Inductive Said (Hm : Type) : Type := SaidData (d : bytes) | SaidDataEnd | SaidEnd (trailers : option Hm) | SaidFault (e : H3StreamError).
Arguments SaidData {Hm}.
Arguments SaidDataEnd {Hm}.
Arguments SaidEnd {Hm}.
Arguments SaidFault {Hm}.

(** [hr_log] is all that was said, [hr_stops] the STOP_SENDING that were asked for. *)
Class H3RecvLaws (Y Hm : Type) `{H3RecvOps Y Hm} : Type := {
  hr_log : Y -> list (Said Hm);
  hr_stops : Y -> list Code;
  hr_head_law y y' o : hr_poll_response y = (y', o) -> sound o /\ hr_stops y' = hr_stops y /\ hr_log y' = hr_log y;
  hr_data_law y y' o : hr_poll_data y = (y', o) -> sound o /\ hr_stops y' = hr_stops y /\
    hr_log y' = hr_log y ++ match o with Ready (Some d) => [SaidData d] | Ready None => [SaidDataEnd] | Failed e => [SaidFault e] | _ => [] end;
  hr_trailers_law y y' o : hr_poll_trailers y = (y', o) -> sound o /\ hr_stops y' = hr_stops y /\
    hr_log y' = hr_log y ++ match o with Ready t => [SaidEnd t] | Failed e => [SaidFault e] | _ => [] end;
  hr_stop_law c y : hr_stops (hr_stop_sending c y) = hr_stops y ++ [c] /\ hr_log (hr_stop_sending c y) = hr_log y;
}.

(** The data among it. *)
Definition said_data {Hm} (l : list (Said Hm)) : list bytes := omap (fun x => match x with SaidData d => Some d | _ => None end) l.
Definition hr_data {Y Hm} `{H3RecvLaws Y Hm} (y : Y) : list bytes := said_data (hr_log y).

Lemma said_data_app {Hm} (l l' : list (Said Hm)) : said_data (l ++ l') = said_data l ++ said_data l'.
Proof. apply omap_app. Qed.
Lemma said_data_all {Hm} (ds : list bytes) : said_data (Hm := Hm) (SaidData <$> ds) = ds.
Proof. induction ds as [|d ds IH]; [done|]. cbn. f_equal. exact IH. Qed.

Section reading.
Context {Y X Dg Hm P : Type} `{RL : H3RecvLaws Y Hm} `{SO : !H3SendOps X Hm} `{DG : RequestDatagrams Dg}.
Abbreviation St := (BState Y X Dg).
Abbreviation Lk := (Link Y X Dg P).
Abbreviation Fr := (option (result Error (BodyFrame bytes Hm))).
Implicit Types (s : St) (k : Lk) (g : RecvGuard Y Dg).

(** A receive half in use, which has said [ds] and, if [dd], that there is no more data;
    one that said its end, with trailers [t]; and one that was given up before, with what
    its drop did. *)
Definition told (ds : list bytes) (dd : bool) : list (Said Hm) := (SaidData <$> ds) ++ if dd then [SaidDataEnd] else [].
Definition reads g (ds : list bytes) (dd : bool) : Prop := hr_log (rg_stream g) = told ds dd /\ hr_stops (rg_stream g) = [] /\ rg_finished g = false.
Definition read_to_end s (ds : list bytes) (t : option Hm) : Prop :=
  exists g, st_gone s = Some g /\ rg_finished g = true /\ hr_log (rg_stream g) = told ds true ++ [SaidEnd t] /\ hr_stops (rg_stream g) = [].
Definition abandoned s (ds : list bytes) : Prop := exists g c, st_gone s = Some g /\ rg_finished g = false /\ ds `prefix_of` hr_data (rg_stream g) /\ hr_stops (rg_stream g) = [c].

(** What stays besides. *)
Definition rest_kept s s' : Prop := st_pipe_pending s' = st_pipe_pending s /\ st_error s' = st_error s /\ st_conn_error s' = st_conn_error s /\ (tight s -> tight s').

Definition read_post s (n : option Z) (ds : list bytes) (o : outcome Empty_set Fr) (r : St * option Z * bool) : Prop :=
  let '(s', n', dd) := r in rest_kept s s' /\
  match o with
  | Ready (Some (Ok (FData d))) => dd = false /\ consume_length n (len d) = Ok n' /\ exists g, st_recv s' = Some g /\ reads g (ds ++ [d]) false
  | Ready (Some (Ok (FTrailers t))) => n' = n /\ dd = true /\ owes_length n = false /\ st_recv s' = None /\ read_to_end s' ds (Some t)
  | Ready None => n' = n /\ dd = true /\ owes_length n = false /\ st_recv s' = None /\ read_to_end s' ds None
  | Ready (Some (Err _)) => n' = n /\ st_recv s' = None /\ abandoned s' ds
  | Pending => n' = n /\ (dd = true -> owes_length n = false) /\ exists g, st_recv s' = Some g /\ reads g ds dd
  | _ => False
  end.

Lemma gone_release s : st_gone (release s) = st_gone s.
Proof. unfold release, slot_release. destruct (st_pipe_pending s); [done|]. destruct (st_recv s), (st_refused s), (st_active s); done. Qed.
Lemma error_release s : st_error (release s) = st_error s /\ st_conn_error (release s) = st_conn_error s.
Proof. unfold release, slot_release. destruct (st_pipe_pending s); [done|]. destruct (st_recv s), (st_refused s), (st_active s); done. Qed.

(** Giving the receive half up. *)
Lemma told_data ds dd : said_data (told ds dd) = ds.
Proof. unfold told. rewrite said_data_app, said_data_all. destruct dd; apply app_nil_r. Qed.

Lemma drop_abandons s g ds : st_recv s = Some g -> ds `prefix_of` hr_data (rg_stream g) -> hr_stops (rg_stream g) = [] -> rg_finished g = false -> abandoned (release (drop_recv s)) ds.
Proof.
  intros Er E1 E2 E3. unfold abandoned. rewrite gone_release. cbn. rewrite Er. unfold recv_guard_drop. rewrite E3. do 2 eexists. split; [done|]. cbn.
  match goal with |- context [hr_stop_sending ?c ?y] => destruct (hr_stop_law c y) as [E4 E5] end. unfold hr_data in *. rewrite E4, E5, E2. done.
Qed.

Lemma reads_data g ds dd : reads g ds dd -> hr_data (rg_stream g) = ds /\ hr_stops (rg_stream g) = [] /\ rg_finished g = false.
Proof. intros (E1 & E2 & E3). unfold hr_data. by rewrite E1, told_data. Qed.

Lemma rest_kept_drop s : rest_kept s (release (drop_recv s)).
Proof. unfold rest_kept. rewrite release_pending. destruct (error_release (drop_recv s)) as [-> ->]. split_and!; try done. intros Ht. by apply release_tight, loose_drop_recv, tight_loose. Qed.

Lemma rest_kept_trans s1 s2 s3 : rest_kept s1 s2 -> rest_kept s2 s3 -> rest_kept s1 s3.
Proof. unfold rest_kept. intros (-> & -> & -> & ?) (-> & -> & -> & ?). split_and!; auto. Qed.

(** The guard changes and stays. *)
Lemma rest_kept_recv s g g' : st_recv s = Some g -> rest_kept s (set_st_recv (Some g') s).
Proof.
  intros Er. unfold rest_kept. split_and!; try done. unfold tight. cbn. destruct (st_active s); [|by rewrite Er; intros (? & _)].
  intros (? & _ & ? & ?). split_and!; auto.
Qed.

(** Giving up after [ds], whatever else was said. *)
Lemma read_fail_spec s0 s n dd g ds code e : rest_kept s0 s -> st_recv s = Some g -> ds `prefix_of` hr_data (rg_stream g) -> hr_stops (rg_stream g) = [] -> rg_finished g = false ->
  wp (read_fail code e) (read_post s0 n ds) (s, n, dd).
Proof.
  intros Hk Er Hr Hst Hf. unfold wp, read_fail. cbn. set (s1 := match code with Some c => _ | None => _ end).
  assert (exists g1, st_recv s1 = Some g1 /\ rg_stream g1 = rg_stream g /\ rg_finished g1 = false /\ rest_kept s s1) as (g1 & Er1 & Es1 & Ef1 & Hk1).
  { subst s1. destruct code as [c|]; [|by exists g]. rewrite Er. exists (set_rg_code c g). split_and!; [done|done|done|by eapply rest_kept_recv]. }
  cbn. split; [|split_and!; [done|by rewrite release_recv|eapply drop_abandons; [done|by rewrite Es1..|done]]]. eapply rest_kept_trans; [exact Hk|]. eapply rest_kept_trans; [exact Hk1|]. apply rest_kept_drop.
Qed.

Lemma read_trailers_spec s0 s n g ds : rest_kept s0 s -> st_recv s = Some g -> reads g ds true -> owes_length n = false -> wp (read_trailers g) (read_post s0 n ds) (s, n, true).
Proof.
  intros Hk Er (R1 & R2 & R3) Ho. unfold read_trailers. wp_step. unfold wp, on_recv. cbn. destruct (hr_poll_trailers (rg_stream g)) as [y o] eqn:E. apply hr_trailers_law in E as (Hs & E1 & E2).
  assert (rest_kept s0 (set_st_recv (Some (set_rg_stream y g)) s)) as Hk1 by (eapply rest_kept_trans; [exact Hk|by eapply rest_kept_recv]).
  destruct o as [t|e| | |]; try done.
  - cbn. set (s2 := release _). change (wp (mret ((fun t => Ok (FTrailers t)) <$> t)) (read_post s0 n ds) (s2, n, true)). wp_step.
    assert (rest_kept s0 s2 /\ st_recv s2 = None /\ read_to_end s2 ds t) as (K1 & K2 & K3).
    { subst s2. split_and!.
      - eapply rest_kept_trans; [exact Hk1|]. eapply rest_kept_trans; [by eapply rest_kept_recv|]. apply rest_kept_drop.
      - by rewrite release_recv.
      - unfold read_to_end. rewrite gone_release. cbn. eexists. split; [done|]. cbn. rewrite <-R1. split_and!; [done|done|congruence]. }
    destruct t; cbn; split_and!; done.
  - refine (read_fail_spec s0 (set_st_recv (Some (set_rg_stream y g)) s) n true (set_rg_stream y g) ds None (new_h3 (CauseH3Stream e)) Hk1 eq_refl _ _ R3); cbn; [|congruence].
    unfold hr_data. rewrite E2, R1, said_data_app, told_data. by eexists.
  - cbn. split; [done|]. split_and!; [done|done|]. eexists. split; [done|]. rewrite app_nil_r in E2. split_and!; cbn; congruence.
Qed.

Lemma state_poll_spec s n dd g ds : st_recv s = Some g -> reads g ds dd -> (dd = true -> owes_length n = false) -> wp state_poll_frame (read_post s n ds) (s, n, dd).
Proof.
  intros Er Hr Hd. assert (rest_kept s s) as Hk by (by split_and!). unfold wp, state_poll_frame. cbn. rewrite Er. destruct dd.
  { pose proof (read_trailers_spec s s n g ds Hk Er Hr (Hd eq_refl)) as Ht. by unfold wp in Ht. }
  unfold match_ready, on_recv. cbn. destruct Hr as (R1 & R2 & R3). destruct (hr_poll_data (rg_stream g)) as [y o] eqn:E. apply hr_data_law in E as (Hs & E1 & E2).
  unfold told in R1. rewrite app_nil_r in R1. rewrite R1 in E2.
  set (g1 := set_rg_stream y g). assert (rest_kept s (set_st_recv (Some g1) s)) as Hk1 by (by eapply rest_kept_recv).
  assert (hr_stops (rg_stream g1) = []) as Hst by (cbn; congruence). assert (ds `prefix_of` hr_data (rg_stream g1)) as Hpre.
  { cbn. unfold hr_data. rewrite E2, said_data_app, said_data_all. by eexists. }
  destruct o as [[d|]|e| | |]; try done; cbn.
  - destruct (consume_length n (len d)) as [n'|why] eqn:Ec.
    + split; [done|]. split; [done|]. split; [done|]. exists g1. split; [done|]. split_and!; [|done|done]. cbn. rewrite E2. unfold told. by rewrite fmap_app, app_nil_r.
    + exact (read_fail_spec s (set_st_recv (Some g1) s) n false g1 ds (Some H3_MESSAGE_ERROR) (new_h3 (CauseText why)) Hk1 eq_refl Hpre Hst R3).
  - destruct (owes_length n) eqn:Eo.
    + exact (read_fail_spec s (set_st_recv (Some g1) s) n false g1 ds (Some H3_MESSAGE_ERROR) (new_body (CauseText "HTTP/3 body shorter than content-length")) Hk1 eq_refl Hpre Hst R3).
    + refine (read_trailers_spec s (set_st_recv (Some g1) s) n g1 ds Hk1 eq_refl _ Eo). by split_and!.
  - exact (read_fail_spec s (set_st_recv (Some g1) s) n false g1 ds None (new_h3 (CauseH3Stream e)) Hk1 eq_refl Hpre Hst R3).
  - split; [done|]. split_and!; [done|done|]. exists g1. split; [done|]. by split_and!.
Qed.

(** ** Runs *)

Abbreviation Rs := (result Error (BodyFrame bytes Hm)).
Implicit Types (fs : list Rs) (n : option Z).

Definition out fs : list bytes := omap (fun r => match r with Ok (FData d) => Some d | _ => None end) fs.
Definition fine (r : Rs) : Prop := match r with Ok _ => True | Err _ => False end.
Definition plain (r : Rs) : Prop := match r with Ok (FData _) => True | _ => False end.
(** The trailers the reader got. *)
Definition trailers_of fs : option Hm := match last fs with Some (Ok (FTrailers t)) => Some t | _ => None end.
Definition failed fs : Prop := exists pre e, fs = pre ++ [Err e] /\ Forall fine pre.

(** The life of a response body with [n] bytes declared and of the sending beside it,
    with what the body's reader got: polls and drops of the body, polls of the task with
    any pipe and its drop, invalid Datagrams, the connection's error, and the stream. *)
Inductive h3_link n : list Rs -> Lk -> Prop :=
| hl_new g registration refused ce pipe : reads g [] false -> match n with Some n => 0 <= n | None => True end ->
    h3_link n [] (recv_body_new g n (MkActive true true) registration refused ce pipe)
| hl_poll fs k k' o : h3_link n fs k -> lk_body k ≠ None -> body_poll_frame k = (k', o) -> h3_link n (fs ++ match o with Ready (Some r) => [r] | _ => [] end) k'
| hl_body_drop fs k : h3_link n fs k -> h3_link n fs (body_drop k)
| hl_task fs k k' o pipe reset invalid : h3_link n fs k -> pipe_map_poll pipe reset invalid k = (k', o) -> h3_link n fs k'
| hl_task_drop fs k reset : h3_link n fs k -> h3_link n fs (pipe_map_drop reset k)
| hl_cancel fs k e : h3_link n fs k -> h3_link n fs (link_cancel e k)
| hl_conn fs k e : h3_link n fs k -> st_conn_error (lk_state k) = None -> h3_link n fs (set_lk_state (set_st_conn_error (Some e) (lk_state k)) k)
| hl_stream fs k g y : h3_link n fs k -> st_recv (lk_state k) = Some g -> hr_log y = hr_log (rg_stream g) -> hr_stops y = hr_stops (rg_stream g) ->
    h3_link n fs (set_lk_state (set_st_recv (Some (set_rg_stream y g)) (lk_state k)) k).

(** What is left of the length. *)
Definition length_ok n fs (b : RecvBody) : Prop :=
  match n with
  | Some n => exists m, rb_remaining b = Some m /\ 0 <= m /\ n = m + len (concat (out fs))
  | None => rb_remaining b = None
  end.

Record body_ok n fs s (b : RecvBody) : Prop := {
  bo_length : length_ok n fs b;
  bo_done : st_recv s ≠ None -> rb_data_done b = true -> owes_length (rb_remaining b) = false;
  bo_recv g : st_recv s = Some g -> reads g (out fs) (rb_data_done b) /\ Forall plain fs /\ st_error s = None /\ rb_ended b = false;
  bo_error e : st_error s = Some e -> st_recv s = None /\ abandoned s (out fs) /\ Forall plain fs /\ rb_ended b = false;
  bo_over : st_recv s = None -> st_error s = None -> rb_ended b = true /\
    ((Forall fine fs /\ read_to_end s (out fs) (trailers_of fs) /\ owes_length (rb_remaining b) = false) \/ (failed fs /\ abandoned s (out fs)));
}.

Definition link_ok n fs k : Prop := slot_ok k /\
  match lk_body k with Some b => body_ok n fs (lk_state k) b | None => (exists t, read_to_end (lk_state k) (out fs) t) \/ abandoned (lk_state k) (out fs) end.

Lemma out_app fs r : out (fs ++ [r]) = out fs ++ match r with Ok (FData d) => [d] | _ => [] end.
Proof. unfold out. rewrite omap_app. f_equal. by destruct r as [[]|]. Qed.

Lemma length_ok_data n fs b d m : length_ok n fs b -> consume_length (rb_remaining b) (len d) = Ok m -> forall dd en, length_ok n (fs ++ [Ok (FData d)]) (MkRecvBody m dd en).
Proof.
  intros Hl Hc dd en. unfold length_ok in *. rewrite out_app. cbn. unfold consume_length in Hc. destruct n as [n|]; [|rewrite Hl in Hc; by injection Hc].
  destruct Hl as (m' & E1 & E2 & ->). rewrite E1 in Hc. unfold checked_sub in Hc. destruct (_ <=? _) eqn:El in Hc; [|done]. injection Hc as <-. zbool.
  exists (m' - len d). split_and!; [done|lia|]. rewrite concat_app. cbn. rewrite app_nil_r. unfold len. rewrite length_app. lia.
Qed.

Lemma length_ok_other n fs b r : (match r with Ok (FData _) => False | _ => True end) -> length_ok n fs b -> forall dd en, length_ok n (fs ++ [r]) (MkRecvBody (rb_remaining b) dd en).
Proof. intros Hr Hl dd en. unfold length_ok in *. rewrite out_app. destruct r as [[]|]; try done; by rewrite app_nil_r. Qed.

(** A body that reads, one whose failure waits, and one that is over. *)
Lemma body_ok_open n fs s g b : length_ok n fs b -> (rb_data_done b = true -> owes_length (rb_remaining b) = false) -> st_recv s = Some g -> reads g (out fs) (rb_data_done b) ->
  Forall plain fs -> st_error s = None -> rb_ended b = false -> body_ok n fs s b.
Proof. intros Hl Hd Er Hr Hf He Hb. split; [done|done|intros ?; rewrite Er; by intros [= <-]|by rewrite He|by rewrite Er]. Qed.

Lemma body_ok_failed n fs s e b : length_ok n fs b -> st_recv s = None -> abandoned s (out fs) -> Forall plain fs -> st_error s = Some e -> rb_ended b = false -> body_ok n fs s b.
Proof. intros Hl Er Ha Hf He Hb. split; [done|by rewrite Er|by rewrite Er|done|by rewrite He]. Qed.

Lemma body_ok_over n fs s b : length_ok n fs b -> st_recv s = None -> st_error s = None -> rb_ended b = true ->
  (Forall fine fs /\ read_to_end s (out fs) (trailers_of fs) /\ owes_length (rb_remaining b) = false) \/ (failed fs /\ abandoned s (out fs)) -> body_ok n fs s b.
Proof. intros Hl Er He Hb Hc. split; [done|by rewrite Er|by rewrite Er|by rewrite He|done]. Qed.

Lemma fine_app fs r : Forall fine (fs ++ [r]) <-> Forall fine fs /\ fine r.
Proof. by rewrite Forall_app, Forall_singleton. Qed.
Lemma plain_fine fs : Forall plain fs -> Forall fine fs.
Proof. intros Hf. eapply Forall_impl; [exact Hf|]. by intros [[]|]. Qed.
Lemma plain_trailers fs : Forall plain fs -> trailers_of fs = None.
Proof. intros Hf. unfold trailers_of. destruct (last fs) as [x|] eqn:E; [|done]. apply last_Some in E as [l ->]. apply Forall_app in Hf as [_ Hf]. rewrite Forall_singleton in Hf. by destruct x as [[d|t|]|e]; cbn in *. Qed.

Lemma body_read_ok n fs s s1 b n1 dd o : body_ok n fs s b -> rb_ended b = false -> st_recv s ≠ None -> st_error s1 = None ->
  read_post s (rb_remaining b) (out fs) o (s1, n1, dd) ->
  body_ok n (fs ++ match o with Ready (Some r) => [r] | _ => [] end) s1
    (MkRecvBody n1 dd (match o with Ready _ => negb (some_b (st_recv s1)) && negb (some_b (st_error s1)) | _ => rb_ended b end)) /\ sound o.
Proof.
  intros Hbo Eb Hn He (_ & Hpost). destruct (st_recv s) as [g|] eqn:Er; [|done]. destruct (bo_recv _ _ _ _ Hbo g Er) as (_ & Hf & _ & _). pose proof (bo_length _ _ _ _ Hbo) as Hl.
  destruct o as [[[[d|t|]|e]|]|e| | |]; try done; (split; [|done]); rewrite ?He; cbn in Hpost.
  - destruct Hpost as (-> & Hc & g1 & Er1 & Hr1). rewrite Er1. eapply body_ok_open; try done; [by eapply length_ok_data|by rewrite out_app|by apply Forall_app; split; [|apply Forall_singleton]].
  - destruct Hpost as (-> & -> & Ho & Er1 & Hend). rewrite Er1. apply body_ok_over; try done; [by apply length_ok_other|]. left. rewrite out_app, app_nil_r. split_and!; [by apply fine_app; split; [apply plain_fine|]| |done].
    unfold trailers_of. by rewrite last_snoc.
  - destruct Hpost as (-> & Er1 & Hab). rewrite Er1. apply body_ok_over; try done; [by apply length_ok_other|]. right. rewrite out_app, app_nil_r. split; [do 2 eexists; split; [done|by apply plain_fine]|done].
  - destruct Hpost as (-> & -> & Ho & Er1 & Hend). rewrite Er1, app_nil_r. apply body_ok_over; try done. left. rewrite plain_trailers by done. by split; [apply plain_fine|].
  - destruct Hpost as (-> & Hdd & g1 & Er1 & Hr1). rewrite app_nil_r. by eapply body_ok_open.
Qed.

Lemma body_ok_waker n fs s b w : body_ok n fs s b -> body_ok n fs (set_st_waker w s) b.
Proof. intros [B1 B2 B3 B4 B5]. by split. Qed.

Lemma link_poll_ok n fs k k' o : link_ok n fs k -> lk_body k ≠ None -> body_poll_frame k = (k', o) ->
  link_ok n (fs ++ match o with Ready (Some r) => [r] | _ => [] end) k' /\ sound o.
Proof.
  intros [Hk Hbo] Hne. pose proof Hk as (Ht & Hp & _). unfold body_poll_frame. destruct (lk_body k) as [b|] eqn:Eb; [|done].
  destruct (rb_ended b) eqn:Ee; [intros [= <- <-]; rewrite app_nil_r; split; [|done]; split; [done|]; by rewrite Eb|].
  set (s0 := set_st_waker true (lk_state k)). apply (body_ok_waker _ _ _ _ true) in Hbo. fold s0 in Hbo.
  assert (tight s0) as Ht0 by (by eapply tight_other; [..|exact Ht]). destruct (st_recv (lk_state k)) as [g|] eqn:Er.
  - destruct (bo_recv _ _ _ _ Hbo g Er) as (Hr & Hf & He & _).
    pose proof (state_poll_spec s0 (rb_remaining b) (rb_data_done b) g (out fs) Er Hr (fun E => bo_done _ _ _ _ Hbo ltac:(cbn; by rewrite Er) E)) as Hw.
    unfold wp in Hw. destruct (state_poll_frame _) as [[[s1 n1] dd] o1]. pose proof Hw as ((K1 & K2 & K3 & K4) & _). rewrite He in K2.
    apply (body_read_ok n fs s0 s1 b n1 dd o1 Hbo Ee) in Hw; [|cbn; by rewrite Er|done]. destruct Hw as [Hb1 Hs].
    destruct o1 as [fr|e| | |]; try done; intros [= <- <-]; (split; [|done]); (split; [split_and!; cbn; [auto|rewrite K1; exact Hp|done]|rewrite ?Ee in Hb1; exact Hb1]).
  - destruct (st_error (lk_state k)) as [e|] eqn:He; [|by destruct (bo_over _ _ _ _ Hbo Er He) as [E _]; rewrite Ee in E].
    destruct (bo_error _ _ _ _ Hbo e He) as (_ & Ha & Hf & _). unfold state_poll_frame. cbn. rewrite Er, He. cbn. intros [= <- <-]. split; [|done].
    split; [split_and!; cbn; [by eapply tight_other; [..|exact Ht]|done|done]|]. cbn. rewrite Er. cbn.
    apply body_ok_over; try done; [by apply length_ok_other; [|apply (bo_length _ _ _ _ Hbo)]|]. right. rewrite out_app, app_nil_r. split; [do 2 eexists; split; [done|by apply plain_fine]|done].
Qed.

(** Steps that leave the reading alone. *)
Lemma gone_same s s' ds : st_gone s' = st_gone s -> (forall t, read_to_end s ds t -> read_to_end s' ds t) /\ (abandoned s ds -> abandoned s' ds).
Proof. unfold read_to_end, abandoned. by intros ->. Qed.

Lemma body_ok_same n fs s s' b : st_recv s' = st_recv s -> st_error s' = st_error s -> st_gone s' = st_gone s -> body_ok n fs s b -> body_ok n fs s' b.
Proof.
  intros E1 E2 E3 [B1 B2 B3 B4 B5]. destruct (gone_same s s' (out fs) E3) as [G1 G2]. split; rewrite ?E1, ?E2; [done|done|done| |].
  - intros e He. destruct (B4 e He) as (? & ? & ? & ?). by split_and!; auto.
  - intros F1 F2. destruct (B5 F1 F2) as [? [(? & ? & ?)|(? & ?)]]; (split; [done|]); [left|right]; auto.
Qed.

Lemma link_ok_same n fs k k' : slot_ok k' -> lk_body k' = lk_body k -> st_recv (lk_state k') = st_recv (lk_state k) -> st_error (lk_state k') = st_error (lk_state k) ->
  st_gone (lk_state k') = st_gone (lk_state k) -> link_ok n fs k -> link_ok n fs k'.
Proof.
  intros Hs E1 E2 E3 E4 [_ Hb]. split; [done|]. rewrite E1. destruct (lk_body k) as [b|]; [by eapply body_ok_same|].
  destruct (gone_same _ _ (out fs) E4) as [G1 G2]. destruct Hb as [[t Ht]|]; [left; exists t|right]; auto.
Qed.

Lemma link_new_ok n g registration refused ce pipe : reads g [] false -> match n with Some n => 0 <= n | None => True end ->
  link_ok n [] (recv_body_new g n (MkActive true true) registration refused ce pipe).
Proof.
  intros Hr Hn. unfold recv_body_new. set (s := MkBState _ _ _ _ _ _ _ _ _ _ _). split.
  - split_and!; cbn; [by apply release_tight|by rewrite release_pending|done].
  - cbn. apply (body_ok_open n [] _ g); try done; [|by rewrite release_recv|by rewrite (proj1 (error_release s))].
    unfold length_ok. destruct n as [m|]; cbn; [|done]. exists m. by split_and!; [| |unfold len; cbn; lia].
Qed.

Lemma link_body_drop_ok n fs k : link_ok n fs k -> link_ok n fs (body_drop k).
Proof.
  intros [(Ht & Hp & Hb) Hbo]. unfold body_drop. destruct (st_recv (lk_state k)) as [g|] eqn:Er; cbn.
  - split; [split_and!; cbn; [by apply release_tight, loose_drop_recv, tight_loose|by rewrite release_pending|by rewrite release_recv]|]. cbn.
    destruct (lk_body k) as [b|]; [|by specialize (Hb eq_refl); congruence]. right. destruct (bo_recv _ _ _ _ Hbo g Er) as [Hr _]. apply reads_data in Hr as (Hr & ? & ?). eapply drop_abandons; [done|by rewrite Hr|done|done].
  - split; [by split_and!|]. cbn. destruct (lk_body k) as [b|]; [|done]. destruct (st_error (lk_state k)) as [e|] eqn:He.
    + right. by destruct (bo_error _ _ _ _ Hbo e He) as (_ & ? & _).
    + destruct (bo_over _ _ _ _ Hbo Er He) as [_ [(_ & ? & _)|(_ & ?)]]; eauto.
Qed.

Lemma link_cancel_reads n fs k e : link_ok n fs k -> link_ok n fs (link_cancel e k).
Proof.
  intros [Hs Hbo]. pose proof (link_cancel_ok e k Hs) as Hs'. destruct (st_recv (lk_state k)) as [g|] eqn:Er.
  - split; [done|]. unfold link_cancel. rewrite Er. cbn. destruct Hs as (_ & _ & Hb). destruct (lk_body k) as [b|]; [|by specialize (Hb eq_refl); congruence].
    destruct (bo_recv _ _ _ _ Hbo g Er) as (Hr & Hf & He & Hn). eapply body_ok_failed; cbn; try done; [by apply (bo_length _ _ _ _ Hbo)|by rewrite release_recv|].
    apply reads_data in Hr as (Hr & ? & ?). refine (drop_abandons _ _ _ Er _ _ _); [by rewrite Hr|done|done].
  - eapply (link_ok_same n fs k); try done; unfold link_cancel; by rewrite Er.
Qed.

Lemma guard_drop_ok n fs k e : tight (lk_state k) -> lk_pipe k = None -> (lk_body k = None -> st_recv (lk_state k) = None) ->
  match lk_body k with Some b => body_ok n fs (lk_state k) b | None => (exists t, read_to_end (lk_state k) (out fs) t) \/ abandoned (lk_state k) (out fs) end -> link_ok n fs (guard_drop e k).
Proof.
  intros Ht Hp Hb Hbo. unfold guard_drop. set (s := release _). assert (st_recv s = st_recv (lk_state k)) as Er by (subst s; by rewrite release_recv).
  assert (st_gone s = st_gone (lk_state k)) as Eg by (subst s; by rewrite gone_release).
  assert (st_error s = st_error (lk_state k)) as Ee by (subst s; by rewrite (proj1 (error_release _))).
  assert (link_ok n fs (set_lk_state s k)) as Hk.
  { split.
    - split_and!; cbn [lk_state lk_body lk_pipe set_lk_state].
      + subst s. apply release_tight. apply tight_loose in Ht. unfold loose in *. cbn. destruct (st_active (lk_state k)) as [a|]; [|tauto]. destruct Ht as (? & Hpm & ?). split_and!; [done| |done].
        intros Ea. by destruct (Hpm Ea).
      + subst s. rewrite release_pending. by rewrite Hp.
      + by rewrite Er.
    - cbn. destruct (lk_body k) as [b|]; [by eapply body_ok_same|]. destruct (gone_same _ s (out fs) Eg) as [G1 G2]. destruct Hbo as [[t Ht']|]; [left; exists t|right]; auto. }
  destruct e as [e|]; [by apply link_cancel_reads|done].
Qed.

Lemma pipe_map_end_ok n fs k reset p e : link_ok n fs k -> link_ok n fs (pipe_map_end reset p e k).
Proof. intros [(Ht & Hp & Hb) Hbo]. by apply guard_drop_ok. Qed.

Lemma pair_fst {A B} (a c : A) (b d : B) : (a, b) = (c, d) -> c = a.
Proof. by intros [= <- _]. Qed.

Lemma link_task_ok n fs k k' o pipe reset invalid : link_ok n fs k -> pipe_map_poll pipe reset invalid k = (k', o) -> link_ok n fs k'.
Proof.
  intros Hk. unfold pipe_map_poll. destruct (lk_pipe k) as [p|] eqn:Ep; [|by intros ->%pair_fst]. destruct invalid; [intros ->%pair_fst; by apply pipe_map_end_ok|].
  destruct (guard_watch k) as [k1 go] eqn:Ew. unfold guard_watch in Ew. injection Ew as Ew _. assert (link_ok n fs k1) as Hk1 by (by subst k1).
  assert (lk_pipe k1 = Some p) as Ep1 by (by subst k1).
  assert (forall p', link_ok n fs (set_lk_pipe (Some p') k1)) as Hset.
  { intros p'. destruct Hk1 as [(Ht & Hp & Hb) Hbo]. split; [split_and!; cbn; try done; by rewrite Hp, Ep1|done]. }
  clear Ew. destruct go; cbn [negb]; [|intros ->%pair_fst; by apply pipe_map_end_ok]. destruct (pipe p) as [p' []]; intros ->%pair_fst; auto using pipe_map_end_ok.
Qed.

Lemma link_stream_ok n fs k g y : link_ok n fs k -> st_recv (lk_state k) = Some g -> hr_log y = hr_log (rg_stream g) -> hr_stops y = hr_stops (rg_stream g) ->
  link_ok n fs (set_lk_state (set_st_recv (Some (set_rg_stream y g)) (lk_state k)) k).
Proof.
  intros [(Ht & Hp & Hb) Hbo] Er E1 E2. destruct (rest_kept_recv _ _ (set_rg_stream y g) Er) as (K1 & K2 & K3 & K4). split.
  - split_and!; cbn; [by apply K4|done|]. intros Hn. specialize (Hb Hn). congruence.
  - cbn. destruct (lk_body k) as [b|]; [|by specialize (Hb eq_refl); congruence]. destruct (bo_recv _ _ _ _ Hbo g Er) as ((R1 & R2 & R3) & Hf & He & Hn).
    eapply body_ok_open; cbn; try done; [by apply (bo_length _ _ _ _ Hbo)|apply (bo_done _ _ _ _ Hbo); congruence|]. split_and!; cbn; congruence.
Qed.

Lemma h3_link_ok n fs k : h3_link n fs k -> link_ok n fs k.
Proof.
  induction 1 as [| | | |fs k reset _ IH| |fs k e _ IH _|].
  - by apply link_new_ok.
  - by eapply link_poll_ok.
  - by apply link_body_drop_ok.
  - by eapply link_task_ok.
  - unfold pipe_map_drop. destruct (lk_pipe k); [by apply pipe_map_end_ok|done].
  - by apply link_cancel_reads.
  - eapply (link_ok_same n fs k); try done. destruct IH as [(? & ? & ?) _]. by split_and!.
  - by eapply link_stream_ok.
Qed.

Definition within n fs : Prop := match n with Some n => len (concat (out fs)) <= n | None => True end.
Lemma length_within n fs b : length_ok n fs b -> within n fs.
Proof. unfold length_ok, within. destruct n as [n|]; [|done]. intros (m & _ & ? & ->). lia. Qed.

Lemma body_poll_keeps k : lk_body k ≠ None -> lk_body (body_poll_frame k).1 ≠ None.
Proof. unfold body_poll_frame. destruct (lk_body k) as [b|] eqn:Eb; [|done]. intros _. destruct (rb_ended b); [cbn [fst]; by rewrite Eb|]. by destruct (state_poll_frame _) as [[[s n] dd] []]. Qed.

Lemma h3_link_within n fs k : h3_link n fs k -> within n fs.
Proof.
  induction 1 as [g registration refused ce pipe Hr Hn|fs k k' o Hl IH Hne E| | | | | |]; try done.
  pose proof (body_poll_keeps k Hne) as Hk. destruct (link_poll_ok n fs k k' o (h3_link_ok n fs k Hl) Hne E) as [[_ Hb] _]. rewrite E in Hk. cbn in Hk.
  destruct (lk_body k') as [b|]; [|done]. eapply length_within, (bo_length _ _ _ _ Hb).
Qed.

Lemma owes_whole n fs b : length_ok n fs b -> owes_length (rb_remaining b) = false -> match n with Some n => len (concat (out fs)) = n | None => True end.
Proof. unfold length_ok. destruct n as [n|]; [|done]. intros (m & -> & ? & ->) Ho. unfold owes_length in Ho. zbool. lia. Qed.

(** C5. What the reader of an HTTP/3 response body is given is the data of the stream, in
    order and never more than the declared length, whatever happens to the request's
    sending, the connection or the Datagrams beside it. A body that ends without a failure
    has the declared length, and the stream said exactly its data, the end of the data,
    and its end with the trailers the reader got, and no error; a body that fails does so
    with its last frame. A receive half that is not read to the end is stopped with
    exactly one STOP_SENDING, also when the application drops the body. A poll never
    panics; after the end it gives nothing, and a failure reported by the sender is given
    by the next one. *)
Theorem h3_body_read n fs k : h3_link n fs k -> within n fs /\
  match lk_body k with
  | None => (exists t, read_to_end (lk_state k) (out fs) t) \/ abandoned (lk_state k) (out fs)
  | Some b =>
      wp body_poll_frame (fun o _ => sound o /\ (rb_ended b = true -> o = Ready None) /\
        (rb_ended b = false -> forall e, st_error (lk_state k) = Some e -> o = Ready (Some (Err e)))) k /\
      if rb_ended b then
        (Forall fine fs /\ read_to_end (lk_state k) (out fs) (trailers_of fs) /\ match n with Some n => len (concat (out fs)) = n | None => True end) \/
        (failed fs /\ abandoned (lk_state k) (out fs))
      else Forall plain fs /\
        match st_recv (lk_state k) with Some g => reads g (out fs) (rb_data_done b) | None => abandoned (lk_state k) (out fs) /\ st_error (lk_state k) ≠ None end
  end.
Proof.
  intros Hl. pose proof (h3_link_ok n fs k Hl) as Hk. split; [by eapply h3_link_within|]. pose proof Hk as [_ Hb]. destruct (lk_body k) as [b|] eqn:Eb; [|done]. split.
  - unfold wp. destruct (body_poll_frame k) as [k' o] eqn:E. destruct (link_poll_ok n fs k k' o Hk ltac:(by rewrite Eb) E) as [_ Hs]. split; [done|].
    unfold body_poll_frame in E. rewrite Eb in E. split; [intros Hen; rewrite Hen in E; by injection E|]. intros Hen e He. rewrite Hen in E.
    destruct (bo_error _ _ _ _ Hb e He) as (Er & _). unfold state_poll_frame in E. cbn in E. rewrite Er, He in E. cbn in E. by injection E.
  - pose proof (bo_length _ _ _ _ Hb) as Hn. destruct (st_recv (lk_state k)) as [g|] eqn:Er.
    + destruct (bo_recv _ _ _ _ Hb g Er) as (? & ? & ? & ->). done.
    + destruct (st_error (lk_state k)) as [e|] eqn:He; [by destruct (bo_error _ _ _ _ Hb e He) as (_ & ? & ? & ->)|].
      destruct (bo_over _ _ _ _ Hb Er He) as [-> [(? & ? & ?)|?]]; [left; split_and!; [done|done|by eapply owes_whole]|by right].
Qed.

(** C10. An HTTP/3 exchange whose response head has been delivered keeps its place in
    admission exactly while it still receives or sends, and its permit exactly while its
    sending goes on or a refused send half waits to be reset: the permit goes back before
    an unread body is finished, and both go back once, whatever the order of polls,
    failures and drops. When the application has dropped the body and the task is done,
    nothing of the exchange is left. *)
Theorem h3_slot_released n fs k : h3_link n fs k ->
  (st_active (lk_state k) = None <-> st_recv (lk_state k) = None /\ lk_pipe k = None) /\
  st_events (lk_state k) = (if some_b (st_active (lk_state k)) then if some_b (lk_pipe k) || some_b (st_refused (lk_state k)) then [] else [PermitBack] else [PermitBack; ExchangeOver]) /\
  (st_active (lk_state k) = None -> st_refused (lk_state k) = None /\ st_registration (lk_state k) = false) /\
  (lk_body k = None -> lk_pipe k = None -> st_active (lk_state k) = None).
Proof.
  intros Hl. destruct (h3_link_ok n fs k Hl) as [(Ht & Hp & Hb) _]. unfold tight in Ht. rewrite Hp in Ht. destruct (st_active (lk_state k)) as [a|]; cbn.
  - destruct Ht as (_ & Hor & <- & ?). split_and!; try done.
    + split; [done|]. intros [Er Epn]. rewrite Epn in Hor. by destruct Hor.
    + intros Hn Hpn. specialize (Hb Hn). rewrite Hpn in Hor. by destruct Hor.
  - destruct Ht as (? & Hpn & ? & ? & ?). split_and!; try done. destruct (lk_pipe k); done.
Qed.
End reading.

(** ** A concrete response *)

Module ConcreteBody.
Import Concrete.

(** A receive half with chunks ([None] is a pause), what it said and its stops. *)
Record source3 : Type := Source3 { src_todo : list (option bytes); src_log : list (Said hmap); src_stops : list Code }.
Definition say (x : Said hmap) (y : source3) : source3 := Source3 (src_todo y) (src_log y ++ [x]) (src_stops y).
#[export] Instance source3_ops : H3RecvOps source3 hmap := {
  hr_poll_response y := (y, Pending);
  hr_poll_data y := match src_todo y with
    | [] => (say SaidDataEnd y, Ready None)
    | None :: q => (Source3 q (src_log y) (src_stops y), Pending)
    | Some d :: q => (Source3 q (src_log y ++ [SaidData d]) (src_stops y), Ready (Some d))
    end;
  hr_poll_trailers y := (say (SaidEnd None) y, Ready None);
  hr_stop_sending c y := Source3 (src_todo y) (src_log y) (src_stops y ++ [c]);
}.
#[export] Instance source3_laws : H3RecvLaws source3 hmap.
Proof.
  refine {| hr_log := src_log; hr_stops := src_stops |}.
  - by intros y y' o [= <- <-].
  - intros [[|[d|] q] got st] y' o; cbn; intros [= <- <-]; by rewrite ?app_nil_r.
  - by intros y y' o [= <- <-].
  - done.
Defined.

(** Sending is a number of polls still to come. *)
Definition count_poll : M nat Error unit := fun p => match p with 0%nat => (0%nat, Ready tt) | S p => (p, Pending) end.
#[export] Instance unit_sends : H3SendOps unit hmap := {
  hs_poll_stopped x := (x, Pending); hs_poll_ready x := (x, Ready tt); hs_start_send_data _ x := (x, Ok tt);
  hs_start_send_trailers _ x := (x, Ok tt); hs_poll_finish x := (x, Ready tt); hs_stop_stream _ x := x;
}.
#[export] Instance no_datagrams : RequestDatagrams unit := { dg_close_send d := d; dg_close_recv d := d; dg_invalid _ := false; dg_invalid_code _ := H3_DATAGRAM_ERROR }.

(** Three bytes are declared. The body is read to its end while the upload goes on, which
    ends after it. *)
Abbreviation Lk3 := (Link source3 unit unit nat).
Definition link_0 : Lk3 := recv_body_new (MkRecvGuard None (Source3 [Some [97; 98]; None; Some [99]] [] []) false H3_REQUEST_CANCELLED) (Some 3) (MkActive true true) false None None (Some 0%nat).
Definition poll_3 (k : Lk3) : Lk3 := (body_poll_frame k).1.
Definition link_4 : Lk3 := Eval vm_compute in poll_3 (poll_3 (poll_3 (poll_3 link_0))).
Definition link_5 : Lk3 := Eval vm_compute in (pipe_map_poll count_poll id false link_4).1.
Definition frames_4 : list (result Error (BodyFrame bytes hmap)) := [Ok (FData [97; 98]); Ok (FData [99])].

Lemma link_4_run : h3_link (Some 3) frames_4 link_4.
Proof.
  assert (h3_link (Some 3) [] link_0) as L0 by (by apply hl_new).
  assert (h3_link (Some 3) [Ok (FData [97; 98])] (poll_3 link_0)) as L1 by (refine (hl_poll _ _ _ _ (Ready (Some (Ok (FData [97; 98])))) L0 _ _); by vm_compute).
  assert (h3_link (Some 3) [Ok (FData [97; 98])] (poll_3 (poll_3 link_0))) as L2 by (refine (hl_poll _ _ _ _ Pending L1 _ _); by vm_compute).
  assert (h3_link (Some 3) frames_4 (poll_3 (poll_3 (poll_3 link_0)))) as L3 by (refine (hl_poll _ _ _ _ (Ready (Some (Ok (FData [99])))) L2 _ _); by vm_compute).
  refine (hl_poll _ _ _ _ (Ready None) L3 _ _); by vm_compute.
Qed.
Lemma link_5_run : h3_link (Some 3) frames_4 link_5.
Proof. refine (hl_task _ _ _ _ (Ready tt) count_poll id false link_4_run _). by vm_compute. Qed.

Lemma h3_body_read_witness : h3_link (Some 3) frames_4 link_4 /\ len (concat (out frames_4)) = 3.
Proof.
  split; [exact link_4_run|]. destruct (h3_body_read (Some 3) frames_4 link_4 link_4_run) as (_ & _ & Hend). cbn in Hend.
  destruct Hend as [(_ & _ & Hn)|(Hf & _)]; [exact Hn|]. destruct Hf as (pre & e & Hf & _). destruct pre as [|? [|? []]]; discriminate Hf.
Defined.

Lemma h3_slot_released_witness : lk_pipe link_4 = Some 0%nat /\ st_events (lk_state link_4) = [] /\ st_events (lk_state link_5) = [PermitBack; ExchangeOver].
Proof. split; [done|]. split; [done|]. destruct (h3_slot_released (Some 3) frames_4 link_5 link_5_run) as (_ & He & _). exact He. Defined.
End ConcreteBody.
