(* ===== verification/Http3Request.v ===== *)
(** * Http3Request

    The future of an HTTP/3 request after admission ([request] in
    [proto/http3/client.rs]): it opens the stream, sends the body beside the wait for the
    response, and ends with a tunnel, with a response whose body goes on by itself, or
    with an error. It can be dropped at any moment.

    The future owns both halves of the stream and the exchange's place in admission; what
    it drops is kept with what the drop did, for the statements below. *)

From stdpp Require Import prelude strings.
From Stdlib Require Import ZArith Lia.
From S2P Require Import Prelude Bytes Crates Errors Headers Message WriteBuf BufList Dispatcher HttpTunnel Proxy Wire Datagram Http2Pipe Http2PipeLaws Http3Shared Http3Exchange Http3ExchangeTheorems Http3Body.
Local Open Scope Z_scope.

(** [SendRequest] of the http3 crate: [send_request] opens a stream for the head; it
    yields the stream's identifier and its halves. *)
Class H3Opener (O X Y U Hm : Type) : Type :=
  h3_send_request : Method -> U -> Hm -> option bytes -> M O H3StreamError (Z * (X * Y)).

Definition invalid_datagram_error : Error := new_h3 (CauseText "HTTP Datagram on a request without Datagram semantics").

Section request.
Context {O U X Y Dg Hm Bs B : Type} `{HeaderSyntax} `{HeaderMap Hm} `{H3SendOps X Hm} `{H3RecvOps Y Hm} `{RequestDatagrams Dg} `{Buf B} `{HttpBody Bs B Hm} `{OP : !H3Opener O X Y U Hm}.

(** Where the send half is: [send], [finished] and [refused] are [SHalf], the pipe of a
    body is [SPipe]. After the response it is what [PipeMap] polls. *)
Inductive SendSide : Type := SNone | SHalf (g : SendGuard X Dg) | SPipe (p : H3Pipe X Dg Bs B).

Definition side_drop (s : SendSide) : SendSide :=
  match s with SNone => SNone | SHalf g => SHalf (send_guard_drop g) | SPipe p => SPipe (h3_pipe_drop p) end.

(** A poll of the boxed pipe: that of the body, or the wait for the FIN's acknowledgment. *)
Definition side_poll : M SendSide Error unit := fun s =>
  match s with
  | SNone => (s, Ready tt)
  | SHalf g => let '(g, o) := zoom sg_stream set_sg_stream (match_ready hs_poll_stopped (fun _ => mret tt) (fun e => fail (new_h3 (CauseH3Stream e)))) g in (SHalf g, o)
  | SPipe p => let '(p, o) := h3_pipe_poll p in (SPipe p, o)
  end.

(** Where the future waits: for the stream, for the head of a CONNECT, for the FIN of an
    empty body ([initial] is the head that was read), for the head beside the body. *)
Inductive Stage : Type := RqOpen | RqConnect | RqFinish (initial : option (StatusCode * Hm)) | RqHead | RqOver.

Record ReqFut : Type := MkReqFut {
  rf_opener : O; rf_req : H3Request U Hm Bs; rf_length : option Z; rf_stage : Stage;
  rf_active : option Active; rf_send : SendSide; rf_recv : option (RecvGuard Y Dg);
  rf_gone_send : SendSide; rf_gone_recv : option (RecvGuard Y Dg); rf_events : list SlotEvent }.

Definition set_rf_opener x f := MkReqFut x (rf_req f) (rf_length f) (rf_stage f) (rf_active f) (rf_send f) (rf_recv f) (rf_gone_send f) (rf_gone_recv f) (rf_events f).
Definition set_rf_stage x f := MkReqFut (rf_opener f) (rf_req f) (rf_length f) x (rf_active f) (rf_send f) (rf_recv f) (rf_gone_send f) (rf_gone_recv f) (rf_events f).
Definition set_rf_send x f := MkReqFut (rf_opener f) (rf_req f) (rf_length f) (rf_stage f) (rf_active f) x (rf_recv f) (rf_gone_send f) (rf_gone_recv f) (rf_events f).
Definition set_rf_recv x f := MkReqFut (rf_opener f) (rf_req f) (rf_length f) (rf_stage f) (rf_active f) (rf_send f) x (rf_gone_send f) (rf_gone_recv f) (rf_events f).

Definition rq_new (opener : O) (r : H3Request U Hm Bs) (length : option Z) (active : Active) : ReqFut :=
  MkReqFut opener r length RqOpen (Some active) SNone None SNone None [].

(** The send half is dropped. *)
Definition rq_drop_send (f : ReqFut) : ReqFut :=
  MkReqFut (rf_opener f) (rf_req f) (rf_length f) (rf_stage f) (rf_active f) SNone (rf_recv f)
    (match rf_send f with SNone => rf_gone_send f | s => side_drop s end) (rf_gone_recv f) (rf_events f).

(** Everything the future owns is dropped. *)
Definition rq_drop (f : ReqFut) : ReqFut :=
  MkReqFut (rf_opener f) (rf_req f) (rf_length f) RqOver None SNone None
    (match rf_send f with SNone => rf_gone_send f | s => side_drop s end)
    (match rf_recv f with Some g => Some (recv_guard_drop g) | None => rf_gone_recv f end)
    (rf_events f ++ match rf_active f with Some a => slot_drop a | None => [] end).

(** Everything is handed on. *)
Definition rq_hand_over (f : ReqFut) : ReqFut :=
  MkReqFut (rf_opener f) (rf_req f) (rf_length f) RqOver None SNone None (rf_gone_send f) (rf_gone_recv f) (rf_events f).

(** What the future resolves to: the tunnel of [upgrade::tunnel], or a response with the
    link of its body and the sending beside it. [datagrams] is whether the registration
    is for Datagrams of the application. *)
Inductive Delivered : Type :=
| DTunnel (status : StatusCode) (headers : Hm) (send : SendGuard X Dg) (recv : RecvGuard Y Dg) (active : Active) (datagrams : bool)
| DBody (status : StatusCode) (headers : Hm) (body : Link Y X Dg SendSide).

Abbreviation Rq := (M ReqFut (TrySend (U := U) (Hm := Hm) (Bs := Bs)) Delivered).

(** An error ends the future: the request has left the caller. *)
Definition rq_lost (e : Error) : Rq := fun f => (rq_drop f, Failed (lost e)).

Definition is_connect_udp (r : H3Request U Hm Bs) : bool := is_connect r && bool_decide (q_protocol r = Some CONNECT_UDP_PROTOCOL).

(** The codes of both directions. *)
Definition recode (c : Code) (f : ReqFut) : ReqFut :=
  MkReqFut (rf_opener f) (rf_req f) (rf_length f) (rf_stage f) (rf_active f)
    (match rf_send f with SHalf g => SHalf (set_sg_code c g) | SPipe p => SPipe (reset_with c p) | SNone => SNone end)
    (set_rg_code c <$> rf_recv f) (rf_gone_send f) (rf_gone_recv f) (rf_events f).
Definition recode_send (f : ReqFut) : ReqFut := match rf_recv f with Some g => recode (rg_code g) f | None => f end.

(** The send half of an empty body that was finished keeps its code. *)
Definition recode_unfinished (c : Code) (f : ReqFut) : ReqFut :=
  match rf_send f with
  | SHalf _ => if is_connect_udp (rf_req f) then recode c f else set_rf_recv (set_rg_code c <$> rf_recv f) f
  | _ => recode c f
  end.

(** A poll for the head; the guard is there. *)
Definition rq_response : M ReqFut Error (option (StatusCode * Hm)) := fun f =>
  match rf_recv f with
  | Some g => let '(g, o) := response_poll g in (set_rf_recv (Some g) f, o)
  | None => (f, Panicked)
  end.

Section poll.
(** [ce] is the error the connection has published, [invalid] whether an invalid Datagram
    has arrived, [late] the same at the end, and [register] the registry's entry for a
    stream if the connection carries Datagrams. *)
Context (ce : option Error) (invalid late : bool) (register : option (Z -> bool -> Dg)).

(** The response is delivered: [pipe] is the sending that goes on, [refused] a send half
    to reset. *)
Definition rq_respond (status : StatusCode) (headers : Hm) (remaining : option Z) (pipe : option SendSide) (refused : option (SendGuard X Dg)) : Rq := fun f =>
  match rf_recv f, rf_active f with
  | Some recv, Some active =>
      let k := recv_body_new recv remaining active (some_b register) refused ce pipe in
      let k := if some_b register && late then link_cancel invalid_datagram_error k else k in
      (rq_hand_over f, Ready (DBody status headers k))
  | _, _ => (f, Panicked)
  end.

(** The head is in. *)
Definition rq_deliver (h : StatusCode * Hm) : Rq :=
  f ← get;
  match response_length (bool_decide (q_method (rf_req f) = HEAD)) h.1 h.2 with
  | Err e => modify (recode_unfinished H3_MESSAGE_ERROR);; rq_lost e
  | Ok remaining =>
      match rf_send f with
      | SPipe p => rq_respond h.1 h.2 remaining (Some (SPipe p)) None
      | SNone => rq_respond h.1 h.2 remaining None None
      | SHalf g =>
          if is_connect_udp (rf_req f) then rq_respond h.1 h.2 remaining None (Some g)
          else if sg_finished g then
            match hs_poll_stopped (sg_stream g) with
            | (x, Ready _) => modify (fun f => rq_drop_send (set_rf_send (SHalf (set_sg_stream x g)) f));; rq_respond h.1 h.2 remaining None None
            | (x, Failed e) => modify (set_rf_send (SHalf (set_sg_stream x g)));; rq_lost (error_or_of ce (new_h3 (CauseH3Stream e)))
            | (x, Pending) => rq_respond h.1 h.2 remaining (Some (SHalf (set_sg_stream x g))) None
            | (x, Panicked) => panic
            | (x, NoFuel) => fun f => (f, NoFuel)
            end
          else modify rq_drop_send;; rq_respond h.1 h.2 remaining None None
      end
  end.

(** A failure while the head is awaited resets the pipe with the receive half's code. *)
Definition rq_head_lost (e : Error) : Rq := fun f =>
  rq_lost (error_or_of ce e) (match rf_send f, rf_recv f with SPipe p, Some g => set_rf_send (SPipe (reset_with (rg_code g) p)) f | _, _ => f end).

(** A poll of the wait for the head: the body first. *)
Definition rq_head_response : Rq :=
  if invalid then rq_head_lost invalid_datagram_error
  else match_ready rq_response (fun h => match h with Some h => rq_deliver h | None => pend end) rq_head_lost.
Definition rq_head_poll : Rq := fun f =>
  match rf_send f with
  | SPipe p =>
      match h3_pipe_poll p with
      | (p, Ready _) => rq_head_response (rq_drop_send (set_rf_send (SPipe p) f))
      | (p, Failed e) => rq_head_lost e (set_rf_send (SPipe p) f)
      | (p, Pending) => rq_head_response (set_rf_send (SPipe p) f)
      | (p, Panicked) => (f, Panicked)
      | (p, NoFuel) => (f, NoFuel)
      end
  | _ => rq_head_response f
  end.

Definition rq_head (initial : option (StatusCode * Hm)) : Rq :=
  match initial with Some h => rq_deliver h | None => modify (set_rf_stage RqHead);; rq_head_poll end.

(** A poll of [Finish]. *)
Definition rq_finish_poll (initial : option (StatusCode * Hm)) : Rq := fun f =>
  match rf_send f with
  | SHalf g =>
      match finish_poll g with
      | (g, Ready _) => rq_head initial (set_rf_send (SHalf g) f)
      | (g, Failed e) => rq_lost (error_or_of ce e) (set_rf_send (SHalf g) f)
      | (g, Pending) => (set_rf_send (SHalf g) f, Pending)
      | (g, Panicked) => (f, Panicked)
      | (g, NoFuel) => (f, NoFuel)
      end
  | _ => (f, Panicked)
  end.

(** The sending: a refused CONNECT-UDP keeps its half, an empty body finishes inline. *)
Definition rq_body (initial : option (StatusCode * Hm)) : Rq := fun f =>
  if is_connect_udp (rf_req f) then rq_head initial f
  else if hb_is_end_stream (q_body (rf_req f)) then rq_finish_poll initial (set_rf_stage (RqFinish initial) f)
  else
    match rf_send f with
    | SHalf g => rq_head initial (set_rf_send (SPipe (h3_pipe_new g (q_body (rf_req f)) (rf_length f))) f)
    | _ => (f, Panicked)
    end.

(** The head of a CONNECT: success opens the tunnel. *)
Definition rq_connected (h : StatusCode * Hm) : Rq := fun f =>
  if is_success h.1 then
    if is_connect_udp (rf_req f) && breaks_capsule_protocol h.1 h.2 then
      rq_lost (error_or_of ce (new_h3 (CauseText "CONNECT-UDP response breaks the Capsule Protocol"))) (recode H3_MESSAGE_ERROR f)
    else
      match rf_send f, rf_recv f, rf_active f with
      | SHalf send, Some recv, Some active => (rq_hand_over f, Ready (DTunnel h.1 h.2 send recv active (some_b register && q_datagram (rf_req f))))
      | _, _, _ => (f, Panicked)
      end
  else rq_body (Some h) f.

Definition rq_connect_poll : Rq :=
  let refuse (e : Error) : Rq := (modify recode_send;; rq_lost (error_or_of ce e)) in
  if invalid then refuse invalid_datagram_error
  else match_ready rq_response (fun h => match h with Some h => rq_connected h | None => pend end) refuse.

(** The stream is open; an identifier that is not a client's is refused before the
    halves have guards. *)
Definition rq_opened (s : Z * (X * Y)) : Rq := fun f =>
  let '(id, (x, y)) := s in
  if negb (id mod 4 =? 0) then rq_lost (new_h3 (CauseText "QUIC backend returned a non-client request stream ID")) f
  else
    let d := (fun register => register id (q_datagram (rf_req f))) <$> register in
    let f := set_rf_recv (Some (MkRecvGuard d y false H3_REQUEST_CANCELLED)) (set_rf_send (SHalf (MkSendGuard d x false H3_REQUEST_CANCELLED)) f) in
    if is_connect (rf_req f) then rq_connect_poll (set_rf_stage RqConnect f) else rq_body None f.

Definition rq_open_poll : Rq := fun f =>
  match h3_send_request (q_method (rf_req f)) (q_uri (rf_req f)) (request_head (rf_req f)) (q_protocol (rf_req f)) (rf_opener f) with
  | (o, Ready s) => rq_opened s (set_rf_opener o f)
  | (o, Failed e) => rq_lost (error_or_of ce (new_h3 (CauseH3Stream e))) (set_rf_opener o f)
  | (o, Pending) => (set_rf_opener o f, Pending)
  | (o, Panicked) => (f, Panicked)
  | (o, NoFuel) => (f, NoFuel)
  end.

(** One poll of the future. *)
Definition rq_poll : Rq := fun f =>
  match rf_stage f with
  | RqOpen => rq_open_poll f
  | RqConnect => rq_connect_poll f
  | RqFinish initial => rq_finish_poll initial f
  | RqHead => rq_head_poll f
  | RqOver => (f, Panicked)
  end.
End poll.
End request.

(** ** What polls leave alone *)

(** [keeps f m]: running [m] does not change [f] of the state. *)
Definition keeps {S E A T} (f : S -> T) (m : M S E A) : Prop := forall s, f (m s).1 = f s.

Section keeps.
Context {S T : Type} (f : S -> T).

Lemma keeps_ret {E A} (a : A) : keeps f (mret a : M S E A).
Proof. done. Qed.
Lemma keeps_fail {E A} (e : E) : keeps f (fail e : M S E A).
Proof. done. Qed.
Lemma keeps_pend {E A} : keeps f (pend : M S E A).
Proof. done. Qed.
Lemma keeps_get {E} : keeps f (get : M S E S).
Proof. done. Qed.
Lemma keeps_expect {E A} (o : option A) : keeps f (expect o : M S E A).
Proof. by destruct o. Qed.
Lemma keeps_modify {E} (g : S -> S) : (forall s, f (g s) = f s) -> keeps f (modify g : M S E unit).
Proof. intros Hg s. apply Hg. Qed.
Lemma keeps_bind {E A B} (m : M S E A) (k : A -> M S E B) : keeps f m -> (forall a, keeps f (k a)) -> keeps f (m ≫= k).
Proof. intros Hm Hk s. specialize (Hm s). unfold mbind, M_bind. destruct (m s) as [s' [a| | | |]]; cbn in *; [by rewrite (Hk a s')|done..]. Qed.
Lemma keeps_match_ready {E E' A B} (m : M S E A) (ok : A -> M S E' B) err : keeps f m -> (forall a, keeps f (ok a)) -> (forall e, keeps f (err e)) -> keeps f (match_ready m ok err).
Proof. intros Hm Hok Herr s. specialize (Hm s). unfold match_ready. destruct (m s) as [s' [a|e| | |]]; cbn in *; [by rewrite (Hok a s')|by rewrite (Herr e s')|done..]. Qed.
Lemma keeps_zoom {E A U} (get1 : S -> U) (set1 : U -> S -> S) (m : M U E A) : (forall s, f (set1 (m (get1 s)).1 s) = f s) -> keeps f (zoom get1 set1 m).
Proof. intros Hz s. specialize (Hz s). unfold zoom. by destruct (m (get1 s)). Qed.
End keeps.

Ltac keep :=
  repeat first
    [ apply keeps_ret | apply keeps_fail | apply keeps_pend | apply keeps_get | apply keeps_expect
    | apply keeps_modify; intros [] ; reflexivity
    | apply keeps_zoom; intros []; reflexivity
    | apply keeps_bind; [|intros ?] | apply keeps_match_ready; [|intros ?|intros ?]
    | case_match ].

Section kept.
Context {X Y Dg Hm Bs B : Type} `{HeaderSyntax} `{HeaderMap Hm} `{H3SendOps X Hm} `{RequestDatagrams Dg} `{Buf B} `{HttpBody Bs B Hm}.

Lemma h3_pipe_poll_code : keeps (fun p : H3Pipe X Dg Bs B => sg_code (hp_send p)) h3_pipe_poll.
Proof.
  assert (keeps (fun p : H3Pipe X Dg Bs B => sg_code (hp_send p)) check_stopped) as Hc.
  { intros p. unfold check_stopped, on_stream, zoom. destruct (hs_poll_stopped _) as [x []]; done. }
  assert (keeps (fun p : H3Pipe X Dg Bs B => sg_code (hp_send p)) pipe_next) as Hn by (unfold pipe_next, pipe_frame; keep).
  assert (keeps (fun p : H3Pipe X Dg Bs B => sg_code (hp_send p)) h3_pipe_round) as Hr.
  { unfold h3_pipe_round, pipe_finish. apply keeps_bind; [keep|intros p]. destruct (hp_finishing p); [keep|]. apply keeps_bind; [exact Hc|intros []]; [keep|]. keep; exact Hn. }
  assert (forall n, keeps (fun p : H3Pipe X Dg Bs B => sg_code (hp_send p)) (h3_pipe_loop n)) as Hl.
  { induction n as [|n IH]; cbn [h3_pipe_loop]; [keep|]. apply keeps_bind; [exact Hr|intros []; [keep|exact IH]]. }
  unfold h3_pipe_poll. apply keeps_bind; [keep|intros p]. destruct (sg_finished _); [keep|apply Hl].
Qed.
End kept.

(** ** Lengths of responses *)

Section response_length.
Context `{HeaderSyntax} `{HeaderMap Hm}.
Definition natural (n : option Z) : Prop := match n with Some n => 0 <= n | None => True end.

Lemma length_items_natural items cl r : natural cl -> length_items items cl = Ok r -> natural r.
Proof.
  revert cl. induction items as [|i items IH]; intros cl Hc; cbn [length_items]; [by intros [= <-]|]. destruct (_ || _) eqn:Eb; [done|]. apply orb_false_iff in Eb as [_ Ed].
  unfold parse_u64_digits. destruct (_ <=? U64_MAX); [|done]. destruct (match cl with Some n => _ | None => _ end); [done|]. apply IH. cbn.
  apply of_digits_acc_mono; [lia|lia|]. apply Forall_map, Forall_forall. intros b Hb. apply negb_false_iff in Ed. rewrite forallb_forall in Ed. specialize (Ed b ltac:(by apply list_elem_of_In)).
  unfold is_ascii_digit, in_range in Ed. zbool. lia.
Qed.

Lemma length_values_natural values cl r : natural cl -> length_values values cl = Ok r -> natural r.
Proof.
  revert cl. induction values as [|v values IH]; intros cl Hc; cbn [length_values]; [by intros [= <-]|]. destruct (hv_to_str v); [|done].
  destruct (length_items _ cl) as [cl'|] eqn:E; [|done]. cbn. apply IH. by eapply length_items_natural.
Qed.

Lemma response_length_natural b st (h : Hm) r : response_length b st h = Ok r -> natural r.
Proof.
  unfold response_length, h3_content_length. destruct (length_values _ None) as [n|] eqn:E; [|done]. cbn. intros [= <-]. apply length_values_natural in E; [|done]. by destruct (_ || _).
Qed.
End response_length.

(** ** What the future owns *)

(** A stream it opens is fresh. *)
Class H3OpenerLaws (O X Y U Hm : Type) `{H3Opener O X Y U Hm} `{H3SendLaws X Hm} `{H3RecvLaws Y Hm} `{!H3HeadLaws Y Hm} : Prop :=
  opener_sound : forall m u h p (o o' : O) (r : outcome H3StreamError (Z * (X * Y))), h3_send_request m u h p o = (o', r) -> sound r /\
    match r with Ready (_, (x, y)) => hs_sent x = [] /\ hr_log y = [] /\ hr_stops y = [] /\ hr_heads y = [] | _ => True end.

Section laws.
Context {O U X Y Dg Hm Bs B : Type} `{HSL : HeaderSyntaxLaws} `{HM : HeaderMap Hm} `{BL : BufLaws B} `{SO : !H3SendOps X Hm} `{SL : !H3SendLaws X Hm} `{RO : !H3RecvOps Y Hm}
  `{RL : !H3RecvLaws Y Hm} `{HL : !H3HeadLaws Y Hm} `{DG : RequestDatagrams Dg} `{HB : HttpBody Bs B Hm} `{HBL : !HttpBodyLaws Bs B Hm} `{OP : !H3Opener O X Y U Hm} `{OL : !H3OpenerLaws O X Y U Hm}.
Abbreviation Bd := (Watched Bs B Hm).
Abbreviation Fut := (ReqFut (O := O) (U := U) (X := X) (Y := Y) (Dg := Dg) (Hm := Hm) (Bs := Bd) (B := B)).
Abbreviation Side := (SendSide (X := X) (Dg := Dg) (Bs := Bd) (B := B)).
Abbreviation Rr := (H3Request U Hm Bd).
Implicit Types (f : Fut) (s : Side) (n : option Z).

(** The code a dropped half is aborted with: that of an invalid Datagram first. *)
Definition reset_code (d : option Dg) (c : Code) : Code := match d with Some d => if dg_invalid d then dg_invalid_code d else c | None => c end.

(** A send half in use, and one that was dropped: it has been ended or was reset once. *)
Definition side_ok n s : Prop :=
  match s with
  | SNone => True
  | SHalf g => hs_sent (sg_stream g) = (if sg_finished g then [HFin] else [])
  | SPipe p => ended n p
  end.
Definition side_over n s : Prop :=
  match s with
  | SNone => True
  | SHalf g => hs_sent (sg_stream g) = [if sg_finished g then HFin else HStop (reset_code (sg_datagrams g) (sg_code g))]
  | SPipe p => (finished p = true /\ whole n p) \/
      (finished p = false /\ exists chunks tr, sent p = chunked chunks tr ++ [HStop (reset_code (sg_datagrams (hp_send p)) (sg_code (hp_send p)))] /\ concat chunks `prefix_of` given_data p)
  end.
Definition side_code s : Code := match s with SNone => H3_REQUEST_CANCELLED | SHalf g => sg_code g | SPipe p => sg_code (hp_send p) end.

Lemma side_drop_over n s : side_ok n s -> side_over n (side_drop s).
Proof.
  destruct s as [|g|p]; cbn; [done| |].
  - unfold send_guard_drop. destruct (sg_finished g) eqn:Ef; cbn; rewrite ?Ef; [done|]. intros E. by rewrite hs_stop_law, E.
  - intros [[Hf Hw]|[Hf (chunks & tr & E1 & E2 & _)]]; unfold h3_pipe_drop, send_guard_drop; unfold finished in Hf; rewrite Hf; [left|right].
    + split; [done|]. by destruct p.
    + split; [done|]. exists chunks, tr. split; [|done]. unfold sent in *. cbn. by rewrite hs_stop_law, E1.
Qed.

Lemma side_drop_code s : side_code (side_drop s) = side_code s.
Proof. destruct s as [|g|p]; cbn; [done|unfold send_guard_drop; by destruct (sg_finished g)|unfold h3_pipe_drop, send_guard_drop; by destruct (sg_finished _)]. Qed.

(** What the stream has answered: heads, or a failure. *)
Definition answers f : list (result H3StreamError (StatusCode * Hm)) := match rf_recv f with Some g => hr_heads (rg_stream g) | None => [] end.

(** The future owns an open stream: [cs] and [cr] are the codes of its halves. *)
Record owned f (cs cr : Code) : Prop := {
  ow_active : rf_active f = Some (MkActive true true);
  ow_events : rf_events f = [];
  ow_gone_recv : rf_gone_recv f = None;
  ow_recv : exists g, rf_recv f = Some g /\ reads g [] false /\ rg_code g = cr;
  ow_side : side_ok (rf_length f) (rf_send f);
  ow_code : side_code (rf_send f) = cs;
  ow_gone : match rf_gone_send f with SNone => True | s => rf_send f = SNone /\ side_over (rf_length f) s /\ side_code s = H3_REQUEST_CANCELLED end;
  ow_length : match rf_length f with Some n => 0 <= n | None => True end;
  ow_body : (q_body (rf_req f)).1.2 = [] /\ (q_body (rf_req f)).2 = false;
}.

(** Nothing is left of it: its place is given back, the receive half was stopped once with
    [c], and the send half was ended or reset once. *)
Definition released f (c : Code) : Prop :=
  rf_stage f = RqOver /\ rf_active f = None /\ rf_send f = SNone /\ rf_recv f = None /\ rf_events f = [PermitBack; ExchangeOver] /\
  side_over (rf_length f) (rf_gone_send f) /\ (side_code (rf_gone_send f) = c \/ side_code (rf_gone_send f) = H3_REQUEST_CANCELLED) /\
  match rf_gone_recv f with
  | Some g => hr_stops (rg_stream g) = [reset_code (rg_datagrams g) c] /\ hr_log (rg_stream g) = []
  | None => rf_gone_send f = SNone
  end.

Lemma owned_gone f cs cr : owned f cs cr ->
  let s := match rf_send f with SNone => rf_gone_send f | s => side_drop s end in side_over (rf_length f) s /\ (side_code s = cs \/ side_code s = H3_REQUEST_CANCELLED).
Proof.
  intros [_ _ _ _ Hs <- Hg _ _]. cbn. destruct (rf_send f) as [|g|p] eqn:Es.
  - destruct (rf_gone_send f); [by auto|destruct Hg as (_ & ? & ?); auto..].
  - split; [exact (side_drop_over _ (SHalf g) Hs)|left; exact (side_drop_code (SHalf g))].
  - split; [exact (side_drop_over _ (SPipe p) Hs)|left; exact (side_drop_code (SPipe p))].
Qed.

Lemma drop_released f cs cr : owned f cs cr -> cs = cr \/ cs = H3_REQUEST_CANCELLED -> released (rq_drop f) cr.
Proof.
  intros Ho Hc. destruct (owned_gone f cs cr Ho) as [G1 G2]. destruct Ho as [E1 E2 E3 (g & Eg & (R1 & R2 & R3) & Ec) _ _ _ _ _].
  unfold released, rq_drop. cbn. rewrite E1, E2, Eg. split_and!; try done.
  - destruct G2 as [G2|G2]; [|by right]. destruct Hc as [<- | ->]; [left; exact G2|right; exact G2].
  - unfold recv_guard_drop. rewrite R3. cbn. rewrite (proj1 (hr_stop_law _ _)), R2, <-Ec. by destruct (rg_datagrams g).
  - unfold recv_guard_drop. rewrite R3. cbn. by rewrite (proj2 (hr_stop_law _ _)).
Qed.

(** ** The stages *)

(** A final head of the response; one of a CONNECT is not a success. *)
Definition head_ok (r : Rr) (h : StatusCode * Hm) : Prop := is_informational h.1 = false /\ (is_connect r = true -> is_success h.1 = false).
Definition initial_ok (r : Rr) (initial : option (StatusCode * Hm)) : Prop := match initial with Some h => head_ok r h | None => is_connect r = false end.
Definition half_fresh s : Prop := exists g, s = SHalf g /\ sg_finished g = false.
Definition piped_ok n s : Prop := match s with SPipe p => h3_piped n p | _ => True end.

(** The stream answered with interim heads, and with [initial] after them. *)
Definition answered f (initial : option (StatusCode * Hm)) : Prop :=
  exists skipped, Forall interim skipped /\ answers f = (Ok <$> skipped) ++ match initial with Some h => [Ok h] | None => [] end.

Definition waits f : Prop :=
  match rf_stage f with
  | RqConnect => is_connect (rf_req f) = true /\ half_fresh (rf_send f) /\ answered f None
  | RqFinish initial => half_fresh (rf_send f) /\ initial_ok (rf_req f) initial /\ answered f initial
  | RqHead => is_connect (rf_req f) = false /\ piped_ok (rf_length f) (rf_send f) /\ answered f None
  | _ => False
  end.

(** Before the stream is open. *)
Definition opening f : Prop :=
  rf_stage f = RqOpen /\ rf_active f = Some (MkActive true true) /\ rf_events f = [] /\ rf_gone_recv f = None /\ rf_recv f = None /\ rf_send f = SNone /\ rf_gone_send f = SNone /\
  natural (rf_length f) /\ (q_body (rf_req f)).1.2 = [] /\ (q_body (rf_req f)).2 = false.

Abbreviation CAN := H3_REQUEST_CANCELLED.
Definition live f : Prop := opening f \/ (waits f /\ owned f CAN CAN).

(** What is delivered: a tunnel has both halves untouched, a response its link as it is
    made, with what goes on sending. *)
Definition delivered (r : Rr) n (d : Delivered (X := X) (Y := Y) (Dg := Dg) (Hm := Hm) (Bs := Bd) (B := B)) : Prop :=
  match d with
  | DTunnel st h send recv a _ => is_connect r = true /\ is_success st = true /\ (is_connect_udp r = true -> breaks_capsule_protocol st h = false) /\
      hs_sent (sg_stream send) = [] /\ sg_finished send = false /\ reads recv [] false /\ a = MkActive true true
  | DBody st h k => head_ok r (st, h) /\ (exists m, response_length (bool_decide (q_method r = HEAD)) st h = Ok m /\ h3_link m [] k) /\
      match lk_pipe k with
      | None => True
      | Some SNone => False
      | Some (SHalf g) => sg_finished g = true /\ hs_sent (sg_stream g) = [HFin]
      | Some (SPipe p) => h3_piped n p
      end
  end.

(** It owns nothing any more, and what it dropped before was settled. *)
Definition handed f : Prop :=
  rf_stage f = RqOver /\ rf_active f = None /\ rf_send f = SNone /\ rf_recv f = None /\ rf_events f = [] /\ rf_gone_recv f = None /\ side_over (rf_length f) (rf_gone_send f).

(** A head that breaks the rules for responses, with the error it is refused with. *)
Definition malformed (r : Rr) (h : StatusCode * Hm) (e : Error) : Prop :=
  refused_interim h e \/ (is_informational h.1 = false /\ h3_content_length h.2 = Err e) \/
  (is_connect_udp r = true /\ is_success h.1 = true /\ breaks_capsule_protocol h.1 h.2 = true /\ e = new_h3 (CauseText "CONNECT-UDP response breaks the Capsule Protocol")).

(** A failure [e], after the answers [said], and the code it aborts the stream with: that
    of the stream's own fault, H3_MESSAGE_ERROR for a malformed head, and else
    H3_REQUEST_CANCELLED. The FIN of an empty body can fail before a head is looked at. *)
Inductive failure (r : Rr) (said : list (result H3StreamError (StatusCode * Hm))) : Error -> Code -> Prop :=
| fl_stream x : last said = Some (Err x) -> failure r said (new_h3 (CauseH3Stream x)) (match x with H3StreamFault code _ => code | _ => CAN end)
| fl_malformed h e : last said = Some (Ok h) -> malformed r h e -> failure r said e H3_MESSAGE_ERROR
| fl_own e : (forall x, last said ≠ Some (Err x)) -> (forall h e', last said = Some (Ok h) -> malformed r h e' -> exists x, e = new_h3 (CauseH3Stream x)) -> failure r said e CAN.

(** The codes of the halves as they are dropped: the FIN of an empty body keeps its own. *)
Definition coded f (c : Code) : Prop :=
  match rf_recv f with Some g => rg_code g = c | None => True end /\
  match rf_send f with SNone => True | SHalf g => sg_code g = c \/ (sg_code g = CAN /\ is_connect_udp (rf_req f) = false) | SPipe p => sg_code (hp_send p) = c end.

(** The error of a failure [e]: that of the connection comes first. *)
Definition shown (ce : option Error) (e e' : Error) : Prop := e' = e \/ e' = error_or_of ce e.

Definition rq_post (ce : option Error) (o : outcome (TrySend (U := U) (Hm := Hm) (Bs := Bd)) Delivered) f : Prop :=
  match o with
  | Pending => live f
  | Failed t => ts_message t = None /\ exists f1 e c, f = rq_drop f1 /\ coded f1 c /\ released f c /\ shown ce e (ts_error t) /\ failure (rf_req f) (answers f1) e c
  | Ready d => handed f /\ delivered (rf_req f) (rf_length f) d
  | Panicked | NoFuel => False
  end.

Lemma rq_lost_post ce f cs cr e e' : owned f cs cr -> cs = cr \/ cs = CAN -> coded f cr -> shown ce e e' -> failure (rf_req f) (answers f) e cr -> wp (rq_lost e') (rq_post ce) f.
Proof. intros Ho Hc Hd He Hf. split; [done|]. exists f, e, cr. split_and!; try done; by eapply drop_released. Qed.

(** Only interim heads so far: the failure is not the response's. *)
Lemma failure_interim f e : answered f None -> failure (rf_req f) (answers f) e CAN.
Proof.
  intros (sk & Hi & ->). rewrite app_nil_r. apply fl_own.
  - intros x Hx%last_Some_elem_of%list_elem_of_fmap. by destruct Hx as (? & ? & _).
  - intros h e' Hx%last_Some_elem_of%list_elem_of_fmap. destruct Hx as (h' & [= <-] & Hx). rewrite Forall_forall in Hi. destruct (Hi _ Hx) as (I1 & I2 & n & I3).
    intros [[_ [[? _]|?]]|[[? _]|(_ & Hs & _)]]; try congruence. unfold is_informational, is_success, in_range in *. zbool. lia.
Qed.

Lemma response_kept : keeps (fun g : RecvGuard Y Dg => (hr_log (rg_stream g), hr_stops (rg_stream g), rg_finished g)) response_poll.
Proof.
  assert (keeps (fun g : RecvGuard Y Dg => (hr_log (rg_stream g), hr_stops (rg_stream g), rg_finished g)) response_head) as Hh.
  { unfold response_head. apply keeps_match_ready; [|intros [st h]; keep|intros e; keep]. apply keeps_zoom. intros g. destruct (hr_poll_response (rg_stream g)) as [y o] eqn:E.
    apply hr_head_law in E as (_ & E1 & E2). cbn. by rewrite E1, E2. }
  unfold response_poll. generalize 32%nat as k. induction k as [|k IH]; cbn [response_loop]; [keep|]. apply keeps_bind; [exact Hh|]. intros [h|]; [keep|exact IH].
Qed.

Lemma rq_response_post f : owned f CAN CAN -> answered f None -> wp rq_response (fun o f' => rf_stage f' = rf_stage f /\ rf_req f' = rf_req f /\ rf_length f' = rf_length f /\ rf_send f' = rf_send f /\
  match o with
  | Ready (Some h) => is_informational h.1 = false /\ owned f' CAN CAN /\ answered f' (Some h)
  | Ready None | Pending => owned f' CAN CAN /\ answered f' None
  | Failed e => exists c, owned f' CAN c /\ failure (rf_req f) (answers f') e c
  | _ => False
  end) f.
Proof.
  intros [E1 E2 E3 (g & Eg & Hr & Ec) E5 E6 E7 E8 E9] (sk0 & Hi0 & Ea). unfold wp, rq_response. unfold answers in Ea. rewrite Eg in *. rewrite app_nil_r in Ea.
  pose proof (h3_response_loop_spec 32 g) as Hp. pose proof (response_kept g) as Hk.
  unfold wp in Hp. unfold response_poll in *. destruct (response_loop 32 g) as [g' o]. cbn in Hk. injection Hk as K1 K2 K3. destruct Hp as (sk & Hi & Hp).
  split_and!; [done|done|done|done|]. assert (reads g' [] false) as Hr' by (destruct Hr as (R1 & R2 & R3); split_and!; congruence).
  assert (forall c, rg_code g' = c -> owned (set_rf_recv (Some g') f) CAN c) as Hc by (intros c Hc; split; try done; by exists g').
  cbv zeta in Hp. rewrite Ea, <-fmap_app in Hp. assert (Forall interim (sk0 ++ sk)) as Hint by (by apply Forall_app). destruct o as [[h|]|e| | |]; try done.
  - destruct Hp as (? & ? & ?). split_and!; [done|apply Hc; congruence|by exists (sk0 ++ sk)].
  - destruct Hp as (? & _ & ?). split; [apply Hc; congruence|]. exists (sk0 ++ sk). by rewrite app_nil_r.
  - exists (rg_code g'). split; [by apply Hc|]. unfold answers. cbn [rf_recv set_rf_recv]. destruct Hp as [(h & Eh & Hmf & Ecode)|(x & Eh & -> & Ecode)].
    + rewrite Ecode. apply (fl_malformed _ _ h); [by rewrite Eh, last_snoc|by left].
    + replace (rg_code g') with (match x with H3StreamFault code _ => code | _ => CAN end) by (rewrite Ecode; by destruct x). apply fl_stream. by rewrite Eh, last_snoc.
  - destruct Hp as (? & ?). split; [apply Hc; congruence|]. exists (sk0 ++ sk). by rewrite app_nil_r.
Qed.

Section stages.
Context (ce : option Error) (invalid late : bool) (register : option (Z -> bool -> Dg)).

Lemma rq_respond_post f st h m pipe refused cs : owned f cs CAN -> head_ok (rf_req f) (st, h) -> response_length (bool_decide (q_method (rf_req f) = HEAD)) st h = Ok m ->
  side_over (rf_length f) (rf_gone_send f) ->
  match pipe with None => True | Some SNone => False | Some (SHalf g) => sg_finished g = true /\ hs_sent (sg_stream g) = [HFin] | Some (SPipe p) => h3_piped (rf_length f) p end ->
  wp (rq_respond ce late register st h m pipe refused) (rq_post ce) f.
Proof.
  intros [E1 E2 E3 (g & Eg & Hr & Ec) _ _ _ _ _] Hh Hlen Hg Hp. unfold wp, rq_respond. rewrite Eg, E1. split; [by split_and!|]. cbn [rf_req rf_length rq_hand_over delivered].
  set (k := recv_body_new _ _ _ _ _ _ _). assert (h3_link m [] k) as Hk by (apply hl_new; [done|]; exact (response_length_natural _ _ _ _ Hlen)).
  assert (lk_pipe k = pipe) as Ep by done. split; [done|]. destruct (some_b register && late); split; try (exists m; split; [done|]); [by apply hl_cancel| |done|by rewrite Ep].
  unfold link_cancel. cbn [lk_pipe]. by rewrite Ep.
Qed.

Lemma owned_recode f cs cr c : owned f cs cr -> owned (recode c f) (match rf_send f with SNone => CAN | _ => c end) c.
Proof.
  intros [E1 E2 E3 (g & Eg & Hr & Ec) E5 E6 E7 E8 E9]. split; try done; cbn.
  - rewrite Eg. by exists (set_rg_code c g).
  - by destruct (rf_send f).
  - by destruct (rf_send f).
  - destruct (rf_gone_send f); [done|destruct E7 as (-> & ? & ?); done..].
Qed.

Lemma malformed_length (r : Rr) h b e : is_informational h.1 = false -> response_length b h.1 h.2 = Err e -> malformed r h e.
Proof. unfold response_length. intros Hi. destruct (h3_content_length h.2) as [n|e'] eqn:E; [by destruct (_ || _)|]. intros [= <-]. right. by left. Qed.

Lemma failure_malformed f h e : answered f (Some h) -> malformed (rf_req f) h e -> failure (rf_req f) (answers f) e H3_MESSAGE_ERROR.
Proof. intros (sk & _ & E) Hmf. apply (fl_malformed _ _ h); [by rewrite E, last_snoc|done]. Qed.

Lemma failure_stopped f initial x : answered f initial -> failure (rf_req f) (answers f) (new_h3 (CauseH3Stream x)) CAN.
Proof.
  intros Ha. destruct initial as [h|]; [|by apply failure_interim]. destruct Ha as (sk & _ & ->). apply fl_own; [intros y; by rewrite last_snoc|]. intros. by eexists.
Qed.

Lemma rq_deliver_post f h : owned f CAN CAN -> head_ok (rf_req f) h -> answered f (Some h) -> piped_ok (rf_length f) (rf_send f) -> wp (rq_deliver ce late register h) (rq_post ce) f.
Proof.
  intros Ho Hh Ha Hp. pose proof Ho as [E1 E2 E3 (g & Eg & Hr & Ec) E5 E6 E7 E8 E9]. destruct h as [st h]. unfold rq_deliver. do 2 wp_step. cbn [fst snd].
  destruct (response_length _ st h) as [m|e] eqn:Em.
  2: { do 2 wp_step. pose proof (failure_malformed f _ e Ha (malformed_length _ (st, h) _ _ (proj1 Hh) Em)) as Hf.
    assert (forall f', rf_req f' = rf_req f -> (exists g', rf_recv f' = Some g' /\ rg_stream g' = rg_stream g) -> failure (rf_req f') (answers f') e H3_MESSAGE_ERROR) as Hf'.
    { intros f' Er (g' & Eg' & Es'). revert Hf. unfold answers. by rewrite Er, Eg, Eg', Es'. }
    assert (coded (recode H3_MESSAGE_ERROR f) H3_MESSAGE_ERROR) as Hco by (split; cbn; [by rewrite Eg|destruct (rf_send f); auto]).
    assert (rf_recv (recode H3_MESSAGE_ERROR f) = Some (set_rg_code H3_MESSAGE_ERROR g)) as Erc by (cbn; by rewrite Eg).
    unfold recode_unfinished. destruct (rf_send f) as [|sg|p] eqn:Es.
    - eapply rq_lost_post; [by apply (owned_recode f CAN CAN)|rewrite Es; by right|done|by left|apply Hf'; [done|by eexists]].
    - destruct (is_connect_udp _) eqn:Eu; [eapply rq_lost_post; [by apply (owned_recode f CAN CAN)|rewrite Es; by left|done|by left|apply Hf'; [done|by eexists]]|].
      eapply (rq_lost_post _ _ CAN H3_MESSAGE_ERROR); [|by right|split; cbn; rewrite ?Eg, ?Es; [done|auto]|by left|apply Hf'; [done|cbn; rewrite Eg; by eexists]].
      split; try done; cbn; [rewrite Eg; by exists (set_rg_code H3_MESSAGE_ERROR g)|by rewrite Es|by rewrite Es|by rewrite Es].
    - eapply rq_lost_post; [by apply (owned_recode f CAN CAN)|rewrite Es; by left|done|by left|apply Hf'; [done|by eexists]]. }
  destruct (rf_send f) as [|sg|p] eqn:Es.
  - eapply rq_respond_post; try done. by destruct (rf_gone_send f); [|destruct E7 as (_ & ? & _)..].
  - assert (rf_gone_send f = SNone) as Egn by (destruct (rf_gone_send f); [done|by destruct E7..]). destruct (is_connect_udp _); [eapply rq_respond_post; try done; by rewrite Egn|].
    destruct (sg_finished sg) eqn:Ef.
    + destruct (hs_poll_stopped (sg_stream sg)) as [x o] eqn:E. apply hs_stopped_law in E as [Ex Hs]. cbn in E5. rewrite Ef in E5.
      assert (owned (set_rf_send (SHalf (set_sg_stream x sg)) f) CAN CAN) as Ho' by (split; try done; cbn; [by exists g|by rewrite Ef, Ex|by rewrite Egn]).
      destruct o as [c|e| | |]; try done.
      * do 2 wp_step. destruct (owned_gone _ _ _ Ho') as [G1 G2]. eapply (rq_respond_post _ _ _ _ _ _ CAN); try done. split; try done; cbn; [by exists g|].
        split_and!; [done|exact G1|]. by destruct G2.
      * do 2 wp_step. eapply rq_lost_post; [exact Ho'|by left|split; cbn; rewrite ?Eg; auto|by right|by apply (failure_stopped f (Some (st, h)))].
      * eapply rq_respond_post; try done; [by rewrite Egn|]. cbn. by rewrite Ex.
    + do 2 wp_step. destruct (owned_gone _ _ _ Ho) as [G1 G2]. rewrite Es in G1, G2.
      eapply (rq_respond_post _ _ _ _ _ _ CAN); try done; [|cbn; by rewrite Es]. split; try done; cbn; rewrite ?Es; [by exists g|]. split_and!; [done|exact G1|]. by destruct G2.
  - eapply rq_respond_post; try done. by destruct (rf_gone_send f); [|destruct E7 as (? & _)..].
Qed.

Lemma rq_head_lost_post f cr e : owned f CAN cr -> is_connect (rf_req f) = false -> failure (rf_req f) (answers f) e cr -> wp (rq_head_lost ce e) (rq_post ce) f.
Proof.
  intros Ho Hnc Hf. pose proof Ho as [E1 E2 E3 (g & Eg & Hr & Ec) E5 E6 E7 E8 E9]. unfold wp, rq_head_lost. rewrite Eg. assert (is_connect_udp (rf_req f) = false) as Hu by (unfold is_connect_udp; by rewrite Hnc).
  destruct (rf_send f) as [|sg|p] eqn:Es.
  - eapply rq_lost_post; [done|by right|split; by rewrite ?Eg, ?Es|by right|done].
  - eapply rq_lost_post; [done|by right|split; rewrite ?Eg, ?Es; auto|by right|done].
  - eapply (rq_lost_post _ _ cr cr); [|by left|split; cbn; by rewrite ?Eg|by right|done]. split; try done; cbn; [by exists g|]. destruct (rf_gone_send f); [done|by destruct E7..].
Qed.

(** A poll that waits goes on from where it is. *)
Lemma rq_head_response_post f : owned f CAN CAN -> waits f -> rf_stage f = RqHead -> wp (rq_head_response ce invalid late register) (rq_post ce) f.
Proof.
  intros Ho Hw Es. unfold waits in Hw. rewrite Es in Hw. destruct Hw as (Hc & Hp & Ha). unfold rq_head_response.
  destruct invalid; [eapply rq_head_lost_post; [done..|by apply failure_interim]|].
  wp_step. eapply wp_mono; [by apply rq_response_post|]. intros o f' (K1 & K2 & K3 & K4 & Hf).
  assert (answered f' None -> waits f') as Hw by (intros ?; unfold waits; rewrite K1, Es, K2, K3, K4; done). destruct o as [[h|]|e| | |]; try done.
  - destruct Hf as (Hi & Ho' & Ha'). apply rq_deliver_post; [done|split; [done|rewrite K2; congruence]|done|by rewrite K3, K4].
  - destruct Hf. right. auto.
  - destruct Hf as (c & Ho' & Hf). eapply rq_head_lost_post; [done|by rewrite K2|by rewrite K2].
  - destruct Hf. right. auto.
Qed.

Lemma owned_pipe f p p' o : owned f CAN CAN -> rf_send f = SPipe p -> h3_piped (rf_length f) p -> h3_pipe_poll p = (p', o) ->
  owned (set_rf_send (SPipe p') f) CAN CAN /\ sound o /\ (o = Pending -> h3_piped (rf_length f) p').
Proof.
  intros [E1 E2 E3 E4 E5 E6 E7 E8 E9] Es Hp E. destruct (h3_piped_piping _ _ Hp) as (chunks & tr & Hpp). pose proof (wp_elim _ _ _ _ _ (h3_pipe_poll_post _ _ _ _ Hpp) E) as Hpost.
  assert (ended (rf_length f) p') as He by (destruct o as [|e| | |]; try done; destruct Hpost as (c' & t' & Hp'); by eapply piping_ended).
  split_and!; [|by destruct o|intros ->; by eapply hpi_poll]. split; try done; cbn.
  - pose proof (h3_pipe_poll_code p) as Hc. rewrite E in Hc. cbn in Hc. rewrite Hc. by rewrite Es in E6.
  - destruct (rf_gone_send f); [done|destruct E7 as [E7 _]; congruence..].
Qed.

Lemma rq_head_poll_post f : owned f CAN CAN -> waits f -> rf_stage f = RqHead -> wp (rq_head_poll ce invalid late register) (rq_post ce) f.
Proof.
  intros Ho Hw Es. unfold wp, rq_head_poll. destruct (rf_send f) as [|sg|p] eqn:Esd; [by apply rq_head_response_post..|].
  pose proof Hw as Hw'. unfold waits in Hw'. rewrite Es in Hw'. destruct Hw' as (Hc & Hp & Ha). rewrite Esd in Hp. destruct (h3_pipe_poll p) as [p' o] eqn:E.
  destruct (owned_pipe f p p' o Ho Esd Hp E) as (Ho' & Hs & Hpp). destruct o as [[]|e| | |]; try done.
  - apply rq_head_response_post; [|unfold waits; cbn; by rewrite Es|done]. destruct (owned_gone _ _ _ Ho') as [G1 G2]. destruct Ho' as [E1 E2 E3 E4 E5 E6 E7 E8 E9].
    split; try done. cbn. split_and!; [done|exact G1|by destruct G2].
  - eapply rq_head_lost_post; [done|done|by apply (failure_interim f)].
  - apply rq_head_response_post; [done|unfold waits; cbn; rewrite Es; split_and!; [done|by apply Hpp|done]|done].
Qed.

Lemma rq_head_post f initial : owned f CAN CAN -> initial_ok (rf_req f) initial -> answered f initial -> piped_ok (rf_length f) (rf_send f) -> wp (rq_head ce invalid late register initial) (rq_post ce) f.
Proof.
  intros Ho Hi Ha Hp. unfold rq_head. destruct initial as [h|]; [by apply rq_deliver_post|]. do 2 wp_step. apply rq_head_poll_post; [by destruct Ho|done|done].
Qed.

Lemma rq_finish_poll_post f initial : owned f CAN CAN -> initial_ok (rf_req f) initial -> answered f initial -> half_fresh (rf_send f) -> rf_stage f = RqFinish initial ->
  wp (rq_finish_poll ce invalid late register initial) (rq_post ce) f.
Proof.
  intros Ho Hi Ha (g & Es & Ef) Est. pose proof Ho as [E1 E2 E3 E4 E5 E6 E7 E8 E9]. unfold wp, rq_finish_poll. rewrite Es. rewrite Es in E5, E6. cbn in E5, E6. rewrite Ef in E5.
  destruct (finish_poll g) as [g' o] eqn:E. assert (rf_gone_send f = SNone) as Egn by (destruct (rf_gone_send f); [done|destruct E7 as [E7 _]; congruence..]).
  assert (sound o /\ hs_sent (sg_stream g') = (if sg_finished g' then [HFin] else []) /\ sg_code g' = CAN /\ (o = Pending -> sg_finished g' = false) /\ (forall e, o = Failed e -> exists x, e = new_h3 (CauseH3Stream x)))
    as (Hs & Hsent & Hc & Hpd & Hfl).
  { unfold finish_poll, match_ready, zoom in E. destruct (hs_poll_finish (sg_stream g)) as [x o1] eqn:Ex. apply hs_finish_law in Ex as [Ex Hs].
    destruct o1 as [[]|e| | |]; try done.
    - cbn in E. injection E as <- <-. cbn. by rewrite Ex, E5.
    - rewrite app_nil_r in Ex. assert (g' = set_sg_stream x g /\ sound o /\ o ≠ Pending /\ (forall e, o = Failed e -> exists x, e = new_h3 (CauseH3Stream x))) as (-> & Hso & Hnp & Hfl).
      { destruct e; injection E as <- <-; split_and!; try done; intros e' [= <-]; by eexists. }
      cbn. by rewrite Ef, Ex, E5.
    - injection E as <- <-. rewrite app_nil_r in Ex. cbn. by rewrite Ef, Ex, E5. }
  assert (owned (set_rf_send (SHalf g') f) CAN CAN) as Ho' by (split; try done; cbn; by rewrite Egn). destruct o as [[]|e| | |]; try done.
  - by apply rq_head_post.
  - destruct (Hfl e eq_refl) as [x ->]. destruct E4 as (g0 & Eg0 & _ & Ec0). eapply rq_lost_post; [done|by left|split; cbn; rewrite ?Eg0; auto|by right|by apply (failure_stopped f initial)].
  - right. split; [|done]. unfold waits. cbn. rewrite Est. split; [|done]. exists g'. auto.
Qed.

Lemma rq_body_post f initial : owned f CAN CAN -> initial_ok (rf_req f) initial -> answered f initial -> half_fresh (rf_send f) -> wp (rq_body ce invalid late register initial) (rq_post ce) f.
Proof.
  intros Ho Hi Ha Hf. unfold wp, rq_body. destruct (is_connect_udp _); [apply rq_head_post; [done|done|done|by destruct Hf as (g & -> & _)]|].
  destruct (hb_is_end_stream _); [by apply rq_finish_poll_post; [destruct Ho| | | |]|]. destruct Hf as (g & Es & Ef). rewrite Es. pose proof Ho as [E1 E2 E3 E4 E5 E6 E7 E8 E9].
  rewrite Es in E5, E6. cbn in E5, E6. rewrite Ef in E5. assert (h3_piped (rf_length f) (h3_pipe_new g (q_body (rf_req f)) (rf_length f))) as Hp.
  { destruct (q_body (rf_req f)) as [[b l] ov]. cbn in E9. destruct E9 as [-> ->]. by apply hpi_new. }
  apply rq_head_post; [|done|done|done]. split; try done; cbn.
  - destruct (h3_piped_piping _ _ Hp) as (? & ? & ?). by eapply piping_ended.
  - destruct (rf_gone_send f); [done|destruct E7 as [E7 _]; congruence..].
Qed.

Lemma rq_connected_post f h : owned f CAN CAN -> is_connect (rf_req f) = true -> is_informational h.1 = false -> answered f (Some h) -> half_fresh (rf_send f) ->
  wp (rq_connected ce invalid late register h) (rq_post ce) f.
Proof.
  intros Ho Hc Hi Ha Hf. unfold wp, rq_connected. destruct (is_success h.1) eqn:Hs; [|by apply rq_body_post]. destruct (is_connect_udp (rf_req f) && _) eqn:Eb.
  - destruct Hf as (g & Es & _). destruct (ow_recv _ _ _ Ho) as (rg & Eg & _). apply andb_true_iff in Eb as [Eu Eb].
    eapply (rq_lost_post _ _ _ H3_MESSAGE_ERROR); [by apply (owned_recode f CAN CAN)|rewrite Es; by left|split; cbn; rewrite ?Eg, ?Es; [done|by left]|by right|].
    replace (answers (recode H3_MESSAGE_ERROR f)) with (answers f) by (unfold answers; cbn; by rewrite Eg). apply (failure_malformed f h); [done|]. right. right. by split_and!.
  - pose proof Ho as [E1 E2 E3 (g & Eg & Hr & Ec) E5 E6 E7 E8 E9]. destruct Hf as (sg & Es & Ef). rewrite Es, Eg, E1. rewrite Es in E5. cbn in E5. rewrite Ef in E5.
    assert (rf_gone_send f = SNone) as Egn by (destruct (rf_gone_send f); [done|destruct E7 as [E7 _]; congruence..]). split; [split_and!; try done; cbn; by rewrite Egn|].
    cbn. split_and!; try done. intros Hu. by rewrite Hu in Eb.
Qed.

Lemma rq_connect_poll_post f : owned f CAN CAN -> is_connect (rf_req f) = true -> half_fresh (rf_send f) -> answered f None -> rf_stage f = RqConnect ->
  wp (rq_connect_poll ce invalid late register) (rq_post ce) f.
Proof.
  intros Ho Hc Hf Ha Est.
  assert (forall f' c e, owned f' CAN c -> half_fresh (rf_send f') -> failure (rf_req f') (answers f') e c -> wp (modify recode_send;; rq_lost (error_or_of ce e)) (rq_post ce) f') as Hl.
  { intros f' c e Ho' (g' & Es' & _) Hfl. do 2 wp_step. destruct (ow_recv _ _ _ Ho') as (g & Eg & _ & Ec). unfold recode_send. rewrite Eg, Ec.
    eapply rq_lost_post; [by eapply owned_recode|rewrite Es'; by left|split; cbn; rewrite ?Eg, ?Es'; [done|by left]|by right|].
    replace (answers (recode c f')) with (answers f') by (unfold answers; cbn; by rewrite Eg). done. }
  unfold rq_connect_poll. destruct invalid; [eapply Hl; [done|done|by apply failure_interim]|]. wp_step. eapply wp_mono; [by apply rq_response_post|]. intros o f' (K1 & K2 & K3 & K4 & Hff).
  assert (half_fresh (rf_send f')) as Hf' by (by rewrite K4). assert (answered f' None -> waits f') as Hw by (intros ?; unfold waits; by rewrite K1, Est, K2). destruct o as [[h|]|e| | |]; try done.
  - destruct Hff as (Hi & Ho' & Ha'). apply rq_connected_post; congruence.
  - destruct Hff. right. auto.
  - destruct Hff as (c & Ho' & Hfl). eapply Hl; [done|done|by rewrite K2].
  - destruct Hff. right. auto.
Qed.

Lemma rq_poll_post f : live f -> wp (rq_poll ce invalid late register) (rq_post ce) f.
Proof.
  intros [(Est & E1 & E2 & E3 & E4 & E5 & E6 & E7 & E8)|[Hw Ho]]; unfold wp, rq_poll.
  - rewrite Est. unfold rq_open_poll. destruct (h3_send_request _ _ _ _ _) as [o' r] eqn:E. destruct (opener_sound _ _ _ _ _ _ _ E) as [Hs Hr].
    assert (forall e e', shown ce e e' -> rq_post ce (Failed (lost e')) (rq_drop (set_rf_opener o' f))) as Hl.
    { intros e e' He. split; [done|]. exists (set_rf_opener o' f), e, CAN. split_and!; [done|split; cbn; by rewrite ?E4, ?E5| |done|unfold answers; cbn; rewrite E4; by apply fl_own].
      unfold released. cbn. rewrite E1, E2, E3, E4, E5, E6. by split_and!; auto. }
    destruct r as [[id [x y]]|e| | |]; try done; [|eapply Hl; by right|by left]. destruct Hr as (Hx & Hy & Hz & Hh). unfold rq_opened. destruct (negb _); [eapply Hl; by left|].
    set (d := _ <$> register). set (f' := set_rf_recv _ _). assert (owned f' CAN CAN) as Ho.
    { split; try done; cbn; [by eexists|by rewrite E6]. }
    assert (answered f' None) as Ha by (exists []; split; [done|]; exact Hh).
    assert (half_fresh (rf_send f')) as Hf by (by eexists). destruct (is_connect (rf_req f')) eqn:Ec; [apply rq_connect_poll_post; [by destruct Ho|done..]|by apply rq_body_post].
  - pose proof Hw as Hw'. unfold waits in Hw'. destruct (rf_stage f) eqn:Est; try done.
    + destruct Hw' as (? & ? & ?). by apply rq_connect_poll_post.
    + destruct Hw' as (? & ? & ?). by apply rq_finish_poll_post.
    + by apply rq_head_poll_post.
Qed.
End stages.

(** ** Runs *)

(** A request that was admitted, as it is between polls: its future has just been made, or
    was polled and waits; the opener, the body and the stream move on their own, but give
    and take frames only through it. *)
Inductive h3_future : Fut -> Prop :=
| hf_new o (r : Rr) n b : natural n -> q_body r = ((b, [], false) : Bd) -> h3_future (rq_new o r n (MkActive true true))
| hf_poll f f' ce invalid late register : h3_future f -> rq_poll ce invalid late register f = (f', Pending) -> h3_future f'
| hf_opener f o : h3_future f -> h3_future (set_rf_opener o f)
| hf_recv f g y : h3_future f -> rf_recv f = Some g -> hr_log y = hr_log (rg_stream g) -> hr_stops y = hr_stops (rg_stream g) -> hr_heads y = hr_heads (rg_stream g) -> h3_future (set_rf_recv (Some (set_rg_stream y g)) f)
| hf_half f g x : h3_future f -> rf_send f = SHalf g -> hs_sent x = hs_sent (sg_stream g) -> h3_future (set_rf_send (SHalf (set_sg_stream x g)) f)
| hf_pipe f p x : h3_future f -> rf_send f = SPipe p -> hs_sent x = sent p -> h3_future (set_rf_send (SPipe (with_stream x p)) f)
| hf_body f p b : h3_future f -> rf_send f = SPipe p -> h3_future (set_rf_send (SPipe (set_hp_body ((b, given p, body_over p) : Bd) p)) f).

(** A send half that moved and gave nothing. *)
Lemma live_send f s : live f -> rf_send f ≠ SNone -> side_ok (rf_length f) s -> side_code s = side_code (rf_send f) -> (half_fresh (rf_send f) -> half_fresh s) ->
  (piped_ok (rf_length f) (rf_send f) -> piped_ok (rf_length f) s) -> live (set_rf_send s f).
Proof.
  intros [(_ & _ & _ & _ & _ & ? & _)|[Hw [E1 E2 E3 E4 E5 E6 E7 E8 E9]]] Hn Hs Hc Hf Hp; [done|]. right. split.
  - unfold waits in *. cbn. destruct (rf_stage f); try done; destruct Hw as (? & ? & ?); auto.
  - split; try done; cbn; [congruence|]. destruct (rf_gone_send f); [done|destruct E7 as [? _]; done..].
Qed.

Lemma h3_future_live f : h3_future f -> live f.
Proof.
  induction 1 as [o r n b Hn Hb|f f' ce invalid late register _ IH E|f o _ IH|f g y _ IH Eg Ed Es Eh|f g x _ IH Eg Ex|f p x _ IH Ep Ex|f p b _ IH Ep].
  - left. unfold opening. cbn [rq_new rf_stage rf_active rf_events rf_gone_recv rf_recv rf_send rf_gone_send rf_length rf_req]. rewrite Hb. by split_and!.
  - exact (wp_elim _ _ _ _ _ (rq_poll_post ce invalid late register f IH) E).
  - destruct IH as [IH|[Hw []]]; [by left|right]. by split.
  - destruct IH as [(_ & _ & _ & _ & ? & _)|[Hw [E1 E2 E3 (g' & Eg' & (R1 & R2 & R3) & Ec) E5 E6 E7 E8 E9]]]; [congruence|right]. rewrite Eg in Eg'. injection Eg' as <-. split.
    + revert Hw. unfold waits, answered, answers. cbn. by rewrite Eg, Eh.
    + split; try done. eexists. split; [done|]. split; [|done]. split_and!; cbn; [by rewrite Ed|congruence|done].
  - apply live_send; rewrite ?Eg; try done.
    + destruct IH as [(_ & _ & _ & _ & _ & ? & _)|[_ Ho]]; [congruence|]. pose proof (ow_side _ _ _ Ho) as Hs. rewrite Eg in Hs. cbn in *. by rewrite Ex.
    + intros (g' & [= <-] & Hf). by eexists.
  - destruct IH as [(_ & _ & _ & _ & _ & ? & _)|[Hw Ho]]; [congruence|]. pose proof (ow_side _ _ _ Ho) as Hs. rewrite Ep in Hs. apply live_send; rewrite ?Ep; try done; [by right| | |].
    + destruct Hs as [[Hf (Hb & chunks & tr & W1 & W2)]|[Hf (chunks & tr & W1 & W2)]]; [left|right]; (split; [done|]); [split; [done|]|]; exists chunks, tr; unfold sent in *; cbn; by rewrite Ex.
    + by intros (? & ? & _).
    + intros Hp. by apply hpi_stream.
  - destruct IH as [(_ & _ & _ & _ & _ & ? & _)|[Hw Ho]]; [congruence|]. pose proof (ow_side _ _ _ Ho) as Hs. rewrite Ep in Hs. apply live_send; rewrite ?Ep; try done; [by right| |].
    + by intros (? & ? & _).
    + intros Hp. by apply hpi_body.
Qed.

(** C6. An HTTP/3 request that was admitted never leaks its stream or its place. Dropping its
    future at any moment gives the place back once, stops the receive half exactly once
    and resets the send half exactly once unless it was ended, with H3_REQUEST_CANCELLED
    (or the code of an invalid Datagram). A poll that fails does the same with the code of
    the failure: that of the stream's fault, H3_MESSAGE_ERROR for a malformed head and
    H3_REQUEST_CANCELLED for the rest; its error is the failure's, or that of the
    connection, and it never claims the request can be returned. One that succeeds hands
    everything on untouched: both halves to a tunnel, exactly for a successful CONNECT,
    or the receive half and the place to the response's body, whose life starts here, with
    the pipe of the request's body or the FIN that waits for its acknowledgment. No poll
    panics. *)
Theorem h3_request_settles f : h3_future f -> released (rq_drop f) H3_REQUEST_CANCELLED /\
  forall ce invalid late register, wp (rq_poll ce invalid late register) (fun o f' =>
    match o with
    | Pending => rf_stage f' ≠ RqOver
    | Failed t => ts_message t = None /\ exists f1 e c, f' = rq_drop f1 /\ coded f1 c /\ released f' c /\ shown ce e (ts_error t) /\ failure (rf_req f') (answers f1) e c
    | Ready d => handed f' /\ delivered (rf_req f') (rf_length f') d
    | Panicked | NoFuel => False
    end) f.
Proof.
  intros Hf. apply h3_future_live in Hf. split.
  - destruct Hf as [(_ & E1 & E2 & E3 & E4 & E5 & E6 & _)|[_ Ho]]; [|by eapply drop_released; [|left]]. unfold released. cbn. rewrite E1, E2, E3, E4, E5, E6. by split_and!; auto.
  - intros ce invalid late register. eapply wp_mono; [by apply rq_poll_post|]. intros o f' Hp. destruct o; try done. destruct Hp as [(-> & _)|[Hw _]]; [done|]. intros Est. unfold waits in Hw. by rewrite Est in Hw.
Qed.
End laws.

(** ** A concrete request *)

Module ConcreteFuture.
Import Concrete ConcretePipe ConcreteUri ConcreteExchange.

(** A receive half: its heads still to come ([None] is a pause), those handed out, what
    it said of its data, and what it was asked to stop with. It has no data. *)
Record answer3 : Type := Answer3 { an_todo : list (option (StatusCode * hmap)); an_heads : list (result H3StreamError (StatusCode * hmap)); an_log : list (Said hmap); an_stops : list Code }.
#[export] Instance answer3_ops : H3RecvOps answer3 hmap := {
  hr_poll_response y := match an_todo y with
    | [] => (y, Pending)
    | None :: q => (Answer3 q (an_heads y) (an_log y) (an_stops y), Pending)
    | Some h :: q => (Answer3 q (an_heads y ++ [Ok h]) (an_log y) (an_stops y), Ready h)
    end;
  hr_poll_data y := (Answer3 (an_todo y) (an_heads y) (an_log y ++ [SaidDataEnd]) (an_stops y), Ready None);
  hr_poll_trailers y := (Answer3 (an_todo y) (an_heads y) (an_log y ++ [SaidEnd None]) (an_stops y), Ready None);
  hr_stop_sending c y := Answer3 (an_todo y) (an_heads y) (an_log y) (an_stops y ++ [c]);
}.
#[export] Instance answer3_laws : H3RecvLaws answer3 hmap.
Proof.
  refine {| hr_log := an_log; hr_stops := an_stops |}.
  - intros [[|[h|] q] hs l st] y' o; cbn; by intros [= <- <-].
  - by intros y y' o [= <- <-].
  - by intros y y' o [= <- <-].
  - done.
Defined.
#[export] Instance answer3_heads : H3HeadLaws answer3 hmap.
Proof. refine {| hr_heads := an_heads |}. intros [[|[h|] q] hs l st] y' o; cbn; intros [= <- <-]; by rewrite ?app_nil_r. Defined.

(** It opens a stream at once; the server answers 103 and, a poll later, 200. *)
#[export] Instance unit_opener : H3Opener unit wire3 answer3 uri hmap := fun _ _ _ _ o =>
  (o, Ready (0, (Wire3 [], Answer3 [Some (103, HMap []); None; Some (200, HMap [(H_CONTENT_LENGTH, bs "0")])] [] [] []))).
#[export] Instance unit_opener_laws : H3OpenerLaws unit wire3 answer3 uri hmap.
Proof. by intros m u h p o o' r [= <- <-]. Qed.

(** An upload of four bytes, cut by a pause. *)
Definition upload : H3Request uri hmap (Watched script bytes hmap) :=
  MkH3Request POST (Uri (bs "https://example.com/")) (HMap [(H_CONTENT_LENGTH, bs "4")]) None false None ([Some [97; 98]; None; Some [99; 100]], [], false).
Abbreviation Fut3 := (ReqFut (O := unit) (U := uri) (X := wire3) (Y := answer3) (Dg := unit) (Hm := hmap) (Bs := Watched script bytes hmap) (B := bytes)).
Definition future_0 : Fut3 := rq_new tt upload (Some 4) (MkActive true true).
Definition future_1 : Fut3 := Eval vm_compute in (rq_poll None false false None future_0).1.
Lemma polled_0 : rq_poll None false false None future_0 = (future_1, Pending).
Proof. by vm_compute. Qed.

Definition future_2 : Fut3 := Eval vm_compute in (rq_poll None false false None future_1).1.
Definition response_2 : Delivered := Eval vm_compute in match (rq_poll None false false None future_1).2 with Ready d => d | _ => DBody 0 (HMap []) (recv_body_new (MkRecvGuard None (Answer3 [] [] [] []) false 0) None (MkActive true true) false None None None) end.
Lemma polled_1 : rq_poll None false false None future_1 = (future_2, Ready response_2).
Proof. by vm_compute. Qed.

(** Dropped after its first poll it is cut; polled again it is answered. *)
Lemma h3_request_settles_witness :
  (exists p, rf_gone_send (rq_drop future_1) = SPipe p /\ sent p = [HData [97; 98]; HStop H3_REQUEST_CANCELLED]) /\ released (rq_drop future_1) H3_REQUEST_CANCELLED /\
  delivered upload (Some 4) response_2.
Proof.
  assert (h3_future future_1) as Hf by (refine (hf_poll future_0 future_1 None false false None _ polled_0); by eapply hf_new).
  destruct (h3_request_settles future_1 Hf) as [Hr Hp]. split; [by eexists|]. split; [exact Hr|].
  exact (proj2 (wp_elim _ _ _ _ _ (Hp None false false None) polled_1)).
Defined.
End ConcreteFuture.
