(* ===== verification/Http3Upgrade.v ===== *)
(** * Http3Upgrade

    CONNECT tunnels over HTTP/3 ([proto/http3/upgrade.rs]): the application's side
    ([H3Upgraded]) reads from a body channel and hands its writes to the task of the
    stream ([UpgradeTask]) through a channel of one place, with barriers that the task
    acknowledges; the task sends and receives until both directions are done or one of
    them fails.

    The channel of tokio with its [PollSender] and the halves of the stream are
    parameters; a [oneshot] is a cell that waits, was acknowledged or has lost its
    sender. The body channel is that of [BodyChan]. A poll of one side is one step. *)

From stdpp Require Import prelude strings.
From Stdlib Require Import ZArith Lia.
From S2P Require Import Prelude Bytes Crates Errors Headers Message WriteBuf Dispatcher HttpTunnel Datagram BodyChan Http3Shared Http3Exchange Http3ExchangeTheorems Http3Body Http3Request.
Local Open Scope Z_scope.

(** [mpsc::Receiver] and [PollSender]: sending needs a reservation; [tc_poll_recv] is [None]
    while it waits and [Some None] at the end; dropping the receiver drops the values in
    the channel. *)
Class TokioChan (Q A : Type) : Type := {
  tc_new : Q;
  tc_poll_reserve : M Q unit unit;
  tc_send_item : A -> M Q unit unit;
  tc_poll_recv : Q -> Q * option (option A);
  tc_drop_sender : Q -> Q;
  tc_drop_receiver : Q -> Q * list A;
}.

(** [enum Write]; an acknowledgment is named by its place among the cells. *)
Inductive Write : Type := WData (d : bytes) | WFlush (ack : nat) | WFinish (ack : nat).
Inductive AckCell : Type := AckWaits | AckOk | AckGone.

(** [io::Error]: [closed()], or what [io::Error::other] wraps. *)
Inductive TunError : Type := TClosed | TOther (e : Error).

Definition malformed_datagram_error : Error := new_h3 (CauseText "malformed HTTP Datagram or Capsule").
Definition headers_violation : string := "HEADERS frame after a CONNECT response".

(** ** Writing *)

Section writing.
Context {X Dg Hm Q : Type} `{H3SendOps X Hm} `{RequestDatagrams Dg} `{TokioChan Q Write}.

(** The writer of [H3Upgraded] with its [pending] and [shutdown], the channel and the cells,
    and [SendStream] (with its [finish]) while the task has it; [w_gone] is its guard after
    the drop. [w_wakes] counts the times the task has woken itself. *)
Record TWrite : Type := MkTWrite {
  w_pending : option (bool * nat); w_shutdown : bool; w_chan : Q; w_acks : list AckCell; w_send : option (SendGuard X Dg * option nat); w_gone : option (SendGuard X Dg); w_wakes : nat }.
Definition set_w_pending x w := MkTWrite x (w_shutdown w) (w_chan w) (w_acks w) (w_send w) (w_gone w) (w_wakes w).
Definition set_w_shutdown x w := MkTWrite (w_pending w) x (w_chan w) (w_acks w) (w_send w) (w_gone w) (w_wakes w).
Definition set_w_chan x w := MkTWrite (w_pending w) (w_shutdown w) x (w_acks w) (w_send w) (w_gone w) (w_wakes w).
Definition set_w_acks x w := MkTWrite (w_pending w) (w_shutdown w) (w_chan w) x (w_send w) (w_gone w) (w_wakes w).
Definition set_w_send x w := MkTWrite (w_pending w) (w_shutdown w) (w_chan w) (w_acks w) x (w_gone w) (w_wakes w).
Definition wake_w w := MkTWrite (w_pending w) (w_shutdown w) (w_chan w) (w_acks w) (w_send w) (w_gone w) (S (w_wakes w)).

Definition tw_new (send : SendGuard X Dg) : TWrite := MkTWrite None false tc_new [] (Some (send, None)) None 0.

(** A cell is settled once. *)
Definition settle (i : nat) (x : AckCell) (acks : list AckCell) : list AckCell := match acks !! i with Some AckWaits => <[i := x]> acks | _ => acks end.

(** [H3Upgraded::poll_ack]. *)
Definition poll_ack : M TWrite TunError unit :=
  w ← get;
  match w_pending w with
  | None => mret tt
  | Some (finish, i) =>
      match w_acks w !! i with
      | Some AckWaits => pend
      | Some AckOk => modify (fun w => set_w_shutdown (w_shutdown w || finish) (set_w_pending None w))
      | _ => modify (set_w_pending None);; fail TClosed
      end
  end.

Definition on_chan {A} (m : M Q unit A) : M TWrite TunError A := map_err (fun _ => TClosed) (zoom w_chan set_w_chan m).

(** [poll_barrier], after a barrier that was pending. *)
Definition barrier (finish : bool) : M TWrite TunError unit :=
  w ← get;
  if w_shutdown w then mret tt
  else
    on_chan tc_poll_reserve;;
    w ← get;
    let i := length (w_acks w) in
    modify (fun w => set_w_acks (w_acks w ++ [AckWaits]) w);;
    on_chan (tc_send_item (if finish then WFinish i else WFlush i));;
    modify (set_w_pending (Some (finish, i)));;
    poll_ack.

Definition poll_barrier (finish : bool) : M TWrite TunError unit :=
  w ← get;
  match w_pending w with
  | Some (pending_finish, _) => poll_ack;; if negb finish || pending_finish then mret tt else barrier finish
  | None => barrier finish
  end.

Definition tun_poll_write (buf : bytes) : M TWrite TunError Z :=
  poll_ack;;
  w ← get;
  if w_shutdown w then fail TClosed
  else if bool_decide (buf = []) then mret 0
  else
    on_chan tc_poll_reserve;;
    let size := Z.min (len buf) CHUNK in
    on_chan (tc_send_item (WData (ztake size buf)));;
    mret size.
Definition tun_poll_flush : M TWrite TunError unit := poll_barrier false.
Definition tun_poll_shutdown : M TWrite TunError unit := poll_barrier true.

(** The writer goes with [H3Upgraded]. *)
Definition writer_drop (w : TWrite) : TWrite := set_w_chan (tc_drop_sender (w_chan w)) w.

(** *** [SendStream] *)

Definition on_half {E A} (m : M X E A) : M TWrite E A := fun w =>
  match w_send w with
  | Some (g, finish) => let '(x, o) := m (sg_stream g) in (set_w_send (Some (set_sg_stream x g, finish)) w, o)
  | None => (w, Panicked)
  end.

(** [poll_stopped], at the end and while sending. *)
Definition tun_await_stopped : M TWrite Error bool := match_ready (on_half hs_poll_stopped) (fun _ => mret true) (fun e => fail (new_h3 (CauseH3Stream e))).
Definition tun_stopped : M TWrite Error bool := fun w =>
  match on_half hs_poll_stopped w with
  | (w, Ready _) => (w, Ready true)
  | (w, Failed e) => (w, Failed (new_h3 (CauseH3Stream e)))
  | (w, Pending) => (w, Ready false)
  | (w, Panicked) => (w, Panicked)
  | (w, NoFuel) => (w, NoFuel)
  end.

(** A call of the stream: a peer's STOP_SENDING ends this direction. *)
Definition tun_unless_stopped {A} (m : M X H3StreamError A) (k : A -> M TWrite Error bool) : M TWrite Error bool :=
  match_ready (on_half m) k (fun e => match e with H3RemoteTerminate _ => mret true | e => fail (new_h3 (CauseH3Stream e)) end).

Definition with_send (f : SendGuard X Dg * option nat -> SendGuard X Dg * option nat) (w : TWrite) : TWrite := set_w_send (f <$> w_send w) w.

(** The FIN, and its acknowledgment to the writer. *)
Definition tun_finish (i : nat) : M TWrite Error bool :=
  stopped ← tun_stopped;
  if stopped : bool then mret true
  else
    tun_unless_stopped hs_poll_finish (fun _ =>
      modify (with_send (fun '(g, _) => (MkSendGuard (sg_datagrams g) (sg_stream g) true (sg_code g), None)));;
      modify (fun w => set_w_acks (settle i AckOk (w_acks w)) w);;
      tun_await_stopped).

(** A command of the writer. *)
Definition tun_command (c : Write) : M TWrite Error bool :=
  match c with
  | WData data => match_ready (on_half (call (hs_start_send_data data))) (fun _ => mret false) (fun e => fail (new_h3 (CauseH3Stream e)))
  | WFlush i => modify (fun w => set_w_acks (settle i AckOk (w_acks w)) w);; mret false
  | WFinish i => modify (with_send (fun '(g, _) => (MkSendGuard (dg_close_send <$> sg_datagrams g) (sg_stream g) (sg_finished g) (sg_code g), Some i)));; mret false
  end.

Definition tun_recv_command : M TWrite Error (option Write) := fun w =>
  match tc_poll_recv (w_chan w) with
  | (q, Some c) => (set_w_chan q w, Ready c)
  | (q, None) => (set_w_chan q w, Pending)
  end.

(** A round of the loop: [true] is done. *)
Definition tun_round : M TWrite Error bool := fun w =>
  match w_send w with
  | None => (w, Panicked)
  | Some (_, Some i) => tun_finish i w
  | Some (_, None) =>
      (stopped ← tun_stopped;
       if stopped : bool then mret true
       else tun_unless_stopped hs_poll_ready (fun _ =>
         c ← tun_recv_command;
         match c with Some c => tun_command c | None => fail new_canceled end)) w
  end.

Fixpoint tun_loop (rounds : nat) : M TWrite Error unit :=
  match rounds with
  | O => modify wake_w;; pend
  | S rounds => done ← tun_round; if done : bool then mret tt else tun_loop rounds
  end.

(** [<SendStream as Future>::poll]. *)
Definition tun_send_poll : M TWrite Error unit := fun w =>
  match w_send w with
  | Some (g, _) => if sg_finished g then (tun_await_stopped;; mret tt) w else tun_loop 32 w
  | None => (w, Panicked)
  end.

(** [SendStream] is dropped: its guard, its [finish], and the receiver of the channel with
    the commands in it. *)
Definition command_ack (c : Write) (acks : list AckCell) : list AckCell := match c with WData _ => acks | WFlush i | WFinish i => settle i AckGone acks end.
Definition tun_send_drop (w : TWrite) : TWrite :=
  match w_send w with
  | None => w
  | Some (g, finish) =>
      let '(q, dropped) := tc_drop_receiver (w_chan w) in
      let acks := match finish with Some i => settle i AckGone (w_acks w) | None => w_acks w end in
      MkTWrite (w_pending w) (w_shutdown w) q (foldr command_ack acks dropped) None (Some (send_guard_drop g)) (w_wakes w)
  end.
End writing.
Arguments TWrite : clear implicits.

(** ** Reading *)

Section reading.
Context {Y Dg Hm : Type} `{H3RecvOps Y Hm} `{RequestDatagrams Dg}.

(** [RecvStream]; [ts_body] is whether it still has the channel's sender. *)
Record TRecv : Type := MkTRecv { ts_guard : RecvGuard Y Dg; ts_body : bool; ts_data : option bytes; ts_done : bool }.
Definition set_ts_guard x r := MkTRecv x (ts_body r) (ts_data r) (ts_done r).
Definition set_ts_data x r := MkTRecv (ts_guard r) (ts_body r) x (ts_done r).
Definition set_ts_done x r := MkTRecv (ts_guard r) (ts_body r) (ts_data r) x.

(** The reader of [H3Upgraded], the body channel, and [RecvStream] while the task has it.
    [r_error] is what the connection has published, [r_violations] what was told to it. *)
Record TRead : Type := MkTRead {
  r_data : bytes; r_closed : bool; r_chan : Chan Hm; r_recv : option TRecv; r_gone : option (RecvGuard Y Dg); r_error : option Error; r_violations : list (Code * string); r_wakes : nat }.
Definition set_r_data x r := MkTRead x (r_closed r) (r_chan r) (r_recv r) (r_gone r) (r_error r) (r_violations r) (r_wakes r).
Definition set_r_closed x r := MkTRead (r_data r) x (r_chan r) (r_recv r) (r_gone r) (r_error r) (r_violations r) (r_wakes r).
Definition set_r_chan x r := MkTRead (r_data r) (r_closed r) x (r_recv r) (r_gone r) (r_error r) (r_violations r) (r_wakes r).
Definition set_r_recv x r := MkTRead (r_data r) (r_closed r) (r_chan r) x (r_gone r) (r_error r) (r_violations r) (r_wakes r).
Definition set_r_error x r := MkTRead (r_data r) (r_closed r) (r_chan r) (r_recv r) (r_gone r) x (r_violations r) (r_wakes r).
Definition wake_r r := MkTRead (r_data r) (r_closed r) (r_chan r) (r_recv r) (r_gone r) (r_error r) (r_violations r) (S (r_wakes r)).

Definition tr_new (recv : RecvGuard Y Dg) (error : option Error) : TRead :=
  MkTRead [] false (channel false) (Some (MkTRecv recv true None false)) None error [] 0.

Definition on_body {E A} (m : M (Chan Hm) E A) : M TRead E A := zoom r_chan set_r_chan m.

(** [<H3Upgraded as AsyncRead>::poll_read] with room for [n] bytes; the channel holds at
    most two items, so the loop comes back at most twice. *)
Fixpoint tun_read_loop (fuel : nat) (n : Z) : M TRead TunError bytes :=
  match fuel with
  | O => fun r => (r, NoFuel)
  | S fuel =>
      r ← get;
      if negb (bool_decide (r_data r = [])) then
        let size := Z.min n (len (r_data r)) in
        modify (set_r_data (zdrop size (r_data r)));; mret (ztake size (r_data r))
      else if r_closed r then mret []
      else
        match_ready (on_body poll_next)
          (fun c => match c with
                    | Some data => modify (set_r_data data);; tun_read_loop fuel n
                    | None => modify (set_r_closed true);; mret []
                    end)
          (fun e => modify (set_r_closed true);; fail (TOther e))
  end.
Definition tun_poll_read (n : Z) : M TRead TunError bytes := if n =? 0 then mret [] else tun_read_loop 4 n.

Definition reader_drop (r : TRead) : TRead := set_r_chan (receiver_drop (E := Empty_set) (r_chan r)).1 r.

(** *** [RecvStream] *)

Definition with_recv (f : TRecv -> TRecv) (r : TRead) : TRead := set_r_recv (f <$> r_recv r) r.
Definition on_source {E A} (m : M Y E A) : M TRead E A := fun r =>
  match r_recv r with
  | Some s => let '(y, o) := m (rg_stream (ts_guard s)) in (set_r_recv (Some (set_ts_guard (set_rg_stream y (ts_guard s)) s)) r, o)
  | None => (r, Panicked)
  end.

(** [shared.violate] and [shared.error], as the task sees them. *)
Definition tun_violate : M TRead Error bool := fun r =>
  let e := default (new_h3 (CauseText headers_violation)) (r_error r) in
  (MkTRead (r_data r) (r_closed r) (r_chan r) (r_recv r) (r_gone r) (Some e) (r_violations r ++ [(H3_FRAME_UNEXPECTED, headers_violation)]) (r_wakes r), Failed (error_of (Some e))).

(** The end of the data: nothing but the FIN may follow. *)
Definition tun_end : M TRead Error bool := fun r =>
  match on_source hr_poll_trailers r with
  | (r, Ready None) =>
      (modify (with_recv (fun s => MkTRecv (MkRecvGuard (dg_close_recv <$> rg_datagrams (ts_guard s)) (rg_stream (ts_guard s)) true (rg_code (ts_guard s))) false (ts_data s) (ts_done s)));;
       on_body sender_drop;;
       mret true) r
  | (r, Ready (Some _)) | (r, Pending) | (r, Failed (H3StreamFault _ _)) | (r, Failed H3HeaderTooBig) => tun_violate r
  | (r, Failed e) => (r, Failed (new_h3 (CauseH3Stream e)))
  | (r, Panicked) => (r, Panicked)
  | (r, NoFuel) => (r, NoFuel)
  end.

(** The data in hand: a chunk of it goes to the reader. *)
Definition tun_forward (data : bytes) : M TRead Error bool :=
  on_body chan_poll_ready;;
  let size := Z.min (len data) CHUNK in
  modify (with_recv (set_ts_data (Some (zdrop size data))));;
  map_err (fun _ => new_canceled) (on_body (send_data (ztake size data)));;
  mret false.

(** Nothing in hand. *)
Definition tun_receive : M TRead Error bool := fun r =>
  match r_recv r with
  | None => (r, Panicked)
  | Some s =>
      if ts_done s then tun_end r
      else
        match_ready (on_source hr_poll_data)
          (fun d => match d with
                    | Some data => modify (with_recv (set_ts_data (Some data)));; mret false
                    | None => modify (with_recv (set_ts_done true));; tun_end
                    end)
          (fun e => fail (new_h3 (CauseH3Stream e))) r
  end.

Definition tun_recv_round : M TRead Error bool := fun r =>
  if negb (receiver_open (r_chan r)) then (r, Failed new_canceled)
  else
    match r_recv r with
    | Some s =>
        match ts_data s with
        | Some data => if bool_decide (data = []) then tun_receive (with_recv (set_ts_data None) r) else tun_forward data r
        | None => tun_receive r
        end
    | None => (r, Panicked)
    end.

Fixpoint tun_recv_loop (rounds : nat) : M TRead Error unit :=
  match rounds with
  | O => modify wake_r;; pend
  | S rounds => done ← tun_recv_round; if done : bool then mret tt else tun_recv_loop rounds
  end.

(** [<RecvStream as Future>::poll]. *)
Definition tun_recv_poll : M TRead Error unit := fun r =>
  match r_recv r with
  | Some s => if ts_body s then tun_recv_loop 32 r else (r, Ready tt)
  | None => (r, Panicked)
  end.

(** [recv.body.take()]: the sender is with the caller. *)
Definition take_body (r : TRead) : TRead * bool :=
  match r_recv r with Some s => (set_r_recv (Some (MkTRecv (ts_guard s) false (ts_data s) (ts_done s))) r, ts_body s) | None => (r, false) end.

(** [RecvStream] is dropped, with the sender if it has it. *)
Definition tun_recv_drop (r : TRead) : TRead :=
  match r_recv r with
  | None => r
  | Some s =>
      let c := if ts_body s then (sender_drop (E := Empty_set) (r_chan r)).1 else r_chan r in
      MkTRead (r_data r) (r_closed r) c None (Some (recv_guard_drop (ts_guard s))) (r_error r) (r_violations r) (r_wakes r)
  end.
End reading.
Arguments TRead : clear implicits.
Arguments TRecv : clear implicits.

(** ** The tunnel *)

Section tunnel.
Context {Y X Dg Hm Q : Type} `{H3RecvOps Y Hm} `{H3SendOps X Hm} `{RequestDatagrams Dg} `{TokioChan Q Write}.

(** [H3Upgraded] ([t_io] is whether the application has it) and [UpgradeTask] ([t_task] is
    whether its [transfer] is there), with the place in admission. [t_session] is whether
    the application's side has a Datagram session, [t_session_closed] whether it was closed. *)
Record Tunnel : Type := MkTunnel {
  t_w : TWrite X Dg Q; t_r : TRead Y Dg Hm; t_io : bool; t_task : bool; t_active : option Active; t_events : list SlotEvent; t_session : bool; t_session_closed : bool }.
Definition set_t_w x t := MkTunnel x (t_r t) (t_io t) (t_task t) (t_active t) (t_events t) (t_session t) (t_session_closed t).
Definition set_t_r x t := MkTunnel (t_w t) x (t_io t) (t_task t) (t_active t) (t_events t) (t_session t) (t_session_closed t).

(** [tunnel]. *)
Definition tunnel_new (send : SendGuard X Dg) (recv : RecvGuard Y Dg) (active : Active) (error : option Error) (session : bool) : Tunnel :=
  MkTunnel (tw_new send) (tr_new recv error) true true (Some active) [] session false.

(** [Drop for H3Upgraded] and its fields. *)
Definition tunnel_io_drop (t : Tunnel) : Tunnel :=
  MkTunnel (writer_drop (t_w t)) (reader_drop (t_r t)) false (t_task t) (t_active t) (t_events t) (t_session t) (t_session t).

(** A failed transfer, with the sender of the reader's channel if it is still there. *)
Definition transfer_fail (e : Error) : M Tunnel Empty_set (option Error * bool) := fun t =>
  let '(r, body) := take_body (t_r t) in (set_t_r r t, Ready (Some e, body)).

(** [<Transfer as Future>::poll]: the receiving direction, and the end. *)
Definition transfer_recv : M Tunnel Empty_set (option Error * bool) := fun t =>
  let over t := if some_b (w_send (t_w t)) || some_b (r_recv (t_r t)) then (t, Pending) else (t, Ready (None, false)) in
  match r_recv (t_r t) with
  | None => over t
  | Some _ =>
      match tun_recv_poll (t_r t) with
      | (r, Ready _) => over (set_t_r (tun_recv_drop r) t)
      | (r, Failed e) => transfer_fail e (set_t_r r t)
      | (r, Pending) => over (set_t_r r t)
      | (r, Panicked) => (t, Panicked)
      | (r, NoFuel) => (t, NoFuel)
      end
  end.

(** All of it; [invalid] is whether an invalid Datagram has arrived. *)
Definition transfer_poll (invalid : bool) : M Tunnel Empty_set (option Error * bool) := fun t =>
  if invalid then transfer_fail invalid_datagram_error t
  else
    match w_send (t_w t) with
    | None => transfer_recv t
    | Some _ =>
        match tun_send_poll (t_w t) with
        | (w, Ready _) => transfer_recv (set_t_w (tun_send_drop w) t)
        | (w, Failed e) => transfer_fail e (set_t_w w t)
        | (w, Pending) => transfer_recv (set_t_w w t)
        | (w, Panicked) => (t, Panicked)
        | (w, NoFuel) => (t, NoFuel)
        end
    end.

(** The transfer is dropped, the error is told to the reader, and the place is given back;
    [aborted] is whether the application aborted the Datagram session. *)
Definition tell_reader (aborted : bool) (e : option Error) (r : TRead Y Dg Hm) : TRead Y Dg Hm :=
  match e with
  | Some e => set_r_chan (send_error (E := Empty_set) (error_or_of (r_error r) (if aborted then malformed_datagram_error else e)) (r_chan r)).1 r
  | None => r
  end.
Definition task_end (aborted : bool) (e : option Error) (body : bool) (t : Tunnel) : Tunnel :=
  let r := tun_recv_drop (t_r t) in
  let r := if body then set_r_chan (sender_drop (E := Empty_set) (r_chan (tell_reader aborted e r))).1 r else r in
  MkTunnel (tun_send_drop (t_w t)) r (t_io t) false None (t_events t ++ match t_active t with Some a => slot_drop a | None => [] end) (t_session t) (t_session_closed t).

(** [<UpgradeTask as Future>::poll], and a task that the executor discards. *)
Definition tunnel_task_poll (invalid aborted : bool) : M Tunnel Empty_set unit := fun t =>
  if negb (t_task t) then (t, Ready tt)
  else
    match transfer_poll invalid t with
    | (t, Ready (e, body)) => (task_end aborted e body t, Ready tt)
    | (t, Failed e) => match e with end
    | (t, Pending) => (t, Pending)
    | (t, Panicked) => (t, Panicked)
    | (t, NoFuel) => (t, NoFuel)
    end.
Definition tunnel_task_drop (t : Tunnel) : Tunnel := if t_task t then task_end false None false t else t.
End tunnel.
Arguments Tunnel : clear implicits.

(** ** Writes *)

(** [tc_queue] is the values in the channel, [tc_open] whether the receiver is there and
    [tc_held] whether the sender holds a reservation. *)
Class TokioChanLaws (Q A : Type) `{TokioChan Q A} : Type := {
  tc_queue : Q -> list A;
  tc_open : Q -> bool;
  tc_held : Q -> bool;
  tc_new_law : tc_queue tc_new = [] /\ tc_open tc_new = true /\ tc_held tc_new = false;
  tc_reserve_law q q' o : tc_poll_reserve q = (q', o) -> sound o /\ tc_queue q' = tc_queue q /\ tc_open q' = tc_open q /\
    (tc_held q' = match o with Ready _ => true | _ => tc_held q end) /\ (tc_open q = false -> tc_held q = false -> o = Failed tt);
  tc_send_law a q q' o : tc_held q = true -> tc_open q = true -> tc_send_item a q = (q', o) -> o = Ready tt /\ tc_queue q' = tc_queue q ++ [a] /\ tc_open q' = true /\ tc_held q' = false;
  tc_recv_law q q' r : tc_poll_recv q = (q', r) -> tc_open q' = tc_open q /\ tc_held q' = tc_held q /\
    match r with Some (Some a) => tc_queue q = a :: tc_queue q' | _ => tc_queue q' = tc_queue q end;
  tc_drop_sender_law q : tc_queue (tc_drop_sender q) = tc_queue q /\ tc_open (tc_drop_sender q) = tc_open q /\ tc_held (tc_drop_sender q) = false;
  tc_drop_receiver_law q q' l : tc_drop_receiver q = (q', l) -> l = tc_queue q /\ tc_open q' = false /\ tc_held q' = tc_held q;
}.

Section writes.
Context {X Dg Hm Q : Type} `{SL : H3SendLaws X Hm} `{DG : RequestDatagrams Dg} `{TL : TokioChanLaws Q Write}.
Abbreviation W := (TWrite X Dg Q).
Implicit Types (w : W) (g : SendGuard X Dg) (acc : list bytes).

Definition data_sent (ds : list bytes) : list (HFrame Hm) := HData <$> ds.
Definition queued (ds : list bytes) : list Write := WData <$> ds.
Definition command (b : bool) (i : nat) : Write := if b then WFinish i else WFlush i.

(** Where the barrier is that the writer waits for, while the task has its half. *)
Definition barrier_ok w g (fin : option nat) (ws : list bytes) : Prop :=
  match w_pending w with
  | None => tc_queue (w_chan w) = queued ws /\ fin = None /\ sg_finished g = w_shutdown w /\ (w_shutdown w = true -> ws = [])
  | Some (b, i) => w_shutdown w = false /\
      match w_acks w !! i with
      | Some AckWaits => sg_finished g = false /\ ((fin = None /\ tc_queue (w_chan w) = queued ws ++ [command b i]) \/ (b = true /\ fin = Some i /\ tc_queue (w_chan w) = [] /\ ws = []))
      | Some AckOk => fin = None /\ tc_queue (w_chan w) = [] /\ ws = [] /\ sg_finished g = b
      | _ => False
      end
  end.

(** The half was dropped: it has been ended by exactly the writes, or was reset. *)
Definition half_over acc g : Prop := exists ds, ds `prefix_of` acc /\
  ((sg_finished g = true /\ ds = acc /\ hs_sent (sg_stream g) = data_sent ds ++ [HFin]) \/
   (sg_finished g = false /\ exists c, hs_sent (sg_stream g) = data_sent ds ++ [HStop c])).

Definition after_ok acc w g : Prop :=
  match w_pending w with
  | None => w_shutdown w = true -> sg_finished g = true
  | Some (b, i) => w_shutdown w = false /\
      match w_acks w !! i with
      | Some AckOk => (b = true -> sg_finished g = true) /\ exists c, hs_sent (sg_stream g) = data_sent acc ++ [c]
      | Some AckGone => True
      | _ => False
      end
  end.

Definition w_inv acc w : Prop := tc_held (w_chan w) = false /\
  match w_send w with
  | Some (g, fin) => tc_open (w_chan w) = true /\ exists ds ws, acc = ds ++ ws /\ hs_sent (sg_stream g) = data_sent ds ++ (if sg_finished g then [HFin] else []) /\ barrier_ok w g fin ws
  | None => tc_open (w_chan w) = false /\ exists g, w_gone w = Some g /\ half_over acc g /\ after_ok acc w g
  end.

(** A finished half leaves no write behind. *)
Lemma barrier_finished w g fin ws : barrier_ok w g fin ws -> sg_finished g = true -> ws = [].
Proof.
  unfold barrier_ok. intros Hb Ef. destruct (w_pending w) as [[b i]|].
  - destruct Hb as [Hs Hb]. destruct (w_acks w !! i) as [[]|]; try done; [destruct Hb as [Hb _]; congruence|by destruct Hb as (_ & _ & -> & _)].
  - destruct Hb as (_ & _ & Hb & Hw). apply Hw. congruence.
Qed.

Lemma w_inv_new g : hs_sent (sg_stream g) = [] -> sg_finished g = false -> w_inv [] (tw_new g).
Proof. intros Es Ef. destruct tc_new_law as (E1 & E2 & E3). split; [done|]. split; [done|]. exists [], []. rewrite Ef. split; [done|]. split; [done|]. unfold barrier_ok. cbn. by rewrite E1. Qed.

(** Everything accepted has been given to the stream, and its end too. *)
Definition all_sent acc w : Prop :=
  match w_send w with
  | Some (g, _) => hs_sent (sg_stream g) = data_sent acc ++ (if sg_finished g then [HFin] else [])
  | None => exists g c, w_gone w = Some g /\ hs_sent (sg_stream g) = data_sent acc ++ [c]
  end.
Definition end_sent acc w : Prop := exists g, (fst <$> w_send w = Some g \/ (w_send w = None /\ w_gone w = Some g)) /\ hs_sent (sg_stream g) = data_sent acc ++ [HFin].

Lemma shutdown_sent acc w : w_inv acc w -> w_pending w = None -> w_shutdown w = true -> all_sent acc w /\ end_sent acc w.
Proof.
  intros [_ Hw] Hp Hs. unfold all_sent, end_sent. destruct (w_send w) as [[g fin]|].
  - destruct Hw as (_ & ds & ws & -> & E & Hb). unfold barrier_ok in Hb. rewrite Hp, Hs in Hb. destruct Hb as (_ & _ & Ef & Hws). rewrite (Hws eq_refl), app_nil_r in *. split; [done|].
    exists g. rewrite Ef in E. split; [by left|done].
  - destruct Hw as (_ & g & Eg & (ds & _ & Ho) & Ha). unfold after_ok in Ha. rewrite Hp in Ha. destruct Ho as [(_ & -> & E)|(Ef & _)]; [|by rewrite Ha in Ef].
    split; [by exists g, HFin|]. exists g. auto.
Qed.

Definition w_kept w w' : Prop := w_send w' = w_send w /\ w_gone w' = w_gone w.

Lemma sent_kept acc w w' : w_kept w w' -> (all_sent acc w -> all_sent acc w') /\ (end_sent acc w -> end_sent acc w').
Proof. intros [E1 E2]. unfold all_sent, end_sent. by rewrite E1, E2. Qed.

Lemma w_poll_ack acc w : w_inv acc w -> wp poll_ack (fun o w' => w_inv acc w' /\ sound o /\ w_kept w w' /\
  (o = Ready tt -> w_pending w' = None /\ forall b i, w_pending w = Some (b, i) -> all_sent acc w' /\ (b = true -> end_sent acc w'))) w.
Proof.
  intros [Hh Hw]. unfold poll_ack. do 2 wp_step. destruct (w_pending w) as [[b i]|] eqn:Hp; [|wp_step; by split_and!].
  destruct (w_acks w !! i) as [[]|] eqn:Ei; [wp_step|wp_step|do 2 wp_step; wp_step|].
  - by split_and!.
  - split_and!; try done.
    + split; [done|]. cbn. destruct (w_send w) as [[g fin]|].
      * destruct Hw as (Ho & ds & ws & Ea & E & Hb). unfold barrier_ok in Hb. rewrite Hp, Ei in Hb. destruct Hb as (Hs & -> & Hq & -> & Ef). split; [done|]. exists ds, []. split; [done|]. split; [done|].
        unfold barrier_ok. cbn. by rewrite Hs.
      * destruct Hw as (Ho & g & Eg & Hov & Ha). unfold after_ok in Ha. rewrite Hp, Ei in Ha. destruct Ha as (Hs & Hb & _). split; [done|]. exists g. split; [done|]. split; [done|]. unfold after_ok. cbn. by rewrite Hs.
    + intros _. split; [done|]. intros b' i' [= <- <-]. unfold all_sent, end_sent. cbn. destruct (w_send w) as [[g fin]|].
      * destruct Hw as (Ho & ds & ws & -> & E & Hb). unfold barrier_ok in Hb. rewrite Hp, Ei in Hb. destruct Hb as (Hs & -> & Hq & -> & Ef). rewrite app_nil_r. split; [done|]. intros ->. rewrite Ef in E. exists g. by split; [left|].
      * destruct Hw as (Ho & g & Eg & (ds & _ & Hov) & Ha). unfold after_ok in Ha. rewrite Hp, Ei in Ha. destruct Ha as (Hs & Hb & c & Ec). split; [by exists g, c|]. intros ->.
        destruct Hov as [(_ & -> & E)|(Ef & _)]; [|by rewrite Hb in Ef]. exists g. auto.
  - split_and!; try done. split; [done|]. cbn. destruct (w_send w) as [[g fin]|].
    + destruct Hw as (Ho & ds & ws & Ea & E & Hb). unfold barrier_ok in Hb. rewrite Hp, Ei in Hb. by destruct Hb.
    + destruct Hw as (Ho & g & Eg & Hov & Ha). unfold after_ok in Ha. rewrite Hp, Ei in Ha. destruct Ha as (Hs & _). split; [done|]. exists g. split; [done|]. split; [done|]. unfold after_ok. cbn. by rewrite Hs.
  - exfalso. destruct (w_send w) as [[g fin]|].
    + destruct Hw as (Ho & ds & ws & Ea & E & Hb). unfold barrier_ok in Hb. rewrite Hp, Ei in Hb. by destruct Hb.
    + destruct Hw as (Ho & g & Eg & Hov & Ha). unfold after_ok in Ha. rewrite Hp, Ei in Ha. by destruct Ha.
Qed.

(** A value goes into the channel: the task is there. *)
Lemma w_reserve acc w (Q' : outcome TunError unit -> W -> Prop) : w_inv acc w ->
  (forall q o, o ≠ Ready tt -> sound o -> w_inv acc (set_w_chan q w) -> Q' o (set_w_chan q w)) ->
  (forall q, tc_held q = true -> tc_open q = true -> tc_queue q = tc_queue (w_chan w) -> w_send w ≠ None -> Q' (Ready tt) (set_w_chan q w)) ->
  wp (on_chan tc_poll_reserve) Q' w.
Proof.
  intros [Hh Hw] H1 H2. unfold on_chan. wp_step. apply wp_zoom, wp_intro. intros q o E. apply tc_reserve_law in E as (Hs & Eq & Eo & Eh & Hc).
  assert ((forall u, o ≠ Ready u) -> w_inv acc (set_w_chan q w)) as Hi.
  { intros Hn. split; [cbn; destruct o as [u| | | |]; [by destruct (Hn u)|congruence..]|]. cbn. rewrite Eo. destruct (w_send w) as [[g fin]|]; [|exact Hw].
    destruct Hw as (Ho & ds & ws & Ea & E & Hb). split; [done|]. exists ds, ws. split; [done|]. split; [done|]. unfold barrier_ok in *. cbn. by rewrite Eq. }
  destruct o as [[]|[]| | |]; try done; [|apply H1; [done|done|by apply Hi]..]. apply H2; [done| |done|].
  - rewrite Eo. destruct (w_send w) as [[g fin]|]; [by destruct Hw|]. destruct Hw as [Ho _]. by specialize (Hc Ho Hh).
  - destruct (w_send w) as [|]; [done|]. destruct Hw as [Ho _]. by specialize (Hc Ho Hh).
Qed.

Lemma w_barrier acc w b : w_inv acc w -> w_pending w = None -> wp (barrier b) (fun o w' => w_inv acc w' /\ sound o /\ (o = Ready tt -> all_sent acc w' /\ (b = true -> end_sent acc w'))) w.
Proof.
  intros Hw Hp. unfold barrier. do 2 wp_step. destruct (w_shutdown w) eqn:Hs.
  { wp_step. split_and!; [done|done|]. intros _. destruct (shutdown_sent acc w Hw Hp Hs). auto. }
  wp_step. apply (w_reserve acc); [done|intros q o Hn Hso Hi; destruct o as [[]| | | |]; try done|]. intros q Hh Ho Eq Hne. do 2 wp_step. do 2 wp_step.
  set (i := length (w_acks w)). wp_step. unfold on_chan. wp_step. apply wp_zoom, wp_intro. intros q' o E. apply tc_send_law in E as (-> & Eq' & Eo' & Eh'); [|done|done]. do 2 wp_step.
  assert ((w_acks w ++ [AckWaits]) !! i = Some AckWaits) as Ei by (subst i; by rewrite lookup_app_r, Nat.sub_diag by lia).
  unfold poll_ack. do 2 wp_step. cbn. fold i. rewrite Ei. wp_step. split_and!; [|done|done]. split; [done|]. cbn. destruct Hw as [_ Hw]. destruct (w_send w) as [[g fin]|]; [|done].
  destruct Hw as (_ & ds & ws & Ea & E & Hb). unfold barrier_ok in Hb. rewrite Hp, Hs in Hb. destruct Hb as (Hq & -> & Ef & _). split; [done|]. exists ds, ws. split; [done|]. split; [done|].
  unfold barrier_ok. cbn. fold i. rewrite Ei. split; [done|]. split; [done|]. left. split; [done|]. rewrite Eq'. cbn. by rewrite Eq, Hq.
Qed.

(** What a poll of the barrier says. *)
Lemma w_poll_barrier acc w b : w_inv acc w -> wp (poll_barrier b) (fun o w' => w_inv acc w' /\ sound o /\ (o = Ready tt -> all_sent acc w' /\ (b = true -> end_sent acc w'))) w.
Proof.
  intros Hw. unfold poll_barrier. do 2 wp_step. destruct (w_pending w) as [[pb i]|] eqn:Hp; [|by apply w_barrier].
  wp_step. eapply wp_mono; [by apply (w_poll_ack acc)|]. intros o w' (Hw' & Hs & Hk & Hr). destruct o as [[]|e| | |]; try done. destruct (Hr eq_refl) as [Hp' Ha]. destruct (Ha pb i Hp) as [Ha1 Ha2].
  destruct (negb b || pb) eqn:Eb; [wp_step|by apply w_barrier]. split_and!; [done|done|]. intros _. split; [done|]. intros ->. by apply Ha2.
Qed.

Lemma w_poll_write acc w buf : w_inv acc w -> wp (tun_poll_write buf) (fun o w' => sound o /\
  match o with Ready n => 0 <= n <= len buf /\ w_inv (acc ++ (if n =? 0 then [] else [ztake n buf])) w' /\ (n = 0 -> buf = []) | _ => w_inv acc w' end) w.
Proof.
  intros Hw. unfold tun_poll_write. wp_step. eapply wp_mono; [by apply (w_poll_ack acc)|]. intros o w1 (Hw1 & Hs & Hk & Hr). destruct o as [[]|e| | |]; try done. destruct (Hr eq_refl) as [Hp1 _].
  do 2 wp_step. destruct (w_shutdown w1) eqn:Hsh; [wp_step; by split|]. case_bool_decide as Eb; [wp_step; rewrite Eb; split; [done|]; split; [unfold len; cbn; lia|]; cbn; by rewrite app_nil_r|].
  wp_step. apply (w_reserve acc); [done|intros q o Hn Hso Hi; destruct o as [[]| | | |]; try done|]. intros q Hh Ho Eq Hne. cbn [fst]. set (size := Z.min (len buf) CHUNK).
  assert (0 < size <= len buf) as Hsz by (pose proof (len_pos buf Eb); subst size; unfold CHUNK; lia).
  wp_step. unfold on_chan. wp_step. apply wp_zoom, wp_intro. intros q' o E. apply tc_send_law in E as (-> & Eq' & Eo' & Eh'); [|done|done]. wp_step. split; [done|]. split; [lia|]. split; [|lia].
  rewrite (proj2 (Z.eqb_neq size 0)) by lia. split; [done|]. cbn. destruct Hw1 as [_ Hw1]. destruct (w_send w1) as [[g fin]|]; [|done].
  destruct Hw1 as (_ & ds & ws & -> & E & Hb). unfold barrier_ok in Hb. rewrite Hp1, Hsh in Hb. destruct Hb as (Hq & -> & Ef & _). split; [done|]. exists ds, (ws ++ [ztake size buf]).
  split; [by rewrite app_assoc|]. split; [done|]. unfold barrier_ok. cbn. rewrite Hp1, Hsh, Eq'. cbn. rewrite Eq, Hq. unfold queued. rewrite fmap_app. by split_and!.
Qed.

(** *** The task *)

(** A write was taken and the stream refused it: the task fails. *)
Definition w_cut acc w : Prop := tc_held (w_chan w) = false /\ tc_open (w_chan w) = true /\ exists g ds ws, w_send w = Some (g, None) /\ sg_finished g = false /\
  hs_sent (sg_stream g) = data_sent ds /\ ds `prefix_of` acc /\ barrier_ok w g None ws /\ forall b i, w_pending w = Some (b, i) -> w_acks w !! i = Some AckWaits.
Definition task_post {A} acc (o : outcome Error A) w : Prop := w_send w ≠ None /\ sound o /\ (w_inv acc w \/ (match o with Failed _ => w_cut acc w | _ => False end)).
Lemma task_post_inv {A} acc (o : outcome Error A) w : w_inv acc w -> w_send w ≠ None -> sound o -> task_post acc o w.
Proof. intros ? ? ?. split_and!; auto. Qed.
Definition moved w (g : SendGuard X Dg) (fin : option nat) x : W := set_w_send (Some (set_sg_stream x g, fin)) w.

Lemma w_moved acc w g fin x : w_inv acc w -> w_send w = Some (g, fin) -> hs_sent x = hs_sent (sg_stream g) -> w_inv acc (moved w g fin x).
Proof. intros [Hh Hw] Es Ex. rewrite Es in Hw. split; [done|]. cbn. by rewrite Ex. Qed.

Lemma w_stopped acc w g fin (k : bool -> M W Error bool) : w_inv acc w -> w_send w = Some (g, fin) ->
  (forall x, hs_sent x = hs_sent (sg_stream g) -> w_inv acc (moved w g fin x) -> wp (k false) (task_post acc) (moved w g fin x)) ->
  (forall w', w_inv acc w' -> w_send w' ≠ None -> wp (k true) (task_post acc) w') ->
  wp (tun_stopped ≫= k) (task_post acc) w.
Proof.
  intros Hw Es Hf Ht. wp_step. unfold wp at 1. unfold tun_stopped, on_half. rewrite Es. destruct (hs_poll_stopped (sg_stream g)) as [x o] eqn:E. apply hs_stopped_law in E as [Ex Hso].
  pose proof (w_moved acc w g fin x Hw Es Ex) as Hmv. destruct o as [c|e| | |]; try done; [by apply Ht|by apply task_post_inv|by apply Hf].
Qed.

Lemma w_unless_stopped {A} acc w g fin (m : M X H3StreamError A) k : w_inv acc w -> w_send w = Some (g, fin) ->
  (forall x o, m (sg_stream g) = (x, o) -> sound o /\ match o with Ready a => wp (k a) (task_post acc) (moved w g fin x) | _ => hs_sent x = hs_sent (sg_stream g) end) ->
  wp (tun_unless_stopped m k) (task_post acc) w.
Proof.
  intros Hw Es Hk. unfold tun_unless_stopped. wp_step. unfold wp at 1. unfold on_half. rewrite Es. destruct (m (sg_stream g)) as [x o] eqn:E. destruct (Hk x o eq_refl) as [Hso Ho].
  destruct o as [a|e| | |]; try done.
  - pose proof (w_moved acc w g fin x Hw Es Ho) as Hmv. destruct e; wp_step; by apply task_post_inv.
  - pose proof (w_moved acc w g fin x Hw Es Ho) as Hmv. by apply task_post_inv.
Qed.

Lemma w_await_stopped acc w : w_inv acc w -> w_send w ≠ None -> wp tun_await_stopped (task_post acc) w.
Proof.
  intros Hw Hn. destruct (w_send w) as [[g fin]|] eqn:Es; [|done]. unfold tun_await_stopped. wp_step. unfold wp at 1. unfold on_half. rewrite Es.
  destruct (hs_poll_stopped (sg_stream g)) as [x o] eqn:E. apply hs_stopped_law in E as [Ex Hso]. pose proof (w_moved acc w g fin x Hw Es Ex) as Hmv. destruct o as [c|e| | |]; try done; try wp_step; by apply task_post_inv.
Qed.

(** A half that is to be finished: nothing else waits. *)
Lemma w_finish acc w g i : w_inv acc w -> w_send w = Some (g, Some i) -> wp (tun_finish i) (task_post acc) w.
Proof.
  intros Hw Es. unfold tun_finish. eapply w_stopped; [done|done| |intros w' ? ?; wp_step; by apply task_post_inv]. intros x Ex Hmv. eapply w_unless_stopped; [done|done|]. intros x' o E. apply hs_finish_law in E as [Ex' Hso].
  split; [done|]. destruct o as [[]|e| | |]; try (rewrite Ex'; cbn; by rewrite app_nil_r). do 2 wp_step. do 2 wp_step. apply w_await_stopped; [|done].
  destruct Hw as [Hh Hw]. rewrite Es in Hw. destruct Hw as (Ho & ds & ws & Ea & Ed & Hb). split; [done|]. cbn. split; [done|]. unfold barrier_ok in Hb. cbn in Ex'. rewrite Ex, Ed in Ex'.
  destruct (w_pending w) as [[b j]|] eqn:Hp; [|by destruct Hb as (_ & ? & _)]. destruct Hb as [Hs Hb]. destruct (w_acks w !! j) as [[]|] eqn:Ej; [|by destruct Hb..]. destruct Hb as (Hf & [[? _]|(-> & [= ->] & Hq & ->)]); [done|].
  exists ds, []. split; [done|]. split; [rewrite Ex', Hf; by rewrite app_nil_r|]. unfold barrier_ok. cbn. rewrite Hp. split; [done|]. unfold settle. rewrite Ej, list_lookup_insert_eq by (by eapply lookup_lt_Some). done.
Qed.

(** The next command is the oldest write, or the barrier behind them all. *)
Lemma w_command acc w g q c : w_inv acc w -> w_send w = Some (g, None) -> tc_queue (w_chan w) = c :: tc_queue q -> tc_open q = true -> tc_held q = false -> wp (tun_command c) (task_post acc) (set_w_chan q w).
Proof.
  intros [Hh Hw] Es Eq Ho Hhq. rewrite Es in Hw. destruct Hw as (_ & ds & ws & Ea & Ed & Hb). unfold barrier_ok in Hb.
  assert ((exists d ws', c = WData d /\ ws = d :: ws' /\ sg_finished g = false /\ barrier_ok (set_w_chan q w) g None ws' /\ forall b i, w_pending w = Some (b, i) -> w_acks w !! i = Some AckWaits) \/
    (exists b i, c = command b i /\ w_pending w = Some (b, i) /\ w_shutdown w = false /\ w_acks w !! i = Some AckWaits /\ ws = [] /\ tc_queue q = [] /\ sg_finished g = false)) as Hcase.
  { unfold barrier_ok. cbn. destruct (w_pending w) as [[b i]|] eqn:Hp.
    - destruct Hb as [Hs Hb]. destruct (w_acks w !! i) as [[]|] eqn:Ei; try done; [|destruct Hb as (_ & Hq & _); rewrite Eq in Hq; done].
      destruct Hb as (Hf & [[_ Hq]|(_ & ? & _)]); [|done]. rewrite Eq in Hq. destruct ws as [|d ws']; cbn in Hq; injection Hq as -> Hq; [right; by exists b, i|]. left. exists d, ws'. split_and!; try done; [by left|]. by intros ? ? [= <- <-].
    - destruct Hb as (Hq & _ & Hf & Hsw). rewrite Eq in Hq. destruct ws as [|d ws']; cbn in Hq; [done|]. injection Hq as -> Hq. left. exists d, ws'. split_and!; try done.
      + destruct (w_shutdown w); [by specialize (Hsw eq_refl)|done].
      + intros E. by specialize (Hsw E). }
  destruct Hcase as [(d & ws' & -> & -> & Hf & Hb' & Hpa)|(b & i & -> & Hp & Hs & Ei & -> & Hq & Hf)].
  - cbn [tun_command]. wp_step. unfold wp at 1. unfold on_half, call. cbn [w_send set_w_chan]. rewrite Es. destruct (hs_start_send_data d (sg_stream g)) as [x r] eqn:E. apply hs_data_law in E.
    rewrite Hf, app_nil_r in Ed. destruct r as [[]|e]; wp_step; (split; [done|]); (split; [done|]).
    + left. split; [done|]. cbn. split; [done|]. exists (ds ++ [d]), ws'. split; [by rewrite <-app_assoc|]. split; [|exact Hb']. rewrite E, Hf, Ed. unfold data_sent. by rewrite fmap_app, app_nil_r.
    + right. split; [done|]. split; [done|]. exists (set_sg_stream x g), ds, ws'. split; [done|]. split; [done|]. split; [cbn; by rewrite E, Ed, app_nil_r|]. split; [rewrite Ea; by eexists|]. split; [exact Hb'|exact Hpa].
  - destruct b; cbn [command tun_command]; do 2 wp_step; wp_step; (apply task_post_inv; [|cbn; by rewrite Es|done]); (split; [done|]); cbn; rewrite ?Es; cbn; (split; [done|]); exists ds, []; (split; [done|]); (split; [done|]); unfold barrier_ok; cbn; rewrite Hp; (split; [done|]).
    + rewrite Ei. split; [done|]. by right.
    + unfold settle. rewrite Ei, list_lookup_insert_eq by (by eapply lookup_lt_Some). done.
Qed.

Lemma w_queue acc w g fin q : w_inv acc w -> w_send w = Some (g, fin) -> tc_queue q = tc_queue (w_chan w) -> tc_open q = true -> tc_held q = false -> w_inv acc (set_w_chan q w).
Proof.
  intros [Hh Hw] Es Eq Ho Hhq. rewrite Es in Hw. destruct Hw as (_ & ds & ws & Ea & Ed & Hb). split; [done|]. cbn. rewrite Es. split; [done|]. exists ds, ws. split; [done|]. split; [done|].
  unfold barrier_ok in *. cbn. by rewrite Eq.
Qed.

Lemma w_round acc w : w_inv acc w -> w_send w ≠ None -> wp tun_round (task_post acc) w.
Proof.
  intros Hw Hn. unfold wp, tun_round. destruct (w_send w) as [[g [i|]]|] eqn:Es; [by eapply w_finish| |done].
  change (wp (stopped ← tun_stopped; if stopped : bool then mret true else tun_unless_stopped hs_poll_ready (fun _ => c ← tun_recv_command; match c with Some c => tun_command c | None => fail new_canceled end)) (task_post acc) w).
  eapply w_stopped; [done|done| |intros w' ? ?; wp_step; by apply task_post_inv]. intros x Ex Hmv. eapply w_unless_stopped; [done|done|]. intros x' o E. apply hs_ready_law in E as [Ex' Hso]. split; [done|].
  destruct o as [[]|e| | |]; try done. assert (w_inv acc (moved (moved w g None x) (set_sg_stream x g) None x')) as Hm2 by (by apply w_moved). set (w2 := moved (moved w g None x) (set_sg_stream x g) None x') in *.
  wp_step. unfold wp at 1. unfold tun_recv_command. destruct (tc_poll_recv (w_chan w2)) as [q r] eqn:E. apply tc_recv_law in E as (Eo & Eh & Eq).
  assert (tc_open (w_chan w2) = true /\ tc_held (w_chan w2) = false) as [Ho Hh] by (by destruct Hm2 as [? [? _]]). rewrite Ho in Eo. rewrite Hh in Eh.
  destruct r as [[c|]|].
  - by eapply w_command.
  - wp_step. apply task_post_inv; [by eapply w_queue|done|done].
  - apply task_post_inv; [by eapply w_queue|done|done].
Qed.

Lemma w_loop acc k : forall w, w_inv acc w -> w_send w ≠ None -> wp (tun_loop k) (task_post acc) w.
Proof.
  induction k as [|k IH]; intros w Hw Hn; cbn [tun_loop]; [do 2 wp_step; wp_step; by apply task_post_inv|]. wp_step. eapply wp_mono; [by apply w_round|].
  intros o w' (Hn' & Hs & Hor). destruct o as [[|]|e| | |]; try done. destruct Hor as [Hw'|?]; [by apply IH|done].
Qed.

Lemma w_send_poll acc w : w_inv acc w -> w_send w ≠ None -> wp tun_send_poll (task_post acc) w.
Proof.
  intros Hw Hn. unfold wp, tun_send_poll. destruct (w_send w) as [[g fin]|] eqn:Es; [|done]. destruct (sg_finished g); [|apply (w_loop acc 32 w Hw); by rewrite Es].
  change (wp (tun_await_stopped;; mret tt) (task_post acc) w). wp_step. eapply wp_mono; [apply w_await_stopped; [done|by rewrite Es]|]. intros o w' Hp. destruct o as [[|]|e| | |]; try done; wp_step; exact Hp.
Qed.

(** Dropping [SendStream] ends or resets the stream, and no barrier is left waiting. *)
Lemma guard_drop_over acc g ds : ds `prefix_of` acc -> (sg_finished g = true -> ds = acc) -> hs_sent (sg_stream g) = data_sent ds ++ (if sg_finished g then [HFin] else []) ->
  half_over acc (send_guard_drop g) /\ sg_finished (send_guard_drop g) = sg_finished g /\ exists c, hs_sent (sg_stream (send_guard_drop g)) = data_sent ds ++ [c].
Proof.
  intros Hp Hf Hs. unfold send_guard_drop. destruct (sg_finished g) eqn:Ef.
  - split_and!; [|done|by eexists]. exists ds. split; [done|]. left. rewrite <-(Hf eq_refl). done.
  - rewrite app_nil_r in Hs. cbn. rewrite hs_stop_law, Hs. split_and!; [|done|by eexists]. exists ds. split; [done|]. right. split; [done|]. cbn. rewrite hs_stop_law, Hs. by eexists.
Qed.

Lemma settle_gone i acks : acks !! i = Some AckWaits -> settle i AckGone acks !! i = Some AckGone.
Proof. intros Ei. unfold settle. rewrite Ei. apply list_lookup_insert_eq. by eapply lookup_lt_Some. Qed.

Lemma dropped_acks ws acks l : foldr command_ack acks (queued ws ++ l) = foldr command_ack acks l.
Proof. unfold queued. rewrite foldr_app. induction ws as [|d ws IH]; [done|]. cbn. by rewrite IH. Qed.

Lemma w_send_drop acc w : w_inv acc w \/ w_cut acc w -> w_inv acc (tun_send_drop w).
Proof.
  intros Hor. unfold tun_send_drop. destruct (w_send w) as [[g fin]|] eqn:Es; [|destruct Hor as [Hw|(_ & _ & g & ds & ws & Es' & _)]; congruence].
  destruct (tc_drop_receiver (w_chan w)) as [q l] eqn:Eq. apply tc_drop_receiver_law in Eq as (-> & Eo & Eh).
  assert (tc_held (w_chan w) = false) as Hh by (by destruct Hor as [[? _]|(? & _)]). split; [cbn; congruence|]. cbn. split; [done|]. eexists. split; [done|].
  assert (exists ds ws, ds `prefix_of` acc /\ (sg_finished g = true -> ds = acc) /\ hs_sent (sg_stream g) = data_sent ds ++ (if sg_finished g then [HFin] else []) /\ barrier_ok w g fin ws /\
    (forall b i, w_pending w = Some (b, i) -> w_acks w !! i = Some AckOk -> ds = acc)) as (ds & ws & D1 & D2 & D3 & D4 & D5).
  { destruct Hor as [[_ Hw]|(_ & _ & g' & ds & ws & Es' & Hf & Ed & Hpre & Hb & Hpa)].
    - rewrite Es in Hw. destruct Hw as (_ & ds & ws & -> & Ed & Hb). exists ds, ws. split; [by eexists|].
      split; [|split; [done|split; [done|]]].
      + intros Ef. rewrite (barrier_finished _ _ _ _ Hb Ef). by rewrite app_nil_r.
      + intros b i Hp Hi. unfold barrier_ok in Hb. rewrite Hp, Hi in Hb. destruct Hb as (_ & _ & _ & -> & _). by rewrite app_nil_r.
    - rewrite Es in Es'. injection Es' as <- ->. exists ds, ws. rewrite Hf, app_nil_r. split_and!; try done. intros b i Hp. rewrite (Hpa b i Hp). done. }
  destruct (guard_drop_over acc g ds D1 D2 D3) as (G1 & G2 & c & G3). split; [done|]. unfold after_ok, barrier_ok in *. cbn. destruct (w_pending w) as [[b i]|].
  - destruct D4 as [Hs Hb]. split; [done|]. destruct (w_acks w !! i) as [[]|] eqn:Ei; try done.
    + destruct Hb as (Hf & [[-> Hq]|(-> & -> & Hq & ->)]).
      * rewrite Hq, dropped_acks. cbn. destruct b; cbn; by rewrite settle_gone.
      * rewrite Hq. cbn. by rewrite settle_gone.
    + destruct Hb as (-> & Hq & -> & Hf). rewrite Hq. cbn. rewrite Ei. rewrite G2. split; [congruence|]. exists c. by rewrite <-(D5 b i eq_refl Ei).
  - destruct D4 as (_ & _ & Hf & _). rewrite G2. congruence.
Qed.

Lemma w_writer_drop acc w : w_inv acc w -> w_inv acc (writer_drop w).
Proof.
  intros [Hh Hw]. destruct (tc_drop_sender_law (w_chan w)) as (E1 & E2 & E3). split; [done|]. cbn. rewrite E2. destruct (w_send w) as [[g fin]|]; [|done].
  destruct Hw as (Ho & ds & ws & Ea & Ed & Hb). split; [done|]. exists ds, ws. split; [done|]. split; [done|]. unfold barrier_ok in *. cbn. by rewrite E1.
Qed.
End writes.

(** ** Reads *)

Section channel.
Context {Hm : Type}.
Implicit Types (c : Chan Hm).

Definition ok_data (e : result Error bytes) : option bytes := match e with Ok d => Some d | Err _ => None end.
Definition flow (l : list (result Error bytes)) : bytes := concat (omap ok_data l).
Definition all_ok (l : list (result Error bytes)) : Prop := Forall (fun e => ok_data e ≠ None) l.

Lemma all_ok_err e l : ~ all_ok (Err e :: l).
Proof. intros Hok. inversion Hok as [|? ? He _]. by apply He. Qed.

Lemma flow_app l l' : flow (l ++ l') = flow l ++ flow l'.
Proof. unfold flow. by rewrite omap_app, concat_app. Qed.

(** One poll of the channel's receiver. *)
Lemma chan_next c c' o : chan_inv c -> poll_next c = (c', o) -> chan_inv c' /\ sender_open c' = sender_open c /\ receiver_open c' = receiver_open c /\
  match o with
  | Ready (Some d) => in_flight c = Ok d :: in_flight c'
  | Failed e => in_flight c = Err e :: in_flight c'
  | Ready None => in_flight c = [] /\ in_flight c' = [] /\ sender_open c = false
  | Pending => in_flight c = [] /\ in_flight c' = [] /\ sender_open c = true
  | Panicked | NoFuel => False
  end.
Proof.
  destruct c as [it pe tr so ro w ts te sw rw]. unfold poll_next, chan_inv, in_flight. unfold mbind, M_bind, get, modify, mret, M_ret, fail, pend. cbn. intros Hi E.
  destruct te; cbn in E; [injection E as <- <-; destruct (Hi eq_refl) as (-> & -> & ->); by split_and!|]. destruct it as [[]|], pe, so, w; cbn in E; injection E as <- <-; cbn; split_and!; done.
Qed.

(** The sender's calls. *)
Lemma chan_ready c c' o : chan_poll_ready c = (c', o) -> c' = c /\ sound o /\ (o = Ready tt -> in_flight c = [] /\ want c = true /\ receiver_open c = true).
Proof.
  destruct c as [it pe tr so ro w ts te sw rw]. unfold chan_poll_ready, in_flight. unfold mbind, M_bind, get, mret, M_ret, fail, pend. cbn. intros E.
  destruct ro, w, it, pe; cbn in E; injection E as <- <-; split_and!; done.
Qed.

Lemma chan_data c d : in_flight c = [] -> want c = true -> receiver_open c = true -> sender_open c = true -> chan_inv c -> exists c', send_data d c = (c', Ready tt) /\ chan_inv c' /\
  in_flight c' = [Ok d] /\ sender_open c' = true /\ receiver_open c' = true.
Proof.
  destruct c as [it pe tr so ro w ts te sw rw]. unfold in_flight, chan_inv. cbn. intros Hf -> -> -> Hi. destruct it, pe; try done. eexists. split; [done|]. cbn. split_and!; try done. intros E. by destruct (Hi E).
Qed.

Lemma chan_error c e : all_ok (in_flight c) -> sender_open c = true -> chan_inv c -> let c' := (send_error (E := Empty_set) e c).1 in
  chan_inv c' /\ in_flight c' = in_flight c ++ (if receiver_open c then [Err e] else []) /\ receiver_open c' = receiver_open c.
Proof.
  destruct c as [it pe tr so ro w ts te sw rw]. unfold in_flight, chan_inv, send_error. unfold mbind, M_bind, get, modify, mret, M_ret. cbn. intros Hok -> Hi.
  assert (pe = None) as -> by (destruct pe as [p|]; [|done]; apply Forall_app in Hok as [_ Hok]; by inversion Hok). destruct ro; cbn; [|split_and!; [exact Hi|by rewrite !app_nil_r|done]]. destruct it; cbn; split_and!; try done; intros E; by destruct (Hi E).
Qed.

Lemma chan_close c : chan_inv c -> let c' := (sender_drop (E := Empty_set) c).1 in chan_inv c' /\ in_flight c' = in_flight c /\ sender_open c' = false /\ receiver_open c' = receiver_open c.
Proof. destruct c as [it pe tr so ro w ts te sw rw]. unfold in_flight, chan_inv, sender_drop, modify. cbn. intros Hi. destruct ro; cbn; split_and!; try done; intros E; by destruct (Hi E). Qed.

Lemma chan_unread c : chan_inv c -> let c' := (receiver_drop (E := Empty_set) c).1 in chan_inv c' /\ in_flight c' = in_flight c /\ sender_open c' = sender_open c /\ receiver_open c' = false.
Proof. destruct c as [it pe tr so ro w ts te sw rw]. unfold in_flight, chan_inv, receiver_drop, modify. cbn. intros Hi. destruct so; cbn; split_and!; try done; intros E; by destruct (Hi E). Qed.
End channel.

Section reads.
Context {Y Dg Hm : Type} `{RL : H3RecvLaws Y Hm} `{DG : RequestDatagrams Dg}.
Abbreviation R := (TRead Y Dg Hm).
Implicit Types (r : R) (g : RecvGuard Y Dg) (got : bytes) (fin : option (option Error)) (lost : bool).

(** The stream's data. *)
Definition source g : bytes := concat (hr_data (rg_stream g)).
Definition passing r : bytes := r_data r ++ flow (in_flight (r_chan r)).

(** While the task receives: nothing of the stream's data is missing, and the stream has
    said no more than that data, and maybe its end. *)
Definition flowing got r (s : TRecv Y Dg) : Prop :=
  ts_body s = true /\ sender_open (r_chan r) = true /\ all_ok (in_flight (r_chan r)) /\ rg_finished (ts_guard s) = false /\ hr_stops (rg_stream (ts_guard s)) = [] /\
  got ++ passing r ++ default [] (ts_data s) = source (ts_guard s).
Definition tells (s : TRecv Y Dg) : Prop := exists ds, hr_log (rg_stream (ts_guard s)) = told ds (ts_done s).
Definition receiving got r (s : TRecv Y Dg) : Prop := flowing got r s /\ tells s.

(** The error that is told for a fault of the stream: the fault, unless the application
    aborted the Datagram session or the connection has failed. *)
Definition names g (ce : option Error) (e : Error) : Prop :=
  forall x, last (hr_log (rg_stream g)) = Some (SaidFault x) -> e = new_h3 (CauseH3Stream x) \/ e = malformed_datagram_error \/ ce ≠ None.

(** The half was read to the end, or given up; [fin] is how the reader's stream ended, if it
    did, and [lost] whether the executor discarded the task. *)
Definition received_all got fin r g : Prop :=
  rg_finished g = true /\ (exists ds, hr_log (rg_stream g) = told ds true ++ [SaidEnd None] /\ hr_stops (rg_stream g) = []) /\ all_ok (in_flight (r_chan r)) /\ got ++ passing r = source g /\
  (fin = None \/ (fin = Some None /\ r_data r = [] /\ in_flight (r_chan r) = [])).
Definition received_part got fin lost r g : Prop :=
  rg_finished g = false /\ (exists c, hr_stops (rg_stream g) = [c]) /\ got ++ passing r `prefix_of` source g /\
  match fin with
  | None => lost = true \/ receiver_open (r_chan r) = false \/ exists l e, in_flight (r_chan r) = l ++ [Err e] /\ all_ok l /\ names g (r_error r) e
  | Some None => lost = true
  | Some (Some e) => lost = true \/ names g (r_error r) e
  end.

Definition r_inv got fin lost r : Prop := chan_inv (r_chan r) /\ (r_closed r = false <-> fin = None) /\
  match r_recv r with
  | Some s => fin = None /\ receiving got r s
  | None => sender_open (r_chan r) = false /\ exists g, r_gone r = Some g /\ (received_all got fin r g \/ received_part got fin lost r g)
  end.

Lemma r_inv_new g e : hr_log (rg_stream g) = [] -> hr_stops (rg_stream g) = [] -> rg_finished g = false -> r_inv [] None false (tr_new g e).
Proof. intros E1 E2 E3. split; [done|]. split; [done|]. split; [done|]. split; [|by exists []]. unfold flowing, source, hr_data. cbn. rewrite E1. split_and!; try done. constructor. Qed.

(** How reading has ended after a read. *)
Definition read_end fin (o : outcome TunError bytes) r : option (option Error) :=
  match fin, o with
  | None, Ready _ => if r_closed r then Some None else None
  | None, Failed (TOther e) => Some (Some e)
  | _, _ => fin
  end.
Definition read_bytes (o : outcome TunError bytes) : bytes := match o with Ready b => b | _ => [] end.

Definition read_post got fin lost (o : outcome TunError bytes) r : Prop := sound o /\ r_inv (got ++ read_bytes o) (read_end fin o r) lost r /\ receiver_open (r_chan r) = true /\ (o = Pending -> sender_open (r_chan r) = true).

(** A chunk moves from the channel to the reader. *)
Lemma r_inv_next got fin lost r d c' : r_data r = [] -> in_flight (r_chan r) = Ok d :: in_flight c' -> sender_open c' = sender_open (r_chan r) -> receiver_open c' = receiver_open (r_chan r) ->
  fin = None ->
  (match r_recv r with
   | Some s => fin = None /\ receiving got r s
   | None => sender_open (r_chan r) = false /\ exists g, r_gone r = Some g /\ (received_all got fin r g \/ received_part got fin lost r g)
   end) ->
  let r' := set_r_data d (set_r_chan c' r) in
  match r_recv r' with
  | Some s => fin = None /\ receiving got r' s
  | None => sender_open (r_chan r') = false /\ exists g, r_gone r' = Some g /\ (received_all got fin r' g \/ received_part got fin lost r' g)
  end.
Proof.
  intros Ed Ef Eso Ero -> Hr. unfold receiving, flowing, received_all, received_part, passing in *. cbn. rewrite Ed, Ef in Hr. cbn [app] in Hr. change (flow (Ok d :: in_flight c')) with (d ++ flow (in_flight c')) in Hr.
  destruct (r_recv r) as [s|].
  - destruct Hr as (_ & (? & ? & Hok & ? & ? & ?) & ?). inversion Hok; subst. split_and!; try done. congruence.
  - destruct Hr as (? & g & Eg & Hor). split; [congruence|]. exists g. split; [done|]. destruct Hor as [(? & ? & Hok & ? & _)|(? & ? & ? & Hl)].
    + inversion Hok; subst. left. split_and!; auto.
    + right. split_and!; try done. destruct Hl as [?|[?|(l & e & Hl & Hok & ?)]]; [by left|right; left; congruence|]. destruct l as [|x l]; [done|]. injection Hl as <- Hl. inversion Hok; subst. right. right. by exists l, e.
Qed.

Lemma read_loop_inv k n : 0 < n -> forall got fin lost r, r_inv got fin lost r -> receiver_open (r_chan r) = true -> (length (in_flight (r_chan r)) + 2 <= k)%nat ->
  wp (tun_read_loop k n) (read_post got fin lost) r.
Proof.
  intros Hn. induction k as [|k IH]; intros got fin lost r (Hc & Hcl & Hr) Ho Hk; [lia|]. cbn [tun_read_loop]. do 2 wp_step. case_bool_decide as Ed; cbn [negb].
  2: { do 2 wp_step. wp_step. set (size := Z.min n (len (r_data r))). assert (ztake size (r_data r) ++ zdrop size (r_data r) = r_data r) as Et by apply ztake_zdrop.
    assert (read_end fin (Ready (ztake size (r_data r))) (set_r_data (zdrop size (r_data r)) r) = fin) as Ef.
    { unfold read_end. cbn. destruct fin as [[e|]|]; [done|done|]. by rewrite (proj2 Hcl eq_refl). }
    split; [done|]. rewrite Ef. split; [|done]. split; [done|]. split; [done|]. cbn. 
    assert (forall l, (got ++ ztake size (r_data r)) ++ zdrop size (r_data r) ++ l = got ++ r_data r ++ l) as Ea by (intros l; by rewrite <-app_assoc, (app_assoc (ztake _ _)), Et).
    destruct (r_recv r) as [s|]; unfold receiving, flowing, received_all, received_part, passing in *; cbn; rewrite ?Ea.
    - destruct Hr as (-> & (? & ? & ? & ? & ? & Hd) & ?). rewrite <-!app_assoc in *. split_and!; try done. rewrite (app_assoc (ztake _ _)), Et. done.
    - destruct Hr as (? & g & Eg & Hor). split; [done|]. exists g. split; [done|]. destruct Hor as [(? & ? & ? & ? & [?|(_ & ? & _)])|?]; [left; split_and!; auto|done|by right]. }
  destruct (r_closed r) eqn:Ecl.
  { wp_step. assert (read_end fin (Ready []) r = fin) as Ef by (unfold read_end; destruct fin as [[]|]; try done; pose proof (proj2 Hcl eq_refl); congruence). split; [done|]. rewrite Ef. cbn. rewrite app_nil_r. split; [rewrite <-Ecl in Hcl; exact (conj Hc (conj Hcl Hr))|done]. }
  assert (fin = None) as -> by (by apply Hcl). wp_step. unfold on_body. apply wp_zoom, wp_intro. intros c' o E. apply chan_next in E as (Hc' & Hso & Hro & Ho'); [|done]. rewrite Ho in Hro.
  destruct o as [[d|]|e| | |]; try done.
  - do 2 wp_step. apply IH; [|done|cbn; rewrite Ho' in Hk; cbn in Hk; lia]. split; [done|]. split; [cbn; by rewrite Ecl|]. apply (r_inv_next got None lost r d c'); try done; congruence.
  - do 2 wp_step. wp_step. destruct Ho' as (F1 & F2 & F3). unfold read_post, read_end. cbn. rewrite app_nil_r. split; [done|]. split; [|done]. split; [done|]. split; [done|]. cbn. rewrite Hso.
    destruct (r_recv r) as [s|]; [destruct Hr as (_ & (_ & ? & _) & _); congruence|]. destruct Hr as (_ & g & Eg & Hor). split; [done|]. exists g. split; [done|].
    unfold received_all, received_part, passing in *. cbn. rewrite F2. rewrite F1, Ed in Hor. destruct Hor as [(? & ? & ? & ? & _)|(? & ? & ? & [?|[?|(l & e & Hl & _ & _)]])]; [left; rewrite Ed; split_and!; auto|right; rewrite Ed; by split_and!|congruence|by destruct l].
  - do 2 wp_step. wp_step. unfold read_post, read_end. cbn. rewrite app_nil_r. split; [done|]. split; [|done]. split; [done|]. split; [done|]. cbn. rewrite Hso. unfold receiving, flowing, received_all, received_part, passing in *. cbn.
    destruct (r_recv r) as [s|]; [destruct Hr as (_ & (_ & _ & Hok & _) & _); rewrite Ho' in Hok; by apply all_ok_err in Hok|]. destruct Hr as (? & g & Eg & Hor). split; [done|]. exists g. split; [done|]. rewrite Ho' in Hor.
    destruct Hor as [(_ & _ & Hok & _)|(? & ? & Hpre & Hl)]; [by apply all_ok_err in Hok|]. right. split_and!; try done.
    destruct Hl as [?|[?|([|x l] & e' & Hl & Hok & Hna)]]; [by left|congruence|injection Hl as <- _; by right|]. injection Hl as <- _. by apply all_ok_err in Hok.
  - destruct Ho' as (F1 & F2 & F3). unfold read_post, read_end. cbn. rewrite app_nil_r. split; [done|]. split; [|split; [done|intros _; cbn; congruence]]. split; [done|]. split; [cbn; by rewrite Ecl|]. cbn. rewrite Hso. unfold receiving, flowing, received_all, received_part, passing in *. cbn. rewrite F2, Hro, ?Hso. rewrite F1, Ho in Hr. exact Hr.
Qed.

Lemma tun_poll_read_inv got fin lost r n : 0 <= n -> r_inv got fin lost r -> receiver_open (r_chan r) = true -> wp (tun_poll_read n) (fun o r' => sound o /\ receiver_open (r_chan r') = true /\
  (n = 0 -> o = Ready [] /\ r' = r) /\ (0 < n -> read_post got fin lost o r')) r.
Proof.
  intros Hn Hr Ho. unfold tun_poll_read. destruct (Z.eqb_spec n 0) as [->|Hne]; [wp_step; split_and!; try done; lia|]. eapply wp_mono; [eapply (read_loop_inv 4 n); try done; [lia|]|].
  - unfold in_flight. destruct (item _), (pending_error _); cbn; lia.
  - intros o r' Hp. split_and!; [apply Hp|apply Hp|done|done].
Qed.

(** *** The task *)

(** The task receives; [b] is whether the reader is there. *)
Definition recv_ok got (b : bool) r : Prop := exists s, r_recv r = Some s /\ chan_inv (r_chan r) /\ r_closed r = false /\ receiving got r s /\ receiver_open (r_chan r) = b.

(** It has reached the end of the stream, and has dropped the sender. *)
Definition recv_done got (b : bool) r : Prop := exists s, r_recv r = Some s /\ chan_inv (r_chan r) /\ r_closed r = false /\ receiver_open (r_chan r) = b /\ ts_body s = false /\
  sender_open (r_chan r) = false /\ all_ok (in_flight (r_chan r)) /\ rg_finished (ts_guard s) = true /\
  (exists ds, hr_log (rg_stream (ts_guard s)) = told ds true ++ [SaidEnd None] /\ hr_stops (rg_stream (ts_guard s)) = []) /\ got ++ passing r = source (ts_guard s).

(** It has failed with [e]. *)
Definition recv_cut got (b : bool) (e : Error) r : Prop :=
  exists s, r_recv r = Some s /\ chan_inv (r_chan r) /\ r_closed r = false /\ (flowing got r s /\ names (ts_guard s) (r_error r) e) /\ receiver_open (r_chan r) = b.

Lemma told_last ds dd x : last (told (Hm := Hm) ds dd) ≠ Some (SaidFault x).
Proof. unfold told. destruct dd; [by rewrite last_snoc|]. rewrite app_nil_r. intros Hx%last_Some_elem_of%list_elem_of_fmap. by destruct Hx as (? & ? & _). Qed.

Lemma recv_ok_cut got b e r : recv_ok got b r -> recv_cut got b e r.
Proof. intros (s & Es & Hc & Hcl & (Hf & ds & Ht) & Ho). exists s. split_and!; try done. intros x Hx. rewrite Ht in Hx. by apply told_last in Hx. Qed.

Definition round_ok got b (o : outcome Error bool) r : Prop :=
  match o with Ready true => recv_done got b r | Ready false | Pending => recv_ok got b r | Failed e => recv_cut got b e r | Panicked | NoFuel => False end.

(** A step of the stream that says nothing; one that gives no data. *)
Lemma source_kept got b r s y : r_recv r = Some s -> recv_ok got b r -> hr_log y = hr_log (rg_stream (ts_guard s)) -> hr_stops y = hr_stops (rg_stream (ts_guard s)) ->
  recv_ok got b (set_r_recv (Some (set_ts_guard (set_rg_stream y (ts_guard s)) s)) r).
Proof.
  intros Es (s' & Es' & Hc & Hcl & ((R1 & R2 & R3 & R4 & R5 & R6) & ds & Ht) & Ho) E1 E2. rewrite Es in Es'. injection Es' as <-. eexists. split; [done|]. unfold receiving, flowing, tells, source, hr_data in *. cbn. rewrite E1, E2.
  split_and!; try done. by exists ds.
Qed.

Lemma flowing_kept got b r s y l : r_recv r = Some s -> recv_ok got b r -> hr_log y = hr_log (rg_stream (ts_guard s)) ++ l -> said_data l = [] -> hr_stops y = hr_stops (rg_stream (ts_guard s)) ->
  flowing got (set_r_recv (Some (set_ts_guard (set_rg_stream y (ts_guard s)) s)) r) (set_ts_guard (set_rg_stream y (ts_guard s)) s).
Proof.
  intros Es (s' & Es' & Hc & Hcl & ((R1 & R2 & R3 & R4 & R5 & R6) & ds & Ht) & Ho) E1 El E2. rewrite Es in Es'. injection Es' as <-. unfold flowing, source, hr_data in *. cbn. rewrite E1, E2, said_data_app, El, app_nil_r. by split_and!.
Qed.

Lemma end_round got b r s : r_recv r = Some s -> recv_ok got b r -> ts_data s = None -> ts_done s = true -> wp tun_end (round_ok got b) r.
Proof.
  intros Es Hr Ed Edn. unfold wp, tun_end, on_source. rewrite Es. destruct (hr_poll_trailers (rg_stream (ts_guard s))) as [y o] eqn:E. apply hr_trailers_law in E as (Hs & E1 & E2).
  pose proof (flowing_kept got b r s y _ Es Hr E2 ltac:(by destruct o) E1) as Hk. destruct Hr as (s' & Es' & Hc & Hcl & (_ & ds & Ht) & Ho). rewrite Es in Es'. injection Es' as <-. set (r' := set_r_recv _ r) in *.
  assert (round_ok got b (Failed (error_of (Some (default (new_h3 (CauseText headers_violation)) (r_error r'))))) (tun_violate r').1) as Hv by (eexists; split; [done|]; split_and!; try done; intros x _; by right; right).
  destruct o as [[tr|]|e| | |]; try done.
  - destruct Hk as (R1 & R2 & R3 & R4 & R5 & R6). destruct (chan_close (r_chan r) Hc) as (C1 & C2 & C3 & C4).
    change (recv_done got b (set_r_chan (sender_drop (E := Empty_set) (r_chan r)).1 (with_recv (fun s => MkTRecv (MkRecvGuard (dg_close_recv <$> rg_datagrams (ts_guard s)) (rg_stream (ts_guard s)) true (rg_code (ts_guard s))) false (ts_data s) (ts_done s)) r'))).
    eexists. split; [done|]. cbn [r_chan set_r_chan r_closed with_recv r']. rewrite C2, C3, C4. split_and!; try done; [exists ds; cbn; split; [by rewrite E2, Ht, Edn|done]|].
    unfold passing in *. cbn [r_data r_chan set_r_chan with_recv]. rewrite C2. unfold source in *. cbn in *. rewrite Ed in R6. cbn in R6. by rewrite app_nil_r in R6.
  - assert (forall x, last (hr_log y) = Some (SaidFault x) -> x = e) as Hx by (intros x; rewrite E2, last_snoc; by intros [= ->]).
    assert (round_ok got b (Failed (new_h3 (CauseH3Stream e))) r') as Hf by (eexists; split; [done|]; split_and!; try done; intros x Hl; left; by rewrite (Hx x Hl)). by destruct e.
Qed.

Lemma receive_round got b r s : r_recv r = Some s -> recv_ok got b r -> ts_data s = None -> wp tun_receive (round_ok got b) r.
Proof.
  intros Es Hr Ed. unfold wp, tun_receive. rewrite Es. destruct (ts_done s) eqn:Edn; [by eapply end_round|]. unfold match_ready, on_source. rewrite Es.
  destruct (hr_poll_data (rg_stream (ts_guard s))) as [y o] eqn:E. apply hr_data_law in E as (Hs & E1 & E2).
  pose proof Hr as (s' & Es' & Hc & Hcl & ((R1 & R2 & R3 & R4 & R5 & R6) & ds & Ht) & Ho). rewrite Es in Es'. injection Es' as <-. rewrite Edn in Ht. unfold told in Ht. rewrite app_nil_r in Ht.
  destruct o as [[d|]|e| | |]; try done; try rewrite app_nil_r in E2.
  - cbn. eexists. split; [done|]. unfold receiving, flowing, tells, source, hr_data, passing in *. cbn. rewrite E1, E2, said_data_app, concat_app. cbn.
    rewrite Ed in R6. cbn in R6. rewrite !app_nil_r in *. split_and!; try done; [by rewrite app_assoc, R6|]. exists (ds ++ [d]). rewrite Edn, Ht. unfold told. by rewrite fmap_app, app_nil_r.
  - pose proof (flowing_kept got b r s y _ Es Hr E2 ltac:(done) E1) as Hk. eapply end_round; [done| |done|done]. eexists. split; [done|]. split_and!; try done. split; [exact Hk|]. exists ds. cbn. by rewrite E2, Ht.
  - pose proof (flowing_kept got b r s y _ Es Hr E2 ltac:(done) E1) as Hk. eexists. split; [done|]. split_and!; try done. intros x. cbn. rewrite E2, last_snoc. intros [= <-]. by left.
  - by apply source_kept.
Qed.

Lemma forward_round got b r s data : r_recv r = Some s -> recv_ok got b r -> ts_data s = Some data -> data ≠ [] -> wp (tun_forward data) (round_ok got b) r.
Proof.
  intros Es Hr Ed Hne. pose proof Hr as (s' & Es' & Hc & Hcl & ((R1 & R2 & R3 & R4 & R5 & R6) & Ht) & Ho). rewrite Es in Es'. injection Es' as <-. unfold tun_forward. wp_step. unfold on_body. apply wp_zoom, wp_intro. intros c o E.
  apply chan_ready in E as (-> & Hs & Hrd). assert (set_r_chan (r_chan r) r = r) as Er by (by destruct r). rewrite Er. destruct o as [[]|e| | |]; try done; [|by apply recv_ok_cut]. destruct (Hrd eq_refl) as (F1 & F2 & F3).
  do 2 wp_step. set (size := Z.min (len data) CHUNK). wp_step. wp_step. apply wp_zoom, wp_intro. intros c o E. cbn in E.
  destruct (chan_data (r_chan r) (ztake size data) F1 F2 F3 R2 Hc) as (c' & Ec & C1 & C2 & C3 & C4). rewrite Ec in E. injection E as <- <-. wp_step.
  cbn [round_ok]. unfold recv_ok, with_recv. cbn. rewrite Es. cbn. eexists. split; [done|]. unfold receiving, flowing, source, passing in *. cbn. rewrite C2, C3. split_and!; try done; [by constructor| |congruence].
  rewrite Ed, F1 in R6. cbn in R6. unfold flow. cbn. rewrite !app_nil_r in *. rewrite <-app_assoc, ztake_zdrop. done.
Qed.

Lemma recv_round_ok got b r : recv_ok got b r -> wp tun_recv_round (round_ok got b) r.
Proof.
  intros Hr. pose proof Hr as (s & Es & Hc & Hcl & ((R1 & R2 & R3 & R4 & R5 & R6) & Ht) & Ho). unfold wp, tun_recv_round. destruct (negb _); [by apply recv_ok_cut|]. rewrite Es. destruct (ts_data s) as [data|] eqn:Ed; [|by eapply receive_round].
  case_bool_decide as Hd; [|by eapply forward_round]. eapply (receive_round got b _ (set_ts_data None s)); [unfold with_recv; cbn; by rewrite Es| |done]. exists (set_ts_data None s). unfold with_recv. rewrite Es. split; [done|].
  unfold receiving, flowing, passing in *. cbn. rewrite Hd in R6. by split_and!.
Qed.

Lemma recv_poll_ok got b r : recv_ok got b r -> wp tun_recv_poll (fun o r' => match o with Ready _ => recv_done got b r' | Pending => recv_ok got b r' | Failed e => recv_cut got b e r' | _ => False end) r.
Proof.
  intros Hr. pose proof Hr as (s & Es & _ & _ & ((R1 & _) & _) & _). unfold wp, tun_recv_poll. rewrite Es, R1. clear s Es R1. revert r Hr. generalize 32%nat as k. induction k as [|k IH]; intros r Hr; cbn [tun_recv_loop]; [exact Hr|].
  unfold mbind, M_bind. pose proof (recv_round_ok got b r Hr) as Hp. unfold wp in Hp. destruct (tun_recv_round r) as [r' [[|]|e| | |]]; try done. by apply IH.
Qed.

(** *** Endings *)

Lemma guard_stopped g : rg_finished g = false -> hr_stops (rg_stream g) = [] -> rg_finished (recv_guard_drop g) = false /\ (exists c, hr_stops (rg_stream (recv_guard_drop g)) = [c]) /\
  source (recv_guard_drop g) = source g /\ hr_log (rg_stream (recv_guard_drop g)) = hr_log (rg_stream g).
Proof.
  intros Hf Hs. unfold recv_guard_drop. rewrite Hf. unfold source, hr_data. cbn. match goal with |- context [hr_stop_sending ?c ?y] => destruct (hr_stop_law c y) as [-> ->] end. rewrite Hs. split_and!; [done|by eexists|done|done].
Qed.

Lemma done_inv got b lost r : recv_done got b r -> r_inv got None lost (tun_recv_drop r) /\ receiver_open (r_chan (tun_recv_drop r)) = b.
Proof.
  intros (s & Es & Hc & Hcl & Ho & D1 & D2 & D3 & D4 & D5 & D6). unfold tun_recv_drop. rewrite Es, D1. split; [|done]. split; [done|]. split; [cbn; by rewrite Hcl|]. cbn. split; [done|]. eexists. split; [done|]. left.
  unfold received_all, recv_guard_drop. rewrite D4. split_and!; auto.
Qed.

(** A failed transfer: the error waits behind the data, if somebody reads. *)
Lemma fail_inv got b lost aborted e r : recv_cut got b e r ->
  let r1 := tun_recv_drop (take_body r).1 in
  let r2 := set_r_chan (sender_drop (E := Empty_set) (r_chan (tell_reader aborted (Some e) r1))).1 r1 in
  (take_body r).2 = true /\ r_inv got None lost r2 /\ receiver_open (r_chan r2) = b.
Proof.
  intros (s & Es & Hc & Hcl & ((R1 & R2 & R3 & R4 & R5 & R6) & Hna) & Ho). unfold take_body. rewrite Es. cbn [fst snd]. split; [done|]. unfold tun_recv_drop. cbn [r_recv set_r_recv ts_body ts_guard].
  set (e' := error_or_of (r_error r) (if aborted then malformed_datagram_error else e)). destruct (chan_error (r_chan r) e' R3 R2 Hc) as (C1 & C2 & C3). destruct (chan_close _ C1) as (D1 & D2 & D3 & D4).
  unfold tell_reader. cbn [r_error r_chan set_r_chan set_r_recv]. fold e'. split; [|rewrite D4; congruence].
  split; [done|]. split; [cbn; by rewrite Hcl|]. cbn [r_recv set_r_chan r_chan r_gone]. split; [done|]. eexists. split; [done|]. right. destruct (guard_stopped _ R4 R5) as (G1 & G2 & G3 & G4).
  unfold received_part, passing. cbn [r_chan set_r_chan r_data]. rewrite D2, D4, C2, C3, G3, <-R6. split_and!; try done.
  - unfold passing. destruct (receiver_open (r_chan r)); rewrite ?app_nil_r; [rewrite flow_app; cbn; rewrite app_nil_r|]; apply prefix_app; by eexists.
  - destruct (receiver_open (r_chan r)); [|by right; left]. right. right. eexists _, _. split_and!; [done|done|]. intros x. rewrite G4. intros Hx. cbn. subst e'. unfold error_or_of.
    destruct (r_error r) eqn:Ere; [by right; right|]. destruct aborted; [by right; left|]. by destruct (Hna x Hx) as [?|[?|?]]; [left|right; left|].
Qed.

Lemma lost_inv got fin lost r : r_inv got fin lost r -> r_inv got fin true (tun_recv_drop r) /\ receiver_open (r_chan (tun_recv_drop r)) = receiver_open (r_chan r).
Proof.
  intros (Hc & Hcl & Hr). unfold tun_recv_drop. destruct (r_recv r) as [s|] eqn:Es.
  - destruct Hr as (-> & (R1 & R2 & R3 & R4 & R5 & R6) & _). rewrite R1. destruct (chan_close (r_chan r) Hc) as (C1 & C2 & C3 & C4). split; [|done]. split; [done|]. split; [done|]. cbn [r_recv r_chan r_gone]. split; [done|].
    eexists. split; [done|]. right. destruct (guard_stopped _ R4 R5) as (G1 & G2 & G3 & _). unfold received_part, passing in *. cbn [r_chan r_data]. rewrite C2, G3, <-R6. split_and!; try done; [apply prefix_app; by eexists|by left].
  - split; [|done]. split; [done|]. split; [done|]. rewrite Es. destruct Hr as (? & g & Eg & Hor). split; [done|]. exists g. split; [done|]. destruct Hor as [?|(? & ? & ? & Hl)]; [by left|right]. split_and!; try done. destruct fin as [[|]|]; auto.
Qed.

Lemma unread_inv got fin lost r : r_inv got fin lost r -> r_inv got fin lost (reader_drop r).
Proof.
  intros (Hc & Hcl & Hr). destruct (chan_unread (r_chan r) Hc) as (C1 & C2 & C3 & C4). split; [done|]. split; [done|]. unfold reader_drop, receiving, flowing, received_all, received_part, passing in *. cbn [r_recv r_chan r_gone r_data set_r_chan]. rewrite C2, C3, C4.
  destruct (r_recv r) as [s|]; [done|]. destruct Hr as (? & g & Eg & Hor). split; [done|]. exists g. split; [done|]. destruct Hor as [?|(? & ? & ? & Hl)]; [by left|right]. split_and!; try done. destruct fin as [[|]|]; auto.
Qed.
(** The connection fails. *)
Lemma error_inv got fin lost r e : r_error r = None -> r_inv got fin lost r -> r_inv got fin lost (set_r_error (Some e) r).
Proof.
  intros _ (Hc & Hcl & Hr). split; [done|]. split; [done|]. cbn. unfold receiving, flowing, received_all, received_part, names, passing in *. cbn. destruct (r_recv r) as [s|]; [done|]. destruct Hr as (? & g & Eg & Hor). split; [done|].
  exists g. split; [done|]. destruct Hor as [?|(? & ? & ? & Hl)]; [by left|right]. split_and!; try done. destruct fin as [[e'|]|]; [right; auto|done|]. destruct Hl as [?|[?|(l & e' & ? & ? & _)]]; [by left|by right; left|]. right. right. exists l, e'. split_and!; auto.
Qed.
End reads.

(** ** Runs *)

Section runs.
Context {Y X Dg Hm Q : Type} `{SL : H3SendLaws X Hm} `{RL : !H3RecvOps Y Hm} `{RLL : !H3RecvLaws Y Hm} `{DG : RequestDatagrams Dg} `{TL : TokioChanLaws Q Write}.
Abbreviation T := (Tunnel Y X Dg Hm Q).
Implicit Types (t : T) (acc : list bytes) (got : bytes) (fin : option (option Error)) (lost : bool).

Definition accepted (buf : bytes) (o : outcome TunError Z) : list bytes := match o with Ready n => if n =? 0 then [] else [ztake n buf] | _ => [] end.

(** The life of a tunnel: the writes that were accepted, the bytes that were read, how
    reading ended and whether the executor discarded the task. The application reads,
    writes and drops its side; the task is polled, with an invalid Datagram or not, or
    discarded; the connection fails and the stream moves on their own. *)
Inductive h3_tunnel : list bytes -> bytes -> option (option Error) -> bool -> T -> Prop :=
| ht_new send recv e session : hs_sent (sg_stream send) = [] -> sg_finished send = false -> reads recv [] false -> h3_tunnel [] [] None false (tunnel_new send recv (MkActive true true) e session)
| ht_write acc got fin lost t buf w o : h3_tunnel acc got fin lost t -> t_io t = true -> tun_poll_write buf (t_w t) = (w, o) -> h3_tunnel (acc ++ accepted buf o) got fin lost (set_t_w w t)
| ht_flush acc got fin lost t w o : h3_tunnel acc got fin lost t -> t_io t = true -> tun_poll_flush (t_w t) = (w, o) -> h3_tunnel acc got fin lost (set_t_w w t)
| ht_shutdown acc got fin lost t w o : h3_tunnel acc got fin lost t -> t_io t = true -> tun_poll_shutdown (t_w t) = (w, o) -> h3_tunnel acc got fin lost (set_t_w w t)
| ht_read acc got fin lost t n r o : h3_tunnel acc got fin lost t -> t_io t = true -> 0 < n -> tun_poll_read n (t_r t) = (r, o) ->
    h3_tunnel acc (got ++ read_bytes o) (read_end fin o r) lost (set_t_r r t)
| ht_io_drop acc got fin lost t : h3_tunnel acc got fin lost t -> t_io t = true -> h3_tunnel acc got fin lost (tunnel_io_drop t)
| ht_task acc got fin lost t t' o invalid aborted : h3_tunnel acc got fin lost t -> tunnel_task_poll invalid aborted t = (t', o) -> h3_tunnel acc got fin lost t'
| ht_discard acc got fin lost t : h3_tunnel acc got fin lost t -> t_task t = true -> h3_tunnel acc got fin true (tunnel_task_drop t)
| ht_error acc got fin lost t e : h3_tunnel acc got fin lost t -> r_error (t_r t) = None -> h3_tunnel acc got fin lost (set_t_r (set_r_error (Some e) (t_r t)) t)
| ht_sent acc got fin lost t g f x : h3_tunnel acc got fin lost t -> w_send (t_w t) = Some (g, f) -> hs_sent x = hs_sent (sg_stream g) ->
    h3_tunnel acc got fin lost (set_t_w (moved (t_w t) g f x) t)
| ht_received acc got fin lost t s y : h3_tunnel acc got fin lost t -> r_recv (t_r t) = Some s -> hr_log y = hr_log (rg_stream (ts_guard s)) -> hr_stops y = hr_stops (rg_stream (ts_guard s)) ->
    h3_tunnel acc got fin lost (set_t_r (set_r_recv (Some (set_ts_guard (set_rg_stream y (ts_guard s)) s)) (t_r t)) t).

(** The place is kept while a direction is open. *)
Definition place_ok t : Prop :=
  if t_task t then t_active t = Some (MkActive true true) /\ t_events t = [] /\ (w_send (t_w t) ≠ None \/ r_recv (t_r t) ≠ None)
  else t_active t = None /\ t_events t = [PermitBack; ExchangeOver] /\ w_send (t_w t) = None /\ r_recv (t_r t) = None.
Definition t_inv acc got fin lost t : Prop := w_inv acc (t_w t) /\ r_inv got fin lost (t_r t) /\ receiver_open (r_chan (t_r t)) = t_io t /\ place_ok t.

Lemma r_inv_recv got fin lost (r : TRead Y Dg Hm) b : r_inv got fin lost r -> r_recv r ≠ None -> receiver_open (r_chan r) = b -> fin = None /\ recv_ok got b r.
Proof. intros (Hc & Hcl & Hr) Hn Ho. destruct (r_recv r) as [s|] eqn:Es; [|done]. destruct Hr as [-> Hr]. split; [done|]. exists s. split_and!; try done. by apply Hcl. Qed.
Lemma recv_r_inv got lost (r : TRead Y Dg Hm) b : recv_ok got b r -> r_inv got None lost r /\ r_recv r ≠ None /\ receiver_open (r_chan r) = b.
Proof. intros (s & Es & Hc & Hcl & Hr & Ho). split_and!; [|by rewrite Es|done]. split; [done|]. split; [by rewrite Hcl|]. by rewrite Es. Qed.

Lemma send_drop_none (w : TWrite X Dg Q) : w_send (tun_send_drop w) = None.
Proof. unfold tun_send_drop. destruct (w_send w) as [[g f]|] eqn:E; [|done]. by destruct (tc_drop_receiver _). Qed.
Lemma recv_drop_none (r : TRead Y Dg Hm) : r_recv (tun_recv_drop r) = None.
Proof. unfold tun_recv_drop. by destruct (r_recv r) as [s|] eqn:E. Qed.

(** A poll that ends in [e] and [body] leaves a tunnel that [task_end] settles. *)
Definition transfer_post acc got fin lost (o : outcome Empty_set (option Error * bool)) t : Prop :=
  match o with
  | Ready (e, body) => forall aborted, t_inv acc got fin lost (task_end aborted e body t)
  | Pending => t_inv acc got fin lost t
  | _ => False
  end.

Lemma transfer_fail_ok acc got fin lost e t : w_inv acc (t_w t) \/ w_cut acc (t_w t) -> r_inv got fin lost (t_r t) \/ (fin = None /\ recv_cut got (t_io t) e (t_r t)) -> receiver_open (r_chan (t_r t)) = t_io t ->
  t_active t = Some (MkActive true true) -> t_events t = [] -> wp (transfer_fail e) (transfer_post acc got fin lost) t.
Proof.
  intros Hw Hr Ho Ha He. unfold wp, transfer_fail. destruct (take_body (t_r t)) as [r body] eqn:Et. intros aborted. unfold task_end. cbn [t_r t_w t_io t_active t_events set_t_r]. rewrite Ha, He.
  assert (r_recv (t_r t) = None /\ r = t_r t /\ body = false \/ r_recv (t_r t) ≠ None) as [(En & -> & ->)|Hn].
  { unfold take_body in Et. destruct (r_recv (t_r t)); [by right|left]. by injection Et as <- <-. }
  - assert (tun_recv_drop (t_r t) = t_r t) as Ed by (unfold tun_recv_drop; by rewrite En). rewrite Ed. split_and!; cbn; try done; [by apply w_send_drop|destruct Hr as [?|(_ & s & Es & _)]; [done|congruence]|]. split_and!; [done|done|apply send_drop_none|done].
  - assert (fin = None /\ recv_cut got (t_io t) e (t_r t)) as [-> Hk] by (destruct Hr as [Hr|?]; [|done]; destruct (r_inv_recv _ _ _ _ _ Hr Hn Ho) as [-> Hk]; split; [done|by apply recv_ok_cut]). destruct (fail_inv got (t_io t) lost aborted e _ Hk) as (Hb & Hi & Hop). rewrite Et in Hb, Hi, Hop. cbn [fst snd] in *. subst body.
    split_and!; cbn [t_w t_r t_io]; [by apply w_send_drop|exact Hi|exact Hop|]. split_and!; [done|done|apply send_drop_none|apply recv_drop_none].
Qed.

(** The end of a poll: it waits unless both directions are done. *)
Lemma transfer_over acc got fin lost t : w_inv acc (t_w t) -> r_inv got fin lost (t_r t) -> receiver_open (r_chan (t_r t)) = t_io t -> t_task t = true -> t_active t = Some (MkActive true true) -> t_events t = [] ->
  let '(t', o) := if some_b (w_send (t_w t)) || some_b (r_recv (t_r t)) then (t, Pending) else (t, Ready (None, false)) in transfer_post acc got fin lost o t'.
Proof.
  intros Hw Hr Ho Ht Ha He. destruct (some_b (w_send (t_w t)) || _) eqn:Eb; cbn.
  - split_and!; try done. unfold place_ok. rewrite Ht. split_and!; try done. apply orb_true_iff in Eb as [Eb|Eb]; [left|right]; intros E; by rewrite E in Eb.
  - apply orb_false_iff in Eb as [E1 E2]. assert (w_send (t_w t) = None) as Ew by (by destruct (w_send (t_w t))). assert (r_recv (t_r t) = None) as Er by (by destruct (r_recv (t_r t))).
    intros aborted. unfold task_end, tun_recv_drop, tun_send_drop. rewrite Ew, Er. cbn. rewrite Ha, He. by split_and!.
Qed.

Lemma transfer_recv_ok acc got fin lost t : w_inv acc (t_w t) -> r_inv got fin lost (t_r t) -> receiver_open (r_chan (t_r t)) = t_io t -> t_task t = true -> t_active t = Some (MkActive true true) -> t_events t = [] ->
  wp transfer_recv (transfer_post acc got fin lost) t.
Proof.
  intros Hw Hr Ho Ht Ha He. unfold wp, transfer_recv. destruct (r_recv (t_r t)) as [s|] eqn:Es; [|rewrite <-Es; by apply transfer_over].
  destruct (r_inv_recv _ _ _ _ _ Hr ltac:(by rewrite Es) Ho) as [-> Hk]. pose proof (recv_poll_ok _ _ _ Hk) as Hp. unfold wp in Hp. destruct (tun_recv_poll (t_r t)) as [r o]. destruct o as [[]|e| | |]; try done.
  - destruct (done_inv _ _ lost _ Hp) as [Hi Hop]. by apply (transfer_over acc got None lost (set_t_r (tun_recv_drop r) t)).
  - apply (transfer_fail_ok acc got None lost e (set_t_r r t)); auto. by destruct Hp as (s' & _ & _ & _ & _ & ?).
  - destruct (recv_r_inv _ lost _ _ Hp) as (Hi & _ & Hop). by apply (transfer_over acc got None lost (set_t_r r t)).
Qed.

Lemma tunnel_task_ok acc got fin lost t invalid aborted : t_inv acc got fin lost t -> wp (tunnel_task_poll invalid aborted) (fun o t' => sound o /\ t_inv acc got fin lost t') t.
Proof.
  intros (Hw & Hr & Ho & Hp). unfold wp, tunnel_task_poll. destruct (t_task t) eqn:Ht; cbn [negb]; [|by split_and!]. unfold place_ok in Hp. rewrite Ht in Hp. destruct Hp as (Ha & He & Hd).
  assert (wp (transfer_poll invalid) (transfer_post acc got fin lost) t) as Htp.
  { unfold wp, transfer_poll. destruct invalid; [by apply transfer_fail_ok; auto|]. destruct (w_send (t_w t)) as [[g f]|] eqn:Es; [|by apply transfer_recv_ok].
    pose proof (w_send_poll acc _ Hw ltac:(by rewrite Es)) as Hs. unfold wp in Hs. destruct (tun_send_poll (t_w t)) as [w o]. destruct Hs as (Hn & Hso & Hor). destruct o as [[]|e| | |]; try done.
    - apply (transfer_recv_ok acc got fin lost (set_t_w (tun_send_drop w) t)); try done. apply w_send_drop. by destruct Hor; left.
    - apply (transfer_fail_ok acc got fin lost e (set_t_w w t)); try done. by left.
    - destruct Hor as [Hw'|?]; [|done]. by apply (transfer_recv_ok acc got fin lost (set_t_w w t)). }
  unfold wp in Htp. destruct (transfer_poll invalid t) as [t' o]. destruct o as [[e body]|[]| | |]; done.
Qed.

(** What the application does leaves the task's halves alone. *)
Lemma poll_ack_kept : keeps (fun w : TWrite X Dg Q => w_send w) poll_ack.
Proof. unfold poll_ack. keep. Qed.
Lemma barrier_kept b : keeps (fun w : TWrite X Dg Q => w_send w) (poll_barrier b).
Proof.
  assert (keeps (fun w : TWrite X Dg Q => w_send w) (barrier b)) as Hb.
  { unfold barrier, on_chan, map_err. apply keeps_bind; [keep|intros w]. destruct (w_shutdown w); [keep|]. apply keeps_bind; [keep|intros _]. apply keeps_bind; [keep|intros w'].
    apply keeps_bind; [keep|intros _]. apply keeps_bind; [keep|intros _]. apply keeps_bind; [keep|intros _]. apply poll_ack_kept. }
  unfold poll_barrier. apply keeps_bind; [keep|intros w]. destruct (w_pending w) as [[pb i]|]; [|exact Hb]. apply keeps_bind; [apply poll_ack_kept|intros _]. destruct (_ || _); [keep|exact Hb].
Qed.
Lemma write_kept buf : keeps (fun w : TWrite X Dg Q => w_send w) (tun_poll_write buf).
Proof. unfold tun_poll_write, on_chan, map_err. apply keeps_bind; [apply poll_ack_kept|intros _]. keep. Qed.
Lemma read_kept n : keeps (fun r : TRead Y Dg Hm => r_recv r) (tun_poll_read n).
Proof. unfold tun_poll_read. destruct (n =? 0); [keep|]. generalize 4%nat as k. induction k as [|k IH]; cbn [tun_read_loop]; [done|]. unfold on_body. keep; exact IH. Qed.

Lemma t_inv_w acc acc' got fin lost t w : t_inv acc got fin lost t -> w_inv acc' w -> w_send w = w_send (t_w t) -> t_inv acc' got fin lost (set_t_w w t).
Proof. intros (_ & Hr & Ho & Hp) Hw Es. split_and!; try done. unfold place_ok in *. cbn. by rewrite Es. Qed.
Lemma t_inv_r acc got fin lost got' fin' t r : t_inv acc got fin lost t -> r_inv got' fin' lost r -> (r_recv r = None <-> r_recv (t_r t) = None) -> receiver_open (r_chan r) = t_io t -> t_inv acc got' fin' lost (set_t_r r t).
Proof. intros (Hw & _ & _ & Hp) Hr Es Ho. split_and!; try done. unfold place_ok in *. cbn. destruct (t_task t); rewrite Es; done. Qed.

Lemma h3_tunnel_inv acc got fin lost t : h3_tunnel acc got fin lost t -> t_inv acc got fin lost t.
Proof.
  induction 1 as [send recv e session E1 E2 (R1 & R2 & R3)|acc got fin lost t buf w o _ IH _ E|acc got fin lost t w o _ IH _ E|acc got fin lost t w o _ IH _ E|acc got fin lost t n r o _ IH Hio Hn E
    |acc got fin lost t _ IH _|acc got fin lost t t' o invalid aborted _ IH E|acc got fin lost t _ IH Ht|acc got fin lost t e _ IH Hne|acc got fin lost t g f x _ IH Eg Ex|acc got fin lost t s y _ IH Es E1 E2].
  - split_and!; [by apply w_inv_new|by apply r_inv_new|done|]. unfold place_ok. cbn. split_and!; try done. by left.
  - pose proof (write_kept buf (t_w t)) as Hk. rewrite E in Hk. pose proof (wp_elim _ _ _ _ _ (w_poll_write acc _ buf (proj1 IH)) E) as [_ Hp]. eapply t_inv_w; [done| |exact Hk].
    destruct o as [n|e| | |]; cbn [accepted]; rewrite ?app_nil_r; try done. by destruct Hp as (_ & ? & _).
  - pose proof (barrier_kept false (t_w t)) as Hk. unfold tun_poll_flush in E. rewrite E in Hk. eapply t_inv_w; [done|exact (proj1 (wp_elim _ _ _ _ _ (w_poll_barrier acc _ false (proj1 IH)) E))|exact Hk].
  - pose proof (barrier_kept true (t_w t)) as Hk. unfold tun_poll_shutdown in E. rewrite E in Hk. eapply t_inv_w; [done|exact (proj1 (wp_elim _ _ _ _ _ (w_poll_barrier acc _ true (proj1 IH)) E))|exact Hk].
  - pose proof (read_kept n (t_r t)) as Hk. rewrite E in Hk. cbn in Hk. pose proof IH as (_ & Hr & Ho & _).
    destruct (wp_elim _ _ _ _ _ (tun_poll_read_inv got fin lost _ n ltac:(lia) Hr ltac:(congruence)) E) as (_ & Ho' & _ & Hp). destruct (Hp Hn) as (_ & Hi & _). eapply t_inv_r; [done|done|by rewrite Hk|congruence].
  - destruct IH as (Hw & Hr & Ho & Hp). split_and!; [by apply w_writer_drop|by apply unread_inv|by apply (chan_unread _ (proj1 Hr))|exact Hp].
  - exact (proj2 (wp_elim _ _ _ _ _ (tunnel_task_ok acc got fin lost t invalid aborted IH) E)).
  - destruct IH as (Hw & Hr & Ho & Hp). unfold tunnel_task_drop. rewrite Ht. destruct (lost_inv _ _ _ _ Hr) as [Hi Hop]. unfold place_ok in Hp. rewrite Ht in Hp. destruct Hp as (Ha & He & _).
    unfold task_end. rewrite Ha, He. split_and!; cbn; [apply w_send_drop; by left|done|congruence|]. split_and!; [done|done|apply send_drop_none|apply recv_drop_none].
  - eapply t_inv_r; [done|apply (error_inv _ _ _ _ _ Hne), IH|done|exact (proj1 (proj2 (proj2 IH)))].
  - destruct IH as (Hw & Hr & Ho & Hp). split_and!; [by apply w_moved|done|done|]. unfold place_ok in *. cbn. destruct (t_task t); [destruct Hp as (? & ? & _); split_and!; [done|done|by left]|destruct Hp as (_ & _ & ? & _); congruence].
  - pose proof IH as (_ & Hr & Ho & _). destruct (r_inv_recv _ _ _ _ _ Hr ltac:(by rewrite Es) Ho) as [-> Hk]. destruct (recv_r_inv _ lost _ _ (source_kept _ _ _ _ y Es Hk E1 E2)) as (Hi & _ & Hop).
    eapply t_inv_r; [done|exact Hi|by rewrite Es|exact Hop].
Qed.

(** C7. A CONNECT tunnel over HTTP/3 carries its writes: the stream is given the accepted
    bytes in order and nothing else, is ended only after all of them, and is otherwise
    reset once when the task gives it up. A flush that succeeds has waited until every
    accepted write was given to the stream, a shutdown that succeeds until its end was
    too, however the task, the peer and the connection behave in between; no call of the
    writer panics. *)
Theorem h3_tunnel_writes acc got fin lost t : h3_tunnel acc got fin lost t ->
  (exists g ds, (fst <$> w_send (t_w t) = Some g \/ (w_send (t_w t) = None /\ w_gone (t_w t) = Some g)) /\ ds `prefix_of` acc /\
    ((hs_sent (sg_stream g) = data_sent ds /\ w_send (t_w t) ≠ None) \/ (hs_sent (sg_stream g) = data_sent ds ++ [HFin] /\ ds = acc) \/
     (exists c, hs_sent (sg_stream g) = data_sent ds ++ [HStop c] /\ w_send (t_w t) = None))) /\
  wp tun_poll_flush (fun o w => sound o /\ (o = Ready tt -> all_sent acc w)) (t_w t) /\
  wp tun_poll_shutdown (fun o w => sound o /\ (o = Ready tt -> end_sent acc w)) (t_w t) /\
  forall buf, wp (tun_poll_write buf) (fun o _ => sound o /\ match o with Ready n => 0 <= n <= len buf /\ (n = 0 -> buf = []) | _ => True end) (t_w t).
Proof.
  intros Ht. apply h3_tunnel_inv in Ht as (Hw & _). split_and!.
  - destruct Hw as [_ Hw]. destruct (w_send (t_w t)) as [[g f]|].
    + destruct Hw as (_ & ds & ws & -> & Ed & Hb). exists g, ds. split; [by left|]. split; [by eexists|]. destruct (sg_finished g) eqn:Ef; [right; left|left; by rewrite app_nil_r in Ed].
      split; [done|]. by rewrite (barrier_finished _ _ _ _ Hb Ef), app_nil_r.
    + destruct Hw as (_ & g & Eg & (ds & Hpre & Ho) & _). exists g, ds. split; [by right|]. split; [done|]. right. destruct Ho as [(_ & -> & ?)|(_ & c & ?)]; [by left|right; by exists c].
  - eapply wp_mono; [by apply (w_poll_barrier acc _ false)|]. intros o w (_ & Hs & Hr). split; [done|]. intros E. by apply Hr.
  - eapply wp_mono; [by apply (w_poll_barrier acc _ true)|]. intros o w (_ & Hs & Hr). split; [done|]. intros E. by apply Hr.
  - intros buf. eapply wp_mono; [by apply (w_poll_write acc)|]. intros o w [Hs Hp]. split; [done|]. destruct o; try done. by destruct Hp as (? & _ & ?).
Qed.

(** C8. A CONNECT tunnel over HTTP/3 is read faithfully: the bytes read are the stream's data
    in order, with nothing missing in between. Unless the executor discarded the task,
    reading ends without an error only when the stream has said its data, the end of it
    and the FIN without trailers, no fault, and all of it was read; and a transfer that
    failed leaves its error behind the data for a reader that is still there, which for a
    fault of the stream is that fault (or that of the connection, or of an aborted Datagram
    session). While the task receives, the stream is not stopped; a stream given up before
    its end is stopped exactly once. A read never panics, and waits only while the task
    receives. *)
Theorem h3_tunnel_reads acc got fin lost t : h3_tunnel acc got fin lost t ->
  match r_recv (t_r t) with
  | Some s => got `prefix_of` source (ts_guard s) /\ fin = None /\ hr_stops (rg_stream (ts_guard s)) = [] /\ exists ds, hr_log (rg_stream (ts_guard s)) = told ds (ts_done s)
  | None => exists g, r_gone (t_r t) = Some g /\ got `prefix_of` source g /\
      (if rg_finished g then hr_stops (rg_stream g) = [] else exists c, hr_stops (rg_stream g) = [c]) /\
      (lost = false ->
       match fin with
       | Some None => exists ds, hr_log (rg_stream g) = told ds true ++ [SaidEnd None] /\ got = concat ds
       | Some (Some e) => names g (r_error (t_r t)) e
       | None => (exists ds, hr_log (rg_stream g) = told ds true ++ [SaidEnd None] /\ got ++ passing (t_r t) = concat ds) \/ t_io t = false \/
           exists l e, in_flight (r_chan (t_r t)) = l ++ [Err e] /\ names g (r_error (t_r t)) e
       end)
  end /\
  (t_io t = true -> forall n, 0 < n -> wp (tun_poll_read n) (fun o _ => sound o /\ (o = Pending -> r_recv (t_r t) ≠ None)) (t_r t)).
Proof.
  intros Ht. apply h3_tunnel_inv in Ht as (_ & Hr & Ho & _). split.
  - pose proof Hr as (_ & Hcl & Hi). destruct (r_recv (t_r t)) as [s|].
    + destruct Hi as (-> & (_ & _ & _ & _ & Hs & <-) & Hds). split_and!; [by eexists|done|done|done].
    + destruct Hi as (_ & g & Eg & [(Hf & (ds & Hlog & Hs) & _ & Hsrc & He)|(Hf & Hs & Hp & He)]); exists g; (split; [done|]); rewrite Hf.
      * assert (got ++ passing (t_r t) = concat ds) as Hds by (rewrite Hsrc; unfold source, hr_data; rewrite Hlog, said_data_app, told_data; cbn; by rewrite app_nil_r).
        rewrite <-Hsrc. split_and!; [by eexists|done|]. intros _. destruct He as [->|(-> & E1 & E2)]; [left; by exists ds|]. exists ds. split; [done|]. rewrite <-Hds. unfold passing. rewrite E1, E2. cbn. by rewrite app_nil_r.
      * split_and!; [etrans; [by eexists|exact Hp]|done|]. intros ->. destruct fin as [[e|]|]; [by destruct He|done|]. right. destruct He as [?|[He|(l & e & ? & _ & ?)]]; [done|left; congruence|right; by exists l, e].
  - intros Hio n Hn. apply wp_intro. intros r o E. pose proof (read_kept n (t_r t)) as Hk. rewrite E in Hk. cbn in Hk.
    destruct (wp_elim _ _ _ _ _ (tun_poll_read_inv got fin lost _ n ltac:(lia) Hr ltac:(congruence)) E) as (Hs & _ & _ & Hp). split; [done|]. intros ->. destruct (Hp Hn) as (_ & (_ & _ & Hi) & _ & Hpend).
    specialize (Hpend eq_refl). rewrite <-Hk. destruct (r_recv r); [done|]. destruct Hi as [Hi _]. congruence.
Qed.

(** C9. The task of a CONNECT tunnel over HTTP/3 keeps the exchange's place in admission
    exactly while one of its directions is open and gives it back once, when both are done,
    when one fails, or when the executor discards it; then nothing of the stream is left.
    No poll of it panics. *)
Theorem h3_tunnel_settles acc got fin lost t : h3_tunnel acc got fin lost t -> place_ok t /\ forall invalid aborted, wp (tunnel_task_poll invalid aborted) (fun o t' => sound o /\
  (o = Ready tt -> t_task t' = false /\ w_send (t_w t') = None /\ r_recv (t_r t') = None /\ t_events t' = [PermitBack; ExchangeOver])) t.
Proof.
  intros Ht. apply h3_tunnel_inv in Ht. split; [apply Ht|]. intros invalid aborted. apply wp_intro. intros t' o E. destruct (wp_elim _ _ _ _ _ (tunnel_task_ok acc got fin lost t invalid aborted Ht) E) as [Hs Hi]. split; [done|].
  intros ->. assert (t_task t' = false) as Hf.
  { unfold tunnel_task_poll in E. destruct (t_task t) eqn:Et; cbn [negb] in E; [|by injection E as <-]. destruct (transfer_poll invalid t) as [t1 [[e body]|[]| | |]]; try done. by injection E as <-. }
  split; [done|]. destruct Hi as (_ & _ & _ & Hp). unfold place_ok in Hp. rewrite Hf in Hp. by destruct Hp as (_ & ? & ? & ?).
Qed.
End runs.

(** ** A concrete tunnel *)

Module ConcreteTunnel3.
Import Concrete ConcreteExchange ConcreteBody.

(** A channel with one place. *)
Record slot3 : Type := Slot3 { sl_items : list Write; sl_open : bool; sl_held : bool; sl_sender : bool }.
#[export] Instance slot3_chan : TokioChan slot3 Write := {
  tc_new := Slot3 [] true false true;
  tc_poll_reserve q := if sl_held q then (q, Ready tt) else if negb (sl_open q) then (q, Failed tt)
    else if bool_decide (sl_items q = []) then (Slot3 (sl_items q) true true (sl_sender q), Ready tt) else (q, Pending);
  tc_send_item a q := if sl_held q then (Slot3 (sl_items q ++ [a]) (sl_open q) false (sl_sender q), Ready tt) else (q, Panicked);
  tc_poll_recv q := match sl_items q with a :: l => (Slot3 l (sl_open q) (sl_held q) (sl_sender q), Some (Some a)) | [] => (q, if sl_sender q then None else Some None) end;
  tc_drop_sender q := Slot3 (sl_items q) (sl_open q) false false;
  tc_drop_receiver q := (Slot3 [] false (sl_held q) (sl_sender q), sl_items q);
}.
#[export] Instance slot3_laws : TokioChanLaws slot3 Write.
Proof.
  refine {| tc_queue := sl_items; tc_open := sl_open; tc_held := sl_held |}.
  - done.
  - intros [l op h s] q' o. cbn. destruct h; [by intros [= <- <-]|]. destruct op; cbn; [|by intros [= <- <-]]. case_bool_decide; by intros [= <- <-].
  - intros a [l op h s] q' o. cbn. intros -> -> [= <- <-]. done.
  - intros [[|a l] op h s] q' r; cbn; intros [= <- <-]; [by destruct s|done].
  - done.
  - intros [l op h s] q' l'. cbn. by intros [= <- <-].
Defined.

Abbreviation Tun3 := (Tunnel source3 wire3 unit hmap slot3).
Definition tunnel_0 : Tun3 := tunnel_new (MkSendGuard None (Wire3 []) false H3_REQUEST_CANCELLED) (MkRecvGuard None (Source3 [Some [97; 98]] [] []) false H3_REQUEST_CANCELLED) (MkActive true true) None false.
Definition write_3 (buf : bytes) (t : Tun3) : Tun3 := set_t_w (tun_poll_write buf (t_w t)).1 t.
Definition shutdown_3 (t : Tun3) : Tun3 := set_t_w (tun_poll_shutdown (t_w t)).1 t.
Definition read_3 (n : Z) (t : Tun3) : Tun3 := set_t_r (tun_poll_read n (t_r t)).1 t.
Definition task_3 (t : Tun3) : Tun3 := (tunnel_task_poll false false t).1.

(** The application writes two bytes, reads two and shuts its side down; the task is polled
    in between. *)
Definition tunnel_2 : Tun3 := Eval vm_compute in task_3 (write_3 [1; 2] tunnel_0).
Definition tunnel_5 : Tun3 := Eval vm_compute in task_3 (shutdown_3 (read_3 2 tunnel_2)).
Definition tunnel_6 : Tun3 := Eval vm_compute in read_3 8 tunnel_5.

Lemma tunnel_2_run : h3_tunnel [[1; 2]] [] None false tunnel_2.
Proof.
  assert (h3_tunnel [] [] None false tunnel_0) as T0 by (by apply ht_new).
  assert (h3_tunnel [[1; 2]] [] None false (write_3 [1; 2] tunnel_0)) as T1 by (refine (ht_write _ _ _ _ _ [1; 2] _ (Ready 2) T0 _ _); by vm_compute).
  refine (ht_task _ _ _ _ _ _ Pending false false T1 _). by vm_compute.
Qed.
Lemma tunnel_5_run : h3_tunnel [[1; 2]] [97; 98] None false tunnel_5.
Proof.
  assert (h3_tunnel [[1; 2]] [97; 98] None false (read_3 2 tunnel_2)) as T3 by (refine (ht_read _ _ _ _ _ 2 (tun_poll_read 2 (t_r tunnel_2)).1 (Ready [97; 98]) tunnel_2_run _ _ _); by vm_compute).
  assert (h3_tunnel [[1; 2]] [97; 98] None false (shutdown_3 (read_3 2 tunnel_2))) as T4 by (refine (ht_shutdown _ _ _ _ _ _ Pending T3 _ _); by vm_compute).
  refine (ht_task _ _ _ _ _ _ (Ready tt) false false T4 _). by vm_compute.
Qed.
Lemma tunnel_6_run : h3_tunnel [[1; 2]] [97; 98] (Some None) false tunnel_6.
Proof. refine (ht_read _ _ _ _ _ 8 tunnel_6.(t_r) (Ready []) tunnel_5_run _ _ _); by vm_compute. Qed.

Lemma h3_tunnel_writes_witness : exists w, tun_poll_shutdown (t_w tunnel_5) = (w, Ready tt) /\ end_sent [[1; 2]] w.
Proof.
  destruct (h3_tunnel_writes [[1; 2]] [97; 98] None false tunnel_5 tunnel_5_run) as (_ & _ & Hs & _). eexists. split; [reflexivity|]. exact (proj2 (wp_elim _ _ _ _ _ Hs eq_refl) eq_refl).
Defined.

Lemma h3_tunnel_reads_witness : exists g, r_gone (t_r tunnel_6) = Some g /\ exists ds, hr_log (rg_stream g) = told ds true ++ [SaidEnd None] /\ [97; 98] = concat ds.
Proof.
  destruct (h3_tunnel_reads [[1; 2]] [97; 98] (Some None) false tunnel_6 tunnel_6_run) as [(g & Eg & _ & _ & He) _]. exists g. split; [exact Eg|]. exact (He eq_refl).
Defined.

Lemma h3_tunnel_settles_witness : t_task tunnel_5 = false /\ t_events tunnel_5 = [PermitBack; ExchangeOver] /\ place_ok tunnel_5.
Proof. split; [reflexivity|]. split; [reflexivity|]. exact (proj1 (h3_tunnel_settles [[1; 2]] [97; 98] None false tunnel_5 tunnel_5_run)). Defined.
End ConcreteTunnel3.
