(* ===== verification/SocksTcp.v ===== *)
(** * SocksTcp

    [proxy/socks.rs]: connections through a SOCKS proxy. What a connector checks
    before it connects, the resolution of the destination, and the future that
    joins both and hands the connection to the handshake.

    The inner connector and the resolver are services of the caller, the
    handshakes are those of the tokio-socks crate: both are parameters. A
    handshake is a program that reads and writes the socket it is given and
    never flushes it; the socket flushes before every read. The iterator a
    resolver answers with is the list of what it yields. Which of its two
    futures [try_join] polls first is left open. *)

From stdpp Require Import prelude strings.
From Stdlib Require Import ZArith Lia.
From S2P Require Import Prelude Bytes Wire Net Async Proxy.
Local Open Scope Z_scope.

Definition MAX_HOST_LEN : Z := 255.
Definition MAX_USER_ID_LEN : Z := 255.
Definition MAX_CREDENTIAL_LEN : Z := 255.
Definition SOCKS4A_MAX_ID_AND_HOST : Z := 503.

(** [Version], [DnsResolve]. *)
Inductive Version : Type := SV4 | SV5.
Inductive DnsResolve : Type := DnsLocal | DnsRemote.

#[export] Instance Version_eq_dec : EqDecision Version.
Proof. solve_decision. Defined.
#[export] Instance DnsResolve_eq_dec : EqDecision DnsResolve.
Proof. solve_decision. Defined.

(** [SocksError]; a boxed error is its text, and where text stops being UTF-8
    is left out. *)
Inductive SocksError : Type :=
| SkConnectFailed (e : string)
| SkDnsResolveFailure (e : string)
| SkDnsFailure
| SkHandshake (e : string)
| SkAddressNotSupported
| SkHostTooLong
| SkInvalidUserId
| SkInvalidCredentials
| SkUtf8
| SkMissingHost
| SkInvalidPort.

(** [SocksConnector]. *)
Record SocksConnector (U C R : Type) : Type := MkSocksConnector {
  sc_inner : C;
  sc_resolver : R;
  sc_proxy_dst : U;
  sc_auth : option (bytes * bytes);
  sc_version : Version;
  sc_dns : DnsResolve;
}.
Arguments MkSocksConnector {U C R} _ _ _ _ _ _.
Arguments sc_inner {U C R} _.
Arguments sc_resolver {U C R} _.
Arguments sc_proxy_dst {U C R} _.
Arguments sc_auth {U C R} _.
Arguments sc_version {U C R} _.
Arguments sc_dns {U C R} _.

(** [SocksConnector::new], [set_auth], [set_version], [set_dns_mode]. *)
Definition socks_new {U C R} (proxy_dst : U) (inner : C) (resolver : R) : SocksConnector U C R :=
  MkSocksConnector inner resolver proxy_dst None SV5 DnsLocal.
Definition set_auth {U C R} (auth : option (bytes * bytes)) (c : SocksConnector U C R) : SocksConnector U C R :=
  MkSocksConnector (sc_inner c) (sc_resolver c) (sc_proxy_dst c) auth (sc_version c) (sc_dns c).
Definition set_version {U C R} (version : Version) (c : SocksConnector U C R) : SocksConnector U C R :=
  MkSocksConnector (sc_inner c) (sc_resolver c) (sc_proxy_dst c) (sc_auth c) version (sc_dns c).
Definition set_dns_mode {U C R} (dns : DnsResolve) (c : SocksConnector U C R) : SocksConnector U C R :=
  MkSocksConnector (sc_inner c) (sc_resolver c) (sc_proxy_dst c) (sc_auth c) (sc_version c) dns.

(** [unbracket]. *)
Definition unbracket (host : bytes) : bytes :=
  match (h ← strip_prefix (bs "[") host; strip_suffix (bs "]") h) with Some h => h | None => host end.

(** ** The checks *)

Section check.
Context {U : Type} `{UriOps U}.

(** The address of a destination that is an IP literal. *)
Definition check_addr (version : Version) (remote : bool) (host : bytes) (port : Z) : result SocksError (option SocketAddr) :=
  match parse_ip host with
  | Some ip => if bool_decide (version = SV4) && is_ipv6 ip then Err SkAddressNotSupported else Ok (Some (sa_new ip port))
  | None => if remote && (MAX_HOST_LEN <? len host) then Err SkHostTooLong else Ok None
  end.

(** [str::from_utf8(value).map_err(SocksError::Utf8)]. *)
Definition check_utf8 (value : bytes) : result SocksError bytes := if from_utf8 value then Ok value else Err SkUtf8.

(** One round of the loop over username and password. *)
Definition check_credential (value : bytes) : result SocksError unit :=
  if negb ((1 <=? len value) && (len value <=? MAX_CREDENTIAL_LEN)) then Err SkInvalidCredentials
  else _ ← check_utf8 value; Ok tt.

(** The credentials. *)
Definition check_socks_auth (version : Version) (auth : option (bytes * bytes)) (remote : bool) (addr : option SocketAddr) (host : bytes) : result SocksError unit :=
  match version, auth with
  | _, None => Ok tt
  | SV4, Some (user_id, _) =>
      if (MAX_USER_ID_LEN <? len user_id) || bool_decide (0 ∈ user_id) then Err SkInvalidUserId
      else
        _ ← check_utf8 user_id;
        if remote && bool_decide (addr = None) && (SOCKS4A_MAX_ID_AND_HOST <? len user_id + len host) then Err SkHostTooLong else Ok tt
  | SV5, Some (username, password) => _ ← check_credential username; check_credential password
  end.

(** [check]. *)
Definition check {C R} (c : SocksConnector U C R) (dst : U) : result SocksError (Z * option SocketAddr) :=
  match unbracket <$> dst_host dst with
  | None => Err SkMissingHost
  | Some host =>
      match dst_port dst with
      | None => Err SkInvalidPort
      | Some port =>
          let remote := bool_decide (sc_dns c = DnsRemote) in
          addr ← check_addr (sc_version c) remote host port;
          _ ← check_socks_auth (sc_version c) (sc_auth c) remote addr host;
          Ok (port, addr)
      end
  end.
End check.

(** ** Services and the handshake *)

(** [tower_service::Service], with the future it answers with. *)
Class Service (Svc Req Fut Resp : Type) : Type := {
  svc_poll_ready : M Svc string unit;
  svc_call : Req -> Svc -> Svc * Fut;
  svc_poll : M Fut string Resp;
}.

(** [tokio_socks::TargetAddr]. *)
Inductive TargetAddr : Type := TIp (a : SocketAddr) | TDomain (host : bytes) (port : Z).

(** The entry points of tokio-socks: [connect_with_userid_and_socket] and
    [connect_with_socket] of [Socks4Stream], [connect_with_password_and_socket]
    and [connect_with_socket] of [Socks5Stream]. *)
Inductive Handshake : Type :=
| Socks4UserId (target : TargetAddr) (user_id : bytes)
| Socks4 (target : TargetAddr)
| Socks5Password (target : TargetAddr) (username password : bytes)
| Socks5 (target : TargetAddr).

(** What is left of a handshake. *)
Inductive exchange : Type :=
| XDone (r : result string unit)
| XRead (cap : Z) (k : result io_error bytes -> exchange)
| XWrite (b : bytes) (k : result io_error Z -> exchange).

Class TokioSocks : Type := socks_start : Handshake -> exchange.

(** [Socket]: [poll_read] and [poll_write]. *)
Definition socket_read {T} `{AsyncIo T} (cap : Z) : M T io_error bytes := _ ← aio_flush; aio_read cap.
Definition socket_write {T} `{AsyncIo T} (b : bytes) : M T io_error Z := aio_write b.

(** A handshake over the socket, polled once. *)
Fixpoint exchange_poll {T} `{AsyncIo T} (x : exchange) (t : T) : T * exchange * outcome string unit :=
  match x with
  | XDone (Ok u) => (t, x, Ready u)
  | XDone (Err e) => (t, x, Failed e)
  | XRead cap k =>
      match socket_read cap t with
      | (t, Ready b) => exchange_poll (k (Ok b)) t
      | (t, Failed e) => exchange_poll (k (Err e)) t
      | (t, Pending) => (t, x, Pending)
      | (t, Panicked) => (t, x, Panicked)
      | (t, NoFuel) => (t, x, NoFuel)
      end
  | XWrite b k =>
      match socket_write b t with
      | (t, Ready n) => exchange_poll (k (Ok n)) t
      | (t, Failed e) => exchange_poll (k (Err e)) t
      | (t, Pending) => (t, x, Pending)
      | (t, Panicked) => (t, x, Panicked)
      | (t, NoFuel) => (t, x, NoFuel)
      end
  end.

(** [handshake], which entry point it calls with what. *)
Definition handshake (target : TargetAddr) (version : Version) (auth : option (bytes * bytes)) : result SocksError Handshake :=
  match version, auth with
  | SV4, Some (user_id, _) =>
      if decide (user_id = []) then Ok (Socks4 target) else user_id ← check_utf8 user_id; Ok (Socks4UserId target user_id)
  | SV4, None => Ok (Socks4 target)
  | SV5, Some (username, password) => username ← check_utf8 username; password ← check_utf8 password; Ok (Socks5Password target username password)
  | SV5, None => Ok (Socks5 target)
  end.

(** ** The future *)

(** A future that [try_join] polls, until it is done. *)
Inductive MaybeDone (F A : Type) : Type := MFuture (f : F) | MDone (a : A).
Arguments MFuture {F A} f.
Arguments MDone {F A} a.

Definition maybe_poll {F E A} (p : M F E A) : M (MaybeDone F A) E unit := fun m =>
  match m with
  | MDone a => (m, Ready tt)
  | MFuture f =>
      match p f with
      | (_, Ready a) => (MDone a, Ready tt)
      | (f, Failed e) => (MFuture f, Failed e)
      | (f, Pending) => (MFuture f, Pending)
      | (f, Panicked) => (MFuture f, Panicked)
      | (f, NoFuel) => (MFuture f, NoFuel)
      end
  end.

(** Polls both; an error at once, and ready when both are. *)
Definition both {S E} (p q : M S E unit) : M S E unit := fun s =>
  match p s with
  | (s, Ready _) => q s
  | (s, Pending) => match q s with (s, Ready _) => (s, Pending) | r => r end
  | r => r
  end.

(** [try_join]. *)
Definition try_join {F G E A B} (first : bool) (p : M F E A) (q : M G E B) : M (MaybeDone F A * MaybeDone G B) E (A * B) := fun s =>
  let left := zoom fst (fun l s => (l, s.2)) (maybe_poll p) in
  let right := zoom snd (fun r s => (s.1, r)) (maybe_poll q) in
  match (if first then both left right else both right left) s with
  | (s, Ready _) => match s with (MDone a, MDone b) => (s, Ready (a, b)) | _ => (s, Panicked) end
  | (s, Failed e) => (s, Failed e)
  | (s, Pending) => (s, Pending)
  | (s, Panicked) => (s, Panicked)
  | (s, NoFuel) => (s, NoFuel)
  end.

(** [SocketAddr::is_ipv4], [SocketAddr::set_port]. *)
Definition sa_is_ipv4 (a : SocketAddr) : bool := match a with SaV4 _ _ => true | SaV6 _ _ _ _ => false end.
Definition set_port (port : Z) (a : SocketAddr) : SocketAddr :=
  match a with SaV4 ip _ => SaV4 ip port | SaV6 ip _ flowinfo scope_id => SaV6 ip port flowinfo scope_id end.

(** The address [resolve] takes. *)
Definition usable (version : Version) (addrs : list SocketAddr) : option SocketAddr :=
  match version with SV4 => List.find sa_is_ipv4 addrs | SV5 => head addrs end.

(** The [target] block: not polled yet, or at one of the awaits of [resolve]. *)
Inductive Target (R L : Type) : Type :=
| TNew (addr : option SocketAddr) (resolver : option R)
| TResolver (resolver : R)
| TLookup (lookup : L).
Arguments TNew {R L} addr resolver.
Arguments TResolver {R L} resolver.
Arguments TLookup {R L} lookup.

(** The future of [call]. *)
Inductive Stage (U R L F T : Type) : Type :=
| SRefused (e : SocksError)
| SNew (dst : U) (port : Z) (addr : option SocketAddr) (resolver : option R) (connecting : F)
| SJoin (host : bytes) (port : Z) (j : MaybeDone (Target R L) TargetAddr * MaybeDone F T)
| SHandshake (x : exchange) (io : T)
| SOver.
Arguments SRefused {U R L F T} e.
Arguments SNew {U R L F T} dst port addr resolver connecting.
Arguments SJoin {U R L F T} host port j.
Arguments SHandshake {U R L F T} x io.
Arguments SOver {U R L F T}.

Record Tunneling (U R L F T : Type) : Type := MkTunneling {
  sf_version : Version;
  sf_auth : option (bytes * bytes);
  sf_stage : Stage U R L F T;
}.
Arguments MkTunneling {U R L F T} _ _ _.
Arguments sf_version {U R L F T} _.
Arguments sf_auth {U R L F T} _.
Arguments sf_stage {U R L F T} _.

Section connect.
Context {U : Type} `{UriOps U} {C F T R L : Type}.
Context `{Conn : !Service C U F T} `{Res : !Service R bytes L (list SocketAddr)} `{Io : !AsyncIo T} `{Ts : !TokioSocks}.
Context (target_first : bool).

(** [resolve] from its second await on. *)
Definition lookup_poll (port : Z) (version : Version) (l : L) : Target R L * outcome SocksError TargetAddr :=
  match svc_poll l with
  | (l, Ready addrs) =>
      (TLookup l, match usable version addrs with Some addr => Ready (TIp (set_port port addr)) | None => Failed SkDnsFailure end)
  | (l, Failed e) => (TLookup l, Failed (SkDnsResolveFailure e))
  | (l, Pending) => (TLookup l, Pending)
  | (l, Panicked) => (TLookup l, Panicked)
  | (l, NoFuel) => (TLookup l, NoFuel)
  end.

(** [resolve]. *)
Definition resolve (host : bytes) (port : Z) (version : Version) (r : R) : Target R L * outcome SocksError TargetAddr :=
  match svc_poll_ready r with
  | (r, Ready _) => lookup_poll port version (svc_call host r).2
  | (r, Failed e) => (TResolver r, Failed (SkDnsResolveFailure e))
  | (r, Pending) => (TResolver r, Pending)
  | (r, Panicked) => (TResolver r, Panicked)
  | (r, NoFuel) => (TResolver r, NoFuel)
  end.

(** The [target] block. *)
Definition target_poll (host : bytes) (port : Z) (version : Version) : M (Target R L) SocksError TargetAddr := fun t =>
  match t with
  | TNew (Some addr) _ => (t, Ready (TIp addr))
  | TNew None (Some resolver) => resolve host port version resolver
  | TNew None None => (t, Ready (TDomain host port))
  | TResolver resolver => resolve host port version resolver
  | TLookup lookup => lookup_poll port version lookup
  end.

(** The [connect] block. *)
Definition connect_poll : M F SocksError T := map_err SkConnectFailed svc_poll.

(** The await of the handshake. *)
Definition handshake_poll (x : exchange) (io : T) : Stage U R L F T * outcome SocksError T :=
  match exchange_poll x io with
  | (io, _, Ready _) => (SOver, Ready io)
  | (_, _, Failed e) => (SOver, Failed (SkHandshake e))
  | (io, x, Pending) => (SHandshake x io, Pending)
  | (_, _, Panicked) => (SOver, Panicked)
  | (_, _, NoFuel) => (SOver, NoFuel)
  end.

(** The await of [try_join], and what follows it. *)
Definition join_poll (host : bytes) (port : Z) (version : Version) (auth : option (bytes * bytes)) (j : MaybeDone (Target R L) TargetAddr * MaybeDone F T) : Stage U R L F T * outcome SocksError T :=
  match try_join target_first (target_poll host port version) connect_poll j with
  | (_, Ready (target, io)) =>
      match handshake target version auth with
      | Ok h => handshake_poll (socks_start h) io
      | Err e => (SOver, Failed e)
      end
  | (_, Failed e) => (SOver, Failed e)
  | (j, Pending) => (SJoin host port j, Pending)
  | (_, Panicked) => (SOver, Panicked)
  | (_, NoFuel) => (SOver, NoFuel)
  end.

Definition stage_poll (version : Version) (auth : option (bytes * bytes)) (s : Stage U R L F T) : Stage U R L F T * outcome SocksError T :=
  match s with
  | SRefused e => (SOver, Failed e)
  | SNew dst port addr resolver connecting =>
      match unbracket <$> dst_host dst with
      | None => (SOver, Failed SkMissingHost)
      | Some host => join_poll host port version auth (MFuture (TNew addr resolver), MFuture connecting)
      end
  | SJoin host port j => join_poll host port version auth j
  | SHandshake x io => handshake_poll x io
  | SOver => (SOver, Panicked)
  end.

(** [poll] of the future. *)
Definition socks_poll : M (Tunneling U R L F T) SocksError T := fun f =>
  let '(s, o) := stage_poll (sf_version f) (sf_auth f) (sf_stage f) in (MkTunneling (sf_version f) (sf_auth f) s, o).

(** [Service::poll_ready]. *)
Definition socks_poll_ready : M (SocksConnector U C R) SocksError unit :=
  zoom sc_inner (fun i c => MkSocksConnector i (sc_resolver c) (sc_proxy_dst c) (sc_auth c) (sc_version c) (sc_dns c))
    (map_err SkConnectFailed svc_poll_ready).

(** [Service::call]. *)
Definition socks_call (dst : U) (c : SocksConnector U C R) : SocksConnector U C R * Tunneling U R L F T :=
  match check c dst with
  | Err e => (c, MkTunneling (sc_version c) (sc_auth c) (SRefused e))
  | Ok (port, addr) =>
      let resolver := if bool_decide (addr = None) && bool_decide (sc_dns c = DnsLocal) then Some (sc_resolver c) else None in
      let '(inner, connecting) := svc_call (sc_proxy_dst c) (sc_inner c) in
      (MkSocksConnector inner (sc_resolver c) (sc_proxy_dst c) (sc_auth c) (sc_version c) (sc_dns c),
       MkTunneling (sc_version c) (sc_auth c) (SNew dst port addr resolver connecting))
  end.

(** Polls until the future is done, at most [n] times. *)
Fixpoint socks_drive (n : nat) (f : Tunneling U R L F T) : Tunneling U R L F T * outcome SocksError T :=
  match n with
  | O => (f, Pending)
  | S n => match socks_poll f with (f, Pending) => socks_drive n f | r => r end
  end.
End connect.

(** ** What is refused, and what is sent *)

Section spec.
Context {U : Type} `{UriOps U} {C R L : Type} `{Res : !Service R bytes L (list SocketAddr)}.

(** The host name a lookup was started for. *)
Inductive lookup_of (host : bytes) : L -> Prop :=
| lookup_started r : lookup_of host (svc_call host r).2
| lookup_later l l' : lookup_of host l -> svc_poll l = (l', Pending) -> lookup_of host l'.

(** Why [check] refuses a destination. *)
Definition refused_for (c : SocksConnector U C R) (dst : U) (e : SocksError) : Prop :=
  match e with
  | SkMissingHost => dst_host dst = None
  | SkInvalidPort => dst_port dst = None
  | SkAddressNotSupported => sc_version c = SV4 /\ exists h o, dst_host dst = Some h /\ parse_ip (unbracket h) = Some (V6 o)
  | SkHostTooLong =>
      sc_dns c = DnsRemote /\ exists h, dst_host dst = Some h /\ parse_ip (unbracket h) = None /\
        (MAX_HOST_LEN < len (unbracket h) \/
         sc_version c = SV4 /\ exists u p, sc_auth c = Some (u, p) /\ SOCKS4A_MAX_ID_AND_HOST < len u + len (unbracket h))
  | SkInvalidUserId => sc_version c = SV4 /\ exists u p, sc_auth c = Some (u, p) /\ (MAX_USER_ID_LEN < len u \/ 0 ∈ u)
  | SkInvalidCredentials =>
      sc_version c = SV5 /\ exists u p x, sc_auth c = Some (u, p) /\ (x = u \/ x = p) /\ (x = [] \/ MAX_CREDENTIAL_LEN < len x)
  | SkUtf8 =>
      exists u p x, sc_auth c = Some (u, p) /\ (x = u \/ sc_version c = SV5 /\ x = p) /\ ~ is_str x
  | _ => False
  end.

(** The destination that stands in a request: an IP literal as it is, another
    host as the proxy or the resolver resolves it. *)
Definition target_fits (c : SocksConnector U C R) (host : bytes) (port : Z) (t : TargetAddr) : Prop :=
  match parse_ip host with
  | Some ip => t = TIp (sa_new ip port)
  | None =>
      match sc_dns c with
      | DnsRemote => t = TDomain host port /\ len host <= MAX_HOST_LEN
      | DnsLocal => exists l l' addrs a, lookup_of host l /\ svc_poll l = (l', Ready addrs) /\ usable (sc_version c) addrs = Some a /\ t = TIp (set_port port a)
      end
  end /\
  match t with TIp a => sc_version c = SV4 -> sa_is_ipv4 a = true | TDomain _ _ => True end.

(** A request that tokio-socks can encode and that says what the connector was
    told. *)
Definition request_fits (c : SocksConnector U C R) (dst : U) (h : Handshake) : Prop :=
  exists host port t, dst_host dst = Some host /\ dst_port dst = Some port /\ port ≠ 0 /\ target_fits c (unbracket host) port t /\
  match sc_version c, sc_auth c with
  | SV4, Some (u, _) =>
      (u = [] /\ h = Socks4 t \/ u ≠ [] /\ h = Socks4UserId t u) /\ len u <= MAX_USER_ID_LEN /\ (0 ∉ u) /\ is_str u /\
      match t with TDomain d _ => len u + len d <= SOCKS4A_MAX_ID_AND_HOST | TIp _ => True end
  | SV4, None => h = Socks4 t
  | SV5, Some (u, p) => h = Socks5Password t u p /\ 1 <= len u <= MAX_CREDENTIAL_LEN /\ is_str u /\ 1 <= len p <= MAX_CREDENTIAL_LEN /\ is_str p
  | SV5, None => h = Socks5 t
  end.

(** What a handshake comes to. *)
Inductive continues : exchange -> exchange -> Prop :=
| continues_refl x : continues x x
| continues_read cap k r x : continues (k r) x -> continues (XRead cap k) x
| continues_write b k r x : continues (k r) x -> continues (XWrite b k) x.
End spec.

(** ** The checks are these *)

Section checks.
Context {U : Type} `{UriOps U} {C R L : Type} `{Res : !Service R bytes L (list SocketAddr)}.
Implicit Types (c : SocksConnector U C R) (dst : U).

Lemma check_utf8_spec v : match check_utf8 v with Ok v' => v' = v /\ is_str v | Err e => e = SkUtf8 /\ ~ is_str v end.
Proof. unfold check_utf8, is_str. by destruct (from_utf8 v). Qed.

Lemma check_credential_spec v :
  match check_credential v with
  | Ok _ => 1 <= len v <= MAX_CREDENTIAL_LEN /\ is_str v
  | Err e => e = SkInvalidCredentials /\ (v = [] \/ MAX_CREDENTIAL_LEN < len v) \/ e = SkUtf8 /\ ~ is_str v
  end.
Proof.
  unfold check_credential. pose proof (len_nonneg v). destruct (_ && _) eqn:E; simpl.
  - apply andb_true_iff in E as [E1 E2]. zbool. pose proof (check_utf8_spec v) as Hu. destruct (check_utf8 v); simpl; [naive_solver|by right].
  - left. split; [done|]. apply andb_false_iff in E as [E|E]; zbool; [left|by right].
    destruct v; [done|]. unfold len in *. simpl in *. lia.
Qed.

(** Everything [check_socks_auth] accepts, and what it refuses. *)
Definition auth_fits (version : Version) (auth : option (bytes * bytes)) (room : option Z) : Prop :=
  match version, auth with
  | _, None => True
  | SV4, Some (u, _) => len u <= MAX_USER_ID_LEN /\ (0 ∉ u) /\ is_str u /\ match room with Some n => len u + n <= SOCKS4A_MAX_ID_AND_HOST | None => True end
  | SV5, Some (u, p) => 1 <= len u <= MAX_CREDENTIAL_LEN /\ is_str u /\ 1 <= len p <= MAX_CREDENTIAL_LEN /\ is_str p
  end.

Lemma check_spec c dst :
  match check c dst with
  | Err e => refused_for c dst e
  | Ok (port, addr) =>
      exists h, dst_host dst = Some h /\ dst_port dst = Some port /\
        auth_fits (sc_version c) (sc_auth c) (if bool_decide (addr = None) && bool_decide (sc_dns c = DnsRemote) then Some (len (unbracket h)) else None) /\
        match parse_ip (unbracket h) with
        | Some ip => addr = Some (sa_new ip port) /\ (sc_version c = SV4 -> is_ipv6 ip = false)
        | None => addr = None /\ (sc_dns c = DnsRemote -> len (unbracket h) <= MAX_HOST_LEN)
        end
  end.
Proof.
  unfold check. destruct (dst_host dst) as [h|] eqn:Eh; [|done]. cbn [fmap option_fmap option_map]. destruct (dst_port dst) as [port|] eqn:Ep; [|done].
  assert (match check_addr (sc_version c) (bool_decide (sc_dns c = DnsRemote)) (unbracket h) port with
    | Err e => refused_for c dst e
    | Ok addr => match parse_ip (unbracket h) with
        | Some ip => addr = Some (sa_new ip port) /\ (sc_version c = SV4 -> is_ipv6 ip = false)
        | None => addr = None /\ (sc_dns c = DnsRemote -> len (unbracket h) <= MAX_HOST_LEN) end end) as Ha.
  { unfold check_addr. destruct (parse_ip (unbracket h)) as [ip|] eqn:Ei.
    - destruct (bool_decide_reflect (sc_version c = SV4)) as [Hv|Hv]; [destruct ip as [o|o]|]; simpl; try done. by split; [done|exists h, o].
    - destruct (bool_decide_reflect (sc_dns c = DnsRemote)) as [Hd|Hd]; simpl; [|done].
      destruct (Z.ltb_spec MAX_HOST_LEN (len (unbracket h))); [|done]. split; [done|]. exists h. split_and!; [done|done|by left]. }
  destruct (check_addr _ _ _ _) as [addr|e]; [|exact Ha]. simpl.
  assert (match check_socks_auth (sc_version c) (sc_auth c) (bool_decide (sc_dns c = DnsRemote)) addr (unbracket h) with
    | Err e => refused_for c dst e
    | Ok _ => auth_fits (sc_version c) (sc_auth c) (if bool_decide (addr = None) && bool_decide (sc_dns c = DnsRemote) then Some (len (unbracket h)) else None) end) as Hc.
  { unfold check_socks_auth, auth_fits. destruct (sc_version c) eqn:Ev, (sc_auth c) as [[u p]|] eqn:Eu; try done.
    - destruct (Z.ltb_spec MAX_USER_ID_LEN (len u)); simpl; [split; [done|]; exists u, p; naive_solver|].
      case_bool_decide as Hz; [split; [done|]; exists u, p; naive_solver|].
      pose proof (check_utf8_spec u) as Hu. destruct (check_utf8 u) as [u'|e]; simpl; [|destruct Hu as [-> Hu]; exists u, p, u; naive_solver].
      destruct Hu as [_ Hu]. destruct (bool_decide_reflect (sc_dns c = DnsRemote)) as [Hd|Hd]; simpl; [|by rewrite andb_false_r].
      case_bool_decide as Hn; simpl; [|done]. destruct (Z.ltb_spec SOCKS4A_MAX_ID_AND_HOST (len u + len (unbracket h))); [|done].
      split; [done|]. exists h. split; [done|]. destruct (parse_ip (unbracket h)); [naive_solver|]. split; [done|]. right. split; [done|]. by exists u, p.
    - pose proof (check_credential_spec u) as Hu. destruct (check_credential u) as [[]|e]; simpl.
      + pose proof (check_credential_spec p) as Hp. destruct (check_credential p) as [[]|e]; [naive_solver|].
        destruct Hp as [[-> Hp]|[-> Hp]]; [split; [done|]; exists u, p, p; naive_solver|exists u, p, p; naive_solver].
      + destruct Hu as [[-> Hu]|[-> Hu]]; [split; [done|]; exists u, p, u; naive_solver|exists u, p, u; naive_solver]. }
  destruct (check_socks_auth _ _ _ _ _) as [[]|e]; [|exact Hc]. simpl. by exists h.
Qed.
End checks.

(** ** Every state of the future *)

Section states.
Context {U : Type} `{UriOps U} {C F T R L : Type}.
Context `{Conn : !Service C U F T} `{Res : !Service R bytes L (list SocketAddr)} `{Io : !AsyncIo T} `{Ts : !TokioSocks}.
Context (target_first : bool) (c : SocksConnector U C R) (dst : U).
Implicit Types (s : Stage U R L F T) (f : Tunneling U R L F T).

(** The resolver as it gets ready, and the connecting to the proxy as it is
    polled. *)
Inductive resolver_of : R -> Prop :=
| resolver_started : resolver_of (sc_resolver c)
| resolver_later r r' : resolver_of r -> svc_poll_ready r = (r', Pending) -> resolver_of r'.

Inductive connecting_of : F -> Prop :=
| connecting_started : connecting_of (svc_call (sc_proxy_dst c) (sc_inner c)).2
| connecting_later (g g' : F) : connecting_of g -> svc_poll g = (g', Pending) -> connecting_of g'.

(** A host name that is looked up here. *)
Definition looked_up (host : bytes) : Prop := sc_dns c = DnsLocal /\ parse_ip host = None.

Definition target_ok (host : bytes) (port : Z) (m : MaybeDone (Target R L) TargetAddr) : Prop :=
  match m with
  | MDone t => target_fits c host port t
  | MFuture (TNew addr r) => 
      match parse_ip host with
      | Some ip => addr = Some (sa_new ip port) /\ (sc_version c = SV4 -> is_ipv6 ip = false) /\ r = None
      | None => addr = None /\ if decide (sc_dns c = DnsLocal) then r = Some (sc_resolver c) else r = None /\ len host <= MAX_HOST_LEN
      end
  | MFuture (TResolver r) => looked_up host /\ resolver_of r
  | MFuture (TLookup l) => looked_up host /\ lookup_of host l
  end.

Definition conn_ok (m : MaybeDone F T) : Prop := match m with MFuture f => connecting_of f | MDone _ => True end.

(** An error of the future once it connects, by what failed: connecting to the
    proxy, with the inner connector's error; the resolver, asked for a name that
    is looked up here, with its error, or because it gave no address the version
    can carry; the handshake that was started, with tokio-socks's error. *)
Definition late_error (host : bytes) (e : SocksError) : Prop :=
  match e with
  | SkConnectFailed m => exists g g' : F, connecting_of g /\ svc_poll g = (g', Failed m)
  | SkDnsResolveFailure m => looked_up host /\
      ((exists r r', resolver_of r /\ svc_poll_ready r = (r', Failed m)) \/ exists l l', lookup_of (R := R) host l /\ svc_poll l = (l', Failed m))
  | SkDnsFailure => looked_up host /\ exists l l' addrs, lookup_of (R := R) host l /\ svc_poll l = (l', Ready addrs) /\
      match sc_version c with SV4 => Forall (fun a => sa_is_ipv4 a = false) addrs | SV5 => addrs = [] end
  | SkHandshake m => exists h x x' (t t' : T), request_fits c dst h /\ continues (socks_start h) x /\ exchange_poll x t = (t', x', Failed m)
  | _ => False
  end.

(** What holds of the credentials for a target. *)
Definition room_of (host : bytes) : option Z :=
  if bool_decide (parse_ip host = None) && bool_decide (sc_dns c = DnsRemote) then Some (len host) else None.

Definition stage_ok (s : Stage U R L F T) : Prop :=
  match s with
  | SRefused _ => False
  | SNew dst' port addr r f => dst' = dst /\ connecting_of f /\ exists h, dst_host dst = Some h /\ dst_port dst = Some port /\
      auth_fits (sc_version c) (sc_auth c) (room_of (unbracket h)) /\ target_ok (unbracket h) port (MFuture (TNew addr r))
  | SJoin host port j => exists h, dst_host dst = Some h /\ host = unbracket h /\ dst_port dst = Some port /\
      auth_fits (sc_version c) (sc_auth c) (room_of host) /\ target_ok host port j.1 /\ conn_ok j.2
  | SHandshake x _ => exists h, request_fits c dst h /\ continues (socks_start h) x
  | SOver => True
  end.

Lemma usable_ipv4 addrs a : usable SV4 addrs = Some a -> sa_is_ipv4 a = true.
Proof. intros Hf. by apply find_some in Hf as [_ ?]. Qed.

Lemma usable_none v addrs : usable v addrs = None -> match v with SV4 => Forall (fun a => sa_is_ipv4 a = false) addrs | SV5 => addrs = [] end.
Proof. destruct v; cbn; [|by destruct addrs]. intros Hf. apply Forall_forall. intros a Ha. eapply find_none; [done|by apply list_elem_of_In]. Qed.

Lemma lookup_poll_ok host port l : looked_up host -> lookup_of host l ->
  match lookup_poll (R := R) port (sc_version c) l with
  | (_, Ready a) => target_ok host port (MDone a)
  | (t, Pending) => target_ok host port (MFuture t)
  | (_, Failed e) => late_error host e
  | _ => True
  end.
Proof.
  intros Hu Hl. unfold lookup_poll. destruct (svc_poll l) as [l' [addrs|e| | |]] eqn:E; [|by split; [|right; eauto]| |done|done].
  - destruct (usable (sc_version c) addrs) as [a|] eqn:Ea; [|by split; [|eexists _, _, _; split_and!; [..|by apply usable_none]]]. destruct Hu as [Hd Hp]. cbn [target_ok]. unfold target_fits. rewrite Hp, Hd.
    split; [by exists l, l', addrs, a|]. intros Hv. rewrite Hv in Ea. apply usable_ipv4 in Ea. by destruct a.
  - cbn [target_ok]. split; [done|]. by eapply lookup_later.
Qed.

Lemma resolve_ok host port r : looked_up host -> resolver_of r ->
  match resolve (L := L) host port (sc_version c) r with
  | (_, Ready a) => target_ok host port (MDone a)
  | (t, Pending) => target_ok host port (MFuture t)
  | (_, Failed e) => late_error host e
  | _ => True
  end.
Proof.
  intros Hu Hr. unfold resolve. destruct (svc_poll_ready r) as [r' [u|e| | |]] eqn:E; try done.
  - apply lookup_poll_ok; [done|constructor].
  - split; [done|]. left. eauto.
  - split; [done|]. by eapply resolver_later.
Qed.

Lemma target_poll_ok host port t : target_ok host port (MFuture t) ->
  match target_poll host port (sc_version c) t with
  | (_, Ready a) => target_ok host port (MDone a)
  | (t, Pending) => target_ok host port (MFuture t)
  | (_, Failed e) => late_error host e
  | _ => True
  end.
Proof.
  destruct t as [addr r|r|l]; [|intros [??]; by apply resolve_ok|intros [??]; by apply lookup_poll_ok]. intros Ht. cbn [target_ok] in Ht. destruct (parse_ip host) as [ip|] eqn:Ei.
  - destruct Ht as (-> & Hv & _). cbn. unfold target_fits. rewrite Ei. split; [done|]. intros Hs. specialize (Hv Hs). by destruct ip.
  - destruct Ht as [-> Hd]. destruct (decide (sc_dns c = DnsLocal)) as [Hl|Hl] in Hd.
    + subst r. apply resolve_ok; [done|constructor].
    + destruct Hd as [-> Hh]. cbn. unfold target_fits. rewrite Ei. destruct (sc_dns c); [done|]. by repeat split.
Qed.

(** [try_join] keeps what holds of its futures. *)
Definition side_keeps {G E A} (p : M G E A) (P : MaybeDone G A -> Prop) (Q : E -> Prop) : Prop :=
  forall g, P (MFuture g) -> match p g with (_, Ready a) => P (MDone a) | (g', Pending) => P (MFuture g') | (_, Failed e) => Q e | _ => True end.

Lemma maybe_poll_ok {G E A} (p : M G E A) P Q m : side_keeps p P Q -> P m ->
  match maybe_poll p m with (m, Ready _) | (m, Pending) => P m | (_, Failed e) => Q e | _ => True end.
Proof. intros Hp Hm. destruct m as [g|a]; [|done]. cbn. specialize (Hp g Hm). by destruct (p g) as [g' []]. Qed.

Lemma try_join_ok {G G' E A B} (p : M G E A) (q : M G' E B) P P' Q first j : side_keeps p P Q -> side_keeps q P' Q -> P j.1 -> P' j.2 ->
  match try_join first p q j with
  | (_, Ready (a, _)) => P (MDone a)
  | (j', Pending) => P j'.1 /\ P' j'.2
  | (_, Failed e) => Q e
  | _ => True
  end.
Proof.
  destruct j as [m m']. cbn [fst snd]. intros Hp Hq Hm Hm'. pose proof (maybe_poll_ok p P Q m Hp Hm) as Hl. pose proof (maybe_poll_ok q P' Q m' Hq Hm') as Hr.
  unfold try_join, both, zoom. destruct (maybe_poll p m) as [l o] eqn:E1, (maybe_poll q m') as [r o'] eqn:E2.
  destruct first, o, o'; cbn [fst snd]; rewrite ?E1, ?E2; cbn [fst snd]; rewrite ?E1, ?E2; try done; destruct l, r; done.
Qed.

Lemma connect_poll_ok host : side_keeps connect_poll conn_ok (late_error host).
Proof.
  intros f Hf. unfold connect_poll, map_err, match_ready. destruct (svc_poll f) as [f' [a|e| | |]] eqn:E; try done; [by exists f, f'|by eapply connecting_later].
Qed.

Lemma continues_trans x y z : continues x y -> continues y z -> continues x z.
Proof. induction 1; intros; [done|eapply continues_read; eauto|eapply continues_write; eauto]. Qed.

Lemma exchange_poll_continues x (t : T) : match exchange_poll x t with (_, x', _) => continues x x' end.
Proof.
  revert t. induction x as [[u|e]|cap k IH|b k IH]; intros t; cbn [exchange_poll]; try constructor.
  - destruct (socket_read cap t) as [t' [a|e| | |]]; try constructor; specialize (IH) as IH'.
    + specialize (IH' (Ok a) t'). destruct (exchange_poll _ t') as [[? ?] ?]. by eapply continues_read.
    + specialize (IH' (Err e) t'). destruct (exchange_poll _ t') as [[? ?] ?]. by eapply continues_read.
  - destruct (socket_write b t) as [t' [a|e| | |]]; try constructor; specialize (IH) as IH'.
    + specialize (IH' (Ok a) t'). destruct (exchange_poll _ t') as [[? ?] ?]. by eapply continues_write.
    + specialize (IH' (Err e) t'). destruct (exchange_poll _ t') as [[? ?] ?]. by eapply continues_write.
Qed.

(** Credentials that were checked are sent as they are. *)
Lemma handshake_fits h port (t : TargetAddr) : dst_host dst = Some h -> dst_port dst = Some port ->
  auth_fits (sc_version c) (sc_auth c) (room_of (unbracket h)) -> target_fits c (unbracket h) port t ->
  exists r, handshake t (sc_version c) (sc_auth c) = Ok r /\ request_fits c dst r.
Proof.
  intros Hh Hp Ha Ht. 
  assert (port ≠ 0) as H0p.
  { revert Hp. unfold dst_port. destruct (uri_authority dst) as [a|]; [|done]. cbn. destruct (authority_port_u16 a) as [q|].
    - destruct (Z.eqb_spec q 0); [done|]. by intros [= <-].
    - destruct (strip_prefix _ _) as [tl|]; [|done]. cbn. destruct (negb _); [done|]. intros [= <-]. by destruct (match uri_scheme dst with Some _ => _ | None => _ end). }
  assert (forall v, is_str v -> check_utf8 v = Ok v) as Hu by (intros v Hv; unfold check_utf8; by rewrite Hv).
  assert (forall d q, t = TDomain d q -> room_of (unbracket h) = Some (len d)) as Hr.
  { intros d q ->. destruct Ht as [Ht _]. unfold room_of. destruct (parse_ip (unbracket h)); [done|]. destruct (sc_dns c); [naive_solver|]. destruct Ht as [[= -> ->] _]. done. }
  unfold handshake, request_fits. unfold auth_fits in Ha. destruct (sc_version c), (sc_auth c) as [[u p]|].
  - destruct Ha as (Hl & Hn & Hs & Hroom). destruct (decide (u = [])) as [->|Hne]; [|rewrite (Hu u) by done]; eexists; (split; [done|]);
      exists h, port, t; (split_and!; [done..| |done|done|done|]); [by left|destruct t; [done|by erewrite Hr in Hroom]|by right|destruct t; [done|by erewrite Hr in Hroom]].
  - eexists. split; [done|]. by exists h, port, t.
  - destruct Ha as (? & ? & ? & ?). rewrite (Hu u), (Hu p) by done. eexists. split; [done|]. by exists h, port, t.
  - eexists. split; [done|]. by exists h, port, t.
Qed.

(** A result of the future. *)
Definition outcome_ok (host : bytes) (o : outcome SocksError T) : Prop :=
  match o with
  | Ready io => exists h x x' (t : T), request_fits c dst h /\ continues (socks_start h) x /\ exchange_poll x t = (io, x', Ready tt)
  | Failed e => late_error host e
  | _ => True
  end.

Lemma handshake_poll_ok host h x (io : T) : request_fits c dst h -> continues (socks_start h) x ->
  let '(s, o) := handshake_poll (U := U) (R := R) (L := L) (F := F) x io in stage_ok s /\ outcome_ok host o.
Proof.
  intros Hr Hc. unfold handshake_poll. pose proof (exchange_poll_continues x io) as Hx. destruct (exchange_poll x io) as [[io' x'] [[]|e| | |]] eqn:E; try done.
  - split; [done|]. by exists h, x, x', io.
  - split; [done|]. by exists h, x, x', io, io'.
  - split; [|done]. exists h. split; [done|]. by eapply continues_trans.
Qed.

Lemma join_poll_ok h port j : dst_host dst = Some h -> dst_port dst = Some port ->
  auth_fits (sc_version c) (sc_auth c) (room_of (unbracket h)) -> target_ok (unbracket h) port j.1 -> conn_ok j.2 ->
  let '(s, o) := join_poll (U := U) target_first (unbracket h) port (sc_version c) (sc_auth c) j in stage_ok s /\ outcome_ok (unbracket h) o.
Proof.
  intros Hh Hp Ha Ht Hj. unfold join_poll.
  pose proof (try_join_ok _ _ _ _ _ target_first j (target_poll_ok (unbracket h) port) (connect_poll_ok (unbracket h)) Ht Hj) as Hk.
  destruct (try_join _ _ _ j) as [j' [[t io]|e| | |]]; try done.
  - destruct (handshake_fits h port t) as (r & -> & Hr); [done..|]. apply (handshake_poll_ok _ r); [done|constructor].
  - split; [|done]. by exists h.
Qed.

Lemma stage_poll_ok h s : dst_host dst = Some h -> stage_ok s ->
  let '(s', o) := stage_poll target_first (sc_version c) (sc_auth c) s in stage_ok s' /\ outcome_ok (unbracket h) o.
Proof.
  intros Hh. destruct s as [e|dst' port addr r f|host port j|x io|]; cbn [stage_ok stage_poll]; [done| | | |done].
  - intros (-> & Hf & h' & Hh' & Hp & Ha & Ht). rewrite Hh. rewrite Hh' in Hh. injection Hh as ->. by apply join_poll_ok.
  - intros (h' & Hh' & -> & Hp & Ha & Ht & Hj). rewrite Hh' in Hh. injection Hh as ->. by apply join_poll_ok.
  - intros (r & Hr & Hx). by apply (handshake_poll_ok _ r).
Qed.

Lemma socks_drive_ok h n f : dst_host dst = Some h -> sf_version f = sc_version c -> sf_auth f = sc_auth c -> stage_ok (sf_stage f) ->
  let '(f', o) := socks_drive target_first n f in stage_ok (sf_stage f') /\ outcome_ok (unbracket h) o.
Proof.
  intros Hh. revert f. induction n as [|n IH]; intros f Hv Ha Hs; [done|]. cbn [socks_drive]. unfold socks_poll.
  pose proof (stage_poll_ok h _ Hh Hs) as Hp. rewrite Hv, Ha in *. destruct (stage_poll _ _ _ (sf_stage f)) as [s' o].
  destruct o; try exact Hp. destruct Hp as [Hp _]. by apply IH.
Qed.

Lemma socks_call_ok port addr : check c dst = Ok (port, addr) ->
  let '(c', f) := socks_call (L := L) dst c in
  sc_inner c' = (svc_call (sc_proxy_dst c) (sc_inner c)).1 /\ sf_version f = sc_version c /\ sf_auth f = sc_auth c /\ stage_ok (sf_stage f).
Proof.
  intros Hc. unfold socks_call. rewrite Hc. pose proof (check_spec c dst) as Hs. rewrite Hc in Hs. destruct Hs as (h & Hh & Hp & Ha & Hi).
  destruct (svc_call (sc_proxy_dst c) (sc_inner c)) as [i f] eqn:Ef. cbn. split_and!; [done..| |]; [by pose proof connecting_started as Hf; rewrite Ef in Hf|].
  exists h. split_and!; [done|done| |].
  - unfold room_of. destruct (parse_ip (unbracket h)); destruct Hi as [-> _]; exact Ha.
  - destruct (parse_ip (unbracket h)) as [ip|]; destruct Hi as [? Hi]; subst addr; [done|]. split; [done|].
    destruct (decide (sc_dns c = DnsLocal)) as [->|Hd]; [done|]. rewrite (bool_decide_false _ Hd). split; [done|]. apply Hi. by destruct (sc_dns c).
Qed.
End states.

(** C23. A SOCKS connector refuses a destination or credentials that a request
    cannot carry before it connects: neither the inner connector nor the
    resolver is used and the error names the reason. Otherwise it connects to
    the proxy, and whatever the services and the connection do, the handshake
    that is started says exactly what the connector was told (an IP literal as
    it is, a host name for the proxy, or the first usable address the resolver
    gave for it with the destination's port), fits the limits of tokio-socks
    and is never an IPv6 address over SOCKS4; the connection handed out is one
    whose handshake succeeded, and later errors are those of connecting, of
    resolving (for a name resolved here only) and of the handshake. *)
Theorem socks_connects {U C F T R L} `{UriOps U} `{!Service C U F T} `{!Service R bytes L (list SocketAddr)} `{!AsyncIo T} `{!TokioSocks}
    target_first (c : SocksConnector U C R) (dst : U) n :
  let '(c', f) := socks_call (L := L) dst c in
  let '(f', o) := socks_drive target_first (S n) f in
  match check c dst with
  | Err e => refused_for c dst e /\ c' = c /\ sf_stage f = SRefused e /\ o = Failed e
  | Ok _ =>
      sc_inner c' = (svc_call (sc_proxy_dst c) (sc_inner c)).1 /\
      (forall x io, sf_stage f' = SHandshake x io -> exists h, request_fits c dst h /\ continues (socks_start h) x) /\
      exists host, dst_host dst = Some host /\ outcome_ok c dst (unbracket host) o
  end.
Proof.
  pose proof (check_spec c dst) as Hs. pose proof (socks_call_ok c dst) as Hc. pose proof (eq_refl (socks_call (L := L) dst c)) as Hf. unfold socks_call in Hf at 2.
  destruct (check c dst) as [[port addr]|e]; destruct (socks_call dst c) as [c' f].
  - destruct (Hc port addr eq_refl) as (Hi & Hv & Ha & Hok). destruct Hs as (h & Hh & _).
    pose proof (socks_drive_ok target_first c dst h (S n) f Hh Hv Ha Hok) as Hd. destruct (socks_drive target_first (S n) f) as [f' o]. destruct Hd as [Hd Ho].
    split_and!; [done| |by exists h]. intros x io Hx. by rewrite Hx in Hd.
  - injection Hf as -> ->. cbn. done.
Qed.

(** ** The future is done in the end *)

(** Services that do not panic and are not busy for ever. *)
Class ServiceLaws (Svc Req Fut Resp : Type) `{Service Svc Req Fut Resp} : Type := {
  svc_wait : Svc -> nat;
  fut_wait : Fut -> nat;
  svc_poll_ready_law : forall s s' o, svc_poll_ready s = (s', o) -> sound o /\ (o = Pending -> (svc_wait s' < svc_wait s)%nat);
  svc_poll_law : forall f f' o, svc_poll f = (f', o) -> sound o /\ (o = Pending -> (fut_wait f' < fut_wait f)%nat);
}.

Section live.
Context {U : Type} `{UriOps U} {C F T R L : Type}.
Context `{Conn : !Service C U F T} `{ConnL : !ServiceLaws C U F T} `{Res : !Service R bytes L (list SocketAddr)} `{ResL : !ServiceLaws R bytes L (list SocketAddr)}.
Context `{Io : !AsyncIo T} `{IoL : !AsyncIoLaws T} `{Ts : !TokioSocks} (target_first : bool).

Lemma socket_read_law cap (t t' : T) o : socket_read cap t = (t', o) ->
  sound o /\ (aio_patience t' <= aio_patience t)%nat /\ (o = Pending -> (aio_patience t' < aio_patience t)%nat).
Proof.
  unfold socket_read, mbind, M_bind. destruct (aio_flush t) as [t1 o1] eqn:E1. apply aio_flush_any in E1 as (_ & _ & E1).
  destruct o1 as [[]|e| | |]; [|destruct E1 as [? E1]; try done..].
  2-3: intros [= <- <-]; split_and!; [done|lia|try done; lia].
  - intros E. destruct o as [b|e| | |].
    + apply aio_read_ready in E as (_ & _ & _ & _ & E). split_and!; [done|lia|done].
    + apply aio_read_unready in E as (_ & _ & _ & E); [|done]. split_and!; [done|lia|done].
    + apply aio_read_unready in E as (_ & _ & _ & E); [|done]. split_and!; [done|lia|lia].
    + by apply aio_read_unready in E as (_ & _ & E & _).
    + by apply aio_read_unready in E as (_ & _ & E & _).
Qed.

Lemma socket_write_law b (t t' : T) o : socket_write b t = (t', o) ->
  sound o /\ (aio_patience t' <= aio_patience t)%nat /\ (o = Pending -> (aio_patience t' < aio_patience t)%nat).
Proof.
  unfold socket_write. intros E. destruct o as [n|e| | |].
  - by apply aio_write_ready in E as (_ & _ & _ & _ & E).
  - by apply aio_write_unready in E as (_ & _ & _ & E).
  - apply aio_write_unready in E as (_ & _ & _ & E); [|done]. split_and!; [done|lia|lia].
  - by apply aio_write_unready in E as (_ & _ & E & _).
  - by apply aio_write_unready in E as (_ & _ & E & _).
Qed.

Lemma exchange_poll_law x (t : T) :
  match exchange_poll x t with (t', x', o) => sound o /\ (aio_patience t' <= aio_patience t)%nat /\ (o = Pending -> (aio_patience t' < aio_patience t)%nat) end.
Proof.
  revert t. induction x as [[u|e]|cap k IH|b k IH]; intros t; cbn [exchange_poll]; [by split_and!..| |].
  - destruct (socket_read cap t) as [t' o] eqn:E. apply socket_read_law in E as (Hs & Hle & Hlt).
    destruct o as [a|e| | |]; [specialize (IH (Ok a) t')|specialize (IH (Err e) t')|split_and!; [done|lia|intros _; by apply Hlt]|done|done];
      destruct (exchange_poll _ t') as [[? ?] ?]; destruct IH as (? & ? & Hlt'); (split_and!; [done|lia|intros Ho; specialize (Hlt' Ho); lia]).
  - destruct (socket_write b t) as [t' o] eqn:E. apply socket_write_law in E as (Hs & Hle & Hlt).
    destruct o as [a|e| | |]; [specialize (IH (Ok a) t')|specialize (IH (Err e) t')|split_and!; [done|lia|intros _; by apply Hlt]|done|done];
      destruct (exchange_poll _ t') as [[? ?] ?]; destruct IH as (? & ? & Hlt'); (split_and!; [done|lia|intros Ho; specialize (Hlt' Ho); lia]).
Qed.

(** A stage from which some number of polls ends the future. *)
Definition ends (version : Version) (auth : option (bytes * bytes)) (s : Stage U R L F T) : Prop :=
  exists n f' o, socks_drive target_first n (MkTunneling version auth s) = (f', o) /\ sound o /\ o ≠ Pending.

Lemma ends_step v a s : (let '(s', o) := stage_poll target_first v a s in sound o /\ (o = Pending -> ends v a s')) -> ends v a s.
Proof.
  destruct (stage_poll target_first v a s) as [s' o] eqn:E. intros [Hs Hp]. assert (o = Pending \/ o ≠ Pending) as [->|Hn] by (destruct o; by auto).
  - destruct (Hp eq_refl) as (n & f' & o & Hd & Ho). exists (S n), f', o. split; [|done]. cbn [socks_drive]. unfold socks_poll. cbn. by rewrite E.
  - exists 1%nat, (MkTunneling v a s'), o. split; [|done]. cbn [socks_drive]. unfold socks_poll. cbn. rewrite E. by destruct o.
Qed.

Lemma handshake_ends v a x (io : T) : ends v a (SHandshake x io).
Proof.
  remember (aio_patience io) as p eqn:Ep. revert x io Ep. induction p as [p IH] using lt_wf_ind. intros x io ->. apply ends_step. cbn [stage_poll].
  unfold handshake_poll. pose proof (exchange_poll_law x io) as Hx. destruct (exchange_poll x io) as [[io' x'] o]. destruct Hx as (Hs & _ & Hp).
  destruct o; try done. split; [done|]. intros _. by eapply IH; [apply Hp|].
Qed.

(** How long a target can take, after whether the resolver still has to be
    asked. *)
Definition target_rank (m : MaybeDone (Target R L) TargetAddr) : nat := match m with MFuture (TNew _ _) | MFuture (TResolver _) => 1 | _ => 0 end.
Definition target_wait (m : MaybeDone (Target R L) TargetAddr) : nat :=
  match m with MFuture (TNew _ (Some r)) | MFuture (TResolver r) => svc_wait r | MFuture (TLookup l) => fut_wait l | _ => 0 end.
Definition conn_wait (m : MaybeDone F T) : nat := match m with MFuture f => fut_wait f | MDone _ => 0 end.

(** A target comes closer. *)
Definition closer (m' m : MaybeDone (Target R L) TargetAddr) : Prop :=
  (target_rank m' < target_rank m)%nat \/ target_rank m' = target_rank m /\ (target_wait m' < target_wait m)%nat.

Lemma lookup_poll_law port v l t' o : lookup_poll (R := R) port v l = (t', o) -> sound o /\ (o = Pending -> closer (MFuture t') (MFuture (TLookup l))).
Proof.
  unfold lookup_poll. destruct (svc_poll l) as [l' ol] eqn:E. apply svc_poll_law in E as [Hs Hp].
  destruct ol; try done; intros [= <- <-]; try done; [by destruct (usable v _)|]. split; [done|]. intros _. right. split; [done|by apply Hp].
Qed.

Lemma target_poll_law host port v t t' o : target_poll host port v t = (t', o) -> sound o /\ (o = Pending -> closer (MFuture t') (MFuture t)).
Proof.
  assert (forall r, resolve (L := L) host port v r = (t', o) -> sound o /\ (o = Pending -> closer (MFuture t') (MFuture (TResolver r)))) as Hr.
  { intros r. unfold resolve. destruct (svc_poll_ready r) as [r' o'] eqn:E. apply svc_poll_ready_law in E as [Hs Hp]. destruct o' as [u|e| | |]; try done.
    - destruct (lookup_poll port v _) as [t1 o1] eqn:E. intros [= <- <-]. pose proof (lookup_poll_law _ _ _ _ _ E) as [Ho Hc]. split; [done|]. intros Hpd.
      destruct (Hc Hpd) as [Hd|[Hd _]]; left; cbn in *; lia.
    - by intros [= <- <-].
    - intros [= <- <-]. split; [done|]. intros _. right. split; [done|by apply Hp]. }
  destruct t as [[addr|] [r|]|r|l]; cbn [target_poll]; try (by intros [= <- <-]); [apply Hr|apply Hr|apply lookup_poll_law].
Qed.

Definition side_done {G A} (m : MaybeDone G A) : Prop := match m with MDone _ => True | MFuture _ => False end.

Lemma target_side host port v m m' o : maybe_poll (target_poll host port v) m = (m', o) ->
  sound o /\ (o = Pending -> closer m' m) /\
  (o = Ready tt -> side_done m' /\ ((target_rank m' < target_rank m)%nat \/ target_rank m' = target_rank m /\ (target_wait m' <= target_wait m)%nat)).
Proof.
  destruct m as [t|a]; cbn [maybe_poll]; [|intros [= <- <-]; split_and!; [done|done|]; intros _; split; [done|by right]].
  destruct (target_poll host port v t) as [t' o'] eqn:E. apply target_poll_law in E as [Hs Hc]. destruct o'; try done; intros [= <- <-]; (split_and!; [done| |]); try done.
  - intros _. split; [done|]. destruct t; cbn; [left|left|right]; lia.
  - intros _. by apply Hc.
Qed.

Lemma conn_side m m' o : maybe_poll (F := F) (connect_poll (T := T)) m = (m', o) ->
  sound o /\ (o = Pending -> (conn_wait m' < conn_wait m)%nat) /\ (o = Ready tt -> side_done m' /\ (conn_wait m' <= conn_wait m)%nat).
Proof.
  destruct m as [f|a]; cbn [maybe_poll]; [|by intros [= <- <-]]. unfold connect_poll, map_err, match_ready.
  destruct (svc_poll f) as [f' o'] eqn:E. apply svc_poll_law in E as [Hs Hc]. destruct o'; try done; intros [= <- <-]; (split_and!; [done| |]); try done.
  - intros _. split; [done|]. cbn. lia.
  - intros _. by apply Hc.
Qed.

(** Joined, they come closer until both are done. *)
Lemma try_join_law host port v j j' o : try_join target_first (target_poll host port v) connect_poll j = (j', o) ->
  sound o /\ (o = Pending -> (target_rank j'.1 < target_rank j.1)%nat \/
    target_rank j'.1 = target_rank j.1 /\ (target_wait j'.1 + conn_wait j'.2 < target_wait j.1 + conn_wait j.2)%nat).
Proof.
  destruct j as [m m']. unfold try_join, both, zoom. cbn [fst snd].
  destruct (maybe_poll (target_poll host port v) m) as [l ol] eqn:E1, (maybe_poll connect_poll m') as [r or] eqn:E2.
  pose proof (target_side _ _ _ _ _ _ E1) as (Hs1 & Hp1 & Hr1). pose proof (conn_side _ _ _ E2) as (Hs2 & Hp2 & Hr2). unfold closer in Hp1.
  destruct target_first, ol as [[]|e| | |]; try done; destruct or as [[]|e'| | |]; try done; cbn [fst snd]; rewrite ?E1, ?E2; cbn [fst snd]; rewrite ?E1, ?E2;
    try (by intros [= <- <-]);
    try (destruct (Hr1 eq_refl) as [Hd1 Hw1]); try (destruct (Hr2 eq_refl) as [Hd2 Hw2]); try specialize (Hp1 eq_refl); try specialize (Hp2 eq_refl);
    try (intros [= <- <-]; split; [done|]; intros _; cbn; lia); destruct l, r; by try intros [= <- <-].
Qed.

Lemma handshake_stage v a x (io : T) : let '(s, o) := handshake_poll (U := U) (R := R) (L := L) (F := F) x io in sound o /\ (o = Pending -> ends v a s).
Proof.
  unfold handshake_poll. pose proof (exchange_poll_law x io) as Hx. destruct (exchange_poll x io) as [[io' x'] o]. destruct Hx as (Hs & _ & Hp).
  destruct o; try done. split; [done|]. intros _. apply handshake_ends.
Qed.

Lemma join_poll_ends host port v a j :
  (forall j', (target_rank j'.1 < target_rank j.1)%nat \/
    target_rank j'.1 = target_rank j.1 /\ (target_wait j'.1 + conn_wait j'.2 < target_wait j.1 + conn_wait j.2)%nat -> ends v a (SJoin host port j')) ->
  let '(s, o) := join_poll (U := U) target_first host port v a j in sound o /\ (o = Pending -> ends v a s).
Proof.
  intros Hj. unfold join_poll. destruct (try_join _ _ _ j) as [j' o] eqn:E. apply try_join_law in E as [Hs Hp].
  destruct o as [[t io]|e| | |]; try done; [|split; [done|]; intros _; by apply Hj, Hp].
  destruct (handshake t v a) as [h|e]; [|done]. apply handshake_stage.
Qed.

Lemma join_ends host port v a j : ends v a (SJoin host port j).
Proof.
  remember (target_rank j.1) as k eqn:Ek. revert j Ek. induction k as [k IHk] using lt_wf_ind. intros j.
  remember (target_wait j.1 + conn_wait j.2)%nat as p eqn:Ep. revert j Ep. induction p as [p IHp] using lt_wf_ind. intros j Ep Ek. apply ends_step. cbn [stage_poll].
  apply join_poll_ends. intros j' Hj. destruct Hj as [Hj|[Hr Hj]]; [by eapply IHk; [|done]; lia|]. by eapply IHp; [|done|]; lia.
Qed.

Lemma call_ends dst (c : SocksConnector U C R) : let f := (socks_call (L := L) dst c).2 in ends (sf_version f) (sf_auth f) (sf_stage f).
Proof.
  unfold socks_call. destruct (check c dst) as [[port addr]|e].
  - destruct (svc_call (sc_proxy_dst c) (sc_inner c)) as [i f]. cbn. apply ends_step. cbn [stage_poll].
    destruct (unbracket <$> dst_host dst); [|done]. apply join_poll_ends. intros j' _. apply join_ends.
  - cbn. by apply ends_step.
Qed.
End live.

(** C24. Over services and a connection that are not busy for ever and do not
    panic, connecting through a SOCKS proxy is done after finitely many polls:
    with a connection whose handshake succeeded, or an error that names what
    failed. That is why the destination was refused, or the inner connector's
    error under [ConnectFailed], the resolver's under [DnsResolveFailure],
    [DnsFailure] when it gave no address the version can carry, and tokio-socks's
    error under [Handshake]. It never panics; in particular credentials that
    passed the checks are not found invalid later. *)
Theorem socks_settles {U C F T R L} `{UriOps U} `{!Service C U F T} `{!ServiceLaws C U F T} `{!Service R bytes L (list SocketAddr)}
    `{!ServiceLaws R bytes L (list SocketAddr)} `{!AsyncIo T} `{!AsyncIoLaws T} `{!TokioSocks} target_first (c : SocksConnector U C R) (dst : U) :
  exists n f' o, socks_drive target_first n (socks_call (L := L) dst c).2 = (f', o) /\
  match o with
  | Ready _ => exists host, dst_host dst = Some host /\ outcome_ok c dst (unbracket host) o
  | Failed e => refused_for c dst e \/ exists host, dst_host dst = Some host /\ late_error c dst (unbracket host) e
  | _ => False
  end.
Proof.
  destruct (call_ends target_first dst c) as (n & f' & o & Hd & Hs & Hp). exists n, f', o. pose proof (check_spec c dst) as Hk. pose proof (socks_call_ok (L := L) c dst) as Hc.
  assert (socks_drive target_first n (socks_call (L := L) dst c).2 = (f', o)) as Hd' by (rewrite <-Hd; by destruct (socks_call dst c) as [? []]). split; [done|].
  destruct (check c dst) as [[port addr]|e] eqn:Ec.
  - specialize (Hc port addr eq_refl). destruct (socks_call (L := L) dst c) as [c' f]. destruct Hc as (_ & Hv & Ha & Hok). destruct Hk as (h & Hh & _).
    pose proof (socks_drive_ok target_first c dst h n f Hh Hv Ha Hok) as Ho. cbn [snd] in Hd'. rewrite Hd' in Ho. destruct Ho as [_ Ho]. destruct o; try done; [by exists h|right; by exists h].
  - clear Hd Hc. unfold socks_call in Hd'. rewrite Ec in Hd'. destruct n as [|n]; cbn in Hd'; injection Hd' as _ <-; [done|by left].
Qed.

(** ** What was written is flushed before a reply is awaited *)

(** An I/O object with the operations that were polled, the last one first, and
    whether they were ready. *)
Inductive io_op : Type := OpFlush | OpRead | OpWrite.
Record traced (T : Type) : Type := Traced { traced_io : T; traced_ops : list (io_op * bool) }.
Arguments Traced {T} _ _.
Arguments traced_io {T} _.
Arguments traced_ops {T} _.

Definition trace {T A} (op : io_op) (m : M T io_error A) : M (traced T) io_error A := fun t =>
  let '(io, o) := m (traced_io t) in (Traced io ((op, match o with Ready _ => true | _ => false end) :: traced_ops t), o).

#[export] Instance traced_AsyncIo {T} `{AsyncIo T} : AsyncIo (traced T) := {
  aio_read cap := trace OpRead (aio_read cap);
  aio_write b := trace OpWrite (aio_write b);
  aio_flush := trace OpFlush aio_flush;
}.

(** Every read comes right after a flush that was done. *)
Definition reads_flushed (ops : list (io_op * bool)) : Prop :=
  forall later b before, ops = later ++ (OpRead, b) :: before -> exists before', before = (OpFlush, true) :: before'.

Lemma reads_flushed_cons op b ops : reads_flushed ops -> (op = OpRead -> exists ops', ops = (OpFlush, true) :: ops') -> reads_flushed ((op, b) :: ops).
Proof. intros Ho Hr [|o later] b' before [= ? ?]; subst; [by apply Hr|by eapply Ho]. Qed.

Lemma exchange_flushes {T} `{AsyncIo T} x (t : traced T) : reads_flushed (traced_ops t) ->
  reads_flushed (traced_ops (exchange_poll x t).1.1) /\
  exchange_poll x (traced_io t) = (traced_io (exchange_poll x t).1.1, (exchange_poll x t).1.2, (exchange_poll x t).2).
Proof.
  revert t. induction x as [[u|e]|cap k IH|b k IH]; intros [t ops] Ht; cbn [exchange_poll]; [done|done| |].
  - unfold socket_read, mbind, M_bind. cbn [aio_flush aio_read traced_AsyncIo]. unfold trace. cbn [traced_io traced_ops].
    destruct (aio_flush t) as [t1 o1]. destruct o1 as [[]|e| | |]; cbn [traced_io traced_ops fst snd]; [|apply (IH (Err e)); by apply reads_flushed_cons|by split; [apply reads_flushed_cons|]..].
    destruct (aio_read cap t1) as [t2 o2].
    assert (forall b, reads_flushed ((OpRead, b) :: (OpFlush, true) :: ops)) as Hf by (intros; apply reads_flushed_cons; [by apply reads_flushed_cons|naive_solver]).
    destruct o2 as [a|e| | |]; cbn [traced_io traced_ops fst snd]; [apply (IH (Ok a)), Hf|apply (IH (Err e)), Hf|by split; [apply Hf|]..].
  - unfold socket_write. cbn [aio_write traced_AsyncIo]. unfold trace. cbn [traced_io traced_ops]. destruct (aio_write b t) as [t2 o2].
    assert (forall b, reads_flushed ((OpWrite, b) :: ops)) as Hf by (intros; by apply reads_flushed_cons).
    destruct o2 as [a|e| | |]; cbn [traced_io traced_ops fst snd]; [apply (IH (Ok a)), Hf|apply (IH (Err e)), Hf|by split; [apply Hf|]..].
Qed.

(** ** Concrete services *)

Module ConcreteSocksTcp.
Export ConcreteUri ConcreteAsync.

(** A service whose answer is ready after some polls. *)
Record desk (A : Type) : Type := Desk { desk_busy : nat; desk_answer : result string A }.
Arguments Desk {A} _ _.
Arguments desk_busy {A} _.
Arguments desk_answer {A} _.

Definition desk_poll {A} : M (desk A) string A := fun d =>
  match desk_busy d with
  | S n => (Desk n (desk_answer d), Pending)
  | O => (d, match desk_answer d with Ok a => Ready a | Err e => Failed e end)
  end.

#[export] Instance desk_Service {Req A} : Service (desk A) Req (desk A) A := {
  svc_poll_ready d := match desk_busy d with S n => (Desk n (desk_answer d), Pending) | O => (d, Ready tt) end;
  svc_call _ d := (d, Desk 2 (desk_answer d));
  svc_poll := desk_poll;
}.

#[export] Instance desk_ServiceLaws {Req A} : ServiceLaws (desk A) Req (desk A) A.
Proof.
  refine {| svc_wait := desk_busy; fut_wait := desk_busy |}.
  - intros [[|n] a] s' o; cbn; intros [= <- <-]; (split; [done|]); [done|]. cbn. intros _. lia.
  - intros [[|n] [a|e]] s' o; cbn; intros [= <- <-]; (split; [done|]); try done; cbn; intros _; lia.
Defined.

(** The destination in a request, for a peer that reads only this. *)
Definition wire_target (t : TargetAddr) : bytes := match t with TIp (SaV4 ip port) | TIp (SaV6 ip port _ _) => ip ++ be_bytes 2 port | TDomain d port => d ++ [0] ++ be_bytes 2 port end.
Definition handshake_target (h : Handshake) : TargetAddr := match h with Socks4UserId t _ | Socks4 t | Socks5Password t _ _ | Socks5 t => t end.

(** Writes the destination once and reads one byte of reply. *)
Definition talk (h : Handshake) : exchange :=
  XWrite (wire_target (handshake_target h)) (fun r => match r with
    | Err _ => XDone (Err "write"%string)
    | Ok _ => XRead 1 (fun r => match r with Ok [0] => XDone (Ok tt) | _ => XDone (Err "refused"%string) end)
    end).
#[export] Instance talk_TokioSocks : TokioSocks := talk.

Definition io : pipe := Pipe [None; Some (0, [])] [] 100.
Definition example_dst : uri := Uri (bs "http://example.com:8080/").
Definition socks (version : Version) (dns : DnsResolve) (auth : option (bytes * bytes)) : SocksConnector uri (desk pipe) (desk (list SocketAddr)) :=
  set_auth auth (set_dns_mode dns (set_version version (socks_new (Uri (bs "socks5://proxy:1080")) (Desk 1 (Ok io)) (Desk 3 (Ok [SaV6 (replicate 16 0) 0 0 0; SaV4 [192; 0; 2; 1] 0]))))).

Definition reach (c : SocksConnector uri (desk pipe) (desk (list SocketAddr))) (dst : uri) : outcome SocksError bytes :=
  match socks_drive true 20 (socks_call (L := desk (list SocketAddr)) dst c).2 with
  | (_, Ready p) => Ready (pipe_out p)
  | (_, Failed e) => Failed e
  | (_, Pending) => Pending
  | (_, Panicked) => Panicked
  | (_, NoFuel) => NoFuel
  end.

(** SOCKS4 takes the resolver's IPv4 address, SOCKS5 its first one. *)
Example reach_examples :
  reach (socks SV4 DnsLocal None) example_dst = Ready [192; 0; 2; 1; 31; 144] /\
  reach (socks SV5 DnsLocal None) example_dst = Ready (replicate 16 0 ++ [31; 144]) /\
  reach (socks SV5 DnsRemote None) example_dst = Ready (bs "example.com" ++ [0; 31; 144]) /\
  reach (socks SV4 DnsRemote (Some (bs "me", []))) (Uri (bs "http://[::1]/")) = Failed SkAddressNotSupported /\
  reach (socks SV5 DnsRemote (Some (bs "me", []))) example_dst = Failed SkInvalidCredentials /\
  reach (socks SV4 DnsRemote (Some (replicate 250 65, []))) (Uri (bs "http://" ++ replicate 254 97)) = Failed SkHostTooLong.
Proof. by vm_compute. Qed.

Lemma socks_connects_witness :
  match check (socks SV4 DnsLocal None) example_dst with Ok _ => True | Err _ => False end /\
  match check (socks SV4 DnsLocal None) example_dst with
  | Ok _ => exists host, dst_host example_dst = Some host /\
      outcome_ok (socks SV4 DnsLocal None) example_dst (unbracket host) (socks_drive true 20 (socks_call (L := desk (list SocketAddr)) example_dst (socks SV4 DnsLocal None)).2).2
  | Err _ => False
  end.
Proof.
  split; [by vm_compute|].
  pose proof (socks_connects (L := desk (list SocketAddr)) true (socks SV4 DnsLocal None) example_dst 19) as Hs.
  destruct (socks_call example_dst (socks SV4 DnsLocal None)) as [c' f]. cbn [snd]. destruct (socks_drive true 20 f) as [f' o]. cbn [snd].
  assert (exists r, check (socks SV4 DnsLocal None) example_dst = Ok r) as [r Hr] by (eexists; by vm_compute). rewrite Hr in *. by destruct Hs as (_ & _ & Hs).
Defined.

Lemma socks_settles_witness :
  exists n f' o, socks_drive true n (socks_call (L := desk (list SocketAddr)) example_dst (socks SV5 DnsLocal None)).2 = (f', o) /\
  match o with
  | Ready _ => exists host, dst_host example_dst = Some host /\ outcome_ok (socks SV5 DnsLocal None) example_dst (unbracket host) o
  | Failed e => refused_for (socks SV5 DnsLocal None) example_dst e \/ exists host, dst_host example_dst = Some host /\ late_error (socks SV5 DnsLocal None) example_dst (unbracket host) e
  | _ => False
  end.
Proof. exact (socks_settles true (socks SV5 DnsLocal None) example_dst). Defined.
End ConcreteSocksTcp.
